(* ===== verification/_CoqProject ===== *)
-Q . S2P
Prelude.v
Uint256.v
Config.v
Common.v
EvmAnalysis.v
EvmStack.v
EvmMemory.v
Rlp.v
RlpSpec.v
EvmState.v
EvmGas.v
EvmCalls.v
EvmInstructions.v
EvmOpcodes.v
EvmJumpTable.v
EvmInterpreter.v
EvmSpec.v
EvmInvariant.v
EvmExec.v
EvmCallSpec.v
EvmGasSpec.v
EvmSafety.v
StateDB.v
StateSpec.v
StateRevert.v
Instances.v
StateTheorems.v
StateFinalise.v
EvmTables.v
EvmTheorems.v
StateTransition.v
TransitionSpec.v
Header.v
Consensus.v
Ethash.v
EthashSpec.v
Transaction.v
TransactionSpec.v
TrieEncoding.v
Trie.v
TrieSpec.v
TrieOps.v
TrieHash.v
TrieDecode.v
TrieTheorems.v
TrieDB.v
TrieCommit.v
TrieProof.v
SecureTrie.v
StateRoot.v
StateRootSpec.v
StackTrie.v
StackTrieSpec.v
DeriveShaSpec.v
Block.v
BlockSpec.v
Processor.v
ProcessorSpec.v
ProcessorState.v
ForkId.v
Clique.v
CliqueSpec.v
Heap.v
TxList.v
TxListSpec.v
TxListTheorems.v
TxOrder.v
TxPricedList.v
TxPricedSpec.v
TxPool.v
TxPoolSpec.v
TxPoolOps.v
TxPoolMoves.v
TxPoolLimits.v
TxPoolTheorems.v
HeaderChain.v
HeaderChainSpec.v
HeaderChainTheorems.v
Snapshot.v
SnapshotSpec.v
