(* ===== verification/Prelude.v ===== *)
(** * A verification development of go-entropy

    go-entropy is a node of an Ethereum-like block chain.  A block's transactions
    are applied one after the other by the state transition, which buys gas, runs
    the virtual machine over the state database, and pays back what is left; the
    state database keeps accounts in memory over tries and journals every change
    so that calls can be undone; a consensus engine decides which headers and
    uncles are valid; RLP is the encoding everything is hashed in; Merkle tries
    give accounts, storage, transactions and receipts the root hashes that block
    headers commit to.  The block processor runs the transactions of a block, the
    transaction pool keeps the ones that may come next, and the header chain
    chooses among the forks it has seen.

    ** Files

    Shared:
    - [Prelude]: byte strings, machine integers, the result type (a value, a Go
      panic, or the model's out-of-fuel value) with its monad, tactics, lemmas;
    - [Uint256]: the interface of the 256-bit integer library, its documented
      behaviour ([Uint256Spec]) and a reference instance;
    - [Common]: common/bytes.go, common/mathutil/integer.go, evm/common.go, and
      what is used of math/big;
    - [Config]: config/config.go and the constants of config/protocol.go.

    RLP: [Rlp] models common/rlp (encode.go, encbuffer.go, raw.go, iterator.go);
    [RlpSpec] proves the buffered encoder equal to a recursive reference, reading
    inverse to writing, and the encoding prefix free, and reads an encoding back as
    a tree of strings and lists.

    The virtual machine (directory evm of the source): [EvmAnalysis] is
    analysis.go, [EvmStack] stack.go and stack_table.go, [EvmMemory] memory.go and
    memory_table.go, [EvmState] contract.go, interface.go and the contexts of
    evm.go, [EvmGas] gas.go, gas_table.go and operations_acl.go, [EvmCalls]
    contracts.go and the calls of evm.go, [EvmInstructions] instructions.go,
    [EvmOpcodes] opcodes.go, [EvmJumpTable] jump_table.go, eips.go and
    NewEVMInterpreter, [EvmInterpreter] the loop of interpreter.go.  A call frame
    is a [Frame] (program counter, stack, memory, contract, machine); an
    instruction maps a frame to a frame, its return data and an error.  The state
    database is the class [StateDB] there, with the methods of the Go interface.
    [EvmSpec] states what the machine relies on ([StateDBSpec], [CryptoSpec]),
    [EvmInvariant] the invariant of frames, [EvmExec], [EvmCallSpec] and
    [EvmGasSpec] that instructions, calls and gas functions keep it, [EvmSafety]
    closes the recursion and shows the fuel irrelevant, [EvmTables] treats the
    instruction sets and extra EIPs, [EvmTheorems] holds the theorems about whole
    calls and single instructions.

    The state database (blockchain/state): [StateDB] models statedb.go,
    state_object.go, journal.go and access_list.go over a [Backend] of tries,
    snapshots and code; [StateSpec] and [StateRevert] prove that it keeps the
    contract the machine relies on; [StateTheorems] (with the access list) and
    [StateFinalise] hold its theorems; [StateRoot] is IntermediateRoot with the
    updates of the account and storage tries, [StateRootSpec] its theorem.
    [Instances] has a concrete world, in which the theorems are evaluated.

    Messages and blocks: [StateTransition] is state_transition.go and gaspool.go,
    [TransitionSpec] its theorems; [Processor] is state_processor.go and the
    contexts of evm.go, with [ProcessorSpec] over any state transition and
    [ProcessorState] over the one of this development.

    Consensus: [Header] is the block header with its RLP encoding and hash,
    [Consensus] consensus/misc and CalcGasLimit, [Ethash] consensus/ethash
    (difficulty.go and consensus.go), [EthashSpec] their theorems; [Clique] is
    consensus/clique (snapshot.go and clique.go: votes, seals and proposals),
    [CliqueSpec] its theorems; [ForkId] is blockchain/forkid with its theorem.

    Tries (database/trie): [TrieEncoding] is encoding.go, [Trie] the nodes, their
    encoding, the hasher and the operations of trie.go over a [NodeReader];
    [TrieSpec] defines the abstract trees that tries stand for, [TrieOps],
    [TrieHash] and [TrieDecode] show that lookup, insertion, deletion, hashing and
    decoding implement them, [TrieTheorems] concludes; [TrieDB] is the node
    database with the committer (database.go, committer.go), [TrieCommit] its
    theorem; [SecureTrie] is secure_trie.go; [TrieProof] is proof.go (Prove and VerifyProof); [StackTrie] is
    stacktrie.go and DeriveSha, with [StackTrieSpec] and [DeriveShaSpec].

    Transactions and blocks (blockchain/model): [Transaction] is transaction.go,
    the three transaction types and transaction_signing.go, [TransactionSpec]
    their theorems; [Block] is bloom9.go, receipt.go, block.go and the body and
    state checks of block_validator.go, [BlockSpec] their theorems; [TxOrder] is
    the ordering of transactions by price and nonce for the miner.

    The transaction pool (blockchain): [Heap] is container/heap; [TxList] is the
    nonce-indexed list of tx_list.go, which [TxListSpec] and [TxListTheorems] show
    to implement a sorted list; [TxPricedList] has the lookup set, the price heaps
    and the priority queue, [TxPricedSpec] their contracts; [TxPool] is tx_pool.go
    and tx_noncer.go.  [TxPoolSpec] states the invariant, [TxPoolOps], [TxPoolMoves]
    and [TxPoolLimits] that additions, promotions and demotions, and the limits
    keep it, [TxPoolTheorems] concludes over sequences of operations, and in its
    module [TxPoolExec] composes the pool with the state transition.

    The header chain: [HeaderChain] is blockchain/headerchain.go, forkchoice.go and
    the header tables of database/rawdb/accessors_chain.go, over a cache library
    (class [LRU]); [HeaderChainSpec] has its invariant and insertion,
    [HeaderChainTheorems] ancestors, rewinding and ranges, and in its module
    [HeaderChainRuns] the theorems about every run.

    The snapshot tree (blockchain/state/snapshot): [Snapshot] is snapshot.go,
    difflayer.go and disklayer.go over a heap of layers and shared slot maps, a
    Bloom filter and a cache library (classes [BloomFilter] and [FastCache]);
    [SnapshotSpec] has its invariant, that updates, flattening, writing to the disk
    and capping keep it, and the theorems about every run.

    ** What the theorems show

    - The machine: every call ends, stays in range, respects its gas, changes
      nothing when it fails or is static; rounds keep the invariant; jumps land
      on jump destinations; the analysis bitmap is exact; the fork tables are
      well formed.  One panic remains reachable: see [calls_stay_in_range].
    - The state database: reverting restores every observable; caches are
      transparent; transfers and storage writes do what they say; the end of a
      transaction removes exactly the accounts it should; the access list is a
      pair of sets.
    - Messages and blocks: which are accepted, where gas and fees go, that a failed
      transaction only pays; the receipts and the gas of a block; BLOCKHASH finds
      ancestors; the intermediate root is that of the account map after all writes.
    - Tries: a trie refines a finite map; its root hash identifies its contents;
      what is committed can be read back; the stack trie computes the same root;
      proofs are complete and sound.
    - Transactions and blocks: hashes identify transactions and headers; signed
      transactions recover to their sender; bloom filters
      are exact; headers commit to bodies, and assembled blocks validate.
    - Consensus: the two difficulty implementations agree where the difficulty fits
      256 bits; base fees and gas
      limits stay in their bounds; accepted uncles are what they should be;
      rewards are exact; Clique's snapshots are consistent, its signers change by
      majority only, it is never stuck and its seals verify; fork identifiers are
      accepted by nodes of the same schedule, except exactly at a fork block.
    - The transaction pool: whatever is added, reorganised, repriced or evicted, it
      does not panic and its lookup set, lists, price heaps and nonces agree; a
      reorganisation enforces the limits; what is added was valid; what is valid
      the state transition does not refuse.  The miner is offered the best tip
      first, every account in nonce order.
    - The header chain: insertions and rewinds keep the canonical numbers a linked
      chain from the genesis to the head, insertions keep the heaviest head, if none
      is interrupted once it has filled the caches;
      ancestors, common ancestors and ranges are those of the parent links.
    - The snapshot tree: a layer that is alive shows the state of its block, through
      filters, merges in place, the disk and its cache; updates and caps return, and
      caps keep the layers they should.
    - RLP: encoder, splitting, integers and counting are correct.

    ** Modelling decisions

    A Go integer of a fixed width is an integer with the wrap-around written out
    ([u64], [add64], [i64]); a [big.Int] is an integer; a pointer that may be nil
    is an option.  Go panics are values ([Panic]), so that their absence is a
    theorem.  State is passed explicitly.  The interpreter loop recurses through
    nested calls, so [run_loop] takes fuel: [Run] gives it one more than the gas
    of the contract, which is enough since every round that goes on spends gas
    ([run_loop_fuel_irrelevant]).  Decoding a trie node takes the length of the
    encoding and one more; finding a Clique snapshot takes the block number and
    one more, since every round goes one block back; the walk behind BLOCKHASH, the
    reorganisations of the pool and of the header chain and the rewind do so for
    the same reason.  The heap operations take the length of the heap, discarding
    from the price heaps twice the urgent and once the floating entries and one
    more, the equalisation of offenders the length of a list, and the search for
    leftovers above a rewound head the highest number stored.  Reads, merges and
    removals in the snapshot tree take the number of objects allocated, since no
    chain of layers is longer.  Each bound is proved
    enough by the theorem that the operation returns.  Other loops take the length
    of their input or a constant the source bounds them by.  Hash and signature
    functions, the 256-bit library, the proof-of-work function and the backend of
    the state database are parameters, with what is relied on as named classes.
    Of the hash function the machine and the theorems on headers, uncles and
    transactions rely on idealised collision resistance ([CryptoSpec]): the analysis
    of code is cached under its hash, for code that programs make up as they run,
    and headers are kept under theirs.  The theorems about tries name the collisions
    they exclude.

    ** Not modelled

    Tracing (only observes), logging and metrics; of the trie package the
    iterators, range proofs, state sync and the disk side of the node database
    (dereferencing, capping, flushing); the generator, journal and iterators of the
    snapshot tree; Commit and the prefetcher of the state database; the precompiled
    contracts the machine never selects; the reflection-based part of RLP decoding
    and the JSON codecs; the claude engine (its source is commented out) and the
    beacon engine; the
    goroutine that schedules the pool's reorganisations and its journal file; of
    the block chain the bodies, receipts and states it stores, the ancient store
    and its locks; networking, mining, RPC, accounts, console and commands, which
    are input and output or goroutine scheduling around the modelled parts. *)

From stdpp Require Export base option list gmap.
From Stdlib Require Export ZArith Lia.

Declare Scope entropy_scope.
Delimit Scope entropy_scope with entropy.
#[export] Set Default Goal Selector "!".

Local Open Scope Z_scope.

(** ** Byte strings

    A Go [[]byte] is a list of integers in [0, 255]; [nil] and the empty slice
    are the same value.  [common.Address] (a [[20]byte]) and [common.Hash] (a
    [[32]byte]) are identified with the integer their bytes spell, big endian. *)

Abbreviation bytes := (list Z).
Abbreviation Address := Z (only parsing).
Abbreviation Hash := Z (only parsing).

Definition is_byte (b : Z) : Prop := 0 <= b < 256.
Definition wf_bytes (bs : bytes) : Prop := Forall is_byte bs.

(** [len] of Go, at the width of [int]. *)
Definition zlen {A} (l : list A) : Z := Z.of_nat (length l).

(** ** Results

    A Go call either returns, or panics; a model with fuel can also run out of
    it.  Go's [error] values are ordinary results and not part of this type. *)

Inductive panic :=
| PanicIndex            (* index out of range *)
| PanicSlice            (* slice bounds out of range *)
| PanicMakeLen          (* make: negative length *)
| PanicMemory           (* "invalid memory: store empty" *)
| PanicNil              (* nil pointer dereference *)
| PanicTypeAssertion    (* failed type assertion *)
| PanicRefund           (* "Refund counter below zero" *)
| PanicRevision         (* "revision id cannot be reverted" *)
| PanicAccessList       (* access-list canary panics *)
| PanicTable            (* validate: jump table entry not set *)
| PanicDivide           (* integer divide by zero *)
| PanicGasPool          (* "gas pool pushed above uint64" *)
| PanicOddKey           (* "can't convert hex key of odd length" *)
| PanicNode             (* "invalid node", "unknown node type" *)
| PanicSignature        (* "wrong size for signature" *)
| PanicEncode           (* "can't encode" *)
| PanicBloom            (* "bloom bytes too big" *)
| PanicStaleLayer.      (* "parent diff layer is stale" *)

#[export] Instance panic_eq_dec : EqDecision panic.
Proof. solve_decision. Defined.

Inductive res (A : Type) :=
| Ok (a : A)
| Panic (p : panic)
| NoFuel.
Arguments Ok {A} _.
Arguments Panic {A} _.
Arguments NoFuel {A}.

#[export] Instance res_ret : MRet res := @Ok.
#[export] Instance res_bind : MBind res := fun A B k m =>
  match m with Ok a => k a | Panic p => Panic p | NoFuel => NoFuel end.

(** An optional lookup whose absence is a Go panic. *)
Definition or_panic {A} (p : panic) (o : option A) : res A :=
  match o with Some a => Ok a | None => Panic p end.

(** A result that is not a panic (running out of fuel is not one). *)
Definition no_panic {A} (r : res A) : Prop :=
  match r with Panic _ => False | _ => True end.

(** ** Machine integers

    A [uint64] is a [Z] in [0, 2^64); every operation that can leave the range
    wraps explicitly with [u64].  [int64] conversions use [i64]. *)

Definition MaxUint64 : Z := 2 ^ 64 - 1.
Definition u64 (x : Z) : Z := x mod 2 ^ 64.
Definition i64 (x : Z) : Z :=
  let y := x mod 2 ^ 64 in if y <? 2 ^ 63 then y else y - 2 ^ 64.
Definition u8 (x : Z) : Z := x mod 256.
Definition u16 (x : Z) : Z := x mod 65536.
Definition is_u64 (x : Z) : Prop := 0 <= x < 2 ^ 64.

Definition add64 (x y : Z) : Z := u64 (x + y).
Definition sub64 (x y : Z) : Z := u64 (x - y).
Definition mul64 (x y : Z) : Z := u64 (x * y).

(** ** Slices

    [slice l a b] is Go's [l[a:b]] on a slice whose capacity is its length;
    [nth_or_panic] is [l[i]]; [splice] overwrites [l] from offset [a] on with
    [v], the effect of [copy(l[a:a+n], v)] on [l]. *)

Definition slice {A} (l : list A) (a b : Z) : res (list A) :=
  if bool_decide (0 <= a /\ a <= b /\ b <= zlen l)
  then Ok (take (Z.to_nat (b - a)) (drop (Z.to_nat a) l))
  else Panic PanicSlice.

Definition nth_or_panic {A} (l : list A) (i : Z) : res A :=
  if bool_decide (0 <= i)
  then or_panic PanicIndex (l !! Z.to_nat i)
  else Panic PanicIndex.

Lemma nth_or_panic_at {A} (l : list A) x a : 0 <= x -> l !! Z.to_nat x = Some a -> nth_or_panic l x = Ok a.
Proof. intros Hx E. unfold nth_or_panic. by rewrite bool_decide_true, E. Qed.

Definition splice {A} (l : list A) (a : Z) (v : list A) : list A :=
  take (Z.to_nat a) l ++ take (length l - Z.to_nat a) v ++
  drop (Z.to_nat a + length v) l.

(** Big-endian value of a byte string. *)
Fixpoint be_acc (acc : Z) (bs : bytes) : Z :=
  match bs with [] => acc | b :: r => be_acc (acc * 256 + b) r end.
Definition be_value (bs : bytes) : Z := be_acc 0 bs.

(** The [n] low bytes of [x], big endian. *)
Fixpoint le_bytes (n : nat) (x : Z) : bytes :=
  match n with O => [] | S k => x mod 256 :: le_bytes k (x / 256) end.
Definition be_bytes (n : nat) (x : Z) : bytes := rev (le_bytes n x).

(** ** Automation *)

Create HintDb entropy discriminated.

(** Split every monadic bind of a hypothesis that says a computation returned. *)
Lemma bind_Ok {A B} (m : res A) (k : A -> res B) (b : B) :
  (m ≫= k) = Ok b -> exists a, m = Ok a /\ k a = Ok b.
Proof. destruct m; simpl; intros; simplify_eq; eauto. Qed.

Lemma bind_NoFuel {A B} (m : res A) (k : A -> res B) :
  (m ≫= k) = NoFuel -> m = NoFuel \/ exists a, m = Ok a /\ k a = NoFuel.
Proof. destruct m; simpl; intros; simplify_eq; eauto. Qed.

Lemma bind_Panic {A B} (m : res A) (k : A -> res B) p :
  (m ≫= k) = Panic p -> m = Panic p \/ exists a, m = Ok a /\ k a = Panic p.
Proof. destruct m; simpl; intros; simplify_eq; eauto. Qed.

Ltac bind_inv H :=
  let a := fresh "v" in let E := fresh "E" in
  first
    [ apply bind_Ok in H as (a & E & H)
    | apply bind_NoFuel in H as [H | (a & E & H)]
    | apply bind_Panic in H as [H | (a & E & H)] ].

(** Turn the boolean comparisons of the context into propositions. *)
Ltac to_prop :=
  repeat match goal with
  | H : (_ && _)%bool = true |- _ => apply andb_prop in H as [? ?]
  | H : (_ || _)%bool = false |- _ => apply orb_false_elim in H as [? ?]
  | H : negb _ = true |- _ => apply negb_true_iff in H
  | H : negb _ = false |- _ => apply negb_false_iff in H
  | H : (_ =? _) = true |- _ => apply Z.eqb_eq in H
  | H : (_ =? _) = false |- _ => apply Z.eqb_neq in H
  | H : (_ <? _) = true |- _ => apply Z.ltb_lt in H
  | H : (_ <? _) = false |- _ => apply Z.ltb_ge in H
  | H : (_ <=? _) = true |- _ => apply Z.leb_le in H
  | H : (_ <=? _) = false |- _ => apply Z.leb_gt in H
  | H : (_ >? _) = true |- _ => rewrite Z.gtb_ltb in H; apply Z.ltb_lt in H
  | H : (_ >? _) = false |- _ => rewrite Z.gtb_ltb in H; apply Z.ltb_ge in H
  | H : (_ >=? _) = true |- _ => rewrite Z.geb_leb in H; apply Z.leb_le in H
  | H : (_ >=? _) = false |- _ => rewrite Z.geb_leb in H; apply Z.leb_gt in H
  | H : bool_decide _ = true |- _ => apply bool_decide_eq_true in H
  | H : bool_decide _ = false |- _ => apply bool_decide_eq_false in H
  end.

Ltac zcase :=
  match goal with
  | |- context [if ?b then _ else _] => destruct b eqn:?; to_prop
  | H : context [if ?b then _ else _] |- _ => destruct b eqn:?; to_prop
  end.

(** [lia] with the quotients and remainders by constants spelled out. *)
Ltac dlia := Z.div_mod_to_equations; lia.

(** ** Lemmas on machine integers *)

Lemma u64_range x : is_u64 (u64 x).
Proof. apply Z.mod_pos_bound. lia. Qed.

Lemma u64_small x : is_u64 x -> u64 x = x.
Proof. apply Z.mod_small. Qed.

Lemma u64_idem x : u64 (u64 x) = u64 x.
Proof. apply u64_small, u64_range. Qed.

Lemma u64_nonneg x : 0 <= u64 x.
Proof. apply u64_range. Qed.

Lemma u64_ge_wrap x : 2 ^ 64 <= x < 2 ^ 65 -> u64 x = x - 2 ^ 64.
Proof.
  intros. unfold u64. symmetry. apply Z.mod_unique with 1; lia.
Qed.

Lemma u64_neg_wrap x : - 2 ^ 64 <= x < 0 -> u64 x = x + 2 ^ 64.
Proof.
  intros. unfold u64. symmetry. apply Z.mod_unique with (-1); lia.
Qed.

Lemma i64_small x : 0 <= x < 2 ^ 63 -> i64 x = x.
Proof.
  intros. unfold i64. rewrite Z.mod_small by lia.
  destruct (x <? 2 ^ 63) eqn:E; to_prop; lia.
Qed.

Lemma sub64_small x y : 0 <= y <= x -> x < 2 ^ 64 -> sub64 x y = x - y.
Proof. intros. apply u64_small. unfold is_u64. lia. Qed.

Lemma add64_small x y : 0 <= x -> 0 <= y -> x + y < 2 ^ 64 -> add64 x y = x + y.
Proof. intros. apply u64_small. unfold is_u64. lia. Qed.

Lemma mul64_small x y : 0 <= x * y < 2 ^ 64 -> mul64 x y = x * y.
Proof. intros. apply u64_small. unfold is_u64. lia. Qed.

Lemma add64_range x y : is_u64 (add64 x y).
Proof. apply u64_range. Qed.

Lemma sub64_range x y : is_u64 (sub64 x y).
Proof. apply u64_range. Qed.

(** ** Lemmas on slices *)

Lemma zlen_nonneg {A} (l : list A) : 0 <= zlen l.
Proof. unfold zlen. lia. Qed.

Lemma zlen_app {A} (l k : list A) : zlen (l ++ k) = zlen l + zlen k.
Proof. unfold zlen. rewrite length_app. lia. Qed.

Lemma zlen_cons {A} (x : A) l : zlen (x :: l) = 1 + zlen l.
Proof. unfold zlen. simpl. lia. Qed.

Lemma zlen_nil {A} : zlen (@nil A) = 0.
Proof. done. Qed.

Lemma zlen_replicate {A} n (x : A) : 0 <= n -> zlen (replicate (Z.to_nat n) x) = n.
Proof. intros. unfold zlen. rewrite length_replicate. lia. Qed.

Lemma slice_Ok {A} (l : list A) a b :
  0 <= a <= b -> b <= zlen l ->
  slice l a b = Ok (take (Z.to_nat (b - a)) (drop (Z.to_nat a) l)).
Proof. intros. unfold slice. rewrite bool_decide_eq_true_2 by lia. done. Qed.

Lemma slice_length {A} (l : list A) a b r : slice l a b = Ok r -> zlen r = b - a.
Proof.
  unfold slice, zlen. intros. zcase; simplify_eq.
  rewrite length_take, length_drop. unfold zlen in *. lia.
Qed.

Lemma nth_or_panic_Ok {A} (l : list A) i :
  0 <= i < zlen l -> exists x, nth_or_panic l i = Ok x /\ l !! Z.to_nat i = Some x.
Proof.
  unfold zlen, nth_or_panic. intros.
  destruct (lookup_lt_is_Some_2 l (Z.to_nat i)) as [x Hx]; [lia|].
  exists x. rewrite bool_decide_eq_true_2 by lia. rewrite Hx. done.
Qed.

Lemma splice_length {A} (l : list A) a v :
  0 <= a -> a + zlen v <= zlen l -> length (splice l a v) = length l.
Proof.
  unfold splice, zlen. intros. rewrite !length_app, !length_take, length_drop. lia.
Qed.

Lemma splice_lookup_in {A} (l : list A) a v i :
  0 <= a -> a + zlen v <= zlen l -> (i < length v)%nat ->
  splice l a v !! (Z.to_nat a + i)%nat = v !! i.
Proof.
  unfold splice, zlen. intros.
  rewrite lookup_app_r by (rewrite length_take; lia).
  rewrite length_take, lookup_app_l by (rewrite length_take; lia).
  rewrite lookup_take_lt by lia. f_equal. lia.
Qed.

Lemma splice_lookup_out {A} (l : list A) a v i :
  0 <= a -> a + zlen v <= zlen l ->
  (i < Z.to_nat a \/ Z.to_nat a + length v <= i)%nat ->
  splice l a v !! i = l !! i.
Proof.
  unfold splice, zlen. intros ? ? [?|?].
  - rewrite lookup_app_l by (rewrite length_take; lia). apply lookup_take_lt. lia.
  - rewrite !lookup_app_r by (rewrite ?length_take; lia).
    rewrite lookup_drop, !length_take. f_equal. lia.
Qed.

#[export] Hint Resolve u64_range add64_range sub64_range u64_nonneg zlen_nonneg : entropy.

(** ** Big-endian integers *)

Lemma be_acc_app acc a b : be_acc acc (a ++ b) = be_acc (be_acc acc a) b.
Proof. revert acc. induction a as [|x a IH]; intros; simpl; auto. Qed.

Lemma be_acc_shift acc bs : be_acc acc bs = acc * 256 ^ zlen bs + be_value bs.
Proof.
  unfold be_value. revert acc. induction bs as [|b r IH]; intros acc.
  - simpl. rewrite zlen_nil. lia.
  - cbn [be_acc]. rewrite (IH (acc * 256 + b)), (IH (0 * 256 + b)), zlen_cons.
    rewrite Z.pow_add_r by (pose proof (zlen_nonneg r); lia). lia.
Qed.

Lemma be_value_app a b : be_value (a ++ b) = be_value a * 256 ^ zlen b + be_value b.
Proof. unfold be_value at 1. by rewrite be_acc_app, be_acc_shift. Qed.

Lemma be_value_cons b r : be_value (b :: r) = b * 256 ^ zlen r + be_value r.
Proof. unfold be_value at 1. cbn [be_acc]. rewrite be_acc_shift. lia. Qed.

Lemma be_value_bound bs : wf_bytes bs -> 0 <= be_value bs < 256 ^ zlen bs.
Proof.
  induction 1 as [|b r Hb Hr IH]; [done|]. rewrite be_value_cons, zlen_cons.
  rewrite Z.pow_add_r by (pose proof (zlen_nonneg r); lia). unfold is_byte in *. nia.
Qed.

Lemma length_le_bytes n x : length (le_bytes n x) = n.
Proof. revert x. induction n; intros; simpl; auto. Qed.

Lemma length_be_bytes n x : length (be_bytes n x) = n.
Proof. unfold be_bytes. by rewrite length_rev, length_le_bytes. Qed.

Lemma zlen_be_bytes n x : zlen (be_bytes n x) = Z.of_nat n.
Proof. unfold zlen. by rewrite length_be_bytes. Qed.

Lemma be_bytes_S n x : be_bytes (S n) x = be_bytes n (x / 256) ++ [x mod 256].
Proof. done. Qed.

Lemma wf_be_bytes n x : wf_bytes (be_bytes n x).
Proof.
  revert x. induction n as [|n IH]; intros x; [constructor|]. rewrite be_bytes_S.
  apply Forall_app_2; [apply IH|]. constructor; [|constructor].
  apply Z.mod_pos_bound. lia.
Qed.

Lemma be_value_be_bytes n x : be_value (be_bytes n x) = x mod 256 ^ Z.of_nat n.
Proof.
  revert x. induction n as [|n IH]; intros x; [by rewrite Z.mod_1_r|].
  rewrite be_bytes_S, be_value_app, IH, zlen_cons, zlen_nil, Nat2Z.inj_succ, Z.pow_succ_r by lia.
  rewrite Z.rem_mul_r by (try apply Z.pow_pos_nonneg; lia).
  unfold be_value. simpl. lia.
Qed.

(** The big-endian digits of a fixed length are determined by the value. *)
Lemma be_bytes_be_value bs : wf_bytes bs -> be_bytes (length bs) (be_value bs) = bs.
Proof.
  induction bs as [|b r IH] using rev_ind; intros Hw; [done|].
  apply Forall_app in Hw as [Hr Hb]. inv Hb.
  rewrite length_app, Nat.add_comm. simpl Nat.add. rewrite be_bytes_S, be_value_app.
  rewrite zlen_cons, zlen_nil. change (256 ^ (1 + 0)) with 256.
  assert (E : be_value [b] = b) by done. rewrite E. unfold is_byte in *.
  rewrite Z.div_add_l, Z.div_small, Z.add_0_r by lia.
  rewrite Z.add_comm, Z_mod_plus_full, Z.mod_small by lia. by rewrite IH.
Qed.
