(* ===== verification/Uint256.v ===== *)
(** * The interface of the 256-bit integer package

    [github.com/holiman/uint256] is not part of the repository: its operations
    are the class [Uint256], a parameter of everything that uses them, and the
    class [Uint256Spec] states their documented results on 256-bit integers.
    The instances at the end, a reference implementation on [Z], show that the
    documented behaviour can be realised and let examples compute. *)

From Stdlib Require Import Zpow_facts.
From S2P Require Import Prelude.

Local Open Scope Z_scope.

Definition two256 : Z := 2 ^ 256.
Definition is_word (x : Z) : Prop := 0 <= x < two256.

(** Two's complement reading of a 256-bit word. *)
Definition signed (x : Z) : Z := if x <? 2 ^ 255 then x else x - two256.

(** The methods of [uint256.Int] the interpreter calls. *)
Class Uint256 := {
  u_Add : Z -> Z -> Z;
  u_Sub : Z -> Z -> Z;
  u_Mul : Z -> Z -> Z;
  u_Div : Z -> Z -> Z;
  u_SDiv : Z -> Z -> Z;
  u_Mod : Z -> Z -> Z;
  u_SMod : Z -> Z -> Z;
  u_AddMod : Z -> Z -> Z -> Z;
  u_MulMod : Z -> Z -> Z -> Z;
  u_Exp : Z -> Z -> Z;
  u_ExtendSign : Z -> Z -> Z;
  u_Not : Z -> Z;
  u_And : Z -> Z -> Z;
  u_Or : Z -> Z -> Z;
  u_Xor : Z -> Z -> Z;
  u_Lt : Z -> Z -> bool;
  u_Gt : Z -> Z -> bool;
  u_Slt : Z -> Z -> bool;
  u_Sgt : Z -> Z -> bool;
  u_Eq : Z -> Z -> bool;
  u_Byte : Z -> Z -> Z;
  u_Lsh : Z -> Z -> Z;
  u_Rsh : Z -> Z -> Z;
  u_SRsh : Z -> Z -> Z;
  u_Sign : Z -> Z;
  u_BitLen : Z -> Z;
  u_SetBytes : bytes -> Z;
  u_FromBig : Z -> Z * bool;
  u_Bytes20 : Z -> Address;
  u_Bytes32 : Z -> Hash;
  u_Uint64 : Z -> Z;
  u_IsUint64 : Z -> bool;
}.

(** [Uint64WithOverflow], [IsZero], the setters and the comparisons with a
    [uint64] are written with the above, as their documentation does. *)
Definition u_Uint64WithOverflow `{Uint256} (x : Z) : Z * bool :=
  (u_Uint64 x, negb (u_IsUint64 x)).
Definition u_IsZero `{Uint256} (x : Z) : bool := u_Eq x 0.
Definition u_LtUint64 `{Uint256} (x n : Z) : bool := u_Lt x n.
Definition u_GtUint64 `{Uint256} (x n : Z) : bool := u_Gt x n.
Definition AllOne : Z := two256 - 1.

(** The documented results. *)
Class Uint256Spec (U : Uint256) : Prop := {
  Add_spec x y : is_word x -> is_word y -> u_Add x y = (x + y) mod two256;
  Sub_spec x y : is_word x -> is_word y -> u_Sub x y = (x - y) mod two256;
  Mul_spec x y : is_word x -> is_word y -> u_Mul x y = (x * y) mod two256;
  Div_spec x y : is_word x -> is_word y ->
    u_Div x y = if y =? 0 then 0 else x / y;
  SDiv_spec x y : is_word x -> is_word y ->
    u_SDiv x y = if y =? 0 then 0 else Z.quot (signed x) (signed y) mod two256;
  Mod_spec x y : is_word x -> is_word y ->
    u_Mod x y = if y =? 0 then 0 else x mod y;
  SMod_spec x y : is_word x -> is_word y ->
    u_SMod x y = if y =? 0 then 0 else Z.rem (signed x) (signed y) mod two256;
  AddMod_spec x y m : is_word x -> is_word y -> is_word m ->
    u_AddMod x y m = if m =? 0 then 0 else (x + y) mod m;
  MulMod_spec x y m : is_word x -> is_word y -> is_word m ->
    u_MulMod x y m = if m =? 0 then 0 else (x * y) mod m;
  Exp_spec x y : is_word x -> is_word y -> u_Exp x y = (x ^ y) mod two256;
  ExtendSign_spec x n : is_word x -> is_word n ->
    u_ExtendSign x n =
      if n >? 30 then x
      else let k := 8 * (n + 1) in
           let y := x mod 2 ^ k in
           (if y <? 2 ^ (k - 1) then y else y - 2 ^ k) mod two256;
  Not_spec x : is_word x -> u_Not x = two256 - 1 - x;
  And_spec x y : is_word x -> is_word y -> u_And x y = Z.land x y;
  Or_spec x y : is_word x -> is_word y -> u_Or x y = Z.lor x y;
  Xor_spec x y : is_word x -> is_word y -> u_Xor x y = Z.lxor x y;
  Lt_spec x y : is_word x -> is_word y -> u_Lt x y = (x <? y);
  Gt_spec x y : is_word x -> is_word y -> u_Gt x y = (y <? x);
  Slt_spec x y : is_word x -> is_word y -> u_Slt x y = (signed x <? signed y);
  Sgt_spec x y : is_word x -> is_word y -> u_Sgt x y = (signed y <? signed x);
  Eq_spec x y : is_word x -> is_word y -> u_Eq x y = (x =? y);
  Byte_spec x n : is_word x -> is_word n ->
    u_Byte x n = if n <? 32 then (x / 2 ^ (8 * (31 - n))) mod 256 else 0;
  Lsh_spec x n : is_word x -> 0 <= n -> u_Lsh x n = (x * 2 ^ n) mod two256;
  Rsh_spec x n : is_word x -> 0 <= n -> u_Rsh x n = x / 2 ^ n;
  SRsh_spec x n : is_word x -> 0 <= n -> u_SRsh x n = (signed x / 2 ^ n) mod two256;
  Sign_spec x : is_word x -> u_Sign x = Z.sgn (signed x);
  BitLen_spec x : is_word x -> u_BitLen x = if x =? 0 then 0 else Z.log2 x + 1;
  SetBytes_spec bs : wf_bytes bs -> u_SetBytes bs = be_value bs mod two256;
  FromBig_spec x : u_FromBig x = (x mod two256, bool_decide (two256 <= Z.abs x));
  Bytes20_spec x : is_word x -> u_Bytes20 x = x mod 2 ^ 160;
  Bytes32_spec x : is_word x -> u_Bytes32 x = x;
  Uint64_spec x : is_word x -> u_Uint64 x = x mod 2 ^ 64;
  IsUint64_spec x : is_word x -> u_IsUint64 x = (x <? 2 ^ 64);
}.

(** ** A reference implementation *)

#[export] Instance uint256_ref : Uint256 := {
  u_Add x y := (x + y) mod two256;
  u_Sub x y := (x - y) mod two256;
  u_Mul x y := (x * y) mod two256;
  u_Div x y := if y =? 0 then 0 else x / y;
  u_SDiv x y := if y =? 0 then 0 else Z.quot (signed x) (signed y) mod two256;
  u_Mod x y := if y =? 0 then 0 else x mod y;
  u_SMod x y := if y =? 0 then 0 else Z.rem (signed x) (signed y) mod two256;
  u_AddMod x y m := if m =? 0 then 0 else (x + y) mod m;
  u_MulMod x y m := if m =? 0 then 0 else (x * y) mod m;
  u_Exp x y := Zpow_mod x y two256;
  u_ExtendSign x n :=
    if n >? 30 then x
    else let k := 8 * (n + 1) in
         let y := x mod 2 ^ k in
         (if y <? 2 ^ (k - 1) then y else y - 2 ^ k) mod two256;
  u_Not x := two256 - 1 - x;
  u_And x y := Z.land x y;
  u_Or x y := Z.lor x y;
  u_Xor x y := Z.lxor x y;
  u_Lt x y := x <? y;
  u_Gt x y := y <? x;
  u_Slt x y := signed x <? signed y;
  u_Sgt x y := signed y <? signed x;
  u_Eq x y := x =? y;
  u_Byte x n := if n <? 32 then (x / 2 ^ (8 * (31 - n))) mod 256 else 0;
  u_Lsh x n := (x * 2 ^ n) mod two256;
  u_Rsh x n := x / 2 ^ n;
  u_SRsh x n := (signed x / 2 ^ n) mod two256;
  u_Sign x := Z.sgn (signed x);
  u_BitLen x := if x =? 0 then 0 else Z.log2 x + 1;
  u_SetBytes bs := be_value bs mod two256;
  u_FromBig x := (x mod two256, bool_decide (two256 <= Z.abs x));
  u_Bytes20 x := x mod 2 ^ 160;
  u_Bytes32 x := x;
  u_Uint64 x := x mod 2 ^ 64;
  u_IsUint64 x := x <? 2 ^ 64;
}.

#[export] Instance uint256_ref_ok : Uint256Spec uint256_ref.
Proof.
  split; try (intros; reflexivity).
  intros x y Hx Hy. by apply Zpow_mod_correct.
Qed.

(** ** Consequences used by the interpreter's invariants *)

Section words.
Context `{U : Uint256} `{!Uint256Spec U}.

Lemma mod_word x : is_word (x mod two256).
Proof. apply Z.mod_pos_bound. reflexivity. Qed.

Lemma Uint64_range x : is_word x -> is_u64 (u_Uint64 x).
Proof. intros. rewrite Uint64_spec by done. apply u64_range. Qed.

Lemma IsUint64_true x : is_word x -> u_IsUint64 x = true -> x = u_Uint64 x /\ is_u64 x.
Proof.
  intros Hw H. rewrite IsUint64_spec in H by done. to_prop.
  rewrite Uint64_spec by done. unfold is_u64, is_word in *.
  rewrite Z.mod_small by lia. lia.
Qed.

Lemma IsZero_spec x : is_word x -> u_IsZero x = (x =? 0).
Proof. intros. unfold u_IsZero. apply Eq_spec; [done | by compute]. Qed.

Lemma word_of_u64 x : is_u64 x -> is_word x.
Proof. unfold is_u64, is_word, two256. lia. Qed.

Lemma signed_bounds x : is_word x -> - 2 ^ 255 <= signed x < 2 ^ 255.
Proof. unfold signed, is_word, two256. intros. zcase; lia. Qed.

Lemma word_land x y : is_word x -> is_word y -> is_word (Z.land x y).
Proof.
  intros [? Hx] [? ?]. split; [apply Z.land_nonneg; lia|].
  destruct (decide (x = 0)) as [->|]; [rewrite Z.land_0_l; lia|].
  destruct (decide (Z.land x y = 0)) as [->|]; [by compute|].
  apply Z.log2_lt_cancel. eapply Z.le_lt_trans; [apply Z.log2_land; lia|].
  change (Z.log2 two256) with 256. apply Z.min_lt_iff. left.
  apply Z.log2_lt_pow2; [lia | exact Hx].
Qed.

Lemma word_bitop (f : Z -> Z -> Z) x y :
  (forall a b, 0 <= a -> 0 <= b -> 0 <= f a b) ->
  (forall a b, 0 <= a -> 0 <= b -> Z.log2 (f a b) <= Z.max (Z.log2 a) (Z.log2 b)) ->
  is_word x -> is_word y -> is_word (f x y).
Proof.
  intros Hn Hl [? Hx] [? Hy]. split; [apply Hn; lia|].
  destruct (decide (f x y = 0)) as [->|]; [by compute|].
  assert (L : forall a, 0 <= a -> a < two256 -> Z.log2 a < 256).
  { intros a ? Ha. destruct (decide (a = 0)) as [->|]; [by compute|].
    apply Z.log2_lt_pow2; [lia | exact Ha]. }
  apply Z.log2_lt_cancel. eapply Z.le_lt_trans; [apply Hl; lia|].
  change (Z.log2 two256) with 256. apply Z.max_lub_lt; apply L; lia.
Qed.
End words.

#[export] Hint Resolve mod_word word_of_u64 : entropy.
