(* ===== verification/Config.v ===== *)
(** * Protocol parameters and the fork schedule

    [config/protocol.go]: the gas prices and limits, as constants.
    [config/config.go]: [ChainConfig], the rule set active at a block, and the
    check that a stored chain is compatible with a new configuration. *)

From S2P Require Import Prelude.

Local Open Scope Z_scope.

(** ** [config/protocol.go] *)

Definition GasLimitBoundDivisor : Z := 1024.
Definition MinGasLimit : Z := 5000.
Definition MaxGasLimit : Z := 9223372036854775807.
Definition GenesisGasLimit : Z := 4712388.
Definition MaximumExtraDataSize : Z := 32.
Definition ExpByteGas : Z := 10.
Definition SloadGas : Z := 50.
Definition CallValueTransferGas : Z := 9000.
Definition CallNewAccountGas : Z := 25000.
Definition TxGas : Z := 21000.
Definition TxGasContractCreation : Z := 53000.
Definition TxDataZeroGas : Z := 4.
Definition QuadCoeffDiv : Z := 512.
Definition LogDataGas : Z := 8.
Definition CallStipend : Z := 2300.
Definition Keccak256Gas : Z := 30.
Definition Keccak256WordGas : Z := 6.
Definition SstoreSetGas : Z := 20000.
Definition SstoreResetGas : Z := 5000.
Definition SstoreClearGas : Z := 5000.
Definition SstoreRefundGas : Z := 15000.
Definition NetSstoreNoopGas : Z := 200.
Definition NetSstoreInitGas : Z := 20000.
Definition NetSstoreCleanGas : Z := 5000.
Definition NetSstoreDirtyGas : Z := 200.
Definition NetSstoreClearRefund : Z := 15000.
Definition NetSstoreResetRefund : Z := 4800.
Definition NetSstoreResetClearRefund : Z := 19800.
Definition SstoreSentryGasEIP2200 : Z := 2300.
Definition SstoreSetGasEIP2200 : Z := 20000.
Definition SstoreResetGasEIP2200 : Z := 5000.
Definition SstoreClearsScheduleRefundEIP2200 : Z := 15000.
Definition ColdAccountAccessCostEIP2929 : Z := 2600.
Definition ColdSloadCostEIP2929 : Z := 2100.
Definition WarmStorageReadCostEIP2929 : Z := 100.
Definition JumpdestGas : Z := 1.
Definition EpochDuration : Z := 30000.
Definition CreateDataGas : Z := 200.
Definition CallCreateDepth : Z := 1024.
Definition ExpGas : Z := 10.
Definition LogGas : Z := 375.
Definition CopyGas : Z := 3.
Definition StackLimit : Z := 1024.
Definition TierStepGas : Z := 0.
Definition LogTopicGas : Z := 375.
Definition CreateGas : Z := 32000.
Definition Create2Gas : Z := 32000.
Definition SelfdestructRefundGas : Z := 24000.
Definition MemoryGas : Z := 3.
Definition TxDataNonZeroGasFrontier : Z := 68.
Definition TxDataNonZeroGasEIP2028 : Z := 16.
Definition TxAccessListAddressGas : Z := 2400.
Definition TxAccessListStorageKeyGas : Z := 1900.
Definition CallGasFrontier : Z := 40.
Definition CallGasEIP150 : Z := 700.
Definition BalanceGasFrontier : Z := 20.
Definition BalanceGasEIP150 : Z := 400.
Definition BalanceGasEIP1884 : Z := 700.
Definition ExtcodeSizeGasFrontier : Z := 20.
Definition ExtcodeSizeGasEIP150 : Z := 700.
Definition SloadGasFrontier : Z := 50.
Definition SloadGasEIP150 : Z := 200.
Definition SloadGasEIP1884 : Z := 800.
Definition SloadGasEIP2200 : Z := 800.
Definition ExtcodeHashGasConstantinople : Z := 400.
Definition ExtcodeHashGasEIP1884 : Z := 700.
Definition SelfdestructGasEIP150 : Z := 5000.
Definition ExpByteFrontier : Z := 10.
Definition ExpByteEIP158 : Z := 50.
Definition ExtcodeCopyBaseFrontier : Z := 20.
Definition ExtcodeCopyBaseEIP150 : Z := 700.
Definition CreateBySelfdestructGas : Z := 25000.
Definition BaseFeeChangeDenominator : Z := 8.
Definition ElasticityMultiplier : Z := 2.
Definition InitialBaseFee : Z := 1000000000.
Definition MaxCodeSize : Z := 24576.
Definition EcrecoverGas : Z := 3000.
Definition Sha256BaseGas : Z := 60.
Definition Sha256PerWordGas : Z := 12.
Definition Ripemd160BaseGas : Z := 600.
Definition Ripemd160PerWordGas : Z := 120.
Definition IdentityBaseGas : Z := 15.
Definition IdentityPerWordGas : Z := 3.
Definition Bn256AddGasByzantium : Z := 500.
Definition Bn256AddGasIstanbul : Z := 150.
Definition Bn256ScalarMulGasByzantium : Z := 40000.
Definition Bn256ScalarMulGasIstanbul : Z := 6000.
Definition Bn256PairingBaseGasByzantium : Z := 100000.
Definition Bn256PairingBaseGasIstanbul : Z := 45000.
Definition Bn256PairingPerPointGasByzantium : Z := 80000.
Definition Bn256PairingPerPointGasIstanbul : Z := 34000.
Definition Bls12381G1AddGas : Z := 600.
Definition Bls12381G1MulGas : Z := 12000.
Definition Bls12381G2AddGas : Z := 4500.
Definition Bls12381G2MulGas : Z := 55000.
Definition Bls12381PairingBaseGas : Z := 115000.
Definition Bls12381PairingPerPairGas : Z := 23000.
Definition Bls12381MapG1Gas : Z := 5500.
Definition Bls12381MapG2Gas : Z := 110000.
Definition RefundQuotient : Z := 2.
Definition RefundQuotientEIP3529 : Z := 5.
Definition SstoreClearsScheduleRefundEIP3529 : Z :=
  SstoreResetGasEIP2200 - ColdSloadCostEIP2929 + TxAccessListStorageKeyGas.

(** ** [config/config.go] *)

(** The fork schedule of [ChainConfig]; a [nil] [*big.Int] is [None].  The
    consensus engine settings are in the components that read them. *)
Record ChainConfig := {
  ChainID : option Z;
  HomesteadBlock : option Z;
  EIP150Block : option Z;
  LondonBlock : option Z;
  TerminalTotalDifficulty : option Z;
}.

Record Rules := {
  rChainID : Z;
  IsHomestead : bool;
  IsEIP150 : bool;
  IsLondon : bool;
  IsMerge : bool;
}.

(** [isForked]: is a fork scheduled at block [s] active at [head]? *)
Definition isForked (s head : option Z) : bool :=
  match s, head with Some s, Some h => s <=? h | _, _ => false end.

Definition configNumEqual (x y : option Z) : bool :=
  match x, y with
  | None, None => true
  | Some a, Some b => a =? b
  | _, _ => false
  end.

Definition isForkIncompatible (s1 s2 head : option Z) : bool :=
  (isForked s1 head || isForked s2 head) && negb (configNumEqual s1 s2).

Record CompatError := {
  StoredConfig : option Z;
  NewConfig : option Z;
  RewindTo : Z;
}.

Definition newCompatError (storedBlock newBlock : option Z) : CompatError :=
  let rew := match storedBlock, newBlock with
             | None, _ => newBlock
             | Some _, None => storedBlock
             | Some s, Some n => if s <? n then storedBlock else newBlock
             end in
  {| StoredConfig := storedBlock; NewConfig := newBlock;
     RewindTo := match rew with
                 | Some r => if 0 <? r then sub64 (u64 r) 1 else 0
                 | None => 0
                 end |}.

(** [ChainConfig.checkCompatible]. *)
Definition checkCompatible (c newcfg : ChainConfig) (head : Z) : option CompatError :=
  if isForkIncompatible (HomesteadBlock c) (HomesteadBlock newcfg) (Some head)
  then Some (newCompatError (HomesteadBlock c) (HomesteadBlock newcfg))
  else if isForkIncompatible (EIP150Block c) (EIP150Block newcfg) (Some head)
  then Some (newCompatError (EIP150Block c) (EIP150Block newcfg))
  else if isForkIncompatible (LondonBlock c) (LondonBlock newcfg) (Some head)
  then Some (newCompatError (LondonBlock c) (LondonBlock newcfg))
  else None.

(** The loop of [ChainConfig.CheckCompatible], with fuel: it stops at the first
    head that is compatible or whose conflict asks to rewind to the same block
    as the previous one. *)
Fixpoint CheckCompatible_loop (fuel : nat) (c newcfg : ChainConfig)
    (bhead : Z) (lasterr : option CompatError) : res (option CompatError) :=
  match fuel with
  | O => NoFuel
  | S k =>
    match checkCompatible c newcfg bhead with
    | None => Ok lasterr
    | Some err =>
      match lasterr with
      | Some l => if RewindTo err =? RewindTo l then Ok lasterr
                  else CheckCompatible_loop k c newcfg (RewindTo err) (Some err)
      | None => CheckCompatible_loop k c newcfg (RewindTo err) (Some err)
      end
    end
  end.

Definition CheckCompatible (fuel : nat) (c newcfg : ChainConfig) (height : Z) :=
  CheckCompatible_loop fuel c newcfg height None.

(** [ChainConfig.CheckConfigForkOrder] on the three forks in order; [true] is
    the absence of an error. *)
Definition CheckConfigForkOrder (c : ChainConfig) : bool :=
  let ordered last cur :=
    match last, cur with
    | None, Some _ => false
    | Some a, Some b => a <=? b
    | _, None => true
    end in
  ordered (HomesteadBlock c) (EIP150Block c) && ordered (EIP150Block c) (LondonBlock c).

(** [ChainConfig.Rules]. *)
Definition rules (c : ChainConfig) (num : option Z) (isMerge : bool) : Rules :=
  {| rChainID := default 0 (ChainID c);
     IsHomestead := isForked (HomesteadBlock c) num;
     IsEIP150 := isForked (EIP150Block c) num;
     IsLondon := isForked (LondonBlock c) num;
     IsMerge := isMerge |}.

(** [ChainConfig.IsTerminalPoWBlock]. *)
Definition IsTerminalPoWBlock (c : ChainConfig) (parentTotalDiff totalDiff : Z) : bool :=
  match TerminalTotalDifficulty c with
  | None => false
  | Some ttd => (parentTotalDiff <? ttd) && (ttd <=? totalDiff)
  end.

(** ** Properties *)

(** Block numbers of a schedule are [uint64] values. *)
Definition wf_block (o : option Z) : Prop := forall b, o = Some b -> is_u64 b.
Definition wf_config (c : ChainConfig) : Prop :=
  wf_block (HomesteadBlock c) /\ wf_block (EIP150Block c) /\ wf_block (LondonBlock c).

(** A fork order accepted by [CheckConfigForkOrder] makes the rule sets nested:
    a later fork is never active without the earlier ones. *)
Lemma fork_order_nested c num m :
  CheckConfigForkOrder c = true ->
  (IsLondon (rules c num m) = true -> IsEIP150 (rules c num m) = true) /\
  (IsEIP150 (rules c num m) = true -> IsHomestead (rules c num m) = true).
Proof.
  unfold CheckConfigForkOrder. simpl. intros Ho. to_prop.
  destruct (HomesteadBlock c), (EIP150Block c), (LondonBlock c), num;
    simpl in *; try done; to_prop; split; intros; to_prop; try done;
    apply Z.leb_le; lia.
Qed.

Lemma newCompatError_rewind s n head :
  wf_block s -> wf_block n -> isForkIncompatible s n (Some head) = true ->
  RewindTo (newCompatError s n) = 0 \/
  RewindTo (newCompatError s n) < head /\ 0 <= RewindTo (newCompatError s n).
Proof.
  unfold isForkIncompatible, newCompatError, wf_block, is_u64. simpl. intros Hs Hn H.
  apply andb_prop in H as [Hf He].
  destruct s as [s|], n as [n|]; simpl in *; try done;
    try (specialize (Hs _ eq_refl)); try (specialize (Hn _ eq_refl));
    repeat zcase; auto; right; rewrite u64_small by (unfold is_u64; lia);
    rewrite sub64_small by lia;
    try (apply orb_true_iff in Hf as [Hf|Hf]); to_prop; try done; lia.
Qed.

Lemma newCompatError_compatible s n r :
  wf_block s -> wf_block n ->
  r <= RewindTo (newCompatError s n) -> 0 < RewindTo (newCompatError s n) ->
  isForkIncompatible s n (Some r) = false.
Proof.
  unfold isForkIncompatible, newCompatError, wf_block, is_u64. simpl. intros Hs Hn Hr Hp.
  destruct s as [s|], n as [n|]; simpl in *;
    try (specialize (Hs _ eq_refl)); try (specialize (Hn _ eq_refl));
    repeat zcase; try lia; rewrite u64_small, sub64_small in * by (unfold is_u64; lia);
    apply andb_false_iff; left; try (apply orb_false_iff; split); try done;
    apply Z.leb_gt; lia.
Qed.

Lemma isForkIncompatible_mono s n r h :
  r <= h -> isForkIncompatible s n (Some h) = false ->
  isForkIncompatible s n (Some r) = false.
Proof.
  unfold isForkIncompatible. intros Hrh H. apply andb_false_iff in H as [H|H].
  - apply andb_false_iff. left. destruct s, n; simpl in *; to_prop;
      try (apply orb_false_iff; split); try done; apply Z.leb_gt; lia.
  - apply andb_false_iff. by right.
Qed.

(** The number of forks on which two configurations disagree at [head]. *)
Definition conflicts (c n : ChainConfig) (head : Z) : nat :=
  let k b := if b : bool then 1%nat else 0%nat in
  k (isForkIncompatible (HomesteadBlock c) (HomesteadBlock n) (Some head)) +
  k (isForkIncompatible (EIP150Block c) (EIP150Block n) (Some head)) +
  k (isForkIncompatible (LondonBlock c) (LondonBlock n) (Some head)).

Lemma checkCompatible_step c n h e :
  wf_config c -> wf_config n -> checkCompatible c n h = Some e ->
  RewindTo e = 0 \/
  0 < RewindTo e < h /\ (conflicts c n (RewindTo e) < conflicts c n h)%nat.
Proof.
  intros (?&?&?) (?&?&?). unfold checkCompatible, conflicts. intros Hck.
  assert (M : forall s k x, wf_block s -> wf_block k -> x = newCompatError s k ->
    isForkIncompatible s k (Some h) = true -> RewindTo x = 0 \/
    (0 < RewindTo x < h /\ isForkIncompatible s k (Some (RewindTo x)) = false)).
  { intros s k x ? ? -> ?. destruct (newCompatError_rewind s k h) as [?|?]; auto.
    destruct (decide (RewindTo (newCompatError s k) = 0)); [by left|right].
    split; [lia|]. apply newCompatError_compatible; auto; lia. }
  assert (G : forall s k r, r <= h ->
    isForkIncompatible s k (Some r) = true -> isForkIncompatible s k (Some h) = true).
  { intros s k r Hr Hi. destruct (isForkIncompatible s k (Some h)) eqn:E; [done|].
    by rewrite (isForkIncompatible_mono s k r h) in Hi by (done || lia). }
  repeat (match type of Hck with context [if ?b then _ else _] =>
            destruct b eqn:? end; simplify_eq); try done;
    (match goal with |- context [newCompatError ?s ?k] =>
       destruct (M s k (newCompatError s k)) as [?|[Hb Hf]]; auto end;
     right; split; [done|]; rewrite Hf;
     repeat match goal with |- context [if isForkIncompatible ?s ?k (Some ?r) then _ else _] =>
       lazymatch r with h => fail | _ =>
         let E := fresh in destruct (isForkIncompatible s k (Some r)) eqn:E;
         [ apply G in E; [|lia]; first [rewrite E | congruence] |] end end;
     repeat case_match; first [lia | congruence]).
Qed.

Lemma CheckCompatible_loop_spec fuel c n h last :
  wf_config c -> wf_config n -> 0 <= h ->
  (conflicts c n h + 2 <= fuel)%nat ->
  (forall l, last = Some l -> RewindTo l = h) ->
  exists r, CheckCompatible_loop fuel c n h last = Ok r /\
    match r with
    | None => last = None /\ checkCompatible c n h = None
    | Some e => RewindTo e <= h /\
        (RewindTo e = 0 \/ checkCompatible c n (RewindTo e) = None)
    end.
Proof.
  intros Hc Hn. revert h last. induction fuel as [|k IH]; [lia|].
  intros h last Hh Hf Hl. cbn [CheckCompatible_loop].
  destruct (checkCompatible c n h) as [e|] eqn:E.
  2: { exists last. split; [done|]. destruct last as [l|]; [|done].
       rewrite (Hl l eq_refl). split; [lia|]. by right. }
  destruct (checkCompatible_step _ _ _ _ Hc Hn E) as [H0|[Hlt Hm]].
  - assert (R : exists r, CheckCompatible_loop k c n (RewindTo e) (Some e) = Ok r /\
        exists e', r = Some e' /\ RewindTo e' = 0).
    { destruct k as [|k]; [lia|]. cbn [CheckCompatible_loop]. rewrite H0.
      destruct (checkCompatible c n 0) as [e'|] eqn:E'; [|eauto].
      destruct (checkCompatible_step _ _ _ _ Hc Hn E') as [H0'|?]; [|lia].
      rewrite H0'. simpl. eauto. }
    destruct R as (r & Hr & e' & -> & He').
    destruct last as [l|]; [zcase|]; [eexists; split; [done|] | eexists; split; [exact Hr|].. ];
      simpl; [|split; [lia|by left]..].
    split; [lia|]. left. lia.
  - assert (Hlast : forall l, last = Some l -> (RewindTo e =? RewindTo l) = false).
    { intros l ->. apply Z.eqb_neq. rewrite (Hl l eq_refl). lia. }
    destruct (IH (RewindTo e) (Some e)) as (r & Hr & Hp); [lia|lia| |].
    { intros l ?. by simplify_eq. }
    exists r. split.
    { destruct last as [l|]; [rewrite (Hlast l eq_refl)|]; done. }
    destruct r as [e'|]; [|by destruct Hp]. split; [lia|tauto].
Qed.

(** [CheckCompatible] terminates: five rounds are enough for any two
    fork schedules and any height.  It returns an error exactly when the
    schedules conflict at the current height, and the block it asks to rewind
    to is not above that height and is either genesis or a block at which the
    two schedules no longer conflict. *)
Theorem CheckCompatible_total c newcfg height :
  wf_config c -> wf_config newcfg -> 0 <= height ->
  exists r, CheckCompatible 5 c newcfg height = Ok r /\
    (r = None <-> checkCompatible c newcfg height = None) /\
    forall e, r = Some e ->
      RewindTo e <= height /\
      (RewindTo e = 0 \/ checkCompatible c newcfg (RewindTo e) = None).
Proof.
  intros Hc Hn Hh.
  destruct (CheckCompatible_loop_spec 5 c newcfg height None) as (r & Hr & Hp); auto.
  { unfold conflicts. repeat case_match; lia. }
  { done. }
  exists r. split; [exact Hr|]. destruct r as [e|]; simpl in *.
  - split; [|intros ? [= <-]; exact Hp].
    split; [done|]. intros E. unfold CheckCompatible in Hr. cbn in Hr. by rewrite E in Hr.
  - destruct Hp as [_ ->]. done.
Qed.

Definition sample_config (h e l : option Z) : ChainConfig :=
  {| ChainID := Some 1; HomesteadBlock := h; EIP150Block := e; LondonBlock := l;
     TerminalTotalDifficulty := None |}.

Lemma sample_config_wf (h e l : Z) :
  is_u64 h -> is_u64 e -> is_u64 l -> wf_config (sample_config (Some h) (Some e) (Some l)).
Proof. intros. repeat split; intros; simpl in *; simplify_eq; apply H || apply H0 || apply H1. Qed.

(** A configuration that moves two forks below the current head: the loop runs
    twice and asks to rewind below the lower of them. *)
Lemma CheckCompatible_total_witness :
  exists r, CheckCompatible 5 (sample_config (Some 10) (Some 30) (Some 40))
                            (sample_config (Some 20) (Some 25) (Some 40)) 100 = Ok r /\
    (r = None <-> checkCompatible (sample_config (Some 10) (Some 30) (Some 40))
                            (sample_config (Some 20) (Some 25) (Some 40)) 100 = None) /\
    forall e, r = Some e ->
      RewindTo e <= 100 /\
      (RewindTo e = 0 \/
       checkCompatible (sample_config (Some 10) (Some 30) (Some 40))
                       (sample_config (Some 20) (Some 25) (Some 40)) (RewindTo e) = None).
Proof.
  apply CheckCompatible_total;
    [apply sample_config_wf; by compute | apply sample_config_wf; by compute | lia].
Defined.
