(* ===== verification/Common.v ===== *)
(** * Shared helpers of the Go code

    [common/mathutil/integer.go]: overflow-checked arithmetic on [uint64];
    [common/bytes.go]: padding, trimming and copying of byte slices;
    [evm/common.go]: the size and slicing helpers of the virtual machine. *)

From S2P Require Import Prelude Uint256.

Local Open Scope Z_scope.

(** ** [common/mathutil/integer.go] *)

(** [bits.Add64], [bits.Sub64] and [bits.Mul64] of the Go library return the
    low word and the carry, the borrow or the high word. *)
Definition SafeSub (x y : Z) : Z * bool :=
  let diff := sub64 x y in
  let borrowOut := if x <? y then 1 else 0 in
  (diff, negb (borrowOut =? 0)).

Definition SafeAdd (x y : Z) : Z * bool :=
  let sum := add64 x y in
  let carryOut := (x + y) / 2 ^ 64 in
  (sum, negb (carryOut =? 0)).

Definition SafeMul (x y : Z) : Z * bool :=
  let hi := (x * y) / 2 ^ 64 in
  let lo := mul64 x y in
  (lo, negb (hi =? 0)).

(** ** [common/bytes.go] *)

Definition CopyBytes (b : bytes) : bytes := b.

(** [make([]byte, l)]: a negative length panics. *)
Definition make_bytes (l : Z) : res bytes :=
  if l <? 0 then Panic PanicMakeLen else Ok (replicate (Z.to_nat l) 0).

Definition RightPadBytes (s : bytes) (l : Z) : res bytes :=
  if l <=? zlen s then Ok s
  else padded ← make_bytes l; Ok (splice padded 0 s).

Definition LeftPadBytes (s : bytes) (l : Z) : res bytes :=
  if l <=? zlen s then Ok s
  else padded ← make_bytes l; Ok (splice padded (l - zlen s) s).

Fixpoint TrimLeftZeroes (s : bytes) : bytes :=
  match s with
  | b :: r => if negb (b =? 0) then s else TrimLeftZeroes r
  | [] => []
  end.

Definition TrimRightZeroes (s : bytes) : bytes := rev (TrimLeftZeroes (rev s)).

(** ** [evm/common.go] *)

Section evm_common.
Context `{U : Uint256}.

Definition calcMemSize64WithUint (off : Z) (length64 : Z) : Z * bool :=
  if length64 =? 0 then (0, false)
  else
    let '(offset64, overflow) := u_Uint64WithOverflow off in
    if overflow then (0, true)
    else let val := add64 offset64 length64 in (val, val <? offset64).

Definition calcMemSize64 (off l : Z) : Z * bool :=
  if negb (u_IsUint64 l) then (0, true)
  else calcMemSize64WithUint off (u_Uint64 l).
End evm_common.

Definition getData (data : bytes) (start size : Z) : res bytes :=
  let length := zlen data in
  let start := if start >? length then length else start in
  let e := add64 start size in
  let e := if e >? length then length else e in
  d ← slice data start e;
  RightPadBytes d (i64 size).

Definition toWordSize (size : Z) : Z :=
  if size >? MaxUint64 - 31 then MaxUint64 / 32 + 1
  else add64 size 31 / 32.

Definition allZero (b : bytes) : bool := forallb (fun x => x =? 0) b.

(** ** [math/big] *)

(** [x.BitLen()]. *)
Definition BitLen (x : Z) : Z := if x =? 0 then 0 else Z.log2 (Z.abs x) + 1.

(** [x.Bits()] of a natural number: its 64-bit words, least significant first. *)
Fixpoint words (n : nat) (x : Z) : list Z :=
  match n with
  | O => []
  | S k => if x =? 0 then [] else x mod 2 ^ 64 :: words k (x / 2 ^ 64)
  end.
Definition Bits (x : Z) : list Z := words (Z.to_nat (BitLen x)) x.

(** ** Properties *)

Lemma SafeAdd_spec x y : is_u64 x -> is_u64 y ->
  SafeAdd x y = if x + y <? 2 ^ 64 then (x + y, false) else (x + y - 2 ^ 64, true).
Proof.
  unfold is_u64, SafeAdd. intros. zcase.
  - rewrite add64_small, Z.div_small by lia. done.
  - unfold add64. rewrite u64_ge_wrap by lia.
    replace ((x + y) / 2 ^ 64) with 1; [done|].
    apply Z.div_unique with (x + y - 2 ^ 64); lia.
Qed.

Lemma SafeSub_spec x y : is_u64 x -> is_u64 y ->
  SafeSub x y = if y <=? x then (x - y, false) else (x - y + 2 ^ 64, true).
Proof.
  unfold is_u64, SafeSub. intros. destruct (x <? y) eqn:E, (y <=? x) eqn:F; to_prop; try lia.
  - unfold sub64. rewrite u64_neg_wrap by lia. done.
  - rewrite sub64_small by lia. done.
Qed.

Lemma SafeMul_spec x y : is_u64 x -> is_u64 y ->
  snd (SafeMul x y) = negb (x * y <? 2 ^ 64) /\
  (x * y < 2 ^ 64 -> fst (SafeMul x y) = x * y).
Proof.
  unfold is_u64, SafeMul. intros. split; simpl.
  - f_equal. destruct (x * y <? 2 ^ 64) eqn:E; to_prop.
    + apply Z.eqb_eq, Z.div_small. lia.
    + apply Z.eqb_neq. intros C. apply Z.div_small_iff in C; lia.
  - intros. apply mul64_small. nia.
Qed.

Lemma toWordSize_spec size : is_u64 size ->
  toWordSize size = (size + 31) / 32 /\ 0 <= toWordSize size <= 2 ^ 59.
Proof.
  unfold is_u64, toWordSize, MaxUint64. intros H. zcase.
  - replace ((size + 31) / 32) with (2 ^ 59); [done|].
    apply Z.div_unique with (size + 31 - 2 ^ 64); lia.
  - rewrite add64_small by lia. split; [done|].
    split; [apply Z.div_pos; lia | apply Z.div_le_upper_bound; lia].
Qed.

(** Rounding a size up to whole words never overflows silently. *)
Lemma toWordSize_mul32 size : is_u64 size ->
  size <= 32 * toWordSize size < size + 32.
Proof.
  intros H. destruct (toWordSize_spec size H) as [-> _].
  pose proof (Z.div_mod (size + 31) 32). pose proof (Z.mod_pos_bound (size + 31) 32). lia.
Qed.

Section mem_size.
Context `{U : Uint256} `{!Uint256Spec U}.

(** A size without overflow is the end of the accessed range. *)
Lemma calcMemSize64_spec off l : is_word off -> is_word l ->
  let '(v, o) := calcMemSize64 off l in
  is_u64 v /\
  (o = false -> (l = 0 /\ v = 0) \/ (0 < l /\ v = off + l)) /\
  (o = true <-> (2 ^ 64 <= l \/ (0 < l /\ 2 ^ 64 <= off + l))).
Proof.
  intros Ho Hl. unfold calcMemSize64, calcMemSize64WithUint, u_Uint64WithOverflow.
  rewrite !IsUint64_spec, !Uint64_spec by done. unfold is_word, is_u64 in *.
  destruct (l <? 2 ^ 64) eqn:E; simpl negb; cbv iota; to_prop.
  2: { repeat split; try lia. }
  rewrite (Z.mod_small l) by lia. zcase.
  { subst. repeat split; try lia. }
  destruct (off <? 2 ^ 64) eqn:F; simpl negb; cbv iota; to_prop.
  2: { repeat split; try lia. }
  rewrite Z.mod_small by lia.
  destruct (off + l <? 2 ^ 64) eqn:G; to_prop.
  - rewrite add64_small by lia.
    destruct (off + l <? off) eqn:K; to_prop; repeat split; try lia; try done.
  - unfold add64. rewrite u64_ge_wrap by lia.
    destruct (off + l - 2 ^ 64 <? off) eqn:K; to_prop; repeat split; try lia; try done.
Qed.
End mem_size.

(** The result of [getData] for a size that fits an [int] and does not wrap:
    exactly [size] bytes, the bytes of [data] at [start], [start + 1], ... and
    zero past its end. *)
Lemma RightPadBytes_spec s l : 0 <= l -> zlen s <= l ->
  RightPadBytes s l = Ok (s ++ replicate (Z.to_nat l - length s) 0).
Proof.
  unfold RightPadBytes, make_bytes, zlen. intros. zcase.
  - replace (Z.to_nat l - length s)%nat with 0%nat by lia. by rewrite app_nil_r.
  - destruct (l <? 0) eqn:E; to_prop; [lia|]. simpl. f_equal.
    unfold splice. simpl. rewrite take_ge by (rewrite length_replicate; lia).
    rewrite drop_replicate. done.
Qed.

Lemma RightPadBytes_length s l r :
  zlen s <= l -> RightPadBytes s l = Ok r -> zlen r = l.
Proof.
  intros Hl H. pose proof (zlen_nonneg s). rewrite RightPadBytes_spec in H by lia.
  simplify_eq. unfold zlen in *. rewrite length_app, length_replicate. lia.
Qed.

Lemma getData_spec data start size :
  is_u64 start -> 0 <= size -> zlen data + size < 2 ^ 63 ->
  getData data start size =
    Ok (take (Z.to_nat size) (drop (Z.to_nat start) data) ++
        replicate (Z.to_nat size - (length data - Z.to_nat start)) 0).
Proof.
  unfold is_u64, getData. intros Hs Hz Hd. pose proof (zlen_nonneg data) as Hn.
  rewrite i64_small by lia.
  set (st := if start >? zlen data then zlen data else start).
  assert (Hst : 0 <= st <= zlen data) by (unfold st; zcase; lia).
  assert (Hdr : drop (Z.to_nat start) data = drop (Z.to_nat st) data).
  { unfold st, zlen in *. zcase; [|done]. rewrite !drop_ge by lia. done. }
  rewrite add64_small by lia.
  set (e := if st + size >? zlen data then zlen data else st + size).
  assert (He : e = Z.min (st + size) (zlen data)) by (unfold e; zcase; lia).
  rewrite slice_Ok by lia. cbn [mbind res_bind].
  rewrite RightPadBytes_spec; [| lia | unfold zlen in *; rewrite length_take, length_drop; lia].
  rewrite Hdr. f_equal. unfold zlen in *. f_equal.
  - destruct (decide (st + size <= Z.of_nat (length data))).
    + f_equal. lia.
    + rewrite !take_ge by (rewrite length_drop; lia). done.
  - f_equal. rewrite length_take, length_drop. unfold st. zcase; lia.
Qed.

Lemma getData_length data start size r :
  is_u64 start -> 0 <= size -> zlen data + size < 2 ^ 63 ->
  getData data start size = Ok r -> zlen r = size.
Proof.
  intros. rewrite getData_spec in * by done. simplify_eq. unfold zlen.
  rewrite length_app, length_take, length_drop, length_replicate. lia.
Qed.

Lemma wf_bytes_app a b : wf_bytes a -> wf_bytes b -> wf_bytes (a ++ b).
Proof. apply Forall_app_2. Qed.
Lemma wf_bytes_take n a : wf_bytes a -> wf_bytes (take n a).
Proof. apply Forall_take. Qed.
Lemma wf_bytes_drop n a : wf_bytes a -> wf_bytes (drop n a).
Proof. apply Forall_drop. Qed.
Lemma wf_bytes_zeros n : wf_bytes (replicate n 0).
Proof. apply Forall_replicate. unfold is_byte. lia. Qed.
#[export] Hint Resolve wf_bytes_app wf_bytes_take wf_bytes_drop wf_bytes_zeros : entropy.

Lemma wf_bytes_splice l a v : wf_bytes l -> wf_bytes v -> wf_bytes (splice l a v).
Proof. unfold splice. eauto 7 with entropy. Qed.
#[export] Hint Resolve wf_bytes_splice : entropy.

(** [TrimLeftZeroes] removes exactly the leading zeroes. *)
Lemma TrimLeftZeroes_spec s :
  exists n, s = replicate n 0 ++ TrimLeftZeroes s /\ hd 1 (TrimLeftZeroes s) <> 0.
Proof.
  induction s as [|b r (n & IH & Hd)]; [exists 0%nat; done|]. simpl. zcase.
  - exists 0%nat. done.
  - subst. exists (S n). split; [|done]. simpl. by f_equal.
Qed.

Lemma TrimLeftZeroes_value s : be_value (TrimLeftZeroes s) = be_value s.
Proof.
  unfold be_value. induction s as [|b r IH]; [done|]. simpl. zcase; [done|].
  subst. done.
Qed.

(** ** Bit lengths *)

Lemma BitLen_le x : (BitLen x <= 256) <-> Z.abs x < 2 ^ 256.
Proof.
  unfold BitLen. zcase; [subst; lia|].
  pose proof (Z.log2_lt_pow2 (Z.abs x) 256 ltac:(lia)). lia.
Qed.

Lemma BitLen_0 x : (BitLen x >? 0) = negb (x =? 0).
Proof.
  unfold BitLen. destruct (x =? 0) eqn:E; to_prop; [done|]. pose proof (Z.log2_nonneg (Z.abs x)).
  cbn [negb]. apply Z.gtb_lt. lia.
Qed.

(** The number of whole bytes of a natural number. *)
Lemma BitLen_bytes x : 0 < x ->
  256 ^ ((BitLen x + 7) / 8 - 1) <= x < 256 ^ ((BitLen x + 7) / 8) /\ 1 <= (BitLen x + 7) / 8.
Proof.
  intros Hx. unfold BitLen. destruct (x =? 0) eqn:E; to_prop; [lia|]. rewrite Z.abs_eq by lia.
  destruct (Z.log2_spec x Hx) as [Hl Hu]. pose proof (Z.log2_nonneg x). set (l := Z.log2 x) in *.
  set (n := (l + 1 + 7) / 8). assert (Hn : 8 * (n - 1) <= l < 8 * n) by (unfold n; dlia).
  assert (P : forall k, 0 <= k -> 256 ^ k = 2 ^ (8 * k)) by (intros; by rewrite Z.pow_mul_r by lia).
  split; [|lia]. rewrite !P by lia. split.
  - etrans; [|exact Hl]. apply Z.pow_le_mono_r; lia.
  - eapply Z.lt_le_trans; [exact Hu|]. apply Z.pow_le_mono_r; lia.
Qed.
