(* ===== verification/EvmAnalysis.v ===== *)
(** * Jump destination analysis ([evm/analysis.go])

    [codeBitmap] marks the bytes of a contract that are arguments of a PUSH
    instruction, one bit per byte of code, writing 8 and 16 bits at a time.
    The reference it is compared with, [push_data], walks the code one byte
    at a time. *)

From S2P Require Import Prelude.

Local Open Scope Z_scope.

(** ** The bit vector *)

Definition set2BitsMask : Z := 3.
Definition set3BitsMask : Z := 7.
Definition set4BitsMask : Z := 15.
Definition set5BitsMask : Z := 31.
Definition set6BitsMask : Z := 63.
Definition set7BitsMask : Z := 127.

Abbreviation bitvec := (list Z).

(** [bits[i] |= m] and [bits[i] = m]. *)
Definition or_at (bits : bitvec) (i m : Z) : res bitvec :=
  b ← nth_or_panic bits i; Ok (<[Z.to_nat i := Z.lor b m]> bits).
Definition set_at (bits : bitvec) (i m : Z) : res bitvec :=
  _ ← nth_or_panic bits i; Ok (<[Z.to_nat i := m]> bits).

Definition set1 (bits : bitvec) (pos : Z) : res bitvec :=
  or_at bits (pos / 8) (u8 (Z.shiftl 1 (pos mod 8))).

Definition setN (bits : bitvec) (flag pos : Z) : res bitvec :=
  let a := u16 (Z.shiftl flag (pos mod 8)) in
  bits ← or_at bits (pos / 8) (u8 a);
  let b := u8 (Z.shiftr a 8) in
  if negb (b =? 0) then set_at bits (pos / 8 + 1) b else Ok bits.

Definition set8 (bits : bitvec) (pos : Z) : res bitvec :=
  let a := u8 (Z.shiftl 255 (pos mod 8)) in
  bits ← or_at bits (pos / 8) a;
  set_at bits (pos / 8 + 1) (Z.lxor a 255).

Definition set16 (bits : bitvec) (pos : Z) : res bitvec :=
  let a := u8 (Z.shiftl 255 (pos mod 8)) in
  bits ← or_at bits (pos / 8) a;
  bits ← set_at bits (pos / 8 + 1) 255;
  set_at bits (pos / 8 + 2) (Z.lxor a 255).

(** [codeSegment]: is the byte at [pos] an instruction? *)
Definition codeSegment (bits : bitvec) (pos : Z) : res bool :=
  b ← nth_or_panic bits (pos / 8);
  Ok (Z.land (Z.shiftr b (pos mod 8)) 1 =? 0).

(** ** The scan *)

Definition int8 (x : Z) : Z := if x <? 128 then x else x - 256.

(** The two inner loops; [numbits] is a byte, so 16 and 32 rounds bound them. *)
Fixpoint push16 (fuel : nat) (bits : bitvec) (pc numbits : Z) : res (bitvec * Z * Z) :=
  if numbits >=? 16 then
    match fuel with
    | O => NoFuel
    | S k => bits ← set16 bits pc; push16 k bits (pc + 16) (numbits - 16)
    end
  else Ok (bits, pc, numbits).

Fixpoint push8 (fuel : nat) (bits : bitvec) (pc numbits : Z) : res (bitvec * Z * Z) :=
  if numbits >=? 8 then
    match fuel with
    | O => NoFuel
    | S k => bits ← set8 bits pc; push8 k bits (pc + 8) (numbits - 8)
    end
  else Ok (bits, pc, numbits).

(** The final [switch numbits]. *)
Definition push_rest (bits : bitvec) (pc numbits : Z) : res (bitvec * Z) :=
  match numbits with
  | 1 => b ← set1 bits pc; Ok (b, pc + 1)
  | 2 => b ← setN bits set2BitsMask pc; Ok (b, pc + 2)
  | 3 => b ← setN bits set3BitsMask pc; Ok (b, pc + 3)
  | 4 => b ← setN bits set4BitsMask pc; Ok (b, pc + 4)
  | 5 => b ← setN bits set5BitsMask pc; Ok (b, pc + 5)
  | 6 => b ← setN bits set6BitsMask pc; Ok (b, pc + 6)
  | 7 => b ← setN bits set7BitsMask pc; Ok (b, pc + 7)
  | _ => Ok (bits, pc)
  end.

(** One PUSH instruction: mark its [numbits] argument bytes from [pc] on. *)
Definition mark_push (bits : bitvec) (pc numbits : Z) : res (bitvec * Z) :=
  '(bits, pc, numbits) ←
    (if numbits >=? 8 then
       '(bits, pc, numbits) ← push16 16 bits pc numbits;
       push8 32 bits pc numbits
     else Ok (bits, pc, numbits));
  push_rest bits pc numbits.

(** [codeBitmapInternal]: every round advances [pc], so [len(code)] rounds do. *)
Fixpoint codeBitmapInternal (fuel : nat) (code : bytes) (bits : bitvec) (pc : Z)
    : res bitvec :=
  if pc <? zlen code then
    match fuel with
    | O => NoFuel
    | S k =>
      op ← nth_or_panic code pc;
      let pc := pc + 1 in
      if int8 op <? int8 96 then codeBitmapInternal k code bits pc
      else
        let numbits := u8 (op - 96 + 1) in
        '(bits, pc) ← mark_push bits pc numbits;
        codeBitmapInternal k code bits pc
    end
  else Ok bits.

Definition codeBitmap (code : bytes) : res bitvec :=
  let bits := replicate (Z.to_nat (zlen code / 8 + 1 + 4)) 0 in
  codeBitmapInternal (length code) code bits 0.

(** ** The reference: a byte-at-a-time walk *)

(** The number of argument bytes of an instruction. *)
Definition push_args (op : Z) : nat :=
  if (96 <=? op) && (op <=? 127) then Z.to_nat (op - 95) else 0.

(** For each byte of the code, whether it is PUSH data; [skip] argument bytes
    are still to come. *)
Fixpoint push_data (skip : nat) (code : bytes) : list bool :=
  match code with
  | [] => []
  | op :: r =>
    match skip with
    | O => false :: push_data (push_args op) r
    | S k => true :: push_data k r
    end
  end.

(** ** The contents of a bit vector *)

Definition bit (bits : bitvec) (p : Z) : bool :=
  match bits !! Z.to_nat (p / 8) with
  | Some b => Z.testbit b (p mod 8)
  | None => false
  end.

(** Bits [0 .. pc) are those of [m]; nothing is set from [pc] on. *)
Definition marked (bits : bitvec) (n : nat) (m : Z -> bool) (pc : Z) : Prop :=
  length bits = n /\ wf_bytes bits /\
  (forall p, 0 <= p < pc -> bit bits p = m p) /\
  (forall p, pc <= p -> bit bits p = false).

Lemma bit_insert bits i v p :
  0 <= p -> (i < length bits)%nat ->
  bit (<[i := v]> bits) p =
    if decide (Z.to_nat (p / 8) = i) then Z.testbit v (p mod 8) else bit bits p.
Proof.
  intros. unfold bit. case_decide.
  - subst. by rewrite list_lookup_insert_eq.
  - by rewrite list_lookup_insert_ne by done.
Qed.

Lemma mask_testbit n r j :
  0 <= n -> 0 <= r -> 0 <= j ->
  Z.testbit (Z.shiftl (Z.ones n) r) j = (r <=? j) && (j <? r + n).
Proof.
  intros. rewrite Z.shiftl_spec by lia.
  destruct (r <=? j) eqn:E; to_prop; simpl.
  - rewrite Z.testbit_ones_nonneg by lia.
    destruct (j - r <? n) eqn:F, (j <? r + n) eqn:G; to_prop; lia.
  - apply Z.testbit_neg_r. lia.
Qed.

Lemma u8_testbit x j : 0 <= j < 8 -> Z.testbit (u8 x) j = Z.testbit x j.
Proof. intros. apply (Z.mod_pow2_bits_low x 8). lia. Qed.

Lemma u8_byte x : is_byte (u8 x).
Proof. apply Z.mod_pos_bound. lia. Qed.

Lemma byte_high x j : is_byte x -> 8 <= j -> Z.testbit x j = false.
Proof.
  intros. rewrite <- (Z.mod_small x 256) by done. apply (Z.mod_pow2_bits_high _ 8). lia.
Qed.

Lemma lor_byte x y : is_byte x -> is_byte y -> is_byte (Z.lor x y).
Proof.
  intros Hx Hy. enough (Z.lor x y = u8 (Z.lor x y)) as -> by apply u8_byte.
  apply Z.bits_inj'. intros j Hj. destruct (decide (j < 8)).
  - by rewrite u8_testbit.
  - rewrite (byte_high (u8 _)) by (apply u8_byte || lia).
    by rewrite Z.lor_spec, !byte_high by (done || lia).
Qed.

Lemma lxor255_testbit x j : is_byte x -> 0 <= j < 8 ->
  Z.testbit (Z.lxor x 255) j = negb (Z.testbit x j).
Proof.
  intros. rewrite Z.lxor_spec. change 255 with (Z.ones 8).
  rewrite Z.testbit_ones_nonneg by lia.
  destruct (j <? 8) eqn:E; to_prop; [apply xorb_true_r | lia].
Qed.

Lemma lxor255_byte x : is_byte x -> is_byte (Z.lxor x 255).
Proof.
  intros Hx. enough (Z.lxor x 255 = u8 (Z.lxor x 255)) as -> by apply u8_byte.
  apply Z.bits_inj'. intros j Hj. destruct (decide (j < 8)).
  - by rewrite u8_testbit.
  - rewrite (byte_high (u8 _)) by (apply u8_byte || lia).
    by rewrite Z.lxor_spec, !byte_high by (done || lia).
Qed.
#[export] Hint Resolve u8_byte lor_byte lxor255_byte : entropy.

(** ** The writers

    Each writer sets [n] bits at [pos], provided nothing was set from [pos] on
    and the vector reaches far enough. *)

Definition writes (n : Z) (pos : Z) (bits : bitvec) (r : res bitvec) : Prop :=
  exists bits', r = Ok bits' /\ length bits' = length bits /\ wf_bytes bits' /\
    forall p, 0 <= p ->
      bit bits' p = if (pos <=? p) && (p <? pos + n) then true else bit bits p.

Lemma or_at_Ok bits i m :
  wf_bytes bits -> is_byte m -> 0 <= i < zlen bits ->
  exists bits', or_at bits i m = Ok bits' /\ length bits' = length bits /\ wf_bytes bits' /\
    forall p, 0 <= p -> bit bits' p =
      if decide (p / 8 = i) then bit bits p || Z.testbit m (p mod 8) else bit bits p.
Proof.
  intros Hw Hm Hi. unfold or_at. destruct (nth_or_panic_Ok bits i Hi) as (b & -> & Hb).
  eexists. split; [reflexivity|]. rewrite length_insert. split; [done|]. split.
  { apply Forall_insert; [done|]. apply lor_byte; [|done].
    by eapply Forall_lookup_1 in Hb. }
  intros p Hp. rewrite bit_insert by (unfold zlen in *; lia).
  assert (0 <= p / 8) by (apply Z.div_pos; lia).
  destruct (decide (p / 8 = i)) as [<-|].
  - rewrite decide_True by done. unfold bit. by rewrite Hb, Z.lor_spec.
  - rewrite decide_False by lia. done.
Qed.

Lemma set_at_Ok bits i m :
  wf_bytes bits -> is_byte m -> 0 <= i < zlen bits ->
  exists bits', set_at bits i m = Ok bits' /\ length bits' = length bits /\ wf_bytes bits' /\
    forall p, 0 <= p -> bit bits' p =
      if decide (p / 8 = i) then Z.testbit m (p mod 8) else bit bits p.
Proof.
  intros Hw Hm Hi. unfold set_at. destruct (nth_or_panic_Ok bits i Hi) as (b & -> & Hb).
  eexists. split; [reflexivity|]. rewrite length_insert. split; [done|]. split.
  { by apply Forall_insert. }
  intros p Hp. rewrite bit_insert by (unfold zlen in *; lia).
  assert (0 <= p / 8) by (apply Z.div_pos; lia).
  destruct (decide (p / 8 = i)) as [<-|]; [by rewrite decide_True | by rewrite decide_False by lia].
Qed.

(** Positions relative to the byte [pos] falls in. *)
Ltac position p := 
  pose proof (Z.div_mod p 8 ltac:(lia)); pose proof (Z.mod_pos_bound p 8 ltac:(lia));
  try (assert (0 <= p / 8) by (apply Z.div_pos; lia)).

Ltac split_byte :=
  repeat match goal with
  | |- context [decide ?P] => destruct (decide P)
  | |- context [(?a <=? ?b)] => destruct (Z.leb_spec a b)
  | |- context [(?a <? ?b)] => destruct (Z.ltb_spec a b)
  end; simpl.

Section writers.
Context (bits : bitvec) (pos : Z).
Context (Hw : wf_bytes bits) (Hpos : 0 <= pos).
Context (Hclear : forall p, pos <= p -> bit bits p = false).

Lemma set1_writes : pos / 8 < zlen bits -> writes 1 pos bits (set1 bits pos).
Proof.
  intros Hl. unfold set1. position pos.
  destruct (or_at_Ok bits (pos / 8) (u8 (Z.shiftl 1 (pos mod 8)))) as (b & -> & ? & ? & Hb);
    [done | auto with entropy | lia |].
  eexists. repeat split; try done. intros p Hp. rewrite Hb by done. position p.
  rewrite u8_testbit by lia. change 1 with (Z.ones 1) at 1.
  rewrite mask_testbit by lia. pose proof (Hclear p).
  split_byte; try lia; rewrite ?orb_true_r, ?orb_false_r; done.
Qed.

Lemma setN_writes n :
  2 <= n <= 7 -> pos / 8 + 1 < zlen bits ->
  writes n pos bits (setN bits (Z.ones n) pos).
Proof.
  intros Hn Hl. unfold setN. position pos.
  assert (Hsm : u16 (Z.shiftl (Z.ones n) (pos mod 8)) = Z.shiftl (Z.ones n) (pos mod 8)).
  { apply Z.mod_small. rewrite Z.shiftl_mul_pow2, Z.ones_equiv by lia.
    assert (2 ^ n <= 2 ^ 7) by (apply Z.pow_le_mono_r; lia).
    assert (2 ^ (pos mod 8) <= 2 ^ 7) by (apply Z.pow_le_mono_r; lia).
    assert (0 < 2 ^ n) by (apply Z.pow_pos_nonneg; lia).
    assert (0 < 2 ^ (pos mod 8)) by (apply Z.pow_pos_nonneg; lia). nia. }
  rewrite Hsm. set (a := Z.shiftl (Z.ones n) (pos mod 8)).
  destruct (or_at_Ok bits (pos / 8) (u8 a)) as (b & -> & Hlb & Hwb & Hb);
    [done | auto with entropy | lia |]. cbn [mbind res_bind].
  assert (Hhi : forall j, 0 <= j < 8 -> Z.testbit (u8 (Z.shiftr a 8)) j = (j + 8 <? pos mod 8 + n)).
  { intros j Hj. rewrite u8_testbit, Z.shiftr_spec by lia. unfold a.
    rewrite mask_testbit by lia. split_byte; lia. }
  assert (Hlo : forall p, 0 <= p -> bit b p =
    if decide (p / 8 = pos / 8) then (pos <=? p) && (p <? pos + n) || bit bits p else bit bits p).
  { intros p Hp. rewrite Hb by done. case_decide; [|done]. position p.
    rewrite u8_testbit by lia. unfold a. rewrite mask_testbit by lia.
    split_byte; try lia; rewrite ?orb_true_r, ?orb_false_r; done. }
  destruct (u8 (Z.shiftr a 8) =? 0) eqn:E; simpl negb; cbv iota; to_prop.
  - exists b. repeat split; try done. intros p Hp. rewrite Hlo by done. position p.
    assert (pos mod 8 + n <= 8).
    { destruct (Z.le_gt_cases (pos mod 8 + n) 8); [done|].
      specialize (Hhi 0 ltac:(lia)). rewrite E in Hhi. simpl in Hhi.
      symmetry in Hhi. to_prop. lia. }
    split_byte; try lia; done.
  - destruct (set_at_Ok b (pos / 8 + 1) (u8 (Z.shiftr a 8))) as (c & -> & ? & ? & Hc);
      [done | auto with entropy | unfold zlen in *; lia |].
    exists c. repeat split; try done; [congruence|].
    intros p Hp. rewrite Hc by done. position p. case_decide.
    + rewrite Hhi by lia. pose proof (Hclear p).
      split_byte; try lia; try done. symmetry. auto with lia.
    + rewrite Hlo by done. split_byte; try lia; done.
Qed.

Lemma ff_testbit j : 0 <= j < 8 ->
  Z.testbit (u8 (Z.shiftl 255 (pos mod 8))) j = (pos mod 8 <=? j).
Proof.
  intros. position pos. rewrite u8_testbit by lia. change 255 with (Z.ones 8).
  rewrite mask_testbit by lia. split_byte; lia.
Qed.

Lemma set8_writes : pos / 8 + 1 < zlen bits -> writes 8 pos bits (set8 bits pos).
Proof.
  intros Hl. unfold set8. position pos. set (a := u8 (Z.shiftl 255 (pos mod 8))).
  assert (is_byte a) by (apply u8_byte).
  destruct (or_at_Ok bits (pos / 8) a) as (b & -> & ? & ? & Hb); [done | done | lia |].
  cbn [mbind res_bind].
  destruct (set_at_Ok b (pos / 8 + 1) (Z.lxor a 255)) as (c & -> & ? & ? & Hc);
    [done | auto with entropy | unfold zlen in *; lia |].
  exists c. repeat split; try done; [congruence|].
  intros p Hp. rewrite Hc, Hb by done. position p. pose proof (Hclear p) as Hcl.
  rewrite lxor255_testbit by (done || lia). unfold a. rewrite ff_testbit by lia.
  split_byte; try lia; rewrite ?orb_true_r, ?orb_false_r; try done; symmetry; auto with lia.
Qed.

Lemma set16_writes : pos / 8 + 2 < zlen bits -> writes 16 pos bits (set16 bits pos).
Proof.
  intros Hl. unfold set16. position pos. set (a := u8 (Z.shiftl 255 (pos mod 8))).
  assert (is_byte a) by (apply u8_byte).
  destruct (or_at_Ok bits (pos / 8) a) as (b & -> & ? & ? & Hb); [done | done | lia |].
  cbn [mbind res_bind].
  destruct (set_at_Ok b (pos / 8 + 1) 255) as (c & -> & ? & ? & Hc);
    [done | unfold is_byte; lia | unfold zlen in *; lia |]. cbn [mbind res_bind].
  destruct (set_at_Ok c (pos / 8 + 2) (Z.lxor a 255)) as (d & -> & ? & ? & Hd);
    [done | auto with entropy | unfold zlen in *; lia |].
  exists d. repeat split; try done; [congruence|].
  intros p Hp. rewrite Hd, Hc, Hb by done. position p. pose proof (Hclear p) as Hcl.
  rewrite lxor255_testbit by (done || lia). unfold a. rewrite ff_testbit by lia.
  assert (Hff : Z.testbit 255 (p mod 8) = true).
  { change 255 with (Z.ones 8). rewrite Z.testbit_ones_nonneg by lia. apply Z.ltb_lt. lia. }
  rewrite Hff.
  split_byte; try lia; rewrite ?orb_true_r, ?orb_false_r; try done; symmetry; auto with lia.
Qed.
End writers.

(** ** The scan marks exactly the PUSH arguments *)

Definition wrote (n pos : Z) (bits bits' : bitvec) : Prop :=
  length bits' = length bits /\ wf_bytes bits' /\
  forall p, 0 <= p ->
    bit bits' p = if (pos <=? p) && (p <? pos + n) then true else bit bits p.

Definition clear_from (pos : Z) (bits : bitvec) : Prop :=
  forall p, pos <= p -> bit bits p = false.

Lemma wrote_refl pos bits : wf_bytes bits -> wrote 0 pos bits bits.
Proof. intros. repeat split; try done. intros p Hp. split_byte; lia || done. Qed.

Lemma wrote_trans a b pos x y z :
  0 <= a -> 0 <= b -> wrote a pos x y -> wrote b (pos + a) y z -> wrote (a + b) pos x z.
Proof.
  intros Ha Hb (?&?&Hy) (?&?&Hz). repeat split; try done; [congruence|].
  intros p Hp. rewrite Hz, Hy by done. split_byte; lia || done.
Qed.

Lemma wrote_clear n pos x y :
  0 <= pos -> 0 <= n -> clear_from pos x -> wrote n pos x y -> clear_from (pos + n) y.
Proof.
  intros ? ? Hc (?&?&Hy) p Hp. rewrite Hy by lia.
  split_byte; try lia. apply Hc. lia.
Qed.

Lemma push16_spec fuel bits pc n :
  0 <= pc -> wf_bytes bits -> clear_from pc bits -> 0 <= n < 16 * Z.of_nat fuel + 16 ->
  pc / 8 + 2 * (n / 16) < zlen bits ->
  exists k bits', 0 <= k /\ 0 <= n - 16 * k < 16 /\
    push16 fuel bits pc n = Ok (bits', pc + 16 * k, n - 16 * k) /\ wrote (16 * k) pc bits bits'.
Proof.
  revert bits pc n. induction fuel as [|f IH]; intros bits pc n Hpc Hw Hc Hn Hl; simpl push16.
  - zcase; [lia|]. exists 0, bits. rewrite Z.mul_0_r, Z.add_0_r, Z.sub_0_r.
    split_and!; try lia; try done; apply wrote_refl; done.
  - zcase.
    2: { exists 0, bits. rewrite Z.mul_0_r, Z.add_0_r, Z.sub_0_r.
         split_and!; try lia; try done; apply wrote_refl; done. }
    destruct (set16_writes bits pc) as (b & -> & Hlb & Hwb & Hb); [done..|dlia|].
    assert (Hwr : wrote 16 pc bits b) by done. cbn [mbind res_bind].
    destruct (IH b (pc + 16) (n - 16)) as (k & b' & ? & ? & -> & Hk);
      [lia | done | apply wrote_clear with bits; done || lia | lia | unfold zlen in *; dlia |].
    exists (k + 1), b'.
    replace (pc + 16 + 16 * k) with (pc + 16 * (k + 1)) by lia.
    replace (n - 16 - 16 * k) with (n - 16 * (k + 1)) by lia.
    split_and!; try lia; [done|].
    replace (16 * (k + 1)) with (16 + 16 * k) by lia. eapply wrote_trans; eauto; lia.
Qed.

Lemma push8_spec fuel bits pc n :
  0 <= pc -> wf_bytes bits -> clear_from pc bits -> 0 <= n < 8 * Z.of_nat fuel + 8 ->
  pc / 8 + n / 8 < zlen bits ->
  exists k bits', 0 <= k /\ 0 <= n - 8 * k < 8 /\
    push8 fuel bits pc n = Ok (bits', pc + 8 * k, n - 8 * k) /\ wrote (8 * k) pc bits bits'.
Proof.
  revert bits pc n. induction fuel as [|f IH]; intros bits pc n Hpc Hw Hc Hn Hl; simpl push8.
  - zcase; [lia|]. exists 0, bits. rewrite Z.mul_0_r, Z.add_0_r, Z.sub_0_r.
    split_and!; try lia; try done; apply wrote_refl; done.
  - zcase.
    2: { exists 0, bits. rewrite Z.mul_0_r, Z.add_0_r, Z.sub_0_r.
         split_and!; try lia; try done; apply wrote_refl; done. }
    destruct (set8_writes bits pc) as (b & -> & Hlb & Hwb & Hb); [done..|dlia|].
    assert (Hwr : wrote 8 pc bits b) by done. cbn [mbind res_bind].
    destruct (IH b (pc + 8) (n - 8)) as (k & b' & ? & ? & -> & Hk);
      [lia | done | apply wrote_clear with bits; done || lia | lia | unfold zlen in *; dlia |].
    exists (k + 1), b'.
    replace (pc + 8 + 8 * k) with (pc + 8 * (k + 1)) by lia.
    replace (n - 8 - 8 * k) with (n - 8 * (k + 1)) by lia.
    split_and!; try lia; [done|].
    replace (8 * (k + 1)) with (8 + 8 * k) by lia. eapply wrote_trans; eauto; lia.
Qed.

Lemma push_rest_spec bits pc n :
  0 <= pc -> wf_bytes bits -> clear_from pc bits -> 0 <= n < 8 ->
  (0 < n -> pc / 8 + 1 < zlen bits) ->
  exists bits', push_rest bits pc n = Ok (bits', pc + n) /\ wrote n pc bits bits'.
Proof.
  intros Hpc Hw Hc Hn Hl.
  assert (n = 0 \/ n = 1 \/ 2 <= n) as [-> | [-> | Hn2]] by lia.
  - exists bits. rewrite Z.add_0_r. split; [done | by apply wrote_refl].
  - destruct (set1_writes bits pc) as (b & E & ?); [done..|dlia|].
    simpl. rewrite E. eauto.
  - destruct (setN_writes bits pc Hw Hpc Hc n) as (b & E & ?); [lia..|].
    exists b. split; [|done].
    assert (n = 2 \/ n = 3 \/ n = 4 \/ n = 5 \/ n = 6 \/ n = 7) as Hcase by lia.
    transitivity (b ← setN bits (Z.ones n) pc; Ok (b, pc + n)); [|by rewrite E].
    destruct Hcase as [-> | [-> | [-> | [-> | [-> | ->]]]]]; reflexivity.
Qed.

Lemma mark_push_spec bits pc n L :
  0 <= pc <= L -> wf_bytes bits -> clear_from pc bits -> 1 <= n <= 32 ->
  zlen bits = L / 8 + 5 ->
  exists bits', mark_push bits pc n = Ok (bits', pc + n) /\ wrote n pc bits bits'.
Proof.
  intros Hpc Hw Hc Hn Hl. unfold mark_push. zcase.
  - destruct (push16_spec 16 bits pc n) as (k & b1 & Hk & Hk' & -> & W1); [lia|done|done|lia|dlia|].
    cbn [mbind res_bind].
    assert (C1 : clear_from (pc + 16 * k) b1) by (eapply wrote_clear with bits; eauto; lia).
    assert (zlen b1 = zlen bits) by (unfold zlen; destruct W1 as [-> _]; done).
    destruct (push8_spec 32 b1 (pc + 16 * k) (n - 16 * k)) as (j & b2 & Hj & Hj' & -> & W2);
      [lia | by destruct W1 as (_&?&_) | done | lia | dlia |]. cbn [mbind res_bind].
    assert (C2 : clear_from (pc + 16 * k + 8 * j) b2) by (eapply wrote_clear with b1; eauto; lia).
    assert (zlen b2 = zlen b1) by (unfold zlen; destruct W2 as [-> _]; done).
    destruct (push_rest_spec b2 (pc + 16 * k + 8 * j) (n - 16 * k - 8 * j)) as (b3 & -> & W3);
      [lia | by destruct W2 as (_&?&_) | done | lia | dlia |].
    exists b3. split; [do 2 f_equal; lia|].
    replace n with (16 * k + (8 * j + (n - 16 * k - 8 * j))) at 1 by lia.
    eapply wrote_trans; [lia|lia|eassumption|]. eapply wrote_trans; eauto; lia.
  - cbn [mbind res_bind]. apply push_rest_spec; auto; dlia.
Qed.

(** The reference walk at a position, as a function. *)
Definition is_data (code : bytes) (p : Z) : bool := default false (push_data 0 code !! Z.to_nat p).

Lemma push_data_length skip code : length (push_data skip code) = length code.
Proof.
  revert skip. induction code as [|op r IH]; intros [|k]; simpl; auto; by rewrite IH.
Qed.

(** Walking over a suffix of the code: [n] argument bytes, then instructions. *)
Lemma push_data_skip n code p :
  (p < length code)%nat ->
  push_data n code !! p =
    if decide (p < n)%nat then Some true else push_data 0 (drop n code) !! (p - n)%nat.
Proof.
  revert code p. induction n as [|n IH]; intros code p Hp.
  - rewrite decide_False by lia. by rewrite drop_0, Nat.sub_0_r.
  - destruct code as [|op r]; simpl in *; [lia|]. destruct p as [|p]; simpl.
    + done.
    + rewrite IH by lia. repeat case_decide; try lia; done.
Qed.

Definition scan_inv (code : bytes) (bits : bitvec) (pc : Z) : Prop :=
  zlen bits = zlen code / 8 + 5 /\ wf_bytes bits /\ clear_from pc bits /\
  (forall p, 0 <= p < pc -> p < zlen code -> bit bits p = is_data code p) /\
  (forall p, pc <= p < zlen code ->
     is_data code p = is_data (drop (Z.to_nat pc) code) (p - pc)).

Lemma is_data_step code p op r :
  code = op :: r -> 0 < p < zlen code ->
  is_data code p =
    if p <=? Z.of_nat (push_args op) then true
    else is_data (drop (push_args op) r) (p - 1 - Z.of_nat (push_args op)).
Proof.
  intros -> Hp. unfold is_data. replace (Z.to_nat p) with (S (Z.to_nat (p - 1))) by lia.
  simpl. unfold zlen in Hp. simpl in Hp. rewrite push_data_skip by lia.
  destruct (p <=? Z.of_nat (push_args op)) eqn:E; to_prop; case_decide; try lia; [done|].
  do 2 f_equal. lia.
Qed.

Lemma push_args_int8 op : is_byte op ->
  (int8 op <? int8 96) = true -> push_args op = 0%nat.
Proof.
  unfold is_byte, int8, push_args. intros. simpl in *.
  destruct (op <? 128) eqn:E; to_prop; destruct (96 <=? op) eqn:F; simpl; to_prop; try lia; try done.
  destruct (op <=? 127) eqn:G; to_prop; lia || done.
Qed.

Lemma push_args_numbits op : is_byte op ->
  (int8 op <? int8 96) = false ->
  Z.of_nat (push_args op) = u8 (op - 96 + 1) /\ 1 <= u8 (op - 96 + 1) <= 32.
Proof.
  unfold is_byte, int8, push_args, u8. intros. simpl in *.
  destruct (op <? 128) eqn:E; to_prop; [|lia].
  rewrite Z.mod_small by lia.
  destruct (96 <=? op) eqn:F, (op <=? 127) eqn:G; to_prop; simpl; lia.
Qed.

(** One instruction of the scan keeps the invariant. *)
Lemma scan_inv_step code bits pc op n bits' :
  0 <= pc < zlen code -> code !! Z.to_nat pc = Some op -> n = Z.of_nat (push_args op) ->
  scan_inv code bits pc -> wrote n (pc + 1) bits bits' ->
  scan_inv code bits' (pc + 1 + n).
Proof.
  intros Hpc Hop -> (Hl & Hw & Hc & Hd & Hs) (Hl' & Hw' & Hb).
  set (n := Z.of_nat (push_args op)) in *.
  assert (Hdrop : drop (Z.to_nat pc) code = op :: drop (S (Z.to_nat pc)) code)
    by (by apply drop_S).
  assert (Hstep : forall p, pc < p < zlen code -> is_data code p =
    if p - pc <=? n then true
    else is_data (drop (Z.to_nat (pc + 1 + n)) code) (p - (pc + 1 + n))).
  { intros p Hp. rewrite Hs by lia.
    rewrite (is_data_step _ _ op (drop (S (Z.to_nat pc)) code)); [|done|].
    2: { unfold zlen in *. rewrite length_drop. lia. }
    subst n. zcase; [done|]. rewrite drop_drop. f_equal; [f_equal|]; lia. }
  repeat split.
  - unfold zlen in *. by rewrite Hl'.
  - done.
  - intros p Hp. rewrite Hb by lia. split_byte; try lia. apply Hc. lia.
  - intros p Hp Hpl. rewrite Hb by lia.
    destruct (Z.lt_trichotomy p pc) as [?|[->|?]].
    + split_byte; try lia; apply Hd; lia.
    + split_byte; try lia. all: rewrite Hc, Hs, Z.sub_diag, Hdrop by lia; done.
    + rewrite Hstep by lia. split_byte; try lia; done.
  - intros p Hp. rewrite Hstep by lia. zcase; [lia|done].
Qed.

Lemma codeBitmapInternal_spec fuel code bits pc :
  wf_bytes code -> 0 <= pc -> zlen code - pc <= Z.of_nat fuel -> scan_inv code bits pc ->
  exists bits' pc', codeBitmapInternal fuel code bits pc = Ok bits' /\
    zlen code <= pc' /\ scan_inv code bits' pc'.
Proof.
  intros Hwc. revert bits pc. induction fuel as [|f IH]; intros bits pc Hpc Hf Hi; simpl.
  { zcase; [lia|]. eauto. }
  zcase; [|eauto].
  destruct (nth_or_panic_Ok code pc) as (op & -> & Hop); [lia|]. cbn [mbind res_bind].
  assert (Hbop : is_byte op) by (by eapply Forall_lookup_1 in Hop).
  destruct (int8 op <? int8 96) eqn:E.
  - apply IH; [lia|lia|]. replace (pc + 1) with (pc + 1 + 0) by lia.
    apply scan_inv_step with bits op; try done; [by rewrite push_args_int8|].
    apply wrote_refl. apply Hi.
  - destruct (push_args_numbits _ Hbop E) as [Hn Hr].
    destruct (mark_push_spec bits (pc + 1) (u8 (op - 96 + 1)) (zlen code))
      as (b & -> & W); [lia | apply Hi | | lia | apply Hi |].
    { intros p Hp. apply Hi. lia. }
    cbn [mbind res_bind]. apply IH; [lia|lia|].
    apply scan_inv_step with bits op; done.
Qed.

Lemma codeBitmap_spec code :
  wf_bytes code ->
  exists bits, codeBitmap code = Ok bits /\
    zlen bits = zlen code / 8 + 5 /\
    forall pos, 0 <= pos < zlen code ->
      codeSegment bits pos = Ok (negb (is_data code pos)).
Proof.
  intros Hw. unfold codeBitmap.
  set (z := replicate _ 0).
  assert (Hz : forall p, bit z p = false).
  { intros p. unfold bit, z. destruct (_ !! _) as [b|] eqn:E; [|done].
    apply lookup_replicate in E as [-> _]. apply Z.bits_0. }
  assert (Hlz : zlen z = zlen code / 8 + 5).
  { unfold z. pose proof (zlen_nonneg code).
    rewrite zlen_replicate; [lia|]. assert (0 <= zlen code / 8) by (apply Z.div_pos; lia). lia. }
  destruct (codeBitmapInternal_spec (length code) code z 0) as (bits & pc' & -> & Hpc & Hi);
    [done | lia | unfold zlen; lia | |].
  { unfold scan_inv. split_and!; [done| |intros p _; apply Hz|intros; lia|].
    - apply Forall_replicate. unfold is_byte. lia.
    - intros p Hp. by rewrite drop_0, Z.sub_0_r. }
  exists bits. split; [done|]. destruct Hi as (Hl & Hwb & _ & Hd & _). split; [done|].
  intros pos Hpos. rewrite <- Hd by lia. unfold codeSegment, bit.
  assert (0 <= pos / 8 < zlen bits).
  { rewrite Hl. split; [apply Z.div_pos; lia|].
    assert (pos / 8 <= zlen code / 8) by (apply Z.div_le_mono; lia). lia. }
  destruct (nth_or_panic_Ok bits (pos / 8)) as (b & -> & ->); [done|].
  cbn [mbind res_bind]. f_equal.
  rewrite Z.testbit_odd, (Z.land_ones _ 1), Z.pow_1_r, Zmod_odd by lia.
  by destruct (Z.odd _).
Qed.

(** [codeBitmap] terminates without an out-of-range access on every contract
    code, and its result classifies every byte of the code the way the
    byte-at-a-time walk does: [codeSegment] answers true exactly for the bytes
    that are instructions and not arguments of a PUSH. *)
Theorem codeBitmap_correct code :
  wf_bytes code ->
  exists bits, codeBitmap code = Ok bits /\
    zlen bits = zlen code / 8 + 5 /\
    forall pos, 0 <= pos < zlen code ->
      codeSegment bits pos = Ok (negb (is_data code pos)).
Proof. apply codeBitmap_spec. Qed.

(** PUSH2 0x5b5b JUMPDEST PUSH32 <30 bytes, the code ends inside>. *)
Lemma codeBitmap_correct_witness :
  exists bits, codeBitmap ([97; 91; 91; 91; 127] ++ replicate 30 91) = Ok bits /\
    zlen bits = 9 /\
    forall pos, 0 <= pos < 35 ->
      codeSegment bits pos = Ok (negb (is_data ([97; 91; 91; 91; 127] ++ replicate 30 91) pos)).
Proof.
  apply (codeBitmap_correct ([97; 91; 91; 91; 127] ++ replicate 30 91)).
  repeat constructor; lia.
Defined.
