(* ===== verification/EvmStack.v ===== *)
(** * Errors and the operand stack of the virtual machine

    [evm/errors.go]: the error values; [evm/stack.go]: the stack of 256-bit
    words; [evm/stack_table.go]: the stack limits of an operation. *)

From S2P Require Import Prelude Uint256 Config.

Local Open Scope Z_scope.

(** ** [evm/errors.go] *)

Inductive Err :=
| ErrOutOfGas
| ErrCodeStoreOutOfGas
| ErrDepth
| ErrInsufficientBalance
| ErrContractAddressCollision
| ErrExecutionReverted
| ErrMaxCodeSizeExceeded
| ErrInvalidJump
| ErrWriteProtection
| ErrReturnDataOutOfBounds
| ErrGasUintOverflow
| ErrInvalidCode
| ErrNonceUintOverflow
| errStopToken
| ErrStackUnderflow (stackLen required : Z)
| ErrStackOverflow (stackLen limit : Z)
| ErrInvalidOpCode (opcode : Z)
| ErrSentry.                     (* "not enough gas for reentrancy sentry" *)

#[export] Instance Err_eq_dec : EqDecision Err.
Proof. solve_decision. Defined.

(** ** [evm/stack.go]

    The slice [data] is stored top first: [data[len-1-n]] is element [n]. *)

Abbreviation Stack := (list Z).

Module Stack.
Definition newstack : Stack := [].

(** [returnStack]: the pooled stack is truncated before it is put back. *)
Definition returnStack (st : Stack) : Stack := [].

Definition len (st : Stack) : Z := zlen st.

Definition push (d : Z) (st : Stack) : Stack := d :: st.

Definition pop (st : Stack) : res (Z * Stack) :=
  match st with x :: r => Ok (x, r) | [] => Panic PanicIndex end.

(** [Back(n)]: the [n]-th item from the top. *)
Definition Back (st : Stack) (n : Z) : res Z := nth_or_panic st n.

Definition peek (st : Stack) : res Z := Back st 0.

(** Assignment through the pointer [peek] returns. *)
Definition set_top (v : Z) (st : Stack) : res Stack :=
  match st with _ :: r => Ok (v :: r) | [] => Panic PanicIndex end.

(** [swap(n)] exchanges [data[len-n]] and [data[len-1]]. *)
Definition swap (n : Z) (st : Stack) : res Stack :=
  x ← nth_or_panic st (n - 1);
  y ← nth_or_panic st 0;
  Ok (<[Z.to_nat (n - 1) := y]> (<[0%nat := x]> st)).

Definition dup (n : Z) (st : Stack) : res Stack :=
  x ← nth_or_panic st (n - 1); Ok (push x st).
End Stack.

(** ** [evm/stack_table.go] *)

Definition maxStack (pop push : Z) : Z := StackLimit + pop - push.
Definition minStack (pops push : Z) : Z := pops.
Definition minSwapStack (n : Z) : Z := minStack n n.
Definition maxSwapStack (n : Z) : Z := maxStack n n.
Definition minDupStack (n : Z) : Z := minStack n (n + 1).
Definition maxDupStack (n : Z) : Z := maxStack n (n + 1).

(** ** Properties *)

Definition wf_stack (st : Stack) : Prop := Forall is_word st.

Lemma Back_Ok st n : wf_stack st -> 0 <= n < zlen st ->
  exists x, Stack.Back st n = Ok x /\ is_word x.
Proof.
  intros Hw Hn. destruct (nth_or_panic_Ok st n Hn) as (x & E & Hx).
  exists x. split; [exact E|]. by eapply Forall_lookup_1 in Hx.
Qed.

Lemma pop_Ok st : wf_stack st -> 0 < zlen st ->
  exists x r, Stack.pop st = Ok (x, r) /\ st = x :: r /\ is_word x /\ wf_stack r.
Proof.
  intros Hw Hn. destruct st as [|x r]; [done|].
  apply Forall_cons in Hw as [? ?]. exists x, r. done.
Qed.

Lemma dup_spec n st : 1 <= n <= zlen st ->
  exists x, st !! Z.to_nat (n - 1) = Some x /\ Stack.dup n st = Ok (x :: st).
Proof.
  intros Hn. destruct (nth_or_panic_Ok st (n - 1)) as (x & E & Hx); [lia|].
  exists x. split; [done|]. unfold Stack.dup. by rewrite E.
Qed.

(** [swap(n)] exchanges the top with the [n]-th item and touches nothing else. *)
Lemma swap_spec n st : 2 <= n <= zlen st ->
  exists st', Stack.swap n st = Ok st' /\ length st' = length st /\
    st' !! 0%nat = st !! Z.to_nat (n - 1) /\
    st' !! Z.to_nat (n - 1) = st !! 0%nat /\
    (forall i, i <> 0%nat -> i <> Z.to_nat (n - 1) -> st' !! i = st !! i).
Proof.
  intros Hn. unfold Stack.swap.
  destruct (nth_or_panic_Ok st (n - 1)) as (x & -> & Hx); [lia|].
  destruct (nth_or_panic_Ok st 0) as (y & -> & Hy); [lia|].
  cbn [mbind res_bind]. eexists. split; [reflexivity|].
  rewrite !length_insert. split; [done|]. unfold zlen in Hn.
  split; [|split].
  - rewrite list_lookup_insert_ne, list_lookup_insert_eq by lia. done.
  - rewrite list_lookup_insert_eq by (rewrite length_insert; lia). done.
  - intros i H0 Hi. rewrite !list_lookup_insert_ne by done. done.
Qed.

Lemma swap_wf n st st' : wf_stack st -> Stack.swap n st = Ok st' ->
  wf_stack st' /\ length st' = length st.
Proof.
  unfold Stack.swap, nth_or_panic, or_panic. intros Hw H. bind_inv H. bind_inv H.
  repeat case_match; simplify_eq. rewrite !length_insert. split; [|done].
  apply Forall_insert; [apply Forall_insert; [done|]|];
    match goal with |- is_word ?v => idtac end;
    eapply Forall_lookup_1; eassumption.
Qed.

Lemma dup_wf n st st' : wf_stack st -> Stack.dup n st = Ok st' ->
  wf_stack st' /\ length st' = S (length st).
Proof.
  unfold Stack.dup, nth_or_panic, or_panic. intros Hw H. bind_inv H.
  repeat case_match; simplify_eq. split; [|done].
  apply Forall_cons. split; [|done]. eapply Forall_lookup_1; eassumption.
Qed.
