(* ===== verification/EvmMemory.v ===== *)
(** * The byte memory of the virtual machine

    [evm/memory.go]: the memory of a call frame; [evm/memory_table.go]: the
    memory an operation needs; [memoryGasCost] of [evm/gas_table.go]: what
    expanding it costs. *)

From S2P Require Import Prelude Uint256 Config Common EvmStack.

Local Open Scope Z_scope.

(** ** [evm/memory.go] *)

Record Memory := { store : bytes; lastGasCost : Z }.

Module Memory.
Definition NewMemory : Memory := {| store := []; lastGasCost := 0 |}.

Definition Len (m : Memory) : Z := zlen (store m).

Definition with_store (m : Memory) (s : bytes) : Memory :=
  {| store := s; lastGasCost := lastGasCost m |}.

Definition set (offset size : Z) (value : bytes) (m : Memory) : res Memory :=
  if size >? 0 then
    if add64 offset size >? Len m then Panic PanicMemory
    else
      _ ← slice (store m) offset (add64 offset size);
      Ok (with_store m (splice (store m) offset (take (Z.to_nat size) value)))
  else Ok m.

(** [b32] is the 32-byte big-endian form of the word [val]. *)
Definition set32 (offset : Z) (val : Z) (m : Memory) : res Memory :=
  if add64 offset 32 >? Len m then Panic PanicMemory
  else
    _ ← slice (store m) offset (Len m);
    Ok (with_store m (splice (store m) offset (be_bytes 32 val))).

Definition Resize (size : Z) (m : Memory) : Memory :=
  if Len m <? size
  then with_store m (store m ++ replicate (Z.to_nat (size - Len m)) 0)
  else m.

Definition GetCopy (m : Memory) (offset size : Z) : res bytes :=
  if size =? 0 then Ok []
  else if Len m >? offset then
    cpy ← make_bytes size;
    s ← slice (store m) offset (offset + size);
    Ok (splice cpy 0 s)
  else Ok [].

Definition GetPtr (m : Memory) (offset size : Z) : res bytes :=
  if size =? 0 then Ok []
  else if Len m >? offset then slice (store m) offset (offset + size)
  else Ok [].

(** [m.store[off] = b], as [opMstore8] does. *)
Definition set_byte (off b : Z) (m : Memory) : res Memory :=
  _ ← nth_or_panic (store m) off;
  Ok (with_store m (<[Z.to_nat off := b]> (store m))).
End Memory.

(** ** [memoryGasCost] ([evm/gas_table.go]) *)

Definition memoryGasCost (mem : Memory) (newMemSize : Z) : (Z + Err) * Memory :=
  if newMemSize =? 0 then (inl 0, mem)
  else if newMemSize >? 137438953440 (* 0x1FFFFFFFE0 *) then (inr ErrGasUintOverflow, mem)
  else
    let newMemSizeWords := toWordSize newMemSize in
    let newMemSize := mul64 newMemSizeWords 32 in
    if newMemSize >? Memory.Len mem then
      let square := mul64 newMemSizeWords newMemSizeWords in
      let linCoef := mul64 newMemSizeWords MemoryGas in
      let quadCoef := square / QuadCoeffDiv in
      let newTotalFee := add64 linCoef quadCoef in
      let fee := sub64 newTotalFee (lastGasCost mem) in
      (inl fee, {| store := store mem; lastGasCost := newTotalFee |})
    else (inl 0, mem).

(** ** [evm/memory_table.go] *)

Section memory_table.
Context `{U : Uint256}.

Definition memoryRange (off l : Z) (st : Stack) : res (Z * bool) :=
  o ← Stack.Back st off; s ← Stack.Back st l; Ok (calcMemSize64 o s).

Definition memoryKeccak256 := memoryRange 0 1.
Definition memoryCallDataCopy := memoryRange 0 2.
Definition memoryReturnDataCopy := memoryRange 0 2.
Definition memoryCodeCopy := memoryRange 0 2.
Definition memoryExtCodeCopy := memoryRange 1 3.
Definition memoryMLoad (st : Stack) : res (Z * bool) :=
  o ← Stack.Back st 0; Ok (calcMemSize64WithUint o 32).
Definition memoryMStore8 (st : Stack) : res (Z * bool) :=
  o ← Stack.Back st 0; Ok (calcMemSize64WithUint o 1).
Definition memoryMStore (st : Stack) : res (Z * bool) :=
  o ← Stack.Back st 0; Ok (calcMemSize64WithUint o 32).
Definition memoryCreate := memoryRange 1 2.
Definition memoryCreate2 := memoryRange 1 2.

(** The larger of the argument and the return range of a call. *)
Definition memoryTwoRanges (o1 l1 o2 l2 : Z) (st : Stack) : res (Z * bool) :=
  '(x, overflow) ← memoryRange o1 l1 st;
  if overflow : bool then Ok (0, true)
  else
    '(y, overflow) ← memoryRange o2 l2 st;
    if overflow : bool then Ok (0, true)
    else if x >? y then Ok (x, false) else Ok (y, false).

Definition memoryCall := memoryTwoRanges 5 6 3 4.
Definition memoryDelegateCall := memoryTwoRanges 4 5 2 3.
Definition memoryStaticCall := memoryTwoRanges 4 5 2 3.
Definition memoryReturn := memoryRange 0 1.
Definition memoryRevert := memoryRange 0 1.
Definition memoryLog := memoryRange 0 1.
End memory_table.

(** ** The memory invariant

    A frame's memory consists of whole words, at most [0xFFFFFFFF] of them, and
    [lastGasCost] is the total fee of its size. *)

Definition memFee (words : Z) : Z := 3 * words + words * words / 512.

Definition mem_ok (m : Memory) : Prop :=
  wf_bytes (store m) /\
  exists w, 0 <= w <= 4294967295 /\ Memory.Len m = 32 * w /\ lastGasCost m = memFee w.

Lemma mem_ok_new : mem_ok Memory.NewMemory.
Proof. split; [constructor|]. exists 0. repeat split; try lia; done. Qed.

Lemma memFee_mono a b : 0 <= a <= b -> memFee a <= memFee b.
Proof.
  intros. unfold memFee.
  assert (a * a / 512 <= b * b / 512) by (apply Z.div_le_mono; nia). lia.
Qed.

Lemma memFee_bounds w : 0 <= w <= 4294967295 -> 0 <= memFee w < 2 ^ 56.
Proof.
  intros. unfold memFee.
  assert (w * w / 512 < 2 ^ 55) by (apply Z.div_lt_upper_bound; nia).
  assert (0 <= w * w / 512) by (apply Z.div_pos; nia). lia.
Qed.

(** ** Accesses within the memory *)

(** The range of [l] bytes at [o] is empty or lies within the memory. *)
Definition in_range (m : Memory) (o l : Z) : Prop :=
  l = 0 \/ (0 <= o /\ 0 < l /\ o + l <= Memory.Len m).

Lemma mem_ok_len m : mem_ok m -> 0 <= Memory.Len m <= 2 ^ 37.
Proof. intros (_ & w & Hw & -> & _). lia. Qed.

(** Replacing bytes keeps the size, hence the invariant. *)
Lemma mem_ok_store m s : mem_ok m -> wf_bytes s -> zlen s = Memory.Len m ->
  mem_ok (Memory.with_store m s) /\ Memory.Len (Memory.with_store m s) = Memory.Len m.
Proof. intros (_ & w & Hw & Hl & Hf) Hs E. split; [|done]. split; [done|]. exists w. by rewrite <- Hl, <- E. Qed.

Lemma set_Ok o l v m : mem_ok m -> wf_bytes v -> in_range m o l ->
  exists m', Memory.set o l v m = Ok m' /\ mem_ok m' /\ Memory.Len m' = Memory.Len m.
Proof.
  intros Hm Hv Hr. pose proof (mem_ok_len m Hm). unfold Memory.set.
  destruct Hr as [-> | (? & ? & ?)]; [by exists m|].
  destruct (l >? 0) eqn:E; to_prop; [|lia]. rewrite add64_small by lia.
  destruct (o + l >? Memory.Len m) eqn:F; to_prop; [lia|].
  rewrite slice_Ok by (try unfold Memory.Len in *; lia). cbn [mbind res_bind].
  eexists. split; [reflexivity|]. apply mem_ok_store; [done| |].
  - destruct Hm. auto with entropy.
  - unfold zlen. rewrite splice_length; [done|lia|].
    unfold Memory.Len, zlen in *. rewrite length_take. lia.
Qed.

Lemma set32_Ok o v m : mem_ok m -> in_range m o 32 ->
  exists m', Memory.set32 o v m = Ok m' /\ mem_ok m' /\ Memory.Len m' = Memory.Len m.
Proof.
  intros Hm Hr. pose proof (mem_ok_len m Hm). unfold Memory.set32.
  destruct Hr as [? | (? & ? & ?)]; [lia|]. rewrite add64_small by lia.
  destruct (o + 32 >? Memory.Len m) eqn:F; to_prop; [lia|].
  rewrite slice_Ok by (try unfold Memory.Len in *; lia). cbn [mbind res_bind].
  eexists. split; [reflexivity|]. apply mem_ok_store; [done| |].
  - destruct Hm. apply wf_bytes_splice; [done | apply wf_be_bytes].
  - unfold zlen. rewrite splice_length; [done|lia|]. rewrite zlen_be_bytes.
    unfold Memory.Len in *. lia.
Qed.

Lemma set_byte_Ok o b m : mem_ok m -> is_byte b -> in_range m o 1 ->
  exists m', Memory.set_byte o b m = Ok m' /\ mem_ok m' /\ Memory.Len m' = Memory.Len m.
Proof.
  intros Hm Hb Hr. unfold Memory.set_byte. destruct Hr as [? | (? & ? & ?)]; [lia|].
  destruct (nth_or_panic_Ok (store m) o) as (x & -> & _); [unfold Memory.Len in *; lia|].
  cbn [mbind res_bind]. eexists. split; [reflexivity|]. apply mem_ok_store; [done| |].
  - destruct Hm. by apply Forall_insert.
  - unfold zlen. by rewrite length_insert.
Qed.

(** The reads, at the offsets [opReturn] and the others compute. *)
Lemma GetPtr_Ok o l m : mem_ok m -> in_range m o l ->
  exists r, Memory.GetPtr m (i64 o) (i64 l) = Ok r /\ wf_bytes r /\ zlen r = l.
Proof.
  intros Hm Hr. pose proof (mem_ok_len m Hm). unfold Memory.GetPtr.
  destruct Hr as [-> | (? & ? & ?)]; [exists []; split; [done|]; split; [constructor|done]|].
  rewrite !i64_small by lia. destruct (l =? 0) eqn:E; to_prop; [lia|].
  destruct (Memory.Len m >? o) eqn:F; to_prop; [|lia].
  rewrite slice_Ok by (try unfold Memory.Len in *; lia).
  eexists. split; [reflexivity|]. destruct Hm as [Hw _]. split; [auto with entropy|].
  unfold Memory.Len, zlen in *. rewrite length_take, length_drop. lia.
Qed.

Lemma GetCopy_Ok o l m : mem_ok m -> in_range m o l ->
  exists r, Memory.GetCopy m (i64 o) (i64 l) = Ok r /\ wf_bytes r /\ zlen r = l.
Proof.
  intros Hm Hr. destruct (GetPtr_Ok o l m Hm Hr) as (r & E & Hw & Hl). revert E.
  unfold Memory.GetPtr, Memory.GetCopy. destruct (i64 l =? 0) eqn:El; [by exists r|].
  destruct (Memory.Len m >? i64 o) eqn:F; [|by exists r]. intros E. rewrite E.
  unfold make_bytes. pose proof (slice_length _ _ _ _ E) as Hs.
  pose proof (zlen_nonneg r). destruct (i64 l <? 0) eqn:G; to_prop; [lia|].
  cbn [mbind res_bind]. eexists. split; [reflexivity|].
  split; [auto with entropy|]. unfold zlen. rewrite splice_length; [|lia|].
  - rewrite length_replicate. lia.
  - rewrite zlen_replicate by lia. lia.
Qed.

Section covers.
Context `{U : Uint256} `{!Uint256Spec U}.

Lemma memoryRange_in st m a b o l sz :
  wf_stack st -> memoryRange a b st = Ok (sz, false) -> sz <= Memory.Len m ->
  Stack.Back st a = Ok o -> Stack.Back st b = Ok l -> is_word o -> is_word l ->
  is_u64 l /\ in_range m (u_Uint64 o) (u_Uint64 l).
Proof.
  intros Hw H Hl Ho Hb Wo Wl. unfold memoryRange in H. rewrite Ho, Hb in H. cbn in H.
  pose proof (calcMemSize64_spec o l Wo Wl) as S. destruct (calcMemSize64 o l) as [v ov].
  simplify_eq. destruct S as (Hv & S & N). specialize (S eq_refl).
  assert (~ 2 ^ 64 <= l) by (intros ?; assert (false = true) by (apply N; lia); done).
  rewrite !Uint64_spec by done. unfold is_word, is_u64 in *. split; [lia|].
  destruct S as [[-> _] | [? ->]]; [by left|]. right. rewrite !Z.mod_small by lia. lia.
Qed.

Lemma calcWithUint_in m o l sz : is_word o -> 0 < l < 2 ^ 64 ->
  calcMemSize64WithUint o l = (sz, false) -> sz <= Memory.Len m ->
  is_u64 sz /\ in_range m (u_Uint64 o) l.
Proof.
  intros Wo Hl H Hs. pose proof (calcMemSize64_spec o l Wo ltac:(unfold is_word, two256; lia)) as S.
  unfold calcMemSize64 in S. rewrite IsUint64_spec, Uint64_spec in S by (unfold is_word, two256; lia).
  destruct (l <? 2 ^ 64) eqn:E; to_prop; [|lia]. cbn [negb] in S. rewrite Z.mod_small in S by lia.
  rewrite H in S. destruct S as (Hv & S & _). split; [done|]. specialize (S eq_refl).
  rewrite Uint64_spec by done. unfold is_word, is_u64 in *.
  destruct S as [[-> _] | [? ->]]; [lia|]. right. rewrite Z.mod_small by lia. lia.
Qed.
End covers.

Lemma memoryGasCost_spec mem newMemSize :
  mem_ok mem -> is_u64 newMemSize ->
  let w := Memory.Len mem / 32 in
  let w' := (newMemSize + 31) / 32 in
  let '(r, mem') := memoryGasCost mem newMemSize in
  match r with
  | inr e => e = ErrGasUintOverflow /\ 137438953440 < newMemSize
  | inl fee =>
      newMemSize <= 137438953440 /\
      fee = memFee (Z.max w w') - memFee w /\ 0 <= fee < 2 ^ 56 /\
      mem_ok (Memory.Resize (32 * w') mem') /\
      Memory.Len (Memory.Resize (32 * w') mem') = 32 * Z.max w w'
  end.
Proof.
  intros (Hwb & w & Hw & Hlen & Hlast) Hn. unfold is_u64 in Hn. cbv zeta.
  rewrite Hlen, (Z.mul_comm 32 w), Z.div_mul by lia.
  assert (Hres : forall m k, store m = store mem -> 0 <= k ->
    Memory.Len (Memory.Resize (32 * k) m) = 32 * Z.max w k /\
    wf_bytes (store (Memory.Resize (32 * k) m)) /\
    lastGasCost (Memory.Resize (32 * k) m) = lastGasCost m).
  { intros m k Hm Hk. unfold Memory.Resize, Memory.Len in *. rewrite Hm.
    destruct (zlen (store mem) <? 32 * k) eqn:E; to_prop; simpl.
    - rewrite zlen_app, zlen_replicate by lia. split; [lia|]. auto with entropy.
    - rewrite Hm. split; [lia|done]. }
  unfold memoryGasCost. zcase.
  { subst. change ((0 + 31) / 32) with 0. destruct (Hres mem 0) as (H1 & H2 & H3); [done|lia|].
    rewrite Z.max_l by lia. split; [lia|]. split; [lia|]. split; [lia|].
    rewrite H1, Z.max_l by lia. split; [|lia]. split; [done|].
    exists w. rewrite H1, H3. repeat split; lia. }
  zcase. { split; [done | lia]. }
  destruct (toWordSize_spec newMemSize) as [Ht Ht']; [unfold is_u64; lia|].
  set (k := (newMemSize + 31) / 32) in *. rewrite Ht in *.
  assert (Hk : 1 <= k <= 4294967295).
  { unfold k. split; [apply Z.div_le_lower_bound; lia|].
    apply Z.lt_succ_r, Z.div_lt_upper_bound; lia. }
  rewrite mul64_small by lia.
  destruct (Hres {| store := store mem; lastGasCost := memFee k |} k) as (R1 & R2 & R3);
    [done|lia|].
  destruct (Hres mem k) as (Q1 & Q2 & Q3); [done|lia|].
  destruct (k * 32 >? Memory.Len mem) eqn:E; to_prop.
  - assert (w < k) by lia.
    unfold MemoryGas, QuadCoeffDiv. assert (k * k < 2 ^ 64) by nia.
    rewrite (mul64_small k k), (mul64_small k 3) by lia.
    pose proof (memFee_bounds k ltac:(lia)) as Hf. pose proof (memFee_mono w k ltac:(lia)).
    pose proof (memFee_bounds w Hw). pose proof Hf as Hf'. unfold memFee in Hf.
    assert (0 <= k * k / 512) by (apply Z.div_pos; nia).
    rewrite add64_small by lia. rewrite (Z.mul_comm k 3). fold (memFee k).
    rewrite Hlast, sub64_small by lia. rewrite Z.max_r in * by lia.
    split; [lia|]. split; [done|]. split; [lia|]. split; [|done].
    split; [done|]. exists k. rewrite R1, R3. simpl. split; [lia|]. split; [lia|done].
  - rewrite Z.max_l in * by lia. split; [lia|]. split; [lia|]. split; [lia|].
    split; [|done]. split; [done|]. exists w. rewrite Q1, Q3. done.
Qed.

(** the memory expansion fee is exact.  For a memory in its invariant and
    a requested size, [memoryGasCost] either reports the overflow (sizes above
    [0x1FFFFFFFE0]) or charges precisely the difference between the quadratic
    fee of the new and of the current number of words, with no wrap-around in
    any of the 64-bit operations, and after the memory has been resized to the
    requested whole words the invariant holds again. *)
Theorem memoryGasCost_correct mem newMemSize :
  mem_ok mem -> is_u64 newMemSize ->
  let w := Memory.Len mem / 32 in
  let w' := (newMemSize + 31) / 32 in
  let '(r, mem') := memoryGasCost mem newMemSize in
  match r with
  | inr e => e = ErrGasUintOverflow /\ 137438953440 < newMemSize
  | inl fee =>
      newMemSize <= 137438953440 /\
      fee = memFee (Z.max w w') - memFee w /\ 0 <= fee < 2 ^ 56 /\
      mem_ok (Memory.Resize (32 * w') mem') /\
      Memory.Len (Memory.Resize (32 * w') mem') = 32 * Z.max w w'
  end.
Proof. apply memoryGasCost_spec. Qed.

Lemma memoryGasCost_correct_witness :
  let mem := {| store := replicate 64 7; lastGasCost := 6 |} in
  mem_ok mem /\ memoryGasCost mem 1000 = (inl 92, {| store := replicate 64 7; lastGasCost := 98 |}) /\
  mem_ok (Memory.Resize 1024 (snd (memoryGasCost mem 1000))).
Proof.
  intros mem.
  assert (M : mem_ok mem).
  { split; [apply Forall_replicate; unfold is_byte; lia|]. exists 2. repeat split; done || lia. }
  assert (U : is_u64 1000) by (unfold is_u64; lia).
  pose proof (memoryGasCost_correct mem 1000 M U) as H. cbv zeta in H.
  split; [done|]. split; [vm_compute; reflexivity|].
  vm_compute memoryGasCost in H. destruct H as (_ & _ & _ & H & _). exact H.
Defined.
