(* ===== verification/Rlp.v ===== *)
(** * Recursive length prefix encoding ([common/rlp])

    [encBuffer] of [encbuffer.go] keeps the string data and the list headers of
    a value apart and merges them at the end; [encode] is the reference, one
    string per value.  [raw.go] splits encoded values without decoding them. *)

From S2P Require Import Prelude Common.

Local Open Scope Z_scope.

(** ** Values

    What the reflection-driven writers of [encode.go] feed to the buffer: byte
    strings, unsigned integers, big integers, slices and structs. *)
Inductive item :=
| IBytes (b : bytes)
| IUint (n : Z)
| IBig (x : Z)
| IList (l : list item)
| IStruct (l : list item).

Inductive RlpErr :=
| ErrUnexpectedEOF | ErrExpectedString | ErrExpectedList | ErrCanonInt
| ErrCanonSize | ErrValueTooLarge | errUintOverflow.

Inductive Kind := Byte | String | List.

#[export] Instance Kind_eq_dec : EqDecision Kind.
Proof. solve_decision. Defined.

(** ** [encode.go]: headers *)

(** [putint]: the bytes written, in the least number of bytes. *)
Definition putint (i : Z) : bytes :=
  if i <? 2 ^ 8 then be_bytes 1 i
  else if i <? 2 ^ 16 then be_bytes 2 i
  else if i <? 2 ^ 24 then be_bytes 3 i
  else if i <? 2 ^ 32 then be_bytes 4 i
  else if i <? 2 ^ 40 then be_bytes 5 i
  else if i <? 2 ^ 48 then be_bytes 6 i
  else if i <? 2 ^ 56 then be_bytes 7 i
  else be_bytes 8 i.

(** [intsize]: [i >>= 8] until it is zero; a [uint64] needs at most 8 rounds. *)
Fixpoint intsize_loop (fuel : nat) (size i : Z) : res Z :=
  match fuel with
  | O => NoFuel
  | S k => let i := Z.shiftr i 8 in if i =? 0 then Ok size else intsize_loop k (size + 1) i
  end.
Definition intsize (i : Z) : res Z := intsize_loop 8 1 i.

Definition headsize (size : Z) : res Z :=
  if size <? 56 then Ok 1 else n ← intsize size; Ok (1 + n).

(** [puthead]: the header bytes; its length is the returned size. *)
Definition puthead (smalltag largetag size : Z) : bytes :=
  if size <? 56 then [u8 (smalltag + u8 size)]
  else let s := putint size in u8 (largetag + u8 (zlen s)) :: s.

(** ** [encbuffer.go] *)

Record listhead := { offset : Z; hsize : Z }.

Record encBuffer := { str : bytes; lheads : list listhead; lhsize : Z }.

Module Enc.
Definition reset : encBuffer := {| str := []; lheads := []; lhsize := 0 |}.

Definition size (b : encBuffer) : Z := zlen (str b) + lhsize b.

Definition append (b : encBuffer) (s : bytes) : encBuffer :=
  {| str := str b ++ s; lheads := lheads b; lhsize := lhsize b |}.

Definition writeBool (x : bool) (b : encBuffer) : encBuffer :=
  append b (if x then [1] else [128]).

Definition writeUint64 (i : Z) (b : encBuffer) : encBuffer :=
  if i =? 0 then append b [128]
  else if i <? 128 then append b [u8 i]
  else let s := putint i in append b (u8 (128 + u8 (zlen s)) :: s).

Definition encodeStringHeader (size : Z) (b : encBuffer) : encBuffer :=
  if size <? 56 then append b [u8 (128 + u8 size)]
  else let s := putint size in append b (u8 (183 + u8 (zlen s)) :: s).

(** The inner loop of [writeBigInt]: the bytes of a word, from the end of the
    buffer. *)
Fixpoint put_word (j : nat) (d index : Z) (buf : bytes) : res (Z * bytes) :=
  match j with
  | O => Ok (index, buf)
  | S j =>
    if index >? 0 then
      let index := index - 1 in
      _ ← nth_or_panic buf index;
      put_word j (Z.shiftr d 8) index (<[Z.to_nat index := u8 d]> buf)
    else Ok (index, buf)
  end.

Fixpoint put_words (ds : Datatypes.list Z) (index : Z) (buf : bytes) : res bytes :=
  match ds with
  | [] => Ok buf
  | d :: ds => '(index, buf) ← put_word 8 d index buf; put_words ds index buf
  end.

Definition writeBigInt (i : Z) (b : encBuffer) : res encBuffer :=
  let bitlen := BitLen i in
  if bitlen <=? 64 then Ok (writeUint64 (u64 i) b)
  else
    let length := Z.shiftr (Z.land (bitlen + 7) (-8)) 3 in
    let b := encodeStringHeader length b in
    buf ← make_bytes length;
    buf ← put_words (Bits i) length buf;
    Ok (append b buf).

Definition writeBytes (bs : bytes) (b : encBuffer) : encBuffer :=
  match bs with
  | [x] => if x <=? 127 then append b [x]
           else append (encodeStringHeader (zlen bs) b) bs
  | _ => append (encodeStringHeader (zlen bs) b) bs
  end.

(** [list] returns the index of the new header. *)
Definition list (b : encBuffer) : Z * encBuffer :=
  (zlen (lheads b),
   {| str := str b;
      lheads := lheads b ++ [{| offset := zlen (str b); hsize := lhsize b |}];
      lhsize := lhsize b |}).

Definition listEnd (index : Z) (b : encBuffer) : res encBuffer :=
  lh ← nth_or_panic (lheads b) index;
  let sz := size b - offset lh - hsize lh in
  let heads := <[Z.to_nat index := {| offset := offset lh; hsize := sz |}]> (lheads b) in
  if sz <? 56
  then Ok {| str := str b; lheads := heads; lhsize := lhsize b + 1 |}
  else n ← intsize sz;
       Ok {| str := str b; lheads := heads; lhsize := lhsize b + (1 + n) |}.

(** The writer of a value: the slice writer and the writer of a struct without
    optional fields bracket the elements with [list] and [listEnd]; the slice
    writer has a shortcut for no element. *)
Fixpoint write (it : item) (b : encBuffer) : res encBuffer :=
  match it with
  | IBytes bs => Ok (writeBytes bs b)
  | IUint n => Ok (writeUint64 n b)
  | IBig x => writeBigInt x b
  | IList [] => Ok (append b [192])
  | IList l | IStruct l =>
    let '(index, b) := list b in
    b ← (fix go (l : Datatypes.list item) (b : encBuffer) : res encBuffer :=
           match l with [] => Ok b | x :: r => b ← write x b; go r b end) l b;
    listEnd index b
  end.

(** [copy(dst[pos:], src)]: as many bytes as fit, and how many they are. *)
Definition copy_at (dst : bytes) (pos : Z) (src : bytes) : res (bytes * Z) :=
  _ ← slice dst pos (zlen dst);
  let n := Z.min (zlen src) (zlen dst - pos) in
  Ok (splice dst pos (take (Z.to_nat n) src), n).

(** [head.encode(dst[pos:])]: writing past the end panics. *)
Definition put_at (dst : bytes) (pos : Z) (enc : bytes) : res (bytes * Z) :=
  _ ← slice dst pos (zlen dst);
  if zlen dst - pos <? zlen enc then Panic PanicIndex else Ok (splice dst pos enc, zlen enc).

(** [copyTo]: string data up to each header, the header, and the rest of the
    string data. *)
Fixpoint copyTo (heads : Datatypes.list listhead) (strpos pos : Z) (s dst : bytes) : res bytes :=
  match heads with
  | [] => src ← slice s strpos (zlen s); '(dst, _) ← copy_at dst pos src; Ok dst
  | h :: r =>
    src ← slice s strpos (offset h);
    '(dst, n) ← copy_at dst pos src;
    '(dst, k) ← put_at dst (pos + n) (puthead 192 247 (hsize h));
    copyTo r (strpos + n) (pos + n + k) s dst
  end.

Definition makeBytes (b : encBuffer) : res bytes :=
  out ← make_bytes (size b); copyTo (lheads b) 0 0 (str b) out.

Definition EncodeToBytes (it : item) : res bytes :=
  b ← write it reset; makeBytes b.
End Enc.

(** ** [raw.go] *)

Definition ListSize (contentSize : Z) : res Z :=
  n ← headsize contentSize; Ok (add64 n contentSize).

Definition IntSize (x : Z) : res Z :=
  if x <? 128 then Ok 1 else n ← intsize x; Ok (1 + n).

Definition AppendUint64 (b : bytes) (i : Z) : bytes :=
  if i =? 0 then b ++ [128]
  else if i <? 128 then b ++ [u8 i]
  else if i <? 2 ^ 8 then b ++ 129 :: be_bytes 1 i
  else if i <? 2 ^ 16 then b ++ 130 :: be_bytes 2 i
  else if i <? 2 ^ 24 then b ++ 131 :: be_bytes 3 i
  else if i <? 2 ^ 32 then b ++ 132 :: be_bytes 4 i
  else if i <? 2 ^ 40 then b ++ 133 :: be_bytes 5 i
  else if i <? 2 ^ 48 then b ++ 134 :: be_bytes 6 i
  else if i <? 2 ^ 56 then b ++ 135 :: be_bytes 7 i
  else b ++ 136 :: be_bytes 8 i.

(** [readSize]: the shifts and ors of the first [slen] bytes are their
    big-endian value; [slen] is between 1 and 8 at every call. *)
Definition readSize (b : bytes) (slen : Z) : res (Z + RlpErr) :=
  if slen >? zlen b then Ok (inr ErrUnexpectedEOF)
  else
    let s := if (1 <=? slen) && (slen <=? 8) then be_value (take (Z.to_nat slen) b) else 0 in
    if s <? 56 then Ok (inr ErrCanonSize)
    else
      b0 ← nth_or_panic b 0;
      if b0 =? 0 then Ok (inr ErrCanonSize) else Ok (inl s).

Definition readKind (buf : bytes) : res (Kind * Z * Z + RlpErr) :=
  match buf with
  | [] => Ok (inr ErrUnexpectedEOF)
  | b :: tl =>
    let fits k tagsize contentsize :=
      if contentsize >? sub64 (zlen buf) tagsize then Ok (inr ErrValueTooLarge)
      else Ok (inl (k, tagsize, contentsize)) in
    if b <? 128 then fits Byte 0 1
    else if b <? 184 then
      let contentsize := b - 128 in
      if (contentsize =? 1) && (match tl with x :: _ => x <? 128 | [] => false end)
      then Ok (inr ErrCanonSize)
      else fits String 1 contentsize
    else if b <? 192 then
      r ← readSize tl (b - 183);
      match r with inr e => Ok (inr e) | inl s => fits String (b - 183 + 1) s end
    else if b <? 248 then fits List 1 (b - 192)
    else
      r ← readSize tl (b - 247);
      match r with inr e => Ok (inr e) | inl s => fits List (b - 247 + 1) s end
  end.

Definition Split (b : bytes) : res (Kind * bytes * bytes + RlpErr) :=
  r ← readKind b;
  match r with
  | inr e => Ok (inr e)
  | inl (k, ts, cs) =>
    c ← slice b ts (ts + cs);
    rest ← slice b (ts + cs) (zlen b);
    Ok (inl (k, c, rest))
  end.

Definition SplitString (b : bytes) : res (bytes * bytes + RlpErr) :=
  r ← Split b;
  match r with
  | inr e => Ok (inr e)
  | inl (k, content, rest) =>
    if decide (k = List) then Ok (inr ErrExpectedString) else Ok (inl (content, rest))
  end.

Definition SplitList (b : bytes) : res (bytes * bytes + RlpErr) :=
  r ← Split b;
  match r with
  | inr e => Ok (inr e)
  | inl (k, content, rest) =>
    if decide (k = List) then Ok (inl (content, rest)) else Ok (inr ErrExpectedList)
  end.

Definition SplitUint64 (b : bytes) : res (Z * bytes + RlpErr) :=
  r ← SplitString b;
  match r with
  | inr e => Ok (inr e)
  | inl (content, rest) =>
    match content with
    | [] => Ok (inl (0, rest))
    | [x] => if x =? 0 then Ok (inr ErrCanonInt) else Ok (inl (x, rest))
    | _ =>
      if zlen content >? 8 then Ok (inr errUintOverflow)
      else
        x ← readSize content (zlen content);
        match x with inr _ => Ok (inr ErrCanonInt) | inl x => Ok (inl (x, rest)) end
    end
  end.

(** [CountValues]: every value consumes at least one byte, so [len(b)] rounds
    are enough. *)
Fixpoint CountValues_loop (fuel : nat) (b : bytes) (i : Z) : res (Z + RlpErr) :=
  if zlen b >? 0 then
    match fuel with
    | O => NoFuel
    | S k =>
      r ← readKind b;
      match r with
      | inr e => Ok (inr e)
      | inl (_, tagsize, size) =>
        b ← slice b (tagsize + size) (zlen b);
        CountValues_loop k b (i + 1)
      end
    end
  else Ok (inl i).

Definition CountValues (b : bytes) : res (Z + RlpErr) := CountValues_loop (length b) b 0.

(** ** [iterator.go] *)

Record listIterator := { it_data : bytes; it_next : bytes; it_err : option RlpErr }.

Definition NewListIterator (data : bytes) : res (listIterator + RlpErr) :=
  r ← readKind data;
  match r with
  | inr e => Ok (inr e)
  | inl (k, t, c) =>
    if decide (k = List) then
      d ← slice data t (t + c); Ok (inl {| it_data := d; it_next := []; it_err := None |})
    else Ok (inr ErrExpectedList)
  end.

(** [Next]: on an error [readKind] returns zero sizes. *)
Definition Next_item (it : listIterator) : res (bool * listIterator) :=
  if zlen (it_data it) =? 0 then Ok (false, it)
  else
    r ← readKind (it_data it);
    let '(n, err) := match r with inl (_, t, c) => (t + c, None) | inr e => (0, Some e) end in
    nx ← slice (it_data it) 0 n;
    rest ← slice (it_data it) n (zlen (it_data it));
    Ok (true, {| it_data := rest; it_next := nx; it_err := err |}).

(** ** The reference encoding *)

Definition encode_bytes (bs : bytes) : bytes :=
  match bs with
  | [x] => if x <=? 127 then [x] else puthead 128 183 1 ++ bs
  | _ => puthead 128 183 (zlen bs) ++ bs
  end.

Definition encode_uint (n : Z) : bytes :=
  encode_bytes (if n =? 0 then [] else putint n).

(** A big integer is the string of its bytes, without leading zeroes. *)
Definition big_bytes (x : Z) : bytes := be_bytes (Z.to_nat ((BitLen x + 7) / 8)) x.

Fixpoint encode (it : item) : bytes :=
  match it with
  | IBytes b => encode_bytes b
  | IUint n => encode_uint n
  | IBig x => encode_bytes (big_bytes x)
  | IList l | IStruct l =>
    let c := flat_map encode l in puthead 192 247 (zlen c) ++ c
  end.

Definition encode_items (l : list item) : bytes := flat_map encode l.
