(* ===== verification/RlpSpec.v ===== *)
(** * Correctness of the RLP encoder and splitter

    The buffered encoder produces the reference encoding; [Split] accepts exactly
    the canonical encodings, and inverts them; counting the values of a sequence
    counts them. *)

From S2P Require Import Prelude Common Rlp.

Local Open Scope Z_scope.

(** ** Integers in the least number of bytes *)

Lemma be_bytes_cons n x : be_bytes (S n) x = (x / 256 ^ Z.of_nat n) mod 256 :: be_bytes n x.
Proof.
  revert x. induction n as [|n IH]; intros x.
  - rewrite be_bytes_S. cbn. by rewrite Z.div_1_r.
  - rewrite be_bytes_S, IH. cbn [app]. rewrite <- be_bytes_S. f_equal. f_equal.
    rewrite Z.div_div by lia. f_equal. rewrite Nat2Z.inj_succ, Z.pow_succ_r by lia. done.
Qed.

(** The number of bytes of an integer. *)
Definition in_bytes (k : nat) (i : Z) : Prop :=
  (1 <= k <= 8)%nat /\ (i = 0 /\ k = 1%nat \/ 256 ^ (Z.of_nat k - 1) <= i) /\ i < 256 ^ Z.of_nat k.

Lemma in_bytes_exists i : is_u64 i -> exists k, in_bytes k i.
Proof.
  unfold is_u64, in_bytes. intros Hi.
  destruct (decide (i < 256 ^ 1)); [exists 1%nat|].
  { split; [lia|]. split; [|exact l]. cbn. lia. }
  destruct (decide (i < 256 ^ 2)); [exists 2%nat; cbn; lia|].
  destruct (decide (i < 256 ^ 3)); [exists 3%nat; cbn; lia|].
  destruct (decide (i < 256 ^ 4)); [exists 4%nat; cbn; lia|].
  destruct (decide (i < 256 ^ 5)); [exists 5%nat; cbn; lia|].
  destruct (decide (i < 256 ^ 6)); [exists 6%nat; cbn; lia|].
  destruct (decide (i < 256 ^ 7)); [exists 7%nat; cbn; lia|].
  exists 8%nat; cbn; lia.
Qed.

(** Splits [in_bytes k i] into its eight cases. *)
Lemma in_bytes_cases (k : nat) : (1 <= k <= 8)%nat ->
  (k = 1 \/ k = 2 \/ k = 3 \/ k = 4 \/ k = 5 \/ k = 6 \/ k = 7 \/ k = 8)%nat.
Proof. lia. Qed.
Ltac bytes_cases H :=
  let Hk := fresh in let Hl := fresh in let Hu := fresh in
  destruct H as (Hk & Hl & Hu); apply in_bytes_cases in Hk;
  destruct Hk as [-> | [-> | [-> | [-> | [-> | [-> | [-> | ->]]]]]]]; cbn in Hl, Hu.

Lemma putint_bytes k i : in_bytes k i -> 0 <= i -> putint i = be_bytes k i.
Proof.
  intros H Hi. bytes_cases H; unfold putint;
    repeat (match goal with |- context [i <? ?n] =>
      destruct (i <? n) eqn:?; to_prop; [try lia; try done|] end); try lia; done.
Qed.

Lemma intsize_loop_spec fuel k size i : (k < fuel)%nat -> 0 <= i < 256 ^ Z.of_nat (S k) ->
  (k = 0%nat \/ 256 ^ Z.of_nat k <= i) -> intsize_loop fuel size i = Ok (size + Z.of_nat k).
Proof.
  revert k size i. induction fuel as [|fuel IH]; intros k size i Hk Hi Hl; [lia|].
  cbn [intsize_loop]. rewrite Z.shiftr_div_pow2 by lia. change (2 ^ 8) with 256.
  destruct k as [|k].
  - rewrite Z.div_small by (cbn in Hi; lia). cbn. f_equal. lia.
  - destruct Hl as [|Hl]; [lia|]. rewrite Nat2Z.inj_succ, Z.pow_succ_r in * by lia.
    assert (0 < 256 ^ Z.of_nat k) by (apply Z.pow_pos_nonneg; lia).
    assert (256 ^ Z.of_nat k <= i / 256) by (apply Z.div_le_lower_bound; lia).
    destruct (i / 256 =? 0) eqn:E; to_prop; [lia|].
    rewrite (IH k); [f_equal; lia | lia | | right; lia].
    split; [lia|]. apply Z.div_lt_upper_bound; lia.
Qed.

Lemma intsize_bytes k i : in_bytes k i -> 0 <= i -> intsize i = Ok (Z.of_nat k).
Proof.
  intros (Hk & Hl & Hu) Hi. unfold intsize. destruct k as [|k]; [lia|].
  rewrite (intsize_loop_spec 8 k); [f_equal; lia | lia | lia |].
  destruct Hl as [[-> ?] | Hl]; [left; lia|]. right. by replace (Z.of_nat (S k) - 1) with (Z.of_nat k) in Hl by lia.
Qed.

(** All there is to know of [putint]. *)
Lemma putint_spec i : is_u64 i ->
  exists k, in_bytes k i /\ putint i = be_bytes k i /\ intsize i = Ok (Z.of_nat k) /\
    be_value (putint i) = i /\ (0 < i -> hd 0 (putint i) <> 0).
Proof.
  intros Hi. destruct (in_bytes_exists i Hi) as (k & Hk). exists k. unfold is_u64 in Hi.
  pose proof (putint_bytes k i Hk ltac:(lia)) as E. split; [done|]. split; [done|].
  split; [apply intsize_bytes; [done|lia]|]. destruct Hk as (Hk & Hl & Hu). rewrite E. split.
  - rewrite be_value_be_bytes. apply Z.mod_small. lia.
  - intros Hp. destruct k as [|k]; [lia|]. rewrite be_bytes_cons. cbn [hd].
    destruct Hl as [? | Hl]; [lia|]. replace (Z.of_nat (S k) - 1) with (Z.of_nat k) in Hl by lia.
    rewrite Nat2Z.inj_succ, Z.pow_succ_r in Hu by lia.
    assert (0 < 256 ^ Z.of_nat k) by (apply Z.pow_pos_nonneg; lia).
    assert (1 <= i / 256 ^ Z.of_nat k) by (apply Z.div_le_lower_bound; lia).
    assert (i / 256 ^ Z.of_nat k < 256) by (apply Z.div_lt_upper_bound; lia).
    rewrite Z.mod_small by lia. lia.
Qed.

Lemma putint_length i : is_u64 i -> 1 <= zlen (putint i) <= 8.
Proof.
  intros Hi. destruct (putint_spec i Hi) as (k & (? & _) & -> & _). rewrite zlen_be_bytes. lia.
Qed.

(** ** Headers *)

Lemma puthead_small st lt n : 0 <= st <= 192 -> 0 <= n < 56 -> puthead st lt n = [st + n].
Proof.
  intros. unfold puthead. destruct (n <? 56) eqn:E; to_prop; [|lia].
  unfold u8. rewrite (Z.mod_small n) by lia. by rewrite Z.mod_small by lia.
Qed.

Lemma puthead_large st lt n : 0 <= lt <= 247 -> 56 <= n -> is_u64 n ->
  puthead st lt n = (lt + zlen (putint n)) :: putint n.
Proof.
  intros ? ? Hn. pose proof (putint_length n Hn). unfold puthead.
  destruct (n <? 56) eqn:E; to_prop; [lia|]. unfold u8.
  rewrite (Z.mod_small (zlen _)) by lia. by rewrite Z.mod_small by lia.
Qed.

Lemma headsize_spec st lt n : 0 <= st <= 192 -> 0 <= lt <= 247 -> is_u64 n ->
  headsize n = Ok (zlen (puthead st lt n)).
Proof.
  intros Hs Hl Hn. unfold headsize. zcase.
  - rewrite puthead_small by (unfold is_u64 in *; lia). done.
  - rewrite puthead_large by done. rewrite zlen_cons.
    destruct (putint_spec n Hn) as (k & _ & -> & -> & _). cbn. by rewrite zlen_be_bytes.
Qed.

(** ** The buffered encoder *)

(** ** Big integers *)

Lemma be_bytes_0 n : be_bytes n 0 = replicate n 0.
Proof. induction n as [|n IH]; [done|]. rewrite be_bytes_S. change (0 / 256) with 0. rewrite IH. symmetry. apply replicate_S_end. Qed.

Lemma be_bytes_app a b x : be_bytes (a + b) x = be_bytes a (x / 256 ^ Z.of_nat b) ++ be_bytes b x.
Proof.
  revert x. induction b as [|b IH]; intros x.
  - rewrite Nat.add_0_r, app_nil_r. cbn. by rewrite Z.div_1_r.
  - rewrite Nat.add_succ_r, !be_bytes_S, IH, <- app_assoc. f_equal.
    rewrite Z.div_div by (try apply Z.pow_pos_nonneg; lia). f_equal. f_equal.
    rewrite Nat2Z.inj_succ, Z.pow_succ_r by lia. lia.
Qed.

Lemma be_bytes_mod b n x : (b <= n)%nat -> be_bytes b (x mod 256 ^ Z.of_nat n) = be_bytes b x.
Proof.
  revert n x. induction b as [|b IH]; intros n x Hn; [done|]. rewrite !be_bytes_S. destruct n as [|n]; [lia|].
  rewrite Nat2Z.inj_succ, Z.pow_succ_r by lia. assert (0 < 256 ^ Z.of_nat n) by (apply Z.pow_pos_nonneg; lia).
  rewrite Z.rem_mul_r by lia. pose proof (Z.mod_pos_bound x 256). pose proof (Z.mod_pos_bound (x / 256) (256 ^ Z.of_nat n)).
  rewrite (Z.add_comm (x mod 256)), (Z.mul_comm 256).
  rewrite Z.div_add_l, (Z.div_small (x mod 256)), Z.add_0_r by lia. rewrite IH by lia. f_equal. f_equal.
  rewrite Z.add_comm, Z_mod_plus_full. apply Zmod_mod.
Qed.

Lemma put_word_spec j d k s :
  Enc.put_word j d (Z.of_nat k) (replicate k 0 ++ s) =
    Ok (Z.of_nat (k - j), replicate (k - j) 0 ++ be_bytes (Nat.min j k) d ++ s).
Proof.
  revert d k s. induction j as [|j IH]; intros d k s; cbn [Enc.put_word].
  { by rewrite Nat.sub_0_r. }
  destruct k as [|k]; [done|]. destruct (Z.of_nat (S k) >? 0) eqn:E; to_prop; [|lia].
  replace (Z.of_nat (S k) - 1) with (Z.of_nat k) by lia.
  destruct (nth_or_panic_Ok (replicate (S k) 0 ++ s) (Z.of_nat k)) as (y & -> & _);
    [unfold zlen; rewrite length_app, length_replicate; lia|].
  cbn [mbind res_bind]. rewrite Nat2Z.id.
  replace (<[k:=u8 d]> (replicate (S k) 0 ++ s)) with (replicate k 0 ++ u8 d :: s).
  2: { rewrite replicate_S_end, <- app_assoc. rewrite insert_app_r_alt by (rewrite length_replicate; lia).
       rewrite length_replicate, Nat.sub_diag. done. }
  rewrite IH, Z.shiftr_div_pow2 by lia. do 2 f_equal. cbn [Nat.sub Nat.min]. rewrite be_bytes_S, <- app_assoc. done.
Qed.

Lemma put_words_spec n x k s : 0 <= x < 2 ^ (64 * Z.of_nat n) ->
  Enc.put_words (words n x) (Z.of_nat k) (replicate k 0 ++ s) = Ok (be_bytes k x ++ s).
Proof.
  revert x k s. induction n as [|n IH]; intros x k s Hx.
  { cbn in *. replace x with 0 by lia. by rewrite be_bytes_0. }
  cbn [words]. destruct (x =? 0) eqn:E; to_prop; [subst; cbn; by rewrite be_bytes_0|].
  cbn [Enc.put_words]. rewrite put_word_spec. cbn [mbind res_bind].
  rewrite IH.
  - f_equal. rewrite app_assoc. f_equal. change (2 ^ 64) with (256 ^ Z.of_nat 8).
    rewrite be_bytes_mod by lia. destruct (decide (8 <= k)%nat) as [Hk|Hk].
    + rewrite Nat.min_l by lia. rewrite <- be_bytes_app. f_equal. lia.
    + rewrite Nat.min_r by lia. by replace (k - 8)%nat with 0%nat by lia.
  - split; [apply Z.div_pos; lia|]. apply Z.div_lt_upper_bound; [lia|].
    rewrite <- Z.pow_add_r by lia. replace (64 + 64 * Z.of_nat n) with (64 * Z.of_nat (S n)) by lia. lia.
Qed.

Section item_induction.
Context (P : item -> Prop)
  (HB : forall b, P (IBytes b)) (HU : forall n, P (IUint n)) (HG : forall x, P (IBig x))
  (HL : forall l, Forall P l -> P (IList l))
  (HS : forall l, Forall P l -> P (IStruct l)).
Fixpoint item_rect' (it : item) : P it :=
  match it with
  | IBytes b => HB b
  | IUint n => HU n
  | IBig x => HG x
  | IList l =>
    HL l ((fix go l : Forall P l :=
      match l with
      | [] => List.Forall_nil _
      | x :: r => List.Forall_cons _ _ _ (item_rect' x) (go r)
      end) l)
  | IStruct l =>
    HS l ((fix go l : Forall P l :=
      match l with
      | [] => List.Forall_nil _
      | x :: r => List.Forall_cons _ _ _ (item_rect' x) (go r)
      end) l)
  end.
End item_induction.

(** Values whose parts have the width of their Go types. *)
Fixpoint wf_item (it : item) : Prop :=
  match it with
  | IBytes b => wf_bytes b
  | IUint n => is_u64 n
  | IBig x => 0 <= x
  | IList l | IStruct l => foldr (fun x P => wf_item x /\ P) True l
  end.

Definition wf_items (l : list item) : Prop := foldr (fun x P => wf_item x /\ P) True l.

(** The part of an encoding that is not list headers. *)
Fixpoint strs (it : item) : bytes :=
  match it with
  | IBytes b => encode_bytes b
  | IUint n => encode_uint n
  | IBig x => encode_bytes (big_bytes x)
  | IList [] => [192]
  | IList l | IStruct l => flat_map strs l
  end.

Definition strs_items (l : list item) : bytes := flat_map strs l.

(** The output [copyTo] is meant to produce from string position [p] on. *)
Fixpoint render (heads : list listhead) (p : Z) (s : bytes) : bytes :=
  match heads with
  | [] => drop (Z.to_nat p) s
  | h :: r =>
    take (Z.to_nat (offset h - p)) (drop (Z.to_nat p) s) ++
    puthead 192 247 (hsize h) ++ render r (offset h) s
  end.

(** Headers in order, between two string positions. *)
Fixpoint chain (p : Z) (heads : list listhead) (q : Z) : Prop :=
  match heads with
  | [] => p <= q
  | h :: r => p <= offset h /\ chain (offset h) r q
  end.

Lemma chain_le p hs q : chain p hs q -> p <= q.
Proof. revert p. induction hs as [|h r IH]; cbn; intros p H; [done|]. destruct H as [? ?%IH]. lia. Qed.

Lemma chain_app p hs q hs' r : chain p hs q -> chain q hs' r -> chain p (hs ++ hs') r.
Proof.
  revert p. induction hs as [|h hs IH]; cbn; intros p H1 H2.
  - destruct hs' as [|h ?]; cbn in *; [lia|]. destruct H2. split; [lia|done].
  - destruct H1. split; [done|]. by apply IH.
Qed.

Lemma drop_take_app {A} n k (l : list A) :
  drop n l = take k (drop n l) ++ drop (n + k) l.
Proof. rewrite <- drop_drop. by rewrite take_drop. Qed.

(** Output before the next header is plain string data. *)
Lemma render_skip hs p n s q : 0 <= p -> 0 <= n -> chain (p + n) hs q ->
  render hs p s = take (Z.to_nat n) (drop (Z.to_nat p) s) ++ render hs (p + n) s.
Proof.
  intros Hp Hn Hc. destruct hs as [|h r]; cbn [render].
  - etrans; [apply (drop_take_app (Z.to_nat p) (Z.to_nat n))|]. do 2 f_equal. lia.
  - destruct Hc as [Hc _]. rewrite (app_assoc (take (Z.to_nat n) _)). f_equal.
    replace (Z.to_nat (p + n)) with (Z.to_nat p + Z.to_nat n)%nat by lia.
    rewrite <- drop_drop.
    replace (Z.to_nat (offset h - p)) with (Z.to_nat n + Z.to_nat (offset h - (p + n)))%nat by lia.
    by rewrite take_take_drop.
Qed.

(** [copyTo] writes what [render] says into a buffer with enough room. *)
Lemma splice_full {A} (dst : list A) pos v : 0 <= pos -> pos + zlen v <= zlen dst ->
  splice dst pos v = take (Z.to_nat pos) dst ++ v ++ drop (Z.to_nat (pos + zlen v)) dst.
Proof.
  unfold zlen. intros. unfold splice. rewrite (take_ge v) by lia. do 3 f_equal. lia.
Qed.

Lemma copy_at_spec dst pos src : 0 <= pos -> pos + zlen src <= zlen dst ->
  Enc.copy_at dst pos src =
    Ok (take (Z.to_nat pos) dst ++ src ++ drop (Z.to_nat (pos + zlen src)) dst, zlen src).
Proof.
  intros. pose proof (zlen_nonneg src). unfold Enc.copy_at. rewrite slice_Ok by lia.
  cbn [mbind res_bind]. rewrite Z.min_l by lia. rewrite take_ge by (unfold zlen; lia).
  by rewrite splice_full.
Qed.

Lemma put_at_spec dst pos src : 0 <= pos -> pos + zlen src <= zlen dst ->
  Enc.put_at dst pos src =
    Ok (take (Z.to_nat pos) dst ++ src ++ drop (Z.to_nat (pos + zlen src)) dst, zlen src).
Proof.
  intros. pose proof (zlen_nonneg src). unfold Enc.put_at. rewrite slice_Ok by lia.
  cbn [mbind res_bind]. zcase; [lia|]. by rewrite splice_full.
Qed.

(** Writing after a written prefix. *)
Lemma write_after (dst a : bytes) pos : 0 <= pos -> pos + zlen a <= zlen dst ->
  let dst' := take (Z.to_nat pos) dst ++ a ++ drop (Z.to_nat (pos + zlen a)) dst in
  zlen dst' = zlen dst /\ take (Z.to_nat (pos + zlen a)) dst' = take (Z.to_nat pos) dst ++ a /\
  forall k, pos + zlen a <= k -> drop (Z.to_nat k) dst' = drop (Z.to_nat k) dst.
Proof.
  intros Hp Ha. cbv zeta. pose proof (zlen_nonneg a). unfold zlen in *. split_and!.
  - rewrite !length_app, length_take, length_drop. lia.
  - rewrite app_assoc, take_app_le; [apply take_ge|]; rewrite length_app, length_take; lia.
  - intros k Hk. rewrite app_assoc, drop_app, (drop_ge (_ ++ a)), app_nil_l.
    2: { rewrite length_app, length_take. lia. }
    rewrite drop_drop, length_app, length_take. f_equal. lia.
Qed.

Lemma copyTo_render hs p pos s dst : 0 <= p -> 0 <= pos -> chain p hs (zlen s) ->
  pos + zlen (render hs p s) <= zlen dst ->
  Enc.copyTo hs p pos s dst =
    Ok (take (Z.to_nat pos) dst ++ render hs p s ++
        drop (Z.to_nat (pos + zlen (render hs p s))) dst).
Proof.
  revert p pos dst. induction hs as [|h r IH]; intros p pos dst Hp Hpos Hc Hl; cbn [Enc.copyTo render].
  - cbn in Hc. rewrite slice_Ok by lia. cbn [mbind res_bind].
    rewrite take_ge by (rewrite length_drop; unfold zlen in *; lia).
    rewrite copy_at_spec by done. done.
  - destruct Hc as [Ho Hc]. pose proof (chain_le _ _ _ Hc). rewrite slice_Ok by lia.
    cbn [mbind res_bind].
    set (src := take _ (drop _ s)). set (hd := puthead _ _ _).
    assert (Hsrc : zlen src = offset h - p).
    { unfold src, zlen in *. rewrite length_take, length_drop. lia. }
    cbn [render] in Hl. fold src hd in Hl. rewrite !zlen_app in Hl.
    pose proof (zlen_nonneg hd). pose proof (zlen_nonneg (render r (offset h) s)).
    rewrite copy_at_spec by lia. cbn [mbind res_bind].
    destruct (write_after dst src pos) as (L1 & T1 & D1); [lia|lia|].
    set (dst1 := take (Z.to_nat pos) dst ++ src ++ _) in *.
    rewrite put_at_spec by lia. cbn [mbind res_bind].
    destruct (write_after dst1 hd (pos + zlen src)) as (L2 & T2 & D2); [lia|lia|].
    set (dst2 := take (Z.to_nat (pos + zlen src)) dst1 ++ hd ++ _) in *.
    replace (p + zlen src) with (offset h) by lia.
    rewrite IH by (try done; lia). f_equal. rewrite !app_assoc. f_equal.
    + by rewrite T2, T1, <- ?app_assoc.
    + rewrite D2, D1 by lia. f_equal. rewrite !zlen_app. lia.
Qed.

(** A writer appends string data and headers that render to the encoding. *)
Definition writes (enc st : bytes) (f : encBuffer -> res encBuffer) : Prop :=
  forall b, exists hs,
    f b = Ok {| str := str b ++ st; lheads := lheads b ++ hs;
                lhsize := lhsize b + (zlen enc - zlen st) |} /\
    chain (zlen (str b)) hs (zlen (str b) + zlen st) /\
    forall post hs' q, chain (zlen (str b) + zlen st) hs' q ->
      render (hs ++ hs') (zlen (str b)) (str b ++ st ++ post) =
      enc ++ render hs' (zlen (str b) + zlen st) (str b ++ st ++ post).

Lemma nth_or_panic_lookup {A} (l : list A) i x :
  l !! i = Some x -> nth_or_panic l (Z.of_nat i) = Ok x.
Proof.
  intros H. unfold nth_or_panic. rewrite bool_decide_eq_true_2 by lia. by rewrite Nat2Z.id, H.
Qed.

Lemma drop_zlen_app {A} (a b : list A) : drop (Z.to_nat (zlen a)) (a ++ b) = b.
Proof. unfold zlen. rewrite Nat2Z.id. apply drop_app_length. Qed.
Lemma take_zlen_app {A} (a b : list A) : take (Z.to_nat (zlen a)) (a ++ b) = a.
Proof. unfold zlen. rewrite Nat2Z.id. apply take_app_length. Qed.

(** String data without headers. *)
Lemma append_writes s f : (forall b, f b = Ok (Enc.append b s)) -> writes s s f.
Proof.
  intros Hf b. exists []. rewrite Hf. pose proof (zlen_nonneg s). pose proof (zlen_nonneg (str b)).
  split; [by rewrite Z.sub_diag, Z.add_0_r, app_nil_r|]. split; [cbn; lia|].
  intros post hs' q Hc. rewrite (render_skip hs' _ (zlen s) _ q) by done.
  by rewrite drop_zlen_app, take_zlen_app.
Qed.

Lemma writes_app e1 s1 f1 e2 s2 f2 : writes e1 s1 f1 -> writes e2 s2 f2 ->
  writes (e1 ++ e2) (s1 ++ s2) (fun b => b ← f1 b; f2 b).
Proof.
  intros W1 W2 b. destruct (W1 b) as (h1 & -> & C1 & R1). cbn [mbind res_bind].
  destruct (W2 {| str := str b ++ s1; lheads := lheads b ++ h1;
                  lhsize := lhsize b + (zlen e1 - zlen s1) |}) as (h2 & -> & C2 & R2).
  cbn [str lheads lhsize] in *. rewrite zlen_app in C2, R2. exists (h1 ++ h2).
  rewrite !zlen_app, !app_assoc. split_and!.
  - do 2 f_equal. lia.
  - rewrite Z.add_assoc. by eapply chain_app.
  - intros post hs' q Hc. rewrite <- !app_assoc in *.
    rewrite (R1 (s2 ++ post) (h2 ++ hs') q).
    2: { eapply chain_app; [exact C2|]. by rewrite <- Z.add_assoc. }
    f_equal. specialize (R2 post hs' q ltac:(by rewrite <- Z.add_assoc)).
    rewrite <- !app_assoc in R2. rewrite R2. f_equal. f_equal. lia.
Qed.

Fixpoint write_items (l : list item) (b : encBuffer) : res encBuffer :=
  match l with [] => Ok b | x :: r => b ← Enc.write x b; write_items r b end.

Lemma write_IStruct l b :
  Enc.write (IStruct l) b =
  (let '(index, b) := Enc.list b in b ← write_items l b; Enc.listEnd index b).
Proof. done. Qed.

Definition writes_item (it : item) : Prop :=
  wf_item it -> zlen (encode it) < 2 ^ 63 -> writes (encode it) (strs it) (Enc.write it).

Lemma writes_items l : Forall writes_item l -> wf_items l -> zlen (encode_items l) < 2 ^ 63 ->
  writes (encode_items l) (strs_items l) (write_items l).
Proof.
  induction 1 as [|x r Hx Hr IH]; intros Hw Hl.
  - intros b. exists []. cbn. rewrite !app_nil_r, Z.add_0_r. pose proof (zlen_nonneg (str b)).
    split; [by destruct b|]. rewrite zlen_nil, Z.add_0_r. split; [done|].
    intros post hs' q _. done.
  - cbn in Hw, Hl |- *. destruct Hw as [Hw Hws]. unfold encode_items in Hl. cbn in Hl.
    rewrite zlen_app in Hl. pose proof (zlen_nonneg (encode x)).
    pose proof (zlen_nonneg (flat_map encode r)).
    apply writes_app; [apply Hx; [done|lia] | apply IH; [done|]]. unfold encode_items. lia.
Qed.

(** A list: its header is opened, the content written, the header closed. *)
Lemma writes_list c st f : writes c st f -> zlen c < 2 ^ 63 ->
  writes (puthead 192 247 (zlen c) ++ c) st
    (fun b => let '(index, b) := Enc.list b in b ← f b; Enc.listEnd index b).
Proof.
  intros W Hc b. pose proof (zlen_nonneg c). pose proof (zlen_nonneg (str b)).
  assert (Hu : is_u64 (zlen c)) by (unfold is_u64; lia).
  unfold Enc.list.
  destruct (W {| str := str b; lheads := lheads b ++ [{| offset := zlen (str b); hsize := lhsize b |}];
                 lhsize := lhsize b |}) as (hs & -> & C & R). cbn [mbind res_bind str lheads lhsize] in *.
  exists ({| offset := zlen (str b); hsize := zlen c |} :: hs).
  unfold Enc.listEnd. cbn [lheads].
  assert (L : ((lheads b ++ [{| offset := zlen (str b); hsize := lhsize b |}]) ++ hs)
              !! length (lheads b) = Some {| offset := zlen (str b); hsize := lhsize b |}).
  { rewrite <- app_assoc. rewrite lookup_app_r by lia. by rewrite Nat.sub_diag. }
  change (zlen (lheads b)) with (Z.of_nat (length (lheads b))).
  rewrite (nth_or_panic_lookup _ _ _ L). cbn [mbind res_bind offset hsize].
  unfold Enc.size. cbn [str lhsize].
  replace (zlen (str b ++ st) + (lhsize b + (zlen c - zlen st)) - zlen (str b) - lhsize b)
    with (zlen c) by (rewrite zlen_app; lia).
  split_and!.
  - rewrite Nat2Z.id, <- app_assoc, insert_app_r_alt by lia.
    rewrite Nat.sub_diag. cbn [app insert list_insert].
    pose proof (headsize_spec 192 247 (zlen c) ltac:(lia) ltac:(lia) Hu) as Hh.
    unfold headsize in Hh. rewrite zlen_app. zcase.
    + injection Hh as <-. do 2 f_equal. lia.
    + bind_inv Hh. rewrite E. cbn [mbind res_bind]. injection Hh as <-. do 2 f_equal. lia.
  - cbn [chain offset]. split; [lia|done].
  - intros post hs' q Hq. cbn [app render offset hsize]. rewrite Z.sub_diag. cbn [Z.to_nat take app].
    rewrite (R post hs' q Hq). by rewrite <- app_assoc.
Qed.

Lemma writeBytes_append bs b : Enc.writeBytes bs b = Enc.append b (encode_bytes bs).
Proof.
  assert (H : Enc.append (Enc.encodeStringHeader (zlen bs) b) bs =
              Enc.append b (puthead 128 183 (zlen bs) ++ bs)).
  { unfold Enc.encodeStringHeader, puthead, Enc.append. zcase; cbn [str lheads lhsize];
      by rewrite <- app_assoc. }
  unfold Enc.writeBytes, encode_bytes. destruct bs as [|x [|y r]]; [exact H| |exact H].
  destruct (x <=? 127); [done | exact H].
Qed.

(** An integer below 256 is its own byte. *)
Lemma putint_byte n : 0 <= n < 256 -> putint n = [n].
Proof.
  intros. unfold putint. destruct (n <? 2 ^ 8) eqn:E; to_prop; [|lia].
  unfold be_bytes. cbn. by rewrite Z.mod_small by lia.
Qed.

Lemma writeUint64_append n b : is_u64 n -> Enc.writeUint64 n b = Enc.append b (encode_uint n).
Proof.
  intros Hn. unfold Enc.writeUint64, encode_uint. unfold is_u64 in Hn.
  destruct (n =? 0) eqn:E0; to_prop; [done|].
  destruct (n <? 128) eqn:E1; to_prop.
  - rewrite putint_byte by lia. unfold encode_bytes. destruct (n <=? 127) eqn:E2; to_prop; [|lia].
    unfold u8. by rewrite Z.mod_small by lia.
  - pose proof (putint_length n Hn) as Hl. f_equal.
    assert (Hh : puthead 128 183 (zlen (putint n)) = [u8 (128 + u8 (zlen (putint n)))]).
    { unfold puthead. destruct (_ <? 56) eqn:E2; to_prop; [done|lia]. }
    unfold encode_bytes. destruct (putint n) as [|x [|y r]] eqn:E; rewrite ?Hh; try done.
    destruct (putint_spec n Hn) as (k & _ & _ & _ & Hv & _). rewrite E in Hv. cbn in Hv.
    destruct (x <=? 127) eqn:E2; to_prop; [lia|]. change (zlen [x]) with 1 in *. by rewrite Hh.
Qed.

(** A big integer of at most 64 bits has the bytes of the integer. *)
Lemma big_bytes_small x : is_u64 x -> big_bytes x = if x =? 0 then [] else putint x.
Proof.
  intros Hx. unfold big_bytes. destruct (x =? 0) eqn:E; to_prop; [by subst|]. unfold is_u64 in Hx.
  destruct (BitLen_bytes x ltac:(lia)) as [Hb H1]. set (n := (BitLen x + 7) / 8) in *.
  assert (n <= 8). { destruct (decide (n <= 8)); [done|]. assert (256 ^ 8 <= 256 ^ (n - 1)) by (apply Z.pow_le_mono_r; lia). lia. }
  symmetry. apply putint_bytes; [|lia]. unfold in_bytes. rewrite Z2Nat.id by lia. split; [lia|]. split; [right; lia | lia].
Qed.

Lemma u64_BitLen x : 0 <= x -> BitLen x <= 64 <-> x < 2 ^ 64.
Proof.
  intros Hx. unfold BitLen. destruct (x =? 0) eqn:E; to_prop; [lia|]. rewrite Z.abs_eq by lia.
  pose proof (Z.log2_lt_pow2 x 64 ltac:(lia)). lia.
Qed.

Lemma encodeStringHeader_append n b : Enc.encodeStringHeader n b = Enc.append b (puthead 128 183 n).
Proof. unfold Enc.encodeStringHeader, puthead. by destruct (n <? 56). Qed.

Lemma writeBigInt_append x b : 0 <= x -> Enc.writeBigInt x b = Ok (Enc.append b (encode_bytes (big_bytes x))).
Proof.
  intros Hx. unfold Enc.writeBigInt. pose proof (u64_BitLen x Hx) as Hb. destruct (BitLen x <=? 64) eqn:E; to_prop.
  { assert (is_u64 x) by (unfold is_u64; lia). rewrite u64_small by done. rewrite writeUint64_append by done.
    unfold encode_uint. by rewrite big_bytes_small. }
  assert (64 < BitLen x) by lia. rewrite Z.shiftr_div_pow2 by lia.
  replace (Z.land (BitLen x + 7) (-8) / 2 ^ 3) with ((BitLen x + 7) / 8).
  2: { rewrite <- !Z.shiftr_div_pow2 with (n := 3) by lia. rewrite Z.shiftr_land. change (Z.shiftr (-8) 3) with (-1).
       by rewrite Z.land_m1_r. }
  set (n := (BitLen x + 7) / 8). assert (Hn : 8 < n) by (unfold n; dlia).
  unfold make_bytes. destruct (n <? 0) eqn:E0; to_prop; [lia|]. cbn [mbind res_bind].
  assert (Hx2 : 0 <= x < 2 ^ (64 * Z.of_nat (Z.to_nat (BitLen x)))).
  { split; [done|]. assert (x < 2 ^ BitLen x).
    { unfold BitLen. destruct (x =? 0) eqn:Ez; to_prop; [subst; lia|]. rewrite Z.abs_eq by lia. apply Z.log2_spec. lia. }
    eapply Z.lt_le_trans; [done|]. apply Z.pow_le_mono_r; lia. }
  pose proof (put_words_spec _ x (Z.to_nat n) [] Hx2) as W. rewrite Z2Nat.id, !app_nil_r in W by lia.
  unfold Bits. rewrite W. cbn [mbind res_bind]. rewrite encodeStringHeader_append. unfold big_bytes. fold n. f_equal.
  unfold encode_bytes. destruct (be_bytes (Z.to_nat n) x) as [|y [|z r]] eqn:Eb.
  1,2: pose proof (length_be_bytes (Z.to_nat n) x) as L; rewrite Eb in L; cbn in L; lia.
  rewrite <- Eb, zlen_be_bytes, Z2Nat.id by lia. unfold Enc.append. cbn. by rewrite <- app_assoc.
Qed.

Lemma writes_struct l : Forall writes_item l -> writes_item (IStruct l).
Proof.
  intros IH Hw Hl b. rewrite write_IStruct. cbn [encode] in *. fold (encode_items l) in *.
  rewrite zlen_app in Hl. pose proof (zlen_nonneg (puthead 192 247 (zlen (encode_items l)))).
  assert (zlen (encode_items l) < 2 ^ 63) by lia.
  by apply (writes_list _ _ _ (writes_items l IH Hw ltac:(done))).
Qed.

Lemma write_item it : writes_item it.
Proof.
  induction it as [bs | n | x | l IH | l IH] using item_rect'; intros Hw Hl.
  - apply append_writes. intros b. cbn. by rewrite writeBytes_append.
  - apply append_writes. intros b. cbn. by rewrite writeUint64_append.
  - apply append_writes. intros b. cbn [Enc.write]. by rewrite writeBigInt_append.
  - destruct l as [|x r]; [by apply append_writes|]. exact (writes_struct (x :: r) IH Hw Hl).
  - by apply writes_struct.
Qed.

(** What a writer wrote comes out of the buffer. *)
Lemma makeBytes_writes e s f : writes e s f -> (b ← f Enc.reset; Enc.makeBytes b) = Ok e.
Proof.
  intros W. destruct (W Enc.reset) as (hs & -> & C & R).
  cbn [mbind res_bind]. unfold Enc.makeBytes, Enc.size. cbn [str lheads lhsize Enc.reset app] in *.
  replace (zlen s + (0 + (zlen e - zlen s))) with (zlen e) by lia.
  unfold make_bytes. pose proof (zlen_nonneg e). zcase; [lia|]. cbn [mbind res_bind].
  specialize (R [] [] (zlen s)). rewrite !app_nil_r in R. cbn [app] in R.
  change (zlen []) with 0 in *. rewrite Z.add_0_l in *.
  assert (E : render hs 0 s = e).
  { rewrite R by (cbn; lia). cbn. rewrite drop_ge by (unfold zlen; lia). apply app_nil_r. }
  rewrite copyTo_render; rewrite ?E, ?zlen_replicate; try lia; try done.
  cbn. rewrite drop_ge by (rewrite length_replicate; unfold zlen; lia). by rewrite app_nil_r.
Qed.

Lemma EncodeToBytes_spec it :
  wf_item it -> zlen (encode it) < 2 ^ 63 -> Enc.EncodeToBytes it = Ok (encode it).
Proof. intros Hw Hl. exact (makeBytes_writes _ _ _ (write_item it Hw Hl)). Qed.

(** for every value whose encoding fits a Go slice, the buffered encoder, which
    collects string data and list headers apart and merges them into a buffer of
    the size it counted, neither panics nor truncates and returns exactly the
    reference encoding. *)
Theorem EncodeToBytes_correct it :
  wf_item it -> zlen (encode it) < 2 ^ 63 -> Enc.EncodeToBytes it = Ok (encode it).
Proof. apply EncodeToBytes_spec. Qed.

Lemma EncodeToBytes_correct_witness :
  let it := IList [IBytes [1; 2; 3]; IList []; IUint 1024; IStruct [IBytes [200]]] in
  wf_item it /\ Enc.EncodeToBytes it = Ok (encode it) /\
  encode it = [203; 131; 1; 2; 3; 192; 130; 4; 0; 194; 129; 200].
Proof.
  intros it.
  assert (W : wf_item it) by (repeat split; try (repeat constructor; unfold is_byte; lia); lia).
  split; [exact W|]. split; [|reflexivity].
  apply (EncodeToBytes_correct it W). reflexivity.
Defined.

(** ** Splitting *)

(** The canonical form of a value with kind [k] and content [c]. *)
Definition enc_kind (k : Kind) (c : bytes) : bytes :=
  match k with List => puthead 192 247 (zlen c) ++ c | _ => encode_bytes c end.

(** The kind a string content is encoded with. *)
Definition kind_ok (k : Kind) (c : bytes) : Prop :=
  match k with
  | List => True
  | Byte => match c with [x] => x < 128 | _ => False end
  | String => match c with [x] => 128 <= x | _ => True end
  end.

Lemma be_value_small_head b n : wf_bytes b -> be_value b = n -> 0 < zlen b -> hd 0 b <> 0 ->
  256 ^ (zlen b - 1) <= n.
Proof.
  intros Hw <- Hl Hh. destruct b as [|x r]; [done|]. cbn in Hh. inv Hw.
  rewrite be_value_cons, zlen_cons. replace (1 + zlen r - 1) with (zlen r) by lia.
  pose proof (be_value_bound r ltac:(done)). unfold is_byte in *.
  assert (0 < 256 ^ zlen r) by (apply Z.pow_pos_nonneg; [lia | apply zlen_nonneg]). nia.
Qed.

(** [putint] is the only minimal big-endian form of a number. *)
Lemma putint_unique b : wf_bytes b -> 1 <= zlen b <= 8 -> hd 0 b <> 0 -> putint (be_value b) = b.
Proof.
  intros Hw Hl Hh. pose proof (be_value_bound b Hw) as Hb.
  pose proof (be_value_small_head b _ Hw eq_refl ltac:(lia) Hh) as Hs.
  rewrite (putint_bytes (length b)).
  - by apply be_bytes_be_value.
  - unfold in_bytes, zlen in *. split; [lia|]. split; [right; done | lia].
  - lia.
Qed.

(** ** The long form of the headers *)

Lemma readSize_spec b slen : wf_bytes b -> 1 <= slen <= 8 ->
  readSize b slen =
    if slen >? zlen b then Ok (inr ErrUnexpectedEOF)
    else let s := be_value (take (Z.to_nat slen) b) in
         if (s <? 56) || (hd 0 b =? 0) then Ok (inr ErrCanonSize) else Ok (inl s).
Proof.
  intros Hw Hs. unfold readSize. zcase; [done|].
  destruct (1 <=? slen) eqn:E1, (slen <=? 8) eqn:E2; to_prop; try lia. cbn [andb].
  destruct b as [|x r]; [change (zlen []) with 0 in *; lia|]. cbn [hd].
  destruct (_ <? 56); [done|]. change (nth_or_panic (x :: r) 0) with (Ok x).
  cbn [mbind res_bind orb]. by destruct (x =? 0).
Qed.

(** The length header [largetag] announces, read back. *)
Lemma long_header lt tl s : 0 <= lt <= 247 -> wf_bytes tl ->
  forall slen, 1 <= slen <= 8 -> slen <= zlen tl ->
  s = be_value (take (Z.to_nat slen) tl) -> 56 <= s -> hd 0 tl <> 0 ->
  is_u64 s /\ puthead 0 lt s = (lt + slen) :: take (Z.to_nat slen) tl.
Proof.
  intros Hlt Hw slen Hs Hl Es H56 Hh. set (p := take (Z.to_nat slen) tl) in *.
  assert (Lp : zlen p = slen) by (unfold p, zlen in *; rewrite length_take; lia).
  assert (Wp : wf_bytes p) by (unfold p; auto with entropy).
  assert (Hp : hd 0 p <> 0).
  { unfold p. destruct tl as [|x r]; [done|]. by replace (Z.to_nat slen) with (S (Z.to_nat (slen - 1))) by lia. }
  pose proof (be_value_bound p Wp) as Hb. rewrite <- Es in Hb.
  assert (256 ^ zlen p <= 256 ^ 8) by (apply Z.pow_le_mono_r; lia).
  assert (U : is_u64 s) by (unfold is_u64; lia). split; [done|].
  rewrite puthead_large by (try done; lia). rewrite Es, putint_unique by (try done; lia).
  by rewrite Lp.
Qed.

Lemma puthead_tag st st' lt n : 56 <= n -> puthead st lt n = puthead st' lt n.
Proof. intros. unfold puthead. destruct (n <? 56) eqn:E; to_prop; [lia|done]. Qed.

Lemma encode_bytes_long c : 56 <= zlen c -> encode_bytes c = puthead 128 183 (zlen c) ++ c.
Proof.
  intros. unfold encode_bytes. destruct c as [|x [|y r]]; try done.
Qed.

(** What [readKind] accepts is a canonical value at the start of the input. *)
Definition accepted (b : bytes) (k : Kind) (ts cs : Z) : Prop :=
  0 <= ts /\ 0 <= cs /\ 0 < ts + cs /\ ts + cs <= zlen b /\
  let c := take (Z.to_nat cs) (drop (Z.to_nat ts) b) in
  kind_ok k c /\ take (Z.to_nat (ts + cs)) b = enc_kind k c.

Lemma take_cons_app {A} (x : A) r n m : (0 < n)%nat ->
  take (n + m) (x :: r) = x :: take (n - 1) r ++ take m (drop n (x :: r)).
Proof.
  intros. destruct n as [|n]; [lia|]. cbn [Nat.add take drop]. f_equal.
  by rewrite Nat.sub_succ, Nat.sub_0_r, take_take_drop.
Qed.

(** The tests of the long form. *)
Lemma accepted_long k st lt x tl s slen :
  (k = String /\ st = 128 /\ lt = 183 \/ k = List /\ st = 192 /\ lt = 247) ->
  wf_bytes tl -> x = lt + slen -> 1 <= slen <= 8 -> slen <= zlen tl ->
  s = be_value (take (Z.to_nat slen) tl) -> 56 <= s -> hd 0 tl <> 0 ->
  s <= zlen (x :: tl) - (slen + 1) -> accepted (x :: tl) k (slen + 1) s.
Proof.
  intros Hk Hw Hx Hs Hl Es H56 Hh Hfit. rewrite zlen_cons in Hfit.
  assert (Hlt : 0 <= lt <= 247) by lia.
  destruct (long_header lt tl s Hlt Hw slen Hs Hl Es H56 Hh) as [U Hp].
  unfold accepted. cbv zeta.
  set (c := take (Z.to_nat s) (drop (Z.to_nat (slen + 1)) (x :: tl))).
  assert (Lc : zlen c = s).
  { unfold c, zlen in *. rewrite length_take, length_drop. cbn [length]. lia. }
  assert (T : take (Z.to_nat (slen + 1 + s)) (x :: tl) = puthead st lt s ++ c).
  { rewrite (puthead_tag st 0) by done. rewrite Hp, Hx. rewrite Z2Nat.inj_add by lia.
    rewrite take_cons_app by lia. cbn [app]. f_equal. unfold c. rewrite <- Hx. do 2 f_equal. lia. }
  rewrite zlen_cons. split_and!; try lia.
  - destruct Hk as [(-> & _ & _) | (-> & _ & _)]; [|done]. cbn.
    destruct c as [|? [|? ?]]; try done. unfold zlen in Lc. cbn in Lc. lia.
  - rewrite T. destruct Hk as [(-> & -> & ->) | (-> & -> & ->)]; cbn.
    + rewrite encode_bytes_long by lia. by rewrite Lc.
    + by rewrite Lc.
Qed.

(** The short form: the tag holds the length. *)
Lemma accepted_short k st x tl n :
  (k = String /\ st = 128 \/ k = List /\ st = 192) -> x = st + n -> 0 <= n < 56 -> n <= zlen tl ->
  (k = String -> n = 1 -> 128 <= hd 0 tl) -> accepted (x :: tl) k 1 n.
Proof.
  intros Hk Hx Hn Hl H1. unfold accepted. cbv zeta. rewrite zlen_cons.
  change (drop (Z.to_nat 1) (x :: tl)) with tl. set (c := take (Z.to_nat n) tl).
  assert (Lc : zlen c = n) by (unfold c, zlen in *; rewrite length_take; lia).
  assert (T : take (Z.to_nat (1 + n)) (x :: tl) = puthead st 0 n ++ c).
  { rewrite puthead_small by lia. replace (Z.to_nat (1 + n)) with (S (Z.to_nat n)) by lia.
    cbn [take app]. by rewrite Hx. }
  assert (Hone : k = String -> forall y, c = [y] -> 128 <= y).
  { intros Ek y Ey. rewrite Ey in Lc. change (zlen [y]) with 1 in Lc.
    specialize (H1 Ek ltac:(done)). unfold c in Ey. rewrite <- Lc in Ey.
    destruct tl as [|z tl]; [done|]. change (Z.to_nat 1) with 1%nat in Ey. cbn in Ey, H1.
    by injection Ey as <-. }
  assert (P : forall l, puthead st l n = puthead st 0 n).
  { intros l. by rewrite !puthead_small by lia. }
  split_and!; try lia.
  - destruct Hk as [[-> _] | [-> _]]; [|done]. cbn. destruct c as [|y [|? ?]] eqn:Ec; try done.
    by apply Hone.
  - rewrite T. clearbody c. destruct Hk as [[-> ->] | [-> ->]]; cbn [enc_kind].
    + rewrite <- (P 183). subst n. unfold encode_bytes. destruct c as [|y [|? ?]] eqn:Ec; try done.
      specialize (Hone eq_refl y eq_refl). destruct (y <=? 127) eqn:E; to_prop; [lia|done].
    + by rewrite <- (P 247), Lc.
Qed.

(** Every branch of [readKind]: no panic, and what it accepts. *)
Lemma readKind_total b : wf_bytes b -> zlen b < 2 ^ 63 ->
  exists r, readKind b = Ok r /\
    match r with inl (k, ts, cs) => accepted b k ts cs | inr _ => True end.
Proof.
  intros Hw Hl. destruct b as [|x tl]; [by eexists|]. pose proof (zlen_nonneg tl).
  inv Hw. unfold is_byte in *. unfold readKind. rewrite zlen_cons in *.
  assert (Hsub : forall t, 0 <= t <= 1 + zlen tl -> sub64 (1 + zlen tl) t = 1 + zlen tl - t).
  { intros. apply sub64_small; lia. }
  zcase.
  { rewrite Hsub by lia. zcase; [lia|]. eexists. split; [done|].
    unfold accepted. rewrite zlen_cons. change (drop (Z.to_nat 0) (x :: tl)) with (x :: tl).
    change (Z.to_nat (0 + 1)) with 1%nat. change (Z.to_nat 1) with 1%nat. cbn [take].
    rewrite take_0. split_and!; try lia; try done. cbn. destruct (x <=? 127) eqn:E; to_prop; [done|lia]. }
  zcase.
  { zcase; [by eexists|]. rewrite Hsub by lia. zcase; [by eexists|]. eexists. split; [done|].
    apply (accepted_short String 128); [left; done | lia | lia | lia |]. intros _ E1.
    destruct tl as [|y tl]; [change (zlen []) with 0 in *; lia|]. cbn.
    match goal with H : (_ && _)%bool = false |- _ => apply andb_false_iff in H as [? | ?] end;
      to_prop; lia. }
  zcase.
  { rewrite readSize_spec by (try done; lia). zcase; cbn [mbind res_bind]; [by eexists|].
    zcase; cbn [mbind res_bind]; [by eexists|]. rewrite Hsub by lia. zcase; [by eexists|].
    eexists. split; [done|].
    apply (accepted_long String 128 183); [left; done|..]; rewrite ?zlen_cons; try done; lia. }
  zcase.
  { rewrite Hsub by lia. zcase; [by eexists|]. eexists. split; [done|].
    apply (accepted_short List 192); [right; done | lia | lia | lia | done]. }
  rewrite readSize_spec by (try done; lia). zcase; cbn [mbind res_bind]; [by eexists|].
  zcase; cbn [mbind res_bind]; [by eexists|]. rewrite Hsub by lia. zcase; [by eexists|].
  eexists. split; [done|].
  apply (accepted_long List 192 247); [right; done|..]; rewrite ?zlen_cons; try done; lia.
Qed.

Lemma wf_putint n : wf_bytes (putint n).
Proof. unfold putint. repeat zcase; apply wf_be_bytes. Qed.

Lemma readSize_putint n r : is_u64 n -> 56 <= n -> wf_bytes r ->
  readSize (putint n ++ r) (zlen (putint n)) = Ok (inl n).
Proof.
  intros Hn H56 Hr. pose proof (putint_length n Hn). pose proof (zlen_nonneg r).
  destruct (putint_spec n Hn) as (k & _ & _ & _ & Hv & Hh).
  rewrite readSize_spec; [|apply wf_bytes_app; auto using wf_putint | lia].
  rewrite zlen_app. zcase; [lia|]. cbv zeta. rewrite take_zlen_app, Hv.
  destruct (n <? 56) eqn:E; to_prop; [lia|]. cbn [orb].
  assert (hd 0 (putint n ++ r) = hd 0 (putint n)) as ->.
  { destruct (putint n); [change (zlen []) with 0 in *; lia | done]. }
  destruct (hd 0 (putint n) =? 0) eqn:E2; to_prop; [lia|done].
Qed.

(** [readKind] reads the header of a canonical value. *)
Lemma readKind_complete k c rest :
  kind_ok k c -> wf_bytes c -> wf_bytes rest -> zlen (enc_kind k c ++ rest) < 2 ^ 63 ->
  readKind (enc_kind k c ++ rest) = Ok (inl (k, zlen (enc_kind k c) - zlen c, zlen c)).
Proof.
  intros Hk Hc Hr Hl. pose proof (zlen_nonneg c). pose proof (zlen_nonneg rest).
  assert (Hsub : forall a t, 0 <= t <= a -> a < 2 ^ 63 -> sub64 a t = a - t).
  { intros. apply sub64_small; lia. }
  assert (Ec : k <> Byte -> exists st lt, (k = String /\ st = 128 /\ lt = 183 \/ k = List /\ st = 192 /\ lt = 247)
      /\ enc_kind k c = puthead st lt (zlen c) ++ c).
  { intros Hnb. destruct k; [done| |].
    - exists 128, 183. split; [by left|]. cbn. unfold encode_bytes. cbn in Hk.
      destruct c as [|x [|y r]]; try done. destruct (x <=? 127) eqn:E; to_prop; [lia|done].
    - exists 192, 247. split; [by right|done]. }
  destruct (decide (k = Byte)) as [->|Hnb].
  { cbn in Hk. destruct c as [|x [|? ?]]; try done. inv Hc. unfold is_byte in *.
    cbn [enc_kind encode_bytes] in *. destruct (x <=? 127) eqn:E; to_prop; [|lia].
    cbn [app readKind] in *. destruct (x <? 128) eqn:E2; to_prop; [|lia].
    rewrite zlen_cons in *. rewrite Hsub by lia.
    destruct (1 >? _) eqn:E3; to_prop; [lia|]. done. }
  destruct (Ec Hnb) as (st & lt & Hsl & E). rewrite E in *. clear Ec E Hnb.
  rewrite <- app_assoc in *. rewrite !zlen_app in *.
  destruct (decide (zlen c < 56)) as [Hs|Hs].
  - rewrite puthead_small in * by lia. change (zlen [st + zlen c]) with 1 in *.
    cbn [app readKind]. rewrite !zlen_cons, !zlen_app. rewrite !Hsub by lia.
    replace (1 + zlen c - zlen c) with 1 by lia.
    destruct Hsl as [(-> & -> & ->) | (-> & -> & ->)].
    + destruct (128 + zlen c <? 128) eqn:E1; to_prop; [lia|].
      destruct (128 + zlen c <? 184) eqn:E2; to_prop; [|lia].
      replace (128 + zlen c - 128) with (zlen c) by lia.
      destruct ((zlen c =? 1) && _) eqn:E3; to_prop.
      * exfalso. assert (L1 : length c = 1%nat) by (unfold zlen in *; lia).
        destruct c as [|x [|? ?]]; try done. cbn in *. to_prop. lia.
      * destruct (zlen c >? _) eqn:E4; to_prop; [lia|done].
    + destruct (192 + zlen c <? 128) eqn:E1; to_prop; [lia|].
      destruct (192 + zlen c <? 184) eqn:E2; to_prop; [lia|].
      destruct (192 + zlen c <? 192) eqn:E3; to_prop; [lia|].
      destruct (192 + zlen c <? 248) eqn:E4; to_prop; [|lia].
      replace (192 + zlen c - 192) with (zlen c) by lia.
      destruct (zlen c >? _) eqn:E5; to_prop; [lia|done].
  - assert (Hu : is_u64 (zlen c)) by (pose proof (zlen_nonneg (puthead st lt (zlen c))); unfold is_u64; lia).
    pose proof (putint_length (zlen c) Hu) as Hp.
    rewrite puthead_large in * by (try done; lia). rewrite zlen_cons in *.
    cbn [app readKind]. rewrite !zlen_cons, !zlen_app.
    replace (1 + zlen (putint (zlen c)) + zlen c - zlen c) with (zlen (putint (zlen c)) + 1) by lia.
    destruct Hsl as [(-> & -> & ->) | (-> & -> & ->)].
    + set (p := zlen (putint (zlen c))) in *.
      destruct (183 + p <? 128) eqn:E1; to_prop; [lia|].
      destruct (183 + p <? 184) eqn:E2; to_prop; [lia|].
      destruct (183 + p <? 192) eqn:E3; to_prop; [|lia].
      replace (183 + p - 183) with p by lia.
      unfold p at 1. rewrite readSize_putint by (auto with entropy; lia). cbn [mbind res_bind].
      rewrite Hsub by lia. destruct (zlen c >? _) eqn:E5; to_prop; [lia|done].
    + set (p := zlen (putint (zlen c))) in *.
      destruct (247 + p <? 128) eqn:E1; to_prop; [lia|].
      destruct (247 + p <? 184) eqn:E2; to_prop; [lia|].
      destruct (247 + p <? 192) eqn:E3; to_prop; [lia|].
      destruct (247 + p <? 248) eqn:E4; to_prop; [lia|].
      replace (247 + p - 247) with p by lia.
      unfold p at 1. rewrite readSize_putint by (auto with entropy; lia). cbn [mbind res_bind].
      rewrite Hsub by lia. destruct (zlen c >? _) eqn:E5; to_prop; [lia|done].
Qed.

Lemma Split_accepted b k ts cs : readKind b = Ok (inl (k, ts, cs)) -> accepted b k ts cs ->
  Split b = Ok (inl (k, take (Z.to_nat cs) (drop (Z.to_nat ts) b), drop (Z.to_nat (ts + cs)) b)).
Proof.
  intros E (Ht & Hc & _ & Hl & _). unfold Split. rewrite E. cbn [mbind res_bind].
  rewrite !slice_Ok by lia. cbn [mbind res_bind]. rewrite (take_ge (drop (Z.to_nat (ts + cs)) b)).
  - by replace (ts + cs - ts) with cs by lia.
  - rewrite length_drop. unfold zlen. lia.
Qed.

Lemma Split_canonical b k c rest : wf_bytes b -> zlen b < 2 ^ 63 ->
  Split b = Ok (inl (k, c, rest)) <-> kind_ok k c /\ b = enc_kind k c ++ rest.
Proof.
  intros Hw Hl. split.
  - intros H. destruct (readKind_total b Hw Hl) as ([[[k' ts] cs]|e] & E & A).
    2: { unfold Split in H. rewrite E in H. done. }
    rewrite (Split_accepted _ _ _ _ E A) in H. destruct A as (_ & _ & _ & _ & Hk & Ht).
    simplify_eq. split; [done|]. rewrite <- Ht. by rewrite take_drop.
  - intros [Hk ->]. apply Forall_app in Hw as [Hw1 Hw2].
    assert (Hc : wf_bytes c).
    { destruct k; cbn in Hw1; unfold encode_bytes in Hw1;
        repeat (case_match; simplify_eq; try done);
        by apply Forall_app in Hw1 as [_ ?] || inv Hw1. }
    pose proof (readKind_complete k c rest Hk Hc Hw2 Hl) as E.
    destruct (readKind_total (enc_kind k c ++ rest)) as (r & E' & A); [by apply wf_bytes_app|done|].
    rewrite E in E'. simplify_eq. rewrite (Split_accepted _ _ _ _ E A).
    destruct A as (_ & _ & _ & _ & A). cbv zeta in A.
    set (n := zlen (enc_kind k c)) in *. replace (n - zlen c + zlen c) with n in * by lia.
    unfold n at 2. rewrite drop_zlen_app. destruct A as [_ A]. unfold n at 1 in A.
    rewrite take_zlen_app in A. f_equal. f_equal. f_equal. f_equal.
    assert (En : exists h, enc_kind k c = h ++ c).
    { destruct k; cbn; unfold encode_bytes; repeat case_match; simplify_eq;
        try (by exists []); by eexists. }
    destruct En as (h & En). unfold n. rewrite En, zlen_app.
    replace (zlen h + zlen c - zlen c) with (zlen h) by lia.
    by rewrite <- app_assoc, drop_zlen_app, take_zlen_app.
Qed.

(** on every input [Split] returns without panicking, and it succeeds with a
    kind, a content and a rest exactly when the input is the canonical encoding
    of that content, as that kind, followed by the rest: it inverts the encoder
    and accepts nothing else. *)
Theorem Split_correct b k c rest :
  wf_bytes b -> zlen b < 2 ^ 63 ->
  (exists r, Split b = Ok r) /\
  (Split b = Ok (inl (k, c, rest)) <-> kind_ok k c /\ b = enc_kind k c ++ rest).
Proof.
  intros Hw Hl. split; [|by apply Split_canonical].
  destruct (readKind_total b Hw Hl) as ([[[k' ts] cs]|e] & E & A).
  - rewrite (Split_accepted _ _ _ _ E A). by eexists.
  - unfold Split. rewrite E. by eexists.
Qed.

Lemma Split_correct_witness :
  Split [131; 100; 111; 103; 5] = Ok (inl (String, [100; 111; 103], [5])) /\
  kind_ok String [100; 111; 103].
Proof.
  assert (W : wf_bytes [131; 100; 111; 103; 5]) by (repeat constructor; unfold is_byte; lia).
  split; [|done].
  apply (Split_correct [131; 100; 111; 103; 5] String [100; 111; 103] [5] W ltac:(done)).
  split; [done | reflexivity].
Defined.

(** ** Integers *)

Lemma encode_uint_small n : 0 < n < 128 -> encode_uint n = [n].
Proof.
  intros. unfold encode_uint. destruct (n =? 0) eqn:E; to_prop; [lia|].
  rewrite putint_byte by lia. cbn. destruct (n <=? 127) eqn:E2; to_prop; [done|lia].
Qed.

Lemma encode_uint_large n k : is_u64 n -> 128 <= n -> in_bytes k n ->
  encode_uint n = (128 + Z.of_nat k) :: be_bytes k n.
Proof.
  intros Hn H Hk. unfold is_u64 in Hn. unfold encode_uint. destruct (n =? 0) eqn:E; to_prop; [lia|].
  rewrite (putint_bytes k n Hk) by lia. pose proof Hk as (Hk8 & _ & _).
  assert (Hh : puthead 128 183 (zlen (be_bytes k n)) = [128 + Z.of_nat k]).
  { rewrite zlen_be_bytes. apply puthead_small; lia. }
  unfold encode_bytes. destruct (be_bytes k n) as [|x [|y r]] eqn:Eb; try by rewrite Hh.
  assert (k = 1%nat) as -> by (pose proof (length_be_bytes k n); rewrite Eb in *; done).
  destruct Hk as (_ & _ & Hu). cbn in Hu. unfold be_bytes in Eb. cbn in Eb.
  rewrite Z.mod_small in Eb by lia. simplify_eq.
  destruct (x <=? 127) eqn:E2; to_prop; [lia|done].
Qed.

Lemma AppendUint64_spec b i : is_u64 i -> AppendUint64 b i = b ++ encode_uint i.
Proof.
  intros Hi. pose proof Hi as Hi'. unfold is_u64 in Hi'. unfold AppendUint64. zcase.
  { by subst. }
  zcase. { rewrite encode_uint_small by lia. unfold u8. by rewrite Z.mod_small by lia. }
  destruct (in_bytes_exists i Hi) as (k & Hk). rewrite (encode_uint_large i k) by done.
  bytes_cases Hk;
    repeat (match goal with |- context [i <? ?n] =>
      destruct (i <? n) eqn:?; to_prop; [try lia; try done|] end); try lia; done.
Qed.

(** The content of an integer: no leading zero, at most eight bytes. *)
Lemma SplitUint64_content c rest b i :
  SplitString b = Ok (inl (c, rest)) -> wf_bytes c ->
  SplitUint64 b = Ok (inl (i, rest)) <->
  is_u64 i /\ c = (if i =? 0 then [] else putint i).
Proof.
  intros E Hc. unfold SplitUint64. rewrite E. cbn [mbind res_bind].
  destruct c as [|x [|y r]].
  - split.
    + intros. simplify_eq. done.
    + intros [Hi H]. destruct (i =? 0) eqn:E0; to_prop; [by subst|].
      pose proof (putint_length i Hi). rewrite <- H in *. change (zlen []) with 0 in *. lia.
  - inv Hc. unfold is_byte in *. destruct (x =? 0) eqn:Ex; to_prop.
    + split; [done|]. intros [Hi H]. destruct (i =? 0) eqn:E0; to_prop; [done|].
      destruct (putint_spec i Hi) as (k & _ & _ & _ & _ & Hh). rewrite <- H in Hh. cbn in Hh.
      unfold is_u64 in Hi. lia.
    + split.
      * intros. simplify_eq. split; [unfold is_u64; lia|].
        destruct (i =? 0) eqn:E0; to_prop; [lia|]. by rewrite putint_byte by lia.
      * intros [Hi H]. destruct (i =? 0) eqn:E0; to_prop; [done|].
        destruct (putint_spec i Hi) as (k & _ & _ & _ & Hv & _). rewrite <- H in Hv. cbn in Hv.
        by subst.
  - set (c := x :: y :: r) in *. assert (L2 : 2 <= zlen c) by (unfold c, zlen; cbn; lia).
    destruct (zlen c >? 8) eqn:E8; to_prop.
    { split; [done|]. intros [Hi H]. destruct (i =? 0); [done|].
      pose proof (putint_length i Hi). rewrite <- H in *. lia. }
    rewrite readSize_spec by (try done; lia). destruct (zlen c >? zlen c) eqn:Ez; to_prop; [lia|].
    cbv zeta. assert (take (Z.to_nat (zlen c)) c = c) as ->.
    { apply take_ge. unfold zlen. lia. }
    destruct ((be_value c <? 56) || (hd 0 c =? 0)) eqn:Eb; cbn [mbind res_bind].
    + split; [done|]. intros [Hi H]. exfalso. destruct (i =? 0) eqn:E0; to_prop; [done|].
      destruct (putint_spec i Hi) as (k & _ & _ & _ & Hv & Hh). rewrite <- H in Hv, Hh.
      unfold is_u64 in Hi. specialize (Hh ltac:(lia)).
      pose proof (be_value_small_head c _ Hc eq_refl ltac:(lia) Hh) as Hs.
      assert (256 ^ 1 <= 256 ^ (zlen c - 1)) by (apply Z.pow_le_mono_r; lia).
      apply orb_true_iff in Eb as [Eb|Eb]; to_prop; [lia|done].
    + to_prop. pose proof (be_value_bound c Hc) as Hb.
      assert (256 ^ zlen c <= 256 ^ 8) by (apply Z.pow_le_mono_r; lia).
      assert (U : is_u64 (be_value c)) by (unfold is_u64; lia). split.
      * intros. simplify_eq. split; [done|]. destruct (be_value c =? 0) eqn:E0; to_prop; [lia|].
        by rewrite putint_unique by (try done; lia).
      * intros [Hi H']. destruct (i =? 0) eqn:E0; to_prop; [done|].
        destruct (putint_spec i Hi) as (k & _ & _ & _ & Hv & _). rewrite <- H' in Hv.
        do 3 f_equal. done.
Qed.

Definition string_kind (c : bytes) : Kind :=
  match c with [x] => if x <? 128 then Byte else String | _ => String end.

Lemma string_kind_ok c : kind_ok (string_kind c) c /\ string_kind c <> List /\
  enc_kind (string_kind c) c = encode_bytes c.
Proof.
  unfold string_kind. destruct c as [|x [|? ?]]; try done.
  destruct (x <? 128) eqn:E; to_prop; done.
Qed.

Lemma SplitString_canonical b c rest : wf_bytes b -> zlen b < 2 ^ 63 ->
  SplitString b = Ok (inl (c, rest)) <-> b = encode_bytes c ++ rest.
Proof.
  intros Hw Hl. split.
  - unfold SplitString. intros H. bind_inv H. destruct v as [[[k c'] r']|]; [|done].
    case_decide; [done|]. simplify_eq. apply Split_canonical in E as [_ ->]; [|done|done].
    by destruct k.
  - intros Eb. destruct (string_kind_ok c) as (Hk & Hn & He).
    assert (E : Split b = Ok (inl (string_kind c, c, rest))).
    { apply Split_canonical; [done|done|]. by rewrite He. }
    unfold SplitString. rewrite E. cbn [mbind res_bind]. by rewrite decide_False.
Qed.

Lemma wf_encode_bytes_inv c : wf_bytes (encode_bytes c) -> wf_bytes c.
Proof.
  unfold encode_bytes. intros H. repeat (case_match; simplify_eq; try done);
    by apply Forall_app in H as [_ ?].
Qed.

(** reading and writing integers are inverse: [SplitUint64] returns [i] and the
    rest exactly when the input is what [AppendUint64] writes for [i], followed
    by that rest. *)
Theorem SplitUint64_roundtrip b i rest :
  wf_bytes b -> zlen b < 2 ^ 63 ->
  SplitUint64 b = Ok (inl (i, rest)) <-> is_u64 i /\ b = AppendUint64 [] i ++ rest.
Proof.
  intros Hw Hl. split.
  - intros H. pose proof H as H'. unfold SplitUint64 in H. bind_inv H.
    destruct v as [[c r]|]; [|done].
    assert (r = rest) as -> by (repeat (case_match; try bind_inv H; simplify_eq; try done)).
    pose proof E as Eb. apply SplitString_canonical in Eb; [|done|done].
    assert (Hc : wf_bytes c).
    { subst b. apply Forall_app in Hw as [Hw _]. by apply wf_encode_bytes_inv. }
    apply (SplitUint64_content c rest b i E Hc) in H' as [Hi ->]. split; [done|].
    rewrite AppendUint64_spec by done. exact Eb.
  - intros [Hi Eb]. rewrite AppendUint64_spec in Eb by done. cbn [app] in Eb. unfold encode_uint in Eb.
    set (c := if i =? 0 then [] else putint i) in *.
    assert (Hc : wf_bytes c) by (unfold c; destruct (i =? 0); [constructor | apply wf_putint]).
    apply (SplitUint64_content c rest b i); [|done|done]. by apply SplitString_canonical.
Qed.

Lemma SplitUint64_roundtrip_witness :
  AppendUint64 [] 1024 = [130; 4; 0] /\ SplitUint64 [130; 4; 0; 7] = Ok (inl (1024, [7])).
Proof.
  assert (W : wf_bytes [130; 4; 0; 7]) by (repeat constructor; unfold is_byte; lia).
  split; [reflexivity|].
  apply (SplitUint64_roundtrip [130; 4; 0; 7] 1024 [7] W ltac:(done)).
  split; [unfold is_u64; lia | reflexivity].
Defined.

(** ** Sequences of values *)

Lemma wf_puthead st lt c : wf_bytes c -> wf_bytes (puthead st lt (zlen c) ++ c).
Proof.
  intros Hc. apply wf_bytes_app; [|done]. unfold puthead, u8. zcase.
  - constructor; [|constructor]. apply Z.mod_pos_bound. lia.
  - constructor; [apply Z.mod_pos_bound; lia | apply wf_putint].
Qed.

Lemma wf_encode_bytes c : wf_bytes c -> wf_bytes (encode_bytes c).
Proof.
  intros Hc. unfold encode_bytes. destruct c as [|x [|y r]]; try by apply (wf_puthead 128 183).
  zcase; [done|]. by apply (wf_puthead 128 183 [x]).
Qed.

Lemma wf_uint_content n : wf_bytes (if n =? 0 then [] else putint n).
Proof. destruct (n =? 0); [constructor | apply wf_putint]. Qed.

Lemma wf_encode it : wf_item it -> wf_bytes (encode it).
Proof.
  induction it as [bs | n | x | l IH | l IH] using item_rect'; intros Hw.
  1: by apply wf_encode_bytes.
  1: apply wf_encode_bytes, wf_uint_content.
  1: apply wf_encode_bytes, wf_be_bytes.
  all: apply wf_puthead; revert Hw. all: induction IH as [|x r Hx _ IHr]; intros Hw; [constructor|].
  all: cbn in Hw; destruct Hw; cbn; apply wf_bytes_app; auto.
Qed.

Lemma wf_encode_items l : wf_items l -> wf_bytes (encode_items l).
Proof.
  induction l as [|x r IH]; intros Hw; [constructor|]. cbn in Hw. destruct Hw.
  apply wf_bytes_app; [by apply wf_encode | by apply IH].
Qed.

(** Every encoding is a canonical value. *)
Lemma encode_kind it : wf_item it -> exists k c, kind_ok k c /\ wf_bytes c /\ encode it = enc_kind k c.
Proof.
  destruct it as [bs | n | x | l | l]; intros Hw.
  - destruct (string_kind_ok bs) as (? & ? & E). by exists (string_kind bs), bs.
  - destruct (string_kind_ok (if n =? 0 then [] else putint n)) as (? & ? & E).
    eexists _, _. split; [done|]. split; [apply wf_uint_content|]. by rewrite E.
  - destruct (string_kind_ok (big_bytes x)) as (? & ? & E).
    eexists _, _. split; [done|]. split; [apply wf_be_bytes|]. by rewrite E.
  - exists List, (encode_items l). split; [done|]. split; [by apply wf_encode_items | done].
  - exists List, (encode_items l). split; [done|]. split; [by apply wf_encode_items | done].
Qed.

Lemma CountValues_loop_spec l fuel i :
  wf_items l -> zlen (encode_items l) < 2 ^ 63 -> (length (encode_items l) <= fuel)%nat ->
  CountValues_loop fuel (encode_items l) i = Ok (inl (i + zlen l)).
Proof.
  revert fuel i. induction l as [|x r IH]; intros fuel i Hw Hl Hf.
  - change (encode_items []) with (@nil Z). destruct fuel; cbn; by rewrite Z.add_0_r.
  - cbn in Hw. destruct Hw as [Hx Hr].
    change (encode_items (x :: r)) with (encode x ++ encode_items r) in *.
    assert (Hwb : wf_bytes (encode x ++ encode_items r)).
    { apply wf_bytes_app; [by apply wf_encode | by apply wf_encode_items]. }
    destruct (encode_kind x Hx) as (k & c & Hk & Hc & E).
    pose proof (readKind_complete k c (encode_items r) Hk Hc (wf_encode_items r Hr)) as R.
    rewrite <- E in R. specialize (R Hl).
    destruct (readKind_total _ Hwb Hl) as (v & E' & A). rewrite R in E'. simplify_eq.
    destruct A as (_ & _ & A1 & A2 & _). rewrite zlen_app in *. rewrite length_app in Hf.
    pose proof (zlen_nonneg (encode_items r)). pose proof (zlen_nonneg (encode x)).
    destruct fuel as [|fuel]; [unfold zlen in *; lia|]. cbn [CountValues_loop].
    rewrite zlen_app. destruct (_ >? 0) eqn:Ez; to_prop; [|lia]. rewrite R. cbn [mbind res_bind].
    replace (zlen (encode x) - zlen c + zlen c) with (zlen (encode x)) by lia.
    rewrite slice_Ok by (rewrite ?zlen_app; lia). cbn [mbind res_bind].
    rewrite drop_zlen_app, take_ge by (unfold zlen; lia).
    rewrite IH by (try done; unfold zlen in *; lia). rewrite zlen_cons. do 2 f_equal. lia.
Qed.

Lemma CountValues_loop_total fuel b i : wf_bytes b -> zlen b < 2 ^ 63 -> (length b <= fuel)%nat ->
  exists r, CountValues_loop fuel b i = Ok r.
Proof.
  revert b i. induction fuel as [|fuel IH]; intros b i Hw Hl Hf.
  - destruct b; [by eexists | cbn in Hf; lia].
  - cbn [CountValues_loop]. zcase; [|by eexists].
    destruct (readKind_total b Hw Hl) as ([[[k ts] cs]|e] & -> & A); cbn [mbind res_bind]; [|by eexists].
    destruct A as (? & ? & ? & ? & _). rewrite slice_Ok by lia. cbn [mbind res_bind].
    apply IH; [auto with entropy|..]; unfold zlen in *; rewrite length_take, length_drop; lia.
Qed.

(** [CountValues] terminates on every input, and on the concatenation of the
    encodings of a list of values it returns how many there are. *)
Theorem CountValues_correct :
  (forall b, wf_bytes b -> zlen b < 2 ^ 63 -> exists r, CountValues b = Ok r) /\
  (forall l, wf_items l -> zlen (encode_items l) < 2 ^ 63 ->
     CountValues (encode_items l) = Ok (inl (zlen l))).
Proof.
  split.
  - intros b Hw Hl. by apply CountValues_loop_total.
  - intros l Hw Hl. by apply CountValues_loop_spec.
Qed.

Lemma CountValues_correct_witness :
  CountValues (encode_items [IUint 5; IBytes []; IList [IUint 1]]) = Ok (inl 3).
Proof.
  apply (proj2 CountValues_correct [IUint 5; IBytes []; IList [IUint 1]]).
  - repeat split; try constructor; lia.
  - reflexivity.
Defined.

(** A header takes at most nine bytes. *)
Lemma puthead_length st lt n : zlen (puthead st lt n) <= 9.
Proof.
  unfold puthead, putint. repeat zcase; rewrite ?zlen_cons, ?zlen_be_bytes, ?zlen_nil; lia.
Qed.

Lemma encode_bytes_length c : zlen (encode_bytes c) <= 9 + zlen c.
Proof.
  unfold encode_bytes. destruct c as [|x [|y r]]; [by compute| |].
  - zcase; [cbn; lia|]. rewrite zlen_app. pose proof (puthead_length 128 183 1). lia.
  - rewrite zlen_app. pose proof (puthead_length 128 183 (zlen (x :: y :: r))). lia.
Qed.

(** On malformed content the list iterator reports an element at every step and
    never advances. *)
Lemma Next_item_stuck it e : it_data it <> [] -> readKind (it_data it) = Ok (inr e) ->
  exists it', Next_item it = Ok (true, it') /\ it_data it' = it_data it.
Proof.
  intros Hne E. unfold Next_item. destruct (zlen (it_data it) =? 0) eqn:Ez; to_prop.
  { destruct (it_data it); [done|]. rewrite zlen_cons in Ez. pose proof (zlen_nonneg l). lia. }
  rewrite E. cbn [mbind res_bind]. pose proof (zlen_nonneg (it_data it)).
  rewrite !slice_Ok by lia. cbn [mbind res_bind]. eexists. split; [reflexivity|]. cbn [it_data].
  change (Z.to_nat 0) with 0%nat. rewrite drop_0, take_ge; [done|]. unfold zlen. lia.
Qed.

(** ** Encodings are prefix free *)

Lemma encode_prefix a b r r' : wf_item a -> wf_item b -> wf_bytes r -> wf_bytes r' ->
  zlen (encode a ++ r) < 2 ^ 63 -> encode a ++ r = encode b ++ r' -> encode a = encode b /\ r = r'.
Proof.
  intros Wa Wb Wr Wr' Hl E.
  destruct (encode_kind a Wa) as (ka & ca & Ka & Wca & Ea). destruct (encode_kind b Wb) as (kb & cb & Kb & Wcb & Eb).
  assert (Wx : wf_bytes (encode a ++ r)) by (apply wf_bytes_app; [by apply wf_encode | done]).
  assert (Sa : Split (encode a ++ r) = Ok (inl (ka, ca, r))) by (apply Split_canonical; [done | done | by rewrite Ea]).
  assert (Sb : Split (encode a ++ r) = Ok (inl (kb, cb, r'))) by (apply Split_canonical; [done | done | by rewrite E, Eb]).
  rewrite Sa in Sb. injection Sb as -> -> ->. by rewrite Ea, Eb.
Qed.

Lemma encode_nonempty a : wf_item a -> encode a <> [].
Proof.
  intros W. destruct (encode_kind a W) as (k & c & _ & _ & ->).
  assert (H : forall s t n c, puthead s t n ++ c <> []) by (intros; unfold puthead; by destruct (_ <? _)).
  destruct k; cbn; try apply H; unfold encode_bytes; destruct c as [|x [|? ?]]; try apply H; by destruct (x <=? 127).
Qed.

Lemma encode_items_inj l l' : wf_items l -> wf_items l' -> zlen (encode_items l) < 2 ^ 63 ->
  encode_items l = encode_items l' -> Forall2 (fun a b => encode a = encode b) l l'.
Proof.
  revert l'. induction l as [|a l IH]; intros [|b l'] W W' Hl E; [constructor | | |].
  - destruct W' as [Wb _]. cbn in E. destruct (encode b) eqn:Eb; [|done]. by apply encode_nonempty in Eb.
  - destruct W as [Wa _]. cbn in E. destruct (encode a) eqn:Ea; [|done]. by apply encode_nonempty in Ea.
  - destruct W as [Wa W], W' as [Wb W']. cbn in E, Hl.
    destruct (encode_prefix a b (encode_items l) (encode_items l')) as [E1 E2]; try done;
      [by apply wf_encode_items | by apply wf_encode_items|].
    constructor; [done|]. apply IH; try done. rewrite zlen_app in Hl. pose proof (zlen_nonneg (encode a)).
    unfold encode_items. lia.
Qed.

(** The string an item is encoded as. *)
Definition content (it : item) : bytes :=
  match it with
  | IBytes b => b
  | IUint n => if n =? 0 then [] else putint n
  | IBig x => big_bytes x
  | IList l | IStruct l => encode_items l
  end.

Lemma encode_bytes_inj a b : wf_bytes a -> wf_bytes b -> zlen (encode_bytes a) < 2 ^ 63 ->
  encode_bytes a = encode_bytes b -> a = b.
Proof.
  intros Wa Wb Hl E. destruct (string_kind_ok a) as (Ka & _ & Ea), (string_kind_ok b) as (Kb & _ & Eb).
  assert (Sa : Split (encode_bytes a) = Ok (inl (string_kind a, a, []))).
  { apply Split_canonical; [by apply wf_encode_bytes | done|]. by rewrite Ea, app_nil_r. }
  assert (Sb : Split (encode_bytes a) = Ok (inl (string_kind b, b, []))).
  { apply Split_canonical; [by apply wf_encode_bytes | done|]. by rewrite Eb, app_nil_r. }
  rewrite Sa in Sb. by injection Sb as _ ->.
Qed.

Lemma uint_content_inj n m : is_u64 n -> is_u64 m ->
  (if n =? 0 then [] else putint n) = (if m =? 0 then [] else putint m) -> n = m.
Proof.
  intros Hn Hm E. destruct (putint_spec n Hn) as (k & _ & En & _ & Vn & _), (putint_spec m Hm) as (k' & _ & Em & _ & Vm & _).
  assert (V : forall i, is_u64 i -> be_value (putint i) = i -> be_value (if i =? 0 then [] else putint i) = i).
  { intros i _ Hi. destruct (i =? 0) eqn:Ei; to_prop; [by subst | done]. }
  rewrite <- (V n), <- (V m), E by done. done.
Qed.

Lemma big_bytes_value x : 0 <= x -> be_value (big_bytes x) = x.
Proof.
  intros Hx. unfold big_bytes. rewrite be_value_be_bytes. apply Z.mod_small.
  destruct (decide (x = 0)) as [->|]; [by compute|]. destruct (BitLen_bytes x ltac:(lia)) as [[_ H] ?].
  rewrite Z2Nat.id by lia. lia.
Qed.

(** ** RLP values as trees

    An RLP encoding stands for a tree of strings and lists.  Two well-formed
    items with the same encoding are the same tree, so what can be read off the
    tree is determined by the encoding. *)

Inductive rtree := RString (b : bytes) | RList (l : list rtree).

Fixpoint tree_of (it : item) : rtree :=
  match it with
  | IList l | IStruct l => RList (map tree_of l)
  | _ => RString (content it)
  end.

Lemma RString_inj a b : RString a = RString b -> a = b.
Proof. congruence. Qed.

Lemma RList_inj l l' : RList l = RList l' -> l = l'.
Proof. congruence. Qed.

Lemma cons_inj {A} (x y : A) l l' : x :: l = y :: l' -> x = y /\ l = l'.
Proof. by intros [= -> ->]. Qed.

(** The kind and the content of an encoding are determined. *)
Lemma enc_kind_inj k c k' c' : kind_ok k c -> kind_ok k' c' -> wf_bytes (enc_kind k c) -> zlen (enc_kind k c) < 2 ^ 63 ->
  enc_kind k c = enc_kind k' c' -> k = k' /\ c = c'.
Proof.
  intros Hk Hk' Hw Hl E.
  assert (S1 : Split (enc_kind k c) = Ok (inl (k, c, []))) by (apply Split_canonical; rewrite ?app_nil_r; done).
  assert (S2 : Split (enc_kind k c) = Ok (inl (k', c', []))) by (apply Split_canonical; rewrite ?app_nil_r; done).
  rewrite S1 in S2. by injection S2 as -> ->.
Qed.

(** Items are strings or lists. *)
Lemma item_cases it :
  (tree_of it = RString (content it) /\ exists k, k <> List /\ kind_ok k (content it) /\ encode it = enc_kind k (content it)) \/
  (exists l, tree_of it = RList (map tree_of l) /\ encode it = enc_kind List (encode_items l) /\ (wf_item it -> wf_items l) /\
     (it = IList l \/ it = IStruct l)).
Proof.
  destruct it as [b|n|x|l|l]; [left|left|left|right|right].
  1-3: split; [done|]; match goal with |- context [content ?i] => destruct (string_kind_ok (content i)) as (? & ? & E) end;
    eexists; split_and!; [done | done | by rewrite E].
  all: exists l; split_and!; auto.
Qed.

Lemma encode_item_le x l : x ∈ l -> zlen (encode x) <= zlen (encode_items l).
Proof.
  induction 1 as [|x y l _ IH]; unfold encode_items in *; cbn [flat_map]; rewrite zlen_app;
    [pose proof (zlen_nonneg (flat_map encode l)) | pose proof (zlen_nonneg (encode y))]; lia.
Qed.

Lemma wf_items_elem x l : wf_items l -> x ∈ l -> wf_item x.
Proof. intros Hw. induction 1 as [|x y l _ IH]; destruct Hw as [? ?]; [done | by apply IH]. Qed.

Lemma encode_tree_inj a : forall b, wf_item a -> wf_item b -> zlen (encode a) < 2 ^ 63 -> encode a = encode b -> tree_of a = tree_of b.
Proof.
  assert (Hlist : forall l, Forall (fun a => forall b, wf_item a -> wf_item b -> zlen (encode a) < 2 ^ 63 -> encode a = encode b -> tree_of a = tree_of b) l ->
    forall l', wf_items l -> wf_items l' -> zlen (encode_items l) < 2 ^ 63 -> encode_items l = encode_items l' -> map tree_of l = map tree_of l').
  { intros l IH l' W W' Hl E. pose proof (encode_items_inj l l' W W' Hl E) as F. clear E.
    induction F as [|x y l l' Exy F IHF]; [done|]. apply Forall_cons in IH as [Hx IH]. destruct W as [Wx W], W' as [Wy W'].
    pose proof (encode_item_le x (x :: l) ltac:(constructor)). unfold encode_items in *. cbn [flat_map] in *. rewrite zlen_app in *.
    pose proof (zlen_nonneg (encode x)). cbn [map]. f_equal; [apply Hx; done || lia | apply IHF; done || lia]. }
  assert (Hsize : forall l, zlen (encode_items l) <= zlen (enc_kind List (encode_items l))).
  { intros l. cbn [enc_kind]. rewrite zlen_app. pose proof (zlen_nonneg (puthead 192 247 (zlen (encode_items l)))). lia. }
  induction a as [c|n|x|l IH|l IH] using item_rect'; intros b Wa Wb Hl E;
    pose proof (wf_encode _ Wa) as Hw;
    match type of E with encode ?a = _ => destruct (item_cases a) as [(Ta & k & Hk & Ok & Ea)|(la & Ta & Ea & Wla & Ia)] end;
    try (by destruct Ia); try done;
    destruct (item_cases b) as [(Tb & k' & Hk' & Ok' & Eb)|(lb & Tb & Eb & Wlb & Ib)];
    rewrite Ea in *; rewrite Eb in E; apply enc_kind_inj in E as [Ekk E]; try done; try (by subst);
    rewrite Ta, Tb; try (by rewrite E).
  all: assert (la = l) as -> by (destruct Ia as [Ia|Ia]; congruence); f_equal;
    apply Hlist; auto; specialize (Hsize l); lia.
Qed.
