(* ===== verification/EvmState.v ===== *)
(** * The state of the virtual machine

    [evm/interface.go]: the interface [StateDB] the machine runs against, as a
    class; [evm/contract.go]: the contract of a call frame; [evm/evm.go] and
    [evm/interpreter.go]: the contexts and the mutable parts of [EVM] and
    [EVMInterpreter]; [blockchain/evm.go]: the transfer functions. *)

From S2P Require Import Prelude Uint256 Config Common EvmAnalysis EvmStack EvmMemory Rlp.

Local Open Scope Z_scope.

(** ** Hashing

    The hash functions and signature recovery come from packages outside the
    repository ([golang.org/x/crypto], [crypto/sha256], libsecp256k1) and are
    parameters. *)
Class Crypto := {
  keccak256 : bytes -> Hash;
  sha256Sum : bytes -> bytes;
  ripemd160Sum : bytes -> bytes;
  Ecrecover : bytes -> bytes -> option bytes;
}.

(** [common/crypto/crypto.go]; the last 20 bytes of a hash are its residue. *)
Definition CreateAddress `{Crypto} (b : Address) (nonce : Z) : res Address :=
  data ← Enc.EncodeToBytes (IList [IBytes (be_bytes 20 b); IUint nonce]);
  Ok (keccak256 data mod 2 ^ 160).

Definition CreateAddress2 `{Crypto} (b : Address) (salt inithash : Hash) : Address :=
  keccak256 (255 :: be_bytes 20 b ++ be_bytes 32 salt ++ be_bytes 32 inithash) mod 2 ^ 160.

(** [emptyCodeHash] of [evm/evm.go]. *)
Definition emptyCodeHash `{Crypto} : Hash := keccak256 [].

(** ** [evm/interface.go]

    [model.Log] with the fields the machine sets. *)
Record Log := {
  lAddress : Address; lTopics : list Hash; lData : bytes; lBlockNumber : Z }.

Class StateDB (DB : Type) := {
  CreateAccount : Address -> DB -> DB;
  SubBalance : Address -> Z -> DB -> DB;
  AddBalance : Address -> Z -> DB -> DB;
  GetBalance : DB -> Address -> Z;
  GetNonce : DB -> Address -> Z;
  SetNonce : Address -> Z -> DB -> DB;
  GetCodeHash : DB -> Address -> Hash;
  GetCode : DB -> Address -> bytes;
  SetCode : Address -> bytes -> DB -> DB;
  GetCodeSize : DB -> Address -> Z;
  AddRefund : Z -> DB -> DB;
  SubRefund : Z -> DB -> res DB;
  GetRefund : DB -> Z;
  GetCommittedState : DB -> Address -> Hash -> Hash;
  GetState : DB -> Address -> Hash -> Hash;
  SetState : Address -> Hash -> Hash -> DB -> DB;
  Suicide : Address -> DB -> bool * DB;
  HasSuicided : DB -> Address -> bool;
  Exist : DB -> Address -> bool;
  Empty : DB -> Address -> bool;
  AddressInAccessList : DB -> Address -> bool;
  SlotInAccessList : DB -> Address -> Hash -> bool * bool;
  AddAddressToAccessList : Address -> DB -> DB;
  AddSlotToAccessList : Address -> Hash -> DB -> DB;
  RevertToSnapshot : Z -> DB -> res DB;
  Snapshot : DB -> Z * DB;
  AddLog : Log -> DB -> DB;
  AddPreimage : Hash -> bytes -> DB -> DB;
  (** Not called by the machine: what was logged in a transaction, with the index of
      each entry ([GetLogs]), and the recorded preimages ([Preimages]). *)
  LogsOf : DB -> Hash -> list (Log * Z);
  PreimageOf : DB -> Hash -> option bytes;
}.

(** ** [blockchain/evm.go]: the functions behind [BlockContext.CanTransfer] and
    [BlockContext.Transfer] *)
Definition CanTransfer {DB} `{StateDB DB} (db : DB) (addr : Address) (amount : Z) : bool :=
  amount <=? GetBalance db addr.

Definition Transfer {DB} `{StateDB DB} (sender recipient : Address) (amount : Z) (db : DB) : DB :=
  AddBalance recipient amount (SubBalance sender amount db).

(** ** [evm/contract.go] *)

(** A caller is an account, or the contract of the calling frame; of the latter
    the callee reads the address, the caller and the value. *)
Inductive ContractRef :=
| AccountRef (a : Address)
| ContractCaller (self callerAddress : Address) (value : Z).

Definition ref_address (r : ContractRef) : Address :=
  match r with AccountRef a => a | ContractCaller a _ _ => a end.

Record Contract := mkContract {
  CallerAddress : Address;
  caller : ContractRef;
  self : Address;
  analysis : option bitvec;
  Code : bytes;
  CodeHash : Hash;
  CodeAddr : option Address;
  Input : bytes;
  Gas : Z;
  value : Z;
}.

Definition with_gas (c : Contract) (g : Z) : Contract :=
  mkContract (CallerAddress c) (caller c) (self c) (analysis c) (Code c) (CodeHash c)
    (CodeAddr c) (Input c) g (value c).
Definition with_analysis (c : Contract) (a : bitvec) : Contract :=
  mkContract (CallerAddress c) (caller c) (self c) (Some a) (Code c) (CodeHash c)
    (CodeAddr c) (Input c) (Gas c) (value c).
Definition with_input (c : Contract) (i : bytes) : Contract :=
  mkContract (CallerAddress c) (caller c) (self c) (analysis c) (Code c) (CodeHash c)
    (CodeAddr c) i (Gas c) (value c).

(** A contract as the caller of a nested call. *)
Definition as_caller (c : Contract) : ContractRef :=
  ContractCaller (self c) (CallerAddress c) (value c).

(** [NewContract].  The jump destination cache the callee shares with its
    caller, or starts afresh, is [jumpdests] of the machine. *)
Definition NewContract (c : ContractRef) (object : Address) (v gas : Z) : Contract :=
  mkContract (ref_address c) c object None [] 0 None [] gas v.

(** [AsDelegate]: panics unless the caller is a contract. *)
Definition AsDelegate (c : Contract) : res Contract :=
  match caller c with
  | ContractCaller _ parentCaller parentValue =>
    Ok (mkContract parentCaller (caller c) (self c) (analysis c) (Code c) (CodeHash c)
          (CodeAddr c) (Input c) (Gas c) parentValue)
  | AccountRef _ => Panic PanicTypeAssertion
  end.

Definition SetCallCode (addr : Address) (hash : Hash) (code : bytes) (c : Contract) : Contract :=
  mkContract (CallerAddress c) (caller c) (self c) (analysis c) code hash
    (Some addr) (Input c) (Gas c) (value c).

(** [SetCodeOptionalHash]: the same assignments from a [codeAndHash]. *)
Definition SetCodeOptionalHash := SetCallCode.

Definition GetOp (c : Contract) (n : Z) : Z :=
  if n <? zlen (Code c) then default 0 (Code c !! Z.to_nat n) else 0.

Definition UseGas (c : Contract) (gas : Z) : option Contract :=
  if Gas c <? gas then None else Some (with_gas c (sub64 (Gas c) gas)).

(** ** Contexts ([BlockContext], [TxContext], [Config])

    Debugging is off: the tracer callbacks do not touch the machine. *)
Record Env := mkEnv {
  eGetHash : Z -> Hash;
  Coinbase : Address;
  GasLimit : Z;
  BlockNumber : Z;
  Time : Z;
  Difficulty : Z;
  BaseFee : option Z;
  Random : option Hash;
  Origin : Address;
  GasPrice : Z;
  chainConfig : ChainConfig;
  EnablePreimageRecording : bool;
  ExtraEips : list Z;
}.

(** [chainRules] as [NewEVM] computes it. *)
Definition chainRules (e : Env) : Rules :=
  rules (chainConfig e) (Some (BlockNumber e)) (match Random e with Some _ => true | None => false end).

(** ** The machine: the mutable fields of [EVM] and [EVMInterpreter], and the
    jump destination cache the contracts of one call tree share *)
Record EVM (DB : Type) := mkEVM {
  db : DB;
  depth : Z;
  callGasTemp : Z;
  abort : bool;
  readOnly : bool;
  returnData : bytes;
  jumpdests : gmap Z bitvec;
}.
Arguments mkEVM {DB} _ _ _ _ _ _ _.
Arguments db {DB} _.
Arguments depth {DB} _.
Arguments callGasTemp {DB} _.
Arguments abort {DB} _.
Arguments readOnly {DB} _.
Arguments returnData {DB} _.
Arguments jumpdests {DB} _.

Section setters.
Context {DB : Type}.
Implicit Types e : EVM DB.
Definition set_db (d : DB) e := mkEVM d (depth e) (callGasTemp e) (abort e) (readOnly e) (returnData e) (jumpdests e).
Definition set_depth d e := mkEVM (db e) d (callGasTemp e) (abort e) (readOnly e) (returnData e) (jumpdests e).
Definition set_callGasTemp g e := mkEVM (db e) (depth e) g (abort e) (readOnly e) (returnData e) (jumpdests e).
Definition set_abort b e := mkEVM (db e) (depth e) (callGasTemp e) b (readOnly e) (returnData e) (jumpdests e).
Definition set_readOnly b e := mkEVM (db e) (depth e) (callGasTemp e) (abort e) b (returnData e) (jumpdests e).
Definition set_returnData r e := mkEVM (db e) (depth e) (callGasTemp e) (abort e) (readOnly e) r (jumpdests e).
Definition set_jumpdests j e := mkEVM (db e) (depth e) (callGasTemp e) (abort e) (readOnly e) (returnData e) j.
End setters.

(** [EVM.Cancel] and [EVM.Cancelled]. *)
Definition Cancel {DB} (e : EVM DB) : EVM DB := set_abort true e.
Definition Cancelled {DB} (e : EVM DB) : bool := abort e.

(** ** A call frame: the locals of [Run] and its [ScopeContext] *)
Record Frame (DB : Type) := mkFrame {
  pc : Z;
  stk : Stack;
  mem : Memory;
  ctr : Contract;
  vm : EVM DB;
}.
Arguments mkFrame {DB} _ _ _ _ _.
Arguments pc {DB} _.
Arguments stk {DB} _.
Arguments mem {DB} _.
Arguments ctr {DB} _.
Arguments vm {DB} _.

Section frame_setters.
Context {DB : Type}.
Implicit Types f : Frame DB.
Definition set_pc p f := mkFrame p (stk f) (mem f) (ctr f) (vm f).
Definition set_stk s f := mkFrame (pc f) s (mem f) (ctr f) (vm f).
Definition set_mem m f := mkFrame (pc f) (stk f) m (ctr f) (vm f).
Definition set_ctr c f := mkFrame (pc f) (stk f) (mem f) c (vm f).
Definition set_vm (v : EVM DB) (f : Frame DB) := mkFrame (pc f) (stk f) (mem f) (ctr f) v.
End frame_setters.

(** ** [Contract.isCode] and [Contract.validJumpdest]

    They read and fill the cached analyses. *)
Section jumpdest.
Context `{U : Uint256} {DB : Type}.

Definition isCode (c : Contract) (udest : Z) (e : EVM DB) : res (bool * Contract * EVM DB) :=
  match analysis c with
  | Some a => b ← codeSegment a udest; Ok (b, c, e)
  | None =>
    if negb (CodeHash c =? 0) then
      '(a, e) ←
        match jumpdests e !! CodeHash c with
        | Some a => Ok (a, e)
        | None =>
          a ← codeBitmap (Code c);
          Ok (a, set_jumpdests (<[CodeHash c := a]> (jumpdests e)) e)
        end;
      let c := with_analysis c a in
      b ← codeSegment a udest; Ok (b, c, e)
    else
      a ← codeBitmap (Code c);
      let c := with_analysis c a in
      b ← codeSegment a udest; Ok (b, c, e)
  end.

Definition validJumpdest (c : Contract) (dest : Z) (e : EVM DB)
    : res (bool * Contract * EVM DB) :=
  let '(udest, overflow) := u_Uint64WithOverflow dest in
  if overflow || (zlen (Code c) <=? udest) then Ok (false, c, e)
  else
    op ← nth_or_panic (Code c) udest;
    if negb (op =? 91 (* JUMPDEST *)) then Ok (false, c, e)
    else isCode c udest e.
End jumpdest.
