(* ===== verification/EvmGas.v ===== *)
(** * Gas

    [evm/gas.go], [evm/gas_table.go] and [evm/operations_acl.go]: the constant
    price tiers and the dynamic gas functions.  A gas function reads the frame
    and returns a price or an error together with the frame it leaves: it may
    change the refund counter and the access list of the state, the gas of the
    contract, the fee counter of the memory, and [callGasTemp]. *)

From S2P Require Import Prelude Uint256 Config Common EvmStack EvmMemory EvmState.

Local Open Scope Z_scope.

(** ** [evm/gas.go] *)

Definition GasQuickStep : Z := 2.
Definition GasFastestStep : Z := 3.
Definition GasFastStep : Z := 5.
Definition GasMidStep : Z := 8.
Definition GasSlowStep : Z := 10.
Definition GasExtStep : Z := 20.

Definition callGas `{Uint256} (isEip150 : bool) (availableGas base callCost : Z) : Z + Err :=
  let availableGas := if isEip150 then sub64 availableGas base else availableGas in
  let gas := sub64 availableGas (availableGas / 64) in
  if isEip150 && (negb (u_IsUint64 callCost) || (gas <? u_Uint64 callCost)) then inl gas
  else if negb (u_IsUint64 callCost) then inr ErrGasUintOverflow
  else inl (u_Uint64 callCost).

Section gas.
Context `{U : Uint256} {DB : Type} `{SDB : StateDB DB}.
Context (env : Env).

Abbreviation gasFunc := (Frame DB -> Z -> res ((Z + Err) * Frame DB)).

Definition upd_db (g : DB -> DB) (f : Frame DB) : Frame DB :=
  set_vm (set_db (g (db (vm f))) (vm f)) f.

(** [SafeAdd] followed by the early return on overflow. *)
Definition safe_add (a b : Z) : Z + Err :=
  let '(s, overflow) := SafeAdd a b in
  if overflow : bool then inr ErrGasUintOverflow else inl s.

Definition safe_mul (a b : Z) : Z + Err :=
  let '(s, overflow) := SafeMul a b in
  if overflow : bool then inr ErrGasUintOverflow else inl s.

(** [Uint64WithOverflow] followed by the early return. *)
Definition safe_u64 (x : Z) : Z + Err :=
  let '(v, overflow) := u_Uint64WithOverflow x in
  if overflow : bool then inr ErrGasUintOverflow else inl v.

Definition and_then (x : Z + Err) (k : Z -> Z + Err) : Z + Err :=
  match x with inl v => k v | inr e => inr e end.

(** ** [evm/gas_table.go] *)

(** [memoryGasCost] on the memory of the frame. *)
Definition frameMemGas (f : Frame DB) (memorySize : Z) : (Z + Err) * Frame DB :=
  let '(r, m) := memoryGasCost (mem f) memorySize in (r, set_mem m f).

Definition memoryCopierGas (stackpos : Z) : gasFunc := fun f memorySize =>
  let '(g, f) := frameMemGas f memorySize in
  match g with
  | inr e => Ok (inr e, f)
  | inl gas =>
    w ← Stack.Back (stk f) stackpos;
    Ok (and_then (safe_u64 w) (fun words =>
        and_then (safe_mul (toWordSize words) CopyGas) (fun words =>
        safe_add gas words)), f)
  end.

Definition gasCallDataCopy := memoryCopierGas 2.
Definition gasCodeCopy := memoryCopierGas 2.
Definition gasExtCodeCopy := memoryCopierGas 3.
Definition gasReturnDataCopy := memoryCopierGas 2.

Definition gasSStore : gasFunc := fun f memorySize =>
  y ← Stack.Back (stk f) 1;
  x ← Stack.Back (stk f) 0;
  let addr := self (ctr f) in
  let current := GetState (db (vm f)) addr (u_Bytes32 x) in
  let value := u_Bytes32 y in
  if current =? value then Ok (inl NetSstoreNoopGas, f)
  else
    let original := GetCommittedState (db (vm f)) addr (u_Bytes32 x) in
    if original =? current then
      if original =? 0 then Ok (inl NetSstoreInitGas, f)
      else
        let f := if value =? 0 then upd_db (AddRefund NetSstoreClearRefund) f else f in
        Ok (inl NetSstoreCleanGas, f)
    else
      f ← (if negb (original =? 0) then
             if current =? 0 then
               d ← SubRefund NetSstoreClearRefund (db (vm f)); Ok (upd_db (fun _ => d) f)
             else if value =? 0 then Ok (upd_db (AddRefund NetSstoreClearRefund) f)
             else Ok f
           else Ok f);
      let f := if original =? value then
                 if original =? 0 then upd_db (AddRefund NetSstoreResetClearRefund) f
                 else upd_db (AddRefund NetSstoreResetRefund) f
               else f in
      Ok (inl NetSstoreDirtyGas, f).

Definition gasSStoreEIP2200 : gasFunc := fun f memorySize =>
  if Gas (ctr f) <=? SstoreSentryGasEIP2200 then Ok (inr ErrSentry, f)
  else
  y ← Stack.Back (stk f) 1;
  x ← Stack.Back (stk f) 0;
  let addr := self (ctr f) in
  let current := GetState (db (vm f)) addr (u_Bytes32 x) in
  let value := u_Bytes32 y in
  if current =? value then Ok (inl SloadGasEIP2200, f)
  else
    let original := GetCommittedState (db (vm f)) addr (u_Bytes32 x) in
    if original =? current then
      if original =? 0 then Ok (inl SstoreSetGasEIP2200, f)
      else
        let f := if value =? 0 then upd_db (AddRefund SstoreClearsScheduleRefundEIP2200) f
                 else f in
        Ok (inl SstoreResetGasEIP2200, f)
    else
      f ← (if negb (original =? 0) then
             if current =? 0 then
               d ← SubRefund SstoreClearsScheduleRefundEIP2200 (db (vm f));
               Ok (upd_db (fun _ => d) f)
             else if value =? 0
                  then Ok (upd_db (AddRefund SstoreClearsScheduleRefundEIP2200) f)
             else Ok f
           else Ok f);
      let f := if original =? value then
                 if original =? 0
                 then upd_db (AddRefund (SstoreSetGasEIP2200 - SloadGasEIP2200)) f
                 else upd_db (AddRefund (SstoreResetGasEIP2200 - SloadGasEIP2200)) f
               else f in
      Ok (inl SloadGasEIP2200, f).

Definition makeGasLog (n : Z) : gasFunc := fun f memorySize =>
  w ← Stack.Back (stk f) 1;
  match safe_u64 w with
  | inr e => Ok (inr e, f)
  | inl requestedSize =>
    let '(g, f) := frameMemGas f memorySize in
    Ok (and_then g (fun gas =>
        and_then (safe_add gas LogGas) (fun gas =>
        and_then (safe_add gas (mul64 n LogTopicGas)) (fun gas =>
        and_then (safe_mul requestedSize LogDataGas) (fun memorySizeGas =>
        safe_add gas memorySizeGas)))), f)
  end.

(** [gasKeccak256] and [gasCreate2]: memory and a price per hashed word. *)
Definition gasHashWords (stackpos : Z) : gasFunc := fun f memorySize =>
  let '(g, f) := frameMemGas f memorySize in
  match g with
  | inr e => Ok (inr e, f)
  | inl gas =>
    w ← Stack.Back (stk f) stackpos;
    Ok (and_then (safe_u64 w) (fun wordGas =>
        and_then (safe_mul (toWordSize wordGas) Keccak256WordGas) (fun wordGas =>
        safe_add gas wordGas)), f)
  end.

Definition gasKeccak256 := gasHashWords 1.
Definition gasCreate2 := gasHashWords 2.

Definition pureMemoryGascost : gasFunc := fun f memorySize => Ok (frameMemGas f memorySize).
Definition gasReturn := pureMemoryGascost.
Definition gasRevert := pureMemoryGascost.
Definition gasMLoad := pureMemoryGascost.
Definition gasMStore8 := pureMemoryGascost.
Definition gasMStore := pureMemoryGascost.
Definition gasCreate := pureMemoryGascost.

Definition gasExp (expByte : Z) : gasFunc := fun f memorySize =>
  w ← Stack.Back (stk f) 1;
  let expByteLen := u64 ((u_BitLen w + 7) / 8) in
  Ok (safe_add (mul64 expByteLen expByte) ExpGas, f).

Definition gasExpFrontier := gasExp ExpByteFrontier.
Definition gasExpEIP158 := gasExp ExpByteEIP158.

(** The end of the call gas functions: the gas of the callee, kept in
    [callGasTemp], and the total. *)
Definition finishCallGas (f : Frame DB) (gas : Z) : res ((Z + Err) * Frame DB) :=
  c ← Stack.Back (stk f) 0;
  match callGas (IsEIP150 (chainRules env)) (Gas (ctr f)) gas c with
  | inr e => Ok (inr e, set_vm (set_callGasTemp 0 (vm f)) f)
  | inl temp => Ok (safe_add gas temp, set_vm (set_callGasTemp temp (vm f)) f)
  end.

Definition gasCall : gasFunc := fun f memorySize =>
  v ← Stack.Back (stk f) 2;
  a ← Stack.Back (stk f) 1;
  let transfersValue := negb (u_IsZero v) in
  let address := u_Bytes20 a in
  let gas := if negb (Exist (db (vm f)) address) then CallNewAccountGas else 0 in
  let gas := if transfersValue then add64 gas CallValueTransferGas else gas in
  let '(g, f) := frameMemGas f memorySize in
  match and_then g (safe_add gas) with
  | inr e => Ok (inr e, f)
  | inl gas => finishCallGas f gas
  end.

Definition gasCallCode : gasFunc := fun f memorySize =>
  let '(g, f) := frameMemGas f memorySize in
  match g with
  | inr e => Ok (inr e, f)
  | inl memoryGas =>
    v ← Stack.Back (stk f) 2;
    let gas := if negb (u_Sign v =? 0) then CallValueTransferGas else 0 in
    match safe_add gas memoryGas with
    | inr e => Ok (inr e, f)
    | inl gas => finishCallGas f gas
    end
  end.

Definition gasDelegateCall : gasFunc := fun f memorySize =>
  let '(g, f) := frameMemGas f memorySize in
  match g with inr e => Ok (inr e, f) | inl gas => finishCallGas f gas end.

Definition gasStaticCall : gasFunc := fun f memorySize =>
  let '(g, f) := frameMemGas f memorySize in
  match g with inr e => Ok (inr e, f) | inl gas => finishCallGas f gas end.

Definition gasSelfdestruct : gasFunc := fun f memorySize =>
  gas ← (if IsEIP150 (chainRules env) then
           a ← Stack.Back (stk f) 0;
           if negb (Exist (db (vm f)) (u_Bytes20 a))
           then Ok (add64 SelfdestructGasEIP150 CreateBySelfdestructGas)
           else Ok SelfdestructGasEIP150
         else Ok 0);
  let f := if negb (HasSuicided (db (vm f)) (self (ctr f)))
           then upd_db (AddRefund SelfdestructRefundGas) f else f in
  Ok (inl gas, f).

(** ** [evm/operations_acl.go] *)

Definition makeGasSStoreFunc (clearingRefund : Z) : gasFunc := fun f memorySize =>
  if Gas (ctr f) <=? SstoreSentryGasEIP2200 then Ok (inr ErrSentry, f)
  else
  y ← Stack.Back (stk f) 1;
  x ← Stack.peek (stk f);
  let addr := self (ctr f) in
  let slot := u_Bytes32 x in
  let current := GetState (db (vm f)) addr slot in
  '(cost, f) ←
    (let '(addrPresent, slotPresent) := SlotInAccessList (db (vm f)) addr slot in
     if negb slotPresent then
       if negb addrPresent then Panic PanicAccessList
       else Ok (ColdSloadCostEIP2929, upd_db (AddSlotToAccessList addr slot) f)
     else Ok (0, f));
  let value := u_Bytes32 y in
  if current =? value then Ok (inl (add64 cost WarmStorageReadCostEIP2929), f)
  else
    let original := GetCommittedState (db (vm f)) addr (u_Bytes32 x) in
    if original =? current then
      if original =? 0 then Ok (inl (add64 cost SstoreSetGasEIP2200), f)
      else
        let f := if value =? 0 then upd_db (AddRefund clearingRefund) f else f in
        Ok (inl (add64 cost (SstoreResetGasEIP2200 - ColdSloadCostEIP2929)), f)
    else
      f ← (if negb (original =? 0) then
             if current =? 0 then
               d ← SubRefund clearingRefund (db (vm f)); Ok (upd_db (fun _ => d) f)
             else if value =? 0 then Ok (upd_db (AddRefund clearingRefund) f)
             else Ok f
           else Ok f);
      let f := if original =? value then
                 if original =? 0
                 then upd_db (AddRefund (SstoreSetGasEIP2200 - WarmStorageReadCostEIP2929)) f
                 else upd_db (AddRefund ((SstoreResetGasEIP2200 - ColdSloadCostEIP2929)
                                         - WarmStorageReadCostEIP2929)) f
               else f in
      Ok (inl (add64 cost WarmStorageReadCostEIP2929), f).

Definition gasSStoreEIP2929 := makeGasSStoreFunc SstoreClearsScheduleRefundEIP2200.
Definition gasSStoreEIP3529 := makeGasSStoreFunc SstoreClearsScheduleRefundEIP3529.

Definition gasSLoadEIP2929 : gasFunc := fun f memorySize =>
  loc ← Stack.peek (stk f);
  let slot := u_Bytes32 loc in
  let '(_, slotPresent) := SlotInAccessList (db (vm f)) (self (ctr f)) slot in
  if negb slotPresent
  then Ok (inl ColdSloadCostEIP2929, upd_db (AddSlotToAccessList (self (ctr f)) slot) f)
  else Ok (inl WarmStorageReadCostEIP2929, f).

Definition gasExtCodeCopyEIP2929 : gasFunc := fun f memorySize =>
  '(g, f) ← gasExtCodeCopy f memorySize;
  match g with
  | inr e => Ok (inr e, f)
  | inl gas =>
    a ← Stack.peek (stk f);
    let addr := u_Bytes20 a in
    if negb (AddressInAccessList (db (vm f)) addr) then
      let f := upd_db (AddAddressToAccessList addr) f in
      Ok (safe_add gas (ColdAccountAccessCostEIP2929 - WarmStorageReadCostEIP2929), f)
    else Ok (inl gas, f)
  end.

Definition gasEip2929AccountCheck : gasFunc := fun f memorySize =>
  a ← Stack.peek (stk f);
  let addr := u_Bytes20 a in
  if negb (AddressInAccessList (db (vm f)) addr)
  then Ok (inl (ColdAccountAccessCostEIP2929 - WarmStorageReadCostEIP2929),
           upd_db (AddAddressToAccessList addr) f)
  else Ok (inl 0, f).

Definition makeCallVariantGasCallEIP2929 (oldCalculator : gasFunc) : gasFunc :=
  fun f memorySize =>
  a ← Stack.Back (stk f) 1;
  let addr := u_Bytes20 a in
  let warmAccess := AddressInAccessList (db (vm f)) addr in
  let coldCost := ColdAccountAccessCostEIP2929 - WarmStorageReadCostEIP2929 in
  if warmAccess : bool then oldCalculator f memorySize
  else
    let f := upd_db (AddAddressToAccessList addr) f in
    match UseGas (ctr f) coldCost with
    | None => Ok (inr ErrOutOfGas, f)
    | Some c =>
      '(g, f) ← oldCalculator (set_ctr c f) memorySize;
      match g with
      | inr e => Ok (inr e, f)
      | inl gas =>
        Ok (inl (add64 gas coldCost),
            set_ctr (with_gas (ctr f) (add64 (Gas (ctr f)) coldCost)) f)
      end
    end.

Definition gasCallEIP2929 := makeCallVariantGasCallEIP2929 gasCall.
Definition gasDelegateCallEIP2929 := makeCallVariantGasCallEIP2929 gasDelegateCall.
Definition gasStaticCallEIP2929 := makeCallVariantGasCallEIP2929 gasStaticCall.
Definition gasCallCodeEIP2929 := makeCallVariantGasCallEIP2929 gasCallCode.

Definition makeSelfdestructGasFn (refundsEnabled : bool) : gasFunc := fun f memorySize =>
  a ← Stack.peek (stk f);
  let address := u_Bytes20 a in
  let '(gas, f) :=
    if negb (AddressInAccessList (db (vm f)) address)
    then (ColdAccountAccessCostEIP2929, upd_db (AddAddressToAccessList address) f)
    else (0, f) in
  let gas := if Empty (db (vm f)) address &&
                negb (GetBalance (db (vm f)) (self (ctr f)) =? 0)
             then add64 gas CreateBySelfdestructGas else gas in
  let f := if refundsEnabled && negb (HasSuicided (db (vm f)) (self (ctr f)))
           then upd_db (AddRefund SelfdestructRefundGas) f else f in
  Ok (inl gas, f).

Definition gasSelfdestructEIP2929 := makeSelfdestructGasFn true.
Definition gasSelfdestructEIP3529 := makeSelfdestructGasFn false.
End gas.
