(* ===== verification/EvmCalls.v ===== *)
(** * Calls and contract creation

    [evm/contracts.go]: the precompiled contracts the machine can reach;
    [evm/evm.go]: [Call], [CallCode], [DelegateCall], [StaticCall], [create].
    [EVMInterpreter.Run] is a parameter here: [EvmInterpreter] ties the knot. *)

From S2P Require Import Prelude Uint256 Config Common EvmStack EvmState.

Local Open Scope Z_scope.

(** ** [evm/contracts.go] *)

Record PrecompiledContract := {
  RequiredGas : bytes -> Z;
  PRun : bytes -> res (bytes * option Err);
}.

Section precompiles.
Context `{Crypto}.

Definition secp256k1N : Z :=
  115792089237316195423570985008687907852837564279074904382605163141518161494337.

(** [crypto.ValidateSignatureValues]. *)
Definition ValidateSignatureValues (v r s : Z) (homestead : bool) : bool :=
  if (r <? 1) || (s <? 1) then false
  else if homestead && (s >? secp256k1N / 2) then false
  else (r <? secp256k1N) && (s <? secp256k1N) && ((v =? 0) || (v =? 1)).

Definition ecrecover_Run (input : bytes) : res (bytes * option Err) :=
  input ← RightPadBytes input 128;
  rb ← slice input 64 96;
  sb ← slice input 96 128;
  v0 ← nth_or_panic input 63;
  let v := u8 (v0 - 27) in
  z ← slice input 32 63;
  if negb (allZero z) || negb (ValidateSignatureValues v (be_value rb) (be_value sb) false)
  then Ok ([], None)
  else
    rs ← slice input 64 128;
    let sig := rs ++ [v] in
    h ← slice input 0 32;
    match Ecrecover h sig with
    | None => Ok ([], None)
    | Some pubKey =>
      p ← slice pubKey 1 (zlen pubKey);
      r ← LeftPadBytes (be_bytes 20 (keccak256 p)) 32;
      Ok (r, None)
    end.

(** [uint64(len(input)+31)/32*PerWordGas + BaseGas]. *)
Definition wordsGas (perWord base : Z) (input : bytes) : Z :=
  add64 (mul64 (u64 (zlen input + 31) / 32) perWord) base.

Definition ecrecover : PrecompiledContract :=
  {| RequiredGas := fun _ => EcrecoverGas; PRun := ecrecover_Run |}.
Definition sha256hash : PrecompiledContract :=
  {| RequiredGas := wordsGas Sha256PerWordGas Sha256BaseGas;
     PRun := fun input => Ok (sha256Sum input, None) |}.
Definition ripemd160hash : PrecompiledContract :=
  {| RequiredGas := wordsGas Ripemd160PerWordGas Ripemd160BaseGas;
     PRun := fun input => r ← LeftPadBytes (ripemd160Sum input) 32; Ok (r, None) |}.
Definition dataCopy : PrecompiledContract :=
  {| RequiredGas := wordsGas IdentityPerWordGas IdentityBaseGas;
     PRun := fun input => Ok (input, None) |}.

(** [EVM.precompile]: both branches of its switch select
    [PrecompiledContractsHomestead]. *)
Definition precompile (addr : Address) : option PrecompiledContract :=
  match addr with
  | 1 => Some ecrecover
  | 2 => Some sha256hash
  | 3 => Some ripemd160hash
  | 4 => Some dataCopy
  | _ => None
  end.

Definition RunPrecompiledContract (p : PrecompiledContract) (input : bytes) (suppliedGas : Z)
    : res (bytes * Z * option Err) :=
  let gasCost := RequiredGas p input in
  if suppliedGas <? gasCost then Ok ([], 0, Some ErrOutOfGas)
  else
    let suppliedGas := sub64 suppliedGas gasCost in
    '(output, err) ← PRun p input;
    Ok (output, suppliedGas, err).
End precompiles.

(** ** [evm/evm.go] *)

Section calls.
Context `{C : Crypto} {DB : Type} `{SDB : StateDB DB}.
Context (env : Env).
Context (run : Contract -> bytes -> bool -> EVM DB -> res (bytes * option Err * Contract * EVM DB)).

(** The map [NewContract] gives the callee: the caller's when the caller is a
    contract, a new one otherwise. *)
Definition inherit_jumpdests (c : ContractRef) (e : EVM DB) : EVM DB :=
  match c with ContractCaller _ _ _ => e | AccountRef _ => set_jumpdests ∅ e end.

(** The common end of the call functions: on an error the state goes back to
    the snapshot and, except for REVERT, the gas is consumed. *)
Definition settle (snapshot : Z) (ret : bytes) (gas : Z) (err : option Err) (e : EVM DB)
    : res (bytes * Z * option Err * EVM DB) :=
  match err with
  | None => Ok (ret, gas, None, e)
  | Some er =>
    d ← RevertToSnapshot snapshot (db e);
    let gas := if decide (er = ErrExecutionReverted) then gas else 0 in
    Ok (ret, gas, Some er, set_db d e)
  end.

Definition Call (c : ContractRef) (addr : Address) (input : bytes) (gas value : Z)
    (e : EVM DB) : res (bytes * Z * option Err * EVM DB) :=
  if depth e >? CallCreateDepth then Ok ([], gas, Some ErrDepth, e)
  else if negb (value =? 0) && negb (CanTransfer (db e) (ref_address c) value)
  then Ok ([], gas, Some ErrInsufficientBalance, e)
  else
    let '(snapshot, d) := Snapshot (db e) in
    let e := set_db d e in
    let p := precompile addr in
    if negb (Exist (db e) addr) && (match p with None => true | _ => false end) && (value =? 0)
    then Ok ([], gas, None, e)
    else
      let e := if negb (Exist (db e) addr) then set_db (CreateAccount addr (db e)) e else e in
      let e := set_db (Transfer (ref_address c) addr value (db e)) e in
      '(ret, gas, err, e) ←
        match p with
        | Some p =>
          '(ret, gas, err) ← RunPrecompiledContract p input gas; Ok (ret, gas, err, e)
        | None =>
          let code := GetCode (db e) addr in
          if zlen code =? 0 then Ok ([], gas, None, e)
          else
            let contract := SetCallCode addr (GetCodeHash (db e) addr) code
                              (NewContract c addr value gas) in
            '(ret, err, contract, e) ← run contract input false (inherit_jumpdests c e);
            Ok (ret, Gas contract, err, e)
        end;
      settle snapshot ret gas err e.

Definition CallCode (c : ContractRef) (addr : Address) (input : bytes) (gas value : Z)
    (e : EVM DB) : res (bytes * Z * option Err * EVM DB) :=
  if depth e >? CallCreateDepth then Ok ([], gas, Some ErrDepth, e)
  else if negb (CanTransfer (db e) (ref_address c) value)
  then Ok ([], gas, Some ErrInsufficientBalance, e)
  else
    let '(snapshot, d) := Snapshot (db e) in
    let e := set_db d e in
    '(ret, gas, err, e) ←
      match precompile addr with
      | Some p =>
        '(ret, gas, err) ← RunPrecompiledContract p input gas; Ok (ret, gas, err, e)
      | None =>
        let contract := SetCallCode addr (GetCodeHash (db e) addr) (GetCode (db e) addr)
                          (NewContract c (ref_address c) value gas) in
        '(ret, err, contract, e) ← run contract input false (inherit_jumpdests c e);
        Ok (ret, Gas contract, err, e)
      end;
    settle snapshot ret gas err e.

(** The [nil] value of the new contract is replaced by [AsDelegate]. *)
Definition DelegateCall (c : ContractRef) (addr : Address) (input : bytes) (gas : Z)
    (e : EVM DB) : res (bytes * Z * option Err * EVM DB) :=
  if depth e >? CallCreateDepth then Ok ([], gas, Some ErrDepth, e)
  else
    let '(snapshot, d) := Snapshot (db e) in
    let e := set_db d e in
    '(ret, gas, err, e) ←
      match precompile addr with
      | Some p =>
        '(ret, gas, err) ← RunPrecompiledContract p input gas; Ok (ret, gas, err, e)
      | None =>
        contract ← AsDelegate (NewContract c (ref_address c) 0 gas);
        let contract := SetCallCode addr (GetCodeHash (db e) addr) (GetCode (db e) addr)
                          contract in
        '(ret, err, contract, e) ← run contract input false (inherit_jumpdests c e);
        Ok (ret, Gas contract, err, e)
      end;
    settle snapshot ret gas err e.

Definition StaticCall (c : ContractRef) (addr : Address) (input : bytes) (gas : Z)
    (e : EVM DB) : res (bytes * Z * option Err * EVM DB) :=
  if depth e >? CallCreateDepth then Ok ([], gas, Some ErrDepth, e)
  else
    let '(snapshot, d) := Snapshot (db e) in
    let e := set_db d e in
    let e := set_db (AddBalance addr 0 (db e)) e in
    '(ret, gas, err, e) ←
      match precompile addr with
      | Some p =>
        '(ret, gas, err) ← RunPrecompiledContract p input gas; Ok (ret, gas, err, e)
      | None =>
        let contract := SetCallCode addr (GetCodeHash (db e) addr) (GetCode (db e) addr)
                          (NewContract c addr 0 gas) in
        '(ret, err, contract, e) ← run contract input true (inherit_jumpdests c e);
        Ok (ret, Gas contract, err, e)
      end;
    settle snapshot ret gas err e.

(** The checks on the code a constructor returned, and its deposit. *)
Definition deposit_check (ret : bytes) (err : option Err) : option Err :=
  let err := match err with
             | None => if zlen ret >? MaxCodeSize then Some ErrMaxCodeSizeExceeded else None
             | _ => err
             end in
  match err, ret with
  | None, b :: _ => if (b =? 239) && IsLondon (chainRules env) then Some ErrInvalidCode else None
  | _, _ => err
  end.

(** [create]: [codeHash] is the hash field of the [codeAndHash] argument. *)
Definition create (c : ContractRef) (code : bytes) (codeHash : Hash) (gas value : Z)
    (address : Address) (e : EVM DB) : res (bytes * Address * Z * option Err * EVM DB) :=
  if depth e >? CallCreateDepth then Ok ([], 0, gas, Some ErrDepth, e)
  else if negb (CanTransfer (db e) (ref_address c) value)
  then Ok ([], 0, gas, Some ErrInsufficientBalance, e)
  else
    let nonce := GetNonce (db e) (ref_address c) in
    if add64 nonce 1 <? nonce then Ok ([], 0, gas, Some ErrNonceUintOverflow, e)
    else
      let e := set_db (SetNonce (ref_address c) (add64 nonce 1) (db e)) e in
      let contractHash := GetCodeHash (db e) address in
      if negb (GetNonce (db e) address =? 0) ||
         (negb (contractHash =? 0) && negb (contractHash =? emptyCodeHash))
      then Ok ([], 0, 0, Some ErrContractAddressCollision, e)
      else
        let '(snapshot, d) := Snapshot (db e) in
        let e := set_db (CreateAccount address d) e in
        let e := set_db (Transfer (ref_address c) address value (db e)) e in
        let contract := SetCodeOptionalHash address codeHash code
                          (NewContract c address value gas) in
        '(ret, err, contract, e) ← run contract [] false (inherit_jumpdests c e);
        let err := deposit_check ret err in
        let '(err, contract, e) :=
          match err with
          | None =>
            let createDataGas := mul64 (u64 (zlen ret)) CreateDataGas in
            match UseGas contract createDataGas with
            | Some contract => (None, contract, set_db (SetCode address ret (db e)) e)
            | None => (Some ErrCodeStoreOutOfGas, contract, e)
            end
          | _ => (err, contract, e)
          end in
        match err with
        | Some er =>
          if IsHomestead (chainRules env) || negb (bool_decide (er = ErrCodeStoreOutOfGas)) then
            d ← RevertToSnapshot snapshot (db e);
            let contract := if decide (er = ErrExecutionReverted) then contract
                            else default contract (UseGas contract (Gas contract)) in
            Ok (ret, address, Gas contract, Some er, set_db d e)
          else Ok (ret, address, Gas contract, Some er, e)
        | None => Ok (ret, address, Gas contract, None, e)
        end.

Definition Create (c : ContractRef) (code : bytes) (gas value : Z) (e : EVM DB)
    : res (bytes * Address * Z * option Err * EVM DB) :=
  contractAddr ← CreateAddress (ref_address c) (GetNonce (db e) (ref_address c));
  create c code 0 gas value contractAddr e.

(** [codeAndHash.Hash()] stores the hash it computes, so [create] sees it. *)
Definition Create2 (c : ContractRef) (code : bytes) (gas endowment salt : Z) (e : EVM DB)
    : res (bytes * Address * Z * option Err * EVM DB) :=
  let hash := keccak256 code in
  create c code hash gas endowment (CreateAddress2 (ref_address c) salt hash) e.
End calls.
