(* ===== verification/EvmInstructions.v ===== *)
(** * Instructions ([evm/instructions.go], [evm/eips.go])

    One definition per instruction function.  An instruction takes the frame
    and returns the frame it leaves with the pair Go's function returns: the
    result bytes and the error.  Words reached through [peek] are updated in
    place on the stack. *)

From S2P Require Import Prelude Uint256 Config Common EvmStack EvmMemory EvmState EvmGas EvmCalls.

Local Open Scope Z_scope.

Section instructions.
Context `{U : Uint256} `{C : Crypto} {DB : Type} `{SDB : StateDB DB}.
Context (env : Env).
Context (run : Contract -> bytes -> bool -> EVM DB -> res (bytes * option Err * Contract * EVM DB)).

Abbreviation executionFunc := (Frame DB -> res (Frame DB * (bytes * option Err))).

(** [return nil, nil] and [return nil, err]. *)
Definition continue (f : Frame DB) : res (Frame DB * (bytes * option Err)) := Ok (f, ([], None)).
Definition fail (e : Err) (f : Frame DB) : res (Frame DB * (bytes * option Err)) :=
  Ok (f, ([], Some e)).

(** [x := stack.pop()] *)
Definition popF {A} (f : Frame DB) (k : Z -> Frame DB -> res A) : res A :=
  '(x, s) ← Stack.pop (stk f); k x (set_stk s f).
(** [*stack.peek() = v] *)
Definition setTopF (v : Z) (f : Frame DB) : res (Frame DB * (bytes * option Err)) :=
  s ← Stack.set_top v (stk f); continue (set_stk s f).
(** [stack.push(v)] *)
Definition pushF (v : Z) (f : Frame DB) : res (Frame DB * (bytes * option Err)) :=
  continue (set_stk (Stack.push v (stk f)) f).

(** [x := pop(); y := peek(); y.op(&x, y)] and the one-operand form. *)
Definition binop (op : Z -> Z -> Z) : executionFunc := fun f =>
  popF f (fun x f => y ← Stack.peek (stk f); setTopF (op x y) f).
Definition unop (op : Z -> Z) : executionFunc := fun f =>
  x ← Stack.peek (stk f); setTopF (op x) f.
Definition of_bool (b : bool) : Z := if b then 1 else 0.

Definition addr_word (a : Address) : Z := u_SetBytes (be_bytes 20 a).
Definition hash_word (h : Hash) : Z := u_SetBytes (be_bytes 32 h).
Definition big_word (x : Z) : Z := fst (u_FromBig x).

(** ** Arithmetic, comparison and bit operations *)

Definition opAdd := binop (fun x y => u_Add x y).
Definition opSub := binop (fun x y => u_Sub x y).
Definition opMul := binop (fun x y => u_Mul x y).
Definition opDiv := binop (fun x y => u_Div x y).
Definition opSdiv := binop (fun x y => u_SDiv x y).
Definition opMod := binop (fun x y => u_Mod x y).
Definition opSmod := binop (fun x y => u_SMod x y).
Definition opExp := binop (fun base exponent => u_Exp base exponent).
Definition opSignExtend := binop (fun back num => u_ExtendSign num back).
Definition opNot := unop u_Not.
Definition opLt := binop (fun x y => of_bool (u_Lt x y)).
Definition opGt := binop (fun x y => of_bool (u_Gt x y)).
Definition opSlt := binop (fun x y => of_bool (u_Slt x y)).
Definition opSgt := binop (fun x y => of_bool (u_Sgt x y)).
Definition opEq := binop (fun x y => of_bool (u_Eq x y)).
Definition opIszero := unop (fun x => of_bool (u_IsZero x)).
Definition opAnd := binop (fun x y => u_And x y).
Definition opOr := binop (fun x y => u_Or x y).
Definition opXor := binop (fun x y => u_Xor x y).
Definition opByte := binop (fun th val => u_Byte val th).

Definition opAddmod : executionFunc := fun f =>
  popF f (fun x f => popF f (fun y f =>
  z ← Stack.peek (stk f);
  setTopF (if u_IsZero z then 0 else u_AddMod x y z) f)).

Definition opMulmod : executionFunc := fun f =>
  popF f (fun x f => popF f (fun y f =>
  z ← Stack.peek (stk f); setTopF (u_MulMod x y z) f)).

Definition opSHL := binop (fun shift value =>
  if u_LtUint64 shift 256 then u_Lsh value (u_Uint64 shift) else 0).
Definition opSHR := binop (fun shift value =>
  if u_LtUint64 shift 256 then u_Rsh value (u_Uint64 shift) else 0).
Definition opSAR := binop (fun shift value =>
  if u_GtUint64 shift 256
  then (if u_Sign value >=? 0 then 0 else AllOne)
  else u_SRsh value (u_Uint64 shift)).

Definition opKeccak256 : executionFunc := fun f =>
  popF f (fun offset f =>
  size ← Stack.peek (stk f);
  data ← Memory.GetPtr (mem f) (i64 (u_Uint64 offset)) (i64 (u_Uint64 size));
  let h := keccak256 data in
  let f := if EnablePreimageRecording env then upd_db (AddPreimage h data) f else f in
  setTopF (hash_word h) f).

(** ** Environment *)

Definition opAddress : executionFunc := fun f => pushF (addr_word (self (ctr f))) f.

Definition opBalance : executionFunc := fun f =>
  slot ← Stack.peek (stk f);
  setTopF (big_word (GetBalance (db (vm f)) (u_Bytes20 slot))) f.

Definition opOrigin : executionFunc := fun f => pushF (addr_word (Origin env)) f.
Definition opCaller : executionFunc := fun f => pushF (addr_word (CallerAddress (ctr f))) f.
Definition opCallValue : executionFunc := fun f => pushF (big_word (value (ctr f))) f.

Definition opCallDataLoad : executionFunc := fun f =>
  x ← Stack.peek (stk f);
  let '(offset, overflow) := u_Uint64WithOverflow x in
  if negb overflow then
    data ← getData (Input (ctr f)) offset 32; setTopF (u_SetBytes data) f
  else setTopF 0 f.

Definition opCallDataSize : executionFunc := fun f => pushF (u64 (zlen (Input (ctr f)))) f.

(** [Uint64WithOverflow], clamped to the maximum. *)
Definition clamp64 (x : Z) : Z :=
  let '(v, overflow) := u_Uint64WithOverflow x in
  if overflow : bool then MaxUint64 else v.

Definition opCallDataCopy : executionFunc := fun f =>
  popF f (fun memOffset f => popF f (fun dataOffset f => popF f (fun length f =>
  let length64 := u_Uint64 length in
  data ← getData (Input (ctr f)) (clamp64 dataOffset) length64;
  m ← Memory.set (u_Uint64 memOffset) length64 data (mem f);
  continue (set_mem m f)))).

Definition opReturnDataSize : executionFunc := fun f =>
  pushF (u64 (zlen (returnData (vm f)))) f.

Definition opReturnDataCopy : executionFunc := fun f =>
  popF f (fun memOffset f => popF f (fun dataOffset f => popF f (fun length f =>
  let '(offset64, overflow) := u_Uint64WithOverflow dataOffset in
  if overflow : bool then fail ErrReturnDataOutOfBounds f
  else
    let e := u_Add dataOffset length in
    let '(end64, overflow) := u_Uint64WithOverflow e in
    if overflow || (u64 (zlen (returnData (vm f))) <? end64)
    then fail ErrReturnDataOutOfBounds f
    else
      d ← slice (returnData (vm f)) offset64 end64;
      m ← Memory.set (u_Uint64 memOffset) (u_Uint64 length) d (mem f);
      continue (set_mem m f)))).

Definition opExtCodeSize : executionFunc := fun f =>
  slot ← Stack.peek (stk f);
  setTopF (u64 (GetCodeSize (db (vm f)) (u_Bytes20 slot))) f.

Definition opCodeSize : executionFunc := fun f => pushF (u64 (zlen (Code (ctr f)))) f.

Definition opCodeCopy : executionFunc := fun f =>
  popF f (fun memOffset f => popF f (fun codeOffset f => popF f (fun length f =>
  codeCopy ← getData (Code (ctr f)) (clamp64 codeOffset) (u_Uint64 length);
  m ← Memory.set (u_Uint64 memOffset) (u_Uint64 length) codeCopy (mem f);
  continue (set_mem m f)))).

Definition opExtCodeCopy : executionFunc := fun f =>
  popF f (fun a f => popF f (fun memOffset f => popF f (fun codeOffset f =>
  popF f (fun length f =>
  codeCopy ← getData (GetCode (db (vm f)) (u_Bytes20 a)) (clamp64 codeOffset) (u_Uint64 length);
  m ← Memory.set (u_Uint64 memOffset) (u_Uint64 length) codeCopy (mem f);
  continue (set_mem m f))))).

Definition opExtCodeHash : executionFunc := fun f =>
  slot ← Stack.peek (stk f);
  let address := u_Bytes20 slot in
  if Empty (db (vm f)) address then setTopF 0 f
  else setTopF (hash_word (GetCodeHash (db (vm f)) address)) f.

Definition opGasprice : executionFunc := fun f => pushF (big_word (GasPrice env)) f.

Definition opBlockhash : executionFunc := fun f =>
  num ← Stack.peek (stk f);
  let '(num64, overflow) := u_Uint64WithOverflow num in
  if overflow : bool then setTopF 0 f
  else
    let upper := u64 (BlockNumber env) in
    let lower := if upper <? 257 then 0 else sub64 upper 256 in
    if (lower <=? num64) && (num64 <? upper)
    then setTopF (hash_word (eGetHash env num64)) f
    else setTopF 0 f.

Definition opCoinbase : executionFunc := fun f => pushF (addr_word (Coinbase env)) f.
Definition opTimestamp : executionFunc := fun f => pushF (big_word (Time env)) f.
Definition opNumber : executionFunc := fun f => pushF (big_word (BlockNumber env)) f.
Definition opDifficulty : executionFunc := fun f => pushF (big_word (Difficulty env)) f.
Definition opRandom : executionFunc := fun f =>
  match Random env with Some h => pushF (hash_word h) f | None => Panic PanicNil end.
Definition opGasLimit : executionFunc := fun f => pushF (GasLimit env) f.

(** ** Stack, memory, storage and flow *)

Definition opPop : executionFunc := fun f => popF f (fun _ f => continue f).

Definition opMload : executionFunc := fun f =>
  v ← Stack.peek (stk f);
  data ← Memory.GetPtr (mem f) (i64 (u_Uint64 v)) 32;
  setTopF (u_SetBytes data) f.

Definition opMstore : executionFunc := fun f =>
  popF f (fun mStart f => popF f (fun val f =>
  m ← Memory.set32 (u_Uint64 mStart) val (mem f); continue (set_mem m f))).

Definition opMstore8 : executionFunc := fun f =>
  popF f (fun off f => popF f (fun val f =>
  m ← Memory.set_byte (u_Uint64 off) (u8 (u_Uint64 val)) (mem f); continue (set_mem m f))).

Definition opSload : executionFunc := fun f =>
  loc ← Stack.peek (stk f);
  setTopF (hash_word (GetState (db (vm f)) (self (ctr f)) (u_Bytes32 loc))) f.

Definition opSstore : executionFunc := fun f =>
  if readOnly (vm f) then fail ErrWriteProtection f
  else
    popF f (fun loc f => popF f (fun val f =>
    continue (upd_db (SetState (self (ctr f)) (u_Bytes32 loc) (u_Bytes32 val)) f))).

(** The destination check of the jumps, and [*pc = pos.Uint64() - 1]. *)
Definition jump_to (pos : Z) : executionFunc := fun f =>
  '(ok, c, e) ← validJumpdest (ctr f) pos (vm f);
  let f := set_vm e (set_ctr c f) in
  if negb ok then fail ErrInvalidJump f
  else continue (set_pc (sub64 (u_Uint64 pos) 1) f).

Definition opJump : executionFunc := fun f =>
  if abort (vm f) then fail errStopToken f
  else popF f (fun pos f => jump_to pos f).

Definition opJumpi : executionFunc := fun f =>
  if abort (vm f) then fail errStopToken f
  else popF f (fun pos f => popF f (fun cond f =>
       if negb (u_IsZero cond) then jump_to pos f else continue f)).

Definition opJumpdest : executionFunc := fun f => continue f.
Definition opPc : executionFunc := fun f => pushF (pc f) f.
Definition opMsize : executionFunc := fun f => pushF (u64 (Memory.Len (mem f))) f.
Definition opGas : executionFunc := fun f => pushF (Gas (ctr f)) f.

Definition opPush1 : executionFunc := fun f =>
  let codeLen := u64 (zlen (Code (ctr f))) in
  let p := add64 (pc f) 1 in
  let f := set_pc p f in
  if p <? codeLen then b ← nth_or_panic (Code (ctr f)) p; pushF b f
  else pushF 0 f.

Definition makePush (size pushByteSize : Z) : executionFunc := fun f =>
  let codeLen := zlen (Code (ctr f)) in
  let next := i64 (add64 (pc f) 1) in
  let startMin := if next <? codeLen then next else codeLen in
  let endMin := if startMin + pushByteSize <? codeLen then startMin + pushByteSize
                else codeLen in
  d ← slice (Code (ctr f)) startMin endMin;
  d ← RightPadBytes d pushByteSize;
  let f := set_stk (Stack.push (u_SetBytes d) (stk f)) f in
  continue (set_pc (add64 (pc f) size) f).

Definition makeDup (size : Z) : executionFunc := fun f =>
  s ← Stack.dup size (stk f); continue (set_stk s f).

(** [size++] before the closure is built. *)
Definition makeSwap (size : Z) : executionFunc := fun f =>
  s ← Stack.swap (size + 1) (stk f); continue (set_stk s f).

Fixpoint popTopics (n : nat) (f : Frame DB) : res (list Hash * Frame DB) :=
  match n with
  | O => Ok ([], f)
  | S k => popF f (fun a f => '(l, f) ← popTopics k f; Ok (u_Bytes32 a :: l, f))
  end.

Definition makeLog (size : Z) : executionFunc := fun f =>
  if readOnly (vm f) then fail ErrWriteProtection f
  else
    popF f (fun mStart f => popF f (fun mSize f =>
    '(topics, f) ← popTopics (Z.to_nat size) f;
    d ← Memory.GetCopy (mem f) (i64 (u_Uint64 mStart)) (i64 (u_Uint64 mSize));
    let l := {| lAddress := self (ctr f); lTopics := topics; lData := d;
                lBlockNumber := u64 (BlockNumber env) |} in
    continue (upd_db (AddLog l) f))).

(** ** Returning *)

Definition opReturn : executionFunc := fun f =>
  popF f (fun offset f => popF f (fun size f =>
  ret ← Memory.GetPtr (mem f) (i64 (u_Uint64 offset)) (i64 (u_Uint64 size));
  Ok (f, (ret, Some errStopToken)))).

Definition opRevert : executionFunc := fun f =>
  popF f (fun offset f => popF f (fun size f =>
  ret ← Memory.GetPtr (mem f) (i64 (u_Uint64 offset)) (i64 (u_Uint64 size));
  Ok (set_vm (set_returnData ret (vm f)) f, (ret, Some ErrExecutionReverted)))).

Definition opUndefined : executionFunc := fun f =>
  op ← nth_or_panic (Code (ctr f)) (pc f);
  fail (ErrInvalidOpCode op) f.

Definition opStop : executionFunc := fun f => fail errStopToken f.

Definition opSelfdestruct : executionFunc := fun f =>
  if readOnly (vm f) then fail ErrWriteProtection f
  else
    popF f (fun beneficiary f =>
    let balance := GetBalance (db (vm f)) (self (ctr f)) in
    let f := upd_db (AddBalance (u_Bytes20 beneficiary) balance) f in
    let f := upd_db (fun d => snd (Suicide (self (ctr f)) d)) f in
    fail errStopToken f).

(** ** Calls and creation *)

(** Gas taken from the contract before a creation: [UseGas] of the whole. *)
Definition take_gas (gas : Z) (f : Frame DB) : Frame DB :=
  match UseGas (ctr f) gas with Some c => set_ctr c f | None => f end.

Definition add_gas (gas : Z) (f : Frame DB) : Frame DB :=
  set_ctr (with_gas (ctr f) (add64 (Gas (ctr f)) gas)) f.

(** The end of the creation instructions. *)
Definition finishCreate (stackvalue : Z) (res_ : bytes) (returnGas : Z) (suberr : option Err)
    (f : Frame DB) : res (Frame DB * (bytes * option Err)) :=
  let f := set_stk (Stack.push stackvalue (stk f)) f in
  let f := add_gas returnGas f in
  if bool_decide (suberr = Some ErrExecutionReverted)
  then Ok (set_vm (set_returnData res_ (vm f)) f, (res_, None))
  else Ok (set_vm (set_returnData [] (vm f)) f, ([], None)).

Definition opCreate : executionFunc := fun f =>
  if readOnly (vm f) then fail ErrWriteProtection f
  else
    popF f (fun value f => popF f (fun offset f => popF f (fun size f =>
    input ← Memory.GetCopy (mem f) (i64 (u_Uint64 offset)) (i64 (u_Uint64 size));
    let gas := Gas (ctr f) in
    let gas := if IsEIP150 (chainRules env) then sub64 gas (gas / 64) else gas in
    let f := take_gas gas f in
    '(r, addr, returnGas, suberr, e) ← Create env run (as_caller (ctr f)) input gas value (vm f);
    let f := set_vm e f in
    let stackvalue :=
      if IsHomestead (chainRules env) && bool_decide (suberr = Some ErrCodeStoreOutOfGas) then 0
      else if negb (bool_decide (suberr = None)) &&
              negb (bool_decide (suberr = Some ErrCodeStoreOutOfGas)) then 0
      else addr_word addr in
    finishCreate stackvalue r returnGas suberr f))).

Definition opCreate2 : executionFunc := fun f =>
  if readOnly (vm f) then fail ErrWriteProtection f
  else
    popF f (fun endowment f => popF f (fun offset f => popF f (fun size f =>
    popF f (fun salt f =>
    input ← Memory.GetCopy (mem f) (i64 (u_Uint64 offset)) (i64 (u_Uint64 size));
    let gas := Gas (ctr f) in
    let gas := sub64 gas (gas / 64) in
    let f := take_gas gas f in
    '(r, addr, returnGas, suberr, e) ←
      Create2 env run (as_caller (ctr f)) input gas endowment (u_Bytes32 salt) (vm f);
    let f := set_vm e f in
    let stackvalue := if negb (bool_decide (suberr = None)) then 0 else addr_word addr in
    finishCreate stackvalue r returnGas suberr f)))).

(** The end of the call instructions: success flag, return data, gas. *)
Definition finishCall (retOffset retSize : Z) (ret : bytes) (returnGas : Z) (err : option Err)
    (f : Frame DB) : res (Frame DB * (bytes * option Err)) :=
  let temp := if bool_decide (err = None) then 1 else 0 in
  let f := set_stk (Stack.push temp (stk f)) f in
  '(ret, f) ←
    (if bool_decide (err = None) || bool_decide (err = Some ErrExecutionReverted) then
       let ret := CopyBytes ret in
       m ← Memory.set (u_Uint64 retOffset) (u_Uint64 retSize) ret (mem f);
       Ok (ret, set_mem m f)
     else Ok (ret, f));
  let f := add_gas returnGas f in
  Ok (set_vm (set_returnData ret (vm f)) f, (ret, None)).

Definition opCall : executionFunc := fun f =>
  popF f (fun _ f =>
  let gas := callGasTemp (vm f) in
  popF f (fun addr f => popF f (fun value f => popF f (fun inOffset f =>
  popF f (fun inSize f => popF f (fun retOffset f => popF f (fun retSize f =>
  let toAddr := u_Bytes20 addr in
  args ← Memory.GetPtr (mem f) (i64 (u_Uint64 inOffset)) (i64 (u_Uint64 inSize));
  if readOnly (vm f) && negb (u_IsZero value) then fail ErrWriteProtection f
  else
    let '(gas, bigVal) :=
      if negb (u_IsZero value) then (add64 gas CallStipend, value) else (gas, 0) in
    '(ret, returnGas, err, e) ←
      Call run (as_caller (ctr f)) toAddr args gas bigVal (vm f);
    finishCall retOffset retSize ret returnGas err (set_vm e f)))))))).

Definition opCallCode : executionFunc := fun f =>
  popF f (fun _ f =>
  let gas := callGasTemp (vm f) in
  popF f (fun addr f => popF f (fun value f => popF f (fun inOffset f =>
  popF f (fun inSize f => popF f (fun retOffset f => popF f (fun retSize f =>
  let toAddr := u_Bytes20 addr in
  args ← Memory.GetPtr (mem f) (i64 (u_Uint64 inOffset)) (i64 (u_Uint64 inSize));
  let '(gas, bigVal) :=
    if negb (u_IsZero value) then (add64 gas CallStipend, value) else (gas, 0) in
  '(ret, returnGas, err, e) ←
    CallCode run (as_caller (ctr f)) toAddr args gas bigVal (vm f);
  finishCall retOffset retSize ret returnGas err (set_vm e f)))))))).

Definition opDelegateCall : executionFunc := fun f =>
  popF f (fun _ f =>
  let gas := callGasTemp (vm f) in
  popF f (fun addr f => popF f (fun inOffset f =>
  popF f (fun inSize f => popF f (fun retOffset f => popF f (fun retSize f =>
  let toAddr := u_Bytes20 addr in
  args ← Memory.GetPtr (mem f) (i64 (u_Uint64 inOffset)) (i64 (u_Uint64 inSize));
  '(ret, returnGas, err, e) ←
    DelegateCall run (as_caller (ctr f)) toAddr args gas (vm f);
  finishCall retOffset retSize ret returnGas err (set_vm e f))))))).

Definition opStaticCall : executionFunc := fun f =>
  popF f (fun _ f =>
  let gas := callGasTemp (vm f) in
  popF f (fun addr f => popF f (fun inOffset f =>
  popF f (fun inSize f => popF f (fun retOffset f => popF f (fun retSize f =>
  let toAddr := u_Bytes20 addr in
  args ← Memory.GetPtr (mem f) (i64 (u_Uint64 inOffset)) (i64 (u_Uint64 inSize));
  '(ret, returnGas, err, e) ←
    StaticCall run (as_caller (ctr f)) toAddr args gas (vm f);
  finishCall retOffset retSize ret returnGas err (set_vm e f))))))).

(** ** [evm/eips.go]: instructions of later proposals *)

Definition opSelfBalance : executionFunc := fun f =>
  pushF (big_word (GetBalance (db (vm f)) (self (ctr f)))) f.
Definition opChainID : executionFunc := fun f =>
  match ChainID (chainConfig env) with
  | Some c => pushF (big_word c) f
  | None => Panic PanicNil
  end.
Definition opBaseFee : executionFunc := fun f =>
  match BaseFee env with Some b => pushF (big_word b) f | None => Panic PanicNil end.
Definition opPush0 : executionFunc := fun f => pushF 0 f.
End instructions.
