(* ===== verification/EvmOpcodes.v ===== *)
(** * Opcodes ([evm/opcodes.go])

    The opcode constants, the predicate [IsPush], and the two maps between
    opcodes and their names, as association lists in the order of the source.
    The names and the opcodes determine each other. *)

From S2P Require Import Prelude.
From stdpp Require Import strings.

Local Open Scope Z_scope.

Abbreviation OpCode := Z (only parsing).

(** ** The constants *)

Definition STOP : OpCode := 0.
Definition ADD : OpCode := 1.
Definition MUL : OpCode := 2.
Definition SUB : OpCode := 3.
Definition DIV : OpCode := 4.
Definition SDIV : OpCode := 5.
Definition MOD : OpCode := 6.
Definition SMOD : OpCode := 7.
Definition ADDMOD : OpCode := 8.
Definition MULMOD : OpCode := 9.
Definition EXP : OpCode := 10.
Definition SIGNEXTEND : OpCode := 11.
Definition LT : OpCode := 16.
Definition GT : OpCode := 17.
Definition SLT : OpCode := 18.
Definition SGT : OpCode := 19.
Definition EQ : OpCode := 20.
Definition ISZERO : OpCode := 21.
Definition AND : OpCode := 22.
Definition OR : OpCode := 23.
Definition XOR : OpCode := 24.
Definition NOT : OpCode := 25.
Definition BYTE : OpCode := 26.
Definition SHL : OpCode := 27.
Definition SHR : OpCode := 28.
Definition SAR : OpCode := 29.
Definition KECCAK256 : OpCode := 32.
Definition ADDRESS : OpCode := 48.
Definition BALANCE : OpCode := 49.
Definition ORIGIN : OpCode := 50.
Definition CALLER : OpCode := 51.
Definition CALLVALUE : OpCode := 52.
Definition CALLDATALOAD : OpCode := 53.
Definition CALLDATASIZE : OpCode := 54.
Definition CALLDATACOPY : OpCode := 55.
Definition CODESIZE : OpCode := 56.
Definition CODECOPY : OpCode := 57.
Definition GASPRICE : OpCode := 58.
Definition EXTCODESIZE : OpCode := 59.
Definition EXTCODECOPY : OpCode := 60.
Definition RETURNDATASIZE : OpCode := 61.
Definition RETURNDATACOPY : OpCode := 62.
Definition EXTCODEHASH : OpCode := 63.
Definition BLOCKHASH : OpCode := 64.
Definition COINBASE : OpCode := 65.
Definition TIMESTAMP : OpCode := 66.
Definition NUMBER : OpCode := 67.
Definition DIFFICULTY : OpCode := 68.
Definition RANDOM : OpCode := 68.
Definition GASLIMIT : OpCode := 69.
Definition CHAINID : OpCode := 70.
Definition SELFBALANCE : OpCode := 71.
Definition BASEFEE : OpCode := 72.
Definition POP : OpCode := 80.
Definition MLOAD : OpCode := 81.
Definition MSTORE : OpCode := 82.
Definition MSTORE8 : OpCode := 83.
Definition SLOAD : OpCode := 84.
Definition SSTORE : OpCode := 85.
Definition JUMP : OpCode := 86.
Definition JUMPI : OpCode := 87.
Definition PC : OpCode := 88.
Definition MSIZE : OpCode := 89.
Definition GAS : OpCode := 90.
Definition JUMPDEST : OpCode := 91.
Definition PUSH0 : OpCode := 95.
Definition PUSH1 : OpCode := 96.
Definition PUSH2 : OpCode := 97.
Definition PUSH3 : OpCode := 98.
Definition PUSH4 : OpCode := 99.
Definition PUSH5 : OpCode := 100.
Definition PUSH6 : OpCode := 101.
Definition PUSH7 : OpCode := 102.
Definition PUSH8 : OpCode := 103.
Definition PUSH9 : OpCode := 104.
Definition PUSH10 : OpCode := 105.
Definition PUSH11 : OpCode := 106.
Definition PUSH12 : OpCode := 107.
Definition PUSH13 : OpCode := 108.
Definition PUSH14 : OpCode := 109.
Definition PUSH15 : OpCode := 110.
Definition PUSH16 : OpCode := 111.
Definition PUSH17 : OpCode := 112.
Definition PUSH18 : OpCode := 113.
Definition PUSH19 : OpCode := 114.
Definition PUSH20 : OpCode := 115.
Definition PUSH21 : OpCode := 116.
Definition PUSH22 : OpCode := 117.
Definition PUSH23 : OpCode := 118.
Definition PUSH24 : OpCode := 119.
Definition PUSH25 : OpCode := 120.
Definition PUSH26 : OpCode := 121.
Definition PUSH27 : OpCode := 122.
Definition PUSH28 : OpCode := 123.
Definition PUSH29 : OpCode := 124.
Definition PUSH30 : OpCode := 125.
Definition PUSH31 : OpCode := 126.
Definition PUSH32 : OpCode := 127.
Definition DUP1 : OpCode := 128.
Definition DUP2 : OpCode := 129.
Definition DUP3 : OpCode := 130.
Definition DUP4 : OpCode := 131.
Definition DUP5 : OpCode := 132.
Definition DUP6 : OpCode := 133.
Definition DUP7 : OpCode := 134.
Definition DUP8 : OpCode := 135.
Definition DUP9 : OpCode := 136.
Definition DUP10 : OpCode := 137.
Definition DUP11 : OpCode := 138.
Definition DUP12 : OpCode := 139.
Definition DUP13 : OpCode := 140.
Definition DUP14 : OpCode := 141.
Definition DUP15 : OpCode := 142.
Definition DUP16 : OpCode := 143.
Definition SWAP1 : OpCode := 144.
Definition SWAP2 : OpCode := 145.
Definition SWAP3 : OpCode := 146.
Definition SWAP4 : OpCode := 147.
Definition SWAP5 : OpCode := 148.
Definition SWAP6 : OpCode := 149.
Definition SWAP7 : OpCode := 150.
Definition SWAP8 : OpCode := 151.
Definition SWAP9 : OpCode := 152.
Definition SWAP10 : OpCode := 153.
Definition SWAP11 : OpCode := 154.
Definition SWAP12 : OpCode := 155.
Definition SWAP13 : OpCode := 156.
Definition SWAP14 : OpCode := 157.
Definition SWAP15 : OpCode := 158.
Definition SWAP16 : OpCode := 159.
Definition LOG0 : OpCode := 160.
Definition LOG1 : OpCode := 161.
Definition LOG2 : OpCode := 162.
Definition LOG3 : OpCode := 163.
Definition LOG4 : OpCode := 164.
Definition CREATE : OpCode := 240.
Definition CALL : OpCode := 241.
Definition CALLCODE : OpCode := 242.
Definition RETURN : OpCode := 243.
Definition DELEGATECALL : OpCode := 244.
Definition CREATE2 : OpCode := 245.
Definition STATICCALL : OpCode := 250.
Definition REVERT : OpCode := 253.
Definition INVALID : OpCode := 254.
Definition SELFDESTRUCT : OpCode := 255.

(** ** [IsPush] *)
Definition IsPush (op : OpCode) : bool :=
  bool_decide (op ∈ [PUSH1; PUSH2; PUSH3; PUSH4; PUSH5; PUSH6; PUSH7; PUSH8;
    PUSH9; PUSH10; PUSH11; PUSH12; PUSH13; PUSH14; PUSH15; PUSH16;
    PUSH17; PUSH18; PUSH19; PUSH20; PUSH21; PUSH22; PUSH23; PUSH24;
    PUSH25; PUSH26; PUSH27; PUSH28; PUSH29; PUSH30; PUSH31; PUSH32]).

(** ** Names *)
Definition opCodeToString : list (OpCode * string) := [
  (STOP, "STOP"%string); (ADD, "ADD"%string); (MUL, "MUL"%string); (SUB, "SUB"%string);
  (DIV, "DIV"%string); (SDIV, "SDIV"%string); (MOD, "MOD"%string); (SMOD, "SMOD"%string);
  (EXP, "EXP"%string); (NOT, "NOT"%string); (LT, "LT"%string); (GT, "GT"%string);
  (SLT, "SLT"%string); (SGT, "SGT"%string); (EQ, "EQ"%string); (ISZERO, "ISZERO"%string);
  (SIGNEXTEND, "SIGNEXTEND"%string); (AND, "AND"%string); (OR, "OR"%string); (XOR, "XOR"%string);
  (BYTE, "BYTE"%string); (SHL, "SHL"%string); (SHR, "SHR"%string); (SAR, "SAR"%string);
  (ADDMOD, "ADDMOD"%string); (MULMOD, "MULMOD"%string); (KECCAK256, "KECCAK256"%string); (ADDRESS, "ADDRESS"%string);
  (BALANCE, "BALANCE"%string); (ORIGIN, "ORIGIN"%string); (CALLER, "CALLER"%string); (CALLVALUE, "CALLVALUE"%string);
  (CALLDATALOAD, "CALLDATALOAD"%string); (CALLDATASIZE, "CALLDATASIZE"%string); (CALLDATACOPY, "CALLDATACOPY"%string); (CODESIZE, "CODESIZE"%string);
  (CODECOPY, "CODECOPY"%string); (GASPRICE, "GASPRICE"%string); (EXTCODESIZE, "EXTCODESIZE"%string); (EXTCODECOPY, "EXTCODECOPY"%string);
  (RETURNDATASIZE, "RETURNDATASIZE"%string); (RETURNDATACOPY, "RETURNDATACOPY"%string); (EXTCODEHASH, "EXTCODEHASH"%string); (BLOCKHASH, "BLOCKHASH"%string);
  (COINBASE, "COINBASE"%string); (TIMESTAMP, "TIMESTAMP"%string); (NUMBER, "NUMBER"%string); (DIFFICULTY, "DIFFICULTY"%string);
  (GASLIMIT, "GASLIMIT"%string); (CHAINID, "CHAINID"%string); (SELFBALANCE, "SELFBALANCE"%string); (BASEFEE, "BASEFEE"%string);
  (POP, "POP"%string); (MLOAD, "MLOAD"%string); (MSTORE, "MSTORE"%string); (MSTORE8, "MSTORE8"%string);
  (SLOAD, "SLOAD"%string); (SSTORE, "SSTORE"%string); (JUMP, "JUMP"%string); (JUMPI, "JUMPI"%string);
  (PC, "PC"%string); (MSIZE, "MSIZE"%string); (GAS, "GAS"%string); (JUMPDEST, "JUMPDEST"%string);
  (PUSH0, "PUSH0"%string); (PUSH1, "PUSH1"%string); (PUSH2, "PUSH2"%string); (PUSH3, "PUSH3"%string);
  (PUSH4, "PUSH4"%string); (PUSH5, "PUSH5"%string); (PUSH6, "PUSH6"%string); (PUSH7, "PUSH7"%string);
  (PUSH8, "PUSH8"%string); (PUSH9, "PUSH9"%string); (PUSH10, "PUSH10"%string); (PUSH11, "PUSH11"%string);
  (PUSH12, "PUSH12"%string); (PUSH13, "PUSH13"%string); (PUSH14, "PUSH14"%string); (PUSH15, "PUSH15"%string);
  (PUSH16, "PUSH16"%string); (PUSH17, "PUSH17"%string); (PUSH18, "PUSH18"%string); (PUSH19, "PUSH19"%string);
  (PUSH20, "PUSH20"%string); (PUSH21, "PUSH21"%string); (PUSH22, "PUSH22"%string); (PUSH23, "PUSH23"%string);
  (PUSH24, "PUSH24"%string); (PUSH25, "PUSH25"%string); (PUSH26, "PUSH26"%string); (PUSH27, "PUSH27"%string);
  (PUSH28, "PUSH28"%string); (PUSH29, "PUSH29"%string); (PUSH30, "PUSH30"%string); (PUSH31, "PUSH31"%string);
  (PUSH32, "PUSH32"%string); (DUP1, "DUP1"%string); (DUP2, "DUP2"%string); (DUP3, "DUP3"%string);
  (DUP4, "DUP4"%string); (DUP5, "DUP5"%string); (DUP6, "DUP6"%string); (DUP7, "DUP7"%string);
  (DUP8, "DUP8"%string); (DUP9, "DUP9"%string); (DUP10, "DUP10"%string); (DUP11, "DUP11"%string);
  (DUP12, "DUP12"%string); (DUP13, "DUP13"%string); (DUP14, "DUP14"%string); (DUP15, "DUP15"%string);
  (DUP16, "DUP16"%string); (SWAP1, "SWAP1"%string); (SWAP2, "SWAP2"%string); (SWAP3, "SWAP3"%string);
  (SWAP4, "SWAP4"%string); (SWAP5, "SWAP5"%string); (SWAP6, "SWAP6"%string); (SWAP7, "SWAP7"%string);
  (SWAP8, "SWAP8"%string); (SWAP9, "SWAP9"%string); (SWAP10, "SWAP10"%string); (SWAP11, "SWAP11"%string);
  (SWAP12, "SWAP12"%string); (SWAP13, "SWAP13"%string); (SWAP14, "SWAP14"%string); (SWAP15, "SWAP15"%string);
  (SWAP16, "SWAP16"%string); (LOG0, "LOG0"%string); (LOG1, "LOG1"%string); (LOG2, "LOG2"%string);
  (LOG3, "LOG3"%string); (LOG4, "LOG4"%string); (CREATE, "CREATE"%string); (CALL, "CALL"%string);
  (RETURN, "RETURN"%string); (CALLCODE, "CALLCODE"%string); (DELEGATECALL, "DELEGATECALL"%string); (CREATE2, "CREATE2"%string);
  (STATICCALL, "STATICCALL"%string); (REVERT, "REVERT"%string); (INVALID, "INVALID"%string); (SELFDESTRUCT, "SELFDESTRUCT"%string)
].

Definition stringToOp : list (string * OpCode) := [
  ("STOP"%string, STOP); ("ADD"%string, ADD); ("MUL"%string, MUL); ("SUB"%string, SUB);
  ("DIV"%string, DIV); ("SDIV"%string, SDIV); ("MOD"%string, MOD); ("SMOD"%string, SMOD);
  ("EXP"%string, EXP); ("NOT"%string, NOT); ("LT"%string, LT); ("GT"%string, GT);
  ("SLT"%string, SLT); ("SGT"%string, SGT); ("EQ"%string, EQ); ("ISZERO"%string, ISZERO);
  ("SIGNEXTEND"%string, SIGNEXTEND); ("AND"%string, AND); ("OR"%string, OR); ("XOR"%string, XOR);
  ("BYTE"%string, BYTE); ("SHL"%string, SHL); ("SHR"%string, SHR); ("SAR"%string, SAR);
  ("ADDMOD"%string, ADDMOD); ("MULMOD"%string, MULMOD); ("KECCAK256"%string, KECCAK256); ("ADDRESS"%string, ADDRESS);
  ("BALANCE"%string, BALANCE); ("ORIGIN"%string, ORIGIN); ("CALLER"%string, CALLER); ("CALLVALUE"%string, CALLVALUE);
  ("CALLDATALOAD"%string, CALLDATALOAD); ("CALLDATASIZE"%string, CALLDATASIZE); ("CALLDATACOPY"%string, CALLDATACOPY); ("CHAINID"%string, CHAINID);
  ("BASEFEE"%string, BASEFEE); ("DELEGATECALL"%string, DELEGATECALL); ("STATICCALL"%string, STATICCALL); ("CODESIZE"%string, CODESIZE);
  ("CODECOPY"%string, CODECOPY); ("GASPRICE"%string, GASPRICE); ("EXTCODESIZE"%string, EXTCODESIZE); ("EXTCODECOPY"%string, EXTCODECOPY);
  ("RETURNDATASIZE"%string, RETURNDATASIZE); ("RETURNDATACOPY"%string, RETURNDATACOPY); ("EXTCODEHASH"%string, EXTCODEHASH); ("BLOCKHASH"%string, BLOCKHASH);
  ("COINBASE"%string, COINBASE); ("TIMESTAMP"%string, TIMESTAMP); ("NUMBER"%string, NUMBER); ("DIFFICULTY"%string, DIFFICULTY);
  ("GASLIMIT"%string, GASLIMIT); ("SELFBALANCE"%string, SELFBALANCE); ("POP"%string, POP); ("MLOAD"%string, MLOAD);
  ("MSTORE"%string, MSTORE); ("MSTORE8"%string, MSTORE8); ("SLOAD"%string, SLOAD); ("SSTORE"%string, SSTORE);
  ("JUMP"%string, JUMP); ("JUMPI"%string, JUMPI); ("PC"%string, PC); ("MSIZE"%string, MSIZE);
  ("GAS"%string, GAS); ("JUMPDEST"%string, JUMPDEST); ("PUSH0"%string, PUSH0); ("PUSH1"%string, PUSH1);
  ("PUSH2"%string, PUSH2); ("PUSH3"%string, PUSH3); ("PUSH4"%string, PUSH4); ("PUSH5"%string, PUSH5);
  ("PUSH6"%string, PUSH6); ("PUSH7"%string, PUSH7); ("PUSH8"%string, PUSH8); ("PUSH9"%string, PUSH9);
  ("PUSH10"%string, PUSH10); ("PUSH11"%string, PUSH11); ("PUSH12"%string, PUSH12); ("PUSH13"%string, PUSH13);
  ("PUSH14"%string, PUSH14); ("PUSH15"%string, PUSH15); ("PUSH16"%string, PUSH16); ("PUSH17"%string, PUSH17);
  ("PUSH18"%string, PUSH18); ("PUSH19"%string, PUSH19); ("PUSH20"%string, PUSH20); ("PUSH21"%string, PUSH21);
  ("PUSH22"%string, PUSH22); ("PUSH23"%string, PUSH23); ("PUSH24"%string, PUSH24); ("PUSH25"%string, PUSH25);
  ("PUSH26"%string, PUSH26); ("PUSH27"%string, PUSH27); ("PUSH28"%string, PUSH28); ("PUSH29"%string, PUSH29);
  ("PUSH30"%string, PUSH30); ("PUSH31"%string, PUSH31); ("PUSH32"%string, PUSH32); ("DUP1"%string, DUP1);
  ("DUP2"%string, DUP2); ("DUP3"%string, DUP3); ("DUP4"%string, DUP4); ("DUP5"%string, DUP5);
  ("DUP6"%string, DUP6); ("DUP7"%string, DUP7); ("DUP8"%string, DUP8); ("DUP9"%string, DUP9);
  ("DUP10"%string, DUP10); ("DUP11"%string, DUP11); ("DUP12"%string, DUP12); ("DUP13"%string, DUP13);
  ("DUP14"%string, DUP14); ("DUP15"%string, DUP15); ("DUP16"%string, DUP16); ("SWAP1"%string, SWAP1);
  ("SWAP2"%string, SWAP2); ("SWAP3"%string, SWAP3); ("SWAP4"%string, SWAP4); ("SWAP5"%string, SWAP5);
  ("SWAP6"%string, SWAP6); ("SWAP7"%string, SWAP7); ("SWAP8"%string, SWAP8); ("SWAP9"%string, SWAP9);
  ("SWAP10"%string, SWAP10); ("SWAP11"%string, SWAP11); ("SWAP12"%string, SWAP12); ("SWAP13"%string, SWAP13);
  ("SWAP14"%string, SWAP14); ("SWAP15"%string, SWAP15); ("SWAP16"%string, SWAP16); ("LOG0"%string, LOG0);
  ("LOG1"%string, LOG1); ("LOG2"%string, LOG2); ("LOG3"%string, LOG3); ("LOG4"%string, LOG4);
  ("CREATE"%string, CREATE); ("CREATE2"%string, CREATE2); ("CALL"%string, CALL); ("RETURN"%string, RETURN);
  ("CALLCODE"%string, CALLCODE); ("REVERT"%string, REVERT); ("INVALID"%string, INVALID); ("SELFDESTRUCT"%string, SELFDESTRUCT)
].

(** A map literal: the entry of a key, [None] when there is none. *)
Fixpoint assoc {K V} `{EqDecision K} (k : K) (l : list (K * V)) : option V :=
  match l with
  | [] => None
  | (k', v) :: r => if decide (k = k') then Some v else assoc k r
  end.

(** [fmt.Sprintf("%x")] of an opcode byte. *)
Definition hexDigit (d : Z) : Ascii.ascii :=
  Ascii.ascii_of_nat (Z.to_nat (if d <? 10 then 48 + d else 87 + d)).
Definition hexByte (b : Z) : string :=
  let lo := String.String (hexDigit (b mod 16)) String.EmptyString in
  if b <? 16 then lo else String.String (hexDigit (b / 16)) lo.

(** [OpCode.String]. *)
Definition opString (op : OpCode) : string :=
  let str := default ""%string (assoc op opCodeToString) in
  if (String.length str =? 0)%nat
  then ("opcode 0x" +:+ hexByte op +:+ " not defined")%string
  else str.

(** [StringToOp]: a missing key gives the zero value. *)
Definition StringToOp (str : string) : OpCode := default 0 (assoc str stringToOp).

(** ** Properties *)

(** The byte values that have a name. *)
Definition defined (op : OpCode) : bool := bool_decide (is_Some (assoc op opCodeToString)).

Lemma assoc_In {K V} `{EqDecision K} (k : K) (v : V) l : assoc k l = Some v -> (k, v) ∈ l.
Proof.
  induction l as [|[k' v'] l IH]; cbn; [done|].
  case_decide; intros; simplify_eq; [left|right; auto].
Qed.

(** A decision over all bytes is a decision by computation. *)
Lemma all_bytes (P : Z -> bool) :
  forallb P (seqZ 0 256) = true -> forall op, is_byte op -> P op = true.
Proof.
  intros H op Hop. rewrite forallb_forall in H. apply H.
  apply list_elem_of_In, elem_of_seqZ. unfold is_byte in Hop. lia.
Qed.

(** for every byte, the name [String] prints of a defined opcode is
    read back by [StringToOp] as that opcode, and every name of [stringToOp] is
    the one [String] prints of the opcode it stands for. *)
Theorem opcode_names_roundtrip :
  (forall op, is_byte op -> defined op = true -> StringToOp (opString op) = op) /\
  (forall str op, assoc str stringToOp = Some op -> opString op = str).
Proof.
  split.
  - intros op Hop Hd.
    assert (E : (negb (defined op) || (StringToOp (opString op) =? op)) = true).
    { revert op Hop Hd. intros op Hop _. revert op Hop. apply all_bytes.
      vm_compute. reflexivity. }
    rewrite Hd in E. cbn in E. by apply Z.eqb_eq.
  - intros str op H. apply assoc_In in H.
    assert (E : forallb (fun p => bool_decide (opString (snd p) = fst p)) stringToOp = true)
      by (vm_compute; reflexivity).
    rewrite forallb_forall in E. apply list_elem_of_In, E in H. by apply bool_decide_eq_true in H.
Qed.

Lemma opcode_names_roundtrip_witness :
  opString 86 = "JUMP"%string /\ StringToOp (opString 86) = 86 /\ opString 12 = "opcode 0xc not defined"%string.
Proof.
  split; [reflexivity|]. split; [|reflexivity].
  apply (proj1 opcode_names_roundtrip 86); [unfold is_byte; lia | reflexivity].
Defined.

(** A push is an opcode of the range [0x60, 0x7f]. *)
Lemma IsPush_spec op : is_byte op -> IsPush op = (96 <=? op) && (op <=? 127).
Proof.
  intros H. apply Bool.eqb_prop. revert op H.
  apply (all_bytes (fun op => Bool.eqb (IsPush op) ((96 <=? op) && (op <=? 127)))).
  vm_compute. reflexivity.
Qed.
