(* ===== verification/EvmJumpTable.v ===== *)
(** * Jump tables ([evm/jump_table.go], [evm/eips.go])

    The instruction sets of the forks.  A table entry names its functions: the
    identifiers [I_f], [G_f] and [M_f] stand for the Go functions [f] of type
    [executionFunc], [gasFunc] and [memorySizeFunc]; [EvmInterpreter] gives
    their meaning.  An array [JumpTable] is a list of 256 entries; before the
    unassigned slots are filled an entry may be [nil]. *)

From S2P Require Import Prelude Config EvmStack EvmGas EvmOpcodes.

Local Open Scope Z_scope.

(** ** Function names *)

Inductive execId :=
| I_opStop | I_opAdd | I_opMul | I_opSub | I_opDiv | I_opSdiv | I_opMod | I_opSmod | I_opAddmod
| I_opMulmod | I_opExp | I_opSignExtend | I_opLt | I_opGt | I_opSlt | I_opSgt | I_opEq
| I_opIszero | I_opAnd | I_opXor | I_opOr | I_opNot | I_opByte | I_opKeccak256 | I_opAddress
| I_opBalance | I_opOrigin | I_opCaller | I_opCallValue | I_opCallDataLoad | I_opCallDataSize
| I_opCallDataCopy | I_opCodeSize | I_opCodeCopy | I_opGasprice | I_opExtCodeSize
| I_opExtCodeCopy | I_opBlockhash | I_opCoinbase | I_opTimestamp | I_opNumber | I_opDifficulty
| I_opGasLimit | I_opPop | I_opMload | I_opMstore | I_opMstore8 | I_opSload | I_opSstore
| I_opJump | I_opJumpi | I_opPc | I_opMsize | I_opGas | I_opJumpdest | I_opPush1
| I_makePush (size : Z) (pushByteSize : Z) | I_makeDup (size : Z) | I_makeSwap (size : Z)
| I_makeLog (size : Z) | I_opCreate | I_opCall | I_opCallCode | I_opReturn | I_opSelfdestruct
| I_opRandom | I_opSHL | I_opSHR | I_opSAR | I_opExtCodeHash | I_opCreate2 | I_opStaticCall
| I_opReturnDataSize | I_opReturnDataCopy | I_opRevert | I_opDelegateCall | I_opSelfBalance
| I_opChainID | I_opBaseFee | I_opPush0 | I_opUndefined.

Inductive gasId :=
| G_gasExpFrontier | G_gasKeccak256 | G_gasCallDataCopy | G_gasCodeCopy | G_gasExtCodeCopy
| G_gasMLoad | G_gasMStore | G_gasMStore8 | G_gasSStore | G_makeGasLog (n : Z) | G_gasCreate
| G_gasCall | G_gasCallCode | G_gasReturn | G_gasSelfdestruct | G_gasCreate2 | G_gasStaticCall
| G_gasReturnDataCopy | G_gasRevert | G_gasDelegateCall | G_gasSStoreEIP2200
| G_gasSStoreEIP2929 | G_gasSLoadEIP2929 | G_gasExtCodeCopyEIP2929 | G_gasEip2929AccountCheck
| G_gasCallEIP2929 | G_gasCallCodeEIP2929 | G_gasStaticCallEIP2929 | G_gasDelegateCallEIP2929
| G_gasSelfdestructEIP2929 | G_gasSStoreEIP3529 | G_gasSelfdestructEIP3529 | G_gasExpEIP158.

Inductive memId :=
| M_memoryKeccak256 | M_memoryCallDataCopy | M_memoryCodeCopy | M_memoryExtCodeCopy
| M_memoryMLoad | M_memoryMStore | M_memoryMStore8 | M_memoryLog | M_memoryCreate
| M_memoryCall | M_memoryReturn | M_memoryCreate2 | M_memoryStaticCall | M_memoryReturnDataCopy
| M_memoryRevert | M_memoryDelegateCall.

(** ** [operation] *)
Record operation := mkop {
  execute : execId;
  constantGas : Z;
  dynamicGas : option gasId;
  op_minStack : Z;
  op_maxStack : Z;
  memorySize : option memId;
}.

Abbreviation JumpTable := (list operation).

(** [jt[op] = o] and assignments to a field of [jt[op]]. *)
Definition jt_set (op : OpCode) (o : operation) (jt : JumpTable) : JumpTable :=
  <[Z.to_nat op := o]> jt.
Definition jt_upd (op : OpCode) (f : operation -> operation) (jt : JumpTable) : JumpTable :=
  alter f (Z.to_nat op) jt.
Definition set_constantGas (g : Z) (o : operation) : operation :=
  mkop (execute o) g (dynamicGas o) (op_minStack o) (op_maxStack o) (memorySize o).
Definition set_dynamicGas (g : gasId) (o : operation) : operation :=
  mkop (execute o) (constantGas o) (Some g) (op_minStack o) (op_maxStack o) (memorySize o).

(** ** [validate] *)
Definition validate (jt : list (option operation)) : res JumpTable :=
  foldr (fun entry acc =>
    match entry with
    | None => Panic PanicTable
    | Some op =>
      match memorySize op, dynamicGas op with
      | Some _, None => Panic PanicTable
      | _, _ => jt ← acc; Ok (op :: jt)
      end
    end) (Ok []) jt.

Definition revalidate (jt : JumpTable) : res JumpTable := validate (Some <$> jt).

(** ** [newFrontierInstructionSet]: the literal, in the order of the source *)

Definition frontier_ops_0 : list (OpCode * operation) := [
  (STOP, mkop I_opStop 0 None (minStack 0 0) (maxStack 0 0) None);
  (ADD, mkop I_opAdd GasFastestStep None (minStack 2 1) (maxStack 2 1) None);
  (MUL, mkop I_opMul GasFastStep None (minStack 2 1) (maxStack 2 1) None);
  (SUB, mkop I_opSub GasFastestStep None (minStack 2 1) (maxStack 2 1) None);
  (DIV, mkop I_opDiv GasFastStep None (minStack 2 1) (maxStack 2 1) None);
  (SDIV, mkop I_opSdiv GasFastStep None (minStack 2 1) (maxStack 2 1) None);
  (MOD, mkop I_opMod GasFastStep None (minStack 2 1) (maxStack 2 1) None);
  (SMOD, mkop I_opSmod GasFastStep None (minStack 2 1) (maxStack 2 1) None);
  (ADDMOD, mkop I_opAddmod GasMidStep None (minStack 3 1) (maxStack 3 1) None);
  (MULMOD, mkop I_opMulmod GasMidStep None (minStack 3 1) (maxStack 3 1) None);
  (EXP, mkop I_opExp 0 (Some G_gasExpFrontier) (minStack 2 1) (maxStack 2 1) None);
  (SIGNEXTEND, mkop I_opSignExtend GasFastStep None (minStack 2 1) (maxStack 2 1) None);
  (LT, mkop I_opLt GasFastestStep None (minStack 2 1) (maxStack 2 1) None);
  (GT, mkop I_opGt GasFastestStep None (minStack 2 1) (maxStack 2 1) None);
  (SLT, mkop I_opSlt GasFastestStep None (minStack 2 1) (maxStack 2 1) None);
  (SGT, mkop I_opSgt GasFastestStep None (minStack 2 1) (maxStack 2 1) None);
  (EQ, mkop I_opEq GasFastestStep None (minStack 2 1) (maxStack 2 1) None);
  (ISZERO, mkop I_opIszero GasFastestStep None (minStack 1 1) (maxStack 1 1) None);
  (AND, mkop I_opAnd GasFastestStep None (minStack 2 1) (maxStack 2 1) None);
  (XOR, mkop I_opXor GasFastestStep None (minStack 2 1) (maxStack 2 1) None);
  (OR, mkop I_opOr GasFastestStep None (minStack 2 1) (maxStack 2 1) None);
  (NOT, mkop I_opNot GasFastestStep None (minStack 1 1) (maxStack 1 1) None);
  (BYTE, mkop I_opByte GasFastestStep None (minStack 2 1) (maxStack 2 1) None)
].

Definition frontier_ops_1 : list (OpCode * operation) := [
  (KECCAK256, mkop I_opKeccak256 Keccak256Gas (Some G_gasKeccak256) (minStack 2 1) (maxStack 2 1) (Some M_memoryKeccak256));
  (ADDRESS, mkop I_opAddress GasQuickStep None (minStack 0 1) (maxStack 0 1) None);
  (BALANCE, mkop I_opBalance BalanceGasFrontier None (minStack 1 1) (maxStack 1 1) None);
  (ORIGIN, mkop I_opOrigin GasQuickStep None (minStack 0 1) (maxStack 0 1) None);
  (CALLER, mkop I_opCaller GasQuickStep None (minStack 0 1) (maxStack 0 1) None);
  (CALLVALUE, mkop I_opCallValue GasQuickStep None (minStack 0 1) (maxStack 0 1) None);
  (CALLDATALOAD, mkop I_opCallDataLoad GasFastestStep None (minStack 1 1) (maxStack 1 1) None);
  (CALLDATASIZE, mkop I_opCallDataSize GasQuickStep None (minStack 0 1) (maxStack 0 1) None);
  (CALLDATACOPY, mkop I_opCallDataCopy GasFastestStep (Some G_gasCallDataCopy) (minStack 3 0) (maxStack 3 0) (Some M_memoryCallDataCopy));
  (CODESIZE, mkop I_opCodeSize GasQuickStep None (minStack 0 1) (maxStack 0 1) None);
  (CODECOPY, mkop I_opCodeCopy GasFastestStep (Some G_gasCodeCopy) (minStack 3 0) (maxStack 3 0) (Some M_memoryCodeCopy));
  (GASPRICE, mkop I_opGasprice GasQuickStep None (minStack 0 1) (maxStack 0 1) None);
  (EXTCODESIZE, mkop I_opExtCodeSize ExtcodeSizeGasFrontier None (minStack 1 1) (maxStack 1 1) None);
  (EXTCODECOPY, mkop I_opExtCodeCopy ExtcodeCopyBaseFrontier (Some G_gasExtCodeCopy) (minStack 4 0) (maxStack 4 0) (Some M_memoryExtCodeCopy));
  (BLOCKHASH, mkop I_opBlockhash GasExtStep None (minStack 1 1) (maxStack 1 1) None);
  (COINBASE, mkop I_opCoinbase GasQuickStep None (minStack 0 1) (maxStack 0 1) None);
  (TIMESTAMP, mkop I_opTimestamp GasQuickStep None (minStack 0 1) (maxStack 0 1) None);
  (NUMBER, mkop I_opNumber GasQuickStep None (minStack 0 1) (maxStack 0 1) None);
  (DIFFICULTY, mkop I_opDifficulty GasQuickStep None (minStack 0 1) (maxStack 0 1) None);
  (GASLIMIT, mkop I_opGasLimit GasQuickStep None (minStack 0 1) (maxStack 0 1) None);
  (POP, mkop I_opPop GasQuickStep None (minStack 1 0) (maxStack 1 0) None)
].

Definition frontier_ops_2 : list (OpCode * operation) := [
  (MLOAD, mkop I_opMload GasFastestStep (Some G_gasMLoad) (minStack 1 1) (maxStack 1 1) (Some M_memoryMLoad));
  (MSTORE, mkop I_opMstore GasFastestStep (Some G_gasMStore) (minStack 2 0) (maxStack 2 0) (Some M_memoryMStore));
  (MSTORE8, mkop I_opMstore8 GasFastestStep (Some G_gasMStore8) (minStack 2 0) (maxStack 2 0) (Some M_memoryMStore8));
  (SLOAD, mkop I_opSload SloadGasFrontier None (minStack 1 1) (maxStack 1 1) None);
  (SSTORE, mkop I_opSstore 0 (Some G_gasSStore) (minStack 2 0) (maxStack 2 0) None);
  (JUMP, mkop I_opJump GasMidStep None (minStack 1 0) (maxStack 1 0) None);
  (JUMPI, mkop I_opJumpi GasSlowStep None (minStack 2 0) (maxStack 2 0) None);
  (PC, mkop I_opPc GasQuickStep None (minStack 0 1) (maxStack 0 1) None);
  (MSIZE, mkop I_opMsize GasQuickStep None (minStack 0 1) (maxStack 0 1) None);
  (GAS, mkop I_opGas GasQuickStep None (minStack 0 1) (maxStack 0 1) None);
  (JUMPDEST, mkop I_opJumpdest JumpdestGas None (minStack 0 0) (maxStack 0 0) None);
  (PUSH1, mkop I_opPush1 GasFastestStep None (minStack 0 1) (maxStack 0 1) None);
  (PUSH2, mkop (I_makePush 2 2) GasFastestStep None (minStack 0 1) (maxStack 0 1) None);
  (PUSH3, mkop (I_makePush 3 3) GasFastestStep None (minStack 0 1) (maxStack 0 1) None);
  (PUSH4, mkop (I_makePush 4 4) GasFastestStep None (minStack 0 1) (maxStack 0 1) None);
  (PUSH5, mkop (I_makePush 5 5) GasFastestStep None (minStack 0 1) (maxStack 0 1) None);
  (PUSH6, mkop (I_makePush 6 6) GasFastestStep None (minStack 0 1) (maxStack 0 1) None);
  (PUSH7, mkop (I_makePush 7 7) GasFastestStep None (minStack 0 1) (maxStack 0 1) None);
  (PUSH8, mkop (I_makePush 8 8) GasFastestStep None (minStack 0 1) (maxStack 0 1) None);
  (PUSH9, mkop (I_makePush 9 9) GasFastestStep None (minStack 0 1) (maxStack 0 1) None);
  (PUSH10, mkop (I_makePush 10 10) GasFastestStep None (minStack 0 1) (maxStack 0 1) None);
  (PUSH11, mkop (I_makePush 11 11) GasFastestStep None (minStack 0 1) (maxStack 0 1) None)
].

Definition frontier_ops_3 : list (OpCode * operation) := [
  (PUSH12, mkop (I_makePush 12 12) GasFastestStep None (minStack 0 1) (maxStack 0 1) None);
  (PUSH13, mkop (I_makePush 13 13) GasFastestStep None (minStack 0 1) (maxStack 0 1) None);
  (PUSH14, mkop (I_makePush 14 14) GasFastestStep None (minStack 0 1) (maxStack 0 1) None);
  (PUSH15, mkop (I_makePush 15 15) GasFastestStep None (minStack 0 1) (maxStack 0 1) None);
  (PUSH16, mkop (I_makePush 16 16) GasFastestStep None (minStack 0 1) (maxStack 0 1) None);
  (PUSH17, mkop (I_makePush 17 17) GasFastestStep None (minStack 0 1) (maxStack 0 1) None);
  (PUSH18, mkop (I_makePush 18 18) GasFastestStep None (minStack 0 1) (maxStack 0 1) None);
  (PUSH19, mkop (I_makePush 19 19) GasFastestStep None (minStack 0 1) (maxStack 0 1) None);
  (PUSH20, mkop (I_makePush 20 20) GasFastestStep None (minStack 0 1) (maxStack 0 1) None);
  (PUSH21, mkop (I_makePush 21 21) GasFastestStep None (minStack 0 1) (maxStack 0 1) None);
  (PUSH22, mkop (I_makePush 22 22) GasFastestStep None (minStack 0 1) (maxStack 0 1) None);
  (PUSH23, mkop (I_makePush 23 23) GasFastestStep None (minStack 0 1) (maxStack 0 1) None);
  (PUSH24, mkop (I_makePush 24 24) GasFastestStep None (minStack 0 1) (maxStack 0 1) None);
  (PUSH25, mkop (I_makePush 25 25) GasFastestStep None (minStack 0 1) (maxStack 0 1) None);
  (PUSH26, mkop (I_makePush 26 26) GasFastestStep None (minStack 0 1) (maxStack 0 1) None);
  (PUSH27, mkop (I_makePush 27 27) GasFastestStep None (minStack 0 1) (maxStack 0 1) None);
  (PUSH28, mkop (I_makePush 28 28) GasFastestStep None (minStack 0 1) (maxStack 0 1) None);
  (PUSH29, mkop (I_makePush 29 29) GasFastestStep None (minStack 0 1) (maxStack 0 1) None);
  (PUSH30, mkop (I_makePush 30 30) GasFastestStep None (minStack 0 1) (maxStack 0 1) None);
  (PUSH31, mkop (I_makePush 31 31) GasFastestStep None (minStack 0 1) (maxStack 0 1) None);
  (PUSH32, mkop (I_makePush 32 32) GasFastestStep None (minStack 0 1) (maxStack 0 1) None);
  (DUP1, mkop (I_makeDup 1) GasFastestStep None (minDupStack 1) (maxDupStack 1) None);
  (DUP2, mkop (I_makeDup 2) GasFastestStep None (minDupStack 2) (maxDupStack 2) None)
].

Definition frontier_ops_4 : list (OpCode * operation) := [
  (DUP3, mkop (I_makeDup 3) GasFastestStep None (minDupStack 3) (maxDupStack 3) None);
  (DUP4, mkop (I_makeDup 4) GasFastestStep None (minDupStack 4) (maxDupStack 4) None);
  (DUP5, mkop (I_makeDup 5) GasFastestStep None (minDupStack 5) (maxDupStack 5) None);
  (DUP6, mkop (I_makeDup 6) GasFastestStep None (minDupStack 6) (maxDupStack 6) None);
  (DUP7, mkop (I_makeDup 7) GasFastestStep None (minDupStack 7) (maxDupStack 7) None);
  (DUP8, mkop (I_makeDup 8) GasFastestStep None (minDupStack 8) (maxDupStack 8) None);
  (DUP9, mkop (I_makeDup 9) GasFastestStep None (minDupStack 9) (maxDupStack 9) None);
  (DUP10, mkop (I_makeDup 10) GasFastestStep None (minDupStack 10) (maxDupStack 10) None);
  (DUP11, mkop (I_makeDup 11) GasFastestStep None (minDupStack 11) (maxDupStack 11) None);
  (DUP12, mkop (I_makeDup 12) GasFastestStep None (minDupStack 12) (maxDupStack 12) None);
  (DUP13, mkop (I_makeDup 13) GasFastestStep None (minDupStack 13) (maxDupStack 13) None);
  (DUP14, mkop (I_makeDup 14) GasFastestStep None (minDupStack 14) (maxDupStack 14) None);
  (DUP15, mkop (I_makeDup 15) GasFastestStep None (minDupStack 15) (maxDupStack 15) None);
  (DUP16, mkop (I_makeDup 16) GasFastestStep None (minDupStack 16) (maxDupStack 16) None);
  (SWAP1, mkop (I_makeSwap 1) GasFastestStep None (minSwapStack 2) (maxSwapStack 2) None);
  (SWAP2, mkop (I_makeSwap 2) GasFastestStep None (minSwapStack 3) (maxSwapStack 3) None);
  (SWAP3, mkop (I_makeSwap 3) GasFastestStep None (minSwapStack 4) (maxSwapStack 4) None);
  (SWAP4, mkop (I_makeSwap 4) GasFastestStep None (minSwapStack 5) (maxSwapStack 5) None);
  (SWAP5, mkop (I_makeSwap 5) GasFastestStep None (minSwapStack 6) (maxSwapStack 6) None);
  (SWAP6, mkop (I_makeSwap 6) GasFastestStep None (minSwapStack 7) (maxSwapStack 7) None);
  (SWAP7, mkop (I_makeSwap 7) GasFastestStep None (minSwapStack 8) (maxSwapStack 8) None);
  (SWAP8, mkop (I_makeSwap 8) GasFastestStep None (minSwapStack 9) (maxSwapStack 9) None);
  (SWAP9, mkop (I_makeSwap 9) GasFastestStep None (minSwapStack 10) (maxSwapStack 10) None)
].

Definition frontier_ops_5 : list (OpCode * operation) := [
  (SWAP10, mkop (I_makeSwap 10) GasFastestStep None (minSwapStack 11) (maxSwapStack 11) None);
  (SWAP11, mkop (I_makeSwap 11) GasFastestStep None (minSwapStack 12) (maxSwapStack 12) None);
  (SWAP12, mkop (I_makeSwap 12) GasFastestStep None (minSwapStack 13) (maxSwapStack 13) None);
  (SWAP13, mkop (I_makeSwap 13) GasFastestStep None (minSwapStack 14) (maxSwapStack 14) None);
  (SWAP14, mkop (I_makeSwap 14) GasFastestStep None (minSwapStack 15) (maxSwapStack 15) None);
  (SWAP15, mkop (I_makeSwap 15) GasFastestStep None (minSwapStack 16) (maxSwapStack 16) None);
  (SWAP16, mkop (I_makeSwap 16) GasFastestStep None (minSwapStack 17) (maxSwapStack 17) None);
  (LOG0, mkop (I_makeLog 0) 0 (Some (G_makeGasLog 0)) (minStack 2 0) (maxStack 2 0) (Some M_memoryLog));
  (LOG1, mkop (I_makeLog 1) 0 (Some (G_makeGasLog 1)) (minStack 3 0) (maxStack 3 0) (Some M_memoryLog));
  (LOG2, mkop (I_makeLog 2) 0 (Some (G_makeGasLog 2)) (minStack 4 0) (maxStack 4 0) (Some M_memoryLog));
  (LOG3, mkop (I_makeLog 3) 0 (Some (G_makeGasLog 3)) (minStack 5 0) (maxStack 5 0) (Some M_memoryLog));
  (LOG4, mkop (I_makeLog 4) 0 (Some (G_makeGasLog 4)) (minStack 6 0) (maxStack 6 0) (Some M_memoryLog));
  (CREATE, mkop I_opCreate CreateGas (Some G_gasCreate) (minStack 3 1) (maxStack 3 1) (Some M_memoryCreate));
  (CALL, mkop I_opCall CallGasFrontier (Some G_gasCall) (minStack 7 1) (maxStack 7 1) (Some M_memoryCall));
  (CALLCODE, mkop I_opCallCode CallGasFrontier (Some G_gasCallCode) (minStack 7 1) (maxStack 7 1) (Some M_memoryCall));
  (RETURN, mkop I_opReturn 0 (Some G_gasReturn) (minStack 2 0) (maxStack 2 0) (Some M_memoryReturn));
  (SELFDESTRUCT, mkop I_opSelfdestruct 0 (Some G_gasSelfdestruct) (minStack 1 0) (maxStack 1 0) None)
].

Definition frontier_ops : list (OpCode * operation) :=
  frontier_ops_0 ++ frontier_ops_1 ++ frontier_ops_2 ++ frontier_ops_3 ++ frontier_ops_4 ++ frontier_ops_5.

Definition newFrontierInstructionSet : res JumpTable :=
  let tbl := (fun i => assoc i frontier_ops) <$> seqZ 0 256 in
  let tbl := (fun entry =>
    match entry with
    | None => Some (mkop I_opUndefined 0 None 0 (maxStack 0 0) None)
    | _ => entry
    end) <$> tbl in
  validate tbl.

(** ** [evm/eips.go]

    An enabler assigns table slots, [jt[op] = &operation{...}], and fields of the
    operations the slots point to, [jt[op].constantGas = g].  The difference
    matters where tables share their operations, so an enabler is the list of
    its assignments. *)

Inductive edit :=
| Assign (op : OpCode) (o : operation)
| AssignGas (op : OpCode) (g : Z)
| AssignDynamic (op : OpCode) (g : gasId).

Definition enable1884 : list edit := [
  AssignGas SLOAD SloadGasEIP1884;
  AssignGas BALANCE BalanceGasEIP1884;
  AssignGas EXTCODEHASH ExtcodeHashGasEIP1884;
  Assign SELFBALANCE (mkop I_opSelfBalance GasFastStep None (minStack 0 1) (maxStack 0 1) None)].

Definition enable1344 : list edit := [
  Assign CHAINID (mkop I_opChainID GasQuickStep None (minStack 0 1) (maxStack 0 1) None)].

Definition enable2200 : list edit := [
  AssignGas SLOAD SloadGasEIP2200;
  AssignDynamic SSTORE G_gasSStoreEIP2200].

Definition enable2929 : list edit := [
  AssignDynamic SSTORE G_gasSStoreEIP2929;
  AssignGas SLOAD 0;
  AssignDynamic SLOAD G_gasSLoadEIP2929;
  AssignGas EXTCODECOPY WarmStorageReadCostEIP2929;
  AssignDynamic EXTCODECOPY G_gasExtCodeCopyEIP2929;
  AssignGas EXTCODESIZE WarmStorageReadCostEIP2929;
  AssignDynamic EXTCODESIZE G_gasEip2929AccountCheck;
  AssignGas EXTCODEHASH WarmStorageReadCostEIP2929;
  AssignDynamic EXTCODEHASH G_gasEip2929AccountCheck;
  AssignGas BALANCE WarmStorageReadCostEIP2929;
  AssignDynamic BALANCE G_gasEip2929AccountCheck;
  AssignGas CALL WarmStorageReadCostEIP2929;
  AssignDynamic CALL G_gasCallEIP2929;
  AssignGas CALLCODE WarmStorageReadCostEIP2929;
  AssignDynamic CALLCODE G_gasCallCodeEIP2929;
  AssignGas STATICCALL WarmStorageReadCostEIP2929;
  AssignDynamic STATICCALL G_gasStaticCallEIP2929;
  AssignGas DELEGATECALL WarmStorageReadCostEIP2929;
  AssignDynamic DELEGATECALL G_gasDelegateCallEIP2929;
  AssignGas SELFDESTRUCT SelfdestructGasEIP150;
  AssignDynamic SELFDESTRUCT G_gasSelfdestructEIP2929].

Definition enable3529 : list edit := [
  AssignDynamic SSTORE G_gasSStoreEIP3529;
  AssignDynamic SELFDESTRUCT G_gasSelfdestructEIP3529].

Definition enable3198 : list edit := [
  Assign BASEFEE (mkop I_opBaseFee GasQuickStep None (minStack 0 1) (maxStack 0 1) None)].

Definition enable3855 : list edit := [
  Assign PUSH0 (mkop I_opPush0 GasQuickStep None (minStack 0 1) (maxStack 0 1) None)].

Definition activators : list (Z * list edit) := [
  (3855, enable3855); (3529, enable3529); (3198, enable3198); (2929, enable2929);
  (2200, enable2200); (1884, enable1884); (1344, enable1344)].

Definition ValidEip (eipNum : Z) : bool := bool_decide (is_Some (assoc eipNum activators)).

(** An enabler on a table that shares no operation with another one: the tables
    the constructors below build. *)
Definition apply_edit (jt : JumpTable) (e : edit) : JumpTable :=
  match e with
  | Assign op o => jt_set op o jt
  | AssignGas op g => jt_upd op (set_constantGas g) jt
  | AssignDynamic op g => jt_upd op (set_dynamicGas g) jt
  end.
Definition enable (es : list edit) (jt : JumpTable) : JumpTable := foldl apply_edit jt es.

(** ** The instruction sets of the later forks *)

Definition newHomesteadInstructionSet : res JumpTable :=
  jt ← newFrontierInstructionSet;
  revalidate (jt_set DELEGATECALL
    (mkop I_opDelegateCall CallGasFrontier (Some G_gasDelegateCall) (minStack 6 1) (maxStack 6 1)
       (Some M_memoryDelegateCall)) jt).

Definition newTangerineWhistleInstructionSet : res JumpTable :=
  jt ← newHomesteadInstructionSet;
  let jt := jt_upd BALANCE (set_constantGas BalanceGasEIP150) jt in
  let jt := jt_upd EXTCODESIZE (set_constantGas ExtcodeSizeGasEIP150) jt in
  let jt := jt_upd SLOAD (set_constantGas SloadGasEIP150) jt in
  let jt := jt_upd EXTCODECOPY (set_constantGas ExtcodeCopyBaseEIP150) jt in
  let jt := jt_upd CALL (set_constantGas CallGasEIP150) jt in
  let jt := jt_upd CALLCODE (set_constantGas CallGasEIP150) jt in
  let jt := jt_upd DELEGATECALL (set_constantGas CallGasEIP150) jt in
  revalidate jt.

Definition newSpuriousDragonInstructionSet : res JumpTable :=
  jt ← newTangerineWhistleInstructionSet;
  revalidate (jt_upd EXP (set_dynamicGas G_gasExpEIP158) jt).

Definition newByzantiumInstructionSet : res JumpTable :=
  jt ← newSpuriousDragonInstructionSet;
  let jt := jt_set STATICCALL
    (mkop I_opStaticCall CallGasEIP150 (Some G_gasStaticCall) (minStack 6 1) (maxStack 6 1)
       (Some M_memoryStaticCall)) jt in
  let jt := jt_set RETURNDATASIZE
    (mkop I_opReturnDataSize GasQuickStep None (minStack 0 1) (maxStack 0 1) None) jt in
  let jt := jt_set RETURNDATACOPY
    (mkop I_opReturnDataCopy GasFastestStep (Some G_gasReturnDataCopy) (minStack 3 0)
       (maxStack 3 0) (Some M_memoryReturnDataCopy)) jt in
  let jt := jt_set REVERT
    (mkop I_opRevert 0 (Some G_gasRevert) (minStack 2 0) (maxStack 2 0) (Some M_memoryRevert)) jt in
  revalidate jt.

Definition newConstantinopleInstructionSet : res JumpTable :=
  jt ← newByzantiumInstructionSet;
  let jt := jt_set SHL (mkop I_opSHL GasFastestStep None (minStack 2 1) (maxStack 2 1) None) jt in
  let jt := jt_set SHR (mkop I_opSHR GasFastestStep None (minStack 2 1) (maxStack 2 1) None) jt in
  let jt := jt_set SAR (mkop I_opSAR GasFastestStep None (minStack 2 1) (maxStack 2 1) None) jt in
  let jt := jt_set EXTCODEHASH
    (mkop I_opExtCodeHash ExtcodeHashGasConstantinople None (minStack 1 1) (maxStack 1 1) None) jt in
  let jt := jt_set CREATE2
    (mkop I_opCreate2 Create2Gas (Some G_gasCreate2) (minStack 4 1) (maxStack 4 1)
       (Some M_memoryCreate2)) jt in
  revalidate jt.

Definition newIstanbulInstructionSet : res JumpTable :=
  jt ← newConstantinopleInstructionSet;
  revalidate (enable enable2200 (enable enable1884 (enable enable1344 jt))).

Definition newBerlinInstructionSet : res JumpTable :=
  jt ← newIstanbulInstructionSet; revalidate (enable enable2929 jt).

Definition newLondonInstructionSet : res JumpTable :=
  jt ← newBerlinInstructionSet; revalidate (enable enable3198 (enable enable3529 jt)).

Definition newMergeInstructionSet : res JumpTable :=
  jt ← newLondonInstructionSet;
  revalidate (jt_set RANDOM (mkop I_opRandom GasQuickStep None (minStack 0 1) (maxStack 0 1) None) jt).

(** ** [EnableEIP] and [NewEVMInterpreter]

    [copyObj := *cfg.JumpTable] copies an array of pointers, so the table of an
    interpreter shares its operations with the package-level instruction set it
    was copied from until a slot is assigned.  A shared table is the
    package-level set together with the slots assigned since. *)

Record SharedTable := { global : JumpTable; own : gmap Z operation }.

Definition apply_shared (t : SharedTable) (e : edit) : SharedTable :=
  let upd op f :=
    match own t !! op with
    | Some o => {| global := global t; own := <[op := f o]> (own t) |}
    | None => {| global := jt_upd op f (global t); own := own t |}
    end in
  match e with
  | Assign op o => {| global := global t; own := <[op := o]> (own t) |}
  | AssignGas op g => upd op (set_constantGas g)
  | AssignDynamic op g => upd op (set_dynamicGas g)
  end.

(** [EnableEIP]: [None] is the error "undefined eip". *)
Definition EnableEIP (eipNum : Z) (t : SharedTable) : option SharedTable :=
  enablerFn ← assoc eipNum activators; Some (foldl apply_shared t enablerFn).

(** The table the interpreter reads. *)
Definition resolve (t : SharedTable) : JumpTable :=
  imap (fun i o => default o (own t !! Z.of_nat i)) (global t).

(** The package-level set the chain rules select. *)
Definition selectInstructionSet (r : Rules) : res JumpTable :=
  if IsMerge r then newMergeInstructionSet
  else if IsLondon r then newLondonInstructionSet
  else if IsEIP150 r then newTangerineWhistleInstructionSet
  else if IsHomestead r then newHomesteadInstructionSet
  else newFrontierInstructionSet.

(** The loop over [cfg.ExtraEips]: [arr] is the backing array the range reads,
    [n] the length of [cfg.ExtraEips], [i] the index.  An element that fails is
    removed by [append(s[:i], s[i+1:]...)], which moves the later ones down in
    the same array. *)
Fixpoint extraEips (count : nat) (i : Z) (arr : list Z) (n : Z) (t : SharedTable)
    : res (list Z * SharedTable) :=
  match count with
  | O => Ok (take (Z.to_nat n) arr, t)
  | S count =>
    eip ← nth_or_panic arr i;
    match EnableEIP eip t with
    | Some t => extraEips count (i + 1) arr n t
    | None =>
      tail ← slice (take (Z.to_nat n) arr) (i + 1) n;
      extraEips count (i + 1) (splice arr i tail) (n - 1) t
    end
  end.

(** [NewEVMInterpreter] with [cfg.JumpTable] unset: the extra EIPs that stay
    enabled, and the table with the package-level set it shares. *)
Definition NewEVMInterpreter (r : Rules) (eips : list Z) : res (list Z * SharedTable) :=
  jt ← selectInstructionSet r;
  extraEips (length eips) 0 eips (zlen eips) {| global := jt; own := ∅ |}.
