(* ===== verification/EvmInterpreter.v ===== *)
(** * The interpreter loop ([evm/interpreter.go])

    The meaning of the function names of the jump tables, one round of the main
    loop, and [Run].  [Run] recurses through the call instructions; the model
    recurses on fuel, one unit per instruction of the deepest frame. *)

From S2P Require Import Prelude Uint256 Config Common EvmStack EvmMemory EvmState EvmGas EvmCalls.
From S2P Require Import EvmInstructions EvmJumpTable EvmOpcodes.

Local Open Scope Z_scope.

Section interpreter.
Context `{U : Uint256} `{C : Crypto} {DB : Type} `{SDB : StateDB DB}.
Context (env : Env).

(** ** The functions the tables name *)

Definition run_execute
    (run : Contract -> bytes -> bool -> EVM DB -> res (bytes * option Err * Contract * EVM DB))
    (i : execId) : Frame DB -> res (Frame DB * (bytes * option Err)) :=
  match i with
  | I_opStop => opStop
  | I_opAdd => opAdd
  | I_opMul => opMul
  | I_opSub => opSub
  | I_opDiv => opDiv
  | I_opSdiv => opSdiv
  | I_opMod => opMod
  | I_opSmod => opSmod
  | I_opAddmod => opAddmod
  | I_opMulmod => opMulmod
  | I_opExp => opExp
  | I_opSignExtend => opSignExtend
  | I_opLt => opLt
  | I_opGt => opGt
  | I_opSlt => opSlt
  | I_opSgt => opSgt
  | I_opEq => opEq
  | I_opIszero => opIszero
  | I_opAnd => opAnd
  | I_opXor => opXor
  | I_opOr => opOr
  | I_opNot => opNot
  | I_opByte => opByte
  | I_opKeccak256 => opKeccak256 env
  | I_opAddress => opAddress
  | I_opBalance => opBalance
  | I_opOrigin => opOrigin env
  | I_opCaller => opCaller
  | I_opCallValue => opCallValue
  | I_opCallDataLoad => opCallDataLoad
  | I_opCallDataSize => opCallDataSize
  | I_opCallDataCopy => opCallDataCopy
  | I_opCodeSize => opCodeSize
  | I_opCodeCopy => opCodeCopy
  | I_opGasprice => opGasprice env
  | I_opExtCodeSize => opExtCodeSize
  | I_opExtCodeCopy => opExtCodeCopy
  | I_opBlockhash => opBlockhash env
  | I_opCoinbase => opCoinbase env
  | I_opTimestamp => opTimestamp env
  | I_opNumber => opNumber env
  | I_opDifficulty => opDifficulty env
  | I_opGasLimit => opGasLimit env
  | I_opPop => opPop
  | I_opMload => opMload
  | I_opMstore => opMstore
  | I_opMstore8 => opMstore8
  | I_opSload => opSload
  | I_opSstore => opSstore
  | I_opJump => opJump
  | I_opJumpi => opJumpi
  | I_opPc => opPc
  | I_opMsize => opMsize
  | I_opGas => opGas
  | I_opJumpdest => opJumpdest
  | I_opPush1 => opPush1
  | I_makePush size pushByteSize => makePush size pushByteSize
  | I_makeDup size => makeDup size
  | I_makeSwap size => makeSwap size
  | I_makeLog size => makeLog env size
  | I_opCreate => opCreate env run
  | I_opCall => opCall run
  | I_opCallCode => opCallCode run
  | I_opReturn => opReturn
  | I_opSelfdestruct => opSelfdestruct
  | I_opRandom => opRandom env
  | I_opSHL => opSHL
  | I_opSHR => opSHR
  | I_opSAR => opSAR
  | I_opExtCodeHash => opExtCodeHash
  | I_opCreate2 => opCreate2 env run
  | I_opStaticCall => opStaticCall run
  | I_opReturnDataSize => opReturnDataSize
  | I_opReturnDataCopy => opReturnDataCopy
  | I_opRevert => opRevert
  | I_opDelegateCall => opDelegateCall run
  | I_opSelfBalance => opSelfBalance
  | I_opChainID => opChainID env
  | I_opBaseFee => opBaseFee env
  | I_opPush0 => opPush0
  | I_opUndefined => opUndefined
  end.

Definition run_dynamicGas (g : gasId) : Frame DB -> Z -> res ((Z + Err) * Frame DB) :=
  match g with
  | G_gasExpFrontier => gasExpFrontier
  | G_gasKeccak256 => gasKeccak256
  | G_gasCallDataCopy => gasCallDataCopy
  | G_gasCodeCopy => gasCodeCopy
  | G_gasExtCodeCopy => gasExtCodeCopy
  | G_gasMLoad => gasMLoad
  | G_gasMStore => gasMStore
  | G_gasMStore8 => gasMStore8
  | G_gasSStore => gasSStore
  | G_makeGasLog n => makeGasLog n
  | G_gasCreate => gasCreate
  | G_gasCall => gasCall env
  | G_gasCallCode => gasCallCode env
  | G_gasReturn => gasReturn
  | G_gasSelfdestruct => gasSelfdestruct env
  | G_gasCreate2 => gasCreate2
  | G_gasStaticCall => gasStaticCall env
  | G_gasReturnDataCopy => gasReturnDataCopy
  | G_gasRevert => gasRevert
  | G_gasDelegateCall => gasDelegateCall env
  | G_gasSStoreEIP2200 => gasSStoreEIP2200
  | G_gasSStoreEIP2929 => gasSStoreEIP2929
  | G_gasSLoadEIP2929 => gasSLoadEIP2929
  | G_gasExtCodeCopyEIP2929 => gasExtCodeCopyEIP2929
  | G_gasEip2929AccountCheck => gasEip2929AccountCheck
  | G_gasCallEIP2929 => gasCallEIP2929 env
  | G_gasCallCodeEIP2929 => gasCallCodeEIP2929 env
  | G_gasStaticCallEIP2929 => gasStaticCallEIP2929 env
  | G_gasDelegateCallEIP2929 => gasDelegateCallEIP2929 env
  | G_gasSelfdestructEIP2929 => gasSelfdestructEIP2929
  | G_gasSStoreEIP3529 => gasSStoreEIP3529
  | G_gasSelfdestructEIP3529 => gasSelfdestructEIP3529
  | G_gasExpEIP158 => gasExpEIP158
  end.

Definition run_memorySize (m : memId) : Stack -> res (Z * bool) :=
  match m with
  | M_memoryKeccak256 => memoryKeccak256
  | M_memoryCallDataCopy => memoryCallDataCopy
  | M_memoryCodeCopy => memoryCodeCopy
  | M_memoryExtCodeCopy => memoryExtCodeCopy
  | M_memoryMLoad => memoryMLoad
  | M_memoryMStore => memoryMStore
  | M_memoryMStore8 => memoryMStore8
  | M_memoryLog => memoryLog
  | M_memoryCreate => memoryCreate
  | M_memoryCall => memoryCall
  | M_memoryReturn => memoryReturn
  | M_memoryCreate2 => memoryCreate2
  | M_memoryStaticCall => memoryStaticCall
  | M_memoryReturnDataCopy => memoryReturnDataCopy
  | M_memoryRevert => memoryRevert
  | M_memoryDelegateCall => memoryDelegateCall
  end.

(** ** One round of the loop

  A round ends the loop with the values [Run] returns, or leaves the frame of
  the next round. *)

Inductive outcome :=
| Done (ret : bytes) (err : option Err) (f : Frame DB)
| Next (f : Frame DB).

(** The memory size of the operation in bytes, a multiple of 32; [None] is
    [ErrGasUintOverflow]. *)
Definition requestedMemory (o : operation) (st : Stack) : res (option Z) :=
  match memorySize o with
  | None => Ok (Some 0)
  | Some m =>
    '(memSize, overflow) ← run_memorySize m st;
    if overflow : bool then Ok None
    else
      let '(size, overflow) := SafeMul (toWordSize memSize) 32 in
      if overflow : bool then Ok None else Ok (Some size)
  end.

(** The gas and memory part of a round, before the operation is executed. *)
Definition charge (o : operation) (f : Frame DB) : res (Frame DB + Err * Frame DB) :=
  match UseGas (ctr f) (constantGas o) with
  | None => Ok (inr (ErrOutOfGas, f))
  | Some c =>
    let f := set_ctr c f in
    match dynamicGas o with
    | None => Ok (inl f)
    | Some g =>
      ms ← requestedMemory o (stk f);
      match ms with
      | None => Ok (inr (ErrGasUintOverflow, f))
      | Some memorySize =>
        '(dynamicCost, f) ← run_dynamicGas g f memorySize;
        match dynamicCost with
        | inr _ => Ok (inr (ErrOutOfGas, f))
        | inl cost =>
          match UseGas (ctr f) cost with
          | None => Ok (inr (ErrOutOfGas, f))
          | Some c =>
            let f := set_ctr c f in
            Ok (inl (if memorySize >? 0 then set_mem (Memory.Resize memorySize (mem f)) f else f))
          end
        end
      end
    end
  end.

(** What follows the execution: [break] on an error, else [pc++]; the stop
    token is cleared after the loop. *)
Definition after_execute (r : Frame DB * (bytes * option Err)) : outcome :=
  let '(f, (ret, err)) := r in
  match err with
  | Some e => Done ret (if decide (e = errStopToken) then None else Some e) f
  | None => Next (set_pc (add64 (pc f) 1) f)
  end.

Definition loop_round
    (run : Contract -> bytes -> bool -> EVM DB -> res (bytes * option Err * Contract * EVM DB))
    (jt : JumpTable) (f : Frame DB) : res outcome :=
  let op := GetOp (ctr f) (pc f) in
  o ← nth_or_panic jt op;
  let sLen := Stack.len (stk f) in
  if sLen <? op_minStack o then Ok (Done [] (Some (ErrStackUnderflow sLen (op_minStack o))) f)
  else if sLen >? op_maxStack o then Ok (Done [] (Some (ErrStackOverflow sLen (op_maxStack o))) f)
  else
    r ← charge o f;
    match r with
    | inr (e, f) => Ok (Done [] (Some e) f)
    | inl f => r ← run_execute run (execute o) f; Ok (after_execute r)
    end.

(** ** [Run]

  The body before and after the loop; [defer] restores the depth and, when
  this call set it, the read-only flag. *)
Definition Run_body (loop : Frame DB -> res (bytes * option Err * Frame DB))
    (c : Contract) (input : bytes) (ro : bool) (e : EVM DB)
    : res (bytes * option Err * Contract * EVM DB) :=
  let e := set_depth (depth e + 1) e in
  let set := ro && negb (readOnly e) in
  let e := if set then set_readOnly true e else e in
  let e := set_returnData [] e in
  let leave (e : EVM DB) :=
    let e := if set then set_readOnly false e else e in set_depth (depth e - 1) e in
  if zlen (Code c) =? 0 then Ok ([], None, c, leave e)
  else
    let f := mkFrame 0 Stack.newstack Memory.NewMemory (with_input c input) e in
    '(ret, err, f) ← loop f;
    Ok (ret, err, ctr f, leave (vm f)).

Fixpoint run_loop (jt : JumpTable) (fuel : nat) (f : Frame DB)
    : res (bytes * option Err * Frame DB) :=
  match fuel with
  | O => NoFuel
  | S fuel =>
    o ← loop_round (Run_body (run_loop jt fuel)) jt f;
    match o with
    | Done ret err f => Ok (ret, err, f)
    | Next f => run_loop jt fuel f
    end
  end.

(** [EVMInterpreter.Run] with the table [in.cfg.JumpTable].  Every instruction
    that does not end its frame costs gas, so one unit of fuel per unit of gas
    and one more is enough. *)
Definition Run (jt : JumpTable) (c : Contract) (input : bytes) (ro : bool) (e : EVM DB) :=
  Run_body (run_loop jt (S (Z.to_nat (Gas c)))) c input ro e.

(** The entry points of the machine with that interpreter. *)
Definition EVM_Call (jt : JumpTable) := Call (Run jt).
Definition EVM_CallCode (jt : JumpTable) := CallCode (Run jt).
Definition EVM_DelegateCall (jt : JumpTable) := DelegateCall (Run jt).
Definition EVM_StaticCall (jt : JumpTable) := StaticCall (Run jt).
Definition EVM_Create (jt : JumpTable) := Create env (Run jt).
Definition EVM_Create2 (jt : JumpTable) := Create2 env (Run jt).
End interpreter.
