(* ===== verification/EvmSpec.v ===== *)
(** * What the virtual machine relies on, and what a state change is

    The machine runs against the interface [evm.StateDB] and the hash functions.
    This file states the contract of both as classes of laws, so that the
    theorems about the interpreter are proved against the interface and the
    state database discharges it.

    The changes of the state are the mutating methods of the interface, named by
    [dbop].  [reach ro d d'] says that [d'] is obtained from [d] by a
    well-bracketed sequence of them: a [RevertToSnapshot] only goes back to a
    snapshot taken within the sequence; with [ro = true] only the operations a
    static call may perform occur. *)

From S2P Require Import Prelude Uint256 Config Common EvmAnalysis EvmStack EvmState.

Local Open Scope Z_scope.

(** ** Bytes of a size the machine can produce *)

Definition small (bs : bytes) : Prop := wf_bytes bs /\ zlen bs <= 2 ^ 40.

Lemma small_nil : small [].
Proof. split; [constructor | by compute]. Qed.
#[export] Hint Resolve small_nil : entropy.

(** ** The documented behaviour of the hash and signature functions

    Digests have their fixed size, and a recovered public key has 65 bytes.
    [keccak_inj] is collision resistance, idealised: no two byte strings the
    machine hashes have the same digest. *)
Class CryptoSpec (C : Crypto) : Prop := {
  keccak_inj : forall a b, wf_bytes a -> wf_bytes b -> keccak256 a = keccak256 b -> a = b;
  sha256_size : forall b, wf_bytes (sha256Sum b) /\ zlen (sha256Sum b) = 32;
  ripemd160_size : forall b, wf_bytes (ripemd160Sum b) /\ zlen (ripemd160Sum b) = 20;
  Ecrecover_size : forall h s k, Ecrecover h s = Some k -> wf_bytes k /\ zlen k = 65;
}.

(** ** State changes *)

Inductive dbop :=
| DCreateAccount (a : Address)
| DSubBalance (a : Address) (v : Z)
| DAddBalance (a : Address) (v : Z)
| DSetNonce (a : Address) (n : Z)
| DSetCode (a : Address) (code : bytes)
| DAddRefund (g : Z)
| DSubRefund (g : Z)
| DSetState (a : Address) (k v : Hash)
| DSuicide (a : Address)
| DAddAddress (a : Address)
| DAddSlot (a : Address) (k : Hash)
| DAddLog (l : Log)
| DAddPreimage (h : Hash) (b : bytes).

(** Arguments of the width the Go types have. *)
Definition op_wf (o : dbop) : Prop :=
  match o with
  | DSetNonce _ n => is_u64 n
  | DSetCode _ c => small c
  | DAddRefund g | DSubRefund g => is_u64 g
  | _ => True
  end.

Section changes.
Context {DB : Type} `{SDB : StateDB DB}.

Definition apply_op (o : dbop) (d : DB) : res DB :=
  match o with
  | DCreateAccount a => Ok (CreateAccount a d)
  | DSubBalance a v => Ok (SubBalance a v d)
  | DAddBalance a v => Ok (AddBalance a v d)
  | DSetNonce a n => Ok (SetNonce a n d)
  | DSetCode a c => Ok (SetCode a c d)
  | DAddRefund g => Ok (AddRefund g d)
  | DSubRefund g => SubRefund g d
  | DSetState a k v => Ok (SetState a k v d)
  | DSuicide a => Ok (snd (Suicide a d))
  | DAddAddress a => Ok (AddAddressToAccessList a d)
  | DAddSlot a k => Ok (AddSlotToAccessList a k d)
  | DAddLog l => Ok (AddLog l d)
  | DAddPreimage h b => Ok (AddPreimage h b d)
  end.

(** What a read-only frame may do: move nothing, touch accounts, account for
    gas refunds and accesses, and record preimages. *)
Definition allowed (ro : bool) (o : dbop) (d : DB) : Prop :=
  if ro then
    match o with
    | DCreateAccount a => Exist d a = false
    | DSubBalance _ v | DAddBalance _ v => v = 0
    | DAddRefund _ | DSubRefund _ | DAddAddress _ | DAddSlot _ _ | DAddPreimage _ _ => True
    | _ => False
    end
  else True.

Inductive reach (ro : bool) (d : DB) : DB -> Prop :=
| reach_refl : reach ro d d
| reach_op d1 o d2 :
    reach ro d d1 -> op_wf o -> allowed ro o d1 -> apply_op o d1 = Ok d2 -> reach ro d d2
| reach_snapshot d1 i d2 :
    reach ro d d1 -> Snapshot d1 = (i, d2) -> reach ro d d2
| reach_revert d1 i d2 d3 d4 :
    reach ro d d1 -> Snapshot d1 = (i, d2) -> reach ro d2 d3 ->
    RevertToSnapshot i d3 = Ok d4 -> reach ro d d4.

Lemma reach_trans ro d1 d2 d3 : reach ro d1 d2 -> reach ro d2 d3 -> reach ro d1 d3.
Proof. intros H12 H23. induction H23; eauto using reach. Qed.

Lemma reach_weaken ro d d' : reach ro d d' -> reach false d d'.
Proof.
  induction 1 as [| ? ? ? ? _ ? ? ? ? | ? ? ? ? _ ? ? | ? ? ? ? ? ? _ ? ? ? ? ?].
  - apply reach_refl.
  - eapply reach_op; eauto. done.
  - eapply reach_snapshot; eauto.
  - eapply reach_revert; eauto.
Qed.

Lemma reach_1 ro o d d' : op_wf o -> allowed ro o d -> apply_op o d = Ok d' -> reach ro d d'.
Proof. intros. eapply reach_op; eauto using reach_refl. Qed.

(** ** Observations

  [same_all]: no getter of the interface tells the states apart, nor do the logs
  and the preimages recorded.
  [same_world]: the accounts agree in all they hold; the refund counter, the
  access list and the existence of empty accounts may differ. *)
Record same_world (d d' : DB) : Prop := {
  sw_balance a : GetBalance d' a = GetBalance d a;
  sw_nonce a : GetNonce d' a = GetNonce d a;
  sw_code a : GetCode d' a = GetCode d a;
  sw_state a k : GetState d' a k = GetState d a k;
  sw_suicided a : HasSuicided d' a = HasSuicided d a;
  sw_empty a : Empty d' a = Empty d a;
}.

Record same_all (d d' : DB) : Prop := {
  sa_world : same_world d d';
  sa_hash a : GetCodeHash d' a = GetCodeHash d a;
  sa_size a : GetCodeSize d' a = GetCodeSize d a;
  sa_committed a k : GetCommittedState d' a k = GetCommittedState d a k;
  sa_exist a : Exist d' a = Exist d a;
  sa_refund : GetRefund d' = GetRefund d;
  sa_addr a : AddressInAccessList d' a = AddressInAccessList d a;
  sa_slot a k : SlotInAccessList d' a k = SlotInAccessList d a k;
  sa_logs h : LogsOf d' h = LogsOf d h;
  sa_preimages h : PreimageOf d' h = PreimageOf d h;
}.

#[export] Instance same_world_equiv : Equivalence same_world.
Proof.
  split.
  - intros d. by split.
  - intros d d' []. by split.
  - intros d1 d2 d3 [] []. split; intros; etrans; eauto.
Qed.

#[export] Instance same_all_equiv : Equivalence same_all.
Proof.
  split.
  - intros d. by split.
  - intros d d' []. split; [by symmetry|..]; done.
  - intros d1 d2 d3 [] []. split; intros; etrans; eauto.
Qed.

#[export] Instance same_all_world : subrelation same_all same_world.
Proof. by intros d d' []. Qed.
End changes.

(** ** The contract of the state database *)
Class StateDBSpec (DB : Type) `{SDB : StateDB DB} `{C : Crypto} := {
  (** the invariant of the implementation *)
  db_ok : DB -> Prop;
  op_db_ok d o d' : db_ok d -> op_wf o -> apply_op o d = Ok d' -> db_ok d';
  (** no method but [SubRefund] panics *)
  op_panics d o : db_ok d -> op_wf o ->
    match apply_op o d with Ok _ => True | Panic p => p = PanicRefund | NoFuel => False end;
  (** a snapshot changes nothing, and going back to it undoes everything that
      was done since *)
  snapshot_db_ok d i d' : db_ok d -> Snapshot d = (i, d') -> db_ok d' /\ same_all d d';
  revert_db_ok d i d1 d2 : db_ok d -> Snapshot d = (i, d1) -> reach false d1 d2 ->
    exists d3, RevertToSnapshot i d2 = Ok d3 /\ db_ok d3 /\ same_all d d3;
  (** codes are byte strings, with their hash *)
  code_db_ok d a : db_ok d ->
    small (GetCode d a) /\ (GetCode d a <> [] -> GetCodeHash d a = keccak256 (GetCode d a));
  nonce_db_ok d a : db_ok d -> is_u64 (GetNonce d a);
  refund_db_ok d : db_ok d -> is_u64 (GetRefund d);
  (** the operations of a static call leave the accounts alone *)
  readonly_op d o d' : db_ok d -> op_wf o -> allowed true o d -> apply_op o d = Ok d' ->
    same_world d d';
}.

Section consequences.
Context {DB : Type} `{SDB : StateDB DB} `{C : Crypto} `{!StateDBSpec DB}.

Lemma reach_db_ok ro d d' : reach ro d d' -> db_ok d -> db_ok d'.
Proof.
  induction 1 as [| ? ? ? ? ? IH ? ? ? | ? ? ? ? ? IH ? | ? ? ? ? ? ? ? IH ? ? IH2 ?]; intros Hok.
  - done.
  - eauto using op_db_ok.
  - destruct (snapshot_db_ok d1 i d2); auto.
  - edestruct (revert_db_ok d1 i d2 d3) as (d4' & E & ? & _); eauto using reach_weaken.
    congruence.
Qed.

(** A read-only sequence leaves the accounts as they are. *)
Lemma readonly_reach d d' : reach true d d' -> db_ok d -> same_world d d'.
Proof.
  induction 1 as [| ? ? ? ? R IH ? ? ? | ? ? ? ? R IH E | ? ? ? ? ? ? R IH ? R2 _ ?]; intros Hok.
  - done.
  - etrans; [by apply IH|]. eapply readonly_op; eauto using reach_db_ok.
  - etrans; [by apply IH|]. apply same_all_world.
    eapply snapshot_db_ok in E; eauto using reach_db_ok. tauto.
  - etrans; [by apply IH|]. apply same_all_world.
    edestruct (revert_db_ok d1 i d2 d3) as (d4' & E & _ & ?);
      eauto using reach_weaken, reach_db_ok.
    congruence.
Qed.
End consequences.
