(* ===== verification/EvmInvariant.v ===== *)
(** * The invariants of a call frame

    The properties every frame of the machine keeps while it runs: 256-bit words
    on the stack, a memory of whole paid-for words, byte strings of bounded
    size, a coherent jump destination cache.  [wp] is the weakest precondition of
    a computation that may only panic through the refund counter or the access
    list: it excludes every index, slice, memory and type-assertion panic, and
    running out of fuel. *)

From S2P Require Import Prelude Uint256 Config Common EvmAnalysis EvmStack EvmMemory EvmState.
From S2P Require Import EvmSpec.

Local Open Scope Z_scope.

(** ** Weakest preconditions *)

Definition wp {A} (m : res A) (Q : A -> Prop) : Prop :=
  match m with
  | Ok a => Q a
  | Panic p => p = PanicRefund \/ p = PanicAccessList
  | NoFuel => False
  end.

Lemma wp_bind {A B} (m : res A) (k : A -> res B) Q :
  wp m (fun a => wp (k a) Q) -> wp (m ≫= k) Q.
Proof. by destruct m. Qed.

Lemma wp_mono {A} (m : res A) (P Q : A -> Prop) :
  wp m P -> (forall a, P a -> Q a) -> wp m Q.
Proof. destruct m; simpl; auto. Qed.

Lemma wp_use {A B} (m : res A) (k : A -> res B) P Q :
  wp m P -> (forall a, P a -> wp (k a) Q) -> wp (m ≫= k) Q.
Proof. destruct m; simpl; auto. Qed.

Lemma wp_Ok {A} (m : res A) a (Q : A -> Prop) : m = Ok a -> Q a -> wp m Q.
Proof. by intros ->. Qed.

(** ** Closure of the words under the operations *)

Section closure.
Context `{U : Uint256} `{!Uint256Spec U}.

Lemma is_word_0 : is_word 0.
Proof. by compute. Qed.
Lemma is_word_small x : 0 <= x < 2 ^ 64 -> is_word x.
Proof. unfold is_word, two256. lia. Qed.
Lemma is_word_le x y : is_word y -> 0 <= x <= y -> is_word x.
Proof. unfold is_word. lia. Qed.

Lemma word_Div x y : is_word x -> is_word y -> is_word (u_Div x y).
Proof.
  intros Hx Hy. rewrite Div_spec by done. zcase; [apply is_word_0|].
  eapply is_word_le; [exact Hx|]. unfold is_word in *. split; [apply Z.div_pos; lia|].
  apply Z.div_le_upper_bound; [lia|]. nia.
Qed.
Lemma word_SDiv x y : is_word x -> is_word y -> is_word (u_SDiv x y).
Proof. intros. rewrite SDiv_spec by done. zcase; [apply is_word_0 | apply mod_word]. Qed.
Lemma word_Mod x y : is_word x -> is_word y -> is_word (u_Mod x y).
Proof.
  intros Hx Hy. rewrite Mod_spec by done. zcase; [apply is_word_0|].
  eapply is_word_le; [exact Hy|]. unfold is_word in *.
  pose proof (Z.mod_pos_bound x y). lia.
Qed.
Lemma word_SMod x y : is_word x -> is_word y -> is_word (u_SMod x y).
Proof. intros. rewrite SMod_spec by done. zcase; [apply is_word_0 | apply mod_word]. Qed.
Lemma word_mod_m (b : bool) x m : is_word m -> (b = false -> m <> 0) ->
  is_word (if b then 0 else x mod m).
Proof.
  intros Hm Hb. destruct b; [apply is_word_0|]. eapply is_word_le; [exact Hm|].
  unfold is_word in *. pose proof (Z.mod_pos_bound x m). lia.
Qed.
Lemma word_AddMod x y m : is_word x -> is_word y -> is_word m -> is_word (u_AddMod x y m).
Proof. intros. rewrite AddMod_spec by done. apply word_mod_m; [done|]. intros; by to_prop. Qed.
Lemma word_MulMod x y m : is_word x -> is_word y -> is_word m -> is_word (u_MulMod x y m).
Proof. intros. rewrite MulMod_spec by done. apply word_mod_m; [done|]. intros; by to_prop. Qed.
Lemma word_ExtendSign x n : is_word x -> is_word n -> is_word (u_ExtendSign x n).
Proof. intros. rewrite ExtendSign_spec by done. zcase; [done | apply mod_word]. Qed.
Lemma word_Not x : is_word x -> is_word (u_Not x).
Proof. intros. rewrite Not_spec by done. unfold is_word in *. lia. Qed.
Lemma word_And x y : is_word x -> is_word y -> is_word (u_And x y).
Proof. intros. rewrite And_spec by done. by apply word_land. Qed.
Lemma word_Or x y : is_word x -> is_word y -> is_word (u_Or x y).
Proof.
  intros. rewrite Or_spec by done. apply word_bitop; try done.
  - intros. by apply Z.lor_nonneg.
  - intros. rewrite Z.log2_lor by done. lia.
Qed.
Lemma word_Xor x y : is_word x -> is_word y -> is_word (u_Xor x y).
Proof.
  intros. rewrite Xor_spec by done. apply word_bitop; try done.
  - intros. by apply Z.lxor_nonneg.
  - intros. by apply Z.log2_lxor.
Qed.
Lemma word_Byte x n : is_word x -> is_word n -> is_word (u_Byte x n).
Proof.
  intros. rewrite Byte_spec by done. zcase; [|apply is_word_0]. apply is_word_small.
  pose proof (Z.mod_pos_bound (x / 2 ^ (8 * (31 - n))) 256). lia.
Qed.
Lemma word_Rsh x n : is_word x -> 0 <= n -> is_word (u_Rsh x n).
Proof.
  intros Hx Hn. rewrite Rsh_spec by done. eapply is_word_le; [exact Hx|].
  unfold is_word in *. assert (0 < 2 ^ n) by (apply Z.pow_pos_nonneg; lia).
  split; [apply Z.div_pos; lia|]. apply Z.div_le_upper_bound; nia.
Qed.
Lemma word_SetBytes bs : wf_bytes bs -> is_word (u_SetBytes bs).
Proof. intros. rewrite SetBytes_spec by done. apply mod_word. Qed.
Lemma word_FromBig x : is_word (fst (u_FromBig x)).
Proof. rewrite FromBig_spec. apply mod_word. Qed.
Lemma word_u64 x : is_word (u64 x).
Proof. apply word_of_u64, u64_range. Qed.
Lemma Uint64_nonneg x : is_word x -> 0 <= u_Uint64 x.
Proof. intros. by apply Uint64_range. Qed.
Lemma word_Add x y : is_word x -> is_word y -> is_word (u_Add x y).
Proof. intros. rewrite Add_spec by done. apply mod_word. Qed.
Lemma word_Sub x y : is_word x -> is_word y -> is_word (u_Sub x y).
Proof. intros. rewrite Sub_spec by done. apply mod_word. Qed.
Lemma word_Mul x y : is_word x -> is_word y -> is_word (u_Mul x y).
Proof. intros. rewrite Mul_spec by done. apply mod_word. Qed.
Lemma word_Exp x y : is_word x -> is_word y -> is_word (u_Exp x y).
Proof. intros. rewrite Exp_spec by done. apply mod_word. Qed.
Lemma word_Lsh x n : is_word x -> 0 <= n -> is_word (u_Lsh x n).
Proof. intros. rewrite Lsh_spec by done. apply mod_word. Qed.
Lemma word_SRsh x n : is_word x -> 0 <= n -> is_word (u_SRsh x n).
Proof. intros. rewrite SRsh_spec by done. apply mod_word. Qed.
Lemma word_AllOne : is_word AllOne.
Proof. by compute. Qed.
Lemma word_if (b : bool) x y : is_word x -> is_word y -> is_word (if b then x else y).
Proof. by destruct b. Qed.
Lemma is_word_1 : is_word 1.
Proof. by compute. Qed.
End closure.

#[export] Hint Resolve is_word_0 is_word_1 word_Div word_SDiv word_Mod word_SMod word_AddMod
  word_MulMod word_ExtendSign word_Not word_And word_Or word_Xor word_Byte word_Rsh word_SetBytes
  word_FromBig word_u64 Uint64_nonneg word_Add word_Sub word_Mul word_Exp word_Lsh word_SRsh
  word_AllOne word_if wf_be_bytes : entropy.

(** ** Invariants *)

Section invariants.
Context `{U : Uint256} `{!Uint256Spec U} `{C : Crypto} {DB : Type} `{SDB : StateDB DB}
  `{!StateDBSpec DB}.

(** Every cached analysis is the analysis of a code with that hash. *)
Definition cache_ok (j : gmap Z bitvec) : Prop :=
  forall h a, j !! h = Some a ->
    exists code, small code /\ keccak256 code = h /\ codeBitmap code = Ok a.

Record ctr_ok (c : Contract) : Prop := {
  ok_code : small (Code c);
  ok_input : small (Input c);
  ok_gas : is_u64 (Gas c);
  ok_hash : Code c = [] \/ CodeHash c = 0 \/ CodeHash c = keccak256 (Code c);
  ok_analysis a : analysis c = Some a -> codeBitmap (Code c) = Ok a;
}.

Record vm_ok (e : EVM DB) : Prop := {
  ok_db : db_ok (db e);
  ok_temp : is_u64 (callGasTemp e);
  ok_return : small (returnData e);
  ok_cache : cache_ok (jumpdests e);
}.

Record frame_inv (f : Frame DB) : Prop := {
  ok_pc : is_u64 (pc f);
  ok_stk : wf_stack (stk f);
  ok_mem : mem_ok (mem f);
  ok_ctr : ctr_ok (ctr f);
  ok_vm : vm_ok (vm f);
}.

(** What a running frame never changes, and how the state may have moved. *)
Record vm_rel (ro : bool) (e e' : EVM DB) : Prop := {
  rel_depth : depth e' = depth e;
  rel_readOnly : readOnly e' = readOnly e;
  rel_abort : abort e' = abort e;
  rel_reach : reach ro (db e) (db e');
}.

Record frame_rel (f f' : Frame DB) : Prop := {
  rel_code : Code (ctr f') = Code (ctr f);
  rel_self : self (ctr f') = self (ctr f);
  rel_vm : vm_rel (readOnly (vm f)) (vm f) (vm f');
}.

Lemma vm_rel_refl ro e : vm_rel ro e e.
Proof. split; eauto using reach_refl. Qed.

Lemma vm_rel_trans ro e1 e2 e3 : vm_rel ro e1 e2 -> vm_rel ro e2 e3 -> vm_rel ro e1 e3.
Proof. intros [] []. split; try congruence. eauto using reach_trans. Qed.

Lemma frame_rel_trans f1 f2 f3 : frame_rel f1 f2 -> frame_rel f2 f3 -> frame_rel f1 f3.
Proof.
  intros [? ? [? R ? ?]] [? ? []]. rewrite R in *. split; try congruence.
  split; try congruence. eauto using reach_trans.
Qed.

Lemma frame_rel_refl f : frame_rel f f.
Proof. split; auto using vm_rel_refl. Qed.
#[local] Instance frame_rel_preorder : PreOrder frame_rel.
Proof. split; [exact frame_rel_refl | exact frame_rel_trans]. Qed.

Lemma ctr_ok_gas c g : ctr_ok c -> is_u64 g -> ctr_ok (with_gas c g).
Proof. intros [] ?. by split. Qed.

Lemma vm_ok_db d e : vm_ok e -> db_ok d -> vm_ok (set_db d e).
Proof. intros [] ?. by split. Qed.
Lemma vm_ok_return r e : vm_ok e -> small r -> vm_ok (set_returnData r e).
Proof. intros [] ?. by split. Qed.
Lemma vm_ok_temp g e : vm_ok e -> is_u64 g -> vm_ok (set_callGasTemp g e).
Proof. intros [] ?. by split. Qed.

(** A change of the state through one operation. *)
Lemma vm_op ro o d e : vm_ok e -> op_wf o -> allowed ro o (db e) -> apply_op o (db e) = Ok d ->
  vm_ok (set_db d e) /\ vm_rel ro e (set_db d e).
Proof.
  intros He Ho Ha E. split.
  - apply vm_ok_db; [done|]. eapply op_db_ok; eauto. apply He.
  - split; try done. eapply reach_1; eauto.
Qed.

Lemma UseGas_spec c g : ctr_ok c -> 0 <= g ->
  match UseGas c g with
  | Some c' => c' = with_gas c (Gas c - g) /\ g <= Gas c /\ ctr_ok c'
  | None => Gas c < g
  end.
Proof.
  intros Hc Hg. pose proof (ok_gas _ Hc) as G. unfold is_u64 in G. unfold UseGas. zcase; [done|].
  rewrite sub64_small by lia. split; [done|]. split; [done|].
  apply ctr_ok_gas; [done|]. unfold is_u64. lia.
Qed.

(** ** Jump destinations *)

(** A contract that differs in its gas and its cached analysis only. *)
Definition same_ctr (c c' : Contract) : Prop :=
  Gas c' = Gas c /\ Code c' = Code c /\ self c' = self c.

Lemma ctr_ok_analysis c a : ctr_ok c -> codeBitmap (Code c) = Ok a -> ctr_ok (with_analysis c a).
Proof. intros [] ?. split; try done. cbn. intros; by simplify_eq. Qed.

(** The analysis [isCode] reads is the analysis of the contract's code,
    whatever the cache held, so the check stays within its bitmap. *)
Lemma isCode_spec `{!CryptoSpec C} c udest (e : EVM DB) :
  ctr_ok c -> cache_ok (jumpdests e) -> 0 <= udest < zlen (Code c) ->
  exists c' j, isCode c udest e = Ok (negb (is_data (Code c) udest), c', set_jumpdests j e) /\
    ctr_ok c' /\ same_ctr c c' /\ cache_ok j.
Proof.
  intros Hc Hj Hu. pose proof (ok_code _ Hc) as [Hw Hs].
  destruct (codeBitmap_spec (Code c) Hw) as (a & Ha & _ & Hseg). specialize (Hseg _ Hu).
  pose proof (ctr_ok_analysis _ _ Hc Ha) as Hc'.
  assert (Hset : set_jumpdests (jumpdests e) e = e) by by destruct e.
  unfold isCode. destruct (analysis c) as [a'|] eqn:Ea.
  { pose proof (ok_analysis _ Hc _ Ea). assert (a' = a) as -> by congruence. rewrite Hseg. cbn [mbind res_bind].
    exists c, (jumpdests e). by rewrite Hset. }
  zcase; [|rewrite Ha; cbn [mbind res_bind]; rewrite Hseg;
           exists (with_analysis c a), (jumpdests e); by rewrite Hset].
  destruct (jumpdests e !! CodeHash c) as [a'|] eqn:El; cbn [mbind res_bind].
  - destruct (Hj _ _ El) as (code & [Hcw _] & Hk & Hb).
    assert (code = Code c) as ->.
    { destruct (ok_hash _ Hc) as [E | [E | E]].
      - rewrite E in Hu. unfold zlen in Hu. simpl in Hu. lia.
      - congruence.
      - apply keccak_inj; try done. congruence. }
    assert (a' = a) as -> by congruence. rewrite Hseg. cbn [mbind res_bind].
    exists (with_analysis c a), (jumpdests e). by rewrite Hset.
  - rewrite Ha. cbn [mbind res_bind]. rewrite Hseg. cbn [mbind res_bind].
    eexists _, _. split; [reflexivity|]. split; [done|]. split; [done|].
    intros h a'. rewrite lookup_insert_Some. intros [[<- <-]|[_ ?]]; [|by apply Hj].
    exists (Code c). split; [done|]. split; [|done].
    destruct (ok_hash _ Hc) as [E | [E | E]]; try congruence.
    rewrite E in Hu. unfold zlen in Hu. simpl in Hu. lia.
Qed.

(** A valid destination is the offset of a JUMPDEST instruction of the code. *)
Definition jumpdest_at (code : bytes) (dest : Z) : Prop :=
  code !! Z.to_nat dest = Some 91 /\ is_data code dest = false.

Lemma validJumpdest_spec `{!CryptoSpec C} c dest (e : EVM DB) :
  is_word dest -> ctr_ok c -> cache_ok (jumpdests e) ->
  exists ok c' j, validJumpdest c dest e = Ok (ok, c', set_jumpdests j e) /\
    ctr_ok c' /\ same_ctr c c' /\ cache_ok j /\
    (ok = true <-> jumpdest_at (Code c) dest).
Proof.
  intros Hd Hc Hj. pose proof (ok_code _ Hc) as [Hw Hs]. unfold jumpdest_at.
  assert (Hset : set_jumpdests (jumpdests e) e = e) by by destruct e.
  unfold validJumpdest, u_Uint64WithOverflow.
  rewrite IsUint64_spec, Uint64_spec by done. pose proof Hd as Hd'. unfold is_word in Hd'.
  assert (Hfar : forall b, zlen (Code c) <= dest ->
    Code c !! Z.to_nat dest = Some b -> False).
  { intros b Hl E. apply lookup_lt_Some in E. unfold zlen in *. lia. }
  assert (Hno : (Code c !! Z.to_nat dest = Some 91 -> False) ->
    exists ok c' j, Ok (false, c, e) = Ok (ok, c', set_jumpdests j e) /\
      ctr_ok c' /\ same_ctr c c' /\ cache_ok j /\
      (ok = true <-> Code c !! Z.to_nat dest = Some 91 /\ is_data (Code c) dest = false)).
  { intros Hn. exists false, c, (jumpdests e). rewrite Hset. split_and!; try done.
    split; [done|]. intros [? _]. tauto. }
  destruct (dest <? 2 ^ 64) eqn:E; cbn [negb orb]; to_prop; [|apply Hno; eapply Hfar; lia].
  rewrite Z.mod_small by lia. zcase; [apply Hno; eapply Hfar; lia|].
  destruct (nth_or_panic_Ok (Code c) dest) as (op & -> & Hop); [lia|]. cbn [mbind res_bind].
  zcase; [apply Hno; congruence|]. subst op.
  destruct (isCode_spec c dest e Hc Hj) as (c' & j & -> & ? & ? & ?); [lia|].
  exists (negb (is_data (Code c) dest)), c', j. split_and!; try done.
  rewrite negb_true_iff. tauto.
Qed.
End invariants.
