(* ===== verification/EvmExec.v ===== *)
(** * What an instruction does to a frame

    For every function an operation can execute: how many words it takes and
    leaves, the memory it needs, and the gas it can give back.  The theorem of
    the file is that an instruction started in a frame that satisfies its
    requirements keeps the frame invariant, moves the state along [reach] only,
    and neither runs out of range anywhere nor gains gas. *)

From S2P Require Import Prelude Uint256 Config Common EvmAnalysis EvmStack EvmMemory EvmState.
From S2P Require Import EvmGas EvmCalls EvmInstructions EvmJumpTable EvmInterpreter EvmSpec.
From S2P Require Import EvmInvariant.

Local Open Scope Z_scope.

(** ** The interface of an instruction *)

(** Words taken from and left on the stack. *)
Definition stack_io (i : execId) : Z * Z :=
  match i with
  | I_opStop | I_opJumpdest | I_opUndefined => (0, 0)
  | I_opAdd | I_opMul | I_opSub | I_opDiv | I_opSdiv | I_opMod | I_opSmod | I_opExp
  | I_opSignExtend | I_opLt | I_opGt | I_opSlt | I_opSgt | I_opEq | I_opAnd | I_opXor | I_opOr
  | I_opByte | I_opKeccak256 | I_opSHL | I_opSHR | I_opSAR => (2, 1)
  | I_opAddmod | I_opMulmod => (3, 1)
  | I_opIszero | I_opNot | I_opBalance | I_opCallDataLoad | I_opExtCodeSize | I_opBlockhash
  | I_opMload | I_opSload | I_opExtCodeHash => (1, 1)
  | I_opAddress | I_opOrigin | I_opCaller | I_opCallValue | I_opCallDataSize | I_opCodeSize
  | I_opGasprice | I_opCoinbase | I_opTimestamp | I_opNumber | I_opDifficulty | I_opGasLimit
  | I_opPc | I_opMsize | I_opGas | I_opPush1 | I_makePush _ _ | I_opRandom | I_opReturnDataSize
  | I_opSelfBalance | I_opChainID | I_opBaseFee | I_opPush0 => (0, 1)
  | I_opCallDataCopy | I_opCodeCopy | I_opReturnDataCopy => (3, 0)
  | I_opExtCodeCopy => (4, 0)
  | I_opPop | I_opJump | I_opSelfdestruct => (1, 0)
  | I_opMstore | I_opMstore8 | I_opSstore | I_opJumpi | I_opReturn | I_opRevert => (2, 0)
  | I_makeDup n => (n, n + 1)
  | I_makeSwap n => (n + 1, n + 1)
  | I_makeLog n => (n + 2, 0)
  | I_opCreate => (3, 1)
  | I_opCreate2 => (4, 1)
  | I_opCall | I_opCallCode => (7, 1)
  | I_opDelegateCall | I_opStaticCall => (6, 1)
  end.

(** The memory function that must have sized the memory. *)
Definition mem_of (i : execId) : option memId :=
  match i with
  | I_opKeccak256 => Some M_memoryKeccak256
  | I_opCallDataCopy => Some M_memoryCallDataCopy
  | I_opCodeCopy => Some M_memoryCodeCopy
  | I_opExtCodeCopy => Some M_memoryExtCodeCopy
  | I_opReturnDataCopy => Some M_memoryReturnDataCopy
  | I_opMload => Some M_memoryMLoad
  | I_opMstore => Some M_memoryMStore
  | I_opMstore8 => Some M_memoryMStore8
  | I_makeLog _ => Some M_memoryLog
  | I_opCreate => Some M_memoryCreate
  | I_opCreate2 => Some M_memoryCreate2
  | I_opCall | I_opCallCode => Some M_memoryCall
  | I_opDelegateCall => Some M_memoryDelegateCall
  | I_opStaticCall => Some M_memoryStaticCall
  | I_opReturn => Some M_memoryReturn
  | I_opRevert => Some M_memoryRevert
  | _ => None
  end.

(** The parameters of the generated instructions are in the range the tables use. *)
Definition args_ok (i : execId) : bool :=
  match i with
  | I_makePush size n => (0 <=? size) && (0 <=? n) && (n <=? 32)
  | I_makeDup n | I_makeSwap n => (1 <=? n) && (n <=? 16)
  | I_makeLog n => (0 <=? n) && (n <=? 4)
  | _ => true
  end.

(** The instructions that end their frame. *)
Definition halts (i : execId) : bool :=
  match i with
  | I_opStop | I_opReturn | I_opRevert | I_opSelfdestruct | I_opUndefined => true
  | _ => false
  end.

(** The gas stipend of a call that transfers value. *)
Definition stipend `{Uint256} (st : Stack) : Z :=
  match st !! 2%nat with
  | Some v => if u_IsZero v then 0 else CallStipend
  | None => 0
  end.

(** The gas an instruction may add to the contract's: what the callee got. *)
Definition bonus `{Uint256} {DB} (i : execId) (f : Frame DB) : Z :=
  match i with
  | I_opCall | I_opCallCode => callGasTemp (vm f) + stipend (stk f)
  | I_opDelegateCall | I_opStaticCall => callGasTemp (vm f)
  | _ => 0
  end.

Section exec.
Context `{U : Uint256} `{US : !Uint256Spec U} `{C : Crypto} `{CS : !CryptoSpec C}.
Context {DB : Type} `{SDB : StateDB DB} `{SS : !StateDBSpec DB}.
Context (env : Env).

(** The context fields an instruction dereferences are set. *)
Definition env_needs (i : execId) : Prop :=
  match i with
  | I_opRandom => is_Some (Random env)
  | I_opChainID => is_Some (ChainID (chainConfig env))
  | I_opBaseFee => is_Some (BaseFee env)
  | I_opGasLimit => is_u64 (GasLimit env)
  | _ => True
  end.

Definition covers (m : memId) (f : Frame DB) : Prop :=
  exists sz, run_memorySize m (stk f) = Ok (sz, false) /\ sz <= Memory.Len (mem f).

(** What a call of [Run] promises to the instruction that makes it. *)
Definition run_post (c : Contract) (ro : bool) (e : EVM DB)
    (r : bytes * option Err * Contract * EVM DB) : Prop :=
  let '(ret, err, c', e') := r in
  small ret /\ is_u64 (Gas c') /\ Gas c' <= Gas c /\ vm_ok e' /\
  vm_rel (ro || readOnly e) e e'.

Definition run_spec (G : Z)
    (run : Contract -> bytes -> bool -> EVM DB -> res (bytes * option Err * Contract * EVM DB)) :=
  forall c input ro e, Gas c < G -> ctr_ok c -> small input -> vm_ok e ->
    wp (run c input ro e) (run_post c ro e).

Record exec_pre (G : Z) (i : execId) (f : Frame DB) : Prop := {
  pre_inv : frame_inv f;
  pre_stk : fst (stack_io i) <= zlen (stk f);
  pre_args : args_ok i = true;
  pre_mem : match mem_of i with Some m => covers m f | None => True end;
  pre_pc : i = I_opStop \/ pc f < zlen (Code (ctr f));
  pre_env : env_needs i;
  pre_gas : Gas (ctr f) + bonus i f < G;
}.

Record post (dl bn : Z) (halt : bool) (f : Frame DB) (r : Frame DB * (bytes * option Err)) : Prop := {
  po_inv : frame_inv (fst r);
  po_rel : frame_rel f (fst r);
  po_ret : small (fst (snd r));
  po_gas : Gas (ctr (fst r)) <= Gas (ctr f) + bn;
  po_stk : snd (snd r) = None -> zlen (stk (fst r)) = zlen (stk f) + dl;
  po_halt : halt = true -> snd (snd r) <> None;
}.

Definition exec_post (i : execId) (f : Frame DB) :=
  post (snd (stack_io i) - fst (stack_io i)) (bonus i f) (halts i) f.

Lemma post_intro dl bn h p s m c e p' s' m' c' e' ret err :
  is_u64 p' -> wf_stack s' -> mem_ok m' -> ctr_ok c' -> vm_ok e' ->
  Code c' = Code c -> self c' = self c -> Gas c' <= Gas c + bn ->
  vm_rel (readOnly e) e e' -> small ret ->
  (err = None -> zlen s' = zlen s + dl) -> (h = true -> err <> None) ->
  post dl bn h (mkFrame p s m c e) (mkFrame p' s' m' c' e', (ret, err)).
Proof. intros. by repeat (split; try done). Qed.

(** The frame changes in its program counter, stack and memory only. *)
Lemma post_local dl h p s m c e p' s' m' ret err :
  frame_inv (mkFrame p s m c e) ->
  is_u64 p' -> wf_stack s' -> mem_ok m' -> small ret ->
  (err = None -> zlen s' = zlen s + dl) -> (h = true -> err <> None) ->
  post dl 0 h (mkFrame p s m c e) (mkFrame p' s' m' c e, (ret, err)).
Proof.
  intros [] **. cbn in *. apply post_intro; auto using vm_rel_refl. lia.
Qed.

(** ** Instructions on the stack *)

Definition exec_ok (G : Z) (i : execId) (x : Frame DB -> res (Frame DB * (bytes * option Err))) :=
  forall f, exec_pre G i f -> wp (x f) (exec_post i f).
End exec.

(** Opens a frame whose stack holds the words the instruction takes. *)
Ltac take_words s H n :=
  lazymatch n with
  | O => idtac
  | S ?k =>
    destruct s as [|? s];
    [exfalso; unfold zlen in H; cbn in H; lia | take_words s H k]
  end.

Ltac open_frame n :=
  let p := fresh "p" in let s := fresh "s" in let m := fresh "m" in
  let c := fresh "c" in let e := fresh "e" in
  intros [p s m c e] [Hinv Hstk Hargs Hmem Hpc Henv Hgas];
  cbn [stack_io mem_of fst snd stk vm mem ctr pc] in *;
  take_words s Hstk n;
  pose proof (ok_stk _ Hinv) as Hws; cbn [stk] in Hws; unfold wf_stack in Hws;
  repeat match type of Hws with
  | Forall _ (_ :: _) => let W := fresh "W" in apply Forall_cons in Hws as [W Hws]
  end.

Lemma peek_cons x s : Stack.peek (x :: s) = Ok x.
Proof. reflexivity. Qed.

(** Evaluates an instruction on an opened frame. *)
Ltac ev := cbn; rewrite ?peek_cons; cbn.

(** The rest of a proof that an instruction changed its frame only. *)
Ltac solve_with lem :=
  apply lem; try done;
  try (intros _; unfold Stack.push; cbn [stack_io fst snd stk set_stk set_pc]; rewrite ?zlen_cons; lia);
  repeat apply Forall_cons_2;
  try (match goal with H : frame_inv _ |- _ => apply H end); auto with entropy.
Ltac solve_local := solve_with uconstr:(post_local).

Section stack_instructions.
Context `{U : Uint256} `{US : !Uint256Spec U} `{C : Crypto} `{CS : !CryptoSpec C}.
Context {DB : Type} `{SDB : StateDB DB} `{SS : !StateDBSpec DB}.
Context (env : Env) (G : Z).

(** A word computed from the words taken. *)
Lemma binop_ok i op :
  stack_io i = (2, 1) -> bonus i = (fun _ : Frame DB => 0) -> halts i = false ->
  (forall x y, is_word x -> is_word y -> is_word (op x y)) ->
  exec_ok env G i (binop op).
Proof.
  intros Hio Hb Hh Hop f Hpre. unfold exec_post. rewrite Hio, Hh, Hb.
  destruct Hpre as [Hinv Hstk _ _ _ _ _]. rewrite Hio in Hstk.
  destruct f as [p s m c e]. cbn in *. take_words s Hstk 2%nat.
  pose proof Hinv as [? Hs ? ? ?]. cbn in *. apply Forall_cons in Hs as [? Hs].
  apply Forall_cons in Hs as [? Hs].
  solve_local.
Qed.

Lemma unop_ok i op :
  stack_io i = (1, 1) -> bonus i = (fun _ : Frame DB => 0) -> halts i = false ->
  (forall x, is_word x -> is_word (op x)) ->
  exec_ok env G i (unop op).
Proof.
  intros Hio Hb Hh Hop f Hpre. unfold exec_post. rewrite Hio, Hh, Hb.
  destruct Hpre as [Hinv Hstk _ _ _ _ _]. rewrite Hio in Hstk.
  destruct f as [p s m c e]. cbn in *. take_words s Hstk 1%nat.
  pose proof Hinv as [? Hs ? ? ?]. cbn in *. apply Forall_cons in Hs as [? Hs].
  solve_local.
Qed.

(** A word pushed that depends on the frame. *)
Lemma push_ok i (w : Frame DB -> Z) :
  stack_io i = (0, 1) -> bonus i = (fun _ : Frame DB => 0) -> halts i = false ->
  (forall f, exec_pre env G i f -> is_word (w f)) ->
  exec_ok env G i (fun f => pushF (w f) f).
Proof.
  intros Hio Hb Hh Hop f Hpre. specialize (Hop f Hpre). unfold exec_post. rewrite Hio, Hh, Hb.
  destruct Hpre as [Hinv _ _ _ _ _ _]. destruct f as [p s m c e].
  pose proof Hinv as [? Hs ? ? ?]. cbn in *.
  solve_local.
Qed.

Lemma word_of_bool b : is_word (of_bool b).
Proof. destruct b; by compute. Qed.
Lemma word_shift (f : Z -> Z -> Z) (b : bool) x y :
  (forall v n, is_word v -> 0 <= n -> is_word (f v n)) -> is_word x -> is_word y ->
  is_word (if b then f y (u_Uint64 x) else 0).
Proof. intros. destruct b; auto with entropy. Qed.
Local Hint Resolve word_of_bool word_shift : entropy.

Lemma setTop_word (x : Z) (f : Frame DB) s v :
  stk f = x :: s -> setTopF v f = Ok (set_stk (v :: s) f, ([], None)).
Proof. intros E. unfold setTopF. by rewrite E. Qed.

Lemma Addmod_ok : exec_ok env G I_opAddmod (opAddmod (DB := DB)).
Proof. open_frame 3%nat. cbn. solve_local. Qed.
Lemma Mulmod_ok : exec_ok env G I_opMulmod (opMulmod (DB := DB)).
Proof. open_frame 3%nat. cbn. solve_local. Qed.

Lemma addr_word_ok a : is_word (addr_word a).
Proof. unfold addr_word. auto with entropy. Qed.
Lemma hash_word_ok h : is_word (hash_word h).
Proof. unfold hash_word. auto with entropy. Qed.
Lemma big_word_ok x : is_word (big_word x).
Proof. unfold big_word. auto with entropy. Qed.
Local Hint Resolve addr_word_ok hash_word_ok big_word_ok : entropy.

Lemma Balance_ok : exec_ok env G I_opBalance opBalance.
Proof. open_frame 1%nat. ev. solve_local. Qed.
Lemma ExtCodeSize_ok : exec_ok env G I_opExtCodeSize opExtCodeSize.
Proof. open_frame 1%nat. ev. solve_local. Qed.
Lemma Sload_ok : exec_ok env G I_opSload opSload.
Proof. open_frame 1%nat. ev. solve_local. Qed.
Lemma ExtCodeHash_ok : exec_ok env G I_opExtCodeHash opExtCodeHash.
Proof. open_frame 1%nat. unfold opExtCodeHash. ev. zcase; cbn; solve_local. Qed.
Lemma Blockhash_ok : exec_ok env G I_opBlockhash (opBlockhash (DB := DB) env).
Proof. open_frame 1%nat. unfold opBlockhash. ev. repeat (zcase; cbn); solve_local. Qed.

(** A read of the input or of a code, padded. *)
Lemma getData_small data start size :
  small data -> is_u64 start -> 0 <= size <= 2 ^ 40 ->
  exists r, getData data start size = Ok r /\ wf_bytes r /\ zlen r = size.
Proof.
  intros [Hw Hl] Hs Hz. eexists. split; [apply getData_spec; [done|lia|lia]|].
  split; [auto with entropy|]. unfold zlen in *.
  rewrite length_app, length_take, length_drop, length_replicate. lia.
Qed.

Lemma CallDataLoad_ok : exec_ok env G I_opCallDataLoad (opCallDataLoad (DB := DB)).
Proof.
  open_frame 1%nat. unfold opCallDataLoad. ev.
  destruct (u_IsUint64 z) eqn:E; cbn; [|solve_local].
  destruct (getData_small (Input c) (u_Uint64 z) 32) as (r & -> & ? & ?);
    [apply Hinv | by apply Uint64_range | lia |]. cbn. solve_local.
Qed.

Lemma Pop_ok : exec_ok env G I_opPop (opPop (DB := DB)).
Proof. open_frame 1%nat. ev. solve_local. Qed.
Lemma Jumpdest_ok : exec_ok env G I_opJumpdest (opJumpdest (DB := DB)).
Proof. open_frame 0%nat. ev. solve_local. Qed.
Lemma Stop_ok : exec_ok env G I_opStop (opStop (DB := DB)).
Proof. open_frame 0%nat. ev. solve_local. Qed.

Lemma Undefined_ok : exec_ok env G I_opUndefined (opUndefined (DB := DB)).
Proof.
  open_frame 0%nat. unfold opUndefined. cbn. destruct Hpc as [|Hpc]; [done|].
  pose proof (ok_pc _ Hinv) as Hp. cbn in Hp. unfold is_u64 in Hp.
  destruct (nth_or_panic_Ok (Code c) p) as (op & -> & _); [lia|]. cbn. solve_local.
Qed.

Lemma Random_ok : exec_ok env G I_opRandom (opRandom (DB := DB) env).
Proof. open_frame 0%nat. unfold opRandom. destruct Henv as [? ->]. cbn. solve_local. Qed.
Lemma ChainID_ok : exec_ok env G I_opChainID (opChainID (DB := DB) env).
Proof. open_frame 0%nat. unfold opChainID. destruct Henv as [? ->]. cbn. solve_local. Qed.
Lemma BaseFee_ok : exec_ok env G I_opBaseFee (opBaseFee (DB := DB) env).
Proof. open_frame 0%nat. unfold opBaseFee. destruct Henv as [? ->]. cbn. solve_local. Qed.

Lemma Push1_ok : exec_ok env G I_opPush1 (opPush1 (DB := DB)).
Proof.
  open_frame 0%nat. unfold opPush1. cbn. pose proof (ok_code _ (ok_ctr _ Hinv)) as [Hw Hl].
  cbn in Hw, Hl. pose proof (zlen_nonneg (Code c)). rewrite u64_small by (unfold is_u64; lia).
  assert (P : is_u64 (add64 p 1)) by apply u64_range.
  zcase; cbn; [|solve_local]. unfold is_u64 in P.
  destruct (nth_or_panic_Ok (Code c) (add64 p 1)) as (b & -> & Hb); [lia|]. cbn.
  eapply Forall_lookup_1 in Hb; [|exact Hw]. unfold is_byte in Hb.
  solve_local. apply is_word_small. lia.
Qed.

Lemma makePush_ok size n : exec_ok env G (I_makePush size n) (makePush (DB := DB) size n).
Proof.
  open_frame 0%nat. cbn in Hargs. to_prop. destruct Hpc as [|Hpc]; [done|].
  pose proof (ok_code _ (ok_ctr _ Hinv)) as [Hw Hl]. pose proof (ok_pc _ Hinv) as Hp.
  cbn in Hw, Hl, Hp. unfold is_u64 in Hp. unfold makePush. cbn.
  rewrite (add64_small p 1), i64_small by lia.
  set (st := if p + 1 <? zlen (Code c) then p + 1 else zlen (Code c)).
  assert (Hst : 0 <= st <= zlen (Code c)) by (unfold st; zcase; lia).
  set (en := if st + n <? zlen (Code c) then st + n else zlen (Code c)).
  assert (Hen : st <= en <= zlen (Code c) /\ en - st <= n) by (unfold en; zcase; lia).
  destruct (slice (Code c) st en) as [d| |] eqn:E;
    [|by rewrite slice_Ok in E by lia..]. cbn.
  pose proof (slice_length _ _ _ _ E). rewrite slice_Ok in E by lia. injection E as <-.
  rewrite RightPadBytes_spec by lia. cbn. solve_local.
Qed.

Lemma makeDup_ok n : exec_ok env G (I_makeDup n) (makeDup (DB := DB) n).
Proof.
  open_frame 0%nat. cbn in Hargs. to_prop. unfold makeDup. cbn [stk].
  destruct (dup_spec n s) as (x & _ & E); [lia|].
  destruct (dup_wf n s (x :: s)) as [Hw _]; [exact Hws | done |].
  rewrite E. cbn. apply post_local; try done; try apply Hinv; auto with entropy.
  intros _. rewrite zlen_cons. cbn. lia.
Qed.

Lemma makeSwap_ok n : exec_ok env G (I_makeSwap n) (makeSwap (DB := DB) n).
Proof.
  open_frame 0%nat. cbn in Hargs. to_prop. unfold makeSwap. cbn [stk].
  destruct (swap_spec (n + 1) s) as (s' & E & Hl & _); [lia|].
  destruct (swap_wf (n + 1) s s') as [Hw _]; [exact Hws | done |].
  rewrite E. cbn. apply post_local; try done; try apply Hinv; auto with entropy.
  intros _. unfold zlen. rewrite Hl. cbn. lia.
Qed.
End stack_instructions.

Section memory_instructions.
Context `{U : Uint256} `{US : !Uint256Spec U} `{C : Crypto} `{CS : !CryptoSpec C}.
Context {DB : Type} `{SDB : StateDB DB} `{SS : !StateDBSpec DB}.
Context (env : Env) (G : Z).

(** The ranges a sized memory covers. *)
Lemma covers_range (mid : memId) a b (f : Frame DB) o l :
  run_memorySize mid = memoryRange a b -> covers mid f -> wf_stack (stk f) ->
  Stack.Back (stk f) a = Ok o -> Stack.Back (stk f) b = Ok l -> is_word o -> is_word l ->
  in_range (mem f) (u_Uint64 o) (u_Uint64 l).
Proof.
  intros E (sz & H & Hl) Hw Ho Hb Wo Wl. rewrite E in H.
  by destruct (memoryRange_in _ (mem f) _ _ _ _ _ Hw H Hl Ho Hb Wo Wl).
Qed.

Lemma covers_u64 (mid : memId) a b (f : Frame DB) o l :
  run_memorySize mid = memoryRange a b -> covers mid f -> wf_stack (stk f) ->
  Stack.Back (stk f) a = Ok o -> Stack.Back (stk f) b = Ok l -> is_word o -> is_word l ->
  is_u64 l.
Proof.
  intros E (sz & H & Hl) Hw Ho Hb Wo Wl. rewrite E in H.
  by destruct (memoryRange_in _ (mem f) _ _ _ _ _ Hw H Hl Ho Hb Wo Wl).
Qed.

Lemma covers_two_ranges (mid : memId) o1 l1 o2 l2 (f : Frame DB) a b c d :
  run_memorySize mid = memoryTwoRanges o1 l1 o2 l2 -> covers mid f -> wf_stack (stk f) ->
  Stack.Back (stk f) o1 = Ok a -> Stack.Back (stk f) l1 = Ok b ->
  Stack.Back (stk f) o2 = Ok c -> Stack.Back (stk f) l2 = Ok d ->
  is_word a -> is_word b -> is_word c -> is_word d ->
  in_range (mem f) (u_Uint64 a) (u_Uint64 b) /\ in_range (mem f) (u_Uint64 c) (u_Uint64 d).
Proof.
  intros E (sz & H & Hl) Hw Ha Hb Hc Hd Wa Wb Wc Wd. rewrite E in H. unfold memoryTwoRanges in H.
  destruct (memoryRange o1 l1 (stk f)) as [[x []]| |] eqn:R1; cbn in H; try done.
  destruct (memoryRange o2 l2 (stk f)) as [[y []]| |] eqn:R2; cbn in H; try done.
  assert (x <= sz /\ y <= sz) by (zcase; simplify_eq; lia).
  split.
  - refine (proj2 (memoryRange_in _ _ _ _ _ _ x Hw R1 _ Ha Hb Wa Wb)). lia.
  - refine (proj2 (memoryRange_in _ _ _ _ _ _ y Hw R2 _ Hc Hd Wc Wd)). lia.
Qed.

Lemma in_range_small m o l : mem_ok m -> in_range m o l -> l <= 2 ^ 40.
Proof. intros Hm Hr. pose proof (mem_ok_len m Hm). destruct Hr as [-> | ?]; lia. Qed.

(** A read or write of a range the memory covers. *)
Lemma wp_set {A} o l v m (k : Memory -> res A) Q :
  mem_ok m -> wf_bytes v -> in_range m o l ->
  (forall m', mem_ok m' -> Memory.Len m' = Memory.Len m -> wp (k m') Q) ->
  wp (Memory.set o l v m ≫= k) Q.
Proof.
  intros Hm Hv Hr H. destruct (set_Ok o l v m Hm Hv Hr) as (m' & -> & ? & ?). cbn. auto.
Qed.

Lemma wp_GetPtr {A} o l m (k : bytes -> res A) Q :
  mem_ok m -> in_range m o l -> (forall r, small r -> zlen r = l -> wp (k r) Q) ->
  wp (Memory.GetPtr m (i64 o) (i64 l) ≫= k) Q.
Proof.
  intros Hm Hr H. destruct (GetPtr_Ok o l m Hm Hr) as (r & -> & ? & ?). cbn. apply H; [|done].
  split; [done|]. pose proof (in_range_small m o l Hm Hr). lia.
Qed.

Lemma wp_GetCopy {A} o l m (k : bytes -> res A) Q :
  mem_ok m -> in_range m o l -> (forall r, small r -> zlen r = l -> wp (k r) Q) ->
  wp (Memory.GetCopy m (i64 o) (i64 l) ≫= k) Q.
Proof.
  intros Hm Hr H. destruct (GetCopy_Ok o l m Hm Hr) as (r & -> & ? & ?). cbn. apply H; [|done].
  split; [done|]. pose proof (in_range_small m o l Hm Hr). lia.
Qed.

Lemma wp_getData {A} data start size (k : bytes -> res A) Q :
  small data -> is_u64 start -> 0 <= size <= 2 ^ 40 ->
  (forall r, wf_bytes r -> wp (k r) Q) -> wp (getData data start size ≫= k) Q.
Proof.
  intros Hd Hs Hz H. destruct (getData_small data start size Hd Hs Hz) as (r & -> & ? & ?).
  cbn. auto.
Qed.

Lemma clamp64_range x : is_word x -> is_u64 (clamp64 x).
Proof.
  intros. unfold clamp64, u_Uint64WithOverflow. zcase; [unfold is_u64, MaxUint64; lia|].
  by apply Uint64_range.
Qed.
End memory_instructions.

Ltac range_with lem H :=
  match type of H with covers ?mid ?f => refine (lem mid _ _ f _ _ _ _ _ _ _ _ _) end;
  [reflexivity | exact H | match goal with H : frame_inv _ |- _ => apply H end
  | reflexivity | reflexivity | done | done].
Ltac range H := range_with uconstr:(covers_range) H.

Section memory_instructions2.
Context `{U : Uint256} `{US : !Uint256Spec U} `{C : Crypto} `{CS : !CryptoSpec C}.
Context {DB : Type} `{SDB : StateDB DB} `{SS : !StateDBSpec DB}.
Context (env : Env) (G : Z).

Lemma CallDataCopy_ok : exec_ok env G I_opCallDataCopy (opCallDataCopy (DB := DB)).
Proof.
  open_frame 3%nat. ev. pose proof (ok_mem _ Hinv) as Hm. cbn in Hm.
  assert (R : in_range m (u_Uint64 z) (u_Uint64 z1)) by range Hmem.
  pose proof (in_range_small _ _ _ Hm R). pose proof (Uint64_nonneg z1 ltac:(done)).
  apply wp_getData; [apply Hinv | by apply clamp64_range | lia |]. intros r Hr.
  apply wp_set; try done. intros m' Hm' _. cbn. solve_local.
Qed.

Lemma CodeCopy_ok : exec_ok env G I_opCodeCopy (opCodeCopy (DB := DB)).
Proof.
  open_frame 3%nat. ev. pose proof (ok_mem _ Hinv) as Hm. cbn in Hm.
  assert (R : in_range m (u_Uint64 z) (u_Uint64 z1)) by range Hmem.
  pose proof (in_range_small _ _ _ Hm R). pose proof (Uint64_nonneg z1 ltac:(done)).
  apply wp_getData; [apply Hinv | by apply clamp64_range | lia |]. intros r Hr.
  apply wp_set; try done. intros m' Hm' _. cbn. solve_local.
Qed.

Lemma ExtCodeCopy_ok : exec_ok env G I_opExtCodeCopy opExtCodeCopy.
Proof.
  open_frame 4%nat. ev. pose proof (ok_mem _ Hinv) as Hm. cbn in Hm.
  assert (R : in_range m (u_Uint64 z0) (u_Uint64 z2)) by range Hmem.
  pose proof (in_range_small _ _ _ Hm R). pose proof (Uint64_nonneg z2 ltac:(done)).
  apply wp_getData; [apply code_db_ok, Hinv | by apply clamp64_range | lia |]. intros r Hr.
  apply wp_set; try done. intros m' Hm' _. cbn. solve_local.
Qed.

Lemma ReturnDataCopy_ok : exec_ok env G I_opReturnDataCopy (opReturnDataCopy (DB := DB)).
Proof.
  open_frame 3%nat. ev. pose proof (ok_mem _ Hinv) as Hm. cbn in Hm.
  pose proof (ok_return _ (ok_vm _ Hinv)) as [Hrw Hrl]. cbn in Hrw, Hrl.
  assert (R : in_range m (u_Uint64 z) (u_Uint64 z1)) by range Hmem.
  pose proof (in_range_small _ _ _ Hm R). pose proof (zlen_nonneg (returnData e)).
  assert (L : is_u64 z1) by range_with uconstr:(covers_u64) Hmem.
  destruct (u_IsUint64 z0) eqn:E0; cbn; [|solve_local].
  destruct (u_IsUint64 (u_Add z0 z1)) eqn:E1; cbn; [|solve_local].
  rewrite (u64_small (zlen (returnData e))) by (unfold is_u64; lia).
  zcase; cbn; [solve_local|].
  destruct (IsUint64_true _ W0 E0) as [X0 ?].
  destruct (IsUint64_true _ (word_Add _ _ W0 W1) E1) as [X1 ?].
  rewrite <- X0. rewrite <- X1 in *. revert X1 E1. rewrite Add_spec in * by done. intros X1 E1.
  unfold is_u64, is_word, two256 in *.
  assert (z0 <= (z0 + z1) mod 2 ^ 256).
  { destruct (decide (z0 + z1 < 2 ^ 256)); [rewrite Z.mod_small by lia; lia|].
    lia. }
  rewrite slice_Ok by lia. cbn. apply wp_set; auto with entropy. intros m' Hm' _. cbn. solve_local.
Qed.

Lemma u8_is_byte x : is_byte (u8 x).
Proof. apply Z.mod_pos_bound. lia. Qed.

Lemma Mload_ok : exec_ok env G I_opMload (opMload (DB := DB)).
Proof.
  open_frame 1%nat. ev. destruct Hmem as (sz & H & Hl).
  assert (R : in_range m (u_Uint64 z) 32).
  { injection H as H. by refine (proj2 (calcWithUint_in m z 32 sz _ _ H _)). }
  apply (wp_GetPtr (u_Uint64 z) 32); [apply Hinv | done |]. intros r [Hr _] _. cbn. solve_local.
Qed.

Lemma Mstore_ok : exec_ok env G I_opMstore (opMstore (DB := DB)).
Proof.
  open_frame 2%nat. ev. destruct Hmem as (sz & H & Hl).
  assert (R : in_range m (u_Uint64 z) 32).
  { injection H as H. by refine (proj2 (calcWithUint_in m z 32 sz _ _ H _)). }
  destruct (set32_Ok (u_Uint64 z) z0 m) as (m' & -> & ? & ?); [apply Hinv | done |].
  cbn. solve_local.
Qed.

Lemma Mstore8_ok : exec_ok env G I_opMstore8 (opMstore8 (DB := DB)).
Proof.
  open_frame 2%nat. ev. destruct Hmem as (sz & H & Hl).
  assert (R : in_range m (u_Uint64 z) 1).
  { injection H as H. by refine (proj2 (calcWithUint_in m z 1 sz _ _ H _)). }
  destruct (set_byte_Ok (u_Uint64 z) (u8 (u_Uint64 z0)) m) as (m' & -> & ? & ?);
    [apply Hinv | apply u8_is_byte | done |].
  cbn. solve_local.
Qed.

Lemma Return_ok : exec_ok env G I_opReturn (opReturn (DB := DB)).
Proof.
  open_frame 2%nat. ev.
  assert (R : in_range m (u_Uint64 z) (u_Uint64 z0)) by range Hmem.
  apply wp_GetPtr; [apply Hinv | done |]. intros r Hr _. cbn. solve_local.
Qed.

(** An instruction that also changes the machine. *)
Lemma post_vm dl h p s m c e p' s' m' e' ret err :
  frame_inv (mkFrame p s m c e) ->
  is_u64 p' -> wf_stack s' -> mem_ok m' -> vm_ok e' -> vm_rel (readOnly e) e e' -> small ret ->
  (err = None -> zlen s' = zlen s + dl) -> (h = true -> err <> None) ->
  post dl 0 h (mkFrame p s m c e) (mkFrame p' s' m' c e', (ret, err)).
Proof. intros [] **. cbn in *. apply post_intro; auto. lia. Qed.

Lemma Revert_ok : exec_ok env G I_opRevert (opRevert (DB := DB)).
Proof.
  open_frame 2%nat. ev.
  assert (R : in_range m (u_Uint64 z) (u_Uint64 z0)) by range Hmem.
  apply wp_GetPtr; [apply Hinv | done |]. intros r Hr _. cbn.
  apply post_vm; try done; try apply Hinv.
  - apply vm_ok_return; [apply Hinv | done].
  - split; cbn; try done. apply reach_refl.
Qed.

Lemma Keccak256_ok : exec_ok env G I_opKeccak256 (opKeccak256 env).
Proof.
  open_frame 2%nat. ev.
  assert (R : in_range m (u_Uint64 z) (u_Uint64 z0)) by range Hmem.
  apply wp_GetPtr; [apply Hinv | done |]. intros r Hr _. cbn.
  assert (W' : wf_stack (hash_word (keccak256 r) :: s)).
  { apply Forall_cons_2; [|done]. unfold hash_word. auto with entropy. }
  zcase; cbn.
  - destruct (vm_op (readOnly e) (DAddPreimage (keccak256 r) r) (AddPreimage (keccak256 r) r (db e)) e)
      as [? ?]; try done; [apply Hinv | by destruct (readOnly e) |].
    solve_with uconstr:(post_vm).
  - solve_local.
Qed.

(** ** Storage, logs, destruction *)

Lemma Sstore_ok : exec_ok env G I_opSstore opSstore.
Proof.
  open_frame 2%nat. unfold opSstore. cbn. destruct (readOnly e) eqn:Ero; cbn; [solve_local|].
  destruct (vm_op (readOnly e) (DSetState (self c) (u_Bytes32 z) (u_Bytes32 z0)) _ e
    ltac:(apply Hinv) I ltac:(by rewrite Ero) eq_refl).
  solve_with uconstr:(post_vm).
Qed.

Lemma Selfdestruct_ok : exec_ok env G I_opSelfdestruct opSelfdestruct.
Proof.
  open_frame 1%nat. unfold opSelfdestruct. cbn. destruct (readOnly e) eqn:Ero; cbn; [solve_local|].
  destruct (vm_op (readOnly e) (DAddBalance (u_Bytes20 z) (GetBalance (db e) (self c))) _ e
    ltac:(apply Hinv) I ltac:(by rewrite Ero) eq_refl) as [V1 R1].
  destruct (vm_op (readOnly e) (DSuicide (self c)) _ _ V1 I ltac:(by rewrite Ero) eq_refl) as [V2 R2].
  solve_with uconstr:(post_vm). by eapply vm_rel_trans.
Qed.

Lemma popTopics_ok n p s m c (e : EVM DB) : Forall is_word s -> (n <= length s)%nat ->
  exists l, popTopics n (mkFrame p s m c e) = Ok (l, mkFrame p (drop n s) m c e).
Proof.
  revert s. induction n as [|n IH]; intros s Hs Hn; [by exists []|].
  destruct s as [|x s]; cbn in Hn; [lia|]. apply Forall_cons in Hs as [? ?].
  destruct (IH s) as (l & E); [done|lia|]. exists (u_Bytes32 x :: l). cbn.
  unfold set_stk. cbn. by rewrite E.
Qed.

Lemma makeLog_ok n : exec_ok env G (I_makeLog n) (makeLog env n).
Proof.
  intros f Hpre. pose proof (pre_args _ _ _ _ Hpre) as Ha. cbn in Ha. to_prop.
  pose proof (pre_stk _ _ _ _ Hpre) as Hn. cbn in Hn.
  destruct f as [p s m c e]. destruct Hpre as [Hinv Hstk Hargs Hmem Hpc Henv Hgas]. cbn [stack_io mem_of fst snd stk] in *.
  do 2 (destruct s as [|? s]; [exfalso; unfold zlen in Hn; cbn in Hn; lia|]).
  pose proof (ok_stk _ Hinv) as Hws. cbn in Hws.
  apply Forall_cons in Hws as [W Hws]. apply Forall_cons in Hws as [W0 Hws].
  unfold makeLog. cbn. destruct (readOnly e) eqn:Ero; cbn.
  { solve_local. }
  assert (R : in_range m (u_Uint64 z) (u_Uint64 z0)) by range Hmem.
  destruct (popTopics_ok (Z.to_nat n) p s m c e Hws) as (l & E).
  { rewrite !zlen_cons in Hn. unfold zlen in Hn. lia. }
  unfold set_stk. cbn. rewrite E. cbn.
  apply wp_GetCopy; [apply Hinv | done |]. intros r Hr _. cbn.
  match goal with |- context [AddLog ?l] =>
    destruct (vm_op (readOnly e) (DAddLog l) _ e ltac:(apply Hinv) I ltac:(by rewrite Ero) eq_refl)
  end.
  apply post_vm; try done; try apply Hinv; auto with entropy.
  - by apply Forall_drop.
  - intros _. rewrite !zlen_cons in *. unfold zlen in *. cbn. rewrite length_drop. lia.
Qed.

(** ** Jumps *)

Lemma jump_to_ok (i : execId) p s s0 m c (e : EVM DB) z :
  bonus i = (fun _ : Frame DB => 0) -> halts i = false ->
  frame_inv (mkFrame p s0 m c e) -> wf_stack s -> is_word z ->
  zlen s = zlen s0 + (snd (stack_io i) - fst (stack_io i)) ->
  wp (jump_to z (mkFrame p s m c e)) (exec_post i (mkFrame p s0 m c e)).
Proof.
  intros Hb Hh Hinv Hs Hz Hl. unfold exec_post. rewrite Hb, Hh. unfold jump_to. cbn [ctr vm].
  destruct (validJumpdest_spec c z e Hz) as (ok & c' & j & -> & Hc' & (Hg & Hcode & Hself) & Hj & _);
    [apply Hinv | apply Hinv |].
  assert (V : vm_ok (set_jumpdests j e)) by (pose proof (ok_vm _ Hinv) as []; by split).
  assert (Rl : vm_rel (readOnly e) e (set_jumpdests j e)) by (split; try done; apply reach_refl).
  cbn. destruct ok; cbn.
  all: apply post_intro; try done; try apply Hinv; auto with entropy; cbn; lia.
Qed.

Lemma Jump_ok : exec_ok env G I_opJump (opJump (DB := DB)).
Proof.
  open_frame 1%nat. unfold opJump. cbn. destruct (abort e) eqn:Ea; cbn; [solve_local|].
  apply jump_to_ok; try done. rewrite zlen_cons. cbn. lia.
Qed.

Lemma Jumpi_ok : exec_ok env G I_opJumpi (opJumpi (DB := DB)).
Proof.
  open_frame 2%nat. unfold opJumpi. cbn. destruct (abort e) eqn:Ea; cbn; [solve_local|].
  zcase; [apply jump_to_ok; try done; rewrite !zlen_cons; cbn; lia|]. cbn. solve_local.
Qed.
End memory_instructions2.
