(* ===== verification/EvmCallSpec.v ===== *)
(** * What a call does

    The contracts of the precompiles, of [Call], [CallCode], [DelegateCall],
    [StaticCall] and of [create], relative to the contract [run_spec] of the
    interpreter they start: no gas is gained, the state moves along [reach]
    only, and a call that fails leaves the state it found. *)

From S2P Require Import Prelude Uint256 Config Common EvmAnalysis EvmStack EvmMemory Rlp RlpSpec.
From S2P Require Import EvmState EvmGas EvmCalls EvmInstructions EvmJumpTable EvmInterpreter.
From S2P Require Import EvmSpec EvmInvariant EvmExec.

Local Open Scope Z_scope.

(** ** Precompiled contracts *)

Section precompiles.
Context `{C : Crypto} `{CS : !CryptoSpec C}.

Lemma LeftPadBytes_Ok s l : wf_bytes s -> 0 <= l -> zlen s <= l ->
  exists r, LeftPadBytes s l = Ok r /\ wf_bytes r /\ zlen r = l.
Proof.
  intros Hw Hl Hs. unfold LeftPadBytes, make_bytes. pose proof (zlen_nonneg s). zcase.
  - exists s. split; [done|]. split; [done|lia].
  - destruct (l <? 0) eqn:E; to_prop; [lia|]. cbn. eexists. split; [done|].
    split; [auto with entropy|].
    assert (E' : length (splice (replicate (Z.to_nat l) 0) (l - zlen s) s) = Z.to_nat l).
    { rewrite splice_length; [apply length_replicate | lia | rewrite zlen_replicate by lia; lia]. }
    unfold zlen at 1. rewrite E'. lia.
Qed.

Lemma ecrecover_Run_Ok input : small input ->
  exists r, ecrecover_Run input = Ok (r, None) /\ small r.
Proof.
  intros [Hw Hl]. unfold ecrecover_Run.
  assert (Hi : exists inp, RightPadBytes input 128 = Ok inp /\ wf_bytes inp /\ 128 <= zlen inp).
  { destruct (decide (zlen input <= 128)) as [Hs|Hs].
    - rewrite RightPadBytes_spec by lia. eexists. split; [done|]. split; [auto with entropy|].
      unfold zlen in *. rewrite length_app, length_replicate. lia.
    - exists input. split; [|split; [done|lia]]. unfold RightPadBytes. zcase; [done|lia]. }
  destruct Hi as (inp & -> & Hwi & Hli). cbn [mbind res_bind].
  rewrite (slice_Ok inp 64 96), (slice_Ok inp 96 128) by lia. cbn [mbind res_bind].
  destruct (nth_or_panic_Ok inp 63) as (v0 & -> & _); [lia|]. cbn [mbind res_bind].
  rewrite (slice_Ok inp 32 63) by lia. cbn [mbind res_bind].
  zcase; [by exists []; split; [|apply small_nil]|].
  rewrite (slice_Ok inp 64 128), (slice_Ok inp 0 32) by lia. cbn [mbind res_bind].
  destruct (Ecrecover _ _) as [k|] eqn:Ek; [|by exists []; split; [|apply small_nil]].
  destruct (Ecrecover_size _ _ _ Ek) as [_ Hk].
  rewrite slice_Ok by lia. cbn [mbind res_bind].
  destruct (LeftPadBytes_Ok (be_bytes 20 (keccak256 (take (Z.to_nat (zlen k - 1)) (drop (Z.to_nat 1) k)))) 32)
    as (r & -> & Hr & Hr'); [apply wf_be_bytes | lia | rewrite zlen_be_bytes; lia |].
  exists r. split; [done|]. split; [done|lia].
Qed.

Lemma RunPrecompiledContract_Ok addr p input gas :
  precompile addr = Some p -> small input -> is_u64 gas ->
  exists ret g err, RunPrecompiledContract p input gas = Ok (ret, g, err) /\
    small ret /\ is_u64 g /\ g <= gas.
Proof.
  intros Hp Hi Hg. unfold RunPrecompiledContract. unfold is_u64 in Hg.
  assert (Hreq : 0 <= RequiredGas p input /\ exists r, PRun p input = Ok (r, None) /\ small r).
  { assert (D : p = ecrecover \/ p = sha256hash \/ p = ripemd160hash \/ p = dataCopy).
    { unfold precompile in Hp. repeat (case_match; simplify_eq; auto). }
    destruct D as [-> | [-> | [-> | ->]]]; (split; [first [apply u64_range | by compute]|]).
    - by apply ecrecover_Run_Ok.
    - eexists. split; [done|]. destruct (sha256_size input). split; [done|lia].
    - cbn. destruct (ripemd160_size input).
      destruct (LeftPadBytes_Ok (ripemd160Sum input) 32) as (r & -> & ? & ?); [done|lia|lia|].
      eexists. split; [done|]. split; [done|lia].
    - by eexists. }
  destruct Hreq as [H0 (r & Hr & Hs)]. zcase.
  - exists [], 0, (Some ErrOutOfGas). split; [done|]. split; [apply small_nil|]. unfold is_u64. lia.
  - rewrite Hr. cbn [mbind res_bind]. rewrite sub64_small by lia.
    eexists _, _, _. split; [done|]. split; [done|]. unfold is_u64. lia.
Qed.
End precompiles.

(** ** Calls *)

Section calls.
Context `{C : Crypto} `{CS : !CryptoSpec C} {DB : Type} `{SDB : StateDB DB} `{SS : !StateDBSpec DB}.
Context (G : Z).
Context (run : Contract -> bytes -> bool -> EVM DB -> res (bytes * option Err * Contract * EVM DB)).
Context (Hrun : run_spec G run).

(** The contract of a call that was given [gas]: [ro] says which operations it
    may perform. *)
Definition call_post (gas : Z) (ro : bool) (e : EVM DB) (r : bytes * Z * option Err * EVM DB) : Prop :=
  let '(ret, g, err, e') := r in
  small ret /\ is_u64 g /\ g <= gas /\ vm_ok e' /\ vm_rel ro e e' /\
  (err <> None -> same_all (db e) (db e')).

(** The same before the call is settled, after the snapshot. *)
Definition inner_post (gas : Z) (ro : bool) (e : EVM DB) (r : bytes * Z * option Err * EVM DB) : Prop :=
  let '(ret, g, err, e') := r in
  small ret /\ is_u64 g /\ g <= gas /\ vm_ok e' /\ vm_rel ro e e'.

Lemma vm_rel_weaken ro e e' : vm_rel true e e' -> vm_rel (DB := DB) ro e e'.
Proof. intros []. destruct ro; split; try done. by apply reach_weaken with true. Qed.

(** A refused call. *)
Lemma call_refused gas ro e er : is_u64 gas -> vm_ok e ->
  call_post gas ro e ([], gas, Some er, e).
Proof.
  intros. unfold call_post. split; [apply small_nil|]. split; [done|]. split; [lia|].
  split; [done|]. split; [apply vm_rel_refl|]. intros _. reflexivity.
Qed.

Lemma call_settled gas ro e i d mid :
  vm_ok e -> Snapshot (db e) = (i, d) -> wp mid (inner_post gas ro (set_db d e)) ->
  wp (mid ≫= (fun '(ret, g, err, e') => settle i ret g err e')) (call_post gas ro e).
Proof.
  intros He Hs Hm. eapply wp_use; [exact Hm|]. intros [[[ret g] err] e'] (Hr & Hg & Hle & Hv & Hrel).
  destruct Hrel as [R1 R2 R3 R4]. cbn in R1, R2, R3, R4.
  destruct (snapshot_db_ok (db e) i d (ok_db _ He) Hs) as [Hd _].
  unfold settle. destruct err as [er|].
  - destruct (revert_db_ok (db e) i d (db e')) as (d3 & E & Hd3 & Hsame);
      [apply He | done | by apply reach_weaken with ro |].
    rewrite E. cbn. split; [done|]. unfold is_u64 in *. split; [case_decide; lia|].
    split; [case_decide; lia|]. split; [by apply vm_ok_db|]. split; [|done].
    split; try done. by apply (reach_revert ro (db e) (db e) i d (db e') d3 (reach_refl _ _)).
  - cbn. split_and!; try done. split; try done.
    eapply reach_trans; [|exact R4]. by apply (reach_snapshot ro (db e) (db e) i d (reach_refl _ _)).
Qed.

(** The callee is a precompiled contract ... *)
Lemma wp_precompile addr p input gas ro (e0 e : EVM DB) :
  precompile addr = Some p -> small input -> is_u64 gas -> vm_ok e -> vm_rel ro e0 e ->
  wp ('(ret, g, err) ← RunPrecompiledContract p input gas; Ok (ret, g, err, e))
     (inner_post gas ro e0).
Proof.
  intros Hp Hi Hg He Hr.
  destruct (RunPrecompiledContract_Ok addr p input gas Hp Hi Hg) as (ret & g & err & -> & ? & ? & ?).
  cbn. auto.
Qed.

(** ... or a contract. *)
Lemma wp_run c input ro e0 e : Gas c < G -> ctr_ok c -> small input -> vm_ok e ->
  vm_rel (ro || readOnly e) e0 e ->
  wp ('(ret, err, c', e') ← run c input ro e; Ok (ret, Gas c', err, e'))
     (inner_post (Gas c) (ro || readOnly e) e0).
Proof.
  intros Hg Hc Hi He Hr. eapply wp_use; [by apply Hrun|].
  intros [[[ret err] c'] e'] (H1 & H2 & H3 & H4 & H5). cbn. split_and!; try done.
  by eapply vm_rel_trans.
Qed.

Lemma inherit_ok c e : vm_ok e -> vm_ok (inherit_jumpdests c e).
Proof. intros []. by destruct c; split. Qed.

Lemma inherit_rel ro c (e : EVM DB) : vm_rel ro e (inherit_jumpdests c e).
Proof. destruct c; split; try done; apply reach_refl. Qed.

Lemma inherit_ro c (e : EVM DB) : readOnly (inherit_jumpdests c e) = readOnly e.
Proof. by destruct c. Qed.

(** The code of an account as the code of the callee. *)
Lemma callee_ok d addr c : db_ok d -> ctr_ok c ->  analysis c = None ->
  ctr_ok (SetCallCode addr (GetCodeHash d addr) (GetCode d addr) c).
Proof.
  intros Hd [] Ha. destruct (code_db_ok d addr Hd) as [Hs Hh]. split; try done.
  - cbn. destruct (decide (GetCode d addr = [])) as [E|E]; [by left|]. right. right. by apply Hh.
  - cbn. rewrite Ha. done.
Qed.

Lemma NewContract_ok c addr v gas : is_u64 gas -> ctr_ok (NewContract c addr v gas).
Proof. intros. split; cbn; auto with entropy. done. Qed.

(** The whole of a contract branch: callee with the code of [addr]. *)
Lemma wp_callee cr c addr input ro e0 e :
  Gas c < G -> ctr_ok c -> analysis c = None -> small input -> vm_ok e ->
  vm_rel (ro || readOnly e) e0 e ->
  wp ('(ret, err, c', e') ←
        run (SetCallCode addr (GetCodeHash (db e) addr) (GetCode (db e) addr) c) input ro
          (inherit_jumpdests cr e); Ok (ret, Gas c', err, e'))
     (inner_post (Gas c) (ro || readOnly e) e0).
Proof.
  intros Hg Hc Ha Hi He Hr. rewrite <- (inherit_ro cr e) in Hr |- *.
  apply (wp_run (SetCallCode _ _ _ c) input ro e0); try done.
  - apply callee_ok; [apply He | done | done].
  - by apply inherit_ok.
  - eapply vm_rel_trans; [exact Hr | apply inherit_rel].
Qed.

Lemma snapshot_vm ro e i d : vm_ok e -> Snapshot (db e) = (i, d) ->
  vm_ok (set_db d e) /\ vm_rel ro e (set_db d e).
Proof.
  intros He Hs. destruct (snapshot_db_ok (db e) i d (ok_db _ He) Hs). split; [by apply vm_ok_db|].
  split; try done. by apply (reach_snapshot ro (db e) (db e) i d (reach_refl _ _)).
Qed.

Lemma CallCode_spec cr addr input gas v e :
  gas < G -> is_u64 gas -> small input -> vm_ok e ->
  wp (CallCode run cr addr input gas v e) (call_post gas (readOnly e) e).
Proof.
  intros HG Hg Hi He. unfold CallCode. zcase; [by apply call_refused|].
  zcase; [by apply call_refused|]. destruct (Snapshot (db e)) as [i d] eqn:Hs.
  destruct (snapshot_vm (readOnly e) e i d He Hs) as [Hv _].
  apply call_settled with d; try done. destruct (precompile addr) as [p|] eqn:Hp.
  - eapply wp_precompile; eauto using vm_rel_refl.
  - apply (wp_callee cr (NewContract cr (ref_address cr) v gas) addr input false);
      auto using NewContract_ok, vm_rel_refl.
Qed.

(** A delegate call is made by a contract. *)
Lemma DelegateCall_spec self_ caller_ v addr input gas e :
  gas < G -> is_u64 gas -> small input -> vm_ok e ->
  wp (DelegateCall run (ContractCaller self_ caller_ v) addr input gas e)
     (call_post gas (readOnly e) e).
Proof.
  intros HG Hg Hi He. unfold DelegateCall. zcase; [by apply call_refused|].
  destruct (Snapshot (db e)) as [i d] eqn:Hs.
  destruct (snapshot_vm (readOnly e) e i d He Hs) as [Hv _].
  apply call_settled with d; try done. destruct (precompile addr) as [p|] eqn:Hp.
  - eapply wp_precompile; eauto using vm_rel_refl.
  - cbn [AsDelegate NewContract caller mbind res_bind].
    apply (wp_callee (ContractCaller self_ caller_ v)
             (mkContract _ _ _ None _ _ _ _ gas _) addr input false); auto using vm_rel_refl.
    split; cbn; auto with entropy. done.
Qed.

(** A static call performs read-only operations, whoever makes it. *)
Lemma StaticCall_spec cr addr input gas e :
  gas < G -> is_u64 gas -> small input -> vm_ok e ->
  wp (StaticCall run cr addr input gas e) (call_post gas true e).
Proof.
  intros HG Hg Hi He. unfold StaticCall. zcase; [by apply call_refused|].
  destruct (Snapshot (db e)) as [i d] eqn:Hs.
  destruct (snapshot_vm true e i d He Hs) as [Hv _].
  apply call_settled with d; try done.
  destruct (vm_op true (DAddBalance addr 0) _ _ Hv I eq_refl eq_refl) as [Hv' Hr'].
  destruct (precompile addr) as [p|] eqn:Hp.
  - eapply wp_precompile; eauto.
  - apply (wp_callee cr (NewContract cr addr 0 gas) addr input true); auto using NewContract_ok.
Qed.

(** A transfer of nothing is allowed in a read-only frame. *)
Lemma Transfer_vm ro from to v e : vm_ok e -> (ro = true -> v = 0) ->
  let e' := set_db (Transfer from to v (db e)) e in vm_ok e' /\ vm_rel ro e e'.
Proof.
  intros He Hro. cbv zeta.
  destruct (vm_op ro (DSubBalance from v) _ e He I ltac:(destruct ro; [by apply Hro|done]) eq_refl)
    as [V1 R1].
  destruct (vm_op ro (DAddBalance to v) _ _ V1 I ltac:(destruct ro; [by apply Hro|done]) eq_refl)
    as [V2 R2].
  split; [exact V2|]. by eapply vm_rel_trans.
Qed.

Lemma Call_spec cr addr input gas v e :
  gas < G -> is_u64 gas -> small input -> vm_ok e -> (readOnly e = true -> v = 0) ->
  wp (Call run cr addr input gas v e) (call_post gas (readOnly e) e).
Proof.
  intros HG Hg Hi He Hv. unfold Call. zcase; [by apply call_refused|].
  zcase; [by apply call_refused|]. destruct (Snapshot (db e)) as [i d] eqn:Hs.
  destruct (snapshot_vm (readOnly e) e i d He Hs) as [Hv0 Hr0].
  destruct (negb (Exist (db (set_db d e)) addr) && _ && (v =? 0)) eqn:E.
  { cbn. split; [apply small_nil|]. split; [done|]. split; [lia|]. split; [done|].
    split; [done|]. done. }
  apply call_settled with d; try done. clear E.
  set (e1 := if negb (Exist _ _) then _ else _).
  assert (H1 : vm_ok e1 /\ vm_rel (readOnly e) (set_db d e) e1).
  { unfold e1. destruct (Exist (db (set_db d e)) addr) eqn:Ex; cbn [negb]; [auto using vm_rel_refl|].
    apply (vm_op (readOnly e) (DCreateAccount addr)); try done. by destruct (readOnly e). }
  destruct H1 as [Hv1 Hr1].
  destruct (Transfer_vm (readOnly e) (ref_address cr) addr v e1 Hv1 Hv) as [Hv2 Hr2].
  set (e2 := set_db (Transfer _ _ _ _) e1) in *.
  assert (Hr : vm_rel (readOnly e) (set_db d e) e2) by by eapply vm_rel_trans.
  destruct (precompile addr) as [p|] eqn:Hp.
  - eapply wp_precompile; eauto.
  - zcase; [cbn; split_and!; try done; apply small_nil|].
    assert (Ero : readOnly e2 = readOnly e) by apply Hr. rewrite <- Ero in Hr |- *.
    apply (wp_callee cr (NewContract cr addr v gas) addr input false); auto using NewContract_ok.
Qed.

(** ** Creation *)

Context (env : Env).

(** The state after the sender's nonce was raised. *)
Definition bumped (cr : ContractRef) (d : DB) : DB :=
  SetNonce (ref_address cr) (add64 (GetNonce d (ref_address cr)) 1) d.

(** A failed creation leaves the state it found, but for the nonce of the
    creator once it was raised; before Homestead a creation that could not pay
    for its code is kept. *)
Definition create_post (cr : ContractRef) (gas : Z) (e : EVM DB)
    (r : bytes * Address * Z * option Err * EVM DB) : Prop :=
  let '(ret, addr, g, err, e') := r in
  small ret /\ is_u64 g /\ g <= gas /\ vm_ok e' /\ vm_rel false e e' /\
  match err with
  | None => True
  | Some er =>
    same_all (db e) (db e') \/ same_all (bumped cr (db e)) (db e') \/
    (er = ErrCodeStoreOutOfGas /\ IsHomestead (chainRules env) = false)
  end.

Lemma create_refused cr gas e er : is_u64 gas -> vm_ok e ->
  create_post cr gas e ([], 0, gas, Some er, e).
Proof.
  intros. unfold create_post. split; [apply small_nil|]. split; [done|]. split; [lia|].
  split; [done|]. split; [apply vm_rel_refl|]. left. reflexivity.
Qed.

Lemma UseGas_all c : is_u64 (Gas c) ->
  Gas (default c (UseGas c (Gas c))) = 0.
Proof.
  intros H. unfold UseGas, is_u64 in *. zcase; [lia|]. cbn. rewrite sub64_small by lia. lia.
Qed.

(** The end of a creation, after the constructor ran. *)
Lemma create_end cr gas e i d addr ret err c e5 :
  let e1 := set_db (bumped cr (db e)) e in
  vm_ok e1 -> vm_rel false e e1 -> Snapshot (db e1) = (i, d) -> small ret -> is_u64 (Gas c) ->
  Gas c <= gas -> vm_ok e5 -> vm_rel false (set_db d e1) e5 ->
  wp match err with
     | Some er =>
       if IsHomestead (chainRules env) || negb (bool_decide (er = ErrCodeStoreOutOfGas)) then
         d ← RevertToSnapshot i (db e5);
         let contract := if decide (er = ErrExecutionReverted) then c
                         else default c (UseGas c (Gas c)) in
         Ok (ret, addr, Gas contract, Some er, set_db d e5)
       else Ok (ret, addr, Gas c, Some er, e5)
     | None => Ok (ret, addr, Gas c, None, e5)
     end (create_post cr gas e).
Proof.
  intros e1 V1 R1 Hs Hret Hg Hle V5 R5.
  destruct (snapshot_vm false e1 i d V1 Hs) as [Vs Rs].
  assert (Rall : vm_rel false e e5) by (eapply vm_rel_trans; [exact R1|]; by eapply vm_rel_trans).
  destruct err as [er|]; [|cbn; auto 10]. zcase.
  - destruct (revert_db_ok (db e1) i d (db e5)) as (d3 & E & Hd3 & Hsame);
      [apply V1 | done | by apply R5 |].
    rewrite E. cbn. set (g := Gas (if decide _ then c else _)).
    assert (Hg' : is_u64 g /\ g <= gas).
    { unfold g. destruct (decide (er = ErrExecutionReverted)); [auto|]. rewrite UseGas_all by done. unfold is_u64 in *. lia. }
    destruct Hg'. split_and!; try done.
    + by apply vm_ok_db.
    + destruct Rall as [? ? ? _]. split; try done. cbn. eapply reach_trans; [apply R1|].
      apply (reach_revert false (db e1) (db e1) i d (db e5) d3 (reach_refl _ _) Hs); [apply R5|done].
    + right. left. exact Hsame.
  - cbn. split_and!; try done. right. right. done.
Qed.

Lemma create_spec cr code hash gas v addr e :
  gas < G -> is_u64 gas -> small code -> hash = 0 \/ hash = keccak256 code ->
  vm_ok e -> readOnly e = false ->
  wp (create env run cr code hash gas v addr e) (create_post cr gas e).
Proof.
  intros HG Hg Hcode Hh He Hro. unfold create. zcase; [by apply create_refused|].
  zcase; [by apply create_refused|]. zcase; [by apply create_refused|].
  destruct (vm_op false (DSetNonce (ref_address cr) (add64 (GetNonce (db e) (ref_address cr)) 1))
    _ e He (u64_range _) I eq_refl) as [V1 R1]. fold (bumped cr (db e)) in *.
  set (e1 := set_db (bumped cr (db e)) e) in *. clear Heqb Heqb0 Heqb1. zcase.
  { cbn. split; [apply small_nil|]. unfold is_u64 in *. split; [lia|]. split; [lia|].
    split; [done|]. split; [done|]. right. left. reflexivity. }
  destruct (Snapshot (db e1)) as [i d] eqn:Hs.
  destruct (snapshot_vm false e1 i d V1 Hs) as [Vs Rs].
  destruct (vm_op false (DCreateAccount addr) _ _ Vs I I eq_refl) as [V2 R2].
  destruct (Transfer_vm false (ref_address cr) addr v _ V2 ltac:(done)) as [V3 R3].
  cbn [db set_db] in R2, R3, V2, V3. cbv zeta in V3, R3.
  set (e3 := set_db (Transfer _ _ _ _) _) in *.
  assert (R13 : vm_rel false (set_db d e1) e3) by (by eapply vm_rel_trans).
  assert (Ro3 : readOnly (inherit_jumpdests cr e3) = false) by (by rewrite inherit_ro).
  eapply wp_use.
  { apply (Hrun (SetCodeOptionalHash addr hash code (NewContract cr addr v gas)) []
                false (inherit_jumpdests cr e3)); try done; [|apply small_nil | by apply inherit_ok].
    split; cbn; auto with entropy; try done. }
  intros [[[ret err] c'] e4] (Hret & Hg4 & Hle & V4 & R4). rewrite Ro3 in R4. cbn [orb] in R4.
  cbn in Hle.
  assert (R14 : vm_rel false (set_db d e1) e4).
  { eapply vm_rel_trans; [exact R13|]. eapply vm_rel_trans; [apply inherit_rel|exact R4]. }
  cbv zeta. set (err1 := deposit_check env ret err). destruct err1 as [er|].
  { by apply (create_end cr gas e i d addr ret (Some er) c' e4). }
  unfold UseGas. pose proof Hg4 as Hg4'. unfold is_u64 in Hg4'.
  pose proof (u64_range (u64 (zlen ret) * CreateDataGas)) as Hm. fold (mul64 (u64 (zlen ret)) CreateDataGas) in Hm.
  unfold is_u64 in Hm. zcase.
  { by apply (create_end cr gas e i d addr ret (Some ErrCodeStoreOutOfGas) c' e4). }
  destruct (vm_op false (DSetCode addr ret) _ e4 V4 Hret I eq_refl) as [V5 R5].
  apply (create_end cr gas e i d addr ret None); try done; cbn.
  + rewrite sub64_small by lia. unfold is_u64. lia.
  + rewrite sub64_small by lia. lia.
  + by eapply vm_rel_trans.
Qed.
End calls.

(** ** The instructions that call and create *)

Section call_instructions.
Context `{U : Uint256} `{US : !Uint256Spec U} `{C : Crypto} `{CS : !CryptoSpec C}.
Context {DB : Type} `{SDB : StateDB DB} `{SS : !StateDBSpec DB}.
Context (env : Env) (G : Z) (HG : G <= 2 ^ 64).
Context (run : Contract -> bytes -> bool -> EVM DB -> res (bytes * option Err * Contract * EVM DB)).
Context (Hrun : run_spec G run).

Lemma CreateAddress_Ok b nonce : is_u64 nonce -> exists a, CreateAddress b nonce = Ok a.
Proof.
  intros Hn. unfold CreateAddress. rewrite EncodeToBytes_spec.
  - by eexists.
  - split; [apply wf_be_bytes|]. split; [exact Hn|done].
  - cbn [encode flat_map]. rewrite app_nil_r. rewrite zlen_app, zlen_app.
    pose proof (puthead_length 192 247 (zlen (encode_bytes (be_bytes 20 b)) + zlen (encode_uint nonce))).
    pose proof (encode_bytes_length (be_bytes 20 b)). rewrite zlen_be_bytes in *.
    pose proof (encode_bytes_length (if nonce =? 0 then [] else putint nonce)).
    fold (encode_uint nonce) in *.
    assert (zlen (if nonce =? 0 then [] else putint nonce) <= 8).
    { pose proof (putint_length nonce Hn). destruct (nonce =? 0); [by compute|lia]. }
    lia.
Qed.

Lemma Create_spec cr code gas v e :
  gas < G -> is_u64 gas -> small code -> vm_ok e -> readOnly e = false ->
  wp (Create env run cr code gas v e) (create_post env cr gas e).
Proof.
  intros. unfold Create.
  destruct (CreateAddress_Ok (ref_address cr) (GetNonce (db e) (ref_address cr))) as (a & ->).
  { apply nonce_db_ok. by apply ok_db. }
  cbn [mbind res_bind]. eapply create_spec; eauto.
Qed.

Lemma Create2_spec cr code gas v salt e :
  gas < G -> is_u64 gas -> small code -> vm_ok e -> readOnly e = false ->
  wp (Create2 env run cr code gas v salt e) (create_post env cr gas e).
Proof. intros. unfold Create2. eapply create_spec; eauto. Qed.

Lemma finishCall_ok dl bn p s0 s m c e e' ro rs ret g err :
  frame_inv (mkFrame p s0 m c e) -> wf_stack s -> vm_ok e' -> vm_rel (readOnly e) e e' ->
  in_range m (u_Uint64 ro) (u_Uint64 rs) -> small ret -> is_u64 g -> g <= bn ->
  Gas c + bn < 2 ^ 64 -> zlen s + 1 = zlen s0 + dl ->
  wp (finishCall ro rs ret g err (mkFrame p s m c e')) (post dl bn false (mkFrame p s0 m c e)).
Proof.
  intros Hinv Hs He' Hr Hm Hret Hg Hle Hb Hdl.
  pose proof (ok_gas _ (ok_ctr _ Hinv)) as Hc. cbn in Hc. unfold is_u64 in Hg, Hc.
  assert (Hs' : wf_stack (Stack.push (if bool_decide (err = None) then 1 else 0) s)).
  { apply Forall_cons_2; [|done]. case_bool_decide; by compute. }
  assert (P : forall m', mem_ok m' ->
    post dl bn false (mkFrame p s0 m c e)
      (mkFrame p (Stack.push (if bool_decide (err = None) then 1 else 0) s) m'
         (with_gas c (add64 (Gas c) g)) (set_returnData ret e'), (ret, None))).
  { intros m' Hm'. rewrite add64_small by lia. apply post_intro; try done; try apply Hinv.
    - apply ctr_ok_gas; [apply Hinv | unfold is_u64; lia].
    - by apply vm_ok_return.
    - cbn. lia.
    - by destruct Hr.
    - intros _. unfold Stack.push. rewrite zlen_cons. lia. }
  unfold finishCall. cbn. zcase.
  - apply wp_bind, wp_set; [apply Hinv | apply Hret | done |]. intros m' Hm' _. cbn. by apply P.
  - cbn. apply P. apply Hinv.
Qed.

Lemma stipend_range st : 0 <= stipend st <= CallStipend.
Proof. unfold stipend. repeat case_match; unfold CallStipend; lia. Qed.

(** The callee's gas is what the instruction may give back. *)
Lemma value_gas (e : EVM DB) st v : st !! 2%nat = Some v -> is_u64 (callGasTemp e) ->
  callGasTemp e + stipend st < 2 ^ 64 ->
  (if negb (u_IsZero v) then (add64 (callGasTemp e) CallStipend, v) else (callGasTemp e, 0)) =
  (callGasTemp e + stipend st, if u_IsZero v then 0 else v).
Proof.
  unfold stipend, is_u64. intros -> Ht Hs. destruct (u_IsZero v); cbn [negb].
  - by rewrite Z.add_0_r.
  - by rewrite add64_small by (unfold CallStipend in *; lia).
Qed.

(** A refused instruction. *)
Lemma exec_refused i p s0 s m c e er :
  frame_inv (mkFrame p s0 m c e) -> wf_stack s -> halts i = false ->
  wp (fail er (mkFrame p s m c e)) (exec_post i (mkFrame p s0 m c e)).
Proof.
  intros Hinv Hs Hh. cbn. unfold exec_post. rewrite Hh.
  apply post_intro; try done; try apply Hinv; auto using vm_rel_refl with entropy.
  pose proof (ok_temp _ (ok_vm _ Hinv)) as T. cbn in T. unfold is_u64 in T.
  pose proof (stipend_range s0). destruct i; cbn; lia.
Qed.

Lemma opCall_ok : exec_ok env G I_opCall (opCall run).
Proof.
  open_frame 7%nat. unfold opCall. cbn.
  assert (R : in_range m (u_Uint64 z4) (u_Uint64 z5) /\ in_range m (u_Uint64 z2) (u_Uint64 z3)).
  { eapply (covers_two_ranges M_memoryCall 5 6 3 4 (mkFrame p _ m c e)); try reflexivity; try done.
    apply Hinv. }
  destruct R as [R1 R2].
  apply wp_GetPtr; [apply Hinv | done |]. intros args Hargs' _.
  destruct (readOnly e && negb (u_IsZero z1)) eqn:Ew; [by apply exec_refused|].
  pose proof (ok_temp _ (ok_vm _ Hinv)) as Ht. cbn in Ht.
  pose proof (ok_gas _ (ok_ctr _ Hinv)) as Hc. cbn in Hc. unfold bonus in Hgas. cbn [vm stk] in Hgas.
  set (st := z :: z0 :: z1 :: z2 :: z3 :: z4 :: z5 :: s) in *.
  pose proof (stipend_range st). unfold is_u64 in Ht, Hc.
  rewrite (value_gas e st z1) by (done || lia).
  eapply wp_use.
  { eapply Call_spec; [exact Hrun | lia | unfold is_u64; lia | done | apply Hinv |].
    cbn. intros Ero. rewrite Ero in Ew. cbn in Ew. by destruct (u_IsZero z1). }
  intros [[[ret g] err] e'] (Hret & Hg & Hle & He' & Hr & _).
  apply (finishCall_ok (1 - 7) (callGasTemp e + stipend st)); try done; [lia|]. unfold st. cbn [stk set_stk]. rewrite !zlen_cons. lia.
Qed.

Lemma opCallCode_ok : exec_ok env G I_opCallCode (opCallCode run).
Proof.
  open_frame 7%nat. unfold opCallCode. cbn.
  assert (R : in_range m (u_Uint64 z4) (u_Uint64 z5) /\ in_range m (u_Uint64 z2) (u_Uint64 z3)).
  { eapply (covers_two_ranges M_memoryCall 5 6 3 4 (mkFrame p _ m c e)); try reflexivity; try done.
    apply Hinv. }
  destruct R as [R1 R2].
  apply wp_GetPtr; [apply Hinv | done |]. intros args Hargs' _.
  pose proof (ok_temp _ (ok_vm _ Hinv)) as Ht. cbn in Ht.
  pose proof (ok_gas _ (ok_ctr _ Hinv)) as Hc. cbn in Hc. unfold bonus in Hgas. cbn [vm stk] in Hgas.
  set (st := z :: z0 :: z1 :: z2 :: z3 :: z4 :: z5 :: s) in *.
  pose proof (stipend_range st). unfold is_u64 in Ht, Hc.
  rewrite (value_gas e st z1) by (done || lia).
  eapply wp_use.
  { eapply CallCode_spec; [exact Hrun | lia | unfold is_u64; lia | done | apply Hinv]. }
  intros [[[ret g] err] e'] (Hret & Hg & Hle & He' & Hr & _).
  apply (finishCall_ok (1 - 7) (callGasTemp e + stipend st)); try done; [lia|]. unfold st. cbn [stk set_stk]. rewrite !zlen_cons. lia.
Qed.

Lemma opDelegateCall_ok : exec_ok env G I_opDelegateCall (opDelegateCall run).
Proof.
  open_frame 6%nat. unfold opDelegateCall. cbn.
  assert (R : in_range m (u_Uint64 z3) (u_Uint64 z4) /\ in_range m (u_Uint64 z1) (u_Uint64 z2)).
  { eapply (covers_two_ranges M_memoryDelegateCall 4 5 2 3 (mkFrame p _ m c e));
      try reflexivity; try done. apply Hinv. }
  destruct R as [R1 R2].
  apply wp_GetPtr; [apply Hinv | done |]. intros args Hargs' _.
  pose proof (ok_temp _ (ok_vm _ Hinv)) as Ht. cbn in Ht.
  pose proof (ok_gas _ (ok_ctr _ Hinv)) as Hc. cbn in Hc. unfold bonus in Hgas. cbn [vm stk] in Hgas. unfold is_u64 in Ht, Hc.
  eapply wp_use.
  { eapply DelegateCall_spec; [exact Hrun | lia | unfold is_u64; lia | done | apply Hinv]. }
  intros [[[ret g] err] e'] (Hret & Hg & Hle & He' & Hr & _).
  apply (finishCall_ok (1 - 6) (callGasTemp e)); try done; [lia|]. cbn [stk set_stk]. rewrite !zlen_cons. lia.
Qed.

Lemma opStaticCall_ok : exec_ok env G I_opStaticCall (opStaticCall run).
Proof.
  open_frame 6%nat. unfold opStaticCall. cbn.
  assert (R : in_range m (u_Uint64 z3) (u_Uint64 z4) /\ in_range m (u_Uint64 z1) (u_Uint64 z2)).
  { eapply (covers_two_ranges M_memoryStaticCall 4 5 2 3 (mkFrame p _ m c e));
      try reflexivity; try done. apply Hinv. }
  destruct R as [R1 R2].
  apply wp_GetPtr; [apply Hinv | done |]. intros args Hargs' _.
  pose proof (ok_temp _ (ok_vm _ Hinv)) as Ht. cbn in Ht.
  pose proof (ok_gas _ (ok_ctr _ Hinv)) as Hc. cbn in Hc. unfold bonus in Hgas. cbn [vm stk] in Hgas. unfold is_u64 in Ht, Hc.
  eapply wp_use.
  { eapply StaticCall_spec; [exact Hrun | lia | unfold is_u64; lia | done | apply Hinv]. }
  intros [[[ret g] err] e'] (Hret & Hg & Hle & He' & Hr & _).
  apply (finishCall_ok (1 - 6) (callGasTemp e)); try done; [by apply vm_rel_weaken | lia |]. cbn [stk set_stk]. rewrite !zlen_cons. lia.
Qed.

Lemma finishCreate_ok p s0 s m c0 c e e' v ret g err dl :
  frame_inv (mkFrame p s0 m c0 e) -> ctr_ok c -> Code c = Code c0 -> self c = self c0 ->
  wf_stack s -> vm_ok e' -> vm_rel (readOnly e) e e' ->
  is_word v -> small ret -> is_u64 g -> Gas c + g <= Gas c0 -> zlen s + 1 = zlen s0 + dl ->
  wp (finishCreate v ret g err (mkFrame p s m c e')) (post dl 0 false (mkFrame p s0 m c0 e)).
Proof.
  intros Hinv Hc Ecode Eself Hs He' Hr Hv Hret Hg Hle Hdl.
  pose proof (ok_gas _ (ok_ctr _ Hinv)) as Hg0. pose proof (ok_gas _ Hc) as Hgc. cbn in Hg0.
  unfold is_u64 in Hg, Hg0, Hgc.
  assert (P : forall r, small r ->
    post dl 0 false (mkFrame p s0 m c0 e)
      (mkFrame p (Stack.push v s) m (with_gas c (add64 (Gas c) g)) (set_returnData r e'), (r, None))).
  { intros r Hr'. rewrite add64_small by lia. apply post_intro; try done; try apply Hinv.
    - by apply Forall_cons_2.
    - apply ctr_ok_gas; [done | unfold is_u64; lia].
    - by apply vm_ok_return.
    - cbn. lia.
    - by destruct Hr.
    - intros _. unfold Stack.push. rewrite zlen_cons. lia. }
  unfold finishCreate. zcase; cbn; apply P; [done | apply small_nil].
Qed.

(** Gas for the constructor: all but one 64th, or all of it. *)
Lemma take_gas_ok g p s m c (e : EVM DB) : ctr_ok c -> 0 <= g <= Gas c ->
  take_gas g (mkFrame p s m c e) = mkFrame p s m (with_gas c (Gas c - g)) e.
Proof.
  intros Hc Hg. unfold take_gas. cbn [ctr]. pose proof (UseGas_spec c g Hc ltac:(lia)) as H.
  destruct (UseGas c g) as [c'|]; [|lia]. by destruct H as [-> _].
Qed.

Lemma opCreate_ok : exec_ok env G I_opCreate (opCreate env run).
Proof.
  open_frame 3%nat. unfold opCreate. cbn [stk vm popF Stack.pop mbind res_bind set_stk mem].
  destruct (readOnly e) eqn:Ero; [apply exec_refused; [done | apply Hinv | done]|]. cbn [stk vm Stack.pop mbind res_bind mem].
  unfold popF. cbn [stk Stack.pop mbind res_bind set_stk mem].
  assert (R : in_range m (u_Uint64 z0) (u_Uint64 z1)) by range Hmem.
  apply wp_GetCopy; [apply Hinv | done |]. intros input Hin _. cbn [ctr vm].
  pose proof (ok_ctr _ Hinv) as Hc. cbn in Hc. pose proof (ok_gas _ Hc) as Hg. unfold is_u64 in Hg.
  set (gas := if IsEIP150 (chainRules env) then _ else _).
  assert (Hgas' : 0 <= gas <= Gas c).
  { unfold gas. cbn. zcase; [|lia]. assert (0 <= Gas c / 64 <= Gas c) by dlia.
    rewrite sub64_small by lia. lia. }
  clearbody gas. unfold set_stk. cbn [pc stk mem ctr vm].
  rewrite take_gas_ok by done. cbn [ctr vm]. cbn in Hgas.
  assert (Hc' : ctr_ok (with_gas c (Gas c - gas))) by (apply ctr_ok_gas; [done|unfold is_u64; lia]).
  eapply wp_use.
  { apply Create_spec; [lia | unfold is_u64; lia | done | apply Hinv | done]. }
  intros [[[[ret addr] g] err] e'] (Hret & Hg' & Hle & He' & Hr & _).
  unfold set_vm. cbn [pc stk mem ctr]. unfold exec_post.
  eapply finishCreate_ok; try done; try (by rewrite Ero).
  - repeat case_match; auto with entropy; unfold addr_word; auto with entropy.
  - cbn. lia.
  - rewrite !zlen_cons. cbn. lia.
Qed.

Lemma opCreate2_ok : exec_ok env G I_opCreate2 (opCreate2 env run).
Proof.
  open_frame 4%nat. unfold opCreate2. cbn [stk vm popF Stack.pop mbind res_bind set_stk mem].
  destruct (readOnly e) eqn:Ero; [apply exec_refused; [done | apply Hinv | done]|]. cbn [stk vm Stack.pop mbind res_bind mem].
  unfold popF. cbn [stk Stack.pop mbind res_bind set_stk mem].
  assert (R : in_range m (u_Uint64 z0) (u_Uint64 z1)) by range Hmem.
  apply wp_GetCopy; [apply Hinv | done |]. intros input Hin _. cbn [ctr vm].
  pose proof (ok_ctr _ Hinv) as Hc. cbn in Hc. pose proof (ok_gas _ Hc) as Hg. unfold is_u64 in Hg.
  set (gas := sub64 _ _).
  assert (Hgas' : 0 <= gas <= Gas c).
  { unfold gas. cbn. assert (0 <= Gas c / 64 <= Gas c) by dlia. rewrite sub64_small by lia. lia. }
  clearbody gas. unfold set_stk. cbn [pc stk mem ctr vm].
  rewrite take_gas_ok by done. cbn [ctr vm]. cbn in Hgas.
  assert (Hc' : ctr_ok (with_gas c (Gas c - gas))) by (apply ctr_ok_gas; [done|unfold is_u64; lia]).
  eapply wp_use.
  { apply Create2_spec; [lia | unfold is_u64; lia | done | apply Hinv | done]. }
  intros [[[[ret addr] g] err] e'] (Hret & Hg' & Hle & He' & Hr & _).
  unfold set_vm. cbn [pc stk mem ctr]. unfold exec_post.
  eapply finishCreate_ok; try done; try (by rewrite Ero).
  - repeat case_match; auto with entropy; unfold addr_word; auto with entropy.
  - cbn. lia.
  - rewrite !zlen_cons. cbn. lia.
Qed.
End call_instructions.
