(* ===== verification/EvmGasSpec.v ===== *)
(** * What a dynamic gas function does to a frame

    A price is a [uint64] that was computed without wrapping, it covers the
    memory the operation asked for, and for the call instructions it covers the
    gas the callee is given. *)

From S2P Require Import Prelude Uint256 Config Common EvmAnalysis EvmStack EvmMemory EvmState.
From S2P Require Import EvmGas EvmJumpTable EvmInterpreter EvmSpec EvmInvariant EvmExec.

Local Open Scope Z_scope.

(** Words of the stack a gas function reads. *)
Definition gas_needs (g : gasId) : Z :=
  match g with
  | G_gasReturn | G_gasRevert | G_gasMLoad | G_gasMStore8 | G_gasMStore | G_gasCreate => 0
  | G_gasSelfdestruct | G_gasSLoadEIP2929 | G_gasEip2929AccountCheck
  | G_gasSelfdestructEIP2929 | G_gasSelfdestructEIP3529 => 1
  | G_gasExpFrontier | G_gasExpEIP158 | G_gasKeccak256 | G_gasSStore | G_gasSStoreEIP2200
  | G_gasSStoreEIP2929 | G_gasSStoreEIP3529 | G_makeGasLog _ => 2
  | G_gasDelegateCall | G_gasStaticCall => 1
  | G_gasDelegateCallEIP2929 | G_gasStaticCallEIP2929 => 2
  | G_gasCallDataCopy | G_gasCodeCopy | G_gasReturnDataCopy | G_gasCreate2
  | G_gasCall | G_gasCallCode | G_gasCallEIP2929 | G_gasCallCodeEIP2929 => 3
  | G_gasExtCodeCopy | G_gasExtCodeCopyEIP2929 => 4
  end.

(** Whether the price includes the memory expansion. *)
Definition uses_mem (g : gasId) : bool :=
  match g with
  | G_gasExpFrontier | G_gasExpEIP158 | G_gasSStore | G_gasSStoreEIP2200 | G_gasSStoreEIP2929
  | G_gasSStoreEIP3529 | G_gasSelfdestruct | G_gasSelfdestructEIP2929 | G_gasSelfdestructEIP3529
  | G_gasSLoadEIP2929 | G_gasEip2929AccountCheck => false
  | _ => true
  end.

(** Parameters of the generated functions, and the rule the EIP-2929 call prices
    need: without the all-but-one-64th cap their sum can wrap. *)
Definition gas_args (eip150 : bool) (g : gasId) : bool :=
  match g with
  | G_makeGasLog n => (0 <=? n) && (n <=? 4)
  | G_gasCallEIP2929 | G_gasCallCodeEIP2929 | G_gasDelegateCallEIP2929
  | G_gasStaticCallEIP2929 => eip150
  | _ => true
  end.

Definition value_price `{Uint256} (st : Stack) : Z :=
  match st !! 2%nat with
  | Some v => if u_IsZero v then 0 else CallValueTransferGas
  | None => 0
  end.

(** A lower bound of the price. *)
Definition gas_floor `{Uint256} {DB} (g : gasId) (f : Frame DB) : Z :=
  match g with
  | G_gasCall | G_gasCallCode | G_gasCallEIP2929 | G_gasCallCodeEIP2929 =>
    callGasTemp (vm f) + value_price (stk f)
  | G_gasDelegateCall | G_gasStaticCall | G_gasDelegateCallEIP2929 | G_gasStaticCallEIP2929 =>
    callGasTemp (vm f)
  | G_gasExpFrontier | G_gasExpEIP158 | G_gasSStore | G_gasSStoreEIP2200 | G_gasSStoreEIP2929
  | G_gasSStoreEIP3529 | G_gasSLoadEIP2929 | G_makeGasLog _ => 1
  | _ => 0
  end.

Section gas_spec.
Context `{U : Uint256} `{US : !Uint256Spec U} `{C : Crypto} `{CS : !CryptoSpec C}.
Context {DB : Type} `{SDB : StateDB DB} `{SS : !StateDBSpec DB}.
Context (env : Env).

Record gas_pre (g : gasId) (f : Frame DB) (ms : Z) : Prop := {
  gp_inv : frame_inv f;
  gp_stk : gas_needs g <= zlen (stk f);
  gp_args : gas_args (IsEIP150 (chainRules env)) g = true;
  gp_ms : exists w, 0 <= w /\ ms = 32 * w /\ is_u64 ms;
  gp_mem : uses_mem g = true \/ ms = 0;
}.

(** After a price the frame is as before, but for the machine and the fee
    counter of the memory; after an error the frame is about to end. *)
Record priced (fl : Frame DB -> Z) (f : Frame DB) (ms cost : Z) (f' : Frame DB) : Prop := {
  pr_pc : pc f' = pc f;
  pr_stk : stk f' = stk f;
  pr_ctr : ctr f' = ctr f;
  pr_vm : vm_ok (vm f');
  pr_rel : vm_rel (readOnly (vm f)) (vm f) (vm f');
  pr_mem : mem_ok (Memory.Resize ms (mem f')) /\ ms <= Memory.Len (Memory.Resize ms (mem f'));
  pr_cost : is_u64 cost;
  pr_floor : fl f' <= cost;
}.

Record refused (f f' : Frame DB) : Prop := {
  re_vm : vm_ok (vm f');
  re_rel : vm_rel (readOnly (vm f)) (vm f) (vm f');
  re_gas : is_u64 (Gas (ctr f')) /\ Gas (ctr f') <= Gas (ctr f);
}.

Definition gas_post (fl : Frame DB -> Z) (f : Frame DB) (ms : Z) (r : (Z + Err) * Frame DB) : Prop :=
  match fst r with
  | inl cost => priced fl f ms cost (snd r)
  | inr _ => refused f (snd r)
  end.

(** ** Building blocks *)

Lemma refused_refl p s m c e m' : frame_inv (mkFrame p s m c e) ->
  refused (mkFrame p s m c e) (mkFrame p s m' c e).
Proof.
  intros [? ? ? Hc ?]. split; cbn; [done | apply vm_rel_refl | split; [apply Hc | lia]].
Qed.

(** Functions that do not price memory are asked for none. *)
Lemma resize_0 m : mem_ok m -> mem_ok (Memory.Resize 0 m) /\ 0 <= Memory.Len (Memory.Resize 0 m).
Proof.
  intros H. pose proof (mem_ok_len m H). unfold Memory.Resize. zcase; [lia|]. auto with lia.
Qed.

Lemma priced_intro fl p s m c e m' e' ms cost :
  vm_ok e' -> vm_rel (readOnly e) e e' ->
  mem_ok (Memory.Resize ms m') /\ ms <= Memory.Len (Memory.Resize ms m') ->
  is_u64 cost -> fl (mkFrame p s m' c e') <= cost ->
  priced fl (mkFrame p s m c e) ms cost (mkFrame p s m' c e').
Proof. intros. by split. Qed.

(** The memory price. *)
Lemma frameMemGas_spec p s m c (e : EVM DB) ms :
  mem_ok m -> (exists w, 0 <= w /\ ms = 32 * w /\ is_u64 ms) ->
  exists r m', frameMemGas (mkFrame p s m c e) ms = (r, mkFrame p s m' c e) /\
    match r with
    | inl fee => 0 <= fee < 2 ^ 56 /\
        mem_ok (Memory.Resize ms m') /\ ms <= Memory.Len (Memory.Resize ms m')
    | inr _ => True
    end.
Proof.
  intros Hm (w & Hw & Hms & Hu). unfold frameMemGas. cbn [mem].
  pose proof (memoryGasCost_spec m ms Hm Hu) as S. cbv zeta in S.
  assert (E : (ms + 31) / 32 = w) by (rewrite Hms; dlia). rewrite E, <- Hms in S.
  destruct (memoryGasCost m ms) as [r m']. exists r, m'. split; [done|].
  destruct r as [fee|]; [|done]. destruct S as (_ & _ & Hf & Hok & Hlen).
  split; [done|]. split; [done|]. lia.
Qed.

(** Checked additions of small prices. *)
Lemma safe_add_spec a b : is_u64 a -> is_u64 b ->
  match safe_add a b with inl s => s = a + b /\ is_u64 s | inr _ => 2 ^ 64 <= a + b end.
Proof.
  intros Ha Hb. unfold safe_add. rewrite SafeAdd_spec by done. unfold is_u64 in *.
  destruct (a + b <? 2 ^ 64) eqn:E; to_prop; lia.
Qed.

Lemma safe_mul_spec a b : is_u64 a -> is_u64 b ->
  match safe_mul a b with inl s => s = a * b /\ is_u64 s | inr _ => True end.
Proof.
  intros Ha Hb. unfold safe_mul. destruct (SafeMul_spec a b Ha Hb) as [E1 E2].
  destruct (SafeMul a b) as [v o]. cbn in E1, E2. subst o.
  destruct (a * b <? 2 ^ 64) eqn:E; cbn [negb]; to_prop; [|done].
  specialize (E2 E). subst. unfold is_u64 in *. nia.
Qed.

Lemma safe_u64_spec x : is_word x ->
  match safe_u64 x with inl v => v = x /\ is_u64 v | inr _ => True end.
Proof.
  intros Hx. unfold safe_u64, u_Uint64WithOverflow. destruct (u_IsUint64 x) eqn:E; [|done].
  cbn. destruct (IsUint64_true x Hx E) as [<- ?]. done.
Qed.

(** The price of the copied or hashed words. *)
Lemma word_price w per gas : is_word w -> is_u64 per -> is_u64 gas ->
  match and_then (safe_u64 w) (fun words =>
        and_then (safe_mul (toWordSize words) per) (fun words => safe_add gas words)) with
  | inl cost => is_u64 cost
  | inr _ => True
  end.
Proof.
  intros Hw Hp Hg. pose proof (safe_u64_spec w Hw) as S. destruct (safe_u64 w) as [v|]; [|done].
  destruct S as [_ Hv]. cbn [and_then]. destruct (toWordSize_spec v Hv) as [_ Ht].
  pose proof (safe_mul_spec (toWordSize v) per ltac:(unfold is_u64; lia) Hp) as M.
  destruct (safe_mul _ _) as [x|]; [|done]. cbn [and_then]. destruct M as [_ Hx].
  pose proof (safe_add_spec gas x Hg Hx) as A. destruct (safe_add gas x); [|done]. tauto.
Qed.
End gas_spec.

(** Evaluates the stack reads of an opened frame. *)
Ltac read_stack :=
  repeat match goal with
  | |- context [Stack.Back ?l ?k] =>
    match eval cbv [lookup list_lookup Z.to_nat Pos.to_nat Pos.iter_op Nat.add] in (l !! Z.to_nat k) with
    | Some ?y => change (Stack.Back l k) with (@Ok Z y)
    end
  | |- context [Stack.peek (?y :: ?l)] => change (Stack.peek (y :: l)) with (@Ok Z y)
  end; cbn [mbind res_bind].

Ltac open_gas n :=
  let p := fresh "p" in let s := fresh "s" in let m := fresh "m" in
  let c := fresh "c" in let e := fresh "e" in
  intros [p s m c e] ms [Hinv Hstk Hargs Hms Hmem];
  cbn [gas_needs gas_args uses_mem stk vm mem ctr pc] in *;
  take_words s Hstk n;
  pose proof (ok_stk _ Hinv) as Hws; cbn [stk] in Hws; unfold wf_stack in Hws;
  repeat match type of Hws with
  | Forall _ (_ :: _) => let W := fresh "W" in apply Forall_cons in Hws as [W Hws]
  end;
  pose proof (ok_mem _ Hinv) as Hm; cbn [mem] in Hm;
  pose proof (ok_vm _ Hinv) as Hv; cbn [vm] in Hv.

(** Opens the memory price of the frame. *)
Ltac open_mem fee m' Hf Hok :=
  match goal with
  | Hm : mem_ok ?m, Hms : exists w, 0 <= w /\ ?ms = 32 * w /\ is_u64 ?ms
    |- context [frameMemGas (mkFrame ?p ?s ?m ?c ?e) ?ms] =>
    let r := fresh "r" in let E := fresh "E" in
    destruct (frameMemGas_spec p s m c e ms Hm Hms) as (r & m' & E & Hok);
    rewrite E; cbn [fst snd]; destruct r as [fee|]; [destruct Hok as [Hf Hok]|]
  end.

Section gas_functions.
Context `{U : Uint256} `{US : !Uint256Spec U} `{C : Crypto} `{CS : !CryptoSpec C}.
Context {DB : Type} `{SDB : StateDB DB} `{SS : !StateDBSpec DB}.
Context (env : Env).

Definition gas_ok (g : gasId) (x : Frame DB -> Z -> res ((Z + Err) * Frame DB)) : Prop :=
  forall f ms, gas_pre env g f ms -> wp (x f ms) (gas_post (gas_floor g) f ms).

Local Hint Resolve vm_rel_refl refused_refl : entropy.

Lemma u64_56 x : 0 <= x < 2 ^ 56 -> is_u64 x.
Proof. unfold is_u64. lia. Qed.
Local Hint Resolve u64_56 : entropy.

(** A price of memory and words. *)
Lemma memory_words_ok fl p s m c (e : EVM DB) ms fee m' w per :
  frame_inv (mkFrame p s m c e) -> 0 <= fee < 2 ^ 56 -> is_word w -> is_u64 per ->
  mem_ok (Memory.Resize ms m') /\ ms <= Memory.Len (Memory.Resize ms m') ->
  (forall f, fl f = 0) ->
  gas_post fl (mkFrame p s m c e) ms
    (and_then (safe_u64 w) (fun words =>
     and_then (safe_mul (toWordSize words) per) (fun words => safe_add fee words)),
     mkFrame p s m' c e).
Proof.
  intros Hinv Hf Hw Hp Hok Hfl. pose proof (word_price w per fee Hw Hp (u64_56 _ Hf)) as P.
  unfold gas_post. cbn [fst snd]. destruct (and_then _ _) as [cost|]; [|by apply refused_refl].
  apply priced_intro; try done; [apply Hinv | apply vm_rel_refl|]. rewrite Hfl. apply P.
Qed.

Lemma memoryCopierGas_ok g k : gas_needs g = k + 1 -> 0 <= k -> uses_mem g = true ->
  (forall f : Frame DB, gas_floor g f = 0) -> gas_ok g (memoryCopierGas k).
Proof.
  intros Hn Hk Hu Hfl [p s m c e] ms [Hinv Hstk _ Hms _]. rewrite Hn in Hstk. cbn [stk] in Hstk.
  pose proof (ok_mem _ Hinv) as Hm. cbn in Hm. unfold memoryCopierGas.
  open_mem fee m' Hf Hok; [|cbn; by apply refused_refl]. cbn [stk].
  destruct (Back_Ok s k) as (w & -> & Hw); [apply Hinv | lia |]. cbn [mbind res_bind wp].
  apply memory_words_ok; try done.
Qed.

Lemma gasHashWords_ok g k : gas_needs g = k + 1 -> 0 <= k -> uses_mem g = true ->
  (forall f : Frame DB, gas_floor g f = 0) -> gas_ok g (gasHashWords k).
Proof.
  intros Hn Hk Hu Hfl [p s m c e] ms [Hinv Hstk _ Hms _]. rewrite Hn in Hstk. cbn [stk] in Hstk.
  pose proof (ok_mem _ Hinv) as Hm. cbn in Hm. unfold gasHashWords.
  open_mem fee m' Hf Hok; [|cbn; by apply refused_refl]. cbn [stk].
  destruct (Back_Ok s k) as (w & -> & Hw); [apply Hinv | lia |]. cbn [mbind res_bind wp].
  apply memory_words_ok; try done.
Qed.

Lemma pureMemoryGascost_ok g : (forall f : Frame DB, gas_floor g f = 0) -> gas_ok g pureMemoryGascost.
Proof.
  intros Hfl [p s m c e] ms [Hinv _ _ Hms _]. pose proof (ok_mem _ Hinv) as Hm. cbn in Hm.
  unfold pureMemoryGascost. open_mem fee m' Hf Hok; cbn; [|by apply refused_refl].
  apply priced_intro; try done; [apply Hinv | apply vm_rel_refl | auto with entropy |].
  rewrite Hfl. lia.
Qed.

(** A price without memory, after a sequence of state operations. *)
Lemma flat_ok fl p s m c e e' ms cost :
  frame_inv (mkFrame p s m c e) -> ms = 0 -> vm_ok e' -> vm_rel (readOnly e) e e' -> is_u64 cost ->
  fl (mkFrame p s m c e') <= cost ->
  gas_post fl (mkFrame p s m c e) ms (inl cost, mkFrame p s m c e').
Proof.
  intros Hinv -> Hv Hr Hc Hfl. apply priced_intro; try done. apply resize_0, Hinv.
Qed.

Lemma gasExp_ok g per : gas_needs g = 2 -> uses_mem g = false -> 0 <= per <= 50 ->
  (forall f : Frame DB, gas_floor g f = 1) -> gas_ok g (gasExp per).
Proof.
  intros Hn Hu Hp Hfl [p s m c e] ms [Hinv Hstk _ _ Hmem]. rewrite Hn in Hstk. rewrite Hu in Hmem.
  destruct Hmem as [?|Hms]; [done|]. cbn in Hstk. unfold gasExp. cbn [stk].
  destruct (Back_Ok s 1) as (w & -> & Hw); [apply Hinv | lia |]. cbn [mbind res_bind wp].
  assert (Hb : 0 <= u_BitLen w <= 256).
  { rewrite BitLen_spec by done. unfold is_word in Hw. zcase; [lia|].
    pose proof (Z.log2_nonneg w). assert (Z.log2 w < 256) by (apply Z.log2_lt_pow2; [lia | apply Hw]). lia. }
  set (n := u64 ((u_BitLen w + 7) / 8)).
  assert (Hnn : 0 <= n <= 32).
  { unfold n. assert (0 <= (u_BitLen w + 7) / 8 <= 32) by dlia. rewrite u64_small; [lia|].
    unfold is_u64. lia. }
  rewrite mul64_small by nia. unfold ExpGas.
  pose proof (safe_add_spec (n * per) 10 ltac:(unfold is_u64; nia) ltac:(unfold is_u64; lia)) as A.
  destruct (safe_add _ _) as [cost|]; [|unfold gas_post; cbn; by apply refused_refl].
  apply flat_ok; try done; [apply Hinv | apply vm_rel_refl | apply A |]. rewrite Hfl. nia.
Qed.

(** ** Storage *)

(** The frame differs in its machine only, which moved by allowed operations. *)
Definition stepped (p : Z) (s : Stack) (m : Memory) (c : Contract) (e : EVM DB) (f' : Frame DB) : Prop :=
  exists e', f' = mkFrame p s m c e' /\ vm_ok e' /\ vm_rel (readOnly e) e e'.

Lemma stepped_refl p s m c e : vm_ok e -> stepped p s m c e (mkFrame p s m c e).
Proof. intros. exists e. auto using vm_rel_refl. Qed.

Lemma stepped_op o d p s m c e f' : stepped p s m c e f' -> op_wf o ->
  (forall ro d, allowed ro o d) -> apply_op o (db (vm f')) = Ok d ->
  stepped p s m c e (upd_db (fun _ => d) f').
Proof.
  intros (e' & -> & Hv & Hr) Ho Ha E. cbn in *.
  destruct (vm_op (readOnly e) o d e' Hv Ho (Ha _ _) E) as [Hv' Hr'].
  eexists. split; [reflexivity|]. split; [done|]. by eapply vm_rel_trans.
Qed.

Lemma stepped_AddRefund g p s m c e f' : is_u64 g -> stepped p s m c e f' ->
  stepped p s m c e (upd_db (AddRefund g) f').
Proof. intros Hg Hs. by apply (stepped_op (DAddRefund g) (AddRefund g (db (vm f')))); [..|intros []|]. Qed.

(** The refunds of a dirty slot. *)
Lemma wp_dirty_refund (original current value R : Z) p s m c e f :
  is_u64 R -> stepped p s m c e f ->
  wp (if negb (original =? 0) then
        if current =? 0 then d ← SubRefund R (db (vm f)); Ok (upd_db (fun _ => d) f)
        else if value =? 0 then Ok (upd_db (AddRefund R) f)
        else Ok f
      else Ok f) (stepped p s m c e).
Proof.
  intros HR Hs. destruct (original =? 0); cbn [negb]; [done|].
  destruct (current =? 0).
  - pose proof Hs as (e' & Ef & Hv & _).
    pose proof (op_panics (db (vm f)) (DSubRefund R) ltac:(subst f; apply Hv) HR) as P.
    cbn in P. destruct (SubRefund R (db (vm f))) as [d|pp|] eqn:E; cbn; [|by left|done].
    by apply (stepped_op (DSubRefund R)); [..|intros []|].
  - destruct (value =? 0); cbn; [by apply stepped_AddRefund | done].
Qed.

Lemma stepped_if (b : bool) p s m c e f1 f2 :
  stepped p s m c e f1 -> stepped p s m c e f2 -> stepped p s m c e (if b then f1 else f2).
Proof. by destruct b. Qed.

(** A constant price. *)
Lemma stepped_price g p s m c e ms cost f' :
  frame_inv (mkFrame p s m c e) -> ms = 0 -> is_u64 cost ->
  (forall f : Frame DB, gas_floor g f = 1 /\ 1 <= cost \/ gas_floor g f = 0 /\ 0 <= cost) ->
  stepped p s m c e f' -> gas_post (gas_floor g) (mkFrame p s m c e) ms (inl cost, f').
Proof.
  intros Hinv Hms Hc Hfl (e' & -> & Hv & Hr). apply flat_ok; try done.
  destruct (Hfl (mkFrame p s m c e')); lia.
Qed.

Ltac price := apply stepped_price; [done | done | by compute | intros; left; split; [done | by compute]|];
  repeat first [apply stepped_if | apply stepped_AddRefund; [by compute|] | done].

Lemma gasSStore_ok : gas_ok G_gasSStore gasSStore.
Proof.
  open_gas 2%nat. destruct Hmem as [|Hms0]; [done|]. unfold gasSStore. cbn [stk]. read_stack.
  pose proof (stepped_refl p (z :: z0 :: s) m c e Hv) as S0.
  zcase; [cbn; price|]. zcase; [zcase; cbn; price|].
  eapply wp_use; [by apply wp_dirty_refund|]. intros f' Hf'. cbn [wp].
  price.
Qed.

Lemma gasSStoreEIP2200_ok : gas_ok G_gasSStoreEIP2200 gasSStoreEIP2200.
Proof.
  open_gas 2%nat. destruct Hmem as [|Hms0]; [done|]. unfold gasSStoreEIP2200. cbn [stk ctr].
  zcase; [cbn; by apply refused_refl|]. read_stack.
  pose proof (stepped_refl p (z :: z0 :: s) m c e Hv) as S0.
  zcase; [cbn; price|]. zcase; [zcase; cbn; price|].
  eapply wp_use; [by apply wp_dirty_refund|]. intros f' Hf'. cbn [wp].
  price.
Qed.

(** The access list operations. *)
Lemma stepped_AddSlot a k p s m c e f' : stepped p s m c e f' ->
  stepped p s m c e (upd_db (AddSlotToAccessList a k) f').
Proof. intros Hs. by apply (stepped_op (DAddSlot a k) (AddSlotToAccessList a k (db (vm f')))); [..|intros []|]. Qed.

Lemma stepped_AddAddress a p s m c e f' : stepped p s m c e f' ->
  stepped p s m c e (upd_db (AddAddressToAccessList a) f').
Proof. intros Hs. by apply (stepped_op (DAddAddress a) (AddAddressToAccessList a (db (vm f')))); [..|intros []|]. Qed.

Lemma makeGasSStoreFunc_ok g R : gas_needs g = 2 -> uses_mem g = false -> is_u64 R ->
  (forall f : Frame DB, gas_floor g f = 1) -> gas_ok g (makeGasSStoreFunc R).
Proof.
  intros Hn Hu HR Hfl [p s m c e] ms [Hinv Hstk _ _ Hmem]. rewrite Hn in Hstk. rewrite Hu in Hmem.
  destruct Hmem as [?|Hms]; [done|]. cbn [stk] in Hstk. take_words s Hstk 2%nat.
  pose proof (ok_vm _ Hinv) as Hv. cbn in Hv.
  unfold makeGasSStoreFunc. cbn [stk ctr]. zcase; [cbn; by apply refused_refl|]. read_stack.
  pose proof (stepped_refl p (z :: z0 :: s) m c e Hv) as S0.
  set (f0 := mkFrame p (z :: z0 :: s) m c e) in *.
  assert (A : wp (let '(addrPresent, slotPresent) := SlotInAccessList (db (vm f0)) (self c) (u_Bytes32 z) in
     if negb slotPresent then
       if negb addrPresent then Panic PanicAccessList
       else Ok (ColdSloadCostEIP2929, upd_db (AddSlotToAccessList (self c) (u_Bytes32 z)) f0)
     else Ok (0, f0))
     (fun r => 0 <= fst r <= 2100 /\ stepped p (z :: z0 :: s) m c e (snd r))).
  { destruct (SlotInAccessList _ _ _) as [ap sp]. destruct sp; cbn; [done|].
    destruct ap; cbn; [|by right]. split; [unfold ColdSloadCostEIP2929; lia|]. by apply stepped_AddSlot. }
  eapply wp_use; [exact A|]. intros [cost f1] [Hcost S1]. cbn [fst snd] in *.
  assert (P : forall k f', 1 <= k <= 2 ^ 40 -> stepped p (z :: z0 :: s) m c e f' ->
    gas_post (gas_floor g) f0 ms (inl (add64 cost k), f')).
  { intros k f' Hk S'. rewrite add64_small by lia. apply stepped_price; try done.
    - unfold is_u64. lia.
    - intros. left. split; [apply Hfl | lia]. }
  zcase; [apply P; [by compute|done]|]. zcase; [zcase; (apply P; [by compute|])|].
  - done.
  - apply stepped_if; [by apply stepped_AddRefund | done].
  - eapply wp_use; [by apply wp_dirty_refund|]. intros f' Hf'. apply P; [by compute|].
    repeat first [apply stepped_if | apply stepped_AddRefund; [by compute|] | done].
Qed.

(** ** Access prices *)

Ltac price0 := apply stepped_price; [done | done | by compute | intros; right; split; [done | by compute]|];
  repeat first [apply stepped_if | apply stepped_AddAddress | apply stepped_AddSlot
               | apply stepped_AddRefund; [by compute|] | done].

Lemma gasSLoadEIP2929_ok : gas_ok G_gasSLoadEIP2929 gasSLoadEIP2929.
Proof.
  open_gas 1%nat. destruct Hmem as [|Hms0]; [done|]. unfold gasSLoadEIP2929. cbn [stk]. read_stack.
  pose proof (stepped_refl p (z :: s) m c e Hv) as S0.
  destruct (SlotInAccessList _ _ _) as [_ sp]. zcase; cbn [wp].
  - apply stepped_price; [done | done | by compute | intros; left; split; [done | by compute]|].
    by apply stepped_AddSlot.
  - price.
Qed.

Lemma gasEip2929AccountCheck_ok : gas_ok G_gasEip2929AccountCheck gasEip2929AccountCheck.
Proof.
  open_gas 1%nat. destruct Hmem as [|Hms0]; [done|]. unfold gasEip2929AccountCheck. cbn [stk]. read_stack.
  pose proof (stepped_refl p (z :: s) m c e Hv) as S0.
  zcase; cbn [wp]; price0.
Qed.

Lemma makeSelfdestructGasFn_ok g b : gas_needs g = 1 -> uses_mem g = false ->
  (forall f : Frame DB, gas_floor g f = 0) -> gas_ok g (makeSelfdestructGasFn b).
Proof.
  intros Hn Hu Hfl [p s m c e] ms [Hinv Hstk _ _ Hmem]. rewrite Hn in Hstk. rewrite Hu in Hmem.
  destruct Hmem as [?|Hms]; [done|]. cbn [stk] in Hstk. take_words s Hstk 1%nat.
  pose proof (ok_vm _ Hinv) as Hv. cbn in Hv.
  unfold makeSelfdestructGasFn. cbn [stk]. read_stack.
  pose proof (stepped_refl p (z :: s) m c e Hv) as S0.
  set (r := if negb (AddressInAccessList _ _) then _ else _).
  assert (Hr : 0 <= fst r <= 2600 /\ stepped p (z :: s) m c e (snd r)).
  { unfold r. zcase; cbn; [|done]. split; [by compute|]. by apply stepped_AddAddress. }
  clearbody r. destruct r as [gas f']. cbn [fst snd] in Hr. destruct Hr as [Hg Hs].
  assert (P : forall k f2, 0 <= k < 2 ^ 40 -> stepped p (z :: s) m c e f2 ->
    gas_post (gas_floor g) (mkFrame p (z :: s) m c e) ms (inl k, f2)).
  { intros k f2 Hk S'. apply stepped_price; try done.
    - unfold is_u64. lia.
    - intros. right. split; [apply Hfl | lia]. }
  cbn [wp]. apply P.
  - zcase; [|lia]. unfold CreateBySelfdestructGas. rewrite add64_small by lia. lia.
  - apply stepped_if; [by apply stepped_AddRefund | done].
Qed.

Lemma gasSelfdestruct_ok : gas_ok G_gasSelfdestruct (gasSelfdestruct env).
Proof.
  open_gas 1%nat. destruct Hmem as [|Hms0]; [done|]. unfold gasSelfdestruct. cbn [stk]. read_stack.
  pose proof (stepped_refl p (z :: s) m c e Hv) as S0.
  destruct (IsEIP150 (chainRules env)); [destruct (Exist _ _)|]; cbn [negb mbind res_bind wp]; price0.
Qed.

Lemma makeGasLog_ok n : gas_ok (G_makeGasLog n) (makeGasLog n).
Proof.
  open_gas 2%nat. to_prop. unfold makeGasLog. cbn [stk]. read_stack.
  pose proof (safe_u64_spec z0 W0) as S. destruct (safe_u64 z0) as [sz|]; [|cbn; by apply refused_refl].
  destruct S as [_ Hsz]. open_mem fee m' Hf Hok; cbn [wp]; [|by apply refused_refl]. cbn [and_then].
  unfold LogGas, LogTopicGas, LogDataGas. rewrite mul64_small by lia.
  pose proof (safe_add_spec fee 375 ltac:(auto with entropy) ltac:(by compute)) as A1.
  destruct (safe_add fee 375) as [g1|]; [|by apply refused_refl]. destruct A1 as [-> A1]. cbn [and_then].
  pose proof (safe_add_spec (fee + 375) (n * 375) A1 ltac:(unfold is_u64; lia)) as A2.
  destruct (safe_add (fee + 375) _) as [g2|]; [|by apply refused_refl]. destruct A2 as [-> A2]. cbn [and_then].
  pose proof (safe_mul_spec sz 8 Hsz ltac:(by compute)) as M.
  destruct (safe_mul sz 8) as [g3|]; [|by apply refused_refl]. destruct M as [-> M]. cbn [and_then].
  pose proof (safe_add_spec (fee + 375 + n * 375) (sz * 8) A2 M) as A3.
  destruct (safe_add _ _) as [g4|]; [|by apply refused_refl]. destruct A3 as [-> A3].
  apply priced_intro; try done; [apply vm_rel_refl|]. cbn. unfold is_u64 in Hsz. lia.
Qed.

Lemma gasExtCodeCopyEIP2929_ok : gas_ok G_gasExtCodeCopyEIP2929 gasExtCodeCopyEIP2929.
Proof.
  intros f ms Hpre.
  assert (H4 : gas_pre env G_gasExtCodeCopy f ms) by (destruct Hpre; by split).
  unfold gasExtCodeCopyEIP2929. eapply wp_use.
  { apply (memoryCopierGas_ok G_gasExtCodeCopy 3); try done. }
  intros [r f'] Hp. unfold gas_post in Hp. cbn [fst snd] in Hp. destruct r as [gas|er].
  2: { cbn. exact Hp. }
  destruct Hp as [P1 P2 P3 P4 P5 P6 P7 P8].
  pose proof (gp_stk _ _ _ _ Hpre) as Hs. cbn in Hs. rewrite P2.
  destruct (stk f) as [|z s] eqn:Es; [unfold zlen in Hs; cbn in Hs; lia|]. read_stack.
  destruct (AddressInAccessList _ _); cbn [negb wp]; [unfold gas_post; cbn [fst snd]; split; try done; congruence|].
  destruct (vm_op (readOnly (vm f)) (DAddAddress (u_Bytes20 z)) _ (vm f') P4 I
    ltac:(by destruct (readOnly (vm f))) eq_refl) as [V R].
  pose proof (safe_add_spec gas (ColdAccountAccessCostEIP2929 - WarmStorageReadCostEIP2929) P7 ltac:(by compute)) as A.
  unfold gas_post. cbn [fst snd]. destruct (safe_add _ _) as [cost|]; destruct f'; cbn in *.
  - destruct A as [-> A]. split; cbn; try done; [congruence | by eapply vm_rel_trans|]. unfold is_u64 in A. lia.
  - split; cbn; [done | by eapply vm_rel_trans |]. rewrite P3. split; [|lia].
    apply (ok_gas _ (ok_ctr _ (gp_inv _ _ _ _ Hpre))).
Qed.

(** ** Calls *)

Abbreviation eip150 := (IsEIP150 (chainRules env)).

(** With the cap, the gas of the callee leaves room for the access price. *)
Lemma callGas_spec b avail base cost : is_u64 avail -> is_word cost ->
  match callGas b avail base cost with
  | inl t => is_u64 t /\ (b = true -> t <= 63 * 2 ^ 58)
  | inr _ => True
  end.
Proof.
  intros Ha Hc. unfold callGas.
  set (a := if b then sub64 avail base else avail).
  assert (Hra : is_u64 a) by (unfold a; destruct b; [apply sub64_range | done]).
  unfold is_u64 in Hra. assert (0 <= a / 64 <= a) by dlia.
  rewrite sub64_small by lia. pose proof (Uint64_range cost Hc) as Hu. unfold is_u64 in Hu.
  assert (a - a / 64 <= 63 * 2 ^ 58) by dlia.
  destruct b; cbn [andb].
  - destruct (u_IsUint64 cost) eqn:E; cbn [negb orb]; [|unfold is_u64; lia].
    destruct (_ <? _) eqn:F; to_prop; unfold is_u64; lia.
  - destruct (u_IsUint64 cost) eqn:E; cbn [negb]; [|done]. unfold is_u64. split; [lia|done].
Qed.

Definition call_priced (p : Z) (s : Stack) (m : Memory) (c : Contract) (e : EVM DB) (gas : Z)
    (r : (Z + Err) * Frame DB) : Prop :=
  exists t, is_u64 t /\ snd r = mkFrame p s m c (set_callGasTemp t e) /\
  match fst r with
  | inl cost => cost = gas + t /\ is_u64 cost /\ (eip150 = true -> cost + 2500 < 2 ^ 64)
  | inr _ => True
  end.

Lemma finishCallGas_spec p z s m c e gas :
  ctr_ok c -> is_word z -> 0 <= gas < 2 ^ 57 ->
  wp (finishCallGas env (mkFrame p (z :: s) m c e) gas) (call_priced p (z :: s) m c e gas).
Proof.
  intros Hc Hz Hg. unfold finishCallGas. cbn [stk ctr vm]. read_stack.
  pose proof (callGas_spec eip150 (Gas c) gas z (ok_gas _ Hc) Hz) as S.
  destruct (callGas _ _ _ _) as [t|er]; cbn [wp].
  - destruct S as [Ht Hcap]. exists t. split; [done|]. split; [done|]. cbn [fst].
    pose proof (safe_add_spec gas t ltac:(unfold is_u64; lia) Ht) as A.
    destruct (safe_add gas t) as [cost|]; [|done]. destruct A as [-> A]. split; [done|].
    split; [done|]. intros H. specialize (Hcap H). lia.
  - exists 0. split; [by compute|]. done.
Qed.

(** A call price, and the room it leaves. *)
Definition call_ok (g : gasId) (x : Frame DB -> Z -> res ((Z + Err) * Frame DB)) : Prop :=
  forall f ms, gas_pre env g f ms ->
    wp (x f ms) (fun r => gas_post (gas_floor g) f ms r /\
      match fst r with inl cost => eip150 = true -> cost + 2500 < 2 ^ 64 | inr _ => True end).

Lemma call_ok_gas_ok g x : call_ok g x -> gas_ok g x.
Proof. intros H f ms Hp. eapply wp_mono; [by apply H|]. by intros a [? _]. Qed.

(** The end of a call price: the memory was priced, [gas] collects the rest. *)
Lemma call_finish g p z s m m' c e ms gas extra :
  frame_inv (mkFrame p (z :: s) m c e) -> is_word z -> 0 <= gas < 2 ^ 57 -> extra <= gas ->
  mem_ok (Memory.Resize ms m') /\ ms <= Memory.Len (Memory.Resize ms m') ->
  (forall e' : EVM DB, gas_floor g (mkFrame p (z :: s) m' c e') = callGasTemp e' + extra) ->
  wp (finishCallGas env (mkFrame p (z :: s) m' c e) gas)
    (fun r => gas_post (gas_floor g) (mkFrame p (z :: s) m c e) ms r /\
      match fst r with inl cost => eip150 = true -> cost + 2500 < 2 ^ 64 | inr _ => True end).
Proof.
  intros Hinv Hz Hg Hx Hok Hfl. eapply wp_mono; [apply finishCallGas_spec; [apply Hinv | done | done]|].
  intros [r f'] (t & Ht & Ef & Hr). cbn [fst snd] in *. subst f'. unfold gas_post. cbn [fst snd].
  assert (V : vm_ok (set_callGasTemp t e)) by (apply vm_ok_temp; [apply Hinv | done]).
  assert (R : vm_rel (readOnly e) e (set_callGasTemp t e)) by (split; try done; apply reach_refl).
  destruct r as [cost|er].
  - destruct Hr as (-> & Hc & Hroom). split; [|done]. apply priced_intro; try done.
    rewrite Hfl. cbn. lia.
  - split; [|done]. split; cbn; try done. split; [apply (ok_gas _ (ok_ctr _ Hinv)) | lia].
Qed.

Lemma Sign_zero v : is_word v -> (u_Sign v =? 0) = u_IsZero v.
Proof.
  intros Hv. rewrite Sign_spec, IsZero_spec by done. unfold signed, is_word, two256 in *.
  apply Bool.eq_iff_eq_true. rewrite !Z.eqb_eq, Z.sgn_null_iff. zcase; lia.
Qed.

Lemma refused_call p s m c e m' er g ms : frame_inv (mkFrame p s m c e) ->
  gas_post (gas_floor g) (mkFrame p s m c e) ms (inr er, mkFrame p s m' c e) /\ True.
Proof. intros. split; [|done]. by apply refused_refl. Qed.

Lemma gasCall_call_ok : call_ok G_gasCall (gasCall env).
Proof.
  open_gas 3%nat. unfold gasCall. cbn [stk vm]. read_stack.
  set (g0 := if negb (Exist _ _) then CallNewAccountGas else 0).
  set (g1 := if negb (u_IsZero z1) then add64 g0 CallValueTransferGas else g0).
  set (x := if u_IsZero z1 then 0 else CallValueTransferGas).
  assert (H0 : 0 <= g0 <= 25000) by (unfold g0; zcase; by compute).
  assert (H1 : x <= g1 /\ 0 <= g1 <= 34000).
  { unfold g1, x, CallValueTransferGas. destruct (u_IsZero z1); cbn [negb]; [lia|].
    rewrite add64_small by lia. lia. }
  open_mem fee m' Hf Hok; cbn [and_then wp]; [|by apply refused_call].
  pose proof (safe_add_spec g1 fee ltac:(unfold is_u64; lia) ltac:(auto with entropy)) as A.
  destruct (safe_add g1 fee) as [gas|]; cbn [wp]; [|by apply refused_call]. destruct A as [-> A].
  apply (call_finish _ _ _ _ _ _ _ _ _ _ x); try done; lia.
Qed.

Lemma gasCallCode_call_ok : call_ok G_gasCallCode (gasCallCode env).
Proof.
  open_gas 3%nat. unfold gasCallCode.
  open_mem fee m' Hf Hok; cbn [wp]; [|by apply refused_call]. cbn [stk]. read_stack.
  rewrite Sign_zero by done.
  set (g0 := if negb (u_IsZero z1) then CallValueTransferGas else 0).
  assert (H0 : 0 <= g0 <= 9000) by (unfold g0; zcase; by compute).
  pose proof (safe_add_spec g0 fee ltac:(unfold is_u64; lia) ltac:(auto with entropy)) as A.
  destruct (safe_add g0 fee) as [gas|]; cbn [wp]; [|by apply refused_call]. destruct A as [-> A].
  apply (call_finish _ _ _ _ _ _ _ _ _ _ g0); try done; try lia.
  intros e'. cbn. unfold value_price. cbn. unfold g0. by destruct (u_IsZero z1).
Qed.

Lemma gasDelegateCall_call_ok : call_ok G_gasDelegateCall (gasDelegateCall env).
Proof.
  open_gas 1%nat. unfold gasDelegateCall. open_mem fee m' Hf Hok; cbn [wp]; [|by apply refused_call].
  apply (call_finish _ _ _ _ _ _ _ _ _ _ 0); try done; try lia. intros e'. cbn. lia.
Qed.

Lemma gasStaticCall_call_ok : call_ok G_gasStaticCall (gasStaticCall env).
Proof.
  open_gas 1%nat. unfold gasStaticCall. open_mem fee m' Hf Hok; cbn [wp]; [|by apply refused_call].
  apply (call_finish _ _ _ _ _ _ _ _ _ _ 0); try done; try lia. intros e'. cbn. lia.
Qed.

Lemma with_gas_id c : with_gas c (Gas c) = c.
Proof. by destruct c. Qed.
Lemma with_gas_twice c a b : with_gas (with_gas c a) b = with_gas c b.
Proof. done. Qed.

Lemma frame_inv_vm p s m c e e' : frame_inv (mkFrame p s m c e) -> vm_ok e' ->
  frame_inv (mkFrame p s m c e').
Proof. intros [] ?. by split. Qed.
Lemma frame_inv_ctr p s m c e c' : frame_inv (mkFrame p s m c e) -> ctr_ok c' ->
  frame_inv (mkFrame p s m c' e).
Proof. intros [] ?. by split. Qed.

(** The access price is taken first, so that the callee's share is computed
    without it, and handed back before the whole is charged. *)
Lemma variant_ok g g0 old :
  call_ok g0 old -> 2 <= gas_needs g -> gas_needs g0 <= gas_needs g ->
  uses_mem g0 = true -> gas_args eip150 g = eip150 -> gas_args eip150 g0 = true ->
  (forall f : Frame DB, gas_floor g f = gas_floor g0 f) ->
  (forall p s m c c' (e : EVM DB), gas_floor g0 (mkFrame p s m c e) = gas_floor g0 (mkFrame p s m c' e)) ->
  gas_ok g (makeCallVariantGasCallEIP2929 old).
Proof.
  intros Hold H2 Hn Hu Ha Ha0 Hfl Hfc [p s m c e] ms [Hinv Hstk Hargs Hms Hmem]. cbn [stk] in *.
  rewrite Ha in Hargs. unfold makeCallVariantGasCallEIP2929. cbn [stk vm].
  assert (E2 : 2 <= zlen s) by lia. destruct s as [|z [|z0 s]]; [done|done|]. read_stack.
  pose proof (ok_ctr _ Hinv) as Hc. cbn in Hc.
  destruct (AddressInAccessList _ _).
  { eapply wp_mono; [apply Hold; split; cbn; try done; [lia | by left]|].
    intros [r f'] [Hp _]. unfold gas_post in *. cbn [fst snd] in *. destruct r; [|done].
    destruct Hp. split; try done. by rewrite Hfl. }
  destruct (vm_op (readOnly e) (DAddAddress (u_Bytes20 z0)) _ e ltac:(apply Hinv) I
    ltac:(by destruct (readOnly e)) eq_refl) as [V R].
  cbn [upd_db vm set_vm pc stk mem ctr]. set (e1 := set_db _ e) in *.
  set (cold := ColdAccountAccessCostEIP2929 - WarmStorageReadCostEIP2929).
  assert (Ecold : cold = 2500) by done. clearbody cold. subst cold.
  pose proof (UseGas_spec c 2500 Hc ltac:(lia)) as HU. destruct (UseGas c 2500) as [c1|].
  2: { cbn. split; cbn; try done. split; [apply (ok_gas _ Hc) | lia]. }
  destruct HU as (-> & Hle & Hc1). unfold set_ctr at 1. cbn [pc stk mem vm].
  eapply wp_use.
  { apply (Hold (mkFrame p (z :: z0 :: s) m (with_gas c (Gas c - 2500)) e1)).
    split; cbn; try done; [| lia | by left].
    eapply frame_inv_ctr, Hc1. by eapply frame_inv_vm. }
  intros [r f'] [Hp Hroom]. unfold gas_post in *. cbn [fst snd] in *.
  pose proof (ok_gas _ Hc) as Hg. unfold is_u64 in Hg.
  destruct r as [gas|er].
  - destruct Hp as [P1 P2 P3 P4 P5 P6 P7 P8]. destruct f' as [p' s' m' c' e']. cbn in *. subst.
    specialize (Hroom Hargs). unfold is_u64 in P7.
    change (Gas (with_gas c (Gas c - 2500))) with (Gas c - 2500). rewrite !add64_small by lia.
    rewrite with_gas_twice. replace (Gas c - 2500 + 2500) with (Gas c) by lia. rewrite with_gas_id.
    apply priced_intro; try done.
    + by eapply vm_rel_trans.
    + unfold is_u64. lia.
    + rewrite Hfl, (Hfc _ _ _ _ (with_gas c (Gas c - 2500))). lia.
  - destruct Hp as [P1 P2 P3]. cbn. cbn in P3, P2. split; cbn; try done.
    + by eapply vm_rel_trans.
    + destruct P3. split; [done|lia].
Qed.
End gas_functions.

(** ** Every dynamic gas function *)
Theorem run_dynamicGas_ok `{U : Uint256} `{US : !Uint256Spec U} `{C : Crypto} `{CS : !CryptoSpec C}
    {DB : Type} `{SDB : StateDB DB} `{SS : !StateDBSpec DB} (env : Env) (g : gasId) :
  gas_ok env g (run_dynamicGas (DB := DB) env g).
Proof.
  destruct g; cbn [run_dynamicGas];
    first
    [ by apply pureMemoryGascost_ok
    | by apply gasExp_ok
    | by apply (memoryCopierGas_ok _ _ 2)
    | by apply (memoryCopierGas_ok _ _ 3)
    | by apply (gasHashWords_ok _ _ 1)
    | by apply (gasHashWords_ok _ _ 2)
    | apply gasSStore_ok | apply gasSStoreEIP2200_ok
    | by apply makeGasSStoreFunc_ok
    | apply gasSLoadEIP2929_ok | apply gasEip2929AccountCheck_ok | apply gasExtCodeCopyEIP2929_ok
    | apply gasSelfdestruct_ok | by apply makeSelfdestructGasFn_ok | apply makeGasLog_ok
    | apply call_ok_gas_ok, gasCall_call_ok | apply call_ok_gas_ok, gasCallCode_call_ok
    | apply call_ok_gas_ok, gasDelegateCall_call_ok | apply call_ok_gas_ok, gasStaticCall_call_ok
    | by apply (variant_ok _ _ G_gasCall); [apply gasCall_call_ok|..]
    | by apply (variant_ok _ _ G_gasCallCode); [apply gasCallCode_call_ok|..]
    | by apply (variant_ok _ _ G_gasDelegateCall); [apply gasDelegateCall_call_ok|..]
    | by apply (variant_ok _ _ G_gasStaticCall); [apply gasStaticCall_call_ok|..] ].
Qed.
