(* ===== verification/EvmSafety.v ===== *)
(** * Safety of the interpreter

    Every operation of a well-formed jump table keeps the invariants of a frame
    and strictly uses up gas, so the interpreter returns from every call, never
    reads or writes out of range, never gains gas, leaves the state alone when a
    call fails, and does not touch the accounts in a static call. *)

From S2P Require Import Prelude Uint256 Config Common EvmAnalysis EvmStack EvmMemory EvmState.
From S2P Require Import EvmGas EvmCalls EvmInstructions EvmOpcodes EvmJumpTable EvmInterpreter.
From S2P Require Import EvmSpec EvmInvariant EvmExec EvmCallSpec EvmGasSpec.

Local Open Scope Z_scope.

(** ** Every instruction *)

Lemma run_execute_ok `{U : Uint256} `{US : !Uint256Spec U} `{C : Crypto} `{CS : !CryptoSpec C}
    {DB : Type} `{SDB : StateDB DB} `{SS : !StateDBSpec DB} (env : Env) (G : Z) run (i : execId) :
  G <= 2 ^ 64 -> run_spec (DB := DB) G run -> exec_ok env G i (run_execute env run i).
Proof.
  intros HG Hrun. destruct i; cbn [run_execute];
    first
    [ apply Stop_ok | apply Addmod_ok | apply Mulmod_ok | apply Keccak256_ok | apply Balance_ok
    | apply CallDataLoad_ok | apply CallDataCopy_ok | apply CodeCopy_ok | apply ExtCodeSize_ok
    | apply ExtCodeCopy_ok | apply Blockhash_ok | apply Pop_ok | apply Mload_ok | apply Mstore_ok
    | apply Mstore8_ok | apply Sload_ok | apply Sstore_ok | apply Jump_ok | apply Jumpi_ok
    | apply Jumpdest_ok | apply Push1_ok | apply makePush_ok | apply makeDup_ok | apply makeSwap_ok
    | apply makeLog_ok | by apply opCreate_ok | by apply opCreate2_ok | by apply opCall_ok
    | by apply opCallCode_ok | by apply opDelegateCall_ok | by apply opStaticCall_ok
    | apply Return_ok | apply Revert_ok | apply Selfdestruct_ok | apply Random_ok
    | apply ExtCodeHash_ok | apply ReturnDataCopy_ok | apply ChainID_ok | apply BaseFee_ok
    | apply Undefined_ok
    | (apply binop_ok; [reflexivity..|]; intros; cbv beta; unfold of_bool; auto 7 with entropy; fail)
    | (apply unop_ok; [reflexivity..|]; intros; cbv beta; unfold of_bool; auto 7 with entropy; fail)
    | (apply push_ok; [reflexivity..|]; intros f Hpre; cbv beta;
       first [ unfold addr_word, big_word; by auto with entropy
             | apply word_of_u64; first [apply Hpre | apply (ok_gas _ (ok_ctr _ (pre_inv _ _ _ _ Hpre)))] ]) ].
Qed.

(** ** Well-formed tables

    What the interpreter assumes of an entry: the stack limits match the words
    the function takes and leaves, the memory and gas functions belong to it, the
    environment has the fields it reads, and it costs gas unless it ends the
    frame. *)

Definition is_call (i : execId) : bool :=
  match i with I_opCall | I_opCallCode | I_opDelegateCall | I_opStaticCall => true | _ => false end.

(** The prices that cover a call that may transfer value, or any call. *)
Definition prices_call (i : execId) (g : gasId) : bool :=
  match i, g with
  | (I_opCall | I_opCallCode),
    (G_gasCall | G_gasCallCode | G_gasCallEIP2929 | G_gasCallCodeEIP2929) => true
  | (I_opDelegateCall | I_opStaticCall),
    (G_gasDelegateCall | G_gasStaticCall | G_gasDelegateCallEIP2929 | G_gasStaticCallEIP2929) => true
  | _, _ => false
  end.

(** A price that is never zero. *)
Definition positive (g : gasId) : bool :=
  match g with
  | G_gasExpFrontier | G_gasExpEIP158 | G_gasSStore | G_gasSStoreEIP2200 | G_gasSStoreEIP2929
  | G_gasSStoreEIP3529 | G_gasSLoadEIP2929 | G_makeGasLog _ => true
  | _ => false
  end.

#[export] Instance memId_eq_dec : EqDecision memId.
Proof. solve_decision. Defined.

(** What of the environment the tables depend on. *)
Record Flags := {
  hasRandom : bool; hasChainID : bool; hasBaseFee : bool; hasGasLimit : bool; hasEIP150 : bool }.

Definition flags (env : Env) : Flags := {|
  hasRandom := bool_decide (is_Some (Random env));
  hasChainID := bool_decide (is_Some (ChainID (chainConfig env)));
  hasBaseFee := bool_decide (is_Some (BaseFee env));
  hasGasLimit := (0 <=? GasLimit env) && (GasLimit env <? 2 ^ 64);
  hasEIP150 := IsEIP150 (chainRules env) |}.

Definition env_has (fl : Flags) (i : execId) : bool :=
  match i with
  | I_opRandom => hasRandom fl
  | I_opChainID => hasChainID fl
  | I_opBaseFee => hasBaseFee fl
  | I_opGasLimit => hasGasLimit fl
  | _ => true
  end.

Definition op_ok (fl : Flags) (o : operation) : bool :=
  let i := execute o in
  args_ok i && env_has fl i &&
  (fst (stack_io i) <=? op_minStack o) &&
  (op_maxStack o + snd (stack_io i) - fst (stack_io i) <=? StackLimit) &&
  (0 <=? constantGas o) && (constantGas o <? 2 ^ 40) &&
  bool_decide (memorySize o = mem_of i) &&
  match dynamicGas o with
  | None => bool_decide (mem_of i = None) && negb (is_call i) && (halts i || (1 <=? constantGas o))
  | Some g =>
    (gas_needs g <=? op_minStack o) && gas_args (hasEIP150 fl) g &&
    (uses_mem g || bool_decide (mem_of i = None)) &&
    (if is_call i then prices_call i g else true) &&
    (halts i || (1 <=? constantGas o) || (positive g && negb (is_call i)))
  end.

Definition table_ok (fl : Flags) (jt : JumpTable) : bool :=
  bool_decide (length jt = 256%nat) && forallb (op_ok fl) jt &&
  match jt with o :: _ => match execute o with I_opStop => true | _ => false end | [] => false end.

(** ** The instruction sets are well formed *)

(** The environment of a block: [ChainID] and [BaseFee] are set where London's
    instructions read them, and EIP-150 is active by then. *)
Definition env_ok (env : Env) : Prop :=
  is_u64 (GasLimit env) /\
  (IsMerge (chainRules env) || IsLondon (chainRules env) = true ->
   is_Some (ChainID (chainConfig env)) /\ is_Some (BaseFee env) /\ IsEIP150 (chainRules env) = true).

Definition tables_computed : Prop :=
  exists f h t l m,
    newFrontierInstructionSet = Ok f /\ newHomesteadInstructionSet = Ok h /\
    newTangerineWhistleInstructionSet = Ok t /\ newLondonInstructionSet = Ok l /\
    newMergeInstructionSet = Ok m /\
    (forall r c b e, table_ok (Build_Flags r c b true e) f = true) /\
    (forall r c b e, table_ok (Build_Flags r c b true e) h = true) /\
    (forall r c b e, table_ok (Build_Flags r c b true e) t = true) /\
    (forall r, table_ok (Build_Flags r true true true true) l = true) /\
    table_ok (Build_Flags true true true true true) m = true.

Lemma tables_computed_ok : tables_computed.
Proof.
  do 5 eexists. split; [vm_compute; reflexivity|]. split; [vm_compute; reflexivity|].
  split; [vm_compute; reflexivity|]. split; [vm_compute; reflexivity|].
  split; [vm_compute; reflexivity|].
  split; [intros [] [] [] []; vm_compute; reflexivity|].
  split; [intros [] [] [] []; vm_compute; reflexivity|].
  split; [intros [] [] [] []; vm_compute; reflexivity|].
  split; [intros []; vm_compute; reflexivity|]. vm_compute. reflexivity.
Qed.

Lemma selectInstructionSet_ok env : env_ok env ->
  exists jt, selectInstructionSet (chainRules env) = Ok jt /\ table_ok (flags env) jt = true.
Proof.
  intros [Hg Hl]. destruct tables_computed_ok as
    (f & h & t & l & m & Ef & Eh & Et & El & Em & Tf & Th & Tt & Tl & Tm).
  unfold flags, selectInstructionSet. rewrite Ef, Eh, Et, El, Em. clear Ef Eh Et El Em.
  unfold is_u64 in Hg.
  assert ((0 <=? GasLimit env) && (GasLimit env <? 2 ^ 64) = true) as -> by lia.
  destruct (IsMerge (chainRules env)) eqn:EM.
  - destruct (Hl eq_refl) as (H1 & H2 & H3). exists m. split; [reflexivity|].
    assert (is_Some (Random env)) as H4.
    { unfold chainRules, rules in EM. cbn in EM. by destruct (Random env). }
    rewrite !bool_decide_eq_true_2, H3 by assumption. exact Tm.
  - destruct (IsLondon (chainRules env)) eqn:EL.
    + destruct (Hl eq_refl) as (H1 & H2 & H3). exists l. split; [reflexivity|].
      rewrite (bool_decide_eq_true_2 (is_Some (ChainID _))), (bool_decide_eq_true_2 (is_Some (BaseFee _))), H3
        by assumption. apply Tl.
    + destruct (IsEIP150 (chainRules env)); [exists t; split; [reflexivity | apply Tt]|].
      destruct (IsHomestead (chainRules env)).
      * exists h. split; [reflexivity | apply Th].
      * exists f. split; [reflexivity | apply Tf].
Qed.

(** ** One round of the loop *)

Section round.
Context `{U : Uint256} `{US : !Uint256Spec U} `{C : Crypto} `{CS : !CryptoSpec C}.
Context {DB : Type} `{SDB : StateDB DB} `{SS : !StateDBSpec DB}.
Context (env : Env).

(** The memory functions read words the instruction takes. *)
Lemma calcWithUint_range o l : is_u64 (fst (calcMemSize64WithUint o l)).
Proof.
  unfold calcMemSize64WithUint, u_Uint64WithOverflow.
  repeat case_match; cbn; auto with entropy; unfold is_u64; lia.
Qed.

Lemma memoryRange_Ok st a b : wf_stack st -> 0 <= a < zlen st -> 0 <= b < zlen st ->
  exists r, memoryRange a b st = Ok r /\ is_u64 (fst r).
Proof.
  intros Hw Ha Hb. unfold memoryRange.
  destruct (Back_Ok st a) as (o & -> & Ho); [done..|].
  destruct (Back_Ok st b) as (l & -> & Hl); [done..|]. cbn.
  eexists. split; [done|]. unfold calcMemSize64.
  case_match; [unfold is_u64; cbn; lia | apply calcWithUint_range].
Qed.

Lemma memoryTwoRanges_Ok st a b c d : wf_stack st ->
  0 <= a < zlen st -> 0 <= b < zlen st -> 0 <= c < zlen st -> 0 <= d < zlen st ->
  exists r, memoryTwoRanges a b c d st = Ok r /\ is_u64 (fst r).
Proof.
  intros Hw Ha Hb Hc Hd. unfold memoryTwoRanges.
  destruct (memoryRange_Ok st a b) as ([x ox] & -> & Hx); [done..|]. cbn.
  destruct ox; [by eexists|].
  destruct (memoryRange_Ok st c d) as ([y oy] & -> & Hy); [done..|]. cbn.
  repeat case_match; by eexists.
Qed.

Lemma memoryWord_Ok st l : wf_stack st -> 0 < zlen st ->
  exists r, (o ← Stack.Back st 0; Ok (calcMemSize64WithUint o l)) = Ok r /\ is_u64 (fst r).
Proof.
  intros Hw Hs. destruct (Back_Ok st 0) as (o & -> & Ho); [done | lia|]. cbn.
  eexists. split; [done|]. apply calcWithUint_range.
Qed.

Lemma run_memorySize_Ok i m st : mem_of i = Some m -> wf_stack st ->
  fst (stack_io i) <= zlen st -> args_ok i = true ->
  exists r, run_memorySize m st = Ok r /\ is_u64 (fst r).
Proof.
  intros Hm Hw Hs Ha. destruct i; cbn in Hm; simplify_eq; cbn [stack_io fst] in Hs;
    cbn [args_ok] in Ha; to_prop; cbn [run_memorySize];
    first [ apply memoryRange_Ok; [done|lia|lia]
          | apply memoryTwoRanges_Ok; [done|lia|lia|lia|lia]
          | apply memoryWord_Ok; [done|lia] ].
Qed.

(** The requested size is a whole number of words and covers the access. *)
Lemma requestedMemory_Ok o st :
  memorySize o = mem_of (execute o) -> wf_stack st ->
  fst (stack_io (execute o)) <= zlen st -> args_ok (execute o) = true ->
  exists r, requestedMemory o st = Ok r /\
    match r with
    | None => True
    | Some ms =>
      (exists w, 0 <= w /\ ms = 32 * w /\ is_u64 ms) /\
      match mem_of (execute o) with
      | None => ms = 0
      | Some m => exists sz, run_memorySize m st = Ok (sz, false) /\ sz <= ms
      end
    end.
Proof.
  intros Hm Hw Hs Ha. unfold requestedMemory. rewrite Hm.
  destruct (mem_of (execute o)) as [m|] eqn:E.
  2: { eexists. split; [done|]. split; [|done]. exists 0. by compute. }
  destruct (run_memorySize_Ok _ _ _ E Hw Hs Ha) as ([sz ov] & -> & Hu). cbn [mbind res_bind fst] in *.
  destruct ov; [by eexists|]. destruct (toWordSize_spec sz Hu) as [Et Ht].
  destruct (SafeMul_spec (toWordSize sz) 32) as [S1 S2]; [unfold is_u64; lia | by compute|].
  destruct (SafeMul (toWordSize sz) 32) as [v o2]. cbn in S1, S2. subst o2.
  destruct (toWordSize sz * 32 <? 2 ^ 64) eqn:El; cbn [negb]; to_prop; [|by eexists].
  specialize (S2 El). eexists. split; [done|]. split.
  - exists (toWordSize sz). unfold is_u64. lia.
  - exists sz. split; [done|]. rewrite S2, Et. dlia.
Qed.

(** What [op_ok] says, as propositions. *)
Record entry_wf (o : operation) : Prop := {
  ow_args : args_ok (execute o) = true;
  ow_env : env_needs env (execute o);
  ow_min : fst (stack_io (execute o)) <= op_minStack o;
  ow_max : op_maxStack o + snd (stack_io (execute o)) - fst (stack_io (execute o)) <= StackLimit;
  ow_const : 0 <= constantGas o;
  ow_mem : memorySize o = mem_of (execute o);
  ow_dyn :
    match dynamicGas o with
    | None => mem_of (execute o) = None /\ is_call (execute o) = false /\
              (halts (execute o) = true \/ 1 <= constantGas o)
    | Some g =>
      gas_needs g <= op_minStack o /\ gas_args (IsEIP150 (chainRules env)) g = true /\
      (uses_mem g = true \/ mem_of (execute o) = None) /\
      (is_call (execute o) = true -> prices_call (execute o) g = true) /\
      (halts (execute o) = true \/ 1 <= constantGas o \/
       (positive g = true /\ is_call (execute o) = false))
    end;
}.

Lemma env_has_needs i : env_has (flags env) i = true -> env_needs env i.
Proof.
  destruct i; cbn [env_has flags env_needs hasRandom hasChainID hasBaseFee hasGasLimit]; try done;
    rewrite ?bool_decide_eq_true; try done. unfold is_u64. lia.
Qed.

Lemma op_ok_entry o : op_ok (flags env) o = true -> entry_wf o.
Proof.
  unfold op_ok. intros H. repeat (apply andb_prop in H as [H ?]).
  split; try lia; try done; try (by apply env_has_needs); try (eapply bool_decide_eq_true; eassumption).
  destruct (dynamicGas o) as [g|].
  - repeat match goal with H : _ && _ = true |- _ => apply andb_prop in H as [? ?] end.
    split; [lia|]. split; [done|]. split.
    { match goal with H : uses_mem g || _ = true |- _ => apply orb_prop in H as [->|E] end;
        [by left | right; by apply bool_decide_eq_true in E]. }
    split.
    { intros E. match goal with H : (if is_call _ then _ else _) = true |- _ => by rewrite E in H end. }
    match goal with H : halts _ || _ || _ = true |- _ => apply orb_prop in H as [E|E] end.
    + apply orb_prop in E as [->|E]; [by left|]. right. left. lia.
    + apply andb_prop in E as [-> E]. right. right. split; [done|]. by destruct (is_call _).
  - repeat match goal with H : _ && _ = true |- _ => apply andb_prop in H as [? ?] end.
    split; [eapply bool_decide_eq_true; eassumption|]. split; [by destruct (is_call _)|].
    match goal with H : halts _ || _ = true |- _ => apply orb_prop in H as [->|E] end; [by left|].
    right. lia.
Qed.

(** The frame an instruction starts in, after it was paid for. *)
Record paid (o : operation) (f f' : Frame DB) : Prop := {
  pd_inv : frame_inv f';
  pd_pc : pc f' = pc f;
  pd_stk : stk f' = stk f;
  pd_rel : frame_rel f f';
  pd_mem : match mem_of (execute o) with Some m => covers m f' | None => True end;
  pd_gas : Gas (ctr f') + bonus (execute o) f' <= Gas (ctr f);
  pd_less : halts (execute o) = true \/ Gas (ctr f') + bonus (execute o) f' < Gas (ctr f);
}.

Definition charge_post (o : operation) (f : Frame DB) (r : Frame DB + Err * Frame DB) : Prop :=
  match r with inl f' => paid o f f' | inr (_, f') => refused f f' end.

Lemma bonus_priced i g (f : Frame DB) : (is_call i = true -> prices_call i g = true) ->
  bonus i f <= gas_floor g f \/ (is_call i = false /\ bonus i f = 0).
Proof.
  intros H. assert (stipend (stk f) <= value_price (stk f)).
  { unfold stipend, value_price, CallStipend, CallValueTransferGas. repeat case_match; lia. }
  destruct i; cbn in H |- *; try (by right);
    (specialize (H eq_refl); destruct g; first [discriminate H | left; cbn; lia]).
Qed.

Lemma floor_positive g (f : Frame DB) : positive g = true -> 1 <= gas_floor g f.
Proof. by destruct g. Qed.

Lemma charge_static o c f : entry_wf o -> frame_inv f -> dynamicGas o = None ->
  UseGas (ctr f) (constantGas o) = Some c -> paid o f (set_ctr c f).
Proof.
  intros Ho Hf Hd Hc. pose proof (ow_dyn _ Ho) as D. rewrite Hd in D. destruct D as (Dm & Dc & Dp).
  pose proof (UseGas_spec (ctr f) (constantGas o) (ok_ctr _ Hf) (ow_const _ Ho)) as S.
  rewrite Hc in S. destruct S as (-> & Hle & Hok). pose proof (ow_const _ Ho).
  assert (B : forall f' : Frame DB, bonus (execute o) f' = 0) by (by destruct (execute o)).
  destruct f as [p s m c0 e]. cbn in *. destruct Hf. split; cbn; rewrite ?Dm, ?B; try done.
  - split; cbn; auto using vm_rel_refl.
  - lia.
  - destruct Dp; [by left | right; lia].
Qed.

(** The frame after the dynamic price was paid and the memory grown. *)
Lemma priced_paid o g f c ms cost f2 : entry_wf o -> dynamicGas o = Some g ->
  c = with_gas (ctr f) (Gas (ctr f) - constantGas o) -> frame_inv (set_ctr c f) ->
  match mem_of (execute o) with
  | None => ms = 0
  | Some m => exists sz, run_memorySize m (stk f) = Ok (sz, false) /\ sz <= ms
  end ->
  priced (gas_floor g) (set_ctr c f) ms cost f2 -> cost <= Gas c ->
  ctr_ok (with_gas c (Gas c - cost)) ->
  paid o f (mkFrame (pc f2) (stk f2) (Memory.Resize ms (mem f2)) (with_gas c (Gas c - cost)) (vm f2)).
Proof.
  intros Ho Hd -> Hf Hms [Ppc Pstk Pctr Pvm Prel [Pmem Plen] [Pc0 _] Pfl] Hle Hok.
  pose proof (ow_dyn _ Ho) as D. rewrite Hd in D. destruct D as (_ & _ & _ & Dc & Dp).
  pose proof (ow_const _ Ho) as H0. pose proof (bonus_priced (execute o) g f2 Dc) as B.
  assert (E : forall m k, bonus (execute o) (mkFrame (pc f2) (stk f2) m k (vm f2)) = bonus (execute o) f2)
    by (intros; by destruct (execute o)).
  cbn [Gas with_gas] in *.
  split; cbn [pc stk mem ctr vm with_gas Gas]; rewrite ?E; try done.
  - split; cbn; try done; [rewrite Ppc | rewrite Pstk]; apply Hf.
  - destruct (mem_of (execute o)) as [m|]; [|done]. destruct Hms as (sz & Hsz & Hle3).
    exists sz. cbn [stk mem]. rewrite Pstk. split; [done|]. lia.
  - destruct B as [B|[_ B]]; lia.
  - destruct Dp as [Dp|[Dp|[Dp Di]]]; [by left | right; destruct B as [B|[_ B]]; lia |].
    right. pose proof (floor_positive g f2 Dp).
    assert (bonus (execute o) f2 = 0) by by destruct (execute o). lia.
Qed.

Lemma grow_memory ms (f : Frame DB) c :
  (if ms >? 0 then set_mem (Memory.Resize ms (mem (set_ctr c f))) (set_ctr c f) else set_ctr c f) =
  mkFrame (pc f) (stk f) (Memory.Resize ms (mem f)) c (vm f).
Proof.
  destruct (ms >? 0) eqn:E; [by destruct f|]. to_prop.
  unfold Memory.Resize. pose proof (zlen_nonneg (store (mem f))).
  zcase; [unfold Memory.Len in *; lia|]. by destruct f.
Qed.

Lemma charge_dynamic o g c f : entry_wf o -> frame_inv f -> op_minStack o <= zlen (stk f) ->
  dynamicGas o = Some g -> UseGas (ctr f) (constantGas o) = Some c ->
  wp (charge env o f) (charge_post o f).
Proof.
  intros Ho Hf Hs Hd Hc. pose proof (ow_dyn _ Ho) as D. rewrite Hd in D.
  destruct D as (Dn & Da & Du & _ & _).
  pose proof (UseGas_spec (ctr f) (constantGas o) (ok_ctr _ Hf) (ow_const _ Ho)) as S1.
  unfold charge. rewrite Hc, Hd. rewrite Hc in S1. destruct S1 as (Ec & Hle & Hok).
  pose proof (ow_const _ Ho) as H0. pose proof (ow_min _ Ho) as Hmin.
  set (f1 := set_ctr c f). assert (Hf1 : frame_inv f1) by (destruct f, Hf; by split).
  assert (Hg : Gas c <= Gas (ctr f)) by (rewrite Ec; cbn; lia).
  assert (Hr1 : refused f f1).
  { split; [apply Hf | apply vm_rel_refl | split; [apply Hok | done]]. }
  destruct (requestedMemory_Ok o (stk f1) (ow_mem _ Ho) (ok_stk _ Hf1)) as (r & -> & Hms);
    [cbn; lia | apply Ho |]. cbn [mbind res_bind]. destruct r as [ms|]; [|exact Hr1].
  destruct Hms as [Hw Hms].
  eapply wp_use.
  { apply (run_dynamicGas_ok env g f1 ms). split; [done | cbn; lia | done | done |].
    destruct Du as [Du|Du]; [by left | right; by rewrite Du in Hms]. }
  intros [[cost|er] f2]; unfold gas_post; cbn [fst snd]; intros P; cbn [wp charge_post].
  2: { destruct P as [? Hrel [? ?]]. split; [done | exact Hrel |]. split; [done|]. etrans; [eassumption|done]. }
  pose proof (UseGas_spec (ctr f2) cost) as S2. rewrite (pr_ctr _ _ _ _ _ P) in S2 |- *.
  specialize (S2 Hok ltac:(apply (pr_cost _ _ _ _ _ P))). destruct (UseGas (ctr f1) cost) as [c2|].
  - destruct S2 as (-> & Hle2 & Hok2). cbn [charge_post wp]. rewrite grow_memory.
    by apply (priced_paid o g).
  - cbn [charge_post wp]. destruct P as [? ? Pctr ? Prel ? ? ?].
    split; [done | exact Prel | rewrite Pctr; exact (re_gas _ _ Hr1)].
Qed.

Lemma charge_ok o f : entry_wf o -> frame_inv f -> op_minStack o <= zlen (stk f) ->
  wp (charge env o f) (charge_post o f).
Proof.
  intros Ho Hf Hs. destruct (UseGas (ctr f) (constantGas o)) as [c|] eqn:Hc.
  2: { unfold charge. rewrite Hc. destruct f, Hf. split; cbn in *; try done.
       - apply vm_rel_refl.
       - split; [by apply ok_gas | done]. }
  destruct (dynamicGas o) as [g|] eqn:Hd; [by eapply charge_dynamic|].
  unfold charge. rewrite Hc, Hd. by apply charge_static.
Qed.

(** The entry of the instruction at the program counter; past the code it is
    STOP. *)
Lemma fetch jt f : table_ok (flags env) jt = true -> frame_inv f ->
  exists o, nth_or_panic jt (GetOp (ctr f) (pc f)) = Ok o /\ entry_wf o /\
    (execute o = I_opStop \/ pc f < zlen (Code (ctr f))).
Proof.
  intros Ht Hf. unfold table_ok in Ht. apply andb_prop in Ht as [Ht Hh].
  apply andb_prop in Ht as [Hl Ha]. apply bool_decide_eq_true in Hl.
  destruct (ok_code _ (ok_ctr _ Hf)) as [Hw _]. pose proof (ok_pc _ Hf) as Hp. unfold is_u64 in Hp.
  assert (Hop : 0 <= GetOp (ctr f) (pc f) < 256 /\
                (pc f < zlen (Code (ctr f)) \/ GetOp (ctr f) (pc f) = 0)).
  { unfold GetOp. zcase; [|split; [lia | by right]]. split; [|by left].
    destruct (nth_or_panic_Ok (Code (ctr f)) (pc f)) as (b & _ & Hb); [lia|]. rewrite Hb. cbn.
    exact (proj1 (Forall_lookup _ _) Hw _ _ Hb). }
  destruct Hop as [Hb Hend].
  destruct (nth_or_panic_Ok jt (GetOp (ctr f) (pc f))) as (o & Ho & Hi); [unfold zlen; lia|].
  exists o. split; [done|]. split.
  - apply op_ok_entry. rewrite forallb_forall in Ha. apply Ha. apply list_elem_of_In.
    by eapply list_elem_of_lookup_2.
  - destruct Hend as [?|E]; [by right|]. left. rewrite E in Hi. destruct jt as [|o0 jt]; [done|].
    change (Some o0 = Some o) in Hi. simplify_eq. by destruct (execute o).
Qed.

(** Instructions that end their frame make no calls. *)
Lemma halts_no_run i run run' : halts i = true ->
  run_execute (DB := DB) env run i = run_execute env run' i.
Proof. by destruct i. Qed.

Definition round_post (f : Frame DB) (o : outcome (DB := DB)) : Prop :=
  match o with
  | Done ret err f' =>
    small ret /\ vm_ok (vm f') /\ vm_rel (readOnly (vm f)) (vm f) (vm f') /\
    is_u64 (Gas (ctr f')) /\ Gas (ctr f') <= Gas (ctr f)
  | Next f' =>
    frame_inv f' /\ zlen (stk f') <= StackLimit /\ frame_rel f f' /\ Gas (ctr f') < Gas (ctr f)
  end.

Lemma execute_paid run o f f' : entry_wf o ->
  run_spec (Gas (ctr f)) run -> Gas (ctr f) < 2 ^ 64 -> paid o f f' ->
  op_minStack o <= zlen (stk f) ->
  (execute o = I_opStop \/ pc f < zlen (Code (ctr f))) ->
  wp (run_execute env run (execute o) f') (exec_post (execute o) f').
Proof.
  intros Ho Hrun HG [Pi Pp Ps Pr Pm Pg Pl] Hmin Hpc.
  assert (Hpre : forall G, Gas (ctr f') + bonus (execute o) f' < G -> exec_pre env G (execute o) f').
  { intros G Hb. pose proof (ow_min _ Ho). split; try done.
    - rewrite Ps. lia.
    - apply Ho.
    - rewrite Pp. by rewrite (rel_code _ _ Pr).
    - apply Ho. }
  destruct (halts (execute o)) eqn:Eh.
  - rewrite (halts_no_run _ run (fun c _ _ e => Ok ([], None, c, e))) by done.
    apply (run_execute_ok env (2 ^ 64)); [lia | | apply Hpre; lia].
    intros c input ro e _ Hc _ He. cbn. split; [apply small_nil|]. split; [apply Hc|].
    split; [lia|]. split; [done | apply vm_rel_refl].
  - destruct Pl as [|Pl]; [done|].
    apply (run_execute_ok env (Gas (ctr f))); [lia | done | by apply Hpre].
Qed.

Lemma after_execute_ok o f f' r : entry_wf o -> paid o f f' -> zlen (stk f) <= op_maxStack o ->
  exec_post (execute o) f' r -> round_post f (after_execute r).
Proof.
  intros Ho [Pi Pp Ps Pr Pm Pg Pl] Hmax [Qi Qr Qret Qg Qs Qh].
  destruct r as [f2 [ret err]]. cbn [fst snd] in *.
  pose proof (frame_rel_trans _ _ _ Pr Qr) as R. destruct err as [er|]; cbn [after_execute round_post].
  - split; [done|]. split; [apply Qi|]. split; [apply R|]. split; [apply (ok_ctr _ Qi) | lia].
  - assert (halts (execute o) = false) as Eh.
    { destruct (halts (execute o)); [|done]. by destruct (Qh eq_refl). }
    pose proof (ow_max _ Ho). specialize (Qs eq_refl). rewrite Ps in Qs.
    destruct f2 as [p s m c e]. cbn in *. split; [destruct Qi; split; cbn in *; auto with entropy|].
    split; [lia|]. split; [by destruct R; split|]. destruct Pl; [congruence|]. lia.
Qed.

(** One round keeps the invariant of the frame and the stack within its limit,
    and goes on only with less gas. *)
Lemma loop_round_ok run jt f : table_ok (flags env) jt = true ->
  run_spec (Gas (ctr f)) run -> frame_inv f -> zlen (stk f) <= StackLimit ->
  wp (loop_round env run jt f) (round_post f).
Proof.
  intros Ht Hrun Hf Hs. pose proof (ok_gas _ (ok_ctr _ Hf)) as Hg.
  assert (Hout : forall er, round_post f (Done [] er f)).
  { intros. split; [apply small_nil|]. split; [apply Hf|]. split; [apply vm_rel_refl|]. split; [done|lia]. }
  destruct (fetch jt f Ht Hf) as (o & E & Ho & Hpc). unfold loop_round. rewrite E.
  cbn [mbind res_bind]. unfold Stack.len. zcase; [apply Hout|]. zcase; [apply Hout|].
  eapply wp_use; [by apply charge_ok|]. intros [f'|[er f']]; cbn [charge_post].
  - intros P. eapply wp_use; [eapply execute_paid; eauto; apply Hg|]. intros r Hr. cbn [wp].
    by eapply after_execute_ok.
  - intros [Rv Rr [Rg Rl]]. cbn. split; [apply small_nil|]. auto.
Qed.
End round.

(** ** The loop and [Run] *)

Section run.
Context `{U : Uint256} `{US : !Uint256Spec U} `{C : Crypto} `{CS : !CryptoSpec C}.
Context {DB : Type} `{SDB : StateDB DB} `{SS : !StateDBSpec DB}.
Context (env : Env) (jt : JumpTable) (Hjt : table_ok (flags env) jt = true).

Definition loop_spec (G : Z) (loop : Frame DB -> res (bytes * option Err * Frame DB)) : Prop :=
  forall f, Gas (ctr f) < G -> frame_inv f -> zlen (stk f) <= StackLimit ->
    wp (loop f) (fun '(ret, err, f') => round_post f (Done ret err f')).

(** [Run] leaves the depth and the read-only flag as it found them. *)
Lemma Run_body_ok G loop : loop_spec G loop -> run_spec G (Run_body loop).
Proof.
  intros Hloop c input ro e Hg Hc Hi He. unfold Run_body.
  set (e1 := set_returnData [] _).
  assert (V1 : vm_ok e1) by (unfold e1; destruct He; case_match; split; auto with entropy).
  assert (R1 : db e1 = db e /\ abort e1 = abort e /\ depth e1 = depth e + 1 /\
               readOnly e1 = ro || readOnly e)
    by (unfold e1; destruct e as [? ? ? ? [] ? ?], ro; done).
  destruct R1 as (Rd & Ra & Rp & Rr).
  assert (Hleave : forall e2, vm_ok e2 -> vm_rel (ro || readOnly e) e1 e2 ->
    let e3 := if ro && negb (readOnly (set_depth (depth e + 1) e)) then set_readOnly false e2 else e2 in
    vm_ok (set_depth (depth e3 - 1) e3) /\
    vm_rel (ro || readOnly e) e (set_depth (depth e3 - 1) e3)).
  { intros e2 V2 [D2 O2 A2 C2]. rewrite Rd in C2. cbn [readOnly set_depth] in *.
    destruct e as [? ? ? ? r ? ?], e2. cbn in *.
    destruct ro, r; cbn in *; (split; [destruct V2; by split|]); split; cbn; try done; lia. }
  zcase; [cbn [wp run_post]; destruct (Hleave e1 V1 (vm_rel_refl _ _));
          split; [apply small_nil|]; split; [apply Hc|]; split; [lia|]; by split|].
  eapply wp_use.
  { apply (Hloop (mkFrame 0 Stack.newstack Memory.NewMemory (with_input c input) e1)); [done| |by compute].
    split; cbn; try done; [constructor | apply mem_ok_new | by destruct Hc; split]. }
  intros [[ret err] f'] (P1 & P2 & P3 & P4 & P5). cbn [vm readOnly ctr] in P3, P5. rewrite Rr in P3.
  cbn [wp run_post]. destruct (Hleave _ P2 P3) as [V3 R3]. by auto.
Qed.

(** Fuel above the gas of the frame is enough. *)
Lemma run_loop_ok fuel : loop_spec (Z.of_nat fuel) (run_loop env jt fuel).
Proof.
  induction fuel as [|fuel IH]; intros f Hg Hf Hs.
  { pose proof (ok_gas _ (ok_ctr _ Hf)) as G0. unfold is_u64 in G0. lia. }
  cbn [run_loop]. eapply wp_use.
  { apply loop_round_ok; [done | | done | done]. intros c input ro e Hc.
    apply (Run_body_ok _ _ IH). lia. }
  intros [ret err f'|f'] Hr; [exact Hr|]. destruct Hr as (Hi & Hl & Hrel & Hless).
  eapply wp_mono; [apply IH; [lia | done | done]|].
  intros [[ret err] f2] (Q1 & Q2 & Q3 & Q4 & Q5). destruct Hrel as [_ _ Hrel].
  rewrite (rel_readOnly _ _ _ Hrel) in Q3.
  split; [done|]. split; [done|]. split; [by eapply vm_rel_trans|]. split; [done|lia].
Qed.

Lemma Run_ok G : run_spec G (Run (DB := DB) env jt).
Proof.
  intros c input ro e _ Hc. pose proof (ok_gas _ Hc) as H0. unfold is_u64 in H0.
  apply (Run_body_ok _ _ (run_loop_ok _)); [lia | done].
Qed.
End run.

(** ** The fuel of the interpreter does not matter

    [run_loop] recurses on fuel because the source's recursion (a loop whose
    call instructions run the loop again) is not structural.  More fuel never
    changes a result, and with more fuel than gas the loop satisfies the
    recursive equation the source is written as. *)

(** ** Approximation *)

(** [m] is not finished yet, or [m'] is its result. *)
Definition res_le {A} (m m' : res A) : Prop := m = NoFuel \/ m' = m.

Lemma res_le_refl {A} (m : res A) : res_le m m.
Proof. by right. Qed.

Lemma res_le_bind {A B} (m m' : res A) (k k' : A -> res B) :
  res_le m m' -> (forall a, res_le (k a) (k' a)) -> res_le (m ≫= k) (m' ≫= k').
Proof. intros [->| ->] H; [by left|]. destruct m; simpl; [apply H | by right | by left]. Qed.

Lemma res_le_if {A} (b : bool) (m m' n n' : res A) :
  res_le m m' -> res_le n n' -> res_le (if b then m else n) (if b then m' else n').
Proof. by destruct b. Qed.

(** Works through binds, conditionals and matches on common data, down to the
    calls [base] proves. *)
Ltac mono base :=
  repeat first
  [ solve [base]
  | match goal with
    | |- res_le ?m ?m => apply res_le_refl
    | |- res_le (_ ≫= _) (_ ≫= _) => apply res_le_bind; [|intros; mono_split]
    | |- res_le (if _ then _ else _) _ => apply res_le_if
    | |- res_le (let '(_, _) := ?x in _) _ => destruct x
    | |- res_le (match ?x with _ => _ end) _ => destruct x
    end ]
with mono_split :=
  repeat match goal with x : (_ * _)%type |- _ => destruct x end; cbv beta iota.

Section monotone.
Context `{U : Uint256} `{C : Crypto} {DB : Type} `{SDB : StateDB DB}.
Context (env : Env).

Abbreviation runner := (Contract -> bytes -> bool -> EVM DB -> res (bytes * option Err * Contract * EVM DB)).

Definition run_le (run run' : runner) : Prop :=
  forall c input ro e, res_le (run c input ro e) (run' c input ro e).

Section calls.
Context (run run' : runner) (Hr : run_le run run').

Lemma Call_le cr addr input gas v e :
  res_le (Call run cr addr input gas v e) (Call run' cr addr input gas v e).
Proof. unfold Call. mono ltac:(apply Hr). Qed.
Lemma CallCode_le cr addr input gas v e :
  res_le (CallCode run cr addr input gas v e) (CallCode run' cr addr input gas v e).
Proof. unfold CallCode. mono ltac:(apply Hr). Qed.

Lemma DelegateCall_le cr addr input gas e :
  res_le (DelegateCall run cr addr input gas e) (DelegateCall run' cr addr input gas e).
Proof. unfold DelegateCall. mono ltac:(apply Hr). Qed.

Lemma StaticCall_le cr addr input gas e :
  res_le (StaticCall run cr addr input gas e) (StaticCall run' cr addr input gas e).
Proof. unfold StaticCall. mono ltac:(apply Hr). Qed.

Lemma create_le cr code h gas v a e :
  res_le (create env run cr code h gas v a e) (create env run' cr code h gas v a e).
Proof. unfold create. mono ltac:(apply Hr). Qed.

Lemma Create_le cr code gas v e :
  res_le (Create env run cr code gas v e) (Create env run' cr code gas v e).
Proof. unfold Create. mono ltac:(apply create_le). Qed.

Lemma Create2_le cr code gas v salt e :
  res_le (Create2 env run cr code gas v salt e) (Create2 env run' cr code gas v salt e).
Proof. apply create_le. Qed.

Lemma execute_le i f : res_le (run_execute env run i f) (run_execute env run' i f).
Proof.
  destruct i; try apply res_le_refl; cbn [run_execute];
    unfold opCreate, opCreate2, opCall, opCallCode, opDelegateCall, opStaticCall, popF;
    mono ltac:(idtac; lazymatch goal with
               | |- res_le (Call _ _ _ _ _ _ _) _ => apply Call_le
               | |- res_le (CallCode _ _ _ _ _ _ _) _ => apply CallCode_le
               | |- res_le (DelegateCall _ _ _ _ _ _) _ => apply DelegateCall_le
               | |- res_le (StaticCall _ _ _ _ _ _) _ => apply StaticCall_le
               | |- res_le (Create _ _ _ _ _ _ _) _ => apply Create_le
               | |- res_le (Create2 _ _ _ _ _ _ _ _) _ => apply Create2_le
               end).
Qed.

Lemma loop_round_le jt f : res_le (loop_round env run jt f) (loop_round env run' jt f).
Proof. unfold loop_round. mono ltac:(apply execute_le). Qed.
End calls.

Lemma Run_body_le loop loop' : (forall f, res_le (loop f) (loop' f)) ->
  run_le (Run_body loop) (Run_body loop').
Proof. intros H c input ro e. unfold Run_body. mono ltac:(apply H). Qed.

Lemma run_loop_S jt n f : res_le (run_loop env jt n f) (run_loop env jt (S n) f).
Proof.
  revert f. induction n as [|n IH]; intros f; [by left|].
  cbn [run_loop]. apply res_le_bind; [by apply loop_round_le, Run_body_le|].
  intros [ret err f'|f']; [apply res_le_refl | apply IH].
Qed.

Lemma run_loop_mono jt n m f : (n <= m)%nat -> res_le (run_loop env jt n f) (run_loop env jt m f).
Proof.
  induction 1 as [|m _ IH]; [apply res_le_refl|].
  destruct IH as [E|E]; [by left|]. destruct (run_loop_S jt m f) as [E'|E']; [left | right]; congruence.
Qed.
End monotone.

Section irrelevance.
Context `{U : Uint256} `{US : !Uint256Spec U} `{C : Crypto} `{CS : !CryptoSpec C}.
Context {DB : Type} `{SDB : StateDB DB} `{SS : !StateDBSpec DB}.

(** with a well-formed table, the loop run on a frame that satisfies
    the invariant returns the same result for every fuel above the gas of the
    frame, and that result is not the model's out-of-fuel value: the fuel [Run]
    chooses is always enough, and no larger choice would change what it
    computes. *)
Theorem run_loop_fuel_irrelevant (env : Env) (jt : JumpTable) (n : nat) (f : Frame DB) :
  table_ok (flags env) jt = true -> frame_inv f -> zlen (stk f) <= StackLimit ->
  Gas (ctr f) < Z.of_nat n ->
  run_loop env jt n f = run_loop env jt (S (Z.to_nat (Gas (ctr f)))) f /\
  run_loop env jt n f <> NoFuel.
Proof.
  intros Ht Hf Hs Hn. set (m := S (Z.to_nat (Gas (ctr f)))).
  pose proof (ok_gas _ (ok_ctr _ Hf)) as Hg. unfold is_u64 in Hg.
  assert (Hm : run_loop env jt m f <> NoFuel).
  { pose proof (run_loop_ok env jt Ht m f ltac:(unfold m; lia) Hf Hs) as W. intros E. by rewrite E in W. }
  destruct (run_loop_mono env jt m n f ltac:(unfold m; lia)) as [E|E]; [done|]. rewrite E. done.
Qed.
End irrelevance.
