(* ===== verification/StateDB.v ===== *)
(** * The state database ([blockchain/state])

    [statedb.go], [state_object.go], [journal.go], [access_list.go]: the live
    accounts over a read-only backend, the journal of their modifications and the
    snapshots.  Go's [stateObjects] maps addresses to pointers; no pointer to an
    object outlives the operation that obtained it, except in the journal entry
    [resetObjectChange], which holds the object it took out of the map, so a map
    to values is the same store.

    Reading an account, a slot or a code fills caches.  The functions here return
    the state with the cache filled, as the source leaves it.

    The tries, the snapshot tree and the code database are behind the interfaces
    [Trie], [StateDatabase] and [snapshot.Snapshot]: the class [Backend] has the
    methods this code calls.  The source names an account there, and in
    [snapDestructs], by the hash of its address; here it is the address.  The
    error memo [dbErr], the prefetcher, the debugging-only [fakeStorage], the
    measurements and the data collected for the snapshot tree ([snapAccounts],
    [snapStorage]) are left out: none is read by the operations below. *)

From S2P Require Import Prelude Uint256 Config Common EvmAnalysis EvmStack EvmMemory Rlp EvmState.

Local Open Scope Z_scope.

Module State.

(** ** [model.StateAccount]; [None] is a nil pointer or slice *)
Record StateAccount := mkAccount {
  aNonce : Z; aBalance : option Z; aRoot : Hash; aCodeHash : option Hash }.

Definition emptyAccount : StateAccount := mkAccount 0 None 0 None.

(** ** The interfaces of the backend

    A read that fails is [None]; a missing account is [Some None], a missing
    storage entry [Some []]. *)
Record SnapReader := {
  snap_Account : Address -> option (option StateAccount);
  snap_Storage : Address -> Hash -> option bytes;
}.

Class Backend := {
  emptyRoot : Hash;
  snap : option SnapReader;
  trie_Account : Address -> option (option StateAccount);
  trie_Storage : Address -> Hash -> Hash -> option bytes;
  ContractCode : Address -> Hash -> option bytes;
}.

(** ** [state_object.go] *)

Abbreviation Storage := (gmap Z Z).

Record stateObject := mkObject {
  address : Address;
  nonce : Z; balance : Z; root : Hash; codeHash : Hash;
  code : option bytes;
  originStorage : Storage; pendingStorage : Storage; dirtyStorage : Storage;
  dirtyCode : bool; suicided : bool; deleted : bool;
}.

Definition with_nonce (v : Z) (o : stateObject) := mkObject (address o) v (balance o) (root o) (codeHash o) (code o) (originStorage o) (pendingStorage o) (dirtyStorage o) (dirtyCode o) (suicided o) (deleted o).
Definition with_balance (v : Z) (o : stateObject) := mkObject (address o) (nonce o) v (root o) (codeHash o) (code o) (originStorage o) (pendingStorage o) (dirtyStorage o) (dirtyCode o) (suicided o) (deleted o).
Definition with_codeHash (v : Hash) (o : stateObject) := mkObject (address o) (nonce o) (balance o) (root o) v (code o) (originStorage o) (pendingStorage o) (dirtyStorage o) (dirtyCode o) (suicided o) (deleted o).
Definition with_code (v : option bytes) (o : stateObject) := mkObject (address o) (nonce o) (balance o) (root o) (codeHash o) v (originStorage o) (pendingStorage o) (dirtyStorage o) (dirtyCode o) (suicided o) (deleted o).
Definition with_origin (v : Storage) (o : stateObject) := mkObject (address o) (nonce o) (balance o) (root o) (codeHash o) (code o) v (pendingStorage o) (dirtyStorage o) (dirtyCode o) (suicided o) (deleted o).
Definition with_pending (v : Storage) (o : stateObject) := mkObject (address o) (nonce o) (balance o) (root o) (codeHash o) (code o) (originStorage o) v (dirtyStorage o) (dirtyCode o) (suicided o) (deleted o).
Definition with_dirty (v : Storage) (o : stateObject) := mkObject (address o) (nonce o) (balance o) (root o) (codeHash o) (code o) (originStorage o) (pendingStorage o) v (dirtyCode o) (suicided o) (deleted o).
Definition with_dirtyCode (v : bool) (o : stateObject) := mkObject (address o) (nonce o) (balance o) (root o) (codeHash o) (code o) (originStorage o) (pendingStorage o) (dirtyStorage o) v (suicided o) (deleted o).
Definition with_suicided (v : bool) (o : stateObject) := mkObject (address o) (nonce o) (balance o) (root o) (codeHash o) (code o) (originStorage o) (pendingStorage o) (dirtyStorage o) (dirtyCode o) v (deleted o).
Definition with_deleted (v : bool) (o : stateObject) := mkObject (address o) (nonce o) (balance o) (root o) (codeHash o) (code o) (originStorage o) (pendingStorage o) (dirtyStorage o) (dirtyCode o) (suicided o) v.

(** ** [access_list.go]; an index of [-1] means no slots *)
Record accessListT := mkAccessList { addresses : gmap Z Z; slots : list (gset Z) }.

Definition newAccessList : accessListT := mkAccessList ∅ [].

Definition ContainsAddress (al : accessListT) (a : Address) : bool :=
  bool_decide (is_Some (addresses al !! a)).

(** The index of an address is in range, or the access panics. *)
Definition Contains (al : accessListT) (a : Address) (slot : Hash) : res (bool * bool) :=
  match addresses al !! a with
  | None => Ok (false, false)
  | Some idx =>
    if idx =? -1 then Ok (true, false)
    else s ← nth_or_panic (slots al) idx; Ok (true, bool_decide (slot ∈ s))
  end.

Definition AddAddress (al : accessListT) (a : Address) : bool * accessListT :=
  match addresses al !! a with
  | Some _ => (false, al)
  | None => (true, mkAccessList (<[a := -1]> (addresses al)) (slots al))
  end.

Definition AddSlot (al : accessListT) (a : Address) (slot : Hash) : res (bool * bool * accessListT) :=
  let fresh (addrPresent : bool) :=
    Ok (negb addrPresent, true,
        mkAccessList (<[a := zlen (slots al)]> (addresses al)) (slots al ++ [{[slot]}])) in
  match addresses al !! a with
  | None => fresh false
  | Some idx =>
    if idx =? -1 then fresh true
    else
      slotmap ← nth_or_panic (slots al) idx;
      if bool_decide (slot ∈ slotmap) then Ok (false, false, al)
      else Ok (false, true,
               mkAccessList (addresses al) (<[Z.to_nat idx := {[slot]} ∪ slotmap]> (slots al)))
  end.

Definition DeleteSlot (al : accessListT) (a : Address) (slot : Hash) : res accessListT :=
  match addresses al !! a with
  | None => Panic PanicAccessList
  | Some idx =>
    slotmap ← nth_or_panic (slots al) idx;
    let slotmap := slotmap ∖ {[slot]} in
    if bool_decide (slotmap = ∅) then
      s ← slice (slots al) 0 idx;
      Ok (mkAccessList (<[a := -1]> (addresses al)) s)
    else Ok (mkAccessList (addresses al) (<[Z.to_nat idx := slotmap]> (slots al)))
  end.

Definition DeleteAddress (al : accessListT) (a : Address) : accessListT :=
  mkAccessList (delete a (addresses al)) (slots al).

(** ** [journal.go] *)

Inductive journalEntry :=
| createObjectChange (account : Address)
| resetObjectChange (prev : stateObject) (prevdestruct : bool)
| suicideChange (account : Address) (prev : bool) (prevbalance : Z)
| balanceChange (account : Address) (prev : Z)
| nonceChange (account : Address) (prev : Z)
| storageChange (account : Address) (key prevalue : Hash)
| codeChange (account : Address) (prevcode : option bytes) (prevhash : Hash)
| refundChange (prev : Z)
| addLogChange (txhash : Hash)
| addPreimageChange (hash : Hash)
| touchChange (account : Address)
| accessListAddAccountChange (addr : Address)
| accessListAddSlotChange (addr : Address) (slot : Hash).

Definition dirtied (e : journalEntry) : option Address :=
  match e with
  | createObjectChange a | suicideChange a _ _ | touchChange a | balanceChange a _
  | nonceChange a _ | codeChange a _ _ | storageChange a _ _ => Some a
  | _ => None
  end.

Record journalT := mkJournal { entries : list journalEntry; dirties : gmap Z Z }.

Definition newJournal : journalT := mkJournal [] ∅.

Definition dirty (a : Address) (j : journalT) : journalT :=
  mkJournal (entries j) (<[a := default 0 (dirties j !! a) + 1]> (dirties j)).

Definition append (e : journalEntry) (j : journalT) : journalT :=
  let j := mkJournal (entries j ++ [e]) (dirties j) in
  match dirtied e with Some a => dirty a j | None => j end.

(** The decrement of the dirty counter, dropped at zero. *)
Definition undirty (a : Address) (j : journalT) : journalT :=
  let n := default 0 (dirties j !! a) - 1 in
  mkJournal (entries j) (if n =? 0 then delete a (dirties j) else <[a := n]> (dirties j)).

(** ** [statedb.go] *)

Record revision := mkRevision { id : Z; journalIndex : Z }.

(** [model.Log] with the fields [AddLog] sets. *)
Record stateLog := mkLog { log : Log; TxHash : Hash; TxIndex : Z; Index : Z }.

Record stateDB := mkStateDB {
  snapDestructs : gset Z;
  stateObjects : gmap Z stateObject;
  stateObjectsPending : gset Z;
  stateObjectsDirty : gset Z;
  refund : Z;
  thash : Hash;
  txIndex : Z;
  logs : gmap Z (list stateLog);
  logSize : Z;
  preimages : gmap Z bytes;
  accessList : accessListT;
  journal : journalT;
  validRevisions : list revision;
  nextRevisionId : Z;
}.

Definition set_snapDestructs (v : gset Z) (d : stateDB) := mkStateDB v (stateObjects d) (stateObjectsPending d) (stateObjectsDirty d) (refund d) (thash d) (txIndex d) (logs d) (logSize d) (preimages d) (accessList d) (journal d) (validRevisions d) (nextRevisionId d).
Definition set_stateObjects (v : gmap Z stateObject) (d : stateDB) := mkStateDB (snapDestructs d) v (stateObjectsPending d) (stateObjectsDirty d) (refund d) (thash d) (txIndex d) (logs d) (logSize d) (preimages d) (accessList d) (journal d) (validRevisions d) (nextRevisionId d).
Definition set_stateObjectsPending (v : gset Z) (d : stateDB) := mkStateDB (snapDestructs d) (stateObjects d) v (stateObjectsDirty d) (refund d) (thash d) (txIndex d) (logs d) (logSize d) (preimages d) (accessList d) (journal d) (validRevisions d) (nextRevisionId d).
Definition set_stateObjectsDirty (v : gset Z) (d : stateDB) := mkStateDB (snapDestructs d) (stateObjects d) (stateObjectsPending d) v (refund d) (thash d) (txIndex d) (logs d) (logSize d) (preimages d) (accessList d) (journal d) (validRevisions d) (nextRevisionId d).
Definition set_refund (v : Z) (d : stateDB) := mkStateDB (snapDestructs d) (stateObjects d) (stateObjectsPending d) (stateObjectsDirty d) v (thash d) (txIndex d) (logs d) (logSize d) (preimages d) (accessList d) (journal d) (validRevisions d) (nextRevisionId d).
Definition set_thash (v : Hash) (d : stateDB) := mkStateDB (snapDestructs d) (stateObjects d) (stateObjectsPending d) (stateObjectsDirty d) (refund d) v (txIndex d) (logs d) (logSize d) (preimages d) (accessList d) (journal d) (validRevisions d) (nextRevisionId d).
Definition set_txIndex (v : Z) (d : stateDB) := mkStateDB (snapDestructs d) (stateObjects d) (stateObjectsPending d) (stateObjectsDirty d) (refund d) (thash d) v (logs d) (logSize d) (preimages d) (accessList d) (journal d) (validRevisions d) (nextRevisionId d).
Definition set_logs (v : gmap Z (list stateLog)) (d : stateDB) := mkStateDB (snapDestructs d) (stateObjects d) (stateObjectsPending d) (stateObjectsDirty d) (refund d) (thash d) (txIndex d) v (logSize d) (preimages d) (accessList d) (journal d) (validRevisions d) (nextRevisionId d).
Definition set_logSize (v : Z) (d : stateDB) := mkStateDB (snapDestructs d) (stateObjects d) (stateObjectsPending d) (stateObjectsDirty d) (refund d) (thash d) (txIndex d) (logs d) v (preimages d) (accessList d) (journal d) (validRevisions d) (nextRevisionId d).
Definition set_preimages (v : gmap Z bytes) (d : stateDB) := mkStateDB (snapDestructs d) (stateObjects d) (stateObjectsPending d) (stateObjectsDirty d) (refund d) (thash d) (txIndex d) (logs d) (logSize d) v (accessList d) (journal d) (validRevisions d) (nextRevisionId d).
Definition set_accessList (v : accessListT) (d : stateDB) := mkStateDB (snapDestructs d) (stateObjects d) (stateObjectsPending d) (stateObjectsDirty d) (refund d) (thash d) (txIndex d) (logs d) (logSize d) (preimages d) v (journal d) (validRevisions d) (nextRevisionId d).
Definition set_journal (v : journalT) (d : stateDB) := mkStateDB (snapDestructs d) (stateObjects d) (stateObjectsPending d) (stateObjectsDirty d) (refund d) (thash d) (txIndex d) (logs d) (logSize d) (preimages d) (accessList d) v (validRevisions d) (nextRevisionId d).
Definition set_validRevisions (v : list revision) (d : stateDB) := mkStateDB (snapDestructs d) (stateObjects d) (stateObjectsPending d) (stateObjectsDirty d) (refund d) (thash d) (txIndex d) (logs d) (logSize d) (preimages d) (accessList d) (journal d) v (nextRevisionId d).
Definition set_nextRevisionId (v : Z) (d : stateDB) := mkStateDB (snapDestructs d) (stateObjects d) (stateObjectsPending d) (stateObjectsDirty d) (refund d) (thash d) (txIndex d) (logs d) (logSize d) (preimages d) (accessList d) (journal d) (validRevisions d) v.

(** [New] over an opened trie. *)
Definition New : stateDB :=
  mkStateDB ∅ ∅ ∅ ∅ 0 0 0 ∅ 0 ∅ newAccessList newJournal [] 0.

Section operations.
Context `{C : Crypto} `{B : Backend}.

(** *** Objects *)

Definition empty (o : stateObject) : bool :=
  (nonce o =? 0) && (balance o =? 0) && (codeHash o =? emptyCodeHash).

Definition newObject (a : Address) (data : StateAccount) : stateObject :=
  mkObject a (aNonce data) (default 0 (aBalance data))
    (if aRoot data =? 0 then emptyRoot else aRoot data)
    (default emptyCodeHash (aCodeHash data)) None ∅ ∅ ∅ false false false.

(** The value of a storage entry: [rlp.Split] and [Hash.SetBytes], which keeps
    the last 32 bytes; an undecodable entry is zero. *)
Definition decodeSlot (enc : bytes) : Hash :=
  if zlen enc >? 0 then
    match Split enc with
    | Ok (inl (_, content, _)) => be_value content mod 2 ^ 256
    | _ => 0
    end
  else 0.

(** [stateObject.GetCommittedState]; [destructed] is the membership of the
    object in [snapDestructs]. *)
Definition so_GetCommittedState (destructed : bool) (o : stateObject) (key : Hash)
    : Hash * stateObject :=
  match pendingStorage o !! key with
  | Some value => (value, o)
  | None =>
    match originStorage o !! key with
    | Some value => (value, o)
    | None =>
      let cache (enc : bytes) :=
        let value := decodeSlot enc in
        (value, with_origin (<[key := value]> (originStorage o)) o) in
      let load :=
        match trie_Storage (address o) (root o) key with
        | None => (0, o)
        | Some enc => cache enc
        end in
      match snap with
      | None => load
      | Some s =>
        if destructed then (0, o)
        else match snap_Storage s (address o) key with Some enc => cache enc | None => load end
      end
    end
  end.

Definition so_GetState (destructed : bool) (o : stateObject) (key : Hash) : Hash * stateObject :=
  match dirtyStorage o !! key with
  | Some value => (value, o)
  | None => so_GetCommittedState destructed o key
  end.

Definition setState (key value : Hash) (o : stateObject) : stateObject :=
  with_dirty (<[key := value]> (dirtyStorage o)) o.

(** [stateObject.Code]; [None] is a nil slice. *)
Definition so_Code (o : stateObject) : option bytes * stateObject :=
  match code o with
  | Some c => (Some c, o)
  | None =>
    if codeHash o =? emptyCodeHash then (None, o)
    else let c := ContractCode (address o) (codeHash o) in (c, with_code c o)
  end.

(** [cachingDB.ContractCodeSize] returns the length of what [ContractCode] does. *)
Definition so_CodeSize (o : stateObject) : Z :=
  match code o with
  | Some c => zlen c
  | None =>
    if codeHash o =? emptyCodeHash then 0
    else zlen (default [] (ContractCode (address o) (codeHash o)))
  end.

Definition setCode (h : Hash) (c : option bytes) (o : stateObject) : stateObject :=
  with_dirtyCode true (with_codeHash h (with_code c o)).

(** [stateObject.finalise]. *)
Definition finalise (o : stateObject) : stateObject :=
  with_dirty ∅ (with_pending (dirtyStorage o ∪ pendingStorage o) o).

(** *** The live objects *)

Definition setStateObject (o : stateObject) (d : stateDB) : stateDB :=
  set_stateObjects (<[address o := o]> (stateObjects d)) d.

(** The account as the snapshot, or else the trie, has it. *)
Definition readAccount (a : Address) : option StateAccount :=
  let load := match trie_Account a with Some r => r | None => None end in
  match snap with
  | None => load
  | Some s => match snap_Account s a with Some r => r | None => load end
  end.

Definition getDeletedStateObject (a : Address) (d : stateDB) : option stateObject * stateDB :=
  match stateObjects d !! a with
  | Some o => (Some o, d)
  | None =>
    match readAccount a with
    | None => (None, d)
    | Some data => let o := newObject a data in (Some o, setStateObject o d)
    end
  end.

Definition getStateObject (a : Address) (d : stateDB) : option stateObject * stateDB :=
  let '(r, d) := getDeletedStateObject a d in
  match r with
  | Some o => if deleted o then (None, d) else (Some o, d)
  | None => (None, d)
  end.

Definition journal_append (e : journalEntry) (d : stateDB) : stateDB :=
  set_journal (append e (journal d)) d.

Definition destructed (d : stateDB) (a : Address) : bool := bool_decide (a ∈ snapDestructs d).

Definition createObject (a : Address) (d : stateDB) : stateObject * option stateObject * stateDB :=
  let '(prev, d) := getDeletedStateObject a d in
  let newobj := newObject a emptyAccount in
  match prev with
  | None =>
    (newobj, None, setStateObject newobj (journal_append (createObjectChange a) d))
  | Some p =>
    let '(prevdestruct, d) :=
      match snap with
      | None => (false, d)
      | Some _ => (destructed d a, set_snapDestructs ({[a]} ∪ snapDestructs d) d)
      end in
    let d := setStateObject newobj (journal_append (resetObjectChange p prevdestruct) d) in
    (newobj, if deleted p then None else Some p, d)
  end.

Definition GetOrNewStateObject (a : Address) (d : stateDB) : stateObject * stateDB :=
  let '(r, d) := getStateObject a d in
  match r with
  | Some o => (o, d)
  | None => let '(o, _, d) := createObject a d in (o, d)
  end.

Definition CreateAccount (a : Address) (d : stateDB) : stateDB :=
  let '(newobj, prev, d) := createObject a d in
  match prev with
  | Some p => setStateObject (with_balance (balance p) newobj) d
  | None => d
  end.

(** *** Getters *)

Definition with_object {A} (dflt : A) (f : stateObject -> A) (a : Address) (d : stateDB) : A :=
  match fst (getStateObject a d) with Some o => f o | None => dflt end.

Definition Exist (d : stateDB) (a : Address) : bool := with_object false (fun _ => true) a d.
Definition Empty (d : stateDB) (a : Address) : bool := with_object true empty a d.
Definition GetBalance (d : stateDB) (a : Address) : Z := with_object 0 balance a d.
Definition GetNonce (d : stateDB) (a : Address) : Z := with_object 0 nonce a d.
Definition GetCode (d : stateDB) (a : Address) : bytes :=
  with_object [] (fun o => default [] (fst (so_Code o))) a d.
Definition GetCodeSize (d : stateDB) (a : Address) : Z := with_object 0 so_CodeSize a d.
Definition GetCodeHash (d : stateDB) (a : Address) : Hash := with_object 0 codeHash a d.
Definition GetState (d : stateDB) (a : Address) (k : Hash) : Hash :=
  with_object 0 (fun o => fst (so_GetState (destructed d a) o k)) a d.
Definition GetCommittedState (d : stateDB) (a : Address) (k : Hash) : Hash :=
  with_object 0 (fun o => fst (so_GetCommittedState (destructed d a) o k)) a d.
Definition HasSuicided (d : stateDB) (a : Address) : bool := with_object false suicided a d.
Definition GetRefund (d : stateDB) : Z := refund d.

(** *** Setters *)

(** [stateObject.SetBalance] of an object of the map. *)
Definition so_SetBalance (amount : Z) (o : stateObject) (d : stateDB) : stateDB :=
  setStateObject (with_balance amount o) (journal_append (balanceChange (address o) (balance o)) d).

Definition ripemd : Address := 3.

Definition touch (o : stateObject) (d : stateDB) : stateDB :=
  let d := journal_append (touchChange (address o)) d in
  if address o =? ripemd then set_journal (dirty (address o) (journal d)) d else d.

Definition AddBalance (a : Address) (amount : Z) (d : stateDB) : stateDB :=
  let '(o, d) := GetOrNewStateObject a d in
  if amount =? 0 then (if empty o then touch o d else d)
  else so_SetBalance (balance o + amount) o d.

Definition SubBalance (a : Address) (amount : Z) (d : stateDB) : stateDB :=
  let '(o, d) := GetOrNewStateObject a d in
  if amount =? 0 then d else so_SetBalance (balance o - amount) o d.

Definition SetBalance (a : Address) (amount : Z) (d : stateDB) : stateDB :=
  let '(o, d) := GetOrNewStateObject a d in so_SetBalance amount o d.

Definition SetNonce (a : Address) (n : Z) (d : stateDB) : stateDB :=
  let '(o, d) := GetOrNewStateObject a d in
  setStateObject (with_nonce n o) (journal_append (nonceChange (address o) (nonce o)) d).

Definition SetCode (a : Address) (c : bytes) (d : stateDB) : stateDB :=
  let '(o, d) := GetOrNewStateObject a d in
  let h := keccak256 c in
  let '(prevcode, o) := so_Code o in
  setStateObject (setCode h (Some c) o)
    (journal_append (codeChange (address o) prevcode (codeHash o)) d).

Definition SetState (a : Address) (key value : Hash) (d : stateDB) : stateDB :=
  let '(o, d) := GetOrNewStateObject a d in
  let '(prev, o) := so_GetState (destructed d a) o key in
  if prev =? value then setStateObject o d
  else setStateObject (setState key value o)
         (journal_append (storageChange (address o) key prev) d).

Definition Suicide (a : Address) (d : stateDB) : bool * stateDB :=
  let '(r, d) := getStateObject a d in
  match r with
  | None => (false, d)
  | Some o =>
    let d := journal_append (suicideChange a (suicided o) (balance o)) d in
    (true, setStateObject (with_balance 0 (with_suicided true o)) d)
  end.

Definition AddRefund (gas : Z) (d : stateDB) : stateDB :=
  let d := journal_append (refundChange (refund d)) d in
  set_refund (add64 (refund d) gas) d.

Definition SubRefund (gas : Z) (d : stateDB) : res stateDB :=
  let d := journal_append (refundChange (refund d)) d in
  if gas >? refund d then Panic PanicRefund else Ok (set_refund (sub64 (refund d) gas) d).

Definition AddLog (l : Log) (d : stateDB) : stateDB :=
  let d := journal_append (addLogChange (thash d)) d in
  let l := mkLog l (thash d) (u64 (txIndex d)) (logSize d) in
  let d := set_logs (<[thash d := default [] (logs d !! thash d) ++ [l]]> (logs d)) d in
  set_logSize (add64 (logSize d) 1) d.

Definition AddPreimage (h : Hash) (preimage : bytes) (d : stateDB) : stateDB :=
  match preimages d !! h with
  | Some _ => d
  | None =>
    let d := journal_append (addPreimageChange h) d in
    set_preimages (<[h := preimage]> (preimages d)) d
  end.

(** *** The access list *)

Definition AddAddressToAccessList (a : Address) (d : stateDB) : stateDB :=
  let '(added, al) := AddAddress (accessList d) a in
  let d := set_accessList al d in
  if added : bool then journal_append (accessListAddAccountChange a) d else d.

Definition AddSlotToAccessList (a : Address) (slot : Hash) (d : stateDB) : res stateDB :=
  '(addrMod, slotMod, al) ← AddSlot (accessList d) a slot;
  let d := set_accessList al d in
  let d := if addrMod : bool then journal_append (accessListAddAccountChange a) d else d in
  Ok (if slotMod : bool then journal_append (accessListAddSlotChange a slot) d else d).

Definition AddressInAccessList (d : stateDB) (a : Address) : bool :=
  ContainsAddress (accessList d) a.
Definition SlotInAccessList (d : stateDB) (a : Address) (slot : Hash) : res (bool * bool) :=
  Contains (accessList d) a slot.

(** The tuples of [model.AccessList]. *)
Fixpoint addTuples (l : list (Address * list Hash)) (d : stateDB) : res stateDB :=
  match l with
  | [] => Ok d
  | (a, keys) :: l =>
    d ← foldl (fun r k => d ← r; AddSlotToAccessList a k d) (Ok (AddAddressToAccessList a d)) keys;
    addTuples l d
  end.

Definition PrepareAccessList (sender : Address) (dst : option Address) (precompiles : list Address)
    (l : list (Address * list Hash)) (d : stateDB) : res stateDB :=
  let d := set_accessList newAccessList d in
  let d := AddAddressToAccessList sender d in
  let d := match dst with Some a => AddAddressToAccessList a d | None => d end in
  addTuples l (foldl (fun d a => AddAddressToAccessList a d) d precompiles).

(** *** Snapshots *)

(** The setters the journal applies to the object of an account: a missing
    object is a nil dereference. *)
Definition on_object (a : Address) (f : stateObject -> stateObject) (d : stateDB) : res stateDB :=
  match getStateObject a d with
  | (Some o, d) => Ok (setStateObject (f o) d)
  | (None, _) => Panic PanicNil
  end.

(** The methods [revert] of the entries. *)
Definition revert_entry (e : journalEntry) (d : stateDB) : res stateDB :=
  match e with
  | createObjectChange a =>
    let d := set_stateObjects (delete a (stateObjects d)) d in
    Ok (set_stateObjectsDirty (stateObjectsDirty d ∖ {[a]}) d)
  | resetObjectChange prev prevdestruct =>
    let d := setStateObject prev d in
    Ok (if negb prevdestruct && bool_decide (is_Some snap)
        then set_snapDestructs (snapDestructs d ∖ {[address prev]}) d else d)
  | suicideChange a prev prevbalance =>
    let '(r, d) := getStateObject a d in
    match r with
    | Some o => Ok (setStateObject (with_balance prevbalance (with_suicided prev o)) d)
    | None => Ok d
    end
  | touchChange _ => Ok d
  | balanceChange a prev => on_object a (with_balance prev) d
  | nonceChange a prev => on_object a (with_nonce prev) d
  | codeChange a prevcode prevhash => on_object a (setCode prevhash prevcode) d
  | storageChange a key prevalue => on_object a (setState key prevalue) d
  | refundChange prev => Ok (set_refund prev d)
  | addLogChange h =>
    let l := default [] (logs d !! h) in
    d ← (if zlen l =? 1 then Ok (set_logs (delete h (logs d)) d)
         else l' ← slice l 0 (zlen l - 1); Ok (set_logs (<[h := l']> (logs d)) d));
    Ok (set_logSize (sub64 (logSize d) 1) d)
  | addPreimageChange h => Ok (set_preimages (delete h (preimages d)) d)
  | accessListAddAccountChange a => Ok (set_accessList (DeleteAddress (accessList d) a) d)
  | accessListAddSlotChange a slot =>
    al ← DeleteSlot (accessList d) a slot; Ok (set_accessList al d)
  end.

(** The loop of [journal.revert] over the entries to undo, last one first. *)
Fixpoint revert_entries (l : list journalEntry) (d : stateDB) : res stateDB :=
  match l with
  | [] => Ok d
  | e :: l =>
    d ← revert_entry e d;
    let d := match dirtied e with Some a => set_journal (undirty a (journal d)) d | None => d end in
    revert_entries l d
  end.

Definition journal_revert (snapshot : Z) (d : stateDB) : res stateDB :=
  d' ← revert_entries (rev (drop (Z.to_nat snapshot) (entries (journal d)))) d;
  kept ← slice (entries (journal d)) 0 snapshot;
  Ok (set_journal (mkJournal kept (dirties (journal d'))) d').

Definition Snapshot (d : stateDB) : Z * stateDB :=
  let i := nextRevisionId d in
  let d := set_nextRevisionId (i + 1) d in
  (i, set_validRevisions (validRevisions d ++ [mkRevision i (zlen (entries (journal d)))]) d).

(** [sort.Search(n, f)]: binary search for the smallest index with [f i] in
    [0, n), assuming that [f] is monotone; [n] when there is none. *)
Fixpoint search (fuel : nat) (f : Z -> bool) (i j : Z) : res Z :=
  match fuel with
  | O => NoFuel
  | S fuel =>
    if i <? j then
      let h := (i + j) / 2 in
      if negb (f h) then search fuel f (h + 1) j else search fuel f i h
    else Ok i
  end.
Definition Search (n : Z) (f : Z -> bool) : res Z := search (S (Z.to_nat n)) f 0 n.

Definition revisionFrom (l : list revision) (revid : Z) (i : Z) : bool :=
  match l !! Z.to_nat i with Some r => revid <=? id r | None => false end.

Definition RevertToSnapshot (revid : Z) (d : stateDB) : res stateDB :=
  idx ← Search (zlen (validRevisions d)) (revisionFrom (validRevisions d) revid);
  if idx =? zlen (validRevisions d) then Panic PanicRevision
  else
    r ← nth_or_panic (validRevisions d) idx;
    if negb (id r =? revid) then Panic PanicRevision
    else
      d' ← journal_revert (journalIndex r) d;
      revs ← slice (validRevisions d') 0 idx;
      Ok (set_validRevisions revs d').

(** *** The end of a transaction *)

Definition clearJournalAndRefund (d : stateDB) : stateDB :=
  let d := if zlen (entries (journal d)) >? 0
           then set_refund 0 (set_journal newJournal d) else d in
  set_validRevisions [] d.

(** The body of the loop of [Finalise]. *)
Definition finalise_addr (deleteEmptyObjects : bool) (d : stateDB) (a : Address) : stateDB :=
  match stateObjects d !! a with
  | None => d
  | Some o =>
    let d :=
      if suicided o || (deleteEmptyObjects && empty o) then
        let d := setStateObject (with_deleted true o) d in
        match snap with Some _ => set_snapDestructs ({[a]} ∪ snapDestructs d) d | None => d end
      else setStateObject (finalise o) d in
    let d := set_stateObjectsPending ({[a]} ∪ stateObjectsPending d) d in
    set_stateObjectsDirty ({[a]} ∪ stateObjectsDirty d) d
  end.

(** [Finalise], with the keys of [dirties] in the order of Go's map iteration. *)
Definition Finalise_in (order : list Address) (deleteEmptyObjects : bool) (d : stateDB) : stateDB :=
  clearJournalAndRefund (foldl (finalise_addr deleteEmptyObjects) d order).

Definition Finalise (deleteEmptyObjects : bool) (d : stateDB) : stateDB :=
  Finalise_in (map_to_list (dirties (journal d))).*1 deleteEmptyObjects d.

Definition Prepare (h : Hash) (ti : Z) (d : stateDB) : stateDB := set_txIndex ti (set_thash h d).
End operations.
End State.
