(* ===== verification/StateSpec.v ===== *)
(** * Snapshots of the state database undo exactly what was done since

    States are compared by [eqv], what the operations can tell apart: caches may
    differ, and so may the journal, its dirty counters and the revision counter.
    [extends d d'] says that [d'] was obtained from [d] by operations whose journal
    entries, undone last to first, lead back to a state equivalent to [d].  Every
    operation extends the state, so going back to a snapshot restores it, and the
    database satisfies the contract [StateDBSpec] of the virtual machine. *)

From S2P Require Import Prelude Uint256 Config Common EvmAnalysis EvmStack EvmMemory Rlp EvmState.
From S2P Require Import EvmSpec StateDB.

Import State.

Local Open Scope Z_scope.

(** ** The contract of the backend

    Codes are stored by their hash, an account without an entry has no storage in
    the snapshot, and the empty trie has no entries. *)
Class BackendSpec `{C : Crypto} `{B : Backend} : Prop := {
  backend_code a h c : ContractCode a h = Some c -> small c /\ keccak256 c = h;
  backend_nonce a data : readAccount a = Some data -> is_u64 (aNonce data);
  backend_trie a k : default [] (trie_Storage a emptyRoot k) = [];
  backend_snap a k s : readAccount a = None -> snap = Some s -> default [] (snap_Storage s a k) = [];
}.

Section spec.
Context `{C : Crypto} `{B : Backend}.

(** ** Reading through the caches *)

(** The object of an account, in the map or as it would be loaded. *)
Definition view (d : stateDB) (a : Address) : option stateObject :=
  match stateObjects d !! a with
  | Some o => Some o
  | None => newObject a <$> readAccount a
  end.

Definition live (o : option stateObject) : option stateObject :=
  match o with Some o => if deleted o then None else Some o | None => None end.

(** The objects are filed under their address. *)
Definition filed (d : stateDB) : Prop := forall a o, view d a = Some o -> address o = a.

(** A state with other objects loaded. *)
Record loaded (d d' : stateDB) : Prop := {
  ld_view a : view d' a = view d a;
  ld_rest : exists m, d' = set_stateObjects m d;
}.

Lemma set_objects_id d : set_stateObjects (stateObjects d) d = d.
Proof. by destruct d. Qed.

Lemma loaded_refl d : loaded d d.
Proof. split; [done|]. exists (stateObjects d). by rewrite set_objects_id. Qed.

Lemma view_set d o a : view (setStateObject o d) a = if decide (a = address o) then Some o else view d a.
Proof.
  unfold view, setStateObject. cbn. destruct (decide (a = address o)) as [->|N].
  - by rewrite lookup_insert_eq.
  - by rewrite lookup_insert_ne.
Qed.

(** Loading an object is not observable. *)
Lemma getDeleted_spec a d : exists d',
  getDeletedStateObject a d = (view d a, d') /\ loaded d d' /\
  (forall o, view d a = Some o -> stateObjects d' !! a = Some o).
Proof.
  unfold getDeletedStateObject. destruct (stateObjects d !! a) as [o|] eqn:E.
  { exists d. unfold view. rewrite E. auto using loaded_refl. }
  unfold view. rewrite E. destruct (readAccount a) as [data|] eqn:R; cbn.
  2: { exists d. split; [done|]. split; [apply loaded_refl | done]. }
  exists (setStateObject (newObject a data) d). split; [done|]. split.
  - split.
    + intros b. rewrite view_set. cbn. destruct (decide (b = a)) as [->|]; [|done].
      unfold view. by rewrite E, R.
    + by eexists.
  - intros o [= <-]. cbn. by rewrite lookup_insert_eq.
Qed.

Lemma getStateObject_spec a d : exists d',
  getStateObject a d = (live (view d a), d') /\ loaded d d' /\
  (forall o, view d a = Some o -> stateObjects d' !! a = Some o).
Proof.
  unfold getStateObject. destruct (getDeleted_spec a d) as (d' & -> & L & S).
  exists d'. split; [|done]. destruct (view d a) as [o|]; cbn; [|done]. by destruct (deleted o).
Qed.

Lemma with_object_spec {A} (x : A) f a d :
  with_object x f a d = match live (view d a) with Some o => f o | None => x end.
Proof. unfold with_object. by destruct (getStateObject_spec a d) as (d' & -> & _). Qed.

(** What the readers of an object return, without the cached object. *)
Definition code_of (o : stateObject) : option bytes :=
  match code o with
  | Some c => Some c
  | None => if codeHash o =? emptyCodeHash then None else ContractCode (address o) (codeHash o)
  end.

(** The stored value of a slot that is in no cache. *)
Definition slot_of (des : bool) (a : Address) (rt k : Hash) : Hash :=
  let load := decodeSlot (default [] (trie_Storage a rt k)) in
  match snap with
  | None => load
  | Some s =>
    if des then 0
    else match snap_Storage s a k with Some enc => decodeSlot enc | None => load end
  end.

Definition committed_of (des : bool) (o : stateObject) (k : Hash) : Hash :=
  match pendingStorage o !! k with
  | Some v => v
  | None => match originStorage o !! k with Some v => v | None => slot_of des (address o) (root o) k end
  end.

Definition state_of (des : bool) (o : stateObject) (k : Hash) : Hash :=
  match dirtyStorage o !! k with Some v => v | None => committed_of des o k end.

Lemma so_Code_fst o : fst (so_Code o) = code_of o.
Proof. unfold so_Code, code_of. by repeat case_match. Qed.

Lemma so_CodeSize_of o : so_CodeSize o = zlen (default [] (code_of o)).
Proof. unfold so_CodeSize, code_of. by repeat case_match. Qed.

Lemma so_committed_fst des o k : fst (so_GetCommittedState des o k) = committed_of des o k.
Proof. unfold so_GetCommittedState, committed_of, slot_of. by repeat (case_match; try done). Qed.

Lemma so_state_fst des o k : fst (so_GetState des o k) = state_of des o k.
Proof. unfold so_GetState, state_of. case_match; [done | apply so_committed_fst]. Qed.

(** ** Equivalence *)

(** Objects that answer alike; [des] tells whether the snapshot is to be
    consulted for their storage. *)
Record obj_eqv (des : bool) (o o' : stateObject) : Prop := {
  oe_address : address o' = address o;
  oe_nonce : nonce o' = nonce o;
  oe_balance : balance o' = balance o;
  oe_hash : codeHash o' = codeHash o;
  oe_suicided : suicided o' = suicided o;
  oe_deleted : deleted o' = deleted o;
  oe_code : code_of o' = code_of o;
  oe_committed k : committed_of des o' k = committed_of des o k;
  oe_state k : state_of des o' k = state_of des o k;
}.

#[export] Instance obj_eqv_equiv des : Equivalence (obj_eqv des).
Proof.
  split.
  - intros o. by split.
  - intros o o' []. by split.
  - intros o1 o2 o3 [] []. split; intros; etrans; eauto.
Qed.

Record eqv (d d' : stateDB) : Prop := {
  eq_view a : option_Forall2 (obj_eqv (destructed d a)) (view d a) (view d' a);
  eq_destructs : snapDestructs d' = snapDestructs d;
  eq_refund : refund d' = refund d;
  eq_thash : thash d' = thash d;
  eq_txIndex : txIndex d' = txIndex d;
  eq_logs h : default [] (logs d' !! h) = default [] (logs d !! h);
  eq_logSize : logSize d' = logSize d;
  eq_preimages : preimages d' = preimages d;
  eq_access : accessList d' = accessList d;
}.

Lemma eqv_destructed d d' a : eqv d d' -> destructed d' a = destructed d a.
Proof. intros H. unfold destructed. by rewrite (eq_destructs _ _ H). Qed.

#[export] Instance eqv_equiv : Equivalence eqv.
Proof.
  split.
  - intros d. by split.
  - intros d d' H. pose proof (fun a => eqv_destructed d d' a H) as Hd. destruct H.
    split; try done. intros a. rewrite Hd. by symmetry.
  - intros d1 d2 d3 H1 H2. pose proof (fun a => eqv_destructed d1 d2 a H1) as Hd.
    destruct H1 as [V1 ? ? ? ? ? ? ? ?], H2 as [V2 ? ? ? ? ? ? ? ?].
    split; intros; try (etrans; eauto; fail).
    specialize (V2 a). rewrite Hd in V2. etrans; [exact (V1 a) | exact V2].
Qed.

Lemma loaded_eqv d d' : loaded d d' -> eqv d d'.
Proof. intros [V (m & ->)]. split; try done. intros a. by rewrite V. Qed.

Lemma eqv_journal j d : eqv d (set_journal j d).
Proof. by split. Qed.

(** ** Undoing respects equivalence *)

Definition res_rel {A} (R : A -> A -> Prop) (m m' : res A) : Prop :=
  match m, m' with
  | Ok x, Ok y => R x y
  | Panic p, Panic q => p = q
  | NoFuel, NoFuel => True
  | _, _ => False
  end.

Lemma res_rel_bind {A A'} (R : A -> A -> Prop) (R' : A' -> A' -> Prop) m m' k k' :
  res_rel R m m' -> (forall x y, R x y -> res_rel R' (k x) (k' y)) ->
  res_rel R' (m ≫= k) (m' ≫= k').
Proof. destruct m, m'; cbn; intros; auto; done. Qed.

Lemma eqv_setObject d d' o o' : eqv d d' -> obj_eqv (destructed d (address o)) o o' ->
  eqv (setStateObject o d) (setStateObject o' d').
Proof.
  intros [V ? ? ? ? ? ? ? ?] O. split; try done. intros a. rewrite !view_set, (oe_address _ _ _ O).
  destruct (decide (a = address o)) as [->|]; [by constructor | apply V].
Qed.

Lemma eqv_live d d' a : eqv d d' ->
  option_Forall2 (obj_eqv (destructed d a)) (live (view d a)) (live (view d' a)).
Proof.
  intros E. destruct (eq_view _ _ E a) as [o o' O|]; [|constructor]. cbn. rewrite (oe_deleted _ _ _ O).
  by destruct (deleted o); constructor.
Qed.

Lemma obj_eqv_balance des o o' v : obj_eqv des o o' -> obj_eqv des (with_balance v o) (with_balance v o').
Proof. intros []. by split. Qed.
Lemma obj_eqv_nonce des o o' v : obj_eqv des o o' -> obj_eqv des (with_nonce v o) (with_nonce v o').
Proof. intros []. by split. Qed.
Lemma obj_eqv_suicided des o o' v : obj_eqv des o o' -> obj_eqv des (with_suicided v o) (with_suicided v o').
Proof. intros []. by split. Qed.
Lemma obj_eqv_setCode des o o' h c : obj_eqv des o o' -> obj_eqv des (setCode h c o) (setCode h c o').
Proof.
  intros []. split; try done. destruct c; [done|]. unfold code_of. cbn. by rewrite oe_address0.
Qed.
Lemma state_of_set des k v o k' :
  state_of des (setState k v o) k' = if decide (k' = k) then v else state_of des o k'.
Proof.
  unfold state_of. cbn. destruct (decide (k' = k)) as [->|N].
  - by rewrite lookup_insert_eq.
  - by rewrite lookup_insert_ne.
Qed.
Lemma obj_eqv_setState des o o' k v : obj_eqv des o o' -> obj_eqv des (setState k v o) (setState k v o').
Proof. intros []. split; try done. intros k'. rewrite !state_of_set. by destruct (decide _). Qed.

Lemma on_object_rel a f d d' :
  (forall des o o', obj_eqv des o o' -> obj_eqv des (f o) (f o')) ->
  (forall o, address (f o) = address o) ->
  filed d -> eqv d d' -> res_rel eqv (on_object a f d) (on_object a f d').
Proof.
  intros Hf Ha Hd E. unfold on_object.
  destruct (getStateObject_spec a d) as (d1 & -> & L1 & _).
  destruct (getStateObject_spec a d') as (d2 & -> & L2 & _).
  assert (E12 : eqv d1 d2).
  { etrans; [symmetry; by apply loaded_eqv|]. etrans; [exact E | by apply loaded_eqv]. }
  pose proof (eqv_live d d' a E) as O. destruct (live (view d a)) as [o|] eqn:Lo; inv O; [|done].
  apply eqv_setObject; [done|]. rewrite Ha, (eqv_destructed d d1 _ (loaded_eqv _ _ L1)).
  apply Hf. assert (address o = a) as ->; [|done].
  apply Hd. destruct (view d a) as [o1|]; [|done]. cbn in Lo. by destruct (deleted o1); simplify_eq.
Qed.

Lemma reset_rel d d' p pd : eqv d d' ->
  res_rel eqv (revert_entry (resetObjectChange p pd) d) (revert_entry (resetObjectChange p pd) d').
Proof.
  intros E. cbn. destruct (negb pd && _); [|by apply eqv_setObject].
  pose proof (eqv_setObject d d' p p E ltac:(reflexivity)) as [V D ? ? ? ? ? ? ?].
  split; try done; [|cbn in *; by rewrite D].
  intros a. specialize (V a). destruct (decide (a = address p)) as [->|N].
  - change (option_Forall2 (obj_eqv (destructed (set_snapDestructs (snapDestructs d ∖ {[address p]}) d) (address p)))
      (view (setStateObject p d) (address p)) (view (setStateObject p d') (address p))).
    rewrite !view_set, !decide_True by done. by constructor.
  - replace (destructed _ a) with (destructed (setStateObject p d) a); [exact V|].
    unfold destructed. cbn. apply bool_decide_ext. rewrite elem_of_difference, elem_of_singleton. tauto.
Qed.

Lemma revert_entry_rel e d d' : filed d -> eqv d d' -> res_rel eqv (revert_entry e d) (revert_entry e d').
Proof.
  intros F E. destruct e; try (by apply reset_rel);
    try (apply on_object_rel; auto using obj_eqv_balance, obj_eqv_nonce, obj_eqv_setCode, obj_eqv_setState; fail);
    cbn [revert_entry res_rel].
  - destruct E as [V ? ? ? ? ? ? ? ?]. split; try done. intros a. specialize (V a). unfold view in *. cbn.
    destruct (decide (a = account)) as [->|N].
    + by rewrite !lookup_delete_eq.
    + by rewrite !lookup_delete_ne.
  - destruct (getStateObject_spec account d) as (d1 & -> & L1 & _).
    destruct (getStateObject_spec account d') as (d2 & -> & L2 & _).
    assert (E12 : eqv d1 d2).
    { etrans; [symmetry; by apply loaded_eqv|]. etrans; [exact E | by apply loaded_eqv]. }
    pose proof (eqv_live d d' account E) as O. destruct (live (view d account)) as [o|] eqn:Lo; inv O; [|done].
    apply eqv_setObject; [done|]. cbn. rewrite (eqv_destructed d d1 _ (loaded_eqv _ _ L1)).
    apply obj_eqv_balance, obj_eqv_suicided. assert (address o = account) as ->; [|done].
    apply F. destruct (view d account) as [o1|]; [|done]. cbn in Lo. by destruct (deleted o1); simplify_eq.
  - destruct E. by split.
  - destruct E as [? ? ? ? ? El ? ? ?]. rewrite El.
    set (l := default [] (logs d !! txhash)). zcase.
    + cbn. split; try done; [|cbn; congruence]. intros h. cbn.
      destruct (decide (h = txhash)) as [->|]; [by rewrite !lookup_delete_eq | by rewrite !lookup_delete_ne].
    + eapply res_rel_bind with (R := eqv); [|intros x y []; split; cbn; try done; congruence].
      destruct (slice l 0 (zlen l - 1)); try done. split; try done. intros h. cbn.
      destruct (decide (h = txhash)) as [->|]; [by rewrite !lookup_insert_eq | by rewrite !lookup_insert_ne].
  - destruct E. split; try done. cbn. congruence.
  - exact E.
  - destruct E as [? ? ? ? ? ? ? ? Ea]. split; try done. cbn. by rewrite Ea.
  - rewrite (eq_access _ _ E). destruct (DeleteSlot _ _ _); try done. destruct E. by split.
Qed.

Lemma eqv_filed d d' : eqv d d' -> filed d -> filed d'.
Proof.
  intros E F a o' V. pose proof (eq_view _ _ E a) as O. rewrite V in O. inv O.
  match goal with H : obj_eqv _ ?x _, H' : Some ?x = _ |- _ => rewrite (oe_address _ _ _ H); by apply F end.
Qed.

Lemma filed_setObject o d : filed d -> filed (setStateObject o d).
Proof.
  intros F a o'. rewrite view_set. destruct (decide _) as [->|]; [by intros [= ->] | apply F].
Qed.

Lemma filed_on_object a f d d' : filed d -> on_object a f d = Ok d' -> filed d'.
Proof.
  unfold on_object. destruct (getStateObject_spec a d) as (d1 & -> & L & _). intros F E.
  destruct (live (view d a)); simplify_eq. apply filed_setObject.
  eapply eqv_filed; [by apply loaded_eqv | done].
Qed.

Lemma filed_revert_entry e d d' : filed d -> revert_entry e d = Ok d' -> filed d'.
Proof.
  intros F E. destruct e; cbn [revert_entry] in E; simplify_eq;
    try (by eapply filed_on_object); try exact F.
  - intros a o. unfold view. cbn. destruct (decide (a = account)) as [->|].
    + rewrite lookup_delete_eq. destruct (readAccount account); [|done]. by intros [= <-].
    + rewrite lookup_delete_ne by done. apply F.
  - destruct (negb _ && _); by apply filed_setObject.
  - destruct (getStateObject_spec account d) as (d1 & E1 & L & _). rewrite E1 in E.
    pose proof (eqv_filed _ _ (loaded_eqv _ _ L) F).
    destruct (live _); simplify_eq; [by apply filed_setObject | done].
  - bind_inv E. simplify_eq. zcase; simplify_eq; [exact F|]. bind_inv E0. simplify_eq. exact F.
  - bind_inv E. simplify_eq. exact F.
Qed.

(** Undoing a list of entries, without the dirty counters. *)
Lemma revert_entries_rel l d d' : filed d -> eqv d d' ->
  res_rel eqv (revert_entries l d) (revert_entries l d').
Proof.
  revert d d'. induction l as [|e l IH]; intros d d' F E; [done|]. cbn [revert_entries].
  pose proof (revert_entry_rel e d d' F E) as R.
  destruct (revert_entry e d) as [x| |] eqn:Ex, (revert_entry e d') as [y| |] eqn:Ey; try done.
  cbn [mbind res_bind]. pose proof (filed_revert_entry _ _ _ F Ex) as Fx. apply IH.
  - by destruct (dirtied e).
  - destruct (dirtied e); [|done].
    etrans; [symmetry; apply eqv_journal|]. etrans; [exact R | apply eqv_journal].
Qed.

Lemma revert_entries_app l1 l2 d :
  revert_entries (l1 ++ l2) d = d' ← revert_entries l1 d; revert_entries l2 d'.
Proof.
  revert d. induction l1 as [|e l1 IH]; intros d; [done|]. cbn [app revert_entries].
  destruct (revert_entry e d); cbn [mbind res_bind]; [apply IH | done | done].
Qed.

(** Undoing touches neither the entries nor the revisions. *)
Definition same_history (d d' : stateDB) : Prop :=
  entries (journal d') = entries (journal d) /\ validRevisions d' = validRevisions d /\
  nextRevisionId d' = nextRevisionId d.

Lemma same_history_trans d1 d2 d3 : same_history d1 d2 -> same_history d2 d3 -> same_history d1 d3.
Proof. intros (? & ? & ?) (? & ? & ?). repeat split; congruence. Qed.

Lemma loaded_history d d' : loaded d d' -> same_history d d'.
Proof. intros [_ (m & ->)]. done. Qed.

Lemma revert_entry_history e d d' : revert_entry e d = Ok d' -> same_history d d'.
Proof.
  intros E. destruct e; cbn [revert_entry] in E;
    try (unfold on_object in E;
         match type of E with context [getStateObject ?a d] =>
           destruct (getStateObject_spec a d) as (d1 & E1 & L & _); rewrite E1 in E end;
         apply loaded_history in L; destruct (live _); by simplify_eq);
    try (simplify_eq; done).
  - simplify_eq. by destruct (negb _ && _).
  - bind_inv E. simplify_eq. zcase; simplify_eq; [done|]. bind_inv E0. by simplify_eq.
  - bind_inv E. by simplify_eq.
Qed.

Lemma revert_entries_history l d d' : revert_entries l d = Ok d' -> same_history d d'.
Proof.
  revert d. induction l as [|e l IH]; intros d E; [cbn in E; by simplify_eq|]. cbn [revert_entries] in E.
  bind_inv E. apply revert_entry_history in E0. apply IH in E.
  eapply same_history_trans; [exact E0|]. by destruct (dirtied e).
Qed.

(** ** Extensions *)

Record extends (d d' : stateDB) : Prop := {
  ex_undo : exists l d0, entries (journal d') = entries (journal d) ++ l /\
              revert_entries (rev l) d' = Ok d0 /\ eqv d d0;
  ex_revs : exists r, validRevisions d' = validRevisions d ++ r /\
              Forall (fun x => nextRevisionId d <= id x) r;
  ex_next : nextRevisionId d <= nextRevisionId d';
}.

Lemma extends_eqv d d' : same_history d d' -> eqv d d' -> extends d d'.
Proof.
  intros (He & Hv & Hn) E. split.
  - exists [], d'. by rewrite He, app_nil_r.
  - exists []. by rewrite Hv, app_nil_r.
  - by rewrite Hn.
Qed.

Lemma extends_loaded d d' : loaded d d' -> extends d d'.
Proof. intros. apply extends_eqv; [by apply loaded_history | by apply loaded_eqv]. Qed.

Lemma extends_refl d : extends d d.
Proof. by apply extends_eqv. Qed.

Lemma extends_trans d1 d2 d3 : filed d2 -> extends d1 d2 -> extends d2 d3 -> extends d1 d3.
Proof.
  intros F [(l1 & x1 & H1 & R1 & E1) (r1 & V1 & I1) N1] [(l2 & x2 & H2 & R2 & E2) (r2 & V2 & I2) N2].
  split; [| |lia].
  - pose proof (revert_entries_rel (rev l1) d2 x2 F E2) as R. rewrite R1 in R.
    destruct (revert_entries (rev l1) x2) as [y| |] eqn:Ey; try done.
    exists (l1 ++ l2), y. split; [by rewrite H2, H1, app_assoc|]. split; [|by etrans].
    by rewrite rev_app_distr, revert_entries_app, R2.
  - exists (r1 ++ r2). split; [by rewrite V2, V1, app_assoc|]. apply Forall_app_2; [done|].
    eapply Forall_impl; [exact I2|]. cbn. lia.
Qed.

(** One journaled change. *)
Lemma extends_entry d e d' d0 :
  entries (journal d') = entries (journal d) ++ [e] ->
  validRevisions d' = validRevisions d -> nextRevisionId d' = nextRevisionId d ->
  revert_entry e d' = Ok d0 -> eqv d d0 -> extends d d'.
Proof.
  intros He Hv Hn Hr E. split.
  - eexists [e], _. split; [done|]. cbn [rev app revert_entries]. rewrite Hr. cbn. split; [done|].
    destruct (dirtied e); [etrans; [exact E | apply eqv_journal] | done].
  - exists []. by rewrite Hv, app_nil_r.
  - by rewrite Hn.
Qed.

Lemma entries_append e d : entries (journal (journal_append e d)) = entries (journal d) ++ [e].
Proof. unfold journal_append, append. cbn. by destruct (dirtied e). Qed.

(** ** The invariant *)

(** The slots of an address are a non-empty set of the list. *)
Definition al_ok (al : accessListT) : Prop :=
  forall a i, addresses al !! a = Some i -> i = -1 \/
    (0 <= i /\ exists s, slots al !! Z.to_nat i = Some s /\ s <> ∅).

Definition code_ok (h : Hash) (c : option bytes) : Prop :=
  match c with None => True | Some c => small c /\ (c <> [] -> h = keccak256 c) end.

Record obj_ok (des : bool) (a : Address) (o : stateObject) : Prop := {
  oo_address : address o = a;
  oo_nonce : is_u64 (nonce o);
  oo_code : code_ok (codeHash o) (code_of o);
  oo_deleted : deleted o = true -> is_Some snap -> des = true;
}.

Record world_ok (d : stateDB) : Prop := {
  wo_obj a o : view d a = Some o -> obj_ok (destructed d a) a o;
  wo_refund : is_u64 (refund d);
  wo_logSize : is_u64 (logSize d);
  wo_access : al_ok (accessList d);
}.

Lemma wo_filed d : world_ok d -> filed d.
Proof. intros W a o V. apply (wo_obj _ W _ _ V). Qed.

Lemma eqv_world d d' : eqv d d' -> world_ok d -> world_ok d'.
Proof.
  intros E W. split.
  - intros a o V. pose proof (eq_view _ _ E a) as O. rewrite V in O. inv O.
    match goal with H : Some ?x = view d a, O : obj_eqv _ ?x o |- _ =>
      destruct (wo_obj _ W a x (eq_sym H)), O end.
    rewrite (eqv_destructed d d' a E).
    split; rewrite ?oe_address0, ?oe_nonce0, ?oe_hash0, ?oe_code0, ?oe_deleted0; done.
  - rewrite (eq_refund _ _ E). apply W.
  - rewrite (eq_logSize _ _ E). apply W.
  - rewrite (eq_access _ _ E). apply W.
Qed.

Lemma world_setObject d o : obj_ok (destructed d (address o)) (address o) o ->
  world_ok d -> world_ok (setStateObject o d).
Proof.
  intros O W. split; [|apply W..]. intros a o'. rewrite view_set.
  destruct (decide _) as [->|]; [by intros [= <-] | apply W].
Qed.

Lemma world_journal e d : world_ok d -> world_ok (journal_append e d).
Proof. by intros []. Qed.

(** ** Every operation is an extension *)

Context `{BS : !BackendSpec}.

Record step (d d' : stateDB) : Prop := {
  st_extends : extends d d';
  st_world : world_ok d';
  st_revs : validRevisions d' = validRevisions d;
  st_next : nextRevisionId d' = nextRevisionId d;
}.

Lemma step_trans d1 d2 d3 : step d1 d2 -> step d2 d3 -> step d1 d3.
Proof.
  intros [E1 W1 V1 N1] [E2 W2 V2 N2]. split; [|done|congruence|congruence].
  apply (extends_trans d1 d2 d3); [by apply wo_filed | done | done].
Qed.

Lemma step_eqv d d' : world_ok d -> same_history d d' -> eqv d d' -> step d d'.
Proof.
  intros W H E. split; [by apply extends_eqv | by eapply eqv_world | apply H | apply H].
Qed.

Lemma step_loaded d d' : world_ok d -> loaded d d' -> step d d'.
Proof. intros W L. apply step_eqv; [done | by apply loaded_history | by apply loaded_eqv]. Qed.

Lemma step_refl d : world_ok d -> step d d.
Proof. intros. by apply step_loaded, loaded_refl. Qed.

Lemma step_entry d e d' d0 : world_ok d' ->
  entries (journal d') = entries (journal d) ++ [e] ->
  validRevisions d' = validRevisions d -> nextRevisionId d' = nextRevisionId d ->
  revert_entry e d' = Ok d0 -> eqv d d0 -> step d d'.
Proof. intros. split; try done. by eapply extends_entry. Qed.

(** An object with the same content in the map. *)
Lemma eqv_same_object d o o' : view d (address o) = Some o -> obj_eqv (destructed d (address o)) o o' ->
  eqv d (setStateObject o' d).
Proof.
  intros V O. split; try done. intros a. rewrite view_set, (oe_address _ _ _ O).
  destruct (decide _) as [->|]; [|done]. rewrite V. by constructor.
Qed.

(** An object changed to [o'], and the entry that changes it back by [g]. *)
Lemma step_object d e o o' g : world_ok d -> view d (address o) = Some o ->
  address o' = address o -> deleted o' = false -> obj_ok (destructed d (address o)) (address o) o' ->
  (forall d1, stateObjects d1 !! address o = Some o' -> revert_entry e d1 = Ok (setStateObject (g o') d1)) ->
  obj_eqv (destructed d (address o)) o (g o') ->
  step d (setStateObject o' (journal_append e d)).
Proof.
  intros W V Ha Hd Hok Hrev Hg. eapply step_entry with (e := e).
  - apply world_setObject; [by rewrite Ha | by apply world_journal].
  - apply (entries_append e d).
  - done.
  - done.
  - apply Hrev. cbn. by rewrite Ha, lookup_insert_eq.
  - split; try done. intros a. rewrite view_set, (oe_address _ _ _ Hg).
    destruct (decide (a = address o)) as [->|N].
    + rewrite V. by constructor.
    + rewrite view_set, Ha, decide_False by done. done.
Qed.

Lemma on_object_live a f d o : stateObjects d !! a = Some o -> deleted o = false ->
  on_object a f d = Ok (setStateObject (f o) d).
Proof.
  intros E D. unfold on_object, getStateObject, getDeletedStateObject. by rewrite E, D.
Qed.

(** A new object is empty. *)
Lemma new_obj_ok des a : obj_ok des a (newObject a emptyAccount).
Proof.
  split; try done. unfold code_of. cbn. by rewrite Z.eqb_refl.
Qed.

Lemma loaded_obj_ok d a o : world_ok d -> view d a = Some o -> obj_ok (destructed d a) a o.
Proof. intros W. apply W. Qed.

Lemma world_destruct d a : world_ok d -> world_ok (set_snapDestructs ({[a]} ∪ snapDestructs d) d).
Proof.
  intros W. split; [|apply W..]. intros b o V. destruct (wo_obj _ W b o V) as [? ? ? D]. split; try done.
  intros H1 H2. specialize (D H1 H2). unfold destructed in *. to_prop. cbn.
  apply bool_decide_eq_true. set_solver.
Qed.

Lemma eq_view_eqv d d' : (forall a, view d' a = view d a) ->
  forall a, option_Forall2 (obj_eqv (destructed d a)) (view d a) (view d' a).
Proof. intros H a. by rewrite H. Qed.

(** Undoing a replacement: the old object is back, and its mark is gone unless
    it had one before. *)
Lemma reset_undone d d2 n p pd : view d (address p) = Some p -> address n = address p ->
  (d2 = d /\ snap = None \/
   d2 = set_snapDestructs ({[address p]} ∪ snapDestructs d) d /\ pd = destructed d (address p) /\ is_Some snap) ->
  exists d0, revert_entry (resetObjectChange p pd) (setStateObject n (journal_append (resetObjectChange p pd) d2)) = Ok d0 /\
    eqv d d0.
Proof.
  intros V Ha H. cbn. eexists. split; [reflexivity|].
  assert (Hv : forall a, view (setStateObject p (setStateObject n d)) a = view d a).
  { intros a. rewrite !view_set, Ha. destruct (decide _) as [->|]; done. }
  destruct H as [[-> Hn]|(-> & -> & Hs')].
  - rewrite Hn, andb_false_r. split; try done. apply eq_view_eqv. exact Hv.
  - rewrite (bool_decide_eq_true_2 _ Hs'), andb_true_r.
    set (x := setStateObject p _). unfold destructed.
    destruct (decide (address p ∈ snapDestructs d)) as [Hin|Hin].
    + rewrite bool_decide_eq_true_2 by done. cbn [negb]. split; try done.
      * apply eq_view_eqv. exact Hv.
      * cbn. set_solver.
    + rewrite bool_decide_eq_false_2 by done. cbn [negb]. split; try done.
      * apply eq_view_eqv. exact Hv.
      * cbn. set_solver.
Qed.

(** [createObject]: the new object is in the map and undone by its entry. *)
Record created (a : Address) (d d' : stateDB) : Prop := {
  cr_step : step d d';
  cr_new : stateObjects d' !! a = Some (newObject a emptyAccount);
  cr_mark : is_Some (view d a) -> is_Some snap -> destructed d' a = true;
  cr_view b : b <> a -> view d' b = view d b;
  cr_destructed b : b <> a -> destructed d' b = destructed d b;
}.

Lemma created_new a d : world_ok d -> view d a = None ->
  created a d (setStateObject (newObject a emptyAccount) (journal_append (createObjectChange a) d)).
Proof.
  intros W V. split.
  - eapply step_entry with (e := createObjectChange a).
    + apply world_setObject; [apply new_obj_ok | by apply world_journal].
    + apply (entries_append _ d).
    + done.
    + done.
    + reflexivity.
    + split; try done. intros b. unfold view in *. cbn. destruct (decide (b = a)) as [->|N].
      * rewrite lookup_delete_eq. by destruct (stateObjects d !! a); simplify_eq.
      * by rewrite lookup_delete_ne, lookup_insert_ne.
  - cbn. by rewrite lookup_insert_eq.
  - rewrite V. by intros [? ?].
  - intros b N. rewrite view_set. cbn. by rewrite decide_False.
  - done.
Qed.

(** The object [p] of the account replaced by [n], and marked destructed where
    there is a snapshot. *)
Definition marked (a : Address) (d d2 : stateDB) (pd : bool) : Prop :=
  d2 = d /\ snap = None \/
  d2 = set_snapDestructs ({[a]} ∪ snapDestructs d) d /\ pd = destructed d a /\ is_Some snap.

Lemma reset_step a d d2 n p pd : world_ok d -> view d a = Some p -> marked a d d2 pd ->
  address n = a -> (forall des, obj_ok des a n) ->
  step d (setStateObject n (journal_append (resetObjectChange p pd) d2)).
Proof.
  intros W V H Hn Hok. assert (Hp : address p = a) by by apply (wo_filed _ W).
  assert (W2 : world_ok d2) by (destruct H as [[-> _]|[-> _]]; [done | by apply world_destruct]).
  destruct (reset_undone d d2 n p pd) as (d0 & R & E); [by rewrite Hp | by rewrite Hn | by rewrite Hp |].
  eapply step_entry; [| | | | exact R | exact E].
  - apply world_setObject; [rewrite Hn; apply Hok | by apply world_journal].
  - etrans; [apply (entries_append _ d2)|]. by destruct H as [[-> _]|[-> _]].
  - by destruct H as [[-> _]|[-> _]].
  - by destruct H as [[-> _]|[-> _]].
Qed.

Lemma created_reset a d d2 p pd : world_ok d -> view d a = Some p -> marked a d d2 pd ->
  created a d (setStateObject (newObject a emptyAccount) (journal_append (resetObjectChange p pd) d2)).
Proof.
  intros W V H. split.
  - apply (reset_step a); auto using new_obj_ok.
  - cbn. by rewrite lookup_insert_eq.
  - intros _ Hs. destruct H as [[_ Hn]|[-> _]]; [rewrite Hn in Hs; by destruct Hs|].
    unfold destructed. cbn. apply bool_decide_eq_true. set_solver.
  - intros b N. rewrite view_set. cbn. rewrite decide_False by done. by destruct H as [[-> _]|[-> _]].
  - intros b N. destruct H as [[-> _]|[-> _]]; [done|]. unfold destructed. cbn.
    apply bool_decide_ext. rewrite elem_of_union, elem_of_singleton. tauto.
Qed.

Lemma created_loaded a d d1 d' : world_ok d -> loaded d d1 -> created a d1 d' -> created a d d'.
Proof.
  intros W L [S ? M V D]. pose proof (step_loaded d d1 W L) as S1. destruct L as [LV (m & ->)].
  split; [by eapply step_trans | done | by rewrite <- (LV a) | | done].
  intros b N. by rewrite V, LV.
Qed.

Lemma createObject_spec a d : world_ok d -> exists d',
  createObject a d = (newObject a emptyAccount, live (view d a), d') /\ created a d d'.
Proof.
  intros W. unfold createObject. destruct (getDeleted_spec a d) as (d1 & -> & L & _).
  pose proof (st_world _ _ (step_loaded d d1 W L)) as W1. pose proof (ld_view _ _ L a) as V1.
  destruct (view d a) as [p|].
  - destruct snap eqn:Es; (eexists; split; [reflexivity|]; eapply created_loaded; [done..|]);
      apply created_reset; try done; [right | left]; by eauto.
  - eexists. split; [done|]. eapply created_loaded; [done..|]. by apply created_new.
Qed.

Lemma view_in d a o : stateObjects d !! a = Some o -> view d a = Some o.
Proof. intros E. unfold view. by rewrite E. Qed.

Lemma live_inv v o : live v = Some o -> v = Some o /\ deleted o = false.
Proof. destruct v as [o'|]; [|done]. cbn. destruct (deleted o') eqn:E; intros; by simplify_eq. Qed.

Lemma GetOrNew_spec a d : world_ok d -> exists o d',
  GetOrNewStateObject a d = (o, d') /\ step d d' /\ stateObjects d' !! a = Some o /\ deleted o = false /\
  ((live (view d a) = Some o /\ loaded d d') \/
   (live (view d a) = None /\ o = newObject a emptyAccount /\ created a d d')).
Proof.
  intros W. unfold GetOrNewStateObject. destruct (getStateObject_spec a d) as (d1 & -> & L & S).
  pose proof (step_loaded d d1 W L) as S1. destruct (live (view d a)) as [o|] eqn:E.
  - destruct (live_inv _ _ E) as [V D]. exists o, d1. eauto 8.
  - destruct (createObject_spec a d1 (st_world _ _ S1)) as (d2 & -> & Cr).
    pose proof (created_loaded a d d1 d2 W L Cr) as Cr'.
    exists (newObject a emptyAccount), d2. split; [done|]. split; [apply Cr'|]. split; [apply Cr'|]. eauto.
Qed.

(** *** The operations on one account *)

(** Filling a cache does not change what an object answers. *)
Lemma obj_eqv_cached_code o des : obj_eqv des o (snd (so_Code o)).
Proof.
  unfold so_Code. destruct (code o) as [c|] eqn:E; [by destruct o|].
  destruct (codeHash o =? emptyCodeHash) eqn:Eh; [by destruct o|]. split; try done.
  unfold code_of. cbn. rewrite E, Eh. by destruct (ContractCode _ _).
Qed.

Lemma obj_eqv_cached_slot o des k : obj_eqv des o (snd (so_GetState des o k)).
Proof.
  unfold so_GetState. destruct (dirtyStorage o !! k) eqn:Ed; [by destruct o|].
  unfold so_GetCommittedState. destruct (pendingStorage o !! k) eqn:Ep; [by destruct o|].
  destruct (originStorage o !! k) eqn:Eo; [by destruct o|].
  assert (Hc : forall v, slot_of des (address o) (root o) k = v ->
    obj_eqv des o (with_origin (<[k := v]> (originStorage o)) o)).
  { intros v Hv. assert (Hcm : forall k', committed_of des (with_origin (<[k := v]> (originStorage o)) o) k' =
      committed_of des o k').
    { intros k'. unfold committed_of. cbn. destruct (decide (k' = k)) as [->|N].
      - by rewrite lookup_insert_eq, Ep, Eo.
      - by rewrite lookup_insert_ne. }
    split; try done. intros k'. unfold state_of. cbn. case_match; [done | apply Hcm]. }
  unfold slot_of in Hc. destruct snap as [sn|].
  - destruct des; [done|]. destruct (snap_Storage sn (address o) k); [by apply Hc|].
    destruct (trie_Storage (address o) (root o) k); [by apply Hc | done].
  - destruct (trie_Storage (address o) (root o) k); [by apply Hc | done].
Qed.

Section account.
Context (d : stateDB) (a : Address) (o : stateObject).
Context (W : world_ok d) (Ho : stateObjects d !! a = Some o) (Hl : deleted o = false).

Lemma object_at : address o = a /\ view d (address o) = Some o /\
  obj_ok (destructed d (address o)) (address o) o.
Proof.
  pose proof (view_in _ _ _ Ho) as V. pose proof (wo_filed _ W _ _ V) as Ha. rewrite Ha.
  split; [done|]. split; [done|]. by apply W.
Qed.

Lemma step_SetBalance v : step d (so_SetBalance v o d).
Proof.
  destruct object_at as (Ha & V & []). unfold so_SetBalance.
  apply (step_object d _ o _ (with_balance (balance o))); try done.
  intros d1 H1. by apply on_object_live.
Qed.

Lemma step_touch : step d (touch o d).
Proof.
  destruct object_at as (Ha & V & O). unfold touch.
  assert (S1 : step d (journal_append (touchChange (address o)) d)).
  { eapply step_entry with (e := touchChange (address o)); [by apply world_journal| | | |reflexivity|];
      [apply entries_append | done | done | apply eqv_journal]. }
  destruct (address o =? ripemd); [|done]. eapply step_trans; [exact S1|].
  apply step_eqv; [apply S1 | done | apply eqv_journal].
Qed.

Lemma step_SetNonce n : is_u64 n ->
  step d (setStateObject (with_nonce n o) (journal_append (nonceChange (address o) (nonce o)) d)).
Proof.
  intros Hn. destruct object_at as (Ha & V & []).
  apply (step_object d _ o _ (with_nonce (nonce o))); try done.
  intros d1 H1. by apply on_object_live.
Qed.

Lemma step_SetCode c : small c ->
  step d (let '(prevcode, o) := so_Code o in
          setStateObject (setCode (keccak256 c) (Some c) o)
            (journal_append (codeChange (address o) prevcode (codeHash o)) d)).
Proof.
  intros Hc. destruct object_at as (Ha & V & [? ? Hk ?]). destruct (so_Code o) as [prev o1] eqn:E.
  pose proof (so_Code_fst o) as E1. pose proof (obj_eqv_cached_code o (destructed d (address o))) as Q.
  rewrite E in E1, Q. cbn in E1, Q. destruct Q as [Qa Qn Qb Qh Qs Qd Qc Qm Qt]. rewrite Qa, Qh.
  apply (step_object d _ o _ (setCode (codeHash o) prev)); try done.
  - cbn. by rewrite Qd.
  - split; cbn; rewrite ?Qn, ?Qd, ?Qa; try done.
  - intros d1 H1. apply on_object_live; [done|]. cbn. by rewrite Qd.
  - split; try done. rewrite E1. unfold code_of. cbn. rewrite Qa.
    destruct (code o); [done|]. destruct (codeHash o =? emptyCodeHash) eqn:Eh; [done|].
    by destruct (ContractCode _ _).
Qed.

Lemma step_SetState k v :
  step d (let '(prev, o) := so_GetState (destructed d a) o k in
          if prev =? v then setStateObject o d
          else setStateObject (setState k v o) (journal_append (storageChange (address o) k prev) d)).
Proof.
  destruct object_at as (Ha & V & [? ? Hk ?]).
  pose proof (so_state_fst (destructed d a) o k) as E1.
  pose proof (obj_eqv_cached_slot o (destructed d a) k) as Q.
  destruct (so_GetState (destructed d a) o k) as [prev o1]. cbn in E1, Q. subst prev. rewrite <- Ha in *.
  pose proof Q as [Qa Qn Qb Qh Qs Qd Qc Qm Qt]. zcase.
  - apply step_eqv; [done | done|]. by apply eqv_same_object with o.
  - rewrite Qa.
    apply (step_object d _ o _ (setState k (state_of (destructed d (address o)) o k))); try done.
    + cbn. by rewrite Qd.
    + split; cbn; rewrite ?Qn, ?Qd, ?Qa, ?Qh; try done.
      replace (code_of (setState k v o1)) with (code_of o1) by done. by rewrite Qc.
    + intros d1 H1. apply on_object_live; [done|]. cbn. by rewrite Qd.
    + split; try done. intros k'. rewrite !state_of_set. destruct (decide (k' = k)) as [->|]; auto.
Qed.

Lemma step_suicide :
  step d (setStateObject (with_balance 0 (with_suicided true o))
            (journal_append (suicideChange a (suicided o) (balance o)) d)).
Proof.
  destruct object_at as (Ha & V & []).
  apply (step_object d _ o _ (fun o' => with_balance (balance o) (with_suicided (suicided o) o'))); try done.
  intros d1 H1. cbn. unfold getStateObject, getDeletedStateObject.
  rewrite <- Ha, H1. cbn. by rewrite Hl.
Qed.
End account.

(** *** The operations of the interface *)

Ltac with_account a :=
  match goal with W : world_ok ?d |- _ =>
    destruct (GetOrNew_spec a d W) as (o & d1 & -> & S1 & Ho & Hl & _);
    pose proof (st_world _ _ S1) as W1; eapply step_trans; [exact S1|]
  end.

Lemma SetBalance_step a v d : world_ok d -> step d (SetBalance a v d).
Proof. intros W. unfold SetBalance. with_account a. by eapply step_SetBalance. Qed.

Lemma AddBalance_step a v d : world_ok d -> step d (AddBalance a v d).
Proof.
  intros W. unfold AddBalance. with_account a. zcase; [|by eapply step_SetBalance].
  destruct (empty o); [by eapply step_touch | by apply step_refl].
Qed.

Lemma SubBalance_step a v d : world_ok d -> step d (SubBalance a v d).
Proof.
  intros W. unfold SubBalance. with_account a. zcase; [by apply step_refl | by eapply step_SetBalance].
Qed.

Lemma SetNonce_step a n d : is_u64 n -> world_ok d -> step d (SetNonce a n d).
Proof. intros Hn W. unfold SetNonce. with_account a. by eapply step_SetNonce. Qed.

Lemma SetCode_step a c d : small c -> world_ok d -> step d (SetCode a c d).
Proof. intros Hc W. unfold SetCode. with_account a. by eapply step_SetCode. Qed.

Lemma SetState_step a k v d : world_ok d -> step d (SetState a k v d).
Proof. intros W. unfold SetState. with_account a. by eapply step_SetState. Qed.

Lemma Suicide_step a d : world_ok d -> step d (snd (Suicide a d)).
Proof.
  intros W. unfold Suicide. destruct (getStateObject_spec a d) as (d1 & -> & L & S).
  pose proof (step_loaded d d1 W L) as S1. destruct (live (view d a)) as [o|] eqn:E; [|exact S1].
  destruct (live_inv _ _ E) as [V D]. eapply step_trans; [exact S1|]. cbn [snd].
  apply step_suicide; [apply S1 | by apply S | done].
Qed.

(** The object [CreateAccount] leaves, whose balance is not journaled: the entry
    of the creation undoes it too. *)
Lemma CreateAccount_step a d : world_ok d -> step d (CreateAccount a d).
Proof.
  intros W. unfold CreateAccount. destruct (createObject_spec a d W) as (d1 & E1 & Cr). rewrite E1.
  pose proof (cr_step _ _ _ Cr) as S1. destruct (live (view d a)) as [p|] eqn:El; [|exact S1].
  destruct (live_inv _ _ El) as [V D].
  unfold createObject in E1. destruct (getDeleted_spec a d) as (d2 & E2 & L & _). rewrite E2, V in E1.
  pose proof (step_loaded d d2 W L) as S2. eapply step_trans; [exact S2|].
  rewrite <- (ld_view _ _ L a) in V.
  assert (E3 : exists d3 pd, marked a d2 d3 pd /\
    d1 = setStateObject (newObject a emptyAccount) (journal_append (resetObjectChange p pd) d3)).
  { unfold marked. destruct snap; simplify_eq; eexists _, _; (split; [|done]); [right | left]; eauto. }
  destruct E3 as (d3 & pd & H3 & ->).
  assert (E4 : forall x y, setStateObject (with_balance x (newObject a emptyAccount))
                 (setStateObject (newObject a emptyAccount) y) =
               setStateObject (with_balance x (newObject a emptyAccount)) y).
  { intros x y. unfold setStateObject. cbn. by rewrite insert_insert_eq. }
  rewrite E4. apply (reset_step a); try done; [apply S2|].
  intros des. destruct (new_obj_ok des a). by split.
Qed.

(** *** Counters, logs and preimages *)

Lemma refund_step d g : is_u64 g -> world_ok d ->
  step d (set_refund g (journal_append (refundChange (refund d)) d)).
Proof.
  intros Hg [? ? ? ?]. eapply step_entry; [by split | apply (entries_append _ d) | done | done | reflexivity |].
  by split.
Qed.

Lemma AddRefund_step g d : world_ok d -> step d (AddRefund g d).
Proof. intros W. apply refund_step; auto with entropy. Qed.

Lemma SubRefund_step g d d' : world_ok d -> SubRefund g d = Ok d' -> step d d'.
Proof.
  intros W. unfold SubRefund. zcase; [done|]. intros [= <-]. apply refund_step; auto with entropy.
Qed.

Lemma AddLog_step l d : world_ok d -> step d (AddLog l d).
Proof.
  intros W. pose proof (wo_logSize _ W) as Hs. unfold is_u64 in Hs.
  set (x := mkLog l (thash d) (u64 (txIndex d)) (logSize d)).
  set (old := default [] (logs d !! thash d)).
  assert (Hl : sub64 (add64 (logSize d) 1) 1 = logSize d).
  { destruct (decide (logSize d = 2 ^ 64 - 1)) as [->|]; [done|].
    rewrite add64_small by lia. rewrite sub64_small by lia. lia. }
  assert (Hn : (zlen (old ++ [x]) =? 1) = bool_decide (old = [])).
  { rewrite zlen_app. destruct old; [done|]. rewrite zlen_cons, (zlen_cons x). pose proof (zlen_nonneg old).
    rewrite bool_decide_eq_false_2 by done. change (zlen (@nil stateLog)) with 0. lia. }
  assert (R : exists d0, revert_entry (addLogChange (thash d)) (AddLog l d) = Ok d0 /\ eqv d d0).
  { change (AddLog l d) with (set_logSize (add64 (logSize d) 1)
      (set_logs (<[thash d := old ++ [x]]> (logs d)) (journal_append (addLogChange (thash d)) d))).
    unfold revert_entry. cbn [logs set_logSize set_logs]. rewrite lookup_insert_eq.
    change (default [] (Some (old ++ [x]))) with (old ++ [x]). rewrite Hn. destruct (bool_decide (old = [])) eqn:E; to_prop.
    - eexists. split; [reflexivity|]. split; try done. intros h. cbn.
      destruct (decide (h = thash d)) as [->|].
      + rewrite lookup_delete_eq. fold old. by rewrite E.
      + by rewrite lookup_delete_ne, lookup_insert_ne.
    - rewrite slice_Ok by (rewrite ?zlen_app; pose proof (zlen_nonneg old); change (zlen [x]) with 1; lia).
      cbn [mbind res_bind]. eexists. split; [reflexivity|]. split; try done. intros h. cbn.
      destruct (decide (h = thash d)) as [->|]; [|by rewrite !lookup_insert_ne].
      rewrite lookup_insert_eq. cbn. fold old. rewrite zlen_app. change (zlen [x]) with 1.
      change (Z.to_nat 0) with 0%nat. rewrite drop_0. replace (Z.to_nat _) with (length old) by (unfold zlen; lia). by rewrite take_app_length. }
  destruct R as (d0 & R & E). eapply step_entry; [| | | | exact R | exact E]; try done.
  destruct W. split; try done. apply add64_range.
Qed.

Lemma AddPreimage_step h b d : world_ok d -> step d (AddPreimage h b d).
Proof.
  intros W. unfold AddPreimage. destruct (preimages d !! h) eqn:E; [by apply step_refl|].
  eapply step_entry; [| apply (entries_append _ d) | done | done | reflexivity |].
  - by destruct W; split.
  - split; try done. cbn. by rewrite delete_insert_id.
Qed.

(** *** The access list *)

Lemma AddAddress_step a d : world_ok d -> step d (AddAddressToAccessList a d).
Proof.
  intros W. unfold AddAddressToAccessList, AddAddress.
  destruct (addresses (accessList d) !! a) eqn:E; [by apply step_eqv; destruct d|].
  eapply step_entry; [| apply (entries_append (accessListAddAccountChange a) d) | done | done | reflexivity |].
  - destruct W as [? ? ? A]. split; try done. intros b i. cbn.
    destruct (decide (b = a)) as [->|].
    + rewrite lookup_insert_eq. intros [= <-]. by left.
    + rewrite lookup_insert_ne by done. apply A.
  - split; try done. cbn. unfold DeleteAddress. cbn. rewrite delete_insert_id by done.
    by destruct (accessList d).
Qed.

(** The list after a slot was added, and the deletion that undoes it. *)
Lemma AddSlot_spec al a k : al_ok al -> exists am sm al',
  AddSlot al a k = Ok (am, sm, al') /\ al_ok al' /\
  match addresses al !! a with
  | None => am = true /\ sm = true /\
      al' = mkAccessList (<[a := zlen (slots al)]> (addresses al)) (slots al ++ [{[k]}])
  | Some _ => am = false /\ if sm then DeleteSlot al' a k = Ok al else al' = al
  end.
Proof.
  intros Hal. unfold AddSlot.
  assert (Hok : al_ok (mkAccessList (<[a := zlen (slots al)]> (addresses al)) (slots al ++ [{[k]}]))).
  { intros b i. cbn. destruct (decide (b = a)) as [->|N].
    - rewrite lookup_insert_eq. intros [= <-]. right. split; [apply zlen_nonneg|]. exists {[k]}.
      split; [|set_solver]. rewrite lookup_app_r by (unfold zlen; lia).
      replace (Z.to_nat (zlen (slots al)) - length (slots al))%nat with 0%nat by (unfold zlen; lia). done.
    - rewrite lookup_insert_ne by done. intros Hb. destruct (Hal b i Hb) as [|(? & s & Hs & ?)]; [by left|].
      right. split; [done|]. exists s. split; [|done]. by apply lookup_app_l_Some. }
  destruct (addresses al !! a) as [i|] eqn:Ea.
  2: { eexists _, _, _. split; [done|]. split; [exact Hok|]. done. }
  zcase.
  - subst i. eexists _, _, _. split; [done|]. split; [exact Hok|]. split; [done|].
    unfold DeleteSlot. cbn. rewrite lookup_insert_eq. unfold nth_or_panic.
    rewrite bool_decide_eq_true_2 by apply zlen_nonneg.
    replace (Z.to_nat (zlen (slots al))) with (length (slots al)) by (unfold zlen; lia).
    rewrite list_lookup_middle by done. cbn [or_panic mbind res_bind].
    rewrite bool_decide_eq_true_2 by set_solver.
    rewrite slice_Ok; [|pose proof (zlen_nonneg (slots al)); lia | rewrite zlen_app; pose proof (zlen_nonneg [({[k]} : gset Z)]); lia].
    cbn [mbind res_bind]. change (Z.to_nat 0) with 0%nat. rewrite drop_0.
    replace (Z.to_nat _) with (length (slots al)) by (unfold zlen; lia). rewrite take_app_length.
    rewrite insert_insert_eq, insert_id by done. by destruct al.
  - destruct (Hal a i Ea) as [|(Hi & s & Hs & Hne)]; [done|].
    unfold nth_or_panic. rewrite bool_decide_eq_true_2 by done. rewrite Hs. cbn [or_panic mbind res_bind].
    destruct (bool_decide (k ∈ s)) eqn:Ek; to_prop; (eexists _, _, _; split; [done|]; split; [|split; [done|]]).
    + done.
    + done.
    + intros b j. cbn. intros Hb. destruct (Hal b j Hb) as [|(? & s' & Hs' & ?)]; [by left|].
      right. split; [done|]. destruct (decide (Z.to_nat j = Z.to_nat i)) as [E|N].
      * rewrite E. exists ({[k]} ∪ s). split; [|set_solver].
        apply list_lookup_insert_eq. by eapply lookup_lt_Some.
      * exists s'. by rewrite list_lookup_insert_ne.
    + unfold DeleteSlot. cbn. rewrite Ea. unfold nth_or_panic. rewrite bool_decide_eq_true_2 by done.
      rewrite list_lookup_insert_eq by (by eapply lookup_lt_Some). cbn [or_panic mbind res_bind].
      replace (({[k]} ∪ s) ∖ {[k]}) with s by set_solver.
      rewrite bool_decide_eq_false_2 by done. rewrite list_insert_insert_eq, list_insert_id by done.
      by destruct al.
Qed.

Lemma AddSlot_step a k d : world_ok d -> exists d', AddSlotToAccessList a k d = Ok d' /\ step d d'.
Proof.
  assert (Hp : forall d, world_ok d -> is_Some (addresses (accessList d) !! a) ->
    exists d', AddSlotToAccessList a k d = Ok d' /\ step d d').
  { intros x W [i Hi]. destruct (AddSlot_spec (accessList x) a k (wo_access _ W)) as (am & sm & al & E & Hok & H).
    rewrite Hi in H. destruct H as [-> H]. unfold AddSlotToAccessList. rewrite E. cbn [mbind res_bind].
    eexists. split; [done|]. destruct sm.
    - eapply step_entry; [| apply (entries_append _ (set_accessList al x)) | done | done | |].
      + by destruct W; split.
      + cbn. rewrite H. reflexivity.
      + by split.
    - subst al. by apply step_eqv; destruct x. }
  intros W. destruct (addresses (accessList d) !! a) as [i|] eqn:Ea; [by apply Hp|].
  pose proof (AddAddress_step a d W) as S1.
  destruct (Hp (AddAddressToAccessList a d)) as (d' & E & S2); [apply S1 | |].
  { unfold AddAddressToAccessList, AddAddress. rewrite Ea. cbn. by rewrite lookup_insert_eq. }
  exists d'. split; [|by eapply step_trans]. rewrite <- E.
  unfold AddAddressToAccessList, AddAddress, AddSlotToAccessList, AddSlot. rewrite Ea. cbn.
  rewrite lookup_insert_eq. cbn. by rewrite insert_insert_eq.
Qed.
End spec.
