(* ===== verification/StateRevert.v ===== *)
(** * The state database as an implementation of the machine's interface

    [sort.Search], the stack of revisions, the theorem that
    [RevertToSnapshot] restores the state a [Snapshot] was taken in, and the
    instance of [StateDBSpec]. *)

From stdpp Require Import sorting.
From S2P Require Import Prelude Uint256 Config Common EvmAnalysis EvmStack EvmMemory Rlp EvmState.
From S2P Require Import EvmSpec StateDB StateSpec.

Import State.

Local Open Scope Z_scope.

(** ** [sort.Search] *)

Section search.
Context (f : Z -> bool) (n : Z).
Context (mono : forall i j, 0 <= i <= j -> j < n -> f i = true -> f j = true).

Lemma search_spec fuel i j : 0 <= i <= j -> j <= n -> j - i < Z.of_nat fuel ->
  (forall k, 0 <= k < i -> f k = false) -> (forall k, j <= k < n -> f k = true) ->
  exists r, search fuel f i j = Ok r /\ i <= r <= j /\
    (forall k, 0 <= k < r -> f k = false) /\ (forall k, r <= k < n -> f k = true).
Proof.
  revert i j. induction fuel as [|fuel IH]; intros i j Hij Hj Hf Hl Hr; [lia|].
  cbn [search]. zcase.
  - assert (Hh : i <= (i + j) / 2 < j) by dlia. destruct (f ((i + j) / 2)) eqn:E; cbn [negb].
    + destruct (IH i ((i + j) / 2)) as (r & -> & ? & ? & ?); try lia; try done.
      * intros k Hk. apply (mono ((i + j) / 2)); try lia. done.
      * exists r. split; [done|]. split; [lia|]. done.
    + destruct (IH ((i + j) / 2 + 1) j) as (r & -> & ? & ? & ?); try lia; try done.
      * intros k Hk. destruct (f k) eqn:Ek; [|done].
        rewrite (mono k ((i + j) / 2)) in E; [done | lia | lia | done].
      * exists r. split; [done|]. split; [lia|]. done.
  - exists i. split; [done|]. split; [lia|]. split; [done|]. intros k Hk. apply Hr. lia.
Qed.

Lemma Search_spec : 0 <= n -> exists r, Search n f = Ok r /\ 0 <= r <= n /\
  (forall k, 0 <= k < r -> f k = false) /\ (forall k, r <= k < n -> f k = true).
Proof. intros Hn. apply search_spec; lia. Qed.
End search.

(** ** The stack of revisions *)

(** Identifiers grow strictly, below the next one; positions in the journal do
    not decrease, up to its length. *)
Definition revs_ok (d : stateDB) : Prop :=
  StronglySorted (fun x y => id x < id y /\ journalIndex x <= journalIndex y) (validRevisions d) /\
  Forall (fun x => id x < nextRevisionId d /\ 0 <= journalIndex x <= zlen (entries (journal d)))
    (validRevisions d).

Lemma revs_ok_grow d d' l :
  validRevisions d' = validRevisions d -> nextRevisionId d <= nextRevisionId d' ->
  entries (journal d') = entries (journal d) ++ l -> revs_ok d -> revs_ok d'.
Proof.
  intros Hv Hn He [Hs Hf]. unfold revs_ok. rewrite Hv, He. split; [done|].
  eapply Forall_impl; [exact Hf|]. intros x [? ?]. rewrite zlen_app. pose proof (zlen_nonneg l). lia.
Qed.

Lemma StronglySorted_snoc {A} (R : A -> A -> Prop) l x :
  StronglySorted R l -> Forall (fun y => R y x) l -> StronglySorted R (l ++ [x]).
Proof.
  intros Hs Hf. apply StronglySorted_app. split; [|split; [done | by repeat constructor]].
  intros y z Hy Hz. apply list_elem_of_singleton in Hz as ->. by eapply Forall_forall in Hf.
Qed.

Lemma StronglySorted_lookup {A} (R : A -> A -> Prop) l i j x y : StronglySorted R l ->
  (i < j)%nat -> l !! i = Some x -> l !! j = Some y -> R x y.
Proof.
  intros Hs. revert i j. induction Hs as [|z l Hs IH Hf]; intros i j Hij Hi Hj; [done|].
  destruct j as [|j]; [lia|]. destruct i as [|i]; cbn in *.
  - simplify_eq. by eapply Forall_lookup_1 in Hf.
  - eapply IH; [|done..]. lia.
Qed.

Lemma StronglySorted_impl {A} (R R' : A -> A -> Prop) l :
  (forall x y, R x y -> R' x y) -> StronglySorted R l -> StronglySorted R' l.
Proof.
  intros H. induction 1 as [|x l Hs IH Hf]; constructor; [done|]. eapply Forall_impl; [exact Hf | auto].
Qed.

Lemma Snapshot_spec `{C : Crypto} `{B : Backend} d i d' : Snapshot d = (i, d') -> revs_ok d ->
  i = nextRevisionId d /\ eqv d d' /\ journal d' = journal d /\ nextRevisionId d' = i + 1 /\
  validRevisions d' = validRevisions d ++ [mkRevision i (zlen (entries (journal d)))] /\ revs_ok d'.
Proof.
  unfold Snapshot. intros [= <- <-] [Hs Hf]. split; [done|]. split; [by split|]. split; [done|].
  split; [done|]. split; [done|]. unfold revs_ok. cbn. split.
  - apply StronglySorted_snoc; [done|]. eapply Forall_impl; [exact Hf|]. intros x [? ?]. cbn. lia.
  - apply Forall_app_2.
    + eapply Forall_impl; [exact Hf|]. cbn. lia.
    + repeat constructor; cbn; [lia | apply zlen_nonneg | lia].
Qed.

(** The search finds the revision after those of the state it was taken in. *)
Lemma find_revision l r k : StronglySorted (fun x y => id x < id y) (l ++ r :: k) ->
  Search (zlen (l ++ r :: k)) (revisionFrom (l ++ r :: k) (id r)) = Ok (zlen l).
Proof.
  intros Hs. set (m := l ++ r :: k) in *.
  assert (Hlt : forall i j x y, (i < j)%nat -> m !! i = Some x -> m !! j = Some y -> id x < id y).
  { intros i j x y Hij Hi Hj. exact (StronglySorted_lookup (fun x y => id x < id y) m i j x y Hs Hij Hi Hj). }
  assert (Hr : m !! length l = Some r) by by apply list_lookup_middle.
  assert (Hat : forall i x, m !! Z.to_nat i = Some x -> revisionFrom m (id r) i = (id r <=? id x))
    by (intros i x Hx; unfold revisionFrom; by rewrite Hx).
  assert (Hin : forall i, 0 <= i < zlen m -> exists x, m !! Z.to_nat i = Some x).
  { intros i Hi. destruct (nth_or_panic_Ok m i Hi) as (x & _ & Hx). eauto. }
  destruct (Search_spec (revisionFrom m (id r)) (zlen m)) as (x & -> & Hx & Hlo & Hhi).
  - intros i j Hij Hj Hi. destruct (Hin i) as [y Hy]; [lia|]. destruct (Hin j) as [z Hz]; [lia|].
    rewrite (Hat _ _ Hy) in Hi. rewrite (Hat _ _ Hz). destruct (decide (i = j)) as [->|]; [congruence|].
    pose proof (Hlt (Z.to_nat i) (Z.to_nat j) y z ltac:(lia) Hy Hz). to_prop. lia.
  - apply zlen_nonneg.
  - f_equal. assert (Hl : zlen l < zlen m) by (unfold m; rewrite zlen_app, zlen_cons; pose proof (zlen_nonneg k); lia).
    pose proof (zlen_nonneg l) as H0. replace (length l) with (Z.to_nat (zlen l)) in Hr by (unfold zlen; lia).
    destruct (Z.lt_trichotomy x (zlen l)) as [C|[C|C]]; [|done|].
    + destruct (Hin x) as [y Hy]; [lia|]. specialize (Hhi x ltac:(lia)). rewrite (Hat _ _ Hy) in Hhi.
      pose proof (Hlt (Z.to_nat x) (Z.to_nat (zlen l)) y r ltac:(lia) Hy Hr). to_prop. lia.
    + specialize (Hlo (zlen l) ltac:(lia)). rewrite (Hat _ _ Hr) in Hlo. to_prop. lia.
Qed.

(** ** Going back *)

Section revert.
Context `{C : Crypto} `{B : Backend}.

(** From a state that extends the snapshot, [RevertToSnapshot] leads back to
    the state, its journal and its revisions. *)
Lemma RevertToSnapshot_spec d i d1 d2 : revs_ok d -> Snapshot d = (i, d1) -> extends d1 d2 ->
  revs_ok d2 -> exists d3, RevertToSnapshot i d2 = Ok d3 /\ eqv d d3 /\
    entries (journal d3) = entries (journal d) /\ validRevisions d3 = validRevisions d /\
    nextRevisionId d <= nextRevisionId d3.
Proof.
  intros Hd Hs [(l & d0 & He & Hu & Hq) (r & Hv & _) Hn] [Hs2 _].
  destruct (Snapshot_spec d i d1 Hs Hd) as (Hi & Hq1 & Hj & Hn1 & Hv1 & _).
  rewrite Hj in He. rewrite Hv1, <- app_assoc in Hv. cbn in Hv.
  set (rv := mkRevision i (zlen (entries (journal d)))) in Hv.
  unfold RevertToSnapshot. rewrite Hv. change i with (id rv).
  rewrite find_revision by (rewrite <- Hv; eapply StronglySorted_impl; [|exact Hs2]; intros ? ? [? _]; done).
  cbn [mbind res_bind]. pose proof (zlen_nonneg (validRevisions d)) as H0.
  assert (Hlen : zlen (validRevisions d) < zlen (validRevisions d ++ rv :: r))
    by (rewrite zlen_app, zlen_cons; pose proof (zlen_nonneg r); lia).
  zcase; [lia|]. unfold nth_or_panic. rewrite bool_decide_eq_true_2 by done.
  replace (Z.to_nat (zlen (validRevisions d))) with (length (validRevisions d)) by (unfold zlen; lia).
  rewrite list_lookup_middle by done. cbn [or_panic mbind res_bind]. rewrite Z.eqb_refl. cbn [negb].
  unfold journal_revert. cbn [journalIndex rv]. rewrite He.
  replace (Z.to_nat (zlen (entries (journal d)))) with (length (entries (journal d))) by (unfold zlen; lia).
  rewrite drop_app_length, Hu. cbn [mbind res_bind].
  rewrite slice_Ok; [|pose proof (zlen_nonneg (entries (journal d))); lia
                     |rewrite zlen_app; pose proof (zlen_nonneg l); lia].
  cbn [mbind res_bind]. destruct (revert_entries_history _ _ _ Hu) as (_ & Hv0 & Hn0).
  cbn [validRevisions set_journal]. rewrite Hv0, Hv. rewrite slice_Ok by lia.
  cbn [mbind res_bind]. eexists. split; [reflexivity|]. cbn [journal entries set_validRevisions set_journal validRevisions].
  change (Z.to_nat 0) with 0%nat. rewrite !drop_0, !Z.sub_0_r.
  replace (Z.to_nat (zlen (entries (journal d)))) with (length (entries (journal d))) by (unfold zlen; lia).
  replace (Z.to_nat (zlen (validRevisions d))) with (length (validRevisions d)) by (unfold zlen; lia).
  rewrite !take_app_length. split; [|split; [done|]; split; [done|]; cbn; lia].
  etrans; [exact Hq1|]. etrans; [exact Hq|]. by split.
Qed.
End revert.

(** ** The interface

    Within the invariant of the access list its methods do not panic, so the
    panic branch of the two that could is never taken. *)
#[export] Instance stateDB_StateDB `{C : Crypto} `{B : Backend} : StateDB stateDB := {|
  EvmState.CreateAccount := State.CreateAccount;
  EvmState.SubBalance := State.SubBalance;
  EvmState.AddBalance := State.AddBalance;
  EvmState.GetBalance := State.GetBalance;
  EvmState.GetNonce := State.GetNonce;
  EvmState.SetNonce := State.SetNonce;
  EvmState.GetCodeHash := State.GetCodeHash;
  EvmState.GetCode := State.GetCode;
  EvmState.SetCode := State.SetCode;
  EvmState.GetCodeSize := State.GetCodeSize;
  EvmState.AddRefund := State.AddRefund;
  EvmState.SubRefund := State.SubRefund;
  EvmState.GetRefund := State.GetRefund;
  EvmState.GetCommittedState := State.GetCommittedState;
  EvmState.GetState := State.GetState;
  EvmState.SetState := State.SetState;
  EvmState.Suicide := State.Suicide;
  EvmState.HasSuicided := State.HasSuicided;
  EvmState.Exist := State.Exist;
  EvmState.Empty := State.Empty;
  EvmState.AddressInAccessList := State.AddressInAccessList;
  EvmState.SlotInAccessList d a k :=
    match State.SlotInAccessList d a k with Ok r => r | _ => (false, false) end;
  EvmState.AddAddressToAccessList := State.AddAddressToAccessList;
  EvmState.AddSlotToAccessList a k d :=
    match State.AddSlotToAccessList a k d with Ok d' => d' | _ => d end;
  EvmState.RevertToSnapshot := State.RevertToSnapshot;
  EvmState.Snapshot := State.Snapshot;
  EvmState.AddLog := State.AddLog;
  EvmState.AddPreimage := State.AddPreimage;
  EvmState.LogsOf d h := map (fun l => (log l, Index l)) (default [] (State.logs d !! h));
  EvmState.PreimageOf d h := State.preimages d !! h;
|}.

Section instance.
Context `{C : Crypto} `{B : Backend} `{BS : !BackendSpec}.

Definition state_ok (d : stateDB) : Prop := world_ok d /\ revs_ok d.

Lemma op_step d o d' : world_ok d -> op_wf o -> apply_op (DB := stateDB) o d = Ok d' -> step d d'.
Proof.
  intros W Ho E. destruct o; cbn in E, Ho; simplify_eq.
  - by apply CreateAccount_step.
  - by apply SubBalance_step.
  - by apply AddBalance_step.
  - by apply SetNonce_step.
  - by apply SetCode_step.
  - by apply AddRefund_step.
  - by eapply SubRefund_step.
  - by apply SetState_step.
  - by apply Suicide_step.
  - by apply AddAddress_step.
  - destruct (AddSlot_step a k d W) as (d1 & -> & S). done.
  - by apply AddLog_step.
  - by apply AddPreimage_step.
Qed.

Lemma step_ok d d' : state_ok d -> step d d' -> state_ok d'.
Proof.
  intros [W R] [E W' V N]. split; [done|]. destruct (ex_undo _ _ E) as (l & _ & He & _).
  eapply revs_ok_grow; [done | by rewrite N | done | done].
Qed.

(** Every state the machine can reach extends the one it started in. *)
Lemma reach_extends ro d d' : reach ro d d' -> state_ok d -> extends d d' /\ state_ok d'.
Proof.
  induction 1 as [d|d d1 o d2 _ IH Ho _ E|d d1 i d2 _ IH E|d d1 i d2 d3 d4 _ IH Es _ IH2 E]; intros Hd.
  - split; [apply extends_refl | done].
  - destruct (IH Hd) as [X1 S1]. pose proof (op_step d1 o d2 (proj1 S1) Ho E) as S.
    split; [|by eapply step_ok]. eapply extends_trans; [apply wo_filed, S1 | done | apply S].
  - destruct (IH Hd) as [X1 [W1 R1]].
    destruct (Snapshot_spec d1 i d2 E R1) as (Hi & Hq & Hj & Hn & Hv & Hr).
    split; [|split; [by eapply eqv_world | done]].
    eapply extends_trans; [by apply wo_filed | done|]. split; [| |lia].
    + exists [], d2. by rewrite Hj, app_nil_r.
    + exists [mkRevision i (zlen (entries (journal d1)))]. split; [done|]. repeat constructor. cbn. lia.
  - destruct (IH Hd) as [X1 [W1 R1]].
    destruct (Snapshot_spec d1 i d2 Es R1) as (_ & Hq & _ & _ & _ & Hr).
    destruct (IH2 (conj (eqv_world _ _ Hq W1) Hr)) as [X2 [_ R3]].
    destruct (RevertToSnapshot_spec d1 i d2 d3 R1 Es X2 R3) as (d4' & E' & Hq4 & He & Hv & Hn).
    change (State.RevertToSnapshot i d3 = Ok d4) in E. assert (d4' = d4) as -> by congruence.
    split; [|split; [by eapply eqv_world|]].
    + eapply extends_trans; [by apply wo_filed | done|]. split; [| |done].
      * exists [], d4. by rewrite He, app_nil_r.
      * exists []. by rewrite Hv, app_nil_r.
    + eapply revs_ok_grow with (l := []); [done | done | by rewrite He, app_nil_r | done].
Qed.

Lemma eqv_with_object {A} (x : A) f d d' a : eqv d d' ->
  (forall o o', obj_eqv (destructed d a) o o' -> f o' = f o) ->
  with_object x f a d' = with_object x f a d.
Proof.
  intros E Hf. rewrite !with_object_spec. pose proof (eqv_live d d' a E) as O. inv O; [by apply Hf | done].
Qed.

Lemma obj_eqv_empty des o o' : obj_eqv des o o' -> empty o' = empty o.
Proof. intros []. unfold empty. congruence. Qed.

Lemma eqv_same_all d d' : eqv d d' -> same_all (DB := stateDB) d d'.
Proof.
  intros E. split; [split|..]; cbn; intros;
    try (apply (eqv_with_object _ _ d d'); [done|]; intros o o' []; cbn;
         rewrite ?so_Code_fst, ?so_CodeSize_of, ?so_state_fst, ?so_committed_fst,
           ?(eqv_destructed d d' _ E); congruence).
  - unfold GetState. rewrite (eqv_destructed d d' _ E). apply (eqv_with_object _ _ d d'); [done|].
    intros o o' O. rewrite !so_state_fst. apply O.
  - apply (eqv_with_object _ _ d d'); [done|]. intros o o'. apply obj_eqv_empty.
  - unfold GetCommittedState. rewrite (eqv_destructed d d' _ E). apply (eqv_with_object _ _ d d'); [done|].
    intros o o' O. rewrite !so_committed_fst. apply O.
  - apply E.
  - unfold AddressInAccessList. by rewrite (eq_access _ _ E).
  - unfold SlotInAccessList. by rewrite (eq_access _ _ E).
  - by rewrite (eq_logs _ _ E).
  - by rewrite (eq_preimages _ _ E).
Qed.

(** *** Read-only operations *)

(** A missing account reads as a new one does: its storage is empty. *)
Lemma decodeSlot_nil : decodeSlot [] = 0.
Proof. done. Qed.

Lemma new_storage a d d' k : created a d d' -> live (view d a) = None ->
  state_of (destructed d' a) (newObject a emptyAccount) k = 0.
Proof.
  intros Cr Hl. unfold state_of, committed_of, slot_of. cbn.
  assert (Ht : decodeSlot (default [] (trie_Storage a emptyRoot k)) = 0) by by rewrite backend_trie.
  destruct snap as [s|] eqn:Es; [|exact Ht].
  destruct (view d a) as [p|] eqn:V.
  - rewrite (cr_mark _ _ _ Cr); [done | by rewrite V | by rewrite Es].
  - destruct (destructed d' a); [done|].
    assert (R : readAccount a = None).
    { unfold view in V. destruct (stateObjects d !! a); [done|]. by destruct (readAccount a). }
    pose proof (backend_snap a k s R Es) as H. destruct (snap_Storage s a k); [|exact Ht].
    cbn in H. by rewrite H.
Qed.

Lemma created_world a d d' : created a d d' -> live (view d a) = None ->
  same_world (DB := stateDB) d d'.
Proof.
  intros Cr Hl. pose proof (view_in _ _ _ (cr_new _ _ _ Cr)) as V.
  assert (Hw : forall A (x : A) f b, (b = a -> f (newObject a emptyAccount) = x) ->
    with_object x f b d' = with_object x f b d).
  { intros A x f b Hx. rewrite !with_object_spec. destruct (decide (b = a)) as [->|N].
    - rewrite V, Hl. cbn. by apply Hx.
    - by rewrite (cr_view _ _ _ Cr). }
  split; cbn; intros; try (apply Hw; intros ->; done).
  - apply Hw. intros ->. rewrite so_Code_fst. unfold code_of. cbn. by rewrite Z.eqb_refl.
  - unfold GetState. destruct (decide (a0 = a)) as [->|N].
    + rewrite !with_object_spec, V, Hl. cbn. rewrite so_state_fst. by apply (new_storage a d).
    + rewrite (cr_destructed _ _ _ Cr) by done. by apply Hw.
  - apply Hw. intros ->. unfold empty. cbn. by rewrite Z.eqb_refl.
Qed.

Lemma GetOrNew_world a d o d' : world_ok d -> GetOrNewStateObject a d = (o, d') ->
  same_world (DB := stateDB) d d'.
Proof.
  intros W E. destruct (GetOrNew_spec a d W) as (o1 & d1 & E1 & _ & _ & _ & [[_ L]|(Hl & _ & Cr)]);
    rewrite E1 in E; simplify_eq.
  - apply same_all_world, eqv_same_all. by apply loaded_eqv.
  - by eapply created_world.
Qed.

Lemma fields_world d d' : stateObjects d' = stateObjects d -> snapDestructs d' = snapDestructs d ->
  same_world (DB := stateDB) d d'.
Proof.
  intros Ho Hs. assert (Hv : forall a, view d' a = view d a) by (intros a; unfold view; by rewrite Ho).
  split; cbn; intros; unfold GetBalance, GetNonce, GetCode, GetState, HasSuicided, Empty, destructed;
    by rewrite !with_object_spec, Hv, ?Hs.
Qed.

Lemma readonly_step d o d' : state_ok d -> op_wf o -> allowed true o d ->
  apply_op (DB := stateDB) o d = Ok d' -> same_world (DB := stateDB) d d'.
Proof.
  intros [W _] Ho Ha E. destruct o; cbn in Ha; try done; cbn in E.
  - simplify_eq. unfold CreateAccount. destruct (createObject_spec a d W) as (d1 & -> & Cr).
    unfold Exist in Ha. rewrite with_object_spec in Ha. destruct (live (view d a)) eqn:El; [done|].
    by eapply created_world.
  - subst v. simplify_eq. unfold SubBalance. destruct (GetOrNewStateObject a d) as [o1 d1] eqn:E.
    by eapply GetOrNew_world.
  - subst v. simplify_eq. unfold AddBalance. destruct (GetOrNewStateObject a d) as [o1 d1] eqn:E.
    etrans; [by eapply GetOrNew_world|]. cbn. destruct (empty o1); [|done].
    unfold touch. destruct (_ =? _); by apply fields_world.
  - simplify_eq. by apply fields_world.
  - unfold SubRefund in E. zcase; simplify_eq. by apply fields_world.
  - simplify_eq. unfold AddAddressToAccessList. destruct (AddAddress _ _) as [[] ?]; by apply fields_world.
  - simplify_eq. unfold AddSlotToAccessList. destruct (AddSlot _ _ _) as [[[[] []] ?]| |]; by apply fields_world.
  - simplify_eq. unfold AddPreimage. destruct (preimages d !! h); by apply fields_world.
Qed.

Lemma op_no_panic d o : world_ok d -> op_wf o ->
  match apply_op (DB := stateDB) o d with Ok _ => True | Panic p => p = PanicRefund | NoFuel => False end.
Proof. intros W Ho. destruct o; try done. cbn. unfold SubRefund. by zcase. Qed.

(** The database keeps the promises of the interface. *)
#[export] Program Instance stateDB_StateDBSpec : StateDBSpec stateDB := {| db_ok := state_ok |}.
Next Obligation. intros d o d' S Ho E. eapply step_ok; [done|]. eapply op_step; [apply S | done | done]. Qed.
Next Obligation. intros d o [W _] Ho. by apply op_no_panic. Qed.
Next Obligation.
  intros d i d' [W R] E. destruct (Snapshot_spec d i d' E R) as (_ & Hq & _ & _ & _ & Hr).
  split; [split; [by eapply eqv_world | done] | by apply eqv_same_all].
Qed.
Next Obligation.
  intros d i d1 d2 [W R] Es Hr.
  destruct (Snapshot_spec d i d1 Es R) as (_ & Hq & _ & _ & _ & Hr1).
  destruct (reach_extends _ _ _ Hr (conj (eqv_world _ _ Hq W) Hr1)) as [X [_ R2]].
  destruct (RevertToSnapshot_spec d i d1 d2 R Es X R2) as (d3 & E & Hq3 & He & Hv & Hn).
  exists d3. split; [exact E|]. split; [|by apply eqv_same_all]. split; [by eapply eqv_world|].
  eapply revs_ok_grow with (l := []); [done | done | by rewrite He, app_nil_r | done].
Qed.
Next Obligation.
  intros d a [W _]. cbn. unfold GetCode, GetCodeHash. rewrite !with_object_spec.
  destruct (live (view d a)) as [o|] eqn:El; [|split; [apply small_nil | done]].
  destruct (live_inv _ _ El) as [V _]. pose proof (oo_code _ _ _ (wo_obj _ W _ _ V)) as Hc.
  rewrite so_Code_fst. destruct (code_of o); [exact Hc | split; [apply small_nil | done]].
Qed.
Next Obligation.
  intros d a [W _]. cbn. unfold GetNonce. rewrite with_object_spec.
  destruct (live (view d a)) as [o|] eqn:El; [|by compute].
  destruct (live_inv _ _ El) as [V _]. apply (wo_obj _ W _ _ V).
Qed.
Next Obligation. intros d [W _]. apply (wo_refund _ W). Qed.
Next Obligation. intros d o d' S Ho Ha E. by eapply readonly_step. Qed.
End instance.
