(* ===== verification/Instances.v ===== *)
(** * A concrete world

    Parameters of the model instantiated by small functions, so that theorems
    about all worlds can be evaluated in one: hash functions that satisfy
    [CryptoSpec], a backend with two accounts, and the machine that runs over
    it. *)

From S2P Require Import Prelude Uint256 Config Common EvmAnalysis EvmStack EvmMemory Rlp EvmState.
From S2P Require Import EvmSpec EvmInvariant StateDB StateSpec StateRevert.

Import State.

Local Open Scope Z_scope.

(** ** Hashes: the digest of a string is the string itself, read as a number *)

#[export] Instance toy_crypto : Crypto := {|
  keccak256 bs := be_value (1 :: bs);
  sha256Sum _ := replicate 32 0;
  ripemd160Sum _ := replicate 20 0;
  Ecrecover _ _ := None;
|}.

Lemma toy_keccak_inj a b : wf_bytes a -> wf_bytes b -> be_value (1 :: a) = be_value (1 :: b) -> a = b.
Proof.
  intros Ha Hb. rewrite !be_value_cons. pose proof (be_value_bound a Ha) as Ba.
  pose proof (be_value_bound b Hb) as Bb. intros E.
  assert (zlen a = zlen b) as El.
  { destruct (Z.lt_trichotomy (zlen a) (zlen b)) as [L|[L|L]]; [exfalso|done|exfalso].
    - assert (256 * 256 ^ zlen a <= 256 ^ zlen b); [|lia].
      rewrite <- Z.pow_succ_r by apply zlen_nonneg. apply Z.pow_le_mono_r; lia.
    - assert (256 * 256 ^ zlen b <= 256 ^ zlen a); [|lia].
      rewrite <- Z.pow_succ_r by apply zlen_nonneg. apply Z.pow_le_mono_r; lia. }
  rewrite El in E. assert (length a = length b) as En by (unfold zlen in El; lia).
  rewrite <- (be_bytes_be_value a Ha), <- (be_bytes_be_value b Hb), En. f_equal. lia.
Qed.

#[export] Instance toy_crypto_ok : CryptoSpec toy_crypto.
Proof.
  split.
  - exact toy_keccak_inj.
  - intros b. split; [|done]. repeat constructor; by compute.
  - intros b. split; [|done]. repeat constructor; by compute.
  - done.
Qed.

(** ** A backend *)

(** [sstore(0, 42)], then [return]. *)
Definition toy_code : bytes := [96; 42; 96; 0; 85; 0].
Definition toy_contract : Address := 256.
Definition toy_user : Address := 512.

#[export] Instance toy_backend : Backend := {|
  emptyRoot := 7;
  snap := None;
  trie_Account a :=
    Some (if a =? toy_contract then Some (mkAccount 1 (Some 5) 0 (Some (keccak256 toy_code)))
          else if a =? toy_user then Some (mkAccount 9 (Some 1000000) 0 None)
          else None);
  trie_Storage _ _ _ := Some [];
  ContractCode _ h := if h =? keccak256 toy_code then Some toy_code else None;
|}.

#[export] Instance toy_backend_ok : BackendSpec.
Proof.
  split.
  - intros a h c. cbn. zcase; [|done]. intros [= <-]. subst h. split; [|done].
    split; [repeat constructor; by compute | by compute].
  - intros a data. unfold readAccount. cbn. repeat zcase; intros; simplify_eq; by compute.
  - done.
  - done.
Qed.

(** The state [New] opens is well formed over any backend. *)
Lemma New_ok `{C : Crypto} `{B : Backend} `{BS : !BackendSpec} : state_ok New.
Proof.
  split; [split; [|by compute|by compute|done]|by repeat constructor].
  intros a o. unfold view. cbn [stateObjects New]. rewrite lookup_empty. destruct (readAccount a) as [data|] eqn:E; [|done].
  intros Ho. cbn in Ho. injection Ho as <-. split; [done | by eapply backend_nonce | | done].
  unfold code_of. cbn. zcase; [done|].
  destruct (ContractCode a _) as [c|] eqn:Ec; [|done]. apply backend_code in Ec as [? <-]. done.
Qed.

(** ** Machines over it *)

Definition toy_env (london : bool) : Env :=
  mkEnv (fun _ => 0) 0 1000000 10 1000 1 (Some 7) None toy_user 1
    {| ChainID := Some 1; HomesteadBlock := Some 0; EIP150Block := Some 0;
       LondonBlock := if london then Some 0 else None; TerminalTotalDifficulty := None |} false [].

Definition toy_vm (d : stateDB) : EVM stateDB := mkEVM d 0 0 false false [] ∅.

Lemma toy_vm_ok d : state_ok d -> vm_ok (toy_vm d).
Proof. intros H. split; [done | by compute | apply small_nil | done]. Qed.
