(* ===== verification/StateTheorems.v ===== *)
(** * Correctness of the state database

    Reverting, reading through the caches, reading what was written, the access
    list as a set of addresses and slots, and the end of a transaction. *)

From S2P Require Import Prelude Uint256 Config Common EvmAnalysis EvmStack EvmMemory Rlp EvmState.
From S2P Require Import EvmSpec EvmInvariant StateDB StateSpec StateRevert Instances.

Import State.

Local Open Scope Z_scope.

Section theorems.
Context `{C : Crypto} `{B : Backend} `{BS : !BackendSpec}.

(** C14: going back to a snapshot undoes everything: whatever operations,
    nested snapshots and reverts happened since, [RevertToSnapshot] succeeds
    and no getter of the interface tells the state from the one the snapshot
    was taken in; logs, preimages, journal and revisions are those of then. *)
Theorem RevertToSnapshot_restores (d d1 d2 : stateDB) (i : Z) :
  state_ok d -> Snapshot d = (i, d1) -> reach false d1 d2 ->
  exists d3, RevertToSnapshot i d2 = Ok d3 /\ same_all d d3 /\
    (forall h, default [] (logs d3 !! h) = default [] (logs d !! h)) /\
    logSize d3 = logSize d /\ preimages d3 = preimages d /\
    entries (journal d3) = entries (journal d) /\ validRevisions d3 = validRevisions d.
Proof.
  intros [W R] Es Hr. destruct (Snapshot_spec d i d1 Es R) as (_ & Hq & _ & _ & _ & Hr1).
  destruct (reach_extends _ _ _ Hr (conj (eqv_world _ _ Hq W) Hr1)) as [X [_ R2]].
  destruct (RevertToSnapshot_spec d i d1 d2 R Es X R2) as (d3 & E & Hq3 & He & Hv & _).
  exists d3. split; [exact E|]. split; [by apply eqv_same_all|]. split; [apply Hq3|].
  split; [apply Hq3|]. split; [apply Hq3|]. done.
Qed.

(** reading an account through [getStateObject] fills the map of live
    objects, and no getter tells the state it leaves from the one it found. *)
Theorem getStateObject_transparent (a : Address) (d : stateDB) :
  same_all d (snd (getStateObject a d)).
Proof.
  destruct (getStateObject_spec a d) as (d' & -> & L & _). apply eqv_same_all. by apply loaded_eqv.
Qed.

(** ** What the setters do *)

(** The getters after an object was put in the map. *)
Lemma with_object_journal {A} (x : A) f b j d : with_object x f b (set_journal j d) = with_object x f b d.
Proof. by rewrite !with_object_spec. Qed.

Lemma with_object_set {A} (x : A) f a b o d : stateObjects d !! a = Some o -> deleted o = false ->
  forall o', address o' = a -> deleted o' = false ->
  with_object x f b (setStateObject o' d) = if decide (b = a) then f o' else with_object x f b d.
Proof.
  intros Ho Hd o' Ha Hd'. rewrite !with_object_spec, view_set, Ha. destruct (decide (b = a)) as [->|]; [|done].
  cbn. by rewrite Hd'.
Qed.

(** Balances, nonces and storage before an account is modified: loading or
    creating it does not change them. *)
Lemma GetOrNew_getters a d : world_ok d -> exists o d1,
  GetOrNewStateObject a d = (o, d1) /\ world_ok d1 /\ stateObjects d1 !! a = Some o /\
  deleted o = false /\ address o = a /\ same_world d d1.
Proof.
  intros W. destruct (GetOrNew_spec a d W) as (o & d1 & E & S & Ho & Hl & _).
  exists o, d1. split; [done|]. split; [apply S|]. split; [done|]. split; [done|].
  split; [apply (wo_filed _ (st_world _ _ S)); by apply view_in|]. by eapply GetOrNew_world.
Qed.

Lemma set_balance_getter a b v o d : stateObjects d !! a = Some o -> deleted o = false -> address o = a ->
  GetBalance (so_SetBalance v o d) b = if decide (b = a) then v else GetBalance d b.
Proof.
  intros Ho Hd Ha. unfold so_SetBalance, GetBalance.
  rewrite (with_object_set 0 balance a b o (journal_append (balanceChange (address o) (balance o)) d)) by done.
  unfold journal_append. rewrite with_object_journal. by destruct (decide (b = a)).
Qed.

Lemma balance_in d a o : stateObjects d !! a = Some o -> deleted o = false -> GetBalance d a = balance o.
Proof. intros Ho Hd. unfold GetBalance. rewrite with_object_spec, (view_in _ _ _ Ho). cbn. by rewrite Hd. Qed.

Lemma AddBalance_getter a v d b : world_ok d ->
  GetBalance (AddBalance a v d) b = GetBalance d b + if decide (b = a) then v else 0.
Proof.
  intros W. unfold AddBalance. destruct (GetOrNew_getters a d W) as (o & d1 & -> & W1 & Ho & Hd & Ha & Hw).
  pose proof (sw_balance _ _ Hw) as Hb. cbn in Hb. zcase.
  - replace (GetBalance (if empty o then touch o d1 else d1) b) with (GetBalance d1 b).
    + rewrite Hb. subst v. destruct (decide _); lia.
    + unfold touch, journal_append, GetBalance. destruct (empty o); [|done].
      destruct (_ =? _); by rewrite ?with_object_journal.
  - rewrite (set_balance_getter a) by done. rewrite <- (balance_in d1 a o) by done. rewrite !Hb.
    destruct (decide (b = a)) as [->|]; lia.
Qed.

Lemma SubBalance_getter a v d b : world_ok d ->
  GetBalance (SubBalance a v d) b = GetBalance d b - if decide (b = a) then v else 0.
Proof.
  intros W. unfold SubBalance. destruct (GetOrNew_getters a d W) as (o & d1 & -> & W1 & Ho & Hd & Ha & Hw).
  pose proof (sw_balance _ _ Hw) as Hb. cbn in Hb. zcase.
  - rewrite Hb. subst v. destruct (decide _); lia.
  - rewrite (set_balance_getter a) by done. rewrite <- (balance_in d1 a o) by done. rewrite !Hb.
    destruct (decide (b = a)) as [->|]; lia.
Qed.

(** What balance changes leave alone. *)
Record same_rest (d d' : stateDB) : Prop := {
  sr_nonce b : GetNonce d' b = GetNonce d b;
  sr_code b : GetCode d' b = GetCode d b;
  sr_state b k : GetState d' b k = GetState d b k;
}.

#[export] Instance same_rest_trans : Transitive same_rest.
Proof. intros d1 d2 d3 [] []. split; intros; etrans; eauto. Qed.

Lemma world_rest d d' : same_world (DB := stateDB) d d' -> same_rest d d'.
Proof. intros []. by split. Qed.

(** An object put back with another balance or nonce. *)
Lemma put_getter {A} (x : A) f a b o o' j d : stateObjects d !! a = Some o -> deleted o = false ->
  address o' = a -> deleted o' = false -> f o' = f o ->
  with_object x f b (setStateObject o' (set_journal j d)) = with_object x f b d.
Proof.
  intros Ho Hd Ha Hd' Hf. rewrite (with_object_set x f a b o (set_journal j d)) by done.
  destruct (decide (b = a)) as [->|]; [|by rewrite with_object_journal].
  rewrite with_object_spec, (view_in _ _ _ Ho). cbn. by rewrite Hd.
Qed.

Lemma so_SetBalance_rest a v o d : stateObjects d !! a = Some o -> deleted o = false -> address o = a ->
  same_rest d (so_SetBalance v o d).
Proof.
  intros Ho Hd Ha. unfold so_SetBalance, journal_append. split; intros.
  - by apply (put_getter _ _ a _ o).
  - apply (put_getter _ _ a _ o); try done. by rewrite !so_Code_fst.
  - unfold GetState. change (destructed (setStateObject _ (set_journal _ d)) b) with (destructed d b).
    apply (put_getter _ _ a _ o); try done. by rewrite !so_state_fst.
Qed.

Lemma touch_rest o d : same_rest d (touch o d).
Proof.
  apply world_rest, fields_world; unfold touch, journal_append; by destruct (_ =? _).
Qed.

Lemma AddBalance_rest a v d : world_ok d -> same_rest d (AddBalance a v d).
Proof.
  intros W. unfold AddBalance. destruct (GetOrNew_getters a d W) as (o & d1 & -> & _ & Ho & Hd & Ha & Hw).
  apply world_rest in Hw. etrans; [exact Hw|]. zcase; [|by eapply so_SetBalance_rest].
  destruct (empty o); [apply touch_rest | by split].
Qed.

Lemma SubBalance_rest a v d : world_ok d -> same_rest d (SubBalance a v d).
Proof.
  intros W. unfold SubBalance. destruct (GetOrNew_getters a d W) as (o & d1 & -> & _ & Ho & Hd & Ha & Hw).
  apply world_rest in Hw. etrans; [exact Hw|]. zcase; [by split | by eapply so_SetBalance_rest].
Qed.

Lemma SetNonce_getters a n d : world_ok d ->
  (forall b, GetBalance (SetNonce a n d) b = GetBalance d b) /\
  (forall b, GetNonce (SetNonce a n d) b = if decide (b = a) then n else GetNonce d b) /\
  (forall b, GetCode (SetNonce a n d) b = GetCode d b) /\
  (forall b k, GetState (SetNonce a n d) b k = GetState d b k).
Proof.
  intros W. unfold SetNonce. destruct (GetOrNew_getters a d W) as (o & d1 & -> & _ & Ho & Hd & Ha & Hw).
  destruct Hw as [w1 w2 w3 w4 _ _]. cbn in w1, w2, w3, w4. unfold journal_append. split_and!; intros.
  - rewrite <- w1. by apply (put_getter _ _ a _ o).
  - rewrite <- w2. unfold GetNonce. rewrite (with_object_set 0 nonce a b o (set_journal _ d1)) by done.
    destruct (decide _); [done|]. by rewrite with_object_journal.
  - rewrite <- w3. apply (put_getter _ _ a _ o); try done. by rewrite !so_Code_fst.
  - rewrite <- w4. unfold GetState.
    change (destructed (setStateObject _ (set_journal _ d1)) b) with (destructed d1 b).
    apply (put_getter _ _ a _ o); try done. by rewrite !so_state_fst.
Qed.

(** [Transfer] moves exactly the amount: the sender's balance falls
    by it, the recipient's rises by it, every other balance stays, and a
    transfer to oneself changes nothing. *)
Theorem Transfer_moves (d : stateDB) (sender recipient : Address) (v : Z) (b : Address) :
  state_ok d ->
  GetBalance (Transfer sender recipient v d) b =
    GetBalance d b - (if decide (b = sender) then v else 0) + (if decide (b = recipient) then v else 0).
Proof.
  intros [W _]. unfold Transfer. cbn [EvmState.AddBalance EvmState.SubBalance stateDB_StateDB].
  rewrite AddBalance_getter by (apply SubBalance_step; done). by rewrite SubBalance_getter.
Qed.

(** a storage write is read back, at its account and key and nowhere
    else. *)
Theorem SetState_reads_back (d : stateDB) (a b : Address) (k k' v : Hash) :
  state_ok d ->
  GetState (SetState a k v d) b k' = if decide (b = a /\ k' = k) then v else GetState d b k'.
Proof.
  intros [W _]. unfold SetState.
  destruct (GetOrNew_getters a d W) as (o & d1 & -> & W1 & Ho & Hd & Ha & Hw).
  pose proof (sw_state _ _ Hw b k') as Hs. cbn in Hs. rewrite <- Hs. clear Hs Hw.
  pose proof (obj_eqv_cached_slot o (destructed d1 a) k) as Q.
  pose proof (so_state_fst (destructed d1 a) o k) as E1.
  destruct (so_GetState (destructed d1 a) o k) as [prev o1]. cbn in Q, E1. destruct Q.
  assert (Hg : forall o2 j, address o2 = a -> deleted o2 = false ->
    (b = a -> state_of (destructed d1 a) o2 k' = (if decide (k' = k) then v else state_of (destructed d1 a) o k')) ->
    GetState (setStateObject o2 (set_journal j d1)) b k' =
    if decide (b = a /\ k' = k) then v else GetState d1 b k').
  { intros o2 j Ha2 Hd2 Hst. unfold GetState. change (destructed (setStateObject o2 (set_journal j d1)) b)
      with (destructed d1 b).
    rewrite (with_object_set _ _ a b o (set_journal j d1)) by done. rewrite with_object_journal.
    rewrite with_object_spec. destruct (decide (b = a)) as [->|Nb].
    - rewrite (view_in _ _ _ Ho). cbn. rewrite Hd, !so_state_fst, Hst by done.
      destruct (decide (k' = k)); [by rewrite decide_True | by rewrite decide_False by tauto].
    - by rewrite decide_False by tauto. }
  zcase.
  - replace d1 with (set_journal (journal d1) d1) at 1 by by destruct d1.
    apply Hg; [congruence | congruence|]. intros _. rewrite oe_state. destruct (decide (k' = k)) as [->|]; [congruence | done].
  - apply Hg; [cbn; congruence | cbn; congruence|]. intros _. rewrite state_of_set, oe_state. done.
Qed.
End theorems.

(** A write to a slot of the contract, read at it and at another one. *)
Lemma SetState_reads_back_witness :
  GetState (SetState toy_contract 1 9 New) toy_contract 1 = 9 /\
  GetState (SetState toy_contract 1 9 New) toy_contract 2 = 0.
Proof.
  split.
  - rewrite (SetState_reads_back New toy_contract toy_contract 1 1 9 New_ok). vm_compute. reflexivity.
  - rewrite (SetState_reads_back New toy_contract toy_contract 1 2 9 New_ok). vm_compute. reflexivity.
Defined.

(** The contract pays the user three of its five. *)
Lemma Transfer_moves_witness :
  GetBalance (Transfer toy_contract toy_user 3 New) toy_user = 1000003 /\
  GetBalance (Transfer toy_contract toy_user 3 New) toy_contract = 2.
Proof.
  split.
  - rewrite (Transfer_moves New toy_contract toy_user 3 toy_user New_ok). vm_compute. reflexivity.
  - rewrite (Transfer_moves New toy_contract toy_user 3 toy_contract New_ok). vm_compute. reflexivity.
Defined.

(** A storage write, a transfer and a self-destruct, undone. *)
Lemma RevertToSnapshot_restores_witness :
  exists d3,
    RevertToSnapshot 0 (snd (Suicide toy_contract (AddBalance toy_user 3
       (SetState toy_contract 1 9 (snd (Snapshot New)))))) = Ok d3 /\
    same_all New d3 /\ GetState d3 toy_contract 1 = 0.
Proof.
  destruct (RevertToSnapshot_restores New (snd (Snapshot New))
    (snd (Suicide toy_contract (AddBalance toy_user 3 (SetState toy_contract 1 9 (snd (Snapshot New))))))
    0 New_ok eq_refl) as (d3 & E & S & _).
  - set (d0 := snd (Snapshot New)). set (d1 := SetState toy_contract 1 9 d0).
    set (d2 := AddBalance toy_user 3 d1).
    refine (reach_op false d0 d2 (DSuicide toy_contract) _ _ I I eq_refl).
    refine (reach_op false d0 d1 (DAddBalance toy_user 3) _ _ I I eq_refl).
    exact (reach_op false d0 d0 (DSetState toy_contract 1 9) _ (reach_refl false d0) I I eq_refl).
  - exists d3. split; [exact E|]. split; [exact S|].
    pose proof (sw_state _ _ (sa_world _ _ S) toy_contract 1) as G. cbn in G. rewrite G. vm_compute. reflexivity.
Defined.

(** ** The access list refines a pair of sets

    [access_list.go] keeps a map from addresses to indices into a list of slot
    sets.  It implements a set of addresses and a set of (address, slot) pairs. *)

(** The slots of an address. *)
Definition slots_of (al : accessListT) (a : Address) : option (gset Z) :=
  match addresses al !! a with
  | Some i => if i =? -1 then None else slots al !! Z.to_nat i
  | None => None
  end.

(** Indices are in range, not shared, and the sets they name are not empty. *)
Record al_wf (al : accessListT) : Prop := {
  aw_ok : al_ok al;
  aw_inj a b i : addresses al !! a = Some i -> addresses al !! b = Some i -> i <> -1 -> a = b;
}.

(** [al] stands for the addresses [A] and the pairs [P]. *)
Record al_repr (al : accessListT) (A : gset Z) (P : gset (Z * Z)) : Prop := {
  ar_wf : al_wf al;
  ar_addr a : a ∈ A <-> is_Some (addresses al !! a);
  ar_slot a k : (a, k) ∈ P <-> exists s, slots_of al a = Some s /\ k ∈ s;
}.

Lemma repr_new : al_repr newAccessList ∅ ∅.
Proof.
  split.
  - by split.
  - intros a. cbn. rewrite lookup_empty, elem_of_empty. split; [done | by intros [? ?]].
  - intros a k. unfold slots_of. cbn. rewrite lookup_empty, elem_of_empty. naive_solver.
Qed.

Lemma repr_Contains al A P a k : al_repr al A P ->
  ContainsAddress al a = bool_decide (a ∈ A) /\
  Contains al a k = Ok (bool_decide (a ∈ A), bool_decide ((a, k) ∈ P)).
Proof.
  intros [[Hok _] HA HP]. unfold ContainsAddress, Contains.
  rewrite (bool_decide_ext _ _ (HA a)). split; [done|].
  specialize (HP a k). unfold slots_of in HP. destruct (addresses al !! a) as [i|] eqn:E.
  - rewrite bool_decide_eq_true_2 by done. destruct (Hok a i E) as [->|(Hi & s & Hs & _)].
    + rewrite bool_decide_eq_false_2; [done|]. rewrite HP. by intros (? & ? & _).
    + zcase; [lia|]. unfold nth_or_panic. rewrite bool_decide_eq_true_2 by done. rewrite Hs in HP |- *.
      cbn. do 2 f_equal. apply bool_decide_ext. rewrite HP. naive_solver.
  - rewrite bool_decide_eq_false_2 by (by intros [? ?]).
    rewrite bool_decide_eq_false_2; [done|]. rewrite HP. by intros (? & ? & _).
Qed.

(** A new address has no slots. *)
Lemma repr_AddAddress al A P a : al_repr al A P ->
  fst (AddAddress al a) = bool_decide (a ∉ A) /\ al_repr (snd (AddAddress al a)) ({[a]} ∪ A) P.
Proof.
  intros [[Hok Hinj] HA HP]. unfold AddAddress. destruct (addresses al !! a) as [i|] eqn:E.
  - assert (a ∈ A) by by apply HA. cbn. rewrite bool_decide_eq_false_2 by tauto.
    split; [done|]. split; [done | | done]. intros b. rewrite <- HA, elem_of_union, elem_of_singleton. intuition congruence.
  - assert (a ∉ A) by (rewrite HA, E; by intros [? ?]). cbn. rewrite bool_decide_eq_true_2 by done.
    split; [done|]. split; [split|..]; cbn.
    + intros b i. cbn. destruct (decide (b = a)) as [->|]; [rewrite lookup_insert_eq; intros [= <-]; by left|].
      rewrite lookup_insert_ne by done. apply Hok.
    + intros b c i. rewrite !lookup_insert_Some. intros [[? <-]|[? ?]] [[? ?]|[? ?]] ?; try done. by eapply Hinj.
    + intros b. rewrite lookup_insert_is_Some', <- HA, elem_of_union, elem_of_singleton. intuition congruence.
    + intros b k. rewrite HP. unfold slots_of. cbn. destruct (decide (b = a)) as [->|].
      * rewrite lookup_insert_eq, E. done.
      * by rewrite lookup_insert_ne.
Qed.

(** A slot in a set of its own ... *)
Lemma repr_fresh_slot al A P a k : al_repr al A P -> slots_of al a = None ->
  al_repr (mkAccessList (<[a := zlen (slots al)]> (addresses al)) (slots al ++ [{[k]}]))
    ({[a]} ∪ A) ({[(a, k)]} ∪ P).
Proof.
  intros [[Hok Hinj] HA HP] Hn.
  assert (Hlast : (slots al ++ [{[k]}]) !! Z.to_nat (zlen (slots al)) = Some ({[k]} : gset Z)).
  { replace (Z.to_nat (zlen (slots al))) with (length (slots al)) by (unfold zlen; lia).
    by apply list_lookup_middle. }
  assert (Hlt : forall b i, addresses al !! b = Some i -> i = -1 \/ (0 <= i < zlen (slots al))).
  { intros b i Hb. destruct (Hok b i Hb) as [|(? & s & Hs & _)]; [by left|]. apply lookup_lt_Some in Hs.
    right. unfold zlen. lia. }
  split; [split|..]; cbn.
  - intros b i. cbn. destruct (decide (b = a)) as [->|].
    + rewrite lookup_insert_eq. intros [= <-]. right. split; [apply zlen_nonneg|]. exists {[k]}.
      split; [done | clear; set_solver].
    + rewrite lookup_insert_ne by done. intros Hb. destruct (Hok b i Hb) as [|(? & s & Hs & ?)]; [by left|].
      right. split; [done|]. exists s. split; [by apply lookup_app_l_Some | done].
  - intros b c i. rewrite !lookup_insert_Some. intros [[? <-]|[? Hb]] [[? ?]|[? Hc]] Hi; subst; try done.
    + destruct (Hlt _ _ Hc); lia.
    + destruct (Hlt _ _ Hb); lia.
    + by eapply Hinj.
  - intros b. rewrite lookup_insert_is_Some', <- HA, elem_of_union, elem_of_singleton. intuition congruence.
  - intros b k'. rewrite elem_of_union, elem_of_singleton, HP. unfold slots_of. cbn.
    destruct (decide (b = a)) as [->|N].
    + rewrite lookup_insert_eq. zcase; [pose proof (zlen_nonneg (slots al)); lia|]. rewrite Hlast.
      unfold slots_of in Hn. rewrite Hn. split.
      * intros [[= ->]|(? & ? & _)]; [|done]. exists {[k]}. by rewrite elem_of_singleton.
      * intros (s & [= <-] & Hk). apply elem_of_singleton in Hk as ->. by left.
    + rewrite lookup_insert_ne by done. destruct (addresses al !! b) as [i|] eqn:Hb; [|naive_solver].
      destruct (Hlt _ _ Hb) as [->|Hi]; [naive_solver|]. zcase; [lia|].
      rewrite lookup_app_l by (unfold zlen in Hi; lia). naive_solver.
Qed.

(** ... and in the set its address has. *)
Lemma repr_more_slot al A P a i s k : al_repr al A P ->
  addresses al !! a = Some i -> 0 <= i -> slots al !! Z.to_nat i = Some s ->
  al_repr (mkAccessList (addresses al) (<[Z.to_nat i := {[k]} ∪ s]> (slots al))) A ({[(a, k)]} ∪ P).
Proof.
  intros [[Hok Hinj] HA HP] Ha Hi Hs. pose proof (lookup_lt_Some _ _ _ Hs) as Hlt.
  split; [split|..]; cbn.
  - intros b j Hb. cbn in *. destruct (Hok b j Hb) as [|(? & s' & Hs' & ?)]; [by left|]. right. split; [done|].
    destruct (decide (Z.to_nat j = Z.to_nat i)) as [->|].
    + exists ({[k]} ∪ s). split; [by apply list_lookup_insert_eq | clear; set_solver].
    + exists s'. by rewrite list_lookup_insert_ne.
  - exact Hinj.
  - exact HA.
  - intros b k'. rewrite elem_of_union, elem_of_singleton, HP. unfold slots_of. cbn.
    destruct (decide (b = a)) as [->|N].
    + rewrite Ha. zcase; [lia|]. rewrite list_lookup_insert_eq, Hs by done. split.
      * intros [[= ->]|(? & [= <-] & ?)]; (exists ({[k]} ∪ s)); rewrite elem_of_union, elem_of_singleton; auto.
      * intros (s' & [= <-] & Hk). apply elem_of_union in Hk as [Hk|Hk]; [|by eauto].
        apply elem_of_singleton in Hk as ->. by left.
    + destruct (addresses al !! b) as [j|] eqn:Hb; [|naive_solver]. zcase; [naive_solver|].
      rewrite list_lookup_insert_ne; [naive_solver|].
      destruct (Hok b j Hb) as [|(? & _)]; [done|]. intros E. assert (i = j) as <- by lia.
      destruct N. by apply (Hinj b a i).
Qed.

Lemma repr_AddSlot al A P a k : al_repr al A P -> exists al',
  AddSlot al a k = Ok (bool_decide (a ∉ A), bool_decide ((a, k) ∉ P), al') /\
  al_repr al' ({[a]} ∪ A) ({[(a, k)]} ∪ P).
Proof.
  intros R. pose proof R as [[Hok Hinj] HA HP]. pose proof (HA a) as HAa. pose proof (HP a k) as HPa.
  assert (Hf : slots_of al a = None -> bool_decide ((a, k) ∉ P) = true).
  { intros E. apply bool_decide_eq_true. rewrite HPa, E. by intros (? & ? & _). }
  unfold AddSlot. destruct (addresses al !! a) as [i|] eqn:E.
  - rewrite (bool_decide_eq_false_2 (a ∉ A)) by (rewrite HAa; intros H; by apply H).
    assert (Hin : a ∈ A) by by apply HAa.
    assert (EA : {[a]} ∪ A = A) by (clear -Hin; set_solver).
    destruct (Hok a i E) as [->|(Hi & s & Hs & Hne)].
    + assert (Hn : slots_of al a = None) by (unfold slots_of; by rewrite E).
      cbn. rewrite Hf by done. eexists. split; [done|]. by apply repr_fresh_slot.
    + zcase; [lia|]. unfold nth_or_panic. rewrite bool_decide_eq_true_2 by done. rewrite Hs.
      cbn [or_panic mbind res_bind]. rewrite EA.
      assert (HPs : (a, k) ∈ P <-> k ∈ s).
      { rewrite HPa. unfold slots_of. rewrite E. destruct (i =? -1) eqn:Ei; to_prop; [lia|]. rewrite Hs. naive_solver. }
      destruct (bool_decide (k ∈ s)) eqn:Ek; to_prop.
      * exists al. rewrite bool_decide_eq_false_2 by (rewrite HPs; tauto). split; [done|].
        replace ({[(a, k)]} ∪ P) with P; [done|]. apply HPs in Ek. clear -Ek. set_solver.
      * eexists. rewrite bool_decide_eq_true_2 by (by rewrite HPs). split; [done|]. by apply repr_more_slot.
  - assert (Hn : slots_of al a = None) by (unfold slots_of; by rewrite E).
    rewrite Hf by done. rewrite (bool_decide_eq_true_2 (a ∉ A)) by (rewrite HAa; by intros [? ?]).
    eexists. split; [done|]. by apply repr_fresh_slot.
Qed.

(** the access list is a set of addresses and a set of (address, slot)
    pairs: it starts empty; [Contains] and [ContainsAddress] tell membership
    without an index panic; [AddAddress] and [AddSlot] add their element (a slot
    with its address) and report what was new. *)
Theorem access_list_refines_sets :
  al_repr newAccessList ∅ ∅ /\
  forall al A P, al_repr al A P ->
    (forall a k, ContainsAddress al a = bool_decide (a ∈ A) /\
                 Contains al a k = Ok (bool_decide (a ∈ A), bool_decide ((a, k) ∈ P))) /\
    (forall a, fst (AddAddress al a) = bool_decide (a ∉ A) /\
               al_repr (snd (AddAddress al a)) ({[a]} ∪ A) P) /\
    (forall a k, exists al', AddSlot al a k = Ok (bool_decide (a ∉ A), bool_decide ((a, k) ∉ P), al') /\
                 al_repr al' ({[a]} ∪ A) ({[(a, k)]} ∪ P)).
Proof.
  split; [apply repr_new|]. intros al A P R.
  split; [intros; by apply repr_Contains|]. split; intros; [by apply repr_AddAddress | by apply repr_AddSlot].
Qed.

(** A slot added to the empty list. *)
Lemma access_list_refines_sets_witness :
  exists al, AddSlot newAccessList 1 2 = Ok (true, true, al) /\ Contains al 1 2 = Ok (true, true).
Proof.
  destruct access_list_refines_sets as [R0 H].
  destruct (proj2 (proj2 (H _ _ _ R0)) 1 2) as (al & E & R).
  exists al. split; [exact E|]. destruct (proj1 (H _ _ _ R) 1 2) as [_ G]. exact G.
Defined.
