(* ===== verification/StateFinalise.v ===== *)
(** * The end of a transaction

    [Finalise] removes the accounts that destructed themselves or are empty and
    makes the writes of the others the committed state, whatever the order in
    which Go iterates over the map of dirty accounts. *)

From S2P Require Import Prelude Uint256 Config Common EvmAnalysis EvmStack EvmMemory Rlp EvmState.
From S2P Require Import EvmSpec EvmInvariant StateDB StateSpec StateRevert Instances.

Import State.

Local Open Scope Z_scope.

Section finalise.
Context `{C : Crypto} `{B : Backend} `{BS : !BackendSpec}.
Context (del : bool).

Definition removed (o : stateObject) : bool := suicided o || (del && empty o).

Definition finalised (o : stateObject) : stateObject :=
  if removed o then with_deleted true o else finalise o.

Lemma finalised_address o : address (finalised o) = address o.
Proof. unfold finalised. by destruct (removed o). Qed.

(** One account. *)
Lemma finalise_addr_objects d a b : filed d ->
  stateObjects (finalise_addr del d a) !! b =
    if decide (b = a) then finalised <$> stateObjects d !! b else stateObjects d !! b.
Proof.
  intros F. unfold finalise_addr. destruct (stateObjects d !! a) as [o|] eqn:E.
  - assert (Ha : address o = a) by (apply F; by apply view_in).
    unfold finalised. change (suicided o || (del && empty o)) with (removed o).
    transitivity (stateObjects (setStateObject (if removed o then with_deleted true o else finalise o) d) !! b).
    { by destruct (removed o), snap. }
    unfold setStateObject. cbn [stateObjects set_stateObjects].
    replace (address _) with a by by destruct (removed o).
    destruct (decide (b = a)) as [->|]; [by rewrite lookup_insert_eq, E | by rewrite lookup_insert_ne].
  - destruct (decide (b = a)) as [->|]; [by rewrite E | done].
Qed.

Lemma finalise_addr_destructed d a b :
  destructed (finalise_addr del d a) b =
    destructed d b || (bool_decide (b = a) && match stateObjects d !! a with
                                              | Some o => removed o && bool_decide (is_Some snap)
                                              | None => false
                                              end).
Proof.
  unfold finalise_addr, destructed. destruct (stateObjects d !! a) as [o|]; [|by rewrite andb_false_r, orb_false_r].
  change (suicided o || (del && empty o)) with (removed o).
  destruct (removed o); [destruct snap|]; cbn; rewrite ?andb_false_r, ?orb_false_r; try done.
  rewrite andb_true_r, <- bool_decide_or. apply bool_decide_ext. rewrite elem_of_union, elem_of_singleton. tauto.
Qed.

Lemma filed_finalise_addr d a : filed d -> filed (finalise_addr del d a).
Proof.
  intros F b o. unfold view. rewrite finalise_addr_objects by done.
  destruct (decide (b = a)) as [->|]; [|apply F].
  specialize (F a). unfold view in F. destruct (stateObjects d !! a) as [o'|]; [|apply F].
  cbn. intros [= <-]. rewrite finalised_address. by apply F.
Qed.

(** All of them, in any order without repetitions. *)
Lemma finalise_all order d : NoDup order -> filed d ->
  let d' := foldl (finalise_addr del) d order in
  (forall b, stateObjects d' !! b =
     if decide (b ∈ order) then finalised <$> stateObjects d !! b else stateObjects d !! b) /\
  (forall b, b ∉ order -> destructed d' b = destructed d b) /\
  (forall b o, stateObjects d !! b = Some o -> removed o = false -> destructed d' b = destructed d b).
Proof.
  revert d. induction order as [|a order IH]; intros d Hn F; [done|].
  apply NoDup_cons in Hn as [Hna Hn]. cbn [foldl]. destruct (IH (finalise_addr del d a)) as (H1 & H2 & H3); [done | by apply filed_finalise_addr|].
  cbv zeta. split; [|split].
  - intros b. rewrite H1, finalise_addr_objects by done. destruct (decide (b = a)) as [->|N].
    + rewrite (decide_False (P := a ∈ order)) by done. by rewrite decide_True by left.
    + destruct (decide (b ∈ order)) as [I|I].
      * by rewrite decide_True by by right.
      * by rewrite decide_False by (rewrite not_elem_of_cons; done).
  - intros b Hb. apply not_elem_of_cons in Hb as [Nb Hb]. rewrite H2, finalise_addr_destructed by done.
    by rewrite bool_decide_eq_false_2, andb_false_l, orb_false_r.
  - intros b o Ho Hr. destruct (decide (b = a)) as [->|N].
    + rewrite H2, finalise_addr_destructed, Ho, Hr by done. by rewrite andb_false_r, orb_false_r.
    + rewrite (H3 b o); [|by rewrite finalise_addr_objects, decide_False|done].
      by rewrite finalise_addr_destructed, bool_decide_eq_false_2, andb_false_l, orb_false_r.
Qed.

(** Committing the writes of an object. *)
Lemma finalise_committed des o k :
  committed_of des (finalise o) k = state_of des o k /\ state_of des (finalise o) k = state_of des o k.
Proof.
  assert (H : committed_of des (finalise o) k = state_of des o k).
  { unfold state_of, committed_of. cbn. rewrite lookup_union.
    destruct (dirtyStorage o !! k), (pendingStorage o !! k); done. }
  split; [done|]. unfold state_of at 1. cbn. by rewrite lookup_empty.
Qed.
End finalise.

Section theorem.
Context `{C : Crypto} `{B : Backend} `{BS : !BackendSpec}.

(** C15: after [Finalise], in whatever order the dirty accounts are
    visited: an account that destructed itself, or is empty when empty accounts
    are deleted, does not exist; every other dirty account keeps its balance,
    nonce and storage, and its storage is the committed one; accounts that are
    not dirty are as before; the revisions are cleared, and so are the journal and
    the refund counter when the journal has entries; a journal without entries (its
    dirty set may hold an address still, after a reverted touch) and the refund
    counter beside it are kept. *)
Theorem Finalise_correct (del : bool) (order : list Address) (d : stateDB) :
  state_ok d -> order ≡ₚ (map_to_list (dirties (journal d))).*1 ->
  let d' := Finalise_in order del d in
  (forall a o, a ∈ order -> stateObjects d !! a = Some o -> removed del o = true -> Exist d' a = false) /\
  (forall a o k, a ∈ order -> stateObjects d !! a = Some o -> removed del o = false ->
     Exist d' a = Exist d a /\ GetBalance d' a = GetBalance d a /\ GetNonce d' a = GetNonce d a /\
     GetState d' a k = GetState d a k /\ GetCommittedState d' a k = GetState d a k) /\
  (forall a k, a ∉ order ->
     Exist d' a = Exist d a /\ GetBalance d' a = GetBalance d a /\ GetNonce d' a = GetNonce d a /\
     GetState d' a k = GetState d a k /\ GetCommittedState d' a k = GetCommittedState d a k) /\
  validRevisions d' = [] /\
  (entries (journal d) <> [] -> journal d' = newJournal /\ refund d' = 0) /\
  (entries (journal d) = [] -> journal d' = journal d /\ refund d' = refund d).
Proof.
  intros [W _] Hp. cbv zeta.
  assert (Hn : NoDup order) by (rewrite Hp; apply NoDup_fst_map_to_list).
  destruct (finalise_all del order d Hn (wo_filed _ W)) as (H1 & H2 & H3).
  set (d1 := foldl (finalise_addr del) d order) in *.
  assert (Hj : journal d1 = journal d /\ refund d1 = refund d).
  { unfold d1. clear. revert d. induction order as [|a order IH]; intros d; [done|]. cbn [foldl].
    destruct (IH (finalise_addr del d a)) as [-> ->].
    unfold finalise_addr. destruct (stateObjects d !! a); [|done]. repeat case_match; done. }
  destruct Hj as [Hj Hrf].
  assert (Hv : forall a, view (Finalise_in order del d) a = view d1 a).
  { intros a. unfold Finalise_in, clearJournalAndRefund, view. fold d1. by destruct (zlen (entries (journal d1)) >? 0). }
  assert (Hd : forall a, destructed (Finalise_in order del d) a = destructed d1 a).
  { intros a. unfold Finalise_in, clearJournalAndRefund, destructed. fold d1. by destruct (zlen (entries (journal d1)) >? 0). }
  unfold Exist, GetBalance, GetNonce, GetState, GetCommittedState.
  split; [|split; [|split; [|split; [|split]]]].
  - intros a o Ha Ho Hr. rewrite with_object_spec, Hv. unfold view. rewrite H1, decide_True, Ho by done.
    cbn. unfold finalised. by rewrite Hr.
  - intros a o k Ha Ho Hr. rewrite Hd, (H3 a o) by done. rewrite !with_object_spec, Hv. unfold view.
    rewrite H1, decide_True, Ho by done. cbn. unfold finalised. rewrite Hr. cbn [deleted finalise with_dirty with_pending].
    destruct (deleted o); [done|]. rewrite !so_state_fst, so_committed_fst.
    by destruct (finalise_committed (destructed d a) o k) as [-> ->].
  - intros a k Ha. rewrite Hd, H2 by done. rewrite !with_object_spec, Hv. unfold view.
    by rewrite H1, decide_False.
  - done.
  - intros He. unfold Finalise_in, clearJournalAndRefund. fold d1. rewrite Hj.
    destruct (entries (journal d)) as [|e l] eqn:El; [done|]. zcase; [done|].
    rewrite zlen_cons in *. pose proof (zlen_nonneg l). lia.
  - intros He. unfold Finalise_in, clearJournalAndRefund. fold d1. rewrite Hj, He. change (zlen (@nil journalEntry) >? 0) with false. by rewrite <- Hj, <- Hrf.
Qed.
End theorem.

(** A write and a self-destruct in one transaction. *)
Lemma Finalise_correct_witness :
  let d := snd (Suicide toy_user (SetState toy_contract 1 9 New)) in
  Exist (Finalise true d) toy_user = false /\ GetCommittedState (Finalise true d) toy_contract 1 = 9.
Proof.
  intros d. assert (S : state_ok d).
  { eapply step_ok; [|apply Suicide_step; apply SetState_step; apply New_ok].
    eapply step_ok; [apply New_ok | apply SetState_step; apply New_ok]. }
  destruct (Finalise_correct true (map_to_list (dirties (journal d))).*1 d S (Permutation_refl _)) as (H1 & H2 & _).
  split.
  - eapply (H1 toy_user); [vm_compute; set_solver | vm_compute; reflexivity | reflexivity].
  - edestruct (H2 toy_contract) as (_ & _ & _ & _ & G);
      [vm_compute; set_solver | vm_compute; reflexivity | reflexivity |].
    unfold Finalise. rewrite G. vm_compute. reflexivity.
Defined.
