(* ===== verification/EvmTables.v ===== *)
(** * The instruction sets and the extra EIPs

    The sets the forks build are well formed and only grow; the table an
    interpreter reads after [EnableEIP] has the operations of the EIP; and what
    copying a table of pointers does to the package-level sets. *)

From S2P Require Import Prelude Uint256 Config Common EvmAnalysis EvmStack EvmMemory Rlp EvmState.
From S2P Require Import EvmGas EvmCalls EvmInstructions EvmOpcodes EvmJumpTable EvmInterpreter.
From S2P Require Import EvmSpec EvmInvariant EvmExec EvmCallSpec EvmGasSpec EvmSafety Instances.

Local Open Scope Z_scope.

#[export] Instance execId_eq_dec : EqDecision execId.
Proof. solve_decision. Defined.

(** ** The selected set *)

(** What every entry of a table satisfies, whatever the environment: it checks for the
    words its instruction takes and leaves room for the words it pushes, sizes the
    memory the instruction accesses, and prices it. *)
Record entry_shape (o : operation) : Prop := {
  es_args : args_ok (execute o) = true;
  es_min : fst (stack_io (execute o)) <= op_minStack o;
  es_max : op_maxStack o + snd (stack_io (execute o)) - fst (stack_io (execute o)) <= StackLimit;
  es_const : 0 <= constantGas o;
  es_mem : memorySize o = mem_of (execute o);
  es_dyn :
    match dynamicGas o with
    | None => mem_of (execute o) = None /\ is_call (execute o) = false /\
              (halts (execute o) = true \/ 1 <= constantGas o)
    | Some g =>
      gas_needs g <= op_minStack o /\ (uses_mem g = true \/ mem_of (execute o) = None) /\
      (is_call (execute o) = true -> prices_call (execute o) g = true) /\
      (halts (execute o) = true \/ 1 <= constantGas o \/
       (positive g = true /\ is_call (execute o) = false))
    end;
}.

Lemma entry_wf_shape env o : entry_wf env o -> entry_shape o.
Proof. intros [? _ ? ? ? ? Hd]. split; try done. destruct (dynamicGas o); naive_solver. Qed.

(** An environment that has everything. *)
Definition full_env : Env :=
  mkEnv (fun _ => 0) 0 0 0 0 0 (Some 0) (Some 0) 0 0
    {| ChainID := Some 1; HomesteadBlock := Some 0; EIP150Block := Some 0;
       LondonBlock := Some 0; TerminalTotalDifficulty := Some 0 |} false [].

Lemma full_flags : flags full_env = Build_Flags true true true true true.
Proof. vm_compute. reflexivity. Qed.

Lemma table_entry env jt op o : table_ok (flags env) jt = true -> jt !! op = Some o -> entry_wf env o.
Proof.
  intros T Ho. unfold table_ok in T. apply andb_prop in T as [T _]. apply andb_prop in T as [_ Ha].
  apply op_ok_entry. rewrite forallb_forall in Ha. apply Ha. apply list_elem_of_In. by eapply list_elem_of_lookup_2.
Qed.

Lemma selected_full r : exists jt, selectInstructionSet r = Ok jt /\ table_ok (flags full_env) jt = true.
Proof.
  destruct tables_computed_ok as (f & h & t & l & m & Ef & Eh & Et & El & Em & Tf & Th & Tt & Tl & Tm).
  rewrite full_flags. unfold selectInstructionSet. rewrite Ef, Eh, Et, El, Em. clear Ef Eh Et El Em. repeat case_match; eauto.
Qed.

(** C40: whatever rules are active, the interpreter selects a table of 256 entries, each
    of which checks for the words its instruction takes, leaves room for the words it
    pushes under the stack limit of 1024, sizes the memory the instruction accesses,
    prices what it gives to a callee, and costs gas unless it ends its frame.  When
    moreover the block has the fields that its fork reads (chain id and base fee from
    London on, with EIP-150 active), every entry finds what its instruction reads of
    the environment. *)
Theorem selected_tables_are_well_formed (env : Env) :
  exists jt, selectInstructionSet (chainRules env) = Ok jt /\ length jt = 256%nat /\
    (forall op o, jt !! op = Some o -> entry_shape o) /\
    (env_ok env -> forall op o, jt !! op = Some o -> entry_wf env o).
Proof.
  destruct (selected_full (chainRules env)) as (jt & E & T). exists jt. split; [exact E|]. split.
  { unfold table_ok in T. apply andb_prop in T as [T _]. apply andb_prop in T as [Hl _]. by apply bool_decide_eq_true in Hl. }
  split; [intros op o Ho; by eapply entry_wf_shape, table_entry|]. intros He.
  destruct (selectInstructionSet_ok env He) as (jt' & E' & T'). assert (jt' = jt) as -> by congruence.
  intros op o Ho. by eapply table_entry.
Qed.

(** CALL in the table of the London rules: seven words, a memory function and a price. *)
Lemma selected_tables_are_well_formed_witness :
  exists jt o, selectInstructionSet (chainRules (toy_env true)) = Ok jt /\ length jt = 256%nat /\
    jt !! 241%nat = Some o /\ execute o = I_opCall /\ 7 <= op_minStack o /\ memorySize o = Some M_memoryCall /\
    prices_call I_opCall (default G_gasCall (dynamicGas o)) = true.
Proof.
  destruct (selected_tables_are_well_formed (toy_env true)) as (jt & E & L & S & _).
  assert (F : exists o, (jt ← selectInstructionSet (chainRules (toy_env true)); or_panic PanicNil (jt !! 241%nat)) = Ok o /\ execute o = I_opCall)
    by (eexists; vm_compute; split; reflexivity).
  destruct F as (o & F & X). rewrite E in F. cbn [mbind res_bind] in F. destruct (jt !! 241%nat) as [o'|] eqn:Eo; [|discriminate F].
  injection F as ->. exists jt, o. destruct (S _ _ Eo) as [_ Hmin _ _ Hmem Hdyn]. rewrite X in Hmin, Hmem, Hdyn.
  split; [exact E|]. split; [exact L|]. split; [exact Eo|]. split; [exact X|]. split; [exact Hmin|]. split; [exact Hmem|].
  destruct (dynamicGas o) as [g|]; [apply Hdyn; reflexivity|]. destruct Hdyn as [Hdyn _]. discriminate Hdyn.
Defined.

(** ** Forks add instructions *)

(** Every instruction of [a] is in [b], with the same function, except at the
    opcodes [ex]. *)
Definition grows (ex : list Z) (a b : JumpTable) : bool :=
  forallb (fun i => match a !! i, b !! i with
                    | Some x, Some y =>
                      bool_decide (execute x = I_opUndefined) || bool_decide (execute y = execute x) ||
                      bool_decide (Z.of_nat i ∈ ex)
                    | _, _ => false
                    end) (seq 0 256).

(** The sets in the order of the forks. *)
Definition instruction_sets : list (res JumpTable) := [
  newFrontierInstructionSet; newHomesteadInstructionSet; newTangerineWhistleInstructionSet;
  newSpuriousDragonInstructionSet; newByzantiumInstructionSet; newConstantinopleInstructionSet;
  newIstanbulInstructionSet; newBerlinInstructionSet; newLondonInstructionSet; newMergeInstructionSet].

Fixpoint chain_grows (l : list (res JumpTable)) : bool :=
  match l with
  | Ok a :: (Ok b :: _) as r => grows [RANDOM] a b && chain_grows r
  | [Ok _] => true
  | _ => false
  end.

Lemma chain_grows_lookup l i a b : chain_grows l = true -> l !! i = Some a -> l !! S i = Some b ->
  exists ja jb, a = Ok ja /\ b = Ok jb /\ grows [RANDOM] ja jb = true.
Proof.
  revert i. induction l as [|x l IH]; intros i H Ha Hb; [done|].
  destruct x as [ja| |]; [|destruct l; discriminate H..]. destruct l as [|y l]; [by destruct i|].
  destruct y as [jb| |]; [|cbn in H; destruct l; discriminate H..].
  change (grows [RANDOM] ja jb && chain_grows (Ok jb :: l) = true) in H. apply andb_prop in H as [H1 H2].
  destruct i as [|i]; [|by apply (IH i)]. cbn in Ha, Hb. simplify_eq. eauto.
Qed.

Lemma grows_lookup ex a b op x y : grows ex a b = true -> (op < 256)%nat ->
  a !! op = Some x -> b !! op = Some y -> execute x <> I_opUndefined ->
  execute y = execute x \/ Z.of_nat op ∈ ex.
Proof.
  unfold grows. rewrite forallb_forall. intros H Hop Ha Hb Hu.
  specialize (H op). rewrite Ha, Hb in H. rewrite in_seq in H. specialize (H ltac:(lia)).
  apply orb_prop in H as [H|H]; [apply orb_prop in H as [H|H]|]; to_prop; auto. done.
Qed.

Lemma instruction_sets_grow : chain_grows instruction_sets = true.
Proof. vm_compute. reflexivity. Qed.

(** all ten instruction sets are built without the panic of [validate],
    and each keeps every instruction of the one before it, with the same
    function, but for DIFFICULTY, which the merge replaces by RANDOM. *)
Theorem forks_only_add_instructions (fork : nat) (a b : res JumpTable) :
  instruction_sets !! fork = Some a -> instruction_sets !! S fork = Some b ->
  exists ja jb, a = Ok ja /\ b = Ok jb /\
    forall op x y, (op < 256)%nat -> ja !! op = Some x -> jb !! op = Some y ->
      execute x <> I_opUndefined -> execute y = execute x \/ Z.of_nat op = RANDOM.
Proof.
  intros Ha Hb. destruct (chain_grows_lookup _ _ _ _ instruction_sets_grow Ha Hb) as (ja & jb & -> & -> & G).
  exists ja, jb. split; [done|]. split; [done|]. intros op x y Hop Hx Hy Hu.
  destruct (grows_lookup _ _ _ _ _ _ G Hop Hx Hy Hu) as [?|H]; [by left|].
  right. by apply list_elem_of_singleton in H.
Qed.

Lemma forks_only_add_instructions_witness :
  exists ja jb, newBerlinInstructionSet = Ok ja /\ newLondonInstructionSet = Ok jb /\
    forall x y, ja !! 1%nat = Some x -> jb !! 1%nat = Some y -> execute x <> I_opUndefined ->
      execute y = execute x \/ 1 = RANDOM.
Proof.
  destruct (forks_only_add_instructions 7 newBerlinInstructionSet newLondonInstructionSet eq_refl eq_refl)
    as (ja & jb & Ea & Eb & H).
  exists ja, jb. split; [exact Ea|]. split; [exact Eb|]. intros x y. apply (H 1%nat). repeat constructor.
Defined.

(** ** Extra EIPs *)

(** Edits of opcodes. *)
Definition edit_op (e : edit) : OpCode :=
  match e with Assign op _ | AssignGas op _ | AssignDynamic op _ => op end.

Lemma length_apply_edit jt e : length (apply_edit jt e) = length jt.
Proof. destruct e; cbn; unfold jt_set, jt_upd; [apply length_insert | apply length_alter..]. Qed.

Lemma lookup_resolve t i : resolve t !! i = (fun o => default o (own t !! Z.of_nat i)) <$> global t !! i.
Proof. unfold resolve. by rewrite list_lookup_imap. Qed.

(** An edit through the shared pointers is the edit of the table the interpreter
    reads. *)
Lemma resolve_apply_shared t e : 0 <= edit_op e < zlen (global t) ->
  resolve (apply_shared t e) = apply_edit (resolve t) e.
Proof.
  intros Hop. destruct (lookup_lt_is_Some_2 (global t) (Z.to_nat (edit_op e))) as [g Hg]; [unfold zlen in Hop; lia|].
  assert (Hupd : forall op f, 0 <= op -> global t !! Z.to_nat op = Some g ->
    resolve (match own t !! op with
             | Some o => {| global := global t; own := <[op := f o]> (own t) |}
             | None => {| global := jt_upd op f (global t); own := own t |}
             end) = jt_upd op f (resolve t)).
  { intros op f H0 Hgo. apply list_eq. intros i. unfold jt_upd. destruct (decide (i = Z.to_nat op)) as [->|N].
    - rewrite list_lookup_alter_eq. destruct (own t !! op) as [o|] eqn:Eo; rewrite !lookup_resolve;
        cbn [global own]; rewrite ?list_lookup_alter_eq, Hgo; cbn; rewrite Z2Nat.id, ?Eo by done.
      + by rewrite lookup_insert_eq.
      + done.
    - rewrite list_lookup_alter_ne by done. rewrite !lookup_resolve.
      assert (Z.of_nat i <> op) by lia. destruct (own t !! op); cbn.
      + by rewrite lookup_insert_ne.
      + by rewrite list_lookup_alter_ne. }
  destruct e as [op o|op g'|op g']; cbn [apply_shared apply_edit edit_op] in *; [|by apply Hupd; [lia|]..].
  apply list_eq. intros i. unfold jt_set. rewrite lookup_resolve. cbn. destruct (decide (i = Z.to_nat op)) as [->|N].
  - rewrite Hg. cbn. rewrite Z2Nat.id by lia. rewrite lookup_insert_eq. cbn.
    rewrite list_lookup_insert_eq; [done|]. unfold resolve. rewrite length_imap. unfold zlen in Hop. lia.
  - rewrite list_lookup_insert_ne by done. rewrite lookup_resolve.
    assert (op <> Z.of_nat i) by lia. by rewrite lookup_insert_ne.
Qed.

Lemma length_apply_shared t e : length (global (apply_shared t e)) = length (global t).
Proof. destruct e; cbn; [done|..]; (destruct (own t !! op); cbn; [done | apply length_alter]). Qed.

Lemma resolve_edits es t : Forall (fun e => 0 <= edit_op e < zlen (global t)) es ->
  resolve (foldl apply_shared t es) = enable es (resolve t) /\
  length (global (foldl apply_shared t es)) = length (global t).
Proof.
  revert t. induction es as [|e es IH]; intros t H; [done|]. apply Forall_cons in H as [He H].
  cbn [foldl]. destruct (IH (apply_shared t e)) as [-> ->].
  { eapply Forall_impl; [exact H|]. intros x. unfold zlen. by rewrite length_apply_shared. }
  rewrite resolve_apply_shared by done. by rewrite length_apply_shared.
Qed.

(** The edits of every activator are of the 256 opcodes. *)
Lemma activators_range eip es : assoc eip activators = Some es -> Forall (fun e => 0 <= edit_op e < 256) es.
Proof.
  intros H. assert (A : Forall (fun p => Forall (fun e => 0 <= edit_op e < 256) (snd p)) activators)
    by (repeat constructor; by compute).
  revert H A. generalize activators. intros l. induction l as [|[k v] l IH]; cbn; [done|].
  intros H A. apply Forall_cons in A as [A1 A2]. destruct (decide (eip = k)); [by simplify_eq | by apply IH].
Qed.

(** The edits a list of valid EIPs asks for, in its order. *)
Definition eip_edits (eips : list Z) : list edit :=
  mjoin ((fun eip => default [] (assoc eip activators)) <$> eips).

Lemma extraEips_valid done_ eips t : length (global t) = 256%nat -> Forall (fun e => ValidEip e = true) eips ->
  exists t', extraEips (length eips) (zlen done_) (done_ ++ eips) (zlen (done_ ++ eips)) t =
               Ok (done_ ++ eips, t') /\
    resolve t' = enable (eip_edits eips) (resolve t).
Proof.
  revert done_ t. induction eips as [|eip eips IH]; intros done_ t Hl Hv.
  - exists t. cbn. unfold zlen. by rewrite Nat2Z.id, firstn_all.
  - apply Forall_cons in Hv as [Hv Hvs]. unfold ValidEip in Hv. apply bool_decide_eq_true in Hv as [es Hes].
    cbn [length extraEips]. unfold nth_or_panic. rewrite bool_decide_eq_true_2 by apply zlen_nonneg.
    replace (Z.to_nat (zlen done_)) with (length done_) by (unfold zlen; lia).
    rewrite list_lookup_middle by done. cbn [or_panic mbind res_bind]. unfold EnableEIP. rewrite Hes.
    cbn [mbind option_bind].
    destruct (resolve_edits es t) as [E1 E2].
    { unfold zlen. rewrite Hl. by apply (activators_range eip). }
    destruct (IH (done_ ++ [eip]) (foldl apply_shared t es)) as (t' & E & Er); [by rewrite E2 | done|].
    rewrite <- app_assoc in E. cbn in E. rewrite zlen_app in E. change (zlen [eip]) with 1 in E.
    exists t'. split; [exact E|]. rewrite Er, E1.
    change (eip_edits (eip :: eips)) with (default [] (assoc eip activators) ++ eip_edits eips).
    rewrite Hes. unfold enable. by rewrite foldl_app.
Qed.

(** an interpreter built with extra EIPs that are all known keeps them
    all, and the table it reads is the one its chain rules select with the edits
    of those EIPs applied, in order. *)
Theorem extra_eips_are_enabled (r : Rules) (jt : JumpTable) (eips : list Z) :
  selectInstructionSet r = Ok jt -> length jt = 256%nat -> Forall (fun e => ValidEip e = true) eips ->
  exists t, NewEVMInterpreter r eips = Ok (eips, t) /\ resolve t = enable (eip_edits eips) jt.
Proof.
  intros Hs Hl Hv. unfold NewEVMInterpreter. rewrite Hs. cbn [mbind res_bind].
  destruct (extraEips_valid [] eips {| global := jt; own := ∅ |} Hl Hv) as (t & E & Er).
  exists t. split; [exact E|]. rewrite Er. f_equal. apply list_eq. intros i. rewrite lookup_resolve. cbn.
  by destruct (jt !! i).
Qed.

(** Two EIPs on the Tangerine Whistle table. *)
Definition tangerine_rules : Rules :=
  {| rChainID := 1; IsHomestead := true; IsEIP150 := true; IsLondon := false; IsMerge := false |}.

Lemma extra_eips_are_enabled_witness :
  exists jt t, selectInstructionSet tangerine_rules = Ok jt /\
    NewEVMInterpreter tangerine_rules [1344; 3855] = Ok ([1344; 3855], t) /\
    resolve t = enable (eip_edits [1344; 3855]) jt.
Proof.
  eexists. assert (E : selectInstructionSet tangerine_rules = Ok _) by (vm_compute; reflexivity).
  destruct (extra_eips_are_enabled tangerine_rules _ [1344; 3855] E) as (t & H1 & H2);
    [reflexivity | repeat constructor | ].
  exists t. split; [exact E|]. split; [exact H1 | exact H2].
Defined.

(** enabling an extra EIP writes through the copied pointers into the
    package-level instruction set: after one interpreter was built with EIP-2200
    on the Tangerine Whistle rules, the set every later interpreter of those
    rules shares prices SLOAD at 800 instead of 200.  And two unknown EIPs in a
    row make the loop slice out of range. *)
Theorem extra_eips_pollute_the_shared_set :
  (exists t jt o o', NewEVMInterpreter tangerine_rules [2200] = Ok ([2200], t) /\
     selectInstructionSet tangerine_rules = Ok jt /\
     jt !! Z.to_nat SLOAD = Some o /\ constantGas o = 200 /\
     global t !! Z.to_nat SLOAD = Some o' /\ constantGas o' = 800) /\
  NewEVMInterpreter tangerine_rules [9998; 9999] = Panic PanicSlice.
Proof.
  split; [|vm_compute; reflexivity]. do 4 eexists. split; [vm_compute; reflexivity|].
  split; [vm_compute; reflexivity|]. split; [vm_compute; reflexivity|]. split; [vm_compute; reflexivity|].
  split; vm_compute; reflexivity.
Qed.
