(* ===== verification/EvmTheorems.v ===== *)
(** * Correctness of the virtual machine

    What holds of every call into the machine, over every state database that
    keeps its contract, with the instruction set the chain rules select. *)

From S2P Require Import Prelude Uint256 Config Common EvmAnalysis EvmStack EvmMemory Rlp EvmState.
From S2P Require Import EvmGas EvmCalls EvmInstructions EvmOpcodes EvmJumpTable EvmInterpreter.
From S2P Require Import EvmSpec EvmInvariant EvmExec EvmCallSpec EvmGasSpec EvmSafety.
From S2P Require Import StateDB StateSpec StateRevert Instances.

Local Open Scope Z_scope.

(** ** Messages

    The four ways to call an account.  A delegate call is made by a contract,
    whose own caller and value it keeps. *)
Inductive message :=
| MCall (from : ContractRef) (addr : Address) (value : Z)
| MCallCode (from : ContractRef) (addr : Address) (value : Z)
| MDelegateCall (self callerAddress : Address) (value : Z) (addr : Address)
| MStaticCall (from : ContractRef) (addr : Address).

Section theorems.
Context `{U : Uint256} `{US : !Uint256Spec U} `{C : Crypto} `{CS : !CryptoSpec C}.
Context {DB : Type} `{SDB : StateDB DB} `{SS : !StateDBSpec DB}.
Context (env : Env).

(** The entry point of a message. *)
Definition deliver (jt : JumpTable) (m : message) (input : bytes) (gas : Z) (e : EVM DB)
    : res (bytes * Z * option Err * EVM DB) :=
  match m with
  | MCall from addr v => EVM_Call env jt from addr input gas v e
  | MCallCode from addr v => EVM_CallCode env jt from addr input gas v e
  | MDelegateCall self callerAddress v addr =>
    EVM_DelegateCall env jt (ContractCaller self callerAddress v) addr input gas e
  | MStaticCall from addr => EVM_StaticCall env jt from addr input gas e
  end.

(** The entry points of creations: CREATE, or CREATE2 with a salt. *)
Definition creation (jt : JumpTable) (salt : option Z) (cr : ContractRef) (code : bytes) (gas v : Z) (e : EVM DB)
    : res (bytes * Address * Z * option Err * EVM DB) :=
  match salt with
  | None => EVM_Create env jt cr code gas v e
  | Some salt => EVM_Create2 env jt cr code gas v salt e
  end.

Definition transfers (m : message) : bool :=
  match m with MCall _ _ v => negb (v =? 0) | _ => false end.

(** A well-formed machine asked to handle a message: the environment has the
    fields its fork reads, the table is the one of the fork, and a read-only
    machine is not asked to move value. *)
Record ready (jt : JumpTable) (m : message) (input : bytes) (gas : Z) (e : EVM DB) : Prop := {
  rd_env : env_ok env;
  rd_table : selectInstructionSet (chainRules env) = Ok jt;
  rd_input : small input;
  rd_gas : is_u64 gas;
  rd_vm : vm_ok e;
  rd_value : readOnly e = true -> transfers m = false;
}.

Lemma selected_table jt : env_ok env -> selectInstructionSet (chainRules env) = Ok jt ->
  table_ok (flags env) jt = true.
Proof. intros He Hs. destruct (selectInstructionSet_ok env He) as (jt' & E & ?). congruence. Qed.

Lemma deliver_spec jt m input gas e : ready jt m input gas e ->
  wp (deliver jt m input gas e)
     (call_post gas (match m with MStaticCall _ _ => true | _ => readOnly e end) e).
Proof.
  intros [He Ht Hi Hg Hv Hro]. pose proof (selected_table jt He Ht) as T.
  pose proof (Run_ok (DB := DB) env jt T (2 ^ 64)) as R. unfold is_u64 in Hg. destruct m; cbn [deliver].
  - apply (Call_spec (2 ^ 64)); try done; [lia|]. intros H. specialize (Hro H). cbn in Hro. lia.
  - apply (CallCode_spec (2 ^ 64)); try done; lia.
  - apply (DelegateCall_spec (2 ^ 64)); try done; lia.
  - apply (StaticCall_spec (2 ^ 64)); try done; lia.
Qed.

(** C11: every call returns: with the fuel [Run] takes from the gas, no call
    of any kind, however it recurses, runs out of fuel. *)
Theorem calls_terminate jt m input gas e :
  ready jt m input gas e -> deliver jt m input gas e <> NoFuel.
Proof. intros H E. pose proof (deliver_spec _ _ _ _ _ H) as W. by rewrite E in W. Qed.

(** C6: a call never indexes the stack, the memory, the code, the jump
    destination bitmap or the jump table out of range, never dereferences a
    missing context field and never reverts to an unknown revision: the only
    panics are the refund counter below zero and the access list canary. *)
Theorem calls_stay_in_range jt m input gas e p :
  ready jt m input gas e -> deliver jt m input gas e = Panic p ->
  p = PanicRefund \/ p = PanicAccessList.
Proof. intros H E. pose proof (deliver_spec _ _ _ _ _ H) as W. by rewrite E in W. Qed.

(** C12: a call returns no more gas than it was given, and leaves the depth,
    the read-only flag and the abort flag as it found them. *)
Theorem calls_respect_gas jt m input gas e ret leftover err e' :
  ready jt m input gas e -> deliver jt m input gas e = Ok (ret, leftover, err, e') ->
  0 <= leftover <= gas /\ depth e' = depth e /\ readOnly e' = readOnly e /\ abort e' = abort e.
Proof.
  intros H E. pose proof (deliver_spec _ _ _ _ _ H) as W. rewrite E in W.
  destruct W as (_ & [Hl _] & Hle & _ & [R1 R2 R3 _] & _). done.
Qed.

(** C1: a call that fails changes nothing: no getter of the state tells
    whether it was made, and neither do the logs and the preimages, whatever its
    callees did before the failure. *)
Theorem failed_calls_change_nothing jt m input gas e ret leftover err e' :
  ready jt m input gas e -> deliver jt m input gas e = Ok (ret, leftover, Some err, e') ->
  same_all (db e) (db e').
Proof.
  intros H E. pose proof (deliver_spec _ _ _ _ _ H) as W. rewrite E in W.
  destruct W as (_ & _ & _ & _ & _ & Hs). by apply Hs.
Qed.

(** C2: a static call, and any call made inside a read-only frame, leaves
    balances, nonces, codes, storage and the destructed accounts as they are,
    whatever code it runs and whether it succeeds or not. *)
Theorem static_calls_read_only jt m input gas e ret leftover err e' :
  ready jt m input gas e -> (readOnly e = true \/ exists from addr, m = MStaticCall from addr) ->
  deliver jt m input gas e = Ok (ret, leftover, err, e') -> same_world (db e) (db e').
Proof.
  intros H Hro E. pose proof (deliver_spec _ _ _ _ _ H) as W. rewrite E in W.
  destruct W as (_ & _ & _ & _ & [_ _ _ R] & _). eapply readonly_reach; [|apply ok_db, H].
  destruct Hro as [Hro|(f & a & ->)]; [|exact R]. rewrite Hro in R. by destruct m.
Qed.

(** C13: a creation, by CREATE or by CREATE2, ends: it returns, or panics with the
    refund counter or the SSTORE canary.  It returns no more gas than it was given;
    when it fails every observable of the state, logs included, is as it found it,
    except for the creator's nonce once it was raised, and except that before
    Homestead an account whose code could not be paid for stays. *)
Theorem creations_are_settled jt cr code gas v salt e :
  ready jt (MStaticCall cr 0) code gas e -> readOnly e = false ->
  match creation jt salt cr code gas v e with
  | Ok (ret, addr, leftover, err, e') =>
    0 <= leftover <= gas /\ depth e' = depth e /\ readOnly e' = readOnly e /\
    match err with
    | None => True
    | Some er =>
      same_all (db e) (db e') \/
      same_all (SetNonce (ref_address cr) (add64 (GetNonce (db e) (ref_address cr)) 1) (db e)) (db e') \/
      (er = ErrCodeStoreOutOfGas /\ IsHomestead (chainRules env) = false)
    end
  | Panic p => p = PanicRefund \/ p = PanicAccessList
  | NoFuel => False
  end.
Proof.
  intros [He Ht Hi Hg Hv _] Hro. pose proof (selected_table jt He Ht) as T.
  pose proof (Run_ok (DB := DB) env jt T (2 ^ 64)) as R. unfold is_u64 in Hg.
  assert (W : wp (creation jt salt cr code gas v e) (create_post env cr gas e)).
  { destruct salt as [s|]; [apply (Create2_spec env (2 ^ 64)) | apply (Create_spec env (2 ^ 64))]; (done || lia). }
  destruct (creation jt salt cr code gas v e) as [[[[[ret addr] leftover] err] e']| |]; [|done|done].
  destruct W as (_ & [Hl _] & Hle & _ & [R1 R2 _ _] & Hs). done.
Qed.

(** one round of the interpreter loop keeps the frame well formed (the
    stack holds at most 1024 words of 256 bits, the memory whole words that
    were paid for, the program counter a [uint64]), keeps its code and address,
    and goes on to another round only with less gas. *)
Theorem rounds_keep_the_invariant jt (f f' : Frame DB) :
  table_ok (flags env) jt = true -> frame_inv f -> zlen (stk f) <= StackLimit ->
  loop_round env (Run env jt) jt f = Ok (Next f') ->
  frame_inv f' /\ zlen (stk f') <= StackLimit /\ Gas (ctr f') < Gas (ctr f) /\
  Code (ctr f') = Code (ctr f) /\ self (ctr f') = self (ctr f).
Proof.
  intros Ht Hf Hs E. pose proof (loop_round_ok env (Run env jt) jt f Ht (Run_ok env jt Ht _) Hf Hs) as W.
  rewrite E in W. destruct W as (? & ? & [? ? _] & ?). done.
Qed.

(** C19: JUMP goes to its destination when a JUMPDEST instruction of the code
    starts there, and fails with an invalid jump otherwise: never into the data
    of a PUSH. *)
Theorem jumps_land_on_jumpdests (f : Frame DB) (pos : Z) (s : Stack) :
  frame_inv f -> abort (vm f) = false -> stk f = pos :: s ->
  exists f' err, opJump f = Ok (f', ([], err)) /\ stk f' = s /\
    ((jumpdest_at (Code (ctr f)) pos /\ err = None /\ add64 (pc f') 1 = pos) \/
     (~ jumpdest_at (Code (ctr f)) pos /\ err = Some ErrInvalidJump)).
Proof.
  intros Hf Ha Hs. destruct f as [p st m c e]. cbn in Ha, Hs. subst st.
  pose proof (ok_stk _ Hf) as Hw. cbn in Hw. apply Forall_cons in Hw as [Wp Ws].
  assert (opJump (mkFrame p (pos :: s) m c e) = jump_to pos (mkFrame p s m c e)) as ->
    by (unfold opJump; cbn [vm]; rewrite Ha; reflexivity).
  unfold jump_to. cbn [ctr vm].
  destruct (validJumpdest_spec c pos e Wp (ok_ctr _ Hf) (ok_cache _ (ok_vm _ Hf)))
    as (ok & c' & j & -> & _ & _ & _ & Hiff).
  cbn [mbind res_bind]. destruct ok; cbn [negb].
  - eexists _, _. split; [reflexivity|]. split; [done|]. left.
    destruct Hiff as [Hj _]. specialize (Hj eq_refl). split; [done|]. split; [done|]. cbn.
    assert (Hlt : 0 <= pos < 2 ^ 64).
    { destruct Hj as [Hj _]. apply lookup_lt_Some in Hj. destruct (ok_code _ (ok_ctr _ Hf)) as [_ Hc].
      unfold zlen in Hc. cbn in Hc, Hj. unfold is_word in Wp. lia. }
    rewrite Uint64_spec, Z.mod_small by done. unfold add64, sub64, u64. rewrite Zplus_mod_idemp_l.
    rewrite Z.sub_add. by apply Z.mod_small.
  - eexists _, _. split; [reflexivity|]. split; [done|]. right. split; [|done].
    intros Hj. apply Hiff in Hj. done.
Qed.
End theorems.

(** ** In the concrete world *)

Definition table_of (r : res JumpTable) : JumpTable := match r with Ok jt => jt | _ => [] end.
Definition toy_table (london : bool) : JumpTable :=
  table_of (selectInstructionSet (chainRules (toy_env london))).

Lemma toy_env_ok london : env_ok (toy_env london).
Proof.
  split; [by compute|]. intros _. split; [by eexists|]. split; [by eexists|]. reflexivity.
Qed.

Lemma toy_table_selected london :
  selectInstructionSet (chainRules (toy_env london)) = Ok (toy_table london).
Proof.
  unfold toy_table. destruct (selectInstructionSet_ok _ (toy_env_ok london)) as (jt & E & _).
  rewrite E. reflexivity.
Qed.

(** The user calls the contract, which writes its storage. *)
Definition toy_call : message := MCall (AccountRef toy_user) toy_contract 0.

Lemma toy_ready london m gas : is_u64 gas ->
  ready (toy_env london) (toy_table london) m [] gas (toy_vm State.New).
Proof.
  intros Hg. split; [apply toy_env_ok | apply toy_table_selected | apply small_nil | done
                      | apply toy_vm_ok, New_ok | done].
Qed.

Lemma calls_terminate_witness :
  deliver (toy_env false) (toy_table false) toy_call [] 100000 (toy_vm State.New) <> NoFuel.
Proof. apply calls_terminate. apply toy_ready. by compute. Defined.

(** Under the London rules a contract that was not put in the access list hits
    the canary of the SSTORE price. *)
Lemma calls_stay_in_range_witness :
  deliver (toy_env true) (toy_table true) toy_call [] 100000 (toy_vm State.New) = Panic PanicAccessList /\
  (PanicAccessList = PanicRefund \/ PanicAccessList = PanicAccessList).
Proof.
  assert (R : ready (toy_env true) (toy_table true) toy_call [] 100000 (toy_vm State.New))
    by (apply toy_ready; by compute).
  assert (E : deliver (toy_env true) (toy_table true) toy_call [] 100000 (toy_vm State.New) = Panic PanicAccessList)
    by (vm_compute; reflexivity).
  split; [exact E|]. exact (calls_stay_in_range _ _ _ _ _ _ _ R E).
Defined.

(** A call that has the gas for the write, and one that has not. *)
Definition toy_run (gas : Z) := deliver (toy_env false) (toy_table false) toy_call [] gas (toy_vm State.New).

Lemma toy_run_ready gas : is_u64 gas ->
  ready (toy_env false) (toy_table false) toy_call [] gas (toy_vm State.New).
Proof. apply toy_ready. Qed.

Lemma calls_respect_gas_witness :
  exists ret leftover e', toy_run 100000 = Ok (ret, leftover, None, e') /\
    0 <= leftover <= 100000 /\ depth e' = 0 /\ readOnly e' = false /\ abort e' = false /\
    GetState (db e') toy_contract 0 = 42.
Proof.
  pose proof (toy_run_ready 100000 ltac:(by compute)) as R.
  do 3 eexists. split; [vm_compute; reflexivity|].
  match goal with |- _ <= ?l <= _ /\ depth ?e' = _ /\ _ =>
    destruct (calls_respect_gas (toy_env false) (toy_table false) toy_call [] 100000 (toy_vm State.New)
      [] l None e' R) as (H1 & H2 & H3 & H4); [vm_compute; reflexivity|] end.
  split; [exact H1|]. split; [exact H2|]. split; [exact H3|]. split; [exact H4|]. vm_compute. reflexivity.
Defined.

Lemma failed_calls_change_nothing_witness :
  exists ret leftover err e', toy_run 1000 = Ok (ret, leftover, Some err, e') /\
    same_all State.New (db e').
Proof.
  pose proof (toy_run_ready 1000 ltac:(by compute)) as R.
  do 4 eexists. split; [vm_compute; reflexivity|].
  eapply (failed_calls_change_nothing (toy_env false) (toy_table false) toy_call [] 1000 (toy_vm State.New) _ _ _ _ R).
  vm_compute. reflexivity.
Defined.

(** A static call of the contract is refused its write. *)
Lemma static_calls_read_only_witness :
  exists ret leftover e',
    deliver (toy_env false) (toy_table false) (MStaticCall (AccountRef toy_user) toy_contract) [] 100000
      (toy_vm State.New) = Ok (ret, leftover, Some ErrWriteProtection, e') /\
    same_world State.New (db e').
Proof.
  assert (R : ready (toy_env false) (toy_table false) (MStaticCall (AccountRef toy_user) toy_contract) [] 100000
                (toy_vm State.New)) by (apply toy_ready; by compute).
  do 3 eexists. split; [vm_compute; reflexivity|].
  eapply (static_calls_read_only (toy_env false) (toy_table false) (MStaticCall (AccountRef toy_user) toy_contract)
            [] 100000 (toy_vm State.New) _ _ _ _ R).
  - right. exists (AccountRef toy_user), toy_contract. reflexivity.
  - vm_compute. reflexivity.
Defined.

(** Creations whose constructor runs out of gas. *)
Definition toy_creation (salt : option Z) :=
  creation (toy_env false) (toy_table false) salt (AccountRef toy_user) toy_code 1000 1 (toy_vm State.New).

Lemma creations_are_settled_witness :
  match toy_creation None, toy_creation (Some 7) with
  | Ok (_, _, leftover, err, _), Ok (_, _, leftover2, err2, _) =>
    0 <= leftover <= 1000 /\ err = Some ErrOutOfGas /\ 0 <= leftover2 <= 1000 /\ err2 = Some ErrOutOfGas
  | _, _ => False
  end.
Proof.
  assert (R : ready (toy_env false) (toy_table false) (MStaticCall (AccountRef toy_user) 0) toy_code 1000 (toy_vm State.New)).
  { split; [apply toy_env_ok | apply toy_table_selected | | by compute | apply toy_vm_ok, New_ok | done].
    split; [repeat constructor; by compute | by compute]. }
  pose proof (creations_are_settled (toy_env false) (toy_table false) (AccountRef toy_user) toy_code 1000 1 None
                (toy_vm State.New) R eq_refl) as H.
  pose proof (creations_are_settled (toy_env false) (toy_table false) (AccountRef toy_user) toy_code 1000 1 (Some 7)
                (toy_vm State.New) R eq_refl) as H2.
  fold (toy_creation None) in H. fold (toy_creation (Some 7)) in H2.
  assert (E : exists ret addr leftover e', toy_creation None = Ok (ret, addr, leftover, Some ErrOutOfGas, e'))
    by (do 4 eexists; vm_compute; reflexivity).
  assert (E2 : exists ret addr leftover e', toy_creation (Some 7) = Ok (ret, addr, leftover, Some ErrOutOfGas, e'))
    by (do 4 eexists; vm_compute; reflexivity).
  destruct E as (ret & addr & l & e' & E), E2 as (ret2 & addr2 & l2 & e2 & E2). rewrite E in H |- *. rewrite E2 in H2 |- *.
  split; [exact (proj1 H)|]. split; [reflexivity|]. split; [exact (proj1 H2) | reflexivity].
Defined.

(** The frame of the contract's code, before its first instruction. *)
Definition toy_frame (code : bytes) : Frame State.stateDB :=
  mkFrame 0 [] Memory.NewMemory
    (SetCallCode toy_contract (keccak256 code) code (NewContract (AccountRef toy_user) toy_contract 0 100000))
    (toy_vm State.New).

Lemma toy_frame_inv code s : small code -> wf_stack s -> frame_inv (set_stk s (toy_frame code)).
Proof.
  intros Hc Hs. split; [by compute | done | apply mem_ok_new | | apply toy_vm_ok, New_ok].
  split; [done | apply small_nil | by compute | by right; right | done].
Qed.

Lemma rounds_keep_the_invariant_witness :
  exists f', loop_round (toy_env false) (Run (toy_env false) (toy_table false)) (toy_table false)
               (set_stk [] (toy_frame toy_code)) = Ok (Next f') /\
    zlen (stk f') <= StackLimit /\ Gas (ctr f') < 100000 /\ stk f' = [42].
Proof.
  assert (T : table_ok (flags (toy_env false)) (toy_table false) = true)
    by (eapply selected_table; [apply toy_env_ok | apply toy_table_selected]).
  assert (F : frame_inv (set_stk [] (toy_frame toy_code))).
  { apply toy_frame_inv; [split; [repeat constructor; by compute | by compute] | constructor]. }
  assert (E : exists f', loop_round (toy_env false) (Run (toy_env false) (toy_table false)) (toy_table false)
               (set_stk [] (toy_frame toy_code)) = Ok (Next f') /\ stk f' = [42])
    by (eexists; split; [vm_compute; reflexivity | reflexivity]).
  destruct E as (f' & E & Es). exists f'. split; [exact E|].
  destruct (rounds_keep_the_invariant (toy_env false) (toy_table false) (set_stk [] (toy_frame toy_code)) f' T F
    ltac:(vm_compute; discriminate) E) as (_ & H1 & H2 & _).
  split; [exact H1|]. split; [exact H2 | exact Es].
Defined.

(** [PUSH1 0x5b JUMPDEST]: offset 1 holds data, offset 2 an instruction. *)
Lemma jumps_land_on_jumpdests_witness :
  exists f' err, opJump (set_stk [1] (toy_frame [96; 91; 91])) = Ok (f', ([], err)) /\ err = Some ErrInvalidJump.
Proof.
  destruct (jumps_land_on_jumpdests (set_stk [1] (toy_frame [96; 91; 91])) 1 []) as (f' & err & E & _ & H).
  - apply toy_frame_inv; [split; [repeat constructor; by compute | by compute] | repeat constructor; by compute].
  - reflexivity.
  - reflexivity.
  - exists f', err. split; [exact E|]. destruct H as [[[_ Hd] _]|[_ He]]; [|exact He].
    vm_compute in Hd. discriminate Hd.
Defined.

Lemma run_loop_fuel_irrelevant_witness :
  run_loop (toy_env false) (toy_table false) (2 ^ 17) (set_stk [] (toy_frame toy_code)) <> NoFuel.
Proof.
  assert (T : table_ok (flags (toy_env false)) (toy_table false) = true)
    by (eapply selected_table; [apply toy_env_ok | apply toy_table_selected]).
  assert (F : frame_inv (set_stk [] (toy_frame toy_code))).
  { apply toy_frame_inv; [split; [repeat constructor; by compute | by compute] | constructor]. }
  apply (run_loop_fuel_irrelevant (toy_env false) (toy_table false) _ _ T F).
  - vm_compute. discriminate.
  - vm_compute. reflexivity.
Defined.

(** ** What single instructions compute

    Shifts by any amount, pushes past the end of the code, stores and loads. *)

Section functional.
Context `{U : Uint256} `{US : !Uint256Spec U} `{C : Crypto} {DB : Type} `{SDB : StateDB DB}.

(** The instruction leaves [v] in place of the two words it takes. *)
Lemma binop_eval op (f : Frame DB) x y s : stk f = x :: y :: s ->
  binop op f = Ok (set_stk (op x y :: s) f, ([], None)).
Proof. intros E. unfold binop, popF, setTopF. rewrite E. cbn. by destruct f. Qed.

Lemma pow2_le a b : 0 <= a <= b -> 2 ^ a <= 2 ^ b.
Proof. intros. apply Z.pow_le_mono_r; lia. Qed.

(** A shift of a word by its width or more leaves its sign only. *)
Lemma shift_out x n : - 2 ^ 256 <= x < 2 ^ 256 -> 256 <= n -> x / 2 ^ n = if x <? 0 then -1 else 0.
Proof.
  intros Hx Hn. pose proof (pow2_le 256 n ltac:(lia)) as Hp. zcase.
  - symmetry. apply Z.div_unique with (2 ^ n + x); lia.
  - apply Z.div_small. lia.
Qed.

Lemma signed_range v : is_word v -> - 2 ^ 255 <= signed v < 2 ^ 255.
Proof. unfold is_word, signed, two256. intros. zcase; lia. Qed.

Lemma Uint64_word n : is_word n -> n <= 256 -> u_Uint64 n = n.
Proof. intros Hn Hl. rewrite Uint64_spec by done. unfold is_word in Hn. apply Z.mod_small. lia. Qed.

(** SHL, SHR and SAR compute the product, the quotient and the signed
    quotient by the power of two of the shift amount modulo [2^256], for every
    256-bit shift amount: the cut at 256 and the truncation of the amount to 64
    bits change nothing. *)
Theorem shifts_are_exact (f : Frame DB) (shift value : Z) (s : Stack) :
  stk f = shift :: value :: s -> is_word shift -> is_word value ->
  opSHL f = Ok (set_stk ((value * 2 ^ shift) mod two256 :: s) f, ([], None)) /\
  opSHR f = Ok (set_stk (value / 2 ^ shift :: s) f, ([], None)) /\
  opSAR f = Ok (set_stk ((signed value / 2 ^ shift) mod two256 :: s) f, ([], None)).
Proof.
  intros Hs Hsh Hv. pose proof Hsh as Hsh0. pose proof Hv as Hv0. unfold is_word, two256 in Hsh0, Hv0.
  pose proof (signed_range value Hv) as Hsg. unfold opSHL, opSHR, opSAR. rewrite !(binop_eval _ f shift value s Hs).
  assert (W256 : is_word 256) by by compute.
  unfold u_LtUint64, u_GtUint64. rewrite Lt_spec, Gt_spec by done. split; [|split]; do 4 f_equal.
  - zcase.
    + rewrite Uint64_word by (done || lia). apply Lsh_spec; [done | lia].
    + symmetry. apply Z.mod_divide; [done|]. exists (value * 2 ^ (shift - 256)).
      rewrite <- Z.mul_assoc. unfold two256. rewrite <- Z.pow_add_r by lia. f_equal. f_equal. lia.
  - zcase.
    + rewrite Uint64_word by (done || lia). apply Rsh_spec; [done | lia].
    + rewrite shift_out by lia. by zcase; [lia|].
  - zcase.
    + rewrite shift_out by lia. rewrite Sign_spec by done.
      destruct (signed value <? 0) eqn:E; to_prop.
      * rewrite Z.sgn_neg by done. reflexivity.
      * destruct (Z.sgn (signed value) >=? 0) eqn:F; [done|]. to_prop. pose proof (Z.sgn_nonneg (signed value)). lia.
    + rewrite Uint64_word by (done || lia). apply SRsh_spec; [done | lia].
Qed.

(** MSTORE writes the 32 big-endian bytes of its word and MLOAD reads them
    back: a load at the offset of a store returns the word, in every memory the
    interpreter has grown to cover the access. *)
Theorem mload_after_mstore (f : Frame DB) (off v : Z) (s : Stack) :
  mem_ok (mem f) -> is_word off -> is_word v -> off + 32 <= Memory.Len (mem f) -> stk f = off :: v :: s ->
  exists f', opMstore f = Ok (f', ([], None)) /\ stk f' = s /\
    opMload (set_stk (off :: s) f') = Ok (set_stk (v :: s) f', ([], None)).
Proof.
  intros Hm Ho Hv Hl Hs. pose proof (mem_ok_len _ Hm) as Hlen. unfold is_word in Ho.
  assert (Eo : u_Uint64 off = off) by (rewrite Uint64_spec by done; apply Z.mod_small; lia).
  destruct f as [p st m c e]. cbn [stk mem] in *. subst st.
  change (exists f', (m' ← Memory.set32 (u_Uint64 off) v m; continue (mkFrame p s m' c e)) = Ok (f', ([], None)) /\
    stk f' = s /\ opMload (set_stk (off :: s) f') = Ok (set_stk (v :: s) f', ([], None))). rewrite Eo.
  unfold Memory.set32. cbn [mem set_stk]. rewrite add64_small by lia. zcase; [lia|].
  rewrite slice_Ok by (unfold Memory.Len in *; lia). cbn [mbind res_bind].
  eexists. split; [reflexivity|]. split; [done|].
  unfold opMload. cbn [stk set_stk mem]. rewrite peek_cons. cbn [mbind res_bind]. rewrite Eo.
  rewrite i64_small by lia. unfold Memory.GetPtr, Memory.Len in *. cbn [store Memory.with_store].
  assert (Hsp : length (splice (store m) off (be_bytes 32 v)) = length (store m))
    by (apply splice_length; [lia | rewrite zlen_be_bytes; lia]).
  assert (Hz : zlen (splice (store m) off (be_bytes 32 v)) = zlen (store m))
    by (unfold zlen; lia).
  change (32 =? 0) with false. cbv iota. rewrite Hz. zcase; [|lia]. rewrite slice_Ok by lia. cbn [mbind res_bind].
  replace (take _ (drop _ _)) with (be_bytes 32 v).
  { unfold setTopF. cbn [stk set_stk Stack.set_top mbind res_bind]. rewrite SetBytes_spec by apply wf_be_bytes.
    rewrite be_value_be_bytes. change (256 ^ Z.of_nat 32) with two256. unfold is_word in Hv.
    rewrite !(Z.mod_small v) by done. reflexivity. }
  symmetry. apply list_eq_same_length with 32%nat.
  - by rewrite length_be_bytes.
  - rewrite length_take, length_drop, Hsp. unfold zlen in *. lia.
  - intros i x y Hi Hx Hy. rewrite lookup_take_lt, lookup_drop in Hx by lia.
    rewrite splice_lookup_in in Hx by (rewrite ?zlen_be_bytes, ?length_be_bytes; lia). congruence.
Qed.

(** The [n] bytes of code after [p], zeroes past the end of the code. *)
Definition immediate (code : bytes) (p : Z) (n : nat) : bytes :=
  map (fun i => nth (Z.to_nat p + 1 + i) code 0) (seq 0 n).

Lemma nth_take_drop (l : bytes) k n i : (i < n)%nat ->
  nth i (take n (drop k l) ++ replicate (n - length (take n (drop k l))) 0) 0 = nth (k + i) l 0.
Proof.
  intros Hi. rewrite !nth_lookup, lookup_app. rewrite lookup_take_lt, lookup_drop by lia.
  destruct (l !! (k + i)%nat) as [x|] eqn:E; [done|].
  apply lookup_ge_None in E. rewrite length_take, length_drop, lookup_replicate_2 by lia. done.
Qed.

Lemma padded_immediate (code : bytes) k n :
  take n (drop k code) ++ replicate (n - length (take n (drop k code))) 0 =
  map (fun i => nth (k + i) code 0) (seq 0 n).
Proof.
  apply (nth_ext _ _ 0 0).
  - rewrite length_app, length_replicate, length_take, length_drop, length_map, length_seq. lia.
  - intros i Hi. rewrite length_app, length_replicate, length_take, length_drop in Hi.
    rewrite nth_take_drop by lia.
    rewrite (nth_indep (map _ _) 0 (nth (k + O) code 0)) by (rewrite length_map, length_seq; lia).
    rewrite (map_nth (fun j => nth (k + j) code 0)), seq_nth by lia. done.
Qed.

Lemma zlen_immediate code p n : zlen (immediate code p n) = Z.of_nat n.
Proof. unfold zlen, immediate. by rewrite length_map, length_seq. Qed.

Lemma wf_immediate code p n : wf_bytes code -> wf_bytes (immediate code p n).
Proof.
  intros Hc. apply Forall_map, Forall_true. intros i. cbn. rewrite nth_lookup.
  destruct (code !! _) eqn:E; [by eapply Forall_lookup_1 in E | by compute].
Qed.

(** PUSH1 to PUSH32 push the big-endian value of the bytes that follow
    them, read as zeroes past the end of the code, and move the program counter
    past them. *)
Theorem push_reads_the_code (f : Frame DB) (n : nat) :
  small (Code (ctr f)) -> 0 <= pc f < zlen (Code (ctr f)) -> (1 <= n <= 32)%nat ->
  makePush (Z.of_nat n) (Z.of_nat n) f =
    Ok (set_pc (pc f + Z.of_nat n) (set_stk (be_value (immediate (Code (ctr f)) (pc f) n) :: stk f) f), ([], None)).
Proof.
  intros [Hc Hl] Hp Hn. unfold makePush. set (code := Code (ctr f)) in *. set (p := pc f) in *.
  rewrite (add64_small p 1) by lia. rewrite i64_small by lia.
  set (k := (Z.to_nat p + 1)%nat). assert (Hk : p + 1 = Z.of_nat k) by (unfold k; lia).
  assert (Hs : forall a b, a = Z.of_nat k -> b = Z.min (a + Z.of_nat n) (zlen code) ->
    slice code a b = Ok (take n (drop k code))).
  { intros a b -> ->. rewrite slice_Ok by lia. f_equal. rewrite Nat2Z.id.
    destruct (decide (k + n <= length code)%nat); unfold zlen.
    - f_equal. lia.
    - rewrite !take_ge by (rewrite length_drop; unfold zlen in *; lia). done. }
  rewrite Hs; [|by zcase; lia..]. cbn [mbind res_bind].
  rewrite RightPadBytes_spec by (unfold zlen; rewrite ?length_take; lia). cbn [mbind res_bind].
  rewrite Nat2Z.id, padded_immediate.
  rewrite SetBytes_spec, Z.mod_small.
  - unfold continue. do 3 f_equal. cbn. unfold add64, u64. rewrite Z.mod_small by (fold p; lia). done.
  - pose proof (be_value_bound _ (wf_immediate code p n Hc)) as B. rewrite zlen_immediate in B.
    assert (256 ^ Z.of_nat n <= 256 ^ 32) by (apply Z.pow_le_mono_r; lia).
    change two256 with (256 ^ 32). unfold immediate in B. fold k in B |- *. lia.
  - by apply wf_immediate.
Qed.
End functional.

Lemma shifts_are_exact_witness :
  opSAR (set_stk [2 ^ 64; two256 - 8] (toy_frame toy_code)) =
    Ok (set_stk [(signed (two256 - 8) / 2 ^ 2 ^ 64) mod two256] (set_stk [2 ^ 64; two256 - 8] (toy_frame toy_code)), ([], None)).
Proof.
  destruct (shifts_are_exact (set_stk [2 ^ 64; two256 - 8] (toy_frame toy_code)) (2 ^ 64) (two256 - 8) [])
    as (_ & _ & H); [reflexivity | by compute | by compute | exact H].
Defined.

(** A store at offset 7 of a memory of two words. *)
Definition toy_store : Frame State.stateDB :=
  mkFrame 0 [7; 42] {| store := replicate 64 0; lastGasCost := 6 |} (ctr (toy_frame toy_code)) (vm (toy_frame toy_code)).

Lemma mload_after_mstore_witness :
  exists f', opMstore toy_store = Ok (f', ([], None)) /\
    opMload (set_stk [7] f') = Ok (set_stk [42] f', ([], None)).
Proof.
  destruct (mload_after_mstore toy_store 7 42 []) as (f' & H1 & _ & H2); [| by compute | by compute | by compute | reflexivity |].
  - split; [repeat constructor; by compute|]. exists 2. vm_compute. repeat split; discriminate.
  - exists f'. split; [exact H1 | exact H2].
Defined.

(** [PUSH2 0x2a] at the end of the code. *)
Lemma push_reads_the_code_witness :
  exists f, makePush 2 2 (set_stk [] (toy_frame [97; 42])) = Ok (f, ([], None)) /\ stk f = [10752] /\ pc f = 2.
Proof.
  eexists. split; [apply (push_reads_the_code (set_stk [] (toy_frame [97; 42])) 2) | split; reflexivity].
  - split; [repeat constructor; by compute | by compute].
  - by compute.
  - lia.
Defined.
