(* ===== verification/StateTransition.v ===== *)
(** * State transitions ([blockchain/state_transition.go], [blockchain/gaspool.go])

    A message is checked, its gas bought, run, and the rest of the gas paid back.
    The machine, its environment and its instruction table are those of
    [EvmInterpreter]; the state is any implementation of the interface. *)

From S2P Require Import Prelude Uint256 Config Common EvmStack Rlp EvmState EvmCalls EvmInstructions.
From S2P Require Import EvmJumpTable EvmInterpreter.

Local Open Scope Z_scope.

(** ** [blockchain/error.go], the errors of this component *)
Inductive TxErr :=
| ErrNonceTooLow | ErrNonceTooHigh | ErrNonceMax | ErrGasLimitReached
| ErrInsufficientFundsForTransfer | ErrInsufficientFunds | ErrTxGasUintOverflow
| ErrIntrinsicGas | ErrTipAboveFeeCap | ErrTipVeryHigh | ErrFeeCapVeryHigh
| ErrFeeCapTooLow | ErrSenderNoEOA.

(** ** [GasPool] *)
Definition GasPool_AddGas (gp amount : Z) : res Z :=
  if gp >? sub64 MaxUint64 amount then Panic PanicGasPool else Ok (add64 gp amount).

Definition GasPool_SubGas (gp amount : Z) : option Z :=
  if gp <? amount then None else Some (sub64 gp amount).

(** ** [Message]; a nil big integer is [None] *)
Record Message := {
  From : Address;
  To : option Address;
  mGasPrice : Z;
  GasFeeCap : option Z;
  GasTipCap : option Z;
  mGas : Z;
  Value : Z;
  Nonce : Z;
  IsFake : bool;
  Data : bytes;
  mAccessList : list (Address * list Hash);
}.

(** [AccessList.StorageKeys]. *)
Definition StorageKeys (al : list (Address * list Hash)) : Z :=
  foldl (fun sum t => sum + zlen (snd t)) 0 al.

(** [nz]: the loop over the data. *)
Definition nonZeroBytes (data : bytes) : Z :=
  foldl (fun nz byt => if byt =? 0 then nz else add64 nz 1) 0 data.

Definition IntrinsicGas (data : bytes) (accessList : list (Address * list Hash))
    (isContractCreation isHomestead : bool) : Z + TxErr :=
  let gas := if isContractCreation && isHomestead then TxGasContractCreation else TxGas in
  let with_data :=
    if zlen data >? 0 then
      let nz := nonZeroBytes data in
      let nonZeroGas := TxDataNonZeroGasFrontier in
      if sub64 MaxUint64 gas / nonZeroGas <? nz then inr ErrTxGasUintOverflow
      else
        let gas := add64 gas (mul64 nz nonZeroGas) in
        let z := sub64 (u64 (zlen data)) nz in
        if sub64 MaxUint64 gas / TxDataZeroGas <? z then inr ErrTxGasUintOverflow
        else inl (add64 gas (mul64 z TxDataZeroGas))
    else inl gas in
  match with_data with
  | inr e => inr e
  | inl gas =>
    let gas := add64 gas (mul64 (u64 (zlen accessList)) TxAccessListAddressGas) in
    inl (add64 gas (mul64 (u64 (StorageKeys accessList)) TxAccessListStorageKeyGas))
  end.

(** ** [ExecutionResult] *)
Record ExecutionResult := mkResult { UsedGas : Z; rErr : option Err; ReturnData : bytes }.

Definition Failed (r : ExecutionResult) : bool := match rErr r with None => false | _ => true end.
Definition Return (r : ExecutionResult) : bytes :=
  match rErr r with None => CopyBytes (ReturnData r) | _ => [] end.
Definition Revert (r : ExecutionResult) : bytes :=
  if bool_decide (rErr r = Some ErrExecutionReverted) then CopyBytes (ReturnData r) else [].

Section transition.
Context `{U : Uint256} `{C : Crypto} {DB : Type} `{SDB : StateDB DB}.
Context (env : Env) (jt : JumpTable) (NoBaseFee : bool) (msg : Message).

(** ** [StateTransition]: its fields that change *)
Record StateTransition := mkST { gp : Z; gas : Z; initialGas : Z; vm : EVM DB }.

Definition upd (f : DB -> DB) (e : EVM DB) : EVM DB := set_db (f (db e)) e.

Definition NewStateTransition (gp : Z) (e : EVM DB) : StateTransition := mkST gp 0 0 e.

Definition gasUsed (st : StateTransition) : Z := sub64 (initialGas st) (gas st).

(** [st.to]. *)
Definition to : Address := default 0 (To msg).

Definition buyGas (st : StateTransition) : option TxErr * StateTransition :=
  let mgval := mGas msg * mGasPrice msg in
  let balanceCheck :=
    match GasFeeCap msg with Some cap => mGas msg * cap + Value msg | None => mgval end in
  if GetBalance (db (vm st)) (From msg) <? balanceCheck then (Some ErrInsufficientFunds, st)
  else
    match GasPool_SubGas (gp st) (mGas msg) with
    | None => (Some ErrGasLimitReached, st)
    | Some gp =>
      (None, mkST gp (add64 (gas st) (mGas msg)) (mGas msg)
               (upd (SubBalance (From msg) mgval) (vm st)))
    end.

(** The checks of a message that is not fake. *)
Definition checkSender (d : DB) : option TxErr :=
  let stNonce := GetNonce d (From msg) in
  if stNonce <? Nonce msg then Some ErrNonceTooHigh
  else if stNonce >? Nonce msg then Some ErrNonceTooLow
  else if add64 stNonce 1 <? stNonce then Some ErrNonceMax
  else
    let codeHash := GetCodeHash d (From msg) in
    if negb (codeHash =? emptyCodeHash) && negb (codeHash =? 0) then Some ErrSenderNoEOA
    else None.

(** The fee checks of the London rules. *)
Definition checkFees : res (option TxErr) :=
  let check :=
    cap ← or_panic PanicNil (GasFeeCap msg);
    if BitLen cap >? 256 then Ok (Some ErrFeeCapVeryHigh)
    else
      tip ← or_panic PanicNil (GasTipCap msg);
      if BitLen tip >? 256 then Ok (Some ErrTipVeryHigh)
      else if cap <? tip then Ok (Some ErrTipAboveFeeCap)
      else
        base ← or_panic PanicNil (BaseFee env);
        if cap <? base then Ok (Some ErrFeeCapTooLow) else Ok None in
  if negb NoBaseFee then check
  else
    cap ← or_panic PanicNil (GasFeeCap msg);
    if BitLen cap >? 0 then check
    else
      tip ← or_panic PanicNil (GasTipCap msg);
      if BitLen tip >? 0 then check else Ok None.

Definition preCheck (st : StateTransition) : res (option TxErr * StateTransition) :=
  match (if IsFake msg then None else checkSender (db (vm st))) with
  | Some e => Ok (Some e, st)
  | None =>
    fees ← (if isForked (LondonBlock (chainConfig env)) (Some (BlockNumber env)) then checkFees else Ok None);
    match fees with
    | Some e => Ok (Some e, st)
    | None => Ok (buyGas st)
    end
  end.

Definition refundGas (refundQuotient : Z) (st : StateTransition) : res StateTransition :=
  let refund := gasUsed st / refundQuotient in
  let refund := if refund >? GetRefund (db (vm st)) then GetRefund (db (vm st)) else refund in
  let gas := add64 (gas st) refund in
  let remaining := gas * mGasPrice msg in
  let e := upd (AddBalance (From msg) remaining) (vm st) in
  gp ← GasPool_AddGas (gp st) gas;
  Ok (mkST gp gas (initialGas st) e).

(** The message is run: a creation, or the nonce is raised and the account
    called. *)
Definition execute (st : StateTransition) : res (bytes * option Err * StateTransition) :=
  match To msg with
  | None =>
    '(ret, _, gas, vmerr, e) ← EVM_Create env jt (AccountRef (From msg)) (Data msg) (gas st) (Value msg) (vm st);
    Ok (ret, vmerr, mkST (gp st) gas (initialGas st) e)
  | Some _ =>
    let e := upd (fun d => SetNonce (From msg) (add64 (GetNonce d (From msg)) 1) d) (vm st) in
    '(ret, gas, vmerr, e) ← EVM_Call env jt (AccountRef (From msg)) to (Data msg) (gas st) (Value msg) e;
    Ok (ret, vmerr, mkST (gp st) gas (initialGas st) e)
  end.

(** [effectiveTip]. *)
Definition effectiveTip : res Z :=
  if IsLondon (chainRules env) then
    tip ← or_panic PanicNil (GasTipCap msg);
    cap ← or_panic PanicNil (GasFeeCap msg);
    base ← or_panic PanicNil (BaseFee env);
    Ok (if tip >? cap - base then cap - base else tip)
  else Ok (mGasPrice msg).

Definition TransitionDb (st : StateTransition) : res ((ExecutionResult + TxErr) * StateTransition) :=
  '(err, st) ← preCheck st;
  match err with
  | Some e => Ok (inr e, st)
  | None =>
    let rules := chainRules env in
    let contractCreation := match To msg with None => true | _ => false end in
    match IntrinsicGas (Data msg) (mAccessList msg) contractCreation (IsHomestead rules) with
    | inr e => Ok (inr e, st)
    | inl igas =>
      if gas st <? igas then Ok (inr ErrIntrinsicGas, st)
      else
        let st := mkST (gp st) (sub64 (gas st) igas) (initialGas st) (vm st) in
        if (Value msg >? 0) && negb (CanTransfer (db (vm st)) (From msg) (Value msg))
        then Ok (inr ErrInsufficientFundsForTransfer, st)
        else
          '(ret, vmerr, st) ← execute st;
          st ← refundGas (if negb (IsLondon rules) then RefundQuotient else RefundQuotientEIP3529) st;
          tip ← effectiveTip;
          let st := mkST (gp st) (gas st) (initialGas st)
                      (upd (AddBalance (Coinbase env) (gasUsed st * tip)) (vm st)) in
          Ok (inl (mkResult (gasUsed st) vmerr ret), st)
    end
  end.

Definition ApplyMessage (gp : Z) (e : EVM DB) : res ((ExecutionResult + TxErr) * StateTransition) :=
  TransitionDb (NewStateTransition gp e).
End transition.
