(* ===== verification/TransitionSpec.v ===== *)
(** * Correctness of state transitions

    Which messages are accepted, where their gas goes, and what a message whose
    execution fails does to the accounts. *)

From S2P Require Import Prelude Uint256 Config Common EvmAnalysis EvmStack EvmMemory Rlp EvmState.
From S2P Require Import EvmGas EvmCalls EvmInstructions EvmOpcodes EvmJumpTable EvmInterpreter.
From S2P Require Import EvmSpec EvmInvariant EvmExec EvmCallSpec EvmGasSpec EvmSafety StateDB.
From S2P Require Import StateSpec StateRevert Instances StateTheorems EvmTheorems StateTransition.

Local Open Scope Z_scope.

(** ** Intrinsic gas *)

Definition zeroes (data : bytes) : Z := zlen (filter (fun b => b = 0) data).

Lemma zeroes_cons b data : zeroes (b :: data) = (if b =? 0 then 1 else 0) + zeroes data.
Proof.
  unfold zeroes. rewrite filter_cons. destruct (decide (b = 0)) as [->|E].
  - by rewrite zlen_cons.
  - destruct (b =? 0) eqn:Eb; to_prop; [done|lia].
Qed.

Lemma zeroes_bound data : 0 <= zeroes data <= zlen data.
Proof.
  induction data as [|b data IH]; [done|]. rewrite zeroes_cons, zlen_cons. zcase; lia.
Qed.

Lemma nonZeroBytes_spec data : zlen data < 2 ^ 64 -> nonZeroBytes data = zlen data - zeroes data.
Proof.
  intros Hl. unfold nonZeroBytes.
  assert (G : forall n, 0 <= n -> n + zlen data < 2 ^ 64 ->
    foldl (fun nz byt => if byt =? 0 then nz else add64 nz 1) n data = n + (zlen data - zeroes data)).
  { clear Hl. induction data as [|b data IH]; intros n Hn Hl; [unfold zeroes, zlen; cbn; lia|].
    rewrite zlen_cons in *. pose proof (zlen_nonneg data). pose proof (zeroes_bound data).
    cbn [foldl]. rewrite zeroes_cons. zcase; [rewrite IH by lia; lia|].
    rewrite add64_small by lia. rewrite IH by lia. lia. }
  pose proof (zlen_nonneg data). rewrite G by lia. lia.
Qed.

(** The yellow paper's sum. *)
Definition intrinsic (data : bytes) (creation homestead : bool) : Z :=
  (if creation && homestead then 53000 else 21000) +
  68 * (zlen data - zeroes data) + 4 * zeroes data.

Lemma div_lt_iff a b c : 0 < b -> (a / b <? c) = (a <? b * c).
Proof.
  intros. destruct (a <? b * c) eqn:E; to_prop.
  - apply Z.ltb_lt. apply Z.div_lt_upper_bound; lia.
  - apply Z.ltb_ge. apply Z.div_le_lower_bound; lia.
Qed.

(** without an access list, the intrinsic gas is the exact sum of
    the base price and the prices of the data bytes, and the overflow error is
    returned exactly when that sum is not a 64-bit number. *)
Theorem IntrinsicGas_exact (data : bytes) (creation homestead : bool) :
  zlen data < 2 ^ 63 ->
  IntrinsicGas data [] creation homestead =
    if intrinsic data creation homestead <? 2 ^ 64 then inl (intrinsic data creation homestead)
    else inr ErrTxGasUintOverflow.
Proof.
  intros Hl. pose proof (zeroes_bound data) as Hz. unfold IntrinsicGas, intrinsic.
  set (base := if creation && homestead then _ else _).
  assert (Hb : base = 53000 \/ base = 21000) by (unfold base; destruct (creation && homestead); auto).
  replace (if creation && homestead then 53000 else 21000) with base by done. clearbody base.
  rewrite nonZeroBytes_spec by lia. set (z := zeroes data) in *. set (n := zlen data) in *. clearbody n z.
  change (mul64 (u64 (zlen [])) TxAccessListAddressGas) with 0.
  change (mul64 (u64 (StorageKeys [])) TxAccessListStorageKeyGas) with 0.
  change TxDataNonZeroGasFrontier with 68. change TxDataZeroGas with 4. unfold MaxUint64.
  rewrite (sub64_small (2 ^ 64 - 1) base) by lia. rewrite (div_lt_iff _ 68) by lia.
  destruct (n >? 0) eqn:En; to_prop; cycle 1.
  { replace n with 0 in * by lia. replace z with 0 in * by lia.
    destruct (_ <? 2 ^ 64) eqn:E; to_prop; [|lia].
    rewrite (add64_small base 0), (add64_small (base + 0) 0) by lia. f_equal; lia. }
  destruct (_ <? 68 * (n - z)) eqn:E1; to_prop.
  { destruct (_ <? 2 ^ 64) eqn:E; to_prop; [lia|done]. }
  rewrite (mul64_small (n - z)) by lia. rewrite (add64_small base) by lia.
  rewrite (u64_small n) by (unfold is_u64; lia). rewrite (sub64_small n) by lia. replace (n - (n - z)) with z by lia.
  rewrite (sub64_small (2 ^ 64 - 1)) by lia. rewrite (div_lt_iff _ 4) by lia.
  destruct (_ <? 4 * z) eqn:E2; to_prop.
  { destruct (_ <? 2 ^ 64) eqn:E; to_prop; [lia|done]. }
  rewrite (mul64_small z) by lia. rewrite (add64_small (_ + _) (z * 4)) by lia.
  unfold add64. rewrite !Z.add_0_r, !u64_idem. rewrite u64_small by (unfold is_u64; lia).
  destruct (_ <? 2 ^ 64) eqn:E; to_prop; [f_equal; lia | lia].
Qed.

Lemma IntrinsicGas_exact_witness : IntrinsicGas [1; 0; 2] [] true true = inl 53140.
Proof. rewrite (IntrinsicGas_exact [1; 0; 2] true true) by (vm_compute; reflexivity). reflexivity. Defined.

(** ** Acceptance *)

Section acceptance.
Context `{U : Uint256} `{C : Crypto} {DB : Type} `{SDB : StateDB DB}.
Context (env : Env) (jt : JumpTable) (NoBaseFee : bool) (msg : Message).

(** The fields a message has: those of London transactions have their caps. *)
Record msg_ok : Prop := {
  mo_gas : is_u64 (mGas msg);
  mo_nonce : is_u64 (Nonce msg);
  mo_data : small (Data msg);
  mo_caps : IsLondon (chainRules env) = true -> is_Some (GasFeeCap msg) /\ is_Some (GasTipCap msg);
  mo_base : IsLondon (chainRules env) = true -> is_Some (BaseFee env);
}.

(** The rules of the London fees, for the caps and the base fee. *)
Definition fees_ok (cap tip base : Z) : Prop :=
  (NoBaseFee = true /\ cap = 0 /\ tip = 0) \/
  (Z.abs cap < 2 ^ 256 /\ Z.abs tip < 2 ^ 256 /\ tip <= cap /\ base <= cap).

(** The consensus rules a message has to satisfy before it is applied. *)
Record acceptable (gp : Z) (d : DB) : Prop := {
  ac_sender : IsFake msg = false ->
    GetNonce d (From msg) = Nonce msg /\ Nonce msg < 2 ^ 64 - 1 /\
    (GetCodeHash d (From msg) = emptyCodeHash \/ GetCodeHash d (From msg) = 0);
  ac_fees : IsLondon (chainRules env) = true ->
    fees_ok (default 0 (GasFeeCap msg)) (default 0 (GasTipCap msg)) (default 0 (BaseFee env));
  ac_balance : match GasFeeCap msg with
               | Some cap => mGas msg * cap + Value msg
               | None => mGas msg * mGasPrice msg end <= GetBalance d (From msg);
  ac_pool : mGas msg <= gp;
}.

Lemma checkSender_spec d : msg_ok -> is_u64 (GetNonce d (From msg)) ->
  checkSender msg d = None <->
  GetNonce d (From msg) = Nonce msg /\ Nonce msg < 2 ^ 64 - 1 /\
  (GetCodeHash d (From msg) = emptyCodeHash \/ GetCodeHash d (From msg) = 0).
Proof.
  intros [_ Hn _ _ _] Hs. unfold checkSender, is_u64 in *. destruct (_ <? Nonce msg) eqn:E1; to_prop.
  { split; [done|]. lia. }
  destruct (_ >? Nonce msg) eqn:E2; to_prop; [split; [done|]; lia|].
  assert (GetNonce d (From msg) = Nonce msg) as En by lia. rewrite En in *.
  destruct (decide (Nonce msg = 2 ^ 64 - 1)) as [Em|Em].
  { rewrite Em. split; [done|]. lia. }
  rewrite add64_small by lia. destruct (_ + 1 <? _) eqn:E3; to_prop; [lia|].
  destruct (_ && _) eqn:E4; to_prop.
  - split; [done|]. intros (_ & _ & []); done.
  - split; [|done]. intros _. split; [done|]. split; [lia|].
    apply andb_false_iff in E4 as [E4|E4]; to_prop; [by left | by right].
Qed.

Lemma checkFees_spec : msg_ok -> IsLondon (chainRules env) = true -> exists r,
  checkFees env NoBaseFee msg = Ok r /\
  (r = None <-> fees_ok (default 0 (GasFeeCap msg)) (default 0 (GasTipCap msg)) (default 0 (BaseFee env))).
Proof.
  intros [_ _ _ Hc Hb] HL. destruct (Hc HL) as [[cap Ec] [tip Et]]. destruct (Hb HL) as [base Eb].
  unfold checkFees, fees_ok. rewrite Ec, Et, Eb. cbn [or_panic mbind res_bind default].
  rewrite !BitLen_0. set (check := if BitLen cap >? 256 then _ else _).
  assert (Hk : exists r, check = Ok r /\
    (r = None <-> Z.abs cap < 2 ^ 256 /\ Z.abs tip < 2 ^ 256 /\ tip <= cap /\ base <= cap)).
  { unfold check. pose proof (BitLen_le cap). pose proof (BitLen_le tip).
    repeat match goal with |- context [if ?b then _ else _] => destruct b eqn:?; to_prop end;
      eexists; (split; [reflexivity|]); split; intros; try done; lia. }
  destruct Hk as (r & -> & Hr).
  destruct NoBaseFee; cbn [negb]; [|exists r; split; [done|]; rewrite Hr; naive_solver].
  destruct (cap =? 0) eqn:E1; to_prop; cbn [negb]; [|exists r; split; [done|]; rewrite Hr; naive_solver].
  destruct (tip =? 0) eqn:E2; to_prop; cbn [negb]; [|exists r; split; [done|]; rewrite Hr; naive_solver].
  exists None. split; [done|]. naive_solver.
Qed.

(** What an accepted message does first: its gas moves from the block to the
    transition, and the sender pays for it. *)
Definition bought (gp : Z) (e : EVM DB) : StateTransition :=
  mkST (gp - mGas msg) (mGas msg) (mGas msg) (upd (SubBalance (From msg) (mGas msg * mGasPrice msg)) e).

Lemma preCheck_spec gp e : msg_ok -> is_u64 gp -> is_u64 (GetNonce (db e) (From msg)) ->
  exists err st, preCheck env NoBaseFee msg (NewStateTransition gp e) = Ok (err, st) /\
    (err = None <-> acceptable gp (db e)) /\
    st = if decide (err = None) then bought gp e else NewStateTransition gp e.
Proof.
  intros Hm Hgp Hn. unfold preCheck. cbn [vm NewStateTransition].
  pose proof (checkSender_spec (db e) Hm Hn) as HS.
  destruct (if IsFake msg then None else checkSender msg (db e)) as [er|] eqn:Es.
  { exists (Some er), (NewStateTransition gp e). split; [done|]. split; [|done]. split; [done|].
    intros [A _ _ _]. destruct (IsFake msg); [done|]. apply HS in A; [congruence|done]. }
  assert (HA : IsFake msg = false -> checkSender msg (db e) = None) by (destruct (IsFake msg); congruence).
  change (isForked (LondonBlock (chainConfig env)) (Some (BlockNumber env))) with (IsLondon (chainRules env)).
  assert (HF : exists r, (if IsLondon (chainRules env) then checkFees env NoBaseFee msg else Ok None) = Ok r /\
    (r = None <-> (IsLondon (chainRules env) = true ->
      fees_ok (default 0 (GasFeeCap msg)) (default 0 (GasTipCap msg)) (default 0 (BaseFee env))))).
  { destruct (IsLondon (chainRules env)) eqn:EL; [|exists None; split; [done|]; naive_solver].
    destruct (checkFees_spec Hm EL) as (r & -> & Hr). exists r. split; [done|]. naive_solver. }
  destruct HF as (r & -> & Hr). cbn [mbind res_bind]. destruct r as [er|].
  { exists (Some er), (NewStateTransition gp e). split; [done|]. split; [|done]. split; [done|].
    intros [_ A _ _]. by apply Hr in A. }
  unfold buyGas. cbn [vm StateTransition.gp gas NewStateTransition].
  set (want := match GasFeeCap msg with Some _ => _ | None => _ end).
  destruct (GetBalance (db e) (From msg) <? want) eqn:Eb; to_prop.
  { eexists _, _. split; [reflexivity|]. split; [|done]. split; [done|]. intros [_ _ A _]. fold want in A. lia. }
  destruct Hm as [Hg _ _ _ _]. unfold is_u64 in *. unfold GasPool_SubGas.
  destruct (gp <? mGas msg) eqn:Ep; to_prop.
  { eexists _, _. split; [reflexivity|]. split; [|done]. split; [done|]. intros [_ _ _ A]. lia. }
  rewrite sub64_small, add64_small by lia.
  eexists _, _. split; [reflexivity|]. split; [|done]. split; [|done]. intros _.
  split; [intros F; apply HS; auto | by apply Hr | exact Eb | lia].
Qed.

(** C5: a message is accepted exactly when it satisfies the consensus
    rules (nonce, externally owned sender, fee caps, balance, gas of the
    block); a message that is refused changes neither the state nor the gas of
    the block, and an accepted one has bought its gas. *)
Theorem preCheck_correct gp e : msg_ok -> is_u64 gp -> is_u64 (GetNonce (db e) (From msg)) ->
  exists err st, preCheck env NoBaseFee msg (NewStateTransition gp e) = Ok (err, st) /\
    (err = None <-> acceptable gp (db e)) /\
    st = if decide (err = None) then bought gp e else NewStateTransition gp e.
Proof. apply preCheck_spec. Qed.
End acceptance.

(** ** Gas *)

Section transition.
Context `{U : Uint256} `{US : !Uint256Spec U} `{C : Crypto} `{CS : !CryptoSpec C}.
Context {DB : Type} `{SDB : StateDB DB} `{SS : !StateDBSpec DB}.
Context (env : Env) (jt : JumpTable) (NoBaseFee : bool) (msg : Message).

Record tx_ready (gp : Z) (e : EVM DB) : Prop := {
  tr_env : env_ok env;
  tr_table : selectInstructionSet (chainRules env) = Ok jt;
  tr_msg : msg_ok env msg;
  tr_gp : is_u64 gp;
  tr_vm : vm_ok e;
  tr_ro : readOnly e = false;
}.

Definition igas : Z + TxErr :=
  IntrinsicGas (Data msg) (mAccessList msg) (match To msg with None => true | _ => false end)
    (IsHomestead (chainRules env)).

Definition quotient : Z := if negb (IsLondon (chainRules env)) then RefundQuotient else RefundQuotientEIP3529.

Lemma IntrinsicGas_u64 data al c h g : IntrinsicGas data al c h = inl g -> is_u64 g.
Proof.
  unfold IntrinsicGas. destruct (if zlen data >? 0 then _ else _); [|done]. intros [= <-]. apply u64_range.
Qed.

(** How the machine left a message that was run: [left] is the gas it did not
    use and [e2] the machine, before refunds and fees. *)
Definition ran (g : Z) (e1 : EVM DB) (left : Z) (vmerr : option Err) (e2 : EVM DB) : Prop :=
  0 <= left <= g /\ vm_ok e2 /\ vm_rel false e1 e2 /\
  forall er, vmerr = Some er ->
    let d1 := SetNonce (From msg) (add64 (GetNonce (db e1) (From msg)) 1) (db e1) in
    match To msg with
    | Some _ => same_all d1 (db e2)
    | None => same_all (db e1) (db e2) \/ same_all d1 (db e2) \/
              (er = ErrCodeStoreOutOfGas /\ IsHomestead (chainRules env) = false)
    end.

Lemma upd_ok o f e : vm_ok e -> op_wf o -> (forall d, apply_op o d = Ok (f d)) ->
  vm_ok (upd f e) /\ vm_rel false e (upd f e).
Proof. intros He Ho Hf. apply (vm_op false o (f (db e)) e He Ho I (Hf _)). Qed.

Lemma execute_spec gp g i e : tx_ready gp e -> is_u64 g ->
  wp (execute env jt msg (mkST gp g i e))
     (fun '(ret, vmerr, st) => exists left e2, st = mkST gp left i e2 /\ ran g e left vmerr e2).
Proof.
  intros [He Ht [_ _ Hd _ _] _ Hv Hro] Hg. pose proof (selected_table env jt He Ht) as T.
  pose proof (Run_ok (DB := DB) env jt T (2 ^ 64)) as R. unfold is_u64 in Hg.
  unfold execute. cbn [vm StateTransition.gp gas initialGas]. destruct (To msg) as [a|] eqn:Eto.
  - set (e1 := upd _ e).
    assert (Ve : vm_ok e1 /\ vm_rel false e e1).
    { apply (vm_op false (DSetNonce (From msg) (add64 (GetNonce (db e) (From msg)) 1)) _ e Hv (u64_range _) I eq_refl). }
    destruct Ve as [V1 R1].
    pose proof (Call_spec (2 ^ 64) _ R (AccountRef (From msg)) (to msg) (Data msg) g (Value msg) e1) as W.
    unfold EVM_Call. eapply wp_use; [apply W; try done; [lia | rewrite (rel_readOnly _ _ _ R1); congruence]|].
    intros [[[ret left] vmerr] e2] (_ & Hl & Hle & V2 & R2 & Hs). cbn. exists left, e2. split; [done|].
    unfold is_u64 in Hl. split; [lia|]. split; [done|]. rewrite (rel_readOnly _ _ _ R1), Hro in R2.
    split; [by eapply vm_rel_trans|]. intros er Hr. cbn zeta. rewrite Eto. apply Hs. congruence.
  - pose proof (Create_spec env (2 ^ 64) _ R (AccountRef (From msg)) (Data msg) g (Value msg) e) as W.
    unfold EVM_Create. eapply wp_use; [apply W; try done; lia|].
    intros [[[[ret addr] left] vmerr] e2] (_ & Hl & Hle & V2 & R2 & Hs). cbn. exists left, e2. split; [done|].
    unfold is_u64 in Hl. split; [lia|]. split; [done|]. split; [done|].
    intros er ->. cbn zeta. rewrite Eto. exact Hs.
Qed.

Lemma quotient_ge : 2 <= quotient.
Proof. unfold quotient. destruct (negb _); by compute. Qed.

Lemma refund_cap u : 0 <= u -> 0 <= u / quotient <= u.
Proof.
  intros. pose proof quotient_ge. split; [apply Z.div_pos; lia|]. apply Z.div_le_upper_bound; nia.
Qed.

(** The refund is capped by the quotient of the gas used and fits the pool. *)
Lemma refundGas_spec gp left (e : EVM DB) : is_u64 gp -> mGas msg <= gp -> 0 <= left <= mGas msg -> vm_ok e ->
  exists refund,
    0 <= refund <= (mGas msg - left) / quotient /\ refund <= GetRefund (db e) /\
    refundGas msg quotient (mkST (gp - mGas msg) left (mGas msg) e) =
      Ok (mkST (gp - (mGas msg - left - refund)) (left + refund) (mGas msg)
            (upd (AddBalance (From msg) ((left + refund) * mGasPrice msg)) e)).
Proof.
  intros Hgp Hg Hl He. pose proof (refund_db_ok _ (ok_db _ He)) as Hr. unfold is_u64 in *.
  unfold refundGas, gasUsed. cbn [vm gas initialGas StateTransition.gp]. rewrite sub64_small by lia.
  set (u := mGas msg - left). set (r := if _ >? _ then _ else _).
  assert (Hu : 0 <= u / quotient <= u) by (apply refund_cap; lia).
  assert (Hrr : 0 <= r <= u / quotient /\ r <= GetRefund (db e)) by (unfold r; zcase; lia). clearbody r.
  exists r. split; [lia|]. split; [lia|]. rewrite (add64_small left r) by lia.
  unfold GasPool_AddGas. unfold MaxUint64. rewrite sub64_small by lia.
  destruct (_ >? _) eqn:E; to_prop; [lia|]. cbn [mbind res_bind]. rewrite add64_small by lia.
  do 2 f_equal. unfold u. lia.
Qed.

Lemma effectiveTip_Ok : msg_ok env msg -> exists tip, effectiveTip env msg = Ok tip.
Proof.
  intros [_ _ _ Hc Hb]. unfold effectiveTip. destruct (IsLondon _); [|by eexists].
  destruct (Hc eq_refl) as [[cap ->] [tip ->]]. destruct (Hb eq_refl) as [base ->]. by eexists.
Qed.

(** The course of a message that is not refused. *)
Definition applied (gp : Z) (e : EVM DB) (r : ExecutionResult) (st : StateTransition) : Prop :=
  exists ig left e2 refund tip,
    igas = inl ig /\ 0 <= ig <= mGas msg /\
    ran (mGas msg - ig) (vm (bought msg gp e)) left (rErr r) e2 /\
    0 <= refund <= (mGas msg - left) / quotient /\ refund <= GetRefund (db e2) /\
    effectiveTip env msg = Ok tip /\
    UsedGas r = mGas msg - left - refund /\
    st = mkST (gp - UsedGas r) (left + refund) (mGas msg)
           (upd (AddBalance (Coinbase env) (UsedGas r * tip))
             (upd (AddBalance (From msg) ((left + refund) * mGasPrice msg)) e2)).

(** Why a message that has bought its gas is refused: its intrinsic gas overflows or
    exceeds its limit, or the value cannot be paid once the gas has been. *)
Definition refused_late (d : DB) : Prop :=
  (exists er, igas = inr er) \/ (exists ig, igas = inl ig /\ mGas msg < ig) \/
  (0 < Value msg /\ CanTransfer (SubBalance (From msg) (mGas msg * mGasPrice msg) d) (From msg) (Value msg) = false).

Lemma transition_spec gp e : tx_ready gp e ->
  wp (ApplyMessage env jt NoBaseFee msg gp e) (fun '(r, st) =>
    match r with
    | inl r => acceptable env NoBaseFee msg gp (db e) /\ applied gp e r st
    | inr _ => (~ acceptable env NoBaseFee msg gp (db e) /\ st = NewStateTransition gp e) \/
               (acceptable env NoBaseFee msg gp (db e) /\ refused_late (db e) /\ StateTransition.gp st = gp - mGas msg /\
                vm st = vm (bought msg gp e))
    end).
Proof.
  intros Hr. pose proof Hr as [He Ht Hm Hgp Hv Hro]. unfold ApplyMessage, TransitionDb.
  destruct (preCheck_spec env NoBaseFee msg gp e Hm Hgp) as (err & st & -> & Hacc & ->);
    [by apply nonce_db_ok, ok_db|]. cbn [mbind res_bind].
  destruct err as [er|]; [left; split; [by intros A%Hacc | done]|]. rewrite decide_True by done. cbv zeta.
  destruct (proj1 Hacc eq_refl) as [_ _ _ Hpool]. pose proof (proj1 Hacc eq_refl) as A.
  fold igas. unfold refused_late. destruct igas as [ig|er] eqn:Ei; [|right; split; [done|]; split; [by left; eexists | done]].
  cbn [bought gas StateTransition.gp initialGas vm].
  pose proof (IntrinsicGas_u64 _ _ _ _ _ Ei) as Hi. pose proof (mo_gas _ _ Hm) as Hg. unfold is_u64 in Hi, Hg, Hgp.
  destruct (mGas msg <? ig) eqn:E1; to_prop; [right; split; [done|]; split; [right; left; by exists ig | done]|].
  destruct (_ && _) eqn:E2; [right; split; [done|]; split; [right; right | done]; apply andb_prop in E2 as [E2 E3]; to_prop; split; [lia | done]|]. rewrite sub64_small by lia.
  destruct (upd_ok (DSubBalance (From msg) (mGas msg * mGasPrice msg)) _ e Hv I (fun _ => eq_refl)) as [V1 R1].
  eapply wp_use.
  { apply execute_spec; [|unfold is_u64; lia]. split; try done; unfold is_u64; lia. }
  intros [[ret vmerr] st] (left & e2 & -> & Hran). pose proof Hran as (Hl & V2 & _).
  destruct (refundGas_spec gp left e2 Hgp Hpool ltac:(lia) V2) as (refund & Hrf & Hrf2 & E).
  fold quotient. rewrite E. cbn [mbind res_bind].
  destruct (effectiveTip_Ok Hm) as (tip & Etip). rewrite Etip. cbn [mbind res_bind wp].
  split; [done|]. exists ig, left, e2, refund, tip. split; [done|]. split; [lia|]. split; [done|].
  split; [done|]. split; [done|]. split; [done|].
  assert (Hu : (mGas msg - left) / quotient <= mGas msg - left).
  { apply refund_cap. lia. }
  assert (Hus : gasUsed (mkST (gp - (mGas msg - left - refund)) (left + refund) (mGas msg)
            (upd (AddBalance (From msg) ((left + refund) * mGasPrice msg)) e2)) = mGas msg - left - refund).
  { unfold gasUsed. cbn. rewrite sub64_small by lia. lia. }
  cbn [UsedGas]. unfold gasUsed in *. cbn [initialGas gas vm StateTransition.gp] in *. rewrite Hus. done.
Qed.

(** C4: applying a message terminates, and accounts for the gas.  When the
    message is applied, the gas it used lies between its intrinsic gas less the
    capped refund and its gas limit, and exactly that gas is taken from the
    block.  A message that the rules refuse leaves the gas of the block as it was; a
    message refused after it had bought its gas, because of its intrinsic gas or its
    value, leaves it smaller by its whole limit.  (The panics left are those of the
    refund counter and of the SSTORE canary.) *)
Theorem transactions_account_for_gas gp e : tx_ready gp e ->
  match ApplyMessage env jt NoBaseFee msg gp e with
  | Ok (inl r, st) =>
    acceptable env NoBaseFee msg gp (db e) /\
    exists ig, igas = inl ig /\ ig - ig / quotient <= UsedGas r <= mGas msg /\
      StateTransition.gp st = gp - UsedGas r
  | Ok (inr _, st) =>
    (~ acceptable env NoBaseFee msg gp (db e) /\ StateTransition.gp st = gp) \/
    (acceptable env NoBaseFee msg gp (db e) /\ refused_late (db e) /\ StateTransition.gp st = gp - mGas msg)
  | Panic p => p = PanicRefund \/ p = PanicAccessList
  | NoFuel => False
  end.
Proof.
  intros Hr. pose proof (transition_spec gp e Hr) as W.
  destruct (ApplyMessage _ _ _ _ _ _) as [[[r|er] st]| |]; [| |done|done].
  - destruct W as (A & ig & left & e2 & refund & tip & Ei & Hi & (Hl & _) & Hrf & _ & _ & Hu & ->).
    split; [done|]. exists ig. split; [done|]. split; [|done]. rewrite Hu. pose proof quotient_ge as Hq.
    pose proof (refund_cap (mGas msg - left) ltac:(lia)).
    assert (ig - ig / quotient <= (mGas msg - left) - (mGas msg - left) / quotient); [|lia].
    assert ((mGas msg - left) / quotient <= ig / quotient + (mGas msg - left - ig)); [|lia].
    rewrite <- (Z.div_add _ (mGas msg - left - ig) quotient) by lia. apply Z.div_le_mono; [lia|]. nia.
  - destruct W as [[? ->]|(? & ? & -> & _)]; [by left | by right].
Qed.
End transition.

(** ** Accounts *)

Section accounts.
Context `{U : Uint256} `{US : !Uint256Spec U} `{C : Crypto} `{CS : !CryptoSpec C}.
Context `{B : State.Backend} `{BS : !BackendSpec}.
Context (env : Env) (jt : JumpTable) (NoBaseFee : bool) (msg : Message).

(** C3: a message whose execution fails moves only its fees: the sender
    has paid the gas used at the price of the message, the coinbase has received
    it at the effective tip, no other balance has changed, and no storage slot
    and no code.  A call has raised the sender's nonce by one and no other.
    The one failure left out is a creation before Homestead that cannot pay for its
    code: the code reports it as a failure and keeps what the constructor did. *)
Theorem failed_transactions_only_pay gp (e : EVM State.stateDB) r st er tip :
  tx_ready env jt msg gp e -> ApplyMessage env jt NoBaseFee msg gp e = Ok (inl r, st) ->
  rErr r = Some er -> effectiveTip env msg = Ok tip ->
  (To msg = None -> er = ErrCodeStoreOutOfGas -> IsHomestead (chainRules env) = true) ->
  let d := db e in let d' := db (StateTransition.vm st) in
  (forall b, State.GetBalance d' b = State.GetBalance d b
     - (if decide (b = From msg) then UsedGas r * mGasPrice msg else 0)
     + (if decide (b = Coinbase env) then UsedGas r * tip else 0)) /\
  (forall b k, State.GetState d' b k = State.GetState d b k) /\
  (forall b, State.GetCode d' b = State.GetCode d b) /\
  (is_Some (To msg) -> forall b, State.GetNonce d' b =
     if decide (b = From msg) then add64 (State.GetNonce d b) 1 else State.GetNonce d b).
Proof.
  intros Hr E Her Etip Hh. pose proof (transition_spec env jt NoBaseFee msg gp e Hr) as W. rewrite E in W.
  destruct W as (_ & ig & left & e2 & refund & tip' & _ & _ & (_ & V2 & _ & Hf) & _ & _ & Et & Hu & ->).
  rewrite Et in Etip. injection Etip as ->. cbn [StateTransition.vm]. cbv zeta.
  specialize (Hf er Her). cbv zeta in Hf. cbn [bought StateTransition.vm upd db set_db] in Hf |- *.
  destruct (tr_vm _ _ _ _ _ Hr) as [[W0 _] _ _ _]. set (d := db e) in *.
  change (EvmState.SubBalance (From msg) (mGas msg * mGasPrice msg) d)
    with (State.SubBalance (From msg) (mGas msg * mGasPrice msg) d) in Hf.
  set (d0 := State.SubBalance (From msg) (mGas msg * mGasPrice msg) d) in *.
  assert (W1 : world_ok d0) by (apply SubBalance_step; done).
  pose proof (SubBalance_getter (From msg) (mGas msg * mGasPrice msg) d) as B0.
  pose proof (SubBalance_rest (From msg) (mGas msg * mGasPrice msg) d W0) as [N0 C0 S0]. fold d0 in B0, N0, C0, S0.
  set (nn := add64 (EvmState.GetNonce d0 (From msg)) 1) in *.
  change (EvmState.SetNonce (From msg) nn d0) with (State.SetNonce (From msg) nn d0) in Hf.
  destruct (SetNonce_getters (From msg) nn d0 W1) as (B1 & N1 & C1 & S1).
  assert (G : (forall b, State.GetBalance (db e2) b = State.GetBalance d0 b) /\
              (forall b k, State.GetState (db e2) b k = State.GetState d0 b k) /\
              (forall b, State.GetCode (db e2) b = State.GetCode d0 b) /\
              (is_Some (To msg) -> forall b, State.GetNonce (db e2) b =
                 if decide (b = From msg) then nn else State.GetNonce d0 b)).
  { destruct (To msg) as [a|]; [|destruct Hf as [Hf|[Hf|[E1 E2]]]; [| |rewrite Hh in E2; done]];
      destruct Hf as [[b1 b2 b3 b4 _ _] _ _ _ _ _ _]; cbn in b1, b2, b3, b4; split_and!; intros;
      rewrite ?b1, ?b2, ?b3, ?b4; auto.
    all: match goal with H : is_Some None |- _ => by destruct H end. }
  destruct G as (GB & GS & GC & GN). destruct V2 as [[W2 _] _ _ _].
  pose proof (AddBalance_rest (From msg) ((left + refund) * mGasPrice msg) (db e2) W2) as R3.
  set (d3 := State.AddBalance (From msg) ((left + refund) * mGasPrice msg) (db e2)) in *.
  assert (W3 : world_ok d3) by (apply AddBalance_step; done).
  pose proof (AddBalance_rest (Coinbase env) (UsedGas r * tip) d3 W3) as R4.
  destruct R3 as [N3 C3 S3], R4 as [N4 C4 S4].
  change (EvmState.AddBalance (Coinbase env)) with (State.AddBalance (Coinbase env)).
  change (EvmState.AddBalance (From msg) ((left + refund) * mGasPrice msg) (db e2)) with d3.
  split_and!; intros.
  - rewrite AddBalance_getter by done. unfold d3. rewrite AddBalance_getter, GB, B0 by done.
    rewrite Hu. destruct (decide _), (decide _); lia.
  - by rewrite S4, S3, GS, S0.
  - by rewrite C4, C3, GC, C0.
  - rewrite N4, N3, GN by done. unfold nn. change (EvmState.GetNonce d0 (From msg)) with (State.GetNonce d0 (From msg)).
    rewrite !N0. by destruct (decide _) as [->|].
Qed.
End accounts.

(** ** In the concrete world *)

(** The user calls the contract with too little gas for its storage write. *)
Definition toy_msg (gas : Z) : Message :=
  {| From := toy_user; To := Some toy_contract; mGasPrice := 2; GasFeeCap := None; GasTipCap := None;
     mGas := gas; Value := 0; Nonce := 9; IsFake := false; Data := []; mAccessList := [] |}.

Lemma toy_msg_ok gas : is_u64 gas -> msg_ok (toy_env false) (toy_msg gas).
Proof. intros. split; [done | by compute | apply small_nil | done | done]. Qed.

Lemma toy_tx_ready gas : is_u64 gas ->
  tx_ready (toy_env false) (toy_table false) (toy_msg gas) 1000000 (toy_vm State.New).
Proof.
  intros. split; [apply toy_env_ok | apply toy_table_selected | by apply toy_msg_ok | by compute
                 | apply toy_vm_ok, New_ok | done].
Qed.

Lemma preCheck_correct_witness :
  exists err st, preCheck (toy_env false) false (toy_msg 22000) (NewStateTransition 1000000 (toy_vm State.New)) =
      Ok (err, st) /\ err = None /\ StateTransition.gp st = 978000.
Proof.
  destruct (preCheck_correct (toy_env false) false (toy_msg 22000) 1000000 (toy_vm State.New)) as (err & st & E & _ & Hst).
  - apply toy_msg_ok. by compute.
  - by compute.
  - vm_compute. split; discriminate || reflexivity.
  - exists err, st. assert (err = None) as ->; [|split; [exact E | split; [reflexivity | rewrite Hst; reflexivity]]].
    assert (F : exists st', preCheck (toy_env false) false (toy_msg 22000) (NewStateTransition 1000000 (toy_vm State.New)) =
      Ok (None, st')) by (eexists; vm_compute; reflexivity).
    destruct F as (st' & F). congruence.
Defined.

(** With enough gas for the write, no refund. *)
Lemma transactions_account_for_gas_witness :
  exists r st, ApplyMessage (toy_env false) (toy_table false) false (toy_msg 50000) 1000000 (toy_vm State.New) =
      Ok (inl r, st) /\ rErr r = None /\ 21000 - 21000 / 2 <= UsedGas r <= 50000 /\
      StateTransition.gp st = 1000000 - UsedGas r.
Proof.
  pose proof (transactions_account_for_gas (toy_env false) (toy_table false) false (toy_msg 50000) 1000000
                (toy_vm State.New) (toy_tx_ready 50000 ltac:(by compute))) as W.
  assert (E : exists r st, ApplyMessage (toy_env false) (toy_table false) false (toy_msg 50000) 1000000
                (toy_vm State.New) = Ok (inl r, st) /\ rErr r = None)
    by (do 2 eexists; split; [vm_compute; reflexivity | reflexivity]).
  destruct E as (r & st & E & Er). rewrite E in W. exists r, st. split; [exact E|]. split; [exact Er|].
  destruct W as (_ & ig & Ei & Hb & Hg). vm_compute in Ei. injection Ei as <-. split; [exact Hb | exact Hg].
Defined.

Lemma failed_transactions_only_pay_witness :
  exists r st, ApplyMessage (toy_env false) (toy_table false) false (toy_msg 22000) 1000000 (toy_vm State.New) =
      Ok (inl r, st) /\ rErr r = Some ErrOutOfGas /\ UsedGas r = 22000 /\
      State.GetBalance (db (StateTransition.vm st)) toy_user = 956000 /\
      State.GetBalance (db (StateTransition.vm st)) 0 = 44000 /\
      State.GetNonce (db (StateTransition.vm st)) toy_user = 10.
Proof.
  pose proof (toy_tx_ready 22000 ltac:(by compute)) as R.
  assert (Hh : To (toy_msg 22000) = None -> ErrOutOfGas = ErrCodeStoreOutOfGas ->
    IsHomestead (chainRules (toy_env false)) = true) by (intros H; discriminate H).
  assert (Et : effectiveTip (toy_env false) (toy_msg 22000) = Ok 2) by (vm_compute; reflexivity).
  assert (E : exists r st, ApplyMessage (toy_env false) (toy_table false) false (toy_msg 22000) 1000000
                (toy_vm State.New) = Ok (inl r, st) /\ rErr r = Some ErrOutOfGas /\ UsedGas r = 22000)
    by (do 2 eexists; split; [vm_compute; reflexivity | split; reflexivity]).
  destruct E as (r & st & E & Er & Eu). exists r, st. split; [exact E|]. split; [exact Er|]. split; [exact Eu|].
  destruct (failed_transactions_only_pay (toy_env false) (toy_table false) false (toy_msg 22000) 1000000
    (toy_vm State.New) r st ErrOutOfGas 2 R E Er Et Hh)
    as (HB & _ & _ & HN). clear E.
  split; [rewrite HB, Eu; vm_compute; reflexivity|]. split; [rewrite HB, Eu; vm_compute; reflexivity|].
  rewrite HN by (eexists; reflexivity). vm_compute. reflexivity.
Defined.
