(* ===== verification/Header.v ===== *)
(** * Block headers ([blockchain/model/block.go], [gen_header_rlp.go])

    Hashes and addresses are numbers, the bloom filter its 256 bytes.  The
    pointers [Difficulty] and [Number] are never nil here; [BaseFee] is [None]
    before the London fork. *)

From S2P Require Import Prelude Uint256 Common Rlp RlpSpec EvmState EvmSpec.

Local Open Scope Z_scope.

Module Header.

Record Header := mkHeader {
  ParentHash : Hash;
  UncleHash : Hash;
  Coinbase : Address;
  Root : Hash;
  TxHash : Hash;
  ReceiptHash : Hash;
  Bloom : bytes;
  Difficulty : Z;
  Number : Z;
  GasLimit : Z;
  GasUsed : Z;
  Time : Z;
  Extra : bytes;
  MixDigest : Hash;
  Nonce : Z;
  BaseFee : option Z;
}.

#[export] Instance Header_eq_dec : EqDecision Header.
Proof. solve_decision. Defined.

Definition hash_bytes (h : Hash) : bytes := be_bytes 32 h.
Definition address_bytes (a : Address) : bytes := be_bytes 20 a.

(** [BlockNonce]: [EncodeNonce] and [Uint64]. *)
Definition EncodeNonce (i : Z) : bytes := be_bytes 8 i.
Definition Nonce_Uint64 (n : bytes) : Z := be_value n.

(** The fields in the order [EncodeRLP] writes them. *)
Definition fields (h : Header) : list item :=
  [IBytes (hash_bytes (ParentHash h)); IBytes (hash_bytes (UncleHash h));
   IBytes (address_bytes (Coinbase h)); IBytes (hash_bytes (Root h));
   IBytes (hash_bytes (TxHash h)); IBytes (hash_bytes (ReceiptHash h)); IBytes (Bloom h);
   IBig (Difficulty h); IBig (Number h); IUint (GasLimit h); IUint (GasUsed h);
   IUint (Time h); IBytes (Extra h); IBytes (hash_bytes (MixDigest h));
   IBytes (EncodeNonce (Nonce h))] ++
  match BaseFee h with Some f => [IBig f] | None => [] end.

(** [EncodeRLP]: negative integers are refused. *)
Definition EncodeRLP (h : Header) : res (option bytes) :=
  if (Difficulty h <? 0) || (Number h <? 0) ||
     match BaseFee h with Some f => f <? 0 | None => false end
  then Ok None
  else b ← Enc.EncodeToBytes (IStruct (fields h)); Ok (Some b).

(** [rlpHash]: the error of the encoder is dropped, and then nothing was hashed. *)
Definition rlpHash `{Crypto} (enc : res (option bytes)) : res Hash :=
  e ← enc; Ok (keccak256 (default [] e)).

Definition Hash_ `{Crypto} (h : Header) : res Hash := rlpHash (EncodeRLP h).

(** [EmptyUncleHash]: the hash of the empty list. *)
Definition EmptyUncleHash `{Crypto} : Hash := keccak256 [192].

(** [SanityCheck]: is the header of a sane size? *)
Definition SanityCheck (h : Header) : bool :=
  negb (negb ((0 <=? Number h) && (Number h <? 2 ^ 64))) &&
  negb (BitLen (Difficulty h) >? 80) &&
  negb (zlen (Extra h) >? 100 * 1024) &&
  match BaseFee h with Some f => negb (BitLen f >? 256) | None => true end.

(** [EmptyBody], without the root of the empty trie. *)
Definition EmptyRootHash : Hash :=
  39309028074332508661983559455579427211983204215636056653337583610388178777121.
Definition EmptyBody `{Crypto} (h : Header) : bool :=
  (TxHash h =? EmptyRootHash) && (UncleHash h =? EmptyUncleHash).
Definition EmptyReceipts (h : Header) : bool := ReceiptHash h =? EmptyRootHash.

End Header.

Abbreviation Header := Header.Header.

Import Header.

(** ** The hash identifies the header *)

Record header_ok (h : Header) : Prop := {
  ho_hashes : is_word (ParentHash h) /\ is_word (UncleHash h) /\ is_word (Root h) /\ is_word (TxHash h) /\
    is_word (ReceiptHash h) /\ is_word (MixDigest h);
  ho_coinbase : 0 <= Coinbase h < 2 ^ 160;
  ho_bloom : small (Bloom h);
  ho_ints : 0 <= Difficulty h < 2 ^ 1024 /\ 0 <= Number h < 2 ^ 1024;
  ho_gas : is_u64 (GasLimit h) /\ is_u64 (GasUsed h) /\ is_u64 (Time h) /\ is_u64 (Nonce h);
  ho_extra : small (Extra h);
  ho_fee : forall f, BaseFee h = Some f -> 0 <= f < 2 ^ 1024;
}.

Lemma big_bytes_length x : 0 <= x < 2 ^ 1024 -> zlen (big_bytes x) <= 128.
Proof.
  intros Hx. unfold big_bytes. rewrite zlen_be_bytes. unfold BitLen. destruct (x =? 0) eqn:E; to_prop; [by compute|].
  rewrite Z.abs_eq by lia. assert (Z.log2 x < 1024) by (apply Z.log2_lt_pow2; lia).
  pose proof (Z.log2_nonneg x). dlia.
Qed.

(** The strings of the fields. *)
Lemma fields_contents h :
  encode_items (fields h) = concat (map (fun it => encode_bytes (content it)) (fields h)).
Proof.
  unfold encode_items, fields. rewrite flat_map_app, map_app, concat_app.
  destruct (BaseFee h); cbn; by rewrite ?app_nil_r.
Qed.

Lemma concat_size (f : item -> bytes) l n :
  Forall (fun it => zlen (f it) <= n) l -> zlen (concat (map f l)) <= n * zlen l.
Proof.
  induction 1 as [|it l H _ IH]; [change (zlen (@nil Z)) with 0; unfold zlen; cbn; lia|]. cbn [map concat]. rewrite zlen_app, zlen_cons. lia.
Qed.

Lemma small_size b : small b -> zlen b <= 2 ^ 40.
Proof. by intros []. Qed.

Lemma uint_content_size n : zlen (if n =? 0 then [] else putint n) <= 8.
Proof. destruct (n =? 0); [done|]. unfold putint. repeat zcase; rewrite zlen_be_bytes; lia. Qed.

Lemma field_size h : header_ok h -> Forall (fun it => zlen (encode_bytes (content it)) <= 2 ^ 41) (fields h).
Proof.
  intros [_ _ Hb [Hd Hn] _ He Hf].
  assert (G : forall it, zlen (content it) <= 2 ^ 40 -> zlen (encode_bytes (content it)) <= 2 ^ 41).
  { intros it H. pose proof (encode_bytes_length (content it)). lia. }
  apply Forall_app. split.
  - repeat constructor; apply G; cbn [content]; unfold hash_bytes, address_bytes, EncodeNonce;
      rewrite ?zlen_be_bytes; try lia; try (by apply small_size);
      try (etrans; [apply uint_content_size | lia]); (etrans; [by apply big_bytes_length | lia]).
  - destruct (BaseFee h) as [f|] eqn:E; repeat constructor. apply G. cbn [content].
    etrans; [apply big_bytes_length; by apply Hf | lia].
Qed.

Lemma fields_size h : header_ok h -> zlen (encode_items (fields h)) < 2 ^ 62.
Proof.
  intros H. rewrite fields_contents.
  pose proof (concat_size (fun it => encode_bytes (content it)) (fields h) _ (field_size h H)) as Hc.
  assert (zlen (fields h) <= 16) by (unfold fields; rewrite zlen_app; destruct (BaseFee h); by compute). nia.
Qed.

Lemma wf_fields h : header_ok h -> wf_items (fields h).
Proof.
  intros [_ _ [Hb _] [Hd Hn] (Hg & Hu & Ht & _) [He _] Hf]. unfold fields.
  destruct (BaseFee h) as [f|] eqn:E; [specialize (Hf f eq_refl)|];
    cbn [app wf_items foldr wf_item]; split_and!; try done; try apply wf_be_bytes; lia.
Qed.

Lemma Hash_spec `{C : Crypto} h : header_ok h -> Hash_ h = Ok (keccak256 (encode (IStruct (fields h)))).
Proof.
  intros H. pose proof (wf_fields h H) as Hw. pose proof (fields_size h H) as Hs.
  destruct H as [_ _ _ [Hd Hn] _ _ Hf]. unfold Hash_, EncodeRLP.
  destruct (_ || _) eqn:E.
  { apply orb_true_iff in E as [E|E]; [apply orb_true_iff in E as [E|E]; to_prop; lia|].
    destruct (BaseFee h) as [f|]; [|done]. to_prop. specialize (Hf f eq_refl). lia. }
  rewrite EncodeToBytes_spec; [done | exact Hw|].
  cbn [encode]. fold (encode_items (fields h)). rewrite zlen_app. pose proof (puthead_length 192 247 (zlen (encode_items (fields h)))). lia.
Qed.

Lemma string_field a b : wf_item a -> wf_item b ->
  encode a = encode_bytes (content a) -> encode b = encode_bytes (content b) ->
  wf_bytes (content a) -> wf_bytes (content b) -> zlen (encode_bytes (content a)) < 2 ^ 63 ->
  encode a = encode b -> content a = content b.
Proof. intros _ _ Ea Eb Wa Wb Hl E. apply encode_bytes_inj; congruence || done. Qed.

Lemma be_bytes_inj n x y : 0 <= x < 256 ^ Z.of_nat n -> 0 <= y < 256 ^ Z.of_nat n ->
  be_bytes n x = be_bytes n y -> x = y.
Proof.
  intros Hx Hy E. apply (f_equal be_value) in E. rewrite !be_value_be_bytes, !Z.mod_small in E by done. done.
Qed.

(** Two headers with the same encoding have the same contents field by field. *)
Lemma fields_inj h h' : header_ok h -> header_ok h' -> encode_items (fields h) = encode_items (fields h') ->
  Forall2 (fun a b => content a = content b) (fields h) (fields h').
Proof.
  intros H H' E.
  pose proof (encode_items_inj _ _ (wf_fields h H) (wf_fields h' H') ltac:(pose proof (fields_size h H); lia) E) as F.
  assert (S : forall h, header_ok h -> Forall (fun it => encode it = encode_bytes (content it) /\ wf_bytes (content it) /\
    zlen (encode_bytes (content it)) < 2 ^ 63) (fields h)).
  { clear. intros h H. pose proof (field_size h H) as Z. destruct H as [_ _ [Hb _] _ _ [He _] _]. unfold fields in *.
    apply Forall_app in Z as [Z1 Z2]. apply Forall_app. split.
    - repeat (apply Forall_cons in Z1 as [? Z1]; apply Forall_cons; split; [split; [done|]; split; [|lia]|]);
        try done; try apply wf_be_bytes; apply wf_uint_content.
    - destruct (BaseFee h); [|done]. apply Forall_cons in Z2 as [? _]. repeat constructor; [apply wf_be_bytes | lia]. }
  pose proof (S h H) as F1. pose proof (S h' H') as F2. clear S E H H'.
  induction F as [|a b l l' Eab F IH]; [done|].
  apply Forall_cons in F1 as [(E1 & W1 & S1) F1]. apply Forall_cons in F2 as [(E2 & W2 & _) F2].
  constructor; [|by apply IH]. apply encode_bytes_inj; try done. congruence.
Qed.

Lemma contents_inj h h' : header_ok h -> header_ok h' ->
  Forall2 (fun a b => content a = content b) (fields h) (fields h') -> h = h'.
Proof.
  intros [Hh Hc _ [Hd Hn] (Hg & Hu & Ht & Ho) _ Hf] [Hh' Hc' _ [Hd' Hn'] (Hg' & Hu' & Ht' & Ho') _ Hf'] F.
  unfold fields in F. cbn [app] in F.
  repeat match goal with F : Forall2 _ (_ :: _) (_ :: _) |- _ =>
    let E := fresh "E" in apply Forall2_cons in F as [E F]; cbn [content] in E end.
  destruct h as [p u c r t rc b d n gl gu tm ex mx no bf], h' as [p' u' c' r' t' rc' b' d' n' gl' gu' tm' ex' mx' no' bf'].
  cbn [ParentHash UncleHash Coinbase Root TxHash ReceiptHash Bloom Difficulty Number GasLimit GasUsed Time Extra
       MixDigest Nonce BaseFee] in *.
  unfold is_word, two256, is_u64, hash_bytes, address_bytes, EncodeNonce in *.
  assert (B : forall x y, big_bytes x = big_bytes y -> 0 <= x -> 0 <= y -> x = y).
  { intros x y Ex Hx Hy. rewrite <- (big_bytes_value x), <- (big_bytes_value y) by done. by rewrite Ex. }
  f_equal; try done; try (by apply uint_content_inj); try (apply B; done || lia);
    try (eapply be_bytes_inj; [| |eassumption]; lia).
  destruct bf as [f|], bf' as [f'|]; try (by inversion F).
  apply Forall2_cons in F as [Ef F]. cbn [content] in Ef. f_equal. specialize (Hf f eq_refl). specialize (Hf' f' eq_refl). apply B; done || lia.
Qed.

Lemma Ok_inj {A} (a b : A) : Ok a = Ok b -> a = b.
Proof. by intros [= ->]. Qed.

(** the hash of a header identifies it: two well-formed headers with
    the same hash are the same header, whether or not they carry a base fee. *)
Theorem header_hash_injective `{C : Crypto} `{CS : !CryptoSpec C} (h h' : Header) :
  header_ok h -> header_ok h' -> Hash_ h = Hash_ h' -> h = h'.
Proof.
  intros H H' E. rewrite !Hash_spec in E by done. apply Ok_inj in E.
  apply keccak_inj in E; [|by apply wf_encode, (wf_fields h H) | by apply wf_encode, (wf_fields h' H')].
  assert (P : encode (IStruct (fields h)) = encode (IStruct (fields h'))) by done.
  assert (S : forall h, header_ok h ->
    Split (encode (IStruct (fields h))) = Ok (inl (List, encode_items (fields h), []))).
  { intros g G. pose proof (fields_size g G). apply Split_canonical.
    - by apply wf_encode, wf_fields.
    - cbn [encode]. fold (encode_items (fields g)). rewrite zlen_app.
      pose proof (puthead_length 192 247 (zlen (encode_items (fields g)))). lia.
    - split; [done|]. by rewrite app_nil_r. }
  assert (I : forall a b : bytes, Ok (@inl _ RlpErr (List, a, @nil Z)) = Ok (inl (List, b, [])) -> a = b)
    by (intros a b [= ->]; done).
  pose proof (S h H) as S1. rewrite P, (S h' H') in S1. apply I in S1.
  apply contents_inj; [exact H | exact H'|]. apply fields_inj; [exact H | exact H' | by symmetry].
Qed.

(** A header with and without a base fee. *)
Definition sample_header (fee : option Z) : Header :=
  mkHeader 1 2 3 4 5 6 (replicate 256 0) 131072 7 5000 0 10 [1; 2] 0 9 fee.

Lemma sample_header_ok fee : (forall f, fee = Some f -> 0 <= f < 2 ^ 1024) -> header_ok (sample_header fee).
Proof.
  intros H. split; [by compute | by compute | | by compute | by compute | | exact H];
    (split; [repeat constructor; by compute | by compute]).
Qed.
