(* ===== verification/Consensus.v ===== *)
(** * Consensus rules shared by the engines

    [consensus/misc/eip1559.go], [consensus/misc/gaslimit.go] and [CalcGasLimit]
    of [blockchain/block_validator.go]. *)

From S2P Require Import Prelude Config Common EvmState Header.

Local Open Scope Z_scope.

(** ** Errors *)
Inductive ConsensusErr :=
| ErrGasLimitBounds | ErrGasLimitMin | ErrMissingBaseFee | ErrInvalidBaseFee
| ErrExtraTooLong | ErrFutureBlock | errOlderBlockTime | ErrInvalidDifficulty
| ErrGasLimitMax | ErrGasUsedLimit | ErrBaseFeeBeforeFork | ErrInvalidNumber
| errInvalidDifficulty | errInvalidMixDigest | errInvalidPoW
| errTooManyUncles | errDuplicateUncle | errUncleIsAncestor | errDanglingUncle
| ErrUnknownAncestor.

#[export] Instance ConsensusErr_eq_dec : EqDecision ConsensusErr.
Proof. solve_decision. Defined.

(** [conf.IsLondon(num)], [conf.IsHomestead(num)]. *)
Definition conf_IsLondon (c : ChainConfig) (num : Z) : bool := isForked (LondonBlock c) (Some num).
Definition conf_IsHomestead (c : ChainConfig) (num : Z) : bool := isForked (HomesteadBlock c) (Some num).

(** ** [VerifyGaslimit]: signed 64-bit arithmetic *)
Definition VerifyGaslimit (parentGasLimit headerGasLimit : Z) : option ConsensusErr :=
  let diff := i64 (i64 parentGasLimit - i64 headerGasLimit) in
  let diff := if diff <? 0 then i64 (diff * -1) else diff in
  let limit := parentGasLimit / GasLimitBoundDivisor in
  if limit <=? u64 diff then Some ErrGasLimitBounds
  else if headerGasLimit <? MinGasLimit then Some ErrGasLimitMin
  else None.

(** ** [CalcGasLimit] *)
Definition CalcGasLimit (parentGasLimit desiredLimit : Z) : Z :=
  let delta := sub64 (parentGasLimit / GasLimitBoundDivisor) 1 in
  let limit := parentGasLimit in
  let desiredLimit := if desiredLimit <? MinGasLimit then MinGasLimit else desiredLimit in
  if limit <? desiredLimit then
    let limit := add64 parentGasLimit delta in
    if limit >? desiredLimit then desiredLimit else limit
  else if limit >? desiredLimit then
    let limit := sub64 parentGasLimit delta in
    if limit <? desiredLimit then desiredLimit else limit
  else limit.

(** ** [CalcBaseFee] *)

(** [num.Div(num, denom)]: Euclidean division, a panic on zero. *)
Definition bigDiv (x y : Z) : res Z := if y =? 0 then Panic PanicDivide else Ok (x / y).

Definition CalcBaseFee (conf : ChainConfig) (parent : Header) : res Z :=
  if negb (conf_IsLondon conf (Header.Number parent)) then Ok InitialBaseFee
  else
    let parentGasTarget := Header.GasLimit parent / ElasticityMultiplier in
    parentBaseFee ← or_panic PanicNil (Header.BaseFee parent);
    if Header.GasUsed parent =? parentGasTarget then Ok parentBaseFee
    else if Header.GasUsed parent >? parentGasTarget then
      let num := sub64 (Header.GasUsed parent) parentGasTarget * parentBaseFee in
      num ← bigDiv num parentGasTarget;
      num ← bigDiv num BaseFeeChangeDenominator;
      let baseFeeDelta := Z.max num 1 in
      Ok (parentBaseFee + baseFeeDelta)
    else
      let num := sub64 parentGasTarget (Header.GasUsed parent) * parentBaseFee in
      num ← bigDiv num parentGasTarget;
      num ← bigDiv num BaseFeeChangeDenominator;
      Ok (Z.max (parentBaseFee - num) 0).

Definition VerifyEip1559Header (conf : ChainConfig) (parent header : Header) : res (option ConsensusErr) :=
  let parentGasLimit :=
    if negb (conf_IsLondon conf (Header.Number parent))
    then mul64 (Header.GasLimit parent) ElasticityMultiplier else Header.GasLimit parent in
  match VerifyGaslimit parentGasLimit (Header.GasLimit header) with
  | Some e => Ok (Some e)
  | None =>
    match Header.BaseFee header with
    | None => Ok (Some ErrMissingBaseFee)
    | Some fee =>
      expectedBaseFee ← CalcBaseFee conf parent;
      Ok (if negb (fee =? expectedBaseFee) then Some ErrInvalidBaseFee else None)
    end
  end.
