(* ===== verification/Ethash.v ===== *)
(** * The ethash engine ([consensus/ethash])

    [consensus.go]: difficulty adjustment with big integers, header and uncle
    verification, rewards; [difficulty.go]: the same adjustment on 256-bit
    integers.  The proof-of-work function over the epoch's cache is a parameter,
    and the engine is the real one (not a fake, shared or test engine). *)

From S2P Require Import Prelude Uint256 Config Common Rlp EvmState Header Consensus.

Local Open Scope Z_scope.

(** ** Constants ([config/protocol.go], [consensus.go], [difficulty.go]) *)
Definition DifficultyBoundDivisor : Z := 2048.
Definition MinimumDifficulty : Z := 131072.
Definition DurationLimit : Z := 13.
Definition FrontierBlockReward : Z := 5 * 10 ^ 18.
Definition maxUncles : Z := 2.
Definition allowedFutureBlockTimeSeconds : Z := 15.
Definition expDiffPeriod : Z := 100000.
Definition frontierDurationLimit : Z := 13.
Definition minimumDifficulty : Z := 131072.
Definition expDiffPeriodUint : Z := 100000.
Definition difficultyBoundDivisor : Z := 11.

(** ** Difficulty with big integers *)

Definition makeDifficultyCalculator `{Crypto} (bombDelay : Z) (time : Z) (parent : Header) : Z :=
  let bombDelayFromParent := bombDelay - 1 in
  let x := (time - Header.Time parent) / 9 in
  let x := if Header.UncleHash parent =? Header.EmptyUncleHash then 1 - x else 2 - x in
  let x := if x <? -99 then -99 else x in
  let y := Header.Difficulty parent / DifficultyBoundDivisor in
  let x := Header.Difficulty parent + y * x in
  let x := if x <? MinimumDifficulty then MinimumDifficulty else x in
  let fakeBlockNumber :=
    if bombDelayFromParent <=? Header.Number parent
    then Header.Number parent - bombDelayFromParent else 0 in
  let periodCount := fakeBlockNumber / expDiffPeriod in
  if periodCount >? 1 then x + 2 ^ (periodCount - 2) else x.

Definition calcDifficultyHomestead (time : Z) (parent : Header) : Z :=
  let x := (time - Header.Time parent) / 10 in
  let x := 1 - x in
  let x := if x <? -99 then -99 else x in
  let y := Header.Difficulty parent / DifficultyBoundDivisor in
  let x := Header.Difficulty parent + y * x in
  let x := if x <? MinimumDifficulty then MinimumDifficulty else x in
  let periodCount := (Header.Number parent + 1) / expDiffPeriod in
  if periodCount >? 1 then x + 2 ^ (periodCount - 2) else x.

Definition calcDifficultyFrontier (time : Z) (parent : Header) : Z :=
  let adjust := Header.Difficulty parent / DifficultyBoundDivisor in
  let diff := if time - Header.Time parent <? DurationLimit
              then Header.Difficulty parent + adjust else Header.Difficulty parent - adjust in
  let diff := if diff <? MinimumDifficulty then MinimumDifficulty else diff in
  let periodCount := (Header.Number parent + 1) / expDiffPeriod in
  if periodCount >? 1
  then Z.max (diff + 2 ^ (periodCount - 2)) MinimumDifficulty
  else diff.

Definition calcDifficultyLondon `{Crypto} : Z -> Header -> Z := makeDifficultyCalculator 9700000.

Definition CalcDifficulty `{Crypto} (conf : ChainConfig) (time : Z) (parent : Header) : Z :=
  let next := Header.Number parent + 1 in
  if conf_IsLondon conf next then calcDifficultyLondon time parent
  else if conf_IsHomestead conf next then calcDifficultyHomestead time parent
  else calcDifficultyFrontier time parent.

(** ** Difficulty with 256-bit integers *)

Section u256.
Context `{U : Uint256}.

(** [pDiff.LtUint64(minimumDifficulty)], then [SetUint64]. *)
Definition clampU256 (d : Z) : Z := if u_LtUint64 d minimumDifficulty then minimumDifficulty else d.

Definition CalcDifficultyFrontierU256 (time : Z) (parent : Header) : Z :=
  let pDiff := fst (u_FromBig (Header.Difficulty parent)) in
  let adjust := u_Rsh pDiff difficultyBoundDivisor in
  let pDiff := if sub64 time (Header.Time parent) <? frontierDurationLimit
               then u_Add pDiff adjust else u_Sub pDiff adjust in
  let pDiff := clampU256 pDiff in
  let periodCount := add64 (u64 (Header.Number parent)) 1 / expDiffPeriodUint in
  if periodCount >? 1 then u_Add pDiff (u_Lsh 1 (sub64 periodCount 2)) else pDiff.

Definition CalcDifficultyHomesteadU256 (time : Z) (parent : Header) : Z :=
  let pDiff := fst (u_FromBig (Header.Difficulty parent)) in
  let adjust := u_Rsh pDiff difficultyBoundDivisor in
  let x := sub64 time (Header.Time parent) / 10 in
  let '(x, neg) := if x =? 0 then (1, false) else if 100 <=? x then (99, true) else (sub64 x 1, true) in
  let adjust := u_Mul adjust x in
  let pDiff := if neg then u_Sub pDiff adjust else u_Add pDiff adjust in
  let pDiff := clampU256 pDiff in
  let periodCount := add64 1 (u64 (Header.Number parent)) / expDiffPeriodUint in
  if periodCount >? 1 then u_Add pDiff (u_Lsh 1 (sub64 periodCount 2)) else pDiff.

Definition MakeDifficultyCalculatorU256 `{Crypto} (bombDelay : Z) (time : Z) (parent : Header) : Z :=
  let bombDelayFromParent := sub64 (u64 bombDelay) 1 in
  let x := sub64 time (Header.Time parent) / 9 in
  let c := if negb (Header.UncleHash parent =? Header.EmptyUncleHash) then 2 else 1 in
  let xNeg := c <=? x in
  let x := if xNeg then sub64 x c else sub64 c x in
  let x := if x >? 99 then 99 else x in
  let y := fst (u_FromBig (Header.Difficulty parent)) in
  let pDiff := y in
  let y := u_Rsh y difficultyBoundDivisor in
  let z := u_Mul y x in
  let y := if xNeg then u_Sub pDiff z else u_Add pDiff z in
  let y := clampU256 y in
  let pNum := u64 (Header.Number parent) in
  if bombDelayFromParent <=? pNum then
    let fakeBlockNumber := sub64 pNum bombDelayFromParent in
    if 2 * expDiffPeriodUint <=? fakeBlockNumber
    then u_Add (u_Lsh 1 (sub64 (fakeBlockNumber / expDiffPeriodUint) 2)) y
    else y
  else y.
End u256.

(** ** Verification *)

Record Block := mkBlock { bHeader : Header; bUncles : list Header }.

(** [consensus.ChainReader]: what the engine reads of the chain. *)
Record ChainReader := mkReader {
  cr_Config : ChainConfig;
  GetHeader : Hash -> Z -> option Header;
  GetBlock : Hash -> Z -> option Block;
}.

Section verify.
Context `{C : Crypto}.
(** [hashimotoLight] on the cache of a block's epoch: digest and result. *)
Context (hashimoto : Z -> Hash -> Z -> bytes * bytes).
Context (chain : ChainReader).

(** [SealHash]: the header without its proof of work. *)
Definition SealHash (h : Header) : res Hash :=
  Header.rlpHash
    (if (Header.Difficulty h <? 0) || (Header.Number h <? 0) ||
        match Header.BaseFee h with Some f => f <? 0 | None => false end
     then Ok None
     else
       b ← Enc.EncodeToBytes (IList (
         [IBytes (be_bytes 32 (Header.ParentHash h)); IBytes (be_bytes 32 (Header.UncleHash h));
          IBytes (be_bytes 20 (Header.Coinbase h)); IBytes (be_bytes 32 (Header.Root h));
          IBytes (be_bytes 32 (Header.TxHash h)); IBytes (be_bytes 32 (Header.ReceiptHash h));
          IBytes (Header.Bloom h); IBig (Header.Difficulty h); IBig (Header.Number h);
          IUint (Header.GasLimit h); IUint (Header.GasUsed h); IUint (Header.Time h);
          IBytes (Header.Extra h)] ++
         match Header.BaseFee h with Some f => [IBig f] | None => [] end));
       Ok (Some b)).

Definition verifySeal (h : Header) : res (option ConsensusErr) :=
  if Header.Difficulty h <=? 0 then Ok (Some errInvalidDifficulty)
  else
    let number := u64 (Header.Number h) in
    seal ← SealHash h;
    let '(digest, result) := hashimoto number seal (Header.Nonce h) in
    if bool_decide (be_bytes 32 (Header.MixDigest h) <> digest) then Ok (Some errInvalidMixDigest)
    else
      target ← bigDiv (2 ^ 256) (Header.Difficulty h);
      Ok (if be_value result >? target then Some errInvalidPoW else None).

(** [misc.VerifyForkHashes], called last, always returns nil. *)
Definition verifyHeader (header parent : Header) (uncle seal : bool) (unixNow : Z)
    : res (option ConsensusErr) :=
  let conf := cr_Config chain in
  if u64 (zlen (Header.Extra header)) >? MaximumExtraDataSize then Ok (Some ErrExtraTooLong)
  else if negb uncle && (Header.Time header >? u64 (unixNow + allowedFutureBlockTimeSeconds))
  then Ok (Some ErrFutureBlock)
  else if Header.Time header <=? Header.Time parent then Ok (Some errOlderBlockTime)
  else
    let expected := CalcDifficulty conf (Header.Time header) parent in
    if negb (expected =? Header.Difficulty header) then Ok (Some ErrInvalidDifficulty)
    else if Header.GasLimit header >? MaxGasLimit then Ok (Some ErrGasLimitMax)
    else if Header.GasUsed header >? Header.GasLimit header then Ok (Some ErrGasUsedLimit)
    else
      err ←
        (if negb (conf_IsLondon conf (Header.Number header)) then
           match Header.BaseFee header with
           | Some _ => Ok (Some ErrBaseFeeBeforeFork)
           | None => Ok (VerifyGaslimit (Header.GasLimit parent) (Header.GasLimit header))
           end
         else VerifyEip1559Header conf parent header);
      match err with
      | Some e => Ok (Some e)
      | None =>
        if negb (Header.Number header - Header.Number parent =? 1) then Ok (Some ErrInvalidNumber)
        else if seal then verifySeal header
        else Ok None
      end.

Definition VerifyHeader (header : Header) (seal : bool) (unixNow : Z) : res (option ConsensusErr) :=
  let number := u64 (Header.Number header) in
  h ← Header.Hash_ header;
  match GetHeader chain h number with
  | Some _ => Ok None
  | None =>
    match GetHeader chain (Header.ParentHash header) (sub64 number 1) with
    | None => Ok (Some ErrUnknownAncestor)
    | Some parent => verifyHeader header parent false seal unixNow
    end
  end.

Fixpoint add_hashes (l : list Header) (s : gset Z) : res (gset Z) :=
  match l with
  | [] => Ok s
  | u :: l => h ← Header.Hash_ u; add_hashes l ({[h]} ∪ s)
  end.

(** The loop that gathers ancestors and past uncles, at most seven generations. *)
Fixpoint gather (n : nat) (parent : Hash) (number : Z) (ancestors : gmap Z Header) (uncles : gset Z)
    : res (gmap Z Header * gset Z) :=
  match n with
  | O => Ok (ancestors, uncles)
  | S n =>
    match GetHeader chain parent number with
    | None => Ok (ancestors, uncles)
    | Some ancestorHeader =>
      let ancestors := <[parent := ancestorHeader]> ancestors in
      if negb (Header.UncleHash ancestorHeader =? Header.EmptyUncleHash) then
        match GetBlock chain parent number with
        | None => Ok (ancestors, uncles)
        | Some ancestor =>
          uncles ← add_hashes (bUncles ancestor) uncles;
          gather n (Header.ParentHash ancestorHeader) (sub64 number 1) ancestors uncles
        end
      else gather n (Header.ParentHash ancestorHeader) (sub64 number 1) ancestors uncles
    end
  end.

(** The loop over the uncles of the block. *)
Fixpoint check_uncles (blockParent : Hash) (ancestors : gmap Z Header) (uncles : gset Z) (unixNow : Z)
    (l : list Header) : res (option ConsensusErr) :=
  match l with
  | [] => Ok None
  | uncle :: l =>
    hash ← Header.Hash_ uncle;
    if bool_decide (hash ∈ uncles) then Ok (Some errDuplicateUncle)
    else
      let uncles := {[hash]} ∪ uncles in
      match ancestors !! hash with
      | Some _ => Ok (Some errUncleIsAncestor)
      | None =>
        match ancestors !! Header.ParentHash uncle with
        | None => Ok (Some errDanglingUncle)
        | Some p =>
          if Header.ParentHash uncle =? blockParent then Ok (Some errDanglingUncle)
          else
            err ← verifyHeader uncle p true true unixNow;
            match err with
            | Some e => Ok (Some e)
            | None => check_uncles blockParent ancestors uncles unixNow l
            end
        end
      end
  end.

Definition VerifyUncles (block : Block) (unixNow : Z) : res (option ConsensusErr) :=
  if zlen (bUncles block) >? maxUncles then Ok (Some errTooManyUncles)
  else if zlen (bUncles block) =? 0 then Ok None
  else
    let number := sub64 (u64 (Header.Number (bHeader block))) 1 in
    let parent := Header.ParentHash (bHeader block) in
    '(ancestors, uncles) ← gather 7 parent number ∅ ∅;
    h ← Header.Hash_ (bHeader block);
    let ancestors := <[h := bHeader block]> ancestors in
    let uncles := {[h]} ∪ uncles in
    check_uncles parent ancestors uncles unixNow (bUncles block).

Definition Prepare (header : Header) : Header + ConsensusErr :=
  match GetHeader chain (Header.ParentHash header) (sub64 (u64 (Header.Number header)) 1) with
  | None => inr ErrUnknownAncestor
  | Some parent =>
    let d := CalcDifficulty (cr_Config chain) (Header.Time header) parent in
    inl (Header.mkHeader (Header.ParentHash header) (Header.UncleHash header) (Header.Coinbase header)
      (Header.Root header) (Header.TxHash header) (Header.ReceiptHash header) (Header.Bloom header) d
      (Header.Number header) (Header.GasLimit header) (Header.GasUsed header) (Header.Time header)
      (Header.Extra header) (Header.MixDigest header) (Header.Nonce header) (Header.BaseFee header))
  end.
End verify.

(** ** Rewards *)
Section rewards.
Context {DB : Type} `{SDB : StateDB DB}.

(** [r] of an uncle, and the loop over the uncles: the miner's reward and the
    state. *)
Definition uncleReward (header uncle : Header) : Z :=
  (Header.Number uncle + 8 - Header.Number header) * FrontierBlockReward / 8.

Fixpoint rewardUncles (header : Header) (uncles : list Header) (reward : Z) (d : DB) : Z * DB :=
  match uncles with
  | [] => (reward, d)
  | uncle :: uncles =>
    let d := AddBalance (Header.Coinbase uncle) (uncleReward header uncle) d in
    rewardUncles header uncles (reward + FrontierBlockReward / 32) d
  end.

Definition accumulateRewards (header : Header) (uncles : list Header) (d : DB) : DB :=
  let '(reward, d) := rewardUncles header uncles FrontierBlockReward d in
  AddBalance (Header.Coinbase header) reward d.
End rewards.
