(* ===== verification/EthashSpec.v ===== *)
(** * Correctness of the ethash engine and the shared consensus rules *)

From S2P Require Import Prelude Uint256 Config Common EvmAnalysis EvmStack EvmMemory Rlp RlpSpec.
From S2P Require Import EvmState EvmSpec StateDB StateSpec StateRevert Instances StateTheorems.
From S2P Require Import Header Consensus Ethash.

Local Open Scope Z_scope.

(** ** The two difficulty implementations agree *)

Section difficulty.
Context `{U : Uint256} `{US : !Uint256Spec U} `{C : Crypto}.

(** A parent whose fields fit the types of the 256-bit calculators, and the time of a
    block that is not older. *)
Record in_reach (time : Z) (parent : Header) : Prop := {
  ir_time : 0 <= Header.Time parent <= time /\ time < 2 ^ 64;
  ir_diff : 0 <= Header.Difficulty parent < two256;
  ir_number : 0 <= Header.Number parent < 2 ^ 64 - 1;
}.

Lemma u_exact x : 0 <= x < two256 -> x mod two256 = x.
Proof. apply Z.mod_small. Qed.

Lemma clampU256_spec d : is_word d -> clampU256 d = if d <? MinimumDifficulty then MinimumDifficulty else d.
Proof. intros. unfold clampU256, u_LtUint64. by rewrite Lt_spec by (done || by compute). Qed.

(** The adjusted difficulty, from the factor and its sign. *)
Lemma adjust_u256 d x (neg : bool) : 0 <= d < two256 -> 0 <= x <= 99 ->
  let a := u_Mul (u_Rsh d 11) x in
  let r := d + d / 2048 * (if neg then - x else x) in
  0 <= r /\ (r < two256 -> (if neg then u_Sub d a else u_Add d a) = r).
Proof.
  intros Hd Hx. cbv zeta. assert (Hq : 0 <= d / 2048 /\ 2048 * (d / 2048) <= d).
  { split; [apply Z.div_pos; lia | apply Z.mul_div_le; lia]. }
  assert (Wd : is_word d) by (unfold is_word; lia).
  assert (Wx : is_word x) by (unfold is_word, two256; lia).
  rewrite Rsh_spec by (done || lia). change (2 ^ 11) with 2048.
  assert (Wq : is_word (d / 2048)) by (unfold is_word in *; lia).
  rewrite Mul_spec by done. rewrite u_exact by nia.
  assert (Wm : is_word (d / 2048 * x)) by (unfold is_word; nia).
  destruct neg; (split; [nia|]); intros Hr.
  - rewrite Sub_spec by done. rewrite u_exact by nia. nia.
  - rewrite Add_spec by done. by rewrite u_exact by nia.
Qed.

Lemma bomb_u256 d n : 0 <= d -> 2 <= n -> d + 2 ^ (n - 2) < two256 ->
  u_Lsh 1 (sub64 n 2) = 2 ^ (n - 2) /\ u_Add d (2 ^ (n - 2)) = d + 2 ^ (n - 2) /\
  u_Add (2 ^ (n - 2)) d = d + 2 ^ (n - 2).
Proof.
  intros Hd Hn Hlt. assert (Hp : 0 < 2 ^ (n - 2)) by (apply Z.pow_pos_nonneg; lia).
  assert (Hn2 : n - 2 < 256) by (apply (Z.pow_lt_mono_r_iff 2); [lia | lia | change (2 ^ 256) with two256; lia]).
  rewrite sub64_small by lia. assert (W1 : is_word 1) by by compute. assert (W2 : is_word (2 ^ (n - 2))) by (unfold is_word; lia).
  assert (Wd : is_word d) by (unfold is_word; lia).
  rewrite Lsh_spec by (done || lia). rewrite !Add_spec by done. rewrite !u_exact by lia. lia.
Qed.

(** The big-integer difficulty of a period, and that it bounds its parts. *)
Definition with_bomb (r n : Z) : Z :=
  let cl := if r <? MinimumDifficulty then MinimumDifficulty else r in if n >? 1 then cl + 2 ^ (n - 2) else cl.

Lemma with_bomb_bounds r n : 0 <= r -> with_bomb r n < two256 ->
  let cl := if r <? MinimumDifficulty then MinimumDifficulty else r in
  r < two256 /\ MinimumDifficulty <= cl /\ (n > 1 -> cl + 2 ^ (n - 2) < two256).
Proof.
  intros Hr. unfold with_bomb. cbv zeta. set (cl := if _ <? _ then _ else _).
  assert (Hcl : r <= cl /\ MinimumDifficulty <= cl) by (unfold cl; zcase; lia).
  destruct (n >? 1) eqn:E; to_prop; intros; [|lia]. assert (0 < 2 ^ (n - 2)) by (apply Z.pow_pos_nonneg; lia). lia.
Qed.

Lemma FromBig_diff d : 0 <= d < two256 -> fst (u_FromBig d) = d.
Proof. intros. rewrite FromBig_spec. by apply u_exact. Qed.

Lemma Frontier_agrees time parent : in_reach time parent -> calcDifficultyFrontier time parent < two256 ->
  CalcDifficultyFrontierU256 time parent = calcDifficultyFrontier time parent.
Proof.
  intros [Ht Hd Hn] Hb. unfold CalcDifficultyFrontierU256. rewrite FromBig_diff by done. set (d := Header.Difficulty parent) in *.
  rewrite sub64_small by lia. set (neg := negb (time - Header.Time parent <? DurationLimit)). set (n := (Header.Number parent + 1) / expDiffPeriod).
  destruct (adjust_u256 d 1 neg Hd ltac:(lia)) as [A1 A2]. cbv zeta in A1, A2. change (Z.opp 1) with (-1) in A1, A2. set (r := d + d / 2048 * (if neg then -1 else 1)) in *.
  assert (Ebig : calcDifficultyFrontier time parent = with_bomb r n).
  { unfold calcDifficultyFrontier, with_bomb. fold d n. change DifficultyBoundDivisor with 2048.
    assert ((if time - Header.Time parent <? DurationLimit then d + d / 2048 else d - d / 2048) = r) as ->
      by (unfold r, neg; destruct (_ <? DurationLimit); cbn [negb]; lia).
    set (cl := if r <? _ then _ else _). assert (MinimumDifficulty <= cl) by (unfold cl; zcase; lia).
    destruct (n >? 1) eqn:E; to_prop; [|done]. assert (0 < 2 ^ (n - 2)) by (apply Z.pow_pos_nonneg; lia). lia. }
  rewrite Ebig in *. destruct (with_bomb_bounds r n A1 Hb) as (B1 & B2 & B3). specialize (A2 B1).
  change frontierDurationLimit with DurationLimit. change difficultyBoundDivisor with 11. change expDiffPeriodUint with expDiffPeriod.
  assert (M : u_Mul (u_Rsh d 11) 1 = u_Rsh d 11).
  { assert (is_word (u_Rsh d 11)) by (rewrite Rsh_spec by (try lia; unfold is_word; lia); unfold is_word; change (2 ^ 11) with 2048; dlia).
    rewrite Mul_spec by (done || by compute). rewrite Z.mul_1_r. by apply u_exact. }
  rewrite M in A2. assert ((if time - Header.Time parent <? DurationLimit then u_Add d (u_Rsh d 11) else u_Sub d (u_Rsh d 11)) = r) as ->
    by (rewrite <- A2; unfold neg; by destruct (_ <? DurationLimit)).
  rewrite clampU256_spec by (unfold is_word; lia). rewrite u64_small, add64_small by (unfold is_u64; lia). fold n. unfold with_bomb.
  set (cl := if r <? _ then _ else _) in *. destruct (n >? 1) eqn:E; to_prop; [|done]. by destruct (bomb_u256 cl n ltac:(unfold MinimumDifficulty in *; lia) ltac:(lia) (B3 ltac:(lia))) as (-> & -> & _).
Qed.

Lemma Homestead_agrees time parent : in_reach time parent -> calcDifficultyHomestead time parent < two256 ->
  CalcDifficultyHomesteadU256 time parent = calcDifficultyHomestead time parent.
Proof.
  intros [Ht Hd Hn] Hb. unfold CalcDifficultyHomesteadU256.
  rewrite FromBig_diff by done. set (d := Header.Difficulty parent) in *. rewrite sub64_small by lia.
  change difficultyBoundDivisor with 11. change expDiffPeriodUint with expDiffPeriod. set (t := (time - Header.Time parent) / 10).
  assert (Htt : 0 <= t < 2 ^ 64) by (unfold t; dlia). set (n := (Header.Number parent + 1) / expDiffPeriod).
  set (f := if 1 - t <? -99 then -99 else 1 - t).
  assert (X : exists x neg, (if t =? 0 then (1, false) else if 100 <=? t then (99, true) else (sub64 t 1, true)) = (x, neg) /\
    0 <= x <= 99 /\ f = if neg then - x else x).
  { unfold f. destruct (t =? 0) eqn:E0; to_prop; [exists 1, false; rewrite E0; by compute|].
    destruct (100 <=? t) eqn:E1; to_prop; eexists _, _; (split; [reflexivity|]); split; try lia.
    - destruct (_ <? -99) eqn:E; to_prop; lia.
    - rewrite sub64_small by lia. lia.
    - rewrite sub64_small by lia. destruct (_ <? -99) eqn:E; to_prop; lia. }
  destruct X as (x & neg & -> & Hx & Hf). destruct (adjust_u256 d x neg Hd Hx) as [A1 A2]. cbv zeta in A1, A2. rewrite <- Hf in A1, A2.
  change (calcDifficultyHomestead time parent) with (with_bomb (d + d / 2048 * f) n) in *.
  destruct (with_bomb_bounds _ n A1 Hb) as (B1 & B2 & B3). rewrite (A2 B1).
  rewrite clampU256_spec by (unfold is_word; lia). rewrite u64_small, add64_small by (unfold is_u64; lia). rewrite (Z.add_comm 1). fold n. unfold with_bomb.
  set (cl := if _ <? MinimumDifficulty then _ else _) in *. destruct (n >? 1) eqn:E; to_prop; [|done].
  by destruct (bomb_u256 cl n ltac:(unfold MinimumDifficulty in *; lia) ltac:(lia) (B3 ltac:(lia))) as (-> & -> & _).
Qed.

Lemma Dynamic_agrees delay time parent : 1 <= delay < 2 ^ 64 -> in_reach time parent -> makeDifficultyCalculator delay time parent < two256 ->
  MakeDifficultyCalculatorU256 delay time parent = makeDifficultyCalculator delay time parent.
Proof.
  intros Hde [Ht Hd Hn] Hb. unfold MakeDifficultyCalculatorU256.
  rewrite FromBig_diff by done. set (d := Header.Difficulty parent) in *.
  rewrite (u64_small delay) by (unfold is_u64; lia). rewrite !(sub64_small time), (sub64_small delay) by lia.
  change difficultyBoundDivisor with 11. change expDiffPeriodUint with expDiffPeriod. set (t := (time - Header.Time parent) / 9).
  assert (Htt : 0 <= t < 2 ^ 64) by (unfold t; dlia).
  set (c := if negb _ then 2 else 1). set (g := if Header.UncleHash parent =? Header.EmptyUncleHash then 1 - t else 2 - t).
  assert (Hg : g = c - t /\ 1 <= c <= 2) by (unfold g, c; destruct (_ =? Header.EmptyUncleHash); cbn; lia). destruct Hg as [Hg Hc].
  set (fake := if delay - 1 <=? Header.Number parent then Header.Number parent - (delay - 1) else 0).
  change (makeDifficultyCalculator delay time parent) with (with_bomb (d + d / 2048 * (if g <? -99 then -99 else g)) (fake / expDiffPeriod)) in *.
  rewrite Hg in *. set (x0 := if c <=? t then sub64 t c else sub64 c t).
  assert (Hx0 : x0 = Z.abs (c - t)) by (unfold x0; destruct (c <=? t) eqn:E; to_prop; rewrite sub64_small by lia; lia).
  set (x := if x0 >? 99 then 99 else x0).
  assert (Hx : 0 <= x <= 99 /\ (if c - t <? -99 then -99 else c - t) = if c <=? t then - x else x).
  { unfold x. rewrite Hx0. clear - Hc Htt.
    destruct (Z.abs (c - t) >? 99) eqn:E1, (c - t <? -99) eqn:E2, (c <=? t) eqn:E3; to_prop; lia. }
  destruct Hx as [Hx Ef]. rewrite Ef in *. destruct (adjust_u256 d x (c <=? t) Hd Hx) as [A1 A2]. cbv zeta in A1, A2.
  destruct (with_bomb_bounds _ _ A1 Hb) as (B1 & B2 & B3). rewrite (A2 B1).
  rewrite clampU256_spec by (unfold is_word; lia). rewrite (u64_small (Header.Number parent)) by (unfold is_u64; lia). unfold with_bomb.
  set (cl := if _ <? MinimumDifficulty then _ else _) in *. unfold fake in *. clear fake.
  destruct (delay - 1 <=? Header.Number parent) eqn:E; to_prop; [|by change (0 / expDiffPeriod >? 1) with false].
  rewrite sub64_small by lia. set (k := Header.Number parent - (delay - 1)) in *. unfold expDiffPeriod in *.
  destruct (2 * 100000 <=? k) eqn:E1, (k / 100000 >? 1) eqn:E2; to_prop; try done.
  - by destruct (bomb_u256 cl (k / 100000) ltac:(unfold MinimumDifficulty in *; lia) ltac:(lia) (B3 ltac:(lia))) as (-> & _ & ->).
  - exfalso. unfold k in *. dlia.
  - exfalso. unfold k in *. dlia.
Qed.

(** C39: the difficulty calculators on 256-bit integers compute what the calculators on
    big integers do, under the Frontier, the Homestead and the Byzantium rules with any
    bomb delay from 1 on, whenever the big-integer difficulty fits 256 bits, for a
    block that is not older than its parent and a parent whose number, time and
    difficulty fit their machine types. *)
Theorem difficulty_calculators_agree (delay time : Z) (parent : Header) : in_reach time parent ->
  (calcDifficultyFrontier time parent < two256 ->
   CalcDifficultyFrontierU256 time parent = calcDifficultyFrontier time parent) /\
  (calcDifficultyHomestead time parent < two256 ->
   CalcDifficultyHomesteadU256 time parent = calcDifficultyHomestead time parent) /\
  (1 <= delay < 2 ^ 64 -> makeDifficultyCalculator delay time parent < two256 ->
   MakeDifficultyCalculatorU256 delay time parent = makeDifficultyCalculator delay time parent).
Proof.
  intros Hr. split; [by apply Frontier_agrees|]. split; [by apply Homestead_agrees | by intros; apply Dynamic_agrees].
Qed.
End difficulty.

(** Block 5000000 of a chain of difficulty 3 * 10^15, 25 seconds after its parent, and
    block 35000000 with the bomb delayed by 9700000 blocks. *)
Definition sample_parent (n : Z) : Header :=
  Header.mkHeader 1 2 3 4 5 6 [] (3 * 10 ^ 15) n 8000000 0 1000 [] 0 9 None.

Lemma sample_in_reach n : 0 <= n < 2 ^ 64 - 1 -> in_reach 1025 (sample_parent n).
Proof. intros. split; [by compute | by compute | done]. Qed.

Lemma difficulty_calculators_agree_witness :
  (CalcDifficultyHomesteadU256 1025 (sample_parent 4999999) = calcDifficultyHomestead 1025 (sample_parent 4999999) /\
   calcDifficultyHomestead 1025 (sample_parent 4999999) = 3280010132960656) /\
  MakeDifficultyCalculatorU256 9700000 1025 (sample_parent 34999999) = makeDifficultyCalculator 9700000 1025 (sample_parent 34999999).
Proof.
  split; [split; [|vm_compute; reflexivity]|].
  - apply (proj1 (proj2 (difficulty_calculators_agree 9700000 1025 (sample_parent 4999999) (sample_in_reach 4999999 ltac:(lia))))). vm_compute. reflexivity.
  - apply (proj2 (proj2 (difficulty_calculators_agree 9700000 1025 (sample_parent 34999999) (sample_in_reach 34999999 ltac:(lia))))); [lia|]. vm_compute. reflexivity.
Defined.

(** With a bomb delay of 0, one less than the delay wraps around on 64-bit integers:
    only the big-integer calculator has a bomb then. *)
Example zero_delay_differs :
  makeDifficultyCalculator 0 1025 (sample_parent 999999) - MakeDifficultyCalculatorU256 0 1025 (sample_parent 999999) = 2 ^ 8.
Proof. vm_compute. reflexivity. Qed.

(** ** Gas limits and base fees *)

Lemma i64_diff a b : 0 <= a < 2 ^ 63 -> 0 <= b < 2 ^ 63 -> i64 (i64 a - i64 b) = a - b.
Proof.
  intros. rewrite !(i64_small a), !(i64_small b) by lia. unfold i64.
  destruct (decide (b <= a)).
  - rewrite Z.mod_small by lia. destruct (_ <? _) eqn:E; to_prop; lia.
  - rewrite <- (Z_mod_plus_full _ 1). rewrite Z.mod_small by lia. destruct (_ <? _) eqn:E; to_prop; lia.
Qed.

(** for limits below 2^63 (larger ones are refused before),
    [VerifyGaslimit] accepts exactly the limits less than a 1024th of the
    parent's away from it and not below the minimum; and the limit
    [CalcGasLimit] proposes is always accepted and lies between the parent's
    limit and the desired one. *)
Theorem gas_limits_are_honest (parent header desired : Z) :
  MinGasLimit <= parent < 2 ^ 63 -> 0 <= header < 2 ^ 63 -> 0 <= desired < 2 ^ 63 ->
  (VerifyGaslimit parent header = None <->
   Z.abs (parent - header) < parent / GasLimitBoundDivisor /\ MinGasLimit <= header) /\
  (let proposed := CalcGasLimit parent desired in
   VerifyGaslimit parent proposed = None /\
   Z.min parent (Z.max desired MinGasLimit) <= proposed <= Z.max parent (Z.max desired MinGasLimit)).
Proof.
  unfold MinGasLimit. intros Hp Hh Hd.
  assert (V : forall h, 0 <= h < 2 ^ 63 ->
    VerifyGaslimit parent h = None <-> Z.abs (parent - h) < parent / 1024 /\ 5000 <= h).
  { intros h Hb. unfold VerifyGaslimit. rewrite i64_diff by lia. change GasLimitBoundDivisor with 1024. unfold MinGasLimit.
    set (a := if parent - h <? 0 then _ else _).
    assert (a = Z.abs (parent - h)) as -> by (unfold a; zcase; [rewrite i64_small by lia|]; lia).
    rewrite u64_small by (unfold is_u64; lia). repeat zcase; split; intros; try done; lia. }
  split; [by apply V|]. cbv zeta.
  assert (B : let p := CalcGasLimit parent desired in 0 <= p < 2 ^ 63 /\ Z.abs (parent - p) < parent / 1024 /\ 5000 <= p /\
    Z.min parent (Z.max desired 5000) <= p <= Z.max parent (Z.max desired 5000)); cbv zeta in *.
  { unfold CalcGasLimit, MinGasLimit. change GasLimitBoundDivisor with 1024.
    assert (Hq : 4 <= parent / 1024 /\ parent / 1024 * 1024 <= parent < (parent / 1024 + 1) * 1024) by dlia.
    set (q := parent / 1024) in *. clearbody q. rewrite sub64_small, add64_small, sub64_small by lia.
    set (w := if desired <? 5000 then 5000 else desired).
    assert (w = Z.max desired 5000) as -> by (unfold w; zcase; lia).
    repeat zcase; lia. }
  split; [apply V; lia | lia].
Qed.

Lemma gas_limits_are_honest_witness :
  VerifyGaslimit 8000000 7992187 = Some ErrGasLimitBounds /\ VerifyGaslimit 8000000 (CalcGasLimit 8000000 10000000) = None.
Proof.
  destruct (gas_limits_are_honest 8000000 7992187 10000000) as [_ [H _]]; [by compute | by compute | by compute|].
  split; [vm_compute; reflexivity | exact H].
Defined.

Section base_fee.
Context (conf : ChainConfig).

(** The change of the base fee for a surplus or deficit of [delta] gas. *)
Definition fee_step (fee target delta : Z) : Z := delta * fee / target / 8.

Lemma fee_step_mono fee target a b : 0 <= fee -> 0 < target -> 0 <= a <= b ->
  0 <= fee_step fee target a <= fee_step fee target b.
Proof.
  intros. unfold fee_step. split.
  - apply Z.div_pos; [apply Z.div_pos; nia | lia].
  - apply Z.div_le_mono; [lia|]. apply Z.div_le_mono; nia.
Qed.

Lemma fee_step_bound fee target a : 0 <= fee -> 0 < target -> 0 <= a <= target -> fee_step fee target a <= fee / 8.
Proof.
  intros. unfold fee_step. apply Z.div_le_mono; [lia|]. apply Z.div_le_upper_bound; nia.
Qed.

Lemma CalcBaseFee_spec parent fee : conf_IsLondon conf (Header.Number parent) = true ->
  Header.BaseFee parent = Some fee -> 0 <= fee -> is_u64 (Header.GasLimit parent) -> is_u64 (Header.GasUsed parent) ->
  2 <= Header.GasLimit parent ->
  let target := Header.GasLimit parent / 2 in
  let used := Header.GasUsed parent in
  CalcBaseFee conf parent = Ok (
    if used =? target then fee
    else if used >? target then fee + Z.max (fee_step fee target (used - target)) 1
    else fee - fee_step fee target (target - used)).
Proof.
  intros HL Hf Hp Hg Hu Hl. cbv zeta. unfold CalcBaseFee. rewrite HL, Hf. cbn [negb or_panic mbind res_bind].
  change ElasticityMultiplier with 2. unfold is_u64 in *. set (target := Header.GasLimit parent / 2).
  assert (Ht : 1 <= target < 2 ^ 63) by (unfold target; dlia). clearbody target.
  unfold bigDiv. change BaseFeeChangeDenominator with 8. change (8 =? 0) with false.
  destruct (_ =? target) eqn:E1; [done|]. destruct (target =? 0) eqn:E0; to_prop; [lia|].
  destruct (_ >? target) eqn:E2; to_prop; cbn [mbind res_bind]; rewrite sub64_small by lia; [done|].
  f_equal. fold (fee_step fee target (target - Header.GasUsed parent)).
  pose proof (fee_step_bound fee target (target - Header.GasUsed parent) Hp ltac:(lia) ltac:(lia)).
  assert (fee / 8 <= fee) by (apply Z.div_le_upper_bound; lia). lia.
Qed.

(** after the London fork, the base fee of the next block exists; it
    stays when the parent used exactly its target, grows by at least one and
    (for a parent within twice its target) by at most the larger of one and an
    eighth, shrinks by at most an eighth, and never decreases when the parent
    had used more gas. *)
Theorem base_fee_is_bounded (parent parent' : Header) (fee : Z) :
  conf_IsLondon conf (Header.Number parent) = true ->
  Header.BaseFee parent = Some fee -> 0 <= fee ->
  is_u64 (Header.GasLimit parent) -> is_u64 (Header.GasUsed parent) -> 2 <= Header.GasLimit parent ->
  conf_IsLondon conf (Header.Number parent') = true -> Header.BaseFee parent' = Some fee ->
  Header.GasLimit parent' = Header.GasLimit parent -> is_u64 (Header.GasUsed parent') ->
  Header.GasUsed parent <= Header.GasUsed parent' ->
  let target := Header.GasLimit parent / 2 in
  exists next next', CalcBaseFee conf parent = Ok next /\ CalcBaseFee conf parent' = Ok next' /\
    0 <= next /\ next <= next' /\
    (Header.GasUsed parent = target -> next = fee) /\
    (Header.GasUsed parent > target -> fee + 1 <= next) /\
    (target < Header.GasUsed parent <= 2 * target -> next <= fee + Z.max 1 (fee / 8)) /\
    (Header.GasUsed parent < target -> fee - fee / 8 <= next <= fee).
Proof.
  intros HL Hf Hp Hg Hu Hl HL' Hf' Hg' Hu' Hle. cbv zeta.
  pose proof (CalcBaseFee_spec parent fee HL Hf Hp Hg Hu Hl) as E.
  pose proof (CalcBaseFee_spec parent' fee HL' Hf' Hp ltac:(by rewrite Hg') Hu' ltac:(by rewrite Hg')) as E'.
  cbv zeta in E, E'. rewrite Hg' in E'. unfold is_u64 in *. set (target := Header.GasLimit parent / 2) in *.
  assert (Ht : 1 <= target) by (unfold target; dlia). clearbody target.
  eexists _, _. split; [exact E|]. split; [exact E'|]. clear E E'.
  set (u := Header.GasUsed parent) in *. set (u' := Header.GasUsed parent') in *. clearbody u u'.
  assert (fee / 8 <= fee) by (apply Z.div_le_upper_bound; lia).
  assert (S : forall a b, 0 <= a <= b -> 0 <= fee_step fee target a <= fee_step fee target b)
    by (intros; apply fee_step_mono; lia).
  assert (M : forall a, 0 <= a <= target -> 0 <= fee_step fee target a <= fee / 8)
    by (intros; split; [apply (S a a); lia | apply fee_step_bound; lia]).
  destruct (u =? target) eqn:E1; to_prop.
  - destruct (u' =? target) eqn:E2; to_prop; [split_and!; lia|].
    destruct (u' >? target) eqn:E3; to_prop; [split_and!; lia | lia].
  - destruct (u >? target) eqn:E4; to_prop.
    + destruct (u' =? target) eqn:E2; to_prop; [lia|]. destruct (u' >? target) eqn:E3; to_prop; [|lia].
      pose proof (S (u - target) (u' - target) ltac:(lia)). split_and!; try lia.
      intros. pose proof (M (u - target) ltac:(lia)). lia.
    + pose proof (M (target - u) ltac:(lia)). split; [lia|]. split.
      * destruct (u' =? target) eqn:E2; to_prop; [lia|]. destruct (u' >? target) eqn:E3; to_prop; [lia|].
        pose proof (S (target - u') (target - u) ltac:(lia)). lia.
      * split_and!; lia.
Qed.
End base_fee.

(** A full parent of a chain with the London rules from genesis on, and the same
    parent half as full again. *)
Definition london_parent (used : Z) : Header :=
  Header.mkHeader 1 2 3 4 5 6 [] 131072 7 30000000 used 1000 [] 0 9 (Some 1000000000).

Lemma base_fee_is_bounded_witness :
  CalcBaseFee (chainConfig (toy_env true)) (london_parent 30000000) = Ok 1125000000 /\ 1125000000 <= 1000000000 + 1000000000 / 8.
Proof.
  assert (L : conf_IsLondon (chainConfig (toy_env true)) (Header.Number (london_parent 30000000)) = true) by (vm_compute; reflexivity).
  assert (G : is_u64 30000000) by (by compute).
  destruct (base_fee_is_bounded (chainConfig (toy_env true)) (london_parent 30000000) (london_parent 30000000) 1000000000
    L eq_refl ltac:(lia) G G ltac:(cbn; lia) L eq_refl eq_refl G ltac:(lia))
    as (n & n' & E & _ & _ & _ & _ & _ & H & _).
  assert (F : CalcBaseFee (chainConfig (toy_env true)) (london_parent 30000000) = Ok 1125000000) by (vm_compute; reflexivity).
  rewrite F in E. injection E as <-. split; [exact F|]. apply H. by compute.
Defined.

(** ** Uncles *)

Section uncles.
Context `{C : Crypto} (hashimoto : Z -> Hash -> Z -> bytes * bytes) (chain : ChainReader).

(** [Anc k h n h' n' p]: going [k] steps up from the hash [h] at height [n], the
    first one being [h] itself, one finds the header [p] of hash [h']. *)
Inductive Anc : nat -> Hash -> Z -> Hash -> Z -> Header -> Prop :=
| Anc_1 h n p : GetHeader chain h n = Some p -> Anc 1 h n h n p
| Anc_S k h n p h' n' p' : GetHeader chain h n = Some p ->
    Anc k (Header.ParentHash p) (sub64 n 1) h' n' p' -> Anc (S k) h n h' n' p'.

(** Every known header has its block. *)
Definition available : Prop := forall h n, is_Some (GetHeader chain h n) -> is_Some (GetBlock chain h n).

Lemma add_hashes_spec l s s' : add_hashes l s = Ok s' ->
  s ⊆ s' /\ forall u h, u ∈ l -> Header.Hash_ u = Ok h -> h ∈ s'.
Proof.
  revert s. induction l as [|x l IH]; intros s E; cbn in E.
  - injection E as <-. split; [done|]. intros u h Hu. by apply not_elem_of_nil in Hu.
  - bind_inv E. destruct (IH _ E) as [H1 H2]. split; [set_solver|].
    intros u h Hu Hh. apply elem_of_cons in Hu as [->|Hu]; [|by eapply H2].
    rewrite E0 in Hh. injection Hh as ->. set_solver.
Qed.

Lemma gather_spec n h m A U A' U' : gather chain n h m A U = Ok (A', U') ->
  (forall h' p, A' !! h' = Some p -> A !! h' = Some p \/ exists k m', (k <= n)%nat /\ Anc k h m h' m' p) /\
  (forall h', is_Some (A !! h') -> is_Some (A' !! h')) /\ U ⊆ U' /\
  (available -> forall k h' m' p, (k <= n)%nat -> Anc k h m h' m' p -> is_Some (A' !! h') /\
     forall b u hu, GetBlock chain h' m' = Some b -> Header.UncleHash p <> Header.EmptyUncleHash ->
       u ∈ bUncles b -> Header.Hash_ u = Ok hu -> hu ∈ U').
Proof.
  revert h m A U. induction n as [|n IH]; intros h m A U E; cbn [gather] in E.
  { injection E as <- <-. split; [by left|]. split; [done|]. split; [done|].
    intros _ k h' m' p Hk Ha. destruct Ha; lia. }
  destruct (GetHeader chain h m) as [p|] eqn:Eh.
  2: { injection E as <- <-. split; [by left|]. split; [done|]. split; [done|].
       intros _ k h' m' p Hk Ha. destruct Ha; congruence. }
  assert (Stop : forall U1, U ⊆ U1 -> (A', U') = (<[h:=p]> A, U1) ->
    (forall h' q, A' !! h' = Some q -> A !! h' = Some q \/ exists k m', (k <= S n)%nat /\ Anc k h m h' m' q) /\
    (forall h', is_Some (A !! h') -> is_Some (A' !! h')) /\ U ⊆ U').
  { intros U1 HU [= -> ->]. split; [|split; [|done]].
    - intros h' q Hq. apply lookup_insert_Some in Hq as [[<- <-]|[_ Hq]]; [right | by left].
      exists 1%nat, m. split; [lia | by constructor].
    - intros h' Hh. apply lookup_insert_is_Some. destruct (decide (h = h')); auto. }
  assert (Go : forall U1, U ⊆ U1 -> gather chain n (Header.ParentHash p) (sub64 m 1) (<[h:=p]> A) U1 = Ok (A', U') ->
    (forall b u hu, GetBlock chain h m = Some b -> Header.UncleHash p <> Header.EmptyUncleHash ->
       u ∈ bUncles b -> Header.Hash_ u = Ok hu -> hu ∈ U1) ->
    (forall h' q, A' !! h' = Some q -> A !! h' = Some q \/ exists k m', (k <= S n)%nat /\ Anc k h m h' m' q) /\
    (forall h', is_Some (A !! h') -> is_Some (A' !! h')) /\ U ⊆ U' /\
    (available -> forall k h' m' q, (k <= S n)%nat -> Anc k h m h' m' q -> is_Some (A' !! h') /\
     forall b u hu, GetBlock chain h' m' = Some b -> Header.UncleHash q <> Header.EmptyUncleHash ->
       u ∈ bUncles b -> Header.Hash_ u = Ok hu -> hu ∈ U')).
  { intros U1 HU G Hb. destruct (IH _ _ _ _ G) as (H1 & H2 & H3 & H4). split_and!.
    - intros h' q Hq. destruct (H1 _ _ Hq) as [Hq'|(k & m' & Hk & Ha)].
      + apply lookup_insert_Some in Hq' as [[<- <-]|[_ Hq']]; [right | by left].
        exists 1%nat, m. split; [lia | by constructor].
      + right. exists (S k), m'. split; [lia | by econstructor].
    - intros h' Hh. apply H2, lookup_insert_is_Some. destruct (decide (h = h')); auto.
    - set_solver.
    - intros Av k h' m' q Hk Ha. destruct Ha as [h m q Eq|k h m p0 h' m' q Eq Ha]; rewrite Eq in Eh; injection Eh as ->.
      + split; [apply H2, lookup_insert_is_Some; by left|]. intros. apply H3. by eapply Hb.
      + apply (H4 Av k); [lia | done]. }
  destruct (Header.UncleHash p =? Header.EmptyUncleHash) eqn:Eu; to_prop; cbn [negb] in E.
  { apply (Go U); [done | done|]. intros. done. }
  destruct (GetBlock chain h m) as [b|] eqn:Eb.
  - bind_inv E. destruct (add_hashes_spec _ _ _ E0) as [Hs Hu]. apply (Go v); [done | done|].
    intros b' u hu [= <-] _. by apply Hu.
  - injection E as EA EU. destruct (Stop U ltac:(done) ltac:(by rewrite EA, EU)) as (S1 & S2 & S3).
    split; [done|]. split; [done|]. split; [done|]. intros Av. exfalso.
    destruct (Av h m) as [x Ex]; [by rewrite Eh | congruence].
Qed.

Lemma check_uncles_spec bp A U now l : check_uncles hashimoto chain bp A U now l = Ok None ->
  exists hs, Forall2 (fun u h => Header.Hash_ u = Ok h) l hs /\ NoDup hs /\
    (forall h, h ∈ hs -> h ∉ U /\ A !! h = None) /\
    forall u, u ∈ l -> Header.ParentHash u <> bp /\
      exists p, A !! Header.ParentHash u = Some p /\ verifyHeader hashimoto chain u p true true now = Ok None.
Proof.
  revert U. induction l as [|u l IH]; intros U E; cbn [check_uncles] in E.
  { exists []. split; [constructor|]. split; [constructor|]. split; intros x Hx; by apply not_elem_of_nil in Hx. }
  bind_inv E. rename v into h. destruct (bool_decide (h ∈ U)) eqn:Eb; [done|]. apply bool_decide_eq_false in Eb.
  destruct (A !! h) eqn:Ea; [done|]. destruct (A !! Header.ParentHash u) as [p|] eqn:Ep; [|done].
  destruct (_ =? bp) eqn:Eq; to_prop; [done|]. bind_inv E. destruct v; [done|].
  destruct (IH _ E) as (hs & F & N & D & R). exists (h :: hs). split; [by constructor|]. split.
  { constructor; [|done]. intros Hh. apply D in Hh as [Hh _]. apply Hh. by apply elem_of_union_l, elem_of_singleton. }
  split.
  - intros x Hx. apply elem_of_cons in Hx as [->|Hx]; [done|]. apply D in Hx as [Hx ?]. split; [|done].
    intros HU. by apply Hx, elem_of_union_r.
  - intros x Hx. apply elem_of_cons in Hx as [->|Hx]; [|by apply R]. split; [done|]. by exists p.
Qed.

(** C38: when the uncles of a block are accepted, there are at most two of
    them, no two have the same hash, none is the block itself, and each is a valid
    header below its parent, which is an ancestor of the block from the second to the
    seventh generation or the block itself (the list of uncles is not compared with the
    uncle hash here, but by the validation of the body, so that an uncle that names
    the block as its parent is accepted).  When the blocks of the known ancestors are
    available, none of the uncles is one of the seven ancestors or an uncle of one. *)
Theorem VerifyUncles_sound (block : Block) (now : Z) :
  VerifyUncles hashimoto chain block now = Ok None -> bUncles block <> [] ->
  let bp := Header.ParentHash (bHeader block) in
  let bn := sub64 (u64 (Header.Number (bHeader block))) 1 in
  zlen (bUncles block) <= 2 /\
  exists bh hs, Header.Hash_ (bHeader block) = Ok bh /\
    Forall2 (fun u h => Header.Hash_ u = Ok h) (bUncles block) hs /\ NoDup hs /\ bh ∉ hs /\
    (forall u, u ∈ bUncles block -> exists p,
       verifyHeader hashimoto chain u p true true now = Ok None /\
       ((exists k m, (2 <= k <= 7)%nat /\ Anc k bp bn (Header.ParentHash u) m p) \/
        (Header.ParentHash u = bh /\ p = bHeader block))) /\
    (available -> forall k h m p, (k <= 7)%nat -> Anc k bp bn h m p -> h ∉ hs /\
       forall b u hu, GetBlock chain h m = Some b -> Header.UncleHash p <> Header.EmptyUncleHash ->
         u ∈ bUncles b -> Header.Hash_ u = Ok hu -> hu ∉ hs).
Proof.
  intros E Hne. cbv zeta. unfold VerifyUncles in E. destruct (_ >? maxUncles) eqn:E1; to_prop; [done|].
  destruct (_ =? 0) eqn:E2; to_prop.
  { destruct (bUncles block); [done|]. rewrite zlen_cons in E2. pose proof (zlen_nonneg l). lia. }
  split; [exact E1|]. apply bind_Ok in E as ([A U] & G & E). apply bind_Ok in E as (bh & Eh & E).
  destruct (check_uncles_spec _ _ _ _ _ E) as (hs & F & N & D & R).
  destruct (gather_spec _ _ _ _ _ _ _ G) as (G1 & _ & _ & G4).
  exists bh, hs. split; [done|]. split; [done|]. split; [done|]. split.
  { intros Hb. apply D in Hb as [Hb _]. apply Hb. by apply elem_of_union_l, elem_of_singleton. }
  split.
  - intros u Hu. destruct (R u Hu) as (Hp & p & Ep & V). exists p. split; [done|].
    apply lookup_insert_Some in Ep as [[-> ->]|[_ Ep]]; [by right | left].
    destruct (G1 _ _ Ep) as [Ep'|(k & m & Hk & Ha)]; [by rewrite lookup_empty in Ep'|].
    exists k, m. split; [|done]. split; [|done]. destruct Ha as [|k']; [done|]. inversion Ha; lia.
  - intros Av k h m p Hk Ha. destruct (G4 Av k h m p Hk Ha) as [[q Hq] Hb]. split.
    + intros Hh. apply D in Hh as [_ Hh]. apply lookup_insert_None in Hh as [Hh _]. congruence.
    + intros b u hu Eb Hu Hi Eu Hh. apply D in Hh as [Hh _]. apply Hh, elem_of_union_r. exact (Hb _ _ _ Eb Hu Hi Eu).
Qed.
End uncles.

(** ** Rewards *)

Section reward.
Context `{C : Crypto} `{B : State.Backend} `{BS : !BackendSpec}.

(** What a block pays to an account. *)
Definition paid (header : Header) (uncles : list Header) (b : Address) : Z :=
  foldr (fun u acc => (if decide (b = Header.Coinbase u) then uncleReward header u else 0) + acc) 0 uncles +
  (if decide (b = Header.Coinbase header) then FrontierBlockReward + zlen uncles * (FrontierBlockReward / 32) else 0).

Lemma rewardUncles_spec header uncles reward d b : world_ok d ->
  fst (rewardUncles header uncles reward d) = reward + zlen uncles * (FrontierBlockReward / 32) /\
  world_ok (snd (rewardUncles header uncles reward d)) /\
  State.GetBalance (snd (rewardUncles header uncles reward d)) b =
    State.GetBalance d b + foldr (fun u acc => (if decide (b = Header.Coinbase u) then uncleReward header u else 0) + acc) 0 uncles.
Proof.
  revert reward d. induction uncles as [|u uncles IH]; intros reward d W.
  { cbn [rewardUncles fst snd foldr]. change (zlen (@nil Header)) with 0. split; [lia|]. split; [done|]. lia. }
  cbn [rewardUncles foldr]. cbv zeta.
  change (EvmState.AddBalance (Header.Coinbase u) (uncleReward header u) d)
    with (State.AddBalance (Header.Coinbase u) (uncleReward header u) d).
  assert (W1 : world_ok (State.AddBalance (Header.Coinbase u) (uncleReward header u) d)) by (apply AddBalance_step; done).
  destruct (IH (reward + FrontierBlockReward / 32) _ W1) as (H1 & H2 & H3). rewrite H1, H3.
  rewrite AddBalance_getter by done. rewrite zlen_cons. split; [lia|]. split; [done|]. lia.
Qed.

(** the rewards of a block reach exactly the coinbases: the miner of
    an uncle gets an eighth of the block reward less for every generation, the
    miner of the block gets the block reward and a 32nd of it for every uncle,
    also when some of them are the same account; nobody else gets anything. *)
Theorem rewards_are_exact (header : Header) (uncles : list Header) (d : State.stateDB) (b : Address) :
  state_ok d ->
  State.GetBalance (accumulateRewards header uncles d) b = State.GetBalance d b + paid header uncles b.
Proof.
  intros [W _]. unfold accumulateRewards, paid.
  destruct (rewardUncles_spec header uncles FrontierBlockReward d b W) as (H1 & H2 & H3).
  destruct (rewardUncles header uncles FrontierBlockReward d) as [r d']. cbn [fst snd] in *. subst r.
  change (EvmState.AddBalance (Header.Coinbase header)) with (State.AddBalance (Header.Coinbase header)).
  rewrite AddBalance_getter, H3 by done. lia.
Qed.
End reward.

(** ** A small chain: genesis, its child, an uncle, and the block that includes it *)

Definition toy_header (parent num coinbase time : Z) : Header :=
  Header.mkHeader parent Header.EmptyUncleHash coinbase 0 0 0 [] 131072 num 8000000 0 time [] 0 0 None.
Definition hash_of (h : Header) : Hash := match Header.Hash_ h with Ok x => x | _ => 0 end.
Definition toy_genesis : Header := toy_header 0 1 3 10.
Definition toy_child : Header := toy_header (hash_of toy_genesis) 2 3 20.
Definition toy_uncle : Header := toy_header (hash_of toy_genesis) 2 4 25.
Definition toy_block : Block := mkBlock (toy_header (hash_of toy_child) 3 5 30) [toy_uncle].
Definition toy_chain : ChainReader := {|
  cr_Config := chainConfig (toy_env false);
  GetHeader h n := if (h =? hash_of toy_genesis) && (n =? 1) then Some toy_genesis
                   else if (h =? hash_of toy_child) && (n =? 2) then Some toy_child else None;
  GetBlock h n := if (h =? hash_of toy_genesis) && (n =? 1) then Some (mkBlock toy_genesis [])
                  else if (h =? hash_of toy_child) && (n =? 2) then Some (mkBlock toy_child []) else None |}.
Definition toy_hashimoto (n : Z) (seal : Hash) (nonce : Z) : bytes * bytes := (be_bytes 32 0, []).

Lemma VerifyUncles_sound_witness :
  VerifyUncles toy_hashimoto toy_chain toy_block 100 = Ok None /\
  exists p, verifyHeader toy_hashimoto toy_chain toy_uncle p true true 100 = Ok None.
Proof.
  assert (E : VerifyUncles toy_hashimoto toy_chain toy_block 100 = Ok None) by (vm_compute; reflexivity).
  split; [exact E|].
  destruct (VerifyUncles_sound toy_hashimoto toy_chain toy_block 100 E) as (_ & bh & hs & _ & _ & _ & _ & H & _).
  - intros F. discriminate F.
  - destruct (H toy_uncle) as (p & V & _); [apply elem_of_cons; left; reflexivity | exists p; exact V].
Defined.

Lemma rewards_are_exact_witness :
  State.GetBalance (accumulateRewards (bHeader toy_block) (bUncles toy_block) State.New) 4 = 4375000000000000000 /\
  State.GetBalance (accumulateRewards (bHeader toy_block) (bUncles toy_block) State.New) 5 = 5156250000000000000.
Proof.
  split.
  - rewrite (rewards_are_exact (bHeader toy_block) (bUncles toy_block) State.New 4 New_ok). vm_compute. reflexivity.
  - rewrite (rewards_are_exact (bHeader toy_block) (bUncles toy_block) State.New 5 New_ok). vm_compute. reflexivity.
Defined.

Lemma header_hash_injective_witness :
  Header.Hash_ (sample_header None) <> Header.Hash_ (sample_header (Some 0)).
Proof.
  assert (H1 : header_ok (sample_header None)) by (apply sample_header_ok; discriminate).
  assert (H2 : header_ok (sample_header (Some 0))) by (apply sample_header_ok; intros f [= <-]; by compute).
  intros E. pose proof (header_hash_injective _ _ H1 H2 E) as F. clear E. discriminate F.
Defined.
