(* ===== verification/Transaction.v ===== *)
(** * Transactions and signers ([blockchain/model/transaction.go], [tx_legacy.go],
    [tx_access_list.go], [tx_dynamic_fee.go], [transaction_signing.go])

    The big integers of a transaction are never nil: [NewTx] copies its argument
    and allocates them.  The caches of the hash and the size are left out (they
    remember a function of the contents); the cache of the sender is kept. *)

From S2P Require Import Prelude Config Common Rlp EvmState Header Consensus EvmCalls StateTransition.

Local Open Scope Z_scope.

Module Transaction.

Inductive TxSigErr :=
| ErrInvalidSig | ErrUnexpectedProtection | ErrTxTypeNotSupported | ErrGasFeeCapTooLow
| ErrInvalidChainId | errInvalidPublicKey | errRecoverKey | errSigning.

Definition LegacyTxType : Z := 0.
Definition AccessListTxType : Z := 1.
Definition DynamicFeeTxType : Z := 2.

Definition AccessTuples := list (Address * list Hash).

Inductive TxData :=
| LegacyTx (Nonce GasPrice Gas : Z) (To : option Address) (Value : Z) (Data : bytes) (V R S : Z)
| AccessListTx (ChainID Nonce GasPrice Gas : Z) (To : option Address) (Value : Z) (Data : bytes)
    (AccessList : AccessTuples) (V R S : Z)
| DynamicFeeTx (ChainID Nonce GasTipCap GasFeeCap Gas : Z) (To : option Address) (Value : Z) (Data : bytes)
    (AccessList : AccessTuples) (V R S : Z).

#[export] Instance TxData_eq_dec : EqDecision TxData.
Proof. solve_decision. Defined.

(** ** Signature values *)

(** [x.Uint64()] of a big integer: the low 64 bits of its absolute value. *)
Definition big_Uint64 (x : Z) : Z := u64 (Z.abs x).

Definition isProtectedV (V : Z) : bool :=
  if BitLen V <=? 8 then
    let v := big_Uint64 V in
    negb (v =? 27) && negb (v =? 28) && negb (v =? 1) && negb (v =? 0)
  else true.

Definition deriveChainId (v : Z) : Z :=
  if BitLen v <=? 64 then
    let v := big_Uint64 v in
    if (v =? 27) || (v =? 28) then 0 else sub64 v 35 / 2
  else (v - 35) / 2.

(** [sanityCheckSignature] *)
Definition sanityCheckSignature (v r s : Z) (maybeProtected : bool) : option TxSigErr :=
  if isProtectedV v && negb maybeProtected then Some ErrUnexpectedProtection
  else
    let plainV :=
      if isProtectedV v then u8 (sub64 (sub64 (big_Uint64 v) 35) (mul64 2 (big_Uint64 (deriveChainId v))))
      else if maybeProtected then u8 (sub64 (big_Uint64 v) 27)
      else u8 (big_Uint64 v) in
    if ValidateSignatureValues plainV r s false then None else Some ErrInvalidSig.

(** ** The parts of a transaction *)

Definition txType (t : TxData) : Z :=
  match t with LegacyTx _ _ _ _ _ _ _ _ _ => LegacyTxType | AccessListTx _ _ _ _ _ _ _ _ _ _ _ => AccessListTxType
  | DynamicFeeTx _ _ _ _ _ _ _ _ _ _ _ _ => DynamicFeeTxType end.
Definition chainID (t : TxData) : Z :=
  match t with LegacyTx _ _ _ _ _ _ V _ _ => deriveChainId V | AccessListTx c _ _ _ _ _ _ _ _ _ _ => c
  | DynamicFeeTx c _ _ _ _ _ _ _ _ _ _ _ => c end.
Definition accessList (t : TxData) : AccessTuples :=
  match t with LegacyTx _ _ _ _ _ _ _ _ _ => [] | AccessListTx _ _ _ _ _ _ _ al _ _ _ => al
  | DynamicFeeTx _ _ _ _ _ _ _ _ al _ _ _ => al end.
Definition data (t : TxData) : bytes :=
  match t with LegacyTx _ _ _ _ _ d _ _ _ => d | AccessListTx _ _ _ _ _ _ d _ _ _ _ => d
  | DynamicFeeTx _ _ _ _ _ _ _ d _ _ _ _ => d end.
Definition gas (t : TxData) : Z :=
  match t with LegacyTx _ _ g _ _ _ _ _ _ => g | AccessListTx _ _ _ g _ _ _ _ _ _ _ => g
  | DynamicFeeTx _ _ _ _ g _ _ _ _ _ _ _ => g end.
Definition gasPrice (t : TxData) : Z :=
  match t with LegacyTx _ p _ _ _ _ _ _ _ => p | AccessListTx _ _ p _ _ _ _ _ _ _ _ => p
  | DynamicFeeTx _ _ _ cap _ _ _ _ _ _ _ _ => cap end.
Definition gasTipCap (t : TxData) : Z :=
  match t with LegacyTx _ p _ _ _ _ _ _ _ => p | AccessListTx _ _ p _ _ _ _ _ _ _ _ => p
  | DynamicFeeTx _ _ tip _ _ _ _ _ _ _ _ _ => tip end.
Definition gasFeeCap (t : TxData) : Z :=
  match t with LegacyTx _ p _ _ _ _ _ _ _ => p | AccessListTx _ _ p _ _ _ _ _ _ _ _ => p
  | DynamicFeeTx _ _ _ cap _ _ _ _ _ _ _ _ => cap end.
Definition value (t : TxData) : Z :=
  match t with LegacyTx _ _ _ _ v _ _ _ _ => v | AccessListTx _ _ _ _ _ v _ _ _ _ _ => v
  | DynamicFeeTx _ _ _ _ _ _ v _ _ _ _ _ => v end.
Definition nonce (t : TxData) : Z :=
  match t with LegacyTx n _ _ _ _ _ _ _ _ => n | AccessListTx _ n _ _ _ _ _ _ _ _ _ => n
  | DynamicFeeTx _ n _ _ _ _ _ _ _ _ _ _ => n end.
Definition to (t : TxData) : option Address :=
  match t with LegacyTx _ _ _ a _ _ _ _ _ => a | AccessListTx _ _ _ _ a _ _ _ _ _ _ => a
  | DynamicFeeTx _ _ _ _ _ a _ _ _ _ _ _ => a end.
Definition rawSignatureValues (t : TxData) : Z * Z * Z :=
  match t with LegacyTx _ _ _ _ _ _ V R Sg => (V, R, Sg) | AccessListTx _ _ _ _ _ _ _ _ V R Sg => (V, R, Sg)
  | DynamicFeeTx _ _ _ _ _ _ _ _ _ V R Sg => (V, R, Sg) end.

(** A nil chain identifier, of a signer without one, is never set on a typed
    transaction: such signers refuse it. *)
Definition setSignatureValues (chain V R Sg : Z) (t : TxData) : TxData :=
  match t with
  | LegacyTx n p g a v d _ _ _ => LegacyTx n p g a v d V R Sg
  | AccessListTx _ n p g a v d al _ _ _ => AccessListTx chain n p g a v d al V R Sg
  | DynamicFeeTx _ n tip cap g a v d al _ _ _ => DynamicFeeTx chain n tip cap g a v d al V R Sg
  end.

Definition Protected (t : TxData) : bool :=
  match t with LegacyTx _ _ _ _ _ _ V _ _ => isProtectedV V | _ => true end.

(** [Cost] *)
Definition Cost (t : TxData) : Z := gasPrice t * gas t + value t.

Definition BigMin (x y : Z) : Z := if x >? y then y else x.

(** [EffectiveGasTip]: the tip and whether the fee cap covers the base fee. *)
Definition EffectiveGasTip (t : TxData) (baseFee : option Z) : Z * option TxSigErr :=
  match baseFee with
  | None => (gasTipCap t, None)
  | Some b =>
    (BigMin (gasTipCap t) (gasFeeCap t - b), if gasFeeCap t <? b then Some ErrGasFeeCapTooLow else None)
  end.
Definition EffectiveGasTipValue (t : TxData) (baseFee : option Z) : Z := (EffectiveGasTip t baseFee).1.
Definition EffectiveGasTipCmp (t other : TxData) (baseFee : option Z) : comparison :=
  match baseFee with
  | None => gasTipCap t ?= gasTipCap other
  | Some _ => EffectiveGasTipValue t baseFee ?= EffectiveGasTipValue other baseFee
  end.
Definition EffectiveGasTipIntCmp (t : TxData) (other : Z) (baseFee : option Z) : comparison :=
  match baseFee with
  | None => gasTipCap t ?= other
  | Some _ => EffectiveGasTipValue t baseFee ?= other
  end.

(** ** Encoding *)

Definition to_item (a : option Address) : item :=
  IBytes (match a with Some a => be_bytes 20 a | None => [] end).

Definition al_item (al : AccessTuples) : item :=
  IList (map (fun '(a, keys) => IStruct [IBytes (be_bytes 20 a); IList (map (fun k => IBytes (be_bytes 32 k)) keys)]) al).

Definition tx_items (t : TxData) : list item :=
  match t with
  | LegacyTx n p g a v d V R Sg =>
    [IUint n; IBig p; IUint g; to_item a; IBig v; IBytes d; IBig V; IBig R; IBig Sg]
  | AccessListTx c n p g a v d al V R Sg =>
    [IBig c; IUint n; IBig p; IUint g; to_item a; IBig v; IBytes d; al_item al; IBig V; IBig R; IBig Sg]
  | DynamicFeeTx c n tip cap g a v d al V R Sg =>
    [IBig c; IUint n; IBig tip; IBig cap; IUint g; to_item a; IBig v; IBytes d; al_item al; IBig V; IBig R; IBig Sg]
  end.

(** Is one of the big integers negative?  The encoder then fails. *)
Definition negative_big (it : item) : bool := match it with IBig x => x <? 0 | _ => false end.

(** [rlp.Encode]: nothing is written when it fails. *)
Definition Encode (it : item) : res (option bytes) :=
  match it with
  | IList l | IStruct l => if existsb negative_big l then Ok None else b ← Enc.EncodeToBytes it; Ok (Some b)
  | _ => if negative_big it then Ok None else b ← Enc.EncodeToBytes it; Ok (Some b)
  end.

(** [EncodeIndex]: the bytes written for a transaction of a list; a typed
    transaction is preceded by its type. *)
Definition EncodeIndex (t : TxData) : res bytes :=
  e ← Encode (IStruct (tx_items t));
  Ok ((if txType t =? LegacyTxType then [] else [txType t]) ++ default [] e).

(** [MarshalBinary] *)
Definition MarshalBinary (t : TxData) : res (option bytes) :=
  e ← Encode (IStruct (tx_items t));
  Ok (option_map (fun e => (if txType t =? LegacyTxType then [] else [txType t]) ++ e) e).

Section hashing.
Context `{Crypto}.

(** [prefixedRlpHash] *)
Definition prefixedRlpHash (prefix : Z) (it : item) : res Hash :=
  e ← Encode it; Ok (keccak256 (prefix :: default [] e)).
Definition rlpHash (it : item) : res Hash := Header.rlpHash (Encode it).

(** [Transaction.Hash] *)
Definition tx_Hash (t : TxData) : res Hash :=
  if txType t =? LegacyTxType then rlpHash (IStruct (tx_items t)) else prefixedRlpHash (txType t) (IStruct (tx_items t)).

(** ** Signers *)

Inductive Signer :=
| FrontierSigner | HomesteadSigner | EIP155Signer (chainId : Z) | eip2930Signer (chainId : Z) | londonSigner (chainId : Z).

Definition NewEIP155Signer (chainId : option Z) : Signer := EIP155Signer (default 0 chainId).
Definition NewEIP2930Signer (chainId : option Z) : Signer := eip2930Signer (default 0 chainId).
Definition NewLondonSigner (chainId : option Z) : Signer := londonSigner (default 0 chainId).

(** [ChainID]; nil without one. *)
Definition signer_ChainID (s : Signer) : option Z :=
  match s with FrontierSigner | HomesteadSigner => None | EIP155Signer c | eip2930Signer c | londonSigner c => Some c end.

(** [Equal] *)
Definition signer_Equal (s s2 : Signer) : bool :=
  match s, s2 with
  | FrontierSigner, FrontierSigner | HomesteadSigner, HomesteadSigner => true
  | EIP155Signer c, EIP155Signer c2 | eip2930Signer c, eip2930Signer c2 | londonSigner c, londonSigner c2 => c2 =? c
  | _, _ => false
  end.

Definition MakeSigner (c : ChainConfig) (blockNumber : Z) : Signer :=
  if conf_IsLondon c blockNumber then NewLondonSigner (ChainID c)
  else if conf_IsHomestead c blockNumber then HomesteadSigner
  else FrontierSigner.

Definition LatestSigner (c : ChainConfig) : Signer :=
  match ChainID c, LondonBlock c with Some _, Some _ => NewLondonSigner (ChainID c) | _, _ => HomesteadSigner end.

Definition LatestSignerForChainID (chainId : option Z) : Signer :=
  match chainId with None => HomesteadSigner | Some _ => NewLondonSigner chainId end.

(** What is signed. *)
Definition frontier_items (t : TxData) : list item :=
  [IUint (nonce t); IBig (gasPrice t); IUint (gas t); to_item (to t); IBig (value t); IBytes (data t)].

Definition eip155_Hash (c : Z) (t : TxData) : res Hash :=
  rlpHash (IList (frontier_items t ++ [IBig c; IUint 0; IUint 0])).

Definition eip2930_Hash (c : Z) (t : TxData) : res Hash :=
  if txType t =? LegacyTxType then eip155_Hash c t
  else if txType t =? AccessListTxType then
    prefixedRlpHash (txType t) (IList (IBig c :: frontier_items t ++ [al_item (accessList t)]))
  else Ok 0.

Definition signer_Hash (s : Signer) (t : TxData) : res Hash :=
  match s with
  | FrontierSigner | HomesteadSigner => rlpHash (IList (frontier_items t))
  | EIP155Signer c => eip155_Hash c t
  | eip2930Signer c => eip2930_Hash c t
  | londonSigner c =>
    if negb (txType t =? DynamicFeeTxType) then eip2930_Hash c t
    else prefixedRlpHash (txType t)
      (IList [IBig c; IUint (nonce t); IBig (gasTipCap t); IBig (gasFeeCap t); IUint (gas t); to_item (to t);
              IBig (value t); IBytes (data t); al_item (accessList t)])
  end.

(** [decodeSignature] *)
Definition decodeSignature (sig : bytes) : res (Z * Z * Z) :=
  if negb (zlen sig =? 65) then Panic PanicSignature
  else
    rb ← slice sig 0 32; sb ← slice sig 32 64; v ← nth_or_panic sig 64;
    Ok (be_value rb, be_value sb, u8 (v + 27)).

(** [SignatureValues]: R, S and V. *)
Definition frontier_SignatureValues (t : TxData) (sig : bytes) : res (Z * Z * Z + TxSigErr) :=
  if negb (txType t =? LegacyTxType) then Ok (inr ErrTxTypeNotSupported)
  else d ← decodeSignature sig; Ok (inl d).

Definition eip155_SignatureValues (c : Z) (t : TxData) (sig : bytes) : res (Z * Z * Z + TxSigErr) :=
  if negb (txType t =? LegacyTxType) then Ok (inr ErrTxTypeNotSupported)
  else
    '(R, Sg, V) ← decodeSignature sig;
    if negb (c =? 0) then v ← nth_or_panic sig 64; Ok (inl (R, Sg, u8 (v + 35) + c * 2))
    else Ok (inl (R, Sg, V)).

(** Of a typed transaction, whose own chain identifier may be left open. *)
Definition typed_SignatureValues (c : Z) (t : TxData) (sig : bytes) : res (Z * Z * Z + TxSigErr) :=
  if negb (chainID t =? 0) && negb (chainID t =? c) then Ok (inr ErrInvalidChainId)
  else '(R, Sg, _) ← decodeSignature sig; v ← nth_or_panic sig 64; Ok (inl (R, Sg, v)).

Definition eip2930_SignatureValues (c : Z) (t : TxData) (sig : bytes) : res (Z * Z * Z + TxSigErr) :=
  match t with
  | LegacyTx _ _ _ _ _ _ _ _ _ => eip155_SignatureValues c t sig
  | AccessListTx _ _ _ _ _ _ _ _ _ _ _ => typed_SignatureValues c t sig
  | _ => Ok (inr ErrTxTypeNotSupported)
  end.

Definition SignatureValues (s : Signer) (t : TxData) (sig : bytes) : res (Z * Z * Z + TxSigErr) :=
  match s with
  | FrontierSigner | HomesteadSigner => frontier_SignatureValues t sig
  | EIP155Signer c => eip155_SignatureValues c t sig
  | eip2930Signer c => eip2930_SignatureValues c t sig
  | londonSigner c =>
    match t with
    | DynamicFeeTx _ _ _ _ _ _ _ _ _ _ _ _ => typed_SignatureValues c t sig
    | _ => eip2930_SignatureValues c t sig
    end
  end.

(** [recoverPlain]; R and S are below the order of the curve, so they have at
    most 32 bytes. *)
Definition recoverPlain (sighash : Hash) (R Sg Vb : Z) (homestead : bool) : res (Address + TxSigErr) :=
  if BitLen Vb >? 8 then Ok (inr ErrInvalidSig)
  else
    let V := u8 (sub64 (big_Uint64 Vb) 27) in
    if negb (ValidateSignatureValues V R Sg homestead) then Ok (inr ErrInvalidSig)
    else
      match Ecrecover (be_bytes 32 sighash) (be_bytes 32 R ++ be_bytes 32 Sg ++ [V]) with
      | None => Ok (inr errRecoverKey)
      | Some [] => Ok (inr errInvalidPublicKey)
      | Some (b :: pub) =>
        if negb (b =? 4) then Ok (inr errInvalidPublicKey) else Ok (inl (keccak256 pub mod 2 ^ 160))
      end.

(** [Sender] of the signers. *)
Definition plain_Sender (s : Signer) (homestead : bool) (t : TxData) : res (Address + TxSigErr) :=
  if negb (txType t =? LegacyTxType) then Ok (inr ErrTxTypeNotSupported)
  else
    let '(V, R, Sg) := rawSignatureValues t in
    h ← signer_Hash s t; recoverPlain h R Sg V homestead.

Definition eip155_Sender (c : Z) (t : TxData) : res (Address + TxSigErr) :=
  if negb (txType t =? LegacyTxType) then Ok (inr ErrTxTypeNotSupported)
  else if negb (Protected t) then plain_Sender HomesteadSigner true t
  else if negb (chainID t =? c) then Ok (inr ErrInvalidChainId)
  else
    let '(V, R, Sg) := rawSignatureValues t in
    h ← eip155_Hash c t; recoverPlain h R Sg (V - c * 2 - 8) true.

Definition eip2930_Sender (c : Z) (t : TxData) : res (Address + TxSigErr) :=
  let '(V, R, Sg) := rawSignatureValues t in
  if (txType t =? LegacyTxType) && negb (Protected t) then plain_Sender HomesteadSigner true t
  else if negb (txType t =? LegacyTxType) && negb (txType t =? AccessListTxType) then Ok (inr ErrTxTypeNotSupported)
  else
    let V := if txType t =? LegacyTxType then V - c * 2 - 8 else V + 27 in
    if negb (chainID t =? c) then Ok (inr ErrInvalidChainId)
    else h ← eip2930_Hash c t; recoverPlain h R Sg V true.

Definition signer_Sender (s : Signer) (t : TxData) : res (Address + TxSigErr) :=
  match s with
  | FrontierSigner => plain_Sender s false t
  | HomesteadSigner => plain_Sender s true t
  | EIP155Signer c => eip155_Sender c t
  | eip2930Signer c => eip2930_Sender c t
  | londonSigner c =>
    if negb (txType t =? DynamicFeeTxType) then eip2930_Sender c t
    else
      let '(V, R, Sg) := rawSignatureValues t in
      if negb (chainID t =? c) then Ok (inr ErrInvalidChainId)
      else h ← signer_Hash s t; recoverPlain h R Sg (V + 27) true
  end.

(** ** Transactions *)

(** The contents, the time it was first seen and the cached sender. *)
Record Transaction := mkTransaction {
  inner : TxData;
  time : Z;
  from : option (Signer * Address);
}.

Definition NewTx (now : Z) (t : TxData) : Transaction := mkTransaction t now None.

(** [Sender]: from the cache when the signer is the same. *)
Definition Sender (s : Signer) (tx : Transaction) : res ((Address + TxSigErr) * Transaction) :=
  let cached := match from tx with Some (sc, a) => if signer_Equal sc s then Some a else None | None => None end in
  match cached with
  | Some a => Ok (inl a, tx)
  | None =>
    r ← signer_Sender s (inner tx);
    match r with
    | inr e => Ok (inr e, tx)
    | inl a => Ok (inl a, mkTransaction (inner tx) (time tx) (Some (s, a)))
    end
  end.

(** [WithSignature] *)
Definition WithSignature (s : Signer) (sig : bytes) (tx : Transaction) : res (Transaction + TxSigErr) :=
  r ← SignatureValues s (inner tx) sig;
  match r with
  | inr e => Ok (inr e)
  | inl (R, Sg, V) =>
    Ok (inl (mkTransaction (setSignatureValues (default 0 (signer_ChainID s)) V R Sg (inner tx)) (time tx) None))
  end.

(** [SignTx]; [sign] is [crypto.Sign] with the private key. *)
Definition SignTx (sign : bytes -> option bytes) (s : Signer) (tx : Transaction) : res (Transaction + TxSigErr) :=
  h ← signer_Hash s (inner tx);
  match sign (be_bytes 32 h) with
  | None => Ok (inr errSigning)
  | Some sig => WithSignature s sig tx
  end.

(** [AsMessage] *)
Definition AsMessage (s : Signer) (baseFee : option Z) (tx : Transaction)
    : res ((Message + TxSigErr) * Transaction) :=
  let t := inner tx in
  let price := match baseFee with Some b => BigMin (gasTipCap t + b) (gasFeeCap t) | None => gasPrice t end in
  '(r, tx) ← Sender s tx;
  match r with
  | inr e => Ok (inr e, tx)
  | inl a =>
    Ok (inl {| From := a; To := to t; mGasPrice := price; GasFeeCap := Some (gasFeeCap t); GasTipCap := Some (gasTipCap t);
               mGas := gas t; Value := value t; Nonce := nonce t; IsFake := false; Data := data t;
               mAccessList := accessList t |}, tx)
  end.
End hashing.

(** [HashDifference] *)
Definition HashDifference (a b : list Hash) : list Hash :=
  let remove : gset Hash := list_to_set b in
  filter (fun h => h ∉ remove) a.
End Transaction.
