(* ===== verification/TransactionSpec.v ===== *)
(** * Theorems on transactions and signers

    A transaction signed for a chain is recovered to the account of its key and is
    refused by the signers of every other chain; the hash of a transaction
    identifies it; the cache of the sender is transparent. *)

From S2P Require Import Prelude Uint256 Config Common Rlp RlpSpec EvmState EvmSpec Header Consensus EvmCalls Instances StateTransition Transaction.

Import Transaction.

Local Open Scope Z_scope.

(** ** Well-formed transactions *)

Definition to_ok (a : option Address) : Prop := forall x, a = Some x -> 0 <= x < 2 ^ 160.
Definition al_ok (al : AccessTuples) : Prop :=
  Forall (fun t : Address * list Hash => 0 <= t.1 < 2 ^ 160 /\ Forall is_word t.2) al.

(** The fields have the width of their types, the big integers are not negative
    and the encoding fits into memory. *)
Record tx_ok (t : TxData) : Prop := {
  to_nonce : is_u64 (nonce t);
  to_gas : is_u64 (gas t);
  to_fees : 0 <= gasTipCap t /\ 0 <= gasFeeCap t /\ 0 <= value t;
  to_data : wf_bytes (data t);
  to_to : to_ok (to t);
  to_al : al_ok (accessList t);
  to_sig : let '(V, R, Sg) := rawSignatureValues t in 0 <= V /\ 0 <= R /\ 0 <= Sg;
  to_chain : match t with LegacyTx _ _ _ _ _ _ _ _ _ => True | _ => 0 <= chainID t end;
  to_size : zlen (encode (IStruct (tx_items t))) < 2 ^ 58;
}.

Lemma wf_al_item al : wf_item (al_item al).
Proof.
  unfold al_item. cbn [wf_item]. induction al as [|[a keys] al IH]; cbn [map foldr]; [done|]. split; [|exact IH].
  cbn [wf_item foldr]. split_and!; [apply wf_be_bytes | | done]. clear. induction keys as [|k keys IH]; cbn [map foldr]; [done|].
  split; [apply wf_be_bytes | exact IH].
Qed.

Lemma wf_to_item a : wf_item (to_item a).
Proof. destruct a; cbn [to_item wf_item]; [apply wf_be_bytes | constructor]. Qed.

Lemma wf_tx_items t : tx_ok t -> wf_items (tx_items t).
Proof.
  intros [Hn Hg (Htip & Hcap & Hv) Hd _ _ Hs Hc _].
  destruct t; cbn in Hn, Hg, Htip, Hcap, Hv, Hd, Hs; unfold tx_items, wf_items; cbn [foldr wf_item to_item];
    destruct Hs as (? & ? & ?); pose proof (wf_to_item To); cbn [wf_item to_item] in *; split_and!; try done; try apply wf_al_item.
Qed.

(** The encoder succeeds. *)
Lemma Encode_wf l (str : bool) : wf_items l -> zlen (encode (IStruct l)) < 2 ^ 63 ->
  Encode (if str then IStruct l else IList l) = Ok (Some (encode (IStruct l))).
Proof.
  intros Hw Hl. assert (Hneg : existsb negative_big l = false).
  { clear Hl. induction l as [|it l IH]; [done|]. destruct Hw as [Hi Hw]. cbn [existsb]. rewrite IH by done. rewrite orb_false_r.
    destruct it; cbn in *; try done. by apply Z.ltb_ge. }
  destruct str; cbn [Encode]; rewrite Hneg; rewrite EncodeToBytes_spec; done.
Qed.

(** ** The encoding determines the transaction *)

Lemma to_item_inj a b : to_ok a -> to_ok b -> tree_of (to_item a) = tree_of (to_item b) -> a = b.
Proof.
  intros Ha Hb E. cbn [to_item tree_of content] in E. apply RString_inj in E. destruct a as [a|], b as [b|]; try done.
  f_equal. apply (be_bytes_inj 20); [by apply Ha | by apply Hb | done].
Qed.

Lemma keys_inj (k : list Hash) : forall k', Forall is_word k -> Forall is_word k' ->
  map tree_of (map (fun k => IBytes (be_bytes 32 k)) k) = map tree_of (map (fun k => IBytes (be_bytes 32 k)) k') -> k = k'.
Proof.
  induction k as [|x k IH]; intros [|y k'] H H' E; cbn [map] in E; try done.
  apply Forall_cons in H as [Hx H]. apply Forall_cons in H' as [Hy H']. apply cons_inj in E as [E1 E2].
  cbn [tree_of content] in E1. apply RString_inj in E1. f_equal; [by apply (be_bytes_inj 32) | by apply IH].
Qed.

Lemma al_item_inj al : forall al', al_ok al -> al_ok al' -> tree_of (al_item al) = tree_of (al_item al') -> al = al'.
Proof.
  induction al as [|[a k] al IH]; intros [|[a' k'] al'] H H' E; try done.
  apply Forall_cons in H as [[Ha Hk] H]. apply Forall_cons in H' as [[Ha' Hk'] H'].
  unfold al_item in E. cbn [tree_of map content] in E. apply RList_inj, cons_inj in E as [E1 E3].
  apply RList_inj, cons_inj in E1 as [E1 E2]. apply RString_inj in E1. apply cons_inj in E2 as [E2 _]. apply RList_inj in E2.
  cbn [fst snd] in Ha, Ha', Hk, Hk'.
  f_equal; [f_equal; [by apply (be_bytes_inj 20) | by apply keys_inj]|]. apply IH; [done | done|]. unfold al_item. cbn [tree_of]. by rewrite E3.
Qed.

Lemma big_inj x y : 0 <= x -> 0 <= y -> big_bytes x = big_bytes y -> x = y.
Proof. intros Hx Hy E. rewrite <- (big_bytes_value x), <- (big_bytes_value y) by done. by rewrite E. Qed.

Lemma tx_items_inj t t' : tx_ok t -> tx_ok t' -> txType t = txType t' ->
  map tree_of (tx_items t) = map tree_of (tx_items t') -> t = t'.
Proof.
  intros [Hn Hg (Htip & Hcap & Hv) _ Hto Hal Hs Hc _] [Hn' Hg' (Htip' & Hcap' & Hv') _ Hto' Hal' Hs' Hc' _] Et E.
  destruct t, t'; try done; cbn in Hn, Hg, Htip, Hcap, Hv, Hto, Hal, Hs, Hn', Hg', Htip', Hcap', Hv', Hto', Hal', Hs';
    destruct Hs as (? & ? & ?), Hs' as (? & ? & ?); cbn [chainID] in Hc, Hc'; clear Et.
  all: unfold tx_items in E; cbn [map] in E.
  all: repeat match type of E with _ :: _ = _ :: _ => let E1 := fresh "F" in apply cons_inj in E as [E1 E] end.
  all: repeat match goal with F : tree_of (to_item _) = _ |- _ => apply to_item_inj in F; [|done|done] end.
  all: repeat match goal with F : tree_of (al_item _) = _ |- _ => apply al_item_inj in F; [|done|done] end.
  all: repeat match goal with F : tree_of (IUint _) = _ |- _ => cbn [tree_of content] in F; apply RString_inj in F; apply uint_content_inj in F; [|done|done] end.
  all: repeat match goal with F : tree_of (IBig _) = _ |- _ => cbn [tree_of content] in F; apply RString_inj in F; apply big_inj in F; [|done|done] end.
  all: repeat match goal with F : tree_of (IBytes _) = _ |- _ => cbn [tree_of content] in F; apply RString_inj in F end.
  all: by subst.
Qed.

(** The canonical encoding: what [EncodeIndex] writes and what is hashed. *)
Definition tx_bytes (t : TxData) : bytes :=
  (if txType t =? LegacyTxType then [] else [txType t]) ++ encode (IStruct (tx_items t)).

Lemma EncodeIndex_spec t : tx_ok t -> EncodeIndex t = Ok (tx_bytes t) /\ MarshalBinary t = Ok (Some (tx_bytes t)).
Proof.
  intros Ht. pose proof (Encode_wf (tx_items t) true (wf_tx_items t Ht) ltac:(pose proof (to_size t Ht); lia)) as E.
  cbn iota in E. unfold EncodeIndex, MarshalBinary. by rewrite E.
Qed.

Lemma tx_Hash_spec `{C : Crypto} t : tx_ok t -> tx_Hash t = Ok (keccak256 (tx_bytes t)).
Proof.
  intros Ht. pose proof (Encode_wf (tx_items t) true (wf_tx_items t Ht) ltac:(pose proof (to_size t Ht); lia)) as E.
  cbn iota in E. unfold tx_Hash, rlpHash, prefixedRlpHash, Header.rlpHash, tx_bytes. rewrite E. by destruct (_ =? _).
Qed.

Lemma wf_tx_bytes t : tx_ok t -> wf_bytes (tx_bytes t).
Proof.
  intros Ht. apply wf_bytes_app; [|by apply wf_encode, wf_tx_items]. destruct (_ =? _); [constructor|].
  repeat constructor; destruct t; by vm_compute.
Qed.

(** A list starts with a byte of at least 192, a typed transaction with its type. *)
Lemma struct_head l : exists h r, encode (IStruct l) = h :: r /\ 192 <= h.
Proof.
  cbn [encode]. unfold puthead. destruct (Z.ltb_spec (zlen (flat_map encode l)) 56) as [Hn|Hn].
  - eexists _, _. split; [reflexivity|]. pose proof (zlen_nonneg (flat_map encode l)). unfold u8. rewrite (Z.mod_small (zlen _)) by lia. rewrite Z.mod_small; lia.
  - eexists _, _. split; [reflexivity|]. unfold u8, putint.
    repeat (destruct (_ <? _); [rewrite zlen_be_bytes; by vm_compute|]). rewrite zlen_be_bytes. by vm_compute.
Qed.

Lemma tx_bytes_inj t t' : tx_ok t -> tx_ok t' -> tx_bytes t = tx_bytes t' -> t = t'.
Proof.
  intros Ht Ht' E. unfold tx_bytes in E.
  destruct (struct_head (tx_items t)) as (x & r & Ex & Hx), (struct_head (tx_items t')) as (x' & r' & Ex' & Hx').
  assert (Het : txType t = txType t').
  { rewrite Ex, Ex' in E. apply (f_equal (hd 0)) in E. clear -E Hx Hx'. destruct t, t'; try done; vm_compute in E; lia. }
  rewrite <- Het in E. apply app_inv_head in E. apply tx_items_inj; [done | done | done|].
  apply RList_inj. apply (encode_tree_inj (IStruct (tx_items t)) (IStruct (tx_items t'))); [by apply wf_tx_items | by apply wf_tx_items | | done].
  pose proof (to_size t Ht). lia.
Qed.

(** The hash of a transaction identifies it: two well-formed
    transactions of any types with the same hash are the same, signature
    included; and the hash is that of the encoding the transaction list of a
    block commits to. *)
Theorem tx_hash_identifies `{C : Crypto} `{CS : !CryptoSpec C} t t' : tx_ok t -> tx_ok t' ->
  (exists b, EncodeIndex t = Ok b /\ tx_Hash t = Ok (keccak256 b)) /\ (tx_Hash t = tx_Hash t' -> t = t').
Proof.
  intros Ht Ht'. split; [exists (tx_bytes t); split; [by apply EncodeIndex_spec | by apply tx_Hash_spec]|].
  rewrite !tx_Hash_spec by done. intros E. apply Ok_inj in E. apply keccak_inj in E; [|by apply wf_tx_bytes | by apply wf_tx_bytes].
  by apply tx_bytes_inj.
Qed.

Section signing.
Context `{C : Crypto}.

(** What the signers rely on of [crypto.Sign] with the key of an account: the
    signature is R, S and a recovery identifier, in canonical form, and recovers
    to the key. *)
Definition signs_for (sign : bytes -> option bytes) (addr : Address) : Prop :=
  forall h sig, sign h = Some sig -> exists R Sg v pub,
    sig = be_bytes 32 R ++ be_bytes 32 Sg ++ [v] /\ 1 <= R < secp256k1N /\ 1 <= Sg <= secp256k1N / 2 /\ (v = 0 \/ v = 1) /\
    Ecrecover h sig = Some (4 :: pub) /\ keccak256 pub mod 2 ^ 160 = addr.

Lemma secp256k1N_bound : secp256k1N < 2 ^ 256.
Proof. by vm_compute. Qed.

Lemma decode_signed R Sg v : 1 <= R < secp256k1N -> 1 <= Sg <= secp256k1N / 2 -> v = 0 \/ v = 1 ->
  decodeSignature (be_bytes 32 R ++ be_bytes 32 Sg ++ [v]) = Ok (R, Sg, v + 27) /\
  nth_or_panic (be_bytes 32 R ++ be_bytes 32 Sg ++ [v]) 64 = Ok v.
Proof.
  intros HR HS Hv. pose proof secp256k1N_bound. assert (secp256k1N / 2 < secp256k1N) by by vm_compute.
  assert (Hn : nth_or_panic (be_bytes 32 R ++ be_bytes 32 Sg ++ [v]) 64 = Ok v).
  { unfold nth_or_panic. rewrite bool_decide_true by lia. change (Z.to_nat 64) with (32 + 32 + 0)%nat.
    rewrite app_assoc, lookup_app_r; rewrite length_app, !length_be_bytes; [|lia]. done. }
  split; [|done]. unfold decodeSignature.
  assert (Hl : zlen (be_bytes 32 R ++ be_bytes 32 Sg ++ [v]) = 65) by (rewrite !zlen_app, !zlen_be_bytes; done).
  rewrite Hl. cbn [negb Z.eqb Pos.eqb]. rewrite Hn. unfold slice. rewrite Hl, !bool_decide_true by lia. cbn [mbind res_bind].
  change (Z.to_nat (32 - 0)) with 32%nat. change (Z.to_nat (64 - 32)) with 32%nat. change (Z.to_nat 32) with 32%nat. change (Z.to_nat 0) with 0%nat.
  rewrite drop_0. rewrite (take_app_length' _ _ 32) by (by rewrite length_be_bytes). rewrite (drop_app_length' _ _ 32) by (by rewrite length_be_bytes).
  rewrite (take_app_length' _ _ 32) by (by rewrite length_be_bytes). rewrite !be_value_be_bytes.
  change (256 ^ Z.of_nat 32) with (2 ^ 256). rewrite !Z.mod_small by lia.
  unfold u8. rewrite Z.mod_small by lia. done.
Qed.

Lemma recover_signed sign addr h sig : signs_for sign addr -> sign (be_bytes 32 h) = Some sig ->
  exists R Sg v, (v = 0 \/ v = 1) /\ decodeSignature sig = Ok (R, Sg, v + 27) /\ nth_or_panic sig 64 = Ok v /\
    forall homestead, recoverPlain h R Sg (v + 27) homestead = Ok (inl addr).
Proof.
  intros Hs E. destruct (Hs _ _ E) as (R & Sg & v & pub & -> & HR & HS & Hv & Hrec & Ha).
  destruct (decode_signed R Sg v HR HS Hv) as [Ed En]. exists R, Sg, v. split_and!; [done | done | done |].
  assert (secp256k1N / 2 < secp256k1N) by by vm_compute.
  intros hs. unfold recoverPlain, big_Uint64.
  assert (Hb : BitLen (v + 27) >? 8 = false) by (destruct Hv as [-> | ->]; by vm_compute). rewrite Hb.
  assert (Eu : u8 (sub64 (u64 (Z.abs (v + 27))) 27) = v) by (destruct Hv as [-> | ->]; by vm_compute). rewrite Eu.
  assert (Hval : ValidateSignatureValues v R Sg hs = true).
  { unfold ValidateSignatureValues. destruct (Z.ltb_spec R 1); [lia|]. destruct (Z.ltb_spec Sg 1); [lia|]. cbn [orb].
    destruct (Z.gtb_spec Sg (secp256k1N / 2)); [lia|]. rewrite andb_false_r.
    destruct (Z.ltb_spec R secp256k1N); [|lia]. destruct (Z.ltb_spec Sg secp256k1N); [|lia]. by destruct Hv as [-> | ->]. }
  rewrite Hval. cbn [negb]. rewrite Hrec. cbn [negb Z.eqb Pos.eqb]. by rewrite Ha.
Qed.

(** The values of a protected legacy signature. *)
Lemma protected_values c v : 0 < c -> v = 0 \/ v = 1 ->
  let V := u8 (v + 35) + c * 2 in isProtectedV V = true /\ deriveChainId V = c /\ V - c * 2 - 8 = v + 27 /\
  37 <= V.
Proof.
  intros Hc Hv. cbn zeta. assert (Eu : u8 (v + 35) = v + 35) by (destruct Hv as [-> | ->]; by vm_compute). rewrite Eu.
  set (V := v + 35 + c * 2). assert (37 <= V) by (subst V; destruct Hv as [-> | ->]; lia).
  assert (Hd : (v + c * 2) / 2 = c) by (destruct Hv as [-> | ->]; [rewrite Z.add_0_l, Z.div_mul; lia | rewrite Z.div_add by lia; done]).
  split_and!; [| |subst V; lia | done].
  - unfold isProtectedV, big_Uint64. destruct (BitLen V <=? 8) eqn:E; [|done]. rewrite Z.abs_eq by lia.
    to_prop. assert (V < 2 ^ 64) by (apply u64_BitLen; lia). rewrite u64_small by (unfold is_u64; lia).
    repeat (match goal with |- context [?a =? ?b] => destruct (Z.eqb_spec a b); [lia|] end). done.
  - unfold deriveChainId, big_Uint64. destruct (BitLen V <=? 64) eqn:E.
    + to_prop. apply u64_BitLen in E; [|lia]. rewrite Z.abs_eq by lia. rewrite u64_small by (unfold is_u64; lia).
      destruct (Z.eqb_spec V 27); [lia|]. destruct (Z.eqb_spec V 28); [lia|]. cbn [orb]. unfold sub64. rewrite u64_small by (unfold is_u64; lia).
      subst V. rewrite <- Hd at 2. f_equal. lia.
    + subst V. rewrite <- Hd at 2. f_equal. lia.
Qed.

(** A signature is no part of what is signed. *)
Lemma signer_Hash_set s c V R Sg t : signer_Hash s (setSignatureValues c V R Sg t) = signer_Hash s t.
Proof. by destruct s, t. Qed.

Lemma SignTx_inv sign addr s tx tx' : signs_for sign addr -> SignTx sign s tx = Ok (inl tx') ->
  exists h R Sg v V, (v = 0 \/ v = 1) /\ signer_Hash s (inner tx) = Ok h /\
    (forall homestead, recoverPlain h R Sg (v + 27) homestead = Ok (inl addr)) /\
    tx' = mkTransaction (setSignatureValues (default 0 (signer_ChainID s)) V R Sg (inner tx)) (time tx) None /\
    V = match inner tx, signer_ChainID s with
        | LegacyTx _ _ _ _ _ _ _ _ _, Some c => if c =? 0 then v + 27 else u8 (v + 35) + c * 2
        | LegacyTx _ _ _ _ _ _ _ _ _, None => v + 27
        | _, _ => v
        end /\
    match inner tx, s with
    | LegacyTx _ _ _ _ _ _ _ _ _, _ | AccessListTx _ _ _ _ _ _ _ _ _ _ _, (eip2930Signer _ | londonSigner _)
    | DynamicFeeTx _ _ _ _ _ _ _ _ _ _ _ _, londonSigner _ => True
    | _, _ => False
    end.
Proof.
  intros Hs E. unfold SignTx in E. destruct (signer_Hash s (inner tx)) as [h| |] eqn:Eh; try done. cbn [mbind res_bind] in E.
  destruct (sign (be_bytes 32 h)) as [sig|] eqn:Esig; [|done].
  destruct (recover_signed sign addr h sig Hs Esig) as (R & Sg & v & Hv & Ed & En & Hrec).
  unfold WithSignature in E.
  destruct (SignatureValues s (inner tx) sig) as [[[[R' Sg'] V']|e]| |] eqn:Ev; try done. cbn [mbind res_bind] in E. injection E as <-.
  exists h, R, Sg, v, V'. assert (HR : R' = R /\ Sg' = Sg /\ V' = match inner tx, signer_ChainID s with
        | LegacyTx _ _ _ _ _ _ _ _ _, Some c => if c =? 0 then v + 27 else u8 (v + 35) + c * 2
        | LegacyTx _ _ _ _ _ _ _ _ _, None => v + 27
        | _, _ => v
        end /\
    match inner tx, s with
    | LegacyTx _ _ _ _ _ _ _ _ _, _ | AccessListTx _ _ _ _ _ _ _ _ _ _ _, (eip2930Signer _ | londonSigner _)
    | DynamicFeeTx _ _ _ _ _ _ _ _ _ _ _ _, londonSigner _ => True
    | _, _ => False
    end).
  { destruct s, (inner tx); cbn [SignatureValues signer_ChainID eip2930_SignatureValues] in *;
      unfold frontier_SignatureValues, eip155_SignatureValues, typed_SignatureValues in Ev; cbn [txType negb] in Ev;
      repeat (change (LegacyTxType =? LegacyTxType) with true in Ev || change (AccessListTxType =? LegacyTxType) with false in Ev
              || change (DynamicFeeTxType =? LegacyTxType) with false in Ev); cbn [negb] in Ev; try done;
      try (destruct (_ && _); [done|]); rewrite Ed in Ev; cbn [mbind res_bind] in Ev; try rewrite En in Ev; cbn [mbind res_bind] in Ev;
      try (destruct (_ =? 0); cbn [negb] in Ev); try (by injection Ev as <- <- <-). }
  destruct HR as (-> & -> & HV & Hsup). split_and!; done.
Qed.

(** The senders of signed transactions. *)
Lemma protected_Sender c n p g a vl d V R Sg h : isProtectedV V = true -> deriveChainId V = c ->
  let t := LegacyTx n p g a vl d V R Sg in eip155_Hash c t = Ok h ->
  eip155_Sender c t = recoverPlain h R Sg (V - c * 2 - 8) true /\ eip2930_Sender c t = recoverPlain h R Sg (V - c * 2 - 8) true.
Proof.
  intros HP Hc t Eh. subst t. split; cbv [eip155_Sender eip2930_Sender eip2930_Hash txType Protected chainID rawSignatureValues LegacyTxType AccessListTxType];
    rewrite ?HP, ?Hc, ?(Z.eqb_refl 0), ?(Z.eqb_refl c); cbn [negb andb]; by rewrite Eh.
Qed.

Lemma typed_Sender c n p g a vl d al V R Sg h : let t := AccessListTx c n p g a vl d al V R Sg in eip2930_Hash c t = Ok h ->
  eip2930_Sender c t = recoverPlain h R Sg (V + 27) true.
Proof.
  intros t Eh. subst t. cbv [eip2930_Sender txType Protected chainID rawSignatureValues LegacyTxType AccessListTxType].
  rewrite (Z.eqb_refl c). change (1 =? 0) with false. change (1 =? 1) with true. cbn [negb andb]. by rewrite Eh.
Qed.

(** C36: A transaction signed with SignTx is recovered to the account of
    the key, for every signer and every type of transaction the signer supports;
    for legacy transactions the chain identifier has to be positive. *)
Theorem signed_transactions_recover sign addr s tx tx' : signs_for sign addr ->
  (txType (inner tx) = LegacyTxType -> forall c, signer_ChainID s = Some c -> 0 < c) ->
  SignTx sign s tx = Ok (inl tx') -> exists tx'', Sender s tx' = Ok (inl addr, tx'').
Proof.
  intros Hs Hc E. destruct (SignTx_inv sign addr s tx tx' Hs E) as (h & R & Sg & v & V & Hv & Eh & Hrec & -> & HV & Hsup).
  unfold Sender. cbn [from inner]. set (t' := setSignatureValues _ V R Sg (inner tx)).
  assert (Hsend : signer_Sender s t' = Ok (inl addr)).
  { pose proof (signer_Hash_set s (default 0 (signer_ChainID s)) V R Sg (inner tx)) as Eh'. rewrite Eh in Eh'. fold t' in Eh'.
    destruct s as [| |c|c|c], (inner tx) as [n p g a vl d V0 R0 S0|c0 n p g a vl d al V0 R0 S0|c0 n tip cap g a vl d al V0 R0 S0];
      cbn [signer_ChainID default] in *; try done;
      try (assert (Hc0 : 0 < c) by (apply (Hc eq_refl c eq_refl));
        destruct (Z.eqb_spec c 0) as [|_]; [lia|]; destruct (protected_values c v Hc0 Hv) as (HP & Hch & HVv & _); rewrite <- HV in HP, Hch, HVv);
      subst t'; cbn [setSignatureValues] in *;
      try (destruct (protected_Sender c n p g a vl d V R Sg h HP Hch Eh') as [E1 E2]; rewrite HVv in E1, E2).
    1-2: unfold signer_Sender, plain_Sender; cbn [txType rawSignatureValues]; rewrite Eh'; cbn [mbind res_bind]; subst V; apply Hrec.
    - etrans; [exact E1 | apply Hrec].
    - etrans; [exact E2 | apply Hrec].
    - subst V. etrans; [exact (typed_Sender c n p g a vl d al v R Sg h Eh') | apply Hrec].
    - etrans; [exact E2 | apply Hrec].
    - subst V. etrans; [exact (typed_Sender c n p g a vl d al v R Sg h Eh') | apply Hrec].
    - unfold signer_Sender. cbn [txType rawSignatureValues chainID]. change (id c) with c in *. rewrite (Z.eqb_refl c).
      change (DynamicFeeTxType =? DynamicFeeTxType) with true. cbn [negb]. rewrite Eh'. subst V. apply Hrec. }
  rewrite Hsend. cbn [mbind res_bind]. by eexists.
Qed.

(** A signature for another chain has no valid recovery identifier. *)
Lemma plain_refuses h R Sg V hs : 37 <= V -> recoverPlain h R Sg V hs = Ok (inr ErrInvalidSig).
Proof.
  intros HV. unfold recoverPlain. destruct (BitLen V >? 8) eqn:E; [done|].
  assert (V < 2 ^ 8).
  { assert (BitLen V <= 8) by (destruct (Z.gtb_spec (BitLen V) 8); [done | lia]). unfold BitLen in *. destruct (V =? 0) eqn:E0; to_prop; [lia|].
    rewrite Z.abs_eq in * by lia. apply Z.log2_lt_pow2; lia. }
  unfold big_Uint64. rewrite Z.abs_eq by lia. rewrite u64_small by (unfold is_u64; lia). unfold sub64. rewrite u64_small by (unfold is_u64; lia).
  assert (Eu : u8 (V - 27) = V - 27) by (unfold u8; apply Z.mod_small; lia). rewrite Eu.
  assert (Hval : ValidateSignatureValues (V - 27) R Sg hs = false).
  { unfold ValidateSignatureValues. destruct (_ || _); [done|]. destruct (_ && _); [done|].
    destruct (Z.eqb_spec (V - 27) 0); [lia|]. destruct (Z.eqb_spec (V - 27) 1); [lia|]. cbn [orb]. by rewrite andb_false_r. }
  by rewrite Hval.
Qed.

(** What is signed can be hashed. *)
Lemma encode_items_size l n : Forall (fun it => zlen (encode it) <= n) l -> zlen (encode_items l) <= n * zlen l.
Proof. intros H. unfold encode_items. rewrite flat_map_concat_map. by apply concat_size. Qed.

Lemma tx_item_size t it : tx_ok t -> it ∈ tx_items t -> zlen (encode it) <= 2 ^ 58 /\ wf_item it.
Proof.
  intros Ht Hin. split; [|by apply (wf_items_elem it (tx_items t)); [apply wf_tx_items|]].
  pose proof (encode_item_le it _ Hin). pose proof (to_size t Ht) as Hs. cbn [encode] in Hs. fold (encode_items (tx_items t)) in Hs.
  rewrite zlen_app in Hs. pose proof (zlen_nonneg (puthead 192 247 (zlen (encode_items (tx_items t))))). lia.
Qed.

Lemma Encode_bounded l : Forall (fun it => zlen (encode it) <= 2 ^ 58 /\ wf_item it) l -> zlen l <= 16 ->
  Encode (IList l) = Ok (Some (encode (IStruct l))) /\ wf_items l /\ zlen (encode (IStruct l)) < 2 ^ 63.
Proof.
  intros Hf Hl. assert (Hw : wf_items l) by (induction Hf as [|it l [_ ?] _ IH]; [done | split; [done | apply IH; rewrite zlen_cons in Hl; lia]]).
  assert (Hs : zlen (encode_items l) <= 2 ^ 58 * zlen l) by (apply encode_items_size; eapply Forall_impl; [exact Hf|]; by intros it [? _]).
  assert (zlen (encode (IStruct l)) < 2 ^ 63).
  { cbn [encode]. fold (encode_items l). rewrite zlen_app. pose proof (puthead_length 192 247 (zlen (encode_items l))). lia. }
  split_and!; [exact (Encode_wf l false Hw ltac:(done)) | done | done].
Qed.

Lemma hash_total l : Forall (fun it => zlen (encode it) <= 2 ^ 58 /\ wf_item it) l -> zlen l <= 16 ->
  (exists h, rlpHash (IList l) = Ok h) /\ forall x, exists h, prefixedRlpHash x (IList l) = Ok h.
Proof.
  intros Hf Hl. destruct (Encode_bounded l Hf Hl) as [E _]. unfold rlpHash, prefixedRlpHash, Header.rlpHash.
  rewrite E. split; intros; by eexists.
Qed.

Lemma signer_Hash_total s t : tx_ok t -> (forall c, signer_ChainID s = Some c -> 0 <= c < 2 ^ 1024) -> exists h, signer_Hash s t = Ok h.
Proof.
  intros Ht Hc.
  assert (Hbig : forall c, 0 <= c < 2 ^ 1024 -> zlen (encode (IBig c)) <= 2 ^ 58 /\ wf_item (IBig c)).
  { intros c Hcc. split; [|cbn; lia]. cbn [encode]. pose proof (encode_bytes_length (big_bytes c)). pose proof (big_bytes_length c Hcc). lia. }
  assert (H0 : zlen (encode (IUint 0)) <= 2 ^ 58 /\ wf_item (IUint 0)) by (split; by vm_compute).
  assert (Hin : forall it, it ∈ tx_items t -> zlen (encode it) <= 2 ^ 58 /\ wf_item it) by (intros it; by apply tx_item_size).
  destruct s as [| |c|c|c]; try specialize (Hbig c (Hc c eq_refl)); clear Hc;
    destruct t; cbn [signer_Hash]; unfold eip2930_Hash, eip155_Hash; cbn [txType];
    repeat match goal with |- context [?a =? ?b] => first [unify a b; change (a =? b) with true | change (a =? b) with false] end;
    cbn [negb]; unfold frontier_items; cbn [nonce gasPrice gas to value data accessList gasTipCap gasFeeCap app];
    try (by eexists); (apply hash_total; [|by vm_compute]);
    repeat (apply Forall_cons; split; [first [exact Hbig | exact H0 | apply Hin; unfold tx_items; repeat constructor]|]);
    apply Forall_nil_2.
Qed.

(** Signatures are protected against replay: a transaction signed for
    a chain with a positive identifier is refused, with an error, by every signer
    of a chain with another identifier and by the signers without one. *)
Theorem signatures_bind_the_chain sign addr s c tx tx' s2 : signs_for sign addr -> tx_ok (inner tx) ->
  signer_ChainID s = Some c -> 0 < c -> SignTx sign s tx = Ok (inl tx') ->
  signer_ChainID s2 <> Some c -> (forall c2, signer_ChainID s2 = Some c2 -> 0 <= c2 < 2 ^ 1024) ->
  exists e, Sender s2 tx' = Ok (inr e, tx') /\ (e = ErrInvalidChainId \/ e = ErrTxTypeNotSupported \/ e = ErrInvalidSig).
Proof.
  intros Hs Hok Hcs Hc E Hne Hc2. destruct (signer_Hash_total s2 _ Hok Hc2) as [h2 Eh2].
  destruct (SignTx_inv sign addr s tx tx' Hs E) as (h & R & Sg & v & V & Hv & Eh & Hrec & -> & HV & Hsup).
  rewrite <- (signer_Hash_set s2 c V R Sg) in Eh2. unfold Sender. cbn [from inner].
  rewrite Hcs in *. change (default 0 (Some c)) with c. destruct (Z.eqb_spec c 0) as [|_]; [lia|].
  destruct (protected_values c v Hc Hv) as (HP & Hch & _ & HV37).
  assert (Hcc : forall c2, signer_ChainID s2 = Some c2 -> (c =? c2) = false).
  { intros c2 H2. apply Z.eqb_neq. intros <-. by apply Hne. }
  cut (exists e, signer_Sender s2 (setSignatureValues c V R Sg (inner tx)) = Ok (inr e) /\
    (e = ErrInvalidChainId \/ e = ErrTxTypeNotSupported \/ e = ErrInvalidSig)).
  { intros (e & Ee & He). exists e. split; [|done]. rewrite Ee. done. }
  destruct (inner tx) as [n p g a vl d V0 R0 S0|c0 n p g a vl d al V0 R0 S0|c0 n tip cap g a vl d al V0 R0 S0]; cbn [setSignatureValues] in *.
  1: rewrite <- HV in HP, Hch, HV37.
  all: destruct s2 as [| |c2|c2|c2]; try (specialize (Hcc c2 eq_refl));
    unfold signer_Sender, plain_Sender, eip155_Sender, eip2930_Sender;
    cbn [txType rawSignatureValues chainID Protected]; 
    repeat match goal with |- context [?a =? ?b] => first [unify a b; change (a =? b) with true | change (a =? b) with false] end;
    cbn [negb andb]; try (rewrite HP, Hch); rewrite ?Hcc; cbn [negb andb].
  all: try (rewrite Eh2; cbn [mbind res_bind]; eexists; split; [by apply plain_refuses|]; by auto).
  all: eexists; split; [reflexivity|]; auto.
Qed.

(** With the chain identifier zero the signature of a legacy transaction is made
    over the hash with the identifier and checked against the one without. *)
Lemma chain_zero_hashes_differ `{CS : !CryptoSpec C} sign addr tx tx' : signs_for sign addr -> tx_ok (inner tx) ->
  txType (inner tx) = LegacyTxType -> SignTx sign (londonSigner 0) tx = Ok (inl tx') ->
  signer_Sender (londonSigner 0) (inner tx') = signer_Sender HomesteadSigner (inner tx') /\
  signer_Hash (londonSigner 0) (inner tx') <> signer_Hash HomesteadSigner (inner tx').
Proof.
  intros Hs Hok Ht E. destruct (SignTx_inv sign addr _ tx tx' Hs E) as (h & R & Sg & v & V & Hv & _ & _ & -> & HV & _).
  cbn [inner]. rewrite !signer_Hash_set.
  destruct (inner tx) as [n p g a vl d V0 R0 S0| |] eqn:Ei; [|done|done]. cbn in HV. split.
  - cbn [setSignatureValues signer_Sender txType]. subst V. change (LegacyTxType =? DynamicFeeTxType) with false. cbn [negb].
    unfold eip2930_Sender. cbn [rawSignatureValues txType Protected].
    assert (Hp : isProtectedV (v + 27) = false) by (destruct Hv as [-> | ->]; by vm_compute). rewrite Hp. done.
  - cbn [signer_Hash txType]. change (LegacyTxType =? DynamicFeeTxType) with false. cbn [negb]. unfold eip2930_Hash. cbn [txType].
    change (LegacyTxType =? LegacyTxType) with true. unfold eip155_Hash, rlpHash, Header.rlpHash. unfold frontier_items.
    set (l := [IUint _; _; _; _; _; _]).
    assert (Hin : Forall (fun it => zlen (encode it) <= 2 ^ 58 /\ wf_item it) l).
    { repeat (apply Forall_cons; split; [apply (tx_item_size _ _ Hok); unfold tx_items; repeat constructor|]). apply Forall_nil_2. }
    assert (Hz : Forall (fun it => zlen (encode it) <= 2 ^ 58 /\ wf_item it) (l ++ [IBig 0; IUint 0; IUint 0])).
    { apply Forall_app. split; [done|]. repeat constructor; by vm_compute. }
    destruct (Encode_bounded l Hin ltac:(done)) as (E1 & W1 & S1). destruct (Encode_bounded _ Hz ltac:(done)) as (E2 & W2 & S2). rewrite E1, E2.
    cbn [mbind res_bind]. intros Hk. apply Ok_inj in Hk. apply keccak_inj in Hk; [|by apply wf_encode | by apply wf_encode].
    apply (encode_tree_inj (IStruct _) (IStruct _)) in Hk; [|done|done|done]. apply RList_inj, (f_equal length) in Hk. by rewrite !length_map in Hk.
Qed.

(** The cache of the sender is transparent: whatever signers were used
    before, Sender returns what the signer computes from the transaction, and
    the cache stays right. *)
Theorem sender_cache_transparent s tx : (forall s0 a, from tx = Some (s0, a) -> signer_Sender s0 (inner tx) = Ok (inl a)) ->
  forall r tx', Sender s tx = Ok (r, tx') ->
  signer_Sender s (inner tx) = Ok r /\ inner tx' = inner tx /\ time tx' = time tx /\
  (forall s0 a, from tx' = Some (s0, a) -> signer_Sender s0 (inner tx') = Ok (inl a)).
Proof.
  intros Hc r tx' E. unfold Sender in E.
  assert (Heq : forall sc a, from tx = Some (sc, a) -> signer_Equal sc s = true -> signer_Sender s (inner tx) = Ok (inl a)).
  { intros sc a Ef He. rewrite <- (Hc sc a Ef). destruct sc, s; cbn in He; try done; to_prop; by subst. }
  destruct (from tx) as [[sc a]|] eqn:Ef.
  - destruct (signer_Equal sc s) eqn:Ee.
    + injection E as <- <-. split_and!; [by apply (Heq sc) | done | done | by rewrite Ef].
    + destruct (signer_Sender s (inner tx)) as [[a'|e]| |] eqn:Es; try done; injection E as <- <-; split_and!; try done;
        [intros s0 a0 [= <- <-]; done | by rewrite Ef].
  - destruct (signer_Sender s (inner tx)) as [[a'|e]| |] eqn:Es; try done; injection E as <- <-; split_and!; try done;
      [intros s0 a0 [= <- <-]; done | by rewrite Ef].
Qed.
End signing.

(** ** Keys that can be recovered *)

(** The account of a signature is its R value. *)
Definition sig_crypto : Crypto := {|
  keccak256 bs := be_value (1 :: bs);
  sha256Sum _ := replicate 32 0;
  ripemd160Sum _ := replicate 20 0;
  Ecrecover _ sig := Some (4 :: replicate 32 0 ++ take 32 sig);
|}.

Definition toy_sign (k : Z) (_ : bytes) : option bytes := Some (be_bytes 32 k ++ be_bytes 32 1 ++ [0]).

Lemma toy_signs k : 1 <= k < 2 ^ 160 -> signs_for (C := sig_crypto) (toy_sign k) k.
Proof.
  intros Hk h sig E. unfold toy_sign in E. apply (inj Some) in E as <-. exists k, 1, 0, (replicate 32 0 ++ be_bytes 32 k).
  assert (2 ^ 160 < secp256k1N) by by vm_compute. split_and!; [done | lia | lia | lia | by vm_compute | by left | |].
  - cbn [Ecrecover sig_crypto]. rewrite (take_app_length' _ _ 32) by (by rewrite length_be_bytes). done.
  - cbn [keccak256 sig_crypto]. rewrite be_value_cons, be_value_app, be_value_be_bytes, zlen_app, zlen_be_bytes.
    change (zlen (replicate 32 0) + Z.of_nat 32) with 64. change (be_value (replicate 32 0)) with 0.
    change (256 ^ Z.of_nat 32) with (2 ^ 256). change (1 * 256 ^ 64) with (2 ^ 352 * 2 ^ 160). rewrite Z.mul_0_l, Z.add_0_l.
    rewrite (Z.mod_small k (2 ^ 256)) by lia. rewrite Z.add_comm, Z.mod_add by lia. apply Z.mod_small. lia.
Qed.

Definition legacy_tx : Transaction := NewTx 0 (LegacyTx 5 20 21000 None 7 [1; 2] 0 0 0).

Definition signed_tx : Transaction :=
  match SignTx (H := sig_crypto) (toy_sign 77) (londonSigner 3) legacy_tx with Ok (inl t) => t | _ => legacy_tx end.

Lemma legacy_tx_ok : tx_ok (inner legacy_tx).
Proof.
  split; cbn [inner legacy_tx NewTx nonce gas gasTipCap gasFeeCap value data to accessList rawSignatureValues].
  1-3: unfold is_u64; lia.
  - unfold wf_bytes, is_byte. repeat constructor; lia.
  - by intros x E.
  - constructor.
  - lia.
  - done.
  - by vm_compute.
Qed.

Lemma signed_transactions_recover_witness : exists tx'',
  Sender (H := sig_crypto) (londonSigner 3) signed_tx = Ok (inl 77, tx'').
Proof.
  apply (signed_transactions_recover (C := sig_crypto) (toy_sign 77) 77 (londonSigner 3) legacy_tx signed_tx).
  - apply toy_signs. lia.
  - intros _ c E. injection E as <-. lia.
  - vm_compute. reflexivity.
Defined.

(** On a chain with another identifier, and before the London fork, the same
    transaction is refused. *)
Lemma signatures_bind_the_chain_witness : exists e,
  Sender (H := sig_crypto) HomesteadSigner signed_tx = Ok (inr e, signed_tx) /\
  (e = ErrInvalidChainId \/ e = ErrTxTypeNotSupported \/ e = ErrInvalidSig).
Proof.
  apply (signatures_bind_the_chain (C := sig_crypto) (toy_sign 77) 77 (londonSigner 3) 3 legacy_tx signed_tx).
  - apply toy_signs. lia.
  - apply legacy_tx_ok.
  - reflexivity.
  - lia.
  - vm_compute. reflexivity.
  - done.
  - done.
Defined.

Lemma tx_hash_identifies_witness :
  (exists b, EncodeIndex (inner legacy_tx) = Ok b /\ tx_Hash (H := toy_crypto) (inner legacy_tx) = Ok (keccak256 (Crypto := toy_crypto) b)) /\
  (tx_Hash (H := toy_crypto) (inner legacy_tx) = tx_Hash (H := toy_crypto) (inner legacy_tx) -> inner legacy_tx = inner legacy_tx).
Proof. apply (tx_hash_identifies (C := toy_crypto)); apply legacy_tx_ok. Defined.

Lemma sender_cache_transparent_witness :
  signer_Sender (H := sig_crypto) (londonSigner 3) (inner signed_tx) = Ok (inl 77).
Proof.
  refine (proj1 (sender_cache_transparent (C := sig_crypto) (londonSigner 3) signed_tx _ (inl 77)
    (mkTransaction (inner signed_tx) 0 (Some (londonSigner 3, 77))) _)).
  - intros s0 a E. vm_compute in E. discriminate.
  - vm_compute. reflexivity.
Defined.
