(* ===== verification/TrieEncoding.v ===== *)
(** * Key encodings of the trie ([database/trie/encoding.go])

    Keys exist as bytes, as hexadecimal nibbles with an optional terminator
    (16), and in the compact form the nodes are stored with.  The conversions
    are translated with their slice accesses; the theorem shows that they are
    inverse to each other and that the in-place conversion agrees with the
    allocating one. *)

From S2P Require Import Prelude.

Local Open Scope Z_scope.

(** ** The functions *)

Definition hasTerm (s : bytes) : bool :=
  (0 <? zlen s) && (List.last s 0 =? 16).

Definition prefixLen_len (a b : bytes) : Z :=
  if zlen b <? zlen a then zlen b else zlen a.
Fixpoint prefixLen_loop (length : nat) (a b : bytes) (i : Z) : Z :=
  match length, a, b with
  | S length, x :: a, y :: b => if x =? y then prefixLen_loop length a b (i + 1) else i
  | _, _, _ => i
  end.
Definition prefixLen (a b : bytes) : Z :=
  prefixLen_loop (Z.to_nat (prefixLen_len a b)) a b 0.

(** One byte of two nibbles: [a << 4 | b] on bytes. *)
Definition join_nibbles (a b : Z) : Z := Z.lor (u8 (Z.shiftl a 4)) b.

(** [decodeNibbles(nibbles, bytes)]: [bytes] after the loop. *)
Fixpoint decodeNibbles_loop (nibbles bs : bytes) (bi : nat) : res bytes :=
  match nibbles with
  | [] => Ok bs
  | a :: b :: r =>
    if bool_decide (bi < length bs)%nat
    then decodeNibbles_loop r (<[bi := join_nibbles a b]> bs) (S bi)
    else Panic PanicIndex
  | [_] => Panic PanicIndex
  end.
Definition decodeNibbles (nibbles bs : bytes) : res bytes := decodeNibbles_loop nibbles bs 0.

Definition keybytesToHex (str : bytes) : bytes :=
  flat_map (fun b => [b / 16; b mod 16]) str ++ [16].

Definition hexToKeybytes (hex : bytes) : res bytes :=
  let hex := if hasTerm hex then removelast hex else hex in
  if negb (Z.land (zlen hex) 1 =? 0) then Panic PanicOddKey
  else decodeNibbles hex (replicate (Z.to_nat (zlen hex / 2)) 0).

Definition hexToCompact (hex : bytes) : res bytes :=
  let '(terminator, hex) := if hasTerm hex then (1, removelast hex) else (0, hex) in
  let buf0 := u8 (Z.shiftl terminator 5) in
  let rest := replicate (Z.to_nat (zlen hex / 2)) 0 in
  if Z.land (zlen hex) 1 =? 1
  then x ← nth_or_panic hex 0;
       r ← decodeNibbles (drop 1 hex) rest;
       Ok (Z.lor (Z.lor buf0 (Z.shiftl 1 4)) x :: r)
  else r ← decodeNibbles hex rest;
       Ok (buf0 :: r).

(** The loop of [hexToCompactInPlace], in the buffer it reads from. *)
Fixpoint inPlace_loop (fuel : nat) (hexLen bi ni : Z) (hex : bytes) : res bytes :=
  match fuel with
  | O => NoFuel
  | S fuel =>
    if ni <? hexLen
    then a ← nth_or_panic hex ni;
         b ← nth_or_panic hex (ni + 1);
         if bool_decide (bi < zlen hex)
         then inPlace_loop fuel hexLen (bi + 1) (ni + 2) (<[Z.to_nat bi := join_nibbles a b]> hex)
         else Panic PanicIndex
    else Ok hex
  end.

(** The length of the compact key and the buffer that holds it. *)
Definition hexToCompactInPlace (hex : bytes) : res (Z * bytes) :=
  let hexLen := zlen hex in
  let '(firstByte, hexLen) :=
    if hasTerm hex then (Z.shiftl 1 5, hexLen - 1) else (0, hexLen) in
  let binLen := hexLen / 2 + 1 in
  '(firstByte, ni) ←
    (if Z.land hexLen 1 =? 1
     then x ← nth_or_panic hex 0; Ok (Z.lor (Z.lor firstByte (Z.shiftl 1 4)) x, 1)
     else Ok (firstByte, 0));
  hex ← inPlace_loop (S (length hex)) hexLen 1 ni hex;
  if bool_decide (0 < zlen hex)
  then Ok (binLen, <[0%nat := firstByte]> hex)
  else Panic PanicIndex.

Definition compactToHex (compact : bytes) : res bytes :=
  if zlen compact =? 0 then Ok compact
  else
    let base := keybytesToHex compact in
    b0 ← nth_or_panic base 0;
    base ← (if b0 <? 2 then slice base 0 (zlen base - 1) else Ok base);
    b0 ← nth_or_panic base 0;
    let chop := 2 - Z.land b0 1 in
    slice base chop (zlen base).

(** ** Reference definitions and lemmas *)

Definition is_nibble (x : Z) : Prop := 0 <= x < 16.
Definition nibbles (s : bytes) : Prop := Forall is_nibble s.

(** A hex key: nibbles, with the terminator or without. *)
Definition with_term (t : bool) (ns : bytes) : bytes := if t then ns ++ [16] else ns.

(** Nibbles two by two; a last single one is dropped. *)
Fixpoint pack (ns : bytes) : bytes :=
  match ns with a :: b :: r => 16 * a + b :: pack r | _ => [] end.

(** The compact form, as the Yellow Paper's hex-prefix encoding. *)
Definition compact (t : bool) (ns : bytes) : bytes :=
  let f := if t then 2 else 0 in
  if Z.odd (zlen ns)
  then 16 * (f + 1) + hd 0 ns :: pack (tl ns)
  else 16 * f :: pack ns.

Lemma pair_ind (P : bytes -> Prop) :
  P [] -> (forall a, P [a]) -> (forall a b r, P r -> P (a :: b :: r)) -> forall l, P l.
Proof.
  intros H0 H1 H2. fix IH 1. intros [|a [|b r]]; [exact H0 | exact (H1 a) | exact (H2 a b r (IH r))].
Qed.

Lemma join_nibbles_spec a b : is_nibble a -> is_nibble b -> join_nibbles a b = 16 * a + b.
Proof.
  intros Ha Hb. unfold join_nibbles, u8. rewrite Z.shiftl_mul_pow2 by lia. change (2 ^ 4) with 16.
  unfold is_nibble in *. rewrite Z.mod_small by lia.
  rewrite <- Z.lxor_lor, <- Z.add_nocarry_lxor; [lia | |];
  (apply Z.bits_inj'; intros n Hn; rewrite Z.land_spec, Z.bits_0;
   destruct (Z.lt_ge_cases n 4);
   [ change 16 with (2 ^ 4); rewrite Z.mul_pow2_bits_low by lia; done
   | rewrite (Z.bits_above_log2 b n), andb_false_r; [done | lia |];
     destruct (Z.eq_dec b 0) as [->|]; [cbn; lia|];
     apply Z.log2_lt_pow2; [lia|]; apply Z.lt_le_trans with (2 ^ 4); [lia|];
     apply Z.pow_le_mono_r; lia ]).
Qed.

Lemma length_pack_even ns : Z.odd (zlen ns) = false -> 2 * zlen (pack ns) = zlen ns.
Proof.
  induction ns as [|a|a b r IH] using pair_ind; cbn [pack]; [done | done |].
  rewrite !zlen_cons. intros H. rewrite <- IH; [lia|].
  rewrite Z.add_assoc, Z.odd_add in H. cbn in H. by destruct (Z.odd (zlen r)).
Qed.

Lemma odd_cons2 {A} (a b : A) r : Z.odd (zlen (a :: b :: r)) = Z.odd (zlen r).
Proof. rewrite !zlen_cons, Z.add_assoc, Z.odd_add. cbn. by destruct (Z.odd (zlen r)). Qed.

Lemma land1_odd n : Z.land n 1 = if Z.odd n then 1 else 0.
Proof. change 1 with (Z.ones 1) at 1. rewrite Z.land_ones by lia. apply Zmod_odd. Qed.

Lemma decodeNibbles_loop_spec ns bs bi : nibbles ns -> Z.odd (zlen ns) = false ->
  Z.of_nat bi + zlen (pack ns) = zlen bs ->
  decodeNibbles_loop ns bs bi = Ok (take bi bs ++ pack ns).
Proof.
  revert bs bi. induction ns as [|a|a b r IH] using pair_ind; intros bs bi Hn Ho Hl; cbn [pack decodeNibbles_loop] in *.
  - rewrite app_nil_r, take_ge; [done|]. unfold zlen in *. cbn in Hl. lia.
  - done.
  - rewrite odd_cons2 in Ho. apply Forall_cons in Hn as [Ha [Hb Hr]%Forall_cons].
    rewrite zlen_cons in Hl. pose proof (zlen_nonneg (pack r)).
    rewrite bool_decide_true by (unfold zlen in *; lia).
    rewrite IH; [|done|done|unfold zlen in *; rewrite length_insert; lia].
    rewrite join_nibbles_spec by done. f_equal.
    rewrite (take_S_r _ _ (16 * a + b)).
    + rewrite take_insert_ge by lia. by rewrite <- app_assoc.
    + apply list_lookup_insert_eq. unfold zlen in *; lia.
Qed.

Lemma decodeNibbles_spec ns : nibbles ns -> Z.odd (zlen ns) = false ->
  decodeNibbles ns (replicate (Z.to_nat (zlen ns / 2)) 0) = Ok (pack ns).
Proof.
  intros Hn Ho. unfold decodeNibbles. rewrite decodeNibbles_loop_spec; [done | done | done |].
  pose proof (length_pack_even ns Ho). pose proof (zlen_nonneg (pack ns)).
  rewrite zlen_replicate by dlia. change (Z.of_nat 0) with 0. dlia.
Qed.

Lemma hasTerm_with_term t ns : nibbles ns ->
  hasTerm (with_term t ns) = t /\ (if t then removelast (with_term t ns) else with_term t ns) = ns.
Proof.
  intros Hn. unfold hasTerm, with_term. destruct t.
  - rewrite zlen_app, last_last, removelast_last. pose proof (zlen_nonneg ns). cbn.
    split; [|done]. replace (0 <? zlen ns + zlen [16]) with true; [done|].
    symmetry. apply Z.ltb_lt. unfold zlen at 2. cbn. lia.
  - split; [|done]. destruct ns as [|x r] using rev_ind; [done|].
    rewrite last_last. apply Forall_app in Hn as [_ [Hx _]%Forall_cons]. unfold is_nibble in Hx.
    replace (x =? 16) with false by lia. apply andb_false_r.
Qed.

Lemma first_byte (t : bool) x : is_nibble x ->
  Z.lor (Z.lor (u8 (Z.shiftl (if t then 1 else 0) 5)) (Z.shiftl 1 4)) x = 16 * ((if t then 2 else 0) + 1) + x.
Proof.
  intros Hx. assert (Hj : forall f, f = 1 \/ f = 3 -> Z.lor (16 * f) x = 16 * f + x).
  { intros f Hf. rewrite <- join_nibbles_spec by (unfold is_nibble in *; lia).
    unfold join_nibbles, u8. rewrite Z.shiftl_mul_pow2 by lia. change (2 ^ 4) with 16.
    rewrite Z.mod_small by lia. f_equal. lia. }
  destruct t; [apply (Hj 3) | apply (Hj 1)]; lia.
Qed.

Lemma hexToCompact_spec t ns : nibbles ns -> hexToCompact (with_term t ns) = Ok (compact t ns).
Proof.
  intros Hn. destruct (hasTerm_with_term t ns Hn) as [Ht Hr]. unfold hexToCompact. rewrite Ht.
  replace (if t then (1, removelast (with_term t ns)) else (0, with_term t ns))
    with (if t then 1 else 0, ns) by (destruct t; by rewrite Hr).
  rewrite land1_odd. unfold compact. destruct (Z.odd (zlen ns)) eqn:Ho; cbn [Z.eqb].
  - destruct ns as [|x r]; [done|]. apply Forall_cons in Hn as [Hx Hn].
    assert (Hor : Z.odd (zlen r) = false).
    { rewrite zlen_cons, Z.odd_add in Ho. by destruct (Z.odd (zlen r)). }
    rewrite zlen_cons. pose proof (Zmod_odd (zlen r)) as Hm. rewrite Hor in Hm.
    replace ((1 + zlen r) / 2) with (zlen r / 2) by dlia.
    change (drop 1 (x :: r)) with r. rewrite decodeNibbles_spec by done.
    cbn [nth_or_panic or_panic mbind res_bind hd tl]. rewrite <- first_byte by done. by destruct t.
  - rewrite decodeNibbles_spec by done. cbn [mbind res_bind Z.eqb]. by destruct t.
Qed.

(** The nibbles of a byte. *)
Lemma byte_nibbles a b : is_nibble a -> is_nibble b -> (16 * a + b) / 16 = a /\ (16 * a + b) mod 16 = b.
Proof. unfold is_nibble. intros. split; dlia. Qed.

Definition unpack (bs : bytes) : bytes := flat_map (fun b => [b / 16; b mod 16]) bs.

Lemma unpack_pack ns : nibbles ns -> Z.odd (zlen ns) = false -> unpack (pack ns) = ns.
Proof.
  induction ns as [|a|a b r IH] using pair_ind; intros Hn Ho; [done | done |].
  rewrite odd_cons2 in Ho. apply Forall_cons in Hn as [Ha [Hb Hr]%Forall_cons].
  cbn [pack]. unfold unpack. cbn [flat_map app]. fold (unpack (pack r)).
  destruct (byte_nibbles a b Ha Hb) as [-> ->]. by rewrite IH.
Qed.

Lemma pack_unpack bs : pack (unpack bs) = bs.
Proof.
  induction bs as [|b r IH]; [done|]. unfold unpack. cbn [flat_map app pack]. fold (unpack r).
  rewrite IH. f_equal. dlia.
Qed.

Lemma nibbles_unpack bs : wf_bytes bs -> nibbles (unpack bs).
Proof.
  induction 1 as [|b r Hb _ IH]; [constructor|]. unfold is_byte in Hb.
  unfold unpack. cbn [flat_map app]. constructor; [unfold is_nibble; dlia|].
  constructor; [unfold is_nibble; dlia|exact IH].
Qed.

Lemma zlen_unpack bs : zlen (unpack bs) = 2 * zlen bs.
Proof.
  induction bs as [|b r IH]; [done|]. unfold unpack. cbn [flat_map app]. fold (unpack r).
  rewrite !zlen_cons, IH. lia.
Qed.

Lemma odd_unpack bs : Z.odd (zlen (unpack bs)) = false.
Proof. rewrite zlen_unpack, Z.odd_mul. done. Qed.

Lemma wf_pack ns : nibbles ns -> wf_bytes (pack ns).
Proof.
  induction ns as [|a|a b r IH] using pair_ind; intros Hn; [constructor | constructor |].
  apply Forall_cons in Hn as [Ha [Hb Hr]%Forall_cons]. cbn [pack].
  constructor; [|by apply IH]. unfold is_byte, is_nibble in *. lia.
Qed.

Lemma wf_compact t ns : nibbles ns -> wf_bytes (compact t ns).
Proof.
  intros Hn. unfold compact. destruct (Z.odd _).
  - destruct ns as [|x r]; cbn [hd tl].
    + constructor; [|constructor]. unfold is_byte. destruct t; lia.
    + apply Forall_cons in Hn as [Hx Hn]. constructor; [|by apply wf_pack].
      unfold is_byte, is_nibble in *. destruct t; lia.
  - constructor; [|by apply wf_pack]. unfold is_byte. destruct t; lia.
Qed.

Lemma zlen_compact t ns : zlen (compact t ns) = zlen ns / 2 + 1.
Proof.
  unfold compact. pose proof (Zmod_odd (zlen ns)) as Hm. destruct (Z.odd _) eqn:Ho.
  - destruct ns as [|x r]; [done|]. cbn [tl]. rewrite !zlen_cons in *.
    assert (Hor : Z.odd (zlen r) = false).
    { rewrite Z.odd_add in Ho. by destruct (Z.odd (zlen r)). }
    pose proof (length_pack_even r Hor). dlia.
  - pose proof (length_pack_even ns Ho). rewrite zlen_cons. dlia.
Qed.

Lemma slice_all {A} (l : list A) n : 0 <= n <= zlen l -> slice l n (zlen l) = Ok (drop (Z.to_nat n) l).
Proof.
  intros Hn. unfold slice. rewrite bool_decide_true by lia. f_equal. apply take_ge.
  rewrite length_drop. unfold zlen in *. lia.
Qed.

Lemma slice_init {A} (l : list A) (x : A) : slice (l ++ [x]) 0 (zlen (l ++ [x]) - 1) = Ok l.
Proof.
  unfold slice. rewrite zlen_app. change (zlen [x]) with 1. pose proof (zlen_nonneg l).
  rewrite bool_decide_true by lia. f_equal. change (Z.to_nat 0) with 0%nat. cbn [drop].
  replace (zlen l + 1 - 1 - 0) with (zlen l) by lia. unfold zlen. rewrite Nat2Z.id.
  by rewrite drop_0, take_app_length.
Qed.

(** [compactToHex] on a first byte with the high nibble [f] and the low one [x]. *)
Lemma compactToHex_split f x bs : 0 <= f < 4 -> is_nibble x ->
  compactToHex (16 * f + x :: bs) =
  Ok (with_term (2 <=? f) ((if Z.odd f then [x] else []) ++ unpack bs)).
Proof.
  intros Hf Hx. unfold compactToHex.
  replace (zlen (16 * f + x :: bs) =? 0) with false
    by (symmetry; apply Z.eqb_neq; rewrite zlen_cons; pose proof (zlen_nonneg bs); lia).
  unfold keybytesToHex. cbn [flat_map app]. fold (unpack bs).
  destruct (byte_nibbles f x ltac:(unfold is_nibble; lia) Hx) as [-> ->].
  set (u := unpack bs). cbn [nth_or_panic or_panic mbind res_bind bool_decide].
  change (nth_or_panic (f :: x :: u ++ [16]) 0) with (Ok f). cbn [mbind res_bind].
  destruct (f <? 2) eqn:E; to_prop.
  - change (f :: x :: u ++ [16]) with ((f :: x :: u) ++ [16]). rewrite slice_init.
    cbn [mbind res_bind]. change (nth_or_panic (f :: x :: u) 0) with (Ok f). cbn [mbind res_bind].
    rewrite land1_odd, slice_all.
    + replace (2 <=? f) with false by lia. by destruct (Z.odd f).
    + rewrite !zlen_cons. pose proof (zlen_nonneg u). destruct (Z.odd f); lia.
  - cbn [mbind res_bind]. change (nth_or_panic (f :: x :: u ++ [16]) 0) with (Ok f). cbn [mbind res_bind].
    rewrite land1_odd, slice_all.
    + replace (2 <=? f) with true by lia. by destruct (Z.odd f).
    + rewrite !zlen_cons. pose proof (zlen_nonneg (u ++ [16])). destruct (Z.odd f); lia.
Qed.

Lemma compactToHex_compact t ns : nibbles ns -> compactToHex (compact t ns) = Ok (with_term t ns).
Proof.
  intros Hn. unfold compact. destruct (Z.odd (zlen ns)) eqn:Ho.
  - destruct ns as [|x r]; [done|]. apply Forall_cons in Hn as [Hx Hn]. cbn [hd tl].
    rewrite compactToHex_split by (done || destruct t; lia).
    rewrite unpack_pack; [|done|].
    + by destruct t.
    + rewrite zlen_cons, Z.odd_add in Ho. by destruct (Z.odd (zlen r)).
  - replace (16 * (if t then 2 else 0)) with (16 * (if t then 2 else 0) + 0) by lia.
    rewrite compactToHex_split, unpack_pack by (done || unfold is_nibble; destruct t; lia).
    by destruct t.
Qed.

(** ** The conversion in place *)

Lemma nth_or_panic_mid {A} (a : list A) x r i : i = zlen a -> nth_or_panic (a ++ x :: r) i = Ok x.
Proof.
  intros ->. unfold nth_or_panic. rewrite bool_decide_true by apply zlen_nonneg.
  unfold zlen. rewrite Nat2Z.id, list_lookup_middle by done. done.
Qed.

Lemma inPlace_loop_spec ns a c fuel bi : nibbles ns -> Z.odd (zlen ns) = false ->
  (length ns < fuel)%nat -> (bi <= length a + 1)%nat ->
  exists hex', inPlace_loop fuel (zlen a + zlen ns) (Z.of_nat bi) (zlen a) (a ++ ns ++ c) = Ok hex' /\
    length hex' = length (a ++ ns ++ c) /\
    (ns <> [] -> take (bi + length (pack ns)) hex' = take bi (a ++ ns ++ c) ++ pack ns) /\
    (ns = [] -> hex' = a ++ c).
Proof.
  revert a c fuel bi. induction ns as [|x|x y r IH] using pair_ind; intros a c fuel bi Hn Ho Hf Hb.
  - destruct fuel as [|fuel]; [cbn in Hf; lia|]. cbn [inPlace_loop].
    replace (zlen a <? zlen a + zlen (@nil Z)) with false by (symmetry; rewrite zlen_nil; lia).
    by eexists.
  - done.
  - rewrite odd_cons2 in Ho. apply Forall_cons in Hn as [Hx [Hy Hr]%Forall_cons].
    destruct fuel as [|fuel]; [cbn in Hf; lia|]. cbn [length] in Hf. cbn [inPlace_loop].
    pose proof (zlen_nonneg r). rewrite !zlen_cons.
    replace (zlen a <? zlen a + (1 + (1 + zlen r))) with true by (symmetry; apply Z.ltb_lt; lia).
    cbn [app]. rewrite (nth_or_panic_mid a x _ (zlen a)) by done. cbn [mbind res_bind].
    replace (a ++ x :: y :: r ++ c) with ((a ++ [x; y]) ++ r ++ c) by (by rewrite <- app_assoc).
    replace (nth_or_panic ((a ++ [x; y]) ++ r ++ c) (zlen a + 1)) with (Ok y).
    2: { replace ((a ++ [x; y]) ++ r ++ c) with ((a ++ [x]) ++ y :: r ++ c) by (by rewrite <- !app_assoc).
         rewrite nth_or_panic_mid; [done|]. by rewrite zlen_app. }
    assert (Hl : (bi < length (a ++ [x; y]))%nat) by (rewrite length_app; cbn; lia).
    cbn [mbind res_bind]. rewrite bool_decide_true by (unfold zlen; rewrite (length_app (a ++ [x; y])); lia).
    rewrite Nat2Z.id, join_nibbles_spec, insert_app_l by done.
    set (v := 16 * x + y). set (a' := <[bi := v]> (a ++ [x; y])).
    assert (Ha' : zlen a' = zlen a + 2) by (unfold zlen, a'; rewrite length_insert, length_app; cbn; lia).
    destruct (IH a' c fuel (S bi)) as (hex' & E & Hlen & Ht & He); [done | done | lia | unfold zlen in Ha'; lia |].
    replace (Z.of_nat bi + 1) with (Z.of_nat (S bi)) by lia.
    replace (zlen a + 2) with (zlen a') by done.
    replace (zlen a + (1 + (1 + zlen r))) with (zlen a' + zlen r) by lia.
    assert (Hal : length a' = length (a ++ [x; y])) by apply length_insert.
    exists hex'. split; [exact E|]. split; [rewrite Hlen, !length_app; rewrite length_app in Hal; lia|].
    split; [intros _|done].
    assert (Hta : forall l, take (S bi) (a' ++ l) = take bi ((a ++ [x; y]) ++ l) ++ [v]).
    { intros l. rewrite !take_app_le by lia. unfold a'.
      rewrite (take_S_r _ _ v), take_insert_ge by (apply list_lookup_insert_eq || lia; done). done. }
    cbn [pack length]. fold v. rewrite <- Nat.add_succ_comm. destruct r as [|z r'].
    + rewrite He by done. cbn [app pack length]. rewrite Nat.add_0_r. apply Hta.
    + rewrite Ht by done. rewrite Hta, <- app_assoc. done.
Qed.

Lemma hexToCompactInPlace_spec t ns : nibbles ns -> with_term t ns <> [] ->
  exists buf, hexToCompactInPlace (with_term t ns) = Ok (zlen (compact t ns), buf) /\
    take (length (compact t ns)) buf = compact t ns.
Proof.
  intros Hn Hne. destruct (hasTerm_with_term t ns Hn) as [Ht _].
  unfold hexToCompactInPlace. rewrite Ht.
  set (c := if t then [16] else []).
  assert (Hw : with_term t ns = ns ++ c) by (destruct t; [done | symmetry; apply app_nil_r]).
  replace (if t then (Z.shiftl 1 5, zlen (with_term t ns) - 1) else (0, zlen (with_term t ns)))
    with (if t then 32 else 0, zlen ns)
    by (destruct t; cbn [with_term]; [rewrite zlen_app; f_equal; unfold zlen; cbn [length]; lia | done]).
  rewrite land1_odd, zlen_compact, Hw. unfold compact at 1 2. destruct (Z.odd (zlen ns)) eqn:Ho; cbn [Z.eqb Pos.eqb].
  - destruct ns as [|x r]; [done|]. apply Forall_cons in Hn as [Hx Hr].
    change (nth_or_panic ((x :: r) ++ c) 0) with (Ok x). cbn [mbind res_bind].
    assert (Hor : Z.odd (zlen r) = false) by (rewrite zlen_cons, Z.odd_add in Ho; by destruct (Z.odd (zlen r))).
    destruct (inPlace_loop_spec r [x] c (S (length ((x :: r) ++ c))) 1) as (hex' & E & Hl & Hta & He);
      [done | done | cbn [app length]; rewrite length_app; lia | cbn; lia |].
    change ((x :: r) ++ c) with ([x] ++ r ++ c) in *. change (zlen (x :: r)) with (zlen ([x] ++ r)).
    rewrite zlen_app. change (zlen [x]) with 1 in *. change (Z.of_nat 1) with 1 in E. rewrite E. cbn [mbind res_bind]. cbn [app length] in Hl.
    rewrite bool_decide_true by (unfold zlen; lia).
    eexists. split; [reflexivity|]. cbn [hd tl length].
    destruct hex' as [|h0 hex']; [done|]. change (<[0%nat := ?f]> (h0 :: hex')) with (f :: hex').
    cbn [take]. f_equal; [destruct t; [apply (first_byte true) | apply (first_byte false)]; done|].
    destruct r as [|z r'].
    + cbn [pack length]. apply take_0.
    + specialize (Hta ltac:(done)). cbn [app take Nat.add] in Hta. by injection Hta.
  - cbn [mbind res_bind].
    destruct (inPlace_loop_spec ns [] c (S (length (ns ++ c))) 1) as (hex' & E & Hl & Hta & He);
      [done | done | rewrite length_app; lia | cbn; lia |].
    change ([] ++ ns ++ c) with (ns ++ c) in *. change (zlen (@nil Z)) with 0 in E.
    change (0 + zlen ns) with (zlen ns) in E. change (Z.of_nat 1) with 1 in E.
    rewrite E. cbn [mbind res_bind].
    assert (Hpos : (0 < length (ns ++ c))%nat) by (rewrite <- Hw; destruct (with_term t ns); [done | cbn; lia]).
    rewrite bool_decide_true by (unfold zlen; lia).
    eexists. split; [reflexivity|]. cbn [length].
    destruct hex' as [|h0 hex']; [cbn in Hl; lia|]. change (<[0%nat := ?f]> (h0 :: hex')) with (f :: hex').
    cbn [take]. f_equal; [by destruct t|].
    destruct ns as [|z r'].
    + cbn [pack length]. apply take_0.
    + specialize (Hta ltac:(done)). cbn [app take Nat.add] in Hta. by injection Hta.
Qed.

(** ** Hex keys of byte keys *)

Lemma keybytesToHex_unpack key : keybytesToHex key = with_term true (unpack key).
Proof. done. Qed.

Lemma hexToKeybytes_spec t ns : nibbles ns ->
  hexToKeybytes (with_term t ns) = if Z.odd (zlen ns) then Panic PanicOddKey else Ok (pack ns).
Proof.
  intros Hn. destruct (hasTerm_with_term t ns Hn) as [Ht Hr]. unfold hexToKeybytes.
  rewrite Ht, Hr, land1_odd. destruct (Z.odd (zlen ns)) eqn:Ho; [done|].
  by apply decodeNibbles_spec.
Qed.

Lemma unpack_inj a b : unpack a = unpack b -> a = b.
Proof. intros H. by rewrite <- (pack_unpack a), H, pack_unpack. Qed.

Lemma keybytesToHex_inj a b : keybytesToHex a = keybytesToHex b -> a = b.
Proof. unfold keybytesToHex. intros [H _]%app_inj_tail. by apply unpack_inj. Qed.

(** [prefixLen] splits two keys after their longest common prefix. *)
Lemma prefixLen_loop_spec n a b i : (Nat.min (length a) (length b) <= n)%nat ->
  exists p a' b', a = p ++ a' /\ b = p ++ b' /\ prefixLen_loop n a b i = i + zlen p /\
    (a' = [] \/ b' = [] \/ hd 0 a' <> hd 0 b').
Proof.
  revert a b i. induction n as [|n IH]; intros [|x a] [|y b] i Hl;
    try (eexists [], _, _; split_and!; [done | done | cbn; unfold zlen; cbn; lia | by eauto]).
  - cbn in Hl; lia.
  - cbn [prefixLen_loop]. destruct (x =? y) eqn:E; to_prop.
    + subst y. destruct (IH a b (i + 1)) as (p & a' & b' & -> & -> & -> & Hd); [cbn in Hl; lia|].
      exists (x :: p), a', b'. rewrite zlen_cons. split_and!; [done | done | lia | done].
    + eexists [], _, _. split_and!; [done | done | unfold zlen; cbn; lia | by eauto].
Qed.

Lemma prefixLen_spec a b : exists p a' b', a = p ++ a' /\ b = p ++ b' /\ prefixLen a b = zlen p /\
  (a' = [] \/ b' = [] \/ hd 0 a' <> hd 0 b').
Proof.
  apply prefixLen_loop_spec. unfold prefixLen_len. zcase; unfold zlen in *; lia.
Qed.

(** The key encodings of the trie are inverse to each other: a
    byte key comes back from its hex form; a hex key with or without terminator,
    of even or odd length, comes back from its compact form; the in-place
    conversion writes exactly the compact form at the front of its buffer; a hex
    key of odd length cannot become bytes, and the in-place conversion needs a
    byte of room. *)
Theorem trie_keys_roundtrip :
  (forall key, wf_bytes key -> hexToKeybytes (keybytesToHex key) = Ok key) /\
  (forall t ns, nibbles ns -> exists c,
     hexToCompact (with_term t ns) = Ok c /\ wf_bytes c /\ compactToHex c = Ok (with_term t ns) /\
     (with_term t ns <> [] -> exists buf,
        hexToCompactInPlace (with_term t ns) = Ok (zlen c, buf) /\ take (length c) buf = c)) /\
  (forall t ns, nibbles ns -> Z.odd (zlen ns) = true ->
     hexToKeybytes (with_term t ns) = Panic PanicOddKey) /\
  hexToCompactInPlace [] = Panic PanicIndex.
Proof.
  split_and!.
  - intros key Hk. rewrite keybytesToHex_unpack, hexToKeybytes_spec by by apply nibbles_unpack.
    by rewrite odd_unpack, pack_unpack.
  - intros t ns Hn. exists (compact t ns).
    split_and!; [by apply hexToCompact_spec | by apply wf_compact | by apply compactToHex_compact |].
    intros Hne. by apply hexToCompactInPlace_spec.
  - intros t ns Hn Ho. by rewrite hexToKeybytes_spec, Ho.
  - done.
Qed.

Lemma trie_keys_roundtrip_witness :
  hexToKeybytes (keybytesToHex [18; 52]) = Ok [18; 52] /\
  exists c, hexToCompact [1; 2; 3; 16] = Ok c /\ compactToHex c = Ok [1; 2; 3; 16] /\ c = [49; 35].
Proof.
  destruct trie_keys_roundtrip as (H1 & H2 & _). split.
  - apply H1. repeat constructor; lia.
  - destruct (H2 true [1; 2; 3]) as (c & Hc & _ & Hh & _); [repeat constructor; lia|].
    exists c. split; [exact Hc|]. split; [exact Hh|].
    change (hexToCompact (with_term true [1; 2; 3])) with (@Ok bytes [49; 35]) in Hc. by injection Hc.
Defined.
