(* ===== verification/Trie.v ===== *)
(** * The Merkle Patricia trie ([database/trie]: [node.go], [node_enc.go],
    [hasher.go], [trie.go])

    Nodes carry the flags of the code (cached hash and dirty bit), and a subtrie
    may be only a hash that is loaded on demand.  What the trie needs of the
    node database is the interface [NodeReader].  The tracer is always nil in the
    code and is left out; goroutines of the hasher write disjoint children and
    are one sequence here.  Recursion that can pass through the database takes
    fuel. *)

From S2P Require Import Prelude Common TrieEncoding Rlp EvmState.

Local Open Scope Z_scope.

(** ** Nodes *)

(** [hash] is nil when there is no cached hash. *)
Record nodeFlag := mkFlag { fhash : option bytes; fdirty : bool }.

Inductive node :=
| NilNode
| ValueNode (v : bytes)
| HashNode (h : bytes)
| ShortNode (Key : bytes) (Val : node) (flags : nodeFlag)
| FullNode (Children : list node) (flags : nodeFlag)
| RawNode (b : bytes)
| RawShortNode (Key : bytes) (Val : node)
| RawFullNode (Children : list node).

(** [n.cache()]: the raw nodes panic, a nil interface cannot be called. *)
Definition cache (n : node) : res (option bytes * bool) :=
  match n with
  | FullNode _ fl | ShortNode _ _ fl => Ok (fhash fl, fdirty fl)
  | HashNode _ | ValueNode _ => Ok (None, true)
  | RawNode _ | RawShortNode _ _ | RawFullNode _ => Panic PanicNode
  | NilNode => Panic PanicNil
  end.

Definition is_nil (n : node) : bool := match n with NilNode => true | _ => false end.

(** [BytesToHash]: cropped from the left; a shorter string is padded with zeroes
    on the left, which does not change the number it spells. *)
Definition BytesToHash (b : bytes) : Hash := be_value (drop (length b - 32) b).

(** [n.Children[i] = c] *)
Definition set_child (cs : list node) (i : Z) (c : node) : res (list node) :=
  if bool_decide (0 <= i < zlen cs) then Ok (<[Z.to_nat i := c]> cs) else Panic PanicIndex.

(** ** Encoding *)

(** [n.encode(w)]; the value of a short node and the children of a full node
    that are nil are written as the empty string. *)
Fixpoint node_encode (n : node) (w : encBuffer) : res encBuffer :=
  match n with
  | FullNode cs _ | RawFullNode cs =>
    let '(offset, w) := Enc.list w in
    w ← (fix go (cs : list node) (w : encBuffer) : res encBuffer :=
           match cs with
           | [] => Ok w
           | c :: r => w ← (if is_nil c then Ok (Enc.append w [128]) else node_encode c w); go r w
           end) cs w;
    Enc.listEnd offset w
  | ShortNode k val _ | RawShortNode k val =>
    let '(offset, w) := Enc.list w in
    let w := Enc.writeBytes k w in
    w ← (if is_nil val then Ok (Enc.append w [128]) else node_encode val w);
    Enc.listEnd offset w
  | HashNode h => Ok (Enc.writeBytes h w)
  | ValueNode v => Ok (Enc.writeBytes v w)
  | RawNode b => Ok (Enc.append w b)
  | NilNode => Panic PanicNil
  end.

Definition nodeToBytes (n : node) : res bytes :=
  w ← node_encode n Enc.reset; Enc.makeBytes w.

(** ** Decoding *)

(** The errors of the decoder; the path [wrapError] adds is only for messages. *)
Inductive DecodeErr :=
| DecEOF
| DecRlp (e : RlpErr)
| DecElements (c : Z)
| DecOversized (size : Z)
| DecRefSize (size : Z).

(** [v, err := f(); if err != nil { return err }; ...] *)
Definition try_rlp {A B} (m : res (A + RlpErr)) (k : A -> res (B + DecodeErr)) : res (B + DecodeErr) :=
  r ← m; match r with inl a => k a | inr e => Ok (inr (DecRlp e)) end.
Definition try {E A B} (m : res (A + E)) (k : A -> res (B + E)) : res (B + E) :=
  r ← m; match r with inl a => k a | inr e => Ok (inr e) end.

Notation "' p '←?' m ; k" := (try m (fun x => let p := x in k))
  (at level 20, p pattern, m at level 100, k at level 200).
Notation "x '←?' m ; k" := (try m (fun x => k))
  (at level 20, m at level 100, k at level 200).

(** [rlp.Split] and the cases of [decodeRef]; [decodeNode] is its argument. *)
Definition decodeRef_with (decodeNode : option bytes -> bytes -> res (node + DecodeErr))
    (buf : bytes) : res (node * bytes + DecodeErr) :=
  try_rlp (Split buf) (fun '(kind, val, rest) =>
    match kind with
    | List =>
      let size := zlen buf - zlen rest in
      if size >? 32 then Ok (inr (DecOversized size))
      else n ←? decodeNode None buf; Ok (inl (n, rest))
    | String =>
      if zlen val =? 0 then Ok (inl (NilNode, rest))
      else if zlen val =? 32 then Ok (inl (HashNode val, rest))
      else Ok (inr (DecRefSize (zlen val)))
    | Byte => Ok (inr (DecRefSize (zlen val)))
    end).

Definition decodeShort_with decodeNode (hash : option bytes) (elems : bytes) : res (node + DecodeErr) :=
  try_rlp (SplitString elems) (fun '(kbuf, rest) =>
    let flag := mkFlag hash false in
    key ← compactToHex kbuf;
    if hasTerm key
    then try_rlp (SplitString rest) (fun '(val, _) => Ok (inl (ShortNode key (ValueNode val) flag)))
    else '(r, _) ←? decodeRef_with decodeNode rest; Ok (inl (ShortNode key r flag))).

Fixpoint decodeRefs_with decodeNode (k : nat) (elems : bytes) : res (list node * bytes + DecodeErr) :=
  match k with
  | O => Ok (inl ([], elems))
  | S k => '(cld, rest) ←? decodeRef_with decodeNode elems;
           '(cs, rest) ←? decodeRefs_with decodeNode k rest; Ok (inl (cld :: cs, rest))
  end.

Definition decodeFull_with decodeNode (hash : option bytes) (elems : bytes) : res (node + DecodeErr) :=
  '(cs, elems) ←? decodeRefs_with decodeNode 16 elems;
  try_rlp (SplitString elems) (fun '(val, _) =>
    Ok (inl (FullNode (cs ++ [if zlen val >? 0 then ValueNode val else NilNode]) (mkFlag hash false)))).

(** An embedded node lies strictly inside the list it is an element of, so that
    the length of the buffer bounds the recursion. *)
Fixpoint decodeNode_fuel (fuel : nat) (hash : option bytes) (buf : bytes) : res (node + DecodeErr) :=
  match fuel with
  | O => NoFuel
  | S fuel =>
    if zlen buf =? 0 then Ok (inr DecEOF)
    else try_rlp (SplitList buf) (fun '(elems, _) =>
      c ← CountValues elems;
      let c := match c with inl c => c | inr _ => 0 end in
      if c =? 2 then decodeShort_with (decodeNode_fuel fuel) hash elems
      else if c =? 17 then decodeFull_with (decodeNode_fuel fuel) hash elems
      else Ok (inr (DecElements c)))
  end.
Definition decodeNode (hash : option bytes) (buf : bytes) : res (node + DecodeErr) :=
  decodeNode_fuel (S (length buf)) hash buf.

Definition mustDecodeNode (hash : option bytes) (buf : bytes) : res node :=
  r ← decodeNode hash buf; match r with inl n => Ok n | inr _ => Panic PanicNode end.

(** ** Hashing *)

Section hasher.
Context `{Crypto}.

Definition hashData (data : bytes) : bytes := be_bytes 32 (keccak256 data).

(** [shortnodeToHash] and [fullnodeToHash], which have the same body. *)
Definition nodeToHash (n : node) (force : bool) : res node :=
  enc ← nodeToBytes n;
  if (zlen enc <? 32) && negb force then Ok n else Ok (HashNode (hashData enc)).

(** [hashShortNodeChildren]: the collapsed and the cached copy. *)
Definition hashShortNodeChildren_with (hash : node -> bool -> res (node * node))
    (k : bytes) (val : node) (fl : nodeFlag) : res (node * node) :=
  ck ← hexToCompact k;
  '(v1, v2) ← match val with
              | FullNode _ _ | ShortNode _ _ _ => hash val false
              | _ => Ok (val, val)
              end;
  Ok (ShortNode ck v1 fl, ShortNode k v2 fl).

(** The children of a full node before index 16, collapsed and cached. *)
Definition hashChildren_with (hash : node -> bool -> res (node * node)) :=
  fix go (i : nat) (cs : list node) {struct cs} : res (list node * list node) :=
    match cs with
    | [] => Ok ([], [])
    | c :: r =>
      '(c1, c2) ← (if bool_decide (i < 16)%nat
                   then if is_nil c then Ok (ValueNode [], c) else hash c false
                   else Ok (c, c));
      '(r1, r2) ← go (S i) r;
      Ok (c1 :: r1, c2 :: r2)
    end.

Definition hashFullNodeChildren_with (hash : node -> bool -> res (node * node))
    (cs : list node) (fl : nodeFlag) : res (node * node) :=
  '(c1, c2) ← hashChildren_with hash 0 cs;
  Ok (FullNode c1 fl, FullNode c2 fl).

(** [cached.flags.hash = ...] *)
Definition set_cached (n : node) (hashed : node) : node :=
  let h := match hashed with HashNode h => Some h | _ => None end in
  match n with
  | ShortNode k v fl => ShortNode k v (mkFlag h (fdirty fl))
  | FullNode cs fl => FullNode cs (mkFlag h (fdirty fl))
  | _ => n
  end.

Fixpoint hash (n : node) (force : bool) : res (node * node) :=
  '(h, _) ← cache n;
  match h with
  | Some h => Ok (HashNode h, n)
  | None =>
    match n with
    | ShortNode k val fl =>
      '(collapsed, cached) ← hashShortNodeChildren_with hash k val fl;
      hashed ← nodeToHash collapsed force;
      Ok (hashed, set_cached cached hashed)
    | FullNode cs fl =>
      '(collapsed, cached) ← hashFullNodeChildren_with hash cs fl;
      hashed ← nodeToHash collapsed force;
      Ok (hashed, set_cached cached hashed)
    | _ => Ok (n, n)
    end
  end.

(** [proofHash] *)
Definition proofHash (original : node) : res (node * node) :=
  match original with
  | ShortNode k val fl =>
    '(sn, _) ← hashShortNodeChildren_with hash k val fl; hn ← nodeToHash sn false; Ok (sn, hn)
  | FullNode cs fl =>
    '(fn, _) ← hashFullNodeChildren_with hash cs fl; hn ← nodeToHash fn false; Ok (fn, hn)
  | n => Ok (n, n)
  end.

End hasher.

(** ** The trie *)

Definition emptyRoot : Hash :=
  39309028074332508661983559455579427211983204215636056653337583610388178777121.

(** [unhashed] counts changes only to choose between one thread and many. *)
Record Trie := mkTrie { root : node; owner : Hash; unhashed : Z }.

Record MissingNodeError := mkMissing { mOwner : Hash; mNodeHash : Hash; mPath : bytes }.

(** What the trie needs of the node database: [db.node], nil when the node is
    not there. *)
Class NodeReader := db_node : Hash -> res node.

Section trie.
Context `{Crypto} `{NodeReader}.
Variable own : Hash.

Definition newFlag : nodeFlag := mkFlag None true.

Definition resolveHash (n prefix : bytes) : res (node + MissingNodeError) :=
  let hash := BytesToHash n in
  nd ← db_node hash;
  if is_nil nd then Ok (inr (mkMissing own hash prefix)) else Ok (inl nd).

Definition resolve (n : node) (prefix : bytes) : res (node + MissingNodeError) :=
  match n with HashNode h => resolveHash h prefix | _ => Ok (inl n) end.

(** The value, the node with what was loaded on the way, and whether anything
    was loaded. *)
Fixpoint tryGet (fuel : nat) (origNode : node) (key : bytes) (pos : Z)
    : res (bytes * node * bool + MissingNodeError) :=
  match fuel with
  | O => NoFuel
  | S fuel =>
    match origNode with
    | NilNode => Ok (inl ([], NilNode, false))
    | ValueNode v => Ok (inl (v, origNode, false))
    | ShortNode k val fl =>
      if zlen key - pos <? zlen k then Ok (inl ([], origNode, false))
      else
        s ← slice key pos (pos + zlen k);
        if negb (bool_decide (k = s)) then Ok (inl ([], origNode, false))
        else
          '(value, newnode, didResolve) ←? tryGet fuel val key (pos + zlen k);
          Ok (inl (value, if (didResolve : bool) then ShortNode k newnode fl else origNode, didResolve))
    | FullNode cs fl =>
      x ← nth_or_panic key pos;
      c ← nth_or_panic cs x;
      '(value, newnode, didResolve) ←? tryGet fuel c key (pos + 1);
      Ok (inl (value, if (didResolve : bool) then FullNode (<[Z.to_nat x := newnode]> cs) fl else origNode,
               didResolve))
    | HashNode h =>
      prefix ← slice key 0 pos;
      child ←? resolveHash h prefix;
      '(value, newnode, _) ←? tryGet fuel child key pos;
      Ok (inl (value, newnode, true))
    | _ => Panic PanicNode
    end
  end.

(** Whether anything changed, and the new node. *)
Fixpoint insert (fuel : nat) (n : node) (prefix key : bytes) (value : node)
    : res (bool * node + MissingNodeError) :=
  match fuel with
  | O => NoFuel
  | S fuel =>
    if zlen key =? 0 then
      match n with
      | ValueNode v =>
        match value with
        | ValueNode w => Ok (inl (negb (bool_decide (v = w)), value))
        | _ => Panic PanicTypeAssertion
        end
      | _ => Ok (inl (true, value))
      end
    else
      match n with
      | ShortNode nKey nVal fl =>
        let matchlen := prefixLen key nKey in
        let m := Z.to_nat matchlen in
        if matchlen =? zlen nKey then
          '(dirty, nn) ←? insert fuel nVal (prefix ++ take m key) (drop m key) value;
          if negb dirty then Ok (inl (false, n)) else Ok (inl (true, ShortNode nKey nn newFlag))
        else
          let branch := replicate 17 NilNode in
          i ← nth_or_panic nKey matchlen;
          '(_, c) ←? insert fuel NilNode (prefix ++ take (S m) nKey) (drop (S m) nKey) nVal;
          branch ← set_child branch i c;
          j ← nth_or_panic key matchlen;
          '(_, c) ←? insert fuel NilNode (prefix ++ take (S m) key) (drop (S m) key) value;
          branch ← set_child branch j c;
          let branch := FullNode branch newFlag in
          if matchlen =? 0 then Ok (inl (true, branch))
          else Ok (inl (true, ShortNode (take m key) branch newFlag))
      | FullNode cs fl =>
        x ← nth_or_panic key 0;
        c ← nth_or_panic cs x;
        '(dirty, nn) ←? insert fuel c (prefix ++ [x]) (drop 1 key) value;
        if negb dirty then Ok (inl (false, n))
        else cs ← set_child cs x nn; Ok (inl (true, FullNode cs newFlag))
      | NilNode => Ok (inl (true, ShortNode key value newFlag))
      | HashNode h =>
        rn ←? resolveHash h prefix;
        '(dirty, nn) ←? insert fuel rn prefix key value;
        if negb dirty then Ok (inl (false, rn)) else Ok (inl (true, nn))
      | _ => Panic PanicNode
      end
  end.

(** The loop over the children after a deletion: the index of the only child
    left, or -2 when there are several. *)
Fixpoint remaining (cs : list node) (i pos : Z) : Z :=
  match cs with
  | [] => pos
  | cld :: r =>
    if is_nil cld then remaining r (i + 1) pos
    else if pos =? -1 then remaining r (i + 1) i else -2
  end.

Fixpoint delete (fuel : nat) (n : node) (prefix key : bytes) : res (bool * node + MissingNodeError) :=
  match fuel with
  | O => NoFuel
  | S fuel =>
    match n with
    | ShortNode nKey nVal fl =>
      let matchlen := prefixLen key nKey in
      if matchlen <? zlen nKey then Ok (inl (false, n))
      else if matchlen =? zlen key then Ok (inl (true, NilNode))
      else
        let m := length nKey in
        '(dirty, child) ←? delete fuel nVal (prefix ++ take m key) (drop m key);
        if negb dirty then Ok (inl (false, n))
        else
          match child with
          | ShortNode cKey cVal _ => Ok (inl (true, ShortNode (nKey ++ cKey) cVal newFlag))
          | _ => Ok (inl (true, ShortNode nKey child newFlag))
          end
    | FullNode cs fl =>
      x ← nth_or_panic key 0;
      c ← nth_or_panic cs x;
      '(dirty, nn) ←? delete fuel c (prefix ++ [x]) (drop 1 key);
      if negb dirty then Ok (inl (false, n))
      else
        cs ← set_child cs x nn;
        if negb (is_nil nn) then Ok (inl (true, FullNode cs newFlag))
        else
          let pos := remaining cs 0 (-1) in
          if pos >=? 0 then
            c ← nth_or_panic cs pos;
            let one := ShortNode [u8 pos] c newFlag in
            if negb (pos =? 16) then
              cnode ←? resolve c prefix;
              match cnode with
              | ShortNode cKey cVal _ => Ok (inl (true, ShortNode (u8 pos :: cKey) cVal newFlag))
              | _ => Ok (inl (true, one))
              end
            else Ok (inl (true, one))
          else Ok (inl (true, FullNode cs newFlag))
    | ValueNode _ => Ok (inl (true, NilNode))
    | NilNode => Ok (inl (false, NilNode))
    | HashNode h =>
      rn ←? resolveHash h prefix;
      '(dirty, nn) ←? delete fuel rn prefix key;
      if negb dirty then Ok (inl (false, rn)) else Ok (inl (true, nn))
    | _ => Panic PanicNode
    end
  end.

End trie.

(** ** The operations of the trie

    Every level of the trie takes at least one symbol of the key, or loads a
    node that is not a hash: twice the length of the key bounds the recursion. *)
Definition trie_fuel (k : bytes) : nat := 2 * length k + 2.

Section operations.
Context `{Crypto} `{NodeReader}.

(** [newTrie] *)
Definition newTrie (owner root : Hash) : res (Trie + MissingNodeError) :=
  if negb (root =? 0) && negb (root =? emptyRoot)
  then rootnode ←? resolveHash owner (be_bytes 32 root) []; Ok (inl (mkTrie rootnode owner 0))
  else Ok (inl (mkTrie NilNode owner 0)).

Definition TryGet (t : Trie) (key : bytes) : res (bytes * Trie + MissingNodeError) :=
  let k := keybytesToHex key in
  '(value, newroot, didResolve) ←? tryGet (owner t) (trie_fuel k) (root t) k 0;
  Ok (inl (value, if (didResolve : bool) then mkTrie newroot (owner t) (unhashed t) else t)).

(** An error is logged, and the value is nil. *)
Definition Get (t : Trie) (key : bytes) : res (bytes * Trie) :=
  r ← TryGet t key; Ok match r with inl r => r | inr _ => ([], t) end.

(** The trie after the call and the error it returns: [unhashed] is incremented
    in any case. *)
Definition TryDelete (t : Trie) (key : bytes) : res (Trie * option MissingNodeError) :=
  let t := mkTrie (root t) (owner t) (unhashed t + 1) in
  let k := keybytesToHex key in
  r ← delete (owner t) (trie_fuel k) (root t) [] k;
  match r with
  | inl (_, n) => Ok (mkTrie n (owner t) (unhashed t), None)
  | inr e => Ok (t, Some e)
  end.

Definition TryUpdate (t : Trie) (key value : bytes) : res (Trie * option MissingNodeError) :=
  let t := mkTrie (root t) (owner t) (unhashed t + 1) in
  let k := keybytesToHex key in
  r ← (if negb (zlen value =? 0)
       then insert (owner t) (trie_fuel k) (root t) [] k (ValueNode value)
       else delete (owner t) (trie_fuel k) (root t) [] k);
  match r with
  | inl (_, n) => Ok (mkTrie n (owner t) (unhashed t), None)
  | inr e => Ok (t, Some e)
  end.

Definition Update (t : Trie) (key value : bytes) : res Trie :=
  '(t, _) ← TryUpdate t key value; Ok t.
Definition Delete (t : Trie) (key : bytes) : res Trie :=
  '(t, _) ← TryDelete t key; Ok t.

(** [hashRoot] and [Hash]: the trie keeps the node with the cached hashes. *)
Definition hashRoot (t : Trie) : res (node * node * Trie) :=
  if is_nil (root t) then Ok (HashNode (be_bytes 32 emptyRoot), NilNode, t)
  else '(hashed, cached) ← hash (root t) true;
       Ok (hashed, cached, mkTrie (root t) (owner t) 0).

Definition Hash_ (t : Trie) : res (Hash * Trie) :=
  '(hash, cached, t) ← hashRoot t;
  match hash with
  | HashNode h => Ok (BytesToHash h, mkTrie cached (owner t) (unhashed t))
  | _ => Panic PanicTypeAssertion
  end.

End operations.
