(* ===== verification/TrieSpec.v ===== *)
(** * What a trie node represents

    [tree] is a trie with every node loaded and no flags; [canon] is the shape
    the code keeps (no short node under a short node, full nodes with at least
    two children, values only below a terminator).  [repr] relates a node of the
    code, which may be partly unloaded and carries cached hashes, with the tree
    it stands for.  A canonical tree is determined by its contents. *)

From S2P Require Import Prelude Common TrieEncoding Rlp EvmState Trie.

Local Open Scope Z_scope.

(** ** Trees *)

Inductive tree :=
| TNil
| TVal (v : bytes)
| TShort (k : bytes) (t : tree)
| TFull (ts : list tree).

Section tree_induction.
Variable P : tree -> Prop.
Hypothesis HNil : P TNil.
Hypothesis HVal : forall v, P (TVal v).
Hypothesis HShort : forall k t, P t -> P (TShort k t).
Hypothesis HFull : forall ts, Forall P ts -> P (TFull ts).

Fixpoint tree_ind' (t : tree) : P t :=
  match t with
  | TNil => HNil
  | TVal v => HVal v
  | TShort k t => HShort k t (tree_ind' t)
  | TFull ts => HFull ts ((fix go ts : Forall P ts :=
      match ts with [] => Forall_nil_2 P | t :: r => Forall_cons_2 P t r (tree_ind' t) (go r) end) ts)
  end.
End tree_induction.

(** What is left of a key after a prefix. *)
Fixpoint strip (p k : bytes) : option bytes :=
  match p, k with
  | [], _ => Some k
  | x :: p, y :: k => if x =? y then strip p k else None
  | _ :: _, [] => None
  end.

Fixpoint tlookup (t : tree) (k : bytes) : option bytes :=
  match t with
  | TNil => None
  | TVal v => if bool_decide (k = []) then Some v else None
  | TShort p t => match strip p k with Some r => tlookup t r | None => None end
  | TFull ts =>
    match k with
    | [] => None
    | x :: r => if x <? 0 then None else nth (Z.to_nat x) (map tlookup ts) (fun _ => None) r
    end
  end.

(** A hex key of a value: nibbles and the terminator. *)
Definition hexkey (k : bytes) : Prop := exists ns, nibbles ns /\ k = ns ++ [16].

Inductive canon : tree -> Prop :=
| canon_leaf ns v : nibbles ns -> v <> [] -> canon (TShort (ns ++ [16]) (TVal v))
| canon_ext ns ts : nibbles ns -> ns <> [] -> canon (TFull ts) -> canon (TShort ns (TFull ts))
| canon_full ts :
    length ts = 17%nat ->
    (forall i c, (i < 16)%nat -> ts !! i = Some c -> c <> TNil -> canon c) ->
    (forall c, ts !! 16%nat = Some c -> c <> TNil -> exists v, v <> [] /\ c = TVal v) ->
    (exists i j ci cj, i <> j /\ ts !! i = Some ci /\ ts !! j = Some cj /\ ci <> TNil /\ cj <> TNil) ->
    canon (TFull ts).

Definition canon0 (t : tree) : Prop := t = TNil \/ canon t.

(** A short node, unless there is no symbol to put in it. *)
Definition mk_short (k : bytes) (t : tree) : tree :=
  match k with [] => t | _ => TShort k t end.

(** ** Lemmas on keys *)

Lemma strip_Some p k r : strip p k = Some r <-> k = p ++ r.
Proof.
  revert k. induction p as [|x p IH]; intros k; cbn.
  - split; congruence.
  - destruct k as [|y k]; [split; discriminate|]. destruct (x =? y) eqn:E; to_prop.
    + subst. rewrite IH. split; [intros ->; done | by injection 1].
    + split; [done|]. injection 1. congruence.
Qed.

Lemma strip_app p k : strip p (p ++ k) = Some k.
Proof. by apply strip_Some. Qed.

Lemma strip_None p k : strip p k = None <-> forall r, k <> p ++ r.
Proof.
  split.
  - intros E r H. apply strip_Some in H. congruence.
  - intros H. destruct (strip p k) eqn:E; [|done]. apply strip_Some in E. by apply H in E.
Qed.

Lemma strip_prefix p q k : strip (p ++ q) k = match strip p k with Some r => strip q r | None => None end.
Proof.
  destruct (strip p k) as [r|] eqn:E.
  - apply strip_Some in E as ->. destruct (strip q r) eqn:E.
    + apply strip_Some in E as ->. by rewrite app_assoc, strip_app.
    + apply strip_None. intros s Hs. rewrite <- app_assoc in Hs. apply app_inv_head in Hs.
      by apply (proj1 (strip_None q r) E s).
  - apply strip_None. intros s ->. rewrite <- app_assoc, strip_app in E. done.
Qed.

Lemma nibble_not_term x : is_nibble x -> x <> 16.
Proof. unfold is_nibble. lia. Qed.

Lemma nibbles_app a b : nibbles (a ++ b) <-> nibbles a /\ nibbles b.
Proof. apply Forall_app. Qed.

Lemma hexkey_nonempty k : hexkey k -> k <> [].
Proof. intros (ns & _ & ->). by destruct ns. Qed.

(** The first symbol of a hex key is the terminator, and then the last, or a
    nibble. *)
Lemma hexkey_cons x k : hexkey (x :: k) -> (x = 16 /\ k = []) \/ (is_nibble x /\ hexkey k).
Proof.
  intros ([|y ns] & Hn & E); cbn in E; injection E as -> ->.
  - by left.
  - right. apply Forall_cons in Hn as [Hy Hn]. split; [done|]. by exists ns.
Qed.

Lemma hexkey_app p k : nibbles p -> hexkey (p ++ k) <-> hexkey k.
Proof.
  intros Hp. split.
  - induction Hp as [|x p Hx Hp IH]; [done|]. cbn. intros [[-> _]|[_ H]]%hexkey_cons; [|by apply IH].
    by apply nibble_not_term in Hx.
  - intros (ns & Hn & ->). exists (p ++ ns). rewrite <- app_assoc. split; [|done]. by apply nibbles_app.
Qed.

Lemma hexkey_nil : ~ hexkey [].
Proof. intros H. by apply hexkey_nonempty in H. Qed.

(** No hex key is a proper prefix of another. *)
Lemma hexkey_prefix ns r : nibbles ns -> hexkey (ns ++ [16] ++ r) -> r = [].
Proof.
  intros Hn H%hexkey_app; [|done]. cbn in H. apply hexkey_cons in H as [[_ H]|[H _]]; [done|].
  by apply nibble_not_term in H.
Qed.

(** ** Lookup *)

Lemma tlookup_full ts x k : tlookup (TFull ts) (x :: k) =
  if x <? 0 then None
  else match ts !! Z.to_nat x with Some t => tlookup t k | None => None end.
Proof.
  cbn [tlookup]. destruct (x <? 0); [done|]. destruct (ts !! Z.to_nat x) as [t|] eqn:E.
  - rewrite (nth_lookup_Some _ _ _ (tlookup t)); [done|]. change (map tlookup ts) with (tlookup <$> ts).
    by rewrite list_lookup_fmap, E.
  - rewrite nth_overflow; [done|]. rewrite length_map. by apply lookup_ge_None.
Qed.

Lemma tlookup_mk_short k t k' : tlookup (mk_short k t) k' =
  match strip k k' with Some r => tlookup t r | None => None end.
Proof. by destruct k. Qed.

Lemma mk_short_app p q t k : tlookup (mk_short (p ++ q) t) k = tlookup (mk_short p (mk_short q t)) k.
Proof.
  rewrite !tlookup_mk_short, strip_prefix. destruct (strip p k); [|done]. by rewrite tlookup_mk_short.
Qed.

Lemma tlookup_child ts i c k : ts !! i = Some c -> tlookup (TFull ts) (Z.of_nat i :: k) = tlookup c k.
Proof.
  intros E. rewrite tlookup_full. destruct (Z.ltb_spec (Z.of_nat i) 0); [lia|]. by rewrite Nat2Z.id, E.
Qed.

Lemma tlookup_full_Some ts k v : tlookup (TFull ts) k = Some v ->
  exists i c r, k = Z.of_nat i :: r /\ ts !! i = Some c /\ tlookup c r = Some v.
Proof.
  destruct k as [|x r]; [done|]. rewrite tlookup_full. destruct (x <? 0) eqn:E; [done|]. to_prop.
  destruct (ts !! Z.to_nat x) as [c|] eqn:Ec; [|done]. intros H.
  exists (Z.to_nat x), c, r. rewrite Z2Nat.id by lia. done.
Qed.

Lemma tlookup_short_Some p t k v : tlookup (TShort p t) k = Some v ->
  exists r, k = p ++ r /\ tlookup t r = Some v.
Proof.
  cbn [tlookup]. destruct (strip p k) eqn:E; [|done]. apply strip_Some in E as ->. eauto.
Qed.

(** ** Canonical trees *)

(** A child of a full node: at a nibble it is canonical, at the terminator a
    value. *)
Lemma canon_child ts i c : canon (TFull ts) -> ts !! i = Some c -> c <> TNil ->
  ((i < 16)%nat /\ canon c) \/ (i = 16%nat /\ exists v, v <> [] /\ c = TVal v).
Proof.
  intros Hc E Hn. inversion Hc as [| |ts' Hl Hi H16 _]; subst.
  destruct (decide (i < 16)%nat); [left; eauto|].
  assert (i = 16%nat) as ->; [|eauto].
  apply lookup_lt_Some in E. lia.
Qed.

Lemma canon_lookup t k v : canon t -> tlookup t k = Some v -> hexkey k /\ v <> [].
Proof.
  intros Hc. revert k. induction Hc as [ns w Hns Hw|ns ts Hns Hne Hc IH|ts Hl Hi IH H16 _]; intros k Hk.
  - apply tlookup_short_Some in Hk as (r & -> & Hr). cbn in Hr. case_bool_decide; [|done].
    subst r. injection Hr as ->. split; [|done]. exists ns. by rewrite app_nil_r.
  - apply tlookup_short_Some in Hk as (r & -> & Hr). apply IH in Hr as [Hr Hv].
    split; [|done]. by apply hexkey_app.
  - apply tlookup_full_Some in Hk as (i & c & r & -> & Ec & Hr).
    assert (Hn : c <> TNil) by by intros ->.
    destruct (decide (i < 16)%nat) as [Hlt|Hge].
    + destruct (IH i c Hlt Ec Hn r Hr) as [Hx Hv]. split; [|done].
      apply (hexkey_app [Z.of_nat i]); [|done]. repeat constructor; lia.
    + assert (i = 16%nat) as -> by (apply lookup_lt_Some in Ec; lia).
      destruct (H16 c Ec Hn) as (w & Hw & ->). cbn in Hr. case_bool_decide; [|done]. subst r.
      injection Hr as ->. split; [|done]. exists []. split; [constructor | done].
Qed.

Lemma canon_inhabited t : canon t -> exists k v, tlookup t k = Some v.
Proof.
  induction 1 as [ns w Hns Hw|ns ts Hns Hne Hc (k & v & Hk)|ts Hl Hi IH H16 (i & j & ci & cj & Hij & Ei & Ej & Hci & Hcj)].
  - exists (ns ++ [16]), w. cbn [tlookup]. rewrite (proj2 (strip_Some (ns ++ [16]) _ [])); [done | by rewrite app_nil_r].
  - exists (ns ++ k), v. cbn [tlookup]. by rewrite strip_app.
  - destruct (decide (i < 16)%nat) as [Hlt|Hge].
    + destruct (IH i ci Hlt Ei Hci) as (k & v & Hk). exists (Z.of_nat i :: k), v.
      by rewrite (tlookup_child _ _ ci).
    + assert (i = 16%nat) as -> by (apply lookup_lt_Some in Ei; lia).
      destruct (H16 ci Ei Hci) as (w & _ & ->). exists [Z.of_nat 16], w. by rewrite (tlookup_child _ _ (TVal w)).
Qed.

(** A non-nil child holds a key. *)
Lemma canon_child_inhabited ts i c : canon (TFull ts) -> ts !! i = Some c -> c <> TNil ->
  exists k v, tlookup c k = Some v.
Proof.
  intros Hc E Hn. destruct (canon_child ts i c Hc E Hn) as [[_ H]|(_ & v & _ & ->)].
  - by apply canon_inhabited.
  - by exists [], v.
Qed.

(** The keys of a full node start with at least two symbols. *)
Lemma canon_full_two ts y : canon (TFull ts) ->
  exists x k v, x <> y /\ tlookup (TFull ts) (x :: k) = Some v.
Proof.
  intros Hc. inversion Hc as [| |ts' _ _ _ (i & j & ci & cj & Hij & Ei & Ej & Hci & Hcj)]; subst.
  assert (Hgo : forall i c, ts !! i = Some c -> c <> TNil -> Z.of_nat i <> y ->
            exists x k v, x <> y /\ tlookup (TFull ts) (x :: k) = Some v).
  { intros n c E Hn Hy. destruct (canon_child_inhabited ts n c Hc E Hn) as (k & v & Hk).
    exists (Z.of_nat n), k, v. by rewrite (tlookup_child _ _ c). }
  destruct (decide (Z.of_nat i = y)) as [<-|]; [|by apply (Hgo i ci)].
  apply (Hgo j cj); [done | done | lia].
Qed.

Lemma canon_full_tlookup_nil ts : tlookup (TFull ts) [] = None.
Proof. done. Qed.

(** What comes below a symbol of a short node's key. *)
Lemma canon_tail p y k c : canon (TShort (p ++ y :: k) c) ->
  (y = 16 /\ k = [] /\ exists v, v <> [] /\ c = TVal v) \/ (is_nibble y /\ canon (mk_short k c)).
Proof.
  intros Hc. inversion Hc as [ns v Hns Hv Ek|ns ts Hns Hne Hc' Ek|]; subst.
  - destruct k as [|z k' _] using rev_ind.
    + apply app_inj_tail in Ek as [-> <-]. left. eauto.
    + right. change (p ++ y :: k' ++ [z]) with (p ++ (y :: k') ++ [z]) in Ek. rewrite app_assoc in Ek.
      apply app_inj_tail in Ek as [-> <-]. apply nibbles_app in Hns as [_ [Hy Hk]%Forall_cons].
      split; [done|]. unfold mk_short. destruct (k' ++ [16]) eqn:E; [by destruct k'|].
      rewrite <- E. by constructor.
  - apply nibbles_app in Hns as [_ [Hy Hk]%Forall_cons]. right. split; [done|].
    destruct k as [|z k]; [done|]. by constructor.
Qed.

Lemma canon_short_cases k c : canon (TShort k c) ->
  k <> [] /\ ((exists v ns, v <> [] /\ c = TVal v /\ nibbles ns /\ k = ns ++ [16]) \/
              (exists ts, nibbles k /\ canon (TFull ts) /\ c = TFull ts)).
Proof.
  intros Hc. inversion Hc; subst; (split; [try done; by destruct ns|]); [left|right]; eauto 10.
Qed.

(** *** Uniqueness *)

(** Below a short node there is a key that does not start with a given symbol. *)
Lemma canon_short_avoid k c y : canon (TShort k c) ->
  exists r v, tlookup c r = Some v /\ forall s, r <> y :: s.
Proof.
  intros [_ [(v & ns & _ & -> & _)|(ts & _ & Hc & ->)]]%canon_short_cases.
  - by exists [], v.
  - destruct (canon_full_two ts y Hc) as (x & k' & v & Hx & Hk). exists (x :: k'), v.
    split; [done|]. intros s E. by injection E.
Qed.

Lemma short_key_prefix k1 c1 k2 c2 : canon (TShort k1 c1) ->
  (forall k v, tlookup (TShort k1 c1) k = Some v -> tlookup (TShort k2 c2) k = Some v) ->
  exists r, k1 = k2 ++ r.
Proof.
  intros Hc Hsub. destruct (prefixLen_spec k1 k2) as (p & a & b & -> & -> & _ & Hd).
  destruct b as [|y b]; [exists a; by rewrite app_nil_r|]. exfalso.
  destruct (canon_short_avoid _ _ y Hc) as (r & v & Hr & Hy).
  destruct (tlookup_short_Some (p ++ y :: b) c2 ((p ++ a) ++ r) v) as (s & Es & _).
  { apply Hsub. cbn [tlookup]. by rewrite strip_app. }
  rewrite <- !app_assoc in Es. apply app_inv_head in Es. destruct a as [|x a]; cbn in Es.
  - by apply Hy in Es.
  - destruct Hd as [?|[?|Hd]]; [done | done |]. cbn in Hd. by injection Es.
Qed.

Lemma prefix_antisym (k1 k2 r1 r2 : bytes) : k1 = k2 ++ r1 -> k2 = k1 ++ r2 -> k1 = k2.
Proof.
  intros E1 E2. assert (r2 = []) as ->.
  { apply length_zero_iff_nil. apply (f_equal length) in E1. apply (f_equal length) in E2.
    rewrite length_app in *. lia. }
  by rewrite app_nil_r in E2.
Qed.

(** The keys of a short node share a symbol, those of a full node do not. *)
Lemma short_not_full k c ts : canon (TShort k c) -> canon (TFull ts) ->
  (forall k' v, tlookup (TFull ts) k' = Some v -> exists v', tlookup (TShort k c) k' = Some v') -> False.
Proof.
  intros Hs Hf Hsub. apply canon_short_cases in Hs as [Hk _]. destruct k as [|y k]; [done|].
  destruct (canon_full_two ts y Hf) as (x & k' & v & Hx & Hl). apply Hsub in Hl as [v' Hl].
  apply tlookup_short_Some in Hl as (r & E & _). cbn in E. by injection E.
Qed.

Lemma tlookup_short_app k c r : tlookup (TShort k c) (k ++ r) = tlookup c r.
Proof. cbn [tlookup]. by rewrite strip_app. Qed.

Lemma short_key_unique k1 c1 k2 c2 : canon (TShort k1 c1) -> canon (TShort k2 c2) ->
  (forall k, tlookup (TShort k1 c1) k = tlookup (TShort k2 c2) k) ->
  k1 = k2 /\ forall r, tlookup c1 r = tlookup c2 r.
Proof.
  intros H1 H2 E.
  destruct (short_key_prefix _ _ k2 c2 H1) as [r1 E1]; [by intros ? ? <-|].
  destruct (short_key_prefix _ _ k1 c1 H2) as [r2 E2]; [by intros ? ? <-|].
  pose proof (prefix_antisym _ _ _ _ E1 E2) as <-. split; [done|].
  intros r. specialize (E (k1 ++ r)). by rewrite !tlookup_short_app in E.
Qed.

Lemma tree_nil_dec (c : tree) : c = TNil \/ c <> TNil.
Proof. destruct c; auto. Qed.

Lemma canon_child_nil ts i c : canon (TFull ts) -> ts !! i = Some c ->
  (forall k, tlookup c k = None) -> c = TNil.
Proof.
  intros Hc E Hk. destruct (tree_nil_dec c) as [|Hn]; [done|].
  destruct (canon_child_inhabited ts i c Hc E Hn) as (k & v & Hv). by rewrite Hk in Hv.
Qed.

Lemma full_children_unique ts ts' : canon (TFull ts) -> canon (TFull ts') ->
  (forall k, tlookup (TFull ts) k = tlookup (TFull ts') k) ->
  (forall i c t, (i < 16)%nat -> ts !! i = Some c -> c <> TNil -> canon t ->
     (forall k, tlookup c k = tlookup t k) -> c = t) ->
  ts = ts'.
Proof.
  intros H H' E IH. assert (Hlen : forall ts, canon (TFull ts) -> length ts = 17%nat) by (by inversion 1).
  apply list_eq_same_length with 17%nat; [by apply Hlen | by apply Hlen |].
  intros i c c' _ Ec Ec'.
  assert (Hk : forall k, tlookup c k = tlookup c' k).
  { intros k. rewrite <- (tlookup_child ts i c k Ec), <- (tlookup_child ts' i c' k Ec'). apply E. }
  destruct (tree_nil_dec c) as [->|Hc].
  { symmetry. apply (canon_child_nil ts' i); [done | done |]. intros k. by rewrite <- Hk. }
  destruct (tree_nil_dec c') as [->|Hc'].
  { apply (canon_child_nil ts i); [done | done |]. intros k. by rewrite Hk. }
  destruct (canon_child ts i c H Ec Hc) as [[Hi _]|(-> & v & _ & ->)];
    destruct (canon_child ts' _ c' H' Ec' Hc') as [[Hi' Hcan]|(Hi' & v' & _ & ->)]; try lia.
  - by apply (IH i).
  - specialize (Hk []). cbn in Hk. by injection Hk as ->.
Qed.

Lemma canon_unique t1 t2 : canon t1 -> canon t2 ->
  (forall k, tlookup t1 k = tlookup t2 k) -> t1 = t2.
Proof.
  intros H1. revert t2. induction H1 as [ns v Hns Hv|ns ts Hns Hne Hc IH|ts Hl Hi IH H16 Hn]; intros t2 H2 E.
  - assert (Hc1 : canon (TShort (ns ++ [16]) (TVal v))) by by constructor.
    destruct t2 as [| |k c|ts2]; [by inversion H2 | by inversion H2 | |].
    + destruct (short_key_unique _ _ _ _ Hc1 H2 E) as [<- Er]. f_equal. specialize (Er []).
      apply canon_short_cases in H2 as [_ [(w & _ & _ & -> & _)|(us & _ & _ & ->)]]; cbn in Er; congruence.
    + exfalso. eapply (short_not_full _ _ _ Hc1 H2). intros k' w Hk. exists w. by rewrite E.
  - assert (Hc1 : canon (TShort ns (TFull ts))) by by constructor.
    destruct t2 as [| |k c|ts2]; [by inversion H2 | by inversion H2 | |].
    + destruct (short_key_unique _ _ _ _ Hc1 H2 E) as [<- Er]. f_equal.
      apply canon_short_cases in H2 as [_ [(w & _ & _ & -> & _)|(us & _ & Hu & ->)]]; [|by apply IH].
      specialize (Er []). done.
    + exfalso. eapply (short_not_full _ _ _ Hc1 H2). intros k' w Hk. exists w. by rewrite E.
  - assert (Hc1 : canon (TFull ts)) by by constructor.
    destruct t2 as [| |k c|ts2]; [by inversion H2 | by inversion H2 | |].
    + exfalso. eapply (short_not_full _ _ _ H2 Hc1). intros k' w Hk. exists w. by rewrite <- E.
    + f_equal. apply full_children_unique; [done | done | done |].
      intros i c t Hlt Ec Hcn Ht Hk. by apply (IH i).
Qed.

Lemma canon0_unique t1 t2 : canon0 t1 -> canon0 t2 ->
  (forall k, tlookup t1 k = tlookup t2 k) -> t1 = t2.
Proof.
  intros [->|H1] [->|H2] E; [done | | | by apply canon_unique].
  - destruct (canon_inhabited _ H2) as (k & v & Hk). by rewrite <- E in Hk.
  - destruct (canon_inhabited _ H1) as (k & v & Hk). by rewrite E in Hk.
Qed.

(** ** The encoding of a tree

    The reference for the hasher: a node is the list of its compact key and its
    child, or of its 17 children; a child whose encoding is shorter than a hash
    is embedded, any other is replaced by its hash. *)

Section encoding.
Context `{Crypto}.

Definition compact_key (k : bytes) : bytes :=
  compact (hasTerm k) (if hasTerm k then removelast k else k).

Definition is_branch (t : tree) : bool := match t with TShort _ _ | TFull _ => true | _ => false end.

Definition ref_item (t : tree) (i : item) : item :=
  if is_branch t && (32 <=? zlen (encode i)) then IBytes (hashData (encode i)) else i.

Fixpoint titem (t : tree) : item :=
  match t with
  | TNil => IBytes []
  | TVal v => IBytes v
  | TShort k c => IStruct [IBytes (compact_key k); ref_item c (titem c)]
  | TFull ts => IStruct (map (fun c => ref_item c (titem c)) ts)
  end.

Definition tref (t : tree) : item := ref_item t (titem t).
Definition tenc (t : tree) : bytes := encode (titem t).
Definition thash (t : tree) : bytes := hashData (tenc t).

(** Is the tree replaced by its hash inside a parent? *)
Definition big (t : tree) : bool := is_branch t && (32 <=? zlen (tenc t)).

(** The node the database holds for a tree: its children are hashes, or embedded
    in the same way. *)
Definition ref_node (t : tree) (n : node) : node := if big t then HashNode (thash t) else n.

Fixpoint load (t : tree) : node :=
  match t with
  | TNil => NilNode
  | TVal v => ValueNode v
  | TShort k c => ShortNode k (ref_node c (load c)) (mkFlag None false)
  | TFull ts => FullNode (map (fun c => ref_node c (load c)) ts) (mkFlag None false)
  end.

(** The same node as it is loaded by its hash. *)
Definition load_top (t : tree) : node :=
  match load t with
  | ShortNode k c _ => ShortNode k c (mkFlag (Some (thash t)) false)
  | FullNode cs _ => FullNode cs (mkFlag (Some (thash t)) false)
  | n => n
  end.

(** ** Representation *)

(** [inside s t]: [s] is [t] or a subtree of it; [below s t]: a proper one. *)
Inductive inside (s : tree) : tree -> Prop :=
| inside_here : inside s s
| inside_short k c : inside s c -> inside s (TShort k c)
| inside_full c ts : c ∈ ts -> inside s c -> inside s (TFull ts).

Definition below (s t : tree) : Prop :=
  match t with
  | TShort _ c => inside s c
  | TFull ts => exists c, c ∈ ts /\ inside s c
  | _ => False
  end.

Context `{NodeReader}.

Definition resolves (t : tree) : Prop := db_node (BytesToHash (thash t)) = Ok (load_top t).

(** Every hashed node below [t] is in the database. *)
Definition kids_stored (t : tree) : Prop := forall s, below s t -> big s = true -> resolves s.

(** [top] is the root of the trie, which is hashed whatever its size. *)
Definition hashed (top : bool) (t : tree) : Prop := top = true \/ big t = true.

(** A cached hash is the hash of the tree, and a clean node with a hash is
    stored; a clean node without a hash is embedded in its parent. *)
Definition flag_ok (top : bool) (fl : nodeFlag) (t : tree) : Prop :=
  match fhash fl with
  | Some h => h = thash t /\ hashed top t /\ (fdirty fl = false -> resolves t /\ kids_stored t)
  | None => fdirty fl = false -> top = false /\ big t = false
  end.

(** Every node that its parent refers to by hash has its hash cached, down to
    the nodes that are not loaded. *)
Inductive complete : node -> tree -> Prop :=
| complete_nil : complete NilNode TNil
| complete_value v : complete (ValueNode v) (TVal v)
| complete_hash h t : complete (HashNode h) t
| complete_short k c fl t : (big (TShort k t) = true -> fhash fl <> None) -> complete c t ->
    complete (ShortNode k c fl) (TShort k t)
| complete_full cs ts fl : (big (TFull ts) = true -> fhash fl <> None) ->
    (forall i c t, cs !! i = Some c -> ts !! i = Some t -> complete c t) ->
    complete (FullNode cs fl) (TFull ts).

Inductive repr : bool -> node -> tree -> Prop :=
| repr_nil top : repr top NilNode TNil
| repr_value top v : repr top (ValueNode v) (TVal v)
| repr_hash top t : is_branch t = true -> hashed top t -> resolves t -> kids_stored t ->
    repr top (HashNode (thash t)) t
| repr_short top k c t fl : repr false c t -> flag_ok top fl (TShort k t) ->
    (fhash fl <> None -> complete c t) ->
    repr top (ShortNode k c fl) (TShort k t)
| repr_full top cs ts fl : length cs = length ts ->
    (forall i c t, cs !! i = Some c -> ts !! i = Some t -> repr false c t) ->
    flag_ok top fl (TFull ts) ->
    (fhash fl <> None -> forall i c t, cs !! i = Some c -> ts !! i = Some t -> complete c t) ->
    repr top (FullNode cs fl) (TFull ts).

(** *** Loading *)

Lemma kids_stored_child t c : kids_stored t -> below c t -> kids_stored c.
Proof.
  intros Hk Hb s Hs. apply Hk. assert (Hin : inside s c).
  { destruct c; cbn in Hs; try done; [by constructor|]. destruct Hs as (d & Hd & Hs). by econstructor. }
  assert (Htrans : forall d, inside c d -> inside s d) by (induction 1; [done | by constructor | by econstructor]).
  destruct t; cbn in *; try done; [by apply Htrans|]. destruct Hb as (d & Hd & Hb). eauto.
Qed.

Lemma big_branch t : big t = true -> is_branch t = true.
Proof. by intros [? _]%andb_prop. Qed.

(** A loaded node represents the tree, its children given by reference. *)
Lemma repr_ref t : kids_stored t -> (big t = true -> resolves t) ->
  (big t = false -> repr false (load t) t) -> repr false (ref_node t (load t)) t.
Proof.
  intros Hk Hr Hl. unfold ref_node. destruct (big t) eqn:Hb; [|by apply Hl].
  constructor; [by apply big_branch | by right | by apply Hr | done].
Qed.

Lemma flag_new top t : flag_ok top newFlag t.
Proof. by intros. Qed.

Lemma repr_short_new top k c t : repr false c t -> repr top (ShortNode k c newFlag) (TShort k t).
Proof. intros Hr. by constructor. Qed.

Lemma repr_full_new top cs ts : length cs = length ts ->
  (forall i c t, cs !! i = Some c -> ts !! i = Some t -> repr false c t) ->
  repr top (FullNode cs newFlag) (TFull ts).
Proof. intros Hl Hr. by constructor. Qed.

(** What the database returns is complete. *)
Lemma complete_ref t : complete (ref_node t (load t)) t.
Proof.
  induction t as [|v|k c IH|ts IH] using tree_ind'; [constructor | constructor | |];
    unfold ref_node; destruct (big _) eqn:Hb; cbn [load]; [constructor | | constructor |].
  - constructor; [by rewrite Hb | done].
  - constructor; [by rewrite Hb|]. intros i n t E Et.
    change (map ?f ts) with (f <$> ts) in E. rewrite list_lookup_fmap, Et in E.
    injection E as <-. rewrite Forall_forall in IH. apply IH. by eapply list_elem_of_lookup_2.
Qed.

Lemma complete_children ts i n t : map (fun c => ref_node c (load c)) ts !! i = Some n ->
  ts !! i = Some t -> complete n t.
Proof.
  intros E Et. change (map ?f ts) with (f <$> ts) in E. rewrite list_lookup_fmap, Et in E.
  injection E as <-. apply complete_ref.
Qed.

Lemma complete_load_top t : complete (load_top t) t.
Proof.
  destruct t as [|v|k c|ts]; [constructor | constructor | |]; constructor; try done.
  - apply complete_ref.
  - apply complete_children.
Qed.

Lemma below_full c ts : c ∈ ts -> below c (TFull ts).
Proof. intros Hc. exists c. split; [done | constructor]. Qed.

Lemma below_short k c : below c (TShort k c).
Proof. constructor. Qed.

(** The children of a stored node, with the flags of the node itself. *)
Lemma load_children t top fl : kids_stored t -> flag_ok top fl t ->
  match t with
  | TShort k c => repr false (ref_node c (load c)) c -> repr top (ShortNode k (ref_node c (load c)) fl) t
  | TFull ts => (forall c, c ∈ ts -> repr false (ref_node c (load c)) c) ->
      repr top (FullNode (map (fun c => ref_node c (load c)) ts) fl) t
  | _ => True
  end.
Proof.
  intros Hk Hf. destruct t as [|v|k c|ts]; [done | done | |].
  - intros Hc. constructor; [done | done | intros _; apply complete_ref].
  - intros Hc. constructor; [by rewrite length_map | | done | intros _; apply complete_children].
    intros i n t E Et. change (map ?f ts) with (f <$> ts) in E. rewrite list_lookup_fmap, Et in E.
    injection E as <-. apply Hc. by eapply list_elem_of_lookup_2.
Qed.

Lemma ref_repr t : kids_stored t -> (big t = true -> resolves t) -> repr false (ref_node t (load t)) t.
Proof.
  induction t as [|v|k c IH|ts IH] using tree_ind'; intros Hk Hr; [constructor | constructor | |];
    (apply repr_ref; [done | done |]; intros Hb; cbn [load]).
  - apply (load_children (TShort k c)); [done | by intros |].
    apply IH; [by eapply kids_stored_child, below_short | by apply Hk, below_short].
  - apply (load_children (TFull ts)); [done | by intros |]. intros c Hc. rewrite Forall_forall in IH.
    apply IH; [done | by eapply kids_stored_child, below_full | by apply Hk, below_full].
Qed.

Lemma load_top_repr top t : is_branch t = true -> hashed top t -> resolves t -> kids_stored t ->
  repr top (load_top t) t.
Proof.
  intros Hb Hh Hr Hk. assert (Hf : flag_ok top (mkFlag (Some (thash t)) false) t) by done.
  destruct t as [|v|k c|ts]; [done | done | |]; unfold load_top; cbn [load].
  - apply (load_children (TShort k c)); [done | done |].
    apply ref_repr; [by eapply kids_stored_child, below_short | by apply Hk, below_short].
  - apply (load_children (TFull ts)); [done | done |]. intros c Hc.
    apply ref_repr; [by eapply kids_stored_child, below_full | by apply Hk, below_full].
Qed.

Lemma load_top_branch t : is_branch t = true ->
  match load_top t with ShortNode _ _ _ | FullNode _ _ => True | _ => False end.
Proof. by destruct t. Qed.
End encoding.

#[export] Hint Resolve flag_new : entropy.
