(* ===== verification/TrieOps.v ===== *)
(** * Lookup, insertion and deletion in the trie

    The operations of [trie.go], on a node that represents a canonical tree:
    they return within their fuel without panic or error, the node they return
    represents a canonical tree, and its contents are those of the map
    operation. *)

From S2P Require Import Prelude Common TrieEncoding Rlp EvmState Trie TrieSpec.

Local Open Scope Z_scope.

Definition is_hash (n : node) : bool := match n with HashNode _ => true | _ => false end.

(** The fuel an operation needs on a node with a key. *)
Definition need (n : node) (k : bytes) : nat := (2 * length k + 1 + if is_hash n then 1 else 0)%nat.

(** The keys that can be looked up in a (sub)tree. *)
Definition fits (t : tree) (k : bytes) : Prop :=
  t = TNil \/ (canon t /\ hexkey k) \/ exists v, v <> [] /\ t = TVal v /\ k = [].

Lemma need_le n k : (need n k <= 2 * length k + 2)%nat.
Proof. unfold need. destruct (is_hash n); lia. Qed.

Lemma fits_canon0 t k : canon0 t -> hexkey k -> fits t k.
Proof. intros [->|]; unfold fits; auto. Qed.

(** *** The way down *)

Lemma hexkey_head x k : hexkey (x :: k) -> 0 <= x <= 16.
Proof. intros [[-> _]|[H _]]%hexkey_cons; [lia|]. unfold is_nibble in H. lia. Qed.

Lemma full_child ts x k : canon (TFull ts) -> hexkey (x :: k) ->
  exists c, ts !! Z.to_nat x = Some c /\ fits c k.
Proof.
  intros Hc Hk. pose proof (hexkey_head _ _ Hk). assert (length ts = 17%nat) by by inversion Hc.
  destruct (lookup_lt_is_Some_2 ts (Z.to_nat x)) as [c Ec]; [lia|]. exists c. split; [done|].
  destruct (tree_nil_dec c) as [->|Hn]; [by left|]. right.
  destruct (canon_child ts _ c Hc Ec Hn) as [[Hi Hcc]|(Hi & v & Hv & ->)];
    apply hexkey_cons in Hk as [[-> ->]|[Hx Hk]]; unfold is_nibble in *; try lia.
  - by left.
  - right. eauto.
Qed.

Lemma short_child p c k : canon (TShort p c) -> hexkey (p ++ k) -> fits c k.
Proof.
  intros [_ [(v & ns & Hv & -> & Hns & ->)|(ts & Hp & Hc & ->)]]%canon_short_cases Hk.
  - rewrite <- app_assoc in Hk. apply hexkey_prefix in Hk; [|done]. right; right. eauto.
  - right; left. split; [done|]. by apply hexkey_app in Hk.
Qed.

(** *** Updates of trees *)

(** [t'] is [t] with the key [k] bound to [o]. *)
Definition updated (t' t : tree) (k : bytes) (o : option bytes) : Prop :=
  forall k', tlookup t' k' = if decide (k' = k) then o else tlookup t k'.

Lemma updated_refl t k : updated t t k (tlookup t k).
Proof. intros k'. destruct (decide (k' = k)) as [->|]; done. Qed.

Lemma updated_mk_short p c c' r o : updated c' c r o -> updated (mk_short p c') (mk_short p c) (p ++ r) o.
Proof.
  intros Hu k'. rewrite !tlookup_mk_short. destruct (strip p k') as [s|] eqn:E.
  - apply strip_Some in E as ->. rewrite Hu. destruct (decide (s = r)) as [->|Hne].
    + by rewrite decide_True.
    + rewrite decide_False; [done|]. by intros ?%app_inv_head.
  - rewrite decide_False; [done|]. intros ->. by rewrite strip_app in E.
Qed.

Lemma updated_short p c c' r o : p <> [] -> updated c' c r o ->
  updated (TShort p c') (TShort p c) (p ++ r) o.
Proof. intros Hp Hu. pose proof (updated_mk_short p c c' r o Hu). by destruct p. Qed.

(** The first key of a tree. *)
Lemma updated_leaf k w : updated (mk_short k (TVal w)) TNil k (Some w).
Proof.
  intros k'. rewrite tlookup_mk_short. destruct (strip k k') as [r|] eqn:E.
  - apply strip_Some in E as ->. cbn [tlookup]. case_bool_decide as Hr.
    + subst. by rewrite app_nil_r, decide_True.
    + rewrite decide_False; [done|]. intros E. apply Hr, (app_inv_head k). by rewrite app_nil_r.
  - rewrite decide_False; [done|]. intros ->. rewrite strip_None in E. by apply (E []); rewrite app_nil_r.
Qed.

Lemma tlookup_insert ts i c j r : (i < length ts)%nat ->
  tlookup (TFull (<[i := c]> ts)) (Z.of_nat j :: r) =
  if decide (i = j) then tlookup c r else tlookup (TFull ts) (Z.of_nat j :: r).
Proof.
  intros Hi. rewrite !tlookup_full. destruct (Z.ltb_spec (Z.of_nat j) 0); [lia|]. rewrite Nat2Z.id.
  destruct (decide (i = j)) as [<-|].
  - by rewrite list_lookup_insert_eq.
  - by rewrite list_lookup_insert_ne.
Qed.

(** A key is empty, starts with a negative number, or with an index. *)
Lemma full_key_cases (k : bytes) :
  ((forall ts, tlookup (TFull ts) k = None) /\ forall i r, k <> Z.of_nat i :: r) \/
  exists j r, k = Z.of_nat j :: r.
Proof.
  destruct k as [|x r]; [by left|]. destruct (Z.ltb_spec x 0).
  - left. split.
    + intros ts. rewrite tlookup_full. by destruct (Z.ltb_spec x 0); [|lia].
    + intros i s [= -> _]. lia.
  - right. exists (Z.to_nat x), r. by rewrite Z2Nat.id.
Qed.

Lemma updated_full ts i c c' r o : ts !! i = Some c -> updated c' c r o ->
  updated (TFull (<[i := c']> ts)) (TFull ts) (Z.of_nat i :: r) o.
Proof.
  intros Ec Hu k'. pose proof (lookup_lt_Some _ _ _ Ec).
  destruct (full_key_cases k') as [[Hk Hne]|(j & s & ->)].
  - rewrite !Hk, decide_False by done. done.
  - rewrite tlookup_insert by done. destruct (decide (i = j)) as [<-|Hne].
    + rewrite (tlookup_child ts i c s Ec), Hu. destruct (decide (s = r)) as [->|].
      * by rewrite decide_True.
      * rewrite decide_False; [done|]. by intros [= ?].
    + rewrite decide_False; [done|]. intros [= ? _]. lia.
Qed.

(** *** Canonical full nodes *)

(** What may stand at an index of a full node. *)
Definition child_ok (i : nat) (c : tree) : Prop :=
  ((i < 16)%nat /\ canon c) \/ (i = 16%nat /\ exists v, v <> [] /\ c = TVal v).

Lemma child_ok_nil i c : child_ok i c -> c <> TNil.
Proof. intros [[_ H]|(_ & v & _ & ->)]; [|done]. intros ->. inversion H. Qed.

(** Two children that are there make a full node canonical. *)
Definition two_children (ts : list tree) : Prop :=
  exists i j ci cj, i <> j /\ ts !! i = Some ci /\ ts !! j = Some cj /\ ci <> TNil /\ cj <> TNil.

Lemma canon_full_iff ts : canon (TFull ts) <->
  length ts = 17%nat /\ (forall i c, ts !! i = Some c -> c <> TNil -> child_ok i c) /\ two_children ts.
Proof.
  split.
  - intros Hc. split_and!; [by inversion Hc | by intros; eapply canon_child | by inversion Hc].
  - intros (Hl & Hc & Ht). constructor; [done | | | done].
    + intros i c Hi E Hn. destruct (Hc i c E Hn) as [[_ ?]|[-> _]]; [done|lia].
    + intros c E Hn. destruct (Hc _ c E Hn) as [[? _]|[_ ?]]; [lia|done].
Qed.

Lemma canon_full_set ts i c : canon (TFull ts) -> (i < 17)%nat -> child_ok i c ->
  canon (TFull (<[i := c]> ts)).
Proof.
  rewrite !canon_full_iff. intros (Hl & Hc & (a & b & ca & cb & Hab & Ea & Eb & Ha & Hb)) Hi Hok.
  split_and!; [by rewrite length_insert | |].
  - intros j d Ed Hd. apply list_lookup_insert_Some in Ed as [(<- & <- & _)|[_ Ed]]; [done | by apply Hc].
  - assert (Hset : forall j d, ts !! j = Some d -> d <> TNil -> exists d', <[i := c]> ts !! j = Some d' /\ d' <> TNil).
    { intros j d Ed Hd. destruct (decide (i = j)) as [<-|].
      - exists c. rewrite list_lookup_insert_eq by lia. split; [done | by eapply child_ok_nil].
      - exists d. by rewrite list_lookup_insert_ne. }
    destruct (Hset a ca Ea Ha) as (? & ? & ?). destruct (Hset b cb Eb Hb) as (? & ? & ?).
    repeat eexists; done.
Qed.

Definition two_way (i : nat) (a : tree) (j : nat) (b : tree) : tree :=
  TFull (<[j := b]> (<[i := a]> (replicate 17 TNil))).

Lemma two_way_lookup i a j b n c : i <> j ->
  <[j := b]> (<[i := a]> (replicate 17 TNil)) !! n = Some c -> c = TNil \/ (n = i /\ c = a) \/ (n = j /\ c = b).
Proof.
  intros Hij E. apply list_lookup_insert_Some in E as [(<- & <- & _)|[_ E]]; [by auto|].
  apply list_lookup_insert_Some in E as [(<- & <- & _)|[_ E]]; [by auto|].
  apply lookup_replicate in E as [-> _]. by left.
Qed.

Lemma canon_two_way i a j b : i <> j -> child_ok i a -> child_ok j b -> canon (two_way i a j b).
Proof.
  intros Hij Ha Hb. assert (Hlt : forall i c, child_ok i c -> (i < 17)%nat) by (intros ? ? [[]|[]]; lia).
  pose proof (Hlt _ _ Ha). pose proof (Hlt _ _ Hb). apply canon_full_iff. split_and!.
  - by rewrite !length_insert, length_replicate.
  - intros n c E Hn. apply two_way_lookup in E as [->|[[-> ->]|[-> ->]]]; done.
  - exists i, j, a, b. split_and!; [done | | | by eapply child_ok_nil | by eapply child_ok_nil].
    + rewrite list_lookup_insert_ne, list_lookup_insert_eq by (rewrite ?length_replicate; lia). done.
    + rewrite list_lookup_insert_eq by (rewrite length_insert, length_replicate; lia). done.
Qed.

(** The branch of a short node at a symbol [x] where its key has [y]. *)
Lemma updated_branch x k1 y k2 c w : 0 <= x <= 16 -> 0 <= y <= 16 -> x <> y ->
  updated (two_way (Z.to_nat y) (mk_short k2 c) (Z.to_nat x) (mk_short k1 (TVal w)))
          (mk_short (y :: k2) c) (x :: k1) (Some w).
Proof.
  intros Hx Hy Hxy k'. rewrite tlookup_mk_short. unfold two_way.
  destruct (full_key_cases k') as [[Hk Hne]|(j & s & ->)].
  - rewrite Hk, decide_False by (rewrite <- (Z2Nat.id x) by lia; done).
    destruct (strip (y :: k2) k') as [r|] eqn:E; [|done]. apply strip_Some in E as ->. exfalso.
    apply (Hne (Z.to_nat y) (k2 ++ r)). by rewrite Z2Nat.id by lia.
  - rewrite tlookup_insert by (rewrite length_insert, length_replicate; lia).
    destruct (decide (Z.to_nat x = j)) as [<-|Hxj].
    + rewrite Z2Nat.id, tlookup_mk_short by lia. cbn [strip]. destruct (Z.eqb_spec y x); [congruence|].
      destruct (strip k1 s) as [r|] eqn:E.
      * apply strip_Some in E as ->. cbn [tlookup]. case_bool_decide as Hr.
        -- subst r. by rewrite app_nil_r, decide_True.
        -- rewrite decide_False; [done|]. intros [= E]. apply Hr. apply (app_inv_head k1). by rewrite app_nil_r.
      * rewrite decide_False; [done|]. intros [= ->]. rewrite strip_None in E. by apply (E []); rewrite app_nil_r.
    + rewrite decide_False by (intros [= E _]; lia).
      rewrite tlookup_insert by (rewrite length_replicate; lia). destruct (decide (Z.to_nat y = j)) as [<-|Hyj].
      * rewrite tlookup_mk_short, Z2Nat.id by lia. cbn [strip]. by rewrite Z.eqb_refl.
      * rewrite (tlookup_full (replicate 17 TNil)). destruct (Z.ltb_spec (Z.of_nat j) 0); [lia|].
        cbn [strip]. destruct (Z.eqb_spec y (Z.of_nat j)); [lia|].
        destruct (_ !! _) as [d|] eqn:E; [|done]. by apply lookup_replicate in E as [-> _].
Qed.

Lemma hexkey_app_cons p x k : hexkey (p ++ x :: k) -> nibbles p /\ hexkey (x :: k).
Proof.
  induction p as [|y p IH]; cbn; [by split; [constructor|]|].
  intros [[_ E]|[Hy Hk]]%hexkey_cons; [by destruct p|]. destruct (IH Hk). by split; [constructor|].
Qed.

(** A new leaf below a symbol of its key. *)
Lemma leaf_child_ok x k w : hexkey (x :: k) -> w <> [] -> child_ok (Z.to_nat x) (mk_short k (TVal w)).
Proof.
  intros [[-> ->]|[Hx (ns & Hn & ->)]]%hexkey_cons Hw; [right; cbn; eauto|].
  left. unfold is_nibble in Hx. split; [lia|]. replace (mk_short (ns ++ [16]) (TVal w)) with (TShort (ns ++ [16]) (TVal w)) by by destruct ns.
  by constructor.
Qed.

Lemma tail_child_ok p y k c : canon (TShort (p ++ y :: k) c) ->
  0 <= y <= 16 /\ child_ok (Z.to_nat y) (mk_short k c).
Proof.
  intros [(-> & -> & v & Hv & ->)|[Hy Hc]]%canon_tail.
  - split; [lia|]. right. cbn. eauto.
  - unfold is_nibble in Hy. split; [lia|]. left. split; [lia|done].
Qed.

Lemma canon_mk_short p ts : nibbles p -> canon (TFull ts) -> canon (mk_short p (TFull ts)).
Proof. intros Hp Hc. destruct p; [done|]. by constructor. Qed.

Section ops.
Context `{Crypto} `{NodeReader}.
Variable own : Hash.

(** A hash node resolves to a concrete node for the same tree. *)
Lemma resolveHash_repr top h t prefix : repr top (HashNode h) t ->
  exists n, resolveHash own h prefix = Ok (inl n) /\ repr top n t /\
    is_hash n = false /\ n = load_top t /\ is_branch t = true.
Proof.
  inversion 1 as [| |? ? Hb Hh Hr Hk| |]; subst. exists (load_top t). unfold resolveHash. rewrite Hr.
  cbn [mbind res_bind]. split_and!; [| by apply load_top_repr | | done | done].
  - by destruct t.
  - by destruct t.
Qed.

Lemma set_child_at cs x c : 0 <= x < zlen cs -> set_child cs x c = Ok (<[Z.to_nat x := c]> cs).
Proof. intros Hx. unfold set_child. by rewrite bool_decide_true. Qed.

Lemma slice_mid {A} (a b c : list A) : slice (a ++ b ++ c) (zlen a) (zlen a + zlen b) = Ok b.
Proof.
  unfold slice. rewrite !zlen_app. pose proof (zlen_nonneg a). pose proof (zlen_nonneg b).
  pose proof (zlen_nonneg c). rewrite bool_decide_true by lia. f_equal.
  replace (Z.to_nat (zlen a)) with (length a) by (unfold zlen; lia).
  replace (Z.to_nat (zlen a + zlen b - zlen a)) with (length b) by (unfold zlen; lia).
  by rewrite drop_app_length, take_app_length.
Qed.

Lemma repr_children top cs ts fl i t : repr top (FullNode cs fl) (TFull ts) -> ts !! i = Some t ->
  exists c, cs !! i = Some c /\ repr false c t.
Proof.
  inversion 1 as [| | | |? ? ? ? Hl Hc Hf Hcp]; subst. intros Et.
  destruct (lookup_lt_is_Some_2 cs i) as [c Ec]; [rewrite Hl; by eapply lookup_lt_Some|]. eauto.
Qed.

(** Replacing a child by another that stands for the same subtree keeps the
    cached hash right. *)
Lemma repr_full_update top cs ts fl i c0 c t : repr top (FullNode cs fl) (TFull ts) ->
  ts !! i = Some t -> cs !! i = Some c0 -> repr false c t -> (complete c0 t -> complete c t) ->
  repr top (FullNode (<[i := c]> cs) fl) (TFull ts).
Proof.
  inversion 1 as [| | | |? ? ? ? Hl Hc Hf Hcp]; subst. intros Et Ec Hr Hcm.
  constructor; [by rewrite length_insert | | done |].
  - intros j d u Ed Eu. apply list_lookup_insert_Some in Ed as [(<- & <- & _)|[_ Ed]]; [|eauto].
    by simplify_eq.
  - intros Hh j d u Ed Eu. apply list_lookup_insert_Some in Ed as [(<- & <- & _)|[_ Ed]]; [|eauto].
    simplify_eq. eauto.
Qed.

Lemma complete_full_update cs ts fl i c0 c t : complete (FullNode cs fl) (TFull ts) ->
  ts !! i = Some t -> cs !! i = Some c0 -> (complete c0 t -> complete c t) ->
  complete (FullNode (<[i := c]> cs) fl) (TFull ts).
Proof.
  inversion 1 as [| | | |? ? ? Hb Hc]; subst. intros Et Ec Hcm. constructor; [done|].
  intros j d u Ed Eu. apply list_lookup_insert_Some in Ed as [(<- & <- & _)|[_ Ed]]; [|eauto].
  simplify_eq. eauto.
Qed.

Lemma repr_full_set top cs ts i c t fl : repr top (FullNode cs fl) (TFull ts) -> (i < length ts)%nat ->
  repr false c t -> repr top (FullNode (<[i := c]> cs) newFlag) (TFull (<[i := t]> ts)).
Proof.
  inversion 1 as [| | | |? ? ? ? Hl Hc Hf Hcp]; subst. intros Hi Hr.
  apply repr_full_new; [by rewrite !length_insert|].
  intros j d u Ed Eu. apply list_lookup_insert_Some in Ed as [(<- & <- & _)|[Hij Ed]].
  - rewrite list_lookup_insert_eq in Eu by done. by injection Eu as <-.
  - rewrite list_lookup_insert_ne in Eu by done. eauto.
Qed.

Lemma repr_nil_iff top n t : repr top n t -> n = NilNode <-> t = TNil.
Proof. inversion 1; subst; split; try done. intros ->. done. Qed.

(** ** Lookup *)

Lemma tryGet_spec fuel : forall top n t key pre k,
  repr top n t -> fits t k -> key = pre ++ k -> (need n k <= fuel)%nat ->
  exists n' b, tryGet own fuel n key (zlen pre) = Ok (inl (default [] (tlookup t k), n', b)) /\ repr top n' t /\
    (complete n t -> complete n' t).
Proof.
  induction fuel as [|fuel IH]; intros top n t key pre k Hr Hf -> Hn; [unfold need in Hn; lia|].
  destruct n as [|v|h|p val fl|cs fl|b|p val|cs]; try (by inversion Hr); cbn [tryGet].
  - inversion Hr; subst. do 2 eexists. split_and!; [done | constructor | done].
  - inversion Hr; subst. destruct Hf as [?|[[Hc _]|(v' & _ & [= <-] & ->)]]; [done | by inversion Hc |].
    do 2 eexists. split_and!; [done | constructor | done].
  - destruct (resolveHash_repr top h t pre Hr) as (n & Er & Hrn & Hnh & -> & _).
    pose proof (slice_mid [] pre k) as Hs. cbn [app] in Hs. change (zlen []) with 0 in Hs.
    change (0 + zlen pre) with (zlen pre) in Hs. rewrite Hs. cbn [mbind res_bind]. rewrite Er.
    unfold try at 1. cbn [mbind res_bind].
    destruct (IH top _ t (pre ++ k) pre k Hrn Hf eq_refl) as (n' & b & E & Hr' & Hcm).
    { unfold need in *. rewrite Hnh. cbn in Hn. lia. }
    rewrite E. do 2 eexists. split_and!; [done | done |]. intros _. apply Hcm, complete_load_top.
  - inversion Hr as [| | |? ? ? t' ? Hv Hfl Hcp|]; subst.
    destruct Hf as [?|[[Hc Hk]|(? & _ & ? & _)]]; [done | | done].
    rewrite zlen_app. cbn [tlookup]. destruct (strip p k) as [r|] eqn:Es.
    + apply strip_Some in Es as ->. rewrite zlen_app. pose proof (zlen_nonneg r).
      destruct (Z.ltb_spec (zlen pre + (zlen p + zlen r) - zlen pre) (zlen p)); [lia|].
      rewrite slice_mid. cbn [mbind res_bind]. rewrite bool_decide_true by done. cbn [negb].
      destruct (IH false val t' (pre ++ p ++ r) (pre ++ p) r Hv) as (n' & b & E & Hr' & Hcm).
      { by apply (short_child p). } { by rewrite app_assoc. }
      { assert (p <> []) by by apply canon_short_cases in Hc as [? _].
        pose proof (need_le val r). unfold need in Hn. cbn in Hn. rewrite length_app in Hn.
        destruct p; [done|]. cbn in Hn. lia. }
      rewrite zlen_app in E. rewrite E. do 2 eexists. split; [done|].
      destruct b; [|done]. split; [constructor; auto|]. inversion 1; subst. constructor; auto.
    + rewrite strip_None in Es.
      destruct (Z.ltb_spec (zlen pre + zlen k - zlen pre) (zlen p)); [by do 2 eexists|].
      assert (Hlt : zlen (take (length p) k) = zlen p) by (unfold zlen in *; rewrite length_take; lia).
      pose proof (slice_mid pre (take (length p) k) (drop (length p) k)) as Hs.
      rewrite take_drop, Hlt in Hs. rewrite Hs. cbn [mbind res_bind].
      rewrite bool_decide_false; [by do 2 eexists|].
      intros Ep. apply (Es (drop (length p) k)). rewrite Ep at 1. by rewrite take_drop.
  - inversion Hr as [| | | |? ? ts ? Hl Hch Hfl Hcp]; subst.
    destruct Hf as [?|[[Hc Hk]|(? & _ & ? & _)]]; [done | | done].
    destruct k as [|x k]; [by apply hexkey_nil in Hk|]. pose proof (hexkey_head _ _ Hk).
    rewrite (nth_or_panic_mid pre x) by done. cbn [mbind res_bind].
    destruct (full_child ts x k Hc Hk) as (t & Et & Hf).
    destruct (repr_children _ _ _ _ _ _ Hr Et) as (c & Ec & Hrc).
    rewrite (nth_or_panic_at cs x c) by (done || lia). cbn [mbind res_bind].
    destruct (IH false c t (pre ++ x :: k) (pre ++ [x]) k Hrc Hf) as (n' & b & E & Hr' & Hcm).
    { by rewrite <- app_assoc. }
    { pose proof (need_le c k). unfold need in Hn. cbn in Hn. lia. }
    rewrite zlen_app in E. change (zlen [x]) with 1 in E. rewrite E. rewrite tlookup_full.
    destruct (Z.ltb_spec x 0); [lia|]. rewrite Et. do 2 eexists. split; [done|].
    destruct b; [|done]. split; [by eapply repr_full_update|]. intros ?. by eapply complete_full_update.
Qed.
(** ** Insertion *)

Definition mk_short_node (k : bytes) (n : node) : node :=
  match k with [] => n | _ => ShortNode k n newFlag end.

Lemma zlen_pos {A} (x : A) l : zlen (x :: l) =? 0 = false.
Proof. apply Z.eqb_neq. rewrite zlen_cons. pose proof (zlen_nonneg l). lia. Qed.

Lemma insert_nil fuel pre k n : (1 <= fuel)%nat ->
  insert own fuel NilNode pre k n = Ok (inl (true, mk_short_node k n)).
Proof.
  intros Hf. destruct fuel; [lia|]. destruct k as [|x k]; [done|]. cbn [insert]. by rewrite zlen_pos.
Qed.

Lemma drop_past {A} (p : list A) y k : drop (S (Z.to_nat (zlen p))) (p ++ y :: k) = k.
Proof.
  unfold zlen. rewrite Nat2Z.id. replace (S (length p)) with (length p + 1)%nat by lia.
  by rewrite <- drop_drop, drop_app_length.
Qed.

Lemma take_upto {A} (p k : list A) : take (Z.to_nat (zlen p)) (p ++ k) = p.
Proof. unfold zlen. by rewrite Nat2Z.id, take_app_length. Qed.

Lemma drop_upto {A} (p k : list A) : drop (Z.to_nat (zlen p)) (p ++ k) = k.
Proof. unfold zlen. by rewrite Nat2Z.id, drop_app_length. Qed.

Lemma repr_mk_short k n t : repr false n t -> repr false (mk_short_node k n) (mk_short k t).
Proof. intros Hr. destruct k; [done|]. by apply repr_short_new. Qed.

Lemma repr_two_way i a j b ta tb top : repr false a ta -> repr false b tb ->
  repr top (FullNode (<[j := b]> (<[i := a]> (replicate 17 NilNode))) newFlag) (two_way i ta j tb).
Proof.
  intros Ha Hb. apply repr_full_new; [by rewrite !length_insert, !length_replicate|].
  intros n c t Ec Et. destruct (decide (j = n)) as [<-|].
  - apply list_lookup_insert_Some in Ec as [(_ & <- & Hl)|[? _]]; [|done].
    rewrite list_lookup_insert_eq in Et by (rewrite length_insert, length_replicate in Hl; rewrite length_insert, length_replicate; exact Hl).
    by injection Et as <-.
  - rewrite !list_lookup_insert_ne in * by done. destruct (decide (i = n)) as [<-|].
    + apply list_lookup_insert_Some in Ec as [(_ & <- & Hl)|[? _]]; [|done].
      rewrite list_lookup_insert_eq in Et by (rewrite length_replicate in Hl; rewrite length_replicate; exact Hl). by injection Et as <-.
    + rewrite !list_lookup_insert_ne in * by done.
      apply lookup_replicate in Ec as [-> _]. apply lookup_replicate in Et as [-> _]. constructor.
Qed.

(** The result of an insertion: whether anything changed, the node, and the tree
    it represents. *)
Definition inserted (r : res (bool * node + MissingNodeError)) (top : bool) (t : tree) (k w : bytes) : Prop :=
  exists b n' t', r = Ok (inl (b, n')) /\ repr top n' t' /\ (hexkey k -> canon t') /\
    (k = [] -> t' = TVal w) /\ updated t' t k (Some w) /\ (b = false -> t' = t).

(** The case of a short node whose key parts from the new key. *)
Lemma insert_split fuel top p x k1 y k2 n c fl pre w : (1 <= fuel)%nat -> x <> y ->
  prefixLen (p ++ x :: k1) (p ++ y :: k2) = zlen p ->
  repr top (ShortNode (p ++ y :: k2) n fl) (TShort (p ++ y :: k2) c) -> canon (TShort (p ++ y :: k2) c) ->
  hexkey (p ++ x :: k1) -> w <> [] ->
  inserted (insert own (S fuel) (ShortNode (p ++ y :: k2) n fl) pre (p ++ x :: k1) (ValueNode w))
    top (TShort (p ++ y :: k2) c) (p ++ x :: k1) w.
Proof.
  intros Hf Hxy Hpl Hr Hc Hk Hw. destruct (tail_child_ok p y k2 c Hc) as [Hy Hcy].
  destruct (hexkey_app_cons p x k1 Hk) as [Hp Hxk]. pose proof (hexkey_head x k1 Hxk) as Hx.
  cbn [insert]. rewrite Hpl.
  destruct (Z.eqb_spec (zlen (p ++ x :: k1)) 0) as [E|_].
  { rewrite zlen_app, zlen_cons in E. pose proof (zlen_nonneg p). pose proof (zlen_nonneg k1). lia. }
  destruct (Z.eqb_spec (zlen p) (zlen (p ++ y :: k2))) as [E|_].
  { rewrite zlen_app, zlen_cons in E. pose proof (zlen_nonneg k2). lia. }
  rewrite (nth_or_panic_mid p y k2), (nth_or_panic_mid p x k1) by done. cbn [mbind res_bind].
  rewrite !drop_past, take_upto, (insert_nil fuel _ k2 n Hf).
  unfold try at 1. cbn [mbind res_bind].
  rewrite set_child_at by (change (zlen (replicate 17 NilNode)) with 17; lia). cbn [mbind res_bind].
  rewrite (insert_nil fuel _ k1 (ValueNode w) Hf). unfold try at 1. cbn [mbind res_bind].
  rewrite set_child_at by (unfold zlen; rewrite length_insert, length_replicate; lia). cbn [mbind res_bind].
  assert (Hrn : repr false n c) by by inversion Hr.
  set (br := two_way (Z.to_nat y) (mk_short k2 c) (Z.to_nat x) (mk_short k1 (TVal w))).
  assert (Hbr : forall top, repr top (FullNode (<[Z.to_nat x := mk_short_node k1 (ValueNode w)]>
      (<[Z.to_nat y := mk_short_node k2 n]> (replicate 17 NilNode))) newFlag) br).
  { intros top'. apply repr_two_way; apply repr_mk_short; [done|constructor]. }
  assert (Hcbr : canon br) by (apply canon_two_way; [lia | done | by apply leaf_child_ok]).
  match goal with |- inserted ?r _ _ _ _ => assert (Hfin : exists n', r = Ok (inl (true, n')) /\ repr top n' (mk_short p br)) end.
  { destruct p as [|z p].
    - eexists. split; [done | apply Hbr].
    - rewrite zlen_pos. eexists. split; [done|]. by apply repr_short_new. }
  destruct Hfin as (n' & -> & Hrn'). exists true, n', (mk_short p br). split_and!; [done | done | ..].
  - intros _. by apply canon_mk_short.
  - by destruct p.
  - replace (TShort (p ++ y :: k2) c) with (mk_short (p ++ y :: k2) c) by by destruct p.
    intros k'. rewrite mk_short_app. apply updated_mk_short. apply updated_branch; done.
  - done.
Qed.
(** A canonical tree with all the keys of a full node is a full node. *)
Lemma canon_stays_full ts t : canon (TFull ts) -> canon t ->
  (forall k v, tlookup (TFull ts) k = Some v -> exists v', tlookup t k = Some v') -> exists ts', t = TFull ts'.
Proof.
  intros Hc Ht Hsub. destruct t as [| |p c|ts']; [by inversion Ht | by inversion Ht | | by eauto].
  exfalso. by apply (short_not_full _ _ _ Ht Hc).
Qed.

Lemma updated_keys t' t k w : updated t' t k (Some w) ->
  forall k' v, tlookup t k' = Some v -> exists v', tlookup t' k' = Some v'.
Proof. intros Hu k' v E. rewrite Hu. destruct (decide _); eauto. Qed.

(** A short node whose key the new key goes on from, and a full node: the child
    is replaced when it changed. *)
Lemma inserted_short r top p n c fl k w : canon (TShort p c) -> hexkey (p ++ k) -> w <> [] ->
  repr top (ShortNode p n fl) (TShort p c) -> inserted r false c k w ->
  inserted ('(dirty, nn) ←? r;
            if negb dirty then Ok (inl (false, ShortNode p n fl))
            else Ok (inl (true, ShortNode p nn newFlag))) top (TShort p c) (p ++ k) w.
Proof.
  intros Hc Hk Hw Hr (b & n' & c' & -> & Hr' & Hcc & Hck & Hu & Hb).
  assert (Hp : p <> []) by by apply canon_short_cases in Hc as [? _].
  assert (Hcan : canon (TShort p c')).
  { pose proof Hc as [_ [(v & ns & Hv & -> & Hns & ->)|(ts & Hns & Hts & ->)]]%canon_short_cases.
    - rewrite <- app_assoc in Hk. apply hexkey_prefix in Hk; [|done]. rewrite Hck by done. by constructor.
    - apply hexkey_app in Hk; [|done]. destruct (canon_stays_full ts c' Hts) as [ts' ->]; [auto | by eapply updated_keys |].
      constructor; auto. }
  pose proof (updated_short p c c' k _ Hp Hu) as Hup. assert (Hne : p ++ k <> []) by by destruct p.
  unfold try. cbn [mbind res_bind]. destruct b; cbn [negb]; do 3 eexists; (split; [done|]).
  - split_and!; [| done | done | exact Hup | done]. by apply repr_short_new.
  - rewrite (Hb eq_refl) in *. by split_and!; [exact Hr | ..].
Qed.

Lemma inserted_full r top cs ts fl x c k w : canon (TFull ts) -> hexkey (x :: k) -> w <> [] ->
  repr top (FullNode cs fl) (TFull ts) -> ts !! Z.to_nat x = Some c -> inserted r false c k w ->
  inserted ('(dirty, nn) ←? r;
            if negb dirty then Ok (inl (false, FullNode cs fl))
            else cs ← set_child cs x nn; Ok (inl (true, FullNode cs newFlag))) top (TFull ts) (x :: k) w.
Proof.
  intros Hc Hk Hw Hr Ec (b & n' & c' & -> & Hr' & Hcc & Hck & Hu & Hb).
  pose proof (hexkey_head x k Hk) as Hx.
  assert (Hlt : length ts = 17%nat /\ length cs = length ts) by (split; [by inversion Hc | by inversion Hr]).
  pose proof (updated_full ts _ c c' k _ Ec Hu) as Hup. rewrite Z2Nat.id in Hup by lia.
  unfold try. cbn [mbind res_bind]. destruct b; cbn [negb].
  - rewrite set_child_at by (unfold zlen; lia). cbn [mbind res_bind]. do 3 eexists. split; [done|].
    split_and!; [eapply repr_full_set; [done | lia | done] | | done | exact Hup | done].
    intros _. apply canon_full_set; [done | lia |].
    apply hexkey_cons in Hk as [[-> ->]|[Hn Hk]].
    + right. split; [done|]. exists w. by rewrite Hck.
    + left. unfold is_nibble in Hn. split; [lia | auto].
  - do 3 eexists. split; [done|]. rewrite (Hb eq_refl), list_insert_id in Hup by done.
    by split_and!; [exact Hr | ..].
Qed.

(** At the end of the key the value itself is replaced. *)
Lemma insert_at_value fuel top n t pre w : repr top n t -> fits t [] -> w <> [] ->
  inserted (insert own (S fuel) n pre [] (ValueNode w)) top t [] w.
Proof.
  intros Hr Hf Hw. assert (Ht : t = TNil \/ exists v, t = TVal v).
  { destruct Hf as [?|[[_ ?%hexkey_nil]|(v & _ & ? & _)]]; [by left | done | eauto]. }
  destruct Ht as [->|[v ->]]; (inversion Hr; subst; [|by cbn in *]); cbn [insert zlen length].
  - exists true, (ValueNode w), (TVal w). split_and!; [done | constructor | by intros ?%hexkey_nil | done | | done].
    intros k'. cbn. destruct (decide _) as [->|]; [done|]. by rewrite bool_decide_false.
  - do 3 eexists. split_and!; [done | constructor | by intros ?%hexkey_nil | done | |].
    + intros k'. cbn. destruct (decide _) as [->|]; [done|]. by rewrite bool_decide_false.
    + intros Hd%negb_false_iff%bool_decide_eq_true. by subst.
Qed.

(** The key of a value does not end inside the key of a short node. *)
Lemma hexkey_not_inside q y b c : canon (TShort (q ++ y :: b) c) -> ~ hexkey q.
Proof.
  intros Hc (ns & Hns & ->). rewrite <- app_assoc in Hc.
  apply canon_short_cases in Hc as [_ [(v & ms & _ & _ & Hms & E)|(ts & Hn & _)]].
  - assert (H16 : hexkey (ns ++ [16] ++ y :: b)) by (exists ms; done). by apply hexkey_prefix in H16.
  - apply nibbles_app in Hn as [_ [H16 _]%Forall_cons]. by apply nibble_not_term in H16.
Qed.

Lemma insert_spec fuel : forall top n t pre k w,
  repr top n t -> fits t k -> (k = [] \/ hexkey k) -> w <> [] -> (need n k <= fuel)%nat ->
  inserted (insert own fuel n pre k (ValueNode w)) top t k w.
Proof.
  induction fuel as [|fuel IH]; intros top n t pre k w Hr Hf Hk Hw Hn; [unfold need in Hn; lia|].
  destruct Hk as [->|Hk]; [by apply insert_at_value|].
  assert (Hk0 : zlen k =? 0 = false) by (destruct k; [by apply hexkey_nil in Hk | apply zlen_pos]).
  assert (Hk1 : (1 <= length k)%nat) by (destruct k; [done | cbn; lia]).
  destruct n as [|v|h|p val fl|cs fl|b|p val|cs]; try (by inversion Hr).
  - inversion Hr; subst. rewrite insert_nil by lia. exists true, (mk_short_node k (ValueNode w)), (mk_short k (TVal w)).
    destruct k as [|x k]; [done|]. split_and!; [done | | | done | | done].
    + apply repr_short_new; constructor.
    + intros (ns & Hns & E). cbn [mk_short]. rewrite E. by constructor.
    + apply updated_leaf.
  - inversion Hr; subst. destruct Hf as [?|[[Hc _]|(? & _ & _ & ->)]]; [done | by inversion Hc | done].
  - destruct (resolveHash_repr top h t pre Hr) as (n & Er & Hrn & Hnh & _).
    cbn [insert]. rewrite Hk0, Er. unfold try at 1. cbn [mbind res_bind].
    destruct (IH top n t pre k w Hrn Hf (or_intror Hk) Hw) as (b & n' & t' & -> & Hr' & Hrest).
    { unfold need in *. rewrite Hnh. cbn in Hn. lia. }
    unfold try. cbn [mbind res_bind]. destruct b; cbn [negb]; [by exists true, n', t'|].
    destruct Hrest as (? & ? & ? & Hb). rewrite (Hb eq_refl) in *. exists false, n, t. done.
  - inversion Hr as [| | |? ? ? t' ? Hv Hfl Hcp|]; subst.
    destruct Hf as [?|[[Hc _]|(? & _ & ? & _)]]; [done | | done].
    destruct (prefixLen_spec k p) as (q & a & b & -> & -> & Hpl & Hd).
    destruct b as [|y b].
    + rewrite app_nil_r in *. cbn [insert]. rewrite Hk0, Hpl, Z.eqb_refl, take_upto, drop_upto.
      eapply (inserted_short _ top q val t' fl a w); [done | done | done | done |].
      assert (Hq : q <> []) by by apply canon_short_cases in Hc as [? _].
      pose proof (short_child q t' a Hc Hk) as Hfa. apply IH; [done | done | | done |].
      * apply canon_short_cases in Hc as [_ [(v & ns & _ & _ & Hns & ->)|(ts & Hns & _)]].
        -- rewrite <- app_assoc in Hk. apply hexkey_prefix in Hk; auto.
        -- right. by apply hexkey_app in Hk.
      * pose proof (need_le val a). unfold need in Hn. cbn in Hn. rewrite length_app in Hn.
        destruct q; [done|]. cbn in Hn. lia.
    + destruct a as [|x a]; [rewrite app_nil_r in Hk; by apply hexkey_not_inside in Hc|].
      destruct Hd as [?|[?|Hd]]; [done | done |]. cbn in Hd.
      apply insert_split; try done. unfold need in Hn. lia.
  - inversion Hr as [| | | |? ? ts ? Hl Hch Hfl Hcp]; subst.
    destruct Hf as [?|[[Hc _]|(? & _ & ? & _)]]; [done | | done].
    destruct k as [|x k]; [by apply hexkey_nil in Hk|]. pose proof (hexkey_head _ _ Hk).
    destruct (full_child ts x k Hc Hk) as (t & Et & Hf).
    destruct (repr_children _ _ _ _ _ _ Hr Et) as (c & Ec & Hrc).
    cbn [insert]. rewrite Hk0. change (nth_or_panic (x :: k) 0) with (Ok x). cbn [mbind res_bind].
    rewrite (nth_or_panic_at cs x c) by (done || lia). cbn [mbind res_bind].
    change (drop 1 (x :: k)) with k. eapply inserted_full; [done .. |].
    apply IH; [done | done | | done |].
    + apply hexkey_cons in Hk as [[_ ->]|[_ ?]]; auto.
    + pose proof (need_le c k). unfold need in Hn. cbn in Hn. lia.
Qed.
(** ** Deletion *)

Lemma remaining_found cs i p : 0 <= p ->
  (Forall (fun c => is_nil c = true) cs /\ remaining cs i p = p) \/
  (exists j c, cs !! j = Some c /\ is_nil c = false /\ remaining cs i p = -2).
Proof.
  intros Hp. revert i. induction cs as [|c cs IH]; intros i; cbn [remaining].
  - left. split; [constructor | done].
  - destruct (is_nil c) eqn:Ec.
    + destruct (IH (i + 1)) as [[Hf ->]|(j & d & Ed & Hd & ->)].
      * left. split; [by constructor | done].
      * right. by exists (S j), d.
    + right. exists 0%nat, c. destruct (Z.eqb_spec p (-1)); [lia|]. done.
Qed.

(** The loop finds the only child that is left, or that there are several. *)
Lemma remaining_spec cs i : 0 <= i ->
  (Forall (fun c => is_nil c = true) cs /\ remaining cs i (-1) = -1) \/
  (exists j c, cs !! j = Some c /\ is_nil c = false /\ remaining cs i (-1) = i + Z.of_nat j /\
     forall j' c', j' <> j -> cs !! j' = Some c' -> is_nil c' = true) \/
  (exists j1 j2 c1 c2, j1 <> j2 /\ cs !! j1 = Some c1 /\ cs !! j2 = Some c2 /\
     is_nil c1 = false /\ is_nil c2 = false /\ remaining cs i (-1) = -2).
Proof.
  revert i. induction cs as [|c cs IH]; intros i Hi; cbn [remaining].
  - left. split; [constructor | done].
  - destruct (is_nil c) eqn:Ec.
    + destruct (IH (i + 1)) as [[Hf ->]|[(j & d & Ed & Hd & -> & Ho)|(j1 & j2 & c1 & c2 & Hj & E1 & E2 & H1 & H2 & ->)]]; [lia | ..].
      * left. split; [by constructor | done].
      * right; left. exists (S j), d. split_and!; [done | done | lia |].
        intros [|j'] c' Hj' E'; [by injection E' as <- | apply (Ho j' c'); [lia | done]].
      * right; right. exists (S j1), (S j2), c1, c2. split_and!; try done. lia.
    + change (-1 =? -1) with true. cbn iota. destruct (remaining_found cs (i + 1) i Hi) as [[Hf ->]|(j & d & Ed & Hd & ->)].
      * right; left. exists 0%nat, c. split_and!; [done | done | lia |].
        intros [|j'] c' Hj' E'; [done|]. cbn in E'. rewrite Forall_forall in Hf. apply Hf. by eapply list_elem_of_lookup_2.
      * right; right. exists 0%nat, (S j), c, d. done.
Qed.

Definition deleted (r : res (bool * node + MissingNodeError)) (top : bool) (t : tree) (k : bytes) : Prop :=
  exists b n' t', r = Ok (inl (b, n')) /\ repr top n' t' /\ canon0 t' /\ (k = [] -> t' = TNil) /\
    updated t' t k None /\ (b = false -> t' = t) /\ (b = true -> is_hash n' = false).

(** Nothing to delete. *)
Lemma deleted_absent top n t k : repr top n t -> canon0 t -> hexkey k -> tlookup t k = None ->
  deleted (Ok (inl (false, n))) top t k.
Proof.
  intros Hr Hc Hk Hl. exists false, n, t. split_and!; try done.
  - intros ->. by apply hexkey_nil in Hk.
  - rewrite <- Hl. apply updated_refl.
Qed.

(** Something is left of a full node. *)
Lemma full_not_emptied ts t x k : canon (TFull ts) -> updated t (TFull ts) (x :: k) None -> t <> TNil.
Proof.
  intros Hc Hu ->. destruct (canon_full_two ts x Hc) as (y & k' & v & Hy & Hk).
  specialize (Hu (y :: k')). rewrite decide_False in Hu by (by intros [= ?]). by rewrite Hk in Hu.
Qed.

Lemma canon_prepend p q c : nibbles p -> canon (TShort q c) -> canon (TShort (p ++ q) c).
Proof.
  intros Hp [Hq [(v & ns & Hv & -> & Hns & ->)|(ts & Hns & Hts & ->)]]%canon_short_cases.
  - rewrite app_assoc. constructor; [by apply nibbles_app | done].
  - constructor; [by apply nibbles_app | | done]. by destruct p.
Qed.

(** A short node over what is left of its subtrie. *)
Lemma deleted_short r top p n ts fl k : canon (TShort p (TFull ts)) -> hexkey k ->
  repr top (ShortNode p n fl) (TShort p (TFull ts)) -> deleted r false (TFull ts) k ->
  deleted ('(dirty, child) ←? r;
           if negb dirty then Ok (inl (false, ShortNode p n fl))
           else match child with
                | ShortNode cKey cVal _ => Ok (inl (true, ShortNode (p ++ cKey) cVal newFlag))
                | _ => Ok (inl (true, ShortNode p child newFlag))
                end) top (TShort p (TFull ts)) (p ++ k).
Proof.
  intros Hc Hk Hr (b & n' & c' & -> & Hr' & Hcc & _ & Hu & Hb & Hh).
  pose proof Hc as [Hp [(? & ? & _ & ? & _)|(ts0 & Hns & Hts & [= <-])]]%canon_short_cases; [done|].
  pose proof (updated_short p _ c' k _ Hp Hu) as Hup.
  assert (Hne : p ++ k <> []) by by destruct p.
  unfold try. cbn [mbind res_bind]. destruct b; cbn [negb].
  2:{ rewrite (Hb eq_refl) in Hup. exists false. do 2 eexists. split; [done|]. by split_and!; [exact Hr | right | ..]. }
  destruct k as [|x k]; [by apply hexkey_nil in Hk|].
  destruct Hcc as [->|Hcc]; [by apply full_not_emptied in Hu|]. specialize (Hh eq_refl).
  destruct c' as [| |q d|us]; [by inversion Hcc | by inversion Hcc | |]; inversion Hr'; subst; try done.
  - exists true. do 2 eexists. split; [done|].
    split_and!; [by apply repr_short_new | right; by apply canon_prepend | done | | done | done].
    intros k'. rewrite <- Hup. apply canon_short_cases in Hcc as [Hq _].
    pose proof (mk_short_app p q d k') as E. destruct p, q; done.
  - exists true. do 2 eexists. split; [done|].
    split_and!; [by apply repr_short_new | right; by constructor | done | exact Hup | done | done].
Qed.
(** A full node with one child is a short node with one symbol. *)
Lemma single_child ts j c : ts !! j = Some c ->
  (forall j' c', j' <> j -> ts !! j' = Some c' -> c' = TNil) ->
  forall k, tlookup (mk_short [Z.of_nat j] c) k = tlookup (TFull ts) k.
Proof.
  intros Ec Ho k. rewrite tlookup_mk_short. destruct (full_key_cases k) as [[Hk Hne]|(i & r & ->)].
  - rewrite Hk. destruct (strip [Z.of_nat j] k) as [r|] eqn:E; [|done].
    apply strip_Some in E as ->. by destruct (Hne j r).
  - cbn [strip]. destruct (Z.eqb_spec (Z.of_nat j) (Z.of_nat i)) as [E|Hne].
    + assert (j = i) as -> by lia. by rewrite (tlookup_child ts i c).
    + rewrite tlookup_full. destruct (Z.ltb_spec (Z.of_nat i) 0); [lia|]. rewrite Nat2Z.id.
      destruct (ts !! i) as [d|] eqn:Ed; [|done]. by rewrite (Ho i d) by (done || lia).
Qed.

(** The reduction of a full node whose only child is [c]. *)
Definition reduce (prefix : bytes) (pos : Z) (c : node) : res (bool * node + MissingNodeError) :=
  let one := ShortNode [u8 pos] c newFlag in
  if negb (pos =? 16) then
    cnode ←? resolve own c prefix;
    match cnode with
    | ShortNode cKey cVal _ => Ok (inl (true, ShortNode (u8 pos :: cKey) cVal newFlag))
    | _ => Ok (inl (true, one))
    end
  else Ok (inl (true, one)).

Lemma resolve_repr c t prefix : repr false c t -> exists n, resolve own c prefix = Ok (inl n) /\
  repr false n t /\ is_hash n = false.
Proof.
  intros Hr. destruct c; cbn [resolve]; try (by eexists; split_and!; [|exact Hr|]).
  destruct (resolveHash_repr false h t prefix Hr) as (n & ? & ? & ? & _). eauto.
Qed.

Lemma reduce_spec top prefix j c t : repr false c t -> child_ok j t ->
  exists n' t', reduce prefix (Z.of_nat j) c = Ok (inl (true, n')) /\ repr top n' t' /\ canon t' /\
    is_hash n' = false /\ forall k, tlookup t' k = tlookup (mk_short [Z.of_nat j] t) k.
Proof.
  intros Hr Hok. unfold reduce.
  assert (Hj : u8 (Z.of_nat j) = Z.of_nat j) by (destruct Hok as [[? _]|[-> _]]; apply Z.mod_small; lia).
  rewrite Hj. assert (Hone : forall top, repr top (ShortNode [Z.of_nat j] c newFlag) (TShort [Z.of_nat j] t))
    by (intros; by apply repr_short_new).
  destruct Hok as [[Hlt Hc]|(-> & v & Hv & ->)].
  - destruct (Z.eqb_spec (Z.of_nat j) 16) as [|_]; [lia|]. cbn [negb].
    destruct (resolve_repr c t prefix Hr) as (n & -> & Hrn & Hh). unfold try. cbn [mbind res_bind].
    assert (Hnib : nibbles [Z.of_nat j]) by (repeat constructor; lia).
    destruct t as [| |q d|us]; [by inversion Hc | by inversion Hc | |]; inversion Hrn; subst; try done.
    + do 2 eexists. split; [done|]. split_and!; [by apply repr_short_new | | done |].
      * by apply (canon_prepend [Z.of_nat j]).
      * intros k. pose proof (mk_short_app [Z.of_nat j] q d k) as E.
        apply canon_short_cases in Hc as [Hq _]. by destruct q.
    + do 2 eexists. split; [done|]. split_and!; [apply Hone | by constructor | done | done].
  - change (Z.of_nat 16 =? 16) with true. cbn [negb]. do 2 eexists. split; [done|].
    split_and!; [apply Hone | by apply (canon_leaf []); [constructor|] | done | done].
Qed.

Lemma repr_nil_false top n t : repr top n t -> is_nil n = false <-> t <> TNil.
Proof. intros Hr. apply repr_nil_iff in Hr. destruct n; cbn; naive_solver. Qed.

Lemma repr_nil_true top n t : repr top n t -> is_nil n = true -> t = TNil.
Proof. intros Hr Hn. apply (repr_nil_iff _ _ _ Hr). by destruct n. Qed.

(** After the child at [x] is gone. *)
Lemma delete_reduce top prefix cs ts fl x : canon (TFull ts) -> 0 <= x <= 16 ->
  repr top (FullNode cs fl) (TFull ts) ->
  let cs' := <[Z.to_nat x := NilNode]> cs in
  exists n' t', (let pos := remaining cs' 0 (-1) in
                 if pos >=? 0 then c ← nth_or_panic cs' pos; reduce prefix pos c
                 else Ok (inl (true, FullNode cs' newFlag))) = Ok (inl (true, n')) /\
    repr top n' t' /\ canon t' /\ is_hash n' = false /\
    forall k, tlookup t' k = tlookup (TFull (<[Z.to_nat x := TNil]> ts)) k.
Proof.
  intros Hc Hx Hr cs'. pose proof Hc as (Hl & Hok & (a & b & ca & cb & Hab & Ea & Eb & Ha & Hb))%canon_full_iff.
  set (ts' := <[Z.to_nat x := TNil]> ts).
  assert (Hr' : repr top (FullNode cs' newFlag) (TFull ts'))
    by (eapply repr_full_set; [done | lia | constructor]).
  inversion Hr' as [| | | |? ? ? ? Hl' Hch' Hf' Hcp']; subst.
  assert (Hts : forall j d, ts' !! j = Some d -> d <> TNil -> ts !! j = Some d /\ child_ok j d).
  { intros j d Ed Hd. apply list_lookup_insert_Some in Ed as [(_ & <- & _)|[_ Ed]]; [done|]. auto. }
  assert (Hpair : forall j n, cs' !! j = Some n -> exists d, ts' !! j = Some d /\ repr false n d).
  { intros j n En. destruct (lookup_lt_is_Some_2 ts' j) as [d Ed]; [rewrite <- Hl'; by eapply lookup_lt_Some|].
    exists d. split; [done|]. by apply (Hch' j). }
  cbv zeta. destruct (remaining_spec cs' 0) as [[Hf ->]|[(j & n & En & Hn & -> & Ho)|(j1 & j2 & n1 & n2 & Hj & E1 & E2 & H1 & H2 & ->)]]; [lia | ..].
  - exfalso. assert (Hall : forall j d, ts' !! j = Some d -> d = TNil).
    { intros j d Ed. destruct (repr_children _ _ _ _ _ _ Hr' Ed) as (n & En & Hrn).
      apply (repr_nil_true _ _ _ Hrn). rewrite Forall_forall in Hf. apply Hf. by eapply list_elem_of_lookup_2. }
    destruct (decide (Z.to_nat x = a)) as [<-|Hxa].
    + apply Hb, (Hall b). unfold ts'. by rewrite list_lookup_insert_ne.
    + apply Ha, (Hall a). unfold ts'. by rewrite list_lookup_insert_ne.
  - destruct (Z.geb_spec (0 + Z.of_nat j) 0); [|lia]. change (0 + Z.of_nat j) with (Z.of_nat j).
    rewrite (nth_or_panic_at cs' _ n) by (rewrite ?Nat2Z.id; done || lia). cbn [mbind res_bind].
    destruct (Hpair j n En) as (d & Ed & Hrd). apply (repr_nil_false _ _ _ Hrd) in Hn.
    destruct (reduce_spec top prefix j n d Hrd) as (n' & t' & -> & Hrn' & Hct & Hh & Hk); [by apply Hts|].
    exists n', t'. split_and!; [done .. |]. intros k. rewrite Hk. apply single_child; [done|].
    intros j' c' Hj' Ec'. destruct (repr_children _ _ _ _ _ _ Hr' Ec') as (m & Em & Hrm).
    apply (repr_nil_true _ _ _ Hrm). by apply (Ho j' m).
  - exists (FullNode cs' newFlag), (TFull ts'). split_and!; [done | done | | done | done].
    destruct (Hpair j1 n1 E1) as (d1 & Ed1 & Hr1). destruct (Hpair j2 n2 E2) as (d2 & Ed2 & Hr2).
    apply (repr_nil_false _ _ _ Hr1) in H1. apply (repr_nil_false _ _ _ Hr2) in H2.
    apply canon_full_iff. split_and!; [by unfold ts'; rewrite length_insert | by intros; apply Hts | by exists j1, j2, d1, d2].
Qed.
Lemma deleted_full r top cs ts fl x c k prefix : canon (TFull ts) -> hexkey (x :: k) ->
  repr top (FullNode cs fl) (TFull ts) -> ts !! Z.to_nat x = Some c -> deleted r false c k ->
  deleted ('(dirty, nn) ←? r;
           if negb dirty then Ok (inl (false, FullNode cs fl))
           else
             cs ← set_child cs x nn;
             if negb (is_nil nn) then Ok (inl (true, FullNode cs newFlag))
             else let pos := remaining cs 0 (-1) in
                  if pos >=? 0 then c ← nth_or_panic cs pos; reduce prefix pos c
                  else Ok (inl (true, FullNode cs newFlag))) top (TFull ts) (x :: k).
Proof.
  intros Hc Hk Hr Ec (b & n' & c' & -> & Hr' & Hcc & Hck & Hu & Hb & Hh).
  pose proof (hexkey_head x k Hk) as Hx.
  assert (Hlt : length ts = 17%nat /\ length cs = length ts) by (split; [by inversion Hc | by inversion Hr]).
  pose proof (updated_full ts _ c c' k _ Ec Hu) as Hup. rewrite Z2Nat.id in Hup by lia.
  unfold try. cbn [mbind res_bind]. destruct b; cbn [negb].
  2:{ exists false. do 2 eexists. split; [done|]. rewrite (Hb eq_refl), list_insert_id in Hup by done.
      by split_and!; [exact Hr | right | ..]. }
  rewrite set_child_at by (unfold zlen; lia). cbn [mbind res_bind].
  destruct (is_nil n') eqn:En; cbn [negb].
  - destruct n'; try done. inversion Hr'; subst.
    destruct (delete_reduce top prefix cs ts fl x Hc Hx Hr) as (m & t' & E & Hrm & Hcm & Hhm & Hkm).
    cbv zeta in E |- *. rewrite E.
    exists true, m, t'. split_and!; [done | done | by right | done | | done | done].
    intros k'. by rewrite Hkm.
  - apply (repr_nil_false _ _ _ Hr') in En. destruct Hcc as [->|Hcc]; [done|].
    exists true. do 2 eexists. split; [done|].
    split_and!; [eapply repr_full_set; [done | lia | done] | right | done | exact Hup | done | done].
    apply canon_full_set; [done | lia |]. left. split; [|done].
    apply hexkey_cons in Hk as [[-> ->]|[Hn _]]; [by destruct (En (Hck eq_refl)) | unfold is_nibble in Hn; lia].
Qed.

Lemma prefix_not_found k p q a y b c : k = q ++ a -> p = q ++ y :: b ->
  (a = [] \/ hd 0 a <> y) -> tlookup (TShort p c) k = None.
Proof.
  intros -> -> Hd. cbn [tlookup]. destruct (strip _ _) as [r|] eqn:E; [|done]. exfalso.
  apply strip_Some in E. rewrite <- app_assoc in E. apply app_inv_head in E. subst a. by destruct Hd.
Qed.

Lemma delete_short fuel top p val t fl pre k :
  (forall pre a, (length a < length k)%nat -> fits t a -> hexkey a -> deleted (delete own fuel val pre a) false t a) ->
  repr top (ShortNode p val fl) (TShort p t) -> canon (TShort p t) -> hexkey k ->
  deleted (delete own (S fuel) (ShortNode p val fl) pre k) top (TShort p t) k.
Proof.
  intros IH Hr Hc Hk. cbn [delete].
  destruct (prefixLen_spec k p) as (q & a & b & -> & -> & -> & Hd). rewrite !zlen_app.
  destruct b as [|y b].
  - rewrite app_nil_r in *. change (zlen (@nil Z)) with 0.
    destruct (Z.ltb_spec (zlen q) (zlen q + 0)); [lia|].
    pose proof Hc as [Hq [(v & ns & Hv & -> & Hns & ->)|(ts & Hns & Hts & ->)]]%canon_short_cases.
    + rewrite <- app_assoc in Hk. apply hexkey_prefix in Hk as ->; [|done].
      destruct (Z.eqb_spec (zlen (ns ++ [16])) (zlen (ns ++ [16]) + zlen (@nil Z))) as [_|E]; [|by rewrite zlen_nil in E; lia].
      exists true, NilNode, TNil. split_and!; [done | constructor | by left | done | | done | done].
      intros k'. rewrite app_nil_r. destruct (decide _) as [|Hne]; [done|].
      change (tlookup TNil k') with (@None bytes). destruct (tlookup (TShort _ _) k') eqn:E; [|done].
      apply tlookup_short_Some in E as (r & -> & E). cbn in E. case_bool_decide; [|done]. subst.
      by rewrite app_nil_r in Hne.
    + apply hexkey_app in Hk; [|done]. destruct (Z.eqb_spec (zlen q) (zlen q + zlen a)) as [E|_].
      { destruct a; [by apply hexkey_nil in Hk | rewrite zlen_cons in E; pose proof (zlen_nonneg a); lia]. }
      rewrite take_app_length, drop_app_length.
      eapply (deleted_short _ top q val ts fl a); [done | done | done |].
      apply IH; [|right; by left|done]. rewrite length_app. destruct q; [done | cbn; lia].
  - destruct (Z.ltb_spec (zlen q) (zlen q + zlen (y :: b))) as [_|E].
    2:{ rewrite zlen_cons in E. pose proof (zlen_nonneg b). lia. }
    apply deleted_absent; [done | by right | done |].
    eapply prefix_not_found; [done | done |]. destruct Hd as [?|[?|?]]; [by left | done | by right].
Qed.

Lemma delete_spec fuel : forall top n t pre k,
  repr top n t -> fits t k -> (k = [] \/ hexkey k) -> (need n k <= fuel)%nat ->
  deleted (delete own fuel n pre k) top t k.
Proof.
  induction fuel as [|fuel IH]; intros top n t pre k Hr Hf Hk Hn; [unfold need in Hn; lia|].
  destruct n as [|v|h|p val fl|cs fl|b|p val|cs]; try (by inversion Hr).
  - inversion Hr; subst. exists false, NilNode, TNil. split_and!; [done | done | by left | done | | done | done].
    intros k'. by destruct (decide _).
  - inversion Hr; subst. destruct Hf as [?|[[Hc _]|(? & _ & _ & ->)]]; [done | by inversion Hc |].
    exists true, NilNode, TNil. split_and!; [done | constructor | by left | done | | done | done].
    intros k'. destruct (decide _) as [|Hne]; [done|]. cbn. by rewrite bool_decide_false.
  - destruct (resolveHash_repr top h t pre Hr) as (n & Er & Hrn & Hnh & _).
    cbn [delete]. rewrite Er. unfold try at 1. cbn [mbind res_bind].
    destruct (IH top n t pre k Hrn Hf Hk) as (b & n' & t' & -> & Hr' & Hcc & Hck & Hu & Hb & Hh).
    { unfold need in *. rewrite Hnh. cbn in Hn. lia. }
    unfold try. cbn [mbind res_bind]. destruct b; cbn [negb]; [by exists true, n', t'|].
    rewrite (Hb eq_refl) in *. by exists false, n, t.
  - inversion Hr as [| | |? ? ? t' ? Hv Hfl Hcp|]; subst.
    destruct Hf as [?|[[Hc Hk']|(? & _ & ? & _)]]; [done | | done].
    apply delete_short; [|done..]. intros pre' a Hla Hfa Ha. apply IH; [done | done | by right |].
    pose proof (need_le val a). unfold need in Hn. cbn in Hn. lia.
  - inversion Hr as [| | | |? ? ts ? Hl Hch Hfl Hcp]; subst.
    destruct Hf as [?|[[Hc Hk']|(? & _ & ? & _)]]; [done | | done].
    destruct k as [|x k]; [by apply hexkey_nil in Hk'|]. pose proof (hexkey_head _ _ Hk').
    destruct (full_child ts x k Hc Hk') as (t & Et & Hf).
    destruct (repr_children _ _ _ _ _ _ Hr Et) as (c & Ec & Hrc).
    cbn [delete]. change (nth_or_panic (x :: k) 0) with (Ok x). cbn [mbind res_bind].
    rewrite (nth_or_panic_at cs x c) by (done || lia). cbn [mbind res_bind].
    change (drop 1 (x :: k)) with k. eapply deleted_full; [done .. |].
    apply IH; [done | done | |].
    + apply hexkey_cons in Hk' as [[_ ->]|[_ ?]]; auto.
    + pose proof (need_le c k). unfold need in Hn. cbn in Hn. lia.
Qed.
End ops.
