(* ===== verification/TrieHash.v ===== *)
(** * Hashing a trie

    [hash] of [hasher.go] returns, for a node that represents a tree, the
    reference encoding of the tree or its hash, whatever parts of it are loaded
    and whatever hashes are cached; the node it hands back represents the same
    tree.  Trees of bounded keys and values have encodings far below the limits
    of the encoder. *)

From S2P Require Import Prelude Common TrieEncoding Rlp RlpSpec EvmState Trie TrieSpec TrieOps.

Local Open Scope Z_scope.

(** ** Writing nodes *)

(** Writing the node, or the empty string for nil, writes the item. *)
Definition encodes (n : node) (it : item) : Prop :=
  forall w, (if is_nil n then Ok (Enc.append w [128]) else node_encode n w) = Enc.write it w.

Lemma encodes_nil : encodes NilNode (IBytes []).
Proof. intros w. cbn [is_nil Enc.write]. by rewrite writeBytes_append. Qed.

Lemma encodes_value v : encodes (ValueNode v) (IBytes v).
Proof. by intros w. Qed.

Lemma encodes_hash h : encodes (HashNode h) (IBytes h).
Proof. by intros w. Qed.

Lemma encodes_short k v it fl : encodes v it -> encodes (ShortNode k v fl) (IStruct [IBytes k; it]).
Proof.
  intros Hv w. cbn [is_nil node_encode]. rewrite write_IStruct. destruct (Enc.list w) as [o b].
  cbn [write_items Enc.write mbind res_bind]. rewrite Hv. by destruct (Enc.write it _).
Qed.

Lemma encodes_full cs its fl : Forall2 encodes cs its -> encodes (FullNode cs fl) (IStruct its).
Proof.
  intros Hf w. cbn [is_nil node_encode]. rewrite write_IStruct. destruct (Enc.list w) as [o b].
  f_equal. revert b. induction Hf as [|c it cs its Hc Hf IH]; intros b; [done|].
  cbn [write_items]. rewrite <- (Hc b). cbn [mbind res_bind].
  destruct (if is_nil c then _ else _); [apply IH | done | done].
Qed.

Lemma encodes_bytes n it : encodes n it -> is_nil n = false -> nodeToBytes n = Enc.EncodeToBytes it.
Proof. intros He Hn. unfold nodeToBytes, Enc.EncodeToBytes. rewrite <- He, Hn. done. Qed.

(** ** Sizes *)

Definition max_size : Z := 2 ^ 32.

(** A key and a value the trie is meant for. *)
Definition value_ok (v : bytes) : Prop := wf_bytes v /\ zlen v <= max_size.

Inductive sized : tree -> Prop :=
| sized_nil : sized TNil
| sized_val v : value_ok v -> sized (TVal v)
| sized_leaf ns v : nibbles ns -> zlen ns <= max_size -> value_ok v -> sized (TShort (ns ++ [16]) (TVal v))
| sized_ext ns ts : nibbles ns -> zlen ns <= max_size -> sized (TFull ts) -> sized (TShort ns (TFull ts))
| sized_full ts : length ts = 17%nat -> (forall c, c ∈ ts -> sized c) -> sized (TFull ts).

Lemma wf_items_forall l : wf_items l <-> Forall wf_item l.
Proof.
  induction l as [|x l IH]; cbn; [by split; [constructor|]|]. rewrite Forall_cons, <- IH. done.
Qed.

Section hashing.
Context `{Crypto}.

Lemma compact_key_with_term t ns : nibbles ns -> compact_key (with_term t ns) = compact t ns.
Proof.
  intros Hn. destruct (hasTerm_with_term t ns Hn) as [Ht Hr]. unfold compact_key. rewrite Ht. by rewrite Hr.
Qed.

Lemma hexToCompact_key t ns : nibbles ns -> hexToCompact (with_term t ns) = Ok (compact_key (with_term t ns)).
Proof. intros Hn. by rewrite hexToCompact_spec, compact_key_with_term. Qed.

Lemma zlen_hashData d : zlen (hashData d) = 32.
Proof. unfold hashData. apply zlen_be_bytes. Qed.

Lemma wf_hashData d : wf_bytes (hashData d).
Proof. apply wf_be_bytes. Qed.

Lemma tref_cases t : (big t = true /\ tref t = IBytes (thash t)) \/ (big t = false /\ tref t = titem t).
Proof.
  unfold tref, ref_item, big, thash, tenc. destruct (is_branch t && _); auto.
Qed.

(** The encoding of a reference inside a parent. *)
Lemma tref_bound t : sized t -> wf_item (titem t) -> wf_item (tref t) /\ zlen (encode (tref t)) <= max_size + 41.
Proof.
  intros Hs Hw. destruct (tref_cases t) as [[Hb ->]|[Hb ->]].
  - split; [apply wf_hashData|]. cbn [encode]. pose proof (encode_bytes_length (thash t)).
    unfold thash in *. rewrite zlen_hashData in *. unfold max_size. lia.
  - split; [done|]. unfold big, tenc in Hb. destruct (is_branch t) eqn:Hbr.
    + cbn [andb] in Hb. to_prop. unfold max_size. lia.
    + destruct Hs as [|v [_ Hv]| | |]; try done; cbn [titem encode].
      pose proof (encode_bytes_length v). lia.
Qed.

Lemma compact_key_bound t ns : nibbles ns -> zlen ns <= max_size ->
  wf_bytes (compact_key (with_term t ns)) /\ zlen (encode_bytes (compact_key (with_term t ns))) <= max_size + 10.
Proof.
  intros Hn Hl. rewrite compact_key_with_term by done. split; [by apply wf_compact|].
  pose proof (encode_bytes_length (compact t ns)) as He. rewrite zlen_compact in He.
  pose proof (zlen_nonneg ns). assert (zlen ns / 2 <= zlen ns) by dlia. lia.
Qed.

Lemma encode_struct_length l B : (forall x, x ∈ l -> zlen (encode x) <= B) -> 0 <= B ->
  zlen (encode (IStruct l)) <= 9 + zlen l * B.
Proof.
  intros Hl HB. cbn [encode]. rewrite zlen_app. pose proof (puthead_length 192 247 (zlen (flat_map encode l))).
  enough (zlen (flat_map encode l) <= zlen l * B) by lia.
  induction l as [|x l IH]; [unfold zlen; cbn [flat_map length]; lia|]. cbn [flat_map]. rewrite zlen_app, zlen_cons.
  assert (zlen (encode x) <= B) by (apply Hl; constructor).
  assert (zlen (flat_map encode l) <= zlen l * B).
  { apply IH; [intros y Hy; apply Hl; by constructor|]. apply puthead_length. }
  lia.
Qed.

(** A sized tree has a well-formed encoding below the limits. *)
Lemma titem_ok t : sized t -> wf_item (titem t) /\ zlen (tenc t) < 2 ^ 63.
Proof.
  unfold tenc. intros Hs.
  assert (Hshort : forall b ns c, nibbles ns -> zlen ns <= max_size -> sized c -> wf_item (titem c) ->
            wf_item (titem (TShort (with_term b ns) c)) /\ zlen (encode (titem (TShort (with_term b ns) c))) < 2 ^ 63).
  { intros b ns c Hn Hl Hc Hw. destruct (compact_key_bound b ns Hn Hl) as [Hkw Hkl].
    destruct (tref_bound c Hc Hw) as [Hrw Hrl]. cbn [titem]. fold (tref c). split; [done|].
    pose proof (encode_struct_length [IBytes (compact_key (with_term b ns)); tref c] (max_size + 41)) as He.
    change (zlen [IBytes (compact_key (with_term b ns)); tref c]) with 2 in He.
    assert (Hx : forall x, x ∈ [IBytes (compact_key (with_term b ns)); tref c] -> zlen (encode x) <= max_size + 41).
    { intros x Hx. apply elem_of_cons in Hx as [->|Hx]; [cbn [encode]; lia|].
      apply list_elem_of_singleton in Hx as ->. done. }
    specialize (He Hx). unfold max_size in *. lia. }
  induction Hs as [|v [Hv Hl]|ns v Hn Hl Hv|ns ts Hn Hl Hs IH|ts Hl Hs IH].
  - split; [constructor | by compute].
  - split; [done|]. cbn [titem encode]. pose proof (encode_bytes_length v). unfold max_size in *. lia.
  - apply (Hshort true ns (TVal v)); [done | done | by constructor | by destruct Hv].
  - apply (Hshort false ns (TFull ts)); [done | done | done | by destruct IH].
  - assert (Hx : forall x, x ∈ map tref ts -> wf_item x /\ zlen (encode x) <= max_size + 41).
    { intros x Hx. apply list_elem_of_fmap in Hx as (c & -> & Hc). apply tref_bound; [by apply Hs | by apply IH]. }
    change (titem (TFull ts)) with (IStruct (map tref ts)). split.
    + cbn [wf_item]. apply wf_items_forall. apply Forall_forall. intros x Hxin. by apply Hx.
    + pose proof (encode_struct_length (map tref ts) (max_size + 41)) as He.
      assert (Hlen : zlen (map tref ts) = 17) by (unfold zlen; rewrite length_map, Hl; done).
      rewrite Hlen in He. specialize (He (fun x Hxin => proj2 (Hx x Hxin))). unfold max_size in *. lia.
Qed.

(** ** The hasher *)

Context `{NodeReader}.

Lemma nodeToHash_spec n t force : encodes n (titem t) -> is_nil n = false -> sized t -> is_branch t = true ->
  nodeToHash n force = Ok (if force || big t then HashNode (thash t) else n).
Proof.
  intros He Hn Hs Hb. destruct (titem_ok t Hs) as [Hw Hl]. unfold nodeToHash.
  rewrite (encodes_bytes n (titem t) He Hn), EncodeToBytes_spec by done. cbn [mbind res_bind].
  unfold big, thash, tenc. rewrite Hb. cbn [andb].
  destruct (Z.ltb_spec (zlen (encode (titem t))) 32), (Z.leb_spec 32 (zlen (encode (titem t)))); try lia;
    by destruct force.
Qed.

(** A node the hasher is done with: its hash is cached when it has one. *)
Definition hash_cached (top : bool) (n : node) : Prop :=
  match n with ShortNode _ _ fl | FullNode _ fl => top = true -> fhash fl <> None | _ => True end.

Definition hash_ok (force : bool) (t : tree) (r : res (node * node)) : Prop :=
  exists hn cn, r = Ok (hn, cn) /\ repr force cn t /\ complete cn t /\ hash_cached force cn /\
    is_nil hn = false /\ (force || big t = true -> hn = HashNode (thash t)) /\
    (force || big t = false -> encodes hn (titem t)).

Lemma hash_ok_encodes t r : hash_ok false t r ->
  exists hn cn, r = Ok (hn, cn) /\ repr false cn t /\ complete cn t /\ encodes hn (tref t).
Proof.
  intros (hn & cn & -> & Hr & Hc & _ & _ & H1 & H2). exists hn, cn. split_and!; [done .. |].
  destruct (tref_cases t) as [[Hb ->]|[Hb ->]].
  - rewrite (H1 Hb). apply encodes_hash.
  - by apply H2.
Qed.

(** The last step: the collapsed copy is hashed or kept, the cached copy gets the
    hash.  [k] puts flags on the cached copy. *)
Lemma hash_finish force t fl collapsed (k : nodeFlag -> node) :
  encodes collapsed (titem t) -> is_nil collapsed = false -> sized t -> is_branch t = true ->
  (forall h, set_cached (k fl) h = k (mkFlag (match h with HashNode h => Some h | _ => None end) (fdirty fl))) ->
  (is_hash collapsed = false) ->
  fhash fl = None -> flag_ok force fl t ->
  (forall fl', flag_ok force fl' t -> repr force (k fl') t) ->
  (forall fl', (big t = true -> fhash fl' <> None) -> complete (k fl') t) ->
  (forall fl', (force = true -> fhash fl' <> None) -> hash_cached force (k fl')) ->
  hash_ok force t (hashed ← nodeToHash collapsed force; Ok (hashed, set_cached (k fl) hashed)).
Proof.
  intros He Hn Hs Hb Hset Hh Hfl Hfo Hrep Hcomp Hcach.
  rewrite (nodeToHash_spec collapsed t force He Hn Hs Hb). cbn [mbind res_bind].
  unfold flag_ok in Hfo. rewrite Hfl in Hfo.
  destruct (force || big t) eqn:Eb.
  - do 2 eexists. split; [done|]. rewrite Hset. split_and!; [ | by apply Hcomp | by apply Hcach | done | done | by rewrite Eb].
    apply Hrep. split_and!; [done | by apply orb_true_iff in Eb | ].
    cbn [fdirty]. intros Hd. destruct (Hfo Hd) as [-> Hbig]. by rewrite Hbig in Eb.
  - apply orb_false_iff in Eb as [-> Hbig]. do 2 eexists. split; [done|]. rewrite Hset.
    split_and!; [ | | by apply Hcach | done | by rewrite Hbig | done].
    + apply Hrep. unfold flag_ok. destruct collapsed; try done; cbn; auto.
    + apply Hcomp. by rewrite Hbig.
Qed.

(** The children of a full node: at the nibbles they are hashed, the value is
    kept. *)
Lemma hashChildren_spec hash_ cs ts i :
  length cs = length ts ->
  (forall j c t, cs !! j = Some c -> ts !! j = Some t -> repr false c t /\
     (t = TNil \/ ((i + j < 16)%nat /\ hash_ok false t (hash_ c false)) \/
      ((i + j = 16)%nat /\ exists v, t = TVal v))) ->
  exists c1 c2, hashChildren_with hash_ i cs = Ok (c1, c2) /\ Forall2 encodes c1 (map tref ts) /\
    length c2 = length ts /\
    forall j c t, c2 !! j = Some c -> ts !! j = Some t -> repr false c t /\ complete c t.
Proof.
  revert ts i. induction cs as [|c cs IH]; intros [|t ts] i Hl Hc; try done.
  { exists [], []. by split_and!; [| constructor | |]. }
  destruct (IH ts (S i)) as (c1 & c2 & E & He & Hl2 & Hp); [by injection Hl | |].
  { intros j d u Ed Eu. destruct (Hc (S j) d u Ed Eu) as [Hr Hcase]. split; [done|].
    replace (S i + j)%nat with (i + S j)%nat by lia. done. }
  destruct (Hc 0%nat c t eq_refl eq_refl) as [Hr Hcase]. rewrite Nat.add_0_r in Hcase.
  assert (Hone : exists d1 d2,
    (if bool_decide (i < 16)%nat then if is_nil c then Ok (ValueNode [], c) else hash_ c false else Ok (c, c)) = Ok (d1, d2) /\
    encodes d1 (tref t) /\ repr false d2 t /\ complete d2 t).
  { destruct Hcase as [->|[[Hi Hh]|(Hi & v & ->)]].
    - inversion Hr; subst; [|done]. destruct (bool_decide _); cbn [is_nil]; do 2 eexists;
        (split; [done|]); (split_and!; [|constructor|constructor]); [apply encodes_value | apply encodes_nil].
    - rewrite bool_decide_true by done. destruct (is_nil c) eqn:En.
      + apply (repr_nil_true _ _ _ Hr) in En as ->. destruct c; try (by inversion Hr).
        do 2 eexists. split; [done|]. split_and!; [apply encodes_value | constructor | constructor].
      + destruct (hash_ok_encodes t _ Hh) as (hn & cn & -> & Hrn & Hcn & Hen). by exists hn, cn.
    - rewrite bool_decide_false by lia. inversion Hr; subst; [|done].
      do 2 eexists. split; [done|]. split_and!; [apply encodes_value | constructor | constructor]. }
  destruct Hone as (d1 & d2 & E1 & He1 & Hr1 & Hcm1).
  cbn [hashChildren_with]. rewrite E1. cbn [mbind res_bind]. fold (hashChildren_with hash_).
  rewrite E. cbn [mbind res_bind]. exists (d1 :: c1), (d2 :: c2).
  split; [done|]. split; [by constructor|]. split; [cbn; lia|].
  intros [|j] d u Ed Eu; [|by apply (Hp j)]. cbn in Ed, Eu. by simplify_eq.
Qed.

(** The collapsed and the cached copy of a full node. *)
Lemma collapse_full cs ts fl top : canon (TFull ts) ->
  (forall c t, t ∈ ts -> canon t -> repr false c t -> hash_ok false t (hash c false)) ->
  repr top (FullNode cs fl) (TFull ts) ->
  exists c1 c2, hashFullNodeChildren_with hash cs fl = Ok (FullNode c1 fl, FullNode c2 fl) /\
    encodes (FullNode c1 fl) (titem (TFull ts)) /\ length c2 = length ts /\
    forall j c t, c2 !! j = Some c -> ts !! j = Some t -> repr false c t /\ complete c t.
Proof.
  intros Hc IH Hr. inversion Hr as [| | | |? ? ? ? Hl Hch Hf Hcp]; subst.
  destruct (hashChildren_spec hash cs ts 0 Hl) as (c1 & c2 & E & He & Hl2 & Hp).
  { intros j c t Ec Et. pose proof (Hch j c t Ec Et) as Hrc. split; [done|]. cbn [Nat.add].
    destruct (tree_nil_dec t) as [|Hn]; [by left|]. right.
    destruct (canon_child ts j t Hc Et Hn) as [[Hj Hct]|(Hj & v & _ & ->)]; [|right; eauto].
    left. split; [done|]. apply IH; [by eapply list_elem_of_lookup_2 | done | done]. }
  exists c1, c2. unfold hashFullNodeChildren_with. rewrite E. split_and!; [done | by apply encodes_full | done | done].
Qed.

Lemma hash_full cs ts fl force : sized (TFull ts) -> canon (TFull ts) ->
  (forall c t, t ∈ ts -> canon t -> repr false c t -> hash_ok false t (hash c false)) ->
  repr force (FullNode cs fl) (TFull ts) -> fhash fl = None ->
  hash_ok force (TFull ts) (hash (FullNode cs fl) force).
Proof.
  intros Hs Hc IH Hr Hfl. destruct (collapse_full cs ts fl force Hc IH Hr) as (c1 & c2 & E & He & Hl2 & Hp).
  inversion Hr as [| | | |? ? ? ? Hl Hch Hf Hcp]; subst.
  cbn [hash]. cbn [cache mbind res_bind]. rewrite Hfl. fold hash. rewrite E. cbn [mbind res_bind].
  apply (hash_finish force (TFull ts) fl (FullNode c1 fl) (FullNode c2)); try done.
  - intros fl' Hf'. constructor; [done | intros j c t; apply Hp | done |].
    intros _ j c t Ec Et. by apply (Hp j).
  - intros fl' Hf'. constructor; [done|]. intros j c t Ec Et. by apply (Hp j).
Qed.

(** The key of a canonical short node, of bounded size. *)
Lemma short_key_term k t : canon (TShort k t) -> exists b ns, nibbles ns /\ k = with_term b ns.
Proof.
  intros [_ [(v & ns & _ & _ & Hns & ->)|(ts & Hns & _)]]%canon_short_cases;
    [by exists true, ns | by exists false, k].
Qed.

(** The collapsed and the cached copy of a short node. *)
Lemma collapse_short k val t fl top : canon (TShort k t) ->
  (forall c, canon t -> repr false c t -> hash_ok false t (hash c false)) ->
  repr top (ShortNode k val fl) (TShort k t) ->
  exists v1 v2, hashShortNodeChildren_with hash k val fl = Ok (ShortNode (compact_key k) v1 fl, ShortNode k v2 fl) /\
    encodes (ShortNode (compact_key k) v1 fl) (titem (TShort k t)) /\ repr false v2 t /\ complete v2 t.
Proof.
  intros Hc IH Hr. inversion Hr as [| | |? ? ? ? ? Hv Hf Hcp|]; subst.
  destruct (short_key_term k t Hc) as (b & ns & Hns & Hk).
  assert (Hval : exists v1 v2,
    match val with FullNode _ _ | ShortNode _ _ _ => hash val false | _ => Ok (val, val) end = Ok (v1, v2) /\
    encodes v1 (tref t) /\ repr false v2 t /\ complete v2 t).
  { pose proof Hc as [_ [(v & _ & _ & -> & _)|(ts & _ & Hts & ->)]]%canon_short_cases.
    - inversion Hv; subst; [|done]. do 2 eexists. split; [done|].
      split_and!; [apply encodes_value | constructor | constructor].
    - destruct (hash_ok_encodes _ _ (IH val Hts Hv)) as (hn & cn & E & Hrn & Hcn & Hen).
      exists hn, cn. split_and!; [|done..]. by inversion Hv; subst. }
  destruct Hval as (v1 & v2 & E & He & Hr2 & Hc2). exists v1, v2. unfold hashShortNodeChildren_with.
  assert (Hck : hexToCompact k = Ok (compact_key k)) by (rewrite Hk; by apply hexToCompact_key).
  rewrite Hck, E. split_and!; [done | by apply encodes_short | done | done].
Qed.

Lemma hash_short k val t fl force : sized (TShort k t) -> canon (TShort k t) ->
  (forall c, canon t -> repr false c t -> hash_ok false t (hash c false)) ->
  repr force (ShortNode k val fl) (TShort k t) -> fhash fl = None ->
  hash_ok force (TShort k t) (hash (ShortNode k val fl) force).
Proof.
  intros Hs Hc IH Hr Hfl. destruct (collapse_short k val t fl force Hc IH Hr) as (v1 & v2 & E & He & Hr2 & Hc2).
  inversion Hr as [| | |? ? ? ? ? Hv Hf Hcp|]; subst.
  cbn [hash]. cbn [cache mbind res_bind]. rewrite Hfl. fold hash. rewrite E. cbn [mbind res_bind].
  apply (hash_finish force (TShort k t) fl (ShortNode (compact_key k) v1 fl) (ShortNode k v2)); try done.
  - intros fl' Hf'. by constructor.
  - intros fl' Hf'. by constructor.
Qed.

Lemma sized_child ts t : sized (TFull ts) -> t ∈ ts -> sized t.
Proof. inversion 1; subst. eauto. Qed.

Lemma sized_below k t : sized (TShort k t) -> sized t.
Proof. inversion 1; subst; [by constructor | done]. Qed.

(** A cached hash is returned as it is. *)
Lemma hash_from_cache force n t h d : is_branch t = true -> repr force n t -> cache n = Ok (Some h, d) ->
  hash_ok force t (hash n force).
Proof.
  intros Hb Hr Hc.
  assert (Hfl : exists fl, fhash fl = Some h /\ flag_ok force fl t /\ complete n t /\ hash_cached force n).
  { inversion Hr as [| | |? k c t' fl Hv Hf Hcp|? cs ts fl Hl Hch Hf Hcp]; subst; try done; cbn in Hc;
      injection Hc as Hfh _; exists fl; rewrite Hfh in *; (split_and!; [done | done | | cbn; congruence]).
    - constructor; [congruence | by apply Hcp].
    - constructor; [congruence | by apply Hcp]. }
  destruct Hfl as (fl & Hfh & Hf & Hcm & Hhc). unfold flag_ok in Hf. rewrite Hfh in Hf.
  destruct Hf as (-> & Hhd & _).
  assert (E : hash n force = Ok (HashNode (thash t), n)).
  { destruct n; try done; cbn [hash]; rewrite Hc; done. }
  rewrite E. do 2 eexists. split; [done|]. split_and!; try done.
  intros [-> Hb']%orb_false_iff. destruct Hhd as [|Hh]; [done|]. congruence.
Qed.

(** The node is a hash, or has its hash cached, or the hasher descends. *)
Lemma hash_spec t : canon t -> sized t -> forall force n, repr force n t -> hash_ok force t (hash n force).
Proof.
  assert (Hhash : forall force h t, repr force (HashNode h) t -> hash_ok force t (hash (HashNode h) force)).
  { intros force h t' Hr. inversion Hr as [| |? ? Hb Hh Hres Hk| |]; subst. do 2 eexists. split; [done|].
    split_and!; [done | constructor | done | done | done |].
    intros [-> Hb']%orb_false_iff. destruct Hh as [|Hh]; [done|]. congruence. }
  induction t as [|v|k c IH|ts IH] using tree_ind'; intros Hc Hs force n Hr;
    [by inversion Hc | by inversion Hc | |].
  - destruct n as [| | |k' val fl| | | |]; try (by inversion Hr); [by apply Hhash|].
    destruct (fhash fl) as [h|] eqn:Efl; [eapply hash_from_cache; [done | done | cbn; by rewrite Efl]|].
    assert (k' = k) as -> by by inversion Hr.
    apply hash_short; try done. intros d Hcd Hrd. apply IH; [done | by eapply sized_below | done].
  - destruct n as [| | | |cs fl| | |]; try (by inversion Hr); [by apply Hhash|].
    destruct (fhash fl) as [h|] eqn:Efl; [eapply hash_from_cache; [done | done | cbn; by rewrite Efl]|].
    apply hash_full; try done. intros d t Ht Hct Hrt. rewrite Forall_forall in IH.
    apply IH; [done | done | by eapply sized_child | done].
Qed.
End hashing.
