(* ===== verification/TrieDecode.v ===== *)
(** * Decoding stored nodes

    [decodeNode] of [node.go] inverts the encoding of canonical trees: from the
    encoding it reads the node the tree is loaded as.  Hence the encoding of a
    tree determines its node, and, as long as no two different encodings have
    the same hash, the root hash determines the tree. *)

From S2P Require Import Prelude Common TrieEncoding Rlp RlpSpec EvmState Trie TrieSpec TrieOps TrieHash.

Local Open Scope Z_scope.

Section decode.
Context `{Crypto}.

Definition kid (t : tree) : node := ref_node t (load t).

Definition with_flag (fl : nodeFlag) (n : node) : node :=
  match n with
  | ShortNode k c _ => ShortNode k c fl
  | FullNode cs _ => FullNode cs fl
  | n => n
  end.

Lemma load_top_with_flag t : load_top t = with_flag (mkFlag (Some (thash t)) false) (load t).
Proof. by destruct t. Qed.

Lemma load_with_flag t : load t = with_flag (mkFlag None false) (load t).
Proof. by destruct t. Qed.

(** What a decoder of embedded nodes must do for a tree. *)
Definition decodes (dn : option bytes -> bytes -> res (node + DecodeErr)) (t : tree) : Prop :=
  forall hash rest, wf_bytes rest -> zlen (tenc t ++ rest) < 2 ^ 63 ->
    dn hash (tenc t ++ rest) = Ok (inl (with_flag (mkFlag hash false) (load t))).

Lemma encode_list l : encode (IStruct l) = enc_kind List (encode_items l).
Proof. done. Qed.

Lemma titem_branch t : is_branch t = true -> exists l, titem t = IStruct l.
Proof. destruct t; try done; intros _; by eexists. Qed.

(** A reference to a child that is no value. *)
Lemma decodeRef_spec dn t rest : t = TNil \/ (canon t /\ sized t) ->
  (is_branch t = true -> big t = false -> decodes dn t) ->
  wf_bytes rest -> zlen (encode (tref t) ++ rest) < 2 ^ 63 ->
  decodeRef_with dn (encode (tref t) ++ rest) = Ok (inl (kid t, rest)).
Proof.
  intros Hc Hdn Hw Hl. unfold decodeRef_with, try_rlp.
  assert (Hs : sized t) by (destruct Hc as [->|[_ ?]]; [constructor | done]).
  destruct (titem_ok t Hs) as [Hwi _]. destruct (tref_bound t Hs Hwi) as [Hwt _].
  assert (Hwb : wf_bytes (encode (tref t) ++ rest)) by (apply wf_bytes_app; [by apply wf_encode | done]).
  assert (Hstr : forall c, tref t = IBytes c -> zlen c <> 1 ->
    Split (encode (tref t) ++ rest) = Ok (inl (String, c, rest))).
  { intros c Ec Hlc. apply Split_canonical; [done | done|]. rewrite Ec. split; [|done].
    cbn. destruct c as [|x [|]]; try done. }
  destruct (tref_cases t) as [[Hb Ht]|[Hb Ht]].
  - rewrite (Hstr (thash t)); [|done|by unfold thash; rewrite zlen_hashData]. cbn [mbind res_bind].
    unfold thash. rewrite zlen_hashData. unfold kid, ref_node. by rewrite Hb.
  - destruct Hc as [->|[Hc _]].
    + by rewrite (Hstr []).
    + assert (Hbr : is_branch t = true) by by destruct Hc.
      destruct (titem_branch t Hbr) as [l El].
      rewrite (proj2 (Split_canonical _ List (encode_items l) rest Hwb Hl)) by by rewrite Ht, El.
      cbn [mbind res_bind]. rewrite zlen_app. replace (_ + zlen rest - zlen rest) with (zlen (encode (tref t))) by lia.
      assert (Hsmall : zlen (tenc t) < 32).
      { unfold big in Hb. rewrite Hbr in Hb. cbn [andb] in Hb. to_prop. lia. }
      rewrite Ht. fold (tenc t). destruct (Z.gtb_spec (zlen (tenc t)) 32); [lia|].
      unfold try. rewrite (Hdn Hbr Hb) by (done || by rewrite Ht in Hl). cbn [mbind res_bind].
      unfold kid, ref_node. rewrite Hb. by rewrite <- load_with_flag.
Qed.

Lemma decodeRefs_spec dn ts rest :
  (forall t, t ∈ ts -> (t = TNil \/ (canon t /\ sized t)) /\ (is_branch t = true -> big t = false -> decodes dn t)) ->
  wf_bytes rest -> zlen (encode_items (map tref ts) ++ rest) < 2 ^ 63 ->
  decodeRefs_with dn (length ts) (encode_items (map tref ts) ++ rest) = Ok (inl (map kid ts, rest)).
Proof.
  induction ts as [|t ts IH]; intros Ht Hw Hl; [done|].
  cbn [length decodeRefs_with map] in *. change (encode_items (tref t :: map tref ts)) with
    (encode (tref t) ++ encode_items (map tref ts)) in *. rewrite <- app_assoc in Hl |- *.
  assert (Hwi : wf_bytes (encode_items (map tref ts))).
  { apply wf_encode_items, wf_items_forall, Forall_forall. intros x Hx.
    apply list_elem_of_fmap in Hx as (c & -> & Hc). destruct (Ht c) as [Hcc _]; [by constructor|].
    assert (Hs : sized c) by (destruct Hcc as [->|[_ ?]]; [constructor | done]).
    apply tref_bound; [done | by apply titem_ok]. }
  destruct (Ht t) as [Hct Hdt]; [by constructor|].
  unfold try at 1. rewrite decodeRef_spec by (done || by apply wf_bytes_app). cbn [mbind res_bind].
  unfold try. rewrite IH; [done | intros u Hu; apply Ht; by constructor | done |].
  rewrite zlen_app in Hl. pose proof (zlen_nonneg (encode (tref t))). lia.
Qed.

(** *** The whole node *)

Lemma SplitList_list c rest : wf_bytes c -> wf_bytes rest -> zlen (enc_kind List c ++ rest) < 2 ^ 63 ->
  SplitList (enc_kind List c ++ rest) = Ok (inl (c, rest)).
Proof.
  intros Hc Hw Hl. unfold SplitList.
  rewrite (proj2 (Split_canonical (enc_kind List c ++ rest) List c rest ltac:(apply wf_bytes_app; [by apply wf_puthead | done]) Hl)) by done.
  done.
Qed.

(** The opening of [decodeNode] on the encoding of a list of items. *)
Lemma decodeNode_open fuel hash l rest : wf_items l -> wf_bytes rest -> zlen (encode (IStruct l) ++ rest) < 2 ^ 63 ->
  decodeNode_fuel (S fuel) hash (encode (IStruct l) ++ rest) =
  if zlen l =? 2 then decodeShort_with (decodeNode_fuel fuel) hash (encode_items l)
  else if zlen l =? 17 then decodeFull_with (decodeNode_fuel fuel) hash (encode_items l)
  else Ok (inr (DecElements (zlen l))).
Proof.
  intros Hw Hr Hl. cbn [decodeNode_fuel]. rewrite encode_list in *.
  assert (Hne : zlen (enc_kind List (encode_items l) ++ rest) =? 0 = false).
  { apply Z.eqb_neq. unfold enc_kind, puthead. pose proof (zlen_nonneg rest). pose proof (zlen_nonneg (encode_items l)).
    rewrite !zlen_app. destruct (_ <? 56); rewrite zlen_cons.
    - rewrite zlen_nil. lia.
    - pose proof (zlen_nonneg (putint (zlen (encode_items l)))). lia. }
  rewrite Hne. unfold try_rlp. pose proof (wf_encode_items l Hw) as Hwe. rewrite SplitList_list by done.
  cbn [mbind res_bind]. unfold CountValues. rewrite CountValues_loop_spec; [done | done | | done].
  unfold enc_kind in Hl. rewrite !zlen_app in Hl. pose proof (zlen_nonneg rest).
  pose proof (zlen_nonneg (puthead 192 247 (zlen (encode_items l)))). lia.
Qed.

Lemma encode_items_shorter l : (length (encode_items l) < length (encode (IStruct l)))%nat.
Proof.
  cbn [encode]. fold (encode_items l). rewrite length_app. unfold puthead. destruct (_ <? 56); cbn [length]; lia.
Qed.

Lemma encode_items_elem l x : x ∈ l -> (length (encode x) <= length (encode_items l))%nat.
Proof.
  induction 1 as [|x y l Hx IH]; cbn; rewrite length_app; [lia|]. unfold encode_items in IH. lia.
Qed.

(** An embedded child is shorter than its parent. *)
Lemma tenc_child_shorter t c l : titem t = IStruct l -> tref c ∈ l -> big c = false ->
  (length (tenc c) < length (tenc t))%nat.
Proof.
  intros Et Hc Hb. unfold tenc at 2. rewrite Et. pose proof (encode_items_shorter l).
  pose proof (encode_items_elem l _ Hc). destruct (tref_cases c) as [[Hb' _]|[_ Ht]]; [congruence|].
  rewrite Ht in *. unfold tenc. lia.
Qed.

Lemma decodeShort_spec dn b ns c hash : nibbles ns -> canon (TShort (with_term b ns) c) -> sized c ->
  (is_branch c = true -> big c = false -> decodes dn c) ->
  zlen (encode_items [IBytes (compact_key (with_term b ns)); tref c]) < 2 ^ 63 ->
  decodeShort_with dn hash (encode_items [IBytes (compact_key (with_term b ns)); tref c]) =
  Ok (inl (ShortNode (with_term b ns) (kid c) (mkFlag hash false))).
Proof.
  intros Hn Hc Hs Hd Hl. set (ck := compact_key (with_term b ns)) in *.
  change (encode_items [IBytes ck; tref c]) with (encode_bytes ck ++ encode (tref c) ++ []) in *.
  destruct (titem_ok c Hs) as [Hwi _]. destruct (tref_bound c Hs Hwi) as [Hwt _].
  assert (Hwc : wf_bytes (encode (tref c) ++ [])) by (rewrite app_nil_r; by apply wf_encode).
  assert (Hck : wf_bytes ck) by (unfold ck; rewrite compact_key_with_term by done; by apply wf_compact).
  assert (Hl' : zlen (encode (tref c) ++ []) < 2 ^ 63).
  { rewrite zlen_app in Hl. pose proof (zlen_nonneg (encode_bytes ck)). lia. }
  unfold decodeShort_with, try_rlp at 1.
  rewrite (proj2 (SplitString_canonical (encode_bytes ck ++ encode (tref c) ++ []) ck (encode (tref c) ++ [])
    ltac:(apply wf_bytes_app; [by apply wf_encode_bytes | done]) Hl)) by done.
  cbn [mbind res_bind]. unfold ck. rewrite compact_key_with_term, compactToHex_compact by done.
  cbn [mbind res_bind]. rewrite (proj1 (hasTerm_with_term b ns Hn)).
  apply canon_short_cases in Hc as [_ [(v & ns' & Hv & -> & Hns' & E)|(ts & Hns' & Hts & ->)]].
  - assert (b = true) as ->.
    { destruct b; [done|]. cbn in E. subst ns. apply nibbles_app in Hn as [_ [H16 _]%Forall_cons].
      by apply nibble_not_term in H16. }
    unfold try_rlp. rewrite (proj2 (SplitString_canonical (encode (tref (TVal v)) ++ []) v [] Hwc Hl')) by done. done.
  - assert (b = false) as ->.
    { destruct b; [|done]. apply nibbles_app in Hns' as [_ [H16 _]%Forall_cons]. by apply nibble_not_term in H16. }
    unfold try. rewrite decodeRef_spec; [done | by right | done | constructor | done].
Qed.

Lemma decodeFull_spec dn ts hash : canon (TFull ts) -> sized (TFull ts) ->
  (forall t, t ∈ ts -> is_branch t = true -> big t = false -> decodes dn t) ->
  zlen (encode_items (map tref ts)) < 2 ^ 63 ->
  decodeFull_with dn hash (encode_items (map tref ts)) =
  Ok (inl (FullNode (map kid ts) (mkFlag hash false))).
Proof.
  intros Hc Hs Hd Hl. pose proof Hc as (Hlen & Hok & _)%canon_full_iff.
  destruct (lookup_lt_is_Some_2 ts 16) as [v16 E16]; [lia|].
  assert (Ets : ts = take 16 ts ++ [v16]) by (rewrite <- (take_S_r _ _ _ E16); by rewrite take_ge by lia).
  assert (Hlt : length (take 16 ts) = 16%nat) by (rewrite length_take; lia).
  assert (Hkids : forall t, t ∈ take 16 ts ->
            (t = TNil \/ (canon t /\ sized t)) /\ (is_branch t = true -> big t = false -> decodes dn t)).
  { intros t (i & Ei)%list_elem_of_lookup_1. apply lookup_take_Some in Ei as [Ei Hi].
    pose proof (list_elem_of_lookup_2 _ _ _ Ei) as Hin. split; [|by apply Hd].
    destruct (tree_nil_dec t) as [|Hn]; [by left|]. right. split; [|by eapply sized_child].
    destruct (Hok i t Ei Hn) as [[_ ?]|[-> _]]; [done|lia]. }
  assert (Hv : exists v, tref v16 = IBytes v /\ value_ok v /\
     kid v16 = if zlen v >? 0 then ValueNode v else NilNode).
  { destruct (tree_nil_dec v16) as [->|Hn].
    - exists []. split_and!; [done | | done]. split; [constructor | by compute].
    - destruct (Hok _ _ E16 Hn) as [[? _]|(_ & v & Hv & ->)]; [lia|]. exists v.
      assert (Hsv : sized (TVal v)) by (eapply sized_child; [done | by eapply list_elem_of_lookup_2]).
      split_and!; [done | by inversion Hsv |]. destruct v as [|x v]; [done|].
      destruct (Z.gtb_spec (zlen (x :: v)) 0) as [_|E]; [done|]. rewrite zlen_cons in E. pose proof (zlen_nonneg v). lia. }
  destruct Hv as (v & Ev & [Hwv _] & Hkv).
  assert (Ee : encode_items (map tref ts) = encode_items (map tref (take 16 ts)) ++ encode_bytes v ++ []).
  { rewrite Ets at 1. unfold encode_items. rewrite map_app, flat_map_app. cbn [map flat_map]. by rewrite Ev. }
  rewrite Ee in *. unfold decodeFull_with, try.
  assert (Hwv' : wf_bytes (encode_bytes v ++ [])) by (rewrite app_nil_r; by apply wf_encode_bytes).
  rewrite <- Hlt at 1. rewrite decodeRefs_spec by done. cbn [mbind res_bind]. unfold try_rlp.
  rewrite (proj2 (SplitString_canonical (encode_bytes v ++ []) v [] Hwv'
    ltac:(rewrite zlen_app in Hl; pose proof (zlen_nonneg (encode_items (map tref (take 16 ts)))); lia))) by done.
  cbn [mbind res_bind]. rewrite <- Hkv. do 3 f_equal. by rewrite Ets at 2; rewrite map_app.
Qed.

Lemma decodeNode_spec t : canon t -> sized t -> forall fuel, (length (tenc t) < fuel)%nat ->
  decodes (decodeNode_fuel fuel) t.
Proof.
  induction t as [|v|k c IH|ts IH] using tree_ind'; intros Hc Hs fuel Hf hash rest Hr Hl;
    [by inversion Hc | by inversion Hc | |];
    (destruct fuel as [|fuel]; [lia|]); destruct (titem_ok _ Hs) as [Hwi Hle]; unfold tenc in *.
  - cbn [titem] in *. fold (tref c) in *. destruct (short_key_term k c Hc) as (b & ns & Hns & ->).
    rewrite decodeNode_open by done. change (zlen [IBytes _; tref c] =? 2) with true. cbn iota.
    assert (Hcan : is_branch c = true -> canon c).
    { pose proof Hc as [_ [(v & _ & _ & -> & _)|(ts & _ & Hts & ->)]]%canon_short_cases; done. }
    rewrite decodeShort_spec; [done | done | done | by eapply sized_below | |].
    + intros Hbr Hb. apply IH; [by apply Hcan | by eapply sized_below |].
      pose proof (tenc_child_shorter (TShort (with_term b ns) c) c _ eq_refl) as Hsh.
      fold (tref c) in Hsh. specialize (Hsh ltac:(apply list_elem_of_further; constructor) Hb).
      unfold tenc in Hsh. cbn [titem] in Hsh. fold (tref c) in Hsh. lia.
    + pose proof (encode_items_shorter [IBytes (compact_key (with_term b ns)); tref c]). unfold zlen in *. lia.
  - change (titem (TFull ts)) with (IStruct (map tref ts)) in *.
    rewrite decodeNode_open by done.
    assert (Hlen : zlen (map tref ts) = 17) by (unfold zlen; rewrite length_map; apply canon_full_iff in Hc as [-> _]; done).
    rewrite Hlen. cbn [Z.eqb Pos.eqb]. rewrite decodeFull_spec; [done | done | done | |].
    + intros t Ht Hbr Hb. rewrite Forall_forall in IH.
      assert (Hct : canon t).
      { apply list_elem_of_lookup_1 in Ht as (i & Ei). destruct (canon_child ts i t Hc Ei) as [[_ ?]|(_ & v & _ & ->)]; [by intros -> | done | done]. }
      apply (IH t Ht Hct); [by eapply sized_child |].
      pose proof (tenc_child_shorter (TFull ts) t (map tref ts) eq_refl) as Hsh.
      specialize (Hsh ltac:(by apply list_elem_of_fmap_2) Hb). unfold tenc in Hsh. change (titem (TFull ts)) with (IStruct (map tref ts)) in Hsh. lia.
    + pose proof (encode_items_shorter (map tref ts)). unfold zlen in *. lia.
Qed.
End decode.
