(* ===== verification/TrieTheorems.v ===== *)
(** * Theorems on the trie

    The contract of a trie is a finite map from byte keys to non-empty byte
    strings.  [refines t m] says that the trie [t], some of whose nodes may still
    be in the database, holds the map [m]. *)

From S2P Require Import Prelude Common TrieEncoding Rlp RlpSpec EvmState Trie TrieSpec TrieOps TrieHash TrieDecode.

Local Open Scope Z_scope.

(** ** Contents *)

Definition holds (tr : tree) (m : gmap bytes bytes) : Prop :=
  (forall key v, m !! key = Some v -> wf_bytes key) /\
  forall k v, tlookup tr k = Some v <-> exists key, k = keybytesToHex key /\ m !! key = Some v.

Lemma hexkey_keybytes key : wf_bytes key -> hexkey (keybytesToHex key).
Proof. intros Hw. exists (unpack key). split; [by apply nibbles_unpack | done]. Qed.

Lemma holds_lookup tr m key : holds tr m -> tlookup tr (keybytesToHex key) = m !! key.
Proof.
  intros [_ Hm]. destruct (m !! key) as [v|] eqn:E.
  - apply Hm. eauto.
  - destruct (tlookup tr (keybytesToHex key)) as [v|] eqn:E'; [|done]. exfalso.
    apply Hm in E' as (key' & Hk & E'). apply keybytesToHex_inj in Hk as <-. congruence.
Qed.

Lemma holds_empty : holds TNil ∅.
Proof. split; [by intros key v E|]. intros k v. split; [done|]. intros (key & _ & E). done. Qed.

Lemma holds_insert tr tr' m key v : holds tr m -> wf_bytes key ->
  updated tr' tr (keybytesToHex key) (Some v) -> holds tr' (<[key := v]> m).
Proof.
  intros [Hw Hm] Hk Hu. split.
  - intros key' v' E. apply lookup_insert_Some in E as [[<- _]|[_ E]]; eauto.
  - intros k w. rewrite Hu. destruct (decide (k = keybytesToHex key)) as [->|Hne].
    + split.
      * intros [= <-]. exists key. by rewrite lookup_insert_eq.
      * intros (key' & Hk' & E). apply keybytesToHex_inj in Hk' as <-. by rewrite lookup_insert_eq in E.
    + rewrite Hm. split; intros (key' & -> & E); exists key'; (split; [done|]).
      * rewrite lookup_insert_ne; [done|]. by intros ->.
      * rewrite lookup_insert_ne in E; [done|]. by intros ->.
Qed.

Lemma holds_delete tr tr' m key : holds tr m ->
  updated tr' tr (keybytesToHex key) None -> holds tr' (base.delete key m).
Proof.
  intros [Hw Hm] Hu. split.
  - intros key' v' [_ E]%lookup_delete_Some. eauto.
  - intros k w. rewrite Hu. destruct (decide (k = keybytesToHex key)) as [->|Hne].
    + split; [done|]. intros (key' & Hk' & E). apply keybytesToHex_inj in Hk' as <-.
      by rewrite lookup_delete_eq in E.
    + rewrite Hm. split; intros (key' & -> & E); exists key'; (split; [done|]).
      * rewrite lookup_delete_ne; [done|]. by intros ->.
      * rewrite lookup_delete_ne in E; [done|]. by intros ->.
Qed.

Lemma holds_unique t1 t2 m : canon0 t1 -> canon0 t2 -> holds t1 m -> holds t2 m -> t1 = t2.
Proof.
  intros H1 H2 [_ M1] [_ M2]. apply canon0_unique; [done | done |]. intros k.
  destruct (tlookup t1 k) as [v|] eqn:E1, (tlookup t2 k) as [w|] eqn:E2; [| | |done].
  - apply M1 in E1. apply M2 in E1. congruence.
  - apply M1 in E1. apply M2 in E1. congruence.
  - apply M2 in E2. apply M1 in E2. congruence.
Qed.

Lemma holds_determines tr m1 m2 : holds tr m1 -> holds tr m2 -> m1 = m2.
Proof.
  intros H1 H2. apply map_eq. intros key. by rewrite <- (holds_lookup tr m1), <- (holds_lookup tr m2).
Qed.

(** Keys and values the trie is meant for. *)
Definition bounded (m : gmap bytes bytes) : Prop :=
  forall key v, m !! key = Some v -> zlen key < 2 ^ 31 /\ value_ok v.

Lemma canon_sized t : canon t ->
  (forall k v, tlookup t k = Some v -> zlen k <= max_size /\ value_ok v) -> sized t.
Proof.
  induction 1 as [ns w Hns Hw|ns ts Hns Hne Hc IH|ts Hl Hi IH H16 Ht]; intros Hb.
  - destruct (Hb (ns ++ [16]) w) as [Hlen Hv].
    { cbn [tlookup]. rewrite (proj2 (strip_Some (ns ++ [16]) _ [])); [done | by rewrite app_nil_r]. }
    rewrite zlen_app in Hlen. change (zlen [16]) with 1 in Hlen. constructor; [done | lia | done].
  - assert (Hk : forall k v, tlookup (TFull ts) k = Some v -> zlen (ns ++ k) <= max_size /\ value_ok v).
    { intros k v E. apply Hb. by rewrite tlookup_short_app. }
    constructor; [done | |].
    + destruct (canon_inhabited _ Hc) as (k & v & E). destruct (Hk k v E) as [Hlen _].
      rewrite zlen_app in Hlen. pose proof (zlen_nonneg k). lia.
    + apply IH. intros k v E. destruct (Hk k v E) as [Hlen Hv]. rewrite zlen_app in Hlen.
      pose proof (zlen_nonneg ns). split; [lia | done].
  - constructor; [done|]. intros c (i & Ei)%list_elem_of_lookup_1.
    assert (Hk : forall k v, tlookup c k = Some v -> zlen k <= max_size /\ value_ok v).
    { intros k v E. destruct (Hb (Z.of_nat i :: k) v) as [Hlen Hv]; [by rewrite (tlookup_child ts i c)|].
      rewrite zlen_cons in Hlen. split; [lia | done]. }
    destruct (tree_nil_dec c) as [->|Hn]; [constructor|]. destruct (decide (i < 16)%nat) as [Hlt|Hge].
    + by apply (IH i).
    + assert (i = 16%nat) as -> by (apply lookup_lt_Some in Ei; lia).
      destruct (H16 c Ei Hn) as (v & _ & ->). constructor. by apply (Hk [] v).
Qed.

Lemma holds_sized tr m : canon tr -> holds tr m -> bounded m -> sized tr.
Proof.
  intros Hc [_ Hm] Hb. apply canon_sized; [done|]. intros k v E.
  apply Hm in E as (key & -> & E). destruct (Hb key v E) as [Hk Hv]. split; [|done].
  rewrite keybytesToHex_unpack. cbn [with_term]. rewrite zlen_app, zlen_unpack. change (zlen [16]) with 1.
  unfold max_size. lia.
Qed.

(** ** The hash determines the tree *)

Section injective.
Context `{Crypto}.

(** The empty tree, a value or a canonical tree. *)
Definition node_ok (t : tree) : Prop := t = TNil \/ (exists v, t = TVal v) \/ canon t.

(** Different nodes of two trees have different hashes. *)
Definition no_collision (t1 t2 : tree) : Prop :=
  forall s1 s2, inside s1 t1 -> inside s2 t2 -> thash s1 = thash s2 -> tenc s1 = tenc s2.

Lemma tenc_load t1 t2 : canon t1 -> canon t2 -> sized t1 -> sized t2 -> tenc t1 = tenc t2 -> load t1 = load t2.
Proof.
  intros C1 C2 S1 S2 E. destruct (titem_ok t1 S1) as [_ L1]. destruct (titem_ok t2 S2) as [_ L2].
  assert (D1 := decodeNode_spec t1 C1 S1 _ (Nat.lt_succ_diag_r _) None [] ltac:(constructor) ltac:(by rewrite app_nil_r)).
  assert (D2 := decodeNode_spec t2 C2 S2 _ (Nat.lt_succ_diag_r _) None [] ltac:(constructor) ltac:(by rewrite app_nil_r)).
  rewrite <- E, D1 in D2. injection D2 as D2. rewrite (load_with_flag t1), D2. by rewrite <- load_with_flag.
Qed.

Lemma load_not_hash t : is_hash (load t) = false.
Proof. by destruct t. Qed.

Lemma node_ok_branch t : node_ok t -> is_branch t = true -> canon t.
Proof. intros [->|[[v ->]|?]] Hb; done. Qed.

Lemma node_ok_short k c : canon (TShort k c) -> node_ok c.
Proof.
  intros [_ [(v & ns & _ & -> & _)|(ts & _ & Hts & ->)]]%canon_short_cases; unfold node_ok; eauto.
Qed.

Lemma node_ok_full ts c : canon (TFull ts) -> c ∈ ts -> node_ok c.
Proof.
  intros Hc (i & Ei)%list_elem_of_lookup_1. destruct (tree_nil_dec c) as [|Hn]; [by left|].
  destruct (canon_child ts i c Hc Ei Hn) as [[_ ?]|(_ & v & _ & ->)]; unfold node_ok; eauto.
Qed.

Lemma HashNode_inj a b : HashNode a = HashNode b -> a = b.
Proof. by injection 1. Qed.

Lemma kid_load t1 t2 : node_ok t1 -> node_ok t2 -> sized t1 -> sized t2 -> no_collision t1 t2 ->
  kid t1 = kid t2 -> load t1 = load t2.
Proof.
  intros C1 C2 S1 S2 Hn E. unfold kid, ref_node in E.
  destruct (big t1) eqn:B1, (big t2) eqn:B2.
  - apply HashNode_inj in E. apply tenc_load; [by apply node_ok_branch, big_branch .. | done | done |].
    apply Hn; [constructor | constructor | done].
  - pose proof (load_not_hash t2) as Hh. by rewrite <- E in Hh.
  - pose proof (load_not_hash t1) as Hh. by rewrite E in Hh.
  - done.
Qed.

Lemma load_inj t1 : forall t2, node_ok t1 -> node_ok t2 -> sized t1 -> sized t2 -> no_collision t1 t2 ->
  load t1 = load t2 -> t1 = t2.
Proof.
  induction t1 as [|v|k c IH|ts IH] using tree_ind'; intros [|v2|k2 c2|ts2] C1 C2 S1 S2 Hn E; try done.
  - cbn in E. congruence.
  - apply node_ok_branch in C1, C2; [|done|done]. cbn [load] in E. injection E as <- E. f_equal.
    assert (Hn' : no_collision c c2) by (intros s1 s2 H1 H2; apply Hn; by constructor).
    assert (node_ok c /\ node_ok c2 /\ sized c /\ sized c2) as (? & ? & ? & ?)
      by (split_and!; eauto using node_ok_short, sized_below).
    apply IH; [done .. |]. by apply kid_load.
  - apply node_ok_branch in C1, C2; [|done|done]. cbn [load] in E. injection E as E. f_equal.
    apply list_eq_same_length with 17%nat; [by apply canon_full_iff in C2 as [? _] | by apply canon_full_iff in C1 as [? _] |].
    intros i c c2 _ Ec Ec2. pose proof (list_elem_of_lookup_2 _ _ _ Ec) as Hin.
    pose proof (list_elem_of_lookup_2 _ _ _ Ec2) as Hin2.
    assert (Hn' : no_collision c c2) by (intros s1 s2 H1 H2; apply Hn; by econstructor).
    assert (node_ok c /\ node_ok c2 /\ sized c /\ sized c2) as (? & ? & ? & ?)
      by (split_and!; eauto using node_ok_full, sized_child).
    assert (Ek : kid c = kid c2).
    { apply (f_equal (fun l => l !! i)) in E. change (map ?f ?l) with (f <$> l) in E.
      change (map ?f ?l) with (f <$> l) in E. rewrite !list_lookup_fmap, Ec, Ec2 in E. by injection E. }
    rewrite Forall_forall in IH. apply (IH c Hin); [done .. |]. by apply kid_load.
Qed.

Lemma canon_hash_inj t1 t2 : canon0 t1 -> canon0 t2 -> (canon t1 -> sized t1) -> (canon t2 -> sized t2) ->
  no_collision t1 t2 -> thash t1 = thash t2 -> t1 = t2.
Proof.
  intros C1 C2 S1 S2 Hn E. apply Hn in E; [|constructor|constructor].
  assert (Hnil : forall t, canon t -> sized t -> tenc t <> tenc TNil).
  { intros t Ct St Et. pose proof (decodeNode_spec t Ct St _ (Nat.lt_succ_diag_r _) None []
      ltac:(constructor) ltac:(rewrite app_nil_r; by apply titem_ok)) as D.
    rewrite Et in D. cbn in D. discriminate. }
  destruct C1 as [->|C1], C2 as [->|C2]; [done | | | ].
  - by destruct (Hnil t2 C2 (S2 C2)).
  - by destruct (Hnil t1 C1 (S1 C1)).
  - apply load_inj; [by right; right | by right; right | auto | auto | done |]. apply tenc_load; auto.
Qed.

Lemma thash_value t : be_bytes 32 (BytesToHash (thash t)) = thash t.
Proof.
  unfold BytesToHash, thash, hashData. rewrite length_be_bytes. change (32 - 32)%nat with 0%nat. rewrite drop_0.
  rewrite be_value_be_bytes. apply (be_bytes_mod 32 32). lia.
Qed.
End injective.

Section trie_theorems.
Context `{Crypto} `{NodeReader}.

Definition refines (t : Trie) (m : gmap bytes bytes) : Prop :=
  exists tr, repr true (root t) tr /\ canon0 tr /\ holds tr m.

(** Binding a key to a value; to no bytes at all is to remove it. *)
Definition update_map (m : gmap bytes bytes) (key value : bytes) : gmap bytes bytes :=
  match value with [] => base.delete key m | _ => <[key := value]> m end.

Lemma hex_fuel n key : (need n (keybytesToHex key) <= trie_fuel (keybytesToHex key))%nat.
Proof. apply need_le. Qed.

Lemma TryGet_spec t m key : refines t m -> wf_bytes key ->
  exists t', TryGet t key = Ok (inl (default [] (m !! key), t')) /\ refines t' m.
Proof.
  intros (tr & Hr & Hc & Hm) Hk. pose proof (hexkey_keybytes key Hk) as Hx. unfold TryGet.
  destruct (tryGet_spec (owner t) _ true (root t) tr (keybytesToHex key) [] (keybytesToHex key) Hr
              (fits_canon0 _ _ Hc Hx) eq_refl (hex_fuel _ _)) as (n' & b & E & Hr' & _).
  change (zlen []) with 0 in E. rewrite E, (holds_lookup tr m key Hm). unfold try. cbn [mbind res_bind].
  eexists. split; [done|]. destruct b; exists tr; done.
Qed.

Lemma TryDelete_spec t m key : refines t m -> wf_bytes key ->
  exists t', TryDelete t key = Ok (t', None) /\ refines t' (base.delete key m).
Proof.
  intros (tr & Hr & Hc & Hm) Hk. pose proof (hexkey_keybytes key Hk) as Hx. unfold TryDelete.
  destruct (delete_spec (owner t) _ true (root t) tr [] (keybytesToHex key) Hr
              (fits_canon0 _ _ Hc Hx) (or_intror Hx) (hex_fuel _ _)) as (b & n' & t' & E & Hr' & Hc' & _ & Hu & _).
  cbn [root owner]. rewrite E. cbn [mbind res_bind]. eexists. split; [done|]. exists t'.
  split_and!; [done | done | by eapply holds_delete].
Qed.

Lemma TryUpdate_spec t m key value : refines t m -> wf_bytes key ->
  exists t', TryUpdate t key value = Ok (t', None) /\ refines t' (update_map m key value).
Proof.
  intros Href Hk. destruct value as [|x value]; [by apply TryDelete_spec|].
  destruct Href as (tr & Hr & Hc & Hm). pose proof (hexkey_keybytes key Hk) as Hx.
  unfold TryUpdate. rewrite zlen_pos. cbn [negb].
  destruct (insert_spec (owner t) _ true (root t) tr [] (keybytesToHex key) (x :: value) Hr
              (fits_canon0 _ _ Hc Hx) (or_intror Hx) ltac:(done) (hex_fuel _ _))
    as (b & n' & t' & E & Hr' & Hc' & _ & Hu & _).
  cbn [root owner]. rewrite E. cbn [mbind res_bind]. eexists. split; [done|]. exists t'.
  split_and!; [done | right; by apply Hc' | by apply holds_insert with tr].
Qed.

(** C7: A trie refines a finite map, with any part of it still in the
    database: an empty trie is the empty map; TryGet returns what the map holds,
    or nothing, and keeps the map; TryUpdate binds the key, or removes it when
    the value is empty; TryDelete removes it.  None of them runs out of fuel,
    panics or reports a missing node. *)
Theorem trie_refines_map :
  (forall owner root, root = 0 \/ root = emptyRoot ->
     exists t, newTrie owner root = Ok (inl t) /\ refines t ∅) /\
  forall t m key value, refines t m -> wf_bytes key ->
    (exists t', TryGet t key = Ok (inl (default [] (m !! key), t')) /\ refines t' m) /\
    (exists t', TryUpdate t key value = Ok (t', None) /\ refines t' (update_map m key value)) /\
    (exists t', TryDelete t key = Ok (t', None) /\ refines t' (base.delete key m)).
Proof.
  split.
  - intros own r Hroot. exists (mkTrie NilNode own 0). split.
    + unfold newTrie. destruct Hroot as [->| ->]; done.
    + exists TNil. split_and!; [constructor | by left | apply holds_empty].
  - intros t m key value Hr Hk.
    split_and!; [by apply TryGet_spec | by apply TryUpdate_spec | by apply TryDelete_spec].
Qed.

(** ** Root hashes *)

(** The root hash of a tree. *)
Definition root_hash (tr : tree) : Hash :=
  match tr with TNil => emptyRoot | _ => BytesToHash (thash tr) end.

Lemma Trie_Hash_spec t m tr : repr true (root t) tr -> canon0 tr -> holds tr m -> bounded m ->
  exists t', Hash_ t = Ok (root_hash tr, t') /\ repr true (root t') tr /\
    (canon tr -> complete (root t') tr /\ hash_cached true (root t')).
Proof.
  intros Hr Hc Hm Hb. unfold Hash_, hashRoot. destruct Hc as [->|Hc].
  - inversion Hr as [E| | | |]; [|done]. cbn [is_nil mbind res_bind]. eexists. split; [|split].
    + unfold BytesToHash. rewrite length_be_bytes. change (32 - 32)%nat with 0%nat. rewrite drop_0, be_value_be_bytes.
      by rewrite Z.mod_small by (by compute).
    + constructor.
    + inversion 1.
  - assert (Hn : is_nil (root t) = false).
    { apply (repr_nil_false _ _ _ Hr). intros ->. inversion Hc. }
    rewrite Hn.
    destruct (hash_spec tr Hc (holds_sized tr m Hc Hm Hb) true (root t) Hr) as (hn & cn & -> & Hrc & Hcm & Hhc & _ & Hhn & _).
    rewrite (Hhn eq_refl). cbn [mbind res_bind].
    assert (Hrh : root_hash tr = BytesToHash (thash tr)) by (destruct Hc; reflexivity).
    rewrite Hrh. eexists. split; [reflexivity|]. split; [exact Hrc|]. intros _. exact (conj Hcm Hhc).
Qed.

(** No two nodes of tries with these contents have the same hash. *)
Definition collision_free (m1 m2 : gmap bytes bytes) : Prop :=
  forall t1 t2, canon0 t1 -> canon0 t2 -> holds t1 m1 -> holds t2 m2 -> no_collision t1 t2.

(** The root hash determines the contents. *)
Lemma root_hash_inj tr1 tr2 m1 m2 : canon0 tr1 -> canon0 tr2 -> holds tr1 m1 -> holds tr2 m2 -> bounded m1 -> bounded m2 ->
  keccak256 [128] = emptyRoot -> collision_free m1 m2 -> root_hash tr1 = root_hash tr2 -> m1 = m2.
Proof.
  intros C1 C2 M1 M2 B1 B2 Hempty Hcf Eh. apply (holds_determines tr1); [done|].
  assert (Hrt : forall tr, be_bytes 32 (root_hash tr) = thash tr).
  { intros [| | |]; [|apply thash_value ..]. cbn [root_hash]. unfold thash, hashData.
    change (tenc TNil) with [128]. by rewrite Hempty. }
  rewrite (canon_hash_inj tr1 tr2); [done | done | done | | | by apply Hcf |].
  - intros Hc. by apply (holds_sized tr1 m1).
  - intros Hc. by apply (holds_sized tr2 m2).
  - by rewrite <- !Hrt, Eh.
Qed.

(** C8: The root hash identifies the contents of a trie: two tries with
    the same contents, built by whatever operations in whatever order, with
    whatever parts loaded and whatever hashes cached, have the same root hash;
    two tries with the same root hash have the same contents, unless two
    different nodes of them have the same hash.  Hashing keeps the contents. *)
Theorem root_hash_identifies_contents t1 t2 m1 m2 :
  refines t1 m1 -> refines t2 m2 -> bounded m1 -> bounded m2 ->
  exists h1 h2 t1' t2',
    Hash_ t1 = Ok (h1, t1') /\ Hash_ t2 = Ok (h2, t2') /\ refines t1' m1 /\ refines t2' m2 /\
    (m1 = m2 -> h1 = h2) /\
    (keccak256 [128] = emptyRoot -> collision_free m1 m2 -> h1 = h2 -> m1 = m2).
Proof.
  intros (tr1 & R1 & C1 & M1) (tr2 & R2 & C2 & M2) B1 B2.
  destruct (Trie_Hash_spec t1 m1 tr1 R1 C1 M1 B1) as (t1' & E1 & R1' & _).
  destruct (Trie_Hash_spec t2 m2 tr2 R2 C2 M2 B2) as (t2' & E2 & R2' & _).
  exists (root_hash tr1), (root_hash tr2), t1', t2'. split_and!; [done | done | by exists tr1 | by exists tr2 | |].
  - intros <-. by rewrite (holds_unique tr1 tr2 m1).
  - intros Hempty Hcf Eh. by apply (root_hash_inj tr1 tr2).
Qed.
End trie_theorems.

(** ** Concrete instances *)

(** Digests that spell the string, except for the known hash of the empty trie. *)
Definition trie_crypto : Crypto := {|
  keccak256 bs := if bool_decide (bs = [128]) then emptyRoot else be_value (1 :: bs);
  sha256Sum _ := replicate 32 0;
  ripemd160Sum _ := replicate 20 0;
  Ecrecover _ _ := None;
|}.

Definition no_nodes : NodeReader := fun _ => Ok NilNode.

Lemma empty_refines : refines (H := trie_crypto) (H0 := no_nodes) (mkTrie NilNode 0 0) ∅.
Proof. exists TNil. split_and!; [constructor | by left | apply holds_empty]. Qed.

Lemma trie_refines_map_witness :
  exists t t', TryUpdate (H0 := no_nodes) (mkTrie NilNode 0 0) [18; 52] [7] = Ok (t, None) /\
    TryGet (H0 := no_nodes) t [18; 52] = Ok (inl ([7], t')) /\
    exists t'', TryDelete (H0 := no_nodes) t [18; 52] = Ok (t'', None).
Proof.
  pose proof (@trie_refines_map trie_crypto no_nodes) as [_ H].
  assert (W : wf_bytes [18; 52]) by (repeat constructor; lia).
  destruct (H (mkTrie NilNode 0 0) ∅ [18; 52] [7] empty_refines W) as (_ & (t & E & R) & _).
  destruct (H t _ [18; 52] [7] R W) as ((t' & E' & _) & _ & (t'' & E'' & _)).
  exists t, t'. split; [exact E|]. split; [|by exists t''].
  rewrite E'. cbn [update_map]. by rewrite lookup_insert_eq.
Defined.

Definition one_leaf : Trie := mkTrie (ShortNode [16] (ValueNode [1]) newFlag) 0 1.
Definition one_leaf_tree : tree := TShort [16] (TVal [1]).

Lemma one_leaf_canon : canon one_leaf_tree.
Proof. apply (canon_leaf []); [constructor | done]. Qed.

Lemma one_leaf_holds : holds one_leaf_tree {[ [] := [1] ]}.
Proof.
  apply (holds_insert TNil _ ∅ [] [1] holds_empty); [constructor|].
  intros k. cbn [keybytesToHex flat_map app one_leaf_tree tlookup]. destruct (strip [16] k) as [r|] eqn:E.
  - apply strip_Some in E as ->. cbn [tlookup]. case_bool_decide; [by subst|].
    rewrite decide_False; [done|]. cbn. by intros [= ?].
  - rewrite decide_False; [done|]. by intros ->.
Qed.

Lemma one_leaf_refines : refines (H := trie_crypto) (H0 := no_nodes) one_leaf {[ [] := [1] ]}.
Proof.
  exists one_leaf_tree.
  split_and!; [apply repr_short_new; constructor | right; apply one_leaf_canon | apply one_leaf_holds].
Qed.

Lemma one_leaf_collision_free : collision_free (H := trie_crypto) ∅ {[ [] := [1] ]}.
Proof.
  intros t1 t2 C1 C2 M1 M2 s1 s2 I1 I2 E. exfalso.
  assert (t1 = TNil) as -> by (eapply holds_unique; [done | by left | done | apply holds_empty]).
  assert (t2 = one_leaf_tree) as ->
    by (eapply holds_unique; [done | right; apply one_leaf_canon | done | apply one_leaf_holds]).
  inversion I1; subst. inversion I2 as [|k c I| ]; subst; [|inversion I; subst]; vm_compute in E; discriminate.
Qed.

Lemma one_leaf_unique tr : canon0 tr -> holds tr {[ [] := [1] ]} -> tr = one_leaf_tree.
Proof. intros Hc Hm. eapply holds_unique; [done | right; apply one_leaf_canon | done | apply one_leaf_holds]. Qed.

Lemma one_leaf_inside s : inside s one_leaf_tree -> s = one_leaf_tree \/ s = TVal [1].
Proof. inversion 1 as [|k c I| ]; subst; [by left | right; by inversion I]. Qed.

Lemma one_leaf_self_free : collision_free (H := trie_crypto) {[ [] := [1] ]} {[ [] := [1] ]}.
Proof.
  intros t1 t2 C1 C2 M1 M2 s1 s2 I1 I2 E. rewrite (one_leaf_unique t1 C1 M1) in I1.
  rewrite (one_leaf_unique t2 C2 M2) in I2.
  apply one_leaf_inside in I1 as [->| ->], I2 as [->| ->]; try done; vm_compute in E; discriminate.
Qed.

Lemma one_leaf_bounded : bounded {[ [] := [1] ]}.
Proof.
  intros key v E. apply lookup_singleton_Some in E as [<- <-].
  split; [by compute|]. split; [repeat constructor; lia | by compute].
Qed.

Lemma root_hash_identifies_contents_witness :
  exists h1 h2 t1 t2, Hash_ (H := trie_crypto) (mkTrie NilNode 0 0) = Ok (h1, t1) /\
    Hash_ (H := trie_crypto) one_leaf = Ok (h2, t2) /\ h1 <> h2.
Proof.
  assert (B : bounded ∅) by done.
  destruct (@root_hash_identifies_contents trie_crypto no_nodes _ _ _ _ empty_refines one_leaf_refines
              B one_leaf_bounded) as (h1 & h2 & t1 & t2 & E1 & E2 & _ & _ & _ & Hinj).
  exists h1, h2, t1, t2. split; [exact E1|]. split; [exact E2|]. intros Eh.
  specialize (Hinj eq_refl one_leaf_collision_free Eh).
  by apply (f_equal (fun m : gmap bytes bytes => m !! [])) in Hinj.
Defined.
