(* ===== verification/TrieDB.v ===== *)
(** * The node database of the tries ([database/trie/database.go],
    [committer.go], [Trie.Commit] of [trie.go])

    The in-memory layer that collects the nodes of committed tries before they
    go to disk: the dirty nodes with their reference counts and the flush list
    that links them in insertion order.  Disk and clean cache are maps from
    hashes to encodings; locks, metrics and the garbage-collection statistics
    are left out. *)

From S2P Require Import Prelude Common TrieEncoding Rlp EvmState Trie.

Local Open Scope Z_scope.

(** [size] is a [uint16], [parents] a [uint32]; [children] is nil until the first
    external reference. *)
Record cachedNode := mkCached {
  cnode : node;
  csize : Z;
  parents : Z;
  cchildren : option (gmap Hash Z);
  flushPrev : Hash;
  flushNext : Hash;
}.

(** [cleans] and [preimages] are nil when disabled.  The storage sizes are floats
    that only ever hold integers. *)
Record TrieDatabase := mkDB {
  diskdb : gmap Hash bytes;
  cleans : option (gmap Hash bytes);
  dirties : gmap Hash cachedNode;
  oldest : Hash;
  newest : Hash;
  preimages : option (gmap Hash bytes);
  dirtiesSize : Z;
  childrenSize : Z;
  preimagesSize : Z;
}.

Definition u32 (x : Z) : Z := x mod 2 ^ 32.

(** ** Collapsed storage nodes *)

(** [simplifyNode]: the flags are dropped. *)
Fixpoint simplifyNode (n : node) : res node :=
  match n with
  | ShortNode k v _ => v ← simplifyNode v; Ok (RawShortNode k v)
  | FullNode cs _ =>
    cs ← (fix go (cs : list node) : res (list node) :=
            match cs with
            | [] => Ok []
            | c :: r => c ← (if is_nil c then Ok c else simplifyNode c); r ← go r; Ok (c :: r)
            end) cs;
    Ok (RawFullNode cs)
  | ValueNode _ | HashNode _ | RawNode _ => Ok n
  | _ => Panic PanicNode
  end.

(** [expandNode]: flags and hex keys are put back. *)
Fixpoint expandNode (hash : option bytes) (n : node) : res node :=
  match n with
  | RawShortNode k v =>
    k ← compactToHex k; v ← expandNode None v; Ok (ShortNode k v (mkFlag hash false))
  | RawFullNode cs =>
    cs ← (fix go (cs : list node) : res (list node) :=
            match cs with
            | [] => Ok []
            | c :: r => c ← (if is_nil c then Ok c else expandNode None c); r ← go r; Ok (c :: r)
            end) cs;
    Ok (FullNode cs (mkFlag hash false))
  | ValueNode _ | HashNode _ => Ok n
  | _ => Panic PanicNode
  end.

(** [forGatherChildren]: the hashes it hands to the callback, in order. *)
Fixpoint forGatherChildren (n : node) : res (list Hash) :=
  match n with
  | RawShortNode _ v => forGatherChildren v
  | RawFullNode cs =>
    (fix go (i : nat) (cs : list node) {struct cs} : res (list Hash) :=
       match cs with
       | [] => Ok []
       | c :: r => if bool_decide (i < 16)%nat
                   then a ← forGatherChildren c; b ← go (S i) r; Ok (a ++ b)
                   else Ok []
       end) 0%nat cs
  | HashNode h => Ok [BytesToHash h]
  | ValueNode _ | NilNode | RawNode _ => Ok []
  | _ => Panic PanicNode
  end.

Definition cached_rlp (c : cachedNode) : res bytes :=
  match cnode c with RawNode b => Ok b | n => nodeToBytes n end.

Definition obj (c : cachedNode) (hash : Hash) : res node :=
  match cnode c with
  | RawNode b => mustDecodeNode (Some (be_bytes 32 hash)) b
  | n => expandNode (Some (be_bytes 32 hash)) n
  end.

(** ** Reading *)

Definition set_cleans (cl : option (gmap Hash bytes)) (db : TrieDatabase) : TrieDatabase :=
  mkDB (diskdb db) cl (dirties db) (oldest db) (newest db) (preimages db)
       (dirtiesSize db) (childrenSize db) (preimagesSize db).

Definition clean_get (db : TrieDatabase) (hash : Hash) : option bytes :=
  cl ← cleans db; cl !! hash.

(** The clean cache remembers what was read from disk. *)
Definition clean_set (hash : Hash) (enc : bytes) (db : TrieDatabase) : TrieDatabase :=
  set_cleans (option_map (fun cl => <[hash := enc]> cl) (cleans db)) db.

(** [db.node]: the node, nil if there is none, and the database with what it
    cached. *)
Definition node_of (db : TrieDatabase) (hash : Hash) : res (node * TrieDatabase) :=
  match clean_get db hash with
  | Some enc => n ← mustDecodeNode (Some (be_bytes 32 hash)) enc; Ok (n, db)
  | None =>
    match dirties db !! hash with
    | Some dirty => n ← obj dirty hash; Ok (n, db)
    | None =>
      match diskdb db !! hash with
      | None => Ok (NilNode, db)
      | Some enc => n ← mustDecodeNode (Some (be_bytes 32 hash)) enc; Ok (n, clean_set hash enc db)
      end
    end
  end.

(** [db.Node]: the encoding; [None] for the error "not found". *)
Definition Node (db : TrieDatabase) (hash : Hash) : res (option bytes * TrieDatabase) :=
  if hash =? 0 then Ok (None, db)
  else match clean_get db hash with
  | Some enc => Ok (Some enc, db)
  | None =>
    match dirties db !! hash with
    | Some dirty => enc ← cached_rlp dirty; Ok (Some enc, db)
    | None =>
      match diskdb db !! hash with
      | Some enc => if negb (zlen enc =? 0) then Ok (Some enc, clean_set hash enc db) else Ok (None, db)
      | None => Ok (None, db)
      end
    end
  end.

(** What a trie over the database reads. *)
Definition reader (db : TrieDatabase) : NodeReader := fun h => '(n, _) ← node_of db h; Ok n.

(** ** Inserting *)

Definition set_dirties (f : gmap Hash cachedNode -> gmap Hash cachedNode) (db : TrieDatabase) : TrieDatabase :=
  mkDB (diskdb db) (cleans db) (f (dirties db)) (oldest db) (newest db) (preimages db)
       (dirtiesSize db) (childrenSize db) (preimagesSize db).

Definition add_parent (c : cachedNode) : cachedNode :=
  mkCached (cnode c) (csize c) (u32 (parents c + 1)) (cchildren c) (flushPrev c) (flushNext c).
Definition set_flushNext (h : Hash) (c : cachedNode) : cachedNode :=
  mkCached (cnode c) (csize c) (parents c) (cchildren c) (flushPrev c) h.

(** [NewDatabaseWithConfig]: the entry of the zero hash holds the references to
    the roots. *)
Definition NewDatabase (disk : gmap Hash bytes) (cache : bool) (withPreimages : bool) : TrieDatabase :=
  mkDB disk (if cache then Some ∅ else None)
       {[ 0 := mkCached NilNode 0 0 (Some ∅) 0 0 ]} 0 0
       (if withPreimages then Some ∅ else None) 0 0 0.

(** [db.insert]; a new entry has no external children, so that only the hashes
    inside the node are referenced.  [HashLength + entry.size] is a [uint16]
    sum. *)
Definition db_insert (hash : Hash) (size : Z) (n : node) (db : TrieDatabase) : res TrieDatabase :=
  match dirties db !! hash with
  | Some _ => Ok db
  | None =>
    sn ← simplifyNode n;
    let entry := mkCached sn (u16 size) 0 None (newest db) 0 in
    kids ← forGatherChildren sn;
    let d := foldl (fun d child => alter add_parent child d) (dirties db) kids in
    let d := <[hash := entry]> d in
    '(d, old, new) ←
      (if oldest db =? 0 then Ok (d, hash, hash)
       else match d !! newest db with
            | None => Panic PanicNil
            | Some _ => Ok (alter (set_flushNext hash) (newest db) d, oldest db, hash)
            end);
    Ok (mkDB (diskdb db) (cleans db) d old new (preimages db)
             (dirtiesSize db + u16 (32 + u16 size)) (childrenSize db) (preimagesSize db))
  end.

(** [insertPreimage] *)
Definition insertPreimage (hash : Hash) (preimage : bytes) (db : TrieDatabase) : TrieDatabase :=
  match preimages db with
  | None => db
  | Some p =>
    match p !! hash with
    | Some _ => db
    | None => mkDB (diskdb db) (cleans db) (dirties db) (oldest db) (newest db)
                   (Some (<[hash := preimage]> p)) (dirtiesSize db) (childrenSize db)
                   (preimagesSize db + (32 + zlen preimage))
    end
  end.

(** [reference]: a reference from a node, or from the metaroot, to a root. *)
Definition reference (child parent : Hash) (db : TrieDatabase) : res TrieDatabase :=
  match dirties db !! child with
  | None => Ok db
  | Some _ =>
    p ← or_panic PanicNil (dirties db !! parent);
    let '(kids, csz, dup) :=
      match cchildren p with
      | None => (∅, childrenSize db + 48, false)
      | Some kids => (kids, childrenSize db,
                      bool_decide (is_Some (kids !! child)) && negb (parent =? 0))
      end in
    if (dup : bool) then Ok db
    else
      let set_kids (k : gmap Hash Z) (c : cachedNode) :=
        mkCached (cnode c) (csize c) (parents c) (Some k) (flushPrev c) (flushNext c) in
      let d := alter (set_kids kids) parent (dirties db) in
      let d := alter add_parent child d in
      let n := u16 (default 0 (kids !! child) + 1) in
      let d := alter (set_kids (<[child := n]> kids)) parent d in
      let csz := if n =? 1 then csz + (32 + 2) else csz in
      Ok (mkDB (diskdb db) (cleans db) d (oldest db) (newest db) (preimages db)
               (dirtiesSize db) csz (preimagesSize db))
  end.

(** ** The committer *)

(** [estimateSize] *)
Fixpoint estimateSize (n : node) : res Z :=
  match n with
  | ShortNode k v _ => s ← estimateSize v; Ok (3 + zlen k + s)
  | FullNode cs _ =>
    (fix go (i : nat) (cs : list node) (s : Z) {struct cs} : res Z :=
       match cs with
       | [] => Ok s
       | c :: r => if bool_decide (i < 16)%nat
                   then x ← (if is_nil c then Ok 1 else estimateSize c); go (S i) r (s + x)
                   else Ok s
       end) 0%nat cs 3
  | ValueNode v => Ok (1 + zlen v)
  | HashNode h => Ok (1 + zlen h)
  | _ => Panic PanicNode
  end.

(** [store]: a node without a hash stays in its parent. *)
Definition store (n : node) (db : TrieDatabase) : res (node * TrieDatabase) :=
  '(hash, _) ← cache n;
  match hash with
  | None => Ok (n, db)
  | Some h =>
    size ← estimateSize n;
    db ← db_insert (BytesToHash h) size n db;
    Ok (HashNode h, db)
  end.

(** [commitChildren]: the first 16 children are committed unless they are
    hashes, the value is kept. *)
Definition commitChildren_with (commit : node -> TrieDatabase -> res (node * Z * TrieDatabase)) :=
  fix go (i : nat) (cs : list node) (db : TrieDatabase) {struct cs} : res (list node * Z * TrieDatabase) :=
    match cs with
    | [] => Ok ([], 0, db)
    | c :: r =>
      '(h, n, db) ←
        (if bool_decide (i < 16)%nat
         then match c with
              | NilNode | HashNode _ => Ok (c, 0, db)
              | _ => commit c db
              end
         else Ok (c, 0, db));
      '(hs, m, db) ← go (S i) r db;
      Ok (h :: hs, n + m, db)
    end.

(** [commit]: the collapsed node or its hash, and how many nodes were stored. *)
Fixpoint commit (n : node) (db : TrieDatabase) : res (node * Z * TrieDatabase) :=
  '(hash, dirty) ← cache n;
  match hash, dirty with
  | Some h, false => Ok (HashNode h, 0, db)
  | _, _ =>
    match n with
    | ShortNode k v fl =>
      '(v', childCommitted, db) ←
        match v with
        | FullNode _ _ => commit v db
        | _ => Ok (v, 0, db)
        end;
      ck ← hexToCompact k;
      let collapsed := ShortNode ck v' fl in
      '(hashed, db) ← store collapsed db;
      match hashed with
      | HashNode h => Ok (HashNode h, childCommitted + 1, db)
      | _ => Ok (collapsed, childCommitted, db)
      end
    | FullNode cs fl =>
      '(hashedKids, childCommitted, db) ← commitChildren_with commit 0 cs db;
      let collapsed := FullNode hashedKids fl in
      '(hashed, db) ← store collapsed db;
      match hashed with
      | HashNode h => Ok (HashNode h, childCommitted + 1, db)
      | _ => Ok (collapsed, childCommitted, db)
      end
    | HashNode _ => Ok (n, 0, db)
    | _ => Panic PanicNode
    end
  end.

(** [Commit] of the committer *)
Definition committer_Commit (n : node) (db : TrieDatabase) : res (node * Z * TrieDatabase) :=
  '(h, committed, db) ← commit n db;
  match h with HashNode _ => Ok (h, committed, db) | _ => Panic PanicTypeAssertion end.

(** [Trie.Commit] without a leaf callback: the root hash, how many nodes were
    stored, the trie and the database. *)
Definition Trie_Commit `{Crypto} (t : Trie) (db : TrieDatabase) : res (Hash * Z * Trie * TrieDatabase) :=
  if is_nil (root t) then Ok (emptyRoot, 0, t, db)
  else
    '(rootHash, t) ← Hash_ t;
    '(hashedNode, dirty) ← cache (root t);
    if negb dirty
    then Ok (rootHash, 0, mkTrie (HashNode (default [] hashedNode)) (owner t) (unhashed t), db)
    else
      '(newRoot, committed, db) ← committer_Commit (root t) db;
      Ok (rootHash, committed, mkTrie newRoot (owner t) (unhashed t), db).
