(* ===== verification/TrieCommit.v ===== *)
(** * Committing a trie

    [Commit] writes every hashed node that is not yet stored into the node
    database, under its hash and in the form it is loaded in; whatever could be
    read before can still be read. *)

From S2P Require Import Prelude Common TrieEncoding Rlp RlpSpec EvmState Trie TrieSpec TrieOps TrieHash TrieDecode.
From S2P Require Import TrieTheorems TrieDB.

Local Open Scope Z_scope.

(** ** Reading after an insertion *)

Lemma decodeNode_not_nil fuel hash buf n : decodeNode_fuel fuel hash buf = Ok (inl n) -> is_nil n = false.
Proof.
  destruct fuel as [|fuel]; [done|]. cbn [decodeNode_fuel]. destruct (zlen buf =? 0); [done|].
  unfold try_rlp. intros E. bind_inv E. destruct v as [[elems rest]|]; [|done]. bind_inv E.
  destruct (_ =? 2); [|destruct (_ =? 17); [|done]].
  - unfold decodeShort_with, try_rlp in E. bind_inv E. destruct v0 as [[kbuf r]|]; [|done]. bind_inv E.
    destruct (hasTerm v0).
    + bind_inv E. destruct v1 as [[val ?]|]; [|done]. by simplify_eq.
    + unfold try in E. bind_inv E. destruct v1 as [[val ?]|]; [|done]. by simplify_eq.
  - unfold decodeFull_with, try, try_rlp in E. bind_inv E. destruct v0 as [[cs r]|]; [|done]. bind_inv E.
    destruct v0 as [[val ?]|]; [|done]. by simplify_eq.
Qed.

Lemma mustDecodeNode_not_nil hash buf n : mustDecodeNode hash buf = Ok n -> is_nil n = false.
Proof.
  unfold mustDecodeNode. intros E. bind_inv E. destruct v; [|done]. simplify_eq. by eapply decodeNode_not_nil.
Qed.

Lemma expandNode_not_nil hash n m : expandNode hash n = Ok m -> is_nil m = false.
Proof. destruct n; cbn; intros E; simplify_eq; try done; repeat bind_inv E; by simplify_eq. Qed.

Lemma obj_not_nil c h n : obj c h = Ok n -> is_nil n = false.
Proof.
  unfold obj. destruct (cnode c); intros E; first [by eapply expandNode_not_nil | by eapply mustDecodeNode_not_nil].
Qed.

(** A hash reads as nil exactly when nothing is stored under it. *)
Lemma reader_nil db h : reader db h = Ok NilNode ->
  clean_get db h = None /\ dirties db !! h = None /\ diskdb db !! h = None.
Proof.
  unfold reader, node_of. intros E. bind_inv E. destruct v as [n db']. simplify_eq.
  destruct (clean_get db h); [by bind_inv E0; simplify_eq; apply mustDecodeNode_not_nil in E|].
  destruct (dirties db !! h); [by bind_inv E0; simplify_eq; apply obj_not_nil in E|].
  destruct (diskdb db !! h); [|done]. by bind_inv E0; simplify_eq; apply mustDecodeNode_not_nil in E.
Qed.

(** Reading depends on the nodes of the dirty entries only. *)
Definition same_but (h : Hash) (d d' : gmap Hash cachedNode) : Prop :=
  forall h', h' <> h -> cnode <$> d' !! h' = cnode <$> d !! h'.

Lemma obj_cnode c c' h : cnode c = cnode c' -> obj c h = obj c' h.
Proof. unfold obj. by intros ->. Qed.

Lemma reader_same db db' h h' : clean_get db' h' = clean_get db h' -> diskdb db' = diskdb db ->
  same_but h (dirties db) (dirties db') -> h' <> h -> reader db' h' = reader db h'.
Proof.
  intros Hc Hd Hs Hne. unfold reader, node_of. rewrite Hc, Hd. specialize (Hs h' Hne).
  destruct (clean_get db h'); [by destruct (mustDecodeNode _ _)|].
  destruct (dirties db !! h') as [c|], (dirties db' !! h') as [c'|]; try done; cbn in Hs.
  - injection Hs as Hs. rewrite (obj_cnode c' c) by done. by destruct (obj c h').
  - destruct (diskdb db !! h'); [|done]. by destruct (mustDecodeNode _ _).
Qed.

Lemma alter_cnode f (d : gmap Hash cachedNode) h h' : (forall c, cnode (f c) = cnode c) ->
  cnode <$> alter f h d !! h' = cnode <$> d !! h'.
Proof.
  intros Hf. destruct (decide (h = h')) as [<-|].
  - rewrite lookup_alter_eq. destruct (d !! h); [|done]. cbn. by rewrite Hf.
  - by rewrite lookup_alter_ne.
Qed.

Lemma add_parents_cnode kids (d : gmap Hash cachedNode) h' :
  cnode <$> foldl (fun d child => alter add_parent child d) d kids !! h' = cnode <$> d !! h'.
Proof.
  revert d. induction kids as [|k kids IH]; intros d; [done|]. cbn [foldl]. rewrite IH. by apply alter_cnode.
Qed.

(** The end of the flush list is there. *)
Definition flush_ok (db : TrieDatabase) : Prop := oldest db = 0 \/ is_Some (dirties db !! newest db).

(** What is inserted can be read, and everything else reads as before. *)
Lemma db_insert_reads h size n db sn kids :
  flush_ok db -> dirties db !! h = None -> simplifyNode n = Ok sn -> forGatherChildren sn = Ok kids ->
  exists db', db_insert h size n db = Ok db' /\ flush_ok db' /\
    (forall h', h' <> h -> reader db' h' = reader db h') /\
    (clean_get db h = None -> (forall b, sn <> RawNode b) ->
       reader db' h = expandNode (Some (be_bytes 32 h)) sn) /\
    (clean_get db h <> None -> reader db' h = reader db h).
Proof.
  intros Hf Hn Hs Hk. unfold db_insert. rewrite Hn, Hs. cbn [mbind res_bind]. rewrite Hk. cbn [mbind res_bind].
  set (entry := mkCached sn (u16 size) 0 None (newest db) 0).
  set (d := <[h := entry]> (foldl (fun d child => alter add_parent child d) (dirties db) kids)).
  assert (Hd : exists d' old, (if oldest db =? 0 then Ok (d, h, h)
       else match d !! newest db with
            | None => Panic PanicNil
            | Some _ => Ok (alter (set_flushNext h) (newest db) d, oldest db, h)
            end) = Ok (d', old, h) /\ (forall h', cnode <$> d' !! h' = cnode <$> d !! h')).
  { destruct (Z.eqb_spec (oldest db) 0) as [|Ho]; [by exists d, h|].
    destruct Hf as [?|[c Hc]]; [done|].
    assert (Hin : is_Some (d !! newest db)).
    { unfold d. rewrite lookup_insert_is_Some. destruct (decide (h = newest db)); [by left|]. right. split; [done|].
      pose proof (add_parents_cnode kids (dirties db) (newest db)) as E. rewrite Hc in E.
      by destruct (foldl _ _ _ !! _). }
    destruct Hin as [c' ->]. do 2 eexists. split; [done|]. intros h'. by apply alter_cnode. }
  destruct Hd as (d' & old & -> & Hd'). cbn [mbind res_bind].
  eexists. split; [done|]. split_and!.
  - right. cbn [dirties newest]. pose proof (Hd' h) as E. unfold d in E. rewrite lookup_insert_eq in E.
    by destruct (d' !! h).
  - intros h' Hne. apply (reader_same _ _ h); [done | done | | done]. intros h'' Hne'. cbn [dirties].
    rewrite Hd'. unfold d. rewrite lookup_insert_ne by done. apply add_parents_cnode.
  - intros Hcl Hraw. unfold reader, node_of. cbn [dirties diskdb]. change (clean_get _ h) with (clean_get db h). rewrite Hcl.
    pose proof (Hd' h) as E. unfold d in E. rewrite lookup_insert_eq in E.
    destruct (d' !! h) as [c|]; [|done]. cbn in E. injection E as E.
    unfold obj. rewrite E. destruct sn; try (by destruct (expandNode _ _)). by destruct (Hraw b).
  - intros Hcl. unfold reader, node_of. change (clean_get _ h) with (clean_get db h).
    destruct (clean_get db h); [|done]. by destruct (mustDecodeNode _ _).
Qed.

Section committing.
Context `{Crypto}.

(** ** Collapsed nodes *)

(** A collapsed node and its raw form, which is read back as [load] says. *)
Definition expands (n sn : node) (load : option bytes -> node) : Prop :=
  is_nil n = false /\ simplifyNode n = Ok sn /\ (forall hash, expandNode hash sn = Ok (load hash)) /\
  is_Some (match forGatherChildren sn with Ok l => Some l | _ => None end) /\
  is_Some (match estimateSize n with Ok s => Some s | _ => None end).

Definition stores (n : node) (t : tree) : Prop :=
  exists sn, (forall b, sn <> RawNode b) /\
    expands n sn (fun hash => with_flag (mkFlag hash false) (load t)).

(** A reference to a child, inside the collapsed node of its parent. *)
Definition refers (n : node) (t : tree) : Prop :=
  (n = NilNode /\ t = TNil) \/
  (t <> TNil /\ exists sn, is_nil sn = false /\ is_nil n = false /\ simplifyNode n = Ok sn /\ expandNode None sn = Ok (kid t) /\
     (exists l, forGatherChildren sn = Ok l) /\ exists s, estimateSize n = Ok s).

Lemma refers_value v : refers (ValueNode v) (TVal v).
Proof. right. split; [done|]. exists (ValueNode v). split_and!; try done; by eexists. Qed.

Lemma refers_hash t : big t = true -> refers (HashNode (thash t)) t.
Proof.
  intros Hb. right. split; [by intros ->|]. exists (HashNode (thash t)). split_and!; try done; try by eexists.
  unfold kid, ref_node. by rewrite Hb.
Qed.

Lemma refers_embedded n t : is_branch t = true -> big t = false -> stores n t -> refers n t.
Proof.
  intros Hbr Hb (sn & Hraw & Hn & Hs & He & [l Hl] & [s Hz]). right. split; [by intros ->|].
  exists sn. destruct (forGatherChildren sn) as [l'| |] eqn:El; [|done|done].
  destruct (estimateSize n) as [s'| |] eqn:Es; [|done|done].
  split_and!; [| done | done | | by eexists | by eexists].
  - destruct sn; try done. by specialize (He None).
  - rewrite He. unfold kid, ref_node. rewrite Hb. by rewrite <- load_with_flag.
Qed.

Lemma stores_short k v c fl : canon (TShort k c) -> refers v c -> stores (ShortNode (compact_key k) v fl) (TShort k c).
Proof.
  intros Hc Hr. destruct (short_key_term k c Hc) as (b & ns & Hns & ->).
  destruct Hr as [[-> ->]|(_ & sn & Hsn & Hn & Hs & He & [l Hl] & [s Hz])].
  { by apply canon_short_cases in Hc as [_ [(? & ? & _ & ? & _)|(? & _ & _ & ?)]]. }
  exists (RawShortNode (compact_key (with_term b ns)) sn). split; [done|].
  split_and!; [done | cbn [simplifyNode]; by rewrite Hs | | cbn [forGatherChildren]; rewrite Hl; by eexists
              | cbn [estimateSize]; rewrite Hz; by eexists].
  intros hash. cbn [expandNode]. rewrite compact_key_with_term, compactToHex_compact by done.
  cbn [mbind res_bind]. by rewrite He.
Qed.

(** The loops over the children of a full node. *)
Lemma stores_full hs ts fl : length hs = length ts ->
  (forall i n t, hs !! i = Some n -> ts !! i = Some t -> refers n t) -> stores (FullNode hs fl) (TFull ts).
Proof.
  intros Hl Hr.
  assert (Hgo : exists sns,
    (fix go (cs : list node) : res (list node) :=
       match cs with
       | [] => Ok []
       | c :: r => c ← (if is_nil c then Ok c else simplifyNode c); r ← go r; Ok (c :: r)
       end) hs = Ok sns /\
    (fix go (cs : list node) : res (list node) :=
       match cs with
       | [] => Ok []
       | c :: r => c ← (if is_nil c then Ok c else expandNode None c); r ← go r; Ok (c :: r)
       end) sns = Ok (map kid ts) /\
    (forall i, exists l, (fix go (i : nat) (cs : list node) {struct cs} : res (list Hash) :=
       match cs with
       | [] => Ok []
       | c :: r => if bool_decide (i < 16)%nat
                   then a ← forGatherChildren c; b ← go (S i) r; Ok (a ++ b)
                   else Ok []
       end) i sns = Ok l) /\
    (forall i s, exists z, (fix go (i : nat) (cs : list node) (s : Z) {struct cs} : res Z :=
       match cs with
       | [] => Ok s
       | c :: r => if bool_decide (i < 16)%nat
                   then x ← (if is_nil c then Ok 1 else estimateSize c); go (S i) r (s + x)
                   else Ok s
       end) i hs s = Ok z)).
  { revert ts Hl Hr. induction hs as [|n hs IH]; intros [|t ts] Hl Hr; try done.
    { exists []. split_and!; [done | done | by eexists | by eexists]. }
    destruct (IH ts) as (sns & E1 & E2 & E3 & E4); [by injection Hl | intros i; apply (Hr (S i)) |].
    destruct (Hr 0%nat n t eq_refl eq_refl) as [[-> ->]|(Ht & sn & Hsn & Hn & Hs & He & [l El] & [s Ez])].
    - exists (NilNode :: sns). rewrite E1. cbn [is_nil mbind res_bind]. rewrite E2.
      split_and!; [done | done | |].
      + intros i. destruct (E3 (S i)) as [l ->]. cbn. destruct (bool_decide _); by eexists.
      + intros i s. destruct (E4 (S i) (s + 1)) as [z ->]. destruct (bool_decide _); by eexists.
    - exists (sn :: sns). rewrite Hn, Hs, E1. cbn [mbind res_bind]. rewrite Hsn, He, E2.
      split_and!; [done | done | |].
      + intros i. destruct (E3 (S i)) as [l' ->]. rewrite El. cbn. destruct (bool_decide _); by eexists.
      + intros i s'. rewrite Ez. cbn [mbind res_bind]. destruct (E4 (S i) (s' + s)) as [z ->].
        destruct (bool_decide _); by eexists. }
  destruct Hgo as (sns & E1 & E2 & E3 & E4). exists (RawFullNode sns). split; [done|].
  split_and!; [done | cbn [simplifyNode]; by rewrite E1 | | |].
  - intros hash. cbn [expandNode]. by rewrite E2.
  - cbn [forGatherChildren]. destruct (E3 0%nat) as [l ->]. by eexists.
  - cbn [estimateSize]. destruct (E4 0%nat 3) as [z ->]. by eexists.
Qed.

(** ** Storing the nodes of one tree *)

Section one_tree.
Variable whole : tree.
Hypothesis whole_free : no_collision whole whole.

(** The nodes that can be stored. *)
Definition part (s : tree) : Prop := inside s whole /\ canon s /\ sized s.

(** The database holds nothing else under the hashes of the tree. *)
Definition agrees (db : TrieDatabase) : Prop :=
  forall s, part s -> reader db (BytesToHash (thash s)) = Ok NilNode \/
                      reader db (BytesToHash (thash s)) = Ok (load_top s).

(** What could be read can still be read. *)
Definition extends (db db' : TrieDatabase) : Prop :=
  forall h n, reader db h = Ok n -> n <> NilNode -> reader db' h = Ok n.

Definition db_good (db : TrieDatabase) : Prop := agrees db /\ flush_ok db.

Lemma db_extends_refl db : extends db db.
Proof. by intros h n. Qed.

Lemma db_extends_trans a b c : extends a b -> extends b c -> extends a c.
Proof. intros H1 H2 h n E Hn. apply H2; [|done]. by apply H1. Qed.

Lemma load_top_not_nil t : is_branch t = true -> load_top t <> NilNode.
Proof. by destruct t. Qed.

Lemma part_branch s : part s -> is_branch s = true.
Proof. intros (_ & Hc & _). by destruct Hc. Qed.

Lemma part_same s s' : part s -> part s' -> thash s = thash s' -> load_top s = load_top s'.
Proof.
  intros (I & C & S) (I' & C' & S') E. rewrite !load_top_with_flag, E.
  by rewrite (tenc_load s s') by (done || by apply whole_free).
Qed.

Lemma stored_mono db db' t : extends db db' -> is_branch t = true ->
  resolves (H0 := reader db) t -> resolves (H0 := reader db') t.
Proof. intros Hx Hb Hr. apply Hx; [done|]. by apply load_top_not_nil. Qed.

Lemma kids_stored_mono db db' t : extends db db' ->
  kids_stored (H0 := reader db) t -> kids_stored (H0 := reader db') t.
Proof. intros Hx Hk s Hs Hb. eapply stored_mono; [done | by apply big_branch | by apply Hk]. Qed.

Lemma repr_mono db db' top n t : extends db db' -> repr (H0 := reader db) top n t -> repr (H0 := reader db') top n t.
Proof.
  intros Hx. assert (Hfl : forall top fl t, is_branch t = true -> flag_ok (H0 := reader db) top fl t -> flag_ok (H0 := reader db') top fl t).
  { intros tp fl u Hb. unfold flag_ok. destruct (fhash fl); [|done]. intros (? & ? & Hst). split_and!; [done | done |].
    intros Hd. destruct (Hst Hd). split; [by eapply stored_mono | by eapply kids_stored_mono]. }
  induction 1 as [| |top t Hb Hh Hr Hk|top k c t fl Hr IH Hf Hc|top cs ts fl Hl Hr IH Hf Hc].
  - constructor.
  - constructor.
  - constructor; [done | done | by eapply stored_mono | by eapply kids_stored_mono].
  - constructor; [done | by apply Hfl | done].
  - constructor; [done | done | by apply Hfl | done].
Qed.

(** Inserting the collapsed node of a part. *)
Lemma db_insert_part s n size db : part s -> db_good db -> stores n s ->
  exists db', db_insert (BytesToHash (thash s)) size n db = Ok db' /\ db_good db' /\ extends db db' /\
    resolves (H0 := reader db') s.
Proof.
  intros Hp [Ha Hf] (sn & Hraw & _ & Hs & He & [l Hl] & _).
  destruct (forGatherChildren sn) as [kids| |] eqn:Ek; [|done|done].
  set (h := BytesToHash (thash s)). destruct (dirties db !! h) as [e|] eqn:Ed.
  - exists db. unfold db_insert. fold h. rewrite Ed. split_and!; [done | done | apply db_extends_refl |].
    destruct (Ha s Hp) as [E|E]; [|done]. apply reader_nil in E as (_ & E & _). fold h in E. congruence.
  - destruct (db_insert_reads h size n db sn kids Hf Ed Hs Ek) as (db' & E & Hf' & Ho & Hh & Hcl).
    assert (Hre : reader db' h = Ok (load_top s)).
    { destruct (clean_get db h) eqn:Ec.
      - rewrite Hcl by done. destruct (Ha s Hp) as [E'|E']; [|done].
        apply reader_nil in E' as (E' & _). fold h in E'. congruence.
      - rewrite Hh by done. rewrite He, load_top_with_flag. unfold h. by rewrite thash_value. }
    exists db'. split_and!; [done | | | done].
    + split; [|done]. intros s' Hp'. destruct (decide (BytesToHash (thash s') = h)) as [Eh|Hne].
      * right. rewrite Eh, Hre. f_equal. apply part_same; [done | done |].
        by rewrite <- (thash_value s), <- (thash_value s'), Eh.
      * rewrite Ho by done. by apply Ha.
    + intros h' m Em Hm. destruct (decide (h' = h)) as [->|Hne]; [|by rewrite Ho].
      rewrite Hre. destruct (Ha s Hp) as [E'|E']; fold h in E'; congruence.
Qed.

Lemma inside_trans s t u : inside s t -> inside t u -> inside s u.
Proof. intros Hs. induction 1; [done | by constructor | by econstructor]. Qed.

Lemma inside_cases s t : inside s t -> s = t \/ below s t.
Proof. destruct 1; [by left | by right | right; cbn; eauto]. Qed.

(** A subtree is stored: itself when it is hashed, and all below it. *)
Definition all_stored (db : TrieDatabase) (t : tree) : Prop :=
  (big t = true -> resolves (H0 := reader db) t) /\ kids_stored (H0 := reader db) t.

Lemma all_stored_inside db t s : all_stored db t -> inside s t -> big s = true -> resolves (H0 := reader db) s.
Proof. intros [Hb Hk] [->|Hs]%inside_cases; [done | by apply Hk]. Qed.

Lemma all_stored_mono db db' t : extends db db' -> all_stored db t -> all_stored db' t.
Proof.
  intros Hx [Hb Hk]. split; [|by eapply kids_stored_mono]. intros Hbig.
  eapply stored_mono; [done | by apply big_branch | by apply Hb].
Qed.

Definition commit_ok (top : bool) (t : tree) (db : TrieDatabase) (r : res (node * Z * TrieDatabase)) : Prop :=
  exists cn cnt db', r = Ok (cn, cnt, db') /\ db_good db' /\ extends db db' /\
    kids_stored (H0 := reader db') t /\
    (top || big t = true -> cn = HashNode (thash t) /\ resolves (H0 := reader db') t) /\
    (top || big t = false -> stores cn t /\ is_hash cn = false).

(** The flags after hashing. *)
Lemma hashed_flags db top fl t : flag_ok (H0 := reader db) top fl t ->
  (big t = true -> fhash fl <> None) -> (top = true -> fhash fl <> None) ->
  fhash fl = if top || big t then Some (thash t) else None.
Proof.
  intros Hf Hb Ht. unfold flag_ok in Hf. destruct (fhash fl) as [h|].
  - destruct Hf as (-> & [->| ->] & _); [done|]. by rewrite orb_true_r.
  - destruct top; [by destruct Ht|]. destruct (big t); [by destruct Hb | done].
Qed.

(** Storing a collapsed node whose children are stored. *)
Lemma commit_finish top t n fl db cnt : part t -> db_good db -> stores n t -> is_hash n = false ->
  cache n = Ok (fhash fl, fdirty fl) -> fhash fl = (if top || big t then Some (thash t) else None) ->
  kids_stored (H0 := reader db) t ->
  commit_ok top t db ('(hashed, db) ← store n db;
                      match hashed with
                      | HashNode h => Ok (HashNode h, cnt + 1, db)
                      | _ => Ok (n, cnt, db)
                      end).
Proof.
  intros Hp Hg Hs Hh Hc Hfl Hk. unfold store. rewrite Hc. cbn [mbind res_bind]. rewrite Hfl.
  destruct (top || big t) eqn:Eb.
  - pose proof Hs as (sn & _ & _ & _ & _ & _ & [z Hz]).
    destruct (estimateSize n) as [size| |] eqn:Ez; [|done|done]. cbn [mbind res_bind].
    destruct (db_insert_part t n size db Hp Hg Hs) as (db' & -> & Hg' & Hx & Hr). cbn [mbind res_bind].
    exists (HashNode (thash t)), (cnt + 1), db'. rewrite Eb.
    split_and!; [done | done | done | by eapply kids_stored_mono | done | done].
  - cbn [mbind res_bind]. exists n, cnt, db. rewrite Eb.
    split_and!; [by destruct n | done | apply db_extends_refl | done | done | done].
Qed.

Lemma commit_ok_refers top t db r : top = false -> is_branch t = true -> commit_ok top t db r ->
  exists cn cnt db', r = Ok (cn, cnt, db') /\ db_good db' /\ extends db db' /\ all_stored db' t /\ refers cn t.
Proof.
  intros -> Hb (cn & cnt & db' & -> & Hg & Hx & Hk & H1 & H2). cbn [orb] in *.
  exists cn, cnt, db'. split_and!; [done | done | done | |].
  - split; [by intros []%H1 | done].
  - destruct (big t) eqn:Eb.
    + destruct (H1 eq_refl) as [-> _]. by apply refers_hash.
    + destruct (H2 eq_refl) as [Hs _]. by apply refers_embedded.
Qed.

(** A node that is a hash, or clean, is stored already. *)
Lemma commit_stored db top n t : repr (H0 := reader db) top n t -> db_good db -> is_branch t = true ->
  (is_hash n = true \/ exists h, cache n = Ok (Some h, false)) -> commit_ok top t db (commit n db).
Proof.
  intros Hr Hg Hb Hcase.
  assert (Hst : commit n db = Ok (HashNode (thash t), 0, db) /\ resolves (H0 := reader db) t /\
                kids_stored (H0 := reader db) t /\ hashed top t).
  { destruct Hcase as [Hh|[h Hc]].
    - destruct n; try done. by inversion Hr; subst.
    - assert (Hf : exists fl, fhash fl = Some h /\ fdirty fl = false /\ flag_ok (H0 := reader db) top fl t).
      { inversion Hr; subst; try done; cbn in Hc; injection Hc as ? ?; by eexists. }
      destruct Hf as (fl & Hh & Hd & Hf). unfold flag_ok in Hf. rewrite Hh in Hf. destruct Hf as (-> & Hhd & Hs).
      destruct (Hs Hd). split_and!; [|done..]. destruct n; try done; cbn [commit]; by rewrite Hc. }
  destruct Hst as (-> & Hres & Hk & Hhd). exists (HashNode (thash t)), 0, db.
  split_and!; [done | done | apply db_extends_refl | done | done |].
  intros [-> Hb']%orb_false_iff. destruct Hhd; congruence.
Qed.

(** The children of a full node, one after the other. *)
Lemma commitChildren_spec commit_ cs ts i db : length cs = length ts -> db_good db ->
  (forall j c t db0, cs !! j = Some c -> ts !! j = Some t -> extends db db0 -> db_good db0 ->
     (t = TNil /\ c = NilNode) \/
     ((i + j < 16)%nat /\ is_branch t = true /\
        ((is_hash c = true /\ big t = true /\ c = HashNode (thash t) /\ all_stored db0 t) \/
         (is_hash c = false /\ is_nil c = false /\ commit_ok false t db0 (commit_ c db0)))) \/
     ((i + j = 16)%nat /\ exists v, t = TVal v /\ c = ValueNode v)) ->
  exists hs cnt db', commitChildren_with commit_ i cs db = Ok (hs, cnt, db') /\ db_good db' /\ extends db db' /\
    length hs = length ts /\
    forall j n t, hs !! j = Some n -> ts !! j = Some t -> refers n t /\ all_stored db' t.
Proof.
  revert ts i db. induction cs as [|c cs IH]; intros [|t ts] i db Hl Hg Hc; try done.
  { exists [], 0, db. split_and!; [done | done | apply db_extends_refl | done | done]. }
  assert (Hone : exists h k db1,
    (if bool_decide (i < 16)%nat
     then match c with NilNode | HashNode _ => Ok (c, 0, db) | _ => commit_ c db end
     else Ok (c, 0, db)) = Ok (h, k, db1) /\ db_good db1 /\ extends db db1 /\ refers h t /\ all_stored db1 t).
  { assert (Hleaf : forall db t, is_branch t = false -> all_stored db t).
    { intros db' u Hu. split; [intros Hb%big_branch; congruence|]. intros s Hs. by destruct u. }
    destruct (Hc 0%nat c t db eq_refl eq_refl (db_extends_refl db) Hg) as [[-> ->]|[(Hi & Hb & Hcase)|(Hi & v & -> & ->)]];
      rewrite ?Nat.add_0_r in *.
    - exists NilNode, 0, db. split_and!; [by destruct (bool_decide _) | done | apply db_extends_refl | by left | by apply Hleaf].
    - rewrite bool_decide_true by done. destruct Hcase as [(Hh & Hbig & -> & Hst)|(Hh & Hn & Hok)].
      + exists (HashNode (thash t)), 0, db.
        split_and!; [done | done | apply db_extends_refl | by apply refers_hash | done].
      + destruct (commit_ok_refers false t db _ eq_refl Hb Hok) as (cn & k & db1 & E & ? & ? & ? & ?).
        exists cn, k, db1. split_and!; [by destruct c | done ..].
    - rewrite bool_decide_false by lia. exists (ValueNode v), 0, db.
      split_and!; [done | done | apply db_extends_refl | apply refers_value | by apply Hleaf]. }
  destruct Hone as (h & k & db1 & E1 & Hg1 & Hx1 & Hr1 & Hs1).
  destruct (IH ts (S i) db1) as (hs & m & db2 & E2 & Hg2 & Hx2 & Hl2 & Hp2); [by injection Hl | done | |].
  { intros j d u db0 Ed Eu Hx Hg0. replace (S i + j)%nat with (i + S j)%nat by lia.
    apply (Hc (S j)); [done | done | by eapply db_extends_trans | done]. }
  cbn [commitChildren_with]. rewrite E1. cbn [mbind res_bind]. fold (commitChildren_with commit_).
  rewrite E2. cbn [mbind res_bind]. exists (h :: hs), (k + m), db2.
  split_and!; [done | done | by eapply db_extends_trans | cbn; lia |].
  intros [|j] n u En Eu; [|by apply (Hp2 j)]. cbn in En, Eu. simplify_eq.
  split; [done | by eapply all_stored_mono].
Qed.

Lemma part_child_short k c : part (TShort k c) -> canon c -> part c.
Proof.
  intros (I & _ & S) Hc. split_and!; [|done|by eapply sized_below]. eapply inside_trans; [|exact I].
  constructor. constructor.
Qed.

Lemma part_child_full ts c : part (TFull ts) -> c ∈ ts -> canon c -> part c.
Proof.
  intros (I & _ & S) Hin Hc. split_and!; [|done|by eapply sized_child]. eapply inside_trans; [|exact I].
  econstructor; [done | constructor].
Qed.

Lemma commit_full db top cs ts fl : part (TFull ts) -> db_good db ->
  (forall c t db, t ∈ ts -> canon t -> db_good db -> repr (H0 := reader db) false c t -> complete c t ->
     commit_ok false t db (commit c db)) ->
  repr (H0 := reader db) top (FullNode cs fl) (TFull ts) -> complete (FullNode cs fl) (TFull ts) ->
  hash_cached top (FullNode cs fl) -> commit_ok top (TFull ts) db (commit (FullNode cs fl) db).
Proof.
  intros Hp Hg IH Hr Hcm Hhc. pose proof Hp as (_ & Hc & _).
  destruct (decide (fdirty fl = false /\ fhash fl <> None)) as [[Hd Hh]|Hnc].
  { apply commit_stored; [done | done | done |]. right. cbn. rewrite Hd. destruct (fhash fl) as [h|]; [by exists h | done]. }
  inversion Hr as [| | | |? ? ? ? Hl Hch Hf Hcp]; subst. inversion Hcm as [| | | |? ? ? Hbig Hcc]; subst.
  destruct (commitChildren_spec commit cs ts 0 db Hl Hg) as (hs & cnt & db' & E & Hg' & Hx & Hl' & Hps).
  { intros j c t db0 Ec Et Hx Hg0. pose proof (Hch j c t Ec Et) as Hrc. cbn [Nat.add].
    apply (repr_mono db db0) in Hrc; [|done].
    destruct (tree_nil_dec t) as [->|Hn]; [left; split; [done | by apply (repr_nil_iff _ _ _ Hrc)]|]. right.
    destruct (canon_child ts j t Hc Et Hn) as [[Hj Hct]|(Hj & v & _ & ->)].
    - left. assert (Hb : is_branch t = true) by by destruct Hct. split_and!; [done | done |].
      destruct (is_hash c) eqn:Hhc'; [left|right].
      + destruct c; try done. inversion Hrc as [| |? ? ? Hhd Hres Hks| |]; subst.
        destruct Hhd as [|Hhd]; [done|]. split_and!; try done.
      + split_and!; [done | by apply (repr_nil_false _ _ _ Hrc) |].
        apply IH; [by eapply list_elem_of_lookup_2 | done | done | done | by apply (Hcc j)].
    - right. split; [done|]. exists v. split; [done|]. by inversion Hrc; subst. }
  assert (Ecm : commit (FullNode cs fl) db =
    ('(hashed, db) ← store (FullNode hs fl) db';
     match hashed with HashNode h => Ok (HashNode h, cnt + 1, db) | _ => Ok (FullNode hs fl, cnt, db) end)).
  { cbn [commit cache mbind res_bind]. fold commit. rewrite E. cbn [mbind res_bind].
    destruct (fhash fl) as [h|], (fdirty fl); try done. by destruct Hnc. }
  rewrite Ecm.
  destruct (commit_finish top (TFull ts) (FullNode hs fl) fl db' cnt) as (cn & k & db2 & E2 & Hg2 & Hx2 & Hrest);
    [done | done | | done | done | by eapply hashed_flags | |].
  - apply stores_full; [done|]. intros j n t En Et. by apply (Hps j).
  - intros s (c & Hin & Hs) Hb. apply list_elem_of_lookup_1 in Hin as (j & Ec).
    destruct (lookup_lt_is_Some_2 hs j) as [n En]; [rewrite Hl'; by eapply lookup_lt_Some|].
    eapply all_stored_inside; [by apply (Hps j n c) | done | done].
  - exists cn, k, db2. split_and!; [done | done | by eapply db_extends_trans | apply Hrest ..].
Qed.

Lemma commit_short db top k v t fl : part (TShort k t) -> db_good db ->
  (forall c db, canon t -> db_good db -> repr (H0 := reader db) false c t -> complete c t ->
     commit_ok false t db (commit c db)) ->
  repr (H0 := reader db) top (ShortNode k v fl) (TShort k t) -> complete (ShortNode k v fl) (TShort k t) ->
  hash_cached top (ShortNode k v fl) -> commit_ok top (TShort k t) db (commit (ShortNode k v fl) db).
Proof.
  intros Hp Hg IH Hr Hcm Hhc. pose proof Hp as (_ & Hc & _).
  destruct (decide (fdirty fl = false /\ fhash fl <> None)) as [[Hd Hh]|Hnc].
  { apply commit_stored; [done | done | done |]. right. cbn. rewrite Hd. destruct (fhash fl) as [h|]; [by exists h | done]. }
  inversion Hr as [| | |? ? ? ? ? Hv Hf Hcp|]; subst. inversion Hcm as [| | |? ? ? ? Hbig Hcc|]; subst.
  destruct (short_key_term k t Hc) as (b & ns & Hns & Hk).
  assert (Hval : exists v' cnt db', match v with FullNode _ _ => commit v db | _ => Ok (v, 0, db) end = Ok (v', cnt, db') /\
    db_good db' /\ extends db db' /\ refers v' t /\ all_stored db' t).
  { pose proof Hc as [_ [(w & _ & _ & -> & _)|(ts & _ & Hts & ->)]]%canon_short_cases.
    - inversion Hv; subst; [|done]. do 3 eexists. split; [done|].
      split_and!; [done | apply db_extends_refl | apply refers_value |]. split; [done|]. intros s Hs; done.
    - destruct (is_hash v) eqn:Hh.
      + destruct v; try done. inversion Hv as [| |? ? ? Hhd Hres Hks| |]; subst. destruct Hhd as [|Hhd]; [done|].
        do 3 eexists. split; [done|]. split_and!; [done | apply db_extends_refl | by apply refers_hash |]. by split.
      + destruct (commit_ok_refers false (TFull ts) db _ eq_refl eq_refl (IH v db Hts Hg Hv Hcc))
          as (cn & cnt & db' & E & Hg' & Hx & Hst & Href).
        exists cn, cnt, db'. split_and!; [|done..]. by inversion Hv; subst. }
  destruct Hval as (v' & cnt & db' & E & Hg' & Hx & Href & Hst).
  assert (Hck : hexToCompact k = Ok (compact_key k)) by (rewrite Hk; by apply hexToCompact_key).
  assert (Ecm : commit (ShortNode k v fl) db =
    ('(hashed, db) ← store (ShortNode (compact_key k) v' fl) db';
     match hashed with HashNode h => Ok (HashNode h, cnt + 1, db) | _ => Ok (ShortNode (compact_key k) v' fl, cnt, db) end)).
  { cbn [commit cache mbind res_bind]. fold commit. rewrite E, Hck. cbn [mbind res_bind].
    destruct (fhash fl) as [h|], (fdirty fl); try done. by destruct Hnc. }
  rewrite Ecm.
  destruct (commit_finish top (TShort k t) (ShortNode (compact_key k) v' fl) fl db' cnt) as (cn & j & db2 & E2 & Hg2 & Hx2 & Hrest);
    [done | done | by apply stores_short | done | done | by eapply hashed_flags | |].
  - intros s Hs Hb. by eapply all_stored_inside.
  - exists cn, j, db2. split_and!; [done | done | by eapply db_extends_trans | apply Hrest ..].
Qed.

Lemma commit_spec t : part t -> forall top n db, db_good db ->
  repr (H0 := reader db) top n t -> complete n t -> hash_cached top n -> commit_ok top t db (commit n db).
Proof.
  induction t as [|v|k c IH|ts IH] using tree_ind'; intros Hp top n db Hg Hr Hcm Hhc;
    [by apply part_branch in Hp | by apply part_branch in Hp | |].
  - destruct n as [| | |k' v fl| | | |]; try (by inversion Hr); [apply commit_stored; auto|].
    assert (k' = k) as -> by by inversion Hr.
    apply commit_short; try done. intros d db0 Hcd Hg0 Hrd Hcd'. apply IH; try done.
    + by apply (part_child_short k).
    + by destruct d.
  - destruct n as [| | | |cs fl| | |]; try (by inversion Hr); [apply commit_stored; auto|].
    apply commit_full; try done. intros d t db0 Ht Hct Hg0 Hrt Hcd. rewrite Forall_forall in IH.
    apply (IH t Ht); try done; [by apply (part_child_full ts) | by destruct d].
Qed.
End one_tree.

(** ** Committing a trie *)

(** The entry of the zero hash holds no node. *)
Definition db_wf (db : TrieDatabase) : Prop :=
  flush_ok db /\ clean_get db 0 = None /\ exists c, dirties db !! 0 = Some c /\ cnode c = NilNode.

(** The database holds no other nodes under the hashes of tries with these
    contents, and those have no collisions among themselves. *)
Definition db_agrees (db : TrieDatabase) (m : gmap bytes bytes) : Prop :=
  keccak256 [128] = emptyRoot /\ collision_free m m /\ collision_free m ∅ /\
  forall tr, canon tr -> holds tr m -> agrees tr db.

Lemma meta_root_unreadable db : db_wf db -> reader db 0 = Panic PanicNode.
Proof. intros (_ & Hc & c & Hd & Hn). unfold reader, node_of. rewrite Hc, Hd. unfold obj. by rewrite Hn. Qed.

Lemma root_hash_nonzero db tr m : db_wf db -> db_agrees db m -> canon tr -> holds tr m -> bounded m ->
  BytesToHash (thash tr) <> 0 /\ BytesToHash (thash tr) <> emptyRoot.
Proof.
  intros Hw (He & _ & Hne & Ha) Hc Hm Hb. pose proof (holds_sized tr m Hc Hm Hb) as Hs. split.
  - intros E. destruct (Ha tr Hc Hm tr) as [Er|Er]; [split_and!; [constructor | done | done] | |];
      rewrite E, meta_root_unreadable in Er by done; done.
  - intros E. assert (Heq : tr = TNil).
    { apply canon_hash_inj; [by right | by left | done | intros Hx; by inversion Hx | |].
      - apply (Hne tr TNil); [by right | by left | done | apply holds_empty].
      - rewrite <- (thash_value tr), E. unfold thash, hashData. change (tenc TNil) with [128]. by rewrite He. }
    rewrite Heq in Hc. inversion Hc.
Qed.

Lemma refines_loaded db own h tr m n : resolves (H0 := reader db) tr -> kids_stored (H0 := reader db) tr ->
  canon tr -> holds tr m -> (n = HashNode (thash tr) \/ n = load_top tr) ->
  refines (H0 := reader db) (mkTrie n own h) m.
Proof.
  intros Hr Hk Hc Hm Hn. assert (Hb : is_branch tr = true) by by destruct Hc. exists tr.
  split_and!; [|by right|done]. destruct Hn as [->| ->]; cbn [root].
  - constructor; [done | by left | done | done].
  - apply load_top_repr; [done | by left | done | done].
Qed.

Lemma newTrie_loads db own tr : resolves (H0 := reader db) tr -> is_branch tr = true ->
  BytesToHash (thash tr) <> 0 -> BytesToHash (thash tr) <> emptyRoot ->
  newTrie (H0 := reader db) own (BytesToHash (thash tr)) = Ok (inl (mkTrie (load_top tr) own 0)).
Proof.
  intros Hr Hb H0 He. unfold newTrie. destruct (Z.eqb_spec (BytesToHash (thash tr)) 0); [done|].
  destruct (Z.eqb_spec (BytesToHash (thash tr)) emptyRoot); [done|]. cbn [negb andb].
  unfold resolveHash, try. rewrite thash_value. unfold db_node. unfold resolves, db_node in Hr. rewrite Hr.
  cbn [mbind res_bind]. pose proof (load_top_not_nil tr Hb). by destruct (load_top tr).
Qed.

(** C9: Committing a trie makes its contents durable in the node
    database: Commit returns the root hash, the trie it leaves behind, now only a
    hash, still holds the contents, a new trie opened from the root hash holds
    them too, and every node that could be read before reads the same, so that
    no other trie over the database is affected. *)
Theorem commit_persists t m db :
  refines (H0 := reader db) t m -> bounded m -> db_wf db -> db_agrees db m ->
  exists h n t' db', Trie_Commit t db = Ok (h, n, t', db') /\
    (exists t0, Hash_ t = Ok (h, t0)) /\
    refines (H0 := reader db') t' m /\
    (exists t'', newTrie (H0 := reader db') (owner t) h = Ok (inl t'') /\ refines (H0 := reader db') t'' m) /\
    extends db db' /\ flush_ok db'.
Proof.
  intros (tr & Hr & Hc & Hm) Hb Hw Hag.
  destruct (Trie_Hash_spec (H0 := reader db) t m tr Hr Hc Hm Hb) as (t0 & Eh & Hr0 & Hcm).
  unfold Trie_Commit. destruct Hc as [->|Hc].
  { assert (En : root t = NilNode) by by apply (repr_nil_iff _ _ _ Hr). rewrite En. cbn [is_nil].
    assert (Href : refines (H0 := reader db) t m) by (exists TNil; split_and!; [done | by left | done]).
    exists emptyRoot, 0, t, db. split_and!; [done | by eexists | done | | apply db_extends_refl | apply Hw].
    eexists. split; [done|]. exists TNil. split_and!; [constructor | by left | done]. }
  assert (Hbr : is_branch tr = true) by by destruct Hc.
  assert (Hn : is_nil (root t) = false) by (apply (repr_nil_false _ _ _ Hr); by destruct tr).
  assert (Hrh : root_hash tr = BytesToHash (thash tr)) by (destruct Hc; reflexivity).
  destruct (root_hash_nonzero db tr m Hw Hag Hc Hm Hb) as [Hnz Hne].
  pose proof (holds_sized tr m Hc Hm Hb) as Hs. destruct (Hcm Hc) as [Hcmp Hhc].
  assert (Hfree : no_collision tr tr) by (destruct Hag as (_ & Hcf & _); by apply Hcf; [right | right | |]).
  assert (Hg : db_good tr db) by (destruct Hag as (_ & _ & _ & Ha); split; [by apply Ha | apply Hw]).
  rewrite Hn, Eh. cbn [mbind res_bind].
  assert (Hcache : exists hn d, cache (root t0) = Ok (hn, d) /\
    (d = false -> hn = Some (thash tr) /\ resolves (H0 := reader db) tr /\ kids_stored (H0 := reader db) tr)).
  { inversion Hr0 as [| |? ? _ _ Hres Hk|? k c u fl _ Hf _ |? cs ts fl _ _ Hf _]; subst; try done;
      [by do 2 eexists | | ]; (do 2 eexists; split; [done|]); intros Hd; unfold flag_ok in Hf;
      (destruct (fhash fl) as [h|]; [by destruct Hf as (-> & _ & Hst); split; [|apply Hst] | by destruct (Hf Hd)]). }
  destruct Hcache as (hn & d & -> & Hclean). cbn [mbind res_bind]. destruct d; cbn [negb].
  - destruct (commit_spec tr Hfree tr ltac:(split_and!; [constructor | done | done]) true (root t0) db Hg Hr0 Hcmp Hhc)
      as (cn & cnt & db' & E & [_ Hf'] & Hx & Hk' & H1 & _).
    destruct (H1 eq_refl) as [-> Hres']. unfold committer_Commit. rewrite E. cbn [mbind res_bind].
    do 4 eexists. split; [reflexivity|]. split; [by eexists|]. rewrite Hrh. split_and!; [| | done | done].
    + by eapply refines_loaded; [| | | |left].
    + eexists. split; [by apply newTrie_loads|]. by eapply refines_loaded; [| | | |right].
  - destruct (Hclean eq_refl) as (-> & Hres & Hk). cbn [default].
    do 4 eexists. split; [reflexivity|]. split; [by eexists|]. rewrite Hrh.
    split_and!; [| | apply db_extends_refl | apply Hw].
    + by eapply refines_loaded; [| | | |left].
    + eexists. split; [by apply newTrie_loads|]. by eapply refines_loaded; [| | | |right].
Qed.
End committing.

(** ** A concrete commit *)

Definition empty_db : TrieDatabase := NewDatabase ∅ false true.

Lemma empty_db_agrees : db_agrees (H := trie_crypto) empty_db {[ [] := [1] ]}.
Proof.
  split_and!; [done | | |].
  - apply one_leaf_self_free.
  - intros t1 t2 C1 C2 M1 M2 s1 s2 I1 I2 E.
    pose proof (one_leaf_collision_free t2 t1 C2 C1 M2 M1 s2 s1 I2 I1 (eq_sym E)). done.
  - intros tr Hc Hm s (Hi & Hcs & _). left. rewrite (one_leaf_unique tr (or_intror Hc) Hm) in Hi.
    apply one_leaf_inside in Hi as [->| ->]; [|by inversion Hcs]. vm_compute. reflexivity.
Qed.

Lemma commit_persists_witness :
  exists h n t' db', Trie_Commit (H := trie_crypto) one_leaf empty_db = Ok (h, n, t', db') /\
    exists t'', newTrie (H0 := reader db') 0 h = Ok (inl t'') /\
      refines (H := trie_crypto) (H0 := reader db') t'' {[ [] := [1] ]}.
Proof.
  assert (Hr : refines (H := trie_crypto) (H0 := reader empty_db) one_leaf {[ [] := [1] ]}).
  { exists one_leaf_tree.
    split_and!; [apply repr_short_new; constructor | right; apply one_leaf_canon | apply one_leaf_holds]. }
  assert (Hw : db_wf empty_db) by (split_and!; [by left | done | by eexists]).
  destruct (@commit_persists trie_crypto one_leaf _ empty_db Hr one_leaf_bounded Hw empty_db_agrees)
    as (h & n & t' & db' & E & _ & _ & (t'' & En & Href) & _).
  exists h, n, t', db'. split; [exact E|]. exists t''. exact (conj En Href).
Defined.
