(* ===== verification/TrieProof.v ===== *)
(** * Merkle proofs ([database/trie/proof.go]: [Prove], [VerifyProof], [get])

    A proof is a set of node encodings under their hashes.  A proof made by
    [Prove] verifies to what the trie holds; no set of encodings that are stored
    under their own hashes verifies to anything else. *)

From S2P Require Import Prelude Common TrieEncoding Rlp RlpSpec EvmState Trie TrieSpec TrieOps TrieHash TrieDecode.
From S2P Require Import TrieTheorems.

Local Open Scope Z_scope.

(** ** The functions *)





Section prove.
Context `{Crypto} `{NodeReader}.



End prove.

(** ** The way to a key in a tree *)




Section proofs.
Context `{Crypto}.












(** ** Verification *)





(** ** Making a proof *)

Context `{NodeReader}.

















End proofs.

