(* ===== verification/SecureTrie.v ===== *)
(** * The secure trie ([database/trie/secure_trie.go])

    A trie whose keys are hashed.  The cache of hashed keys belongs to the trie
    it was made for; no copy of a trie is made here, so the owner pointer that
    tells copies apart is left out.  Keys of 32 bytes come out of [hashKey], so a
    secure trie refines a map as the trie below does. *)

From S2P Require Import Prelude Common TrieEncoding Rlp RlpSpec EvmState Trie TrieSpec TrieTheorems TrieDB.

Local Open Scope Z_scope.

Module Secure.

Record SecureTrie := mkSecure { trie : Trie; secKeyCache : gmap bytes bytes }.

Section secure.
Context `{Crypto}.

(** [hashKey]: the digest as 32 bytes. *)
Definition hashKey (key : bytes) : bytes := be_bytes 32 (keccak256 key).

Section reading.
Context `{NodeReader}.

Definition NewSecure (owner root : Hash) : res (SecureTrie + MissingNodeError) :=
  t ←? newTrie owner root; Ok (inl (mkSecure t ∅)).

Definition TryGet (t : SecureTrie) (key : bytes) : res (bytes * SecureTrie + MissingNodeError) :=
  '(v, t') ←? Trie.TryGet (trie t) (hashKey key); Ok (inl (v, mkSecure t' (secKeyCache t))).

(** The key is remembered when the update succeeds. *)
Definition TryUpdate (t : SecureTrie) (key value : bytes) : res (SecureTrie * option MissingNodeError) :=
  let hk := hashKey key in
  '(t', e) ← Trie.TryUpdate (trie t) hk value;
  match e with
  | Some _ => Ok (mkSecure t' (secKeyCache t), e)
  | None => Ok (mkSecure t' (<[hk := key]> (secKeyCache t)), None)
  end.

(** The key is forgotten in any case. *)
Definition TryDelete (t : SecureTrie) (key : bytes) : res (SecureTrie * option MissingNodeError) :=
  let hk := hashKey key in
  '(t', e) ← Trie.TryDelete (trie t) hk;
  Ok (mkSecure t' (base.delete hk (secKeyCache t)), e).

(** [Get], [Update] and [Delete] log the error. *)
Definition Get (t : SecureTrie) (key : bytes) : res (bytes * SecureTrie) :=
  r ← TryGet t key; Ok match r with inl r => r | inr _ => ([], t) end.
Definition Update (t : SecureTrie) (key value : bytes) : res SecureTrie :=
  '(t, _) ← TryUpdate t key value; Ok t.
Definition Delete (t : SecureTrie) (key : bytes) : res SecureTrie :=
  '(t, _) ← TryDelete t key; Ok t.
End reading.

(** [model.StateAccount] and its generated encoder, which refuses a negative
    balance. *)
Record Account := mkAccount { aNonce : Z; aBalance : Z; aRoot : Hash; aCodeHash : bytes }.

Definition account_item (acc : Account) : item :=
  IStruct [IUint (aNonce acc); IBig (aBalance acc); IBytes (be_bytes 32 (aRoot acc)); IBytes (aCodeHash acc)].

Inductive AccountErr := errMissing (e : MissingNodeError) | ErrNegativeBigInt.

Definition TryUpdateAccount `{NodeReader} (t : SecureTrie) (key : bytes) (acc : Account)
    : res (SecureTrie * option AccountErr) :=
  if aBalance acc <? 0 then Ok (t, Some ErrNegativeBigInt)
  else
    data ← Enc.EncodeToBytes (account_item acc);
    '(t, e) ← TryUpdate t key data;
    Ok (t, option_map errMissing e).

(** [GetKey], with the preimages of the database. *)
Definition GetKey (t : SecureTrie) (preimage : Hash -> option bytes) (shaKey : bytes) : option bytes :=
  match secKeyCache t !! shaKey with
  | Some key => Some key
  | None => preimage (BytesToHash shaKey)
  end.

Definition Hash_ (t : SecureTrie) : res (Hash * SecureTrie) :=
  '(h, t') ← Trie.Hash_ (trie t); Ok (h, mkSecure t' (secKeyCache t)).

(** The preimages go to the database, in some order, and the cache is cleared. *)
Definition insert_preimages (l : list (bytes * bytes)) (db : TrieDatabase) : TrieDatabase :=
  foldl (fun db kv => insertPreimage (BytesToHash kv.1) kv.2 db) db l.

Definition Commit (t : SecureTrie) (db : TrieDatabase) : res (Hash * Z * SecureTrie * TrieDatabase) :=
  let db := match preimages db with
            | Some _ => insert_preimages (map_to_list (secKeyCache t)) db
            | None => db
            end in
  '(h, n, t', db) ← Trie_Commit (trie t) db;
  Ok (h, n, mkSecure t' ∅, db).
End secure.
End Secure.

(** ** Contents *)

Section contents.
Context `{C : Crypto} `{R : NodeReader}.

(** The entries of a secure trie, by hashed key. *)
Definition secure_refines (t : Secure.SecureTrie) (m : gmap bytes bytes) : Prop := refines (Secure.trie t) m.

Lemma wf_hashKey key : wf_bytes (Secure.hashKey key).
Proof. apply wf_be_bytes. Qed.

Lemma secure_TryGet t m key : secure_refines t m ->
  exists t', Secure.TryGet t key = Ok (inl (default [] (m !! Secure.hashKey key), t')) /\ secure_refines t' m.
Proof.
  intros Hr. destruct (TryGet_spec (Secure.trie t) m (Secure.hashKey key) Hr (wf_hashKey key)) as (t' & E & Hr').
  unfold Secure.TryGet. rewrite E. unfold try. cbn [mbind res_bind]. by eexists.
Qed.

Lemma secure_TryUpdate t m key v : secure_refines t m ->
  exists t', Secure.TryUpdate t key v = Ok (t', None) /\ secure_refines t' (update_map m (Secure.hashKey key) v).
Proof.
  intros Hr. destruct (TryUpdate_spec (Secure.trie t) m (Secure.hashKey key) v Hr (wf_hashKey key)) as (t' & E & Hr').
  unfold Secure.TryUpdate. rewrite E. cbn [mbind res_bind]. by eexists.
Qed.

Lemma secure_TryDelete t m key : secure_refines t m ->
  exists t', Secure.TryDelete t key = Ok (t', None) /\ secure_refines t' (base.delete (Secure.hashKey key) m).
Proof.
  intros Hr. destruct (TryDelete_spec (Secure.trie t) m (Secure.hashKey key) Hr (wf_hashKey key)) as (t' & E & Hr').
  unfold Secure.TryDelete. rewrite E. cbn [mbind res_bind]. by eexists.
Qed.

(** The hash that tries with these contents have. *)
Definition hash_of (m : gmap bytes bytes) (h : Hash) : Prop :=
  exists tr, canon0 tr /\ holds tr m /\ h = root_hash tr.

Lemma hash_of_unique m h h' : hash_of m h -> hash_of m h' -> h = h'.
Proof. intros (tr & C1 & M1 & ->) (tr' & C2 & M2 & ->). by rewrite (holds_unique tr tr' m). Qed.

Lemma secure_Hash t m : secure_refines t m -> bounded m ->
  exists h t', Secure.Hash_ t = Ok (h, t') /\ secure_refines t' m /\ hash_of m h.
Proof.
  intros (tr & Hr & Hc & Hm) Hb. destruct (Trie_Hash_spec (Secure.trie t) m tr Hr Hc Hm Hb) as (t' & E & Hr' & _).
  unfold Secure.Hash_. rewrite E. cbn [mbind res_bind]. do 2 eexists. split; [done|]. split; [by exists tr | by exists tr].
Qed.
End contents.
