(* ===== verification/StateRoot.v ===== *)
(** * The root hash of the state ([blockchain/state/state_object.go],
    [statedb.go]: [getTrie], [updateTrie], [updateRoot], [IntermediateRoot])

    At the end of a transaction the finalised writes go into the storage tries of
    the accounts, the new roots into the accounts, and the accounts into the
    account trie.  In the source an object holds its storage trie, once opened.
    Outside of [updateTrie] the root hash of that trie is the root of the account:
    here the open tries are kept beside the objects, by address, with the root
    they have, and an object whose root is another one (it replaced the one the
    trie was opened for) has none.  Go iterates over maps in any order: the orders
    are arguments.  The prefetcher, the snapshot data and the counters are left
    out. *)

From S2P Require Import Prelude Common Rlp EvmState Trie SecureTrie StateDB.

Local Open Scope Z_scope.

Module Root.

Import State.

Inductive DbErr :=
| errTrie (e : MissingNodeError)
| errAccount (e : Secure.AccountErr)
| errOpen (e : MissingNodeError).

(** [StateDB.trie], the [trie] fields of the objects, and the first errors. *)
Record Tries := mkTries {
  accountTrie : Secure.SecureTrie;
  storageTries : gmap Z (Hash * Secure.SecureTrie);
  dbErr : option DbErr;
  objErrs : gmap Z DbErr;
}.

Definition put_storage (a : Address) (r : Hash) (t : Secure.SecureTrie) (w : Tries) : Tries :=
  mkTries (accountTrie w) (<[a := (r, t)]> (storageTries w)) (dbErr w) (objErrs w).
Definition put_accounts (t : Secure.SecureTrie) (w : Tries) : Tries :=
  mkTries t (storageTries w) (dbErr w) (objErrs w).

(** [stateObject.setError] and [StateDB.setError]: the first error stays. *)
Definition obj_setError (a : Address) (e : option DbErr) (w : Tries) : Tries :=
  match e, objErrs w !! a with
  | Some e, None => mkTries (accountTrie w) (storageTries w) (dbErr w) (<[a := e]> (objErrs w))
  | _, _ => w
  end.
Definition db_setError (e : option DbErr) (w : Tries) : Tries :=
  match e, dbErr w with
  | Some e, None => mkTries (accountTrie w) (storageTries w) (Some e) (objErrs w)
  | _, _ => w
  end.

Definition with_root (v : Hash) (o : stateObject) := mkObject (address o) (nonce o) (balance o) v (codeHash o) (code o) (originStorage o) (pendingStorage o) (dirtyStorage o) (dirtyCode o) (suicided o) (deleted o).

(** A loop over a map, in the order given. *)
Fixpoint each {A S} (f : A -> S -> res S) (l : list A) (s : S) : res S :=
  match l with [] => Ok s | x :: r => s ← f x s; each f r s end.

Section roots.
Context `{C : Crypto} `{B : Backend} `{R : NodeReader}.

(** The key of an account, [addrHash], and the key of a slot. *)
Definition addr_bytes (a : Address) : bytes := be_bytes 20 a.
Definition addrHash (a : Address) : Hash := BytesToHash (Secure.hashKey (addr_bytes a)).
Definition slot_bytes (k : Hash) : bytes := be_bytes 32 k.

(** [stateObj.trie], nil when there is none. *)
Definition so_trie (o : stateObject) (w : Tries) : option Secure.SecureTrie :=
  match storageTries w !! address o with
  | Some (r, t) => if r =? root o then Some t else None
  | None => None
  end.

(** [getTrie]: a root that cannot be opened is replaced by an empty trie. *)
Definition getTrie (o : stateObject) (w : Tries) : res (Secure.SecureTrie * Tries) :=
  match so_trie o w with
  | Some t => Ok (t, w)
  | None =>
    r ← Secure.NewSecure (addrHash (address o)) (root o);
    match r with
    | inl t => Ok (t, put_storage (address o) (root o) t w)
    | inr e =>
      r ← Secure.NewSecure (addrHash (address o)) 0;
      match r with
      | inl t => Ok (t, obj_setError (address o) (Some (errOpen e)) (put_storage (address o) (root o) t w))
      | inr _ => Panic PanicNil
      end
    end
  end.

(** The body of the loop of [updateTrie]; a slot that was never read counts as
    zero. *)
Definition update_slot (key : Hash) (st : stateObject * Secure.SecureTrie * Tries)
    : res (stateObject * Secure.SecureTrie * Tries) :=
  let '(o, tr, w) := st in
  let value := default 0 (pendingStorage o !! key) in
  if value =? default 0 (originStorage o !! key) then Ok st
  else
    let o := with_origin (<[key := value]> (originStorage o)) o in
    '(tr, e) ←
      (if value =? 0 then Secure.TryDelete tr (slot_bytes key)
       else v ← Enc.EncodeToBytes (IBytes (TrimLeftZeroes (be_bytes 32 value)));
            Secure.TryUpdate tr (slot_bytes key) v);
    Ok (o, tr, obj_setError (address o) (option_map errTrie e) w).

(** [updateTrie]: whether the object has a trie now, and the object. *)
Definition updateTrie (slots : list Hash) (o : stateObject) (w : Tries) : res (bool * stateObject * Tries) :=
  let o := finalise o in
  if bool_decide (pendingStorage o = ∅) then Ok (bool_decide (is_Some (so_trie o w)), o, w)
  else
    '(tr, w) ← getTrie o w;
    '(o, tr, w) ← each update_slot slots (o, tr, w);
    Ok (true, with_pending ∅ o, put_storage (address o) (root o) tr w).

Definition updateRoot (slots : list Hash) (o : stateObject) (w : Tries) : res (stateObject * Tries) :=
  '(there, o, w) ← updateTrie slots o w;
  if there : bool then
    tr ← or_panic PanicNil (so_trie o w);
    '(h, tr) ← Secure.Hash_ tr;
    Ok (with_root h o, put_storage (address o) h tr w)
  else Ok (o, w).

(** [updateStateObject] and [deleteStateObject] *)
Definition account_of (o : stateObject) : Secure.Account :=
  Secure.mkAccount (nonce o) (balance o) (root o) (be_bytes 32 (codeHash o)).

Definition updateStateObject (o : stateObject) (w : Tries) : res Tries :=
  '(t, e) ← Secure.TryUpdateAccount (accountTrie w) (addr_bytes (address o)) (account_of o);
  Ok (db_setError (option_map errAccount e) (put_accounts t w)).

Definition deleteStateObject (o : stateObject) (w : Tries) : res Tries :=
  '(t, e) ← Secure.TryDelete (accountTrie w) (addr_bytes (address o));
  Ok (db_setError (option_map errTrie e) (put_accounts t w)).

(** The orders of the four loops. *)
Record Orders := mkOrders {
  dirty_order : list Address;
  root_order : list Address;
  account_order : list Address;
  slot_order : Address -> list Hash;
}.

(** The bodies of the two loops of [IntermediateRoot]; a pending address without
    an object is a nil dereference. *)
Definition update_root (ord : Orders) (a : Address) (st : stateDB * Tries) : res (stateDB * Tries) :=
  let '(d, w) := st in
  o ← or_panic PanicNil (stateObjects d !! a);
  if deleted o then Ok st
  else '(o, w) ← updateRoot (slot_order ord a) o w; Ok (setStateObject o d, w).

Definition write_account (a : Address) (st : stateDB * Tries) : res (stateDB * Tries) :=
  let '(d, w) := st in
  o ← or_panic PanicNil (stateObjects d !! a);
  w ← (if deleted o then deleteStateObject o w else updateStateObject o w);
  Ok (d, w).

Definition IntermediateRoot (ord : Orders) (deleteEmptyObjects : bool) (st : stateDB * Tries)
    : res (Hash * (stateDB * Tries)) :=
  let '(d, w) := st in
  let d := Finalise_in (dirty_order ord) deleteEmptyObjects d in
  st ← each (update_root ord) (root_order ord) (d, w);
  '(d, w) ← each write_account (account_order ord) st;
  let d := set_stateObjectsPending ∅ d in
  '(h, t) ← Secure.Hash_ (accountTrie w);
  Ok (h, (d, put_accounts t w)).
End roots.
End Root.
