(* ===== verification/StateRootSpec.v ===== *)
(** * The intermediate root is the root of the updated accounts

    [written] says which entries a loop over a map puts into a trie, without
    saying in which order.  The storage of every pending account, and then the
    accounts, are written in this sense, so the root hash does not depend on the
    order in which Go iterates over its maps. *)

From S2P Require Import Prelude Uint256 Config Common TrieEncoding Rlp RlpSpec EvmState EvmSpec StateDB StateSpec StateRevert StateFinalise Header.
From S2P Require Import Trie TrieSpec TrieHash TrieTheorems SecureTrie StateRoot.

Import State Root.

Local Open Scope Z_scope.

(** ** Entries written to a trie *)

Section written.
Context {V : Type} (key : Z -> bytes) (entry : V -> option bytes).

Definition written (p : gmap Z V) (s s' : gmap bytes bytes) : Prop :=
  (forall k v, p !! k = Some v -> s' !! key k = entry v) /\
  (forall h, (forall k, k ∈ dom p -> key k <> h) -> s' !! h = s !! h).

Lemma hit_or_miss (p : gmap Z V) h : (exists k v, p !! k = Some v /\ key k = h) \/ (forall k, k ∈ dom p -> key k <> h).
Proof.
  destruct (decide (Exists (fun kv => key kv.1 = h) (map_to_list p))) as [E|E].
  - apply Exists_exists in E as ([k v] & Hin & Hk). left. exists k, v. split; [by apply elem_of_map_to_list | done].
  - right. intros k [v Hv]%elem_of_dom Hk. apply E, Exists_exists. exists (k, v). split; [by apply elem_of_map_to_list | done].
Qed.

Lemma written_unique p s s1 s2 : written p s s1 -> written p s s2 -> s1 = s2.
Proof.
  intros [A1 B1] [A2 B2]. apply map_eq. intros h. destruct (hit_or_miss p h) as [(k & v & E & <-)|Hm].
  - by rewrite (A1 k v E), (A2 k v E).
  - by rewrite (B1 h Hm), (B2 h Hm).
Qed.

Lemma written_bounded p s s' : (forall k, zlen (key k) < 2 ^ 31) ->
  (forall k v b, p !! k = Some v -> entry v = Some b -> value_ok b) -> written p s s' -> bounded s -> bounded s'.
Proof.
  intros Hk He [A B] Hb h b E. destruct (hit_or_miss p h) as [(k & v & Ep & <-)|Hm].
  - split; [apply Hk|]. rewrite (A k v Ep) in E. by eapply He.
  - rewrite (B h Hm) in E. by apply Hb.
Qed.
End written.

Lemma delete_update m k : base.delete k m = update_map m k [].
Proof. done. Qed.

Lemma update_map_lookup m k v : update_map m k v !! k = match v with [] => None | _ => Some v end.
Proof. unfold update_map. destruct v; [by rewrite lookup_delete_eq | by rewrite lookup_insert_eq]. Qed.

Lemma update_map_other m k v h : k <> h -> update_map m k v !! h = m !! h.
Proof. intros N. unfold update_map. destruct v; [by rewrite lookup_delete_ne | by rewrite lookup_insert_ne]. Qed.

(** ** Storage *)

Section storage.
Context `{C : Crypto} `{B : Backend} `{R : NodeReader}.

Definition slot_key (k : Hash) : bytes := Secure.hashKey (slot_bytes k).

(** The entry of a slot: none for zero, else the encoding of its significant
    bytes. *)
Definition slot_enc (v : Hash) : bytes := encode (IBytes (TrimLeftZeroes (be_bytes 32 v))).
Definition slot_entry (v : Hash) : option bytes := if v =? 0 then None else Some (slot_enc v).

Lemma wf_trimmed v : wf_bytes (TrimLeftZeroes (be_bytes 32 v)) /\ zlen (TrimLeftZeroes (be_bytes 32 v)) <= 32.
Proof.
  destruct (TrimLeftZeroes_spec (be_bytes 32 v)) as (n & E & _). pose proof (wf_be_bytes 32 v) as Hw.
  pose proof (zlen_be_bytes 32 v) as Hl. rewrite E in Hw, Hl. split; [by apply Forall_app in Hw as [_ ?]|].
  rewrite zlen_app in Hl. pose proof (zlen_nonneg (replicate n 0)). lia.
Qed.

Lemma slot_enc_ok v : value_ok (slot_enc v) /\ Enc.EncodeToBytes (IBytes (TrimLeftZeroes (be_bytes 32 v))) = Ok (slot_enc v).
Proof.
  destruct (wf_trimmed v) as [Hw Hl]. pose proof (encode_bytes_length (TrimLeftZeroes (be_bytes 32 v))) as He.
  unfold slot_enc. split.
  - split; [by apply wf_encode|]. cbn [encode]. unfold max_size. lia.
  - apply EncodeToBytes_spec; [done|]. cbn [encode]. lia.
Qed.

Lemma slot_enc_cons v : slot_enc v <> [].
Proof. apply encode_nonempty, wf_trimmed. Qed.

Lemma slot_key_size k : zlen (slot_key k) < 2 ^ 31.
Proof. unfold slot_key, Secure.hashKey. rewrite zlen_be_bytes. lia. Qed.

(** The value a loop over the pending slots writes. *)
Definition pend (o : stateObject) (k : Hash) : Hash := default 0 (pendingStorage o !! k).
Definition orig (o : stateObject) (k : Hash) : Hash := default 0 (originStorage o !! k).

Lemma update_slot_spec k o tr w s : secure_refines tr s -> s !! slot_key k = slot_entry (orig o k) ->
  exists og tr' s', update_slot k (o, tr, w) = Ok (with_origin og o, tr', w) /\ secure_refines tr' s' /\
    s' !! slot_key k = slot_entry (pend o k) /\ (forall h, slot_key k <> h -> s' !! h = s !! h) /\
    default 0 (og !! k) = pend o k /\ (forall k', k' <> k -> og !! k' = originStorage o !! k').
Proof.
  intros Hr Hs. unfold update_slot. fold (pend o k). fold (orig o k). destruct (Z.eqb_spec (pend o k) (orig o k)) as [E|E].
  { exists (originStorage o), tr, s. split; [by destruct o|]. rewrite E. done. }
  exists (<[k := pend o k]> (originStorage o)). destruct (Z.eqb_spec (pend o k) 0) as [Ez|Ez].
  - destruct (secure_TryDelete tr s (slot_bytes k) Hr) as (tr' & -> & Hr'). cbn [mbind res_bind].
    exists tr', (base.delete (slot_key k) s). split; [done|]. split; [done|].
    split; [by rewrite lookup_delete_eq, Ez|]. split; [intros h Hh; by rewrite lookup_delete_ne|].
    split; [by rewrite lookup_insert_eq | intros k' Hk; by rewrite lookup_insert_ne].
  - destruct (slot_enc_ok (pend o k)) as [_ ->]. cbn [mbind res_bind].
    destruct (secure_TryUpdate tr s (slot_bytes k) (slot_enc (pend o k)) Hr) as (tr' & -> & Hr'). cbn [mbind res_bind].
    exists tr', (update_map s (slot_key k) (slot_enc (pend o k))). split; [done|]. split; [done|].
    split.
    { rewrite update_map_lookup. unfold slot_entry. destruct (Z.eqb_spec (pend o k) 0); [done|].
      pose proof (slot_enc_cons (pend o k)). by destruct (slot_enc (pend o k)). }
    split; [intros h Hh; by rewrite update_map_other|].
    split; [by rewrite lookup_insert_eq | intros k' Hk; by rewrite lookup_insert_ne].
Qed.

(** No two of the keys have the same hash. *)
Definition distinct (key : Z -> bytes) (ks : list Z) : Prop :=
  forall k k', k ∈ ks -> k' ∈ ks -> key k = key k' -> k = k'.

Lemma update_slots_spec slots : forall o tr w s, NoDup slots -> distinct slot_key slots -> secure_refines tr s ->
  (forall k, k ∈ slots -> s !! slot_key k = slot_entry (orig o k)) ->
  exists og tr' s', each update_slot slots (o, tr, w) = Ok (with_origin og o, tr', w) /\ secure_refines tr' s' /\
    (forall k, k ∈ slots -> s' !! slot_key k = slot_entry (pend o k)) /\
    (forall h, (forall k, k ∈ slots -> slot_key k <> h) -> s' !! h = s !! h) /\
    (forall k, default 0 (og !! k) = if decide (k ∈ slots) then pend o k else orig o k).
Proof.
  induction slots as [|k slots IH]; intros o tr w s Hn Hd Hr Hs.
  { exists (originStorage o), tr, s. split_and!; [by destruct o | done | | done | done]. by intros k Hk%elem_of_nil. }
  apply NoDup_cons in Hn as [Hk Hn]. cbn [each].
  destruct (update_slot_spec k o tr w s Hr) as (og & tr1 & s1 & -> & Hr1 & Hk1 & Ho1 & Hg1 & Hg2); [apply Hs; by left|].
  cbn [mbind res_bind].
  assert (Hne : forall k', k' ∈ slots -> slot_key k <> slot_key k').
  { intros k' Hk' E. apply Hk. rewrite (Hd k k'); [done | by left | by right | done]. }
  destruct (IH (with_origin og o) tr1 w s1 Hn) as (og2 & tr2 & s2 & -> & Hr2 & Hk2 & Ho2 & Hg3).
  - intros x y Hx Hy. apply Hd; by right.
  - done.
  - intros k' Hk'. rewrite Ho1 by by apply Hne. unfold orig. cbn [originStorage with_origin].
    rewrite Hg2; [apply Hs; by right|]. by intros ->.
  - exists og2, tr2, s2. split; [done|]. split; [done|]. split; [|split].
    + intros k' [->|Hk']%elem_of_cons; [|by apply Hk2].
      rewrite Ho2; [done|]. intros k' Hk'. specialize (Hne k' Hk'). congruence.
    + intros h Hh. rewrite Ho2, Ho1; [done | apply Hh; by left|]. intros k' Hk'. apply Hh. by right.
    + intros k'. rewrite Hg3. change (pend (with_origin og o) k') with (pend o k').
      destruct (decide (k' ∈ slots)) as [Hin|Hout].
      * by rewrite decide_True by by right.
      * unfold orig at 1. cbn [originStorage with_origin]. destruct (decide (k' = k)) as [->|N].
        { rewrite decide_True by by left. done. }
        rewrite Hg2, decide_False by (done || (rewrite not_elem_of_cons; done)). done.
Qed.

(** *** One object *)

(** The writes of an object that are not in its trie yet. *)
Definition unwritten (o : stateObject) : Storage := dirtyStorage o ∪ pendingStorage o.

(** The storage trie of an object holds [s]: it is open, or can be opened from
    the root of the account; the slots that were written have been read. *)
Record storage_ok (o : stateObject) (s : gmap bytes bytes) (w : Tries) : Prop := {
  st_trie : match so_trie o w with
            | Some t => secure_refines t s
            | None => exists t, Secure.NewSecure (addrHash (address o)) (root o) = Ok (inl t) /\ secure_refines t s
            end;
  st_root : hash_of s (root o);
  st_bounded : bounded s;
  st_slots : forall k, k ∈ dom (unwritten o) -> s !! slot_key k = slot_entry (orig o k);
  st_distinct : distinct slot_key (elements (dom (unwritten o)));
}.

(** What the end of a transaction does not change of an object. *)
Record same_account (o o' : stateObject) : Prop := {
  sc_address : address o' = address o;
  sc_nonce : nonce o' = nonce o;
  sc_balance : balance o' = balance o;
  sc_codeHash : codeHash o' = codeHash o;
  sc_code : code o' = code o;
  sc_deleted : deleted o' = deleted o;
  sc_suicided : suicided o' = suicided o;
}.

Definition only_storage (a : Address) (w w' : Tries) : Prop :=
  accountTrie w' = accountTrie w /\ dbErr w' = dbErr w /\ objErrs w' = objErrs w /\
  forall b, b <> a -> storageTries w' !! b = storageTries w !! b.

Lemma so_trie_put o t w : so_trie o (put_storage (address o) (root o) t w) = Some t.
Proof. unfold so_trie. cbn [storageTries put_storage]. by rewrite lookup_insert_eq, Z.eqb_refl. Qed.

Lemma getTrie_spec o s w : storage_ok o s w ->
  exists t w', getTrie o w = Ok (t, w') /\ secure_refines t s /\ only_storage (address o) w w'.
Proof.
  intros [Ht _ _ _ _]. unfold getTrie. destruct (so_trie o w) as [t|].
  { exists t, w. split_and!; [done | done | by split_and!]. }
  destruct Ht as (t & -> & Hr). cbn [mbind res_bind]. do 2 eexists. split; [done|]. split; [done|].
  split_and!; [done | done | done |]. intros b Hb. cbn. by rewrite lookup_insert_ne.
Qed.

Lemma unwritten_finalise o : pendingStorage (finalise o) = unwritten o.
Proof. done. Qed.

Lemma root_open o s w t : so_trie o w = Some t -> storage_ok o s w -> secure_refines t s.
Proof. intros E [Ht _ _ _ _]. by rewrite E in Ht. Qed.

Lemma finalise_unwritten o : unwritten (finalise o) = unwritten o.
Proof. unfold unwritten at 1. cbn. apply map_empty_union. Qed.

Lemma storage_ok_finalise o s w : storage_ok o s w -> storage_ok (finalise o) s w.
Proof. intros [H1 H2 H3 H4 H5]. split; [done | done | done | by rewrite finalise_unwritten | by rewrite finalise_unwritten]. Qed.

Lemma storage_ok_frame o s w w' : storageTries w' !! address o = storageTries w !! address o ->
  storage_ok o s w -> storage_ok o s w'.
Proof.
  intros E [H1 H2 H3 H4 H5]. split; [|done..]. unfold so_trie in *. by rewrite E.
Qed.

(** The trie of an object after the writes. *)
Lemma updateTrie_spec slots o s w : storage_ok o s w -> slots ≡ₚ elements (dom (unwritten o)) ->
  exists there o' w' s', updateTrie slots o w = Ok (there, o', w') /\ written slot_key slot_entry (unwritten o) s s' /\
    same_account o o' /\ root o' = root o /\ pendingStorage o' = ∅ /\ dirtyStorage o' = ∅ /\ only_storage (address o) w w' /\
    (forall k, k ∈ dom (unwritten o) -> s' !! slot_key k = slot_entry (orig o' k)) /\
    (if there : bool then exists t, so_trie o' w' = Some t /\ secure_refines t s' else s' = s /\ w' = w /\ so_trie o' w' = None).
Proof.
  intros Hok Hp. unfold updateTrie. rewrite unwritten_finalise. destruct (decide (unwritten o = ∅)) as [E|E].
  { rewrite bool_decide_true by done. do 4 eexists. split; [done|]. rewrite E.
    split; [split; [intros k v Hk; by rewrite lookup_empty in Hk | done]|].
    split; [done|]. split; [done|]. split; [by rewrite <- E|]. split; [done|].
    split; [by split_and!|]. split; [intros k Hk; by rewrite dom_empty in Hk|].
    change (so_trie (finalise o) w) with (so_trie o w). destruct (so_trie o w) as [t|] eqn:Et.
    - rewrite bool_decide_true by by eexists. exists t. split; [done|]. by eapply root_open.
    - rewrite bool_decide_false by by intros []. done. }
  rewrite bool_decide_false by done.
  pose proof (storage_ok_finalise o s w Hok) as Hok'.
  destruct (getTrie_spec _ s w Hok') as (tr & w1 & -> & Hr & Hw1). cbn [mbind res_bind].
  destruct (update_slots_spec slots (finalise o) tr w1 s) as (og & tr' & s' & -> & Hr' & Hk & Hh & Hog); [| |done| |].
  - rewrite Hp. apply NoDup_elements.
  - intros x y Hx Hy. rewrite Hp in Hx, Hy. by apply Hok.
  - intros k Hin. rewrite Hp in Hin. apply elem_of_elements in Hin. by apply Hok.
  - cbn [mbind res_bind]. do 4 eexists. split; [done|].
    assert (Hin : forall k, k ∈ dom (unwritten o) <-> k ∈ slots) by (intros k; by rewrite Hp, elem_of_elements).
    split; [|split; [done|]; split; [done|]; split; [done|]; split; [done|]; split; [|split]].
    + split.
      * intros k v Hv. rewrite Hk by (apply Hin; by apply elem_of_dom_2 in Hv). unfold pend. by rewrite unwritten_finalise, Hv.
      * intros h Hm. apply Hh. intros k Hks. by apply Hm, Hin.
    + destruct Hw1 as (A1 & A2 & A3 & A4). split_and!; [done | done | done |]. intros b Hb. cbn. rewrite lookup_insert_ne by done. by apply A4.
    + intros k Hks. apply Hin in Hks. rewrite Hk by done. unfold orig. cbn [originStorage with_pending with_origin].
      by rewrite Hog, decide_True by done.
    + exists tr'. split; [unfold so_trie; cbn [storageTries put_storage address root with_pending with_origin]; by rewrite lookup_insert_eq, Z.eqb_refl | done].
Qed.

Lemma written_storage_bounded o s s' : written slot_key slot_entry (unwritten o) s s' -> bounded s -> bounded s'.
Proof.
  apply written_bounded; [apply slot_key_size|]. intros k v b _. unfold slot_entry. destruct (v =? 0); [done|].
  intros [= <-]. apply slot_enc_ok.
Qed.

Lemma updateRoot_spec slots o s w : storage_ok o s w -> slots ≡ₚ elements (dom (unwritten o)) ->
  exists o' w' s', updateRoot slots o w = Ok (o', w') /\ written slot_key slot_entry (unwritten o) s s' /\
    same_account o o' /\ unwritten o' = ∅ /\ only_storage (address o) w w' /\ storage_ok o' s' w'.
Proof.
  intros Hok Hp. destruct (updateTrie_spec slots o s w Hok Hp)
    as (there & o1 & w1 & s' & E & Hw & Hsc & Hr & Hpd & Hdt & Ho & _ & Ht).
  unfold updateRoot. rewrite E. cbn [mbind res_bind].
  assert (Hb : bounded s') by (eapply written_storage_bounded; [done | apply Hok]).
  assert (Hu : unwritten o1 = ∅) by (unfold unwritten; by rewrite Hpd, Hdt, map_empty_union).
  destruct there.
  - destruct Ht as (t & Et & Href). rewrite Et. cbn [or_panic mbind res_bind].
    destruct (secure_Hash t s' Href Hb) as (h & t' & -> & Href' & Hh). cbn [mbind res_bind].
    exists (with_root h o1), (put_storage (address o1) h t' w1), s'. split; [done|]. split; [done|].
    split; [destruct Hsc; by split|]. split; [done|]. split.
    { destruct Ho as (A1 & A2 & A3 & A4). split_and!; [done | done | done |]. intros b Hb'. cbn.
      rewrite lookup_insert_ne by (rewrite (sc_address _ _ Hsc); done). by apply A4. }
    split; [| done | done | |]; change (unwritten (with_root h o1)) with (unwritten o1).
    + unfold so_trie. cbn. by rewrite lookup_insert_eq, Z.eqb_refl.
    + intros k Hk. by rewrite Hu, dom_empty in Hk.
    + intros x y Hx. by rewrite Hu, dom_empty_L, elements_empty, elem_of_nil in Hx.
  - destruct Ht as (-> & -> & Et). exists o1, w, s. split; [done|]. split; [done|]. split; [done|]. split; [done|].
    split; [by split_and!|]. destruct Hok as [H1 H2 H3 H4 H5]. split; rewrite ?Hr; try done; rewrite ?Hu.
    + unfold so_trie in Et, H1 |- *. rewrite Hr, (sc_address _ _ Hsc) in *. rewrite Et. by rewrite Et in H1.
    + intros k Hk. by rewrite dom_empty in Hk.
    + intros x y Hx. by rewrite dom_empty_L, elements_empty, elem_of_nil in Hx.
Qed.
End storage.

(** ** Accounts *)

Section accounts.
Context `{C : Crypto} `{B : Backend} `{R : NodeReader}.

Definition acc_key (a : Address) : bytes := Secure.hashKey (addr_bytes a).
Definition account_enc (o : stateObject) : bytes := encode (Secure.account_item (account_of o)).
Definition account_entry (o : stateObject) : option bytes := if deleted o then None else Some (account_enc o).

Definition payable (o : stateObject) : Prop := is_u64 (nonce o) /\ 0 <= balance o < 2 ^ 256.

Lemma account_enc_ok o : payable o ->
  value_ok (account_enc o) /\ Enc.EncodeToBytes (Secure.account_item (account_of o)) = Ok (account_enc o).
Proof.
  intros [Hn Hb]. unfold account_enc.
  assert (Hw : wf_item (Secure.account_item (account_of o))).
  { cbn [Secure.account_item wf_item foldr account_of Secure.aNonce Secure.aBalance Secure.aRoot Secure.aCodeHash].
    split_and!; [done | lia | apply wf_be_bytes | apply wf_be_bytes | done]. }
  assert (Hl : zlen (encode (Secure.account_item (account_of o))) <= 300).
  { cbn [encode Secure.account_item account_of Secure.aNonce Secure.aBalance Secure.aRoot Secure.aCodeHash flat_map].
    rewrite app_nil_r, !zlen_app. unfold encode_uint. match goal with |- zlen (puthead ?a ?b ?c) + _ <= _ => pose proof (puthead_length a b c) end.
    pose proof (encode_bytes_length (if nonce o =? 0 then [] else putint (nonce o))).
    pose proof (Header.uint_content_size (nonce o)). pose proof (encode_bytes_length (big_bytes (balance o))).
    pose proof (Header.big_bytes_length (balance o) ltac:(lia)).
    pose proof (encode_bytes_length (be_bytes 32 (root o))) as Hx1. pose proof (encode_bytes_length (be_bytes 32 (codeHash o))) as Hx2.
    rewrite zlen_be_bytes in Hx1, Hx2. lia. }
  split; [split; [by apply wf_encode | unfold max_size; lia]|]. apply EncodeToBytes_spec; [done | lia].
Qed.

Lemma acc_key_size a : zlen (acc_key a) < 2 ^ 31.
Proof. unfold acc_key, Secure.hashKey. rewrite zlen_be_bytes. lia. Qed.

Lemma write_account_spec a d w m o : stateObjects d !! a = Some o -> address o = a -> (deleted o = false -> payable o) ->
  secure_refines (accountTrie w) m ->
  exists t m', write_account a (d, w) = Ok (d, put_accounts t w) /\ secure_refines t m' /\
    m' !! acc_key a = account_entry o /\ (forall h, acc_key a <> h -> m' !! h = m !! h).
Proof.
  intros Ho Ha Hp Hr. unfold write_account. rewrite Ho. cbn [or_panic mbind res_bind]. unfold account_entry.
  destruct (deleted o).
  - unfold deleteStateObject. rewrite Ha. destruct (secure_TryDelete (accountTrie w) m (addr_bytes a) Hr) as (t & -> & Hr').
    cbn [mbind res_bind option_map db_setError]. exists t, (base.delete (acc_key a) m).
    split_and!; [done | done | by rewrite lookup_delete_eq|]. intros h Hh. by rewrite lookup_delete_ne.
  - specialize (Hp eq_refl). unfold updateStateObject, Secure.TryUpdateAccount. rewrite Ha.
    assert (Hz : Secure.aBalance (account_of o) <? 0 = false) by (apply Z.ltb_ge; apply Hp). rewrite Hz.
    destruct (account_enc_ok o Hp) as [_ ->]. cbn [mbind res_bind].
    destruct (secure_TryUpdate (accountTrie w) m (addr_bytes a) (account_enc o) Hr) as (t & -> & Hr').
    cbn [mbind res_bind option_map db_setError]. exists t, (update_map m (acc_key a) (account_enc o)).
    split_and!; [done | done | | intros h Hh; by apply update_map_other].
    rewrite update_map_lookup. assert (Hne : account_enc o <> []).
    { apply encode_nonempty. destruct Hp as [Hn Hb].
      cbn [Secure.account_item wf_item foldr account_of Secure.aNonce Secure.aBalance Secure.aRoot Secure.aCodeHash].
      split_and!; [done | lia | apply wf_be_bytes | apply wf_be_bytes | done]. }
    by destruct (account_enc o).
Qed.

Lemma write_accounts_spec order : forall d w m, NoDup order -> distinct acc_key order ->
  (forall a, a ∈ order -> exists o, stateObjects d !! a = Some o /\ address o = a /\ (deleted o = false -> payable o)) ->
  secure_refines (accountTrie w) m ->
  exists t m', each write_account order (d, w) = Ok (d, put_accounts t w) /\ secure_refines t m' /\
    (forall a o, a ∈ order -> stateObjects d !! a = Some o -> m' !! acc_key a = account_entry o) /\
    (forall h, (forall a, a ∈ order -> acc_key a <> h) -> m' !! h = m !! h).
Proof.
  induction order as [|a order IH]; intros d w m Hn Hd Ho Hr.
  { exists (accountTrie w), m. split_and!; [by destruct w | done | | done]. by intros a o Ha%elem_of_nil. }
  apply NoDup_cons in Hn as [Ha Hn]. cbn [each]. destruct (Ho a ltac:(by left)) as (o & Eo & Hoa & Hp).
  destruct (write_account_spec a d w m o Eo Hoa Hp Hr) as (t & m1 & -> & Hr1 & Hk1 & Hh1). cbn [mbind res_bind].
  destruct (IH d (put_accounts t w) m1) as (t2 & m2 & E & Hr2 & Hk2 & Hh2);
    [done | intros x y Hx Hy; apply Hd; by right | intros b Hb; apply Ho; by right | done |].
  exists t2, m2. rewrite E. split_and!; [done | done | |].
  - intros b ob [->|Hb]%elem_of_cons Eb; [|by apply Hk2]. rewrite Hh2; [congruence|].
    intros b Hb E2. apply Ha. rewrite (Hd a b); [done | by left | by right | done].
  - intros h Hh. rewrite Hh2, Hh1; [done | apply Hh; by left|]. intros b Hb. apply Hh. by right.
Qed.

(** *** The storage roots *)

(** An object before and after its storage was written. *)
Definition rooted (o o' : stateObject) (s s' : gmap bytes bytes) (w' : Tries) : Prop :=
  if deleted o then o' = o /\ s' = s
  else same_account o o' /\ written slot_key slot_entry (unwritten o) s s' /\ unwritten o' = ∅ /\ storage_ok o' s' w'.

Definition rootable (ord : Orders) (s : gmap bytes bytes) (w : Tries) (o : stateObject) : Prop :=
  deleted o = false -> storage_ok o s w /\ slot_order ord (address o) ≡ₚ elements (dom (unwritten o)).

Lemma rootable_frame ord s w w' o : storageTries w' !! address o = storageTries w !! address o ->
  rootable ord s w o -> rootable ord s w' o.
Proof. intros E H Hd. destruct (H Hd) as [H1 H2]. split; [by eapply storage_ok_frame | done]. Qed.

Lemma rooted_frame o o' s s' w w' : address o' = address o -> storageTries w' !! address o = storageTries w !! address o ->
  rooted o o' s s' w -> rooted o o' s s' w'.
Proof.
  unfold rooted. intros Ea E. destruct (deleted o); [done|]. intros (H1 & H2 & H3 & H4).
  split_and!; [done | done | done |]. eapply storage_ok_frame; [|done]. by rewrite Ea.
Qed.

Lemma rooted_address o o' s s' w : rooted o o' s s' w -> address o' = address o.
Proof. unfold rooted. destruct (deleted o); [by intros [-> _] | by intros [[] _]]. Qed.

Lemma update_root_spec ord a d w s o : stateObjects d !! a = Some o -> address o = a -> rootable ord s w o ->
  exists o' w' s', update_root ord a (d, w) = Ok (set_stateObjects (<[a := o']> (stateObjects d)) d, w') /\
    rooted o o' s s' w' /\ only_storage a w w'.
Proof.
  intros Ho Ha Hr. unfold update_root. rewrite Ho. cbn [or_panic mbind res_bind]. unfold rooted, rootable in *.
  destruct (deleted o).
  - exists o, w, s. rewrite insert_id by done. rewrite set_objects_id. split_and!; [done | done | done | by split_and!].
  - destruct (Hr eq_refl) as [Hok Hp]. rewrite Ha in Hp.
    destruct (updateRoot_spec (slot_order ord a) o s w Hok Hp) as (o' & w' & s' & -> & Hw & Hsc & Hu & Hs & Hok').
    cbn [mbind res_bind]. exists o', w', s'. rewrite <- Ha. split_and!; [|done..].
    unfold setStateObject. by rewrite (sc_address _ _ Hsc).
Qed.

Lemma update_roots_spec ord order : forall d w (sg : Address -> gmap bytes bytes), NoDup order ->
  (forall a, a ∈ order -> exists o, stateObjects d !! a = Some o /\ address o = a /\ rootable ord (sg a) w o) ->
  exists objs w' sg', each (update_root ord) order (d, w) = Ok (set_stateObjects objs d, w') /\
    (forall a, a ∉ order -> objs !! a = stateObjects d !! a /\ sg' a = sg a /\ storageTries w' !! a = storageTries w !! a) /\
    (forall a o, a ∈ order -> stateObjects d !! a = Some o ->
       exists o', objs !! a = Some o' /\ rooted o o' (sg a) (sg' a) w') /\
    accountTrie w' = accountTrie w /\ dbErr w' = dbErr w /\ objErrs w' = objErrs w.
Proof.
  induction order as [|a order IH]; intros d w sg Hn Ho.
  { exists (stateObjects d), w, sg. rewrite set_objects_id. split_and!; try done. by intros a o Ha%elem_of_nil. }
  apply NoDup_cons in Hn as [Ha Hn]. cbn [each]. destruct (Ho a ltac:(by left)) as (o & Eo & Hoa & Hp).
  destruct (update_root_spec ord a d w (sg a) o Eo Hoa Hp) as (o' & w1 & s' & -> & Hrt & Ht1 & He1 & Hb1 & Hf1). cbn [mbind res_bind].
  pose (sg1 := fun b => if decide (b = a) then s' else sg b).
  destruct (IH (set_stateObjects (<[a := o']> (stateObjects d)) d) w1 sg1 Hn) as (objs & w2 & sg2 & E & Hout & Hin & Ht2 & He2 & Hb2).
  { intros b Hb. assert (Hba : b <> a) by by intros ->. destruct (Ho b ltac:(by right)) as (ob & Eb & Hob & Hpb).
    exists ob. cbn [stateObjects set_stateObjects]. rewrite lookup_insert_ne by done. split_and!; [done | done |].
    unfold sg1. rewrite decide_False by done. eapply rootable_frame; [|done]. rewrite Hob. by apply Hf1. }
  exists objs, w2, sg2. rewrite E. split; [done|]. split; [|split; [|split_and!; congruence]].
  - intros b [Hba Hb]%not_elem_of_cons. destruct (Hout b Hb) as (H1 & H2 & H3). cbn [stateObjects set_stateObjects] in H1.
    rewrite lookup_insert_ne in H1 by done. unfold sg1 in H2. rewrite decide_False in H2 by done. rewrite H3. split_and!; [done | done | by apply Hf1].
  - intros b ob [->|Hb]%elem_of_cons Eb.
    + rewrite Eo in Eb. injection Eb as <-. destruct (Hout a Ha) as (H1 & H2 & H3). cbn [stateObjects set_stateObjects] in H1.
      rewrite lookup_insert_eq in H1. exists o'. split; [done|]. rewrite H2. unfold sg1. rewrite decide_True by done.
      eapply rooted_frame; [by eapply rooted_address | by rewrite Hoa | done].
    + assert (Hba : b <> a) by by intros ->. destruct (Hin b ob Hb) as (ob' & E1 & E2).
      { cbn [stateObjects set_stateObjects]. by rewrite lookup_insert_ne. }
      exists ob'. split; [done|]. unfold sg1 in E2. by rewrite decide_False in E2.
Qed.
End accounts.

(** ** The intermediate root *)

Section intermediate.
Context `{C : Crypto} `{B : Backend} `{R : NodeReader}.

(** The account trie holds [m], the storage of account [a] is [sg a]. *)
Record ready (sg : Address -> gmap bytes bytes) (m : gmap bytes bytes) (d : stateDB) (w : Tries) : Prop := {
  rd_trie : secure_refines (accountTrie w) m;
  rd_bounded : bounded m;
  rd_filed a o : stateObjects d !! a = Some o -> address o = a;
  rd_objects a o : stateObjects d !! a = Some o -> deleted o = false -> storage_ok o (sg a) w /\ payable o;
  rd_pending a : a ∈ stateObjectsPending d -> is_Some (stateObjects d !! a);
  rd_distinct : distinct acc_key (elements (dom (stateObjects d)));
}.

(** Orders of iteration. *)
Record orders_ok (ord : Orders) (del : bool) (d : stateDB) : Prop := {
  or_dirty : dirty_order ord ≡ₚ (map_to_list (dirties (journal d))).*1;
  or_root : root_order ord ≡ₚ elements (stateObjectsPending (Finalise_in (dirty_order ord) del d));
  or_account : account_order ord ≡ₚ elements (stateObjectsPending (Finalise_in (dirty_order ord) del d));
  or_slots a o : stateObjects d !! a = Some o -> slot_order ord a ≡ₚ elements (dom (unwritten o));
}.

(** What becomes of an account: removed, or stored with the root of its storage
    after the writes. *)
Definition account_spec (s : gmap bytes bytes) (o : stateObject) (e : option bytes) : Prop :=
  if deleted o then e = None
  else exists s' r, written slot_key slot_entry (unwritten o) s s' /\ hash_of s' r /\ e = Some (account_enc (with_root r o)).

(** The accounts after the end of the transaction [d1]. *)
Definition updated_accounts (sg : Address -> gmap bytes bytes) (d1 : stateDB) (m m' : gmap bytes bytes) : Prop :=
  (forall a o, a ∈ stateObjectsPending d1 -> stateObjects d1 !! a = Some o -> account_spec (sg a) o (m' !! acc_key a)) /\
  (forall h, (forall a, a ∈ stateObjectsPending d1 -> acc_key a <> h) -> m' !! h = m !! h).

Lemma account_spec_unique s o e e' : account_spec s o e -> account_spec s o e' -> e = e'.
Proof.
  unfold account_spec. destruct (deleted o); [congruence|].
  intros (s1 & r1 & W1 & H1 & ->) (s2 & r2 & W2 & H2 & ->).
  pose proof (written_unique _ _ _ _ _ _ W1 W2) as <-. by rewrite (hash_of_unique s1 r1 r2).
Qed.

Lemma updated_accounts_unique sg d1 d2 m m1 m2 :
  (forall a, a ∈ stateObjectsPending d1 -> is_Some (stateObjects d1 !! a)) ->
  stateObjects d1 = stateObjects d2 -> stateObjectsPending d1 = stateObjectsPending d2 ->
  updated_accounts sg d1 m m1 -> updated_accounts sg d2 m m2 -> m1 = m2.
Proof.
  intros Hp Eo Ep [A1 B1] [A2 B2]. rewrite <- Eo, <- Ep in *. apply map_eq. intros h.
  destruct (decide (Exists (fun a => acc_key a = h) (elements (stateObjectsPending d1)))) as [E|E].
  - apply Exists_exists in E as (a & Ha & <-). apply elem_of_elements in Ha. destruct (Hp a Ha) as [o Ho].
    by apply (account_spec_unique (sg a) o); [apply A1 | apply A2].
  - rewrite B1, B2; [done | |]; intros a Ha Hk; apply E, Exists_exists; exists a; by rewrite elem_of_elements.
Qed.

(** *** The end of the transaction *)

Lemma Finalise_objects d order del a : NoDup order -> filed d ->
  stateObjects (Finalise_in order del d) !! a =
    if decide (a ∈ order) then finalised del <$> stateObjects d !! a else stateObjects d !! a.
Proof.
  intros Hn F. destruct (finalise_all del order d Hn F) as (H1 & _). rewrite <- H1. unfold Finalise_in, clearJournalAndRefund. by case_match.
Qed.

Lemma finalise_addr_pending del d a b : b ∈ stateObjectsPending (finalise_addr del d a) <->
  b ∈ stateObjectsPending d \/ (b = a /\ is_Some (stateObjects d !! a)).
Proof.
  unfold finalise_addr. destruct (stateObjects d !! a) as [o|].
  - destruct (_ || _); [destruct snap|]; cbn; rewrite elem_of_union, elem_of_singleton;
      (split; [intros [->|?]; [right; split; [done | by eexists] | by left] | intros [?|[-> _]]; [by right | by left]]).
  - split; [by left|]. intros [?|[_ []]]; done.
Qed.

Lemma Finalise_pending order del : forall d b, filed d -> NoDup order ->
  b ∈ stateObjectsPending (Finalise_in order del d) <->
  b ∈ stateObjectsPending d \/ (b ∈ order /\ is_Some (stateObjects d !! b)).
Proof.
  intros d b F Hn.
  transitivity (b ∈ stateObjectsPending (foldl (finalise_addr del) d order)).
  { unfold Finalise_in, clearJournalAndRefund. by case_match. }
  revert d F. induction order as [|a order IH]; intros d F; cbn [foldl].
  { split; [by left|]. intros [?|[?%elem_of_nil _]]; done. }
  apply NoDup_cons in Hn as [Ha Hn]. rewrite IH by (done || by apply filed_finalise_addr).
  rewrite finalise_addr_pending, finalise_addr_objects by done. destruct (decide (b = a)) as [->|N].
  - rewrite fmap_is_Some. rewrite elem_of_cons. tauto.
  - rewrite elem_of_cons. tauto.
Qed.

Lemma ready_filed sg m d w : ready sg m d w -> filed d.
Proof.
  intros Hr a o. unfold view. destruct (stateObjects d !! a) as [o'|] eqn:E; [intros [= <-]; by apply (rd_filed _ _ _ _ Hr)|].
  destruct (readAccount a); [|done]. by intros [= <-].
Qed.

Lemma order_NoDup ord del d : orders_ok ord del d -> NoDup (dirty_order ord).
Proof. intros H. rewrite (or_dirty _ _ _ H). apply NoDup_fst_map_to_list. Qed.

Lemma finalised_unwritten del o : unwritten (finalised del o) = unwritten o.
Proof. unfold finalised. destruct (removed del o); [done | apply finalise_unwritten]. Qed.

Lemma finalised_ready sg m d w order del : NoDup order -> ready sg m d w -> ready sg m (Finalise_in order del d) w.
Proof.
  intros Hn Hr. pose proof (ready_filed sg m d w Hr) as F.
  assert (Hdom : dom (stateObjects (Finalise_in order del d)) = dom (stateObjects d)).
  { apply set_eq. intros a. rewrite !elem_of_dom, Finalise_objects by done. destruct (decide _); [by rewrite fmap_is_Some | done]. }
  destruct Hr as [H1 H2 H3 H4 H5 H6]. split; [done | done | | | |by rewrite Hdom].
  - intros a o. rewrite Finalise_objects by done. destruct (decide (a ∈ order)); [|apply H3].
    intros (o0 & E & ->)%fmap_Some. rewrite finalised_address. by apply H3.
  - intros a o. rewrite Finalise_objects by done. destruct (decide (a ∈ order)); [|apply H4].
    intros (o0 & E & ->)%fmap_Some. unfold finalised. destruct (removed del o0); [done|].
    intros Hd. destruct (H4 a o0 E Hd) as [Hs Hp]. split; [by apply storage_ok_finalise | done].
  - intros a. rewrite Finalise_pending by done. intros [Ha|[_ Ha]]; apply elem_of_dom; rewrite Hdom; apply elem_of_dom; auto.
Qed.

(** *** The theorem *)

Lemma rooted_entry o o' s s' w : address o' = address o -> rooted o o' s s' w -> account_spec s o (account_entry o').
Proof.
  unfold rooted, account_spec, account_entry. intros Ha. destruct (deleted o) eqn:Hd; [intros [-> _]; by rewrite Hd|].
  intros ([H1 H2 H3 H4 H5 H6 H7] & Hw & _ & Hok). rewrite H6, Hd. exists s', (root o'). split; [done|]. split; [apply Hok|].
  unfold account_enc, account_of. cbn [nonce balance root codeHash with_root]. by rewrite H2, H3, H4.
Qed.

Lemma account_entry_ok o b : (deleted o = false -> payable o) -> account_entry o = Some b -> value_ok b.
Proof.
  unfold account_entry. destruct (deleted o); [done|]. intros Hp [= <-]. by apply account_enc_ok, Hp.
Qed.

Lemma rooted_payable o o' s s' w : rooted o o' s s' w -> (deleted o = false -> payable o) -> deleted o' = false -> payable o'.
Proof.
  unfold rooted. destruct (deleted o) eqn:Hd; [intros [-> _] _ E; congruence|].
  intros ([H1 H2 H3 H4 H5 H6 H7] & _) Hp _. destruct (Hp eq_refl). unfold payable. by rewrite H2, H3.
Qed.

Lemma objects_rooted sg d1 ord (order : list Address) (objs : gmap Z stateObject) w w1 sg1 :
  (forall a, a ∉ order -> objs !! a = stateObjects d1 !! a /\ sg1 a = sg a /\ storageTries w1 !! a = storageTries w !! a) ->
  (forall a o, a ∈ order -> stateObjects d1 !! a = Some o -> exists o', objs !! a = Some o' /\ rooted o o' (sg a) (sg1 a) w1) ->
  (forall a, a ∈ order -> exists o, stateObjects d1 !! a = Some o /\ address o = a /\ rootable ord (sg a) w o) ->
  (forall a o, stateObjects d1 !! a = Some o -> address o = a) ->
  (forall a o, stateObjects d1 !! a = Some o -> deleted o = false -> storage_ok o (sg a) w /\ payable o) ->
  dom objs = dom (stateObjects d1) /\
  forall a o', objs !! a = Some o' -> address o' = a /\ (deleted o' = false -> storage_ok o' (sg1 a) w1 /\ payable o').
Proof.
  intros Hout Hin Hord Hf Hobj. split.
  - apply set_eq. intros a. rewrite !elem_of_dom. destruct (decide (a ∈ order)) as [Ha|Ha].
    + destruct (Hord a Ha) as (o & Eo & _). destruct (Hin a o Ha Eo) as (o' & -> & _). rewrite Eo. split; by eexists.
    + by destruct (Hout a Ha) as (-> & _).
  - intros a o' Eo'. destruct (decide (a ∈ order)) as [Ha|Ha].
    + destruct (Hord a Ha) as (o & Eo & Hoa & _). destruct (Hin a o Ha Eo) as (o2 & E2 & Hrt). rewrite E2 in Eo'. injection Eo' as ->.
      split; [rewrite <- Hoa; by eapply rooted_address|]. intros Hd. split; [|eapply rooted_payable; [done | | done]; intros E0; by apply (Hobj a o Eo E0)].
      unfold rooted in Hrt. destruct (deleted o) eqn:Hdo; [destruct Hrt as [-> _]; congruence | apply Hrt].
    + destruct (Hout a Ha) as (E1 & E2 & E3). rewrite E1 in Eo'. pose proof (Hf a o' Eo') as Hoa. split; [done|].
      intros Hd. destruct (Hobj a o' Eo' Hd) as [Hs Hp]. split; [|done]. rewrite E2. eapply storage_ok_frame; [|done]. by rewrite Hoa.
Qed.

(** The first loop, from the state [d1] after [Finalise]. *)
Lemma roots_phase sg m d1 w ord : ready sg m d1 w -> root_order ord ≡ₚ elements (stateObjectsPending d1) ->
  (forall a o, stateObjects d1 !! a = Some o -> slot_order ord a ≡ₚ elements (dom (unwritten o))) ->
  exists objs w1 sg1, each (update_root ord) (root_order ord) (d1, w) = Ok (set_stateObjects objs d1, w1) /\
    dom objs = dom (stateObjects d1) /\
    (forall a o', objs !! a = Some o' -> address o' = a /\ (deleted o' = false -> storage_ok o' (sg1 a) w1 /\ payable o')) /\
    (forall a, a ∈ stateObjectsPending d1 -> exists o o', stateObjects d1 !! a = Some o /\ objs !! a = Some o' /\
       account_spec (sg a) o (account_entry o')) /\
    accountTrie w1 = accountTrie w /\ dbErr w1 = dbErr w /\ objErrs w1 = objErrs w.
Proof.
  intros Hr Or Hslots.
  assert (Hin1 : forall a, a ∈ root_order ord <-> a ∈ stateObjectsPending d1) by (intros a; by rewrite Or, elem_of_elements).
  assert (Hrt : forall a, a ∈ root_order ord -> exists o, stateObjects d1 !! a = Some o /\ address o = a /\ rootable ord (sg a) w o).
  { intros a Ha%Hin1. destruct (rd_pending _ _ _ _ Hr a Ha) as [o Eo].
    pose proof (rd_filed _ _ _ _ Hr a o Eo) as Hoa. exists o. split_and!; [done | done|]. intros Hd.
    split; [by apply (rd_objects _ _ _ _ Hr) | rewrite Hoa; by apply Hslots]. }
  destruct (update_roots_spec ord (root_order ord) d1 w sg) as (objs & w1 & sg1 & E & Hout & Hin & Hrest);
    [rewrite Or; apply NoDup_elements | done |].
  destruct (objects_rooted sg d1 ord _ objs w w1 sg1 Hout Hin Hrt (rd_filed _ _ _ _ Hr) (rd_objects _ _ _ _ Hr)) as [Hdom Hobjs].
  exists objs, w1, sg1. split; [done|]. split; [done|]. split; [done|]. split; [|done].
  intros a Ha%Hin1. destruct (Hrt a Ha) as (o & Eo & _). destruct (Hin a o Ha Eo) as (o' & Eo' & Hro).
  exists o, o'. split_and!; [done | done|]. eapply rooted_entry; [by eapply rooted_address | done].
Qed.

(** The second loop. *)
Lemma accounts_phase d1 ord (objs : gmap Z stateObject) w1 m : NoDup (account_order ord) -> distinct acc_key (account_order ord) ->
  (forall a, a ∈ account_order ord -> is_Some (objs !! a)) ->
  (forall a o, objs !! a = Some o -> address o = a /\ (deleted o = false -> payable o)) ->
  secure_refines (accountTrie w1) m -> bounded m ->
  exists t m', each write_account (account_order ord) (set_stateObjects objs d1, w1) = Ok (set_stateObjects objs d1, put_accounts t w1) /\
    secure_refines t m' /\ bounded m' /\
    (forall a o, a ∈ account_order ord -> objs !! a = Some o -> m' !! acc_key a = account_entry o) /\
    (forall h, (forall a, a ∈ account_order ord -> acc_key a <> h) -> m' !! h = m !! h).
Proof.
  intros Hn Hd Hs Ho Hr Hb.
  destruct (write_accounts_spec (account_order ord) (set_stateObjects objs d1) w1 m) as (t & m' & E & Hr2 & Hk & Hh);
    [done | done | | done |].
  { intros a Ha. destruct (Hs a Ha) as [o Eo]. exists o. by destruct (Ho a o Eo). }
  exists t, m'. split_and!; [done | done | | done | done].
  eapply (written_bounded acc_key account_entry (filter (fun '(a, _) => a ∈ account_order ord) objs) m); [apply acc_key_size | | | done].
  - intros a o b [Eo _]%map_lookup_filter_Some. apply account_entry_ok. by apply (Ho a o Eo).
  - split.
    + intros a o [Eo Ha]%map_lookup_filter_Some. by apply Hk.
    + intros h Hm. apply Hh. intros a Ha. apply Hm, elem_of_dom. destruct (Hs a Ha) as [o Eo]. exists o. by apply map_lookup_filter_Some.
Qed.

Lemma IntermediateRoot_spec sg m d w ord del : ready sg m d w -> orders_ok ord del d ->
  exists h d' w' sg' m', IntermediateRoot ord del (d, w) = Ok (h, (d', w')) /\ hash_of m' h /\
    updated_accounts sg (Finalise_in (dirty_order ord) del d) m m' /\ ready sg' m' d' w' /\
    dbErr w' = dbErr w /\ objErrs w' = objErrs w.
Proof.
  intros Hr Ho. pose proof (order_NoDup ord del d Ho) as Hn. pose proof (ready_filed _ _ _ _ Hr) as F.
  pose proof (finalised_ready sg m d w (dirty_order ord) del Hn Hr) as Hr1.
  pose proof (or_root _ _ _ Ho) as Or. pose proof (or_account _ _ _ Ho) as Oa.
  assert (Hslots : forall a o, stateObjects (Finalise_in (dirty_order ord) del d) !! a = Some o ->
            slot_order ord a ≡ₚ elements (dom (unwritten o))).
  { intros a o. rewrite Finalise_objects by done. destruct (decide _); [|apply Ho].
    intros (o0 & E & ->)%fmap_Some. rewrite finalised_unwritten. by apply Ho. }
  unfold IntermediateRoot. set (d1 := Finalise_in (dirty_order ord) del d) in *. clearbody d1.
  destruct (roots_phase sg m d1 w ord Hr1 Or Hslots) as (objs & w1 & sg1 & -> & Hdom & Hobjs & Hacc & Ht1 & He1 & Hb1).
  cbn [mbind res_bind].
  assert (Hin : forall a, a ∈ account_order ord <-> a ∈ stateObjectsPending d1) by (intros a; by rewrite Oa, elem_of_elements).
  destruct (accounts_phase d1 ord objs w1 m) as (t & m' & -> & Hr2 & Hbd & Hk & Hh).
  - rewrite Oa. apply NoDup_elements.
  - intros x y Hx Hy. apply (rd_distinct _ _ _ _ Hr1); apply elem_of_elements, elem_of_dom; by apply (rd_pending _ _ _ _ Hr1), Hin.
  - intros a Ha%Hin. destruct (Hacc a Ha) as (o & o' & _ & Eo' & _). by exists o'.
  - intros a o Eo. destruct (Hobjs a o Eo) as [Hoa Hd]. split; [done|]. intros E. by apply Hd.
  - rewrite Ht1. apply Hr1.
  - apply Hr1.
  - cbn [mbind res_bind accountTrie put_accounts]. destruct (secure_Hash t m' Hr2 Hbd) as (h & t' & E & Hr3 & Hhash).
    rewrite E. cbn [mbind res_bind].
    exists h, (set_stateObjectsPending ∅ (set_stateObjects objs d1)), (put_accounts t' (put_accounts t w1)), sg1, m'.
    split; [done|]. split; [done|]. split; [|split; [|done]].
    + split.
      * intros a o Ha Eo. destruct (Hacc a Ha) as (o1 & o' & Eo1 & Eo' & Hsp). rewrite Eo in Eo1. injection Eo1 as <-.
        rewrite (Hk a o'); [done | by apply Hin | done].
      * intros h' Hm. apply Hh. intros a Ha. by apply Hm, Hin.
    + split; [done | done | | | done |]; cbn [stateObjects set_stateObjects set_stateObjectsPending].
      * intros a o Eo. by apply Hobjs.
      * intros a o Eo Hd. destruct (Hobjs a o Eo) as [_ Hx]. destruct (Hx Hd) as [Hs Hp]. split; [|done]. by apply (storage_ok_frame o _ w1).
      * rewrite Hdom. apply Hr1.
Qed.

(** C23: The intermediate root is the root hash of the account map after the
    end of the transaction: every pending account is removed when it is deleted,
    and otherwise stored with the root hash of its storage after its writes; no
    other entry changes.  It returns, without an error, for whatever orders in
    which Go iterates over dirty accounts, pending accounts and slots; the hash
    does not depend on them; and the tries are left as the next call needs them. *)
Theorem intermediate_root_correct sg m d w ord del : ready sg m d w -> orders_ok ord del d ->
  exists h d' w' sg' m', IntermediateRoot ord del (d, w) = Ok (h, (d', w')) /\ hash_of m' h /\
    updated_accounts sg (Finalise_in (dirty_order ord) del d) m m' /\ ready sg' m' d' w' /\
    dbErr w' = dbErr w /\ objErrs w' = objErrs w /\
    forall ord', orders_ok ord' del d -> exists d2 w2, IntermediateRoot ord' del (d, w) = Ok (h, (d2, w2)).
Proof.
  intros Hr Ho. destruct (IntermediateRoot_spec sg m d w ord del Hr Ho) as (h & d' & w' & sg' & m' & E & Hh & Hu & Hr' & He & Hb).
  exists h, d', w', sg', m'. split_and!; [done..|]. intros ord' Ho'.
  destruct (IntermediateRoot_spec sg m d w ord' del Hr Ho') as (h2 & d2 & w2 & sg2 & m2 & E2 & Hh2 & Hu2 & _).
  exists d2, w2. rewrite E2. enough (h = h2) as -> by done. eapply hash_of_unique; [done|].
  pose proof (ready_filed _ _ _ _ Hr) as F. pose proof (order_NoDup _ _ _ Ho) as N1. pose proof (order_NoDup _ _ _ Ho') as N2.
  assert (Hin : forall a, a ∈ dirty_order ord <-> a ∈ dirty_order ord').
  { intros a. by rewrite (or_dirty _ _ _ Ho), (or_dirty _ _ _ Ho'). }
  assert (Eo : stateObjects (Finalise_in (dirty_order ord) del d) = stateObjects (Finalise_in (dirty_order ord') del d)).
  { apply map_eq. intros a. rewrite !Finalise_objects by done. by rewrite (decide_ext _ _ _ _ (Hin a)). }
  assert (Ep : stateObjectsPending (Finalise_in (dirty_order ord) del d) = stateObjectsPending (Finalise_in (dirty_order ord') del d)).
  { apply set_eq. intros a. rewrite !Finalise_pending by done. by rewrite Hin. }
  rewrite (updated_accounts_unique sg _ _ m m' m2 (rd_pending _ _ _ _ (finalised_ready _ _ _ _ _ _ N1 Hr)) Eo Ep Hu Hu2). done.
Qed.
End intermediate.

(** ** A payment and a write in an empty state *)

Definition empty_backend : Backend := {|
  State.emptyRoot := Trie.emptyRoot;
  snap := None;
  trie_Account a := Some None;
  trie_Storage _ _ _ := Some [];
  ContractCode _ _ := None;
|}.

Definition first_tx : stateDB :=
  SetState (C := trie_crypto) (B := empty_backend) 5 1 9 (AddBalance (C := trie_crypto) (B := empty_backend) 5 100 New).

Definition no_tries : Tries := mkTries (Secure.mkSecure (mkTrie NilNode 0 0) ∅) ∅ None ∅.

Definition first_orders : Orders := mkOrders [5] [5] [5] (fun _ => [1]).

Lemma empty_secure : secure_refines (C := trie_crypto) (R := no_nodes) (Secure.mkSecure (mkTrie NilNode 0 0) ∅) ∅.
Proof. apply empty_refines. Qed.

Lemma first_object a o : stateObjects first_tx !! a = Some o -> a = 5 /\ address o = 5 /\ root o = Trie.emptyRoot /\
  unwritten o = {[1 := 9]} /\ originStorage o = {[1 := 0]} /\ nonce o = 0 /\ balance o = 100.
Proof.
  intros E. assert (Ed : dom (stateObjects first_tx) = {[5]}) by (vm_compute; reflexivity).
  assert (Ha : a = 5) by (apply elem_of_dom_2 in E; rewrite Ed in E; by apply elem_of_singleton in E).
  subst a. assert (Eo : exists o', stateObjects first_tx !! 5 = Some o' /\ address o' = 5 /\ root o' = Trie.emptyRoot /\
    unwritten o' = {[1 := 9]} /\ originStorage o' = {[1 := 0]} /\ nonce o' = 0 /\ balance o' = 100).
  { eexists. split; [vm_compute; reflexivity|]. vm_compute. split_and!; reflexivity. }
  destruct Eo as (o' & E' & H). rewrite E' in E. injection E as <-. done.
Qed.

Lemma singleton_distinct key k : distinct key (elements (C := gset Z) {[k]}).
Proof.
  intros x y Hx Hy _. rewrite elem_of_elements, elem_of_singleton in Hx. rewrite elem_of_elements, elem_of_singleton in Hy. by subst.
Qed.

Lemma first_ready : ready (C := trie_crypto) (R := no_nodes) (fun _ => ∅) ∅ first_tx no_tries.
Proof.
  split.
  - apply empty_secure.
  - done.
  - intros a o E. by destruct (first_object a o E) as (-> & ? & _).
  - intros a o E _. destruct (first_object a o E) as (-> & Ea & Er & Eu & Eg & En & Eb). split.
    + split.
      * unfold so_trie. cbn [storageTries no_tries]. rewrite lookup_empty, Er, Ea. eexists. split; [reflexivity | apply empty_secure].
      * exists TNil. split; [by left|]. split; [apply holds_empty | done].
      * done.
      * intros k. rewrite Eu, dom_singleton_L, elem_of_singleton. intros ->. unfold orig. by rewrite Eg, lookup_singleton_eq.
      * rewrite Eu, dom_singleton_L. apply singleton_distinct.
    + split; [rewrite En; by compute | rewrite Eb; lia].
  - intros a Ha. by apply elem_of_empty in Ha.
  - assert (Ed : dom (stateObjects first_tx) = {[5]}) by (vm_compute; reflexivity). rewrite Ed. apply singleton_distinct.
Qed.

Lemma intermediate_root_correct_witness :
  exists h d' w', IntermediateRoot (C := trie_crypto) (B := empty_backend) (R := no_nodes) first_orders true (first_tx, no_tries) = Ok (h, (d', w')) /\
    dbErr w' = None.
Proof.
  destruct (intermediate_root_correct (C := trie_crypto) (B := empty_backend) (R := no_nodes) (fun _ => ∅) ∅ first_tx no_tries
              first_orders true first_ready) as (h & d' & w' & sg' & m' & E & _ & _ & _ & He & _).
  - split; [vm_compute; reflexivity .. |]. intros a o E. destruct (first_object a o E) as (-> & _ & _ & -> & _). reflexivity.
  - exists h, d', w'. exact (conj E He).
Defined.
