(* ===== verification/StackTrie.v ===== *)
(** * The stack trie ([database/trie/stacktrie.go]) and [DeriveSha]
    ([blockchain/model/hashing.go])

    A trie for keys that arrive in increasing order: a subtree that can no longer
    change is replaced by its hash at once.  A node of the code is a struct with a
    type tag, of which each type uses only some fields; the others are always
    empty, and each type is a constructor here.  A node owns its key, which is
    compacted in place; nodes come from a pool that resets them.  The database
    the nodes are written to is nil when only the hash is wanted.  The binary
    marshalling is left out. *)

From S2P Require Import Prelude Common TrieEncoding Rlp EvmState Trie.

Local Open Scope Z_scope.

Inductive StackTrie :=
| emptyNode
| branchNode (children : list (option StackTrie))
| extNode (key : bytes) (child : StackTrie)
| leafNode (key val : bytes)
| hashedNode (val : bytes).

(** [st.db]: a writer of encodings under their hashes, or nil. *)
Definition writer := option (gmap bytes bytes).

Definition NewStackTrie : StackTrie := emptyNode.
Definition newLeaf (key val : bytes) : StackTrie := leafNode key val.
Definition newExt (key : bytes) (child : StackTrie) : StackTrie := extNode key child.

(** [st.val] *)
Definition st_val (st : StackTrie) : bytes :=
  match st with leafNode _ v | hashedNode v => v | _ => [] end.

Definition is_hashed (st : StackTrie) : bool := match st with hashedNode _ => true | _ => false end.

(** [getDiffIndex]: where the node's key and the given one differ. *)
Fixpoint getDiffIndex_from (idx : Z) (stkey key : bytes) : res Z :=
  match stkey with
  | [] => Ok idx
  | nibble :: r =>
    x ← nth_or_panic key idx;
    if negb (nibble =? x) then Ok idx else getDiffIndex_from (idx + 1) r key
  end.
Definition getDiffIndex (stkey key : bytes) : res Z := getDiffIndex_from 0 stkey key.

(** [p.children[i] = c] *)
Definition st_set (cs : list (option StackTrie)) (i : Z) (c : StackTrie) : res (list (option StackTrie)) :=
  if bool_decide (0 <= i < zlen cs) then Ok (<[Z.to_nat i := Some c]> cs) else Panic PanicIndex.

Section stack_trie.
Context `{Crypto}.

(** A child inside its parent: raw when it is shorter than a hash. *)
Definition child_node (val : bytes) : node := if zlen val <? 32 then RawNode val else HashNode val.

(** The end of [hashRec]: short encodings are kept, others hashed and written. *)
Definition hash_done (encodedNode : bytes) (db : writer) : StackTrie * writer :=
  if zlen encodedNode <? 32 then (hashedNode encodedNode, db)
  else (hashedNode (hashData encodedNode), option_map (<[hashData encodedNode := encodedNode]>) db).

Fixpoint hashRec (st : StackTrie) (db : writer) : res (StackTrie * writer) :=
  match st with
  | hashedNode _ => Ok (st, db)
  | emptyNode => Ok (hashedNode (be_bytes 32 emptyRoot), db)
  | branchNode cs =>
    '(nodes, db) ←
      (fix go (cs : list (option StackTrie)) (db : writer) : res (list node * writer) :=
         match cs with
         | [] => Ok ([], db)
         | None :: r => '(ns, db) ← go r db; Ok (ValueNode [] :: ns, db)
         | Some c :: r =>
           '(c, db) ← hashRec c db;
           '(ns, db) ← go r db; Ok (child_node (st_val c) :: ns, db)
         end) cs db;
    enc ← nodeToBytes (RawFullNode (nodes ++ [NilNode]));
    Ok (hash_done enc db)
  | extNode key c =>
    '(c, db) ← hashRec c db;
    '(sz, key) ← hexToCompactInPlace key;
    k ← slice key 0 sz;
    enc ← nodeToBytes (RawShortNode k (child_node (st_val c)));
    Ok (hash_done enc db)
  | leafNode key val =>
    '(sz, key) ← hexToCompactInPlace (key ++ [16]);
    k ← slice key 0 sz;
    enc ← nodeToBytes (RawShortNode k (ValueNode val));
    Ok (hash_done enc db)
  end.

(** The loop over the elder siblings: the nearest one is hashed. *)
Fixpoint hash_elder (i : nat) (cs : list (option StackTrie)) (db : writer) : res (list (option StackTrie) * writer) :=
  match i with
  | O => Ok (cs, db)
  | S i =>
    match cs !! i with
    | None => Panic PanicIndex
    | Some None => hash_elder i cs db
    | Some (Some c) =>
      if is_hashed c then Ok (cs, db)
      else '(c, db) ← hashRec c db; Ok (<[i := Some c]> cs, db)
    end
  end.

(** The two branches of a split: the original part, hashed, and the new leaf;
    what the keys share stays above them. *)
Definition st_split (stkey key value : bytes) (diffidx : Z) (n : StackTrie) : res StackTrie :=
  let d := Z.to_nat diffidx in
  let o := newLeaf (drop (S d) key) value in
  origIdx ← nth_or_panic stkey diffidx;
  newIdx ← nth_or_panic key diffidx;
  cs ← st_set (replicate 16 None) origIdx n;
  cs ← st_set cs newIdx o;
  Ok (if diffidx =? 0 then branchNode cs else extNode (take d stkey) (branchNode cs)).

Fixpoint st_insert (st : StackTrie) (key value : bytes) (db : writer) : res (StackTrie * writer) :=
  match st with
  | branchNode cs =>
    idx ← nth_or_panic key 0;
    '(cs', db) ← hash_elder (Z.to_nat idx) cs db;
    let key' := drop 1 key in
    f ← nth_or_panic (map (fun c =>
          match c with
          | None => fun db => Ok (newLeaf key' value, db)
          | Some c => st_insert c key' value
          end) cs) idx;
    '(c, db) ← f db;
    cs' ← st_set cs' idx c;
    Ok (branchNode cs', db)
  | extNode stkey c =>
    diffidx ← getDiffIndex stkey key;
    let d := Z.to_nat diffidx in
    if diffidx =? zlen stkey then
      '(c, db) ← st_insert c (drop d key) value db; Ok (extNode stkey c, db)
    else
      let n := if diffidx <? zlen stkey - 1 then newExt (drop (S d) stkey) c else c in
      '(n, db) ← hashRec n db;
      st ← st_split stkey key value diffidx n; Ok (st, db)
  | leafNode stkey val =>
    diffidx ← getDiffIndex stkey key;
    let d := Z.to_nat diffidx in
    if diffidx >=? zlen stkey then Panic PanicNode
    else
      '(n, db) ← hashRec (newLeaf (drop (S d) stkey) val) db;
      st ← st_split stkey key value diffidx n; Ok (st, db)
  | emptyNode => Ok (leafNode key value, db)
  | hashedNode _ => Panic PanicNode
  end.

Definition st_TryUpdate (key value : bytes) (st : StackTrie) (db : writer) : res (StackTrie * writer) :=
  let k := keybytesToHex key in
  if zlen value =? 0 then Panic PanicNode
  else k ← slice k 0 (zlen k - 1); st_insert st k value db.

(** [Hash]: a root shorter than a hash is hashed anyway. *)
Definition st_Hash (st : StackTrie) (db : writer) : res (Hash * StackTrie * writer) :=
  '(st, db) ← hashRec st db;
  if zlen (st_val st) =? 32 then Ok (BytesToHash (st_val st), st, db)
  else Ok (BytesToHash (hashData (st_val st)), st, db).

(** [Commit]: [None] is the error "no database for committing". *)
Definition st_Commit (st : StackTrie) (db : writer) : res (option Hash * StackTrie * writer) :=
  match db with
  | None => Ok (None, st, db)
  | Some _ =>
    '(st, db) ← hashRec st db;
    if zlen (st_val st) =? 32 then Ok (Some (BytesToHash (st_val st)), st, db)
    else let h := hashData (st_val st) in
         Ok (Some (BytesToHash h), st, option_map (<[h := st_val st]>) db)
  end.
End stack_trie.

(** ** Hashing lists *)

(** [TrieHasher]: what [DeriveSha] needs; the state is passed explicitly. *)
Class TrieHasher (T : Type) := {
  th_Reset : T;
  th_Update : bytes -> bytes -> T -> res T;
  th_Hash : T -> res (Hash * T);
}.

Section derive.
Context `{TrieHasher T}.

(** [AppendUint64(indexBuf[:0], i)] and [Update] with the [i]-th element. *)
Definition derive_step (l : list bytes) (h : T) (i : nat) : res T :=
  value ← nth_or_panic l (Z.of_nat i);
  th_Update (AppendUint64 [] (Z.of_nat i)) value h.

Fixpoint derive_steps (l : list bytes) (ixs : list nat) (h : T) : res T :=
  match ixs with [] => Ok h | i :: r => h ← derive_step l h i; derive_steps l r h end.

(** The three loops; [l] is the encodings [EncodeIndex] writes. *)
Definition DeriveSha (l : list bytes) : res Hash :=
  let n := length l in
  h ← derive_steps l (seq 1 (Nat.min n 128 - 1)) th_Reset;
  h ← (if bool_decide (0 < n)%nat then derive_step l h 0 else Ok h);
  h ← derive_steps l (seq 128 (n - 128)) h;
  '(hash, _) ← th_Hash h; Ok hash.
End derive.

(** Both tries are such hashers. *)
#[export] Instance stack_hasher `{Crypto} : TrieHasher (StackTrie * writer) := {|
  th_Reset := (NewStackTrie, None);
  th_Update k v := fun '(st, db) => st_TryUpdate k v st db;
  th_Hash := fun '(st, db) => '(h, st, db) ← st_Hash st db; Ok (h, (st, db));
|}.

#[export] Instance trie_hasher `{Crypto} `{NodeReader} : TrieHasher Trie := {|
  th_Reset := mkTrie NilNode 0 0;
  th_Update k v := fun t => Update t k v;
  th_Hash := Hash_;
|}.
