(* ===== verification/StackTrieSpec.v ===== *)
(** * The stack trie computes the root hash of the trie

    [srepr] relates a stack trie with the tree it has built so far; [opened] says
    that the way to the greatest key has not been hashed yet.  Keys that arrive
    in increasing order, none a prefix of another, keep both, and the final hash
    is the root hash of the trie with the same contents. *)

From Stdlib Require Import Sorting.Sorted.
From S2P Require Import Prelude Common TrieEncoding Rlp RlpSpec EvmState Trie TrieSpec TrieOps TrieHash TrieDecode.
From S2P Require Import TrieTheorems StackTrie.

Local Open Scope Z_scope.

(** ** Writing raw nodes *)

(** The node, or the empty string for nil, is written as [e]. *)
Definition node_writes (n : node) (e : bytes) : Prop :=
  exists s, writes e s (fun w => if is_nil n then Ok (Enc.append w [128]) else node_encode n w).

Lemma node_writes_string n b : n = HashNode b \/ n = ValueNode b -> node_writes n (encode_bytes b).
Proof.
  intros Hn. exists (encode_bytes b). apply append_writes. intros w. rewrite <- writeBytes_append.
  by destruct Hn as [->| ->].
Qed.

Lemma node_writes_raw b : node_writes (RawNode b) b.
Proof. exists b. by apply append_writes. Qed.

Lemma node_writes_nil : node_writes NilNode (encode_bytes []).
Proof. exists [128]. by apply append_writes. Qed.

Lemma writes_ext e s f g : (forall b, f b = g b) -> writes e s f -> writes e s g.
Proof. intros Hfg Hw b. rewrite <- Hfg. apply Hw. Qed.

Lemma node_writes_short k v e : node_writes v e -> zlen (encode_bytes k ++ e) < 2 ^ 63 ->
  node_writes (RawShortNode k v) (puthead 192 247 (zlen (encode_bytes k ++ e)) ++ encode_bytes k ++ e).
Proof.
  intros [s Hv] Hl. eexists. eapply writes_ext; [|apply (writes_list _ _ _ (writes_app _ _ _ _ _ _
    (append_writes (encode_bytes k) (fun w => Ok (Enc.writeBytes k w)) (fun w => f_equal Ok (writeBytes_append k w))) Hv)); done].
  intros b. cbn [is_nil node_encode]. by destruct (Enc.list b).
Qed.

Fixpoint encode_nodes (ns : list node) (w : encBuffer) : res encBuffer :=
  match ns with
  | [] => Ok w
  | c :: r => w ← (if is_nil c then Ok (Enc.append w [128]) else node_encode c w); encode_nodes r w
  end.

Lemma node_writes_list ns es : Forall2 node_writes ns es ->
  exists s, writes (concat es) s (encode_nodes ns).
Proof.
  induction 1 as [|n e ns es [s Hn] Hf [s' IH]].
  - exists []. eapply writes_ext; [|apply (append_writes [] (fun b => Ok (Enc.append b [])))]; [|done].
    intros b. unfold Enc.append. rewrite app_nil_r. by destruct b.
  - exists (s ++ s'). cbn [concat encode_nodes]. apply (writes_app _ _ _ _ _ _ Hn IH).
Qed.

Lemma node_writes_full ns es : Forall2 node_writes ns es -> zlen (concat es) < 2 ^ 63 ->
  node_writes (RawFullNode ns) (puthead 192 247 (zlen (concat es)) ++ concat es).
Proof.
  intros Hf Hl. destruct (node_writes_list ns es Hf) as [s Hw]. eexists.
  eapply writes_ext; [|apply (writes_list _ _ _ Hw); done]. intros b. by destruct (Enc.list b).
Qed.

Lemma nodeToBytes_writes n e : node_writes n e -> is_nil n = false -> nodeToBytes n = Ok e.
Proof.
  intros [s Hw] Hn. apply (makeBytes_writes e s). eapply writes_ext; [|exact Hw]. intros b. by rewrite Hn.
Qed.

(** ** Representation *)

Section spec.
Context `{Crypto}.

(** What a hashed node keeps of its tree. *)
Definition sref (t : tree) : bytes := if big t then thash t else tenc t.

Inductive srepr : StackTrie -> tree -> Prop :=
| sr_leaf k v : srepr (leafNode k v) (TShort (k ++ [16]) (TVal v))
| sr_ext k c ts : srepr c (TFull ts) -> srepr (extNode k c) (TShort k (TFull ts))
| sr_branch cs ts : length cs = 16%nat -> length ts = 17%nat -> ts !! 16%nat = Some TNil ->
    (forall i, (i < 16)%nat -> cs !! i = Some None <-> ts !! i = Some TNil) ->
    (forall i c t, cs !! i = Some (Some c) -> ts !! i = Some t -> srepr c t) ->
    srepr (branchNode cs) (TFull ts)
| sr_hashed t : srepr (hashedNode (sref t)) t.

Inductive opened : StackTrie -> Prop :=
| op_leaf k v : opened (leafNode k v)
| op_ext k c : opened c -> opened (extNode k c)
| op_branch cs i c : cs !! i = Some (Some c) -> opened c ->
    (forall j d, (i < j)%nat -> cs !! j = Some d -> d = None) -> opened (branchNode cs).

Lemma node_writes_child t : canon t -> node_writes (child_node (sref t)) (encode (tref t)).
Proof.
  intros Hc. assert (Hb : is_branch t = true) by by destruct Hc. unfold child_node, sref.
  destruct (tref_cases t) as [[Hbig ->]|[Hbig ->]]; rewrite Hbig.
  - unfold thash. rewrite zlen_hashData. apply node_writes_string. by left.
  - unfold big in Hbig. rewrite Hb in Hbig. cbn [andb] in Hbig.
    destruct (Z.ltb_spec (zlen (tenc t)) 32); [|destruct (Z.leb_spec 32 (zlen (tenc t))); [done|lia]].
    apply node_writes_raw.
Qed.

Lemma hash_done_ref t db : is_branch t = true -> exists db', hash_done (tenc t) db = (hashedNode (sref t), db').
Proof.
  intros Hb. unfold hash_done, sref, big, thash. rewrite Hb. cbn [andb].
  destruct (Z.ltb_spec (zlen (tenc t)) 32), (Z.leb_spec 32 (zlen (tenc t))); try lia; by eexists.
Qed.

Lemma compact_in_place b ns : nibbles ns -> with_term b ns <> [] ->
  exists sz buf, hexToCompactInPlace (with_term b ns) = Ok (sz, buf) /\
    slice buf 0 sz = Ok (compact_key (with_term b ns)).
Proof.
  intros Hn Hne. destruct (hexToCompactInPlace_spec b ns Hn Hne) as (buf & E & Ht). do 2 eexists. split; [exact E|].
  rewrite compact_key_with_term by done. unfold slice. rewrite bool_decide_true.
  - f_equal. rewrite Z.sub_0_r. cbn [Z.to_nat drop]. unfold zlen. by rewrite Nat2Z.id.
  - pose proof (zlen_nonneg (compact b ns)). split_and!; [lia | lia |].
    apply (f_equal length) in Ht. rewrite length_take in Ht. unfold zlen. lia.
Qed.

(** The list of a node lies below the limits of the encoder. *)
Lemma struct_length l : zlen (encode (IStruct l)) < 2 ^ 63 -> zlen (flat_map encode l) < 2 ^ 63.
Proof. cbn [encode]. rewrite zlen_app. pose proof (zlen_nonneg (puthead 192 247 (zlen (flat_map encode l)))). lia. Qed.

Lemma short_bytes k c v : sized (TShort k c) -> node_writes v (encode (tref c)) ->
  nodeToBytes (RawShortNode (compact_key k) v) = Ok (tenc (TShort k c)).
Proof.
  intros Hs Hv. apply nodeToBytes_writes; [|done]. destruct (titem_ok _ Hs) as [_ Hl].
  unfold tenc in *. cbn [titem] in *. fold (tref c) in *. apply struct_length in Hl.
  cbn [flat_map encode] in *. rewrite app_nil_r in *. by apply node_writes_short.
Qed.

Lemma full_bytes ts ns : sized (TFull ts) -> Forall2 (fun n t => node_writes n (encode (tref t))) ns ts ->
  nodeToBytes (RawFullNode ns) = Ok (tenc (TFull ts)).
Proof.
  intros Hs Hf. apply nodeToBytes_writes; [|done]. destruct (titem_ok _ Hs) as [_ Hl].
  unfold tenc in *. change (titem (TFull ts)) with (IStruct (map tref ts)) in *.
  apply struct_length in Hl. cbn [encode]. rewrite flat_map_concat_map, map_map in *.
  apply node_writes_full; [|done]. by apply Forall2_fmap_r.
Qed.

(** ** Hashing *)

Definition hashes (st : StackTrie) (t : tree) : Prop :=
  forall db, exists db', hashRec st db = Ok (hashedNode (sref t), db').

Definition hash_children := fix go (cs : list (option StackTrie)) (db : writer) : res (list node * writer) :=
  match cs with
  | [] => Ok ([], db)
  | None :: r => '(ns, db) ← go r db; Ok (ValueNode [] :: ns, db)
  | Some c :: r =>
    '(c, db) ← hashRec c db;
    '(ns, db) ← go r db; Ok (child_node (st_val c) :: ns, db)
  end.

Lemma hash_children_spec cs : forall ts db, length cs = length ts ->
  (forall i t, cs !! i = Some None -> ts !! i = Some t -> t = TNil) ->
  (forall i c t, cs !! i = Some (Some c) -> ts !! i = Some t -> canon t /\ hashes c t) ->
  exists ns db', hash_children cs db = Ok (ns, db') /\ Forall2 (fun n t => node_writes n (encode (tref t))) ns ts.
Proof.
  induction cs as [|[c|] cs IH]; intros [|t ts] db Hl Hn Hc; try done.
  - by exists [], db.
  - destruct (Hc 0%nat c t eq_refl eq_refl) as [Hct Hh]. destruct (Hh db) as [db1 E].
    destruct (IH ts db1) as (ns & db2 & E2 & Hf); [by injection Hl | intros i; apply (Hn (S i)) | intros i; apply (Hc (S i)) |].
    do 2 eexists. split; [cbn [hash_children]; rewrite E; cbn [mbind res_bind]; fold hash_children; rewrite E2; done|].
    constructor; [|done]. by apply node_writes_child.
  - rewrite (Hn 0%nat t eq_refl eq_refl).
    destruct (IH ts db) as (ns & db2 & E2 & Hf); [by injection Hl | intros i; apply (Hn (S i)) | intros i; apply (Hc (S i)) |].
    do 2 eexists. split; [cbn [hash_children]; fold hash_children; rewrite E2; done|].
    constructor; [|done]. apply node_writes_string. by right.
Qed.

Lemma hashRec_spec st t : srepr st t -> canon t -> sized t -> hashes st t.
Proof.
  induction 1 as [k v|k c ts Hr IH|cs ts Hlc Hlt H16 Hnil Hr IH|t]; intros Hc Hs db.
  - inversion Hc as [ns w Hns Hw E1| |]; subst. apply app_inj_tail in E1 as [-> _].
    destruct (compact_in_place true k Hns) as (sz & buf & E & Esl); [by destruct k|].
    cbn [hashRec]. cbn [with_term] in E, Esl. rewrite E. cbn [mbind res_bind]. rewrite Esl. cbn [mbind res_bind].
    rewrite (short_bytes _ (TVal v)); [|done|apply node_writes_string; by right]. cbn [mbind res_bind].
    destruct (hash_done_ref (TShort (k ++ [16]) (TVal v)) db eq_refl) as [db' ->]. by eexists.
  - inversion Hc as [| ? ? Hns Hne Hcf |]; subst. destruct (IH Hcf (sized_below _ _ Hs) db) as [db1 E1].
    destruct (compact_in_place false k Hns) as (sz & buf & E & Esl); [done|].
    cbn [hashRec]. rewrite E1. cbn [mbind res_bind]. cbn [with_term] in E, Esl. rewrite E. cbn [mbind res_bind].
    rewrite Esl. cbn [mbind res_bind st_val].
    rewrite (short_bytes _ (TFull ts)); [|done|by apply node_writes_child]. cbn [mbind res_bind].
    destruct (hash_done_ref (TShort k (TFull ts)) db1 eq_refl) as [db' ->]. by eexists.
  - assert (Hts : exists us, ts = us ++ [TNil] /\ length us = 16%nat).
    { exists (take 16 ts). split; [|rewrite length_take; lia].
      rewrite <- (take_S_r ts 16 TNil H16). by rewrite take_ge by lia. }
    destruct Hts as (us & -> & Hus).
    assert (Hin : forall i t, us !! i = Some t -> (us ++ [TNil]) !! i = Some t) by (intros; by apply lookup_app_l_Some).
    destruct (hash_children_spec cs us db) as (ns & db' & E & Hf); [lia | | |].
    { intros i t Ei Et. pose proof (lookup_lt_Some _ _ _ Et). rewrite (Hnil i) in Ei by lia.
      rewrite (Hin i t Et) in Ei. by injection Ei. }
    { intros i c t Ei Et. pose proof (lookup_lt_Some _ _ _ Et).
      assert (Htn : t <> TNil) by (intros ->; apply Hin, (Hnil i) in Et; [congruence | lia]).
      destruct (canon_child _ i t Hc (Hin i t Et) Htn) as [[_ Hct]|[? _]]; [|lia].
      split; [done|]. apply (IH i c t Ei (Hin i t Et) Hct). apply (sized_child _ _ Hs).
      eapply list_elem_of_lookup_2, Hin, Et. }
    cbn [hashRec]. fold hash_children. rewrite E. cbn [mbind res_bind].
    rewrite (full_bytes (us ++ [TNil])); [|done|]. 2: { apply Forall2_app; [done|]. constructor; [apply node_writes_nil | constructor]. }
    cbn [mbind res_bind]. destruct (hash_done_ref (TFull (us ++ [TNil])) db' eq_refl) as [db2 ->]. by eexists.
  - by exists db.
Qed.

(** ** Keys in order *)

(** [a] comes before [b], and neither is a prefix of the other. *)
Definition apart (a b : bytes) : Prop :=
  exists p x y ra rb, a = p ++ x :: ra /\ b = p ++ y :: rb /\ x < y.

(** Every key of the tree comes before [k]. *)
Definition after (k : bytes) (t : tree) : Prop := forall k' v, tlookup t k' = Some v -> apart k' k.

Lemma apart_cons x a y b : apart (x :: a) (y :: b) -> x < y \/ (x = y /\ apart a b).
Proof.
  intros ([|z p] & x' & y' & ra & rb & Ea & Eb & Hxy); cbn in Ea, Eb.
  - injection Ea as <- _. injection Eb as <- _. by left.
  - injection Ea as -> ->. injection Eb as -> ->. right. split; [done|]. by exists p, x', y', ra, rb.
Qed.

Lemma apart_app p a b : apart (p ++ a) (p ++ b) -> apart a b.
Proof. induction p as [|x p IH]; [done|]. intros [?|[_ Hab]]%apart_cons; [lia | by apply IH]. Qed.

(** A key that comes after some key with a prefix has the prefix or leaves it
    upwards. *)
Lemma apart_prefix p r k : apart (p ++ r) k ->
  (exists k', k = p ++ k') \/ exists q x y p' k', p = q ++ x :: p' /\ k = q ++ y :: k' /\ x < y.
Proof.
  intros (s & x & y & ra & rb & Ea & -> & Hxy). apply app_eq_inv in Ea as [(u & -> & Eu)|(u & -> & Eu)].
  - destruct u as [|z u]; [left; exists (y :: rb); by rewrite app_nil_r|]. cbn in Eu. injection Eu as <- _.
    right. by exists s, x, y, u, rb.
  - left. exists (u ++ y :: rb). by rewrite app_assoc.
Qed.

(** ** Where keys differ *)

Lemma getDiffIndex_from_spec s pre k :
  getDiffIndex_from (zlen pre) s (pre ++ k) =
  match s, k with
  | [], _ => Ok (zlen pre)
  | _ :: _, [] => Panic PanicIndex
  | x :: s', y :: k' => if x =? y then getDiffIndex_from (zlen (pre ++ [x])) s' ((pre ++ [x]) ++ k') else Ok (zlen pre)
  end.
Proof.
  destruct s as [|x s]; [done|]. cbn [getDiffIndex_from]. destruct k as [|y k].
  - rewrite app_nil_r. unfold nth_or_panic. rewrite bool_decide_true by apply zlen_nonneg.
    rewrite lookup_ge_None_2; [done|]. unfold zlen. lia.
  - rewrite nth_or_panic_mid by done. cbn [mbind res_bind]. destruct (Z.eqb_spec x y) as [->|]; cbn [negb]; [|done].
    rewrite zlen_app, <- app_assoc. done.
Qed.

Lemma getDiffIndex_same p k : getDiffIndex p (p ++ k) = Ok (zlen p).
Proof.
  assert (Hg : forall p pre, getDiffIndex_from (zlen pre) p (pre ++ p ++ k) = Ok (zlen (pre ++ p))); [|apply (Hg p [])].
  clear p. induction p as [|x p IH]; intros pre; rewrite getDiffIndex_from_spec; [by rewrite app_nil_r|].
  cbn [app]. rewrite Z.eqb_refl, (IH (pre ++ [x])), <- app_assoc. done.
Qed.

Lemma getDiffIndex_split q x p y k : x <> y -> getDiffIndex (q ++ x :: p) (q ++ y :: k) = Ok (zlen q).
Proof.
  intros Hxy. assert (Hg : forall q pre, getDiffIndex_from (zlen pre) (q ++ x :: p) (pre ++ q ++ y :: k) = Ok (zlen (pre ++ q)));
    [|apply (Hg q [])].
  clear q. induction q as [|z q IH]; intros pre; rewrite getDiffIndex_from_spec.
  - cbn [app]. destruct (Z.eqb_spec x y); [done|]. by rewrite app_nil_r.
  - cbn [app]. rewrite Z.eqb_refl, (IH (pre ++ [z])), <- app_assoc. done.
Qed.

(** ** Splitting *)

Definition leaf_tree (k v : bytes) : tree := TShort (k ++ [16]) (TVal v).

Lemma mk_short_leaf k v : mk_short (k ++ [16]) (TVal v) = leaf_tree k v.
Proof. by destruct k. Qed.

Lemma canon_leaf_tree k v : nibbles k -> v <> [] -> canon (leaf_tree k v).
Proof. by constructor. Qed.

Lemma st_set_at cs i c : 0 <= i < zlen cs -> st_set cs i c = Ok (<[Z.to_nat i := Some c]> cs).
Proof. intros Hi. unfold st_set. by rewrite bool_decide_true. Qed.

(** Two branches, the greater one open. *)
Lemma srepr_two x y n o a b : 0 <= x -> x < y -> y < 16 -> a <> TNil -> b <> TNil ->
  srepr n a -> srepr o b -> opened o ->
  let st := branchNode (<[Z.to_nat y := Some o]> (<[Z.to_nat x := Some n]> (replicate 16 None))) in
  srepr st (two_way (Z.to_nat x) a (Z.to_nat y) b) /\ opened st.
Proof.
  intros Hx Hxy Hy Ha Hb Hn Ho Hop. cbn zeta.
  set (i := Z.to_nat x). set (j := Z.to_nat y). assert (Hij : (i < j < 16)%nat) by (subst i j; lia).
  assert (Hcs : forall k, (k < 16)%nat -> <[j := Some o]> (<[i := Some n]> (replicate 16 None)) !! k =
            Some (if decide (k = j) then Some o else if decide (k = i) then Some n else None)).
  { intros k Hk. destruct (decide (k = j)) as [->|]; [by rewrite list_lookup_insert_eq by (rewrite length_insert, length_replicate; lia)|].
    rewrite list_lookup_insert_ne by lia. destruct (decide (k = i)) as [->|].
    - by rewrite list_lookup_insert_eq by (rewrite length_replicate; lia).
    - rewrite list_lookup_insert_ne by lia. by apply lookup_replicate_2. }
  assert (Hts : forall k, (k < 17)%nat -> <[j := b]> (<[i := a]> (replicate 17 TNil)) !! k =
            Some (if decide (k = j) then b else if decide (k = i) then a else TNil)).
  { intros k Hk. destruct (decide (k = j)) as [->|]; [by rewrite list_lookup_insert_eq by (rewrite length_insert, length_replicate; lia)|].
    rewrite list_lookup_insert_ne by lia. destruct (decide (k = i)) as [->|].
    - by rewrite list_lookup_insert_eq by (rewrite length_replicate; lia).
    - rewrite list_lookup_insert_ne by lia. by apply lookup_replicate_2. }
  split.
  - constructor.
    + by rewrite !length_insert, length_replicate.
    + by rewrite !length_insert, length_replicate.
    + rewrite Hts by lia. by rewrite !decide_False by lia.
    + intros k Hk. rewrite Hcs, Hts by lia. destruct (decide (k = j)), (decide (k = i)); split; congruence.
    + intros k c t Ec Et. assert (Hk : (k < 16)%nat).
      { apply lookup_lt_Some in Ec. by rewrite !length_insert, length_replicate in Ec. }
      rewrite Hcs in Ec by done. rewrite Hts in Et by lia. destruct (decide (k = j)), (decide (k = i)); by simplify_eq.
  - apply (op_branch _ j o); [rewrite Hcs by lia; by rewrite decide_True | done |].
    intros k d Hk Ed. assert (k < 16)%nat.
    { apply lookup_lt_Some in Ed. by rewrite !length_insert, length_replicate in Ed. }
    rewrite Hcs, !decide_False in Ed by lia. by injection Ed.
Qed.

Lemma st_split_spec q x s y k v a : 0 <= x -> x < y -> y < 16 -> canon a ->
  exists st, st_split (q ++ x :: s) (q ++ y :: k) v (zlen q) (hashedNode (sref a)) = Ok st /\ opened st /\
    (canon (two_way (Z.to_nat x) a (Z.to_nat y) (leaf_tree k v)) ->
     srepr st (mk_short q (two_way (Z.to_nat x) a (Z.to_nat y) (leaf_tree k v)))).
Proof.
  intros Hx Hxy Hy Ha. unfold st_split. rewrite !nth_or_panic_mid by done. cbn [mbind res_bind].
  rewrite st_set_at by (change (zlen (replicate 16 None)) with 16; lia). cbn [mbind res_bind].
  rewrite st_set_at by (unfold zlen; rewrite length_insert, length_replicate; lia). cbn [mbind res_bind].
  replace (drop (S (Z.to_nat (zlen q))) (q ++ y :: k)) with k
    by (unfold zlen; rewrite Nat2Z.id, drop_app_ge, Nat.sub_succ_l, Nat.sub_diag by lia; done).
  replace (take (Z.to_nat (zlen q)) (q ++ x :: s)) with q by (unfold zlen; by rewrite Nat2Z.id, take_app_length).
  destruct (srepr_two x y (hashedNode (sref a)) (newLeaf k v) a (leaf_tree k v)) as [Hr Ho];
    [done | done | done | by intros ->; inversion Ha | done | constructor | constructor | constructor |].
  destruct q as [|z q].
  - eexists. split; [done|]. split; [exact Ho|]. intros _. exact Hr.
  - rewrite zlen_pos. eexists. split; [done|]. split; [by constructor|]. intros _. unfold two_way. by constructor.
Qed.

(** The tree of a split short node. *)
Lemma split_tree q x p c y k v : canon (TShort (q ++ x :: p) c) -> nibbles k -> is_nibble y -> x < y -> v <> [] ->
  let br := two_way (Z.to_nat x) (mk_short p c) (Z.to_nat y) (leaf_tree k v) in
  0 <= x /\ canon (mk_short p c) /\ canon br /\ canon (mk_short q br) /\
  updated (mk_short q br) (TShort (q ++ x :: p) c) ((q ++ y :: k) ++ [16]) (Some v).
Proof.
  intros Hc Hk Hy Hxy Hv br. unfold is_nibble in Hy. destruct (tail_child_ok q x p c Hc) as [Hx Hxc].
  assert (Hx16 : x <> 16) by lia.
  assert (Hcp : canon (mk_short p c)) by (destruct Hxc as [[_ ?]|[? _]]; [done | lia]).
  assert (Hbr : canon br).
  { apply canon_two_way; [lia | done |]. left. split; [lia | by apply canon_leaf_tree]. }
  assert (Hq : nibbles q).
  { pose proof Hc as [_ [(w & ns & _ & _ & Hns & E)|(ts & Hns & _)]]%canon_short_cases.
    - destruct (hexkey_app_cons q x p) as [? _]; [by exists ns | done].
    - by apply nibbles_app in Hns as [? _]. }
  split_and!; [lia | done | done | by apply canon_mk_short |].
  replace (TShort (q ++ x :: p) c) with (mk_short (q ++ x :: p) c) by by destruct q.
  rewrite <- app_assoc. intros k'. rewrite mk_short_app. apply updated_mk_short.
  unfold br. rewrite <- mk_short_leaf. apply (updated_branch y (k ++ [16]) x p c v); lia.
Qed.

(** ** Insertion *)

Definition st_inserted (r : res (StackTrie * writer)) (t : tree) (k v : bytes) : Prop :=
  exists st db t', r = Ok (st, db) /\ srepr st t' /\ opened st /\ canon t' /\ updated t' t (k ++ [16]) (Some v).

Lemma srepr_branch_set cs ts i c t : srepr (branchNode cs) (TFull ts) -> (i < 16)%nat -> t <> TNil -> srepr c t ->
  srepr (branchNode (<[i := Some c]> cs)) (TFull (<[i := t]> ts)).
Proof.
  intros Hr Hi Hn Hc. inversion Hr as [| |? ? Hlc Hlt H16 Hnil Hch|]; subst.
  constructor; [by rewrite length_insert | by rewrite length_insert | by rewrite list_lookup_insert_ne by lia | |].
  - intros j Hj. destruct (decide (i = j)) as [<-|].
    + rewrite (list_lookup_insert_eq cs), (list_lookup_insert_eq ts) by lia. split; congruence.
    + rewrite (list_lookup_insert_ne cs), (list_lookup_insert_ne ts) by done. by apply Hnil.
  - intros j d u Ed Eu. destruct (decide (i = j)) as [<-|].
    + rewrite list_lookup_insert_eq in Ed by lia. rewrite list_lookup_insert_eq in Eu by lia. by simplify_eq.
    + rewrite list_lookup_insert_ne in Ed by done. rewrite list_lookup_insert_ne in Eu by done. eauto.
Qed.

(** A child of a branch and its tree. *)
Lemma srepr_child cs ts i c : srepr (branchNode cs) (TFull ts) -> canon (TFull ts) -> cs !! i = Some (Some c) ->
  exists t, ts !! i = Some t /\ srepr c t /\ canon t /\ (i < 16)%nat.
Proof.
  intros Hr Hc Ec. inversion Hr as [| |? ? Hlc Hlt H16 Hnil Hch|]; subst.
  pose proof (lookup_lt_Some _ _ _ Ec). destruct (lookup_lt_is_Some_2 ts i) as [t Et]; [lia|]. exists t.
  assert (Hn : t <> TNil) by (intros ->; apply (Hnil i) in Et; [congruence | lia]).
  destruct (canon_child ts i t Hc Et Hn) as [[? ?]|[? _]]; [|lia]. split_and!; [done | eauto | done | done].
Qed.

Lemma hash_elder_spec ts : canon (TFull ts) -> sized (TFull ts) -> forall i cs db, (i <= 16)%nat ->
  srepr (branchNode cs) (TFull ts) ->
  exists cs' db', hash_elder i cs db = Ok (cs', db') /\ srepr (branchNode cs') (TFull ts) /\
    length cs' = length cs /\ forall j, (i <= j)%nat -> cs' !! j = cs !! j.
Proof.
  intros Hc Hs. induction i as [|i IH]; intros cs db Hi Hr; [by exists cs, db|]. cbn [hash_elder].
  assert (Hlc : length cs = 16%nat) by by inversion Hr.
  destruct (lookup_lt_is_Some_2 cs i) as [[c|] Ec]; [lia | |]; rewrite Ec.
  - destruct (is_hashed c); [by exists cs, db|].
    destruct (srepr_child cs ts i c Hr Hc Ec) as (t & Et & Hrc & Hct & _).
    assert (Hst : sized t) by (apply (sized_child _ _ Hs); by eapply list_elem_of_lookup_2).
    destruct (hashRec_spec c t Hrc Hct Hst db) as [db' ->]. cbn [mbind res_bind].
    exists (<[i := Some (hashedNode (sref t))]> cs), db'. split_and!; [done | | by rewrite length_insert |].
    + rewrite <- (list_insert_id ts i t Et). apply srepr_branch_set; [done | lia | by intros ->; inversion Hct | constructor].
    + intros j Hj. by rewrite list_lookup_insert_ne by lia.
  - destruct (IH cs db ltac:(lia) Hr) as (cs' & db' & -> & Hr' & Hl & Hj). exists cs', db'.
    split_and!; [done | done | done |]. intros j Hj'. apply Hj. lia.
Qed.

Lemma inserted_branch cs ts : canon (TFull ts) -> sized (TFull ts) -> srepr (branchNode cs) (TFull ts) ->
  opened (branchNode cs) ->
  (forall i c t, cs !! i = Some (Some c) -> ts !! i = Some t -> opened c -> canon t -> sized t ->
     forall k v db, nibbles k -> v <> [] -> after k t -> st_inserted (st_insert c k v db) t k v) ->
  forall k v db, nibbles k -> v <> [] -> after k (TFull ts) -> st_inserted (st_insert (branchNode cs) k v db) (TFull ts) k v.
Proof.
  intros Hc Hs Hr Hop IH k v db Hk Hv Ha. assert (Hlc : length cs = 16%nat) by by inversion Hr.
  assert (Hlt : length ts = 17%nat) by by inversion Hr.
  inversion Hop as [| |? L c Ec Hoc Hlast]; subst.
  destruct (srepr_child cs ts L c Hr Hc Ec) as (t & Et & Hrc & Hct & HL).
  destruct (canon_inhabited t Hct) as (r & w & Hrw).
  assert (Hap : apart (Z.of_nat L :: r) k) by (apply (Ha _ w); by rewrite (tlookup_child _ _ t)).
  destruct k as [|y k]; [by destruct Hap as ([|? ?] & ? & ? & ? & ? & _ & ? & _)|].
  apply Forall_cons in Hk as [Hy Hk]. unfold is_nibble in Hy.
  destruct (hash_elder_spec ts Hc Hs (Z.to_nat y) cs db ltac:(lia) Hr) as (cs' & db1 & E & Hr' & Hl' & Hj).
  cbn [st_insert]. change (nth_or_panic (y :: k) 0) with (Ok y). cbn [mbind res_bind]. rewrite E. cbn [mbind res_bind].
  change (drop 1 (y :: k)) with k.
  (* the rest, once the child has been inserted into *)
  assert (Hfin : forall f (u : tree), ts !! Z.to_nat y = Some u ->
    nth_or_panic (map (fun c => match c with None => fun db => Ok (newLeaf k v, db) | Some c => st_insert c k v end) cs) y = Ok f ->
    st_inserted (f db1) u k v -> (L <= Z.to_nat y)%nat ->
    st_inserted (f ← nth_or_panic (map (fun c => match c with None => fun db => Ok (newLeaf k v, db) | Some c => st_insert c k v end) cs) y;
      '(c, db) ← f db1; cs' ← st_set cs' y c; Ok (branchNode cs', db)) (TFull ts) (y :: k) v).
  { intros f u Eu -> (st & db2 & t' & Ef & Hrt & Hot & Hct' & Hu) HLy. cbn [mbind res_bind]. rewrite Ef. cbn [mbind res_bind].
    rewrite st_set_at by (unfold zlen; lia). cbn [mbind res_bind].
    do 2 eexists. exists (TFull (<[Z.to_nat y := t']> ts)). split; [done|]. split_and!.
    - apply srepr_branch_set; [done | lia | by intros ->; inversion Hct' | done].
    - apply (op_branch _ (Z.to_nat y) st); [by rewrite list_lookup_insert_eq by lia | done |].
      intros j d Hjy Ed. rewrite list_lookup_insert_ne, Hj in Ed by lia. apply (Hlast j d); [lia | done].
    - apply canon_full_set; [done | lia |]. left. split; [lia | done].
    - pose proof (updated_full ts _ u t' (k ++ [16]) _ Eu Hu) as Hup. by rewrite Z2Nat.id in Hup by lia. }
  apply apart_cons in Hap as [HLt|[HLe _]].
  - (* a new child after the last one *)
    destruct (lookup_lt_is_Some_2 cs (Z.to_nat y)) as [d Ed]; [lia|].
    assert (d = None) as -> by (eapply Hlast; [|done]; lia).
    assert (Etn : ts !! Z.to_nat y = Some TNil).
    { inversion Hr as [| |? ? _ _ _ Hnil _|]; subst. apply Hnil; [lia | done]. }
    apply (Hfin (fun db => Ok (newLeaf k v, db)) TNil); [done | | | lia].
    { apply nth_or_panic_at; [lia|]. change (map ?f cs) with (f <$> cs). by rewrite list_lookup_fmap, Ed. }
    exists (newLeaf k v), db1, (leaf_tree k v). split_and!; [done | constructor | constructor | by apply canon_leaf_tree |].
    rewrite <- mk_short_leaf. apply updated_leaf.
  - (* the last child *)
    assert (Z.to_nat y = L) as HyL by lia. apply (Hfin (st_insert c k v) t); [by rewrite HyL | | | lia].
    { apply nth_or_panic_at; [lia|]. change (map ?f cs) with (f <$> cs). by rewrite list_lookup_fmap, HyL, Ec. }
    apply (IH L c t); [done | done | done | done | | done | done |].
    { apply (sized_child _ _ Hs). by eapply list_elem_of_lookup_2. }
    intros k' w' Hk'. assert (Hap : apart (Z.of_nat L :: k') (y :: k)) by (apply (Ha _ w'); by rewrite (tlookup_child _ _ t)).
    apply apart_cons in Hap as [?|[_ ?]]; [lia | done].
Qed.

(** The keys below a short node come after its key. *)
Lemma after_short p c k : canon (TShort p c) -> after k (TShort p c) ->
  (exists k', k = p ++ k' /\ after k' c) \/ exists q x y p' k', p = q ++ x :: p' /\ k = q ++ y :: k' /\ x < y.
Proof.
  intros Hc Ha. destruct (canon_short_avoid _ _ 0 Hc) as (r & v & Hr & _).
  destruct (apart_prefix p r k) as [(k' & ->)|Hd]; [apply (Ha _ v); by rewrite tlookup_short_app | | by right].
  left. exists k'. split; [done|]. intros s w Hs. apply (apart_app p), (Ha _ w). by rewrite tlookup_short_app.
Qed.

Lemma inserted_ext p c ts k v db : canon (TShort p (TFull ts)) -> sized (TShort p (TFull ts)) ->
  srepr c (TFull ts) -> opened c -> nibbles k -> v <> [] -> after k (TShort p (TFull ts)) ->
  (forall k' db, nibbles k' -> after k' (TFull ts) -> st_inserted (st_insert c k' v db) (TFull ts) k' v) ->
  st_inserted (st_insert (extNode p c) k v db) (TShort p (TFull ts)) k v.
Proof.
  intros Hc Hs Hr Ho Hk Hv Ha IH. assert (Hp : p <> []) by by apply canon_short_cases in Hc as [? _].
  cbn [st_insert]. destruct (after_short p _ k Hc Ha) as [(k' & -> & Ha')|(q & x & y & p' & k' & -> & -> & Hxy)].
  - rewrite getDiffIndex_same. cbn [mbind res_bind]. rewrite Z.eqb_refl.
    replace (drop (Z.to_nat (zlen p)) (p ++ k')) with k' by (unfold zlen; by rewrite Nat2Z.id, drop_app_length).
    apply nibbles_app in Hk as [_ Hk]. destruct (IH k' db Hk Ha') as (st & db' & t' & -> & Hr' & Ho' & Hc' & Hu).
    cbn [mbind res_bind]. inversion Hc as [|? ? Hns _ Hcf|]; subst.
    destruct (canon_stays_full ts t' Hcf Hc') as [ts' ->]; [by eapply updated_keys|].
    do 2 eexists. exists (TShort p (TFull ts')). split; [done|]. split_and!; [by constructor | by constructor | by constructor |].
    rewrite <- app_assoc. by apply updated_short.
  - apply nibbles_app in Hk as [Hq [Hy Hk]%Forall_cons].
    destruct (split_tree q x p' _ y k' v Hc Hk Hy Hxy Hv) as (Hx & Hcp & Hbr & Hcb & Hu). unfold is_nibble in Hy.
    rewrite getDiffIndex_split by lia. cbn [mbind res_bind].
    rewrite !zlen_app, !zlen_cons. pose proof (zlen_nonneg p').
    destruct (Z.eqb_spec (zlen q) (zlen q + (1 + zlen p'))) as [|_]; [lia|].
    assert (Hn : exists n, (if zlen q <? zlen q + (1 + zlen p') - 1 then newExt (drop (S (Z.to_nat (zlen q))) (q ++ x :: p')) c else c) = n /\
      srepr n (mk_short p' (TFull ts))).
    { eexists. split; [done|]. replace (drop (S (Z.to_nat (zlen q))) (q ++ x :: p')) with p'
        by (unfold zlen; rewrite Nat2Z.id, drop_app_ge, Nat.sub_succ_l, Nat.sub_diag by lia; done).
      destruct p' as [|z p'].
      - change (zlen []) with 0. by destruct (Z.ltb_spec (zlen q) (zlen q + (1 + 0) - 1)); [lia|].
      - rewrite zlen_cons in *. pose proof (zlen_nonneg p').
        destruct (Z.ltb_spec (zlen q) (zlen q + (1 + (1 + zlen p')) - 1)); [by constructor | lia]. }
    destruct Hn as (n & -> & Hrn).
    assert (Hsn : sized (mk_short p' (TFull ts))).
    { inversion Hs as [| | |? ? Hns Hl Hsf|]; subst. apply nibbles_app in Hns as [_ [_ Hns]%Forall_cons].
      rewrite zlen_app, zlen_cons in Hl. pose proof (zlen_nonneg q). destruct p'; [done|]. constructor; [done | lia | done]. }
    destruct (hashRec_spec n _ Hrn Hcp Hsn db) as [db' ->]. cbn [mbind res_bind].
    destruct (st_split_spec q x p' y k' v _ Hx Hxy ltac:(lia) Hcp) as (st & -> & Hst & Hsr). cbn [mbind res_bind].
    do 3 eexists. split; [done|]. split_and!; [by apply Hsr | done | done | exact Hu].
Qed.

Lemma inserted_leaf p w k v db : canon (leaf_tree p w) -> sized (leaf_tree p w) -> nibbles k -> v <> [] ->
  after k (leaf_tree p w) -> st_inserted (st_insert (leafNode p w) k v db) (leaf_tree p w) k v.
Proof.
  intros Hc Hs Hk Hv Ha. cbn [st_insert].
  destruct (after_short _ _ k Hc Ha) as [(k' & -> & _)|(q & x & y & p1 & k' & E & -> & Hxy)].
  { apply nibbles_app in Hk as [[_ [H16 _]%Forall_cons]%nibbles_app _]. by apply nibble_not_term in H16. }
  apply nibbles_app in Hk as [Hq [Hy Hk]%Forall_cons]. pose proof Hy as Hy'. unfold is_nibble in Hy'.
  assert (Hp1 : exists p', p1 = p' ++ [16] /\ p = q ++ x :: p').
  { destruct p1 as [|z p' _] using rev_ind; [apply app_inj_tail in E as [_ <-]; lia|]. exists p'.
    change (q ++ x :: p' ++ [z]) with (q ++ (x :: p') ++ [z]) in E. rewrite app_assoc in E.
    apply app_inj_tail in E as [-> <-]. done. }
  destruct Hp1 as (p' & -> & ->). unfold leaf_tree in Hc. rewrite E in Hc.
  destruct (split_tree q x (p' ++ [16]) _ y k' v Hc Hk Hy Hxy Hv) as (Hx & Hcp & Hbr & Hcb & Hu).
  rewrite mk_short_leaf in *. rewrite getDiffIndex_split by lia. cbn [mbind res_bind].
  rewrite zlen_app, zlen_cons. pose proof (zlen_nonneg p').
  destruct (Z.geb_spec (zlen q) (zlen q + (1 + zlen p'))); [lia|].
  replace (drop (S (Z.to_nat (zlen q))) (q ++ x :: p')) with p'
    by (unfold zlen; rewrite Nat2Z.id, drop_app_ge, Nat.sub_succ_l, Nat.sub_diag by lia; done).
  assert (Hsn : sized (leaf_tree p' w)).
  { inversion Hs as [| |? ? Hns Hl Hvw E1| |]; subst. apply app_inj_tail in E1 as [-> _].
    apply nibbles_app in Hns as [_ [_ Hns]%Forall_cons]. rewrite zlen_app, zlen_cons in Hl. pose proof (zlen_nonneg q).
    constructor; [done | lia | done]. }
  destruct (hashRec_spec (newLeaf p' w) (leaf_tree p' w) (sr_leaf p' w) Hcp Hsn db) as [db' ->]. cbn [mbind res_bind].
  destruct (st_split_spec q x p' y k' v _ Hx Hxy ltac:(lia) Hcp) as (st & -> & Hst & Hsr). cbn [mbind res_bind].
  do 3 eexists. split; [done|]. split_and!; [by apply Hsr | done | done |].
  replace (leaf_tree (q ++ x :: p') w) with (TShort (q ++ x :: p' ++ [16]) (TVal w)) by (unfold leaf_tree; by rewrite E).
  exact Hu.
Qed.

Lemma st_insert_spec st t : srepr st t -> opened st -> canon t -> sized t -> forall k v db,
  nibbles k -> v <> [] -> after k t -> st_inserted (st_insert st k v db) t k v.
Proof.
  induction 1 as [p w|p c ts Hr IH|cs ts Hlc Hlt H16 Hnil Hr IH|t]; intros Ho Hc Hs k v db Hk Hv Ha.
  - by apply inserted_leaf.
  - assert (Hoc : opened c) by by inversion Ho. assert (Hcc : canon (TFull ts)) by by inversion Hc.
    apply inserted_ext; try done.
    intros k' db' Hk' Ha'. apply IH; [done | done | by eapply sized_below | done | done | done].
  - apply inserted_branch; try done. by constructor.
  - inversion Ho.
Qed.

(** ** Sequences of insertions *)

(** A key and its value; the keys come in increasing order. *)
Definition kvs_ok (kvs : list (bytes * bytes)) : Prop :=
  Forall (fun '(k, v) => wf_bytes k /\ zlen k < 2 ^ 31 /\ v <> [] /\ value_ok v) kvs /\
  StronglySorted (fun a b => apart a.1 b.1) kvs.

Fixpoint st_updates (kvs : list (bytes * bytes)) (st : StackTrie) (db : writer) : res (StackTrie * writer) :=
  match kvs with
  | [] => Ok (st, db)
  | (k, v) :: r => '(st, db) ← st_TryUpdate k v st db; st_updates r st db
  end.

(** The stack trie has built the tree of a map, whose keys all come before the
    next ones. *)
Definition builds (st : StackTrie) (m : gmap bytes bytes) : Prop :=
  (st = emptyNode /\ m = ∅) \/
  exists t, srepr st t /\ opened st /\ canon t /\ holds t m.

Lemma apart_nibbles x y : 0 <= x < 256 -> 0 <= y < 256 -> x < y ->
  x / 16 < y / 16 \/ (x / 16 = y / 16 /\ x mod 16 < y mod 16).
Proof. intros. pose proof (Z.div_mod x 16). pose proof (Z.div_mod y 16). dlia. Qed.

Lemma apart_unpack a b : wf_bytes a -> wf_bytes b -> apart a b -> apart (unpack a) (unpack b).
Proof.
  intros Ha Hb (p & x & y & ra & rb & -> & -> & Hxy).
  apply Forall_app in Ha as [_ [Hx _]%Forall_cons]. apply Forall_app in Hb as [_ [Hy _]%Forall_cons].
  unfold unpack. rewrite !flat_map_app. cbn [flat_map app].
  destruct (apart_nibbles x y Hx Hy Hxy) as [Hlt|[Heq Hlt]].
  - by do 5 eexists; split_and!; [reflexivity | reflexivity |].
  - rewrite Heq. exists (flat_map (fun b => [b / 16; b mod 16]) p ++ [y / 16]).
    do 4 eexists. rewrite <- !app_assoc. by split_and!; [reflexivity | reflexivity |].
Qed.

Lemma apart_suffix a b s : apart a b -> apart (a ++ s) b.
Proof.
  intros (p & x & y & ra & rb & -> & -> & Hxy). exists p, x, y, (ra ++ s), rb.
  rewrite <- app_assoc. done.
Qed.

Lemma holds_after t m key : holds t m -> wf_bytes key ->
  (forall key' v, m !! key' = Some v -> apart key' key) -> after (unpack key) t.
Proof.
  intros [Hw Hm] Hk Ha k v E. apply Hm in E as (key' & -> & E). rewrite keybytesToHex_unpack. cbn [with_term].
  apply apart_suffix, apart_unpack; eauto.
Qed.

Lemma st_TryUpdate_spec st m db key v : builds st m -> bounded m -> wf_bytes key -> v <> [] ->
  (forall key' v, m !! key' = Some v -> apart key' key) ->
  exists st' db', st_TryUpdate key v st db = Ok (st', db') /\ builds st' (<[key := v]> m).
Proof.
  intros Hb Hbd Hk Hv Ha. unfold st_TryUpdate.
  destruct (Z.eqb_spec (zlen v) 0) as [E|_]; [by destruct v; [|rewrite zlen_cons in E; pose proof (zlen_nonneg v); lia]|].
  rewrite keybytesToHex_unpack. cbn [with_term]. rewrite zlen_app. change (zlen [16]) with 1.
  assert (Esl : slice (unpack key ++ [16]) 0 (zlen (unpack key) + 1 - 1) = Ok (unpack key)).
  { replace (zlen (unpack key) + 1 - 1) with (zlen (@nil Z) + zlen (unpack key)) by (change (zlen (@nil Z)) with 0; lia).
    apply (slice_mid [] (unpack key) [16]). }
  rewrite Esl. cbn [mbind res_bind]. pose proof (nibbles_unpack key Hk) as Hn.
  destruct Hb as [[-> ->]|(t & Hr & Ho & Hc & Hm)].
  - cbn [st_insert]. do 2 eexists. split; [done|]. right. exists (leaf_tree (unpack key) v).
    split_and!; [constructor | constructor | by apply canon_leaf_tree |].
    apply (holds_insert TNil); [apply holds_empty | done |]. rewrite <- mk_short_leaf. apply updated_leaf.
  - destruct (st_insert_spec st t Hr Ho Hc (holds_sized t m Hc Hm Hbd) (unpack key) v db Hn Hv (holds_after t m key Hm Hk Ha))
      as (st' & db' & t' & -> & Hr' & Ho' & Hc' & Hu).
    do 2 eexists. split; [done|]. right. exists t'. split_and!; [done | done | done |]. by apply (holds_insert t).
Qed.

Lemma kvs_ok_cons k v r : kvs_ok ((k, v) :: r) ->
  (wf_bytes k /\ zlen k < 2 ^ 31 /\ v <> [] /\ value_ok v) /\ kvs_ok r /\ Forall (fun kv => apart k kv.1) r.
Proof. intros [[? ?]%Forall_cons [? ?]%StronglySorted_inv]. done. Qed.

Lemma apart_neq a b : apart a b -> a <> b.
Proof. intros (p & x & y & ra & rb & -> & -> & Hxy) E. apply app_inv_head in E. injection E. lia. Qed.

Lemma kvs_fresh k r : Forall (fun kv : bytes * bytes => apart k kv.1) r -> list_to_map (M := gmap bytes bytes) r !! k = None.
Proof.
  intros Hf. apply not_elem_of_list_to_map_1. intros (kv & -> & Hkv)%list_elem_of_fmap.
  rewrite Forall_forall in Hf. by apply Hf, apart_neq in Hkv.
Qed.

Lemma bounded_insert m k v : bounded m -> zlen k < 2 ^ 31 -> value_ok v -> bounded (<[k := v]> m).
Proof. intros Hb Hk Hv k' v' [[<- <-]|[_ E]]%lookup_insert_Some; [done | by apply Hb]. Qed.

Lemma st_updates_spec kvs : forall st m db, kvs_ok kvs -> builds st m -> bounded m ->
  (forall key v, m !! key = Some v -> Forall (fun kv => apart key kv.1) kvs) ->
  exists st' db', st_updates kvs st db = Ok (st', db') /\ builds st' (list_to_map kvs ∪ m) /\
    bounded (list_to_map kvs ∪ m).
Proof.
  induction kvs as [|[k v] r IH]; intros st m db Hok Hb Hbd Ha.
  { exists st, db. cbn. by rewrite (left_id_L ∅ (∪)). }
  apply kvs_ok_cons in Hok as ((Hk & Hkl & Hv & Hvo) & Hok & Hlt). cbn [st_updates].
  destruct (st_TryUpdate_spec st m db k v Hb Hbd Hk Hv) as (st1 & db1 & -> & Hb1).
  { intros key w E. by apply Ha, Forall_cons in E as [? _]. }
  cbn [mbind res_bind].
  destruct (IH st1 (<[k := v]> m) db1 Hok Hb1 (bounded_insert m k v Hbd Hkl Hvo)) as (st2 & db2 & -> & Hb2 & Hbd2).
  { intros key w [[<- _]|[_ E]]%lookup_insert_Some; [done|]. by apply Ha, Forall_cons in E as [_ ?]. }
  do 2 eexists. split; [done|]. cbn [list_to_map]. change (list_to_map ((k, v) :: r)) with (<[k := v]> (list_to_map r : gmap bytes bytes)).
  rewrite <- insert_union_l, insert_union_r by by apply kvs_fresh. done.
Qed.

Lemma st_Hash_spec st m tr db : builds st m -> bounded m -> canon0 tr -> holds tr m ->
  exists st' db', st_Hash st db = Ok (root_hash tr, st', db').
Proof.
  intros Hb Hbd Hc Hm. unfold st_Hash. destruct Hb as [[-> ->]|(t & Hr & Ho & Hct & Hmt)].
  - rewrite (holds_unique tr TNil ∅ Hc (or_introl eq_refl) Hm holds_empty). cbn [hashRec mbind res_bind st_val].
    rewrite zlen_be_bytes. change (Z.of_nat 32 =? 32) with true. do 2 eexists. reflexivity.
  - rewrite (holds_unique tr t m Hc (or_intror Hct) Hm Hmt).
    assert (Hrh : root_hash t = BytesToHash (thash t)) by (destruct Hct; reflexivity).
    destruct (hashRec_spec st t Hr Hct (holds_sized t m Hct Hmt Hbd) db) as [db' ->]. cbn [mbind res_bind st_val].
    rewrite Hrh. unfold sref. destruct (big t) eqn:Hbig.
    + unfold thash. rewrite zlen_hashData. by do 2 eexists.
    + unfold big in Hbig. assert (Hbr : is_branch t = true) by by destruct Hct. rewrite Hbr in Hbig. cbn [andb] in Hbig. to_prop.
      destruct (Z.eqb_spec (zlen (tenc t)) 32) as [E|_]; [lia|]. by do 2 eexists.
Qed.

Context `{NodeReader}.

(** C10: The stack trie, which hashes every part of the tree as soon as
    no later key can reach it, computes the root hash of the trie: for keys in
    increasing order, none a prefix of another, and non-empty values, all
    insertions succeed, and the hash is that of any trie that holds the same
    bindings. *)
Theorem stack_trie_equals_trie kvs t db :
  kvs_ok kvs -> refines t (list_to_map kvs) ->
  exists h t' st db1 st' db2, Hash_ t = Ok (h, t') /\
    st_updates kvs NewStackTrie db = Ok (st, db1) /\ st_Hash st db1 = Ok (h, st', db2).
Proof.
  intros Hok (tr & Hr & Hc & Hm).
  destruct (st_updates_spec kvs NewStackTrie ∅ db Hok) as (st & db1 & E & Hb & Hbd); [by left | done | done |].
  rewrite (right_id_L ∅ (∪)) in Hb, Hbd.
  destruct (Trie_Hash_spec t _ tr Hr Hc Hm Hbd) as (t' & Eh & _).
  destruct (st_Hash_spec st _ tr db1 Hb Hbd Hc Hm) as (st' & db2 & Es).
  by exists (root_hash tr), t', st, db1, st', db2.
Qed.
End spec.
