(* ===== verification/DeriveShaSpec.v ===== *)
(** * The hash of a list ([DeriveSha] of [blockchain/model/hashing.go])

    The indices are inserted in the order of their RLP encodings (1 to 127, 0,
    128 and on), which is what the stack trie needs; the result is the root hash
    of the trie that maps the encoding of every index to its element. *)

From Stdlib Require Import Sorting.Sorted.
From S2P Require Import Prelude Common TrieEncoding Rlp RlpSpec EvmState Header Trie TrieSpec TrieOps TrieHash TrieDecode.
From S2P Require Import TrieTheorems StackTrie StackTrieSpec.

Local Open Scope Z_scope.

(** ** The order of the encodings *)

Lemma apart_head x a y b : x < y -> apart (x :: a) (y :: b).
Proof. intros Hxy. by exists [], x, y, a, b. Qed.

Lemma apart_tail x a b : apart a b -> apart (x :: a) (x :: b).
Proof. intros (p & y & z & ra & rb & -> & -> & Hyz). by exists (x :: p), y, z, ra, rb. Qed.

Lemma be_bytes_apart k a b : 0 <= a -> a < b -> b < 256 ^ Z.of_nat k -> apart (be_bytes k a) (be_bytes k b).
Proof.
  revert a b. induction k as [|k IH]; intros a b Ha Hab Hb; [cbn in Hb; lia|].
  rewrite !be_bytes_cons. rewrite Nat2Z.inj_succ, Z.pow_succ_r in Hb by lia. set (P := 256 ^ Z.of_nat k) in *.
  assert (HP : 0 < P) by (subst P; apply Z.pow_pos_nonneg; lia).
  pose proof (Z.div_mod a P ltac:(lia)) as Da. pose proof (Z.div_mod b P ltac:(lia)) as Db.
  pose proof (Z.mod_pos_bound a P HP). pose proof (Z.mod_pos_bound b P HP).
  assert (a / P < 256) by (apply Z.div_lt_upper_bound; lia). assert (b / P < 256) by (apply Z.div_lt_upper_bound; lia).
  assert (0 <= a / P) by (apply Z.div_pos; lia). assert (a / P <= b / P) by (apply Z.div_le_mono; lia).
  rewrite !Z.mod_small by lia. destruct (decide (a / P = b / P)) as [E|]; [|apply apart_head; lia].
  rewrite E. apply apart_tail. rewrite <- (be_bytes_mod k k a), <- (be_bytes_mod k k b) by lia. fold P.
  rewrite E in Da. apply IH; lia.
Qed.

(** The key of an index. *)
Definition index_key (i : nat) : bytes := AppendUint64 [] (Z.of_nat i).

Lemma index_key_0 : index_key 0 = [128].
Proof. done. Qed.

Lemma index_key_small i : (0 < i < 128)%nat -> index_key i = [Z.of_nat i].
Proof.
  intros Hi. unfold index_key. rewrite AppendUint64_spec by (unfold is_u64; lia). cbn [app].
  apply encode_uint_small. lia.
Qed.

Lemma index_key_large i : (128 <= i)%nat -> is_u64 (Z.of_nat i) ->
  exists k, in_bytes k (Z.of_nat i) /\ index_key i = (128 + Z.of_nat k) :: be_bytes k (Z.of_nat i).
Proof.
  intros Hi Hu. destruct (in_bytes_exists _ Hu) as [k Hk]. exists k. split; [done|].
  unfold index_key. rewrite AppendUint64_spec by done. cbn [app]. apply encode_uint_large; [done | lia | done].
Qed.

Lemma index_key_below i j : (i < 128)%nat -> (128 <= j)%nat -> is_u64 (Z.of_nat j) -> apart (index_key i) (index_key j).
Proof.
  intros Hi Hj Hu. destruct (index_key_large j Hj Hu) as (k & (Hk & _) & ->).
  destruct (decide (i = 0%nat)) as [->|]; [rewrite index_key_0 | rewrite index_key_small by lia]; apply apart_head; lia.
Qed.

Lemma index_key_above i j : (128 <= i < j)%nat -> is_u64 (Z.of_nat j) -> apart (index_key i) (index_key j).
Proof.
  intros Hij Hu. assert (Hi : is_u64 (Z.of_nat i)) by (unfold is_u64 in *; lia).
  destruct (index_key_large i ltac:(lia) Hi) as (k & (Hk & Hlo & Hhi) & ->).
  destruct (index_key_large j ltac:(lia) Hu) as (n & (Hn & Hlo' & Hhi') & ->).
  destruct (lt_eq_lt_dec k n) as [[Hkn| ->]|Hkn].
  - apply apart_head. lia.
  - apply apart_tail, be_bytes_apart; lia.
  - exfalso. destruct Hlo as [[? _]|Hlo]; [lia|].
    assert (256 ^ Z.of_nat n <= 256 ^ (Z.of_nat k - 1)) by (apply Z.pow_le_mono_r; lia). lia.
Qed.

(** The order of insertion. *)
Definition derive_order (n : nat) : list nat :=
  seq 1 (Nat.min n 128 - 1) ++ (if bool_decide (0 < n)%nat then [0%nat] else []) ++ seq 128 (n - 128).

Lemma derive_order_perm n : derive_order n ≡ₚ seq 0 n.
Proof.
  unfold derive_order. destruct n as [|n]; [done|]. rewrite bool_decide_true by lia.
  change (seq 0 (S n)) with (0%nat :: seq 1 n).
  rewrite (Permutation_app_comm _ (_ ++ _)). cbn [app]. constructor. rewrite Permutation_app_comm.
  replace n with ((Nat.min (S n) 128 - 1) + (S n - 128))%nat at 3 by lia. rewrite seq_app.
  destruct (decide (n < 128)%nat) as [Hn|Hn].
  - replace (S n - 128)%nat with 0%nat by lia. done.
  - by replace (1 + (Nat.min (S n) 128 - 1))%nat with 128%nat by lia.
Qed.

Lemma sorted_seq (R : nat -> nat -> Prop) n : forall a, (forall i j, (a <= i < j)%nat -> (j < a + n)%nat -> R i j) ->
  StronglySorted R (seq a n).
Proof.
  induction n as [|n IH]; intros a HR; cbn [seq]; constructor.
  - apply IH. intros i j Hij Hj. apply HR; lia.
  - apply Forall_forall. intros j Hj. apply elem_of_seq in Hj. apply HR; lia.
Qed.

Lemma sorted_app {A} (R : A -> A -> Prop) l1 l2 : StronglySorted R l1 -> StronglySorted R l2 ->
  (forall x y, x ∈ l1 -> y ∈ l2 -> R x y) -> StronglySorted R (l1 ++ l2).
Proof.
  induction 1 as [|x l1 Hs IH Hf]; intros H2 HR; [done|]. cbn [app]. constructor.
  - apply IH; [done|]. intros y z Hy Hz. apply HR; [by constructor | done].
  - apply Forall_app. split; [done|]. apply Forall_forall. intros z Hz. apply HR; [constructor | done].
Qed.

Lemma derive_order_sorted n : Z.of_nat n < 2 ^ 64 ->
  StronglySorted (fun i j => apart (index_key i) (index_key j)) (derive_order n).
Proof.
  intros Hn. unfold derive_order. apply sorted_app; [|apply sorted_app|].
  - apply sorted_seq. intros i j Hij Hj. rewrite !index_key_small by lia. apply apart_head. lia.
  - destruct (bool_decide _); repeat constructor.
  - apply sorted_seq. intros i j Hij Hj. apply index_key_above; [lia | unfold is_u64; lia].
  - intros i j Hi Hj. apply elem_of_seq in Hj. destruct (bool_decide _); [|by apply elem_of_nil in Hi].
    apply list_elem_of_singleton in Hi as ->. apply index_key_below; unfold is_u64; lia.
  - intros i j Hi Hj. apply elem_of_seq in Hi. apply elem_of_app in Hj as [Hj|Hj].
    + destruct (bool_decide _); [|by apply elem_of_nil in Hj]. apply list_elem_of_singleton in Hj as ->.
      rewrite index_key_0, index_key_small by lia. apply apart_head. lia.
    + apply elem_of_seq in Hj. apply index_key_below; unfold is_u64; lia.
Qed.

(** ** The bindings *)

Definition index_kv (l : list bytes) (i : nat) : bytes * bytes := (index_key i, default [] (l !! i)).

(** The map the hash stands for. *)
Definition index_map (l : list bytes) : gmap bytes bytes := list_to_map (index_kv l <$> seq 0 (length l)).

Lemma sorted_fmap {A B} (f : A -> B) (R : B -> B -> Prop) l :
  StronglySorted (fun x y => R (f x) (f y)) l -> StronglySorted R (f <$> l).
Proof.
  induction 1 as [|x l Hs IH Hf]; cbn; constructor; [done|]. by apply Forall_fmap.
Qed.

Lemma wf_index_key i : is_u64 (Z.of_nat i) -> wf_bytes (index_key i) /\ zlen (index_key i) < 2 ^ 31.
Proof.
  intros Hu. destruct (decide (i = 0%nat)) as [->|]; [split; [repeat constructor; lia | by compute]|].
  destruct (decide (i < 128)%nat).
  - rewrite index_key_small by lia. split; [repeat constructor; lia | by compute].
  - destruct (index_key_large i ltac:(lia) Hu) as (k & (Hk & _) & ->). split.
    + apply Forall_cons. split; [unfold is_byte; lia | apply wf_be_bytes].
    + rewrite zlen_cons, zlen_be_bytes. lia.
Qed.

Definition items_ok (l : list bytes) : Prop := Forall (fun v => v <> [] /\ value_ok v) l /\ zlen l < 2 ^ 63.

Lemma derive_kvs_ok l : items_ok l -> kvs_ok (index_kv l <$> derive_order (length l)).
Proof.
  intros [Hl Hn]. unfold zlen in Hn. split.
  - apply Forall_fmap, Forall_forall. intros i Hi. rewrite derive_order_perm in Hi. apply elem_of_seq in Hi.
    destruct (lookup_lt_is_Some_2 l i) as [v Ev]; [lia|]. cbn. rewrite Ev. cbn.
    destruct (wf_index_key i) as [? ?]; [unfold is_u64; lia|].
    destruct (proj1 (Forall_lookup _ l) Hl i v Ev) as [? ?]. done.
  - apply sorted_fmap. apply derive_order_sorted. lia.
Qed.

Lemma sorted_keys_NoDup (kvs : list (bytes * bytes)) : StronglySorted (fun a b => apart a.1 b.1) kvs -> NoDup kvs.*1.
Proof.
  induction 1 as [|[k v] r Hs IH Hf]; cbn; constructor; [|done].
  intros (kv & -> & Hkv)%list_elem_of_fmap. rewrite Forall_forall in Hf. by apply Hf, apart_neq in Hkv.
Qed.

Lemma derive_map l : items_ok l -> list_to_map (index_kv l <$> derive_order (length l)) = index_map l.
Proof.
  intros Hl. destruct (derive_kvs_ok l Hl) as [_ Hs]. apply list_to_map_proper; [by apply sorted_keys_NoDup|].
  apply fmap_Permutation, derive_order_perm.
Qed.

(** ** Hashing *)

Section generic.
Context `{TrieHasher T}.

Lemma derive_steps_app l a b h : derive_steps l (a ++ b) h = (h ← derive_steps l a h; derive_steps l b h).
Proof.
  revert h. induction a as [|i a IH]; intros h; [done|]. cbn [app derive_steps].
  destruct (derive_step l h i); [apply IH | done | done].
Qed.

Lemma DeriveSha_order l : DeriveSha l =
  (h ← derive_steps l (derive_order (length l)) th_Reset; '(hash, _) ← th_Hash h; Ok hash).
Proof.
  unfold DeriveSha, derive_order. rewrite !derive_steps_app. destruct (derive_steps l (seq 1 _) _) as [h| |]; [|done|done].
  cbn [mbind res_bind]. rewrite derive_steps_app. destruct (bool_decide _); cbn [derive_steps]; [|done].
  by destruct (derive_step l h 0).
Qed.

Lemma derive_step_kv l h i : (i < length l)%nat ->
  derive_step l h i = th_Update (index_kv l i).1 (index_kv l i).2 h.
Proof.
  intros Hi. destruct (lookup_lt_is_Some_2 l i Hi) as [v Ev]. unfold derive_step.
  rewrite (nth_or_panic_lookup l i v Ev). cbn. by rewrite Ev.
Qed.
End generic.

Section derive.
Context `{Crypto} `{NodeReader}.

Lemma derive_steps_stack l ixs st db : Forall (fun i => (i < length l)%nat) ixs ->
  derive_steps l ixs (st, db) = st_updates (index_kv l <$> ixs) st db.
Proof.
  intros Hf. revert st db. induction Hf as [|i ixs Hi Hf IH]; intros st db; [done|].
  cbn [derive_steps]. rewrite derive_step_kv by done. cbn.
  destruct (st_TryUpdate _ _ st db) as [[st' db']| |]; [apply IH | done | done].
Qed.

Lemma derive_steps_trie l ixs t m : Forall (fun i => (i < length l)%nat) ixs -> kvs_ok (index_kv l <$> ixs) ->
  refines t m -> exists t', derive_steps l ixs t = Ok t' /\ refines t' (list_to_map (index_kv l <$> ixs) ∪ m).
Proof.
  intros Hf. revert t m. induction Hf as [|i ixs Hi Hf IH]; intros t m Hok Hr.
  { exists t. cbn. by rewrite (left_id_L ∅ (∪)). }
  rewrite fmap_cons in *. destruct (index_kv l i) as [k v] eqn:Ekv.
  apply kvs_ok_cons in Hok as ((Hk & _ & Hv & _) & Hok & Hlt).
  cbn [derive_steps]. rewrite derive_step_kv, Ekv by done. cbn [fst snd th_Update trie_hasher]. unfold Update.
  destruct (TryUpdate_spec t m k v Hr Hk) as (t1 & -> & Hr1). cbn [mbind res_bind].
  assert (Hm : update_map m k v = <[k := v]> m) by by destruct v. rewrite Hm in Hr1.
  destruct (IH t1 _ Hok Hr1) as (t2 & -> & Hr2). eexists. split; [done|].
  change (list_to_map ((k, v) :: ?r)) with (<[k := v]> (list_to_map r : gmap bytes bytes)).
  by rewrite <- insert_union_l, insert_union_r by by apply kvs_fresh.
Qed.

Lemma derive_order_lt (l : list bytes) : Forall (fun i => (i < length l)%nat) (derive_order (length l)).
Proof. apply Forall_forall. intros i Hi. rewrite derive_order_perm in Hi. apply elem_of_seq in Hi. lia. Qed.

Lemma derive_sha_root l : items_ok l -> exists tr, canon0 tr /\ holds tr (index_map l) /\ bounded (index_map l) /\
  DeriveSha (T := StackTrie * writer) l = Ok (root_hash tr) /\ DeriveSha (T := Trie) l = Ok (root_hash tr).
Proof.
  intros Hl. pose proof (derive_kvs_ok l Hl) as Hok. pose proof (derive_order_lt l) as Hlt.
  destruct (derive_steps_trie l _ (mkTrie NilNode 0 0) ∅ Hlt Hok) as (t & Et & Hr).
  { exists TNil. split_and!; [constructor | by left | apply holds_empty]. }
  rewrite (right_id_L ∅ (∪)) in Hr.
  destruct (st_updates_spec _ NewStackTrie ∅ None Hok) as (st & db & Es & Hb & Hbd); [by left | done | done |].
  rewrite (right_id_L ∅ (∪)), (derive_map l Hl) in Hb, Hbd. rewrite (derive_map l Hl) in Hr.
  destruct Hr as (tr & Hr & Hc & Hm). exists tr. rewrite !DeriveSha_order. split_and!; [done | done | done | |].
  - cbn [th_Reset stack_hasher]. rewrite derive_steps_stack by done. rewrite Es. cbn [mbind res_bind th_Hash stack_hasher].
    destruct (st_Hash_spec st _ tr db Hb Hbd Hc Hm) as (st' & db' & ->). done.
  - cbn [th_Reset trie_hasher]. rewrite Et. cbn [mbind res_bind th_Hash trie_hasher].
    destruct (Trie_Hash_spec t _ tr Hr Hc Hm Hbd) as (t' & -> & _). done.
Qed.

(** DeriveSha of a list of non-empty encodings returns, with the
    stack trie and with the ordinary trie alike, the root hash of any trie that
    maps the RLP encoding of each index to the element there: the order it
    inserts the indices in is the increasing one the stack trie needs, for lists
    of every length. *)
Theorem derive_sha_correct l : items_ok l ->
  exists h, DeriveSha (T := StackTrie * writer) l = Ok h /\ DeriveSha (T := Trie) l = Ok h /\
    forall t, refines t (index_map l) -> exists t', Hash_ t = Ok (h, t').
Proof.
  intros Hl. destruct (derive_sha_root l Hl) as (tr & Hc & Hm & Hbd & E1 & E2). exists (root_hash tr). split_and!; [done | done |].
  intros t2 (tr2 & Hr2 & Hc2 & Hm2). rewrite (holds_unique tr tr2 _ Hc Hc2 Hm Hm2).
  destruct (Trie_Hash_spec t2 _ tr2 Hr2 Hc2 Hm2 Hbd) as (t' & E & _). by eexists.
Qed.

(** The root determines the list. *)
Lemma index_key_inj i j : is_u64 (Z.of_nat i) -> is_u64 (Z.of_nat j) -> index_key i = index_key j -> i = j.
Proof.
  intros Hi Hj E. unfold index_key in E. rewrite !AppendUint64_spec in E by done. cbn [app] in E.
  apply (encode_tree_inj (IUint _) (IUint _)) in E; [|done|done|].
  - cbn [tree_of content] in E. apply RString_inj in E. apply uint_content_inj in E; [lia | done | done].
  - cbn [encode]. unfold encode_uint. pose proof (encode_bytes_length (if Z.of_nat i =? 0 then [] else putint (Z.of_nat i))) as H1.
    pose proof (uint_content_size (Z.of_nat i)). lia.
Qed.

Lemma index_map_lookup l i : items_ok l -> is_u64 (Z.of_nat i) -> index_map l !! index_key i = l !! i.
Proof.
  intros Hl Hi. pose proof Hl as [_ Hlen]. unfold zlen in Hlen. rewrite <- (derive_map l Hl).
  destruct (derive_kvs_ok l Hl) as [_ Hs].
  destruct (l !! i) as [v|] eqn:Ev.
  - apply elem_of_list_to_map_1'.
    + intros w Hw. apply list_elem_of_fmap in Hw as (j & Ej & Hj). rewrite derive_order_perm in Hj. apply elem_of_seq in Hj.
      unfold index_kv in Ej. assert (index_key i = index_key j) as Eij by congruence. apply index_key_inj in Eij; [|done | unfold is_u64; lia]. subst j.
      rewrite Ev in Ej. cbn in Ej. congruence.
    + apply list_elem_of_fmap. exists i. split; [unfold index_kv; by rewrite Ev|]. rewrite derive_order_perm. apply elem_of_seq.
      apply lookup_lt_Some in Ev. lia.
  - apply not_elem_of_list_to_map_1. intros ([k v] & Ek & Hin)%list_elem_of_fmap. cbn in Ek. subst k.
    apply list_elem_of_fmap in Hin as (j & Ej & Hj). rewrite derive_order_perm in Hj. apply elem_of_seq in Hj.
    unfold index_kv in Ej. assert (index_key i = index_key j) as Eij by congruence. apply index_key_inj in Eij; [|done | unfold is_u64; lia]. subst j.
    apply lookup_ge_None in Ev. lia.
Qed.

Lemma index_map_inj l l' : items_ok l -> items_ok l' -> index_map l = index_map l' -> l = l'.
Proof.
  intros Hl Hl' E. apply list_eq. intros i. destruct (decide (Z.of_nat i < 2 ^ 64)) as [Hi|Hi].
  - rewrite <- (index_map_lookup l), <- (index_map_lookup l') by (done || unfold is_u64; lia). by rewrite E.
  - destruct Hl as [_ Hl], Hl' as [_ Hl']. unfold zlen in *. rewrite !(proj2 (lookup_ge_None _ _)) by lia. done.
Qed.

Lemma derive_sha_inj l l' h : items_ok l -> items_ok l' -> keccak256 [128] = emptyRoot ->
  collision_free (index_map l) (index_map l') ->
  DeriveSha (T := StackTrie * writer) l = Ok h -> DeriveSha (T := StackTrie * writer) l' = Ok h -> l = l'.
Proof.
  intros Hl Hl' He Hcf E E'. destruct (derive_sha_root l Hl) as (tr & Hc & Hm & Hb & E1 & _).
  destruct (derive_sha_root l' Hl') as (tr' & Hc' & Hm' & Hb' & E1' & _). rewrite E1 in E. rewrite E1' in E'.
  apply index_map_inj; [done | done |]. apply (root_hash_inj tr tr'); try done. congruence.
Qed.
End derive.

(** ** Concrete lists *)

Lemma derive_sha_correct_witness :
  exists h, DeriveSha (H := stack_hasher (H := trie_crypto)) [[1; 2; 3]; [4]] = Ok h /\
    DeriveSha (H := trie_hasher (H := trie_crypto) (H0 := no_nodes)) [[1; 2; 3]; [4]] = Ok h.
Proof.
  destruct (@derive_sha_correct trie_crypto no_nodes [[1; 2; 3]; [4]]) as (h & E1 & E2 & _).
  { split; [|by compute]. repeat constructor; try done; lia. }
  exists h. exact (conj E1 E2).
Defined.

Lemma stack_trie_equals_trie_witness :
  exists h t st st', Hash_ (H := trie_crypto) one_leaf = Ok (h, t) /\
    st_updates (H := trie_crypto) [([], [1])] NewStackTrie None = Ok (st, None) /\
    st_Hash (H := trie_crypto) st None = Ok (h, st', None).
Proof.
  destruct (@stack_trie_equals_trie trie_crypto no_nodes [([], [1])] one_leaf None) as (h & t' & st & db1 & st' & db2 & E1 & E2 & E3).
  { split; [|repeat constructor]. repeat constructor; try done; lia. }
  { exact one_leaf_refines. }
  exists h, t', st, st'. split; [exact E1|].
  assert (Es : st_updates (H := trie_crypto) [([], [1])] NewStackTrie None = Ok (leafNode [] [1], None)) by reflexivity.
  rewrite Es in E2. injection E2 as <- <-. split; [exact Es|].
  assert (Eh : exists x y, st_Hash (H := trie_crypto) (leafNode [] [1]) None = Ok (x, y, None)) by (do 2 eexists; vm_compute; reflexivity).
  destruct Eh as (x & y & Eh). rewrite Eh in E3 |- *. injection E3 as <- <- <-. reflexivity.
Defined.
