(* ===== verification/Block.v ===== *)
(** * Receipts, blooms and blocks ([blockchain/model/bloom9.go], [receipt.go],
    [block.go], [blockchain/block_validator.go])

    Of a log the consensus fields matter here.  A block holds values, so the
    copies [CopyHeader] makes are the headers themselves; its cached hash and
    size are left out. *)

From S2P Require Import Prelude Config Common Rlp EvmState Header Consensus Transaction StackTrie.

Local Open Scope Z_scope.

Module Block.

(** ** [bloom9.go] *)

Definition BloomByteLength : Z := 256.

Definition emptyBloom : bytes := replicate 256 0.

(** [SetBytes] and [BytesToBloom] *)
Definition BytesToBloom (d : bytes) : res bytes :=
  if BloomByteLength <? zlen d then Panic PanicBloom
  else Ok (replicate (256 - length d) 0 ++ d).

Section bloom.
Context `{Crypto}.

(** An index and a bit from two bytes of the hash. *)
Definition bloom_value (b0 b1 : Z) : Z * Z :=
  (BloomByteLength - Z.shiftr (Z.land (b0 * 256 + b1) 0x7ff) 3 - 1, u8 (Z.shiftl 1 (Z.land b1 7))).

(** [bloomValues]: three of them, from the first six bytes of the hash. *)
Definition bloomValues (data : bytes) : list (Z * Z) :=
  match take 6 (be_bytes 32 (keccak256 data)) with
  | [b0; b1; b2; b3; b4; b5] => [bloom_value b0 b1; bloom_value b2 b3; bloom_value b4 b5]
  | _ => []
  end.

(** [b[i] |= v] *)
Definition bloom_or (iv : Z * Z) (b : bytes) : res bytes :=
  x ← nth_or_panic b iv.1; Ok (<[Z.to_nat iv.1 := Z.lor x iv.2]> b).

Fixpoint bloom_ors (ivs : list (Z * Z)) (b : bytes) : res bytes :=
  match ivs with [] => Ok b | iv :: r => b ← bloom_or iv b; bloom_ors r b end.

(** [add] *)
Definition bloom_add (d b : bytes) : res bytes := bloom_ors (bloomValues d) b.

(** [v == v & b[i]] for all three; the conjunction stops at the first failure. *)
Fixpoint bloom_test (ivs : list (Z * Z)) (b : bytes) : res bool :=
  match ivs with
  | [] => Ok true
  | (i, v) :: r => x ← nth_or_panic b i; if v =? Z.land v x then bloom_test r b else Ok false
  end.

(** [Test] *)
Definition bloom_Test (b topic : bytes) : res bool := bloom_test (bloomValues topic) b.

Fixpoint add_all (ds : list bytes) (b : bytes) : res bytes :=
  match ds with [] => Ok b | d :: r => b ← bloom_add d b; add_all r b end.

(** What a log adds: its address, then its topics. *)
Definition log_items (l : Log) : list bytes := be_bytes 20 (lAddress l) :: map (be_bytes 32) (lTopics l).

Fixpoint add_logs (logs : list Log) (b : bytes) : res bytes :=
  match logs with [] => Ok b | l :: r => b ← add_all (log_items l) b; add_logs r b end.

Definition LogsBloom (logs : list Log) : res bytes := add_logs logs emptyBloom.
End bloom.

(** ** [receipt.go] *)

Definition ReceiptStatusFailed : Z := 0.
Definition ReceiptStatusSuccessful : Z := 1.
Definition receiptStatusFailedRLP : bytes := [].
Definition receiptStatusSuccessfulRLP : bytes := [1].

Record Receipt := mkReceipt {
  rType : Z;
  PostState : bytes;
  Status : Z;
  CumulativeGasUsed : Z;
  rBloom : bytes;
  Logs : list Log;
  rTxHash : Hash;
  ContractAddress : Address;
  rGasUsed : Z;
  rBlockHash : Hash;
  rBlockNumber : Z;
  TransactionIndex : Z;
}.

(** [NewReceipt] *)
Definition NewReceipt (root : bytes) (failed : bool) (cumulativeGasUsed : Z) : Receipt :=
  mkReceipt Transaction.LegacyTxType root (if failed then ReceiptStatusFailed else ReceiptStatusSuccessful)
    cumulativeGasUsed emptyBloom [] 0 0 0 0 0 0.

Definition statusEncoding (r : Receipt) : bytes :=
  if zlen (PostState r) =? 0 then
    if Status r =? ReceiptStatusFailed then receiptStatusFailedRLP else receiptStatusSuccessfulRLP
  else PostState r.

(** [setStatus]: the post state and the status read back, over the old ones. *)
Definition setStatus (postStateOrStatus oldPost : bytes) (oldStatus : Z) : option (bytes * Z) :=
  if bool_decide (postStateOrStatus = receiptStatusSuccessfulRLP) then Some (oldPost, ReceiptStatusSuccessful)
  else if bool_decide (postStateOrStatus = receiptStatusFailedRLP) then Some (oldPost, ReceiptStatusFailed)
  else if zlen postStateOrStatus =? 32 then Some (postStateOrStatus, oldStatus)
  else None.

(** [Log.EncodeRLP] ([log.go]) *)
Definition log_item (l : Log) : item :=
  IStruct [IBytes (be_bytes 20 (lAddress l)); IList (map (fun t => IBytes (be_bytes 32 t)) (lTopics l)); IBytes (lData l)].

(** [receiptRLP] *)
Definition receipt_items (r : Receipt) : list item :=
  [IBytes (statusEncoding r); IUint (CumulativeGasUsed r); IBytes (rBloom r); IList (map log_item (Logs r))].

(** [Receipts.EncodeIndex]: an unknown type writes nothing. *)
Definition receipt_EncodeIndex (r : Receipt) : res bytes :=
  if rType r =? Transaction.LegacyTxType then e ← Transaction.Encode (IStruct (receipt_items r)); Ok (default [] e)
  else if (rType r =? Transaction.AccessListTxType) || (rType r =? Transaction.DynamicFeeTxType)
  then e ← Transaction.Encode (IStruct (receipt_items r)); Ok (rType r :: default [] e)
  else Ok [].

(** [Receipt.MarshalBinary] *)
Definition receipt_MarshalBinary (r : Receipt) : res (option bytes) :=
  e ← Transaction.Encode (IStruct (receipt_items r));
  Ok (option_map (fun e => if rType r =? Transaction.LegacyTxType then e else rType r :: e) e).

(** [CreateBloom] *)
Fixpoint create_bloom `{Crypto} (receipts : list Receipt) (b : bytes) : res bytes :=
  match receipts with [] => Ok b | r :: rs => b ← add_logs (Logs r) b; create_bloom rs b end.
Definition CreateBloom `{Crypto} (receipts : list Receipt) : res bytes := create_bloom receipts emptyBloom.

(** ** [block.go] *)

Record Block := mkBlock {
  header : Header;
  uncles : list Header;
  transactions : list Transaction.TxData;
}.

Fixpoint encode_all {A} (f : A -> res bytes) (l : list A) : res (list bytes) :=
  match l with [] => Ok [] | x :: r => b ← f x; bs ← encode_all f r; Ok (b :: bs) end.

Definition set_roots (txHash receiptHash uncleHash : Hash) (bloom : bytes) (h : Header) : Header :=
  Header.mkHeader (Header.ParentHash h) uncleHash (Header.Coinbase h) (Header.Root h) txHash receiptHash bloom
    (Header.Difficulty h) (Header.Number h) (Header.GasLimit h) (Header.GasUsed h) (Header.Time h) (Header.Extra h)
    (Header.MixDigest h) (Header.Nonce h) (Header.BaseFee h).

Section blocks.
Context `{Crypto}.

(** [CalcUncleHash]: nothing is hashed when the encoder refuses a header. *)
Definition CalcUncleHash (uncles : list Header) : res Hash :=
  if zlen uncles =? 0 then Ok Header.EmptyUncleHash
  else if existsb (fun h => existsb Transaction.negative_big (Header.fields h)) uncles then Ok (keccak256 [])
  else b ← Enc.EncodeToBytes (IList (map (fun h => IStruct (Header.fields h)) uncles)); Ok (keccak256 b).

Definition block_Hash (b : Block) : res Hash := Header.Hash_ (header b).

(** [DeriveSha] of transactions and of receipts, with the hasher given. *)
Definition derive_txs (T : Type) `{TrieHasher T} (txs : list Transaction.TxData) : res Hash :=
  bs ← encode_all Transaction.EncodeIndex txs; DeriveSha (T := T) bs.
Definition derive_receipts (T : Type) `{TrieHasher T} (rs : list Receipt) : res Hash :=
  bs ← encode_all receipt_EncodeIndex rs; DeriveSha (T := T) bs.

(** [NewBlock] *)
Definition NewBlock (T : Type) `{TrieHasher T} (h : Header) (txs : list Transaction.TxData) (us : list Header) (receipts : list Receipt)
    : res Block :=
  txHash ← (if zlen txs =? 0 then Ok Header.EmptyRootHash else derive_txs T txs);
  '(receiptHash, bloom) ←
    (if zlen receipts =? 0 then Ok (Header.EmptyRootHash, Header.Bloom h)
     else rh ← derive_receipts T receipts; bl ← CreateBloom receipts; Ok (rh, bl));
  uncleHash ← (if zlen us =? 0 then Ok Header.EmptyUncleHash else CalcUncleHash us);
  Ok (mkBlock (set_roots txHash receiptHash uncleHash bloom h) us txs).

(** [NewBlockWithHeader], [WithSeal] and [WithBody] *)
Definition NewBlockWithHeader (h : Header) : Block := mkBlock h [] [].
Definition WithSeal (h : Header) (b : Block) : Block := mkBlock h (uncles b) (transactions b).
Definition WithBody (txs : list Transaction.TxData) (us : list Header) (b : Block) : Block := mkBlock (header b) us txs.

(** ** [block_validator.go] *)

Inductive BodyErr :=
| ErrKnownBlock | errUncleHash | errTxHash | errUnknownParent | errPrunedParent
| errUncleRules (e : ConsensusErr) | errStateGasUsed | errStateBloom | errReceiptHash | errStateRoot.

Record ChainState := mkChainState {
  HasBlockAndState : Hash -> Z -> bool;
  HasBlock : Hash -> Z -> bool;
}.

(** [header.Number.Uint64()] *)
Definition NumberU64 (b : Block) : Z := u64 (Z.abs (Header.Number (header b))).

(** [ValidateBody]; [verifyUncles] is the engine's. *)
Definition ValidateBody (chain : ChainState) (verifyUncles : Block -> res (option ConsensusErr)) (b : Block) : res (option BodyErr) :=
  hash ← block_Hash b;
  if HasBlockAndState chain hash (NumberU64 b) then Ok (Some ErrKnownBlock)
  else
    er ← verifyUncles b;
    match er with
    | Some e => Ok (Some (errUncleRules e))
    | None =>
      uh ← CalcUncleHash (uncles b);
      if negb (uh =? Header.UncleHash (header b)) then Ok (Some errUncleHash)
      else
        th ← derive_txs (StackTrie * writer) (transactions b);
        if negb (th =? Header.TxHash (header b)) then Ok (Some errTxHash)
        else
          let parent := Header.ParentHash (header b) in
          let number := sub64 (NumberU64 b) 1 in
          if negb (HasBlockAndState chain parent number) then
            if negb (HasBlock chain parent number) then Ok (Some errUnknownParent) else Ok (Some errPrunedParent)
          else Ok None
    end.

(** [ValidateState]; [root] is the intermediate root of the state. *)
Definition ValidateState (b : Block) (root : Hash) (receipts : list Receipt) (usedGas : Z) : res (option BodyErr) :=
  if negb (Header.GasUsed (header b) =? usedGas) then Ok (Some errStateGasUsed)
  else
    rbloom ← CreateBloom receipts;
    if negb (bool_decide (rbloom = Header.Bloom (header b))) then Ok (Some errStateBloom)
    else
      receiptSha ← derive_receipts (StackTrie * writer) receipts;
      if negb (receiptSha =? Header.ReceiptHash (header b)) then Ok (Some errReceiptHash)
      else if negb (Header.Root (header b) =? root) then Ok (Some errStateRoot)
      else Ok None.
End blocks.
End Block.
