(* ===== verification/BlockSpec.v ===== *)
(** * Theorems on blooms and blocks

    A bloom filter holds exactly the bits of the logs it was made of; a block is
    determined by its header; what [NewBlock] assembles, the validator accepts. *)

From S2P Require Import Prelude Uint256 Config Common TrieEncoding Rlp RlpSpec EvmState EvmSpec Header Consensus.
From S2P Require Import Transaction TransactionSpec Trie TrieSpec TrieHash TrieTheorems StackTrie StackTrieSpec DeriveShaSpec Block.

Import Block.

Local Open Scope Z_scope.

(** ** Blooms as sets of bits *)

Section bloom.
Context `{C : Crypto}.

Definition position (b0 b1 : Z) : Z := Z.land (b0 * 256 + b1) 0x7ff.

(** The bits of a string. *)
Definition positions (data : bytes) : list Z :=
  match take 6 (be_bytes 32 (keccak256 data)) with
  | [b0; b1; b2; b3; b4; b5] => [position b0 b1; position b2 b3; position b4 b5]
  | _ => []
  end.

Definition bloom_bit (b : bytes) (p : Z) : bool := Z.testbit (default 0 (b !! Z.to_nat (255 - p / 8))) (p mod 8).

Lemma position_bound b0 b1 : 0 <= position b0 b1 < 2048.
Proof.
  unfold position. change 0x7ff with (Z.ones 11). rewrite Z.land_ones by lia. apply Z.mod_pos_bound. lia.
Qed.

Lemma bloom_value_position b0 b1 : bloom_value b0 b1 = (255 - position b0 b1 / 8, 2 ^ (position b0 b1 mod 8)).
Proof.
  unfold bloom_value, BloomByteLength. fold (position b0 b1). rewrite Z.shiftr_div_pow2 by lia. change (2 ^ 3) with 8.
  assert (E : Z.land b1 7 = position b0 b1 mod 8).
  { unfold position. change 7 with (Z.ones 3). change 0x7ff with (Z.ones 11). change 8 with (2 ^ 3).
    rewrite <- (Z.land_ones (Z.land _ _) 3) by lia. rewrite <- Z.land_assoc.
    change (Z.land (Z.ones 11) (Z.ones 3)) with (Z.ones 3). rewrite !Z.land_ones by lia. change (2 ^ 3) with 8. dlia. }
  rewrite E, Z.shiftl_1_l. f_equal; [lia|]. unfold u8. apply Z.mod_small.
  pose proof (Z.mod_pos_bound (position b0 b1) 8 ltac:(lia)). split; [apply Z.pow_nonneg; lia|].
  change 256 with (2 ^ 8). apply Z.pow_lt_mono_r; lia.
Qed.

Lemma bloomValues_positions d : bloomValues d = map (fun p => (255 - p / 8, 2 ^ (p mod 8))) (positions d) /\
  Forall (fun p => 0 <= p < 2048) (positions d).
Proof.
  unfold bloomValues, positions. destruct (take 6 _) as [|b0 [|b1 [|b2 [|b3 [|b4 [|b5 [|]]]]]]]; try (split; [done | constructor]).
  cbn [map]. rewrite !bloom_value_position. split; [done|]. repeat constructor; apply position_bound.
Qed.

(** Setting a bit. *)
Lemma bloom_or_spec p b : 0 <= p < 2048 -> length b = 256%nat ->
  exists b', bloom_or (255 - p / 8, 2 ^ (p mod 8)) b = Ok b' /\ length b' = 256%nat /\
    forall q, 0 <= q < 2048 -> bloom_bit b' q = bloom_bit b q || (q =? p).
Proof.
  intros Hp Hl. assert (Hi : (Z.to_nat (255 - p / 8) < length b)%nat) by dlia.
  destruct (lookup_lt_is_Some_2 b _ Hi) as [x Ex]. unfold bloom_or, nth_or_panic. cbn [fst snd].
  rewrite bool_decide_true by dlia. rewrite Ex. cbn [or_panic mbind res_bind]. eexists. split; [done|]. split; [by rewrite length_insert|].
  intros q Hq. unfold bloom_bit. destruct (decide (q / 8 = p / 8)) as [E|E].
  - rewrite E, list_lookup_insert_eq by done. rewrite Ex. cbn [default from_option id]. rewrite Z.lor_spec. f_equal.
    pose proof (Z.mod_pos_bound p 8 ltac:(lia)). pose proof (Z.mod_pos_bound q 8 ltac:(lia)).
    rewrite Z.pow2_bits_eqb by lia. apply eq_true_iff_eq. rewrite !Z.eqb_eq. dlia.
  - rewrite list_lookup_insert_ne by dlia. destruct (Z.eqb_spec q p) as [->|]; [done | by rewrite orb_false_r].
Qed.

Definition among (ps : list Z) (p : Z) : bool := bool_decide (p ∈ ps).

Lemma among_cons q ps p : among (q :: ps) p = (p =? q) || among ps p.
Proof. unfold among. destruct (Z.eqb_spec p q) as [->|]; [apply bool_decide_true; by left|]. apply bool_decide_ext. set_solver. Qed.

Lemma among_app ps qs p : among (ps ++ qs) p = among ps p || among qs p.
Proof. induction ps as [|q ps IH]; [done|]. cbn [app]. by rewrite !among_cons, IH, orb_assoc. Qed.

Lemma bloom_ors_spec ps : forall b, Forall (fun p => 0 <= p < 2048) ps -> length b = 256%nat ->
  exists b', bloom_ors (map (fun p => (255 - p / 8, 2 ^ (p mod 8))) ps) b = Ok b' /\ length b' = 256%nat /\
    forall q, 0 <= q < 2048 -> bloom_bit b' q = bloom_bit b q || among ps q.
Proof.
  induction ps as [|p ps IH]; intros b Hf Hl; cbn [map bloom_ors].
  { exists b. split_and!; [done | done |]. intros q _. unfold among. rewrite bool_decide_false by set_solver. by rewrite orb_false_r. }
  apply Forall_cons in Hf as [Hp Hf]. destruct (bloom_or_spec p b Hp Hl) as (b1 & -> & Hl1 & Hb1). cbn [mbind res_bind].
  destruct (IH b1 Hf Hl1) as (b2 & -> & Hl2 & Hb2). exists b2. split_and!; [done | done |].
  intros q Hq. by rewrite Hb2, Hb1, among_cons, orb_assoc.
Qed.

(** Adding strings, logs and the logs of receipts sets exactly their bits. *)
Definition adds (f : bytes -> res bytes) (ps : list Z) : Prop := forall b, length b = 256%nat ->
  exists b', f b = Ok b' /\ length b' = 256%nat /\ forall q, 0 <= q < 2048 -> bloom_bit b' q = bloom_bit b q || among ps q.

Lemma adds_nothing : adds Ok [].
Proof. intros b Hl. exists b. split_and!; [done | done |]. intros q _. by rewrite orb_false_r. Qed.

Lemma adds_then f g ps qs : adds f ps -> adds g qs -> adds (fun b => b ← f b; g b) (ps ++ qs).
Proof.
  intros Hf Hg b Hl. destruct (Hf b Hl) as (b1 & -> & Hl1 & Hb1). cbn [mbind res_bind].
  destruct (Hg b1 Hl1) as (b2 & -> & Hl2 & Hb2). exists b2. split_and!; [done | done |]. intros q Hq.
  by rewrite Hb2, Hb1, among_app, orb_assoc.
Qed.

Lemma adds_string d : adds (bloom_add d) (positions d).
Proof. intros b Hl. unfold bloom_add. destruct (bloomValues_positions d) as [-> Hf]. by apply bloom_ors_spec. Qed.

Lemma adds_strings ds : adds (add_all ds) (flat_map positions ds).
Proof. induction ds as [|d ds IH]; [apply adds_nothing|]. cbn [add_all flat_map]. apply adds_then; [apply adds_string | exact IH]. Qed.

Lemma adds_logs logs : adds (add_logs logs) (flat_map positions (flat_map log_items logs)).
Proof.
  induction logs as [|l logs IH]; [apply adds_nothing|]. cbn [add_logs flat_map]. rewrite flat_map_app.
  apply adds_then; [apply adds_strings | exact IH].
Qed.

(** The strings of the logs of receipts. *)
Definition logged (rs : list Receipt) : list bytes := flat_map log_items (flat_map Logs rs).

Lemma adds_receipts rs : adds (create_bloom rs) (flat_map positions (logged rs)).
Proof.
  unfold logged. induction rs as [|r rs IH]; [apply adds_nothing|]. cbn [create_bloom flat_map]. rewrite !flat_map_app.
  apply adds_then; [apply adds_logs | exact IH].
Qed.

(** Testing bits. *)
Lemma bloom_test_spec ps : forall b, Forall (fun p => 0 <= p < 2048) ps -> length b = 256%nat ->
  bloom_test (map (fun p => (255 - p / 8, 2 ^ (p mod 8))) ps) b = Ok (forallb (bloom_bit b) ps).
Proof.
  induction ps as [|p ps IH]; intros b Hf Hl; cbn [map bloom_test forallb]; [done|]. apply Forall_cons in Hf as [Hp Hf].
  assert (Hi : (Z.to_nat (255 - p / 8) < length b)%nat) by dlia. destruct (lookup_lt_is_Some_2 b _ Hi) as [x Ex].
  unfold nth_or_panic. rewrite bool_decide_true by dlia. rewrite Ex. cbn [or_panic mbind res_bind].
  assert (E : (2 ^ (p mod 8) =? Z.land (2 ^ (p mod 8)) x) = bloom_bit b p).
  { unfold bloom_bit. rewrite Ex. cbn [default from_option id]. pose proof (Z.mod_pos_bound p 8 ltac:(lia)).
    rewrite Z.land_comm. destruct (Z.testbit x (p mod 8)) eqn:Et.
    - apply Z.eqb_eq. apply Z.bits_inj'. intros n Hn. rewrite Z.land_spec, Z.pow2_bits_eqb by lia.
      destruct (Z.eqb_spec (p mod 8) n) as [<-|]; [by rewrite Et | by rewrite andb_false_r].
    - apply Z.eqb_neq. intros E. apply (f_equal (fun z => Z.testbit z (p mod 8))) in E.
      rewrite Z.land_spec, Z.pow2_bits_true, Et in E by lia. done. }
  rewrite E. destruct (bloom_bit b p); [cbn [andb]; by apply IH | done].
Qed.

Lemma flat_map_elem {A B} (f : A -> list B) l y : y ∈ flat_map f l <-> exists x, x ∈ l /\ y ∈ f x.
Proof. rewrite !list_elem_of_In, in_flat_map. setoid_rewrite list_elem_of_In. done. Qed.

(** The bloom filter of receipts is exact on bits: testing a string
    answers yes exactly when every bit of the string is a bit of an address or a
    topic of their logs.  So there are no false negatives: every address and
    every topic of a log tests positive. *)
Theorem blooms_are_exact rs : exists b, CreateBloom rs = Ok b /\ length b = 256%nat /\
  (forall topic, exists r, bloom_Test b topic = Ok r /\
     (r = true <-> forall p, p ∈ positions topic -> exists it, it ∈ logged rs /\ p ∈ positions it)) /\
  (forall it, it ∈ logged rs -> bloom_Test b it = Ok true).
Proof.
  destruct (adds_receipts rs emptyBloom) as (b & E & Hl & Hb); [by vm_compute|]. exists b.
  assert (Ht : forall topic, exists r, bloom_Test b topic = Ok r /\
     (r = true <-> forall p, p ∈ positions topic -> exists it, it ∈ logged rs /\ p ∈ positions it)).
  { intros topic. destruct (bloomValues_positions topic) as [Ev Hf]. unfold bloom_Test. rewrite Ev, bloom_test_spec by done.
    eexists. split; [done|]. rewrite forallb_forall. setoid_rewrite <- list_elem_of_In.
    split; intros H p Hp.
    - specialize (H p Hp). rewrite Forall_forall in Hf. rewrite Hb in H by by apply Hf.
      assert (E0 : bloom_bit emptyBloom p = false).
      { unfold bloom_bit, emptyBloom. destruct (replicate 256 0 !! Z.to_nat (255 - p / 8)) as [x|] eqn:Ex; [|cbn; apply Z.testbit_0_l].
        apply lookup_replicate in Ex as [-> _]. cbn. apply Z.testbit_0_l. }
      rewrite E0 in H. cbn [orb] in H. unfold among in H. apply bool_decide_eq_true in H. by apply flat_map_elem.
    - rewrite Forall_forall in Hf. rewrite Hb by by apply Hf. apply orb_true_iff. right. unfold among. apply bool_decide_eq_true.
      by apply flat_map_elem, H. }
  split_and!; [done | done | done |]. intros it Hit. destruct (Ht it) as (r & Er & Hr). rewrite Er. f_equal. apply Hr.
  intros p Hp. by exists it.
Qed.
End bloom.

(** ** A block is determined by its header *)

Section commitment.
Context `{C : Crypto} `{CS : !CryptoSpec C}.

(** Transactions and uncles of a block that fits into memory. *)
Record body_ok (b : Block) : Prop := {
  bo_txs : Forall (fun t => tx_ok t /\ zlen (tx_bytes t) <= max_size) (transactions b);
  bo_count : zlen (transactions b) < 2 ^ 63;
  bo_uncles : Forall header_ok (uncles b);
  bo_uncles_size : zlen (encode (IList (map (fun h => IStruct (Header.fields h)) (uncles b)))) < 2 ^ 63;
}.

Lemma encode_txs txs : Forall (fun t => tx_ok t /\ zlen (tx_bytes t) <= max_size) txs ->
  encode_all Transaction.EncodeIndex txs = Ok (map tx_bytes txs).
Proof.
  induction 1 as [|t txs [Ht _] _ IH]; [done|]. cbn [encode_all map]. destruct (EncodeIndex_spec t Ht) as [-> _].
  cbn [mbind res_bind]. by rewrite IH.
Qed.

Lemma tx_items_ok txs : Forall (fun t => tx_ok t /\ zlen (tx_bytes t) <= max_size) txs -> zlen txs < 2 ^ 63 ->
  items_ok (map tx_bytes txs).
Proof.
  intros Hf Hl. split; [|by unfold zlen in *; rewrite length_map]. induction Hf as [|t txs [Ht Hs] _ IH]; cbn [map]; constructor.
  - split; [|split; [by apply wf_tx_bytes | done]]. unfold tx_bytes. destruct (struct_head (Transaction.tx_items t)) as (x & r & -> & _).
    by destruct (_ =? _).
  - apply IH. rewrite zlen_cons in Hl. lia.
Qed.

Lemma txs_inj txs txs' : Forall (fun t => tx_ok t /\ zlen (tx_bytes t) <= max_size) txs ->
  Forall (fun t => tx_ok t /\ zlen (tx_bytes t) <= max_size) txs' -> map tx_bytes txs = map tx_bytes txs' -> txs = txs'.
Proof.
  intros Hf. revert txs'. induction Hf as [|t txs [Ht _] _ IH]; intros [|t' txs'] Hf' E; try done. cbn [map] in E.
  apply cons_inj in E as [E1 E2]. apply Forall_cons in Hf' as [[Ht' _] Hf']. f_equal; [by apply tx_bytes_inj | by apply IH].
Qed.

(** Headers are read off their trees. *)
Lemma fields_tree h : map tree_of (Header.fields h) = map (fun it => RString (content it)) (Header.fields h).
Proof. unfold Header.fields. destruct (Header.BaseFee h); reflexivity. Qed.

Lemma header_tree_inj h h' : header_ok h -> header_ok h' ->
  tree_of (IStruct (Header.fields h)) = tree_of (IStruct (Header.fields h')) -> h = h'.
Proof.
  intros H H' E. cbn [tree_of] in E. apply RList_inj in E. rewrite !fields_tree in E. apply contents_inj; [done | done|].
  revert E. generalize (Header.fields h), (Header.fields h'). clear. intros l l'. revert l'.
  induction l as [|a l IH]; intros [|b l'] E; try done. cbn [map] in E. apply cons_inj in E as [E1 E2].
  constructor; [by apply RString_inj | by apply IH].
Qed.

Lemma headers_inj us : forall us', Forall header_ok us -> Forall header_ok us' ->
  map tree_of (map (fun h => IStruct (Header.fields h)) us) = map tree_of (map (fun h => IStruct (Header.fields h)) us') -> us = us'.
Proof.
  induction us as [|u us IH]; intros [|u' us'] H H' E; try done. cbn [map] in E. apply cons_inj in E as [E1 E2].
  apply Forall_cons in H as [Hu H]. apply Forall_cons in H' as [Hu' H']. f_equal; [by apply header_tree_inj | by apply IH].
Qed.

Lemma wf_uncles us : Forall header_ok us -> wf_item (IList (map (fun h => IStruct (Header.fields h)) us)).
Proof. induction 1 as [|u us Hu _ IH]; [done|]. split; [by apply wf_fields | exact IH]. Qed.

Lemma wf_not_negative l : wf_items l -> existsb Transaction.negative_big l = false.
Proof.
  induction l as [|it l IH]; [done|]. intros [Hi Hw]. cbn [existsb]. rewrite IH by done. rewrite orb_false_r.
  destruct it; cbn in *; try done. by apply Z.ltb_ge.
Qed.

Lemma CalcUncleHash_spec us : Forall header_ok us ->
  zlen (encode (IList (map (fun h => IStruct (Header.fields h)) us))) < 2 ^ 63 ->
  CalcUncleHash us = Ok (keccak256 (encode (IList (map (fun h => IStruct (Header.fields h)) us)))).
Proof.
  intros Hf Hl. unfold CalcUncleHash. destruct us as [|u us]; [done|].
  destruct (Z.eqb_spec (zlen (u :: us)) 0) as [E|_]; [rewrite zlen_cons in E; pose proof (zlen_nonneg us); lia|].
  assert (Hn : existsb (fun h => existsb Transaction.negative_big (Header.fields h)) (u :: us) = false).
  { clear Hl. induction Hf as [|v vs Hv _ IH]; [done|]. cbn [existsb]. rewrite IH, orb_false_r. by apply wf_not_negative, wf_fields. }
  rewrite Hn. rewrite EncodeToBytes_spec; [done | by apply wf_uncles | done].
Qed.

Lemma uncles_inj us us' h : Forall header_ok us -> Forall header_ok us' ->
  zlen (encode (IList (map (fun h => IStruct (Header.fields h)) us))) < 2 ^ 63 ->
  zlen (encode (IList (map (fun h => IStruct (Header.fields h)) us'))) < 2 ^ 63 ->
  CalcUncleHash us = Ok h -> CalcUncleHash us' = Ok h -> us = us'.
Proof.
  intros Hf Hf' Hl Hl' E E'. rewrite CalcUncleHash_spec in E, E' by done. rewrite <- E' in E. apply Ok_inj in E.
  apply keccak_inj in E; [|by apply wf_encode, wf_uncles | by apply wf_encode, wf_uncles].
  apply encode_tree_inj in E; [|by apply wf_uncles | by apply wf_uncles | done]. cbn [tree_of] in E. apply RList_inj in E. by apply headers_inj.
Qed.

(** What a body has passed. *)
Lemma ValidateBody_inv chain vu b : ValidateBody chain vu b = Ok None ->
  CalcUncleHash (uncles b) = Ok (Header.UncleHash (header b)) /\
  derive_txs (StackTrie * writer) (transactions b) = Ok (Header.TxHash (header b)).
Proof.
  unfold ValidateBody. destruct (block_Hash b); try done. cbn [mbind res_bind]. destruct (HasBlockAndState _ _ _); [done|].
  destruct (vu b) as [[e|]| |]; try done. cbn [mbind res_bind].
  destruct (CalcUncleHash (uncles b)) as [uh| |]; try done. cbn [mbind res_bind]. destruct (Z.eqb_spec uh (Header.UncleHash (header b))) as [->|]; [|done].
  cbn [negb]. destruct (derive_txs _ _) as [th| |]; try done. cbn [mbind res_bind].
  destruct (Z.eqb_spec th (Header.TxHash (header b))) as [->|]; [done | done].
Qed.

(** C37: The header of a block commits to its body: two well-formed blocks with
    the same header that both pass the body validation, in whatever chains and
    with whatever engines, have the same transactions and the same uncles
    (unless nodes of their transaction tries collide). *)
Theorem headers_commit_to_bodies chain1 chain2 vu1 vu2 b1 b2 : body_ok b1 -> body_ok b2 -> header b1 = header b2 ->
  ValidateBody chain1 vu1 b1 = Ok None -> ValidateBody chain2 vu2 b2 = Ok None ->
  keccak256 [128] = emptyRoot ->
  collision_free (index_map (map tx_bytes (transactions b1))) (index_map (map tx_bytes (transactions b2))) ->
  b1 = b2.
Proof.
  intros [T1 L1 U1 S1] [T2 L2 U2 S2] Eh V1 V2 He Hcf. apply ValidateBody_inv in V1 as [Eu1 Et1]. apply ValidateBody_inv in V2 as [Eu2 Et2].
  rewrite <- Eh in Eu2, Et2. unfold derive_txs in Et1, Et2. rewrite encode_txs in Et1, Et2 by done. cbn [mbind res_bind] in Et1, Et2.
  pose proof (derive_sha_inj (H0 := no_nodes) _ _ _ (tx_items_ok _ T1 L1) (tx_items_ok _ T2 L2) He Hcf Et1 Et2) as Etx. apply txs_inj in Etx; [|done|done].
  pose proof (uncles_inj _ _ _ U1 U2 S1 S2 Eu1 Eu2) as Eun. destruct b1, b2. cbn in *. by subst.
Qed.

(** The root of the empty list. *)
Lemma derive_nothing : DeriveSha (T := StackTrie * writer) [] = Ok Header.EmptyRootHash.
Proof. by vm_compute. Qed.

(** What NewBlock assembles, the validator accepts: its header carries
    the roots of the transactions, uncles and receipts given, so the body check
    of a block that is not yet known, whose uncles the engine accepts and whose
    parent's state is present succeeds; and so does the state check for the
    receipts it was made from, the gas used and the state root in its header.
    The bloom filter is only set when there are receipts. *)
Theorem new_blocks_validate chain vu h txs us receipts b hash :
  NewBlock (StackTrie * writer) h txs us receipts = Ok b -> block_Hash b = Ok hash ->
  (HasBlockAndState chain hash (NumberU64 b) = false -> vu b = Ok None ->
   HasBlockAndState chain (Header.ParentHash h) (sub64 (NumberU64 b) 1) = true ->
   ValidateBody chain vu b = Ok None) /\
  (receipts <> [] \/ Header.Bloom h = emptyBloom ->
   ValidateState b (Header.Root h) receipts (Header.GasUsed h) = Ok None) /\
  transactions b = txs /\ uncles b = us /\ (receipts = [] -> Header.Bloom (header b) = Header.Bloom h).
Proof.
  unfold NewBlock. intros E Eh.
  assert (Hlen : forall A (l : list A), l <> [] -> (zlen l =? 0) = false).
  { intros A [|x l] Hl; [done|]. apply Z.eqb_neq. rewrite zlen_cons. pose proof (zlen_nonneg l). lia. }
  destruct (if zlen txs =? 0 then _ else _) as [txHash| |] eqn:Etx; try done. cbn [mbind res_bind] in E.
  destruct (if zlen receipts =? 0 then _ else _) as [[rh bl]| |] eqn:Er; try done. cbn [mbind res_bind] in E.
  destruct (if zlen us =? 0 then _ else _) as [uh| |] eqn:Eu; try done. cbn [mbind res_bind] in E. injection E as <-.
  assert (Htx : derive_txs (StackTrie * writer) txs = Ok txHash).
  { destruct (decide (txs = [])) as [->|Hne]; [|by rewrite Hlen in Etx]. cbn in Etx. injection Etx as <-. exact derive_nothing. }
  assert (Hu : CalcUncleHash us = Ok uh) by (destruct (decide (us = [])) as [->|Hne]; [done | by rewrite Hlen in Eu]).
  split_and!; [| | done | done |].
  - intros Hnew Hvu Hpar. unfold ValidateBody. rewrite Eh. cbn [mbind res_bind]. rewrite Hnew, Hvu. cbn [mbind res_bind uncles].
    rewrite Hu. cbn [mbind res_bind header set_roots Header.UncleHash]. rewrite Z.eqb_refl. cbn [negb transactions].
    rewrite Htx. cbn [mbind res_bind Header.TxHash Header.ParentHash]. rewrite Z.eqb_refl. cbn [negb].
    change (Header.ParentHash (set_roots txHash rh uh bl h)) with (Header.ParentHash h). by rewrite Hpar.
  - intros Hbl. unfold ValidateState. cbn [header set_roots Header.GasUsed Header.Bloom Header.ReceiptHash Header.Root].
    rewrite Z.eqb_refl. cbn [negb].
    assert (Hr : derive_receipts (StackTrie * writer) receipts = Ok rh /\ CreateBloom receipts = Ok bl).
    { destruct (decide (receipts = [])) as [->|Hne].
      - cbn in Er. injection Er as <- <-. destruct Hbl as [?|Hbl]; [done|]. split; [exact derive_nothing|]. by rewrite Hbl.
      - rewrite Hlen in Er by done. destruct (derive_receipts _ receipts) as [x| |]; try done. cbn [mbind res_bind] in Er.
        destruct (CreateBloom receipts) as [y| |]; try done. by injection Er as <- <-. }
    destruct Hr as [-> ->]. cbn [mbind res_bind]. rewrite bool_decide_true by done. cbn [negb mbind res_bind]. by rewrite !Z.eqb_refl.
  - intros ->. cbn in Er. by injection Er as _ <-.
Qed.
End commitment.

(** ** A block with one uncle and no transactions *)

Lemma spelled_bounds a : wf_bytes a -> 256 ^ zlen a <= be_value (1 :: a) < 2 * 256 ^ zlen a.
Proof. intros Ha. rewrite be_value_cons. pose proof (be_value_bound a Ha). lia. Qed.

(** No string spells the hash of the empty trie. *)
Lemma spelled_not_empty a : wf_bytes a -> be_value (1 :: a) <> emptyRoot.
Proof.
  intros Ha E. pose proof (spelled_bounds a Ha) as B. rewrite E in B. clear E.
  assert (H1 : 2 * 256 ^ 31 < emptyRoot < 256 ^ 32) by by compute.
  destruct (Z.le_gt_cases (zlen a) 31) as [L|L].
  - apply (Z.pow_le_mono_r 256) in L; lia.
  - assert (L' : 32 <= zlen a) by lia. apply (Z.pow_le_mono_r 256) in L'; lia.
Qed.

#[export] Instance trie_crypto_ok : CryptoSpec trie_crypto.
Proof.
  split.
  - intros a b Ha Hb. cbn [keccak256 trie_crypto]. do 2 case_bool_decide; subst; [done | | |by apply Instances.toy_keccak_inj].
    + intros E. by destruct (spelled_not_empty b Hb).
    + intros E. by destruct (spelled_not_empty a Ha).
  - intros b. split; [|done]. repeat constructor; by compute.
  - intros b. split; [|done]. repeat constructor; by compute.
  - done.
Qed.

Definition one_uncle : list Header := [Header.sample_header None].

Definition uncle_block : Block :=
  mkBlock (set_roots Header.EmptyRootHash Header.EmptyRootHash (be_value (1 :: encode (IList [IStruct (Header.fields (Header.sample_header None))])))
    (replicate 256 0) (Header.sample_header (Some 7))) one_uncle [].

(** A chain that holds the state of the parent, the sixth block. *)
Definition parent_known : ChainState := mkChainState (fun _ n => n =? 6) (fun _ n => n =? 6).

Definition no_uncle_rules (b : Block) : res (option ConsensusErr) := Ok None.

Lemma empty_self_free `{C : Crypto} : collision_free ∅ ∅.
Proof.
  intros t1 t2 C1 C2 M1 M2 s1 s2 I1 I2 _. rewrite (holds_unique t1 TNil ∅ C1 (or_introl eq_refl) M1 holds_empty) in I1.
  rewrite (holds_unique t2 TNil ∅ C2 (or_introl eq_refl) M2 holds_empty) in I2. inversion I1. inversion I2. by subst.
Qed.

Lemma uncle_block_ok : body_ok uncle_block.
Proof.
  split.
  - constructor.
  - by compute.
  - change (uncles uncle_block) with one_uncle. constructor; [|constructor]. by apply Header.sample_header_ok.
  - by vm_compute.
Qed.

Lemma headers_commit_to_bodies_witness : exists b, b = uncle_block /\ zlen (uncles b) = 1.
Proof.
  exists (mkBlock (header uncle_block) one_uncle []). split; [|done].
  apply (headers_commit_to_bodies (C := trie_crypto) parent_known parent_known no_uncle_rules no_uncle_rules).
  - exact uncle_block_ok.
  - exact uncle_block_ok.
  - reflexivity.
  - vm_compute. reflexivity.
  - vm_compute. reflexivity.
  - reflexivity.
  - apply empty_self_free.
Defined.

Lemma new_blocks_validate_witness :
  ValidateBody (H := trie_crypto) parent_known no_uncle_rules uncle_block = Ok None /\
  ValidateState (H := trie_crypto) uncle_block 4 [] 0 = Ok None.
Proof.
  destruct (new_blocks_validate (C := trie_crypto) parent_known no_uncle_rules (Header.sample_header (Some 7)) [] one_uncle [] uncle_block
    (match block_Hash (H := trie_crypto) uncle_block with Ok h => h | _ => 0 end)) as (H1 & H2 & _).
  - vm_compute. reflexivity.
  - vm_compute. reflexivity.
  - split; [apply H1; reflexivity|]. apply H2. right. reflexivity.
Defined.
