(* ===== verification/Processor.v ===== *)
(** * Processing a block ([blockchain/state_processor.go], [blockchain/evm.go])

    The transactions of a block are turned into messages and applied one after
    the other, with the root of the state taken after each for its receipt; at the
    end the engine pays its rewards.  The state is any implementation of the
    machine's interface that also has the methods of [BlockState]. *)

From S2P Require Import Prelude Uint256 Config Common Rlp EvmStack EvmState EvmCalls EvmInstructions EvmJumpTable EvmInterpreter.
From S2P Require Import StateTransition Header Transaction Block Ethash.

Local Open Scope Z_scope.

(** ** What the processor needs of [state.StateDB] beyond the machine's interface *)
Class BlockState (DB : Type) := {
  Prepare : Hash -> Z -> DB -> DB;
  IntermediateRoot : bool -> DB -> res (Hash * DB);
  GetLogs : DB -> Hash -> list Log;
  TxIndex : DB -> Z;
}.

Module Processor.

Import Transaction Block.

(** ** [GetHashFn]: the closure with its cache of ancestors *)

Section blockhash.
Variable GetHeader : Hash -> Z -> option Header.

Fixpoint walk (fuel : nat) (n : Z) (lastKnownHash : Hash) (lastKnownNumber : Z) (cache : list Hash) : res (Hash * list Hash) :=
  match fuel with
  | O => NoFuel
  | S fuel =>
    match GetHeader lastKnownHash lastKnownNumber with
    | None => Ok (0, cache)
    | Some header =>
      let cache := cache ++ [Header.ParentHash header] in
      let lastKnownNumber := sub64 (big_Uint64 (Header.Number header)) 1 in
      if n =? lastKnownNumber then Ok (Header.ParentHash header, cache)
      else walk fuel n (Header.ParentHash header) lastKnownNumber cache
    end
  end.

(** Numbers fall with every header: one round more than the number is enough. *)
Definition GetHash (ref : Header) (n : Z) (cache : list Hash) : res (Hash * list Hash) :=
  let number := big_Uint64 (Header.Number ref) in
  if number <=? n then Ok (0, cache)
  else
    let cache := if zlen cache =? 0 then [Header.ParentHash ref] else cache in
    let idx := sub64 (sub64 number n) 1 in
    if idx <? zlen cache then h ← nth_or_panic cache idx; Ok (h, cache)
    else
      lastKnownHash ← nth_or_panic cache (zlen cache - 1);
      walk (Z.to_nat number + 1) n lastKnownHash (sub64 number (zlen cache)) cache.
End blockhash.

(** ** [NewEVMBlockContext] and [NewEVMTxContext] *)

(** [author] is the beneficiary given, or what the engine extracts from the
    header; [getHash] is the closure of [GetHashFn]. *)
Definition NewEVMBlockContext (c : ChainConfig) (header : Header) (author : Address) (getHash : Z -> Hash) : Env :=
  mkEnv getHash author (Header.GasLimit header) (Header.Number header) (Header.Time header) (Header.Difficulty header)
    (Header.BaseFee header) (if Header.Difficulty header =? 0 then Some (Header.MixDigest header) else None)
    0 0 c false [].

Definition NewEVMTxContext (msg : Message) (env : Env) : Env :=
  mkEnv (eGetHash env) (Coinbase env) (GasLimit env) (BlockNumber env) (Time env) (Difficulty env) (BaseFee env) (Random env)
    (From msg) (mGasPrice msg) (chainConfig env) (EnablePreimageRecording env) (ExtraEips env).

Section process.
Context `{U : Uint256} `{C : Crypto} {DB : Type} `{SDB : StateDB DB} `{BSD : BlockState DB}.

Definition set_bloom (b : bytes) (r : Receipt) : Receipt :=
  mkReceipt (rType r) (PostState r) (Status r) (CumulativeGasUsed r) b (Logs r) (rTxHash r) (ContractAddress r)
    (rGasUsed r) (rBlockHash r) (rBlockNumber r) (TransactionIndex r).

(** [applyTransaction]: the receipt or the error, the gas of the block left, the
    gas used so far, and the machine. *)
Definition applyTransaction (env : Env) (jt : JumpTable) (NoBaseFee : bool) (msg : Message) (tx : TxData)
    (blockNumber : Z) (blockHash : Hash) (gp usedGas : Z) (vm : EVM DB)
    : res ((Receipt + TxErr) * Z * Z * EVM DB) :=
  let env := NewEVMTxContext msg env in
  '(result, st) ← ApplyMessage env jt NoBaseFee msg gp vm;
  match result with
  | inr e => Ok (inr e, StateTransition.gp st, usedGas, StateTransition.vm st)
  | inl result =>
    '(root, d) ← IntermediateRoot false (db (StateTransition.vm st));
    let usedGas := add64 usedGas (UsedGas result) in
    let status := if Failed result then ReceiptStatusFailed else ReceiptStatusSuccessful in
    hash ← tx_Hash tx;
    contract ← (match To msg with None => CreateAddress (Origin env) (nonce tx) | Some _ => Ok 0 end);
    let receipt := mkReceipt (txType tx) (be_bytes 32 root) status usedGas emptyBloom (GetLogs d hash) hash contract
                     (UsedGas result) blockHash blockNumber (u64 (TxIndex d)) in
    bloom ← CreateBloom [receipt];
    Ok (inl (set_bloom bloom receipt), StateTransition.gp st, usedGas, set_db d (StateTransition.vm st))
  end.

Inductive ProcessErr := errMessage (i : Z) (e : TxSigErr) | errApply (i : Z) (e : TxErr).

(** The loop of [Process].  The sender cache of the transactions is left out:
    recovering the sender gives what is cached. *)
Fixpoint process_txs (env : Env) (jt : JumpTable) (NoBaseFee : bool) (signer : Signer) (blockHash : Hash)
    (i : Z) (txs : list TxData) (gp usedGas : Z) (vm : EVM DB)
    : res ((list Receipt * Z + ProcessErr) * EVM DB) :=
  match txs with
  | [] => Ok (inl ([], usedGas), vm)
  | tx :: txs =>
    '(m, _) ← AsMessage signer (BaseFee env) (NewTx 0 tx);
    match m with
    | inr e => Ok (inr (errMessage i e), vm)
    | inl msg =>
      hash ← tx_Hash tx;
      let vm := set_db (Prepare hash i (db vm)) vm in
      '(r, gp, usedGas, vm) ← applyTransaction env jt NoBaseFee msg tx (BlockNumber env) blockHash gp usedGas vm;
      match r with
      | inr e => Ok (inr (errApply i e), vm)
      | inl receipt =>
        '(rest, vm) ← process_txs env jt NoBaseFee signer blockHash (i + 1) txs gp usedGas vm;
        match rest with
        | inl (receipts, usedGas) => Ok (inl (receipt :: receipts, usedGas), vm)
        | inr e => Ok (inr e, vm)
        end
      end
    end
  end.

(** [NewEVM]: a new machine over the state. *)
Definition NewEVM (d : DB) : EVM DB := mkEVM d 0 0 false false [] ∅.

(** [Process]: receipts, logs and the gas used; [finalize] is the engine's. *)
Definition Process (c : ChainConfig) (NoBaseFee : bool) (getHash : Z -> Hash) (author : Address)
    (finalize : Header -> list Header -> DB -> res DB) (b : Block) (d : DB)
    : res ((list Receipt * list Log * Z + ProcessErr) * DB) :=
  let h := header b in
  blockHash ← block_Hash b;
  gp ← GasPool_AddGas 0 (Header.GasLimit h);
  let env := NewEVMBlockContext c h author getHash in
  jt ← selectInstructionSet (chainRules env);
  '(r, vm) ← process_txs env jt NoBaseFee (MakeSigner c (Header.Number h)) blockHash 0 (transactions b) gp 0 (NewEVM d);
  match r with
  | inr e => Ok (inr e, db vm)
  | inl (receipts, usedGas) =>
    d ← finalize h (uncles b) (db vm);
    Ok (inl (receipts, flat_map Logs receipts, usedGas), d)
  end.

(** [Ethash.Finalize], on the copy of the header [Process] gives it. *)
Definition ethash_Finalize (h : Header) (us : list Header) (d : DB) : res DB :=
  '(_, d) ← IntermediateRoot false (accumulateRewards h us d); Ok d.
End process.
End Processor.
