(* ===== verification/ProcessorSpec.v ===== *)
(** * Theorems on the processing of blocks

    Processing a block accounts for its gas; [BLOCKHASH] names ancestors; the
    state database with its tries is an implementation the processor can use. *)

From S2P Require Import Prelude Uint256 Config Common Rlp EvmStack EvmState EvmCalls EvmInstructions EvmJumpTable EvmInterpreter.
From S2P Require Import EvmSpec EvmInvariant EvmExec EvmCallSpec EvmSafety EvmTheorems StateTransition TransitionSpec Header Transaction TransactionSpec Block BlockSpec Ethash Processor.

Import Transaction Block Processor.

Local Open Scope Z_scope.

(** ** What the processor relies on *)
Class BlockStateSpec (DB : Type) `{SDB : StateDB DB} `{C : Crypto} `{BSD : BlockState DB} `{!StateDBSpec DB} : Prop := {
  prepare_db_ok d h i : db_ok d -> db_ok (Prepare h i d);
  root_db_ok d b h d' : db_ok d -> IntermediateRoot b d = Ok (h, d') -> db_ok d';
}.

Section process.
Context `{U : Uint256} `{US : !Uint256Spec U} `{C : Crypto} `{CS : !CryptoSpec C}.
Context {DB : Type} `{SDB : StateDB DB} `{BSD : BlockState DB} `{DS : !StateDBSpec DB} `{BS : !BlockStateSpec DB}.

(** A computation that only fails where the machine may fail, or the root of the
    state cannot be computed. *)
Definition wpr {A} (m : res A) (Q : A -> Prop) : Prop :=
  match m with
  | Ok a => Q a
  | Panic p => p = PanicRefund \/ p = PanicAccessList \/ exists b d, db_ok d /\ IntermediateRoot b d = Panic p
  | NoFuel => exists b d, db_ok d /\ IntermediateRoot b d = NoFuel
  end.

Lemma wpr_bind {A B} (m : res A) (k : A -> res B) Q : wpr m (fun a => wpr (k a) Q) -> wpr (m ≫= k) Q.
Proof. by destruct m. Qed.

Lemma wpr_use {A B} (m : res A) (k : A -> res B) P Q : wpr m P -> (forall a, P a -> wpr (k a) Q) -> wpr (m ≫= k) Q.
Proof. intros H1 H2. apply wpr_bind. destruct m; [by apply H2 | done | done]. Qed.

Lemma wp_wpr {A} (m : res A) Q : wp m Q -> wpr m Q.
Proof. destruct m as [x|p|]; [done | |done]. cbn. tauto. Qed.

Lemma wpr_root b d : db_ok d -> wpr (IntermediateRoot b d) (fun '(_, d') => db_ok d').
Proof.
  intros H. destruct (IntermediateRoot b d) as [[h d']|p|] eqn:E; cbn; [by eapply root_db_ok | right; right; eauto | eauto].
Qed.

(** ** Senders *)

Lemma plain_Sender_total s hs t : tx_ok t -> (forall c, signer_ChainID s = Some c -> 0 <= c < 2 ^ 1024) ->
  exists r, plain_Sender s hs t = Ok r.
Proof.
  intros Ht Hc. unfold plain_Sender. destruct (negb _); [by eexists|]. destruct (rawSignatureValues t) as [[V R] Sg].
  destruct (signer_Hash_total s t Ht Hc) as [h ->]. cbn [mbind res_bind]. unfold recoverPlain. repeat case_match; by eexists.
Qed.

Lemma recoverPlain_total h R Sg V hs : exists r, recoverPlain h R Sg V hs = Ok r.
Proof. unfold recoverPlain. repeat case_match; by eexists. Qed.

Lemma signer_Sender_total s t : tx_ok t -> (forall c, signer_ChainID s = Some c -> 0 <= c < 2 ^ 1024) ->
  exists r, signer_Sender s t = Ok r.
Proof.
  intros Ht Hc.
  assert (Hplain : exists r, plain_Sender HomesteadSigner true t = Ok r) by (apply plain_Sender_total; [done | done]).
  assert (H155 : forall c, 0 <= c < 2 ^ 1024 -> exists h, eip155_Hash c t = Ok h).
  { intros c Hb. apply (signer_Hash_total (EIP155Signer c) t Ht). by intros c' [= <-]. }
  assert (H2930 : forall c, 0 <= c < 2 ^ 1024 -> exists r, eip2930_Sender c t = Ok r).
  { intros c Hb. unfold eip2930_Sender. destruct (rawSignatureValues t) as [[V R] Sg].
    destruct (_ && _); [done|]. destruct (_ && _); [by eexists|]. destruct (negb _); [by eexists|].
    destruct (signer_Hash_total (eip2930Signer c) t Ht ltac:(by intros c' [= <-])) as [h Eh].
    change (signer_Hash (eip2930Signer c) t) with (eip2930_Hash c t) in Eh. rewrite Eh. apply recoverPlain_total. }
  destruct s as [| |c|c|c]; cbn [signer_Sender].
  - by apply plain_Sender_total.
  - done.
  - unfold eip155_Sender. destruct (negb _); [by eexists|]. destruct (negb _); [done|]. destruct (negb _); [by eexists|].
    destruct (rawSignatureValues t) as [[V R] Sg]. destruct (H155 c) as [h ->]; [by apply Hc|]. apply recoverPlain_total.
  - by apply H2930, Hc.
  - destruct (negb _); [by apply H2930, Hc|]. destruct (rawSignatureValues t) as [[V R] Sg]. destruct (negb _); [by eexists|].
    destruct (signer_Hash_total (londonSigner c) t Ht Hc) as [h ->]. apply recoverPlain_total.
Qed.

Lemma AsMessage_spec s base t : tx_ok t -> (forall c, signer_ChainID s = Some c -> 0 <= c < 2 ^ 1024) ->
  exists r tx', AsMessage s base (NewTx 0 t) = Ok (r, tx') /\
    match r with
    | inl msg => signer_Sender s t = Ok (inl (From msg)) /\ To msg = to t /\ mGas msg = gas t /\ Nonce msg = nonce t /\
        Data msg = data t /\ GasFeeCap msg = Some (gasFeeCap t) /\ GasTipCap msg = Some (gasTipCap t) /\ Value msg = value t
    | inr e => signer_Sender s t = Ok (inr e)
    end.
Proof.
  intros Ht Hc. unfold AsMessage, Sender. cbn [from NewTx inner]. destruct (signer_Sender_total s t Ht Hc) as [r E]. rewrite E.
  cbn [mbind res_bind]. destruct r as [a|e]; cbn [mbind res_bind]; do 2 eexists; (split; [done|]); [|done].
  cbn. done.
Qed.

(** ** One transaction *)

(** The environment of the block, and a transaction that fits into memory. *)
Definition fits (t : TxData) : Prop := tx_ok t /\ small (data t).

Lemma tx_env_rules msg env : chainRules (NewEVMTxContext msg env) = chainRules env.
Proof. done. Qed.

Lemma tx_env_ok msg env : env_ok env -> env_ok (NewEVMTxContext msg env).
Proof. done. Qed.

(** The machine between two transactions. *)
Definition idle (vm : EVM DB) : Prop := vm_ok vm /\ readOnly vm = false.

Lemma idle_db vm d : idle vm -> db_ok d -> idle (set_db d vm).
Proof. intros [[H1 H2 H3 H4] Hr] Hd. by split; [split|]. Qed.

(** The receipt of a transaction after [used] gas. *)
Record receipt_ok (t : TxData) (used : Z) (r : Receipt) : Prop := {
  rc_hash : tx_Hash t = Ok (rTxHash r);
  rc_type : rType r = txType t;
  rc_gas : 0 <= rGasUsed r <= gas t;
  rc_sum : CumulativeGasUsed r = used + rGasUsed r;
  rc_root : zlen (PostState r) = 32;
  rc_bloom : CreateBloom [r] = Ok (rBloom r);
}.

Lemma applied_idle env jt msg gp (vm : EVM DB) r st : tx_ready env jt msg gp vm -> applied env msg gp vm r st -> idle (StateTransition.vm st).
Proof.
  intros [He Ht Hm Hgp Hv Hro] (ig & left & e2 & refund & tip & _ & _ & (_ & V2 & R2 & _) & _ & _ & _ & _ & ->).
  cbn [StateTransition.vm].
  destruct (upd_ok (DAddBalance (From msg) ((left + refund) * mGasPrice msg)) _ e2 V2 I (fun _ => eq_refl)) as [V3 R3].
  destruct (upd_ok (DAddBalance (Coinbase env) (UsedGas r * tip)) _ _ V3 I (fun _ => eq_refl)) as [V4 R4].
  split; [exact V4|]. by rewrite (rel_readOnly _ _ _ R4), (rel_readOnly _ _ _ R3), (rel_readOnly _ _ _ R2).
Qed.

Lemma CreateBloom_total rs : exists b, CreateBloom rs = Ok b.
Proof. destruct (adds_receipts rs emptyBloom) as (b & E & _); [by vm_compute | by exists b]. Qed.

Lemma CreateBloom_set b r : CreateBloom [set_bloom b r] = CreateBloom [r].
Proof. done. Qed.

Lemma applyTransaction_spec env jt nbf msg t bn bh gp used (vm : EVM DB) : tx_ready (NewEVMTxContext msg env) jt msg gp vm ->
  fits t -> mGas msg = gas t -> 0 <= used -> used + gp < 2 ^ 64 ->
  wpr (applyTransaction env jt nbf msg t bn bh gp used vm) (fun '(r, gp', used', vm') =>
    match r with
    | inl r => receipt_ok t used r /\ rGasUsed r <= gp /\ gp' = gp - rGasUsed r /\ used' = used + rGasUsed r /\ idle vm'
    | inr _ => True
    end).
Proof.
  intros Hr [Ht Hs] Hg Hu Hsum. unfold applyTransaction. set (env' := NewEVMTxContext msg env) in *.
  eapply wpr_use; [apply wp_wpr, (transition_spec env' jt nbf msg gp vm Hr)|]. intros [[r|e] st]; [|done].
  intros [Hacc Happ]. pose proof (applied_idle _ _ _ _ _ _ _ Hr Happ) as Hid.
  destruct Happ as (ig & left & e2 & refund & tip & _ & Hig & (Hleft & _) & Href & _ & _ & HU & Est).
  assert (Hq : (mGas msg - left) / quotient env' <= mGas msg - left).
  { apply refund_cap. lia. }
  assert (Hused : 0 <= UsedGas r <= mGas msg) by lia. pose proof (ac_pool _ _ _ _ _ Hacc) as Hpool.
  eapply wpr_use; [apply wpr_root, (ok_db _ (proj1 Hid))|]. intros [root d] Hd. cbv zeta.
  rewrite (tx_Hash_spec t Ht). cbn [mbind res_bind].
  assert (Hc : exists c, match To msg with None => CreateAddress (Origin env') (nonce t) | Some _ => Ok 0 end = Ok c).
  { destruct (To msg); [by eexists|]. apply CreateAddress_Ok, Ht. }
  destruct Hc as [c ->]. cbn [mbind res_bind].
  match goal with |- context [CreateBloom [?x]] => destruct (CreateBloom_total [x]) as [b Eb]; rewrite Eb end. cbn [mbind res_bind wpr].
  split; [|split; [cbn; lia|]; split; [cbn [rGasUsed set_bloom]; by rewrite Est|]; split; [cbn; apply add64_small; lia | by apply idle_db]].
  split; cbn [rTxHash rType rGasUsed CumulativeGasUsed PostState rBloom set_bloom].
  - by apply tx_Hash_spec.
  - done.
  - by rewrite <- Hg.
  - apply add64_small; lia.
  - apply zlen_be_bytes.
  - by rewrite CreateBloom_set.
Qed.

(** ** The transactions of a block *)

(** Receipts of transactions, in order, with their gas summed up. *)
Fixpoint receipts_ok (used : Z) (txs : list TxData) (rs : list Receipt) (total : Z) : Prop :=
  match txs, rs with
  | [], [] => total = used
  | t :: txs, r :: rs => receipt_ok t used r /\ receipts_ok (used + rGasUsed r) txs rs total
  | _, _ => False
  end.

(** Why the block was refused: a sender that cannot be recovered, or a message
    that was not accepted. *)
Definition refused (signer : Signer) (i : Z) (txs : list TxData) (e : ProcessErr) : Prop :=
  match e with
  | errMessage j er => i <= j /\ exists t, txs !! Z.to_nat (j - i) = Some t /\ signer_Sender signer t = Ok (inr er)
  | errApply j _ => i <= j /\ exists t a, txs !! Z.to_nat (j - i) = Some t /\ signer_Sender signer t = Ok (inl a)
  end.

Lemma refused_cons signer i t txs e : refused signer (i + 1) txs e -> refused signer i (t :: txs) e.
Proof.
  assert (Hl : forall j, i + 1 <= j -> (t :: txs) !! Z.to_nat (j - i) = txs !! Z.to_nat (j - (i + 1))).
  { intros j Hj. replace (Z.to_nat (j - i)) with (S (Z.to_nat (j - (i + 1)))) by lia. done. }
  destruct e as [j er|j er]; cbn; intros [Hj H]; (split; [lia|]); by rewrite Hl.
Qed.

Lemma refused_here signer i t txs e : (match e with errMessage j er => j = i /\ signer_Sender signer t = Ok (inr er)
  | errApply j _ => j = i /\ exists a, signer_Sender signer t = Ok (inl a) end) -> refused signer i (t :: txs) e.
Proof.
  destruct e as [j er|j er]; cbn; intros [-> H]; (split; [lia|]); rewrite Z.sub_diag; cbn; [by exists t|].
  destruct H as [a H]. by exists t, a.
Qed.

(** The environment is that of a block. *)
Record block_env (env : Env) (jt : JumpTable) (signer : Signer) : Prop := {
  be_env : env_ok env;
  be_table : selectInstructionSet (chainRules env) = Ok jt;
  be_london : IsLondon (chainRules env) = true -> is_Some (BaseFee env);
  be_chain : forall c, signer_ChainID signer = Some c -> 0 <= c < 2 ^ 1024;
}.

Lemma process_txs_spec env jt nbf signer bh txs : block_env env jt signer -> Forall fits txs ->
  forall i gp used (vm : EVM DB), idle vm -> 0 <= gp -> 0 <= used -> used + gp < 2 ^ 64 ->
  wpr (process_txs env jt nbf signer bh i txs gp used vm) (fun '(r, vm') =>
    match r with
    | inl (rs, total) => receipts_ok used txs rs total /\ total <= used + gp /\ idle vm'
    | inr e => refused signer i txs e
    end).
Proof.
  intros [He Ht Hl Hc]. induction 1 as [|t txs Hf _ IH]; intros i gp used vm Hid Hgp Hu Hsum; cbn [process_txs].
  { cbn. split; [done|]. split; [lia | done]. }
  destruct (AsMessage_spec signer (BaseFee env) t (proj1 Hf) Hc) as (m & tx' & -> & Hm). cbn [mbind res_bind].
  destruct m as [msg|e]; [|by apply refused_here].
  destruct Hm as (Hsend & Hto & Hgas & Hnonce & Hdata & Hcap & Htip & _).
  rewrite (tx_Hash_spec t (proj1 Hf)). cbn [mbind res_bind]. set (vm1 := set_db _ vm).
  assert (Hid1 : idle vm1) by (apply idle_db; [done|]; apply prepare_db_ok; by apply ok_db, Hid).
  assert (Hr : tx_ready (NewEVMTxContext msg env) jt msg gp vm1).
  { split; [done | done | | unfold is_u64; lia | apply Hid1 | apply Hid1].
    destruct Hf as [Hf Hs]. split; [rewrite Hgas; apply Hf | rewrite Hnonce; apply Hf | by rewrite Hdata | | done].
    intros _. rewrite Hcap, Htip. split; by eexists. }
  eapply wpr_use; [by apply applyTransaction_spec|]. intros [[[r gp'] used'] vm'] H.
  destruct r as [r|e]; [|apply refused_here; split; [done | by eexists]].
  destruct H as (Hrc & Hle & -> & -> & Hid'). pose proof (rc_gas _ _ _ Hrc) as Hg.
  eapply wpr_use; [apply IH; [done | lia | lia | lia]|]. intros [[[rs total]|e] vm2] H2; cbn [wpr].
  - destruct H2 as (Hrs & Htot & Hid2). split; [by split|]. split; [lia | done].
  - by apply refused_cons.
Qed.

(** ** The block *)

Lemma add_balance_ok a v d : db_ok d -> db_ok (AddBalance a v d).
Proof. intros H. by apply (op_db_ok d (DAddBalance a v)). Qed.

Lemma rewards_ok h us d : db_ok d -> db_ok (accumulateRewards h us d).
Proof.
  intros Hd. unfold accumulateRewards. generalize FrontierBlockReward as rw.
  revert d Hd. induction us as [|u us IH]; intros d Hd rw; cbn [rewardUncles]; [by apply add_balance_ok|].
  by apply IH, add_balance_ok.
Qed.

(** C24: Processing a block returns, unless the machine panics as it may or
    the root of the state cannot be computed, and accounts for the gas.  A
    processed block has one receipt for each transaction, in order, with its
    hash and type; every receipt uses at most the gas limit of its transaction
    and sums up the gas used so far without overflow; the total is at most the
    gas limit of the block, and the logs are those of the receipts.  A refused
    block names the transaction: its sender cannot be recovered, or its message
    was not accepted. *)
Theorem blocks_account_for_gas c nbf getHash author b d :
  let env := NewEVMBlockContext c (header b) author getHash in
  let signer := MakeSigner c (Header.Number (header b)) in
  header_ok (header b) -> env_ok env -> (IsLondon (chainRules env) = true -> is_Some (BaseFee env)) ->
  (forall k, signer_ChainID signer = Some k -> 0 <= k < 2 ^ 1024) -> Forall fits (transactions b) -> db_ok d ->
  match Process c nbf getHash author ethash_Finalize b d with
  | Ok (inl (rs, logs, total), d') =>
    receipts_ok 0 (transactions b) rs total /\ total <= Header.GasLimit (header b) /\ logs = flat_map Logs rs /\ db_ok d'
  | Ok (inr e, _) => refused signer 0 (transactions b) e
  | Panic p => p = PanicRefund \/ p = PanicAccessList \/ exists b d, db_ok d /\ IntermediateRoot b d = Panic p
  | NoFuel => exists b d, db_ok d /\ IntermediateRoot b d = NoFuel
  end.
Proof.
  intros env signer Hh He Hl Hc Hf Hd.
  enough (W : wpr (Process c nbf getHash author ethash_Finalize b d) (fun '(r, d') =>
    match r with
    | inl (rs, logs, total) => receipts_ok 0 (transactions b) rs total /\ total <= Header.GasLimit (header b) /\ logs = flat_map Logs rs /\ db_ok d'
    | inr e => refused signer 0 (transactions b) e
    end)) by (destruct (Process _ _ _ _ _ _ _) as [[[[[rs logs] total]|e] d']|p|]; exact W).
  unfold Process. fold env. fold signer. unfold block_Hash. rewrite Header.Hash_spec by done. cbn [mbind res_bind].
  pose proof (ho_gas _ Hh) as (Hg & _). unfold is_u64 in Hg. unfold GasPool_AddGas, MaxUint64. rewrite sub64_small by lia.
  destruct (_ >? _) eqn:Egp; to_prop; [lia|]. cbn [mbind res_bind]. rewrite add64_small by lia. rewrite Z.add_0_l.
  destruct (selectInstructionSet_ok env He) as (jt & Ej & _). rewrite Ej. cbn [mbind res_bind].
  eapply wpr_use.
  { apply (process_txs_spec env jt nbf signer _ (transactions b)); [by split | done | | lia | lia | lia].
    split; [split; [done | by compute | apply small_nil | intros h a Hx; cbn [jumpdests NewEVM] in Hx; by rewrite lookup_empty in Hx] | done]. }
  intros [[[rs total]|e] vm] H; [|done]. destruct H as (Hrs & Ht & Hid). unfold ethash_Finalize.
  assert (Hrw : db_ok (accumulateRewards (header b) (uncles b) (db vm))) by by apply rewards_ok, ok_db, Hid.
  apply wpr_bind. pose proof (wpr_root false _ Hrw) as W. destruct (IntermediateRoot _ _) as [[h d']|p|]; [|exact W | exact W].
  cbn. split; [done|]. split; [lia|]. done.
Qed.
End process.

(** ** Block hashes *)

Section blockhash.
Context (GetHeader : Hash -> Z -> option Header) (ref : Header).

(** [GetHeader] returns the header of the block with the number asked for. *)
Hypothesis numbered : forall h n hd, GetHeader h n = Some hd -> big_Uint64 (Header.Number hd) = n.

Definition number : Z := big_Uint64 (Header.Number ref).

(** The hash of the ancestor [k + 1] blocks before [ref], along parent hashes. *)
Fixpoint ancestor (k : nat) : option Hash :=
  match k with
  | O => Some (Header.ParentHash ref)
  | S k => h ← ancestor k; hd ← GetHeader h (number - 1 - Z.of_nat k); Some (Header.ParentHash hd)
  end.

(** The cache of the closure holds ancestors. *)
Definition ancestors (cache : list Hash) : Prop := forall k h, cache !! k = Some h -> ancestor k = Some h.

Lemma ancestor_gap k j : (k <= j)%nat -> ancestor k = None -> ancestor j = None.
Proof. induction 1 as [|j _ IH]; [done|]. intros E. cbn [ancestor]. by rewrite (IH E). Qed.

Lemma ancestors_snoc cache h : ancestors cache -> ancestor (length cache) = Some h -> ancestors (cache ++ [h]).
Proof.
  intros Hc Ea k h' E. apply lookup_app_Some in E as [E|[Hl E]]; [by apply Hc|].
  apply list_lookup_singleton_Some in E as [E1 <-]. by replace k with (length cache) by lia.
Qed.

Lemma walk_spec fuel : forall n h cache, ancestors cache -> cache <> [] -> last cache = Some h ->
  0 <= n < number - zlen cache -> number < 2 ^ 64 -> (Z.to_nat (number - zlen cache - n) <= fuel)%nat ->
  exists cache', walk GetHeader fuel n h (number - zlen cache) cache =
      Ok (default 0 (ancestor (Z.to_nat (number - n - 1))), cache') /\ ancestors cache' /\ cache' <> [].
Proof.
  induction fuel as [|fuel IH]; intros n h cache Hc Hne Hlast Hn Hnum Hfuel; [lia|]. cbn [walk].
  destruct cache as [|x cache0] eqn:Ecache; [done|]. rewrite <- Ecache in *. assert (Hlen : (0 < length cache)%nat) by (rewrite Ecache; cbn; lia).
  clear Ecache x cache0. pose proof Hlast as Hl. rewrite last_lookup in Hl. apply Hc in Hl.
  destruct (length cache) as [|k] eqn:Ek; [lia|]. cbn [Nat.pred] in Hl.
  assert (Hz : zlen cache = Z.of_nat (S k)) by (unfold zlen; by rewrite Ek).
  assert (Hstep : ancestor (S k) = hd ← GetHeader h (number - zlen cache); Some (Header.ParentHash hd)).
  { cbn [ancestor]. rewrite Hl. cbn [mbind option_bind]. do 2 f_equal. lia. }
  destruct (GetHeader h (number - zlen cache)) as [hd|] eqn:Eg.
  - cbn [mbind option_bind] in Hstep. rewrite (numbered _ _ _ Eg). rewrite sub64_small by lia.
    assert (Hc' : ancestors (cache ++ [Header.ParentHash hd])) by (apply ancestors_snoc; [done | by rewrite Ek]).
    destruct (Z.eqb_spec n (number - zlen cache - 1)) as [->|Hneq].
    + eexists. split; [|split; [done | by destruct cache]]. replace (Z.to_nat _) with (S k) by lia. by rewrite Hstep.
    + assert (Hz' : zlen (cache ++ [Header.ParentHash hd]) = zlen cache + 1) by (rewrite zlen_app; done).
      replace (number - zlen cache - 1) with (number - zlen (cache ++ [Header.ParentHash hd])) by lia.
      apply IH; [done | by destruct cache | by rewrite last_snoc | lia | done | lia].
  - exists cache. split; [|done]. cbn [mbind option_bind] in Hstep. rewrite (ancestor_gap (S k)); [done | lia | done].
Qed.

(** The hashes BLOCKHASH sees are those of ancestors: for every
    earlier number the closure returns the hash of the ancestor with that number,
    found along parent hashes, or zero where the chain is broken; for the block
    itself and later ones zero.  Neither the order of the questions nor the cache
    they have filled changes an answer. *)
Theorem block_hashes_are_ancestors n cache : is_u64 n -> number < 2 ^ 64 -> ancestors cache ->
  exists cache', GetHash GetHeader ref n cache =
      Ok (if n <? number then default 0 (ancestor (Z.to_nat (number - n - 1))) else 0, cache') /\ ancestors cache'.
Proof.
  intros Hn Hnum Hc. unfold is_u64 in Hn. unfold GetHash. fold number. destruct (Z.leb_spec number n) as [L|L].
  { destruct (Z.ltb_spec n number); [lia|]. by exists cache. }
  destruct (Z.ltb_spec n number) as [_|]; [|lia].
  set (c1 := if zlen cache =? 0 then _ else _). assert (Hc1 : ancestors c1 /\ c1 <> []).
  { unfold c1. destruct (Z.eqb_spec (zlen cache) 0) as [E|E]; [|split; [done|]; by intros ->].
    split; [|done]. intros [|k] h Ek; [by injection Ek as <- | by destruct k]. }
  destruct Hc1 as [Hc1 Hne]. clearbody c1. rewrite (sub64_small number n), sub64_small by lia.
  destruct (Z.ltb_spec (number - n - 1) (zlen c1)) as [Hi|Hi].
  - assert (Hlt : (Z.to_nat (number - n - 1) < length c1)%nat) by (unfold zlen in Hi; lia).
    destruct (lookup_lt_is_Some_2 c1 _ Hlt) as [h Eh]. unfold nth_or_panic. rewrite bool_decide_true by lia. rewrite Eh. cbn [or_panic mbind res_bind].
    exists c1. rewrite (Hc1 _ _ Eh). done.
  - destruct (last c1) as [h|] eqn:El; [|by apply last_None in El]. pose proof El as Ell. rewrite last_lookup in Ell.
    unfold nth_or_panic. assert (Hz : 0 < zlen c1) by (destruct c1; [done | by rewrite zlen_cons; pose proof (zlen_nonneg c1); lia]).
    rewrite bool_decide_true by lia. replace (Z.to_nat (zlen c1 - 1)) with (Nat.pred (length c1)) by (unfold zlen in *; lia).
    rewrite Ell. cbn [or_panic mbind res_bind]. rewrite sub64_small by lia.
    destruct (walk_spec (Z.to_nat number + 1) n h c1 Hc1 Hne El) as (c' & E & Hc' & _); [lia | done | lia|].
    rewrite E. by exists c'.
Qed.
End blockhash.
