(* ===== verification/ProcessorState.v ===== *)
(** * The state database with its tries, as the block processor uses it

    The operations of the machine act on the objects and leave the tries alone;
    [IntermediateRoot] brings the tries up to date.  The pair keeps the contract
    of the machine and of the processor. *)

From S2P Require Import Prelude Uint256 Config Common Rlp RlpSpec EvmState EvmSpec StateDB StateSpec StateRevert StateFinalise.
From S2P Require Import Trie SecureTrie StateRoot StateRootSpec Instances Header Transaction TransactionSpec Block Processor ProcessorSpec EvmSafety EvmInvariant.

Import State.

Local Open Scope Z_scope.

(** ** A state database with something beside it *)

Section beside.
Context {DB A : Type} `{SDB : StateDB DB}.

Definition on_fst (f : DB -> DB) (p : DB * A) : DB * A := (f p.1, p.2).

#[export] Instance beside_StateDB : StateDB (DB * A) := {|
  EvmState.CreateAccount a := on_fst (EvmState.CreateAccount a);
  EvmState.SubBalance a v := on_fst (EvmState.SubBalance a v);
  EvmState.AddBalance a v := on_fst (EvmState.AddBalance a v);
  EvmState.GetBalance p := EvmState.GetBalance p.1;
  EvmState.GetNonce p := EvmState.GetNonce p.1;
  EvmState.SetNonce a n := on_fst (EvmState.SetNonce a n);
  EvmState.GetCodeHash p := EvmState.GetCodeHash p.1;
  EvmState.GetCode p := EvmState.GetCode p.1;
  EvmState.SetCode a c := on_fst (EvmState.SetCode a c);
  EvmState.GetCodeSize p := EvmState.GetCodeSize p.1;
  EvmState.AddRefund g := on_fst (EvmState.AddRefund g);
  EvmState.SubRefund g p := d ← EvmState.SubRefund g p.1; Ok (d, p.2);
  EvmState.GetRefund p := EvmState.GetRefund p.1;
  EvmState.GetCommittedState p := EvmState.GetCommittedState p.1;
  EvmState.GetState p := EvmState.GetState p.1;
  EvmState.SetState a k v := on_fst (EvmState.SetState a k v);
  EvmState.Suicide a p := let '(b, d) := EvmState.Suicide a p.1 in (b, (d, p.2));
  EvmState.HasSuicided p := EvmState.HasSuicided p.1;
  EvmState.Exist p := EvmState.Exist p.1;
  EvmState.Empty p := EvmState.Empty p.1;
  EvmState.AddressInAccessList p := EvmState.AddressInAccessList p.1;
  EvmState.SlotInAccessList p := EvmState.SlotInAccessList p.1;
  EvmState.AddAddressToAccessList a := on_fst (EvmState.AddAddressToAccessList a);
  EvmState.AddSlotToAccessList a k := on_fst (EvmState.AddSlotToAccessList a k);
  EvmState.RevertToSnapshot i p := d ← EvmState.RevertToSnapshot i p.1; Ok (d, p.2);
  EvmState.Snapshot p := let '(i, d) := EvmState.Snapshot p.1 in (i, (d, p.2));
  EvmState.AddLog l := on_fst (EvmState.AddLog l);
  EvmState.AddPreimage h b := on_fst (EvmState.AddPreimage h b);
  EvmState.LogsOf p := EvmState.LogsOf p.1;
  EvmState.PreimageOf p := EvmState.PreimageOf p.1;
|}.

(** The operations act on the database, and the other part stays. *)
Lemma beside_op o (p : DB * A) : apply_op o p = (d ← apply_op o p.1; Ok (d, p.2)).
Proof.
  destruct o; cbn; try done.
  unfold snd at 1. cbn. by destruct (EvmState.Suicide a p.1).
Qed.

Lemma beside_op_inv o (p p' : DB * A) : apply_op o p = Ok p' -> apply_op o p.1 = Ok p'.1 /\ p'.2 = p.2.
Proof. rewrite beside_op. destruct (apply_op o p.1); try done. by intros [= <-]. Qed.

Lemma beside_snapshot (p p' : DB * A) i : EvmState.Snapshot p = (i, p') -> EvmState.Snapshot p.1 = (i, p'.1) /\ p'.2 = p.2.
Proof. cbn. destruct (EvmState.Snapshot p.1). by intros [= <- <-]. Qed.

Lemma beside_revert (p p' : DB * A) i : EvmState.RevertToSnapshot i p = Ok p' ->
  EvmState.RevertToSnapshot i p.1 = Ok p'.1 /\ p'.2 = p.2.
Proof. cbn. destruct (EvmState.RevertToSnapshot i p.1); try done. by intros [= <-]. Qed.

Lemma beside_reach ro (p p' : DB * A) : reach ro p p' -> reach ro p.1 p'.1 /\ p'.2 = p.2.
Proof.
  induction 1 as [p | p p1 o p2 _ [IH1 IH2] Ho Ha E | p p1 i p2 _ [IH1 IH2] E | p p1 i p2 p3 p4 _ [IH1 IH2] E _ [IH3 IH4] E4].
  - split; [apply reach_refl | done].
  - apply beside_op_inv in E as [E E2]. split; [|congruence]. by eapply reach_op.
  - apply beside_snapshot in E as [E E2]. split; [|congruence]. by eapply reach_snapshot.
  - apply beside_snapshot in E as [E E2]. apply beside_revert in E4 as [E4 E5]. split; [|congruence].
    by eapply reach_revert.
Qed.

Lemma beside_same_all (p p' : DB * A) : same_all p.1 p'.1 -> same_all p p'.
Proof. intros [[] ? ? ? ? ? ? ? ? ?]. by split; [split|..]. Qed.

Lemma beside_same_world (p p' : DB * A) : same_world p.1 p'.1 -> same_world p p'.
Proof. intros []. by split. Qed.

Context `{C : Crypto} `{DS : !StateDBSpec DB}.

#[export] Program Instance beside_StateDBSpec : StateDBSpec (DB * A) := {| db_ok p := db_ok p.1 |}.
Next Obligation. intros p o p' Hp Ho E. apply beside_op_inv in E as [E _]. exact (op_db_ok p.1 o p'.1 Hp Ho E). Qed.
Next Obligation.
  intros p o Hp Ho. rewrite beside_op. pose proof (op_panics p.1 o Hp Ho) as H. by destruct (apply_op o p.1).
Qed.
Next Obligation.
  intros p i p' Hp E. apply beside_snapshot in E as [E _]. destruct (snapshot_db_ok p.1 i p'.1 Hp E) as [H1 H2].
  split; [done | by apply beside_same_all].
Qed.
Next Obligation.
  intros p i p1 p2 Hp E Hr. apply beside_snapshot in E as [E E2]. apply beside_reach in Hr as [Hr Hr2].
  destruct (revert_db_ok p.1 i p1.1 p2.1 Hp E Hr) as (d3 & E3 & H3 & H4). exists (d3, p2.2).
  cbn. rewrite E3. cbn. split; [done|]. split; [done | by apply beside_same_all].
Qed.
Next Obligation. intros p a Hp. by apply (code_db_ok p.1). Qed.
Next Obligation. intros p a Hp. by apply (nonce_db_ok p.1). Qed.
Next Obligation. intros p Hp. by apply (refund_db_ok p.1). Qed.
Next Obligation.
  intros p o p' Hp Ho Ha E. apply beside_op_inv in E as [E _]. apply beside_same_world. apply (readonly_op p.1 o p'.1 Hp Ho); [|done].
  by destruct o.
Qed.
End beside.

(** ** Intermediate roots keep the invariant of the state database *)

Section intermediate.
Context `{C : Crypto} `{B : Backend} `{BS : !BackendSpec} `{R : NodeReader}.

Lemma each_inv {X S} (f : X -> S -> res S) (P : S -> Prop) : (forall x s s', P s -> f x s = Ok s' -> P s') ->
  forall l s s', P s -> Root.each f l s = Ok s' -> P s'.
Proof.
  intros H l. induction l as [|x l IH]; intros s s' Hs E; cbn [Root.each] in E; [by injection E as <-|].
  destruct (f x s) as [s1| |] eqn:E1; try done. cbn [mbind res_bind] in E. eauto.
Qed.

Lemma obj_ok_same des a o o' : same_account o o' -> obj_ok des a o -> obj_ok des a o'.
Proof.
  intros [H1 H2 H3 H4 H5 H6 H7] [A1 A2 A3 A4]. split; [congruence | congruence | | by rewrite H6].
  unfold code_of in *. by rewrite H4, H5, H1.
Qed.

Lemma obj_ok_des des a o : obj_ok des a o -> obj_ok true a o.
Proof. by intros [H1 H2 H3 H4]. Qed.

(** *** The end of the transaction *)

Lemma finalise_addr_world del d a : world_ok d -> world_ok (finalise_addr del d a).
Proof.
  intros W. unfold finalise_addr. destruct (stateObjects d !! a) as [o|] eqn:Eo; [|done].
  assert (Hv : view d a = Some o) by (unfold view; by rewrite Eo). pose proof (wo_obj _ W a o Hv) as Ho.
  assert (Ha : address o = a) by apply Ho.
  assert (W2 : world_ok (if suicided o || (del && empty o)
    then match snap with Some _ => set_snapDestructs ({[a]} ∪ snapDestructs (setStateObject (with_deleted true o) d)) (setStateObject (with_deleted true o) d)
         | None => setStateObject (with_deleted true o) d end
    else setStateObject (finalise o) d)).
  { destruct (_ || _).
    - destruct snap as [s|] eqn:Es.
      + split; [|apply W..]. intros b ob. change (view (set_snapDestructs _ ?x) b) with (view x b). rewrite view_set.
        change (address (with_deleted true o)) with (address o). rewrite Ha. unfold destructed. cbn [snapDestructs set_snapDestructs setStateObject set_stateObjects].
        destruct (decide (b = a)) as [->|N].
        * intros [= <-]. rewrite bool_decide_true by set_solver. destruct Ho as [H1 H2 H3 H4]. by split.
        * intros V. pose proof (wo_obj _ W b ob V) as Hb. unfold destructed in Hb.
          rewrite (bool_decide_ext _ (b ∈ snapDestructs d)); [done|]. set_solver.
      + apply world_setObject; [|done]. cbn [address with_deleted]. rewrite Ha. destruct Ho as [H1 H2 H3 H4]. split; try done.
        intros _ Hs. rewrite Es in Hs. by destruct Hs.
    - apply world_setObject; [|done]. change (address (finalise o)) with (address o). rewrite Ha. destruct Ho. by split. }
  destruct W2 as [V1 V2 V3 V4]. by split.
Qed.

Lemma Finalise_state_ok order del d : state_ok d -> state_ok (Finalise_in order del d).
Proof.
  intros [W _]. assert (W1 : world_ok (foldl (finalise_addr del) d order)).
  { revert d W. induction order as [|a order IH]; intros d W; cbn [foldl]; [done|]. by apply IH, finalise_addr_world. }
  unfold Finalise_in, clearJournalAndRefund. split; [|split; [constructor | constructor]].
  destruct (_ >? _); destruct W1 as [V1 V2 V3 V4]; split; done.
Qed.

(** *** The storage of an object *)

Lemma same_account_trans o1 o2 o3 : same_account o1 o2 -> same_account o2 o3 -> same_account o1 o3.
Proof. intros [] []. split; congruence. Qed.

Lemma update_slot_account k st st' : Root.update_slot k st = Ok st' -> same_account st.1.1 st'.1.1.
Proof.
  destruct st as [[o tr] w]. unfold Root.update_slot. destruct (_ =? _); [by intros [= <-]|].
  destruct (if _ =? 0 then _ else _) as [[tr' e]| |]; try done. cbn [mbind res_bind]. by intros [= <-].
Qed.

Lemma updateRoot_account slots o w o' w' : Root.updateRoot slots o w = Ok (o', w') -> same_account o o'.
Proof.
  unfold Root.updateRoot. destruct (Root.updateTrie slots o w) as [[[there o1] w1]| |] eqn:E; try done. cbn [mbind res_bind].
  assert (H1 : same_account o o1).
  { unfold Root.updateTrie in E. destruct (bool_decide _); [injection E as _ <- _; done|].
    destruct (Root.getTrie _ _) as [[tr w2]| |]; try done. cbn [mbind res_bind] in E.
    destruct (Root.each _ _ _) as [[[o2 tr2] w3]| |] eqn:E2; try done. cbn [mbind res_bind] in E. injection E as _ <- _.
    apply (each_inv _ (fun st => same_account o st.1.1)) in E2; [by destruct E2 | | done].
    intros k st st' Hs Ek. eapply same_account_trans; [done | by eapply update_slot_account]. }
  destruct there; [|by intros [= <- <-]]. destruct (Root.so_trie o1 w1); [|done]. cbn [or_panic mbind res_bind].
  destruct (Secure.Hash_ _) as [[h t']| |]; try done. cbn [mbind res_bind]. intros [= <- <-]. by destruct H1.
Qed.

Lemma update_root_ok ord a st st' : state_ok st.1 -> Root.update_root ord a st = Ok st' -> state_ok st'.1.
Proof.
  destruct st as [d w]. unfold Root.update_root. cbn [fst]. intros [W Rv]. destruct (stateObjects d !! a) as [o|] eqn:Eo; [|done].
  cbn [or_panic mbind res_bind]. destruct (deleted o); [by intros [= <-]|].
  destruct (Root.updateRoot _ o w) as [[o' w']| |] eqn:E; try done. cbn [mbind res_bind]. intros [= <-]. cbn [fst].
  apply updateRoot_account in E. split; [|done].
  assert (Hv : view d a = Some o) by (unfold view; by rewrite Eo). pose proof (wo_obj _ W a o Hv) as Ho.
  assert (Ha : address o = a) by apply Ho.
  apply world_setObject; [|done]. rewrite (sc_address _ _ E), Ha. by eapply obj_ok_same.
Qed.

Lemma write_account_ok a st st' : state_ok st.1 -> Root.write_account a st = Ok st' -> state_ok st'.1.
Proof.
  destruct st as [d w]. unfold Root.write_account. cbn [fst]. intros S. destruct (stateObjects d !! a) as [o|]; [|done].
  cbn [or_panic mbind res_bind]. destruct (if deleted o then _ else _); try done. cbn [mbind res_bind]. by intros [= <-].
Qed.

Lemma IntermediateRoot_ok ord del st h st' : state_ok st.1 -> Root.IntermediateRoot ord del st = Ok (h, st') -> state_ok st'.1.
Proof.
  destruct st as [d w]. unfold Root.IntermediateRoot. cbn [fst]. intros S.
  destruct (Root.each (Root.update_root _) _ _) as [st1| |] eqn:E1; try done. cbn [mbind res_bind].
  destruct (Root.each Root.write_account _ _) as [[d2 w2]| |] eqn:E2; try done. cbn [mbind res_bind].
  destruct (Secure.Hash_ _) as [[h' t]| |]; try done. cbn [mbind res_bind]. intros [= _ <-]. cbn [fst].
  apply (each_inv _ (fun st => state_ok st.1)) in E1; [|apply update_root_ok | by apply Finalise_state_ok].
  apply (each_inv _ (fun st => state_ok st.1)) in E2; [|apply write_account_ok | done].
  destruct E2 as [[V1 V2 V3 V4] Rv]. split; [by split | done].
Qed.

(** ** The state the processor uses

    [orders] are the orders in which Go happens to iterate. *)
Context (orders : bool -> stateDB -> Root.Orders).

#[export] Instance tries_BlockState : BlockState (stateDB * Root.Tries) := {|
  Processor.Prepare h i := on_fst (State.Prepare h i);
  Processor.IntermediateRoot del st := Root.IntermediateRoot (orders del st.1) del st;
  Processor.GetLogs st h := map log (default [] (logs st.1 !! h));
  Processor.TxIndex st := txIndex st.1;
|}.

#[export] Instance tries_BlockStateSpec : BlockStateSpec (stateDB * Root.Tries).
Proof.
  split.
  - intros [d w] h i [[V1 V2 V3 V4] Rv]. split; [by split | done].
  - intros st del h st' S E. by apply (IntermediateRoot_ok (orders del st.1) del st h).
Qed.
End intermediate.

(** ** A block with one payment *)

(** The account of a signature is its R value. *)
Definition block_crypto : Crypto := {|
  keccak256 bs := be_value (1 :: bs);
  sha256Sum _ := replicate 32 0;
  ripemd160Sum _ := replicate 20 0;
  Ecrecover _ sig := Some (4 :: replicate 32 0 ++ be_bytes 32 (be_value (take 32 sig)));
|}.

#[export] Instance block_crypto_ok : CryptoSpec block_crypto.
Proof.
  split.
  - exact Instances.toy_keccak_inj.
  - intros b. split; [|done]. repeat constructor; by compute.
  - intros b. split; [|done]. repeat constructor; by compute.
  - intros h s k E. apply (inj Some) in E as <-. split.
    + constructor; [by compute|]. apply Forall_app. split; [repeat constructor; by compute | apply wf_be_bytes].
    + rewrite zlen_cons, zlen_app, zlen_be_bytes. by compute.
Qed.

Definition payer : Address := 77.
Definition payer_account : StateAccount := mkAccount 0 (Some 1000000) 0 None.

Definition block_backend : Backend := {|
  State.emptyRoot := Trie.emptyRoot;
  snap := None;
  trie_Account a := Some (if a =? payer then Some payer_account else None);
  trie_Storage _ _ _ := Some [];
  ContractCode _ _ := None;
|}.

#[export] Instance block_backend_ok : BackendSpec (C := block_crypto) (B := block_backend).
Proof.
  split.
  - done.
  - intros a data. unfold readAccount. cbn. destruct (a =? payer); intros E; [|done]. injection E as <-. by compute.
  - done.
  - done.
Qed.

Definition no_reader : NodeReader := fun _ => Ok NilNode.

(** The order in which the maps happen to be listed. *)
Definition listed (del : bool) (d : stateDB) : Root.Orders :=
  let dirty := (map_to_list (dirties (journal d))).*1 in
  let d1 := Finalise_in (C := block_crypto) (B := block_backend) dirty del d in
  Root.mkOrders dirty (elements (stateObjectsPending d1)) (elements (stateObjectsPending d1))
    (fun a => match stateObjects d !! a with Some o => elements (dom (dirtyStorage o ∪ pendingStorage o)) | None => [] end).

(** The account trie with the payer's account. *)
Definition block_tries : Root.Tries :=
  match Secure.TryUpdateAccount (H := block_crypto) (H0 := no_reader) (Secure.mkSecure (mkTrie NilNode 0 0) ∅)
          (Root.addr_bytes payer) (Secure.mkAccount 0 1000000 Trie.emptyRoot (be_bytes 32 (emptyCodeHash (H := block_crypto)))) with
  | Ok (t, _) => Root.mkTries t ∅ None ∅
  | _ => Root.mkTries (Secure.mkSecure (mkTrie NilNode 0 0) ∅) ∅ None ∅
  end.

Definition frontier_config : ChainConfig :=
  {| ChainID := Some 1; HomesteadBlock := None; EIP150Block := None; LondonBlock := None; TerminalTotalDifficulty := None |}.

(** Signed with the R value 77 and the S value 1. *)
Definition payment : Transaction.TxData := Transaction.LegacyTx 0 1 21000 (Some 99) 7 [] 27 77 1.

Definition payment_block : Block.Block :=
  Block.mkBlock (Header.mkHeader 1 2 3 4 5 6 (replicate 256 0) 131072 7 100000 21000 10 [1; 2] 0 9 None) [] [payment].

Definition process_payment :=
  Processor.Process (C := block_crypto) (SDB := beside_StateDB (SDB := stateDB_StateDB (C := block_crypto) (B := block_backend)))
    (BSD := tries_BlockState (C := block_crypto) (B := block_backend) (R := no_reader) listed)
    frontier_config false (fun _ => 0) 3
    (Processor.ethash_Finalize (SDB := beside_StateDB (SDB := stateDB_StateDB (C := block_crypto) (B := block_backend)))
       (BSD := tries_BlockState (C := block_crypto) (B := block_backend) (R := no_reader) listed))
    payment_block (New, block_tries).

Lemma payment_processed : exists rs logs st, process_payment = Ok (inl (rs, logs, 21000), st).
Proof. do 3 eexists. vm_compute. reflexivity. Qed.

Lemma payment_fits : fits payment.
Proof.
  split; [|apply small_nil].
  split; cbn [payment Transaction.nonce Transaction.gas Transaction.gasTipCap Transaction.gasFeeCap Transaction.value
    Transaction.data Transaction.to Transaction.accessList Transaction.rawSignatureValues].
  1-3: unfold is_u64; lia.
  - constructor.
  - intros x [= <-]. lia.
  - constructor.
  - lia.
  - done.
  - by vm_compute.
Qed.

Lemma payment_header_ok : Header.header_ok (Block.header payment_block).
Proof.
  split; [by compute | by compute | | by compute | by compute | | done]; (split; [repeat constructor; by compute | by compute]).
Qed.

Definition payment_env : Env := Processor.NewEVMBlockContext frontier_config (Block.header payment_block) 3 (fun _ => 0).

Lemma payment_env_ok : env_ok payment_env.
Proof. split; [unfold is_u64; cbn; lia|]. intros E. cbn in E. discriminate E. Qed.

Lemma payment_not_london : IsLondon (chainRules payment_env) = true -> is_Some (BaseFee payment_env).
Proof. intros E. cbn in E. discriminate E. Qed.

Lemma payment_chain k : Transaction.signer_ChainID (Transaction.MakeSigner frontier_config 7) = Some k -> 0 <= k < 2 ^ 1024.
Proof. intros E. cbn in E. discriminate E. Qed.

Lemma blocks_account_for_gas_witness :
  exists rs logs st, process_payment = Ok (inl (rs, logs, 21000), st) /\ receipts_ok (C := block_crypto) 0 [payment] rs 21000.
Proof.
  destruct payment_processed as (rs & logs & st & E). exists rs, logs, st. split; [exact E|].
  pose proof (blocks_account_for_gas (C := block_crypto) (SDB := beside_StateDB (SDB := stateDB_StateDB (C := block_crypto) (B := block_backend)))
    (BSD := tries_BlockState (C := block_crypto) (B := block_backend) (R := no_reader) listed)
    (DS := beside_StateDBSpec (DS := stateDB_StateDBSpec (C := block_crypto) (B := block_backend)))
    frontier_config false (fun _ => 0) 3 payment_block (New, block_tries) payment_header_ok payment_env_ok payment_not_london payment_chain
    (Forall_cons_2 _ _ _ payment_fits (Forall_nil_2 _)) (New_ok (C := block_crypto) (B := block_backend))) as H.
  unfold process_payment in E. rewrite E in H. exact (proj1 H).
Defined.

(** The grandparent of a block, two below it. *)
Definition two_headers (h : Hash) (n : Z) : option Header :=
  if n =? 6 then Some (Header.mkHeader 55 2 3 4 5 6 (replicate 256 0) 131072 6 5000 0 10 [] 0 9 None) else None.

Lemma block_hashes_are_ancestors_witness :
  exists cache, Processor.GetHash two_headers (Header.sample_header None) 5 [] = Ok (55, cache).
Proof.
  destruct (block_hashes_are_ancestors two_headers (Header.sample_header None)
    ltac:(intros h n hd; unfold two_headers; destruct (Z.eqb_spec n 6) as [->|]; [intros E; injection E as <-; reflexivity | discriminate])
    5 [] ltac:(by compute) ltac:(by compute) ltac:(intros k h E; by rewrite lookup_nil in E)) as (cache & E & _).
  exists cache. exact E.
Defined.
