(* ===== verification/ForkId.v ===== *)
(** * Fork identifiers ([blockchain/forkid/forkid.go])

    A node announces a checksum over its genesis hash and the fork blocks its
    head has passed, and the next fork it knows of (EIP-2124); a filter decides
    whether a remote announcement is compatible with the local chain.  The CRC-32
    checksum is that of the standard library ([hash/crc32]). *)

From Stdlib Require Import Sorting.Sorted.
From S2P Require Import Prelude Common Config EvmState.

Local Open Scope Z_scope.

(** ** CRC-32 *)

Definition crc32_poly : Z := 0xedb88320.

(** One bit of a table entry, and the entry of a byte. *)
Definition crc_bit (crc : Z) : Z :=
  if Z.land crc 1 =? 1 then Z.lxor (Z.shiftr crc 1) crc32_poly else Z.shiftr crc 1.
Definition crc_entry (b : Z) : Z := Nat.iter 8 crc_bit b.

Definition not32 (x : Z) : Z := Z.lxor x (2 ^ 32 - 1).

(** [crc32.Update] *)
Definition crc32_update (crc : Z) (p : bytes) : Z :=
  not32 (foldl (fun crc v => Z.lxor (crc_entry (Z.lxor (u8 crc) v)) (Z.shiftr crc 8)) (not32 crc) p).

(** [crc32.ChecksumIEEE] *)
Definition ChecksumIEEE (data : bytes) : Z := crc32_update 0 data.

Example crc32_check : ChecksumIEEE [49; 50; 51; 52; 53; 54; 55; 56; 57] = 0xcbf43926.
Proof. reflexivity. Qed.

(** ** The identifier *)

Inductive ForkErr := ErrRemoteStale | ErrLocalIncompatibleOrStale.

Record ID := mkID { IDHash : bytes; IDNext : Z }.

Definition checksumUpdate (hash fork : Z) : Z := crc32_update hash (be_bytes 8 fork).
Definition checksumToBytes (hash : Z) : bytes := be_bytes 4 hash.

(** The fields of [ChainConfig] of type [*big.Int] whose name ends in "Block". *)
Definition block_fields (c : ChainConfig) : list (option Z) :=
  [HomesteadBlock c; EIP150Block c; LondonBlock c].

Fixpoint collect (rules : list (option Z)) : list Z :=
  match rules with
  | [] => []
  | Some b :: r => u64 (Z.abs b) :: collect r
  | None :: r => collect r
  end.

(** The inner loop of the sort: what stands at [i], exchanged with every smaller
    later element. *)
Fixpoint sort_pass (x : Z) (rest : list Z) : Z * list Z :=
  match rest with
  | [] => (x, [])
  | y :: r =>
    let '(x, y) := if x >? y then (y, x) else (x, y) in
    let '(x, r) := sort_pass x r in (x, y :: r)
  end.

(** The outer loop. *)
Fixpoint sort_loop (n : nat) (forks : list Z) : list Z :=
  match n, forks with
  | S n, x :: rest => let '(x, rest) := sort_pass x rest in x :: sort_loop n rest
  | _, _ => forks
  end.

(** The loop that removes an element equal to the one before it. *)
Fixpoint dedup_from (x : Z) (rest : list Z) : list Z :=
  match rest with
  | [] => [x]
  | y :: r => if y =? x then dedup_from x r else x :: dedup_from y r
  end.
Definition dedup (forks : list Z) : list Z :=
  match forks with [] => [] | x :: r => dedup_from x r end.

Definition gatherForks (c : ChainConfig) : list Z :=
  let forks := collect (block_fields c) in
  let forks := sort_loop (length forks) forks in
  let forks := dedup forks in
  match forks with 0 :: r => r | _ => forks end.

(** The loop of [NewID]. *)
Fixpoint id_loop (forks : list Z) (head hash : Z) : Z * Z :=
  match forks with
  | [] => (hash, 0)
  | fork :: r => if fork <=? head then id_loop r head (checksumUpdate hash fork) else (hash, fork)
  end.

Definition NewID (c : ChainConfig) (genesis : Hash) (head : Z) : ID :=
  let '(hash, next) := id_loop (gatherForks c) head (ChecksumIEEE (be_bytes 32 genesis)) in
  mkID (checksumToBytes hash) next.

(** ** The filter *)

Fixpoint fork_sums (hash : Z) (forks : list Z) {struct forks} : list bytes :=
  match forks with
  | [] => []
  | fork :: r => let hash := checksumUpdate hash fork in checksumToBytes hash :: fork_sums hash r
  end.

(** All the valid checksums, the genesis one first. *)
Definition all_sums (c : ChainConfig) (genesis : Hash) : list bytes :=
  let hash := ChecksumIEEE (be_bytes 32 genesis) in
  checksumToBytes hash :: fork_sums hash (gatherForks c).

(** [for j := lo; j < hi; j++ { if sums[j] == id.Hash { ... } }] *)
Fixpoint find_sum (sums : list bytes) (h : bytes) (j n : nat) : res (option nat) :=
  match n with
  | O => Ok None
  | S n => s ← nth_or_panic sums (Z.of_nat j);
           if bool_decide (s = h) then Ok (Some j) else find_sum sums h (S j) n
  end.

(** The body of the loop at the first fork the head has not passed. *)
Definition check_id (forks : list Z) (sums : list bytes) (head : Z) (i : nat) (id : ID) : res (option ForkErr) :=
  s ← nth_or_panic sums (Z.of_nat i);
  if bool_decide (s = IDHash id) then
    if (IDNext id >? 0) && (head >=? IDNext id) then Ok (Some ErrLocalIncompatibleOrStale) else Ok None
  else
    past ← find_sum sums (IDHash id) 0 i;
    match past with
    | Some j => f ← nth_or_panic forks (Z.of_nat j);
                if negb (f =? IDNext id) then Ok (Some ErrRemoteStale) else Ok None
    | None =>
      future ← find_sum sums (IDHash id) (S i) (length sums - S i);
      match future with
      | Some _ => Ok None
      | None => Ok (Some ErrLocalIncompatibleOrStale)
      end
    end.

Fixpoint filter_loop (forks : list Z) (sums : list bytes) (head : Z) (rest : list Z) (i : nat) (id : ID)
    : res (option ForkErr) :=
  match rest with
  | [] => Ok None
  | fork :: r => if head >? fork then filter_loop forks sums head r (S i) id
                 else check_id forks sums head i id
  end.

(** The filter at a head; [None] accepts. *)
Definition newFilter (c : ChainConfig) (genesis : Hash) (head : Z) (id : ID) : res (option ForkErr) :=
  let forks := gatherForks c ++ [2 ^ 64 - 1] in
  filter_loop forks (all_sums c genesis) head forks 0 id.

(** [NewStaticFilter]: the filter at block zero. *)
Definition NewStaticFilter (c : ChainConfig) (genesis : Hash) : ID -> res (option ForkErr) :=
  newFilter c genesis 0.

(** ** The forks are sorted *)

Lemma sort_pass_spec rest : forall x x' rest', sort_pass x rest = (x', rest') ->
  x' :: rest' ≡ₚ x :: rest /\ Forall (fun y => x' <= y) rest'.
Proof.
  induction rest as [|y r IH]; intros x x' rest' E; cbn [sort_pass] in E.
  { injection E as <- <-. by split. }
  destruct (if x >? y then (y, x) else (x, y)) as [a b] eqn:Eab.
  destruct (sort_pass a r) as [a' r'] eqn:Er. injection E as <- <-.
  destruct (IH a a' r' Er) as [Hp Hf].
  assert (Hab : a <= b /\ [a; b] ≡ₚ [x; y]).
  { destruct (Z.gtb_spec x y); injection Eab as <- <-; split; (lia || apply Permutation_swap || done). }
  destruct Hab as [Hle Hxy].
  assert (Ha' : a' <= a).
  { assert (Hin : a ∈ a' :: r') by (rewrite Hp; constructor). apply elem_of_cons in Hin as [->|Hin]; [lia|].
    rewrite Forall_forall in Hf. by apply Hf. }
  split; [|constructor; [lia | done]].
  rewrite (Permutation_swap b a' r'), Hp, (Permutation_swap a b r). change (a :: b :: r) with ([a; b] ++ r). by rewrite Hxy.
Qed.

Lemma sort_loop_spec n : forall forks, (length forks <= n)%nat ->
  sort_loop n forks ≡ₚ forks /\ StronglySorted Z.le (sort_loop n forks).
Proof.
  induction n as [|n IH]; intros [|x rest] Hl; cbn [sort_loop]; try (by split; [|constructor]); [cbn in Hl; lia|].
  destruct (sort_pass x rest) as [x' rest'] eqn:E. destruct (sort_pass_spec rest x x' rest' E) as [Hp Hf].
  destruct (IH rest') as [Hp' Hs'].
  { apply Permutation_length in Hp. cbn in Hp, Hl. lia. }
  split; [by rewrite Hp'|]. constructor; [done|]. by rewrite Hp'.
Qed.

Lemma dedup_from_spec rest : forall x, StronglySorted Z.le (x :: rest) ->
  StronglySorted Z.lt (dedup_from x rest) /\ (forall y, y ∈ dedup_from x rest <-> y ∈ x :: rest).
Proof.
  induction rest as [|y r IH]; intros x Hs; cbn [dedup_from]; [by split; [repeat constructor|]|].
  apply StronglySorted_inv in Hs as [Hs Hf]. destruct (Z.eqb_spec y x) as [->|Hne].
  - destruct (IH x Hs) as [Hl He]. split; [done|]. intros z. rewrite He, !elem_of_cons. tauto.
  - destruct (IH y Hs) as [Hl He]. split.
    + constructor; [done|]. apply Forall_forall. intros z Hz. apply He, elem_of_cons in Hz.
      apply Forall_cons in Hf as [Hxy Hf]. apply StronglySorted_inv in Hs as [_ Hfy].
      destruct Hz as [->|Hz]; [lia|]. rewrite Forall_forall in Hfy. specialize (Hfy z Hz). lia.
    + intros z. rewrite elem_of_cons, He. by rewrite (elem_of_cons (y :: r)).
Qed.

Lemma collect_u64 rules : Forall is_u64 (collect rules).
Proof.
  induction rules as [|[b|] r IH]; cbn [collect]; [constructor | constructor | done]; [|done].
  apply u64_range.
Qed.

(** The fork blocks above zero, each once, in increasing order. *)
Lemma gatherForks_spec c :
  StronglySorted Z.lt (gatherForks c) /\ Forall (fun f => 0 < f < 2 ^ 64) (gatherForks c) /\
  forall f, f ∈ gatherForks c <-> f <> 0 /\ f ∈ collect (block_fields c).
Proof.
  unfold gatherForks. set (l := collect (block_fields c)).
  destruct (sort_loop_spec (length l) l (le_n _)) as [Hp Hs]. pose proof (collect_u64 (block_fields c)) as Hu. fold l in Hu. clearbody l.
  assert (Hd : StronglySorted Z.lt (dedup (sort_loop (length l) l)) /\
    forall y, y ∈ dedup (sort_loop (length l) l) <-> y ∈ l).
  { destruct (sort_loop (length l) l) as [|x r] eqn:E.
    - apply Permutation_nil in Hp. subst l. by split; [constructor|].
    - destruct (dedup_from_spec r x Hs) as [? He]. split; [done|]. intros y. cbn [dedup]. by rewrite He, Hp. }
  destruct Hd as [Hlt He]. set (d := dedup _) in *.
  assert (Hb : forall y, y ∈ d -> 0 <= y < 2 ^ 64).
  { intros y Hy%He. rewrite Forall_forall in Hu. by apply Hu. }
  destruct d as [|x r] eqn:Ed.
  { split_and!; [constructor | constructor |]. intros f. rewrite <- He. split; [by intros ?%elem_of_nil | by intros [_ ?]]. }
  apply StronglySorted_inv in Hlt as [Hlt Hf]. rewrite Forall_forall in Hf.
  assert (Hx : x = 0 \/ 0 < x) by (pose proof (Hb x ltac:(constructor)); lia).
  destruct Hx as [->|Hx].
  - split_and!; [done | |].
    + apply Forall_forall. intros y Hy. pose proof (Hf y Hy). pose proof (Hb y ltac:(by constructor)). lia.
    + intros f. rewrite <- He, elem_of_cons. split.
      * intros Hy. pose proof (Hf f Hy). split; [lia | by right].
      * intros [Hn [?|?]]; [done | done].
  - assert (Em : match x :: r with 0 :: r => r | _ => x :: r end = x :: r) by (destruct x; [lia | done | done]).
    rewrite Em. split_and!; [by constructor; [|apply Forall_forall] | |].
    + constructor; [pose proof (Hb x ltac:(constructor)); lia|]. apply Forall_forall. intros y Hy.
      pose proof (Hf y Hy). pose proof (Hb y ltac:(by constructor)). lia.
    + intros f. rewrite <- He, elem_of_cons. split; [|tauto]. intros [->|Hy]; [split; [lia | by left]|].
      pose proof (Hf f Hy). split; [lia | by right].
Qed.

Lemma sorted_lookup (l : list Z) i j x y : StronglySorted Z.lt l -> (i < j)%nat -> l !! i = Some x -> l !! j = Some y -> x < y.
Proof.
  intros Hs. revert i j. induction Hs as [|z l Hs IH Hf]; intros [|i] [|j] Hij Ei Ej; try (done || lia); cbn in Ei, Ej.
  - injection Ei as <-. rewrite Forall_forall in Hf. apply Hf. by eapply list_elem_of_lookup_2.
  - apply (IH i j); [lia | done | done].
Qed.

(** ** Checksums by position *)

(** The checksum after the first [k] forks. *)
Definition sum_at (hash : Z) (forks : list Z) (k : nat) : Z := foldl checksumUpdate hash (take k forks).

Lemma fork_sums_lookup forks : forall hash k, (k <= length forks)%nat ->
  (checksumToBytes hash :: fork_sums hash forks) !! k = Some (checksumToBytes (sum_at hash forks k)).
Proof.
  induction forks as [|f r IH]; intros hash [|k] Hk; try (by cbn in Hk; lia || done).
  change ((checksumToBytes hash :: fork_sums hash (f :: r)) !! S k)
    with ((checksumToBytes (checksumUpdate hash f) :: fork_sums (checksumUpdate hash f) r) !! k).
  rewrite (IH (checksumUpdate hash f) k) by (cbn in Hk; lia). done.
Qed.

Lemma length_fork_sums forks : forall hash, length (fork_sums hash forks) = length forks.
Proof. induction forks as [|f r IH]; intros hash; cbn; [done|]. by rewrite IH. Qed.

(** How many forks a head has passed. *)
Fixpoint passed (forks : list Z) (head : Z) : nat :=
  match forks with f :: r => if f <=? head then S (passed r head) else 0 | [] => 0 end.

Lemma passed_le forks head : (passed forks head <= length forks)%nat.
Proof. induction forks as [|f r IH]; cbn; [lia|]. destruct (f <=? head); lia. Qed.

Lemma id_loop_spec forks head : forall hash, id_loop forks head hash =
  (sum_at hash forks (passed forks head), default 0 (forks !! passed forks head)).
Proof.
  induction forks as [|f r IH]; intros hash; [done|]. cbn [id_loop passed]. destruct (f <=? head); [|done].
  by rewrite IH.
Qed.

(** ** The filter *)

Lemma find_sum_spec sums h n : forall j, (j + n <= length sums)%nat ->
  exists o, find_sum sums h j n = Ok o /\
    match o with
    | Some k => (j <= k < j + n)%nat /\ sums !! k = Some h
    | None => forall k, (j <= k < j + n)%nat -> sums !! k <> Some h
    end.
Proof.
  induction n as [|n IH]; intros j Hj; cbn [find_sum].
  { exists None. split; [done|]. lia. }
  destruct (lookup_lt_is_Some_2 sums j) as [s Es]; [lia|].
  unfold nth_or_panic. rewrite bool_decide_true, Nat2Z.id, Es by lia. cbn [or_panic mbind res_bind].
  case_bool_decide as Hs; [subst; exists (Some j); split; [done | split; [lia | done]]|].
  destruct (IH (S j)) as (o & -> & Ho); [lia|]. exists o. split; [done|]. destruct o as [k|]; [destruct Ho; split; [lia | done]|].
  intros k Hk. destruct (decide (k = j)) as [->|]; [congruence | apply Ho; lia].
Qed.

Lemma filter_loop_spec forks sums head a f b i id : Forall (fun x => x < head) a -> head <= f ->
  filter_loop forks sums head (a ++ f :: b) i id = check_id forks sums head (i + length a) id.
Proof.
  intros Ha Hf. revert i. induction Ha as [|x a Hx Ha IH]; intros i; cbn [filter_loop app length].
  - destruct (Z.gtb_spec head f); [lia|]. by rewrite Nat.add_0_r.
  - destruct (Z.gtb_spec head x); [|lia]. rewrite IH. f_equal. lia.
Qed.

(** The first fork the head has not gone beyond; the sentinel is one. *)
Lemma first_unpassed forks head : is_u64 head -> StronglySorted Z.lt forks ->
  exists a f b, forks ++ [2 ^ 64 - 1] = a ++ f :: b /\ Forall (fun x => x < head) a /\ head <= f /\
    (length a <= length forks)%nat /\ filter (fun x => x < head) forks = a /\
    (forall k x, forks !! k = Some x -> x < head <-> (k < length a)%nat).
Proof.
  intros Hu. induction forks as [|x r IH]; intros Hs.
  { exists [], (2 ^ 64 - 1), []. unfold is_u64 in Hu. split_and!; [done | constructor | lia | done | done | done]. }
  apply StronglySorted_inv in Hs as [Hs Hf]. destruct (decide (x < head)) as [Hx|Hx].
  - destruct (IH Hs) as (a & f & b & E & Ha & Hle & Hl & Hfil & Hk). exists (x :: a), f, b. cbn [app length].
    split_and!; [by rewrite E | by constructor | done | lia | by rewrite filter_cons_True, Hfil |].
    intros [|k] y Ey; cbn in Ey; [injection Ey as <-; lia|]. rewrite (Hk k y Ey). lia.
  - exists [], x, (r ++ [2 ^ 64 - 1]). rewrite Forall_forall in Hf.
    assert (Hge : forall y, y ∈ x :: r -> head <= y).
    { intros y [->|Hy]%elem_of_cons; [lia|]. specialize (Hf y Hy). lia. }
    split_and!; [done | constructor | lia | cbn; lia | |].
    + destruct (filter _ (x :: r)) as [|y l] eqn:E; [done|]. exfalso.
      assert (Hy : y ∈ filter (fun x => x < head) (x :: r)) by (rewrite E; constructor).
      apply list_elem_of_filter in Hy as [Hlt Hy]. specialize (Hge y Hy). lia.
    + intros k y Ey%list_elem_of_lookup_2%Hge. cbn. lia.
Qed.

Section filter.
Variables (c : ChainConfig) (genesis : Hash).

Lemma length_all_sums : length (all_sums c genesis) = S (length (gatherForks c)).
Proof. unfold all_sums. cbn. by rewrite length_fork_sums. Qed.

(** The identifier of a head: the checksum and the fork at the same position. *)
Lemma NewID_spec head : let k := passed (gatherForks c) head in
  all_sums c genesis !! k = Some (IDHash (NewID c genesis head)) /\
  IDNext (NewID c genesis head) = default 0 (gatherForks c !! k).
Proof.
  cbn zeta. unfold NewID, all_sums. rewrite id_loop_spec. cbn [IDHash IDNext]. split; [|done].
  apply fork_sums_lookup, passed_le.
Qed.

Lemma newFilter_at head id : is_u64 head -> exists i, (i <= length (gatherForks c))%nat /\
  newFilter c genesis head id = check_id (gatherForks c ++ [2 ^ 64 - 1]) (all_sums c genesis) head i id /\
  i = length (filter (fun f => f < head) (gatherForks c)) /\
  (forall k x, gatherForks c !! k = Some x -> x < head <-> (k < i)%nat).
Proof.
  intros Hu. destruct (gatherForks_spec c) as (Hs & _ & _).
  destruct (first_unpassed _ head Hu Hs) as (a & f & b & E & Ha & Hle & Hl & Hfil & Hk).
  exists (length a). split_and!; [done | | by rewrite Hfil | done].
  unfold newFilter. rewrite E. apply filter_loop_spec; done.
Qed.

(** What the filter accepts. *)
Definition compatible (head : Z) (id : ID) (k : nat) : Prop :=
  all_sums c genesis !! k = Some (IDHash id) /\
  (forall f, gatherForks c !! k = Some f -> f < head -> IDNext id = f) /\
  (k = length (filter (fun f => f < head) (gatherForks c)) -> IDNext id <= 0 \/ head < IDNext id).

Lemma check_id_sound head id i : (i <= length (gatherForks c))%nat ->
  i = length (filter (fun f => f < head) (gatherForks c)) ->
  (forall k x, gatherForks c !! k = Some x -> x < head <-> (k < i)%nat) ->
  exists r, check_id (gatherForks c ++ [2 ^ 64 - 1]) (all_sums c genesis) head i id = Ok r /\
    (r = None -> exists k, compatible head id k).
Proof.
  intros Hi Hil Hk. pose proof length_all_sums as Hl. unfold check_id.
  destruct (lookup_lt_is_Some_2 (all_sums c genesis) i) as [s Es]; [lia|].
  rewrite (nth_or_panic_at (all_sums c genesis) (Z.of_nat i) s) by (rewrite ?Nat2Z.id; done || lia). cbn [mbind res_bind].
  case_bool_decide as Hs.
  { destruct (_ && _) eqn:Eb; [by eexists|]. eexists. split; [done|]. intros _. exists i. subst s. split_and!; [done | |].
    - intros f Ef Hf. apply (Hk i f Ef) in Hf. lia.
    - intros _. apply andb_false_iff in Eb as [Eb|Eb]; to_prop; [left | right]; lia. }
  destruct (find_sum_spec (all_sums c genesis) (IDHash id) i 0) as (o & -> & Ho); [lia|]. cbn [mbind res_bind].
  destruct o as [j|].
  - destruct Ho as [Hj Ej]. destruct (lookup_lt_is_Some_2 (gatherForks c) j) as [f Ef]; [lia|].
    rewrite (nth_or_panic_at _ (Z.of_nat j) f) by (rewrite ?Nat2Z.id; try lia; by apply lookup_app_l_Some).
    cbn [mbind res_bind]. destruct (Z.eqb_spec f (IDNext id)) as [Hf|Hne]; [|by eexists].
    eexists. split; [done|]. intros _. exists j. split_and!; [done | intros g Eg _; congruence | lia].
  - destruct (find_sum_spec (all_sums c genesis) (IDHash id) (length (all_sums c genesis) - S i) (S i)) as (o & -> & Ho'); [lia|].
    cbn [mbind res_bind]. destruct o as [j|]; [|by eexists]. destruct Ho' as [Hj Ej].
    eexists. split; [done|]. intros _. exists j. split_and!; [done | | lia].
    intros f Ef Hf. apply (Hk j f Ef) in Hf. lia.
Qed.

(** The announcement of a node with the same configuration. *)
Lemma check_id_same head head' i : NoDup (all_sums c genesis) -> (i <= length (gatherForks c))%nat ->
  (forall k x, gatherForks c !! k = Some x -> x < head <-> (k < i)%nat) ->
  let id := NewID c genesis head' in
  check_id (gatherForks c ++ [2 ^ 64 - 1]) (all_sums c genesis) head i id =
  Ok (if (IDNext id >? 0) && (IDNext id =? head) then Some ErrLocalIncompatibleOrStale else None).
Proof.
  intros Hnd Hi Hk id. destruct (NewID_spec head') as [Er En]. fold id in Er, En.
  set (r := passed (gatherForks c) head') in *. pose proof (passed_le (gatherForks c) head') as Hr. fold r in Hr.
  pose proof length_all_sums as Hl. destruct (gatherForks_spec c) as (Hsort & _ & _).
  assert (Huniq : forall k, all_sums c genesis !! k = Some (IDHash id) -> k = r) by (intros k E; by eapply NoDup_lookup).
  assert (Hnext : forall f, gatherForks c !! r = Some f -> IDNext id = f) by (intros f Ef; by rewrite En, Ef).
  unfold check_id. destruct (lookup_lt_is_Some_2 (all_sums c genesis) i) as [s Es]; [lia|].
  rewrite (nth_or_panic_at (all_sums c genesis) (Z.of_nat i) s) by (rewrite ?Nat2Z.id; done || lia). cbn [mbind res_bind].
  case_bool_decide as Hs.
  { subst s. apply Huniq in Es as ->. destruct (gatherForks c !! r) as [f|] eqn:Ef.
    - rewrite (Hnext f eq_refl). pose proof (Hk r f Ef). destruct (Z.geb_spec head f), (Z.eqb_spec f head); try lia; by destruct (f >? 0).
    - by rewrite En. }
  assert (Hri : r <> i) by (intros ->; congruence).
  destruct (find_sum_spec (all_sums c genesis) (IDHash id) i 0) as (o & -> & Ho); [lia|]. cbn [mbind res_bind].
  destruct o as [j|].
  - destruct Ho as [Hj Ej]. apply Huniq in Ej as ->. destruct (lookup_lt_is_Some_2 (gatherForks c) r) as [f Ef]; [lia|].
    rewrite (nth_or_panic_at _ (Z.of_nat r) f) by (rewrite ?Nat2Z.id; try lia; by apply lookup_app_l_Some).
    cbn [mbind res_bind]. rewrite (Hnext f Ef), Z.eqb_refl. cbn [negb].
    assert (f < head) by (apply (Hk r f Ef); lia). destruct (Z.eqb_spec f head); [lia|]. by rewrite andb_false_r.
  - assert (Hir : (i < r)%nat).
    { destruct (decide (r < i)%nat) as [Hlt|]; [|lia]. exfalso. apply (Ho r); [lia | done]. }
    destruct (find_sum_spec (all_sums c genesis) (IDHash id) (length (all_sums c genesis) - S i) (S i)) as (o & -> & Ho'); [lia|].
    cbn [mbind res_bind]. destruct o as [j|]; [|by exfalso; apply (Ho' r); [lia|]].
    destruct (gatherForks c !! r) as [f|] eqn:Ef; [|by rewrite En].
    destruct (lookup_lt_is_Some_2 (gatherForks c) i) as [g Eg]; [apply lookup_lt_Some in Ef; lia|].
    pose proof (sorted_lookup _ i r g f Hsort Hir Eg Ef). pose proof (Hk i g Eg).
    rewrite (Hnext f eq_refl). destruct (Z.eqb_spec f head); [lia|]. by rewrite andb_false_r.
Qed.

(** C22: The fork filter never panics and accepts only announcements whose
    checksum is that of the local genesis with some of the local forks, with the
    right next fork when the remote is behind.  Unless two checksums coincide, nodes
    with the same configuration accept each other whatever their heads, if the fork
    the remote announces as its next, if any, is not the very block of the local
    head. *)
Theorem fork_filter_correct head : is_u64 head ->
  (forall id, exists r, newFilter c genesis head id = Ok r /\ (r = None -> exists k, compatible head id k)) /\
  (NoDup (all_sums c genesis) -> forall head',
     let id := NewID c genesis head' in
     IDNext id = 0 \/ IDNext id <> head -> newFilter c genesis head id = Ok None).
Proof.
  intros Hu. split.
  - intros id. destruct (newFilter_at head id Hu) as (i & Hi & -> & Hil & Hk). by apply check_id_sound.
  - intros Hnd head'. destruct (newFilter_at head (NewID c genesis head') Hu) as (i & Hi & E & _ & Hk).
    cbn zeta. intros Hn. rewrite E. etransitivity; [by apply check_id_same|]. fold (NewID c genesis head').
    destruct (Z.gtb_spec (IDNext (NewID c genesis head')) 0), (Z.eqb_spec (IDNext (NewID c genesis head')) head); cbn [andb]; try done. lia.
Qed.
End filter.

(** ** A concrete schedule *)

Definition fork_config : ChainConfig := {|
  ChainID := Some 1; HomesteadBlock := Some 1150000; EIP150Block := Some 0; LondonBlock := Some 1920000;
  TerminalTotalDifficulty := None |}.

(** A node at block 1150000, the fork itself, rejects a node one block behind with
    the same configuration: the code departs from rule 2 of its comment here. *)
Example filter_rejects_at_fork :
  newFilter fork_config 5 1150000 (NewID fork_config 5 1149999) = Ok (Some ErrLocalIncompatibleOrStale).
Proof. vm_compute. reflexivity. Qed.

(** A node past the fork and one far before it, and the other way round. *)
Lemma fork_filter_correct_witness :
  newFilter fork_config 5 1150001 (NewID fork_config 5 7) = Ok None /\
  newFilter fork_config 5 7 (NewID fork_config 5 1150000) = Ok None.
Proof.
  assert (Hnd : NoDup (all_sums fork_config 5)).
  { apply (bool_decide_eq_true_1 _). vm_compute. reflexivity. }
  destruct (fork_filter_correct fork_config 5 1150001 ltac:(unfold is_u64; lia)) as [_ H1].
  destruct (fork_filter_correct fork_config 5 7 ltac:(unfold is_u64; lia)) as [_ H2].
  split; [apply (H1 Hnd 7) | apply (H2 Hnd 1150000)]; right; vm_compute; discriminate.
Defined.
