(* ===== verification/Clique.v ===== *)
(** * Clique, the proof-of-authority engine ([consensus/clique/clique.go],
    [snapshot.go])

    A snapshot is the state of the authorization votes after a block: the set of
    signers, who signed recently, the votes in order and their tally.  Applying a
    header moves the snapshot on.  Addresses are numbers, so that their byte order
    is the order of numbers.  The cache of recovered signers is left out (it
    remembers a function of the header); the snapshots cached in memory and on
    disk are maps, a snapshot on disk is what was stored. *)

From stdpp Require Import sorting.
From S2P Require Import Prelude Config Common Rlp EvmState Header Consensus.

Local Open Scope Z_scope.

Module Clique.

(** ** Constants and errors *)

Definition checkpointInterval : Z := 1024.
Definition epochLength : Z := 30000.
Definition extraVanity : Z := 32.
Definition extraSeal : Z := 65.
Definition nonceAuthVote : Z := 0xffffffffffffffff.
Definition nonceDropVote : Z := 0.
Definition diffInTurn : Z := 2.
Definition diffNoTurn : Z := 1.
Definition FullImmutabilityThreshold : Z := 90000.

Inductive CliqueErr :=
| errUnknownBlock | errInvalidCheckpointBeneficiary | errInvalidVote | errInvalidCheckpointVote
| errMissingVanity | errMissingSignature | errExtraSigners | errInvalidCheckpointSigners
| errMismatchingCheckpointSigners | errInvalidMixDigest | errInvalidUncleHash | errInvalidDifficulty
| errWrongDifficulty | errInvalidTimestamp | errInvalidVotingChain | errUnauthorizedSigner
| errRecentlySigned | errRecover | errUncles | errGasLimit | errGasUsed | errBaseFeeBeforeFork
| errSealingPaused | errMustWait | errSign | errConsensus (e : ConsensusErr).

(** ** Snapshots *)

Record Vote := mkVote { Signer : Address; vBlock : Z; vAddress : Address; Authorize : bool }.
Record Tally := mkTally { tAuthorize : bool; tVotes : Z }.

Record Snapshot := mkSnap {
  sNumber : Z;
  sHash : Hash;
  Signers : gset Address;
  Recents : gmap Z Address;
  Votes : list Vote;
  sTally : gmap Address Tally;
}.

Definition newSnapshot (number : Z) (hash : Hash) (signers : list Address) : Snapshot :=
  mkSnap number hash (list_to_set signers) ∅ [] ∅.

Definition set_signers (s : gset Address) (snap : Snapshot) : Snapshot :=
  mkSnap (sNumber snap) (sHash snap) s (Recents snap) (Votes snap) (sTally snap).
Definition set_recents (r : gmap Z Address) (snap : Snapshot) : Snapshot :=
  mkSnap (sNumber snap) (sHash snap) (Signers snap) r (Votes snap) (sTally snap).
Definition set_votes (v : list Vote) (t : gmap Address Tally) (snap : Snapshot) : Snapshot :=
  mkSnap (sNumber snap) (sHash snap) (Signers snap) (Recents snap) v t.
Definition set_head (n : Z) (h : Hash) (snap : Snapshot) : Snapshot :=
  mkSnap n h (Signers snap) (Recents snap) (Votes snap) (sTally snap).

(** [len(s.Signers)] *)
Definition num_signers (snap : Snapshot) : Z := Z.of_nat (size (Signers snap)).

Definition validVote (snap : Snapshot) (address : Address) (authorize : bool) : bool :=
  let signer := bool_decide (address ∈ Signers snap) in
  (signer && negb authorize) || (negb signer && authorize).

(** [cast]: the tally when the vote is meaningful. *)
Definition cast (snap : Snapshot) (address : Address) (authorize : bool) : option (gmap Address Tally) :=
  if negb (validVote snap address authorize) then None
  else Some (match sTally snap !! address with
             | Some old => <[address := mkTally (tAuthorize old) (tVotes old + 1)]> (sTally snap)
             | None => <[address := mkTally authorize 1]> (sTally snap)
             end).

(** [uncast]: the tally without a vote. *)
Definition uncast (address : Address) (authorize : bool) (tally : gmap Address Tally) : gmap Address Tally :=
  match tally !! address with
  | None => tally
  | Some t =>
    if negb (Bool.eqb (tAuthorize t) authorize) then tally
    else if tVotes t >? 1 then <[address := mkTally (tAuthorize t) (tVotes t - 1)]> tally
    else delete address tally
  end.

(** [header.Number.Uint64()] *)
Definition num (h : Header) : Z := u64 (Z.abs (Header.Number h)).

(** The votes a signer cast on an address: the first one is taken out. *)
Fixpoint discard_first (signer address : Address) (votes : list Vote) (tally : gmap Address Tally)
    : list Vote * gmap Address Tally :=
  match votes with
  | [] => ([], tally)
  | v :: r =>
    if (Signer v =? signer) && (vAddress v =? address)
    then (r, uncast (vAddress v) (Authorize v) tally)
    else let '(r, tally) := discard_first signer address r tally in (v :: r, tally)
  end.

(** The votes a signer cast on anyone. *)
Fixpoint discard_by (signer : Address) (votes : list Vote) (tally : gmap Address Tally)
    : list Vote * gmap Address Tally :=
  match votes with
  | [] => ([], tally)
  | v :: r =>
    if Signer v =? signer
    then discard_by signer r (uncast (vAddress v) (Authorize v) tally)
    else let '(r, tally) := discard_by signer r tally in (v :: r, tally)
  end.

(** The votes on an address. *)
Fixpoint discard_on (address : Address) (votes : list Vote) : list Vote :=
  match votes with
  | [] => []
  | v :: r => if vAddress v =? address then discard_on address r else v :: discard_on address r
  end.

(** [if limit := len(Signers)/2 + 1; number >= limit { delete(Recents, number-limit) }] *)
Definition drop_oldest (number : Z) (snap : Snapshot) : Snapshot :=
  let limit := num_signers snap / 2 + 1 in
  if number >=? limit then set_recents (delete (number - limit) (Recents snap)) snap else snap.

(** Is an address among the recent signers? *)
Definition recently (signer : Address) (recents : gmap Z Address) : bool :=
  existsb (fun '(_, r) => r =? signer) (map_to_list recents).

(** A passed vote: the signers change, and the votes that lost their meaning go. *)
Definition pass_vote (number : Z) (coinbase : Address) (authorize : bool) (snap : Snapshot) : Snapshot :=
  let snap :=
    if authorize then set_signers ({[coinbase]} ∪ Signers snap) snap
    else
      let snap := set_signers (Signers snap ∖ {[coinbase]}) snap in
      let snap := drop_oldest number snap in
      let '(votes, tally) := discard_by coinbase (Votes snap) (sTally snap) in
      set_votes votes tally snap in
  set_votes (discard_on coinbase (Votes snap)) (delete coinbase (sTally snap)) snap.

(** [tally.Votes > len(snap.Signers)/2]; a missing tally has no votes. *)
Definition settle_votes (number : Z) (coinbase : Address) (snap : Snapshot) : Snapshot :=
  match sTally snap !! coinbase with
  | Some t => if tVotes t >? num_signers snap / 2 then pass_vote number coinbase (tAuthorize t) snap else snap
  | None => snap
  end.

(** The vote of a header; [None] for a nonce that is no vote. *)
Definition vote_of (h : Header) : option bool :=
  if Header.Nonce h =? nonceAuthVote then Some true
  else if Header.Nonce h =? nonceDropVote then Some false
  else None.

Section engine.
Context `{Crypto}.

(** ** Seals *)

(** [encodeSigHeader]: the header without the signature at the end of its extra
    data; encoding a negative integer is a panic. *)
Definition encodeSigHeader (h : Header) : res bytes :=
  extra ← slice (Header.Extra h) 0 (zlen (Header.Extra h) - extraSeal);
  if (Header.Difficulty h <? 0) || (Header.Number h <? 0) ||
     match Header.BaseFee h with Some f => f <? 0 | None => false end
  then Panic PanicEncode
  else Enc.EncodeToBytes (IList (
    [IBytes (be_bytes 32 (Header.ParentHash h)); IBytes (be_bytes 32 (Header.UncleHash h));
     IBytes (be_bytes 20 (Header.Coinbase h)); IBytes (be_bytes 32 (Header.Root h));
     IBytes (be_bytes 32 (Header.TxHash h)); IBytes (be_bytes 32 (Header.ReceiptHash h));
     IBytes (Header.Bloom h); IBig (Header.Difficulty h); IBig (Header.Number h);
     IUint (Header.GasLimit h); IUint (Header.GasUsed h); IUint (Header.Time h);
     IBytes extra; IBytes (be_bytes 32 (Header.MixDigest h)); IBytes (be_bytes 8 (Header.Nonce h))] ++
    match Header.BaseFee h with Some f => [IBig f] | None => [] end)).

(** [CliqueRLP]: the bytes a signer signs. *)
Definition CliqueRLP (h : Header) : res bytes := encodeSigHeader h.

Definition SealHash (h : Header) : res Hash := b ← encodeSigHeader h; Ok (keccak256 b).

(** [ecrecover]: the signer of a header. *)
Definition ecrecover (h : Header) : res (Address + CliqueErr) :=
  if zlen (Header.Extra h) <? extraSeal then Ok (inr errMissingSignature)
  else
    signature ← slice (Header.Extra h) (zlen (Header.Extra h) - extraSeal) (zlen (Header.Extra h));
    seal ← SealHash h;
    match Ecrecover (be_bytes 32 seal) signature with
    | None => Ok (inr errRecover)
    | Some pubkey => Ok (inl (keccak256 (drop 1 pubkey) mod 2 ^ 160))
    end.

(** ** Applying headers *)

(** One round of the loop of [apply]. *)
Definition apply_header (epoch : Z) (snap : Snapshot) (h : Header) : res (Snapshot + CliqueErr) :=
  let number := num h in
  if epoch =? 0 then Panic PanicDivide
  else
    let snap := if number mod epoch =? 0 then set_votes [] ∅ snap else snap in
    let snap := drop_oldest number snap in
    who ← ecrecover h;
    match who with
    | inr e => Ok (inr e)
    | inl signer =>
      if negb (bool_decide (signer ∈ Signers snap)) then Ok (inr errUnauthorizedSigner)
      else if recently signer (Recents snap) then Ok (inr errRecentlySigned)
      else
        let snap := set_recents (<[number := signer]> (Recents snap)) snap in
        let '(votes, tally) := discard_first signer (Header.Coinbase h) (Votes snap) (sTally snap) in
        let snap := set_votes votes tally snap in
        match vote_of h with
        | None => Ok (inr errInvalidVote)
        | Some authorize =>
          let snap :=
            match cast snap (Header.Coinbase h) authorize with
            | Some tally =>
              set_votes (Votes snap ++ [mkVote signer number (Header.Coinbase h) authorize]) tally snap
            | None => snap
            end in
          Ok (inl (settle_votes number (Header.Coinbase h) snap))
        end
    end.

Fixpoint apply_headers (epoch : Z) (snap : Snapshot) (headers : list Header) : res (Snapshot + CliqueErr) :=
  match headers with
  | [] => Ok (inl snap)
  | h :: r =>
    s ← apply_header epoch snap h;
    match s with inl snap => apply_headers epoch snap r | inr e => Ok (inr e) end
  end.

(** The numbers of the headers follow each other. *)
Fixpoint contiguous (number : Z) (headers : list Header) : bool :=
  match headers with
  | [] => true
  | h :: r => (num h =? add64 number 1) && contiguous (num h) r
  end.

(** [apply] *)
Definition snap_apply (epoch : Z) (snap : Snapshot) (headers : list Header) : res (Snapshot + CliqueErr) :=
  match last headers with
  | None => Ok (inl snap)
  | Some lasth =>
    if negb (contiguous (sNumber snap) headers) then Ok (inr errInvalidVotingChain)
    else
      s ← apply_headers epoch snap headers;
      match s with
      | inr e => Ok (inr e)
      | inl s => h ← Header.Hash_ lasth; Ok (inl (set_head (add64 (sNumber snap) (zlen headers)) h s))
      end
  end.

(** ** Turns *)

(** [signers]: in ascending order. *)
Definition signers (snap : Snapshot) : list Address := merge_sort Z.le (elements (Signers snap)).

Fixpoint offset_of (signer : Address) (l : list Address) : Z :=
  match l with [] => 0 | a :: r => if a =? signer then 0 else 1 + offset_of signer r end.

Definition inturn (snap : Snapshot) (number : Z) (signer : Address) : res bool :=
  let l := signers snap in
  if zlen l =? 0 then Panic PanicDivide else Ok (number mod zlen l =? offset_of signer l).

Definition calcDifficulty (snap : Snapshot) (signer : Address) : res Z :=
  t ← inturn snap (add64 (sNumber snap) 1) signer;
  Ok (if (t : bool) then diffInTurn else diffNoTurn).

(** The loop of [verifySeal] over the recent signers; [number - limit] wraps. *)
Definition signed_recently (snap : Snapshot) (number : Z) (signer : Address) : bool :=
  let limit := num_signers snap / 2 + 1 in
  existsb (fun '(seen, recent) => (recent =? signer) && (seen >? sub64 number limit)) (map_to_list (Recents snap)).

(** [verifySeal] *)
Definition verifySeal (fakeDiff : bool) (snap : Snapshot) (h : Header) : res (option CliqueErr) :=
  let number := num h in
  if number =? 0 then Ok (Some errUnknownBlock)
  else
    who ← ecrecover h;
    match who with
    | inr e => Ok (Some e)
    | inl signer =>
      if negb (bool_decide (signer ∈ Signers snap)) then Ok (Some errUnauthorizedSigner)
      else if signed_recently snap number signer then Ok (Some errRecentlySigned)
        else if fakeDiff then Ok None
        else
          t ← inturn snap number signer;
          Ok (if (t : bool) && negb (Header.Difficulty h =? diffInTurn) then Some errWrongDifficulty
              else if negb t && negb (Header.Difficulty h =? diffNoTurn) then Some errWrongDifficulty
              else None)
    end.

(** The check of [Seal] whether to wait: [number < limit || seen > number-limit]. *)
Definition must_wait (snap : Snapshot) (number : Z) (signer : Address) : bool :=
  let limit := num_signers snap / 2 + 1 in
  existsb (fun '(seen, recent) => (recent =? signer) && ((number <? limit) || (seen >? sub64 number limit)))
          (map_to_list (Recents snap)).

(** ** The engine *)

Record ChainHeaderReader := mkChain {
  ch_Config : ChainConfig;
  ch_GetHeader : Hash -> Z -> option Header;
  ch_GetHeaderByNumber : Z -> option Header;
}.

Record Engine := mkEngine {
  Period : Z;
  Epoch : Z;
  e_recents : gmap Hash Snapshot;
  e_db : gmap Hash Snapshot;
  proposals : gmap Address bool;
  e_signer : Address;
  fakeDiff : bool;
}.

Definition New (period epoch : Z) : Engine :=
  mkEngine period (if epoch =? 0 then epochLength else epoch) ∅ ∅ ∅ 0 false.

Definition e_store (snap : Snapshot) (e : Engine) : Engine :=
  mkEngine (Period e) (Epoch e) (e_recents e) (<[sHash snap := snap]> (e_db e)) (proposals e) (e_signer e) (fakeDiff e).
Definition e_add (snap : Snapshot) (e : Engine) : Engine :=
  mkEngine (Period e) (Epoch e) (<[sHash snap := snap]> (e_recents e)) (e_db e) (proposals e) (e_signer e) (fakeDiff e).

(** The signers in the extra data of a checkpoint. *)
Definition checkpoint_signers (h : Header) : res (list Address) :=
  let n := Z.quot (zlen (Header.Extra h) - extraVanity - extraSeal) 20 in
  if n <? 0 then Panic PanicMakeLen
  else Ok (map (fun i => be_value (take 20 (drop (32 + i * 20) (Header.Extra h)))) (seq 0 (Z.to_nat n))).

(** The loop of [snapshot]: a snapshot and the headers to apply to it, oldest
    first. *)
Fixpoint snapshot_loop (fuel : nat) (chain : ChainHeaderReader) (number : Z) (hash : Hash)
    (parents headers : list Header) (e : Engine) : res ((Snapshot * list Header + CliqueErr) * Engine) :=
  match fuel with
  | O => NoFuel
  | S fuel =>
    match e_recents e !! hash with
    | Some s => Ok (inl (s, headers), e)
    | None =>
      let disk := if number mod checkpointInterval =? 0 then e_db e !! hash else None in
      match disk with
      | Some s => Ok (inl (s, headers), e)
      | None =>
        if Epoch e =? 0 then Panic PanicDivide
        else
          let checkpoint :=
            if (number =? 0) ||
               ((number mod Epoch e =? 0) &&
                ((zlen headers >? FullImmutabilityThreshold) ||
                 match ch_GetHeaderByNumber chain (sub64 number 1) with None => true | _ => false end))
            then ch_GetHeaderByNumber chain number else None in
          match checkpoint with
          | Some cp =>
            h ← Header.Hash_ cp;
            sigs ← checkpoint_signers cp;
            let snap := newSnapshot number h sigs in
            Ok (inl (snap, headers), e_store snap e)
          | None =>
            found ←
              match last parents with
              | Some p =>
                h ← Header.Hash_ p;
                if negb (h =? hash) || negb (num p =? number) then Ok None else Ok (Some (p, removelast parents))
              | None => Ok (match ch_GetHeader chain hash number with Some p => Some (p, []) | None => None end)
              end;
            match found with
            | None => Ok (inr (errConsensus ErrUnknownAncestor), e)
            | Some (header, parents) =>
              snapshot_loop fuel chain (sub64 number 1) (Header.ParentHash header) parents (header :: headers) e
            end
          end
      end
    end
  end.

(** Every round goes one block back, and the genesis block ends the loop. *)
Definition snapshot (chain : ChainHeaderReader) (number : Z) (hash : Hash) (parents : list Header) (e : Engine)
    : res ((Snapshot + CliqueErr) * Engine) :=
  '(r, e) ← snapshot_loop (S (Z.to_nat number)) chain number hash parents [] e;
  match r with
  | inr er => Ok (inr er, e)
  | inl (snap, headers) =>
    r ← snap_apply (Epoch e) snap headers;
    match r with
    | inr er => Ok (inr er, e)
    | inl snap =>
      let e := e_add snap e in
      Ok (inl snap, if (sNumber snap mod checkpointInterval =? 0) && negb (zlen headers =? 0)
                    then e_store snap e else e)
    end
  end.

(** [VerifyUncles]: there are none. *)
Definition VerifyUncles (uncles : list Header) : option CliqueErr :=
  if zlen uncles >? 0 then Some errUncles else None.

(** [CalcUncleHash(nil)] *)
Definition uncleHash : Hash := keccak256 [192].

(** [verifyCascadingFields] *)
Definition verifyCascadingFields (chain : ChainHeaderReader) (header : Header) (parents : list Header) (e : Engine)
    : res (option CliqueErr * Engine) :=
  let number := num header in
  if number =? 0 then Ok (None, e)
  else
    let parent := match last parents with
                  | Some p => Some p
                  | None => ch_GetHeader chain (Header.ParentHash header) (sub64 number 1)
                  end in
    match parent with
    | None => Ok (Some (errConsensus ErrUnknownAncestor), e)
    | Some parent =>
      ph ← Header.Hash_ parent;
      if negb (num parent =? sub64 number 1) || negb (ph =? Header.ParentHash header)
      then Ok (Some (errConsensus ErrUnknownAncestor), e)
      else if add64 (Header.Time parent) (Period e) >? Header.Time header then Ok (Some errInvalidTimestamp, e)
      else if Header.GasUsed header >? Header.GasLimit header then Ok (Some errGasUsed, e)
      else
        err ←
          (if negb (conf_IsLondon (ch_Config chain) (Header.Number header)) then
             match Header.BaseFee header with
             | Some _ => Ok (Some errBaseFeeBeforeFork)
             | None => Ok (option_map errConsensus (VerifyGaslimit (Header.GasLimit parent) (Header.GasLimit header)))
             end
           else r ← VerifyEip1559Header (ch_Config chain) parent header; Ok (option_map errConsensus r));
        match err with
        | Some er => Ok (Some er, e)
        | None =>
          '(r, e) ← snapshot chain (sub64 number 1) (Header.ParentHash header) parents e;
          match r with
          | inr er => Ok (Some er, e)
          | inl snap =>
            if Epoch e =? 0 then Panic PanicDivide
            else
              mismatch ←
                (if number mod Epoch e =? 0 then
                   listed ← slice (Header.Extra header) extraVanity (zlen (Header.Extra header) - extraSeal);
                   Ok (negb (bool_decide (listed = concat (map (be_bytes 20) (signers snap)))))
                 else Ok false);
              if (mismatch : bool) then Ok (Some errMismatchingCheckpointSigners, e)
              else er ← verifySeal (fakeDiff e) snap header; Ok (er, e)
          end
        end
    end.

(** [verifyHeader]; [VerifyForkHashes] accepts every header. *)
Definition verifyHeader (chain : ChainHeaderReader) (header : Header) (parents : list Header) (unixNow : Z) (e : Engine)
    : res (option CliqueErr * Engine) :=
  let number := num header in
  if Header.Time header >? u64 unixNow then Ok (Some (errConsensus ErrFutureBlock), e)
  else if Epoch e =? 0 then Panic PanicDivide
  else
    let checkpoint := number mod Epoch e =? 0 in
    if checkpoint && negb (Header.Coinbase header =? 0) then Ok (Some errInvalidCheckpointBeneficiary, e)
    else if match vote_of header with None => true | _ => false end then Ok (Some errInvalidVote, e)
    else if checkpoint && negb (Header.Nonce header =? nonceDropVote) then Ok (Some errInvalidCheckpointVote, e)
    else if zlen (Header.Extra header) <? extraVanity then Ok (Some errMissingVanity, e)
    else if zlen (Header.Extra header) <? extraVanity + extraSeal then Ok (Some errMissingSignature, e)
    else
      let signersBytes := zlen (Header.Extra header) - extraVanity - extraSeal in
      if negb checkpoint && negb (signersBytes =? 0) then Ok (Some errExtraSigners, e)
      else if checkpoint && negb (signersBytes mod 20 =? 0) then Ok (Some errInvalidCheckpointSigners, e)
      else if negb (Header.MixDigest header =? 0) then Ok (Some errInvalidMixDigest, e)
      else if negb (Header.UncleHash header =? uncleHash) then Ok (Some errInvalidUncleHash, e)
      else if (number >? 0) && negb (Header.Difficulty header =? diffInTurn) && negb (Header.Difficulty header =? diffNoTurn)
      then Ok (Some errInvalidDifficulty, e)
      else if Header.GasLimit header >? MaxGasLimit then Ok (Some errGasLimit, e)
      else verifyCascadingFields chain header parents e.

(** [Prepare]: [pick] is the random index of the proposal voted on. *)
Definition Prepare (chain : ChainHeaderReader) (header : Header) (pick unixNow : Z) (e : Engine)
    : res ((Header + CliqueErr) * Engine) :=
  let number := num header in
  '(r, e) ← snapshot chain (sub64 number 1) (Header.ParentHash header) [] e;
  match r with
  | inr er => Ok (inr er, e)
  | inl snap =>
    if Epoch e =? 0 then Panic PanicDivide
    else
      let addresses := omap (fun '(a, auth) => if validVote snap a auth then Some a else None) (map_to_list (proposals e)) in
      '(coinbase, nonce) ←
        (if negb (number mod Epoch e =? 0) && (zlen addresses >? 0) then
           a ← nth_or_panic addresses pick;
           Ok (a, if default false (proposals e !! a) then nonceAuthVote else nonceDropVote)
         else Ok (0, 0));
      difficulty ← calcDifficulty snap (e_signer e);
      let vanity := take 32 (Header.Extra header ++ replicate (32 - length (Header.Extra header)) 0) in
      let listed := if number mod Epoch e =? 0 then concat (map (be_bytes 20) (signers snap)) else [] in
      match ch_GetHeader chain (Header.ParentHash header) (sub64 number 1) with
      | None => Ok (inr (errConsensus ErrUnknownAncestor), e)
      | Some parent =>
        let t := add64 (Header.Time parent) (Period e) in
        let t := if t <? u64 unixNow then u64 unixNow else t in
        Ok (inl (Header.mkHeader (Header.ParentHash header) (Header.UncleHash header) coinbase (Header.Root header)
                   (Header.TxHash header) (Header.ReceiptHash header) (Header.Bloom header) difficulty
                   (Header.Number header) (Header.GasLimit header) (Header.GasUsed header) t
                   (vanity ++ listed ++ replicate 65 0) 0 nonce (Header.BaseFee header)), e)
      end
  end.

(** [VerifyHeader] *)
Definition VerifyHeader (chain : ChainHeaderReader) (header : Header) (unixNow : Z) (e : Engine)
    : res (option CliqueErr * Engine) := verifyHeader chain header [] unixNow e.

(** [VerifyHeaders], run to the end: each header with the ones before it as
    parents; the results in order. *)
Fixpoint VerifyHeaders (chain : ChainHeaderReader) (done headers : list Header) (unixNow : Z) (e : Engine)
    : res (list (option CliqueErr) * Engine) :=
  match headers with
  | [] => Ok ([], e)
  | h :: r =>
    '(err, e) ← verifyHeader chain h done unixNow e;
    '(errs, e) ← VerifyHeaders chain (done ++ [h]) r unixNow e;
    Ok (err :: errs, e)
  end.

(** [Author] *)
Definition Author (header : Header) : res (Address + CliqueErr) := ecrecover header.

(** [CalcDifficulty]; no difficulty without a snapshot. *)
Definition CalcDifficulty (chain : ChainHeaderReader) (parent : Header) (e : Engine) : res (option Z * Engine) :=
  ph ← Header.Hash_ parent;
  '(r, e) ← snapshot chain (num parent) ph [] e;
  match r with
  | inr _ => Ok (None, e)
  | inl snap => d ← calcDifficulty snap (e_signer e); Ok (Some d, e)
  end.

(** [copy(header.Extra[len(header.Extra)-extraSeal:], sighash)] *)
Definition put_seal (h : Header) (sighash : bytes) : Header :=
  let l := length (Header.Extra h) in
  Header.mkHeader (Header.ParentHash h) (Header.UncleHash h) (Header.Coinbase h) (Header.Root h)
    (Header.TxHash h) (Header.ReceiptHash h) (Header.Bloom h) (Header.Difficulty h)
    (Header.Number h) (Header.GasLimit h) (Header.GasUsed h) (Header.Time h)
    (take (l - 65) (Header.Extra h) ++ take 65 sighash ++ drop (l - 65 + length (take 65 sighash)) (Header.Extra h))
    (Header.MixDigest h) (Header.Nonce h) (Header.BaseFee h).

(** [Seal]: the header handed to the miner once the delay is over; [ntxs] is the
    number of transactions of the block, [signFn] the signing function given to
    [Authorize], nil before. *)
Definition Seal (chain : ChainHeaderReader) (header : Header) (ntxs : Z) (signFn : option (Address -> bytes -> option bytes))
    (e : Engine) : res ((Header + CliqueErr) * Engine) :=
  let number := num header in
  if number =? 0 then Ok (inr errUnknownBlock, e)
  else if (Period e =? 0) && (ntxs =? 0) then Ok (inr errSealingPaused, e)
  else
    let signer := e_signer e in
    '(r, e) ← snapshot chain (sub64 number 1) (Header.ParentHash header) [] e;
    match r with
    | inr er => Ok (inr er, e)
    | inl snap =>
      if negb (bool_decide (signer ∈ Signers snap)) then Ok (inr errUnauthorizedSigner, e)
      else if must_wait snap number signer then Ok (inr errMustWait, e)
      else
        data ← CliqueRLP header;
        match signFn with
        | None => Panic PanicNil
        | Some sign =>
          match sign signer data with
          | None => Ok (inr errSign, e)
          | Some sighash => Ok (inl (put_seal header sighash), e)
          end
        end
    end.

(** [Authorize] *)
Definition Authorize_ (signer : Address) (e : Engine) : Engine :=
  mkEngine (Period e) (Epoch e) (e_recents e) (e_db e) (proposals e) signer (fakeDiff e).

(** [API.Propose] and [API.Discard] ([api.go]) *)
Definition Propose (address : Address) (auth : bool) (e : Engine) : Engine :=
  mkEngine (Period e) (Epoch e) (e_recents e) (e_db e) (<[address := auth]> (proposals e)) (e_signer e) (fakeDiff e).
Definition Discard (address : Address) (e : Engine) : Engine :=
  mkEngine (Period e) (Epoch e) (e_recents e) (e_db e) (delete address (proposals e)) (e_signer e) (fakeDiff e).
End engine.
End Clique.
