(* ===== verification/CliqueSpec.v ===== *)
(** * Theorems on Clique

    The invariant of voting snapshots: the tally counts the votes, every vote is
    cast by a signer, makes sense and is the only one of its signer on its
    address; the recent signers are distinct and lie in the window of blocks in
    which a signer may not sign again. *)

From stdpp Require Import sorting.
From S2P Require Import Prelude Config Common Rlp RlpSpec EvmState Header Consensus Clique.

Import Clique.

Local Open Scope Z_scope.

(** ** Votes and their tally *)

Definition count (a : Address) (votes : list Vote) : Z :=
  Z.of_nat (length (filter (fun v => vAddress v = a) votes)).

(** What a vote on an address is about: to authorize it when it is no signer. *)
Definition direction (S : gset Address) (a : Address) : bool := negb (bool_decide (a ∈ S)).

(** The tally of a list of votes. *)
Definition tally_is (S : gset Address) (votes : list Vote) (tally : gmap Address Tally) : Prop :=
  forall a, tally !! a = if count a votes =? 0 then None else Some (mkTally (direction S a) (count a votes)).

Definition vote_ok (S : gset Address) (v : Vote) : Prop :=
  Signer v ∈ S /\ Authorize v = direction S (vAddress v).

Record votes_ok (S : gset Address) (votes : list Vote) (tally : gmap Address Tally) : Prop := {
  vo_votes : Forall (vote_ok S) votes;
  vo_unique : NoDup (map (fun v => (Signer v, vAddress v)) votes);
  vo_tally : tally_is S votes tally;
}.

Lemma count_nonneg a votes : 0 <= count a votes.
Proof. unfold count. lia. Qed.

Lemma count_app a l1 l2 : count a (l1 ++ l2) = count a l1 + count a l2.
Proof. unfold count. rewrite filter_app, length_app. lia. Qed.

Lemma count_cons a v l : count a (v :: l) = (if decide (vAddress v = a) then 1 else 0) + count a l.
Proof. unfold count. rewrite filter_cons. destruct (decide _); cbn [length]; lia. Qed.

Lemma count_mid a l1 v l2 : count a (l1 ++ v :: l2) = (if decide (vAddress v = a) then 1 else 0) + count a (l1 ++ l2).
Proof. rewrite !count_app, count_cons. lia. Qed.

Lemma tally_is_empty S : tally_is S [] ∅.
Proof. intros a. done. Qed.

(** Taking out a counted vote. *)
Lemma uncast_tally S l1 v l2 tally : tally_is S (l1 ++ v :: l2) tally -> Authorize v = direction S (vAddress v) ->
  tally_is S (l1 ++ l2) (uncast (vAddress v) (Authorize v) tally).
Proof.
  intros Ht Hd a. pose proof (Ht (vAddress v)) as Hv. rewrite count_mid, decide_True in Hv by done.
  pose proof (count_nonneg (vAddress v) (l1 ++ l2)).
  destruct (Z.eqb_spec (1 + count (vAddress v) (l1 ++ l2)) 0) as [|_]; [lia|].
  unfold uncast. rewrite Hv. cbn [tAuthorize tVotes]. rewrite Hd, eqb_reflx. cbn [negb].
  specialize (Ht a). rewrite count_mid in Ht.
  destruct (decide (vAddress v = a)) as [<-|Hne].
  - destruct (Z.gtb_spec (1 + count (vAddress v) (l1 ++ l2)) 1).
    + rewrite lookup_insert_eq. destruct (Z.eqb_spec (count (vAddress v) (l1 ++ l2)) 0); [lia|]. do 2 f_equal. lia.
    + rewrite lookup_delete_eq. by destruct (Z.eqb_spec (count (vAddress v) (l1 ++ l2)) 0); [|lia].
  - rewrite Z.add_0_l in Ht. destruct (_ >? 1); [by rewrite lookup_insert_ne | by rewrite lookup_delete_ne].
Qed.

(** Adding one. *)
Lemma cast_tally snap a b n s tally : tally_is (Signers snap) (Votes snap) (sTally snap) ->
  cast snap a b = Some tally ->
  b = direction (Signers snap) a /\ tally_is (Signers snap) (Votes snap ++ [mkVote s n a b]) tally.
Proof.
  intros Ht Hc. unfold cast in Hc. destruct (validVote snap a b) eqn:Ev; [|done]. cbn [negb] in Hc. injection Hc as <-.
  assert (Hd : b = direction (Signers snap) a).
  { unfold validVote in Ev. unfold direction. by destruct (bool_decide _), b. }
  split; [done|]. intros x. rewrite count_app, count_cons. change (count x []) with 0. cbn [vAddress].
  pose proof (Ht a) as Ha. pose proof (count_nonneg a (Votes snap)).
  assert (Hother : x <> a -> sTally snap !! x =
    if count x (Votes snap) + (0 + 0) =? 0 then None else Some (mkTally (direction (Signers snap) x) (count x (Votes snap) + (0 + 0)))).
  { intros _. by rewrite !Z.add_0_r. }
  rewrite Ha. destruct (decide (a = x)) as [<-|Hne].
  - destruct (Z.eqb_spec (count a (Votes snap)) 0) as [E|E]; rewrite lookup_insert_eq.
    + rewrite E. cbn. by rewrite Hd.
    + destruct (Z.eqb_spec (count a (Votes snap) + (1 + 0)) 0); [lia|]. cbn. repeat f_equal; lia.
  - rewrite <- Hother by done. destruct (count a (Votes snap) =? 0); by rewrite lookup_insert_ne.
Qed.

(** ** Discarding votes *)

Lemma discard_first_spec s a votes : forall tally,
  (forall v, v ∈ votes -> ~ (Signer v = s /\ vAddress v = a)) /\ discard_first s a votes tally = (votes, tally) \/
  exists l1 v l2, votes = l1 ++ v :: l2 /\ Signer v = s /\ vAddress v = a /\
    discard_first s a votes tally = (l1 ++ l2, uncast (vAddress v) (Authorize v) tally).
Proof.
  induction votes as [|v r IH]; intros tally; cbn [discard_first]; [left; split; [by intros ? ?%elem_of_nil | done]|].
  destruct (_ && _) eqn:E.
  - apply andb_true_iff in E as [E1 E2]. to_prop. right. by exists [], v, r.
  - assert (Hv : ~ (Signer v = s /\ vAddress v = a)) by (intros [<- <-]; by rewrite !Z.eqb_refl in E).
    destruct (IH tally) as [[Hn ->]|(l1 & w & l2 & -> & Hs & Ha & ->)].
    + left. split; [|done]. intros w [->|Hw]%elem_of_cons; [done | by apply Hn].
    + right. by exists (v :: l1), w, l2.
Qed.

(** What a vote list stands for is kept when votes are discarded. *)
Lemma discard_first_ok S s a votes tally votes' tally' : votes_ok S votes tally ->
  discard_first s a votes tally = (votes', tally') ->
  votes_ok S votes' tally' /\ (forall v, v ∈ votes' -> v ∈ votes /\ ~ (Signer v = s /\ vAddress v = a)).
Proof.
  intros [Hv Hu Ht] E. destruct (discard_first_spec s a votes tally) as [[Hn E']|(l1 & v & l2 & -> & <- & <- & E')];
    rewrite E' in E; injection E as <- <-.
  - split; [done|]. intros v Hin. split; [done | by apply Hn].
  - apply Forall_app in Hv as [Hv1 [Hvv Hv2]%Forall_cons]. rewrite map_app in Hu. cbn [map] in Hu.
    assert (Hu' : NoDup (map (fun v => (Signer v, vAddress v)) (l1 ++ l2)) /\
      (Signer v, vAddress v) ∉ map (fun v => (Signer v, vAddress v)) (l1 ++ l2)).
    { rewrite Permutation_middle in Hu || rewrite <- Permutation_middle in Hu. apply NoDup_cons in Hu as [? ?]. by rewrite map_app. }
    destruct Hu' as [Hu' Hnin]. split.
    + constructor; [by apply Forall_app | done | apply uncast_tally; [done | by destruct Hvv]].
    + intros w Hw. split; [rewrite !elem_of_app, elem_of_cons in *; tauto|]. intros [E1 E2]. apply Hnin.
      rewrite <- E1, <- E2. change (map ?f ?l) with (f <$> l). apply list_elem_of_fmap. by exists w.
Qed.

Lemma discard_by_spec S s votes : forall pre tally, tally_is S (pre ++ votes) tally ->
  Forall (fun v => Authorize v = direction S (vAddress v)) votes ->
  exists tally', discard_by s votes tally = (filter (fun v => Signer v <> s) votes, tally') /\
    tally_is S (pre ++ filter (fun v => Signer v <> s) votes) tally'.
Proof.
  induction votes as [|v r IH]; intros pre tally Ht Hf; cbn [discard_by]; [by exists tally|].
  apply Forall_cons in Hf as [Hv Hf]. destruct (Z.eqb_spec (Signer v) s) as [E|E].
  - rewrite filter_cons_False by (intros Hn; by apply Hn). apply IH; [by apply uncast_tally | done].
  - rewrite filter_cons_True by done. destruct (IH (pre ++ [v]) tally) as (t' & -> & Ht'); [by rewrite <- app_assoc | done |].
    exists t'. split; [done|]. by rewrite <- app_assoc in Ht'.
Qed.

Lemma discard_on_filter a votes : discard_on a votes = filter (fun v => vAddress v <> a) votes.
Proof.
  induction votes as [|v r IH]; [done|]. cbn [discard_on]. destruct (Z.eqb_spec (vAddress v) a) as [E|E].
  - rewrite filter_cons_False by (intros Hn; by apply Hn). done.
  - by rewrite filter_cons_True, IH.
Qed.

Lemma count_filter_ne a b votes : count a (filter (fun v => vAddress v <> b) votes) = if decide (a = b) then 0 else count a votes.
Proof.
  induction votes as [|v r IH]; [by destruct (decide _)|]. destruct (decide (vAddress v = b)) as [E|E].
  - rewrite filter_cons_False by (intros Hn; by apply Hn). rewrite IH, count_cons. destruct (decide (a = b)), (decide (vAddress v = a)); congruence || done.
  - rewrite filter_cons_True, !count_cons, IH by done. destruct (decide (a = b)), (decide (vAddress v = a)); congruence || done.
Qed.

Lemma NoDup_filter_keys (P : Vote -> Prop) `{!forall v, Decision (P v)} votes :
  NoDup (map (fun v => (Signer v, vAddress v)) votes) -> NoDup (map (fun v => (Signer v, vAddress v)) (filter P votes)).
Proof.
  intros Hu. eapply sublist_NoDup; [exact Hu|]. apply (fmap_sublist (fun v => (Signer v, vAddress v))). apply sublist_filter.
Qed.

(** The votes on an address that has changed sides go, with their tally. *)
Lemma change_signers_ok S S' a votes tally : votes_ok S votes tally ->
  (forall b, b <> a -> (b ∈ S' <-> b ∈ S)) -> (forall v, v ∈ votes -> Signer v ∈ S') ->
  votes_ok S' (discard_on a votes) (delete a tally).
Proof.
  intros [Hv Hu Ht] HS Hsig. rewrite discard_on_filter.
  assert (Hdir : forall b, b <> a -> direction S' b = direction S b).
  { intros b Hb. unfold direction. f_equal. apply bool_decide_ext. by apply HS. }
  constructor.
  - rewrite Forall_forall in *. intros v [Hne Hin]%list_elem_of_filter. split; [by apply Hsig|].
    rewrite Hdir by done. by apply Hv.
  - by apply NoDup_filter_keys.
  - intros b. rewrite count_filter_ne. destruct (decide (b = a)) as [->|Hne]; [by rewrite lookup_delete_eq|].
    rewrite lookup_delete_ne, Ht, Hdir by done. done.
Qed.

(** ** Majorities *)

(** The signers who voted on an address. *)
Definition voters (a : Address) (votes : list Vote) : gset Address :=
  list_to_set (map Signer (filter (fun v => vAddress v = a) votes)).

Lemma voters_size S a votes tally : votes_ok S votes tally -> Z.of_nat (size (voters a votes)) = count a votes.
Proof.
  intros [_ Hu _]. unfold voters, count. rewrite size_list_to_set; [by rewrite length_map|].
  apply (NoDup_filter_keys (fun v => vAddress v = a)) in Hu.
  assert (Hf : Forall (fun v => vAddress v = a) (filter (fun v => vAddress v = a) votes)).
  { apply Forall_forall. by intros v [? _]%list_elem_of_filter. }
  induction Hf as [|v l Hv Hf IH]; cbn in *; [constructor|]. apply NoDup_cons in Hu as [Hn Hu]. constructor; [|by apply IH].
  intros (w & E & Hw)%list_elem_of_fmap. apply Hn. change (map ?f ?l) with (f <$> l). apply list_elem_of_fmap. exists w. split; [|done].
  rewrite Forall_forall in Hf. rewrite <- E, (Hf w Hw), Hv. done.
Qed.

Lemma voters_elem a votes s : s ∈ voters a votes <-> exists v, v ∈ votes /\ Signer v = s /\ vAddress v = a.
Proof.
  unfold voters. rewrite elem_of_list_to_set. change (map ?f ?l) with (f <$> l). rewrite list_elem_of_fmap. split.
  - intros (v & -> & [? ?]%list_elem_of_filter). eauto.
  - intros (v & Hv & <- & Ha). exists v. split; [done|]. by apply list_elem_of_filter.
Qed.

(** [V] is a majority of the signers, all of whom voted on [a]. *)
Definition majority (S : gset Address) (a : Address) (votes : list Vote) (V : gset Address) : Prop :=
  V ⊆ S /\ Z.of_nat (size V) > Z.of_nat (size S) / 2 /\
  forall s, s ∈ V -> exists v, v ∈ votes /\ Signer v = s /\ vAddress v = a /\ Authorize v = direction S a.

(** What settling a vote does to the signers and the votes. *)
Lemma pass_vote_signers number a b snap :
  Signers (pass_vote number a b snap) = if b then {[a]} ∪ Signers snap else Signers snap ∖ {[a]}.
Proof.
  unfold pass_vote. destruct b; cbn [set_votes Signers set_signers]; [done|].
  destruct (discard_by _ _ _). unfold drop_oldest. by destruct (_ >=? _).
Qed.

Lemma drop_oldest_votes number snap :
  Signers (drop_oldest number snap) = Signers snap /\ Votes (drop_oldest number snap) = Votes snap /\
  sTally (drop_oldest number snap) = sTally snap /\ sNumber (drop_oldest number snap) = sNumber snap.
Proof. unfold drop_oldest. by destruct (_ >=? _). Qed.

Lemma pass_vote_ok number a b snap : votes_ok (Signers snap) (Votes snap) (sTally snap) -> b = direction (Signers snap) a ->
  let snap' := pass_vote number a b snap in votes_ok (Signers snap') (Votes snap') (sTally snap').
Proof.
  intros Hok Hb. cbn zeta. rewrite pass_vote_signers. unfold pass_vote. destruct b; cbn [set_votes set_signers Signers Votes sTally].
  - apply (change_signers_ok (Signers snap)); [done | set_solver |]. destruct Hok as [Hv _ _].
    rewrite Forall_forall in Hv. intros v Hin. destruct (Hv v Hin). set_solver.
  - set (snap1 := set_signers _ snap). destruct (drop_oldest_votes number snap1) as (_ & Ev & Et & _).
    rewrite Ev, Et. destruct Hok as [Hv Hu Ht].
    destruct (discard_by_spec (Signers snap) a (Votes snap) [] (sTally snap)) as (t' & E & Ht'); [done | |].
    { eapply Forall_impl; [exact Hv|]. by intros v [_ ?]. }
    cbn [app] in Ht'. change (Votes snap1) with (Votes snap). change (sTally snap1) with (sTally snap). rewrite E.
    cbn [set_votes Votes sTally]. apply (change_signers_ok (Signers snap)).
    + constructor; [rewrite Forall_forall in *; intros v [_ Hin]%list_elem_of_filter; by apply Hv | by apply NoDup_filter_keys | done].
    + set_solver.
    + intros v [Hne Hin]%list_elem_of_filter. rewrite Forall_forall in Hv. destruct (Hv v Hin). set_solver.
Qed.

Lemma settle_votes_ok number a snap : votes_ok (Signers snap) (Votes snap) (sTally snap) ->
  let snap' := settle_votes number a snap in
  votes_ok (Signers snap') (Votes snap') (sTally snap') /\
  (Signers snap' = Signers snap \/
   (exists V, majority (Signers snap) a (Votes snap) V) /\
   Signers snap' = if direction (Signers snap) a then {[a]} ∪ Signers snap else Signers snap ∖ {[a]}).
Proof.
  intros Hok. cbn zeta. unfold settle_votes. pose proof (vo_tally _ _ _ Hok a) as Ha. rewrite Ha.
  destruct (Z.eqb_spec (count a (Votes snap)) 0) as [|Hn]; [by split; [|left]|]. cbn [tVotes tAuthorize].
  destruct (Z.gtb_spec (count a (Votes snap)) (num_signers snap / 2)) as [Hgt|]; [|by split; [|left]].
  split; [by apply pass_vote_ok|]. right. split; [|apply pass_vote_signers].
  exists (voters a (Votes snap)). pose proof (vo_votes _ _ _ Hok) as Hv. rewrite Forall_forall in Hv. split_and!.
  - intros s (v & Hin & <- & _)%voters_elem. by destruct (Hv v Hin).
  - rewrite (voters_size _ _ _ _ Hok). unfold num_signers in Hgt. lia.
  - intros s (v & Hin & Hs & Hav)%voters_elem. exists v. split_and!; [done | done | done |].
    destruct (Hv v Hin) as [_ ->]. by rewrite Hav.
Qed.

(** ** Recent signers *)

(** The blocks after which a signer may sign again. *)
Definition limit (snap : Snapshot) : Z := num_signers snap / 2 + 1.

(** After block [n]: one signer per block of the window, each once. *)
Definition recents_ok (n : Z) (snap : Snapshot) : Prop :=
  (forall k s, Recents snap !! k = Some s -> 0 <= k /\ n - limit snap < k <= n) /\
  (forall k1 k2 s, Recents snap !! k1 = Some s -> Recents snap !! k2 = Some s -> k1 = k2).

Lemma recently_spec s (recents : gmap Z Address) : recently s recents = true <-> exists k, recents !! k = Some s.
Proof.
  unfold recently. rewrite existsb_exists. split.
  - intros ([k r] & Hin & E). to_prop. subst. exists k. by apply elem_of_map_to_list, list_elem_of_In.
  - intros [k E]. exists (k, s). split; [by apply list_elem_of_In, elem_of_map_to_list | by rewrite Z.eqb_refl].
Qed.

Lemma drop_oldest_window number snap k s : Recents (drop_oldest number snap) !! k = Some s ->
  Recents snap !! k = Some s /\ (0 <= k -> number - 1 - limit snap < k -> number - limit snap < k).
Proof.
  unfold drop_oldest. fold (limit snap). destruct (Z.geb_spec number (limit snap)); cbn [set_recents Recents].
  - intros [Hne E]%lookup_delete_Some. split; [done | lia].
  - intros E. split; [done | lia].
Qed.

Lemma num_signers_eq s1 s2 : Signers s1 = Signers s2 -> limit s1 = limit s2.
Proof. intros E. unfold limit, num_signers. by rewrite E. Qed.

(** The window never shrinks by more than a block when a vote passes. *)
Lemma pass_vote_recents number a b snap : 0 <= number -> recents_ok number snap ->
  recents_ok number (pass_vote number a b snap).
Proof.
  intros Hn [Hw Hi].
  assert (Hlim : forall S, limit (set_signers S snap) = Z.of_nat (size S) / 2 + 1) by done.
  assert (HL : limit snap = Z.of_nat (size (Signers snap)) / 2 + 1) by done.
  pose proof (num_signers_eq (pass_vote number a b snap) (set_signers (Signers (pass_vote number a b snap)) snap) eq_refl) as HL'.
  rewrite pass_vote_signers, Hlim in HL'. destruct b.
  - assert (size (Signers snap) <= size ({[a]} ∪ Signers snap))%nat by (apply subseteq_size; set_solver).
    assert (Z.of_nat (size (Signers snap)) / 2 <= Z.of_nat (size ({[a]} ∪ Signers snap)) / 2) by (apply Z.div_le_mono; lia).
    split; [|exact Hi]. rewrite HL'. intros k s E. destruct (Hw k s E) as [? ?]. lia.
  - assert (Hsz : (size (Signers snap) <= S (size (Signers snap ∖ {[a]})))%nat).
    { pose proof (size_union ({[a]} : gset Address) (Signers snap ∖ {[a]}) ltac:(set_solver)) as Hu. rewrite size_singleton in Hu.
      change (S (size (Signers snap ∖ {[a]}))) with (1 + size (Signers snap ∖ {[a]}))%nat. rewrite <- Hu.
      apply subseteq_size. intros x Hx. destruct (decide (x = a)); set_solver. }
    assert (Z.of_nat (size (Signers snap)) / 2 <= Z.of_nat (size (Signers snap ∖ {[a]})) / 2 + 1) by dlia.
    set (snap1 := set_signers (Signers snap ∖ {[a]}) snap) in *.
    assert (ER : Recents (pass_vote number a false snap) = Recents (drop_oldest number snap1)).
    { unfold pass_vote. fold snap1. by destruct (discard_by _ _ _). }
    rewrite <- (Hlim (Signers snap ∖ {[a]})) in HL'. fold snap1 in HL'.
    assert (Hd : forall k s, Recents (drop_oldest number snap1) !! k = Some s ->
       Recents snap !! k = Some s /\ 0 <= k /\ number - limit snap1 < k <= number).
    { intros k s E. destruct (drop_oldest_window number snap1 k s E) as [E' Hk]. change (Recents snap1) with (Recents snap) in E'.
      destruct (Hw k s E') as [H0 H1]. assert (limit snap <= limit snap1 + 1) by (rewrite HL; unfold limit, num_signers; cbn; lia).
      split_and!; [done | done | apply Hk; lia | lia]. }
    split; rewrite ER, ?HL'.
    + intros k s E. by apply Hd in E as (_ & ? & ?).
    + intros k1 k2 s E1 E2. apply Hd in E1 as (E1 & _), E2 as (E2 & _). eauto.
Qed.

Lemma settle_votes_recents number a snap : 0 <= number -> recents_ok number snap ->
  recents_ok number (settle_votes number a snap).
Proof.
  intros Hn Hr. unfold settle_votes. destruct (sTally snap !! a); [|done]. destruct (_ >? _); [|done]. by apply pass_vote_recents.
Qed.

(** Signing the next block. *)
Lemma sign_recents n signer snap snap' : 0 <= n -> recents_ok n snap -> Signers snap' = Signers snap ->
  recently signer (Recents (drop_oldest (n + 1) snap)) = false ->
  Recents snap' = <[n + 1 := signer]> (Recents (drop_oldest (n + 1) snap)) -> recents_ok (n + 1) snap'.
Proof.
  intros Hn [Hw Hi] HS Hrec HR. pose proof (num_signers_eq _ _ HS) as HL. rewrite <- not_true_iff_false, recently_spec in Hrec.
  assert (HL1 : 1 <= limit snap) by (unfold limit, num_signers; dlia).
  split; rewrite HR.
  - intros k s [[<- _]|[_ E]]%lookup_insert_Some; [rewrite HL; lia|].
    destruct (drop_oldest_window (n + 1) snap k s E) as [E' Hk]. destruct (Hw k s E') as [? ?]. rewrite HL.
    split; [done|]. split; [apply Hk; lia | lia].
  - intros k1 k2 s [[<- <-]|[_ E1]]%lookup_insert_Some [[<- Es]|[_ E2]]%lookup_insert_Some; [done | | |].
    + destruct Hrec. by exists k2.
    + destruct Hrec. exists k1. by rewrite Es.
    + apply drop_oldest_window in E1 as [E1 _], E2 as [E2 _]. eauto.
Qed.

(** ** One header *)

Section engine.
Context `{Crypto}.

(** What an accepted header does: its signer is recorded, its vote replaces the
    signer's former one, and the vote is settled. *)
Definition voted (snap : Snapshot) (h : Header) (signer : Address) (b : bool) (snap3 : Snapshot) : Prop :=
  Signers snap3 = Signers snap /\ sNumber snap3 = sNumber snap /\
  Recents snap3 = <[num h := signer]> (Recents (drop_oldest (num h) snap)) /\
  votes_ok (Signers snap) (Votes snap3) (sTally snap3) /\
  forall v, v ∈ Votes snap3 -> v ∈ Votes snap \/ (v = mkVote signer (num h) (Header.Coinbase h) b).

Lemma voted_exists epoch snap h signer b : votes_ok (Signers snap) (Votes snap) (sTally snap) -> epoch <> 0 ->
  ecrecover h = Ok (inl signer) -> signer ∈ Signers snap ->
  recently signer (Recents (drop_oldest (num h) snap)) = false -> vote_of h = Some b ->
  exists snap3, voted snap h signer b snap3 /\
    apply_header epoch snap h = Ok (inl (settle_votes (num h) (Header.Coinbase h) snap3)).
Proof.
  intros Hok He Hrec Hin Hnr Hb. unfold apply_header. destruct (Z.eqb_spec epoch 0); [done|].
  set (snap0 := if num h mod epoch =? 0 then set_votes [] ∅ snap else snap).
  assert (H0 : Signers snap0 = Signers snap /\ sNumber snap0 = sNumber snap /\ Recents snap0 = Recents snap /\
    votes_ok (Signers snap) (Votes snap0) (sTally snap0) /\ forall v, v ∈ Votes snap0 -> v ∈ Votes snap).
  { subst snap0. destruct (_ =? 0); [|by split_and!]. cbn. split_and!; try done; [|by intros v ?%elem_of_nil].
    constructor; [constructor | constructor | apply tally_is_empty]. }
  destruct H0 as (ES & EN & ER & Hok0 & Hsub0).
  assert (ER1 : Recents (drop_oldest (num h) snap0) = Recents (drop_oldest (num h) snap)).
  { unfold drop_oldest, num_signers. rewrite ES. destruct (_ >=? _); cbn; by rewrite ER. }
  destruct (drop_oldest_votes (num h) snap0) as (ES1 & EV1 & ET1 & EN1). set (snap1 := drop_oldest (num h) snap0) in *.
  rewrite Hrec. cbn [mbind res_bind]. rewrite bool_decide_true by by rewrite ES1, ES. cbn [negb]. rewrite ER1, Hnr.
  cbn [set_recents Votes sTally]. rewrite EV1, ET1.
  destruct (discard_first signer (Header.Coinbase h) (Votes snap0) (sTally snap0)) as [votes tally] eqn:Ed.
  destruct (discard_first_ok _ _ _ _ _ _ _ Hok0 Ed) as [Hok1 Hsub1]. rewrite Hb.
  set (snap2 := set_votes votes tally _).
  assert (H2 : Signers snap2 = Signers snap /\ sNumber snap2 = sNumber snap) by (subst snap2; cbn; rewrite ES1, EN1; done).
  destruct H2 as [ES2 EN2].
  destruct (cast snap2 (Header.Coinbase h) b) as [tally'|] eqn:Ec; eexists; (split; [|reflexivity]).
  - destruct (cast_tally snap2 (Header.Coinbase h) b (num h) signer tally') as [Hdir Ht]; [by rewrite ES2; destruct Hok1 | done |].
    rewrite ES2 in Hdir, Ht. split_and!; [exact ES2 | exact EN2 | done | | ]; cbn [set_votes Votes sTally].
    + destruct Hok1 as [Hv Hu _]. constructor.
      * apply Forall_app. split; [done|]. constructor; [by split | constructor].
      * rewrite map_app. apply NoDup_app. split_and!; [done | | by apply NoDup_singleton].
        intros x (v & -> & Hv')%list_elem_of_fmap Hx. cbn in Hx. apply list_elem_of_singleton in Hx. injection Hx as E1 E2.
        destruct (Hsub1 v Hv') as [_ Hn]. by apply Hn.
      * exact Ht.
    + intros v [Hv|Hv]%elem_of_app; [left; by apply Hsub0, Hsub1 | right; by apply list_elem_of_singleton in Hv].
  - split_and!; [exact ES2 | exact EN2 | done | done |]. intros v Hv. left. by apply Hsub0, Hsub1.
Qed.

Lemma apply_header_inv epoch snap h snap' : votes_ok (Signers snap) (Votes snap) (sTally snap) ->
  apply_header epoch snap h = Ok (inl snap') ->
  exists signer b snap3, ecrecover h = Ok (inl signer) /\ signer ∈ Signers snap /\
    recently signer (Recents (drop_oldest (num h) snap)) = false /\ vote_of h = Some b /\
    voted snap h signer b snap3 /\ snap' = settle_votes (num h) (Header.Coinbase h) snap3.
Proof.
  intros Hok E. pose proof E as E0. unfold apply_header in E. destruct (Z.eqb_spec epoch 0) as [|He]; [done|].
  set (snap0 := if num h mod epoch =? 0 then set_votes [] ∅ snap else snap) in E.
  assert (ES : Signers snap0 = Signers snap /\ Recents snap0 = Recents snap) by (subst snap0; by destruct (_ =? 0)).
  destruct ES as [ES ER]. destruct (drop_oldest_votes (num h) snap0) as (ES1 & _).
  assert (ER1 : Recents (drop_oldest (num h) snap0) = Recents (drop_oldest (num h) snap)).
  { unfold drop_oldest, num_signers. rewrite ES. destruct (_ >=? _); cbn; by rewrite ER. }
  destruct (ecrecover h) as [[signer|]| |] eqn:Erec; try done. cbn [mbind res_bind] in E. rewrite ES1, ES in E.
  destruct (bool_decide (signer ∈ Signers snap)) eqn:Ein; [|done]. cbn [negb] in E. apply bool_decide_eq_true in Ein.
  rewrite ER1 in E. destruct (recently signer (Recents (drop_oldest (num h) snap))) eqn:Ernt; [done|].
  destruct (discard_first _ _ _ _) in E. destruct (vote_of h) as [b|] eqn:Eb; [|done].
  destruct (voted_exists epoch snap h signer b Hok He Erec Ein Ernt Eb) as (snap3 & Hv & E3).
  exists signer, b, snap3. rewrite E3 in E0. injection E0 as <-. done.
Qed.

(** ** The invariant *)

Record clique_ok (snap : Snapshot) : Prop := {
  co_votes : votes_ok (Signers snap) (Votes snap) (sTally snap);
  co_recents : recents_ok (sNumber snap) snap;
  co_number : 0 <= sNumber snap < 2 ^ 64;
}.

Lemma newSnapshot_ok number hash l : 0 <= number < 2 ^ 64 -> clique_ok (newSnapshot number hash l).
Proof.
  intros Hn. constructor; [|by split|done].
  constructor; [constructor | constructor | apply tally_is_empty].
Qed.

Lemma apply_header_ok epoch n snap h snap' : votes_ok (Signers snap) (Votes snap) (sTally snap) -> recents_ok n snap ->
  0 <= n -> num h = n + 1 -> apply_header epoch snap h = Ok (inl snap') ->
  votes_ok (Signers snap') (Votes snap') (sTally snap') /\ recents_ok (n + 1) snap'.
Proof.
  intros Hv Hr Hn Hnum E.
  destruct (apply_header_inv epoch snap h snap' Hv E) as (signer & b & snap3 & _ & _ & Hnr & _ & (ES & EN & ER & Hok & _) & ->).
  rewrite Hnum in *. split.
  - apply settle_votes_ok. by rewrite ES.
  - apply settle_votes_recents; [lia|]. by apply (sign_recents n signer snap).
Qed.

Lemma apply_headers_ok epoch headers : forall n snap snap', votes_ok (Signers snap) (Votes snap) (sTally snap) ->
  recents_ok n snap -> 0 <= n -> n + zlen headers < 2 ^ 64 -> contiguous n headers = true ->
  apply_headers epoch snap headers = Ok (inl snap') ->
  votes_ok (Signers snap') (Votes snap') (sTally snap') /\ recents_ok (n + zlen headers) snap'.
Proof.
  induction headers as [|h r IH]; intros n snap snap' Hv Hr Hn Hb Hc E; cbn [apply_headers contiguous] in *.
  { injection E as <-. change (zlen []) with 0. by rewrite Z.add_0_r. }
  rewrite zlen_cons in *. pose proof (zlen_nonneg r). apply andb_true_iff in Hc as [Hnum Hc]. to_prop.
  unfold add64 in Hnum. rewrite u64_small in Hnum by (unfold is_u64; lia).
  destruct (apply_header epoch snap h) as [[snap1|]| |] eqn:E1; try done. cbn [mbind res_bind] in E.
  destruct (apply_header_ok epoch n snap h snap1 Hv Hr Hn Hnum E1) as [Hv1 Hr1].
  rewrite Z.add_assoc. apply (IH (n + 1) snap1); [done | done | lia | lia | by rewrite <- Hnum | done].
Qed.

Lemma snap_apply_ok epoch snap headers snap' : clique_ok snap -> sNumber snap + zlen headers < 2 ^ 64 ->
  snap_apply epoch snap headers = Ok (inl snap') -> clique_ok snap'.
Proof.
  intros [Hv Hr Hn] Hb E. unfold snap_apply in E. destruct (last headers) as [lh|] eqn:El; [|by injection E as <-].
  destruct (contiguous (sNumber snap) headers) eqn:Ec; [|done]. cbn [negb] in E.
  destruct (apply_headers epoch snap headers) as [[s1|]| |] eqn:Ea; try done. cbn [mbind res_bind] in E.
  destruct (Header.Hash_ lh) as [hh| |]; try done. cbn [mbind res_bind] in E. injection E as <-.
  destruct (apply_headers_ok epoch headers (sNumber snap) snap s1 Hv Hr ltac:(lia) Hb Ec Ea) as [Hv1 Hr1].
  pose proof (zlen_nonneg headers).
  assert (En : add64 (sNumber snap) (zlen headers) = sNumber snap + zlen headers).
  { unfold add64. apply u64_small. unfold is_u64. lia. }
  constructor; cbn [set_head Signers Votes sTally sNumber]; [done | by rewrite En | rewrite En; lia].
Qed.

(** The snapshots the engine can build. *)
Inductive reachable (epoch : Z) : Snapshot -> Prop :=
| reach_new number hash l : 0 <= number < 2 ^ 64 -> reachable epoch (newSnapshot number hash l)
| reach_apply snap headers snap' : reachable epoch snap -> sNumber snap + zlen headers < 2 ^ 64 ->
    snap_apply epoch snap headers = Ok (inl snap') -> reachable epoch snap'.

Lemma reachable_ok epoch snap : reachable epoch snap -> clique_ok snap.
Proof.
  induction 1 as [number hash l Hn|snap headers snap' _ IH Hb E]; [by apply newSnapshot_ok | by eapply snap_apply_ok].
Qed.

(** C18: Every voting snapshot the engine can build is consistent: each
    vote in its list was cast by a current signer, makes sense for the current
    signers and is the only one of its signer on its address; the tally of every
    address is exactly the number of votes on it; the recent signers are
    distinct and lie in the window of the last half of the signers. *)
Theorem clique_snapshots_consistent epoch snap : reachable epoch snap -> clique_ok snap.
Proof. apply reachable_ok. Qed.

(** C16: The set of signers changes only by a majority vote: when
    an accepted header changes it, it adds or removes exactly the address the
    header votes on, and more than half of the signers, all distinct, have
    votes for this change, in the list of votes or by the header itself. *)
Theorem clique_majority_rules epoch snap h snap' : clique_ok snap ->
  apply_header epoch snap h = Ok (inl snap') -> Signers snap' <> Signers snap ->
  let a := Header.Coinbase h in
  exists signer V, ecrecover h = Ok (inl signer) /\ signer ∈ Signers snap /\
    Signers snap' = (if direction (Signers snap) a then {[a]} ∪ Signers snap else Signers snap ∖ {[a]}) /\
    V ⊆ Signers snap /\ Z.of_nat (size V) > Z.of_nat (size (Signers snap)) / 2 /\
    forall s, s ∈ V ->
      (exists v, v ∈ Votes snap /\ Signer v = s /\ vAddress v = a /\ Authorize v = direction (Signers snap) a) \/
      (s = signer /\ vote_of h = Some (direction (Signers snap) a)).
Proof.
  intros [Hv _ _] E Hne a.
  destruct (apply_header_inv epoch snap h snap' Hv E) as (signer & b & snap3 & Erec & Hin & _ & Eb & (ES & _ & _ & Hok & Hsub) & ->).
  rewrite <- ES in Hok. destruct (settle_votes_ok (num h) a snap3 Hok) as [_ [Hs|((V & Hmaj) & Hs)]]; [exfalso; apply Hne; rewrite <- ES; exact Hs|].
  rewrite ES in Hmaj, Hs. exists signer, V. destruct Hmaj as (Hsubs & Hsz & Hvot).
  split_and!; [done | done | exact Hs | done | done |]. intros s Hs'.
  destruct (Hvot s Hs') as (v & Hvin & <- & Ha & Hd). destruct (Hsub v Hvin) as [?|E']; [left; eauto|].
  right. rewrite E' in *. cbn in *. split; [done|]. by rewrite Eb, Hd.
Qed.

(** ** Progress *)

Lemma recents_size n snap : recents_ok n snap -> 0 <= n ->
  Z.of_nat (size (Recents (drop_oldest (n + 1) snap))) <= num_signers snap / 2.
Proof.
  intros [Hw _] Hn. set (R := Recents (drop_oldest (n + 1) snap)).
  assert (Hd : dom R ⊆ (list_to_set (seqZ (n + 2 - limit snap) (limit snap - 1)) : gset Z)).
  { intros k [s E]%elem_of_dom. apply drop_oldest_window in E as [E Hk]. destruct (Hw k s E) as [? ?].
    apply elem_of_list_to_set, elem_of_seqZ. pose proof (Hk ltac:(lia) ltac:(lia)). lia. }
  apply subseteq_size in Hd. rewrite size_dom in Hd. rewrite size_list_to_set in Hd by apply NoDup_seqZ.
  rewrite length_seqZ in Hd. unfold limit in Hd. assert (0 <= num_signers snap / 2) by (unfold num_signers; dlia). lia.
Qed.

Lemma size_list_to_set_le (l : list Address) : (size (list_to_set l : gset Address) <= length l)%nat.
Proof.
  induction l as [|x l IH]; [done|]. cbn [list_to_set length]. rewrite size_union_alt, size_singleton.
  assert (size ((list_to_set l : gset Address) ∖ {[x]}) <= size (list_to_set l : gset Address))%nat by (apply subseteq_size; set_solver).
  lia.
Qed.

(** Some signer has not signed recently. *)
Lemma free_signer n snap : recents_ok n snap -> 0 <= n -> Signers snap <> ∅ ->
  exists s, s ∈ Signers snap /\ recently s (Recents (drop_oldest (n + 1) snap)) = false.
Proof.
  intros Hr Hn Hne. pose proof (recents_size n snap Hr Hn) as Hsz. set (R := Recents (drop_oldest (n + 1) snap)) in *.
  set (img := list_to_set (map_to_list R).*2 : gset Address).
  assert (Himg : (size img <= size R)%nat).
  { unfold img. etrans; [apply size_list_to_set_le|]. by rewrite length_fmap, length_map_to_list. }
  apply set_choose_L in Hne as [x Hx].
  assert (HN : (1 <= size (Signers snap))%nat).
  { rewrite <- (size_singleton (C := gset Address) x). apply subseteq_size. set_solver. }
  destruct (set_choose_or_empty (Signers snap ∖ img)) as [[s Hs]|He].
  - apply elem_of_difference in Hs as [Hin Hni]. exists s. split; [done|].
    rewrite <- not_true_iff_false, recently_spec. intros [k E]. apply Hni.
    apply elem_of_list_to_set, list_elem_of_fmap. exists (k, s). split; [done|]. by apply elem_of_map_to_list.
  - assert (Hs : Signers snap ⊆ img) by (intros y Hy; destruct (decide (y ∈ img)); [done | set_solver]).
    apply subseteq_size in Hs. unfold num_signers in *. dlia.
Qed.

Lemma limit_pos snap : 1 <= limit snap.
Proof. unfold limit, num_signers. dlia. Qed.

(** ** The checks of the recent signers *)

Lemma existsb_recents (P : Z -> Address -> bool) (R : gmap Z Address) :
  existsb (fun '(k, s) => P k s) (map_to_list R) = true <-> exists k s, R !! k = Some s /\ P k s = true.
Proof.
  rewrite existsb_exists. split.
  - intros ([k s] & Hin & E). exists k, s. split; [|done]. by apply elem_of_map_to_list, list_elem_of_In.
  - intros (k & s & E & HP). exists (k, s). split; [|done]. by apply list_elem_of_In, elem_of_map_to_list.
Qed.

Lemma in_window n snap k s : recents_ok n snap -> Recents snap !! k = Some s ->
  (exists s', Recents (drop_oldest (n + 1) snap) !! k = Some s') <-> n + 1 - limit snap < k.
Proof.
  intros [Hw _] E. destruct (Hw k s E) as [H0 H1]. unfold drop_oldest. fold (limit snap).
  destruct (Z.geb_spec (n + 1) (limit snap)); cbn [set_recents Recents].
  - split.
    + intros [s' [Hne _]%lookup_delete_Some]. lia.
    + intros Hk. exists s. rewrite lookup_delete_ne by lia. done.
  - split; [lia | by exists s].
Qed.

Lemma drop_same_value n snap k s s' : Recents snap !! k = Some s -> Recents (drop_oldest n snap) !! k = Some s' -> s' = s.
Proof. intros E [E' _]%drop_oldest_window. congruence. Qed.

Lemma recently_window n snap signer : recents_ok n snap ->
  recently signer (Recents (drop_oldest (n + 1) snap)) = true <->
  exists k, Recents snap !! k = Some signer /\ n + 1 - limit snap < k.
Proof.
  intros Hr. rewrite recently_spec. split.
  - intros [k E]. pose proof (drop_oldest_window _ _ _ _ E) as [E' _]. exists k. split; [done|].
    apply (in_window n snap k signer Hr E'). by exists signer.
  - intros (k & E & Hk). apply (in_window n snap k signer Hr E) in Hk as [s' E']. exists k.
    by rewrite (drop_same_value _ _ _ _ _ E E') in E'.
Qed.

(** The three checks that a signer has not signed recently:
    the one Seal makes before signing agrees with the one of apply for every
    block; the one verifySeal makes on a received header agrees with them from
    the block on whose number reaches half of the signers plus one, and before
    that block it lets every recent signer pass. *)
Theorem clique_recent_checks snap signer : clique_ok snap -> sNumber snap + 1 < 2 ^ 64 -> num_signers snap < 2 ^ 62 ->
  let number := sNumber snap + 1 in
  let refused := recently signer (Recents (drop_oldest number snap)) in
  must_wait snap number signer = refused /\
  signed_recently snap number signer = if limit snap <=? number then refused else false.
Proof.
  intros [_ Hr Hn] Hb Hsz number refused. pose proof (limit_pos snap) as HL. destruct Hr as [Hw Hi].
  assert (HLb : limit snap < 2 ^ 63) by (unfold limit; dlia).
  assert (Hsub : limit snap <= number -> sub64 number (limit snap) = number - limit snap).
  { intros Hle. unfold sub64. apply u64_small. unfold is_u64. lia. }
  pose proof (recently_window (sNumber snap) snap signer (conj Hw Hi)) as Hrec. fold number refused in Hrec.
  split.
  - apply eq_true_iff_eq. rewrite Hrec. unfold must_wait. fold (limit snap).
    rewrite (existsb_recents (fun k s => (s =? signer) && ((number <? limit snap) || (k >? sub64 number (limit snap))))). split.
    + intros (k & s & E & [Hs Hor]%andb_true_iff). to_prop. subst s. exists k. split; [done|]. destruct (Hw k _ E).
      destruct (Z.ltb_spec number (limit snap)) as [|Hge]; [lia|]. cbn [orb] in Hor. rewrite Hsub in Hor by done. to_prop. lia.
    + intros (k & E & Hk). exists k, signer. split; [done|]. rewrite Z.eqb_refl. cbn [andb].
      destruct (Z.ltb_spec number (limit snap)) as [|Hge]; [done|]. cbn [orb]. rewrite Hsub by done.
      destruct (Z.gtb_spec k (number - limit snap)); [done|]. subst number. lia.
  - unfold signed_recently. fold (limit snap). destruct (Z.leb_spec (limit snap) number) as [Hle|Hlt].
    + apply eq_true_iff_eq. rewrite Hrec. rewrite (existsb_recents (fun k s => (s =? signer) && (k >? sub64 number (limit snap)))).
      rewrite Hsub by done. split.
      * intros (k & s & E & [Hs Hk]%andb_true_iff). to_prop. subst s. exists k. split; [done | subst number; lia].
      * intros (k & E & Hk). exists k, signer. split; [done|]. rewrite Z.eqb_refl. cbn [andb].
        destruct (Z.gtb_spec k (number - limit snap)); [done|]. subst number. lia.
    + apply not_true_iff_false. rewrite (existsb_recents (fun k s => (s =? signer) && (k >? sub64 number (limit snap)))).
      intros (k & s & E & [_ Hk]%andb_true_iff). to_prop. destruct (Hw k s E).
      unfold sub64 in Hk. rewrite (u64_neg_wrap (number - limit snap)) in Hk by lia. lia.
Qed.

Lemma signers_length snap : zlen (signers snap) = num_signers snap.
Proof.
  unfold signers, num_signers, zlen. rewrite (Permutation_length (merge_sort_Permutation Z.le (elements (Signers snap)))).
  done.
Qed.

(** Who apply lets sign passes the check of verifySeal. *)
Lemma not_signed_recently snap s : recents_ok (sNumber snap) snap -> 0 <= sNumber snap < 2 ^ 64 ->
  sNumber snap + 1 < 2 ^ 64 -> num_signers snap < 2 ^ 62 ->
  recently s (Recents (drop_oldest (sNumber snap + 1) snap)) = false ->
  signed_recently snap (sNumber snap + 1) s = false.
Proof.
  intros Hr Hn Hb Hsz Hnr. apply not_true_iff_false. intros Ht.
  rewrite <- not_true_iff_false, (recently_window _ _ _ Hr) in Hnr. apply Hnr.
  unfold signed_recently in Ht. fold (limit snap) in Ht.
  apply (existsb_recents (fun k r => (r =? s) && (k >? sub64 (sNumber snap + 1) (limit snap)))) in Ht
    as (k & r & E & [Hr1 Hk]%andb_true_iff). to_prop. subst r. exists k. split; [done|].
  destruct Hr as [Hwin _]. destruct (Hwin k s E). pose proof (limit_pos snap). unfold sub64 in Hk.
  assert (limit snap < 2 ^ 63) by (unfold limit; dlia).
  destruct (decide (limit snap <= sNumber snap + 1)); [rewrite u64_small in Hk by (unfold is_u64; lia); lia|].
  rewrite u64_neg_wrap in Hk by lia. lia.
Qed.

(** C17: The engine never gets stuck: while there are signers at all,
    some signer may sign the next block whatever was signed before.  Any
    well-formed next header it signs, with either vote, is applied, and passes
    the seal verification if its difficulty is the one of its turn. *)
Theorem clique_never_stuck epoch snap : reachable epoch snap -> Signers snap <> ∅ -> epoch <> 0 ->
  sNumber snap + 1 < 2 ^ 64 -> num_signers snap < 2 ^ 62 ->
  exists s, s ∈ Signers snap /\
    forall h b, header_ok h -> num h = sNumber snap + 1 -> ecrecover h = Ok (inl s) -> vote_of h = Some b ->
      (exists snap', snap_apply epoch snap [h] = Ok (inl snap')) /\
      (calcDifficulty snap s = Ok (Header.Difficulty h) -> verifySeal false snap h = Ok None).
Proof.
  intros Hreach Hne He Hb Hsz.
  pose proof (reachable_ok epoch snap Hreach) as Hok.
  destruct (free_signer (sNumber snap) snap) as (s & Hin & Hnr); [apply Hok | apply Hok | done |].
  exists s. split; [done|]. intros h b Hh Hnum Hrec Hvote. pose proof (co_number _ Hok) as Hn0. split.
  - destruct (voted_exists epoch snap h s b) as (snap3 & _ & E); [apply Hok | done | done | done | by rewrite Hnum | done |].
    unfold snap_apply. cbn [last contiguous apply_headers]. rewrite E. cbn [mbind res_bind].
    unfold add64 at 1. rewrite u64_small by (unfold is_u64; lia). rewrite Hnum, Z.eqb_refl. cbn [andb negb].
    rewrite (Hash_spec h Hh). cbn [mbind res_bind]. by eexists.
  - intros Hd. unfold verifySeal. destruct (Z.eqb_spec (num h) 0); [lia|]. rewrite Hrec. cbn [mbind res_bind].
    rewrite bool_decide_true by done. cbn [negb].
    rewrite Hnum, (not_signed_recently snap s) by (apply Hok || done || lia).
    unfold calcDifficulty in Hd.
    assert (En : add64 (sNumber snap) 1 = sNumber snap + 1) by (unfold add64; rewrite u64_small by (unfold is_u64; lia); lia).
    rewrite En in Hd. destruct (inturn snap (sNumber snap + 1) s) as [t| |]; try done. cbn [mbind res_bind] in *.
    injection Hd as <-. by destruct t.
Qed.

(** ** Sealing *)

(** What the engine relies on of the signing function of the wallet: a signature
    has 65 bytes and the public key of the account is recovered from it. *)
Definition signs (sign : Address -> bytes -> option bytes) : Prop :=
  forall a data sig, sign a data = Some sig -> zlen sig = 65 /\
    exists pubkey, Ecrecover (be_bytes 32 (keccak256 data)) sig = Some pubkey /\ keccak256 (drop 1 pubkey) mod 2 ^ 160 = a.

Lemma slice_parts {A} (a b : list A) :
  slice (a ++ b) 0 (zlen (a ++ b) - zlen b) = Ok a /\
  slice (a ++ b) (zlen (a ++ b) - zlen b) (zlen (a ++ b)) = Ok b.
Proof.
  pose proof (zlen_nonneg a). pose proof (zlen_nonneg b). rewrite !zlen_app.
  replace (zlen a + zlen b - zlen b) with (zlen a) by lia. unfold slice. rewrite zlen_app, !bool_decide_true by lia.
  replace (zlen a - 0) with (zlen a) by lia. replace (zlen a + zlen b - zlen a) with (zlen b) by lia.
  unfold zlen. rewrite !Nat2Z.id. change (Z.to_nat 0) with 0%nat. rewrite drop_0.
  by rewrite take_app_length, drop_app_length, firstn_all.
Qed.

Lemma put_seal_extra h sig : 65 <= zlen (Header.Extra h) -> zlen sig = 65 ->
  exists a, Header.Extra (put_seal h sig) = a ++ sig /\ slice (Header.Extra h) 0 (zlen (Header.Extra h) - extraSeal) = Ok a.
Proof.
  intros Hl Hs. unfold zlen in Hl, Hs. exists (take (length (Header.Extra h) - 65) (Header.Extra h)).
  split.
  - cbn [put_seal Header.Extra]. rewrite (take_ge sig) by lia. rewrite drop_ge by lia. by rewrite app_nil_r.
  - unfold slice, extraSeal, zlen. rewrite bool_decide_true by lia. change (Z.to_nat 0) with 0%nat. rewrite drop_0.
    by replace (Z.to_nat _) with (length (Header.Extra h) - 65)%nat by lia.
Qed.

(** The seal is not part of what is signed. *)
Lemma put_seal_signed h sig : 65 <= zlen (Header.Extra h) -> zlen sig = 65 ->
  encodeSigHeader (put_seal h sig) = encodeSigHeader h.
Proof.
  intros Hl Hs. destruct (put_seal_extra h sig Hl Hs) as (a & Ea & Es). unfold encodeSigHeader. rewrite Es, Ea.
  pose proof (slice_parts a sig) as [E _]. rewrite Hs in E. unfold extraSeal. rewrite E. reflexivity.
Qed.

Lemma signed_long h data : encodeSigHeader h = Ok data -> 65 <= zlen (Header.Extra h).
Proof.
  unfold encodeSigHeader, slice. intros Hd. destruct (bool_decide_reflect (0 <= 0 /\ 0 <= zlen (Header.Extra h) - extraSeal /\
    zlen (Header.Extra h) - extraSeal <= zlen (Header.Extra h))) as [Hb|]; [|done]. unfold extraSeal in Hb. lia.
Qed.

Lemma ecrecover_sealed sign h data sig a : signs sign -> CliqueRLP h = Ok data -> sign a data = Some sig ->
  ecrecover (put_seal h sig) = Ok (inl a).
Proof.
  intros Hsign Hd Hsig. destruct (Hsign _ _ _ Hsig) as (Hs & pubkey & Ek & Ea). unfold CliqueRLP in Hd.
  pose proof (signed_long h data Hd) as Hl.
  destruct (put_seal_extra h sig Hl Hs) as (pre & Ep & _). pose proof (zlen_nonneg pre).
  unfold ecrecover, SealHash. rewrite (put_seal_signed h sig Hl Hs), Hd, Ep. cbn [mbind res_bind].
  pose proof (slice_parts pre sig) as [_ E]. rewrite Hs in E. unfold extraSeal. rewrite E.
  destruct (Z.ltb_spec (zlen (pre ++ sig)) 65) as [Hlt|_]; [rewrite zlen_app in Hlt; lia|].
  cbn [mbind res_bind]. by rewrite Ek, Ea.
Qed.

Lemma wait_covers_check snap n a : must_wait snap n a = false -> signed_recently snap n a = false.
Proof.
  rewrite <- !not_true_iff_false. unfold must_wait, signed_recently. fold (limit snap). intros Hn Hs. apply Hn.
  apply (existsb_recents (fun k r => (r =? a) && (k >? sub64 n (limit snap)))) in Hs as (k & r & E & [Hr Hk]%andb_true_iff).
  apply (existsb_recents (fun k r => (r =? a) && ((n <? limit snap) || (k >? sub64 n (limit snap))))).
  exists k, r. split; [done|]. by rewrite Hr, Hk, orb_true_r.
Qed.

(** C21: What the engine seals, verifies: when Seal hands out a header,
    the signature it put at the end of the extra data did not change what was
    signed, the signer recovered from the header is the engine's own, who is a signer
    of the snapshot of the parent, and the seal verification against this snapshot
    accepts the header if the snapshot is that of the parent's number and the
    header's difficulty is the one CalcDifficulty gave (Seal checks neither). *)
Theorem clique_seals_verify chain header ntxs sign e sealed e' : signs sign ->
  Seal chain header ntxs (Some sign) e = Ok (inl sealed, e') ->
  SealHash sealed = SealHash header /\ ecrecover sealed = Ok (inl (e_signer e)) /\
  exists snap, snapshot chain (sub64 (num header) 1) (Header.ParentHash header) [] e = Ok (inl snap, e') /\
    e_signer e ∈ Signers snap /\
    (add64 (sNumber snap) 1 = num header -> calcDifficulty snap (e_signer e) = Ok (Header.Difficulty header) ->
     verifySeal false snap sealed = Ok None).
Proof.
  intros Hsign E. unfold Seal in E. destruct (Z.eqb_spec (num header) 0) as [|Hn0]; [done|].
  destruct (_ && _); [done|].
  destruct (snapshot chain (sub64 (num header) 1) (Header.ParentHash header) [] e) as [[[snap|er] e1]| |] eqn:Esnap; try done.
  cbn [mbind res_bind] in E. destruct (bool_decide_reflect (e_signer e ∈ Signers snap)) as [Hin|]; [|done]. cbn [negb] in E.
  destruct (must_wait snap (num header) (e_signer e)) eqn:Ewait; [done|].
  destruct (CliqueRLP header) as [data| |] eqn:Ed; try done. cbn [mbind res_bind] in E.
  destruct (sign (e_signer e) data) as [sig|] eqn:Esig; [|done]. injection E as <- <-.
  pose proof (ecrecover_sealed sign header data sig (e_signer e) Hsign Ed Esig) as Hrec.
  split_and!; [|done|].
  - destruct (Hsign _ _ _ Esig) as [Hs _]. unfold SealHash. rewrite put_seal_signed; [done | by apply (signed_long header data) | done].
  - exists snap. split_and!; [done | done |]. intros En Hd. unfold verifySeal.
    change (num (put_seal header sig)) with (num header). change (Header.Difficulty (put_seal header sig)) with (Header.Difficulty header).
    destruct (Z.eqb_spec (num header) 0); [done|]. rewrite Hrec. cbn [mbind res_bind].
    rewrite bool_decide_true by done. cbn [negb]. rewrite (wait_covers_check _ _ _ Ewait).
    unfold calcDifficulty in Hd. rewrite En in Hd. destruct (inturn snap (num header) (e_signer e)) as [t| |]; try done.
    cbn [mbind res_bind] in *. injection Hd as <-. by destruct t.
Qed.
End engine.

(** ** A chain with one signer *)

(** A key recovery that reads the signer off the end of the signature. *)
Definition clique_crypto : Crypto := {|
  keccak256 b := be_value b mod 2 ^ 256;
  sha256Sum _ := replicate 32 0;
  ripemd160Sum _ := replicate 20 0;
  Ecrecover _ s := Some (0 :: s);
|}.

(** Block [n], signed by [signer], with a vote to authorize [a]. *)
Definition clique_header (n signer a : Z) : Header :=
  Header.mkHeader 0 0 a 0 0 0 (replicate 256 0) 2 n 5000 0 10 (replicate 77 0 ++ be_bytes 20 signer) 0
    nonceAuthVote None.

Definition clique_genesis : Snapshot := newSnapshot 0 0 [7].

(** After the only signer has voted for another one. *)
Definition clique_first : Snapshot :=
  match snap_apply (H := clique_crypto) 100 clique_genesis [clique_header 1 7 9] with
  | Ok (inl s) => s
  | _ => clique_genesis
  end.

Lemma clique_first_reachable : reachable (H := clique_crypto) 100 clique_first.
Proof.
  eapply (reach_apply (H := clique_crypto) 100 clique_genesis [clique_header 1 7 9]); [by apply reach_new | done |].
  vm_compute. reflexivity.
Qed.

Lemma clique_snapshots_consistent_witness : clique_ok clique_first /\ Signers clique_first = {[7; 9]}.
Proof.
  split; [|by vm_compute]. apply (clique_snapshots_consistent (H := clique_crypto) 100). apply clique_first_reachable.
Defined.

(** Before the number and hash of the block are recorded. *)
Definition clique_voted : Snapshot :=
  match apply_header (H := clique_crypto) 100 clique_genesis (clique_header 1 7 9) with
  | Ok (inl s) => s
  | _ => clique_genesis
  end.

Lemma clique_majority_rules_witness : exists (signer : Address) (V : gset Address),
  ecrecover (H := clique_crypto) (clique_header 1 7 9) = Ok (inl signer) /\ signer ∈ Signers clique_genesis /\
  Signers clique_voted = {[9]} ∪ Signers clique_genesis /\
  V ⊆ Signers clique_genesis /\ Z.of_nat (size V) > Z.of_nat (size (Signers clique_genesis)) / 2 /\
  forall s, s ∈ V ->
    (exists v, v ∈ Votes clique_genesis /\ Signer v = s /\ vAddress v = 9 /\ Authorize v = true) \/
    (s = signer /\ vote_of (clique_header 1 7 9) = Some true).
Proof.
  apply (clique_majority_rules (H := clique_crypto) 100 clique_genesis (clique_header 1 7 9) clique_voted);
    [by apply newSnapshot_ok | by vm_compute | by vm_compute].
Defined.

(** Signer 7 signed block 1, so it has to leave block 2 to signer 9. *)
Lemma clique_recent_checks_witness :
  must_wait clique_first 2 7 = true /\ signed_recently clique_first 2 7 = true /\
  must_wait clique_first 2 9 = false.
Proof.
  assert (E7 : must_wait clique_first 2 7 = recently 7 (Recents (drop_oldest 2 clique_first)) /\
    signed_recently clique_first 2 7 =
      if limit clique_first <=? 2 then recently 7 (Recents (drop_oldest 2 clique_first)) else false).
  { apply (clique_recent_checks clique_first 7); [|by vm_compute|by vm_compute].
    apply (reachable_ok (H := clique_crypto) 100), clique_first_reachable. }
  destruct E7 as [-> ->]. by vm_compute.
Defined.

Lemma clique_header_ok : header_ok (clique_header 2 9 9).
Proof.
  split; [by compute | by compute | | by compute | by compute | | done]; (split; [repeat constructor; by compute | by compute]).
Qed.

(** Header 2 of signer 9 meets the conditions. *)
Lemma clique_never_stuck_witness :
  (header_ok (clique_header 2 9 9) /\ num (clique_header 2 9 9) = 2 /\
   ecrecover (H := clique_crypto) (clique_header 2 9 9) = Ok (inl 9) /\ vote_of (clique_header 2 9 9) = Some true) /\
  exists s, s ∈ Signers clique_first /\
  forall h b, header_ok h -> num h = 2 -> ecrecover (H := clique_crypto) h = Ok (inl s) -> vote_of h = Some b ->
    (exists snap', snap_apply (H := clique_crypto) 100 clique_first [h] = Ok (inl snap')) /\
    (calcDifficulty clique_first s = Ok (Header.Difficulty h) ->
     verifySeal (H := clique_crypto) false clique_first h = Ok None).
Proof.
  split; [split; [apply clique_header_ok | by vm_compute]|].
  apply (clique_never_stuck (H := clique_crypto) 100 clique_first);
    [apply clique_first_reachable | by vm_compute | done | by vm_compute | by vm_compute].
Defined.

(** A signing function for these keys, a genesis block that lists signer 7 and the
    engine of this signer. *)
Definition clique_sign (a : Address) (_ : bytes) : option bytes :=
  if bool_decide (0 <= a < 2 ^ 160) then Some (replicate 45 0 ++ be_bytes 20 a) else None.

Definition clique_block0 : Header :=
  Header.mkHeader 0 0 0 0 0 0 (replicate 256 0) 1 0 5000 0 10 (replicate 32 0 ++ be_bytes 20 7 ++ replicate 65 0) 0 0 None.

Definition clique_chain : ChainHeaderReader :=
  mkChain (sample_config None None None) (fun _ _ => None) (fun n => if n =? 0 then Some clique_block0 else None).

Definition clique_node : Engine := Authorize_ 7 (New 15 100).

Definition clique_block1 : Header :=
  Header.mkHeader 0 0 9 0 0 0 (replicate 256 0) 2 1 5000 0 25 (replicate 97 0) 0 nonceAuthVote None.

Lemma clique_signs : signs (H := clique_crypto) clique_sign.
Proof.
  intros a data sig E. unfold clique_sign in E. destruct (bool_decide_reflect (0 <= a < 2 ^ 160)) as [Ha|]; [|done].
  apply (inj Some) in E as <-. split; [rewrite zlen_app, zlen_be_bytes; done|].
  exists (0 :: replicate 45 0 ++ be_bytes 20 a). split; [done|]. change (drop 1 (0 :: ?l)) with l. cbn [keccak256 clique_crypto].
  rewrite be_value_app, be_value_be_bytes. change (256 ^ Z.of_nat 20) with (2 ^ 160).
  replace (be_value (replicate 45 0)) with 0 by (vm_compute; reflexivity). rewrite Z.mul_0_l, Z.add_0_l.
  rewrite (Z.mod_small a (2 ^ 160)) by done. rewrite (Z.mod_small a (2 ^ 256)) by lia. by apply Z.mod_small.
Qed.

Definition clique_sealed : Header * Engine :=
  match Seal (H := clique_crypto) clique_chain clique_block1 0 (Some clique_sign) clique_node with
  | Ok (inl h, e) => (h, e)
  | _ => (clique_block1, clique_node)
  end.

Lemma clique_seals_verify_witness :
  ecrecover (H := clique_crypto) clique_sealed.1 = Ok (inl 7) /\
  exists snap, snapshot (H := clique_crypto) clique_chain 0 0 [] clique_node = Ok (inl snap, clique_sealed.2) /\
    7 ∈ Signers snap /\ verifySeal (H := clique_crypto) false snap clique_sealed.1 = Ok None.
Proof.
  assert (E : Seal (H := clique_crypto) clique_chain clique_block1 0 (Some clique_sign) clique_node = Ok (inl clique_sealed.1, clique_sealed.2))
    by (vm_compute; reflexivity).
  destruct (clique_seals_verify (H := clique_crypto) clique_chain clique_block1 0 clique_sign clique_node _ _ clique_signs E)
    as (_ & Hrec & snap & Es & Hin & Hv). split; [exact Hrec|]. exists snap. split; [exact Es|]. split; [exact Hin|].
  assert (Ev : match snapshot (H := clique_crypto) clique_chain 0 0 [] clique_node with
    | Ok (inl s, _) => (add64 (sNumber s) 1 =? 1) && match calcDifficulty s 7 with Ok d => d =? 2 | _ => false end | _ => false end = true) by (vm_compute; reflexivity).
  change (snapshot (H := clique_crypto) clique_chain 0 0 [] clique_node = Ok (inl snap, clique_sealed.2)) in Es. rewrite Es in Ev.
  apply andb_true_iff in Ev as [E1 E2]. apply Hv; [by apply Z.eqb_eq|].
  change (calcDifficulty snap 7 = Ok 2). destruct (calcDifficulty snap 7) as [d| |]; [|discriminate E2..]. f_equal. by apply Z.eqb_eq.
Defined.
