(* ===== verification/Heap.v ===== *)
(** * Binary heaps (the package [container/heap] of Go's library)

    The transaction pool keeps nonces, prices and accounts in binary heaps, slices
    ordered by [Less].  [Module Heap] has the operations of the package over a
    list with a boolean order, and shows that they keep the contents and the heap
    order, so that the first element is always a least one. *)

From S2P Require Import Prelude.

(** What the package asks of [Less]: a strict weak order. *)
Class LessOrder {T} (less : T -> T -> bool) : Prop := {
  less_asym a b : less a b = true -> less b a = false;
  notless_trans a b c : less b a = false -> less c b = false -> less c a = false;
}.

Module Heap.

Section heap.
Context {T : Type} (less : T -> T -> bool).

(** [Swap]; [h.Less(i, j)]. *)
Definition swap (i j : nat) (l : list T) : list T :=
  match l !! i, l !! j with Some a, Some b => <[i := b]> (<[j := a]> l) | _, _ => l end.
Definition less_at (l : list T) (i j : nat) : bool :=
  match l !! i, l !! j with Some a, Some b => less a b | _, _ => false end.

Definition parent (j : nat) : nat := Nat.div2 (j - 1).

(** [up]: the loop halves the index. *)
Fixpoint up (fuel : nat) (j : nat) (l : list T) : list T :=
  match fuel with
  | O => l
  | S fuel =>
    let i := if decide (j = 0%nat) then 0%nat else parent j in
    if decide (i = j) then l
    else if less_at l j i then up fuel i (swap i j l) else l
  end.

(** The child of [i] to go to, the lesser one. *)
Definition child (i n : nat) (l : list T) : option nat :=
  let j1 := (2 * i + 1)%nat in
  if decide (n <= j1)%nat then None
  else
    let j := if decide (j1 + 1 < n)%nat then (if less_at l (j1 + 1) j1 then (j1 + 1)%nat else j1) else j1 in
    if less_at l j i then Some j else None.

(** The loop of [down]: where it ends, and the slice. *)
Fixpoint down_loop (fuel : nat) (i n : nat) (l : list T) : nat * list T :=
  match fuel with
  | O => (i, l)
  | S fuel =>
    match child i n l with
    | None => (i, l)
    | Some j => down_loop fuel j n (swap i j l)
    end
  end.
Definition down (i0 n : nat) (l : list T) : bool * list T :=
  let '(i, l) := down_loop n i0 n l in (bool_decide (i0 < i)%nat, l).

(** [Init]: sink the inner nodes, last first. *)
Fixpoint init_loop (k n : nat) (l : list T) : list T :=
  match k with O => l | S k => init_loop k n (down k n l).2 end.
Definition Init (l : list T) : list T := init_loop (Nat.div2 (length l)) (length l) l.

Definition Push (x : T) (l : list T) : list T :=
  let l := l ++ [x] in up (length l) (length l - 1) l.

(** The [Pop] of the slice: its last element. *)
Definition pop_last (l : list T) : res (T * list T) :=
  match last l with
  | Some x => Ok (x, take (length l - 1) l)
  | None => Panic PanicIndex
  end.

Definition Pop (l : list T) : res (T * list T) :=
  if decide (l = []) then Panic PanicIndex
  else
    let n := (length l - 1)%nat in
    pop_last (down 0 n (swap 0 n l)).2.

Definition Remove (i : nat) (l : list T) : res (T * list T) :=
  if decide (length l <= i)%nat then Panic PanicIndex
  else
    let n := (length l - 1)%nat in
    if decide (n = i) then pop_last l
    else
      let '(moved, l) := down i n (swap i n l) in
      pop_last (if moved : bool then l else up (length l) i l).

Definition Fix (i : nat) (l : list T) : list T :=
  let '(moved, l) := down i (length l) l in
  if moved : bool then l else up (length l) i l.

(** ** The heap order *)

(** The edges of the tree from node [k] on, among the first [n] nodes. *)
Definition edge (p c : nat) : Prop := (c = 2 * p + 1 \/ c = 2 * p + 2)%nat.
Definition le (a b : T) : Prop := less b a = false.

Context `{Inhabited T} {LO : LessOrder less}.

Definition heap_from (k n : nat) (l : list T) : Prop :=
  forall p c, edge p c -> (c < n)%nat -> (k <= p)%nat -> le (l !!! p) (l !!! c).
Definition heap (l : list T) : Prop := heap_from 0 (length l) l.

Lemma le_refl a : le a a.
Proof. unfold le. destruct (less a a) eqn:E; [|done]. by pose proof (less_asym a a E); congruence. Qed.
Lemma le_trans a b c : le a b -> le b c -> le a c.
Proof. apply notless_trans. Qed.
Lemma less_le a b : less a b = true -> le a b.
Proof. apply less_asym. Qed.

Lemma edge_parent p c : edge p c <-> (0 < c /\ p = parent c)%nat.
Proof.
  unfold edge, parent. split.
  - intros [-> | ->]; (split; [lia|]); rewrite Nat.div2_div; [replace (2 * p + 1 - 1) with (p * 2) by lia | replace (2 * p + 2 - 1) with (1 + p * 2) by lia];
      rewrite ?Nat.div_add, ?Nat.div_mul by lia; done.
  - intros [Hc ->]. rewrite Nat.div2_div. pose proof (Nat.div_mod_eq (c - 1) 2). pose proof (Nat.mod_upper_bound (c - 1) 2). lia.
Qed.
Lemma parent_lt c : (0 < c)%nat -> (parent c < c)%nat.
Proof. intros Hc. assert (edge (parent c) c) as He by (by apply edge_parent). unfold edge in He. lia. Qed.

Lemma less_at_total l i j : (i < length l)%nat -> (j < length l)%nat -> less_at l i j = less (l !!! i) (l !!! j).
Proof.
  intros [a Ha]%lookup_lt_is_Some_2 [b Hb]%lookup_lt_is_Some_2. unfold less_at. rewrite Ha, Hb.
  by rewrite (list_lookup_total_correct _ _ _ Ha), (list_lookup_total_correct _ _ _ Hb).
Qed.

Lemma length_swap i j l : length (swap i j l) = length l.
Proof. unfold swap. destruct (l !! i), (l !! j); rewrite ?length_insert; done. Qed.

Lemma lookup_swap i j k l : (i < length l)%nat -> (j < length l)%nat ->
  swap i j l !!! k = if decide (k = i) then l !!! j else if decide (k = j) then l !!! i else l !!! k.
Proof.
  intros [a Ha]%lookup_lt_is_Some_2 [b Hb]%lookup_lt_is_Some_2. unfold swap. rewrite Ha, Hb.
  pose proof (lookup_lt_Some _ _ _ Ha). pose proof (lookup_lt_Some _ _ _ Hb).
  rewrite (list_lookup_total_correct _ _ _ Ha), (list_lookup_total_correct _ _ _ Hb).
  destruct (decide (k = i)) as [->|].
  - by rewrite list_lookup_total_insert_eq by (rewrite ?length_insert; done).
  - rewrite list_lookup_total_insert_ne by done. destruct (decide (k = j)) as [->|].
    + by rewrite list_lookup_total_insert_eq by done.
    + by rewrite list_lookup_total_insert_ne.
Qed.

Lemma insert_perm (l : list T) i a b : l !! i = Some a -> a :: <[i := b]> l ≡ₚ b :: l.
Proof.
  intros Ha. pose proof (lookup_lt_Some _ _ _ Ha). rewrite <- (take_drop_middle l i a Ha) at 2.
  rewrite insert_take_drop by done. rewrite <- !Permutation_middle. apply Permutation_swap.
Qed.

Lemma swap_perm i j l : swap i j l ≡ₚ l.
Proof.
  unfold swap. destruct (l !! i) as [a|] eqn:Ha; [|done]. destruct (l !! j) as [b|] eqn:Hb; [|done].
  destruct (decide (i = j)) as [->|Hij].
  { rewrite list_insert_insert_eq, list_insert_id by congruence. done. }
  apply (inj (cons a)). rewrite insert_perm by (by rewrite list_lookup_insert_ne).
  by apply insert_perm.
Qed.

(** ** Sinking *)

(** Everything is ordered, but perhaps [i] with its children and, when [i] is
    [bad], with its parent; the parent of [i] is ordered with its grandchildren. *)
Definition sinking (bad : bool) (k i n : nat) (l : list T) : Prop :=
  (forall p c, edge p c -> (c < n)%nat -> (k <= p)%nat -> p <> i -> (bad = true -> c <> i) -> le (l !!! p) (l !!! c)) /\
  (forall p c, edge p i -> edge i c -> (c < n)%nat -> (k <= p)%nat -> le (l !!! p) (l !!! c)).

Lemma child_None i n l : (n <= length l)%nat -> child i n l = None -> forall c, edge i c -> (c < n)%nat -> le (l !!! i) (l !!! c).
Proof.
  intros Hn Hc c He Hl. unfold child in Hc. unfold edge in He. unfold le.
  destruct (decide (n <= 2 * i + 1)%nat); [lia|].
  assert (forall j, (j < n)%nat -> less_at l j i = less (l !!! j) (l !!! i)) as Hless by (intros; apply less_at_total; lia).
  destruct (decide (2 * i + 1 + 1 < n)%nat); [|assert (c = 2 * i + 1)%nat as -> by lia; rewrite Hless in Hc by lia; by destruct (less _ _)].
  rewrite (less_at_total l (2 * i + 1 + 1)) in Hc by lia.
  destruct (less (l !!! (2 * i + 1 + 1)%nat) (l !!! (2 * i + 1)%nat)) eqn:E; rewrite Hless in Hc by lia;
    destruct (less _ (l !!! i)) eqn:E2 in Hc; try done.
  - destruct He as [-> | ->]; [|by replace (2 * i + 2)%nat with (2 * i + 1 + 1)%nat by lia].
    eapply le_trans; [exact E2|]. by apply less_le.
  - destruct He as [-> | ->]; [done|]. replace (2 * i + 2)%nat with (2 * i + 1 + 1)%nat by lia.
    eapply le_trans; [exact E2|done].
Qed.

Lemma child_Some i n l j : (n <= length l)%nat -> child i n l = Some j ->
  edge i j /\ (j < n)%nat /\ less (l !!! j) (l !!! i) = true /\ forall c, edge i c -> (c < n)%nat -> le (l !!! j) (l !!! c).
Proof.
  intros Hn Hc. unfold child in Hc. destruct (decide (n <= 2 * i + 1)%nat); [done|].
  set (j' := if decide _ then _ else _) in Hc. destruct (less_at l j' i) eqn:E; [|done]. injection Hc as <-.
  assert (edge i j' /\ (j' < n)%nat /\ forall c, edge i c -> (c < n)%nat -> le (l !!! j') (l !!! c)) as (He & Hj & Hle).
  { unfold j', edge. destruct (decide _) as [Hd|Hd].
    - rewrite less_at_total by lia. destruct (less _ _) eqn:E2.
      + repeat split; [lia..|]. intros c [-> | ->] ?; [by apply less_le|]. replace (2 * i + 2)%nat with (2 * i + 1 + 1)%nat by lia. apply le_refl.
      + repeat split; [lia..|]. intros c [-> | ->] ?; [apply le_refl|]. by replace (2 * i + 2)%nat with (2 * i + 1 + 1)%nat by lia.
    - repeat split; [lia..|]. intros c [-> | ->] ?; [apply le_refl|lia]. }
  repeat split; try done. rewrite less_at_total in E; [done|lia|unfold edge in He; lia].
Qed.

Lemma sinking_step bad k i n l j : (n <= length l)%nat -> child i n l = Some j -> sinking bad k i n l -> sinking false k j n (swap i j l).
Proof.
  intros Hn Hc [H1 H2]. destruct (child_Some _ _ _ _ Hn Hc) as (He & Hj & Hless & Hmin).
  assert (i < j)%nat as Hij by (unfold edge in He; lia).
  assert (forall q, swap i j l !!! q = if decide (q = i) then l !!! j else if decide (q = j) then l !!! i else l !!! q) as Hsw
    by (intros; apply lookup_swap; lia).
  split.
  - intros p c Hpc Hcn Hk Hp _. rewrite !Hsw.
    destruct (decide (p = i)) as [->|Hpi].
    + destruct (decide (c = i)) as [->|]; [unfold edge in Hpc; lia|].
      destruct (decide (c = j)) as [->|]; [by apply less_le|]. by apply Hmin.
    + rewrite (decide_False (P := p = j)) by done. destruct (decide (c = i)) as [->|Hci].
      * apply H2; done.
      * destruct (decide (c = j)) as [->|]; [exfalso; unfold edge in He, Hpc; lia|]. apply H1; try done.
  - intros p c Hp Hjc Hcn Hk. assert (p = i) as -> by (unfold edge in Hp, He; lia).
    assert (c <> i /\ c <> j) as [? ?] by (unfold edge in Hjc; lia).
    rewrite !Hsw, decide_True, !decide_False by done. apply H1; try done; unfold edge in *; lia.
Qed.

Lemma length_down_loop fuel : forall i n l, length (down_loop fuel i n l).2 = length l.
Proof. induction fuel as [|f IH]; intros; simpl; [done|]. destruct (child i n l); simpl; [|done]. by rewrite IH, length_swap. Qed.
Lemma down_loop_perm fuel : forall i n l, (down_loop fuel i n l).2 ≡ₚ l.
Proof. induction fuel as [|f IH]; intros; simpl; [done|]. destruct (child i n l); simpl; [|done]. by rewrite IH, swap_perm. Qed.
Lemma down_loop_ge fuel : forall i n l, (n <= length l)%nat -> (i <= (down_loop fuel i n l).1)%nat.
Proof.
  induction fuel as [|f IH]; intros i n l Hn; simpl; [done|]. destruct (child i n l) as [j|] eqn:E; simpl; [|done].
  apply child_Some in E as (He & _); [|done]. specialize (IH j n (swap i j l)). rewrite length_swap in IH. unfold edge in He. lia.
Qed.
(** What lies beyond the first [n] elements is not touched. *)
Lemma down_loop_above fuel : forall i n l q, (n <= length l)%nat -> (n <= q)%nat -> (down_loop fuel i n l).2 !!! q = l !!! q.
Proof.
  induction fuel as [|f IH]; intros i n l q Hn Hq; simpl; [done|]. destruct (child i n l) as [j|] eqn:E; simpl; [|done].
  apply child_Some in E as (He & Hj & _); [|done]. rewrite IH by (rewrite ?length_swap; done).
  unfold edge in He. rewrite lookup_swap by lia. by rewrite !decide_False by lia.
Qed.

Lemma down_loop_heap fuel : forall k i n l, (n <= length l)%nat -> (n <= i + fuel)%nat -> sinking false k i n l ->
  heap_from k n (down_loop fuel i n l).2.
Proof.
  assert (forall k i n l, (n <= length l)%nat -> child i n l = None -> sinking false k i n l -> heap_from k n l) as Hdone.
  { intros k i n l Hn E [H1 _] p c Hpc Hcn Hk. destruct (decide (p = i)) as [->|]; [by eapply child_None|]. by apply H1. }
  induction fuel as [|f IH]; intros k i n l Hn Hf Hs; simpl.
  - apply Hdone with i; try done. unfold child. by rewrite decide_True by lia.
  - destruct (child i n l) as [j|] eqn:E; simpl; [|by apply Hdone with i].
    apply IH; [by rewrite length_swap| |by eapply sinking_step].
    apply child_Some in E as (He & _); [|done]. unfold edge in He. lia.
Qed.

(** [down] from a node that may be wrong both ways: either it moved, and all is
    well, or only the edge to its parent can be wrong. *)
Lemma down_spec k i n l : (n <= length l)%nat -> sinking true k i n l ->
  let '(moved, l') := down i n l in
  l' ≡ₚ l /\ length l' = length l /\ (forall q, (n <= q)%nat -> l' !!! q = l !!! q) /\
  if moved : bool then heap_from k n l' else l' = l /\ (forall c, edge i c -> (c < n)%nat -> le (l !!! i) (l !!! c)).
Proof.
  intros Hn Hs. unfold down. destruct n as [|n].
  { simpl. rewrite bool_decide_false by lia. repeat split; try done. lia. }
  pose proof (down_loop_perm (S n) i (S n) l) as Hperm. pose proof (length_down_loop (S n) i (S n) l) as Hlen.
  pose proof (fun q => down_loop_above (S n) i (S n) l q Hn) as Habove. revert Hperm Hlen Habove. simpl.
  destruct (child i (S n) l) as [j|] eqn:E; simpl; intros Hperm Hlen Habove.
  - destruct (child_Some _ _ _ _ Hn E) as (He & Hj & _). pose proof (down_loop_ge n j (S n) (swap i j l)) as Hge.
    rewrite length_swap in Hge. specialize (Hge Hn).
    pose proof (down_loop_heap n k j (S n) (swap i j l)) as Hh. rewrite length_swap in Hh.
    destruct (down_loop n j (S n) (swap i j l)) as [m l'] eqn:El. simpl in *.
    rewrite bool_decide_true by (unfold edge in He; lia).
    split; [done|]. split; [done|]. split; [done|].
    apply Hh; [done|unfold edge in He; lia|by eapply sinking_step].
  - rewrite bool_decide_false by lia. repeat split; try done. intros. by eapply child_None.
Qed.

(** ** Rising *)

Definition rising (j n : nat) (l : list T) : Prop :=
  (forall p c, edge p c -> (c < n)%nat -> c <> j -> le (l !!! p) (l !!! c)) /\
  (forall p c, edge p j -> edge j c -> (c < n)%nat -> le (l !!! p) (l !!! c)).

Lemma length_up fuel : forall j l, length (up fuel j l) = length l.
Proof. induction fuel as [|f IH]; intros; simpl; [done|]. repeat case_decide; try done; destruct (less_at _ _ _); rewrite ?IH, ?length_swap; done. Qed.
Lemma up_perm fuel : forall j l, up fuel j l ≡ₚ l.
Proof. induction fuel as [|f IH]; intros; simpl; [done|]. repeat case_decide; try done; destruct (less_at _ _ _); rewrite ?IH, ?swap_perm; done. Qed.

Lemma up_above fuel : forall j l n q, (n <= length l)%nat -> (j < n)%nat -> (n <= q)%nat -> up fuel j l !!! q = l !!! q.
Proof.
  induction fuel as [|f IH]; intros j l n q Hn Hj Hq; simpl; [done|].
  destruct (decide (j = 0%nat)) as [->|Hj0]; [done|].
  pose proof (parent_lt j ltac:(lia)). rewrite decide_False by lia. destruct (less_at l j (parent j)); [|done].
  rewrite (IH (parent j) (swap (parent j) j l) n q) by (rewrite ?length_swap; lia).
  rewrite lookup_swap by lia. by rewrite !decide_False by lia.
Qed.

Lemma up_heap fuel : forall j n l, (n <= length l)%nat -> (j < n)%nat -> (j <= fuel)%nat -> rising j n l -> heap_from 0 n (up fuel j l).
Proof.
  induction fuel as [|f IH]; intros j n l Hn Hj Hf [H1 H2]; simpl.
  { intros p c He Hc _. apply H1; try done. unfold edge in He; lia. }
  destruct (decide (j = 0%nat)) as [->|Hj0].
  { rewrite decide_True by done. intros p c He Hc _. apply H1; try done. unfold edge in He; lia. }
  pose proof (parent_lt j ltac:(lia)) as Hp. rewrite decide_False by lia.
  assert (edge (parent j) j) as Hpj by (apply edge_parent; lia).
  assert (forall p, edge p j -> p = parent j) as Hpu by (intros p Hpe; unfold edge in Hpe, Hpj; lia).
  rewrite less_at_total by lia. destruct (less _ _) eqn:E.
  - assert (forall q, swap (parent j) j l !!! q = if decide (q = parent j) then l !!! j else if decide (q = j) then l !!! parent j else l !!! q) as Hsw
      by (intros; apply lookup_swap; lia).
    apply IH; [by rewrite length_swap|lia|lia|]. split.
    + intros p c He Hc Hne. rewrite !Hsw, (decide_False (P := c = parent j)) by done.
      destruct (decide (c = j)) as [->|].
      * rewrite (Hpu p He), decide_True by done. by apply less_le.
      * destruct (decide (p = parent j)) as [->|].
        { eapply le_trans; [by apply less_le|]. by apply H1. }
        destruct (decide (p = j)) as [->|]; [by apply H2|by apply H1].
    + intros p c He Hpc Hc. rewrite !Hsw. pose proof He as He'. unfold edge in He'.
      rewrite (decide_False (P := p = parent j)), (decide_False (P := p = j)), (decide_False (P := c = parent j)) by (unfold edge in *; lia).
      assert (le (l !!! p) (l !!! parent j)) by (apply H1; try done; lia).
      destruct (decide (c = j)) as [->|]; [done|]. eapply le_trans; [done|]. by apply H1.
  - intros p c He Hc _. destruct (decide (c = j)) as [->|]; [|by apply H1]. by rewrite (Hpu p He).
Qed.

(** ** The operations *)

Lemma heap_from_down k n l l' (moved : bool) : down k n l = (moved, l') -> (n <= length l)%nat -> heap_from (S k) n l ->
  (forall p, ~ edge p k \/ (p < k)%nat) -> heap_from k n l'.
Proof.
  intros E Hn Hh Hp. assert (sinking true k k n l) as Hs.
  { split; [intros; apply Hh; try done; lia|]. intros p c He. destruct (Hp p); [done|lia]. }
  pose proof (down_spec k k n l Hn Hs) as Hd. rewrite E in Hd. destruct Hd as (_ & _ & _ & Hd).
  destruct moved; [done|]. destruct Hd as [-> Hd]. intros p c He Hc Hk.
  destruct (decide (p = k)) as [->|]; [by apply Hd|]. apply Hh; try done. lia.
Qed.

Lemma init_loop_spec k : forall n l, n = length l -> heap_from k n l -> init_loop k n l ≡ₚ l /\ heap_from 0 n (init_loop k n l).
Proof.
  induction k as [|k IH]; intros n l -> Hh; simpl; [done|].
  destruct (down k (length l) l) as [moved l'] eqn:E.
  assert (l' ≡ₚ l) as Hp.
  { unfold down in E. destruct (down_loop _ _ _ _) as [i l1] eqn:El. simplify_eq.
    pose proof (down_loop_perm (length l) k (length l) l) as Hp. by rewrite El in Hp. }
  simpl. destruct (IH (length l) l') as [Hp' Hh'].
  - by rewrite Hp.
  - eapply heap_from_down; [done|done|done|]. intros p. unfold edge. destruct (decide (p < k)%nat); [by right|]. left. lia.
  - split; [by rewrite Hp'|done].
Qed.

Lemma Init_spec l : Init l ≡ₚ l /\ heap (Init l).
Proof.
  unfold Init, heap. destruct (init_loop_spec (Nat.div2 (length l)) (length l) l eq_refl) as [Hp Hh].
  - intros p c He Hc Hk. unfold edge in He. rewrite Nat.div2_div in Hk. pose proof (Nat.div_mod_eq (length l) 2).
    pose proof (Nat.mod_upper_bound (length l) 2). lia.
  - split; [done|]. by rewrite (Permutation_length Hp).
Qed.

Lemma lookup_total_app_l (l k : list T) q : (q < length l)%nat -> (l ++ k) !!! q = l !!! q.
Proof. intros. rewrite !list_lookup_total_alt. by rewrite lookup_app_l. Qed.

Lemma Push_spec x l : heap l -> Push x l ≡ₚ x :: l /\ heap (Push x l).
Proof.
  intros Hh. unfold Push. set (l' := l ++ [x]). assert (length l' = S (length l)) as Hlen by (unfold l'; rewrite length_app; simpl; lia).
  split; [rewrite up_perm; unfold l'; by rewrite Permutation_app_comm|].
  unfold heap. rewrite length_up. apply up_heap; [done|lia|lia|]. rewrite Hlen. replace (S (length l) - 1)%nat with (length l) by lia. split.
  - intros p c He Hc Hne. unfold l'. rewrite !lookup_total_app_l by (unfold edge in He; lia). apply Hh; [done|lia|lia].
  - intros p c _ He Hc. unfold edge in He. lia.
Qed.

Lemma heap_take n l : (n <= length l)%nat -> heap_from 0 n l -> heap (take n l).
Proof.
  intros Hn Hh p c He Hc Hk. rewrite length_take in Hc. rewrite !list_lookup_total_alt, !lookup_take_lt by (unfold edge in He; lia).
  rewrite <- !list_lookup_total_alt. apply Hh; try done; lia.
Qed.

Lemma heap_min l a x : heap l -> l !! 0%nat = Some a -> x ∈ l -> less x a = false.
Proof.
  intros Hh Ha [q Hq]%list_elem_of_lookup. revert x Hq. induction (lt_wf q) as [q _ IH]. intros x Hq.
  destruct (decide (q = 0%nat)) as [->|Hq0]; [simplify_eq; apply le_refl|].
  pose proof (parent_lt q ltac:(lia)) as Hp. pose proof (lookup_lt_Some _ _ _ Hq) as Hl.
  destruct (lookup_lt_is_Some_2 l (parent q) ltac:(lia)) as [y Hy].
  eapply (le_trans a y x); [apply (IH (parent q) Hp y Hy)|].
  assert (le (l !!! parent q) (l !!! q)) as Hle by (apply Hh; [apply edge_parent; lia|done|lia]).
  by rewrite (list_lookup_total_correct _ _ _ Hq), (list_lookup_total_correct _ _ _ Hy) in Hle.
Qed.

(** The order of a heap with one element replaced, and of one whose last element
    took the place of another. *)
Lemma sinking_insert i x l : heap l -> (i < length l)%nat -> sinking true 0 i (length l) (<[i := x]> l).
Proof.
  intros Hh Hi. split.
  - intros p c He Hc _ Hp Hne. specialize (Hne eq_refl). rewrite !list_lookup_total_insert_ne by done. by apply Hh; [..|lia].
  - intros p c Hpi Hic Hc _. assert (p <> i /\ c <> i) as [? ?] by (unfold edge in *; lia).
    rewrite !list_lookup_total_insert_ne by done. eapply le_trans; apply Hh; (done || lia).
Qed.

Lemma sinking_swap i n l : heap l -> n = (length l - 1)%nat -> (i < n)%nat -> sinking true 0 i n (swap i n l).
Proof.
  intros Hh -> Hi. split.
  - intros p c He Hc _ Hp Hne. specialize (Hne eq_refl). rewrite !lookup_swap by lia.
    unfold edge in He. rewrite !decide_False by lia. apply Hh; (done || lia).
  - intros p c Hpi Hic Hc _. rewrite !lookup_swap by lia. pose proof Hpi as Hpi'. pose proof Hic as Hic'. unfold edge in Hpi', Hic'. rewrite !decide_False by lia.
    eapply le_trans; apply Hh; (done || lia).
Qed.

(** Sink, and rise where nothing sank. *)
Lemma fix_spec i n l : (n <= length l)%nat -> (i < n)%nat -> sinking true 0 i n l ->
  let '(moved, l') := down i n l in let l'' := if moved : bool then l' else up (length l') i l' in
  l'' ≡ₚ l /\ length l'' = length l /\ (forall q, (n <= q)%nat -> l'' !!! q = l !!! q) /\ heap_from 0 n l''.
Proof.
  intros Hn Hi Hs. pose proof (down_spec 0 i n l Hn Hs) as Hd. destruct (down i n l) as [moved l'].
  destruct Hd as (Hp & Hlen & Habove & Hd). destruct moved; [done|]. destruct Hd as [-> Hd]. simpl.
  split; [by rewrite up_perm|]. split; [apply length_up|]. split; [intros; by apply up_above with n|].
  apply up_heap; [done|done|lia|]. destruct Hs as [H1 H2]. split.
  - intros p c He Hc Hne. destruct (decide (p = i)) as [->|]; [by apply Hd|]. apply H1; (done || lia).
  - intros p c Hpi Hic Hc. apply H2; (done || lia).
Qed.

Lemma pop_last_spec n l x : length l = S n -> l !!! n = x -> pop_last l = Ok (x, take n l) /\ l ≡ₚ x :: take n l.
Proof.
  intros Hlen Hx. destruct (lookup_lt_is_Some_2 l n ltac:(lia)) as [y Hy].
  rewrite (list_lookup_total_correct _ _ _ Hy) in Hx. subst y. unfold pop_last. rewrite last_lookup, Hlen. simpl. rewrite Hy.
  replace (n - 0)%nat with n by lia. split; [done|]. rewrite <- (take_drop_middle l n x Hy) at 1.
  rewrite drop_ge by lia. by rewrite Permutation_app_comm.
Qed.

Lemma Remove_spec i x l : heap l -> l !! i = Some x -> exists l', Remove i l = Ok (x, l') /\ l ≡ₚ x :: l' /\ heap l'.
Proof.
  intros Hh Hx. pose proof (lookup_lt_Some _ _ _ Hx) as Hi. unfold Remove. rewrite decide_False by lia.
  set (n := (length l - 1)%nat). assert (length l = S n) as Hlen by (unfold n; lia).
  assert (l !!! i = x) as Hx' by (by apply list_lookup_total_correct).
  destruct (decide (n = i)) as [<-|Hne].
  - destruct (pop_last_spec n l x Hlen Hx') as [-> Hp]. eexists. split; [done|]. split; [done|]. apply heap_take; [lia|].
    intros p c He Hc Hk. apply Hh; (done || lia).
  - pose proof (fix_spec i n (swap i n l)) as Hf. rewrite length_swap in Hf. specialize (Hf ltac:(lia) ltac:(lia)).
    specialize (Hf (sinking_swap i n l Hh eq_refl ltac:(lia))).
    destruct (down i n (swap i n l)) as [moved l1]. simpl in Hf. destruct Hf as (Hp & Hlen' & Habove & Hh').
    set (l2 := if moved then l1 else up (length l1) i l1) in *.
    destruct (pop_last_spec n l2 x) as [-> Hp2]; [lia| |].
    { rewrite Habove by lia. rewrite lookup_swap by lia. rewrite decide_False by lia. by rewrite decide_True. }
    eexists. split; [done|]. split; [by rewrite <- Hp2, Hp, swap_perm|]. apply heap_take; [lia|done].
Qed.

Lemma Pop_spec x l : heap (x :: l) -> exists l', Pop (x :: l) = Ok (x, l') /\ l' ≡ₚ l /\ heap l'.
Proof.
  intros Hh. set (l0 := x :: l) in *. set (n := length l). assert (length l0 = S n) as Hlen by done.
  unfold Pop. rewrite decide_False by done. rewrite Hlen. replace (S n - 1)%nat with n by lia.
  assert (heap_from 1 n (swap 0 n l0)) as H1.
  { intros p c He Hc Hk. unfold edge in He. rewrite !lookup_swap by lia. rewrite !decide_False by lia. apply Hh; (done || lia). }
  destruct (down 0 n (swap 0 n l0)) as [moved l1] eqn:E.
  assert (heap_from 0 n l1) as H0.
  { eapply heap_from_down; [done|rewrite length_swap; lia|done|]. intros p. left. unfold edge. lia. }
  unfold down in E. destruct (down_loop n 0 n (swap 0 n l0)) as [m l1'] eqn:El. simplify_eq.
  pose proof (down_loop_perm n 0 n (swap 0 n l0)) as Hp. pose proof (length_down_loop n 0 n (swap 0 n l0)) as Hlen'.
  pose proof (down_loop_above n 0 n (swap 0 n l0) n) as Ha. rewrite El in Hp, Hlen', Ha. simpl in Hp, Hlen', Ha.
  rewrite length_swap in Hlen', Ha. simpl.
  destruct (pop_last_spec n l1 x) as [-> Hp2]; [lia| |].
  { rewrite Ha by lia. rewrite lookup_swap by lia. destruct (decide (n = 0%nat)) as [->|]; [done|]. by rewrite decide_True. }
  eexists. split; [done|]. split; [|apply heap_take; [lia|done]].
  apply (inj (cons x)). rewrite <- Hp2, Hp, swap_perm. done.
Qed.

Lemma Fix_spec i x l : heap l -> (i < length l)%nat -> Fix i (<[i := x]> l) ≡ₚ <[i := x]> l /\ heap (Fix i (<[i := x]> l)).
Proof.
  intros Hh Hi. unfold Fix. pose proof (fix_spec i (length l) (<[i := x]> l)) as Hf. rewrite length_insert in *.
  specialize (Hf ltac:(lia) Hi (sinking_insert i x l Hh Hi)). destruct (down i (length l) (<[i:=x]> l)) as [moved l1].
  simpl in Hf. destruct Hf as (Hp & Hlen & _ & Hf). split; [done|]. unfold heap. rewrite Hlen. done.
Qed.

Lemma heap_nil : heap [].
Proof. intros p c _ Hc. simpl in Hc. lia. Qed.
End heap.
End Heap.
