(* ===== verification/TxList.v ===== *)
(** * Lists of transactions of one account ([blockchain/tx_list.go], first part)

    [txSortedMap] is a map from nonces to transactions with a heap of the nonces
    and a cache of the sorted transactions; [txList] adds the highest cost and gas
    and, for the executable transactions, strictness.

    A transaction of the pool is modelled with what its caches hold: its hash, its
    size and its sender under the signer of the pool ([load] fills them).  Go
    iterates over maps in any order: the class [MapOrder] has the order, and the
    theorems hold for all of them.  An absent transaction that the source would
    append as nil, and dereference later, is a panic here. *)

From stdpp Require Import sorting.
From S2P Require Import Prelude Config Common Rlp EvmState Transaction Heap.

Local Open Scope Z_scope.

(** The order of a loop over a map. *)
Class MapOrder := {
  iter {V : Type} : gmap Z V -> list (Z * V);
  iter_perm {V : Type} (m : gmap Z V) : iter m ≡ₚ map_to_list m;
}.

Module TxList.

Import Transaction.

(** ** Transactions of the pool *)

Record Tx := mkTx {
  tx_data : TxData;
  tx_time : Z;
  tx_hash : Hash;
  tx_size : Z;
  tx_from : option Address;
}.

#[export] Instance Tx_eq_dec : EqDecision Tx.
Proof. solve_decision. Defined.
#[export] Instance Tx_inhabited : Inhabited Tx := populate (mkTx (LegacyTx 0 0 0 None 0 [] 0 0 0) 0 0 0 None).

(** [Transaction.Size]: the bytes of the contents, nothing when they cannot be
    encoded. *)
Definition Size (t : TxData) : res Z := e ← Encode (IStruct (tx_items t)); Ok (zlen (default [] e)).

(** A transaction with its caches filled. *)
Definition load `{Crypto} (s : Signer) (tx : Transaction) : res Tx :=
  h ← tx_Hash (inner tx); n ← Size (inner tx); '(r, _) ← Sender s tx;
  Ok (mkTx (inner tx) (time tx) h n (match r with inl a => Some a | inr _ => None end)).

Definition Nonce (t : Tx) : Z := nonce (tx_data t).
Definition Gas (t : Tx) : Z := gas (tx_data t).
Definition TxCost (t : Tx) : Z := Cost (tx_data t).
Definition FeeCap (t : Tx) : Z := gasFeeCap (tx_data t).
Definition TipCap (t : Tx) : Z := gasTipCap (tx_data t).
Definition GasFeeCapCmp (t other : Tx) : comparison := FeeCap t ?= FeeCap other.
Definition GasFeeCapIntCmp (t : Tx) (other : Z) : comparison := FeeCap t ?= other.
Definition GasTipCapCmp (t other : Tx) : comparison := TipCap t ?= TipCap other.
Definition GasTipCapIntCmp (t : Tx) (other : Z) : comparison := TipCap t ?= other.

(** Comparison results of Go are -1, 0 or 1. *)
Definition ge0 (c : comparison) : bool := match c with Lt => false | _ => true end.
Definition lt0 (c : comparison) : bool := match c with Lt => true | _ => false end.

(** [sort.Sort] of transactions with different nonces ([TxByNonce]), and of
    integers: the result is determined. *)
Definition nonce_le (a b : Tx) : Prop := Nonce a <= Nonce b.
#[export] Instance nonce_le_dec a b : Decision (nonce_le a b) := decide (Nonce a <= Nonce b).
Definition sort_txs (l : list Tx) : list Tx := merge_sort nonce_le l.
Definition sort_nonces (l : list Z) : list Z := merge_sort Z.le l.

(** ** [txSortedMap] *)

Definition nonce_less (a b : Z) : bool := a <? b.

Record txSortedMap := mkSortedMap {
  items : gmap Z Tx;
  index : list Z;
  cache : option (list Tx);
}.

Definition newTxSortedMap : txSortedMap := mkSortedMap ∅ [] None.

Definition map_Get (nonce : Z) (m : txSortedMap) : option Tx := items m !! nonce.

Definition map_Put (tx : Tx) (m : txSortedMap) : txSortedMap :=
  let nonce := Nonce tx in
  let index := match items m !! nonce with None => Heap.Push nonce_less nonce (index m) | Some _ => index m end in
  mkSortedMap (<[nonce := tx]> (items m)) index None.

(** The loop of [Forward]. *)
Fixpoint forward_loop (fuel : nat) (threshold : Z) (m : gmap Z Tx) (index : list Z) (removed : list Tx)
    : res (list Tx * gmap Z Tx * list Z) :=
  match fuel with
  | O => Ok (removed, m, index)
  | S fuel =>
    match index with
    | [] => Ok (removed, m, index)
    | top :: _ =>
      if top <? threshold then
        '(nonce, index) ← Heap.Pop nonce_less index;
        tx ← or_panic PanicNil (m !! nonce);
        forward_loop fuel threshold (delete nonce m) index (removed ++ [tx])
      else Ok (removed, m, index)
    end
  end.

Definition map_Forward (threshold : Z) (m : txSortedMap) : res (list Tx * txSortedMap) :=
  '(removed, its, idx) ← forward_loop (length (index m)) threshold (items m) (index m) [];
  match cache m with
  | None => Ok (removed, mkSortedMap its idx None)
  | Some c => c ← slice c (zlen removed) (zlen c); Ok (removed, mkSortedMap its idx (Some c))
  end.

Section orders.
Context `{MapOrder}.

(** The private [filter]: heap and cache are left as they are, the cache is
    dropped when something was removed. *)
Definition map_filter (f : Tx -> bool) (m : txSortedMap) : list Tx * txSortedMap :=
  let removed := filter (fun tx => f tx = true) (iter (items m)).*2 in
  let its := base.filter (fun kv : Z * Tx => f kv.2 = false) (items m) in
  (removed, mkSortedMap its (index m) (if decide (removed = []) then cache m else None)).

Definition map_reheap (m : txSortedMap) : txSortedMap :=
  mkSortedMap (items m) (Heap.Init nonce_less (iter (items m)).*1) None.

Definition map_Filter (f : Tx -> bool) (m : txSortedMap) : list Tx * txSortedMap :=
  let '(removed, m) := map_filter f m in
  (removed, if decide (removed = []) then m else map_reheap m).

Definition map_Len (m : txSortedMap) : Z := Z.of_nat (size (items m)).

(** The loop of [Cap], from [size] elements down to [threshold]. *)
Fixpoint cap_loop (count : nat) (sz : Z) (sorted : list Z) (its : gmap Z Tx) (drops : list Tx) : res (list Tx * gmap Z Tx) :=
  match count with
  | O => Ok (drops, its)
  | S count =>
    n ← nth_or_panic sorted (sz - 1);
    tx ← or_panic PanicNil (its !! n);
    cap_loop count (sz - 1) sorted (delete n its) (drops ++ [tx])
  end.

Definition map_Cap (threshold : Z) (m : txSortedMap) : res (list Tx * txSortedMap) :=
  if map_Len m <=? threshold then Ok ([], m)
  else
    let sorted := sort_nonces (index m) in
    '(drops, its) ← cap_loop (Z.to_nat (map_Len m - threshold)) (map_Len m) sorted (items m) [];
    idx ← slice sorted 0 threshold;
    let idx := Heap.Init nonce_less idx in
    match cache m with
    | None => Ok (drops, mkSortedMap its idx None)
    | Some c => c ← slice c 0 (zlen c - zlen drops); Ok (drops, mkSortedMap its idx (Some c))
    end.

(** The first index of a nonce. *)
Fixpoint index_of (i : nat) (nonce : Z) (l : list Z) : option nat :=
  match l with [] => None | x :: l => if x =? nonce then Some i else index_of (S i) nonce l end.

Definition map_Remove (nonce : Z) (m : txSortedMap) : res (bool * txSortedMap) :=
  match items m !! nonce with
  | None => Ok (false, m)
  | Some _ =>
    idx ← (match index_of 0 nonce (index m) with
           | Some i => '(_, idx) ← Heap.Remove nonce_less i (index m); Ok idx
           | None => Ok (index m)
           end);
    Ok (true, mkSortedMap (delete nonce (items m)) idx None)
  end.

(** The loop of [Ready]. *)
Fixpoint ready_loop (fuel : nat) (next : Z) (its : gmap Z Tx) (index : list Z) (ready : list Tx)
    : res (list Tx * gmap Z Tx * list Z) :=
  match fuel with
  | O => Ok (ready, its, index)
  | S fuel =>
    match index with
    | [] => Ok (ready, its, index)
    | top :: _ =>
      if top =? next then
        tx ← or_panic PanicNil (its !! next);
        '(_, index) ← Heap.Pop nonce_less index;
        ready_loop fuel (add64 next 1) (delete next its) index (ready ++ [tx])
      else Ok (ready, its, index)
    end
  end.

Definition map_Ready (start : Z) (m : txSortedMap) : res (list Tx * txSortedMap) :=
  match index m with
  | [] => Ok ([], m)
  | top :: _ =>
    if top >? start then Ok ([], m)
    else
      '(ready, its, idx) ← ready_loop (length (index m)) top (items m) (index m) [];
      Ok (ready, mkSortedMap its idx None)
  end.

(** [flatten] fills the cache. *)
Definition map_flatten (m : txSortedMap) : list Tx * txSortedMap :=
  match cache m with
  | Some c => (c, m)
  | None => let c := sort_txs (iter (items m)).*2 in (c, mkSortedMap (items m) (index m) (Some c))
  end.
Definition map_Flatten (m : txSortedMap) : list Tx * txSortedMap := map_flatten m.
Definition map_LastElement (m : txSortedMap) : res (Tx * txSortedMap) :=
  let '(c, m) := map_flatten m in tx ← nth_or_panic c (zlen c - 1); Ok (tx, m).

(** ** [txList] *)

Record txList := mkTxList {
  strict : bool;
  txs : txSortedMap;
  costcap : Z;
  gascap : Z;
}.

Definition with_txs (m : txSortedMap) (l : txList) : txList := mkTxList (strict l) m (costcap l) (gascap l).

Definition newTxList (strict : bool) : txList := mkTxList strict newTxSortedMap 0 0.

Definition Overlaps (tx : Tx) (l : txList) : bool := bool_decide (is_Some (map_Get (Nonce tx) (txs l))).

(** Is a replacement too cheap?  Both caps must rise, and by the percentage. *)
Definition underpriced (old tx : Tx) (priceBump : Z) : bool :=
  if ge0 (GasFeeCapCmp old tx) || ge0 (GasTipCapCmp old tx) then true
  else
    let a := i64 (100 + i64 priceBump) in
    let thresholdFeeCap := a * FeeCap old / 100 in
    let thresholdTip := a * TipCap old / 100 in
    lt0 (GasFeeCapIntCmp tx thresholdFeeCap) || lt0 (GasTipCapIntCmp tx thresholdTip).

(** [Add]: whether the transaction was inserted, and the one it replaced. *)
Definition Add (tx : Tx) (priceBump : Z) (l : txList) : bool * option Tx * txList :=
  let old := map_Get (Nonce tx) (txs l) in
  if match old with Some o => underpriced o tx priceBump | None => false end then (false, None, l)
  else
    (true, old, mkTxList (strict l) (map_Put tx (txs l)) (if costcap l <? TxCost tx then TxCost tx else costcap l)
                         (if gascap l <? Gas tx then Gas tx else gascap l)).

Definition Forward (threshold : Z) (l : txList) : res (list Tx * txList) :=
  '(removed, m) ← map_Forward threshold (txs l); Ok (removed, with_txs m l).

(** The least nonce of some transactions. *)
Definition lowest_nonce (l : list Tx) : Z :=
  fold_left (fun lowest tx => if lowest >? Nonce tx then Nonce tx else lowest) l MaxUint64.

(** [Filter]: the unpayable transactions, and those a strict list loses for them. *)
Definition Filter (costLimit gasLimit : Z) (l : txList) : list Tx * list Tx * txList :=
  if (costcap l <=? costLimit) && (gascap l <=? gasLimit) then ([], [], l)
  else
    let '(removed, m) := map_Filter (fun tx => (Gas tx >? gasLimit) || (TxCost tx >? costLimit)) (txs l) in
    let l := mkTxList (strict l) m costLimit gasLimit in
    if decide (removed = []) then ([], [], l)
    else
      let '(invalids, m) :=
        if strict l then let lowest := lowest_nonce removed in map_Filter (fun tx => Nonce tx >? lowest) (txs l)
        else ([], txs l) in
      (removed, invalids, with_txs (map_reheap m) l).

Definition Cap (threshold : Z) (l : txList) : res (list Tx * txList) :=
  '(drops, m) ← map_Cap threshold (txs l); Ok (drops, with_txs m l).

(** [Remove]: whether it was there, and what a strict list loses for it. *)
Definition Remove (tx : Tx) (l : txList) : res (bool * list Tx * txList) :=
  let nonce := Nonce tx in
  '(removed, m) ← map_Remove nonce (txs l);
  if negb removed then Ok (false, [], with_txs m l)
  else if strict l then
    let '(invalids, m) := map_Filter (fun tx => Nonce tx >? nonce) m in Ok (true, invalids, with_txs m l)
  else Ok (true, [], with_txs m l).

Definition Ready (start : Z) (l : txList) : res (list Tx * txList) :=
  '(ready, m) ← map_Ready start (txs l); Ok (ready, with_txs m l).

Definition Len (l : txList) : Z := map_Len (txs l).
Definition Empty (l : txList) : bool := Len l =? 0.

Definition Flatten (l : txList) : list Tx * txList :=
  let '(c, m) := map_Flatten (txs l) in (c, with_txs m l).
Definition LastElement (l : txList) : res (Tx * txList) :=
  '(tx, m) ← map_LastElement (txs l); Ok (tx, with_txs m l).
End orders.
End TxList.
