(* ===== verification/TxListSpec.v ===== *)
(** * The lists of transactions implement sorted lists

    [by_nonce] reads the contents of a [txSortedMap] as a list in the order of the
    nonces.  [sm_ok] is the invariant of the structure: the heap has the nonces of
    the map, and the cache, when there is one, the sorted transactions.  Every
    operation keeps it, does not panic, and does to the list what [Spec] says. *)

From stdpp Require Import sorting.
From S2P Require Import Prelude Config Common Rlp EvmState Transaction Heap TxList.

Local Open Scope Z_scope.

Module TxListSpec.

Import TxList.

#[export] Instance nonce_less_order : LessOrder nonce_less.
Proof. split; unfold nonce_less; intros; to_prop; [apply Z.ltb_ge; lia|]. apply Z.ltb_ge; lia. Qed.
#[export] Instance nonce_le_trans : Transitive nonce_le.
Proof. intros a b c. unfold nonce_le. lia. Qed.
#[export] Instance nonce_le_total : Total nonce_le.
Proof. intros a b. unfold nonce_le. lia. Qed.

Definition nonce_lt (a b : Tx) : Prop := Nonce a < Nonce b.

(** ** Maps as sorted lists *)

Definition keyed (m : gmap Z Tx) : Prop := forall n t, m !! n = Some t -> Nonce t = n /\ is_u64 n.
Definition by_nonce (m : gmap Z Tx) : list Tx := sort_txs (map_to_list m).*2.

Lemma elem_values (m : gmap Z Tx) t : keyed m -> t ∈ (map_to_list m).*2 <-> m !! Nonce t = Some t.
Proof.
  intros Hk. rewrite list_elem_of_fmap. split.
  - intros ([n t'] & -> & E%elem_of_map_to_list). simpl. by destruct (Hk _ _ E) as [-> _].
  - intros E. exists (Nonce t, t). split; [done|]. by apply elem_of_map_to_list.
Qed.

Lemma elem_by_nonce (m : gmap Z Tx) t : keyed m -> t ∈ by_nonce m <-> m !! Nonce t = Some t.
Proof. intros Hk. unfold by_nonce, sort_txs. rewrite merge_sort_Permutation. by apply elem_values. Qed.

Lemma NoDup_values (m : gmap Z Tx) : keyed m -> NoDup (map_to_list m).*2.
Proof.
  intros Hk. pose proof (NoDup_fst_map_to_list m) as Hn. apply (NoDup_fmap_1 Nonce). rewrite <- list_fmap_compose.
  erewrite (list_fmap_ext (Nonce ∘ snd) fst); [done|]. intros i [n t] E%list_elem_of_lookup_2%elem_of_map_to_list. simpl. by apply Hk in E as [? _].
Qed.

Lemma sorted_NoDup (l : list Tx) : StronglySorted nonce_lt l -> NoDup l.
Proof.
  induction 1 as [|t l _ IH Hf]; constructor; [|done]. intros Hin. rewrite Forall_forall in Hf. specialize (Hf t Hin). unfold nonce_lt in Hf. lia.
Qed.

Lemma sorted_weaken (l : list Tx) : StronglySorted nonce_lt l -> StronglySorted nonce_le l.
Proof. induction 1 as [|t l _ IH Hf]; constructor; [done|]. eapply Forall_impl; [done|]. unfold nonce_lt, nonce_le. intros; lia. Qed.

Lemma sorted_by_lookup (l : list Tx) a b : StronglySorted nonce_lt l -> a ∈ l -> b ∈ l -> Nonce a = Nonce b -> a = b.
Proof.
  induction 1 as [|t l _ IH Hf]; [by intros ?%elem_of_nil|]. rewrite Forall_forall in Hf. unfold nonce_lt in Hf.
  intros [->|Ha]%elem_of_cons [->|Hb]%elem_of_cons E; try done; [specialize (Hf _ Hb)|specialize (Hf _ Ha)|by apply IH]; lia.
Qed.

(** The contents determine the list. *)
Lemma by_nonce_perm (m : gmap Z Tx) l : keyed m -> l ≡ₚ (map_to_list m).*2 -> StronglySorted nonce_le l -> l = by_nonce m.
Proof.
  intros Hk Hp Hs. unfold by_nonce, sort_txs. eapply (StronglySorted_unique_strong nonce_le); [|done|by apply StronglySorted_merge_sort; apply _|by rewrite merge_sort_Permutation].
  intros a b Ha Hb Hab Hba. rewrite merge_sort_Permutation in Hb. rewrite Hp in Ha. apply elem_values in Ha, Hb; [|done..].
  unfold nonce_le in *. assert (Nonce a = Nonce b) as E by lia. rewrite E in Ha. congruence.
Qed.

Lemma by_nonce_eq (m : gmap Z Tx) l : keyed m -> StronglySorted nonce_lt l -> (forall t, t ∈ l <-> m !! Nonce t = Some t) -> by_nonce m = l.
Proof.
  intros Hk Hs He. symmetry. apply by_nonce_perm; [done| |by apply sorted_weaken].
  apply NoDup_Permutation; [by apply sorted_NoDup|by apply NoDup_values|]. intros t. by rewrite He, elem_values.
Qed.

Lemma by_nonce_sorted (m : gmap Z Tx) : keyed m -> StronglySorted nonce_lt (by_nonce m).
Proof.
  intros Hk. assert (StronglySorted nonce_le (by_nonce m)) as Hs by (by apply StronglySorted_merge_sort; apply _).
  assert (NoDup (by_nonce m)) as Hd by (unfold by_nonce, sort_txs; rewrite merge_sort_Permutation; by apply NoDup_values).
  assert (forall t, t ∈ by_nonce m -> m !! Nonce t = Some t) as He by (intros; by apply elem_by_nonce).
  induction Hs as [|t l Hs IH Hf]; [constructor|]. apply NoDup_cons in Hd as [Hd1 Hd2]. constructor.
  - apply IH; [done|]. intros. apply He. by right.
  - rewrite Forall_forall in *. intros t' Ht'. pose proof (Hf t' Ht'). unfold nonce_le, nonce_lt in *.
    destruct (decide (Nonce t = Nonce t')) as [E|]; [|lia]. pose proof (He t ltac:(by left)). pose proof (He t' ltac:(by right)).
    rewrite E in *. simplify_eq. by destruct Hd1.
Qed.

Lemma length_by_nonce (m : gmap Z Tx) : length (by_nonce m) = size m.
Proof. unfold by_nonce, sort_txs. by rewrite merge_sort_Permutation, length_fmap, length_map_to_list. Qed.

Lemma by_nonce_empty : by_nonce ∅ = [].
Proof. done. Qed.
Lemma by_nonce_nil (m : gmap Z Tx) : by_nonce m = [] <-> m = ∅.
Proof. rewrite <- length_zero_iff_nil, length_by_nonce. apply map_size_empty_iff. Qed.

Lemma sorted_filter (P : Tx -> Prop) `{forall t, Decision (P t)} l : StronglySorted nonce_lt l -> StronglySorted nonce_lt (filter P l).
Proof.
  induction 1 as [|t l _ IH Hf]; [constructor|]. rewrite filter_cons. case_decide; [|done]. constructor; [done|].
  rewrite Forall_forall in *. intros t' [_ Ht']%list_elem_of_filter. by apply Hf.
Qed.

(** Keyed maps. *)
Lemma keyed_empty : keyed ∅.
Proof. intros n t E. by rewrite lookup_empty in E. Qed.
Lemma keyed_delete n (m : gmap Z Tx) : keyed m -> keyed (delete n m).
Proof. intros Hk k t [_ E]%lookup_delete_Some. by apply Hk. Qed.
Lemma keyed_insert t (m : gmap Z Tx) : keyed m -> is_u64 (Nonce t) -> keyed (<[Nonce t := t]> m).
Proof. intros Hk Hn k t' [[<- <-]|[_ E]]%lookup_insert_Some; [done|]. by apply Hk. Qed.
Lemma keyed_filter (P : Z * Tx -> Prop) `{forall kv, Decision (P kv)} (m : gmap Z Tx) : keyed m -> keyed (filter P m).
Proof. intros Hk k t [E _]%map_lookup_filter_Some. by apply Hk. Qed.

Lemma by_nonce_filter (P : Tx -> Prop) `{forall t, Decision (P t)} (m : gmap Z Tx) :
  keyed m -> by_nonce (filter (fun kv : Z * Tx => P kv.2) m) = filter P (by_nonce m).
Proof.
  intros Hk. apply by_nonce_eq; [by apply keyed_filter|by apply sorted_filter, by_nonce_sorted|].
  intros t. rewrite list_elem_of_filter, elem_by_nonce, map_lookup_filter_Some by done. simpl. tauto.
Qed.

Lemma by_nonce_delete n (m : gmap Z Tx) : keyed m -> by_nonce (delete n m) = filter (fun t => Nonce t <> n) (by_nonce m).
Proof.
  intros Hk. apply by_nonce_eq; [by apply keyed_delete|by apply sorted_filter, by_nonce_sorted|].
  intros t. rewrite list_elem_of_filter, elem_by_nonce, lookup_delete_Some by done. split; intros []; done.
Qed.

(** ** The invariant *)

Definition ix_ok (m : gmap Z Tx) (idx : list Z) : Prop :=
  keyed m /\ idx ≡ₚ (map_to_list m).*1 /\ Heap.heap nonce_less idx.
Definition sm_ok (m : txSortedMap) : Prop :=
  ix_ok (items m) (index m) /\ forall c, cache m = Some c -> c = by_nonce (items m).
Definition contents (m : txSortedMap) : list Tx := by_nonce (items m).

Lemma elem_index m idx n : ix_ok m idx -> n ∈ idx <-> is_Some (m !! n).
Proof.
  intros (_ & Hp & _). rewrite Hp, list_elem_of_fmap. split.
  - intros ([k t] & -> & E%elem_of_map_to_list). by exists t.
  - intros [t E]. exists (n, t). split; [done|]. by apply elem_of_map_to_list.
Qed.

Lemma length_index m idx : ix_ok m idx -> length idx = size m.
Proof. intros (_ & Hp & _). by rewrite Hp, length_fmap, length_map_to_list. Qed.

Lemma index_delete (m : gmap Z Tx) n t : m !! n = Some t -> (map_to_list m).*1 ≡ₚ n :: (map_to_list (delete n m)).*1.
Proof. intros E. rewrite <- (map_to_list_delete m n t E). done. Qed.

(** The top of the heap is the first transaction. *)
Lemma ix_pop m top idx : ix_ok m (top :: idx) -> exists t idx', m !! top = Some t /\ Nonce t = top /\ is_u64 top /\
  Heap.Pop nonce_less (top :: idx) = Ok (top, idx') /\ ix_ok (delete top m) idx' /\ length idx' = length idx /\
  by_nonce m = t :: by_nonce (delete top m).
Proof.
  intros Hix. pose proof Hix as (Hk & Hp & Hh). destruct (proj1 (elem_index _ _ top Hix)) as [t Ht]; [by left|].
  destruct (Hk _ _ Ht) as [Hn Hu]. destruct (Heap.Pop_spec nonce_less top idx Hh) as (idx' & Epop & Hp' & Hh').
  assert (ix_ok (delete top m) idx') as Hix'.
  { split; [by apply keyed_delete|]. split; [|done]. apply (inj (cons top)). rewrite <- (index_delete m top t) by done. by rewrite Hp', Hp. }
  exists t, idx'. split; [done|]. split; [done|]. split; [done|]. split; [done|]. split; [done|]. split; [by rewrite Hp'|].
  apply by_nonce_eq; [done| |].
  - constructor; [apply by_nonce_sorted; by apply keyed_delete|]. apply Forall_forall. intros t' Ht'.
    apply elem_by_nonce in Ht' as [Hne Ht']%lookup_delete_Some; [|by apply keyed_delete].
    assert (Nonce t' ∈ top :: idx) as Hin by (apply (elem_index _ _ _ Hix); eauto).
    pose proof (Heap.heap_min nonce_less (top :: idx) top (Nonce t') Hh eq_refl Hin) as Hmin.
    unfold nonce_less in Hmin. to_prop. unfold nonce_lt. lia.
  - intros t'. rewrite elem_of_cons, elem_by_nonce, lookup_delete_Some by (by apply keyed_delete). split.
    + intros [->|[_ E]]; [by rewrite Hn|done].
    + intros E. destruct (decide (Nonce t' = top)) as [E2|]; [left; rewrite E2 in E; congruence|by right].
Qed.

(** ** The abstract operations, on sorted lists *)

Module Spec.
Definition put (t : Tx) (s : list Tx) : list Tx :=
  filter (fun x => Nonce x < Nonce t) s ++ t :: filter (fun x => Nonce t < Nonce x) s.
Definition forward (threshold : Z) (s : list Tx) : list Tx * list Tx :=
  (filter (fun t => Nonce t < threshold) s, filter (fun t => threshold <= Nonce t) s).
Definition keep (f : Tx -> bool) (s : list Tx) : list Tx := filter (fun t => f t = false) s.
Definition cap (k : nat) (s : list Tx) : list Tx * list Tx := (rev (drop k s), take k s).
Definition remove (n : Z) (s : list Tx) : list Tx := filter (fun t => Nonce t <> n) s.
(** The transactions with the nonces from [next] on, without a gap. *)
Fixpoint run (next : Z) (s : list Tx) : list Tx * list Tx :=
  match s with
  | t :: s' => if Nonce t =? next then let '(a, b) := run (next + 1) s' in (t :: a, b) else ([], s)
  | [] => ([], [])
  end.
(** The transactions before the first one that [f] is true of. *)
Fixpoint before (f : Tx -> bool) (s : list Tx) : list Tx :=
  match s with t :: s' => if f t then [] else t :: before f s' | [] => [] end.
Definition ready (start : Z) (s : list Tx) : list Tx * list Tx :=
  match s with t :: _ => if Nonce t <=? start then run (Nonce t) s else ([], s) | [] => ([], []) end.
End Spec.

Lemma forward_all th (s : list Tx) : Forall (fun t => th <= Nonce t) s -> Spec.forward th s = ([], s).
Proof.
  unfold Spec.forward. induction 1 as [|t s Ht _ IH]; [done|]. rewrite !filter_cons. rewrite decide_False by lia. rewrite decide_True by done.
  injection IH as E1 E2. by rewrite E1, E2.
Qed.

Lemma contents_ge_top m top idx : ix_ok m (top :: idx) -> Forall (fun t => top <= Nonce t) (by_nonce m).
Proof.
  intros Hix. pose proof (proj1 Hix) as Hk. destruct (ix_pop _ _ _ Hix) as (t & idx' & Ht & Hn & _ & _ & _ & _ & E).
  pose proof (by_nonce_sorted m Hk) as Hs. rewrite E in *. apply StronglySorted_inv in Hs as [_ Hf]. constructor; [lia|].
  eapply Forall_impl; [done|]. unfold nonce_lt. intros; lia.
Qed.

Lemma ix_nil m : ix_ok m [] -> m = ∅.
Proof. intros Hix%length_index. symmetry in Hix. by apply map_size_empty_iff. Qed.

(** ** The operations *)

Lemma new_ok : sm_ok newTxSortedMap.
Proof. split; [|done]. split; [apply keyed_empty|]. split; [done|apply Heap.heap_nil]. Qed.

Lemma put_ok t m : sm_ok m -> is_u64 (Nonce t) -> sm_ok (map_Put t m).
Proof.
  intros [(Hk & Hp & Hh) _] Hn. split; [|done]. simpl. split; [by apply keyed_insert|].
  destruct (items m !! Nonce t) as [o|] eqn:E.
  - split; [|done]. rewrite Hp. rewrite (index_delete (items m) (Nonce t) o E).
    rewrite (index_delete (<[Nonce t := t]> (items m)) (Nonce t) t) by apply lookup_insert_eq. by rewrite delete_insert_eq.
  - destruct (Heap.Push_spec nonce_less (Nonce t) (index m) Hh) as [Hp' Hh']. split; [|done].
    rewrite Hp', map_to_list_insert by done. simpl. by rewrite Hp.
Qed.

Lemma put_contents t m : sm_ok m -> is_u64 (Nonce t) -> contents (map_Put t m) = Spec.put t (contents m).
Proof.
  intros [(Hk & _) _] Hn. unfold contents. simpl. apply by_nonce_eq; [by apply keyed_insert| |].
  - pose proof (by_nonce_sorted _ Hk) as Hs. unfold Spec.put. apply StronglySorted_app_2.
    + intros a b [Ha _]%list_elem_of_filter [->|[Hb _]%list_elem_of_filter]%elem_of_cons; unfold nonce_lt; lia.
    + by apply sorted_filter.
    + constructor; [by apply sorted_filter|]. apply Forall_forall. intros b [Hb _]%list_elem_of_filter. done.
  - intros x. unfold Spec.put. rewrite elem_of_app, elem_of_cons, !list_elem_of_filter, elem_by_nonce by done.
    destruct (decide (Nonce x = Nonce t)) as [E|Hne].
    + rewrite E, lookup_insert_eq. split; [|intros [=]; auto]. intros [[? _]|[->|[? _]]]; [lia|done|lia].
    + rewrite lookup_insert_ne by done. split; [|intros; destruct (Z.lt_total (Nonce x) (Nonce t)) as [|[]]; tauto].
      intros [[_ ?]|[->|[_ ?]]]; done.
Qed.

Lemma forward_loop_spec th fuel : forall m idx removed, (length idx <= fuel)%nat -> ix_ok m idx ->
  exists m' idx', forward_loop fuel th m idx removed = Ok (removed ++ (Spec.forward th (by_nonce m)).1, m', idx') /\
    ix_ok m' idx' /\ by_nonce m' = (Spec.forward th (by_nonce m)).2.
Proof.
  induction fuel as [|fuel IH]; intros m [|top idx] removed Hf Hix; simpl in Hf; try lia;
    try (exists m, []; pose proof (ix_nil _ Hix) as ->; rewrite app_nil_r; done).
  cbn [forward_loop]. destruct (ix_pop _ _ _ Hix) as (t & idx' & Ht & Hn & _ & Epop & Hix' & Hlen & E).
  destruct (top <? th) eqn:Eth; to_prop.
  - rewrite Epop. simpl. rewrite Ht. simpl. destruct (IH _ idx' (removed ++ [t]) ltac:(lia) Hix') as (m' & idx'' & -> & Hix'' & E').
    exists m', idx''. rewrite E' in *. rewrite E. unfold Spec.forward. simpl. rewrite !filter_cons, decide_True, decide_False by lia.
    simpl. by rewrite <- app_assoc.
  - pose proof (contents_ge_top _ _ _ Hix) as Hge. rewrite forward_all by (eapply Forall_impl; [done|]; simpl; intros; lia).
    exists m, (top :: idx). by rewrite app_nil_r.
Qed.

(** A sorted list is its part below a bound and the rest. *)
Lemma forward_split th (s : list Tx) : StronglySorted nonce_lt s -> s = (Spec.forward th s).1 ++ (Spec.forward th s).2.
Proof.
  induction 1 as [|t s Hs IH Hf]; [done|]. destruct (decide (Nonce t < th)).
  - unfold Spec.forward in *. simpl in *. rewrite !filter_cons, decide_True, decide_False by lia. simpl. by f_equal.
  - rewrite forward_all; [done|]. constructor; [lia|]. eapply Forall_impl; [done|]. unfold nonce_lt. intros; lia.
Qed.

Lemma slice_suffix {A} (a b : list A) : slice (a ++ b) (zlen a) (zlen (a ++ b)) = Ok b.
Proof.
  unfold zlen. rewrite slice_Ok; rewrite ?length_app; unfold zlen; rewrite ?length_app; [|lia|lia]. f_equal.
  rewrite Nat2Z.id, drop_app_length. apply take_ge. lia.
Qed.
Lemma slice_prefix {A} (a b : list A) : slice (a ++ b) 0 (zlen a) = Ok a.
Proof. rewrite slice_Ok; [|pose proof (zlen_nonneg a); lia|rewrite zlen_app; pose proof (zlen_nonneg b); lia]. f_equal. unfold zlen. rewrite Z.sub_0_r, Nat2Z.id, drop_0, take_app_length. done. Qed.

Lemma map_Forward_spec th m : sm_ok m -> exists m', map_Forward th m = Ok ((Spec.forward th (contents m)).1, m') /\
  sm_ok m' /\ contents m' = (Spec.forward th (contents m)).2.
Proof.
  intros [Hix Hc]. unfold map_Forward. destruct (forward_loop_spec th (length (index m)) (items m) (index m) [] ltac:(lia) Hix) as (its & idx & -> & Hix' & E).
  simpl. destruct (cache m) as [c|].
  - rewrite (Hc c eq_refl). pose proof (slice_suffix (Spec.forward th (contents m)).1 (Spec.forward th (contents m)).2) as Hsl.
    rewrite <- forward_split in Hsl by (apply by_nonce_sorted, Hix). unfold contents in Hsl. simpl in Hsl. rewrite Hsl. simpl. eexists. split; [done|]. split; [|done]. split; [done|]. intros c' [= <-]. done.
  - eexists. split; [done|]. split; [|done]. split; [done|]. done.
Qed.

Section orders.
Context `{MO : MapOrder}.

Lemma iter_values (m : gmap Z Tx) : (iter m).*2 ≡ₚ (map_to_list m).*2.
Proof. by rewrite iter_perm. Qed.

Lemma reheap_ok m : keyed (items m) -> sm_ok (map_reheap m).
Proof.
  intros Hk. split; [|done]. simpl. destruct (Heap.Init_spec nonce_less (iter (items m)).*1) as [Hp Hh].
  split; [done|]. split; [|done]. by rewrite Hp, iter_perm.
Qed.

(** What [filter] removes and leaves. *)
Lemma map_filter_spec f m : keyed (items m) ->
  (map_filter f m).1 ≡ₚ filter (fun t => f t = true) (contents m) /\
  contents (map_filter f m).2 = Spec.keep f (contents m) /\ keyed (items (map_filter f m).2).
Proof.
  intros Hk. unfold map_filter, contents, Spec.keep. cbn [items snd fst].
  pose proof (by_nonce_filter (fun t => f t = false) (items m) Hk) as Hf.
  split; [|split; [exact Hf|by apply keyed_filter]].
  unfold by_nonce, sort_txs. by rewrite merge_sort_Permutation, iter_values.
Qed.

Lemma filter_none f (s : list Tx) : filter (fun t => f t = true) s = [] -> Spec.keep f s = s.
Proof.
  unfold Spec.keep. induction s as [|t s IH]; [done|]. rewrite !filter_cons. intros E. destruct (f t) eqn:Ef; [done|].
  rewrite decide_True by done. f_equal. by apply IH.
Qed.

Lemma map_filter_id (P : Z * Tx -> Prop) `{forall kv, Decision (P kv)} (m : gmap Z Tx) : (forall k t, m !! k = Some t -> P (k, t)) -> filter P m = m.
Proof.
  intros HP. apply map_eq. intros k. apply option_eq. intros t. rewrite map_lookup_filter_Some. split; [by intros []|]. intros E. split; [done|by apply HP].
Qed.

Lemma map_Filter_spec f m : sm_ok m ->
  (map_Filter f m).1 ≡ₚ filter (fun t => f t = true) (contents m) /\
  contents (map_Filter f m).2 = Spec.keep f (contents m) /\ sm_ok (map_Filter f m).2.
Proof.
  intros Hok. pose proof (map_filter_spec f m (proj1 (proj1 Hok))) as (Hr & Hc & Hk). unfold map_Filter.
  destruct (map_filter f m) as [removed m1] eqn:E. simpl in *. split; [done|]. case_decide as Hd.
  - split; [done|]. subst removed. unfold map_filter in E. injection E as E1 E2. rewrite E1, decide_True in E2 by done. subst m1.
    rewrite map_filter_id; [by destruct m|]. intros k t Ht. simpl. destruct (f t) eqn:Ef; [|done].
    assert (t ∈ filter (fun t => f t = true) (contents m)) as Hin.
    { apply list_elem_of_filter. split; [done|]. apply elem_by_nonce; [apply Hok|]. destruct (proj1 (proj1 Hok) _ _ Ht) as [-> _]. done. }
    rewrite <- Hr in Hin. by apply elem_of_nil in Hin.
  - split; [done|]. by apply reheap_ok.
Qed.

(** [flatten] *)
Lemma map_flatten_spec m : sm_ok m -> (map_flatten m).1 = contents m /\ sm_ok (map_flatten m).2 /\ items (map_flatten m).2 = items m.
Proof.
  intros [Hix Hc]. unfold map_flatten. destruct (cache m) as [c|] eqn:E; simpl.
  - split; [by apply Hc|]. split; [|done]. split; [done|]. rewrite E. done.
  - assert (sort_txs (iter (items m)).*2 = by_nonce (items m)) as Hs.
    { apply by_nonce_perm; [apply Hix| |by apply StronglySorted_merge_sort; apply _]. unfold sort_txs. by rewrite merge_sort_Permutation, iter_values. }
    split; [done|]. split; [|done]. split; [done|]. simpl. intros c [= <-]. done.
Qed.

(** [Cap] *)
Lemma sort_index m idx : ix_ok m idx -> sort_nonces idx = Nonce <$> by_nonce m.
Proof.
  intros (Hk & Hp & _). apply (StronglySorted_unique Z.le); [by apply StronglySorted_merge_sort; apply _| |].
  - apply (StronglySorted_fmap Nonce nonce_le Z.le); [done|]. apply sorted_weaken, by_nonce_sorted, Hk.
  - unfold sort_nonces. rewrite merge_sort_Permutation, Hp. unfold by_nonce, sort_txs. rewrite merge_sort_Permutation, <- list_fmap_compose.
    erewrite (list_fmap_ext (Nonce ∘ snd) fst); [done|]. intros i [n t] E%list_elem_of_lookup_2%elem_of_map_to_list. simpl. by apply Hk in E as [? _].
Qed.

Lemma by_nonce_snoc (m : gmap Z Tx) s t : keyed m -> by_nonce m = s ++ [t] -> m !! Nonce t = Some t /\ by_nonce (delete (Nonce t) m) = s.
Proof.
  intros Hk E. pose proof (by_nonce_sorted m Hk) as Hs. split; [apply elem_by_nonce; [done|]; rewrite E; apply elem_of_app; right; by left|].
  rewrite by_nonce_delete, E by done. rewrite E in Hs. rewrite filter_app, filter_cons_False, app_nil_r by (intros Hn; by apply Hn).
  assert (forall x, x ∈ s -> Nonce x < Nonce t) as Hlt.
  { intros x Hx. eapply (StronglySorted_app_1_elem_of nonce_lt s [t]); [done|done|by left]. }
  clear -Hlt. induction s as [|x s IH]; [done|]. rewrite filter_cons_True by (specialize (Hlt x ltac:(by left)); lia). f_equal. apply IH. intros. apply Hlt. by right.
Qed.

Lemma cap_loop_spec count : forall s rest its drops, keyed its -> by_nonce its = s -> (count <= length s)%nat ->
  exists its', cap_loop count (zlen s) ((Nonce <$> s) ++ rest) its drops = Ok (drops ++ rev (drop (length s - count) s), its') /\
    keyed its' /\ by_nonce its' = take (length s - count) s.
Proof.
  induction count as [|count IH]; intros s rest its drops Hk E Hc; simpl.
  - exists its. rewrite Nat.sub_0_r, drop_all, take_ge by lia. simpl. by rewrite app_nil_r.
  - destruct s as [|t s _] using rev_ind; [simpl in Hc; lia|]. rewrite length_app in Hc. simpl in Hc.
    destruct (by_nonce_snoc _ _ _ Hk E) as [Ht Ed]. rewrite zlen_app, zlen_cons, zlen_nil. replace (zlen s + (1 + 0) - 1) with (zlen s) by lia.
    rewrite (nth_or_panic_at _ _ (Nonce t)); [|apply zlen_nonneg|].
    2:{ unfold zlen. rewrite Nat2Z.id, fmap_app, <- app_assoc. simpl. rewrite lookup_app_r by (rewrite length_fmap; lia). by rewrite length_fmap, Nat.sub_diag. }
    simpl. rewrite Ht. simpl. rewrite fmap_app, <- app_assoc. simpl.
    destruct (IH s (Nonce t :: rest) (delete (Nonce t) its) (drops ++ [t]) (keyed_delete _ _ Hk) Ed ltac:(lia)) as (its' & Ec & Hk' & E').
    rewrite Ec. exists its'. rewrite length_app. simpl. replace (length s + 1 - S count)%nat with (length s - count)%nat by lia. split.
    + rewrite drop_app_le by lia. rewrite rev_app_distr, <- app_assoc. done.
    + split; [done|]. by rewrite take_app_le by lia.
Qed.

Lemma map_Len_contents m : map_Len m = zlen (contents m).
Proof. unfold map_Len, zlen, contents. by rewrite length_by_nonce. Qed.

Lemma map_Cap_spec k m : sm_ok m -> exists m', map_Cap (Z.of_nat k) m = Ok ((Spec.cap k (contents m)).1, m') /\
  sm_ok m' /\ contents m' = (Spec.cap k (contents m)).2.
Proof.
  intros Hok. pose proof Hok as [Hix Hc]. unfold map_Cap. rewrite map_Len_contents. set (s := contents m). unfold Spec.cap.
  destruct (zlen s <=? Z.of_nat k) eqn:E; to_prop; unfold zlen in E.
  - rewrite drop_ge, take_ge by lia. eexists. done.
  - rewrite (sort_index _ _ Hix). change (by_nonce (items m)) with s. destruct (cap_loop_spec (length s - k) s [] (items m) [] (proj1 Hix) eq_refl ltac:(lia)) as (its' & Ec & Hk' & E').
    rewrite app_nil_r in Ec. replace (Z.to_nat (zlen s - Z.of_nat k)) with (length s - k)%nat by (unfold zlen; lia).
    rewrite Ec. replace (length s - (length s - k))%nat with k in * by lia. simpl.
    assert (slice (Nonce <$> s) 0 (Z.of_nat k) = Ok (Nonce <$> take k s)) as ->.
    { rewrite <- (take_drop k s) at 1. rewrite fmap_app. rewrite <- (slice_prefix (Nonce <$> take k s) (Nonce <$> drop k s)). f_equal.
      unfold zlen. rewrite length_fmap, length_take. lia. }
    simpl. destruct (Heap.Init_spec nonce_less (Nonce <$> take k s)) as [Hp Hh].
    assert (ix_ok its' (Heap.Init nonce_less (Nonce <$> take k s))) as Hix'.
    { split; [done|]. split; [|done]. rewrite Hp, <- E'. unfold by_nonce, sort_txs. rewrite merge_sort_Permutation, <- list_fmap_compose.
      erewrite (list_fmap_ext (Nonce ∘ snd) fst); [done|]. intros i [n t] E2%list_elem_of_lookup_2%elem_of_map_to_list. simpl. by apply Hk' in E2 as [? _]. }
    destruct (cache m) as [c|].
    + rewrite (Hc c eq_refl). assert (zlen s - zlen (rev (drop k s)) = zlen (take k s)) as Hz.
      { unfold zlen. rewrite length_rev, length_take, length_drop. lia. }
      change (by_nonce (items m)) with s. rewrite Hz. pose proof (slice_prefix (take k s) (drop k s)) as Hsl. rewrite take_drop in Hsl. rewrite Hsl. simpl.
      eexists. split; [done|]. split; [|done]. split; [done|]. simpl. intros c' [= <-]. done.
    + eexists. split; [done|]. split; [|done]. by split.
Qed.

(** [Remove] *)
Lemma index_of_spec n l : forall i, n ∈ l -> exists j, index_of i n l = Some (i + j)%nat /\ l !! j = Some n.
Proof.
  induction l as [|x l IH]; intros i; [by intros ?%elem_of_nil|]. intros Hin. simpl. destruct (x =? n) eqn:E; to_prop.
  - exists 0%nat. subst. rewrite Nat.add_0_r. done.
  - apply elem_of_cons in Hin as [->|Hin]; [done|]. destruct (IH (S i) Hin) as (j & -> & Hj). exists (S j). split; [f_equal; lia|done].
Qed.

Lemma map_Remove_spec n m : sm_ok m -> exists m', map_Remove n m = Ok (bool_decide (is_Some (items m !! n)), m') /\
  sm_ok m' /\ items m' = delete n (items m).
Proof.
  intros [Hix Hc]. unfold map_Remove. destruct (items m !! n) as [t|] eqn:E.
  - rewrite bool_decide_true by eauto. destruct (index_of_spec n (index m) 0) as (j & -> & Hj); [apply (elem_index _ _ _ Hix); eauto|]. simpl.
    pose proof Hix as (Hk & Hp & Hh). destruct (Heap.Remove_spec nonce_less j n (index m) Hh Hj) as (idx & -> & Hp' & Hh'). simpl.
    eexists. split; [done|]. split; [|done]. split; [|done]. simpl. split; [by apply keyed_delete|]. split; [|done].
    apply (inj (cons n)). rewrite <- Hp', Hp. by apply index_delete with t.
  - rewrite bool_decide_false by (by intros []). exists m. split; [done|]. split; [by split|]. by rewrite delete_id.
Qed.

(** [Ready] *)
Lemma ready_loop_spec fuel : forall next m idx ready, (length idx <= fuel)%nat -> ix_ok m idx -> is_u64 next ->
  exists m' idx', ready_loop fuel next m idx ready = Ok (ready ++ (Spec.run next (by_nonce m)).1, m', idx') /\
    ix_ok m' idx' /\ by_nonce m' = (Spec.run next (by_nonce m)).2.
Proof.
  induction fuel as [|fuel IH]; intros next m [|top idx] ready Hf Hix Hu; simpl in Hf; try lia;
    try (exists m, []; pose proof (ix_nil _ Hix) as ->; rewrite app_nil_r; done).
  cbn [ready_loop]. destruct (ix_pop _ _ _ Hix) as (t & idx' & Ht & Hn & Htu & Epop & Hix' & Hlen & E).
  rewrite E. cbn [Spec.run]. rewrite Hn. destruct (top =? next) eqn:En; to_prop.
  - subst next. rewrite Ht. simpl. rewrite Epop. simpl.
    destruct (IH (add64 top 1) _ idx' (ready ++ [t]) ltac:(lia) Hix' ltac:(apply add64_range)) as (m' & idx'' & -> & Hix'' & E').
    assert (Spec.run (add64 top 1) (by_nonce (delete top m)) = Spec.run (top + 1) (by_nonce (delete top m))) as Er.
    { destruct (decide (top + 1 < 2 ^ 64)); [unfold is_u64 in Htu; rewrite add64_small by lia; done|].
      destruct (by_nonce (delete top m)) as [|t' s'] eqn:Es; [done|]. exfalso.
      assert (t' ∈ by_nonce (delete top m)) as Ht' by (rewrite Es; by left).
      pose proof (by_nonce_sorted m (proj1 Hix)) as Hs. rewrite E, ?Es in Hs. apply StronglySorted_inv in Hs as [_ Hs]. apply Forall_cons in Hs as [Hs _].
      apply elem_by_nonce in Ht'; [|apply Hix']. apply (proj1 Hix') in Ht' as [_ Hu']. unfold nonce_lt, is_u64 in *. lia. }
    exists m', idx''. rewrite E', Er in *. destruct (Spec.run (top + 1) _) as [a b] eqn:Ea. simpl in *. by rewrite <- app_assoc.
  - exists m, (top :: idx). simpl. by rewrite app_nil_r.
Qed.

Lemma map_Ready_spec start m : sm_ok m -> exists m', map_Ready start m = Ok ((Spec.ready start (contents m)).1, m') /\
  sm_ok m' /\ contents m' = (Spec.ready start (contents m)).2.
Proof.
  intros Hok. pose proof Hok as [Hix Hc]. unfold map_Ready. destruct (index m) as [|top idx] eqn:Ei.
  - exists m. unfold contents. rewrite (ix_nil _ Hix). done.
  - destruct (ix_pop _ _ _ Hix) as (t & idx' & Ht & Hn & Htu & _ & _ & _ & E). unfold contents, Spec.ready. rewrite E, Hn, <- E.
    rewrite Z.gtb_ltb. destruct (start <? top) eqn:Es; to_prop.
    + rewrite (proj2 (Z.leb_gt top start)) by lia. exists m. by rewrite E.
    + rewrite (proj2 (Z.leb_le top start)) by lia. rewrite E. fold (by_nonce (items m)). rewrite <- E.
      destruct (ready_loop_spec (length (top :: idx)) top (items m) (top :: idx) [] ltac:(lia) Hix Htu) as (m' & idx'' & -> & Hix'' & E').
      simpl. eexists. split; [done|]. split; [|done]. by split.
Qed.

Lemma map_LastElement_spec m : sm_ok m -> items m <> ∅ -> exists t m', map_LastElement m = Ok (t, m') /\
  last (contents m) = Some t /\ sm_ok m' /\ items m' = items m.
Proof.
  intros Hok Hne. destruct (map_flatten_spec m Hok) as (Ec & Hok' & Hi). unfold map_LastElement. destruct (map_flatten m) as [c m']. simpl in *. subst c.
  assert (contents m <> []) as Hc by (unfold contents; by rewrite by_nonce_nil). remember (contents m) as u eqn:Eu. destruct u as [|t s _] using rev_ind; [done|].
  rewrite (nth_or_panic_at _ _ t).
  - simpl. exists t, m'. by rewrite last_snoc.
  - unfold zlen. rewrite length_app. simpl. lia.
  - unfold zlen. rewrite length_app. simpl. replace (Z.to_nat _) with (length s) by lia. rewrite lookup_app_r by lia. by rewrite Nat.sub_diag.
Qed.

(** ** Lists of transactions *)

(** The caps bound the costs and the gas of all transactions. *)
Definition l_ok (l : txList) : Prop :=
  sm_ok (txs l) /\ Forall (fun t => TxCost t <= costcap l /\ Gas t <= gascap l) (contents (txs l)).
Definition l_items (l : txList) : gmap Z Tx := items (txs l).
Definition l_contents (l : txList) : list Tx := contents (txs l).

Lemma l_keyed l : l_ok l -> keyed (l_items l).
Proof. intros [[[Hk _] _] _]. exact Hk. Qed.
Lemma l_sorted l : l_ok l -> StronglySorted nonce_lt (l_contents l).
Proof. intros Hl. apply by_nonce_sorted, l_keyed, Hl. Qed.
Lemma elem_contents l t : l_ok l -> t ∈ l_contents l <-> l_items l !! Nonce t = Some t.
Proof. intros Hl. apply elem_by_nonce, l_keyed, Hl. Qed.

Lemma newTxList_ok b : l_ok (newTxList b).
Proof. split; [apply new_ok|]. unfold contents. simpl. by rewrite by_nonce_empty. Qed.

Lemma Len_spec l : Len l = zlen (l_contents l).
Proof. apply map_Len_contents. Qed.
Lemma Empty_spec l : Empty l = bool_decide (l_items l = ∅).
Proof.
  unfold Empty, Len, map_Len, l_items. destruct (decide (items (txs l) = ∅)) as [->|Hne]; [done|].
  rewrite bool_decide_false by done. apply Z.eqb_neq. intros E. apply Hne, map_size_empty_iff. lia.
Qed.

(** A list of the same caps whose transactions were all there before. *)
Lemma l_ok_sub l m : l_ok l -> sm_ok m -> (forall t, t ∈ contents m -> t ∈ l_contents l) -> l_ok (with_txs m l).
Proof. intros [_ Hf] Hm Hsub. split; [done|]. simpl. rewrite Forall_forall in *. intros t Ht. apply Hf, Hsub, Ht. Qed.

Lemma Add_spec t pb l : l_ok l -> is_u64 (Nonce t) ->
  let '(inserted, old, l') := Add t pb l in
  l_ok l' /\ strict l' = strict l /\
  (if inserted : bool
   then old = l_items l !! Nonce t /\ l_items l' = <[Nonce t := t]> (l_items l) /\ l_contents l' = Spec.put t (l_contents l) /\
        (forall o, old = Some o -> underpriced o t pb = false)
   else old = None /\ l' = l /\ exists o, l_items l !! Nonce t = Some o /\ underpriced o t pb = true).
Proof.
  intros [Hok Hf] Hu. unfold Add, map_Get. destruct (match items (txs l) !! Nonce t with Some _ => _ | None => _ end) eqn:E.
  - split; [by split|]. split; [done|]. split; [done|]. split; [done|].
    unfold l_items. destruct (items (txs l) !! Nonce t) as [o|]; [by exists o|done].
  - split.
    + split; [by apply put_ok|]. simpl. rewrite put_contents by done. apply Forall_forall. intros x Hx.
      assert (x = t \/ x ∈ contents (txs l)) as [->|Hin].
      { unfold Spec.put in Hx. rewrite elem_of_app, elem_of_cons, !list_elem_of_filter in Hx. tauto. }
      * repeat zcase; lia.
      * rewrite Forall_forall in Hf. specialize (Hf x Hin). repeat zcase; lia.
    + split; [done|]. split; [done|]. split; [done|]. split; [by apply put_contents|]. unfold l_items. intros o Ho. by rewrite Ho in E.
Qed.

Lemma Forward_spec th l : l_ok l -> exists l', Forward th l = Ok ((Spec.forward th (l_contents l)).1, l') /\
  l_ok l' /\ strict l' = strict l /\ l_contents l' = (Spec.forward th (l_contents l)).2.
Proof.
  intros Hl. pose proof Hl as [Hok _]. destruct (map_Forward_spec th (txs l) Hok) as (m' & E & Hok' & Ec). unfold Forward. rewrite E. simpl.
  eexists. split; [done|]. split; [|by split]. apply l_ok_sub; [done|done|]. rewrite Ec. intros t Ht. by apply list_elem_of_filter in Ht as [_ Ht].
Qed.

Lemma Cap_spec k l : l_ok l -> exists l', Cap (Z.of_nat k) l = Ok ((Spec.cap k (l_contents l)).1, l') /\
  l_ok l' /\ strict l' = strict l /\ l_contents l' = (Spec.cap k (l_contents l)).2.
Proof.
  intros Hl. pose proof Hl as [Hok _]. destruct (map_Cap_spec k (txs l) Hok) as (m' & E & Hok' & Ec). unfold Cap. rewrite E. simpl.
  eexists. split; [done|]. split; [|by split]. apply l_ok_sub; [done|done|]. rewrite Ec. intros t Ht. unfold l_contents. rewrite <- (take_drop k (contents (txs l))). apply elem_of_app. by left.
Qed.

Lemma run_split (s : list Tx) : forall next, s = (Spec.run next s).1 ++ (Spec.run next s).2.
Proof. induction s as [|t s IH]; intros next; simpl; [done|]. destruct (_ =? _); [|done]. specialize (IH (next + 1)). destruct (Spec.run _ _). simpl in *. by f_equal. Qed.
Lemma ready_split start (s : list Tx) : s = (Spec.ready start s).1 ++ (Spec.ready start s).2.
Proof. unfold Spec.ready. destruct s as [|t s]; [done|]. destruct (_ <=? _); [apply run_split|done]. Qed.

Lemma Ready_spec start l : l_ok l -> exists l', Ready start l = Ok ((Spec.ready start (l_contents l)).1, l') /\
  l_ok l' /\ strict l' = strict l /\ l_contents l' = (Spec.ready start (l_contents l)).2.
Proof.
  intros Hl. pose proof Hl as [Hok _]. destruct (map_Ready_spec start (txs l) Hok) as (m' & E & Hok' & Ec). unfold Ready. rewrite E. simpl.
  eexists. split; [done|]. split; [|by split]. apply l_ok_sub; [done|done|]. rewrite Ec. intros t Ht. unfold l_contents. rewrite (ready_split start (contents (txs l))).
  apply elem_of_app. by right.
Qed.

Lemma Flatten_spec l : l_ok l -> (Flatten l).1 = l_contents l /\ l_ok (Flatten l).2 /\ strict (Flatten l).2 = strict l /\ l_items (Flatten l).2 = l_items l.
Proof.
  intros Hl. pose proof Hl as [Hok _]. destruct (map_flatten_spec (txs l) Hok) as (E & Hok' & Ei). unfold Flatten, map_Flatten.
  destruct (map_flatten (txs l)) as [c m]. simpl in *. split; [done|]. split; [|by split]. apply l_ok_sub; [done|done|]. unfold contents. by rewrite Ei.
Qed.

Lemma LastElement_spec l : l_ok l -> l_items l <> ∅ -> exists t l', LastElement l = Ok (t, l') /\ last (l_contents l) = Some t /\
  l_ok l' /\ strict l' = strict l /\ l_items l' = l_items l.
Proof.
  intros Hl Hne. pose proof Hl as [Hok _]. destruct (map_LastElement_spec (txs l) Hok Hne) as (t & m' & E & Ela & Hok' & Ei). unfold LastElement. rewrite E. simpl.
  eexists _, _. split; [done|]. split; [done|]. split; [|by split]. apply l_ok_sub; [done|done|]. unfold contents. by rewrite Ei.
Qed.

(** [Remove]: of a strict list everything after the nonce goes too. *)
Lemma list_Remove_spec t l : l_ok l -> exists invalids l', Remove t l = Ok (bool_decide (is_Some (l_items l !! Nonce t)), invalids, l') /\
  l_ok l' /\ strict l' = strict l /\
  let rest := Spec.remove (Nonce t) (l_contents l) in
  if strict l && bool_decide (is_Some (l_items l !! Nonce t))
  then invalids ≡ₚ filter (fun x => Nonce t < Nonce x) rest /\ l_contents l' = filter (fun x => Nonce x < Nonce t) rest
  else invalids = [] /\ l_contents l' = rest.
Proof.
  intros Hl. pose proof Hl as [Hok _]. destruct (map_Remove_spec (Nonce t) (txs l) Hok) as (m' & E & Hok' & Ei). unfold Remove. rewrite E. cbn [mbind res_bind].
  fold (l_items l). assert (contents m' = Spec.remove (Nonce t) (l_contents l)) as Ec.
  { unfold contents. rewrite Ei. by apply by_nonce_delete, l_keyed. }
  assert (forall x, x ∈ contents m' -> x ∈ l_contents l) as Hsub by (intros x; rewrite Ec; by intros [_ ?]%list_elem_of_filter).
  destruct (bool_decide (is_Some (l_items l !! Nonce t))) eqn:Eb; cbn [negb].
  - destruct (strict l) eqn:Es; cbn [andb].
    + destruct (map_Filter_spec (fun tx => Nonce tx >? Nonce t) m' Hok') as (Hr & Hc & Hok2).
      destruct (map_Filter _ m') as [invalids m2]. simpl in *. eexists _, _. split; [done|]. split.
      * apply l_ok_sub; [done|done|]. intros x. rewrite Hc. intros [_ Hx]%list_elem_of_filter. by apply Hsub.
      * split; [done|]. rewrite Hr, Ec. split.
        -- erewrite list_filter_iff; [done|]. intros x. simpl. rewrite Z.gtb_ltb, Z.ltb_lt. done.
        -- unfold l_contents. simpl. rewrite Hc. unfold Spec.keep. rewrite Ec. unfold Spec.remove. rewrite !list_filter_filter.
           apply list_filter_iff. intros x. simpl. rewrite Z.gtb_ltb, Z.ltb_ge. lia.
    + eexists _, _. split; [done|]. split; [by apply l_ok_sub|]. split; done.
  - rewrite andb_false_r. eexists _, _. split; [done|]. split; [by apply l_ok_sub|]. split; done.
Qed.

(** [Filter] *)
Lemma lowest_nonce_spec (l : list Tx) : l <> [] -> Forall (fun t => Nonce t <= MaxUint64) l ->
  (exists t, t ∈ l /\ lowest_nonce l = Nonce t) /\ Forall (fun t => lowest_nonce l <= Nonce t) l.
Proof.
  intros Hne Hmax. unfold lowest_nonce.
  assert (forall l lo, let r := fold_left (fun lowest tx => if lowest >? Nonce tx then Nonce tx else lowest) l lo in
    (r = lo \/ exists t, t ∈ l /\ r = Nonce t) /\ r <= lo /\ Forall (fun t => r <= Nonce t) l) as Hfold.
  { clear. induction l as [|t l IH]; intros lo; simpl; [split; [by left|]; split; [lia|constructor]|]. destruct (lo >? Nonce t) eqn:E; to_prop.
    - destruct (IH (Nonce t)) as ([->|(t' & Ht' & ->)] & Hle & Hf).
      + split; [right; exists t; split; [by left|done]|]. split; [lia|]. by constructor.
      + split; [right; exists t'; split; [by right|done]|]. split; [lia|]. by constructor.
    - destruct (IH lo) as ([E1|(t' & Ht' & E1)] & Hle & Hf); rewrite E1 in *.
      + split; [by left|]. split; [lia|]. constructor; [lia|done].
      + split; [right; exists t'; split; [by right|done]|]. split; [lia|]. constructor; [lia|done]. }
  destruct (Hfold l MaxUint64) as ([E|Hex] & Hle & Hf); [|by split]. split; [|done].
  destruct l as [|t l]; [done|]. exists t. split; [by left|]. apply Forall_cons in Hf as [Hf _], Hmax as [Hm _]. rewrite E in *. simpl in *. lia.
Qed.

Lemma before_split f (s : list Tx) : Forall (fun t => f t = false) s /\ Spec.before f s = s \/
  exists b q, s = Spec.before f s ++ b :: q /\ f b = true /\ Forall (fun t => f t = false) (Spec.before f s).
Proof.
  induction s as [|t s IH]; simpl; [left; split; [constructor|done]|]. destruct (f t) eqn:E.
  - right. exists t, s. done.
  - destruct IH as [[Hf ->]|(b & q & E2 & Hb & Hf)]; [left; split; [by constructor|done]|]. right. exists b, q. simpl. split; [by rewrite E2 at 1|]. split; [done|]. by constructor.
Qed.

Lemma filter_all (P : Tx -> Prop) `{forall t, Decision (P t)} s : Forall P s -> filter P s = s.
Proof. induction 1 as [|t s Ht _ IH]; [done|]. rewrite filter_cons_True by done. by f_equal. Qed.
Lemma filter_nothing (P : Tx -> Prop) `{forall t, Decision (P t)} s : Forall (fun t => ~ P t) s -> filter P s = [].
Proof. induction 1 as [|t s Ht _ IH]; [done|]. by rewrite filter_cons_False by done. Qed.

(** Of a strict list what comes before the first unpayable transaction stays. *)
Lemma keep_below_lowest f (s removed : list Tx) : StronglySorted nonce_lt s -> Forall (fun t => Nonce t <= MaxUint64) s -> removed <> [] ->
  removed ≡ₚ filter (fun t => f t = true) s ->
  Spec.keep (fun t => Nonce t >? lowest_nonce removed) (Spec.keep f s) = Spec.before f s.
Proof.
  intros Hs Hmax Hne Hr. destruct (lowest_nonce_spec removed Hne) as [(lo & Hlo & Elo) Hlow].
  { rewrite Hr. apply Forall_forall. intros t [_ Ht]%list_elem_of_filter. rewrite Forall_forall in Hmax. by apply Hmax. }
  destruct (before_split f s) as [[Hf _]|(b & q & E & Hb & Hf)].
  { destruct Hne. apply Permutation_nil_r. rewrite Hr. rewrite filter_nothing; [done|]. eapply Forall_impl; [done|]. simpl. congruence. }
  assert (lowest_nonce removed = Nonce b) as El.
  { assert (b ∈ removed) as Hbin.
    { rewrite Hr. apply list_elem_of_filter. split; [done|]. rewrite E. apply elem_of_app. right. by left. }
    rewrite Forall_forall in Hlow. specialize (Hlow b Hbin). rewrite Hr in Hlo. apply list_elem_of_filter in Hlo as [Hlo1 Hlo2].
    rewrite E in Hlo2, Hs. apply elem_of_app in Hlo2 as [Hin|[->|Hin]%elem_of_cons]; [|done|].
    - rewrite Forall_forall in Hf. specialize (Hf lo Hin). simpl in Hf. congruence.
    - apply StronglySorted_app_1_r in Hs. apply StronglySorted_inv in Hs as [_ Hs]. rewrite Forall_forall in Hs. specialize (Hs lo Hin). unfold nonce_lt in Hs. lia. }
  rewrite El. rewrite E in Hs. remember (Spec.before f s) as p eqn:Ep. rewrite E. unfold Spec.keep. rewrite filter_app, filter_cons_False by congruence.
  rewrite filter_app, (filter_all _ p) by done. rewrite (filter_all _ p), (filter_nothing _ (filter _ q)).
  - by rewrite app_nil_r.
  - apply Forall_forall. intros x [_ Hx]%list_elem_of_filter. apply StronglySorted_app_1_r, StronglySorted_inv in Hs as [_ Hs]. rewrite Forall_forall in Hs.
    specialize (Hs x Hx). unfold nonce_lt in Hs. rewrite Z.gtb_ltb, Z.ltb_ge. lia.
  - apply Forall_forall. intros x Hx. pose proof (StronglySorted_app_1_elem_of nonce_lt p (b :: q) x b Hs Hx ltac:(by left)) as Hlt.
    unfold nonce_lt in Hlt. rewrite Z.gtb_ltb, Z.ltb_ge. lia.
Qed.

Lemma keep_partition f (s : list Tx) : filter (fun t => f t = true) s ++ Spec.keep f s ≡ₚ s.
Proof.
  unfold Spec.keep. induction s as [|t s IH]; [done|]. rewrite !filter_cons. destruct (f t) eqn:E.
  - rewrite decide_True, decide_False by done. simpl. by rewrite IH.
  - rewrite decide_False, decide_True by done. rewrite <- Permutation_middle. by rewrite IH.
Qed.

Definition unpayable (costLimit gasLimit : Z) (t : Tx) : bool := (Gas t >? gasLimit) || (TxCost t >? costLimit).

Lemma contents_u64 m : keyed (items m) -> Forall (fun t => Nonce t <= MaxUint64) (contents m).
Proof. intros Hk. apply Forall_forall. intros t Ht%elem_by_nonce; [|done]. apply Hk in Ht as [_ Hu]. unfold is_u64, MaxUint64 in *. lia. Qed.

(** The short cut over the caps changes nothing: [Filter] removes what cannot be
    paid, and from a strict list everything from the first such transaction on. *)
Lemma Filter_spec cl gl l : l_ok l -> let '(removed, invalids, l') := Filter cl gl l in
  l_ok l' /\ strict l' = strict l /\
  removed ≡ₚ filter (fun t => unpayable cl gl t = true) (l_contents l) /\
  removed ++ invalids ++ l_contents l' ≡ₚ l_contents l /\
  l_contents l' = (if strict l then Spec.before else Spec.keep) (unpayable cl gl) (l_contents l).
Proof.
  intros Hl. pose proof Hl as [Hok Hcaps]. unfold Filter. destruct ((costcap l <=? cl) && (gascap l <=? gl)) eqn:Ec; to_prop.
  - assert (Forall (fun t => unpayable cl gl t = false) (l_contents l)) as Hno.
    { eapply Forall_impl; [done|]. intros t [? ?]. unfold unpayable. rewrite !Z.gtb_ltb, (proj2 (Z.ltb_ge gl _)), (proj2 (Z.ltb_ge cl _)) by lia. done. }
    split; [done|]. split; [done|]. split; [rewrite filter_nothing; [done|]; eapply Forall_impl; [done|]; simpl; congruence|]. split; [done|].
    destruct (strict l); [|symmetry; by apply filter_all]. destruct (before_split (unpayable cl gl) (l_contents l)) as [[_ ->]|(b & q & E & Hb & _)]; [done|].
    rewrite E in Hno. apply Forall_app in Hno as [_ Hno]. apply Forall_cons in Hno as [Hno _]. congruence.
  - destruct (map_Filter_spec (unpayable cl gl) (txs l) Hok) as (Hr & Hc & Hok1). change (fun tx => (Gas tx >? gl) || (TxCost tx >? cl)) with (unpayable cl gl).
    destruct (map_Filter (unpayable cl gl) (txs l)) as [removed m1]. cbn [fst snd] in Hr, Hc, Hok1. fold (l_contents l) in Hr, Hc.
    assert (Forall (fun t => TxCost t <= cl /\ Gas t <= gl) (contents m1)) as Hcaps1.
    { rewrite Hc. apply Forall_forall. intros t [Ht _]%list_elem_of_filter. unfold unpayable in Ht. to_prop. lia. }
    assert (removed ++ contents m1 ≡ₚ l_contents l) as Hpart.
    { rewrite Hr, Hc. apply keep_partition. }
    assert (removed = [] -> Spec.before (unpayable cl gl) (l_contents l) = l_contents l /\ contents m1 = l_contents l) as Hnone.
    { intros ->. apply Permutation_nil_l in Hr. split; [|rewrite Hc; by apply filter_none].
      destruct (before_split (unpayable cl gl) (l_contents l)) as [[_ ->]|(b & q & E & Hb & _)]; [done|].
      assert (b ∈ filter (fun t => unpayable cl gl t = true) (l_contents l)) as Hin; [|rewrite <- Hr in Hin; by apply elem_of_nil in Hin].
      apply list_elem_of_filter. split; [done|]. rewrite E. apply elem_of_app. right. by left. }
    case_decide as Hd.
    + destruct (Hnone Hd) as [H1 H2]. subst removed. split; [by split|]. split; [done|]. split; [by rewrite <- Hr|]. unfold l_contents in *. simpl. rewrite H2 in *.
      split; [done|]. destruct (strict l); congruence.
    + cbn [strict txs]. destruct (strict l) eqn:Es.
      * destruct (map_Filter_spec (fun tx => Nonce tx >? lowest_nonce removed) m1 Hok1) as (Hr2 & Hc2 & Hok2).
        destruct (map_Filter _ m1) as [invalids m2]. cbn [fst snd] in *.
        pose proof (reheap_ok m2 (proj1 (proj1 Hok2))) as Hok3.
        assert (contents m2 = Spec.before (unpayable cl gl) (l_contents l)) as Hfin.
        { rewrite Hc2, Hc. apply keep_below_lowest; [by apply l_sorted|by apply contents_u64, l_keyed|done|done]. }
        split.
        { split; [done|]. cbn [with_txs costcap gascap txs]. change (contents (map_reheap m2)) with (contents m2). rewrite Hc2. apply Forall_forall.
          intros t [_ Ht]%list_elem_of_filter. rewrite Forall_forall in Hcaps1. by apply Hcaps1. }
        split; [done|]. split; [done|]. change (l_contents (with_txs (map_reheap m2) _)) with (contents m2). split; [|done].
        rewrite <- Hpart. f_equiv. rewrite Hr2, Hc2. apply keep_partition.
      * pose proof (reheap_ok m1 (proj1 (proj1 Hok1))) as Hok3. split; [by split|]. split; [done|]. split; [done|]. split; done.
Qed.
End orders.
End TxListSpec.
