(* ===== verification/TxListTheorems.v ===== *)
(** * Lists of transactions refine sorted lists: the theorem

    Operations on a [txList] in any sequence, each with its own order of map
    iteration, against operations on a plain list sorted by nonce. *)

From stdpp Require Import sorting.
From S2P Require Import Prelude Config Common Rlp EvmState Transaction Heap TxList TxListSpec.

Local Open Scope Z_scope.

Module TxListTheorems.

Import TxList TxListSpec.

Inductive lop :=
| OAdd (t : Tx) (priceBump : Z)
| OForward (threshold : Z)
| OFilter (costLimit gasLimit : Z)
| OCap (threshold : nat)
| ORemove (t : Tx)
| OReady (start : Z)
| OFlatten.

(** What an operation returns. *)
Inductive lout :=
| RAdded (inserted : bool) (old : option Tx)
| RTxs (l : list Tx)
| RFiltered (removed invalids : list Tx)
| RRemoved (found : bool) (invalids : list Tx).

Definition exec (o : MapOrder) (op : lop) (l : txList) : res (lout * txList) :=
  match op with
  | OAdd t pb => let '(b, old, l) := Add t pb l in Ok (RAdded b old, l)
  | OForward th => '(r, l) ← Forward th l; Ok (RTxs r, l)
  | OFilter c g => let '(r, i, l) := Filter c g l in Ok (RFiltered r i, l)
  | OCap k => '(r, l) ← Cap (Z.of_nat k) l; Ok (RTxs r, l)
  | ORemove t => '(b, i, l) ← Remove t l; Ok (RRemoved b i, l)
  | OReady s => '(r, l) ← Ready s l; Ok (RTxs r, l)
  | OFlatten => let '(r, l) := Flatten l in Ok (RTxs r, l)
  end.

Fixpoint execs (ops : list (MapOrder * lop)) (l : txList) : res (list lout * txList) :=
  match ops with
  | [] => Ok ([], l)
  | (o, op) :: ops => '(r, l) ← exec o op l; '(rs, l) ← execs ops l; Ok (r :: rs, l)
  end.

(** The same on a list sorted by nonce; what [Filter] and [Remove] return comes in
    any order. *)
Definition at_nonce (n : Z) (s : list Tx) : option Tx := head (filter (fun t => Nonce t = n) s).

Definition astep (strict : bool) (op : lop) (s : list Tx) (r : lout) (s' : list Tx) : Prop :=
  match op, r with
  | OAdd t pb, RAdded inserted old =>
    match at_nonce (Nonce t) s with
    | Some o => if underpriced o t pb then inserted = false /\ old = None /\ s' = s else inserted = true /\ old = Some o /\ s' = Spec.put t s
    | None => inserted = true /\ old = None /\ s' = Spec.put t s
    end
  | OForward th, RTxs l => Spec.forward th s = (l, s')
  | OFilter c g, RFiltered removed invalids =>
    removed ≡ₚ filter (fun t => unpayable c g t = true) s /\ removed ++ invalids ++ s' ≡ₚ s /\
    s' = (if strict then Spec.before else Spec.keep) (unpayable c g) s
  | OCap k, RTxs l => Spec.cap k s = (l, s')
  | ORemove t, RRemoved found invalids =>
    found = bool_decide (is_Some (at_nonce (Nonce t) s)) /\
    if strict && found
    then s' = filter (fun x => Nonce x < Nonce t) s /\ invalids ≡ₚ filter (fun x => Nonce t < Nonce x) s
    else s' = Spec.remove (Nonce t) s /\ invalids = []
  | OReady st, RTxs l => Spec.ready st s = (l, s')
  | OFlatten, RTxs l => l = s /\ s' = s
  | _, _ => False
  end.

Inductive asteps (strict : bool) : list lop -> list Tx -> list lout -> list Tx -> Prop :=
| asteps_nil s : asteps strict [] s [] s
| asteps_cons op ops s r s1 rs s2 : astep strict op s r s1 -> asteps strict ops s1 rs s2 -> asteps strict (op :: ops) s (r :: rs) s2.

Definition op_ok (op : lop) : Prop := match op with OAdd t _ => is_u64 (Nonce t) | _ => True end.

Lemma at_nonce_lookup l n : l_ok l -> at_nonce n (l_contents l) = l_items l !! n.
Proof.
  intros Hl. unfold at_nonce. destruct (filter _ _) as [|t s] eqn:E; simpl.
  - destruct (l_items l !! n) as [t|] eqn:Et; [|done]. exfalso. destruct (l_keyed l Hl _ _ Et) as [<- _].
    assert (t ∈ filter (fun x => Nonce x = Nonce t) (l_contents l)) as Hin by (apply list_elem_of_filter; split; [done|by apply elem_contents]).
    rewrite E in Hin. by apply elem_of_nil in Hin.
  - assert (t ∈ filter (fun x => Nonce x = n) (l_contents l)) as Hin by (rewrite E; by left).
    apply list_elem_of_filter in Hin as [<- Hin]. symmetry. by apply elem_contents.
Qed.

Lemma exec_spec o op l : l_ok l -> op_ok op -> exists r l', exec o op l = Ok (r, l') /\ l_ok l' /\ strict l' = strict l /\
  astep (strict l) op (l_contents l) r (l_contents l').
Proof.
  intros Hl Hop. destruct op as [t pb|th|c g|k|t|st|]; cbn [exec op_ok] in *.
  - pose proof (Add_spec t pb l Hl Hop) as Ha. destruct (Add t pb l) as [[b old] l']. destruct Ha as (Hl' & Hs & Ha).
    eexists _, _. split; [done|]. split; [done|]. split; [done|]. cbn [astep]. rewrite at_nonce_lookup by done. destruct b.
    + destruct Ha as (-> & _ & -> & Hu). destruct (l_items l !! Nonce t) as [x|]; [by rewrite (Hu x eq_refl)|done].
    + destruct Ha as (-> & -> & x & -> & ->). done.
  - destruct (Forward_spec th l Hl) as (l' & -> & Hl' & Hs & E). eexists _, _. split; [done|]. split; [done|]. split; [done|].
    cbn [astep]. rewrite E. by destruct (Spec.forward th (l_contents l)).
  - pose proof (Filter_spec c g l Hl) as Hf. destruct (Filter c g l) as [[r i] l']. destruct Hf as (Hl' & Hs & Hr & Hp & E). eexists _, _. done.
  - destruct (Cap_spec k l Hl) as (l' & -> & Hl' & Hs & E). eexists _, _. split; [done|]. split; [done|]. split; [done|]. cbn [astep]. by rewrite E.
  - destruct (list_Remove_spec t l Hl) as (i & l' & -> & Hl' & Hs & E). eexists _, _. split; [done|]. split; [done|]. split; [done|].
    cbn [astep]. rewrite at_nonce_lookup by done. split; [done|]. cbn zeta in E. destruct (strict l && _); destruct E as [E1 E2]; [|done].
    rewrite E2. unfold Spec.remove in *. rewrite list_filter_filter in E1 |- *. split.
    + apply list_filter_iff. intros x. lia.
    + rewrite E1. erewrite list_filter_iff; [done|]. intros x. simpl. lia.
  - destruct (Ready_spec st l Hl) as (l' & -> & Hl' & Hs & E). eexists _, _. split; [done|]. split; [done|]. split; [done|].
    cbn [astep]. rewrite E. by destruct (Spec.ready st (l_contents l)).
  - destruct (Flatten_spec l Hl) as (E & Hl' & Hs & Ei). destruct (Flatten l) as [r l']. simpl in *. eexists _, _. split; [done|]. split; [done|]. split; [done|].
    unfold l_contents, contents in *. unfold l_items in Ei. rewrite Ei. done.
Qed.

Lemma execs_spec ops : forall l, l_ok l -> Forall op_ok ops.*2 -> exists rs l', execs ops l = Ok (rs, l') /\ l_ok l' /\ strict l' = strict l /\
  asteps (strict l) ops.*2 (l_contents l) rs (l_contents l').
Proof.
  induction ops as [|[o op] ops IH]; intros l Hl Hops; cbn [execs fmap list_fmap snd].
  - eexists _, _. split; [done|]. split; [done|]. split; [done|constructor].
  - apply Forall_cons in Hops as [Hop Hops]. destruct (exec_spec o op l Hl Hop) as (r & l1 & -> & Hl1 & Hs1 & Ha). simpl.
    destruct (IH l1 Hl1 Hops) as (rs & l2 & -> & Hl2 & Hs2 & Has). simpl. eexists _, _. split; [done|]. split; [done|]. split; [congruence|].
    econstructor; [done|]. by rewrite <- Hs1.
Qed.

(** C34: The list of the transactions of an account ([txList] over
    [txSortedMap], with its heap of nonces, its cache of the sorted transactions
    and its cost and gas caps) implements a plain list sorted by nonce.  Any
    sequence of operations on a new list, whatever the orders of map iteration,
    returns without a panic, and every result is the one of the abstract list:
    [Add] replaces a transaction of the same nonce only for a sufficient price,
    [Forward] takes the low nonces off, [Filter] the unpayable transactions (of a
    strict list everything from the first unpayable one on), [Cap] the highest
    nonces, [Flatten] is the sorted list.  [Ready] takes the run of nonces without a
    gap that begins at the lowest one, if that is not above the start: what the code
    does, and not all that its comment says, which promises every nonce below the
    start, also behind a gap. *)
Theorem tx_list_refines_sorted_list (b : bool) (ops : list (MapOrder * lop)) : Forall op_ok ops.*2 ->
  exists rs l, execs ops (newTxList b) = Ok (rs, l) /\ asteps b ops.*2 [] rs (l_contents l) /\ l_ok l.
Proof.
  intros Hops. destruct (execs_spec ops (newTxList b) (newTxList_ok b) Hops) as (rs & l & E & Hl & _ & Ha). exists rs, l. done.
Qed.

(** ** A concrete run *)

Definition plain_order : MapOrder := {| iter V m := map_to_list m; iter_perm V m := reflexivity _ |}.
Definition reverse_order : MapOrder.
Proof. refine {| iter V m := rev (map_to_list m) |}. intros V m. symmetry. apply Permutation_rev. Defined.

(** A transaction of account 7 with a nonce, a price and a gas limit. *)
Definition sample (n price g : Z) : Tx :=
  mkTx (Transaction.LegacyTx n price g (Some 9) 0 [] 0 0 0) 0 (1000 * n + price) 100 (Some 7).

Definition sample_ops : list (MapOrder * lop) :=
  [(plain_order, OAdd (sample 3 10 21000) 10); (plain_order, OAdd (sample 1 10 21000) 10); (reverse_order, OAdd (sample 2 10 50000) 10);
   (plain_order, OAdd (sample 3 10 30000) 10); (plain_order, OAdd (sample 3 11 30000) 10); (reverse_order, OFlatten);
   (reverse_order, OFilter 400000 40000); (plain_order, OReady 1)].

(** [Ready] stops at a gap below its start: of the nonces 1 and 3, both below 5, it
    returns 1 and keeps 3. *)
Example ready_stops_at_gap :
  match execs [(plain_order, OAdd (sample 1 10 21000) 10); (plain_order, OAdd (sample 3 10 21000) 10); (plain_order, OReady 5)] (newTxList true) with
  | Ok (rs, l) => last rs = Some (RTxs [sample 1 10 21000]) /\ l_contents l = [sample 3 10 21000]
  | _ => False
  end.
Proof. vm_compute. split; reflexivity. Qed.

Lemma tx_list_refines_sorted_list_witness : exists rs l, execs sample_ops (newTxList true) = Ok (rs, l) /\
  asteps true sample_ops.*2 [] rs (l_contents l) /\
  rs = [RAdded true None; RAdded true None; RAdded true None; RAdded false None; RAdded true (Some (sample 3 10 21000));
        RTxs [sample 1 10 21000; sample 2 10 50000; sample 3 11 30000];
        RFiltered [sample 2 10 50000] [sample 3 11 30000]; RTxs [sample 1 10 21000]].
Proof.
  destruct (tx_list_refines_sorted_list true sample_ops) as (rs & l & E & Ha & _).
  - repeat (constructor; [cbn; unfold is_u64; first [lia | exact I]|]). constructor.
  - exists rs, l. split; [exact E|]. split; [exact Ha|].
    assert (execs sample_ops (newTxList true) = Ok (rs, l)) as E2 by exact E. vm_compute in E2. injection E2 as <- _. vm_compute. reflexivity.
Defined.
End TxListTheorems.
