(* ===== verification/TxOrder.v ===== *)
(** * The order of transactions in a block ([blockchain/model/transaction.go]:
    [TransactionsByPriceAndNonce])

    The miner takes the transactions of the accounts from a heap of the next
    transaction of every account, by the fee it gets and the time the transaction
    was seen.  The sender is the one of the pool's signer, kept in the transaction;
    one that cannot be recovered reads as the zero address. *)

From S2P Require Import Prelude Config Common Rlp EvmState Transaction Heap TxList TxListSpec TxListTheorems.

Local Open Scope Z_scope.

Module TxOrder.

Import TxList.

Record TxWithMinerFee := mkFee { fee_tx : Tx; minerFee : Z }.
#[export] Instance TxWithMinerFee_inhabited : Inhabited TxWithMinerFee := populate (mkFee inhabitant 0).

(** [NewTxWithMinerFee]; nothing on an error. *)
Definition NewTxWithMinerFee (tx : Tx) (baseFee : option Z) : option TxWithMinerFee :=
  match Transaction.EffectiveGasTip (tx_data tx) baseFee with
  | (fee, None) => Some (mkFee tx fee)
  | (_, Some _) => None
  end.

(** [TxByPriceAndTime.Less] *)
Definition fee_less (a b : TxWithMinerFee) : bool :=
  match minerFee a ?= minerFee b with
  | Eq => tx_time (fee_tx a) <? tx_time (fee_tx b)
  | Gt => true
  | Lt => false
  end.

Record TransactionsByPriceAndNonce := mkByPrice {
  acc_txs : gmap Address (list Tx);
  heads : list TxWithMinerFee;
  baseFee : option Z;
}.

Definition sender (tx : Tx) : Address := default 0 (tx_from tx).

(** The body of the loop of [NewTransactionsByPriceAndNonce]. *)
Definition head_of (bf : option Z) (kv : Address * list Tx) (st : gmap Address (list Tx) * list TxWithMinerFee)
    : res (gmap Address (list Tx) * list TxWithMinerFee) :=
  let '(from, accTxs) := kv in
  let '(m, hs) := st in
  match accTxs with
  | [] => Panic PanicIndex
  | tx :: rest =>
    match NewTxWithMinerFee tx bf with
    | Some wrapped => if negb (sender tx =? from) then Ok (delete from m, hs) else Ok (<[from := rest]> m, hs ++ [wrapped])
    | None => Ok (delete from m, hs)
    end
  end.

Fixpoint heads_of (bf : option Z) (l : list (Address * list Tx)) (st : gmap Address (list Tx) * list TxWithMinerFee)
    : res (gmap Address (list Tx) * list TxWithMinerFee) :=
  match l with [] => Ok st | kv :: l => st ← head_of bf kv st; heads_of bf l st end.

Definition NewTransactionsByPriceAndNonce `{MapOrder} (txs : gmap Address (list Tx)) (bf : option Z) : res TransactionsByPriceAndNonce :=
  '(m, hs) ← heads_of bf (iter txs) (txs, []);
  Ok (mkByPrice m (Heap.Init fee_less hs) bf).

Definition Peek (t : TransactionsByPriceAndNonce) : option Tx :=
  match heads t with [] => None | h :: _ => Some (fee_tx h) end.

Definition Pop (t : TransactionsByPriceAndNonce) : res TransactionsByPriceAndNonce :=
  '(_, hs) ← Heap.Pop fee_less (heads t); Ok (mkByPrice (acc_txs t) hs (baseFee t)).

Definition Shift (t : TransactionsByPriceAndNonce) : res TransactionsByPriceAndNonce :=
  match heads t with
  | [] => Panic PanicIndex
  | h :: _ =>
    let acc := sender (fee_tx h) in
    match acc_txs t !! acc with
    | Some (tx :: rest) =>
      match NewTxWithMinerFee tx (baseFee t) with
      | Some wrapped =>
        Ok (mkByPrice (<[acc := rest]> (acc_txs t)) (Heap.Fix fee_less 0 (<[0%nat := wrapped]> (heads t))) (baseFee t))
      | None => Pop t
      end
    | _ => Pop t
    end
  end.

(** The miner's use: after every transaction it goes on with the account
    ([true]), or drops it. *)
Fixpoint take_txs (choices : list bool) (t : TransactionsByPriceAndNonce) : res (list Tx) :=
  match choices, Peek t with
  | c :: cs, Some tx => t ← (if c : bool then Shift t else Pop t); r ← take_txs cs t; Ok (tx :: r)
  | _, _ => Ok []
  end.

(** ** The specification

    What is left to take is a queue of every account, of the transactions before
    the first one whose fee cap is below the base fee. *)

Definition tip (bf : option Z) (t : Tx) : Z := Transaction.EffectiveGasTipValue (tx_data t) bf.
Definition below (bf : option Z) (t : Tx) : bool := match bf with Some b => FeeCap t <? b | None => false end.
Definition offered (bf : option Z) (l : list Tx) : list Tx := TxListSpec.Spec.before (below bf) l.

(** No transaction of an account that comes next is better. *)
Definition best (bf : option Z) (q : gmap Address (list Tx)) (t : Tx) : Prop :=
  forall a t' l, q !! a = Some (t' :: l) -> tip bf t' < tip bf t \/ (tip bf t' = tip bf t /\ tx_time t <= tx_time t').

Definition advance (a : Address) (l : list Tx) (q : gmap Address (list Tx)) : gmap Address (list Tx) :=
  match l with [] => delete a q | _ => <[a := l]> q end.

Inductive taken (bf : option Z) : gmap Address (list Tx) -> list bool -> list Tx -> Prop :=
| taken_stop q : taken bf q [] []
| taken_empty cs : taken bf ∅ cs []
| taken_next q a t l c cs ts : q !! a = Some (t :: l) -> best bf q t ->
    taken bf (if c : bool then advance a l q else delete a q) cs ts -> taken bf q (c :: cs) (t :: ts).

(** The queues at the start. *)
Definition offers (bf : option Z) (txs : gmap Address (list Tx)) : gmap Address (list Tx) :=
  omap (fun l => match offered bf l with [] => None | q => Some q end) txs.

(** ** The heap of heads *)

#[export] Instance fee_less_order : LessOrder fee_less.
Proof.
  split; unfold fee_less; intros *.
  - destruct (Z.compare_spec (minerFee a) (minerFee b)), (Z.compare_spec (minerFee b) (minerFee a)); try lia; try done.
  - destruct (Z.compare_spec (minerFee b) (minerFee a)), (Z.compare_spec (minerFee c) (minerFee b)), (Z.compare_spec (minerFee c) (minerFee a)); try lia; try done.
Qed.

Definition wrap (bf : option Z) (t : Tx) : TxWithMinerFee := mkFee t (tip bf t).
Definition head_fee (bf : option Z) (kv : Address * list Tx) : TxWithMinerFee := wrap bf (default inhabitant (head kv.2)).

Lemma NewTxWithMinerFee_spec t bf : NewTxWithMinerFee t bf = if below bf t then None else Some (wrap bf t).
Proof.
  unfold NewTxWithMinerFee, wrap, tip, below, Transaction.EffectiveGasTipValue, Transaction.EffectiveGasTip, FeeCap.
  destruct bf as [b|]; [|done]. simpl. destruct (_ <? b); done.
Qed.

Lemma offered_cons bf t l : offered bf (t :: l) = if below bf t then [] else t :: offered bf l.
Proof. done. Qed.

(** The set of transactions stands for the queues [q]. *)
Record stands (bf : option Z) (t : TransactionsByPriceAndNonce) (q : gmap Address (list Tx)) : Prop := {
  st_fee : baseFee t = bf;
  st_heap : Heap.heap fee_less (heads t);
  st_heads : heads t ≡ₚ head_fee bf <$> map_to_list q;
  st_nonempty a : q !! a <> Some [];
  st_sender a l x : q !! a = Some l -> x ∈ l -> sender x = a;
  st_rest a x l : q !! a = Some (x :: l) -> exists r, acc_txs t !! a = Some r /\ offered bf r = l;
}.

Lemma stands_head bf t q h hs : stands bf t q -> heads t = h :: hs -> exists a x l, q !! a = Some (x :: l) /\ h = wrap bf x /\ sender x = a /\
  hs ≡ₚ head_fee bf <$> map_to_list (delete a q) /\ best bf q x.
Proof.
  intros [Hfee Hheap Hp Hne Hs Hr] E. rewrite E in *. assert (h ∈ head_fee bf <$> map_to_list q) as Hin by (rewrite <- Hp; by left).
  apply list_elem_of_fmap in Hin as ([a l] & -> & Hal%elem_of_map_to_list). destruct l as [|x l]; [by apply Hne in Hal|].
  exists a, x, l. split; [done|]. split; [done|]. split; [eapply Hs; [done|by left]|]. split.
  - rewrite <- (map_to_list_delete q a (x :: l) Hal) in Hp. simpl in Hp. by apply Permutation_cons_inv in Hp.
  - intros a' t' l' Hq. assert (wrap bf t' ∈ head_fee bf (a, x :: l) :: hs) as Hin.
    { rewrite Hp. apply list_elem_of_fmap. exists (a', t' :: l'). split; [done|]. by apply elem_of_map_to_list. }
    pose proof (Heap.heap_min fee_less _ _ _ Hheap eq_refl Hin) as Hmin. unfold fee_less, head_fee, wrap in Hmin. simpl in Hmin.
    destruct (Z.compare_spec (tip bf t') (tip bf x)); try done; to_prop; lia.
Qed.

Lemma stands_empty bf t q : stands bf t q -> heads t = [] -> q = ∅.
Proof.
  intros Hst E. pose proof (st_heads _ _ _ Hst) as Hp. rewrite E in Hp. symmetry in Hp. apply Permutation_nil_r, fmap_nil_inv in Hp. by apply map_to_list_empty_iff.
Qed.

Lemma Pop_stands bf t q h hs : stands bf t q -> heads t = h :: hs -> exists t', Pop t = Ok t' /\ stands bf t' (delete (sender (fee_tx h)) q).
Proof.
  intros Hst E. destruct (stands_head _ _ _ _ _ Hst E) as (a & x & l & Hq & -> & Hsx & Hhs & _). destruct Hst as [Hfee Hheap Hp Hne Hs Hr].
  unfold Pop. rewrite E in *. destruct (Heap.Pop_spec fee_less _ _ Hheap) as (hs' & -> & Hp' & Hh'). simpl. eexists. split; [done|].
  rewrite Hsx. split; simpl; try done.
  - by rewrite Hp'.
  - intros b [_ Hb]%lookup_delete_Some. by apply Hne in Hb.
  - intros b l' y [_ Hb]%lookup_delete_Some. by apply Hs.
  - intros b y l' [_ Hb]%lookup_delete_Some. by apply (Hr _ _ _ Hb).
Qed.

Lemma Shift_stands bf t q h hs a x l : stands bf t q -> heads t = h :: hs -> q !! a = Some (x :: l) -> h = wrap bf x -> sender x = a ->
  hs ≡ₚ head_fee bf <$> map_to_list (delete a q) -> exists t', Shift t = Ok t' /\ stands bf t' (advance a l q).
Proof.
  intros Hst E Hq -> Hsx Hhs. destruct (Pop_stands _ _ _ _ _ Hst E) as (tp & Epop & Hstp). simpl in Hstp. rewrite Hsx in Hstp.
  destruct Hst as [Hfee Hheap Hp Hne Hs Hr]. unfold Shift. rewrite E. simpl. rewrite Hsx. destruct (Hr _ _ _ Hq) as (r & Er & Eo). rewrite Er.
  destruct r as [|y r]; [simpl in Eo; subst l; by exists tp|]. rewrite NewTxWithMinerFee_spec, Hfee. rewrite offered_cons in Eo. destruct (below bf y); [subst l; by exists tp|].
  subst l. eexists. split; [done|]. cbn [advance]. rewrite E in *.
  destruct (Heap.Fix_spec fee_less 0 (wrap bf y) (wrap bf x :: hs) Hheap ltac:(simpl; lia)) as [Hpf Hhf].
  split; cbn [heads baseFee acc_txs]; try done.
  - rewrite Hpf. simpl. rewrite <- (insert_delete_eq q), map_to_list_insert by apply lookup_delete_eq. simpl. by rewrite Hhs.
  - intros b [[_ [=]]|[_ Hb]]%lookup_insert_Some. by apply Hne in Hb.
  - intros b l' z [[<- <-]|[_ Hb]]%lookup_insert_Some Hz; [apply (Hs _ _ _ Hq); by right|by apply (Hs _ _ _ Hb)].
  - intros b z l' [[<- [= <- <-]]|[Hne' Hb]]%lookup_insert_Some; [exists r; by rewrite lookup_insert_eq|].
    rewrite lookup_insert_ne by done. by apply (Hr _ _ _ Hb).
Qed.

Lemma take_txs_spec bf cs : forall t q, stands bf t q -> exists ts, take_txs cs t = Ok ts /\ taken bf q cs ts.
Proof.
  induction cs as [|c cs IH]; intros t q Hst; [exists []; split; [done|constructor]|]. cbn [take_txs]. unfold Peek. destruct (heads t) as [|h hs] eqn:E.
  - exists []. rewrite (stands_empty _ _ _ Hst E). split; [done|constructor].
  - destruct (stands_head _ _ _ _ _ Hst E) as (a & x & l & Hq & -> & Hsx & Hhs & Hbest).
    assert (exists t', (if c then Shift t else Pop t) = Ok t' /\ stands bf t' (if c then advance a l q else delete a q)) as (t' & Et & Hst').
    { destruct c; [by eapply Shift_stands|]. destruct (Pop_stands _ _ _ _ _ Hst E) as (t' & ? & Ht'). simpl in Ht'. rewrite Hsx in Ht'. eauto. }
    rewrite Et. simpl. destruct (IH _ _ Hst') as (ts & -> & Hts). simpl. eexists. split; [done|]. by econstructor.
Qed.

(** ** The start *)

Definition queue_of (bf : option Z) (kv : Address * list Tx) : option (Address * list Tx) :=
  match offered bf kv.2 with [] => None | q => Some (kv.1, q) end.

Definition owned (txs : gmap Address (list Tx)) : Prop :=
  forall a l, txs !! a = Some l -> l <> [] /\ forall t, t ∈ l -> tx_from t = Some a.

Lemma offers_lookup bf txs a q : offers bf txs !! a = Some q <-> q <> [] /\ exists l, txs !! a = Some l /\ offered bf l = q.
Proof.
  unfold offers. rewrite lookup_omap, bind_Some. split.
  - intros (l & Hl & E). destruct (offered bf l) eqn:Eo; [done|]. injection E as <-. split; [done|]. eauto.
  - intros (Hq & l & Hl & E). exists l. split; [done|]. rewrite E. by destruct q.
Qed.

Lemma NoDup_keys (L : list (Address * list Tx)) bf : NoDup L.*1 -> NoDup (omap (queue_of bf) L).
Proof.
  intros Hnd. apply (NoDup_fmap_1 fst). induction L as [|[a l] L IH]; [constructor|]. apply NoDup_cons in Hnd as [Ha Hnd].
  simpl. unfold queue_of at 1. simpl. destruct (offered bf l); [by apply IH|]. simpl. constructor; [|by apply IH].
  intros ([b q] & -> & Hin)%list_elem_of_fmap. apply list_elem_of_omap in Hin as ([c l'] & Hin & E). apply Ha. unfold queue_of in E. simpl in E.
  destruct (offered bf l'); [done|]. simplify_eq. apply list_elem_of_fmap. eexists (_, l'). by split; [|exact Hin].
Qed.

Lemma heads_of_spec bf (L : list (Address * list Tx)) : forall m hs, NoDup L.*1 ->
  (forall a l, (a, l) ∈ L -> l <> [] /\ forall t, t ∈ l -> tx_from t = Some a) ->
  exists m', heads_of bf L (m, hs) = Ok (m', hs ++ (head_fee bf <$> omap (queue_of bf) L)) /\
    (forall a, a ∉ L.*1 -> m' !! a = m !! a) /\
    (forall a t r, (a, t :: r) ∈ L -> below bf t = false -> m' !! a = Some r).
Proof.
  induction L as [|[a l] L IH]; intros m hs Hnd Hown; cbn [heads_of].
  { exists m. rewrite app_nil_r. split; [done|]. split; [done|]. by intros a t r ?%elem_of_nil. }
  apply NoDup_cons in Hnd as [Ha Hnd]. assert (forall b k, (b, k) ∈ L -> k <> [] /\ forall t, t ∈ k -> tx_from t = Some b) as Hown' by (intros; apply Hown; by right).
  destruct (Hown a l ltac:(by left)) as [Hne Hfrom]. destruct l as [|t r]; [done|]. simpl. rewrite NewTxWithMinerFee_spec. unfold queue_of. simpl. rewrite offered_cons.
  assert (sender t = a) as Hs by (unfold sender; rewrite (Hfrom t ltac:(by left)); done).
  assert (forall m0 : gmap Address (list Tx), (forall b, b <> a -> m0 !! b = m !! b) -> forall m' : gmap Address (list Tx), (forall b, b ∉ L.*1 -> m' !! b = m0 !! b) ->
    forall b, b ∉ a :: L.*1 -> m' !! b = m !! b) as Hout.
  { intros m0 Hm0 m' Hm' b Hb. rewrite not_elem_of_cons in Hb. destruct Hb. by rewrite Hm', Hm0. }
  destruct (below bf t) eqn:Eb.
  - simpl. destruct (IH (delete a m) hs Hnd Hown') as (m' & -> & Hm1 & Hm2). exists m'. split; [done|]. split.
    + apply (Hout (delete a m)); [|done]. intros b Hb. by rewrite lookup_delete_ne.
    + intros b t' r' [[= -> -> ->]|Hin]%elem_of_cons Hb; [congruence|by eapply Hm2].
  - rewrite Hs, Z.eqb_refl. simpl. destruct (IH (<[a := r]> m) (hs ++ [wrap bf t]) Hnd Hown') as (m' & -> & Hm1 & Hm2). exists m'.
    split; [by rewrite <- app_assoc|]. split.
    + apply (Hout (<[a := r]> m)); [|done]. intros b Hb. by rewrite lookup_insert_ne.
    + intros b t' r' [[= -> -> ->]|Hin]%elem_of_cons Hb; [|by eapply Hm2]. rewrite Hm1 by done. apply lookup_insert_eq.
Qed.

Lemma elem_offered bf l t : t ∈ offered bf l -> t ∈ l.
Proof.
  unfold offered. destruct (TxListSpec.before_split (below bf) l) as [[_ ->]|(b & q & E & _)]; [done|]. intros Ht. rewrite E. apply elem_of_app. by left.
Qed.

Lemma New_stands `{MapOrder} bf txs : owned txs -> exists t, NewTransactionsByPriceAndNonce txs bf = Ok t /\ stands bf t (offers bf txs).
Proof.
  intros Hown. assert (NoDup (iter txs).*1) as Hnd by (rewrite iter_perm; apply NoDup_fst_map_to_list).
  assert (forall a l, (a, l) ∈ iter txs <-> txs !! a = Some l) as Hit by (intros; rewrite iter_perm; apply elem_of_map_to_list).
  destruct (heads_of_spec bf (iter txs) txs [] Hnd) as (m' & E & _ & Hm); [intros a l Hin%Hit; by apply Hown|].
  unfold NewTransactionsByPriceAndNonce. rewrite E. simpl. eexists. split; [done|].
  destruct (Heap.Init_spec fee_less (head_fee bf <$> omap (queue_of bf) (iter txs))) as [Hp Hh].
  split; cbn [heads baseFee acc_txs]; try done.
  - rewrite Hp. apply fmap_Permutation. apply NoDup_Permutation; [by apply NoDup_keys|apply NoDup_map_to_list|].
    intros [a q]. rewrite list_elem_of_omap, elem_of_map_to_list, offers_lookup. unfold queue_of. split.
    + intros ([b l] & Hin%Hit & Eq). simpl in Eq. destruct (offered bf l) eqn:Eo; [done|]. simplify_eq. split; [done|]. eauto.
    + intros (Hq & l & Hl & Eo). exists (a, l). split; [by apply Hit|]. simpl. rewrite Eo. by destruct q.
  - intros a [Hq _]%offers_lookup. done.
  - intros a q x (Hq & l & Hl & <-)%offers_lookup Hx%elem_offered. unfold sender. by rewrite (proj2 (Hown _ _ Hl) x Hx).
  - intros a x q (_ & l & Hl & Eo)%offers_lookup. destruct l as [|t r]; [done|]. rewrite offered_cons in Eo. destruct (below bf t) eqn:Eb; [done|].
    injection Eo as -> <-. exists r. split; [|done]. eapply Hm; [by apply Hit|done].
Qed.

(** ** Consequences for the transactions taken *)

(** What is taken of an account comes off the front of its queue. *)
Lemma taken_prefix bf q cs ts a : taken bf q cs ts -> (forall b l x, q !! b = Some l -> x ∈ l -> sender x = b) ->
  filter (fun t => sender t = a) ts `prefix_of` default [] (q !! a).
Proof.
  induction 1 as [q|cs|q b t l c cs ts Hq _ _ IH]; intros Hs; [apply prefix_nil..|].
  assert (sender t = b) as Hb by (eapply Hs; [done|by left]).
  assert (forall b' l' x, (if c then advance b l q else delete b q) !! b' = Some l' -> x ∈ l' -> sender x = b') as Hs'.
  { intros b' l' x Hl Hx. destruct c; [unfold advance in Hl; destruct l as [|y l]|]; try (apply lookup_delete_Some in Hl as [_ Hl]; by eapply Hs).
    apply lookup_insert_Some in Hl as [[<- <-]|[_ Hl]]; [|by eapply Hs]. eapply Hs; [done|by right]. }
  specialize (IH Hs'). rewrite filter_cons. case_decide as Hd.
  - assert (b = a) as -> by congruence. rewrite Hq. simpl. apply prefix_cons. etransitivity; [exact IH|]. destruct c; [|rewrite lookup_delete_eq; apply prefix_nil].
    unfold advance. destruct l; [rewrite lookup_delete_eq; apply prefix_nil|]. rewrite lookup_insert_eq. done.
  - assert (a <> b) as Hne by congruence. etransitivity; [exact IH|]. destruct c; [unfold advance; destruct l|]; rewrite ?lookup_delete_ne, ?lookup_insert_ne by done; done.
Qed.

(** C35: The miner is offered transactions by profit and in the order of
    the nonces.  From the pending transactions of the accounts, each list owned by
    its account and in any order of map iteration, [NewTransactionsByPriceAndNonce]
    makes a set from which, whatever the miner decides after every transaction
    ([Shift], to go on with the account, or [Pop], to drop it), [Peek] gives a
    transaction that pays the best tip (and was seen first among those) of all
    accounts that are left, until nothing is left; of every account the
    transactions are taken from the front of its list, none skipped, and only
    before the first one that cannot pay the base fee.  There is no panic. *)
Theorem miner_order_correct `{MapOrder} (bf : option Z) (txs : gmap Address (list Tx)) (choices : list bool) : owned txs ->
  exists t ts, NewTransactionsByPriceAndNonce txs bf = Ok t /\ take_txs choices t = Ok ts /\
    taken bf (offers bf txs) choices ts /\
    forall a, filter (fun t => sender t = a) ts `prefix_of` offered bf (default [] (txs !! a)).
Proof.
  intros Hown. destruct (New_stands bf txs Hown) as (t & Et & Hst). destruct (take_txs_spec bf choices t _ Hst) as (ts & Ets & Hts).
  exists t, ts. split; [done|]. split; [done|]. split; [done|]. intros a.
  pose proof (taken_prefix bf _ _ _ a Hts (st_sender _ _ _ Hst)) as Hp. destruct (offers bf txs !! a) as [q|] eqn:Eq.
  - apply offers_lookup in Eq as (_ & l & -> & <-). done.
  - etransitivity; [exact Hp|]. apply prefix_nil.
Qed.

(** Three accounts; the second transaction of account 7 cannot pay the base fee. *)
Definition sample_tx (a n price t : Z) : Tx :=
  mkTx (Transaction.LegacyTx n price 21000 (Some 9) 0 [] 0 0 0) t (1000 * a + n) 100 (Some a).
Definition sample_txs : gmap Address (list Tx) :=
  {[ 5 := [sample_tx 5 0 30 8; sample_tx 5 1 60 9]; 6 := [sample_tx 6 0 40 3]; 7 := [sample_tx 7 4 30 2; sample_tx 7 5 9 1] ]}.

Lemma sample_owned : owned sample_txs.
Proof.
  intros a l. unfold sample_txs. intros [[<- <-]|[_ [[<- <-]|[_ [<- <-]%lookup_singleton_Some]]%lookup_insert_Some]]%lookup_insert_Some;
    (split; [done|]; intros t Ht; rewrite !elem_of_cons, elem_of_nil in Ht; naive_solver).
Qed.

Lemma miner_order_correct_witness : exists t, NewTransactionsByPriceAndNonce (H := TxListTheorems.reverse_order) sample_txs (Some 10) = Ok t /\
  take_txs [true; true; true; true; true] t = Ok [sample_tx 6 0 40 3; sample_tx 7 4 30 2; sample_tx 5 0 30 8; sample_tx 5 1 60 9] /\
  taken (Some 10) (offers (Some 10) sample_txs) [true; true; true; true; true] [sample_tx 6 0 40 3; sample_tx 7 4 30 2; sample_tx 5 0 30 8; sample_tx 5 1 60 9].
Proof.
  destruct (miner_order_correct (H := TxListTheorems.reverse_order) (Some 10) sample_txs [true; true; true; true; true] sample_owned) as (t & ts & Et & Ets & Hts & _).
  assert (match NewTransactionsByPriceAndNonce (H := TxListTheorems.reverse_order) sample_txs (Some 10) with Ok t => take_txs [true; true; true; true; true] t | _ => NoFuel end
          = Ok [sample_tx 6 0 40 3; sample_tx 7 4 30 2; sample_tx 5 0 30 8; sample_tx 5 1 60 9]) as Hrun by (vm_compute; reflexivity).
  rewrite Et in Hrun. rewrite Ets in Hrun. injection Hrun as ->. exists t. split; [exact Et|]. split; [exact Ets|exact Hts].
Defined.
End TxOrder.
