(* ===== verification/TxPricedList.v ===== *)
(** * The lookup set and the price heaps of the pool ([blockchain/tx_pool.go]:
    [accountSet], [txLookup]; [blockchain/tx_list.go]: [priceHeap],
    [txPricedList]; [common/prque])

    The pool knows every transaction by its hash, local and remote ones apart, and
    keeps the remote ones in two heaps from which the cheapest are evicted.  The
    heaps are not told of every removal: what is no longer a known remote
    transaction is stale, and skipped when it comes to the top. *)

From S2P Require Import Prelude Config Common Rlp EvmState Transaction Heap TxList TxListSpec.

Local Open Scope Z_scope.

Module Priced.

Import TxList.

(** ** Sets of accounts *)

(** The addresses, and the cached list of them. *)
Record accountSet := mkAccounts {
  accounts : gmap Address unit;
  as_cache : option (list Address);
}.

Definition as_contains (a : Address) (s : accountSet) : bool := bool_decide (is_Some (accounts s !! a)).
Definition as_containsTx (tx : Tx) (s : accountSet) : bool :=
  match tx_from tx with Some a => as_contains a s | None => false end.
Definition as_add (a : Address) (s : accountSet) : accountSet := mkAccounts (<[a := ()]> (accounts s)) None.
Definition newAccountSet (addrs : list Address) : accountSet := fold_left (fun s a => as_add a s) addrs (mkAccounts ∅ None).
Definition as_addTx (tx : Tx) (s : accountSet) : accountSet :=
  match tx_from tx with Some a => as_add a s | None => s end.
Definition as_flatten `{MapOrder} (s : accountSet) : list Address * accountSet :=
  match as_cache s with
  | Some l => (l, s)
  | None => let l := (iter (accounts s)).*1 in (l, mkAccounts (accounts s) (Some l))
  end.
Definition as_merge (other s : accountSet) : accountSet := mkAccounts (accounts s ∪ accounts other) None.

(** ** The lookup set *)

Definition txSlotSize : Z := 32 * 1024.
Definition txMaxSize : Z := 4 * txSlotSize.
(** The size is a float64; sizes are far below the integers it holds exactly. *)
Definition numSlots (tx : Tx) : Z := (tx_size tx + txSlotSize - 1) / txSlotSize.

Record txLookup := mkLookup {
  slots : Z;
  lk_locals : gmap Hash Tx;
  lk_remotes : gmap Hash Tx;
}.

Definition newTxLookup : txLookup := mkLookup 0 ∅ ∅.

Definition lk_Get (h : Hash) (t : txLookup) : option Tx :=
  match lk_locals t !! h with Some tx => Some tx | None => lk_remotes t !! h end.
Definition GetLocal (h : Hash) (t : txLookup) : option Tx := lk_locals t !! h.
Definition GetRemote (h : Hash) (t : txLookup) : option Tx := lk_remotes t !! h.
Definition LocalCount (t : txLookup) : Z := Z.of_nat (size (lk_locals t)).
Definition RemoteCount (t : txLookup) : Z := Z.of_nat (size (lk_remotes t)).
Definition Count (t : txLookup) : Z := LocalCount t + RemoteCount t.
Definition Slots (t : txLookup) : Z := slots t.

Definition lk_Add (tx : Tx) (local : bool) (t : txLookup) : txLookup :=
  let s := slots t + numSlots tx in
  if local then mkLookup s (<[tx_hash tx := tx]> (lk_locals t)) (lk_remotes t)
  else mkLookup s (lk_locals t) (<[tx_hash tx := tx]> (lk_remotes t)).

Definition lk_Remove (h : Hash) (t : txLookup) : txLookup :=
  match lk_Get h t with
  | None => t
  | Some tx => mkLookup (slots t - numSlots tx) (delete h (lk_locals t)) (delete h (lk_remotes t))
  end.

(** [RemoteToLocals]: how many were moved. *)
Definition RemoteToLocals (locals : accountSet) (t : txLookup) : Z * txLookup :=
  let moved := filter (fun kv : Z * Tx => as_containsTx kv.2 locals = true) (lk_remotes t) in
  (Z.of_nat (size moved),
   mkLookup (slots t) (moved ∪ lk_locals t) (filter (fun kv : Z * Tx => as_containsTx kv.2 locals = false) (lk_remotes t))).

Definition RemotesBelowTip `{MapOrder} (threshold : Z) (t : txLookup) : list Tx :=
  filter (fun tx => lt0 (GasTipCapIntCmp tx threshold) = true) (iter (lk_remotes t)).*2.

(** ** Heaps by price *)

Record priceHeap := mkPriceHeap {
  ph_baseFee : option Z;
  ph_list : list Tx;
}.

(** [cmp]: the effective tip when there is a base fee, the fee cap, the tip cap. *)
Definition ph_cmp (baseFee : option Z) (a b : Tx) : comparison :=
  let rest := match GasFeeCapCmp a b with Eq => GasTipCapCmp a b | c => c end in
  match baseFee with
  | Some _ => match Transaction.EffectiveGasTipCmp (tx_data a) (tx_data b) baseFee with Eq => rest | c => c end
  | None => rest
  end.
Definition ph_less (baseFee : option Z) (a b : Tx) : bool :=
  match ph_cmp baseFee a b with Lt => true | Gt => false | Eq => Nonce a >? Nonce b end.

Definition ph_push (tx : Tx) (h : priceHeap) : priceHeap :=
  mkPriceHeap (ph_baseFee h) (Heap.Push (ph_less (ph_baseFee h)) tx (ph_list h)).
Definition ph_pop (h : priceHeap) : res (Tx * priceHeap) :=
  '(tx, l) ← Heap.Pop (ph_less (ph_baseFee h)) (ph_list h); Ok (tx, mkPriceHeap (ph_baseFee h) l).
Definition ph_init (h : priceHeap) : priceHeap := mkPriceHeap (ph_baseFee h) (Heap.Init (ph_less (ph_baseFee h)) (ph_list h)).

(** ** The priced list *)

Definition urgentRatio : Z := 4.
Definition floatingRatio : Z := 1.

Record txPricedList := mkPriced {
  stales : Z;
  urgent : priceHeap;
  floating : priceHeap;
}.

Definition newTxPricedList : txPricedList := mkPriced 0 (mkPriceHeap None []) (mkPriceHeap None []).

Definition Put (tx : Tx) (local : bool) (l : txPricedList) : txPricedList :=
  if local then l else mkPriced (stales l) (ph_push tx (urgent l)) (floating l).

(** [heap.Pop] some times over. *)
Fixpoint pop_many (n : nat) (h : priceHeap) : res (list Tx * priceHeap) :=
  match n with
  | O => Ok ([], h)
  | S n => '(tx, h) ← ph_pop h; '(r, h) ← pop_many n h; Ok (tx :: r, h)
  end.

Definition Reheap `{MapOrder} (all : txLookup) (l : txPricedList) : res txPricedList :=
  let u := ph_init (mkPriceHeap (ph_baseFee (urgent l)) (iter (lk_remotes all)).*2) in
  let floatingCount := zlen (ph_list u) * floatingRatio / (urgentRatio + floatingRatio) in
  '(fl, u) ← pop_many (Z.to_nat floatingCount) u;
  Ok (mkPriced 0 u (ph_init (mkPriceHeap (ph_baseFee (floating l)) fl))).

Definition Removed `{MapOrder} (count : Z) (all : txLookup) (l : txPricedList) : res txPricedList :=
  let s := i64 (stales l + count) in
  let l := mkPriced s (urgent l) (floating l) in
  if s <=? (zlen (ph_list (urgent l)) + zlen (ph_list (floating l))) / 4 then Ok l else Reheap all l.

(** The loop of [underpricedFor]: drop what is stale at the top. *)
Fixpoint skip_stale (fuel : nat) (all : txLookup) (s : Z) (h : priceHeap) : res (Z * priceHeap) :=
  match fuel, ph_list h with
  | S fuel, head :: _ =>
    match GetRemote (tx_hash head) all with
    | None => '(_, h) ← ph_pop h; skip_stale fuel all (s - 1) h
    | Some _ => Ok (s, h)
    end
  | _, _ => Ok (s, h)
  end.

Definition underpricedFor (all : txLookup) (tx : Tx) (s : Z) (h : priceHeap) : res (bool * Z * priceHeap) :=
  '(s, h) ← skip_stale (length (ph_list h)) all s h;
  match ph_list h with
  | [] => Ok (false, s, h)
  | head :: _ => Ok (ge0 (ph_cmp (ph_baseFee h) head tx), s, h)
  end.

(** [Underpriced]: the short-circuits of the source leave the second heap alone
    when the first is not empty and not worse. *)
Definition Underpriced (all : txLookup) (tx : Tx) (l : txPricedList) : res (bool * txPricedList) :=
  '(u, s, h) ← underpricedFor all tx (stales l) (urgent l);
  let l := mkPriced s h (floating l) in
  if negb u && negb (zlen (ph_list (urgent l)) =? 0) then Ok (false, l)
  else
    '(f, s, h) ← underpricedFor all tx (stales l) (floating l);
    let l := mkPriced s (urgent l) h in
    if negb f && negb (zlen (ph_list (floating l)) =? 0) then Ok (false, l)
    else Ok (negb (zlen (ph_list (urgent l)) =? 0) || negb (zlen (ph_list (floating l)) =? 0), l).

(** The loop of [Discard]. *)
Fixpoint discard_loop (fuel : nat) (all : txLookup) (sl : Z) (drop : list Tx) (l : txPricedList) : res (Z * list Tx * txPricedList) :=
  if sl <=? 0 then Ok (sl, drop, l)
  else
    match fuel with
    | O => NoFuel
    | S fuel =>
      if (zlen (ph_list (urgent l)) * floatingRatio >? zlen (ph_list (floating l)) * urgentRatio) || (floatingRatio =? 0) then
        '(tx, u) ← ph_pop (urgent l);
        match GetRemote (tx_hash tx) all with
        | None => discard_loop fuel all sl drop (mkPriced (stales l - 1) u (floating l))
        | Some _ => discard_loop fuel all sl drop (mkPriced (stales l) u (ph_push tx (floating l)))
        end
      else if zlen (ph_list (floating l)) =? 0 then Ok (sl, drop, l)
      else
        '(tx, f) ← ph_pop (floating l);
        match GetRemote (tx_hash tx) all with
        | None => discard_loop fuel all sl drop (mkPriced (stales l - 1) (urgent l) f)
        | Some _ => discard_loop fuel all (sl - numSlots tx) (drop ++ [tx]) (mkPriced (stales l) (urgent l) f)
        end
    end.

(** Every round takes a transaction from the urgent heap to the floating one, or
    one from the floating heap away. *)
Definition discard_fuel (l : txPricedList) : nat := (2 * length (ph_list (urgent l)) + length (ph_list (floating l)) + 1)%nat.

Definition Discard (all : txLookup) (sl : Z) (force : bool) (l : txPricedList) : res (list Tx * bool * txPricedList) :=
  if sl <? 0 then Panic PanicMakeLen
  else
    '(sl, drop, l) ← discard_loop (discard_fuel l) all sl [] l;
    if (sl >? 0) && negb force
    then Ok ([], false, mkPriced (stales l) (fold_left (fun u tx => ph_push tx u) drop (urgent l)) (floating l))
    else Ok (drop, true, l).

Definition SetBaseFee `{MapOrder} (baseFee : option Z) (all : txLookup) (l : txPricedList) : res txPricedList :=
  Reheap all (mkPriced (stales l) (mkPriceHeap baseFee (ph_list (urgent l))) (floating l)).

(** ** Priority queues ([prque.Prque] without callbacks and wrap-around)

    The blocks of its stack are one slice here. *)

Definition prque : Type := list (Z * Z).
Definition prque_less (a b : Z * Z) : bool := a.2 >? b.2.
Definition prque_Push (value priority : Z) (q : prque) : prque := Heap.Push prque_less (value, priority) q.
Definition prque_Pop (q : prque) : res (Z * Z * prque) := '(it, q) ← Heap.Pop prque_less q; Ok (it.1, it.2, q).
Definition prque_Empty (q : prque) : bool := bool_decide (q = []).
End Priced.
