(* ===== verification/TxPricedSpec.v ===== *)
(** * The price heaps cover the remote transactions

    [pl_ok]: both heaps are in order, and every known remote transaction is in one
    of them, so that none escapes eviction.  All operations keep it, also with
    stale entries about. *)

From S2P Require Import Prelude Config Common Rlp EvmState Transaction Heap TxList TxListSpec TxPricedList.

Local Open Scope Z_scope.

Module PricedSpec.

Import TxList Priced.

(** ** The order *)

Definition eff (bf : option Z) (t : Tx) : Z :=
  match bf with Some _ => Transaction.EffectiveGasTipValue (tx_data t) bf | None => 0 end.

Lemma ph_less_iff bf a b : ph_less bf a b = true <->
  eff bf a < eff bf b \/ (eff bf a = eff bf b /\ (FeeCap a < FeeCap b \/ (FeeCap a = FeeCap b /\
    (TipCap a < TipCap b \/ (TipCap a = TipCap b /\ Nonce b < Nonce a))))).
Proof.
  unfold ph_less, ph_cmp, GasFeeCapCmp, GasTipCapCmp, Transaction.EffectiveGasTipCmp, eff. rewrite Z.gtb_ltb.
  destruct bf as [f|]; [destruct (Z.compare_spec (Transaction.EffectiveGasTipValue (tx_data a) (Some f)) (Transaction.EffectiveGasTipValue (tx_data b) (Some f)))|];
    destruct (Z.compare_spec (FeeCap a) (FeeCap b)), (Z.compare_spec (TipCap a) (TipCap b)); try (split; intros; try done; lia);
    rewrite Z.ltb_lt; split; intros; try done; lia.
Qed.

#[export] Instance ph_less_order bf : LessOrder (ph_less bf).
Proof.
  split.
  - intros a b Hab. destruct (ph_less bf b a) eqn:E; [|done]. apply ph_less_iff in Hab, E. lia.
  - intros a b c Hab Hbc. destruct (ph_less bf c a) eqn:E; [|done]. apply ph_less_iff in E.
    assert (~ (ph_less bf b a = true)) as H1 by congruence. assert (~ (ph_less bf c b = true)) as H2 by congruence.
    rewrite ph_less_iff in H1, H2. lia.
Qed.

Definition ph_ok (h : priceHeap) : Prop := Heap.heap (ph_less (ph_baseFee h)) (ph_list h).

Lemma ph_push_spec t h : ph_ok h -> ph_ok (ph_push t h) /\ ph_list (ph_push t h) ≡ₚ t :: ph_list h /\ ph_baseFee (ph_push t h) = ph_baseFee h.
Proof. intros Hh. destruct (Heap.Push_spec (ph_less (ph_baseFee h)) t (ph_list h) Hh) as [Hp Ho]. done. Qed.

Lemma ph_pop_spec h t r : ph_ok h -> ph_list h = t :: r -> exists h', ph_pop h = Ok (t, h') /\ ph_ok h' /\ ph_list h' ≡ₚ r /\ ph_baseFee h' = ph_baseFee h.
Proof.
  intros Hh E. unfold ph_ok in Hh. rewrite E in Hh. destruct (Heap.Pop_spec (ph_less (ph_baseFee h)) t r Hh) as (l' & Ep & Hp & Ho).
  unfold ph_pop. rewrite E, Ep. simpl. eexists. done.
Qed.

Lemma ph_init_spec h : ph_ok (ph_init h) /\ ph_list (ph_init h) ≡ₚ ph_list h /\ ph_baseFee (ph_init h) = ph_baseFee h.
Proof. destruct (Heap.Init_spec (ph_less (ph_baseFee h)) (ph_list h)) as [Hp Ho]. done. Qed.

Lemma pop_many_spec n : forall h, ph_ok h -> (n <= length (ph_list h))%nat -> exists r h', pop_many n h = Ok (r, h') /\
  ph_ok h' /\ r ++ ph_list h' ≡ₚ ph_list h /\ length r = n /\ ph_baseFee h' = ph_baseFee h.
Proof.
  induction n as [|n IH]; intros h Hh Hn; simpl; [by exists [], h|].
  destruct (ph_list h) as [|t l] eqn:E; [simpl in Hn; lia|]. destruct (ph_pop_spec h t l Hh E) as (h1 & -> & Hh1 & Hp1 & Hb1). simpl.
  destruct (IH h1 Hh1) as (r & h2 & -> & Hh2 & Hp2 & Hlen & Hb2); [rewrite Hp1; simpl in Hn; lia|]. simpl.
  exists (t :: r), h2. split; [done|]. split; [done|]. split; [simpl; by rewrite Hp2, Hp1|]. split; [simpl; lia|congruence].
Qed.

(** ** The lookup set *)

(** Transactions are kept under their hashes, in one of the two sets only. *)
Record lk_ok (t : txLookup) : Prop := {
  lk_local h x : lk_locals t !! h = Some x -> tx_hash x = h;
  lk_remote h x : lk_remotes t !! h = Some x -> tx_hash x = h;
  lk_disj : lk_locals t ##ₘ lk_remotes t;
}.

Lemma lk_ok_new : lk_ok newTxLookup.
Proof. split; cbn; [intros h x E; by rewrite lookup_empty in E..|apply map_disjoint_empty_l]. Qed.

Definition known (t : txLookup) : gmap Hash Tx := lk_locals t ∪ lk_remotes t.

Lemma lk_Get_known t h : lk_Get h t = known t !! h.
Proof. unfold lk_Get, known. rewrite lookup_union. destruct (lk_locals t !! h), (lk_remotes t !! h); done. Qed.

Lemma lk_Get_hash t h x : lk_ok t -> lk_Get h t = Some x -> tx_hash x = h.
Proof. intros Hok. unfold lk_Get. destruct (lk_locals t !! h) eqn:E; [intros [= <-]; by apply (lk_local t Hok)|by apply (lk_remote t Hok)]. Qed.

Lemma lk_Get_remote t h x : lk_ok t -> lk_remotes t !! h = Some x -> lk_Get h t = Some x.
Proof.
  intros Hok E. unfold lk_Get. destruct (lk_locals t !! h) eqn:El; [|done]. pose proof (lk_disj t Hok) as Hd. rewrite map_disjoint_spec in Hd. by destruct (Hd _ _ _ El E).
Qed.

(** The total of the slots. *)
Definition slots_of (m : gmap Hash Tx) : Z := map_fold (fun _ x n => numSlots x + n) 0 m.

Lemma slots_of_insert m h x : m !! h = None -> slots_of (<[h := x]> m) = numSlots x + slots_of m.
Proof. intros E. unfold slots_of. rewrite map_fold_insert_L; [done| |done]. intros; lia. Qed.
Lemma slots_of_delete m h x : m !! h = Some x -> slots_of (delete h m) = slots_of m - numSlots x.
Proof. intros E. unfold slots_of. rewrite (map_fold_delete_L _ _ h x m); [lia| |done]. intros; lia. Qed.

Definition slots_ok (t : txLookup) : Prop := slots t = slots_of (known t).

Lemma lk_Add_spec x b t : lk_ok t -> lk_Get (tx_hash x) t = None ->
  lk_ok (lk_Add x b t) /\ known (lk_Add x b t) = <[tx_hash x := x]> (known t).
Proof.
  intros Hok Hnew. pose proof Hok as [H1 H2 H3]. rewrite lk_Get_known in Hnew; unfold known in Hnew; rewrite lookup_union_None in Hnew. destruct Hnew as [Hl Hr]. unfold known. destruct b; simpl.
  - split; [split; simpl|by rewrite insert_union_l].
    + intros h y [[<- <-]|[_ E]]%lookup_insert_Some; [done|by apply H1].
    + done.
    + by apply map_disjoint_insert_l_2.
  - split; [split; simpl|by rewrite insert_union_r].
    + done.
    + intros h y [[<- <-]|[_ E]]%lookup_insert_Some; [done|by apply H2].
    + by apply map_disjoint_insert_r_2.
Qed.

Lemma lk_Remove_spec h t : lk_ok t -> lk_ok (lk_Remove h t) /\ known (lk_Remove h t) = delete h (known t) /\
  lk_remotes (lk_Remove h t) = delete h (lk_remotes t) /\ lk_locals (lk_Remove h t) = delete h (lk_locals t).
Proof.
  intros Hok. pose proof Hok as [H1 H2 H3]. unfold lk_Remove, known. destruct (lk_Get h t) as [x|] eqn:E; simpl.
  - split; [split; simpl|].
    + intros k y [_ Ek]%lookup_delete_Some. by apply H1.
    + intros k y [_ Ek]%lookup_delete_Some. by apply H2.
    + by apply map_disjoint_delete_l, map_disjoint_delete_r.
    + by rewrite delete_union.
  - rewrite lk_Get_known in E. unfold known in E. rewrite lookup_union_None in E. destruct E as [El Er].
    rewrite !delete_id by (rewrite ?lookup_union_None; done). done.
Qed.

Lemma slots_Add x b t : lk_ok t -> lk_Get (tx_hash x) t = None -> slots_ok t -> slots_ok (lk_Add x b t).
Proof.
  intros Hok Hnew Hs. unfold slots_ok. rewrite (proj2 (lk_Add_spec x b t Hok Hnew)). rewrite slots_of_insert by (by rewrite <- lk_Get_known).
  rewrite <- Hs. destruct b; simpl; lia.
Qed.

Lemma slots_Remove h t : lk_ok t -> slots_ok t -> slots_ok (lk_Remove h t).
Proof.
  intros Hok Hs. unfold slots_ok. destruct (lk_Remove_spec h t Hok) as (_ & -> & _). unfold lk_Remove. destruct (lk_Get h t) as [x|] eqn:E.
  - rewrite (slots_of_delete _ h x) by (by rewrite <- lk_Get_known). simpl. by rewrite Hs.
  - rewrite delete_id by (by rewrite <- lk_Get_known). done.
Qed.

Lemma RemoteToLocals_spec locals t : lk_ok t -> let t' := (RemoteToLocals locals t).2 in
  lk_ok t' /\ known t' = known t /\ lk_remotes t' ⊆ lk_remotes t /\ slots t' = slots t.
Proof.
  intros Hok. pose proof Hok as [H1 H2 H3]. rewrite map_disjoint_spec in H3. unfold RemoteToLocals, known. simpl.
  set (mv := filter (fun kv : Z * Tx => as_containsTx kv.2 locals = true) (lk_remotes t)).
  set (st := filter (fun kv : Z * Tx => as_containsTx kv.2 locals = false) (lk_remotes t)).
  assert (forall h x, mv !! h = Some x -> lk_remotes t !! h = Some x) as Hmv by (intros h x [E _]%map_lookup_filter_Some; done).
  assert (forall h x, st !! h = Some x -> lk_remotes t !! h = Some x) as Hst by (intros h x [E _]%map_lookup_filter_Some; done).
  assert (mv ##ₘ st) as Hd1.
  { apply map_disjoint_spec. intros h x y [E1 E2]%map_lookup_filter_Some [E3 E4]%map_lookup_filter_Some. simplify_eq. simpl in *. congruence. }
  split; [split; simpl|].
  - intros h x [E|E]%lookup_union_Some_raw; [by apply H2, Hmv|]. destruct E as [_ E]. by apply H1.
  - intros h x E. by apply H2, Hst.
  - apply map_disjoint_union_l_2; [done|]. apply map_disjoint_spec. intros h x y E1 E2. by eapply H3, Hst.
  - split; [|split; [|done]].
    + assert (lk_remotes t = mv ∪ st) as Hr.
      { apply map_eq. intros h. apply option_eq. intros x. rewrite lookup_union_Some by done. split.
        - intros E. destruct (as_containsTx x locals) eqn:Ec; [left|right]; apply map_lookup_filter_Some; done.
        - intros [E|E]; auto. }
      rewrite Hr, map_union_assoc. f_equal. apply map_union_comm. apply map_disjoint_spec. intros h x y E1 E2. by eapply H3, Hmv.
    + apply map_subseteq_spec. intros h x E. by apply Hst.
Qed.

(** ** The priced list *)

Definition plist (l : txPricedList) : list Tx := ph_list (urgent l) ++ ph_list (floating l).
Definition heaps_ok (l : txPricedList) : Prop := ph_ok (urgent l) /\ ph_ok (floating l).
Definition covers (r : gmap Hash Tx) (l : txPricedList) : Prop := forall h t, r !! h = Some t -> t ∈ plist l.
Definition pl_ok (all : txLookup) (l : txPricedList) : Prop := heaps_ok l /\ covers (lk_remotes all) l.

Lemma covers_sub r r' l : r' ⊆ r -> covers r l -> covers r' l.
Proof. intros Hs Hc h t E. eapply Hc, lookup_weaken; done. Qed.
Lemma covers_perm r l l' : plist l ≡ₚ plist l' -> covers r l -> covers r l'.
Proof. intros Hp Hc h t E. rewrite <- Hp. by eapply Hc. Qed.

Lemma pl_ok_new : pl_ok newTxLookup newTxPricedList.
Proof. split; [split; apply Heap.heap_nil|]. intros h t E. cbn in E. by rewrite lookup_empty in E. Qed.

Lemma pl_ok_sub all all' l : lk_remotes all' ⊆ lk_remotes all -> pl_ok all l -> pl_ok all' l.
Proof. intros Hs [Hh Hc]. split; [done|]. by eapply covers_sub. Qed.

Lemma Put_ok t b all l : pl_ok all l -> pl_ok (lk_Add t b all) (Put t b l).
Proof.
  intros [[Hu Hf] Hc]. unfold Put. destruct b; [by split|]. destruct (ph_push_spec t (urgent l) Hu) as (Hu' & Hp & _).
  split; [by split|]. simpl. intros h x. unfold plist. simpl. rewrite elem_of_app. intros [[<- <-]|[_ E]]%lookup_insert_Some.
  - left. rewrite Hp. by left.
  - apply Hc, elem_of_app in E as [E|E]; [left; rewrite Hp; by right|by right].
Qed.

Section orders.
Context `{MO : MapOrder}.

Lemma Reheap_ok all l : exists l', Reheap all l = Ok l' /\ pl_ok all l' /\ plist l' ≡ₚ (map_to_list (lk_remotes all)).*2 /\ stales l' = 0 /\
  ph_baseFee (urgent l') = ph_baseFee (urgent l).
Proof.
  unfold Reheap. set (u0 := mkPriceHeap (ph_baseFee (urgent l)) (iter (lk_remotes all)).*2). destruct (ph_init_spec u0) as (Hu & Hp & Hb).
  destruct (pop_many_spec (Z.to_nat (zlen (ph_list (ph_init u0)) * floatingRatio / (urgentRatio + floatingRatio))) (ph_init u0) Hu) as (fl & u & -> & Hu' & Hp' & _ & Hb').
  { unfold zlen, floatingRatio, urgentRatio. change (4 + 1) with 5. rewrite Z.mul_1_r.
    assert (Z.of_nat (length (ph_list (ph_init u0))) / 5 <= Z.of_nat (length (ph_list (ph_init u0)))) by (apply Z.div_le_upper_bound; lia). lia. }
  cbn [mbind res_bind]. eexists. split; [done|]. destruct (ph_init_spec (mkPriceHeap (ph_baseFee (floating l)) fl)) as (Hf & Hpf & _).
  assert (plist (mkPriced 0 u (ph_init (mkPriceHeap (ph_baseFee (floating l)) fl))) ≡ₚ (map_to_list (lk_remotes all)).*2) as Hpl.
  { unfold plist. cbn [urgent floating]. rewrite Hpf. cbn [ph_list]. rewrite Permutation_app_comm, Hp', Hp. unfold u0. cbn [ph_list]. by rewrite iter_perm. }
  split; [split; [by split|]|].
  - intros h t E. rewrite Hpl. apply list_elem_of_fmap. exists (h, t). split; [done|]. by apply elem_of_map_to_list.
  - split; [done|]. split; [done|]. simpl. rewrite Hb'. done.
Qed.

Lemma Removed_ok n all l : pl_ok all l -> exists l', Removed n all l = Ok l' /\ pl_ok all l' /\ ph_baseFee (urgent l') = ph_baseFee (urgent l).
Proof.
  intros Hok. unfold Removed. destruct (_ <=? _); [eexists; split; [done|]; by split|].
  destruct (Reheap_ok all (mkPriced (i64 (stales l + n)) (urgent l) (floating l))) as (l' & E & Hl' & _ & _ & Hb). by exists l'.
Qed.

Lemma SetBaseFee_ok bf all l : exists l', SetBaseFee bf all l = Ok l' /\ pl_ok all l' /\ ph_baseFee (urgent l') = bf.
Proof.
  unfold SetBaseFee. destruct (Reheap_ok all (mkPriced (stales l) (mkPriceHeap bf (ph_list (urgent l))) (floating l))) as (l' & E & Hl' & _ & _ & Hb). by exists l'.
Qed.
End orders.

(** Dropping what is stale from the top of a heap. *)
Lemma skip_stale_spec all fuel : forall s h, lk_ok all -> ph_ok h -> (length (ph_list h) <= fuel)%nat ->
  exists s' h', skip_stale fuel all s h = Ok (s', h') /\ ph_ok h' /\ ph_baseFee h' = ph_baseFee h /\
    (forall t, t ∈ ph_list h' -> t ∈ ph_list h) /\
    (forall t, t ∈ ph_list h -> GetRemote (tx_hash t) all <> None -> t ∈ ph_list h') /\
    match ph_list h' with [] => True | top :: _ => GetRemote (tx_hash top) all <> None end.
Proof.
  induction fuel as [|fuel IH]; intros s h Hall Hh Hf.
  { destruct (ph_list h) eqn:E; [|simpl in Hf; lia]. simpl. eexists _, _. split; [done|]. rewrite E. done. }
  simpl. destruct (ph_list h) as [|top r] eqn:E.
  { eexists _, _. split; [done|]. rewrite E. done. }
  destruct (GetRemote (tx_hash top) all) eqn:Eg.
  { eexists _, _. split; [done|]. rewrite E. repeat split; try done. congruence. }
  destruct (ph_pop_spec h top r Hh E) as (h1 & -> & Hh1 & Hp1 & Hb1). simpl. simpl in Hf.
  destruct (IH (s - 1) h1 Hall Hh1 ltac:(rewrite Hp1; lia)) as (s' & h' & -> & Hh' & Hb' & Hin1 & Hin2 & Htop).
  eexists _, _. split; [done|]. split; [done|]. split; [congruence|]. split.
  - intros t Ht%Hin1. rewrite Hp1 in Ht. by right.
  - split; [|done]. intros t [->|Ht]%elem_of_cons Hg; [done|]. apply Hin2; [by rewrite Hp1|done].
Qed.

Lemma underpricedFor_spec all t s h : lk_ok all -> ph_ok h -> exists b s' h', underpricedFor all t s h = Ok (b, s', h') /\ ph_ok h' /\
  ph_baseFee h' = ph_baseFee h /\ (forall x, x ∈ ph_list h -> GetRemote (tx_hash x) all <> None -> x ∈ ph_list h') /\
  (forall x, x ∈ ph_list h' -> x ∈ ph_list h).
Proof.
  intros Hall Hh. unfold underpricedFor. destruct (skip_stale_spec all _ s h Hall Hh (le_n _)) as (s' & h' & -> & Hh' & Hb & Hin & Hin2 & _). simpl.
  destruct (ph_list h') eqn:E; eexists _, _, _; (split; [done|]); (split; [done|]); split; try done; rewrite E; done.
Qed.

Lemma covers_heaps all l s u f : lk_ok all -> covers (lk_remotes all) l ->
  (forall x, x ∈ ph_list (urgent l) -> GetRemote (tx_hash x) all <> None -> x ∈ ph_list u) ->
  (forall x, x ∈ ph_list (floating l) -> GetRemote (tx_hash x) all <> None -> x ∈ ph_list f) ->
  covers (lk_remotes all) (mkPriced s u f).
Proof.
  intros Hall Hc Hu Hf h t E. assert (GetRemote (tx_hash t) all <> None) as Hg by (unfold GetRemote; rewrite (lk_remote all Hall _ _ E), E; done).
  apply Hc, elem_of_app in E as [E|E]; apply elem_of_app; [left; by apply Hu|right; by apply Hf].
Qed.

Lemma Underpriced_ok all t l : lk_ok all -> pl_ok all l -> exists b l', Underpriced all t l = Ok (b, l') /\ pl_ok all l' /\
  ph_baseFee (urgent l') = ph_baseFee (urgent l).
Proof.
  intros Hall [[Hu Hf] Hc]. unfold Underpriced. destruct (underpricedFor_spec all t (stales l) (urgent l) Hall Hu) as (b1 & s1 & u & -> & Hu' & Hb1 & Hin1 & _).
  cbn [mbind res_bind urgent floating]. destruct (_ && _).
  - eexists _, _. split; [done|]. split; [|done]. split; [by split|]. by apply (covers_heaps all l).
  - destruct (underpricedFor_spec all t (stales (mkPriced s1 u (floating l))) (floating l) Hall Hf) as (b2 & s2 & f & -> & Hf' & _ & Hin2 & _).
    cbn [mbind res_bind urgent floating]. destruct (_ && _); (eexists _, _; split; [done|]; split; [|done]; split; [by split|]; by apply (covers_heaps all l)).
Qed.

(** ** Eviction *)

Definition drop_hashes (drop : list Tx) : list Hash := tx_hash <$> drop.
Definition drop_slots (drop : list Tx) : Z := foldr (fun t n => numSlots t + n) 0 drop.

(** Every remote transaction is dropped or still in a heap. *)
Definition dropping (all : txLookup) (drop : list Tx) (l : txPricedList) : Prop :=
  forall h t, lk_remotes all !! h = Some t -> t ∈ drop \/ t ∈ plist l.

Definition discard_measure (l : txPricedList) : nat := (2 * length (ph_list (urgent l)) + length (ph_list (floating l)))%nat.

Lemma drop_slots_snoc d t : drop_slots (d ++ [t]) = drop_slots d + numSlots t.
Proof. unfold drop_slots. induction d as [|x d IH]; simpl in *; [lia|]. rewrite IH. lia. Qed.

Lemma discard_loop_spec all fuel : forall sl drop l, lk_ok all -> heaps_ok l -> dropping all drop l -> (discard_measure l < fuel)%nat ->
  Forall (fun t => is_Some (lk_remotes all !! tx_hash t)) drop ->
  exists sl' drop' l', discard_loop fuel all sl drop l = Ok (sl', drop', l') /\ heaps_ok l' /\ dropping all drop' l' /\
    Forall (fun t => is_Some (lk_remotes all !! tx_hash t)) drop' /\ sl' + drop_slots drop' = sl + drop_slots drop /\
    (sl' <= 0 \/ plist l' = []) /\ ph_baseFee (urgent l') = ph_baseFee (urgent l).
Proof.
  induction fuel as [|fuel IH]; intros sl drop l Hall [Hu Hf] Hd Hfu Hdr; [lia|]. cbn [discard_loop]. destruct (sl <=? 0) eqn:Esl; to_prop.
  { eexists _, _, _. split; [done|]. repeat split; try done. by left. }
  unfold floatingRatio, urgentRatio. rewrite Z.mul_1_r. change (1 =? 0) with false. rewrite orb_false_r.
  assert (forall t x, GetRemote (tx_hash t) all = None -> lk_remotes all !! tx_hash x = Some x -> x <> t) as Hst.
  { intros t x Eg Ex ->. unfold GetRemote in Eg. congruence. }
  unfold discard_measure in *. destruct (_ >? _) eqn:Eur; to_prop.
  - destruct (ph_list (urgent l)) as [|t r] eqn:Eu; [unfold zlen in Eur; simpl in Eur; lia|].
    destruct (ph_pop_spec (urgent l) t r Hu Eu) as (u & -> & Hu' & Hpu & Hbu). simpl. simpl in Hfu.
    destruct (GetRemote (tx_hash t) all) as [y|] eqn:Eg.
    + destruct (ph_push_spec t (floating l) Hf) as (Hf' & Hpf & _).
      destruct (IH sl drop (mkPriced (stales l) u (ph_push t (floating l))) Hall) as (sl' & d' & l' & Ed & H1 & H2 & H3 & H4 & H5 & H6); try done.
      * intros h x Ex. destruct (Hd h x Ex) as [|Hin]; [by left|]. right. revert Hin. unfold plist. rewrite !elem_of_app. cbn [urgent floating]. rewrite Eu, Hpf, Hpu, !elem_of_cons. tauto.
      * unfold plist. cbn [urgent floating]. rewrite Hpf, Hpu. simpl. lia.
      * eexists _, _, _. split; [done|]. repeat split; try done; try apply H1. rewrite H6. done.
    + destruct (IH sl drop (mkPriced (stales l - 1) u (floating l)) Hall) as (sl' & d' & l' & Ed & H1 & H2 & H3 & H4 & H5 & H6); try done.
      * intros h x Ex. destruct (Hd h x Ex) as [|Hin]; [by left|]. right. assert (x <> t) by (eapply Hst; [done|]; by rewrite (lk_remote all Hall _ _ Ex)).
        revert Hin. unfold plist. rewrite !elem_of_app. cbn [urgent floating]. rewrite Eu, Hpu, !elem_of_cons. tauto.
      * cbn [urgent floating]. rewrite Hpu. lia.
      * eexists _, _, _. split; [done|]. repeat split; try done; try apply H1. rewrite H6. done.
  - destruct (ph_list (floating l)) as [|t r] eqn:Ef.
    { change (zlen (@nil Tx) =? 0) with true. eexists _, _, _. split; [done|]. repeat split; try done. right. unfold plist. rewrite Ef.
      destruct (ph_list (urgent l)); [done|]. unfold zlen in Eur. simpl in Eur. lia. }
    replace (zlen (t :: r) =? 0) with false by (symmetry; apply Z.eqb_neq; unfold zlen; simpl; lia).
    destruct (ph_pop_spec (floating l) t r Hf Ef) as (f & -> & Hf' & Hpf & Hbf). cbn [mbind res_bind]. simpl in Hfu.
    destruct (GetRemote (tx_hash t) all) as [y|] eqn:Eg.
    + destruct (IH (sl - numSlots t) (drop ++ [t]) (mkPriced (stales l) (urgent l) f) Hall) as (sl' & d' & l' & Ed & H1 & H2 & H3 & H4 & H5 & H6); try done.
      * intros h x Ex. destruct (Hd h x Ex) as [|Hin]; [left; apply elem_of_app; by left|]. revert Hin. unfold plist. rewrite !elem_of_app. cbn [urgent floating]. rewrite Ef, Hpf, !elem_of_cons.
        intros [|[->|]]; [tauto|left; right; by left|tauto].
      * cbn [urgent floating]. rewrite Hpf. lia.
      * apply Forall_app. split; [done|]. constructor; [|done]. by exists y.
      * eexists _, _, _. split; [done|]. repeat split; try done; try apply H1. rewrite H4, drop_slots_snoc. lia.
    + destruct (IH sl drop (mkPriced (stales l - 1) (urgent l) f) Hall) as (sl' & d' & l' & Ed & H1 & H2 & H3 & H4 & H5 & H6); try done.
      * intros h x Ex. destruct (Hd h x Ex) as [|Hin]; [by left|]. right. assert (x <> t) by (eapply Hst; [done|]; by rewrite (lk_remote all Hall _ _ Ex)).
        revert Hin. unfold plist. rewrite !elem_of_app. cbn [urgent floating]. rewrite Ef, Hpf, !elem_of_cons. tauto.
      * cbn [urgent floating]. rewrite Hpf. lia.
      * eexists _, _, _. split; [done|]. repeat split; try done; try apply H1.
Qed.

Lemma push_all_spec d : forall u, ph_ok u -> ph_ok (fold_left (fun u tx => ph_push tx u) d u) /\
  ph_list (fold_left (fun u tx => ph_push tx u) d u) ≡ₚ d ++ ph_list u /\ ph_baseFee (fold_left (fun u tx => ph_push tx u) d u) = ph_baseFee u.
Proof.
  induction d as [|t d IH]; intros u Hu; simpl; [done|]. destruct (ph_push_spec t u Hu) as (Hu' & Hp & Hb). destruct (IH _ Hu') as (H1 & H2 & H3).
  split; [done|]. split; [|congruence]. rewrite H2, Hp. by rewrite Permutation_middle.
Qed.

(** [Discard]: only remote transactions are dropped, enough of them unless it was
    forced; when it fails nothing is. *)
Lemma Discard_ok all sl force l : lk_ok all -> pl_ok all l -> 0 <= sl -> exists drop ok l', Discard all sl force l = Ok (drop, ok, l') /\
  heaps_ok l' /\ dropping all drop l' /\ Forall (fun t => is_Some (lk_remotes all !! tx_hash t)) drop /\
  (ok = false -> force = false /\ drop = []) /\ (ok = true -> force = false -> sl <= drop_slots drop) /\
  ph_baseFee (urgent l') = ph_baseFee (urgent l).
Proof.
  intros Hall [Hh Hc] Hsl. unfold Discard. rewrite (proj2 (Z.ltb_ge sl 0)) by lia.
  destruct (discard_loop_spec all (discard_fuel l) sl [] l Hall Hh) as (sl' & d & l' & -> & H1 & H2 & H3 & H4 & H5 & H6).
  { intros h t E. right. by eapply Hc. }
  { unfold discard_fuel, discard_measure. lia. }
  { done. }
  cbn [mbind res_bind]. change (drop_slots []) with 0 in H4. destruct ((sl' >? 0) && negb force) eqn:E; to_prop.
  - destruct (push_all_spec d (urgent l') (proj1 H1)) as (Hu & Hp & Hb). eexists _, _, _. split; [done|]. split; [split; [done|apply H1]|]. split.
    + intros h t Et. right. unfold plist. cbn [urgent floating]. rewrite Hp, <- app_assoc. apply elem_of_app. apply H2 in Et as [Et|Et]; [by left|by right].
    + split; [constructor|]. split; [done|]. split; [done|]. cbn [urgent]. by rewrite Hb.
  - eexists _, _, _. split; [done|]. split; [done|]. split; [done|]. split; [done|]. split; [done|]. split; [|done]. intros _ Hff. subst force.
    rewrite andb_true_r in E. to_prop. lia.
Qed.
End PricedSpec.
