(* ===== verification/TxPool.v ===== *)
(** * The transaction pool ([blockchain/tx_pool.go], [blockchain/tx_noncer.go])

    The pool holds the executable transactions of every account ([pending]) and
    those that wait for a nonce ([queue]), a lookup set of all of them and the
    price heaps.  All operations below run under the lock of the pool, so they
    are functions of its state.  [time.Now()] is an argument; metrics and logs are
    left out; the journal on disk is the list of the transactions handed to it,
    the events are those sent to the feed.  The state is any implementation of the
    state database's interface, of which only nonces and balances are read.  Maps
    are iterated in the order of [MapOrder]; sorting by heartbeat leaves the order
    of equal heartbeats to it too. *)

From stdpp Require Import sorting.
From S2P Require Import Prelude Config Common Rlp EvmState Header Consensus StateTransition Transaction Heap TxList TxPricedList.

Local Open Scope Z_scope.

Module TxPool.

Import TxList Priced.

(** The errors of the pool, and those shared with the state transition. *)
Inductive PoolErr :=
| ErrAlreadyKnown | ErrInvalidSender | ErrUnderpriced | ErrTxPoolOverflow | ErrReplaceUnderpriced
| ErrGasLimit | ErrNegativeValue | ErrOversizedData | ErrTxTypeNotSupported
| errTx (e : TxErr).

Inductive TxStatus := TxStatusUnknown | TxStatusQueued | TxStatusPending | TxStatusIncluded.

(** ** [TxPoolConfig] *)

Record TxPoolConfig := mkConfig {
  Locals : list Address;
  NoLocals : bool;
  Journal : bool;
  Rejournal : Z;
  PriceLimit : Z;
  PriceBump : Z;
  AccountSlots : Z;
  GlobalSlots : Z;
  AccountQueue : Z;
  GlobalQueue : Z;
  Lifetime : Z;
}.

(** Durations are nanoseconds. *)
Definition second : Z := 10 ^ 9.
Definition DefaultTxPoolConfig : TxPoolConfig :=
  mkConfig [] false true (3600 * second) 1 10 16 (4096 + 1024) 64 1024 (3 * 3600 * second).

Definition sanitize (c : TxPoolConfig) : TxPoolConfig :=
  let d := DefaultTxPoolConfig in
  mkConfig (Locals c) (NoLocals c) (Journal c)
    (if Rejournal c <? second then second else Rejournal c)
    (if PriceLimit c <? 1 then PriceLimit d else PriceLimit c)
    (if PriceBump c <? 1 then PriceBump d else PriceBump c)
    (if AccountSlots c <? 1 then AccountSlots d else AccountSlots c)
    (if GlobalSlots c <? 1 then GlobalSlots d else GlobalSlots c)
    (if AccountQueue c <? 1 then AccountQueue d else AccountQueue c)
    (if GlobalQueue c <? 1 then GlobalQueue d else GlobalQueue c)
    (if Lifetime c <? 1 then Lifetime d else Lifetime c).

Section pool.
Context {DB : Type} `{SDB : StateDB DB}.

(** ** [txNoncer] *)

Record txNoncer := mkNoncer {
  fallback : DB;
  nonces : gmap Address Z;
}.

Definition newTxNoncer (statedb : DB) : txNoncer := mkNoncer statedb ∅.

(** Read a nonce from the state, once. *)
Definition noncer_load (a : Address) (n : txNoncer) : txNoncer :=
  match nonces n !! a with
  | Some _ => n
  | None => mkNoncer (fallback n) (<[a := GetNonce (fallback n) a]> (nonces n))
  end.
Definition noncer_value (a : Address) (n : txNoncer) : Z := default 0 (nonces n !! a).
Definition noncer_get (a : Address) (n : txNoncer) : Z * txNoncer :=
  let n := noncer_load a n in (noncer_value a n, n).
Definition noncer_set (a : Address) (nonce : Z) (n : txNoncer) : txNoncer := mkNoncer (fallback n) (<[a := nonce]> (nonces n)).
Definition noncer_setIfLower (a : Address) (nonce : Z) (n : txNoncer) : txNoncer :=
  let n := noncer_load a n in
  if noncer_value a n <=? nonce then n else noncer_set a nonce n.
Definition noncer_setAll (all : gmap Address Z) (n : txNoncer) : txNoncer := mkNoncer (fallback n) all.

(** ** The chain, a block with its cached hash and its transactions *)

Record ChainBlock := mkChainBlock {
  cb_header : Header.Header;
  cb_hash : Hash;
  cb_txs : list Tx;
}.
Definition NumberU64 (b : ChainBlock) : Z := u64 (Header.Number (cb_header b)).
Definition cb_parent (b : ChainBlock) : Hash := Header.ParentHash (cb_header b).

Record blockChain := mkChain {
  CurrentBlock : ChainBlock;
  GetBlock : Hash -> Z -> option ChainBlock;
  StateAt : Hash -> option DB;
}.

(** A header with its hash. *)
Record Head := mkHead { hd : Header.Header; hd_hash : Hash }.

(** ** [TxPool] *)

Record TxPool := mkPool {
  config : TxPoolConfig;
  chainconfig : ChainConfig;
  poolPrice : Z;
  eip1559 : bool;
  currentState : DB;
  pendingNonces : txNoncer;
  currentMaxGas : Z;
  locals : accountSet;
  journal : option (list Tx);
  pending : gmap Address txList;
  queue : gmap Address txList;
  beats : gmap Address Z;
  all : txLookup;
  priced : txPricedList;
  events : list Tx;
  changesSinceReorg : Z;
}.

Definition with_pending v p := mkPool (config p) (chainconfig p) (poolPrice p) (eip1559 p) (currentState p) (pendingNonces p) (currentMaxGas p) (locals p) (journal p) v (queue p) (beats p) (all p) (priced p) (events p) (changesSinceReorg p).
Definition with_queue v p := mkPool (config p) (chainconfig p) (poolPrice p) (eip1559 p) (currentState p) (pendingNonces p) (currentMaxGas p) (locals p) (journal p) (pending p) v (beats p) (all p) (priced p) (events p) (changesSinceReorg p).
Definition with_beats v p := mkPool (config p) (chainconfig p) (poolPrice p) (eip1559 p) (currentState p) (pendingNonces p) (currentMaxGas p) (locals p) (journal p) (pending p) (queue p) v (all p) (priced p) (events p) (changesSinceReorg p).
Definition with_all v p := mkPool (config p) (chainconfig p) (poolPrice p) (eip1559 p) (currentState p) (pendingNonces p) (currentMaxGas p) (locals p) (journal p) (pending p) (queue p) (beats p) v (priced p) (events p) (changesSinceReorg p).
Definition with_priced v p := mkPool (config p) (chainconfig p) (poolPrice p) (eip1559 p) (currentState p) (pendingNonces p) (currentMaxGas p) (locals p) (journal p) (pending p) (queue p) (beats p) (all p) v (events p) (changesSinceReorg p).
Definition with_nonces v p := mkPool (config p) (chainconfig p) (poolPrice p) (eip1559 p) (currentState p) v (currentMaxGas p) (locals p) (journal p) (pending p) (queue p) (beats p) (all p) (priced p) (events p) (changesSinceReorg p).
Definition with_locals v p := mkPool (config p) (chainconfig p) (poolPrice p) (eip1559 p) (currentState p) (pendingNonces p) (currentMaxGas p) v (journal p) (pending p) (queue p) (beats p) (all p) (priced p) (events p) (changesSinceReorg p).
Definition with_journal v p := mkPool (config p) (chainconfig p) (poolPrice p) (eip1559 p) (currentState p) (pendingNonces p) (currentMaxGas p) (locals p) v (pending p) (queue p) (beats p) (all p) (priced p) (events p) (changesSinceReorg p).
Definition with_events v p := mkPool (config p) (chainconfig p) (poolPrice p) (eip1559 p) (currentState p) (pendingNonces p) (currentMaxGas p) (locals p) (journal p) (pending p) (queue p) (beats p) (all p) (priced p) v (changesSinceReorg p).
Definition with_changes v p := mkPool (config p) (chainconfig p) (poolPrice p) (eip1559 p) (currentState p) (pendingNonces p) (currentMaxGas p) (locals p) (journal p) (pending p) (queue p) (beats p) (all p) (priced p) (events p) v.
Definition with_price v p := mkPool (config p) (chainconfig p) v (eip1559 p) (currentState p) (pendingNonces p) (currentMaxGas p) (locals p) (journal p) (pending p) (queue p) (beats p) (all p) (priced p) (events p) (changesSinceReorg p).
Definition with_eip1559 v p := mkPool (config p) (chainconfig p) (poolPrice p) v (currentState p) (pendingNonces p) (currentMaxGas p) (locals p) (journal p) (pending p) (queue p) (beats p) (all p) (priced p) (events p) (changesSinceReorg p).
Definition with_state s n g p := mkPool (config p) (chainconfig p) (poolPrice p) (eip1559 p) s n g (locals p) (journal p) (pending p) (queue p) (beats p) (all p) (priced p) (events p) (changesSinceReorg p).

(** ** Validation *)

(** [validateTx]; nothing when the transaction is valid. *)
Definition validateTx (tx : Tx) (local : bool) (p : TxPool) : option PoolErr :=
  let t := tx_data tx in
  if negb (eip1559 p) && (Transaction.txType t =? Transaction.DynamicFeeTxType) then Some ErrTxTypeNotSupported
  else if tx_size tx >? txMaxSize then Some ErrOversizedData
  else if Transaction.value t <? 0 then Some ErrNegativeValue
  else if currentMaxGas p <? Gas tx then Some ErrGasLimit
  else if BitLen (FeeCap tx) >? 256 then Some (errTx ErrFeeCapVeryHigh)
  else if BitLen (TipCap tx) >? 256 then Some (errTx ErrTipVeryHigh)
  else if lt0 (GasFeeCapIntCmp tx (TipCap tx)) then Some (errTx ErrTipAboveFeeCap)
  else
    match tx_from tx with
    | None => Some ErrInvalidSender
    | Some from =>
      if negb local && lt0 (GasTipCapIntCmp tx (poolPrice p)) then Some ErrUnderpriced
      else if GetNonce (currentState p) from >? Nonce tx then Some (errTx ErrNonceTooLow)
      else if GetBalance (currentState p) from <? TxCost tx then Some (errTx ErrInsufficientFunds)
      else
        match IntrinsicGas (Transaction.data t) (Transaction.accessList t) (bool_decide (Transaction.to t = None)) true with
        | inr e => Some (errTx e)
        | inl intrGas => if Gas tx <? intrGas then Some (errTx ErrIntrinsicGas) else None
        end
    end.

Context `{MO : MapOrder}.

(** [pool.priced.Removed(n)] *)
Definition priced_Removed (n : Z) (p : TxPool) : res TxPool :=
  l ← Removed n (all p) (priced p); Ok (with_priced l p).

(** [journalTx] and [queueTxEvent] *)
Definition journalTx (from : Address) (tx : Tx) (p : TxPool) : TxPool :=
  match journal p with
  | Some j => if as_contains from (locals p) then with_journal (Some (j ++ [tx])) p else p
  | None => p
  end.
Definition queueTxEvent (tx : Tx) (p : TxPool) : TxPool := with_events (events p ++ [tx]) p.

(** [enqueueTx]: whether a transaction was replaced, or an error.  The sender was
    validated before. *)
Definition sender_of (tx : Tx) : Address := default 0 (tx_from tx).

Definition enqueueTx (now : Z) (hash : Hash) (tx : Tx) (local addAll : bool) (p : TxPool) : res (bool * option PoolErr * TxPool) :=
  let from := sender_of tx in
  let l := default (newTxList false) (queue p !! from) in
  let '(inserted, old, l) := Add tx (PriceBump (config p)) l in
  let p := with_queue (<[from := l]> (queue p)) p in
  if negb inserted then Ok (false, Some ErrReplaceUnderpriced, p)
  else
    p ← (match old with
         | Some o => priced_Removed 1 (with_all (lk_Remove (tx_hash o) (all p)) p)
         | None => Ok p
         end);
    let p := if addAll then with_priced (Put tx local (priced p)) (with_all (lk_Add tx local (all p)) p) else p in
    let p := match beats p !! from with Some _ => p | None => with_beats (<[from := now]> (beats p)) p end in
    Ok (bool_decide (is_Some old), None, p).

(** A loop over a list. *)
Fixpoint each {A S} (f : A -> S -> res S) (l : list A) (s : S) : res S :=
  match l with [] => Ok s | x :: r => s ← f x s; each f r s end.

(** Back into the queue, without the lookup set. *)
Definition requeue (now : Z) (tx : Tx) (p : TxPool) : res TxPool :=
  '(_, _, p) ← enqueueTx now (tx_hash tx) tx false false p; Ok p.

(** [pool.queue[addr]] and [pool.pending[addr]] are pointers to lists that change
    in place. *)
Definition set_queue (addr : Address) (l : txList) (p : TxPool) : TxPool := with_queue (<[addr := l]> (queue p)) p.
Definition set_pending (addr : Address) (l : txList) (p : TxPool) : TxPool := with_pending (<[addr := l]> (pending p)) p.

(** Delete the queue of an account once it is empty. *)
Definition drop_empty_queue (addr : Address) (l : txList) (p : TxPool) : TxPool :=
  if Empty l then with_beats (delete addr (beats p)) (with_queue (delete addr (queue p)) p) else p.

(** Remove a transaction from the pending list of its account; what comes after it
    goes back to the queue.  Whether it was there. *)
Definition remove_pending (now : Z) (tx : Tx) (addr : Address) (p : TxPool) : res (bool * TxPool) :=
  match pending p !! addr with
  | None => Ok (false, p)
  | Some l =>
    '(removed, invalids, l) ← Remove tx l;
    let p := set_pending addr l p in
    if negb removed then Ok (false, p)
    else
      let p := if Empty l then with_pending (delete addr (pending p)) p else p in
      p ← each (requeue now) invalids p;
      Ok (true, with_nonces (noncer_setIfLower addr (Nonce tx) (pendingNonces p)) p)
  end.

(** [removeTx] *)
Definition removeTx (now : Z) (hash : Hash) (outofbound : bool) (p : TxPool) : res TxPool :=
  match lk_Get hash (all p) with
  | None => Ok p
  | Some tx =>
    let addr := sender_of tx in
    let p := with_all (lk_Remove hash (all p)) p in
    p ← (if outofbound then priced_Removed 1 p else Ok p);
    '(done, p) ← remove_pending now tx addr p;
    if done : bool then Ok p
    else
      match queue p !! addr with
      | None => Ok p
      | Some l =>
        '(_, _, l) ← Remove tx l;
        Ok (drop_empty_queue addr l (set_queue addr l p))
      end
  end.

(** The room a full pool makes for a new transaction: an error, or the pool. *)
Definition make_room (now : Z) (tx : Tx) (isLocal : bool) (p : TxPool) : res (option PoolErr * TxPool) :=
  let limit := add64 (GlobalSlots (config p)) (GlobalQueue (config p)) in
  if negb (u64 (Slots (all p) + numSlots tx) >? limit) then Ok (None, p)
  else
    '(under, l) ← (if isLocal then Ok (false, priced p) else Underpriced (all p) tx (priced p));
    let p := with_priced l p in
    if under : bool then Ok (Some ErrUnderpriced, p)
    else if changesSinceReorg p >? i64 (GlobalSlots (config p) / 4) then Ok (Some ErrTxPoolOverflow, p)
    else
      '(drop, success, l) ← Discard (all p) (Slots (all p) - i64 limit + numSlots tx) isLocal (priced p);
      let p := with_priced l p in
      if negb isLocal && negb success then Ok (Some ErrTxPoolOverflow, p)
      else
        let p := with_changes (changesSinceReorg p + zlen drop) p in
        p ← each (fun t => removeTx now (tx_hash t) false) drop p;
        Ok (None, p).

(** A new transaction that replaces no pending one: into the queue; the account of
    a first local transaction becomes local. *)
Definition enqueue_new (now : Z) (tx : Tx) (local isLocal : bool) (p : TxPool) : res (bool * option PoolErr * TxPool) :=
  let from := sender_of tx in
  '(replaced, err, p) ← enqueueTx now (tx_hash tx) tx isLocal true p;
  match err with
  | Some e => Ok (false, Some e, p)
  | None =>
    p ← (if local && negb (as_contains from (locals p)) then
           let p := with_locals (as_add from (locals p)) p in
           let '(migrated, al) := RemoteToLocals (locals p) (all p) in
           priced_Removed migrated (with_all al p)
         else Ok p);
    Ok (replaced, None, journalTx from tx p)
  end.

(** [add]: whether a transaction was replaced, or an error. *)
Definition add (now : Z) (tx : Tx) (local : bool) (p : TxPool) : res (bool * option PoolErr * TxPool) :=
  match lk_Get (tx_hash tx) (all p) with
  | Some _ => Ok (false, Some ErrAlreadyKnown, p)
  | None =>
    let isLocal := local || as_containsTx tx (locals p) in
    match validateTx tx isLocal p with
    | Some e => Ok (false, Some e, p)
    | None =>
      '(e, p) ← make_room now tx isLocal p;
      match e with
      | Some e => Ok (false, Some e, p)
      | None =>
        let from := sender_of tx in
        match pending p !! from with
        | Some l =>
          if Overlaps tx l then
            let '(inserted, old, l) := Add tx (PriceBump (config p)) l in
            if negb inserted then Ok (false, Some ErrReplaceUnderpriced, p)
            else
              let p := with_pending (<[from := l]> (pending p)) p in
              p ← (match old with
                   | Some o => priced_Removed 1 (with_all (lk_Remove (tx_hash o) (all p)) p)
                   | None => Ok p
                   end);
              let p := with_priced (Put tx isLocal (priced p)) (with_all (lk_Add tx isLocal (all p)) p) in
              let p := queueTxEvent tx (journalTx from tx p) in
              Ok (bool_decide (is_Some old), None, with_beats (<[from := now]> (beats p)) p)
          else enqueue_new now tx local isLocal p
        | None => enqueue_new now tx local isLocal p
        end
      end
    end
  end.

(** [addTxsLocked]: the errors, and the accounts to promote. *)
Fixpoint addTxsLocked (now : Z) (txs : list Tx) (local : bool) (dirty : accountSet) (p : TxPool)
    : res (list (option PoolErr) * accountSet * TxPool) :=
  match txs with
  | [] => Ok ([], dirty, p)
  | tx :: txs =>
    '(replaced, err, p) ← add now tx local p;
    let dirty := match err with None => if replaced : bool then dirty else as_addTx tx dirty | Some _ => dirty end in
    '(errs, dirty, p) ← addTxsLocked now txs local dirty p;
    Ok (err :: errs, dirty, p)
  end.

(** The errors known before the lock is taken; the others are filled in. *)
Definition known_error (p : TxPool) (tx : Tx) : option PoolErr :=
  match lk_Get (tx_hash tx) (all p) with
  | Some _ => Some ErrAlreadyKnown
  | None => match tx_from tx with None => Some ErrInvalidSender | Some _ => None end
  end.
Fixpoint merge_errors (errs newErrs : list (option PoolErr)) : list (option PoolErr) :=
  match errs with
  | [] => []
  | Some e :: errs => Some e :: merge_errors errs newErrs
  | None :: errs => match newErrs with [] => None :: errs | e :: newErrs => e :: merge_errors errs newErrs end
  end.

(** [addTxs], up to the request to promote the dirty accounts. *)
Definition addTxs (now : Z) (txs : list Tx) (local : bool) (p : TxPool) : res (list (option PoolErr) * option accountSet * TxPool) :=
  let errs := known_error p <$> txs in
  let news := filter (fun tx => known_error p tx = None) txs in
  if decide (news = []) then Ok (errs, None, p)
  else
    '(newErrs, dirty, p) ← addTxsLocked now news local (newAccountSet []) p;
    Ok (merge_errors errs newErrs, Some dirty, p).
Definition AddLocals (now : Z) (txs : list Tx) (p : TxPool) := addTxs now txs (negb (NoLocals (config p))) p.
Definition AddRemotes (now : Z) (txs : list Tx) (p : TxPool) := addTxs now txs false p.

(** ** Promotion *)

(** [promoteTx] *)
Definition promoteTx (now : Z) (addr : Address) (hash : Hash) (tx : Tx) (p : TxPool) : res (bool * TxPool) :=
  let l := default (newTxList true) (pending p !! addr) in
  let '(inserted, old, l) := Add tx (PriceBump (config p)) l in
  let p := with_pending (<[addr := l]> (pending p)) p in
  if negb inserted then p ← priced_Removed 1 (with_all (lk_Remove hash (all p)) p); Ok (false, p)
  else
    p ← (match old with
         | Some o => priced_Removed 1 (with_all (lk_Remove (tx_hash o) (all p)) p)
         | None => Ok p
         end);
    let p := with_nonces (noncer_set addr (add64 (Nonce tx) 1) (pendingNonces p)) p in
    Ok (true, with_beats (<[addr := now]> (beats p)) p).

(** [pool.all.Remove] of some transactions. *)
Definition forget (txs : list Tx) (p : TxPool) : TxPool :=
  fold_left (fun p tx => with_all (lk_Remove (tx_hash tx) (all p)) p) txs p.

Fixpoint promote_all (now : Z) (addr : Address) (txs promoted : list Tx) (p : TxPool) : res (list Tx * TxPool) :=
  match txs with
  | [] => Ok (promoted, p)
  | tx :: txs =>
    '(ok, p) ← promoteTx now addr (tx_hash tx) tx p;
    promote_all now addr txs (if ok : bool then promoted ++ [tx] else promoted) p
  end.

(** The body of the loop of [promoteExecutables]. *)
Definition promote_account (now : Z) (addr : Address) (st : list Tx * TxPool) : res (list Tx * TxPool) :=
  let '(promoted, p) := st in
  match queue p !! addr with
  | None => Ok st
  | Some l =>
    '(forwards, l) ← Forward (GetNonce (currentState p) addr) l;
    let p := forget forwards (set_queue addr l p) in
    let '(drops, _, l) := Filter (GetBalance (currentState p) addr) (currentMaxGas p) l in
    let p := forget drops (set_queue addr l p) in
    let '(next, n) := noncer_get addr (pendingNonces p) in
    let p := with_nonces n p in
    '(readies, l) ← Ready next l;
    '(promoted, p) ← promote_all now addr readies promoted (set_queue addr l p);
    '(caps, l) ← (if as_contains addr (locals p) then Ok ([], l) else Cap (i64 (AccountQueue (config p))) l);
    let p := forget caps (set_queue addr l p) in
    p ← priced_Removed (zlen forwards + zlen drops + zlen caps) p;
    Ok (promoted, drop_empty_queue addr l p)
  end.

Definition promoteExecutables (now : Z) (accounts : list Address) (p : TxPool) : res (list Tx * TxPool) :=
  each (promote_account now) accounts ([], p).

(** ** Limits *)

Definition count_txs (m : gmap Address txList) : Z := u64 (foldr (fun kv n => Len kv.2 + n) 0 (iter m)).

(** Take the last transaction of an account away. *)
Definition cap_one (addr : Address) (st : Z * TxPool) : res (Z * TxPool) :=
  let '(count, p) := st in
  l ← or_panic PanicNil (pending p !! addr);
  '(caps, l) ← Cap (Len l - 1) l;
  let p := with_pending (<[addr := l]> (pending p)) p in
  let p := fold_left (fun p tx => with_nonces (noncer_setIfLower addr (Nonce tx) (pendingNonces p))
                                    (with_all (lk_Remove (tx_hash tx) (all p)) p)) caps p in
  p ← priced_Removed (zlen caps) p;
  Ok (sub64 count 1, p).

Definition pending_len (p : TxPool) (addr : Address) : res Z := l ← or_panic PanicNil (pending p !! addr); Ok (Len l).

(** Take one transaction of each of [offenders] away, until the limit is met or
    the length of the list of [watch] is not [above] any more. *)
Fixpoint equalize (fuel : nat) (offenders : list Address) (watch : Address) (above : Z -> bool) (count : Z) (p : TxPool) : res (Z * TxPool) :=
  if negb (count >? GlobalSlots (config p)) then Ok (count, p)
  else
    n ← pending_len p watch;
    if negb (above n) then Ok (count, p)
    else
      match fuel with
      | O => NoFuel
      | S fuel => '(count, p) ← each cap_one offenders (count, p); equalize fuel offenders watch above count p
      end.

(** The loop over the spammers, largest first. *)
Fixpoint penalize (fuel : nat) (spammers : prque) (offenders : list Address) (count : Z) (p : TxPool) : res (list Address * Z * TxPool) :=
  if negb (count >? GlobalSlots (config p)) || prque_Empty spammers then Ok (offenders, count, p)
  else
    match fuel with
    | O => NoFuel
    | S fuel =>
      '(offender, _, spammers) ← prque_Pop spammers;
      match last offenders with
      | None => penalize fuel spammers [offender] count p
      | Some previous =>
        threshold ← pending_len p offender;
        n ← pending_len p previous;
        '(count, p) ← equalize (Z.to_nat n) offenders previous (fun len => len >? threshold) count p;
        penalize fuel spammers (offenders ++ [offender]) count p
      end
    end.

Definition truncatePending (p : TxPool) : res TxPool :=
  let count := count_txs (pending p) in
  if count <=? GlobalSlots (config p) then Ok p
  else
    let spammers := fold_left (fun q kv =>
      if negb (as_contains kv.1 (locals p)) && (u64 (Len kv.2) >? AccountSlots (config p)) then prque_Push kv.1 (Len kv.2) q else q)
      (iter (pending p)) [] in
    '(offenders, count, p) ← penalize (length spammers) spammers [] count p;
    match last offenders with
    | Some final =>
      if count >? GlobalSlots (config p) then
        n ← pending_len p final;
        '(_, p) ← equalize (Z.to_nat n) offenders final (fun len => u64 len >? AccountSlots (config p)) count p;
        Ok p
      else Ok p
    | None => Ok p
    end.

(** Drop transactions from the end of a list. *)
Fixpoint drop_last (now : Z) (rtxs : list Tx) (drop : Z) (p : TxPool) : res (Z * TxPool) :=
  match rtxs with
  | [] => Ok (drop, p)
  | tx :: rtxs =>
    if drop >? 0 then p ← removeTx now (tx_hash tx) true p; drop_last now rtxs (sub64 drop 1) p
    else Ok (drop, p)
  end.

(** The loop of [truncateQueue], over the addresses from the last one on. *)
Fixpoint shrink_queue (now : Z) (addrs : list Address) (drop : Z) (p : TxPool) : res TxPool :=
  match addrs with
  | [] => Ok p
  | addr :: addrs =>
    if drop >? 0 then
      l ← or_panic PanicNil (queue p !! addr);
      let sz := u64 (Len l) in
      let '(txs, l) := Flatten l in
      let p := with_queue (<[addr := l]> (queue p)) p in
      if sz <=? drop then
        p ← each (fun tx => removeTx now (tx_hash tx) true) txs p;
        shrink_queue now addrs (sub64 drop sz) p
      else '(drop, p) ← drop_last now (rev txs) drop p; shrink_queue now addrs drop p
    else Ok p
  end.

(** [sort.Reverse(addresses)]: the latest heartbeat first. *)
Definition beat_ge (a b : Address * Z) : Prop := b.2 <= a.2.
#[export] Instance beat_ge_dec a b : Decision (beat_ge a b) := decide (b.2 <= a.2).

Definition truncateQueue (now : Z) (p : TxPool) : res TxPool :=
  let queued := count_txs (queue p) in
  if queued <=? GlobalQueue (config p) then Ok p
  else
    let addresses := map (fun kv => (kv.1, default 0 (beats p !! kv.1)))
      (filter (fun kv : Address * txList => as_contains kv.1 (locals p) = false) (iter (queue p))) in
    let addresses := merge_sort beat_ge addresses in
    shrink_queue now (rev addresses.*1) (sub64 queued (GlobalQueue (config p))) p.

(** ** Demotion *)

(** The body of the loop of [demoteUnexecutables]. *)
Definition demote_account (now : Z) (addr : Address) (p : TxPool) : res TxPool :=
  match pending p !! addr with
  | None => Ok p
  | Some l =>
    let nonce := GetNonce (currentState p) addr in
    '(olds, l) ← Forward nonce l;
    let p := forget olds (set_pending addr l p) in
    let '(drops, invalids, l) := Filter (GetBalance (currentState p) addr) (currentMaxGas p) l in
    let p := forget drops (set_pending addr l p) in
    p ← each (requeue now) invalids p;
    '(l, p) ← (if (Len l >? 0) && bool_decide (map_Get nonce (txs l) = None) then
                 '(gapped, l) ← Cap 0 l;
                 p ← each (requeue now) gapped (set_pending addr l p);
                 Ok (l, p)
               else Ok (l, p));
    Ok (if Empty l then with_pending (delete addr (pending p)) p else p)
  end.

Definition demoteUnexecutables (now : Z) (p : TxPool) : res TxPool :=
  each (demote_account now) (iter (pending p)).*1 p.

(** ** Reset *)

(** [TxDifference] *)
Definition TxDifference (a b : list Tx) : list Tx :=
  let remove : gset Hash := list_to_set (tx_hash <$> b) in filter (fun tx => tx_hash tx ∉ remove) a.

(** The two loops that bring the branches to the same number, and the one that
    goes back to the common ancestor; nothing when a block is missing. *)
Fixpoint walk_down (fuel : nat) (chain : blockChain) (b : ChainBlock) (target : Z) (acc : list Tx) : res (option (ChainBlock * list Tx)) :=
  if negb (NumberU64 b >? target) then Ok (Some (b, acc))
  else
    match fuel with
    | O => NoFuel
    | S fuel =>
      match GetBlock chain (cb_parent b) (sub64 (NumberU64 b) 1) with
      | None => Ok None
      | Some b' => walk_down fuel chain b' target (acc ++ cb_txs b)
      end
    end.

Fixpoint walk_both (fuel : nat) (chain : blockChain) (rem ad : ChainBlock) (discarded included : list Tx) : res (option (list Tx * list Tx)) :=
  if cb_hash rem =? cb_hash ad then Ok (Some (discarded, included))
  else
    match fuel with
    | O => NoFuel
    | S fuel =>
      match GetBlock chain (cb_parent rem) (sub64 (NumberU64 rem) 1) with
      | None => Ok None
      | Some rem' =>
        match GetBlock chain (cb_parent ad) (sub64 (NumberU64 ad) 1) with
        | None => Ok None
        | Some ad' => walk_both fuel chain rem' ad' (discarded ++ cb_txs rem) (included ++ cb_txs ad)
        end
      end
    end.

(** The transactions of the old branch that the new one lacks; nothing when the
    reset is given up. *)
Definition reinjected (chain : blockChain) (rem ad : ChainBlock) : res (option (list Tx)) :=
  r ← walk_down (S (Z.to_nat (NumberU64 rem))) chain rem (NumberU64 ad) [];
  match r with
  | None => Ok None
  | Some (rem, discarded) =>
    r ← walk_down (S (Z.to_nat (NumberU64 ad))) chain ad (NumberU64 rem) [];
    match r with
    | None => Ok None
    | Some (ad, included) =>
      r ← walk_both (S (Z.to_nat (NumberU64 rem))) chain rem ad discarded included;
      Ok (match r with None => None | Some (d, i) => Some (TxDifference d i) end)
    end
  end.

(** The distance of the heads is computed in floating point, exact for block
    numbers below 2^53. *)
Definition reorg_txs (chain : blockChain) (oldHead newHead : option Head) : res (option (list Tx)) :=
  match oldHead with
  | None => Ok (Some [])
  | Some old =>
    new ← or_panic PanicNil newHead;
    if hd_hash old =? Header.ParentHash (hd new) then Ok (Some [])
    else
      let oldNum := u64 (Header.Number (hd old)) in
      let newNum := u64 (Header.Number (hd new)) in
      if Z.abs (oldNum - newNum) >? 64 then Ok (Some [])
      else
        match GetBlock chain (hd_hash old) oldNum with
        | None => if newNum >=? oldNum then Ok None else Ok (Some [])
        | Some rem =>
          ad ← or_panic PanicNil (GetBlock chain (hd_hash new) newNum);
          reinjected chain rem ad
        end
  end.

(** [reset] *)
Definition reset (now : Z) (chain : blockChain) (oldHead newHead : option Head) (p : TxPool) : res TxPool :=
  r ← reorg_txs chain oldHead newHead;
  match r with
  | None => Ok p
  | Some reinject =>
    let newHead := match newHead with Some h => hd h | None => cb_header (CurrentBlock chain) end in
    match StateAt chain (Header.Root newHead) with
    | None => Ok p
    | Some statedb =>
      let p := with_state statedb (newTxNoncer statedb) (Header.GasLimit newHead) p in
      '(_, _, p) ← addTxsLocked now reinject false (newAccountSet []) p;
      Ok (with_eip1559 (conf_IsLondon (chainconfig p) (Header.Number newHead + 1)) p)
    end
  end.

(** ** [runReorg] *)

Record txpoolResetRequest := mkReset { oldHead : option Head; newHead : option Head }.

(** The nonces that follow the pending transactions. *)
Definition next_nonce (kv : Address * txList) (st : gmap Address Z * TxPool) : res (gmap Address Z * TxPool) :=
  let '(m, p) := st in
  '(tx, l) ← LastElement kv.2;
  Ok (<[kv.1 := add64 (Nonce tx) 1]> m, with_pending (<[kv.1 := l]> (pending p)) p).

(** Drop the events of transactions with old nonces. *)
Definition stale_events (addr : Address) (st : gmap Address txSortedMap * TxPool) : res (gmap Address txSortedMap * TxPool) :=
  let '(ev, p) := st in
  let '(n, noncer) := noncer_get addr (pendingNonces p) in
  m ← or_panic PanicNil (ev !! addr);
  '(_, m) ← map_Forward n m;
  Ok (if map_Len m =? 0 then delete addr ev else <[addr := m]> ev, with_nonces noncer p).

Definition put_event (ev : gmap Address txSortedMap) (tx : Tx) : gmap Address txSortedMap :=
  let addr := sender_of tx in
  <[addr := map_Put tx (default newTxSortedMap (ev !! addr))]> ev.

Definition runReorg (now : Z) (chain : blockChain) (rs : option txpoolResetRequest) (dirty : option accountSet)
    (ev : gmap Address txSortedMap) (p : TxPool) : res (option (list Tx) * TxPool) :=
  '(addrs, ev, p) ←
    (match rs with
     | None => Ok (match dirty with Some d => (as_flatten d).1 | None => [] end, ev, p)
     | Some r =>
       p ← reset now chain (oldHead r) (newHead r) p;
       '(ev, p) ← each stale_events (iter ev).*1 (ev, p);
       Ok ((iter (queue p)).*1, ev, p)
     end);
  '(promoted, p) ← promoteExecutables now addrs p;
  p ← (match rs with
       | None => Ok p
       | Some r =>
         p ← demoteUnexecutables now p;
         p ← (match newHead r with
              | Some h =>
                if conf_IsLondon (chainconfig p) (Header.Number (hd h) + 1) then
                  fee ← CalcBaseFee (chainconfig p) (hd h);
                  l ← SetBaseFee (Some fee) (all p) (priced p);
                  Ok (with_priced l p)
                else Ok p
              | None => Ok p
              end);
         '(m, p) ← each next_nonce (iter (pending p)) (∅, p);
         Ok (with_nonces (noncer_setAll m (pendingNonces p)) p)
       end);
  p ← truncatePending p;
  p ← truncateQueue now p;
  let p := with_changes 0 p in
  let ev := fold_left put_event promoted ev in
  Ok (if decide (ev = ∅) then None else Some (concat (map (fun kv => (map_Flatten kv.2).1) (iter ev))), p).

(** ** The other entry points *)

(** [SetGasPrice] *)
Definition SetGasPrice (now price : Z) (p : TxPool) : res TxPool :=
  let old := poolPrice p in
  let p := with_price price p in
  if price >? old then
    let drop := RemotesBelowTip price (all p) in
    p ← each (fun tx => removeTx now (tx_hash tx) false) drop p;
    priced_Removed (zlen drop) p
  else Ok p.

(** The eviction tick of [loop]. *)
Definition evict_account (now : Z) (addr : Address) (p : TxPool) : res TxPool :=
  if as_contains addr (locals p) then Ok p
  else if now - default 0 (beats p !! addr) >? Lifetime (config p) then
    l ← or_panic PanicNil (queue p !! addr);
    let '(txs, l) := Flatten l in
    each (fun tx => removeTx now (tx_hash tx) true) txs (with_queue (<[addr := l]> (queue p)) p)
  else Ok p.
Definition evict (now : Z) (p : TxPool) : res TxPool := each (evict_account now) (iter (queue p)).*1 p.

Definition pool_Nonce (addr : Address) (p : TxPool) : Z := (noncer_get addr (pendingNonces p)).1.
Definition stats (p : TxPool) : Z * Z := (count_txs (pending p), count_txs (queue p)).
Definition pool_Get (h : Hash) (p : TxPool) : option Tx := lk_Get h (all p).
Definition pool_Has (h : Hash) (p : TxPool) : bool := bool_decide (is_Some (lk_Get h (all p))).

Definition flatten_all (m : gmap Address txList) : gmap Address (list Tx) := (fun l => (Flatten l).1) <$> m.
Definition Content (p : TxPool) : gmap Address (list Tx) * gmap Address (list Tx) := (flatten_all (pending p), flatten_all (queue p)).
Definition ContentFrom (addr : Address) (p : TxPool) : list Tx * list Tx :=
  (default [] (flatten_all (pending p) !! addr), default [] (flatten_all (queue p) !! addr)).

(** [Pending]: cut at the first transaction whose effective tip is too low. *)
Fixpoint cut_at_tip (price : Z) (baseFee : option Z) (txs : list Tx) : list Tx :=
  match txs with
  | [] => []
  | tx :: txs => if lt0 (Transaction.EffectiveGasTipIntCmp (tx_data tx) price baseFee) then [] else tx :: cut_at_tip price baseFee txs
  end.
Definition Pending (enforceTips : bool) (p : TxPool) : gmap Address (list Tx) :=
  map_imap (fun addr l =>
    let txs := (Flatten l).1 in
    let txs := if enforceTips && negb (as_contains addr (locals p)) then cut_at_tip (poolPrice p) (ph_baseFee (urgent (priced p))) txs else txs in
    if decide (txs = []) then None else Some txs) (pending p).

(** [local] *)
Definition local_txs (p : TxPool) : gmap Address (list Tx) :=
  map_imap (fun addr (_ : unit) =>
    match ContentFrom addr p with ([], []) => None | (a, b) => Some (a ++ b) end) (accounts (locals p)).

(** [Status] *)
Definition Status (h : Hash) (p : TxPool) : TxStatus :=
  match pool_Get h p with
  | None => TxStatusUnknown
  | Some tx =>
    let has (m : gmap Address txList) := match m !! sender_of tx with Some l => bool_decide (is_Some (map_Get (Nonce tx) (txs l))) | None => false end in
    if has (pending p) then TxStatusPending else if has (queue p) then TxStatusQueued else TxStatusUnknown
  end.

(** [NewTxPool]: the pool before its goroutines start, and the journal of local
    transactions that is read back. *)
Definition emptyPool (c : TxPoolConfig) (cc : ChainConfig) (statedb : DB) : TxPool :=
  let c := sanitize c in
  mkPool c cc (PriceLimit c) false statedb (newTxNoncer statedb) 0 (newAccountSet (Locals c)) None ∅ ∅ ∅ newTxLookup newTxPricedList [] 0.
Definition NewTxPool (now : Z) (c : TxPoolConfig) (cc : ChainConfig) (chain : blockChain) (zero : DB) (fromDisk : list Tx) : res TxPool :=
  let p := emptyPool c cc zero in
  p ← reset now chain None (Some (mkHead (cb_header (CurrentBlock chain)) (cb_hash (CurrentBlock chain)))) p;
  if negb (NoLocals (config p)) && Journal (config p) then
    '(_, _, p) ← AddLocals now fromDisk p; Ok (with_journal (Some []) p)
  else Ok p.
End pool.
Arguments txNoncer : clear implicits.
Arguments ChainBlock : clear implicits.
Arguments blockChain : clear implicits.
Arguments TxPool : clear implicits.
End TxPool.
