(* ===== verification/TxPoolSpec.v ===== *)
(** * The consistency of the transaction pool

    [ok O] relates the four structures of the pool: the pending and queued lists,
    the lookup set and the price heaps.  Every known transaction is in exactly one
    list, under its sender and nonce, or is one of [O], the transactions that an
    operation has taken off a list and not yet dealt with; the slots are counted
    right; every remote transaction is in a price heap.  The lemmas [ok_...] are
    the steps operations are made of; the lemmas about the operations follow. *)

From stdpp Require Import sorting.
From S2P Require Import Prelude Config Common Rlp EvmState Header Consensus StateTransition Transaction Heap TxList TxListSpec TxPricedList TxPricedSpec TxPool.

Local Open Scope Z_scope.

Module TxPoolSpec.

Import TxList TxListSpec Priced PricedSpec TxPool.

(** ** Lists by account and nonce *)

Definition tx_at (m : gmap Address txList) (a : Address) (n : Z) : option Tx :=
  match m !! a with Some l => l_items l !! n | None => None end.

Lemma get_insert m a l b n : tx_at (<[a := l]> m) b n = if decide (b = a) then l_items l !! n else tx_at m b n.
Proof. unfold tx_at. case_decide as E; [subst; by rewrite lookup_insert_eq|by rewrite lookup_insert_ne]. Qed.
Lemma get_delete m a b n : tx_at (delete a m) b n = if decide (b = a) then None else tx_at m b n.
Proof. unfold tx_at. case_decide as E; [subst; by rewrite lookup_delete_eq|by rewrite lookup_delete_ne]. Qed.

(** The lists of the first map are strict when [b], those of the second when not. *)
Record lists_ok (b : bool) (pend q : gmap Address txList) : Prop := {
  lo_pend a l : pend !! a = Some l -> l_ok l /\ strict l = b;
  lo_queue a l : q !! a = Some l -> l_ok l /\ strict l = negb b;
  lo_from a n t : tx_at pend a n = Some t \/ tx_at q a n = Some t -> tx_from t = Some a;
  lo_disj a n : tx_at pend a n = None \/ tx_at q a n = None;
}.

Definition listed (pend q : gmap Address txList) (t : Tx) : Prop :=
  exists a, tx_from t = Some a /\ (tx_at pend a (Nonce t) = Some t \/ tx_at q a (Nonce t) = Some t).

Definition known_are (al : txLookup) (P : Tx -> Prop) : Prop :=
  forall h t, known al !! h = Some t <-> tx_hash t = h /\ P t.

(** A transaction off the lists: its place is free. *)
Definition free (pend q : gmap Address txList) (t : Tx) : Prop :=
  is_u64 (Nonce t) /\ exists a, tx_from t = Some a /\ tx_at pend a (Nonce t) = None /\ tx_at q a (Nonce t) = None.

Definition place (t : Tx) : option Address * Z := (tx_from t, Nonce t).

Record ok (b : bool) (O : list Tx) (pend q : gmap Address txList) (al : txLookup) (pr : txPricedList) : Prop := {
  ok_lists : lists_ok b pend q;
  ok_lookup : lk_ok al;
  ok_slots : slots_ok al;
  ok_priced : pl_ok al pr;
  ok_known : known_are al (fun t => listed pend q t \/ t ∈ O);
  ok_free : Forall (free pend q) O;
  ok_places : NoDup (place <$> O);
}.

(** No list is empty. *)
Definition full (m : gmap Address txList) : Prop := forall a l, m !! a = Some l -> l_items l <> ∅.
Definition full_but (a : Address) (m : gmap Address txList) : Prop := forall b l, b <> a -> m !! b = Some l -> l_items l <> ∅.

(** ** Places *)

Lemma get_place b pend q a n t : lists_ok b pend q -> tx_at pend a n = Some t \/ tx_at q a n = Some t -> Nonce t = n /\ is_u64 n.
Proof.
  intros Hl [E|E]; unfold tx_at in E.
  - destruct (pend !! a) as [l|] eqn:El; [|done]. apply (lo_pend _ _ _ Hl) in El as [Hl' _]. by apply (l_keyed l Hl').
  - destruct (q !! a) as [l|] eqn:El; [|done]. apply (lo_queue _ _ _ Hl) in El as [Hl' _]. by apply (l_keyed l Hl').
Qed.

Lemma listed_get b pend q a n t : lists_ok b pend q -> tx_at pend a n = Some t \/ tx_at q a n = Some t -> listed pend q t.
Proof. intros Hl E. exists a. destruct (get_place _ _ _ _ _ _ Hl E) as [<- _]. split; [by apply (lo_from _ _ _ Hl) in E|done]. Qed.

(** Transactions in the same place are the same. *)
Lemma listed_place b pend q t t' : lists_ok b pend q -> listed pend q t -> listed pend q t' -> place t = place t' -> t = t'.
Proof.
  intros Hl (a & Ha & Ht) (a' & Hb & Ht') [= E1 E2]. assert (a = a') as <- by congruence. rewrite E2 in *.
  destruct (lo_disj _ _ _ Hl a (Nonce t')) as [E|E]; rewrite E in *; destruct Ht as [Ht|Ht], Ht' as [Ht'|Ht']; congruence.
Qed.

Lemma free_not_listed pend q t : free pend q t -> ~ listed pend q t.
Proof. intros (_ & a & Ha & E1 & E2) (b & Hb & E). assert (a = b) as <- by congruence. destruct E; congruence. Qed.

(** What is left of the items when some are taken off a list. *)
Lemma items_partition l l' removed : l_ok l -> l_ok l' -> removed ++ l_contents l' ≡ₚ l_contents l ->
  forall n, l_items l' !! n = if decide (n ∈ Nonce <$> removed) then None else l_items l !! n.
Proof.
  intros Hl Hl' Hp n. assert (forall t, t ∈ l_contents l <-> t ∈ removed \/ t ∈ l_contents l') as Hin by (intros t; rewrite <- Hp, elem_of_app; done).
  assert (NoDup (Nonce <$> removed ++ l_contents l')) as Hnd.
  { rewrite Hp. apply NoDup_fmap_2_strong; [|by apply sorted_NoDup, l_sorted]. intros x y Hx Hy E. by eapply sorted_by_lookup; [apply l_sorted, Hl|..]. }
  rewrite fmap_app in Hnd. apply NoDup_app in Hnd as (_ & Hd & _).
  assert (forall x, l_items l' !! n = Some x -> x ∈ l_contents l' /\ Nonce x = n) as Hx.
  { intros x Ex. destruct (l_keyed l' Hl' _ _ Ex) as [<- _]. split; [by apply elem_contents|done]. }
  case_decide as Hn.
  - destruct (l_items l' !! n) as [x|] eqn:Ex; [|done]. destruct (Hx x eq_refl) as [Hx1 Hx2]. destruct (Hd n Hn). apply list_elem_of_fmap. by exists x.
  - apply option_eq. intros x. split.
    + intros Ex. destruct (Hx x Ex) as [Hx1 <-]. apply elem_contents; [done|]. apply Hin. by right.
    + intros Ex. destruct (l_keyed l Hl _ _ Ex) as [<- _]. apply elem_contents in Ex; [|done]. apply Hin in Ex as [Ex|Ex]; [|by apply elem_contents].
      destruct Hn. apply list_elem_of_fmap. by exists x.
Qed.

Lemma removed_items l l' removed t : l_ok l -> removed ++ l_contents l' ≡ₚ l_contents l -> t ∈ removed -> l_items l !! Nonce t = Some t.
Proof. intros Hl Hp Ht. apply elem_contents; [done|]. rewrite <- Hp. apply elem_of_app. by left. Qed.

Lemma removed_NoDup l l' removed : l_ok l -> removed ++ l_contents l' ≡ₚ l_contents l -> NoDup (Nonce <$> removed).
Proof.
  intros Hl Hp. assert (NoDup (Nonce <$> removed ++ l_contents l')) as Hnd.
  { rewrite Hp. apply NoDup_fmap_2_strong; [|by apply sorted_NoDup, l_sorted]. intros x y Hx Hy E. by eapply sorted_by_lookup; [apply l_sorted, Hl|..]. }
  rewrite fmap_app in Hnd. by apply NoDup_app in Hnd as (Hnd & _ & _).
Qed.

(** ** The lookup set *)

Lemma known_are_ext al P Q : (forall t, P t <-> Q t) -> known_are al P -> known_are al Q.
Proof. intros HPQ Hk h t. rewrite (Hk h t), HPQ. done. Qed.

Lemma known_are_hash al P t t' : known_are al P -> P t -> P t' -> tx_hash t = tx_hash t' -> t = t'.
Proof. intros Hk Ht Ht' E. assert (known al !! tx_hash t = Some t) as E1 by (by apply Hk). assert (known al !! tx_hash t = Some t') as E2 by (apply Hk; done). congruence. Qed.

Lemma known_are_Remove al P t : lk_ok al -> known_are al P -> P t -> known_are (lk_Remove (tx_hash t) al) (fun x => P x /\ x <> t).
Proof.
  intros Hal Hk Ht h x. destruct (lk_Remove_spec (tx_hash t) al Hal) as (_ & -> & _). rewrite lookup_delete_Some, (Hk h x). split.
  - intros (Hne & <- & Hx). split; [done|]. split; [done|]. intros ->. done.
  - intros (<- & Hx & Hne). split; [|done]. intros E. destruct Hne. symmetry. by eapply known_are_hash.
Qed.

Lemma known_are_Add al P t b : lk_ok al -> known_are al P -> known al !! tx_hash t = None -> known_are (lk_Add t b al) (fun x => P x \/ x = t).
Proof.
  intros Hal Hk Hn h x. rewrite <- lk_Get_known in Hn. destruct (lk_Add_spec t b al Hal Hn) as (_ & ->). rewrite lookup_insert_Some, (Hk h x). split.
  - intros [[<- <-]|[_ [<- Hx]]]; auto.
  - intros [<- [Hx| ->]]; [|by left]. destruct (decide (tx_hash t = tx_hash x)) as [E|]; [|by right]. exfalso.
    rewrite lk_Get_known, E in Hn. assert (known al !! tx_hash x = Some x) by (by apply Hk). congruence.
Qed.

(** ** The steps of the operations *)

Lemma ok_sym b O pend q al pr : ok b O pend q al pr -> ok (negb b) O q pend al pr.
Proof.
  assert (forall t, listed pend q t <-> listed q pend t) as Hl by (intros t; unfold listed; naive_solver).
  intros [[H1 H2 H3 H4] Ha Hs Hp Hk Hf Hn]. split; try done.
  - split; [done|by rewrite negb_involutive|..].
    + intros a n t E. apply (H3 a n t). tauto.
    + intros a n. destruct (H4 a n); tauto.
  - eapply known_are_ext; [|done]. intros t. simpl. by rewrite Hl.
  - eapply Forall_impl; [done|]. intros t (Hu & a & Ha1 & E1 & E2). split; [done|]. by exists a.
Qed.

(** Take transactions off a list. *)
Lemma ok_take b O pend q al pr a l l' removed : ok b O pend q al pr -> q !! a = Some l -> l_ok l' -> strict l' = strict l ->
  removed ++ l_contents l' ≡ₚ l_contents l -> ok b (removed ++ O) pend (<[a := l']> q) al pr.
Proof.
  intros [Hlists Ha Hs Hp Hk Hf Hn] El Hl' Hst Hpart. destruct (lo_queue _ _ _ Hlists a l El) as [Hl Hsl].
  assert (forall c n, tx_at (<[a := l']> q) c n = if decide (c = a /\ n ∈ Nonce <$> removed) then None else tx_at q c n) as Hget.
  { intros c n. rewrite get_insert. destruct (decide (c = a)) as [->|]; [|by rewrite decide_False by tauto].
    rewrite (items_partition l l' removed Hl Hl' Hpart). unfold tx_at. rewrite El. destruct (decide (n ∈ Nonce <$> removed)); [rewrite decide_True by done|rewrite decide_False by tauto]; done. }
  assert (forall c n t, tx_at (<[a := l']> q) c n = Some t -> tx_at q c n = Some t) as Hsub by (intros c n t; rewrite Hget; by case_decide).
  assert (forall t, t ∈ removed -> tx_at q a (Nonce t) = Some t) as Hrem by (intros t Ht; unfold tx_at; rewrite El; by eapply removed_items).
  assert (forall t, t ∈ removed -> tx_from t = Some a) as Hfrom by (intros t Ht; apply (lo_from _ _ _ Hlists a (Nonce t)); right; by apply Hrem).
  split; try done.
  - destruct Hlists as [H1 H2 H3 H4]. split; [done|..].
    + intros c x [[<- <-]|[_ E]]%lookup_insert_Some; [split; [done|congruence]|by eapply H2].
    + intros c n t [E|E%Hsub]; apply (H3 c n t); auto.
    + intros c n. destruct (H4 c n) as [E|E]; [by left|]. right. rewrite Hget. by case_decide.
  - eapply known_are_ext; [|exact Hk]. intros t. cbn beta. rewrite elem_of_app. split.
    + intros [(c & Hc & E)|]; [|tauto]. destruct E as [E|E]; [left; exists c; tauto|].
      destruct (decide (c = a /\ Nonce t ∈ Nonce <$> removed)) as [[-> Hin]|Hne].
      * right. left. apply list_elem_of_fmap in Hin as (r & Er & Hr). rewrite Er, (Hrem r Hr) in E. congruence.
      * left. exists c. split; [done|]. right. rewrite Hget. by rewrite decide_False.
    + intros [(c & Hc & E)|[Ht|Ht]].
      * left. exists c. split; [done|]. destruct E as [E|E%Hsub]; auto.
      * left. exists a. auto.
      * by right.
  - apply Forall_app. split.
    + apply Forall_forall. intros t Ht. pose proof (Hrem t Ht) as E. destruct (get_place _ _ _ _ _ _ Hlists (or_intror E)) as [_ Hu]. split; [done|].
      exists a. split; [by apply Hfrom|]. split.
      * destruct (lo_disj _ _ _ Hlists a (Nonce t)) as [|E2]; [done|]. congruence.
      * rewrite Hget, decide_True; [done|]. split; [done|]. apply list_elem_of_fmap. by exists t.
    + eapply Forall_impl; [exact Hf|]. intros t (Hu & c & Hc & E1 & E2). split; [done|]. exists c. split; [done|]. split; [done|]. rewrite Hget. by case_decide.
  - rewrite fmap_app. apply NoDup_app. split; [|split; [|done]].
    + pose proof (removed_NoDup l l' removed Hl Hpart) as Hnd. apply (NoDup_fmap_1 snd). rewrite <- list_fmap_compose. done.
    + intros x (t & -> & Ht)%list_elem_of_fmap (t' & E & Ht')%list_elem_of_fmap. rewrite Forall_forall in Hf. destruct (Hf t' Ht') as (_ & c & Hc & _ & E2).
      injection E as E3 E4. rewrite (Hfrom t Ht), Hc in E3. injection E3 as <-. rewrite <- E4, (Hrem t Ht) in E2. done.
Qed.

(** Forget a transaction that is off the lists. *)
Lemma ok_forget b O pend q al pr t : ok b (t :: O) pend q al pr -> ok b O pend q (lk_Remove (tx_hash t) al) pr.
Proof.
  intros [Hlists Ha Hs Hp Hk Hf Hn]. apply Forall_cons in Hf as [Hft Hf]. cbn in Hn. apply NoDup_cons in Hn as [Hnt Hn].
  assert (t ∉ O) as Hto by (intros Hin; apply Hnt, list_elem_of_fmap; eauto).
  destruct (lk_Remove_spec (tx_hash t) al Ha) as (Ha' & _ & Hr & _). split; try done.
  - by apply slots_Remove.
  - eapply pl_ok_sub; [|done]. rewrite Hr. apply delete_subseteq.
  - eapply known_are_ext; [|apply (known_are_Remove al _ t Ha Hk); right; by left]. intros x. cbn beta. rewrite elem_of_cons. split.
    + intros [[?|[->|?]] ?]; tauto.
    + intros [Hx|Hx]; (split; [tauto|]); intros ->; [by eapply free_not_listed|done].
Qed.

Lemma get_default m a n : tx_at m a n = l_items (default (newTxList true) (m !! a)) !! n.
Proof. unfold tx_at. destruct (m !! a); [done|]. simpl. unfold l_items. simpl. by rewrite lookup_empty. Qed.

(** Put a transaction that is off the lists, or a new one, into its place. *)
Lemma lists_put b pend q a t l' : lists_ok b pend q -> l_ok l' -> strict l' = negb b -> tx_from t = Some a -> tx_at pend a (Nonce t) = None ->
  (forall n, l_items l' !! n = if decide (n = Nonce t) then Some t else tx_at q a n) -> lists_ok b pend (<[a := l']> q).
Proof.
  intros [H1 H2 H3 H4] Hl' Hst Hfrom Hp Hi. split; [done|..].
  - intros c x [[<- <-]|[_ E]]%lookup_insert_Some; [done|by eapply H2].
  - intros c n x. rewrite get_insert. case_decide as Ec; [|by intros E; apply (H3 c n x)]. subst c. rewrite Hi. case_decide as En; [|by intros E; apply (H3 a n x)].
    intros [E|[= <-]]; [apply (H3 a n x); auto|done].
  - intros c n. rewrite get_insert. case_decide as Ec; [|done]. subst c. rewrite Hi. case_decide as En; [subst; by left|]. apply H4.
Qed.

Lemma listed_put b pend q a t l' : lists_ok b pend q -> tx_from t = Some a -> tx_at q a (Nonce t) = None ->
  (forall n, l_items l' !! n = if decide (n = Nonce t) then Some t else tx_at q a n) ->
  forall x, listed pend (<[a := l']> q) x <-> listed pend q x \/ x = t.
Proof.
  intros Hl Hfrom Hq Hi x. unfold listed. split.
  - intros (c & Hc & E). rewrite get_insert in E. destruct E as [E|E]; [left; exists c; tauto|]. case_decide as Ec; [|left; exists c; tauto].
    subst c. rewrite Hi in E. case_decide; [right; congruence|left; exists a; tauto].
  - intros [(c & Hc & E)| ->].
    + exists c. split; [done|]. destruct E as [E|E]; [by left|]. right. rewrite get_insert. case_decide as Ec; [|done]. subst c. rewrite Hi. case_decide as En; [|done]. rewrite En in E. congruence.
    + exists a. split; [done|]. right. rewrite get_insert, decide_True, Hi, decide_True by done. done.
Qed.

Lemma free_put b pend q a t l' x : lists_ok b pend q -> tx_from t = Some a -> place x <> place t ->
  (forall n, l_items l' !! n = if decide (n = Nonce t) then Some t else tx_at q a n) -> free pend q x -> free pend (<[a := l']> q) x.
Proof.
  intros Hl Hfrom Hne Hi (Hu & c & Hc & E1 & E2). split; [done|]. exists c. split; [done|]. split; [done|]. rewrite get_insert. case_decide as Ec; [|done]. subst c.
  rewrite Hi. case_decide as En; [|done]. destruct Hne. unfold place. congruence.
Qed.

Lemma ok_put b O pend q al pr a t l' : ok b (t :: O) pend q al pr -> l_ok l' -> strict l' = negb b -> tx_from t = Some a ->
  (forall n, l_items l' !! n = if decide (n = Nonce t) then Some t else tx_at q a n) -> ok b O pend (<[a := l']> q) al pr.
Proof.
  intros [Hlists Ha Hs Hp Hk Hf Hn] Hl' Hst Hfrom Hi. apply Forall_cons in Hf as [(Hu & c & Hc & E1 & E2) Hf]. cbn in Hn. apply NoDup_cons in Hn as [Hnt Hn].
  assert (c = a) as -> by congruence. split; try done.
  - by eapply lists_put.
  - eapply known_are_ext; [|exact Hk]. intros x. cbn beta. rewrite elem_of_cons, (listed_put b pend q a t l') by done. tauto.
  - rewrite Forall_forall in *. intros x Hx. eapply free_put; [done|done| |done|by apply Hf]. intros E. apply Hnt. rewrite <- E. apply list_elem_of_fmap. by exists x.
Qed.

Lemma ok_new b pend q al pr a t l' loc : ok b [] pend q al pr -> l_ok l' -> strict l' = negb b -> tx_from t = Some a ->
  known al !! tx_hash t = None -> tx_at pend a (Nonce t) = None -> tx_at q a (Nonce t) = None ->
  (forall n, l_items l' !! n = if decide (n = Nonce t) then Some t else tx_at q a n) ->
  ok b [] pend (<[a := l']> q) (lk_Add t loc al) (Put t loc pr).
Proof.
  intros [Hlists Ha Hs Hp Hk Hf Hn] Hl' Hst Hfrom Hnew E1 E2 Hi. pose proof Hnew as Hnew'. rewrite <- lk_Get_known in Hnew'. split.
  - by eapply lists_put.
  - by apply lk_Add_spec.
  - by apply slots_Add.
  - by apply Put_ok.
  - eapply known_are_ext; [|by apply (known_are_Add al _ t loc Ha Hk)]. intros x. cbn beta. rewrite elem_of_nil, (listed_put b pend q a t l') by done. tauto.
  - constructor.
  - constructor.
Qed.

Lemma ok_delete b O pend q al pr a : ok b O pend q al pr -> (forall l, q !! a = Some l -> l_items l = ∅) -> ok b O pend (delete a q) al pr.
Proof.
  intros [[H1 H2 H3 H4] Ha Hs Hp Hk Hf Hn] He. assert (forall c n, tx_at (delete a q) c n = tx_at q c n) as Hget.
  { intros c n. rewrite get_delete. case_decide as Ec; [|done]. subst c. unfold tx_at. destruct (q !! a) as [l|]; [|done]. by rewrite (He l eq_refl), lookup_empty. }
  split; try done.
  - split; [done|..].
    + intros c x [_ E]%lookup_delete_Some. by eapply H2.
    + intros c n t. rewrite Hget. apply H3.
    + intros c n. rewrite Hget. apply H4.
  - eapply known_are_ext; [|exact Hk]. intros t. cbn beta. unfold listed. setoid_rewrite Hget. done.
  - eapply Forall_impl; [done|]. intros t (Hu & c & Hc & E1 & E2). split; [done|]. exists c. by rewrite Hget.
Qed.

Lemma ok_reprice b O pend q al pr pr' : ok b O pend q al pr -> pl_ok al pr' -> ok b O pend q al pr'.
Proof. intros [] ?. by split. Qed.

(** The same transactions in other lists. *)
Lemma ok_same b O pend q al pr a l l' : ok b O pend q al pr -> q !! a = Some l -> l_ok l' -> strict l' = strict l -> l_items l' = l_items l ->
  ok b O pend (<[a := l']> q) al pr.
Proof. intros Hok El Hl' Hst Hi. eapply (ok_take b O pend q al pr a l l' []); try done. unfold l_contents, contents. fold (l_items l'). by rewrite Hi. Qed.

Lemma ok_perm b O O' pend q al pr : O ≡ₚ O' -> ok b O pend q al pr -> ok b O' pend q al pr.
Proof.
  intros Hp [H1 H2 H3 H4 H5 H6 H7]. split; try done.
  - eapply known_are_ext; [|exact H5]. intros t. cbn beta. by rewrite Hp.
  - by rewrite <- Hp.
  - by rewrite <- Hp.
Qed.
End TxPoolSpec.
