(* ===== verification/TxPoolOps.v ===== *)
(** * The operations of the transaction pool keep it consistent *)

From stdpp Require Import sorting.
From S2P Require Import Prelude Config Common Rlp EvmState Header Consensus StateTransition Transaction Heap TxList TxListSpec TxPricedList TxPricedSpec TxPool TxPoolSpec.

Local Open Scope Z_scope.

Module TxPoolOps.

Import TxList TxListSpec Priced PricedSpec TxPool TxPoolSpec.

(** ** Lists *)

Section lists.
Context `{MO : MapOrder}.

Lemma split_at_nonce (s : list Tx) t : StronglySorted nonce_lt s -> t ∈ s ->
  t :: filter (fun x => Nonce t < Nonce x) (Spec.remove (Nonce t) s) ++ filter (fun x => Nonce x < Nonce t) (Spec.remove (Nonce t) s) ≡ₚ s.
Proof.
  intros Hs Ht. apply NoDup_Permutation.
  - apply NoDup_cons. split.
    + rewrite elem_of_app, !list_elem_of_filter. intros [[? _]|[? _]]; lia.
    + apply NoDup_app. split; [|split]; [by repeat apply NoDup_filter; apply sorted_NoDup| |by repeat apply NoDup_filter; apply sorted_NoDup].
      intros x [? _]%list_elem_of_filter [? _]%list_elem_of_filter. lia.
  - by apply sorted_NoDup.
  - intros x. unfold Spec.remove. rewrite elem_of_cons, elem_of_app, !list_elem_of_filter. split.
    + intros [->|[(_ & _ & ?)|(_ & _ & ?)]]; done.
    + intros Hx. destruct (Z.lt_total (Nonce x) (Nonce t)) as [|[E|]]; [right; right; split; [done|]; split; [lia|done]| |right; left; split; [done|]; split; [lia|done]].
      left. by eapply sorted_by_lookup.
Qed.

Lemma Remove_strict l t : l_ok l -> strict l = true -> l_items l !! Nonce t = Some t ->
  exists invalids l', Remove t l = Ok (true, invalids, l') /\ l_ok l' /\ strict l' = strict l /\
    (t :: invalids) ++ l_contents l' ≡ₚ l_contents l /\ (forall x, x ∈ l_contents l' <-> x ∈ l_contents l /\ Nonce x < Nonce t).
Proof.
  intros Hl Hst Ht. destruct (list_Remove_spec t l Hl) as (inv & l' & E & Hl' & Hst' & Hr). rewrite Ht, bool_decide_true in * by eauto.
  rewrite Hst in Hr. destruct Hr as [Hr1 Hr2]. exists inv, l'. split; [done|]. split; [done|]. split; [done|]. split.
  - rewrite Hr2, Hr1. apply split_at_nonce; [by apply l_sorted|by apply elem_contents].
  - intros x. rewrite Hr2. unfold Spec.remove. rewrite !list_elem_of_filter. split; [tauto|]. intros [? ?]. split; [done|]. split; [lia|done].
Qed.

Lemma Remove_loose l t : l_ok l -> strict l = false -> l_items l !! Nonce t = Some t ->
  exists l', Remove t l = Ok (true, [], l') /\ l_ok l' /\ strict l' = strict l /\ [t] ++ l_contents l' ≡ₚ l_contents l.
Proof.
  intros Hl Hst Ht. destruct (list_Remove_spec t l Hl) as (inv & l' & E & Hl' & Hst' & Hr). rewrite Ht, bool_decide_true in * by eauto.
  rewrite Hst in Hr. destruct Hr as [-> Hr2]. exists l'. split; [done|]. split; [done|]. split; [done|]. rewrite Hr2.
  assert (t ∈ l_contents l) as Hin by (by apply elem_contents). rewrite <- (split_at_nonce (l_contents l) t) at 2; [|by apply l_sorted|done]. simpl. f_equiv.
  unfold Spec.remove. rewrite <- (keep_partition (fun x => Nonce t <? Nonce x) (filter (fun x => Nonce x <> Nonce t) (l_contents l))) at 1. unfold Spec.keep.
  f_equiv; rewrite !list_filter_filter; erewrite list_filter_iff; try done; intros x; simpl; rewrite ?Z.ltb_lt, ?Z.ltb_ge; lia.
Qed.

Lemma Remove_absent l t : l_ok l -> l_items l !! Nonce t = None ->
  exists l', Remove t l = Ok (false, [], l') /\ l_ok l' /\ strict l' = strict l /\ l_items l' = l_items l.
Proof.
  intros Hl Ht. destruct (map_Remove_spec (Nonce t) (txs l) (proj1 Hl)) as (m' & E & Hm' & Ei). unfold Remove. rewrite E. fold (l_items l). rewrite Ht. simpl.
  eexists. split; [done|]. assert (items m' = items (txs l)) as Ei' by (rewrite Ei; apply delete_id; exact Ht).
  split; [|split; done]. apply l_ok_sub; [done|done|]. unfold l_contents, contents. by rewrite Ei'.
Qed.

(** [Add] where the nonce is free, and where it is not. *)
Lemma Add_free t pb l : l_ok l -> is_u64 (Nonce t) -> l_items l !! Nonce t = None ->
  exists l', Add t pb l = (true, None, l') /\ l_ok l' /\ strict l' = strict l /\ l_items l' = <[Nonce t := t]> (l_items l).
Proof.
  intros Hl Hu Hn. pose proof (Add_spec t pb l Hl Hu) as Ha. destruct (Add t pb l) as [[ins old] l']. destruct Ha as (Hl' & Hst & Ha). destruct ins.
  - destruct Ha as (-> & Hi & _ & _). rewrite Hn. exists l'. done.
  - destruct Ha as (_ & _ & o & E & _). congruence.
Qed.

(** Take one transaction out: what a replacement does first. *)
Lemma without l o : l_ok l -> l_items l !! Nonce o = Some o -> exists l1, l_ok l1 /\ strict l1 = strict l /\ [o] ++ l_contents l1 ≡ₚ l_contents l /\
  l_items l1 = delete (Nonce o) (l_items l).
Proof.
  intros Hl Ho. destruct (map_Remove_spec (Nonce o) (txs l) (proj1 Hl)) as (m' & _ & Hm' & Ei). exists (with_txs m' l).
  assert (forall x, x ∈ contents m' -> x ∈ l_contents l) as Hsub.
  { intros x Hx. apply elem_by_nonce in Hx; [|apply Hm']. rewrite Ei in Hx. apply lookup_delete_Some in Hx as [_ Hx]. by apply elem_contents. }
  split; [by apply l_ok_sub|]. split; [done|]. split; [|done]. unfold l_contents at 1. simpl. unfold contents. rewrite Ei, by_nonce_delete by (by apply l_keyed).
  change (by_nonce (items (txs l))) with (l_contents l).
  assert (o ∈ l_contents l) as Hin by (by apply elem_contents). rewrite <- (split_at_nonce (l_contents l) o) at 2; [|by apply l_sorted|done]. f_equiv.
  unfold Spec.remove. rewrite <- (keep_partition (fun x => Nonce o <? Nonce x) (filter (fun x => Nonce x <> Nonce o) (l_contents l))) at 1. unfold Spec.keep.
  f_equiv; rewrite !list_filter_filter; erewrite list_filter_iff; try done; intros x; simpl; rewrite ?Z.ltb_lt, ?Z.ltb_ge; lia.
Qed.
End lists.

Section pool.
Context {DB : Type} `{SDB : StateDB DB} `{MO : MapOrder}.
Implicit Types p : TxPool DB.

Definition pok (O : list Tx) p : Prop := ok true O (pending p) (queue p) (all p) (priced p).
Definition pool_ok p : Prop := pok [] p /\ full (pending p) /\ full (queue p).

(** What the operations on transactions leave alone. *)
Definition params p : TxPoolConfig * ChainConfig * Z * bool * DB * Z * accountSet :=
  (config p, chainconfig p, poolPrice p, eip1559 p, currentState p, currentMaxGas p, locals p).

Lemma priced_Removed_ok n O p : pok O p -> exists pr, priced_Removed n p = Ok (with_priced pr p) /\ pok O (with_priced pr p).
Proof.
  intros Hok. destruct (Removed_ok n (all p) (priced p) (ok_priced _ _ _ _ _ _ Hok)) as (pr & E & Hpr & _). unfold priced_Removed. rewrite E. simpl.
  exists pr. split; [done|]. by eapply ok_reprice.
Qed.

Lemma full_insert m a l : full m -> l_items l <> ∅ -> full (<[a := l]> m).
Proof. intros Hf Hl b x [[<- <-]|[_ E]]%lookup_insert_Some; [done|by eapply Hf]. Qed.
Lemma full_delete m a : full_but a m -> full (delete a m).
Proof. intros Hf b x [Hne E]%lookup_delete_Some. eapply Hf; [|done]. congruence. Qed.
Lemma full_weaken a m : full m -> full_but a m.
Proof. intros Hf b l _. apply Hf. Qed.
Lemma full_but_insert m a l : full_but a m -> full_but a (<[a := l]> m).
Proof. intros Hf b x Hne E. rewrite lookup_insert_ne in E by done. by eapply Hf. Qed.
Lemma full_but_nonempty m a l : full_but a m -> m !! a = Some l -> l_items l <> ∅ -> full m.
Proof. intros Hf El Hl b x E. destruct (decide (b = a)) as [->|]; [by simplify_eq|by eapply Hf]. Qed.
Lemma insert_nonempty (m : gmap Z Tx) n t : <[n := t]> m <> ∅.
Proof. apply insert_non_empty. Qed.

Lemma sender_some t a : tx_from t = Some a -> sender_of t = a.
Proof. unfold sender_of. by intros ->. Qed.

(** [enqueueTx] with a transaction that is off the lists. *)
Lemma requeue_ok now t O p : pok (t :: O) p -> exists a l' p', tx_from t = Some a /\ requeue now t p = Ok p' /\ pok O p' /\
  queue p' = <[a := l']> (queue p) /\ l_items l' = <[Nonce t := t]> (l_items (default (newTxList false) (queue p !! a))) /\
  pending p' = pending p /\ all p' = all p /\ priced p' = priced p /\ params p' = params p /\
  forall x, requeue now t (with_priced x p) = Ok (with_priced x p').
Proof.
  intros Hok. pose proof (ok_free _ _ _ _ _ _ Hok) as Hf. apply Forall_cons in Hf as [(Hu & a & Ha & E1 & E2) _].
  set (l := default (newTxList false) (queue p !! a)).
  assert (l_ok l /\ strict l = false) as [Hl Hst].
  { unfold l. destruct (queue p !! a) as [x|] eqn:E; simpl; [by apply (lo_queue _ _ _ (ok_lists _ _ _ _ _ _ Hok) a x)|split; [apply newTxList_ok|done]]. }
  assert (forall n, l_items l !! n = tx_at (queue p) a n) as Hget.
  { intros n. unfold l, tx_at. destruct (queue p !! a); [done|]. simpl. unfold l_items. simpl. apply lookup_empty. }
  destruct (Add_free t (PriceBump (config p)) l Hl Hu) as (l' & Eadd & Hl' & Hst' & Hi'); [by rewrite Hget|].
  assert (pok O (with_queue (<[a := l']> (queue p)) p)) as Hok'.
  { eapply ok_put; [exact Hok|done|by rewrite Hst', Hst|done|]. intros n. rewrite Hi'. case_decide as En; [subst; apply lookup_insert_eq|]. by rewrite lookup_insert_ne, Hget by done. }
  assert (forall x : TxPool DB, queue x = queue p -> config x = config p -> requeue now t x =
    Ok (match beats x !! a with Some _ => with_queue (<[a := l']> (queue x)) x | None => with_beats (<[a := now]> (beats x)) (with_queue (<[a := l']> (queue x)) x) end)) as Hrun.
  { intros x Eq Ec. unfold requeue, enqueueTx. rewrite (sender_some t a Ha), Eq, Ec. fold l. rewrite Eadd. cbn [negb mbind res_bind]. cbn [beats with_queue]. by destruct (beats x !! a). }
  eexists a, l', _. split; [done|]. split; [by apply Hrun|]. split; [by destruct (beats p !! a)|].
  repeat split; try by destruct (beats p !! a). intros x. rewrite Hrun by done. cbn. by destruct (beats p !! a).
Qed.

Lemma requeue_full now t O p p' : pok (t :: O) p -> requeue now t p = Ok p' -> full (queue p) -> full (queue p').
Proof.
  intros Hok E Hf. destruct (requeue_ok now t O p Hok) as (a & l' & p1 & _ & E' & _ & Eq & Ei & _). assert (p1 = p') as -> by congruence. rewrite Eq.
  apply full_insert; [done|]. rewrite Ei. apply insert_nonempty.
Qed.

Lemma requeue_all_ok now ts : forall O p, pok (ts ++ O) p -> exists p', each (requeue now) ts p = Ok p' /\ pok O p' /\
  (full (queue p) -> full (queue p')) /\ pending p' = pending p /\ all p' = all p /\ params p' = params p /\ priced p' = priced p /\
  forall x, each (requeue now) ts (with_priced x p) = Ok (with_priced x p').
Proof.
  induction ts as [|t ts IH]; intros O p Hok; simpl; [by exists p|].
  destruct (requeue_ok now t _ p Hok) as (a & l' & p1 & _ & E & Hok1 & Eq & Ei & Ep & Ea & Epr & Epar & Hx).
  pose proof (requeue_full _ _ _ _ _ Hok E) as Hful. rewrite E. cbn [mbind res_bind]. destruct (IH O p1 Hok1) as (p' & -> & Hok' & Hful' & Ep' & Ea' & Epar' & Epr' & Hx').
  exists p'. split; [done|]. split; [done|]. split; [auto|]. repeat split; try congruence. intros x. rewrite Hx. apply Hx'.
Qed.

(** ** [removeTx] *)

Lemma known_listed O p h t : pok O p -> lk_Get h (all p) = Some t -> tx_hash t = h /\ (listed (pending p) (queue p) t \/ t ∈ O).
Proof. intros Hok. rewrite lk_Get_known. apply (ok_known _ _ _ _ _ _ Hok). Qed.

Lemma get_Some m a n t : tx_at m a n = Some t -> exists l, m !! a = Some l /\ l_items l !! n = Some t.
Proof. unfold tx_at. destruct (m !! a) as [l|]; [|done]. eauto. Qed.

(** Forgetting a transaction, and perhaps counting it as removed. *)
Lemma forget_then_price (oob : bool) t O p : pok (t :: O) p -> exists pr,
  (if oob then priced_Removed 1 (with_all (lk_Remove (tx_hash t) (all p)) p) else Ok (with_all (lk_Remove (tx_hash t) (all p)) p)) =
    Ok (with_priced pr (with_all (lk_Remove (tx_hash t) (all p)) p)) /\ pl_ok (lk_Remove (tx_hash t) (all p)) pr.
Proof.
  intros Hok. assert (pok O (with_all (lk_Remove (tx_hash t) (all p)) p)) as Hok' by (by apply ok_forget). destruct oob.
  - destruct (priced_Removed_ok 1 O _ Hok') as (pr & E & Hpr). exists pr. split; [done|]. apply Hpr.
  - exists (priced p). split; [done|]. apply Hok'.
Qed.

(** Taking a pending transaction, and what comes after it, off its list. *)
Lemma take_pending p a l l' removed : pok [] p -> pending p !! a = Some l -> l_ok l' -> strict l' = strict l ->
  removed ++ l_contents l' ≡ₚ l_contents l -> ok true removed (<[a := l']> (pending p)) (queue p) (all p) (priced p).
Proof.
  intros Hok El Hl' Hst Hp. pose proof (ok_sym _ _ _ _ _ _ Hok) as Hok2. pose proof (ok_take _ _ _ _ _ _ _ _ _ _ Hok2 El Hl' Hst Hp) as Hok3.
  apply ok_sym in Hok3. rewrite app_nil_r in Hok3. done.
Qed.

Lemma full_drop_pending m a l' : full m -> full (if Empty l' then delete a (<[a := l']> m) else <[a := l']> m).
Proof.
  intros Hf. rewrite Empty_spec. case_bool_decide as E; [apply full_delete, full_but_insert, full_weaken, Hf|by apply full_insert].
Qed.

Lemma delete_if_empty b O pend q al pr a l' : q !! a = Some l' -> ok b O pend q al pr -> ok b O pend (if Empty l' then delete a q else q) al pr.
Proof. intros El Hok. rewrite Empty_spec. case_bool_decide as E; [|done]. apply ok_delete; [done|]. intros l E2. congruence. Qed.

Lemma removeTx_pending now t oob p a : pool_ok p -> lk_Get (tx_hash t) (all p) = Some t -> tx_from t = Some a -> tx_at (pending p) a (Nonce t) = Some t ->
  exists p', removeTx now (tx_hash t) oob p = Ok p' /\ pool_ok p' /\ params p' = params p /\ all p' = lk_Remove (tx_hash t) (all p) /\
    (forall b n, tx_at (pending p') b n = if decide (b = a /\ Nonce t <= n) then None else tx_at (pending p) b n) /\
    (oob = false -> forall x, removeTx now (tx_hash t) oob (with_priced x p) = Ok (with_priced x p')).
Proof.
  intros (Hok & Hfp & Hfq) Hget Ha Hg. destruct (get_Some _ _ _ _ Hg) as (l & El & Ht). pose proof (ok_lists _ _ _ _ _ _ Hok) as Hlists.
  destruct (lo_pend _ _ _ Hlists a l El) as [Hl Hst]. destruct (Remove_strict l t Hl Hst Ht) as (inv & l' & Er & Hl' & Hst' & Hpart & Hless).
  pose proof (take_pending p a l l' _ Hok El Hl' Hst' Hpart) as Hok1.
  pose (p1 := with_pending (<[a := l']> (pending p)) p).
  destruct (forget_then_price oob t inv p1 Hok1) as (pr & Epr & Hpr).
  unfold removeTx. rewrite Hget, (sender_some t a Ha).
  pose (p2 := with_priced pr (with_all (lk_Remove (tx_hash t) (all p)) p)).
  assert ((if oob then priced_Removed 1 (with_all (lk_Remove (tx_hash t) (all p)) p) else Ok (with_all (lk_Remove (tx_hash t) (all p)) p)) = Ok p2) as ->.
  { destruct oob; [|injection Epr as <-; done]. unfold priced_Removed in *. cbn in Epr |- *. destruct (Removed 1 _ _) as [x| |]; cbn in *; [|done..]. injection Epr as <-. done. }
  cbn [mbind res_bind]. unfold remove_pending. change (pending p2) with (pending p). rewrite El, Er. cbn [mbind res_bind negb].
  set (p3 := if Empty l' then _ else _).
  assert (pok inv p3 /\ params p3 = params p /\ all p3 = lk_Remove (tx_hash t) (all p) /\ queue p3 = queue p /\
          pending p3 = (if Empty l' then delete a (<[a := l']> (pending p)) else <[a := l']> (pending p))) as (Hok3 & Epar & Eall & Eq & Ep).
  { assert (pok inv (set_pending a l' p2)) as Hok2 by (eapply ok_reprice; [apply ok_forget; exact Hok1|exact Hpr]).
    pose proof (delete_if_empty _ _ _ _ _ _ a l' ltac:(apply lookup_insert_eq) (ok_sym _ _ _ _ _ _ Hok2)) as Hok3. apply ok_sym in Hok3.
    unfold p3. destruct (Empty l'); (split; [exact Hok3|]; done). }
  destruct (requeue_all_ok now inv [] p3) as (p4 & E4 & Hok4 & Hful4 & Ep4 & Ea4 & Epar4 & _ & Hx4); [by rewrite app_nil_r|].
  rewrite E4. cbn [mbind res_bind]. eexists. split; [done|]. split; [|split; [|split; [|split]]].
  - split; [exact Hok4|]. split; [cbn; rewrite Ep4, Ep; by apply full_drop_pending|]. cbn. apply Hful4. by rewrite Eq.
  - cbn. rewrite <- Epar, <- Epar4. done.
  - cbn. by rewrite Ea4, Eall.
  - intros b n. cbn. rewrite Ep4, Ep.
    assert (tx_at (if Empty l' then delete a (<[a:=l']> (pending p)) else <[a:=l']> (pending p)) b n = tx_at (<[a := l']> (pending p)) b n) as ->.
    { rewrite Empty_spec. case_bool_decide as Ee; [|done]. rewrite get_delete, get_insert. case_decide; [by rewrite Ee, lookup_empty|done]. }
    rewrite get_insert. destruct (decide (b = a)) as [->|]; [|by rewrite decide_False by tauto]. unfold tx_at. rewrite El. apply option_eq. intros x.
    assert (l_items l' !! n = Some x <-> l_items l !! n = Some x /\ n < Nonce t) as Hx.
    { split.
      - intros E. destruct (l_keyed l' Hl' _ _ E) as [<- _]. apply elem_contents in E; [|done]. apply Hless in E as [E ?]. split; [by apply elem_contents|done].
      - intros [E Hn]. destruct (l_keyed l Hl _ _ E) as [<- _]. apply elem_contents; [done|]. apply Hless. split; [by apply elem_contents|done]. }
    rewrite Hx. case_decide; [|split; [tauto|intros; split; [done|lia]]]. split; [intros [_ ?]; lia|done].
  - intros -> x. unfold removeTx. change (all (with_priced x p)) with (all p). rewrite Hget, (sender_some t a Ha). cbn [mbind res_bind]. unfold remove_pending.
    change (pending _) with (pending p) at 1. rewrite El, Er. cbn [mbind res_bind negb].
    match goal with |- context [each (requeue now) inv ?y] => assert (y = with_priced x p3) as -> end.
    { unfold p3, p2. destruct (Empty l'); done. }
    rewrite Hx4. done.
Qed.

Lemma removeTx_queue now t oob p a : pool_ok p -> lk_Get (tx_hash t) (all p) = Some t -> tx_from t = Some a -> tx_at (queue p) a (Nonce t) = Some t ->
  exists p', removeTx now (tx_hash t) oob p = Ok p' /\ pool_ok p' /\ params p' = params p /\ all p' = lk_Remove (tx_hash t) (all p) /\
    (forall b n, tx_at (pending p') b n = tx_at (pending p) b n) /\
    (forall b n, tx_at (queue p') b n = if decide (b = a /\ n = Nonce t) then None else tx_at (queue p) b n) /\
    (oob = false -> forall x, removeTx now (tx_hash t) oob (with_priced x p) = Ok (with_priced x p')).
Proof.
  intros (Hok & Hfp & Hfq) Hget Ha Hg. destruct (get_Some _ _ _ _ Hg) as (l & El & Ht). pose proof (ok_lists _ _ _ _ _ _ Hok) as Hlists.
  destruct (lo_queue _ _ _ Hlists a l El) as [Hl Hst]. destruct (Remove_loose l t Hl Hst Ht) as (l' & Er & Hl' & Hst' & Hpart).
  assert (tx_at (pending p) a (Nonce t) = None) as Hgp by (destruct (lo_disj _ _ _ Hlists a (Nonce t)); congruence).
  (* the pending list of the account, looked at and left as it is *)
  assert (exists pend', (forall b n, tx_at pend' b n = tx_at (pending p) b n) /\ full pend' /\ ok true [] pend' (queue p) (all p) (priced p) /\
    forall (x : TxPool DB), pending x = pending p -> remove_pending now t a x = Ok (false, with_pending pend' x)) as (pend' & Hgp' & Hfp' & Hok' & Hrun).
  { destruct (pending p !! a) as [lp|] eqn:Elp.
    - destruct (lo_pend _ _ _ Hlists a lp Elp) as [Hlp Hstp]. unfold tx_at in Hgp. rewrite Elp in Hgp.
      destruct (Remove_absent lp t Hlp Hgp) as (lp' & Erp & Hlp' & Hstp' & Hip). exists (<[a := lp']> (pending p)). split; [|split; [|split]].
      + intros b n. rewrite get_insert. case_decide; [subst; unfold tx_at; by rewrite Elp, Hip|done].
      + apply full_insert; [done|]. rewrite Hip. by apply (Hfp a).
      + apply (ok_sym false). eapply (ok_same false); [apply (ok_sym true), Hok|exact Elp|done|done|done].
      + intros x Ex. unfold remove_pending. rewrite Ex, Elp, Erp. cbn [mbind res_bind negb]. unfold set_pending. rewrite Ex. done.
    - exists (pending p). split; [done|]. split; [done|]. split; [done|]. intros x Ex. unfold remove_pending. rewrite Ex, Elp, <- Ex. by destruct x. }
  assert (ok true [t] pend' (<[a := l']> (queue p)) (all p) (priced p)) as Hok1.
  { rewrite <- (app_nil_r [t]). eapply ok_take; [exact Hok'|done|done|done|done]. }
  pose (p1 := with_pending pend' (with_queue (<[a := l']> (queue p)) p)).
  destruct (forget_then_price oob t [] p1 Hok1) as (pr & Epr & Hpr). unfold removeTx. rewrite Hget, (sender_some t a Ha).
  pose (p2 := with_priced pr (with_all (lk_Remove (tx_hash t) (all p)) p)).
  assert ((if oob then priced_Removed 1 (with_all (lk_Remove (tx_hash t) (all p)) p) else Ok (with_all (lk_Remove (tx_hash t) (all p)) p)) = Ok p2) as ->.
  { destruct oob; [|injection Epr as <-; done]. unfold priced_Removed in *. cbn in Epr |- *. destruct (Removed 1 _ _) as [x| |]; cbn in *; [|done..]. injection Epr as <-. done. }
  cbn [mbind res_bind]. rewrite (Hrun p2 eq_refl). cbn [mbind res_bind]. change (queue (with_pending pend' p2)) with (queue p). rewrite El, Er. cbn [mbind res_bind].
  eexists. split; [done|].
  assert (oob = false -> forall x, removeTx now (tx_hash t) oob (with_priced x p) = Ok (with_priced x (drop_empty_queue a l' (set_queue a l' (with_pending pend' p2))))) as Hx.
  { intros -> x. unfold removeTx. change (all (with_priced x p)) with (all p). rewrite Hget, (sender_some t a Ha). cbn [mbind res_bind]. rewrite Hrun by done. cbn [mbind res_bind].
    change (queue (with_pending _ _)) with (queue p). rewrite El, Er. cbn [mbind res_bind]. unfold drop_empty_queue. by destruct (Empty l'). }
  assert (pok [] (set_queue a l' (with_pending pend' p2))) as Hok2 by (eapply ok_reprice; [apply ok_forget; exact Hok1|exact Hpr]).
  pose proof (delete_if_empty true [] pend' (<[a := l']> (queue p)) (lk_Remove (tx_hash t) (all p)) pr a l' ltac:(apply lookup_insert_eq) Hok2) as Hok3.
  unfold drop_empty_queue in *. rewrite !(Empty_spec l') in *.
  assert (forall b n, tx_at (<[a := l']> (queue p)) b n = if decide (b = a /\ n = Nonce t) then None else tx_at (queue p) b n) as Hgq.
  { intros b n. rewrite get_insert. destruct (decide (b = a)) as [->|]; [|by rewrite decide_False by tauto].
    rewrite (items_partition l l' [t] Hl Hl' Hpart). unfold tx_at. rewrite El. simpl. destruct (decide (n = Nonce t)) as [->|].
    - rewrite decide_True by (by left). by rewrite decide_True.
    - rewrite decide_False by (by rewrite list_elem_of_singleton). by rewrite decide_False by tauto. }
  case_bool_decide as Ee.
  - split; [split; [exact Hok3|split; [exact Hfp'|apply full_delete, full_but_insert, full_weaken, Hfq]]|]. split; [done|]. split; [done|]. split; [exact Hgp'|].
    split; [|exact Hx]. intros b n. rewrite <- Hgq. cbn. rewrite get_delete, get_insert. case_decide; [by rewrite Ee, lookup_empty|done].
  - split; [split; [exact Hok3|split; [exact Hfp'|by apply full_insert]]|]. split; [done|]. split; [done|]. split; [exact Hgp'|]. split; [|exact Hx]. intros b n. apply Hgq.
Qed.

Lemma removeTx_ok now h oob p : pool_ok p -> exists p', removeTx now h oob p = Ok p' /\ pool_ok p' /\ params p' = params p /\
  all p' = lk_Remove h (all p) /\ (oob = false -> forall x, removeTx now h oob (with_priced x p) = Ok (with_priced x p')).
Proof.
  intros Hp. pose proof Hp as (Hok & _). destruct (lk_Get h (all p)) as [t|] eqn:E.
  - destruct (known_listed _ _ _ _ Hok E) as [<- [(a & Ha & Hg)|Hin]]; [|by apply elem_of_nil in Hin]. destruct Hg as [Hg|Hg].
    + destruct (removeTx_pending now t oob p a Hp E Ha Hg) as (p' & ? & ? & ? & ? & _ & ?). eauto 6.
    + destruct (removeTx_queue now t oob p a Hp E Ha Hg) as (p' & ? & ? & ? & ? & _ & _ & ?). eauto 6.
  - exists p. unfold removeTx. rewrite E. split; [done|]. split; [done|]. split; [done|]. split; [unfold lk_Remove; by rewrite E|].
    intros _ x. change (all (with_priced x p)) with (all p). by rewrite E.
Qed.

Lemma removeTx_all_ok now oob ts : forall p, pool_ok p -> exists p', each (fun t => removeTx now (tx_hash t) oob) ts p = Ok p' /\ pool_ok p' /\ params p' = params p /\
  known (all p') ⊆ known (all p) /\ lk_remotes (all p') ⊆ lk_remotes (all p) /\ (forall t, t ∈ ts -> known (all p') !! tx_hash t = None) /\
  (oob = false -> forall x, each (fun t => removeTx now (tx_hash t) oob) ts (with_priced x p) = Ok (with_priced x p')).
Proof.
  induction ts as [|t ts IH]; intros p Hp; simpl; [exists p; split; [done|]; split; [done|]; split; [done|]; split; [done|]; split; [done|]; split; [by intros t ?%elem_of_nil|done]|].
  destruct (removeTx_ok now (tx_hash t) oob p Hp) as (p1 & -> & Hp1 & E1 & Ek1 & Hx1). cbn [mbind res_bind]. destruct (IH p1 Hp1) as (p' & -> & Hp' & E' & Hsub & Hrsub & Hnone & Hx').
  exists p'. split; [done|]. split; [done|]. split; [congruence|]. destruct (lk_Remove_spec (tx_hash t) (all p) ltac:(apply Hp)) as (_ & Ek & Er & _). rewrite Ek1 in Hsub, Hrsub. rewrite Ek in Hsub. rewrite Er in Hrsub.
  split; [etransitivity; [exact Hsub|apply delete_subseteq]|]. split; [etransitivity; [exact Hrsub|apply delete_subseteq]|].
  split; [|intros Hoob y; rewrite (Hx1 Hoob); cbn [mbind res_bind]; by apply Hx'].
  intros x [->|Hx]%elem_of_cons; [|by apply Hnone]. destruct (known (all p') !! tx_hash t) eqn:Ex; [|done].
  eapply lookup_weaken in Ex; [|exact Hsub]. by rewrite lookup_delete_eq in Ex.
Qed.
(** ** [add] *)

(** The settings that nothing but a reset or a new price changes. *)
Definition settings p : TxPoolConfig * ChainConfig * Z * bool * DB * Z := (params p).1.
Definition sized p : Prop := forall h t, known (all p) !! h = Some t -> 0 <= tx_size t.
Definition tx_wf (t : Tx) : Prop := is_u64 (Nonce t) /\ 0 <= tx_size t.

Lemma sized_sub p p' : known (all p') ⊆ known (all p) -> sized p -> sized p'.
Proof. intros Hs Hz h t E. eapply Hz, lookup_weaken; done. Qed.

Lemma numSlots_nonneg t : 0 <= tx_size t -> 0 <= numSlots t.
Proof. intros Ht. unfold numSlots, txSlotSize. apply Z.div_pos; lia. Qed.

Lemma slots_nonneg p : pool_ok p -> sized p -> 0 <= Slots (all p).
Proof.
  intros (Hok & _) Hz. unfold Slots. rewrite (ok_slots _ _ _ _ _ _ Hok). unfold slots_of, sized in *. induction (known (all p)) as [|h t m Hh IH] using map_ind.
  - rewrite map_fold_empty. done.
  - rewrite map_fold_insert_L; [|intros; lia|done]. assert (0 <= numSlots t) by (eapply numSlots_nonneg, (Hz h); by rewrite lookup_insert_eq).
    assert (0 <= map_fold (fun _ x n => numSlots x + n) 0 m); [|lia]. apply IH. intros h' t' E. apply (Hz h'). rewrite lookup_insert_ne; [done|]. intros ->. congruence.
Qed.

Lemma make_room_ok now t isLocal p : pool_ok p -> sized p -> 0 <= tx_size t -> exists e p', make_room now t isLocal p = Ok (e, p') /\ pool_ok p' /\
  params p' = params p /\ known (all p') ⊆ known (all p).
Proof.
  intros Hp Hz Ht. pose proof Hp as (Hok & Hfp & Hfq). unfold make_room. cbn zeta. set (limit := add64 _ _). destruct (negb _) eqn:Eu; [by exists None, p|].
  assert (exists u pr, (if isLocal then Ok (false, priced p) else Underpriced (all p) t (priced p)) = Ok (u, pr) /\ pl_ok (all p) pr) as (u & pr & -> & Hpr).
  { destruct isLocal; [eexists _, _; split; [done|]; apply Hok|]. destruct (Underpriced_ok (all p) t (priced p)) as (u & pr & -> & Hpr & _); [apply Hok..|]. eauto. }
  cbn [mbind res_bind]. assert (pool_ok (with_priced pr p)) as Hp1 by (split; [by eapply ok_reprice|done]). destruct u; [by exists (Some ErrUnderpriced), (with_priced pr p)|].
  destruct (changesSinceReorg (with_priced pr p) >? _); [by exists (Some ErrTxPoolOverflow), (with_priced pr p)|]. cbn [all priced with_priced].
  destruct (Discard_ok (all p) (Slots (all p) - i64 limit + numSlots t) isLocal pr) as (drop & success & pr' & -> & Hh & Hd & Hdr & Hfail & _ & _); [apply Hok|done| |].
  { apply negb_false_iff in Eu. rewrite Z.gtb_ltb in Eu. apply Z.ltb_lt in Eu. pose proof (slots_nonneg p Hp Hz). pose proof (numSlots_nonneg t Ht).
    assert (u64 (Slots (all p) + numSlots t) <= Slots (all p) + numSlots t) by (apply Z.mod_le; lia).
    assert (is_u64 limit) as Hlim by apply add64_range. unfold is_u64 in Hlim. assert (i64 limit <= limit); [|lia].
    unfold i64. rewrite Z.mod_small by lia. destruct (limit <? 2 ^ 63); lia. }
  cbn [mbind res_bind].
  assert (pl_ok (all p) pr' \/ (success = true)) as Hcase.
  { destruct success; [by right|]. left. destruct (Hfail eq_refl) as [_ ->]. split; [done|]. intros h x E. destruct (Hd h x E) as [Hx|]; [by apply elem_of_nil in Hx|done]. }
  destruct (negb isLocal && negb success) eqn:Ef.
  { eexists _, _. split; [done|]. destruct Hcase as [Hpr'| ->]; [|rewrite andb_false_r in Ef; done]. split; [split; [by eapply ok_reprice|done]|]. done. }
  (* the dropped transactions leave the pool, so that the heaps cover the rest *)
  destruct (removeTx_all_ok now false drop (with_changes (changesSinceReorg p + zlen drop) (with_priced pr p))) as (p3 & _ & (Hok3 & Hf3) & Epar & Hsub & Hrsub & Hnone & Hx); [exact Hp1|].
  specialize (Hx eq_refl pr'). cbn [with_priced with_changes changesSinceReorg] in Hx |- *.
  match goal with |- context [each _ drop ?y] => change y with (with_priced pr' (with_changes (changesSinceReorg p + zlen drop) (with_priced pr p))) end.
  cbn [with_priced with_changes]. rewrite Hx. cbn [mbind res_bind]. eexists _, _. split; [done|]. split; [|split; [exact Epar|exact Hsub]].
  split; [|exact Hf3]. eapply ok_reprice; [exact Hok3|]. split; [exact Hh|]. intros h y E. pose proof (lk_Get_remote _ _ _ (ok_lookup _ _ _ _ _ _ Hok3) E) as Eg. rewrite lk_Get_known in Eg.
  assert (lk_remotes (all p) !! h = Some y) as Eold by (eapply lookup_weaken; [exact E|exact Hrsub]).
  destruct (Hd h y Eold) as [Hin|]; [|done]. exfalso. assert (known (all p3) !! tx_hash y = None) as En by (by apply Hnone).
  pose proof (lk_remote _ (ok_lookup _ _ _ _ _ _ Hok3) _ _ E). congruence.
Qed.

(** A new transaction into its place, where it may replace another. *)
Lemma Add_new b pend q al pr a t pb : ok b [] pend q al pr -> tx_from t = Some a -> is_u64 (Nonce t) -> known al !! tx_hash t = None ->
  tx_at pend a (Nonce t) = None ->
  let '(inserted, old, l') := Add t pb (default (newTxList (negb b)) (q !! a)) in
  let al' := match old with Some o => lk_Remove (tx_hash o) al | None => al end in
  if inserted : bool
  then l_items l' <> ∅ /\ pl_ok al' pr /\ known al' ⊆ known al /\ lk_ok al' /\
    forall pr' loc, pl_ok al' pr' -> ok b [] pend (<[a := l']> q) (lk_Add t loc al') (Put t loc pr')
  else q !! a = Some l'.
Proof.
  intros Hok Ha Hu Hnew Hp. set (l := default _ _).
  assert (l_ok l /\ strict l = negb b /\ forall n, l_items l !! n = tx_at q a n) as (Hl & Hst & Hget).
  { unfold l, tx_at. destruct (q !! a) as [x|] eqn:E; simpl; [destruct (lo_queue _ _ _ (ok_lists _ _ _ _ _ _ Hok) a x E); done|]. split; [apply newTxList_ok|]. split; [done|]. intros n. apply lookup_empty. }
  pose proof (Add_spec t pb l Hl Hu) as Hadd. destruct (Add t pb l) as [[ins old] l']. destruct Hadd as (Hl' & Hst' & Hadd). destruct ins.
  - destruct Hadd as (Eold & Hi & _ & _). assert (l_items l' <> ∅) as Hne by (rewrite Hi; apply insert_nonempty). destruct old as [o|]; cbn zeta.
    + symmetry in Eold. destruct (l_keyed l Hl _ _ Eold) as [En _]. pose proof Eold as Ego. rewrite Hget in Ego. rewrite <- En in Eold.
      destruct (get_Some _ _ _ _ Ego) as (l0 & El0 & _). assert (l0 = l) as -> by (unfold l; by rewrite El0).
      destruct (without l o Hl Eold) as (l1 & Hl1 & Hst1 & Hpart & Hi1).
      pose proof (ok_take _ _ _ _ _ _ _ _ _ _ Hok El0 Hl1 Hst1 Hpart) as Hok1. apply ok_forget in Hok1.
      destruct (lk_Remove_spec (tx_hash o) al (ok_lookup _ _ _ _ _ _ Hok)) as (Hlk & Ek & _). split; [done|]. split; [apply Hok1|]. split; [rewrite Ek; apply delete_subseteq|]. split; [done|].
      intros pr' loc Hpr'. rewrite <- (insert_insert_eq q a l' l1). eapply (ok_new b pend (<[a := l1]> q)); [by eapply ok_reprice|done|congruence|done| |done| |].
      * rewrite Ek. apply lookup_delete_None. by right.
      * rewrite get_insert, decide_True, Hi1, En by done. apply lookup_delete_eq.
      * intros n. rewrite Hi, get_insert. destruct (decide (n = Nonce t)) as [->|]; [apply lookup_insert_eq|]. rewrite decide_True by done. by rewrite Hi1, En, lookup_insert_ne, lookup_delete_ne by done.
    + split; [done|]. split; [apply Hok|]. split; [done|]. split; [apply Hok|]. intros pr' loc Hpr'. eapply ok_new; [by eapply ok_reprice|done|congruence|done|done|done|by rewrite <- Hget|].
      intros n. rewrite Hi, <- Hget. case_decide; [subst; apply lookup_insert_eq|by rewrite lookup_insert_ne].
  - destruct Hadd as (_ & -> & o & Eo & _). unfold l in *. destruct (q !! a); [done|]. simpl in Eo. unfold l_items in Eo. simpl in Eo. by rewrite lookup_empty in Eo.
Qed.

(** What an operation on the transaction [t] does to the pool. *)
Definition adds (t : Tx) (e : option PoolErr) p p' : Prop :=
  pool_ok p' /\ settings p' = settings p /\ (forall h x, known (all p') !! h = Some x -> known (all p) !! h = Some x \/ (e = None /\ x = t)) /\
  (e = None -> known (all p') !! tx_hash t = Some t).

Lemma adds_trans t e p p1 p2 : settings p1 = settings p -> known (all p1) ⊆ known (all p) -> adds t e p1 p2 -> adds t e p p2.
Proof.
  intros Es Hk (H1 & H2 & H3 & H4). split; [done|]. split; [congruence|]. split; [|done]. intros h x E. destruct (H3 h x E) as [E'|]; [left; by eapply lookup_weaken|by right].
Qed.

Lemma known_Add t loc al h x : lk_ok al -> known al !! tx_hash t = None -> known (lk_Add t loc al) !! h = Some x -> known al !! h = Some x \/ x = t.
Proof.
  intros Hal Hn. rewrite <- lk_Get_known in Hn. destruct (lk_Add_spec t loc al Hal Hn) as [_ ->]. intros [[_ <-]|[_ ?]]%lookup_insert_Some; auto.
Qed.

Lemma known_sub_None (m m' : gmap Hash Tx) h : m' ⊆ m -> m !! h = None -> m' !! h = None.
Proof. intros Hs E. destruct (m' !! h) eqn:E'; [|done]. eapply lookup_weaken in E'; [|done]. congruence. Qed.

(** [old] counted as removed. *)
Lemma Removed_old (old : option Tx) p : let al' := match old with Some o => lk_Remove (tx_hash o) (all p) | None => all p end in
  pl_ok al' (priced p) ->
  exists pr, match old with Some o => priced_Removed 1 (with_all (lk_Remove (tx_hash o) (all p)) p) | None => Ok p end = Ok (with_priced pr (with_all al' p)) /\ pl_ok al' pr.
Proof.
  intros al' Hpr. destruct old as [o|]; [|exists (priced p); split; [by destruct p|done]]. destruct (Removed_ok 1 _ _ Hpr) as (pr & E & Hpr' & _).
  exists pr. split; [|done]. unfold priced_Removed. cbn [all priced with_all]. fold al'. rewrite E. done.
Qed.

Lemma enqueueTx_ok now t isLocal p a : pool_ok p -> tx_from t = Some a -> is_u64 (Nonce t) -> known (all p) !! tx_hash t = None -> tx_at (pending p) a (Nonce t) = None ->
  exists r e p', enqueueTx now (tx_hash t) t isLocal true p = Ok (r, e, p') /\ adds t e p p' /\ locals p' = locals p.
Proof.
  intros (Hok & Hfp & Hfq) Ha Hu Hnew Hp. pose proof (Add_new _ _ _ _ _ a t (PriceBump (config p)) Hok Ha Hu Hnew Hp) as Hadd. unfold enqueueTx. rewrite (sender_some t a Ha). cbn [negb] in Hadd.
  destruct (Add t _ _) as [[ins old] l']. cbn zeta in Hadd. destruct ins; cbn [negb].
  - destruct Hadd as (Hne & Hpr & Hsub & Hlk & Hok'). destruct (Removed_old old (with_queue (<[a := l']> (queue p)) p) Hpr) as (pr & E & Hpr'). cbn zeta. rewrite E. cbn [mbind res_bind].
    eexists _, _, _. split; [done|]. cbn [beats with_priced with_all with_queue].
    assert (known (match old with Some o => lk_Remove (tx_hash o) (all p) | None => all p end) !! tx_hash t = None) as Hnew' by (by eapply known_sub_None).
    split; [|by destruct (beats p !! a)]. split; [|split; [by destruct (beats p !! a)|split]].
    + assert (full (<[a := l']> (queue p))) by (by apply full_insert). specialize (Hok' pr isLocal Hpr'). destruct (beats p !! a); done.
    + intros h x E'. assert (known (lk_Add t isLocal (match old with Some o => lk_Remove (tx_hash o) (all p) | None => all p end)) !! h = Some x) as E2 by (by destruct (beats p !! a)).
      apply known_Add in E2 as [E2|]; [|by right|done|done]. left. by eapply lookup_weaken.
    + intros _. pose proof Hnew' as Hn2. rewrite <- lk_Get_known in Hn2. destruct (lk_Add_spec t isLocal _ Hlk Hn2) as [_ Ek].
      assert (known (lk_Add t isLocal (match old with Some o => lk_Remove (tx_hash o) (all p) | None => all p end)) !! tx_hash t = Some t); [rewrite Ek; apply lookup_insert_eq|]. by destruct (beats p !! a).
  - eexists _, _, _. split; [done|]. split; [|done]. assert (with_queue (<[a := l']> (queue p)) p = p) as -> by (rewrite insert_id by done; by destruct p).
    split; [done|]. split; [done|]. split; [by left|done].
Qed.

Lemma ok_localize b O pend q al pr locs : ok b O pend q al pr -> ok b O pend q (RemoteToLocals locs al).2 pr.
Proof.
  intros [H1 H2 H3 H4 H5 H6 H7]. destruct (RemoteToLocals_spec locs al H2) as (Hlk & Ek & Hr & Es). split; try done.
  - unfold slots_ok. by rewrite Es, Ek.
  - by eapply pl_ok_sub.
  - intros h t. rewrite Ek. apply H5.
Qed.

Lemma adds_journal a t e p p' : adds t e p p' -> adds t e p (journalTx a t p').
Proof. unfold journalTx. destruct (journal p'); [|done]. by destruct (as_contains a (locals p')). Qed.

Lemma adds_event t e p p' b : adds t e p p' -> adds t e p (with_beats b (queueTxEvent t p')).
Proof. by destruct p'. Qed.

Lemma enqueue_new_ok now t loc isLocal p a : pool_ok p -> tx_from t = Some a -> is_u64 (Nonce t) -> known (all p) !! tx_hash t = None -> tx_at (pending p) a (Nonce t) = None ->
  exists r e p', enqueue_new now t loc isLocal p = Ok (r, e, p') /\ adds t e p p'.
Proof.
  intros Hp Ha Hu Hnew Hg. destruct (enqueueTx_ok now t isLocal p a Hp Ha Hu Hnew Hg) as (r & e & p1 & E & Hadds & _). unfold enqueue_new. rewrite E, (sender_some t a Ha). cbn [mbind res_bind].
  destruct e as [e|]; [by exists false, (Some e), p1|]. destruct (loc && negb (as_contains a (locals p1))); cbn [mbind res_bind].
  - destruct (RemoteToLocals (locals (with_locals (as_add a (locals p1)) p1)) (all (with_locals (as_add a (locals p1)) p1))) as [mig al] eqn:Emig.
    destruct Hadds as ((Hok & Hf) & Es & Hk & Hin). pose proof (ok_localize _ _ _ _ _ _ (locals (with_locals (as_add a (locals p1)) p1)) Hok) as Hok'.
    pose proof (RemoteToLocals_spec (locals (with_locals (as_add a (locals p1)) p1)) (all p1) (ok_lookup _ _ _ _ _ _ Hok)) as (_ & Ek & _).
    cbn [all with_locals] in Emig. rewrite Emig in Hok', Ek. cbn [snd] in Hok', Ek.
    destruct (priced_Removed_ok mig [] (with_all al (with_locals (as_add a (locals p1)) p1)) Hok') as (pr & -> & Hok2). cbn [mbind res_bind].
    eexists _, _, _. split; [done|]. apply adds_journal. split; [split; [exact Hok2|exact Hf]|]. split; [exact Es|]. cbn [all with_priced with_all with_locals]. by rewrite Ek.
  - eexists _, _, _. split; [done|]. by apply adds_journal.
Qed.

(** A replacement of a pending transaction. *)
Lemma replace_pending t pb isLocal p a l : pool_ok p -> tx_from t = Some a -> is_u64 (Nonce t) -> known (all p) !! tx_hash t = None ->
  pending p !! a = Some l -> tx_at (queue p) a (Nonce t) = None ->
  let '(inserted, old, l') := Add t pb l in
  inserted = true -> exists pr, (match old with Some o => priced_Removed 1 (with_all (lk_Remove (tx_hash o) (all p)) (set_pending a l' p)) | None => Ok (set_pending a l' p) end)
      = Ok (with_priced pr (with_all (match old with Some o => lk_Remove (tx_hash o) (all p) | None => all p end) (set_pending a l' p))) /\
    let al' := lk_Add t isLocal (match old with Some o => lk_Remove (tx_hash o) (all p) | None => all p end) in
    ok true [] (<[a := l']> (pending p)) (queue p) al' (Put t isLocal pr) /\ full (<[a := l']> (pending p)) /\
    (forall h x, known al' !! h = Some x -> known (all p) !! h = Some x \/ x = t) /\ known al' !! tx_hash t = Some t.
Proof.
  intros (Hok & Hfp & Hfq) Ha Hu Hnew El Hg. pose proof (Add_new _ _ _ _ _ a t pb (ok_sym _ _ _ _ _ _ Hok) Ha Hu Hnew Hg) as Hadd. rewrite El in Hadd. change (default (newTxList (negb (negb true))) (Some l)) with l in Hadd.
  destruct (Add t pb l) as [[ins old] l']. cbn zeta in Hadd. intros ->. destruct Hadd as (Hne & Hpr & Hsub & Hlk & Hok').
  destruct (Removed_old old (set_pending a l' p) Hpr) as (pr & E & Hpr'). exists pr. split; [exact E|]. cbn zeta. specialize (Hok' pr isLocal Hpr'). apply ok_sym in Hok'.
  assert (known (match old with Some o => lk_Remove (tx_hash o) (all p) | None => all p end) !! tx_hash t = None) as Hnew' by (by eapply known_sub_None).
  split; [done|]. split; [by apply full_insert|]. split.
  - intros h x E'. apply known_Add in E' as [E'|]; [|by right|done|done]. left. by eapply lookup_weaken.
  - rewrite <- lk_Get_known in Hnew'. destruct (lk_Add_spec t isLocal _ Hlk Hnew') as [_ ->]. apply lookup_insert_eq.
Qed.

Lemma Overlaps_get p a l t : pending p !! a = Some l -> Overlaps t l = bool_decide (is_Some (tx_at (pending p) a (Nonce t))).
Proof. intros El. unfold Overlaps, tx_at, map_Get. by rewrite El. Qed.

Lemma validateTx_sender t b p : validateTx t b p = None -> exists a, tx_from t = Some a.
Proof.
  unfold validateTx. destruct (negb _ && _); [done|]. destruct (_ >? _); [done|]. destruct (_ <? _); [done|]. destruct (_ <? _); [done|]. destruct (_ >? _); [done|].
  destruct (_ >? _); [done|]. destruct (lt0 _); [done|]. destruct (tx_from t); [eauto|done].
Qed.

Lemma add_ok now t loc p : pool_ok p -> sized p -> tx_wf t -> exists r e p', add now t loc p = Ok (r, e, p') /\ adds t e p p' /\
  (e = None -> lk_Get (tx_hash t) (all p) = None /\ validateTx t (loc || as_containsTx t (locals p)) p = None).
Proof.
  intros Hp Hz [Hu Hsz]. assert (forall e, e <> None -> adds t e p p) as Hsame by (intros e He; split; [done|]; split; [done|]; split; [by left|done]).
  unfold add. destruct (lk_Get (tx_hash t) (all p)) eqn:Eget; [eexists _, _, _; split; [done|]; split; [by apply Hsame|done]|].
  set (isLocal := loc || as_containsTx t (locals p)). destruct (validateTx t isLocal p) as [ev|] eqn:Ev; [eexists _, _, _; split; [done|]; split; [by apply Hsame|done]|].
  destruct (validateTx_sender _ _ _ Ev) as [a Ha]. rewrite lk_Get_known in Eget.
  destruct (make_room_ok now t isLocal p Hp Hz Hsz) as (e & p1 & -> & Hp1 & Epar & Hsub). cbn [mbind res_bind].
  assert (settings p1 = settings p) as Es by (unfold settings; by rewrite Epar).
  assert (known (all p1) !! tx_hash t = None) as Hnew by (by eapply known_sub_None).
  destruct e as [e|].
  { eexists _, _, _. split; [done|]. split; [|done]. split; [done|]. split; [done|]. split; [|done]. intros h x E. left. by eapply lookup_weaken. }
  assert (tx_at (pending p1) a (Nonce t) = None -> exists r e p', enqueue_new now t loc isLocal p1 = Ok (r, e, p') /\ adds t e p p' /\ True) as Hq.
  { intros Hg. destruct (enqueue_new_ok now t loc isLocal p1 a Hp1 Ha Hu Hnew Hg) as (r & e & p2 & E & Hadds). exists r, e, p2. split; [done|]. split; [by eapply adds_trans|done]. }
  rewrite (sender_some t a Ha). destruct (pending p1 !! a) as [l|] eqn:El.
  - rewrite (Overlaps_get p1 a l t El). case_bool_decide as Eo.
    + assert (tx_at (queue p1) a (Nonce t) = None) as Hg.
      { destruct Eo as [o Eo]. destruct (lo_disj _ _ _ (ok_lists _ _ _ _ _ _ (proj1 Hp1)) a (Nonce t)); [congruence|done]. }
      pose proof (replace_pending t (PriceBump (config p1)) isLocal p1 a l Hp1 Ha Hu Hnew El Hg) as Hr. destruct (Add t _ l) as [[ins old] l']. destruct ins; cbn [negb].
      * destruct (Hr eq_refl) as (pr & E & Hok' & Hful & Hk & Hin). unfold set_pending in E. cbn [all with_pending] in *. rewrite E. cbn [mbind res_bind].
        eexists _, _, _. split; [done|]. split; [|done]. apply (adds_trans t None p p1); [done|done|]. 
        apply adds_event, adds_journal.
        split; [split; [exact Hok'|split; [exact Hful|apply Hp1]]|]. split; [done|]. split; [|done]. intros h x E'. destruct (Hk h x E'); auto.
      * eexists _, _, _. split; [done|]. split; [|done]. split; [done|]. split; [done|]. split; [|done]. intros h x E. left. by eapply lookup_weaken.
    + apply eq_None_not_Some in Eo. destruct (Hq Eo) as (r & e & p2 & E & Hadds & _). by exists r, e, p2.
  - assert (tx_at (pending p1) a (Nonce t) = None) as Eo by (unfold tx_at; by rewrite El). destruct (Hq Eo) as (r & e & p2 & E & Hadds & _). by exists r, e, p2.
Qed.

Lemma adds_sized t e p p' : 0 <= tx_size t -> sized p -> adds t e p p' -> sized p'.
Proof. intros Ht Hz (_ & _ & Hk & _) h x E. destruct (Hk h x E) as [E'|[_ ->]]; [by eapply Hz|done]. Qed.

Lemma addTxsLocked_ok now loc ts : forall dirty p, pool_ok p -> sized p -> Forall tx_wf ts ->
  exists errs d p', addTxsLocked now ts loc dirty p = Ok (errs, d, p') /\ pool_ok p' /\ sized p' /\ settings p' = settings p.
Proof.
  induction ts as [|t ts IH]; intros dirty p Hp Hz Hts; cbn [addTxsLocked]; [by eexists _, _, _|]. apply Forall_cons in Hts as [Ht Hts].
  destruct (add_ok now t loc p Hp Hz Ht) as (r & e & p1 & -> & Hadds & _). cbn [mbind res_bind].
  destruct (IH (match e with None => if r then dirty else as_addTx t dirty | Some _ => dirty end) p1) as (errs & d & p' & -> & Hp' & Hz' & Es'); [apply Hadds|eapply adds_sized; [apply Ht|done|done]|done|].
  cbn [mbind res_bind]. eexists _, _, _. split; [done|]. split; [done|]. split; [done|]. rewrite Es'. apply Hadds.
Qed.

Lemma addTxs_ok now ts loc p : pool_ok p -> sized p -> Forall tx_wf ts ->
  exists errs d p', addTxs now ts loc p = Ok (errs, d, p') /\ pool_ok p' /\ sized p' /\ settings p' = settings p.
Proof.
  intros Hp Hz Hts. unfold addTxs. case_decide; [by eexists _, _, _|].
  destruct (addTxsLocked_ok now loc (filter (fun tx => known_error p tx = None) ts) (newAccountSet []) p Hp Hz) as (errs & d & p' & -> & Hp' & Hz' & Es).
  - apply Forall_forall. intros t [_ Ht]%list_elem_of_filter. rewrite Forall_forall in Hts. by apply Hts.
  - cbn [mbind res_bind]. by eexists _, _, _.
Qed.
End pool.
End TxPoolOps.
