(* ===== verification/TxPoolMoves.v ===== *)
(** * Promotion and demotion keep the transaction pool consistent *)

From stdpp Require Import sorting.
From S2P Require Import Prelude Config Common Rlp EvmState Header Consensus StateTransition Transaction Heap TxList TxListSpec TxPricedList TxPricedSpec TxPool TxPoolSpec TxPoolOps.

Local Open Scope Z_scope.

Module TxPoolMoves.

Import TxList TxListSpec Priced PricedSpec TxPool TxPoolSpec TxPoolOps.

(** ** Partitions of a list *)

Section lists.
Context `{MO : MapOrder}.

Lemma Forward_parts th l : l_ok l -> exists old l', Forward th l = Ok (old, l') /\ l_ok l' /\ strict l' = strict l /\ old ++ l_contents l' ≡ₚ l_contents l /\
  l_contents l' = filter (fun t => th <= Nonce t) (l_contents l).
Proof.
  intros Hl. destruct (Forward_spec th l Hl) as (l' & E & Hl' & Hst & Hc). eexists _, _. split; [done|]. split; [done|]. split; [done|]. split; [|done].
  rewrite Hc. rewrite (forward_split th (l_contents l)) at 3; [done|by apply l_sorted].
Qed.

Lemma Ready_parts start l : l_ok l -> exists ready l', Ready start l = Ok (ready, l') /\ l_ok l' /\ strict l' = strict l /\ ready ++ l_contents l' ≡ₚ l_contents l.
Proof.
  intros Hl. destruct (Ready_spec start l Hl) as (l' & E & Hl' & Hst & Hc). eexists _, _. split; [done|]. split; [done|]. split; [done|].
  rewrite Hc. by rewrite <- ready_split.
Qed.

Lemma Cap_parts k l : l_ok l -> 0 <= k -> exists drops l', Cap k l = Ok (drops, l') /\ l_ok l' /\ strict l' = strict l /\ drops ++ l_contents l' ≡ₚ l_contents l /\
  l_contents l' = take (Z.to_nat k) (l_contents l).
Proof.
  intros Hl Hk. destruct (Cap_spec (Z.to_nat k) l Hl) as (l' & E & Hl' & Hst & Hc). rewrite Z2Nat.id in E by done. eexists _, _. split; [done|]. split; [done|]. split; [done|]. split; [|done].
  rewrite Hc. unfold Spec.cap. cbn [fst snd]. rewrite (Permutation_app_comm _ (take _ _)). rewrite <- (take_drop (Z.to_nat k) (l_contents l)) at 3. by rewrite <- Permutation_rev.
Qed.

Lemma Filter_loose cl gl l : l_ok l -> strict l = false -> exists drops l', Filter cl gl l = (drops, [], l') /\ l_ok l' /\ strict l' = strict l /\ drops ++ l_contents l' ≡ₚ l_contents l.
Proof.
  intros Hl Hst. pose proof (Filter_spec cl gl l Hl) as H. destruct (Filter cl gl l) as [[drops inv] l']. destruct H as (Hl' & Hst' & Hr & Hp & Hc). rewrite Hst in Hc.
  assert (inv = []) as ->.
  { pose proof (keep_partition (unpayable cl gl) (l_contents l)) as Hk. rewrite <- Hr, <- Hc in Hk. apply Permutation_length in Hp, Hk. rewrite !length_app in *. apply length_zero_iff_nil. lia. }
  exists drops, l'. done.
Qed.
End lists.

Section pool.
Context {DB : Type} `{SDB : StateDB DB} `{MO : MapOrder}.
Implicit Types p : TxPool DB.

(** What every operation keeps. *)
Definition moved p p' : Prop := pool_ok p' /\ params p' = params p /\ known (all p') ⊆ known (all p).

Lemma moved_trans p p1 p2 : moved p p1 -> moved p1 p2 -> moved p p2.
Proof. intros (_ & E1 & H1) (Hp & E2 & H2). split; [done|]. split; [congruence|]. by etransitivity. Qed.

Lemma moved_sized p p' : moved p p' -> sized p -> sized p'.
Proof. intros (_ & _ & H). by apply sized_sub. Qed.

Lemma each_moved {A} (f : A -> TxPool DB -> res (TxPool DB)) (P : TxPool DB -> Prop) :
  (forall x p, pool_ok p -> P p -> exists p', f x p = Ok p' /\ moved p p') -> (forall p p', P p -> moved p p' -> P p') ->
  forall l p, pool_ok p -> P p -> exists p', each f l p = Ok p' /\ moved p p'.
Proof.
  intros Hf HP l. induction l as [|x l IH]; intros p Hp Hx; cbn [each]; [by exists p|]. destruct (Hf x p Hp Hx) as (p1 & -> & H1). cbn [mbind res_bind].
  destruct (IH p1) as (p' & -> & H2); [apply H1|by eapply HP|]. exists p'. split; [done|by eapply moved_trans].
Qed.

(** ** The steps *)

Lemma take_queue O p a l l' removed : pok O p -> queue p !! a = Some l -> l_ok l' -> strict l' = strict l -> removed ++ l_contents l' ≡ₚ l_contents l ->
  pok (removed ++ O) (set_queue a l' p).
Proof. intros. by eapply ok_take. Qed.

Lemma take_pend O p a l l' removed : pok O p -> pending p !! a = Some l -> l_ok l' -> strict l' = strict l -> removed ++ l_contents l' ≡ₚ l_contents l ->
  pok (removed ++ O) (set_pending a l' p).
Proof. intros Hok El Hl' Hst Hp. apply (ok_sym false). eapply ok_take; [apply (ok_sym true), Hok|done..]. Qed.

Lemma forget_ok ts : forall O p, pok (ts ++ O) p -> pok O (forget ts p) /\ pending (forget ts p) = pending p /\ queue (forget ts p) = queue p /\
  params (forget ts p) = params p /\ priced (forget ts p) = priced p /\ pendingNonces (forget ts p) = pendingNonces p /\ known (all (forget ts p)) ⊆ known (all p).
Proof.
  induction ts as [|t ts IH]; intros O p Hok; simpl; [done|]. pose proof (ok_forget _ _ _ _ _ _ _ Hok) as Hok1. destruct (IH O (with_all (lk_Remove (tx_hash t) (all p)) p) Hok1) as (H1 & H2 & H3 & H4 & H5 & H6 & H7).
  split; [done|]. split; [done|]. split; [done|]. split; [done|]. split; [done|]. split; [done|]. etransitivity; [exact H7|]. cbn [all with_all].
  destruct (lk_Remove_spec (tx_hash t) (all p) (ok_lookup _ _ _ _ _ _ Hok)) as (_ & -> & _). apply delete_subseteq.
Qed.

Lemma promoteTx_ok now t O p a : pok (t :: O) p -> tx_from t = Some a -> exists p', promoteTx now a (tx_hash t) t p = Ok (true, p') /\ pok O p' /\
  queue p' = queue p /\ (full (pending p) -> full (pending p')) /\ all p' = all p /\ params p' = params p.
Proof.
  intros Hok Ha. pose proof (ok_free _ _ _ _ _ _ Hok) as Hf. apply Forall_cons in Hf as [(Hu & a' & Ha' & E1 & E2) _]. assert (a' = a) as -> by congruence.
  set (l := default (newTxList true) (pending p !! a)).
  assert (l_ok l /\ strict l = true /\ forall n, l_items l !! n = tx_at (pending p) a n) as (Hl & Hst & Hget).
  { unfold l, tx_at. destruct (pending p !! a) as [x|] eqn:E; simpl; [destruct (lo_pend _ _ _ (ok_lists _ _ _ _ _ _ Hok) a x E); done|]. split; [apply newTxList_ok|]. split; [done|]. intros n. apply lookup_empty. }
  destruct (Add_free t (PriceBump (config p)) l Hl Hu) as (l' & Eadd & Hl' & Hst' & Hi'); [by rewrite Hget|].
  unfold promoteTx. fold l. rewrite Eadd. cbn [negb mbind res_bind]. eexists. split; [done|].
  split; [|split; [done|split; [intros Hfp; apply full_insert; [done|rewrite Hi'; apply insert_nonempty]|done]]].
  apply (ok_sym false). eapply ok_put; [apply (ok_sym true), Hok|done|by rewrite Hst', Hst|done|].
  intros n. rewrite Hi', <- Hget. case_decide; [subst; apply lookup_insert_eq|by rewrite lookup_insert_ne].
Qed.

Lemma promote_all_ok now a ts : forall O promoted p, pok (ts ++ O) p -> Forall (fun t => tx_from t = Some a) ts ->
  exists p', promote_all now a ts promoted p = Ok (promoted ++ ts, p') /\ pok O p' /\
  queue p' = queue p /\ (full (pending p) -> full (pending p')) /\ all p' = all p /\ params p' = params p.
Proof.
  induction ts as [|t ts IH]; intros O promoted p Hok Hf; cbn [promote_all]; [exists p; by rewrite app_nil_r|]. apply Forall_cons in Hf as [Ha Hf].
  destruct (promoteTx_ok now t (ts ++ O) p a Hok Ha) as (p1 & -> & Hok1 & Eq & Hful & Ea & Epar). cbn [mbind res_bind].
  destruct (IH O (promoted ++ [t]) p1 Hok1 Hf) as (p' & -> & Hok' & Eq' & Hful' & Ea' & Epar'). exists p'. rewrite <- app_assoc. split; [done|]. split; [done|].
  split; [congruence|]. split; [auto|]. split; congruence.
Qed.

(** Transactions just taken off a list of an account are its own. *)
Lemma taken_from b pend q a l l' removed : lists_ok b pend q -> q !! a = Some l -> removed ++ l_contents l' ≡ₚ l_contents l -> Forall (fun t => tx_from t = Some a) removed.
Proof.
  intros Hl El Hp. apply Forall_forall. intros t Ht. destruct (lo_queue _ _ _ Hl a l El) as [Hlok _]. apply (lo_from _ _ _ Hl a (Nonce t)). right. unfold tx_at. rewrite El.
  by eapply removed_items.
Qed.

(** ** [promoteExecutables] *)

Lemma drop_empty_ok a l p : pok [] p -> queue p !! a = Some l -> full (pending p) -> full_but a (queue p) -> pool_ok (drop_empty_queue a l p) /\ all (drop_empty_queue a l p) = all p /\
  params (drop_empty_queue a l p) = params p.
Proof.
  intros Hok El Hfp Hfq. unfold drop_empty_queue. rewrite Empty_spec. case_bool_decide as Ee.
  - split; [|done]. split; [|split; [done|by apply full_delete]]. apply ok_delete; [done|]. intros x Ex. congruence.
  - split; [|done]. split; [done|]. split; [done|]. by eapply full_but_nonempty.
Qed.

Lemma promote_account_ok now a promoted p : pool_ok p -> 0 <= i64 (AccountQueue (config p)) ->
  exists promoted' p', promote_account now a (promoted, p) = Ok (promoted', p') /\ moved p p'.
Proof.
  intros (Hok & Hfp & Hfq) Hcfg. unfold promote_account. destruct (queue p !! a) as [l|] eqn:El; [|by eexists _, _].
  destruct (lo_queue _ _ _ (ok_lists _ _ _ _ _ _ Hok) a l El) as [Hl Hst].
  destruct (Forward_parts (GetNonce (currentState p) a) l Hl) as (old & l1 & -> & Hl1 & Hst1 & Hp1 & _). cbn [mbind res_bind].
  destruct (forget_ok old [] _ (take_queue _ _ _ _ _ _ Hok El Hl1 Hst1 Hp1)) as (Hok1 & Epd1 & Eq1 & Epar1 & _ & _ & Hk1). set (p1 := forget old (set_queue a l1 p)) in *. cbn zeta.
  assert (queue p1 !! a = Some l1) as El1 by (rewrite Eq1; apply lookup_insert_eq).
  destruct (Filter_loose (GetBalance (currentState p1) a) (currentMaxGas p1) l1 Hl1) as (drops & l2 & -> & Hl2 & Hst2 & Hp2); [by rewrite Hst1, Hst|].
  destruct (forget_ok drops [] _ (take_queue _ _ _ _ _ _ Hok1 El1 Hl2 Hst2 Hp2)) as (Hok2 & Epd2 & Eq2 & Epar2 & _ & _ & Hk2). set (p2 := forget drops (set_queue a l2 p1)) in *.
  assert (queue p2 !! a = Some l2) as El2 by (rewrite Eq2; apply lookup_insert_eq).
  destruct (noncer_get a (pendingNonces p2)) as [next nn]. destruct (Ready_parts next l2 Hl2) as (ready & l3 & -> & Hl3 & Hst3 & Hp3). cbn [mbind res_bind].
  pose proof (take_queue _ (with_nonces nn p2) _ _ _ _ Hok2 El2 Hl3 Hst3 Hp3) as Hok3.
  destruct (promote_all_ok now a ready [] promoted _ Hok3) as (p4 & E4 & Hok4 & Eq4 & Hful4 & Ea4 & Epar4); [by eapply taken_from; [apply Hok2|exact El2|exact Hp3]|].
  rewrite E4. cbn [mbind res_bind]. assert (queue p4 !! a = Some l3) as El4 by (rewrite Eq4; apply lookup_insert_eq).
  assert (full (pending p4)) as Hfp4 by (apply Hful4; cbn [pending set_queue with_queue with_nonces]; by rewrite Epd2; cbn [pending set_queue with_queue]; rewrite Epd1).
  assert (params p4 = params p) as Epar by (rewrite Epar4; cbn; change (params (set_queue a l3 (with_nonces nn p2))) with (params p2); rewrite Epar2; change (params (set_queue a l2 p1)) with (params p1); rewrite Epar1; done).
  assert (known (all p4) ⊆ known (all p)) as Hk4 by (rewrite Ea4; etransitivity; [exact Hk2|exact Hk1]).
  assert (full_but a (queue p4)) as Hfq4.
  { rewrite Eq4. cbn [queue set_queue with_queue with_nonces]. rewrite Eq2. cbn [queue set_queue with_queue]. rewrite Eq1. cbn [queue set_queue with_queue]. by repeat apply full_but_insert; apply full_weaken. }
  assert (exists caps l5, (if as_contains a (locals p4) then Ok ([], l3) else Cap (i64 (AccountQueue (config p4))) l3) = Ok (caps, l5) /\ l_ok l5 /\ strict l5 = strict l3 /\ caps ++ l_contents l5 ≡ₚ l_contents l3)
    as (caps & l5 & -> & Hl5 & Hst5 & Hp5).
  { destruct (as_contains a (locals p4)); [by eexists _, _|]. assert (config p4 = config p) as -> by (by injection Epar). destruct (Cap_parts (i64 (AccountQueue (config p))) l3 Hl3 Hcfg) as (c & l5 & E & ? & ? & ? & _). eauto 6. }
  cbn [mbind res_bind]. destruct (forget_ok caps [] _ (take_queue _ _ _ _ _ _ Hok4 El4 Hl5 Hst5 Hp5)) as (Hok5 & Epd5 & Eq5 & Epar5 & _ & _ & Hk5). set (p5 := forget caps (set_queue a l5 p4)) in *.
  destruct (priced_Removed_ok (zlen old + zlen drops + zlen caps) [] p5 Hok5) as (pr & -> & Hok6). cbn [mbind res_bind].
  destruct (drop_empty_ok a l5 (with_priced pr p5) Hok6) as (Hpool & Ea & Epar6).
  - cbn [queue with_priced]. rewrite Eq5. apply lookup_insert_eq.
  - cbn [pending with_priced]. by rewrite Epd5.
  - cbn [queue with_priced]. rewrite Eq5. by apply full_but_insert.
  - eexists _, _. split; [done|]. split; [exact Hpool|]. split; [rewrite Epar6; change (params (with_priced pr p5)) with (params p5); rewrite Epar5; exact Epar|]. rewrite Ea. etransitivity; [exact Hk5|exact Hk4].
Qed.

Lemma promoteExecutables_ok now accounts : forall promoted p, pool_ok p -> 0 <= i64 (AccountQueue (config p)) ->
  exists promoted' p', each (promote_account now) accounts (promoted, p) = Ok (promoted', p') /\ moved p p'.
Proof.
  induction accounts as [|a accounts IH]; intros promoted p Hp Hc; cbn [each]; [by eexists _, _|].
  destruct (promote_account_ok now a promoted p Hp Hc) as (promoted1 & p1 & -> & H1). cbn [mbind res_bind].
  assert (config p1 = config p) as Ec by (destruct H1 as (_ & E & _); by injection E).
  destruct (IH promoted1 p1) as (promoted' & p' & -> & H2); [apply H1|by rewrite Ec|]. eexists _, _. split; [done|by eapply moved_trans].
Qed.

(** ** [demoteUnexecutables] *)

Lemma full_drop_empty O a l p : pok O p -> pending p !! a = Some l -> full_but a (pending p) ->
  let p' := if Empty l then with_pending (delete a (pending p)) p else p in pok O p' /\ full (pending p') /\ all p' = all p /\ params p' = params p /\ queue p' = queue p.
Proof.
  intros Hok El Hf. cbn zeta. rewrite Empty_spec. case_bool_decide as Ee.
  - split; [|split; [by apply full_delete|done]]. apply (ok_sym false). apply ok_delete; [by apply (ok_sym true)|]. intros x Ex. congruence.
  - split; [done|]. split; [by eapply full_but_nonempty|done].
Qed.

Lemma demote_account_ok now a p : pool_ok p -> exists p', demote_account now a p = Ok p' /\ moved p p'.
Proof.
  intros (Hok & Hfp & Hfq). unfold demote_account. destruct (pending p !! a) as [l|] eqn:El; [|by exists p].
  destruct (lo_pend _ _ _ (ok_lists _ _ _ _ _ _ Hok) a l El) as [Hl Hst].
  destruct (Forward_parts (GetNonce (currentState p) a) l Hl) as (old & l1 & -> & Hl1 & Hst1 & Hp1 & _). cbn [mbind res_bind].
  destruct (forget_ok old [] _ (take_pend _ _ _ _ _ _ Hok El Hl1 Hst1 Hp1)) as (Hok1 & Epd1 & Eq1 & Epar1 & _ & _ & Hk1). set (p1 := forget old (set_pending a l1 p)) in *. cbn zeta.
  assert (pending p1 !! a = Some l1) as El1 by (rewrite Epd1; apply lookup_insert_eq).
  pose proof (Filter_spec (GetBalance (currentState p1) a) (currentMaxGas p1) l1 Hl1) as HF. destruct (Filter _ _ l1) as [[drops inv] l2]. destruct HF as (Hl2 & Hst2 & _ & Hp2 & _).
  rewrite app_assoc in Hp2. pose proof (take_pend _ _ _ _ _ _ Hok1 El1 Hl2 Hst2 Hp2) as Hok2. rewrite <- app_assoc in Hok2.
  destruct (forget_ok drops _ _ Hok2) as (Hok2' & Epd2 & Eq2 & Epar2 & _ & _ & Hk2). set (p2 := forget drops (set_pending a l2 p1)) in *.
  destruct (requeue_all_ok now inv [] p2 Hok2') as (p3 & -> & Hok3 & Hfq3 & Epd3 & Ea3 & Epar3 & _ & _). cbn [mbind res_bind].
  assert (pending p3 = <[a := l2]> (<[a := l1]> (pending p))) as Epd by (rewrite Epd3, Epd2; cbn [pending set_pending with_pending]; by rewrite Epd1).
  assert (queue p2 = queue p) as Eq by (rewrite Eq2; cbn [queue set_pending with_pending]; by rewrite Eq1). rewrite Eq in Hfq3. specialize (Hfq3 Hfq).
  assert (params p3 = params p) as Epar by (rewrite Epar3, Epar2; change (params (set_pending a l2 p1)) with (params p1); by rewrite Epar1).
  assert (known (all p3) ⊆ known (all p)) as Hk by (rewrite Ea3; etransitivity; [exact Hk2|exact Hk1]).
  assert (full_but a (pending p3)) as Hf3 by (rewrite Epd; by repeat apply full_but_insert; apply full_weaken).
  assert (pending p3 !! a = Some l2) as El3 by (rewrite Epd; apply lookup_insert_eq).
  (* a gap at the front sends everything back *)
  assert (exists l4 p4, (if (Len l2 >? 0) && bool_decide (map_Get (GetNonce (currentState p) a) (txs l2) = None) then
      '(gapped, l4) ← Cap 0 l2; p4 ← each (requeue now) gapped (set_pending a l4 p3); Ok (l4, p4) else Ok (l2, p3)) = Ok (l4, p4) /\
    pok [] p4 /\ pending p4 !! a = Some l4 /\ full_but a (pending p4) /\ full (queue p4) /\ all p4 = all p3 /\ params p4 = params p3) as (l4 & p4 & -> & Hok4 & El4 & Hf4 & Hfq4 & Ea4 & Epar4).
  { destruct (_ && _); [|by exists l2, p3]. destruct (Cap_parts 0 l2 Hl2 ltac:(lia)) as (gapped & l4 & -> & Hl4 & Hst4 & Hp4 & _). cbn [mbind res_bind].
    destruct (requeue_all_ok now gapped [] _ (take_pend _ _ _ _ _ _ Hok3 El3 Hl4 Hst4 Hp4)) as (p4 & -> & Hok4 & Hfq4 & Epd4 & Ea4 & Epar4 & _ & _). cbn [mbind res_bind].
    exists l4, p4. split; [done|]. split; [done|]. split; [rewrite Epd4; apply lookup_insert_eq|]. split; [rewrite Epd4; by apply full_but_insert|]. split; [by apply Hfq4|]. done. }
  cbn [mbind res_bind]. destruct (full_drop_empty [] a l4 p4 Hok4 El4 Hf4) as (H1 & H2 & H3 & H4 & H5).
  eexists. split; [done|]. split; [split; [exact H1|split; [exact H2|by rewrite H5]]|]. split; [congruence|]. by rewrite H3, Ea4.
Qed.

Lemma demoteUnexecutables_ok now p : pool_ok p -> exists p', demoteUnexecutables now p = Ok p' /\ moved p p'.
Proof. intros Hp. eapply (each_moved _ (fun _ => True)); [|done|done|done]. intros a p' Hp' _. by apply demote_account_ok. Qed.

(** ** [truncateQueue], [evict] and [SetGasPrice] *)

Lemma removeTx_moved now h oob p : pool_ok p -> exists p', removeTx now h oob p = Ok p' /\ moved p p'.
Proof.
  intros Hp. destruct (removeTx_ok now h oob p Hp) as (p' & E & Hp' & Epar & Ea & _). exists p'. split; [done|]. split; [done|]. split; [done|]. rewrite Ea.
  destruct (lk_Remove_spec h (all p) (ok_lookup _ _ _ _ _ _ (proj1 Hp))) as (_ & -> & _). apply delete_subseteq.
Qed.

Lemma SetGasPrice_ok now price p : pool_ok p -> exists p', SetGasPrice now price p = Ok p' /\ pool_ok p' /\ config p' = config p /\ chainconfig p' = chainconfig p /\ known (all p') ⊆ known (all p).
Proof.
  intros Hp. unfold SetGasPrice. cbn zeta. destruct (_ >? _); [|by exists (with_price price p)].
  destruct (removeTx_all_ok now false (RemotesBelowTip price (all (with_price price p))) (with_price price p) Hp) as (p1 & E1 & Hp1 & Epar & Hk & _). cbn [all with_price] in *. rewrite E1. cbn [mbind res_bind].
  destruct (priced_Removed_ok (zlen (RemotesBelowTip price (all p))) [] p1 (proj1 Hp1)) as (pr & -> & Hok). eexists. split; [done|]. split; [split; [exact Hok|apply Hp1]|]. injection Epar as E2 E3 _ _ _ _ _. by split; [|split].
Qed.
End pool.
End TxPoolMoves.
