(* ===== verification/TxPoolLimits.v ===== *)
(** * The limits of the transaction pool

    How [truncatePending], [truncateQueue] and the eviction tick shrink the pool,
    counted by the numbers of transactions of the accounts. *)

From stdpp Require Import sorting.
From S2P Require Import Prelude Config Common Rlp EvmState Header Consensus StateTransition Transaction Heap TxList TxListSpec TxPricedList TxPricedSpec TxPool TxPoolSpec TxPoolOps TxPoolMoves.

Local Open Scope Z_scope.

Module TxPoolLimits.

Import TxList TxListSpec Priced PricedSpec TxPool TxPoolSpec TxPoolOps TxPoolMoves.

(** ** Counting *)

Definition its (m : gmap Address txList) (a : Address) : gmap Z Tx := match m !! a with Some l => l_items l | None => ∅ end.
Definition sz (m : gmap Address txList) (a : Address) : Z := Z.of_nat (size (its m a)).
Definition total (m : gmap Address txList) : Z := map_fold (fun _ l n => Len l + n) 0 m.

Lemma get_its m a n : tx_at m a n = its m a !! n.
Proof. unfold tx_at, its. destruct (m !! a); [done|]. by rewrite lookup_empty. Qed.
Lemma its_ext m m' a b : (forall n, tx_at m' a n = tx_at m b n) -> its m' a = its m b.
Proof. intros H. apply map_eq. intros n. by rewrite <- !get_its. Qed.
Lemma sz_Len m a l : m !! a = Some l -> sz m a = Len l.
Proof. intros E. unfold sz, its. by rewrite E. Qed.
Lemma its_insert m a l b : its (<[a := l]> m) b = if decide (b = a) then l_items l else its m b.
Proof. unfold its. case_decide; [subst; by rewrite lookup_insert_eq|by rewrite lookup_insert_ne]. Qed.

Lemma its_full m a : full m -> is_Some (m !! a) <-> its m a <> ∅.
Proof.
  intros Hf. unfold its. split.
  - intros [l E]. rewrite E. by eapply Hf.
  - destruct (m !! a); [by eauto|done].
Qed.

Lemma sz_zero m a : full m -> sz m a = 0 -> m !! a = None.
Proof. intros Hf E. unfold sz in E. destruct (m !! a) as [l|] eqn:El; [|done]. destruct (proj1 (its_full m a Hf)); [by eauto|]. apply map_size_empty_iff. lia. Qed.

Lemma total_insert m a l : m !! a = None -> total (<[a := l]> m) = Len l + total m.
Proof. intros E. unfold total. rewrite map_fold_insert_L; [done|intros; lia|done]. Qed.
Lemma total_delete m a : total m = sz m a + total (delete a m).
Proof.
  destruct (m !! a) as [l|] eqn:E.
  - rewrite (sz_Len m a l E). rewrite <- (total_insert (delete a m) a l) by apply lookup_delete_eq. by rewrite insert_delete_id.
  - rewrite delete_id by done. unfold sz, its. rewrite E. done.
Qed.

Lemma sz_delete m a b : sz (delete a m) b = if decide (b = a) then 0 else sz m b.
Proof. unfold sz, its. case_decide; [subst; by rewrite lookup_delete_eq|by rewrite lookup_delete_ne]. Qed.

Lemma total_ext m : forall m', (forall b, sz m' b = sz m b) -> total m' = total m.
Proof.
  assert (forall m, (forall b, sz m b = 0) -> total m = 0) as Hzero.
  { clear. intros m. induction m as [|a l m Ha IH] using map_ind; intros Hz; [done|]. rewrite total_insert by done.
    pose proof (Hz a) as Ea. rewrite (sz_Len _ a l) in Ea by apply lookup_insert_eq. rewrite IH; [lia|]. intros b. destruct (decide (b = a)) as [->|]; [unfold sz, its; by rewrite Ha|].
    rewrite <- (Hz b). unfold sz, its. by rewrite lookup_insert_ne. }
  induction m as [|a l m Ha IH] using map_ind; intros m' Hs; [rewrite Hzero; [done|]; intros b; by rewrite Hs|].
  rewrite total_insert, (total_delete m' a), Hs by done. rewrite (sz_Len _ a l) by apply lookup_insert_eq. f_equal. apply IH. intros b. rewrite sz_delete. case_decide as Eb.
  - subst. unfold sz, its. by rewrite Ha.
  - rewrite Hs. unfold sz, its. by rewrite lookup_insert_ne.
Qed.

Lemma total_change m m' a d : (forall b, sz m' b = if decide (b = a) then sz m a - d else sz m b) -> total m' = total m - d.
Proof.
  intros Hs. rewrite (total_delete m' a), (total_delete m a), Hs, decide_True by done. rewrite (total_ext (delete a m) (delete a m')); [lia|].
  intros b. rewrite !sz_delete. case_decide; [done|]. rewrite Hs. by rewrite decide_False.
Qed.

#[export] Instance prque_less_order : LessOrder prque_less.
Proof. unfold prque_less. split; intros; to_prop; lia. Qed.

Section pool.
Context {DB : Type} `{SDB : StateDB DB} `{MO : MapOrder}.
Implicit Types p : TxPool DB.

Lemma count_total m : count_txs m = u64 (total m).
Proof.
  unfold count_txs. f_equal. unfold total. rewrite map_fold_foldr. 
  assert (forall l l' : list (Address * txList), l ≡ₚ l' -> foldr (fun kv n => Len kv.2 + n) 0 l = foldr (fun kv n => Len kv.2 + n) 0 l') as H by (induction 1; simpl; lia).
  rewrite (H _ _ (iter_perm m)). generalize (map_to_list m). intros l. induction l as [|[a x] l IH]; simpl; [done|]. by rewrite IH.
Qed.

(** ** The queue *)

Lemma listed_known O p a n t : pok O p -> tx_at (pending p) a n = Some t \/ tx_at (queue p) a n = Some t -> lk_Get (tx_hash t) (all p) = Some t.
Proof. intros Hok E. rewrite lk_Get_known. apply (ok_known _ _ _ _ _ _ Hok). split; [done|]. left. by eapply listed_get; [apply Hok|]. Qed.

Lemma removeTx_queued now t oob p a : pool_ok p -> tx_from t = Some a -> its (queue p) a !! Nonce t = Some t ->
  exists p', removeTx now (tx_hash t) oob p = Ok p' /\ moved p p' /\ (forall b, its (pending p') b = its (pending p) b) /\
    (forall b, its (queue p') b = if decide (b = a) then delete (Nonce t) (its (queue p) a) else its (queue p) b).
Proof.
  intros Hp Ha Hg. rewrite <- get_its in Hg. pose proof (listed_known _ _ _ _ _ (proj1 Hp) (or_intror Hg)) as Hget.
  destruct (removeTx_queue now t oob p a Hp Hget Ha Hg) as (p' & E & Hp' & Epar & Ea & Hpd & Hq & _). exists p'. split; [done|]. split; [|split].
  - split; [done|]. split; [done|]. rewrite Ea. destruct (lk_Remove_spec (tx_hash t) (all p) (ok_lookup _ _ _ _ _ _ (proj1 Hp))) as (_ & -> & _). apply delete_subseteq.
  - intros b. apply its_ext. intros n. apply Hpd.
  - intros b. apply map_eq. intros n. rewrite <- get_its, Hq. destruct (decide (b = a)) as [->|]; [|rewrite decide_False by tauto; apply get_its].
    destruct (decide (n = Nonce t)) as [->|]; [rewrite decide_True by done; by rewrite lookup_delete_eq|]. rewrite decide_False by tauto. by rewrite lookup_delete_ne, get_its.
Qed.

Lemma remove_queued_all now oob a ts : forall p, pool_ok p -> NoDup (Nonce <$> ts) -> Forall (fun t => tx_from t = Some a /\ its (queue p) a !! Nonce t = Some t) ts ->
  exists p', each (fun t => removeTx now (tx_hash t) oob) ts p = Ok p' /\ moved p p' /\ (forall b, its (pending p') b = its (pending p) b) /\
    (forall b, b <> a -> its (queue p') b = its (queue p) b) /\ sz (queue p') a = sz (queue p) a - zlen ts.
Proof.
  induction ts as [|t ts IH]; intros p Hp Hn Hf; cbn [each].
  { exists p. split; [done|]. split; [done|]. split; [done|]. split; [done|]. unfold zlen. simpl. lia. }
  apply Forall_cons in Hf as [[Ha Hg] Hf]. cbn in Hn. apply NoDup_cons in Hn as [Hnt Hn].
  destruct (removeTx_queued now t oob p a Hp Ha Hg) as (p1 & -> & H1 & Hpd1 & Hq1). cbn [mbind res_bind].
  destruct (IH p1) as (p' & -> & H2 & Hpd2 & Hq2 & Hs2); [apply H1|done| |].
  { rewrite Forall_forall in *. intros x Hx. destruct (Hf x Hx) as [? E]. split; [done|]. rewrite Hq1, decide_True, lookup_delete_ne by (try done; intros Ex; apply Hnt; rewrite Ex; apply list_elem_of_fmap; eauto). done. }
  exists p'. split; [done|]. split; [eapply moved_trans; [exact H1|exact H2]|]. split; [intros b; by rewrite Hpd2|]. split.
  - intros b Hb. rewrite Hq2, Hq1, decide_False by done. done.
  - rewrite Hs2. unfold sz at 1. rewrite Hq1, decide_True by done. rewrite map_size_delete_Some by eauto. unfold sz, zlen. simpl.
    assert (size (its (queue p) a) <> 0%nat); [|lia]. intros E. apply map_size_empty_inv in E. rewrite E, lookup_empty in Hg. done.
Qed.

(** [Flatten] of a queue: the list is cached, nothing else changes. *)
Lemma flatten_queue p a l : pool_ok p -> queue p !! a = Some l -> let p' := set_queue a (Flatten l).2 p in
  moved p p' /\ (forall b, its (queue p') b = its (queue p) b) /\ queue p' !! a = Some (Flatten l).2.
Proof.
  intros (Hok & Hfp & Hfq) El. destruct (lo_queue _ _ _ (ok_lists _ _ _ _ _ _ Hok) a l El) as [Hl _]. destruct (Flatten_spec l Hl) as (_ & Hl' & Hst & Hi). cbn zeta.
  assert (pok [] (set_queue a (Flatten l).2 p)) as Hok' by (by eapply ok_same). split; [|split; [|apply lookup_insert_eq]].
  - split; [|done]. split; [done|]. split; [done|]. apply full_insert; [done|]. rewrite Hi. by apply (Hfq a).
  - intros b. cbn [queue set_queue with_queue]. rewrite its_insert. case_decide; [|done]. subst. unfold its. by rewrite El.
Qed.

(** The transactions of a queue. *)
Lemma queue_contents p a l : pool_ok p -> queue p !! a = Some l -> l_ok l /\ NoDup (Nonce <$> l_contents l) /\ Forall (fun t => tx_from t = Some a /\ its (queue p) a !! Nonce t = Some t) (l_contents l) /\
  zlen (l_contents l) = sz (queue p) a.
Proof.
  intros (Hok & _) El. pose proof (ok_lists _ _ _ _ _ _ Hok) as Hlists. destruct (lo_queue _ _ _ Hlists a l El) as [Hl _]. split; [done|]. split; [|split].
  - apply (removed_NoDup l (newTxList true) (l_contents l) Hl). unfold l_contents at 2. simpl. unfold contents. simpl. rewrite by_nonce_empty, app_nil_r. done.
  - apply Forall_forall. intros t Ht. apply elem_contents in Ht; [|done]. assert (tx_at (queue p) a (Nonce t) = Some t) as E by (unfold tx_at; by rewrite El). split; [apply (lo_from _ _ _ Hlists a (Nonce t)); by right|]. by rewrite <- get_its.
  - by rewrite (sz_Len _ _ _ El), Len_spec.
Qed.

Lemma drop_last_each now rtxs : forall d p, is_u64 d -> drop_last now rtxs d p =
  (p ← each (fun tx => removeTx now (tx_hash tx) true) (take (Z.to_nat d) rtxs) p; Ok (d - Z.min d (zlen rtxs), p)).
Proof.
  induction rtxs as [|t rtxs IH]; intros d p Hd; cbn [drop_last]; unfold is_u64 in Hd.
  - rewrite take_nil. cbn. unfold zlen. simpl. by rewrite Z.min_r, Z.sub_0_r by lia.
  - rewrite Z.gtb_ltb. destruct (0 <? d) eqn:E; to_prop.
    + replace (Z.to_nat d) with (S (Z.to_nat (d - 1))) by lia. cbn [take each]. destruct (removeTx now (tx_hash t) true p) as [p1| |]; cbn [mbind res_bind]; [|done|done].
      rewrite sub64_small by lia. rewrite IH by (unfold is_u64; lia). destruct (each _ _ p1); cbn [mbind res_bind]; [|done|done]. do 2 f_equal. unfold zlen. simpl. lia.
    + assert (d = 0) as -> by lia. cbn. by rewrite Z.min_l by (unfold zlen; lia).
Qed.

Definition GQ p : Z := GlobalQueue (config p).

Lemma moved_config p p' : moved p p' -> config p' = config p /\ locals p' = locals p /\ settings p' = settings p.
Proof. intros (_ & E & _). split; [by injection E|]. split; [by injection E|]. unfold settings. by rewrite E. Qed.

(** One account of [truncateQueue]: all its transactions, or the last ones. *)
Lemma shrink_one now a p l ts k : pool_ok p -> queue p !! a = Some l -> ts = take k (l_contents l) \/ ts = take k (rev (l_contents l)) ->
  exists p', each (fun tx => removeTx now (tx_hash tx) true) ts (set_queue a (Flatten l).2 p) = Ok p' /\ moved p p' /\ (forall b, its (pending p') b = its (pending p) b) /\
    (forall b, b <> a -> its (queue p') b = its (queue p) b) /\ sz (queue p') a = sz (queue p) a - zlen ts /\ total (queue p') = total (queue p) - zlen ts.
Proof.
  intros Hp El Hts. destruct (flatten_queue p a l Hp El) as (H1 & Hi & El1). destruct (queue_contents p a l Hp El) as (Hl & Hn & Hall & _).
  assert (NoDup (Nonce <$> ts) /\ Forall (fun t => tx_from t = Some a /\ its (queue p) a !! Nonce t = Some t) ts) as [Hn' Hall'].
  { destruct Hts as [->| ->]; (split; [rewrite fmap_take; eapply sublist_NoDup; [|apply sublist_take]|apply Forall_take]); try done; rewrite <- Permutation_rev; done. }
  destruct (remove_queued_all now true a ts (set_queue a (Flatten l).2 p)) as (p' & -> & H2 & Hpd & Hq & Hs); [apply H1|done|eapply Forall_impl; [exact Hall'|]; cbn beta; intros t [? ?]; by rewrite Hi|].
  assert (forall b, sz (queue (set_queue a (Flatten l).2 p)) b = sz (queue p) b) as Hsz by (intros b; unfold sz; by rewrite Hi). rewrite Hsz in Hs.
  exists p'. split; [done|]. split; [eapply moved_trans; [exact H1|exact H2]|]. split; [done|]. split; [intros b Hb; by rewrite Hq, Hi|]. split; [done|].
  apply (total_change _ _ a). intros b. case_decide as Eb; [by subst|]. unfold sz. by rewrite Hq, Hi.
Qed.

Lemma shrink_queue_ok now addrs : forall d p, pool_ok p -> NoDup addrs -> (forall a, a ∈ addrs -> is_Some (queue p !! a)) -> 0 <= d -> 0 <= GQ p -> u64 (total (queue p)) = GQ p + d ->
  exists p', shrink_queue now addrs d p = Ok p' /\ moved p p' /\ (forall b, its (pending p') b = its (pending p) b) /\ (forall b, b ∉ addrs -> its (queue p') b = its (queue p) b) /\
    (u64 (total (queue p')) = GQ p \/ forall a, a ∈ addrs -> queue p' !! a = None).
Proof.
  induction addrs as [|a addrs IH]; intros d p Hp Hn Hin Hd Hgq Htot; cbn [shrink_queue].
  { exists p. split; [done|]. split; [done|]. split; [done|]. split; [done|]. right. by intros a ?%elem_of_nil. }
  apply NoDup_cons in Hn as [Hna Hn]. pose proof (u64_range (total (queue p))) as Hr. unfold is_u64 in Hr. rewrite Z.gtb_ltb. destruct (0 <? d) eqn:Ed; to_prop.
  2:{ exists p. split; [done|]. split; [done|]. split; [done|]. split; [done|]. left. lia. }
  destruct (Hin a ltac:(by left)) as [l El]. rewrite El. cbn [or_panic mbind res_bind]. destruct (queue_contents p a l Hp El) as (Hl & _ & _ & Hlen). destruct (Flatten_spec l Hl) as (Efl & _).
  destruct (Flatten l) as [ts l'] eqn:EF. cbn [fst] in Efl. subst ts. fold (set_queue a l' p).
  pose proof (sz_Len _ _ _ El) as Esz. assert (0 <= Len l) as HL by (rewrite <- Esz; unfold sz; lia). pose proof (u64_range (Len l)) as HuL. unfold is_u64 in HuL.
  assert (forall q : TxPool DB, full (queue q) -> (forall b, b <> a -> its (queue q) b = its (queue p) b) -> forall b, b ∈ addrs -> is_Some (queue q !! b)) as Hkeep.
  { intros q Hfq Hq b Hb. apply its_full; [done|]. rewrite Hq by (intros ->; done). apply its_full; [apply Hp|]. apply Hin. by right. }
  destruct (u64 (Len l) <=? d) eqn:Es; to_prop.
  - destruct (shrink_one now a p l (l_contents l) (length (l_contents l)) Hp El) as (p1 & E1 & H1 & Hpd1 & Hq1 & Hs1 & Ht1); [left; by rewrite firstn_all|].
    rewrite EF in E1. cbn [snd] in E1. rewrite E1. cbn [mbind res_bind]. destruct (moved_config _ _ H1) as (Ec & _). rewrite sub64_small by lia.
    destruct (IH (d - u64 (Len l)) p1) as (p' & -> & H2 & Hpd2 & Hq2 & Hend); [apply H1|done|apply Hkeep; [apply H1|done]|lia|unfold GQ; by rewrite Ec| |].
    { unfold GQ. rewrite Ec. rewrite Ht1, Hlen, Esz. fold (GQ p). replace (GQ p + (d - u64 (Len l))) with (GQ p + d - u64 (Len l)) by lia. rewrite <- Htot.
      unfold u64 in *. rewrite Zminus_mod. apply Z.mod_small. lia. }
    exists p'. split; [done|]. split; [eapply moved_trans; [exact H1|exact H2]|]. split; [intros b; by rewrite Hpd2|]. split; [intros b [? ?]%not_elem_of_cons; by rewrite Hq2, Hq1|].
    destruct Hend as [Hend|Hend]; [left; rewrite Hend; unfold GQ; by rewrite Ec|]. right. intros b [->|Hb]%elem_of_cons; [|by apply Hend].
    apply sz_zero; [apply H2|]. unfold sz. rewrite Hq2 by done. fold (sz (queue p1) a). lia.
  - assert (Len l = u64 (Len l) + 2 ^ 64 * (Len l / 2 ^ 64)) as Ediv by (unfold u64; pose proof (Z_div_mod_eq_full (Len l) (2 ^ 64)); lia).
    assert (0 <= Len l / 2 ^ 64) by (apply Z.div_pos; lia).
    rewrite drop_last_each by (unfold is_u64; lia).
    destruct (shrink_one now a p l (take (Z.to_nat d) (rev (l_contents l))) (Z.to_nat d) Hp El) as (p1 & E1 & H1 & Hpd1 & Hq1 & Hs1 & Ht1); [by right|].
    rewrite EF in E1. cbn [snd] in E1. rewrite E1. cbn [mbind res_bind]. destruct (moved_config _ _ H1) as (Ec & _).
    assert (zlen (take (Z.to_nat d) (rev (l_contents l))) = d) as Ed1.
    { unfold zlen. rewrite length_take, length_rev. unfold zlen in Hlen. lia. }
    assert (d - Z.min d (zlen (rev (l_contents l))) = 0) as ->.
    { unfold zlen. rewrite length_rev. unfold zlen in Hlen. lia. }
    assert (shrink_queue now addrs 0 p1 = Ok p1) as -> by (by destruct addrs). exists p1. split; [done|]. split; [done|]. split; [done|].
    split; [intros b [? ?]%not_elem_of_cons; by rewrite Hq1|]. left. rewrite Ht1, Ed1. unfold u64 in *. rewrite Zminus_mod, Htot, (Z.mod_small d) by lia. rewrite Z.mod_small; lia.
Qed.

Lemma elem_accounts (m : gmap Address txList) a : a ∈ (iter m).*1 <-> is_Some (m !! a).
Proof.
  rewrite (iter_perm m), list_elem_of_fmap. split.
  - intros ([k l] & -> & E%elem_of_map_to_list). by eauto.
  - intros [l E]. exists (a, l). split; [done|]. by apply elem_of_map_to_list.
Qed.
Lemma NoDup_accounts (m : gmap Address txList) : NoDup (iter m).*1.
Proof. rewrite (iter_perm m). apply NoDup_fst_map_to_list. Qed.

(** [truncateQueue]: the limit is met, or only local accounts have a queue. *)
Lemma truncateQueue_ok now p : pool_ok p -> 0 <= GQ p -> exists p', truncateQueue now p = Ok p' /\ moved p p' /\ (forall b, its (pending p') b = its (pending p) b) /\
  (count_txs (queue p') <= GQ p \/ forall a, as_contains a (locals p) = false -> queue p' !! a = None).
Proof.
  intros Hp Hgq. unfold truncateQueue. cbn zeta. fold (GQ p). destruct (count_txs (queue p) <=? GQ p) eqn:E; to_prop.
  { exists p. split; [done|]. split; [done|]. split; [done|]. by left. }
  rewrite count_total in *. pose proof (u64_range (total (queue p))) as Hr. unfold is_u64 in Hr. rewrite sub64_small by lia.
  set (keys := filter (fun kv : Address * txList => as_contains kv.1 (locals p) = false) (iter (queue p))).
  set (addrs := rev (merge_sort beat_ge (map (fun kv : Address * txList => (kv.1, default 0 (beats p !! kv.1))) keys)).*1).
  assert (addrs ≡ₚ keys.*1) as Hperm.
  { unfold addrs. rewrite <- Permutation_rev, merge_sort_Permutation. change (map ?f ?l) with (f <$> l). rewrite <- list_fmap_compose. done. }
  assert (forall a, a ∈ keys.*1 <-> as_contains a (locals p) = false /\ is_Some (queue p !! a)) as Hkeys.
  { intros a. rewrite <- elem_accounts. unfold keys. rewrite !list_elem_of_fmap. split.
    - intros (kv & -> & [Hc Hin]%list_elem_of_filter). eauto.
    - intros (Hc & kv & -> & Hin). exists kv. split; [done|]. by apply list_elem_of_filter. }
  assert (NoDup keys.*1) as Hnd.
  { eapply sublist_NoDup; [apply (NoDup_accounts (queue p))|]. unfold keys. apply fmap_sublist, sublist_filter. }
  destruct (shrink_queue_ok now addrs (u64 (total (queue p)) - GQ p) p Hp) as (p' & -> & H1 & Hpd & Hq & Hend); [by rewrite Hperm| |lia|done|lia|].
  { intros a. rewrite Hperm, Hkeys. tauto. }
  exists p'. split; [done|]. split; [done|]. split; [done|]. destruct Hend as [Hend|Hend]; [left; rewrite count_total; lia|]. right. intros a Ha.
  destruct (queue p !! a) as [l|] eqn:El; [apply Hend; rewrite Hperm, Hkeys; eauto|].
  apply sz_zero; [apply H1|]. unfold sz. rewrite Hq by (rewrite Hperm, Hkeys, El; intros [_ [? ?]]; done). unfold its. by rewrite El.
Qed.

(** ** Eviction *)

Lemma evict_account_ok now a p : pool_ok p -> is_Some (queue p !! a) -> exists p', evict_account now a p = Ok p' /\ moved p p' /\
  (forall b, b <> a -> its (queue p') b = its (queue p) b).
Proof.
  intros Hp [l El]. unfold evict_account. destruct (as_contains a (locals p)); [by exists p|]. destruct (_ >? _); [|by exists p]. rewrite El. cbn [or_panic mbind res_bind].
  destruct (queue_contents p a l Hp El) as (Hl & _ & _ & Hlen). destruct (Flatten_spec l Hl) as (Efl & _). destruct (Flatten l) as [ts l'] eqn:EF. cbn [fst] in Efl. subst ts.
  destruct (shrink_one now a p l (l_contents l) (length (l_contents l)) Hp El) as (p1 & E1 & H1 & Hpd1 & Hq1 & _); [left; by rewrite firstn_all|]. rewrite EF in E1. cbn [snd] in E1.
  exists p1. split; [exact E1|]. split; [done|]. done.
Qed.

Lemma evict_ok now p : pool_ok p -> exists p', evict now p = Ok p' /\ moved p p'.
Proof.
  unfold evict. pose proof (NoDup_accounts (queue p)) as Hn. assert (forall a, a ∈ (iter (queue p)).*1 -> is_Some (queue p !! a)) as Hin by (intros a; by rewrite elem_accounts).
  revert Hn Hin. generalize (iter (queue p)).*1. intros addrs. revert p. induction addrs as [|a addrs IH]; intros p Hn Hin Hp; cbn [each]; [by exists p|]. apply NoDup_cons in Hn as [Hna Hn].
  destruct (evict_account_ok now a p Hp (Hin a ltac:(by left))) as (p1 & -> & H1 & Hq). cbn [mbind res_bind].
  destruct (IH p1) as (p' & -> & H2); [done| |apply H1|].
  - intros b Hb. apply its_full; [apply H1|]. rewrite Hq by (intros ->; done). apply its_full; [apply Hp|]. apply Hin. by right.
  - exists p'. split; [done|]. eapply moved_trans; [exact H1|exact H2].
Qed.

(** ** The pending transactions *)

Lemma forget_nonces ts n : forall p, forget ts (with_nonces n p) = with_nonces n (forget ts p).
Proof. induction ts as [|t ts IH]; intros p; [done|]. apply (IH (with_all (lk_Remove (tx_hash t) (all p)) p)). Qed.

Lemma fold_forget a ts : forall p, exists n, fold_left (fun p tx => with_nonces (noncer_setIfLower a (Nonce tx) (pendingNonces p)) (with_all (lk_Remove (tx_hash tx) (all p)) p)) ts p =
  with_nonces n (forget ts p).
Proof.
  induction ts as [|t ts IH]; intros p; [exists (pendingNonces p); by destruct p|]. cbn [fold_left].
  destruct (IH (with_nonces (noncer_setIfLower a (Nonce t) (pendingNonces p)) (with_all (lk_Remove (tx_hash t) (all p)) p))) as [n E]. exists n. etransitivity; [exact E|]. rewrite forget_nonces. done.
Qed.

Lemma cap_one_ok a c p : pool_ok p -> 2 <= sz (pending p) a -> exists p', cap_one a (c, p) = Ok (sub64 c 1, p') /\ moved p p' /\
  (forall b, sz (pending p') b = if decide (b = a) then sz (pending p) a - 1 else sz (pending p) b) /\ queue p' = queue p.
Proof.
  intros (Hok & Hfp & Hfq) Hs. unfold cap_one. destruct (pending p !! a) as [l|] eqn:El; [|unfold sz, its in Hs; rewrite El in Hs; by cbn in Hs].
  cbn [or_panic mbind res_bind]. destruct (lo_pend _ _ _ (ok_lists _ _ _ _ _ _ Hok) a l El) as [Hl Hst]. rewrite (sz_Len _ _ _ El) in *.
  destruct (Cap_parts (Len l - 1) l Hl ltac:(lia)) as (caps & l' & -> & Hl' & Hst' & Hp & Hc). cbn [mbind res_bind].
  cbn zeta. fold (set_pending a l' p). destruct (fold_forget a caps (set_pending a l' p)) as [n ->]. destruct (forget_ok caps [] _ (take_pend _ _ _ _ _ _ Hok El Hl' Hst' Hp)) as (Hok1 & Epd1 & Eq1 & Epar1 & _ & _ & Hk1).
  set (p1 := forget caps (set_pending a l' p)) in *. destruct (priced_Removed_ok (zlen caps) [] (with_nonces n p1) Hok1) as (pr & -> & Hok2). cbn [mbind res_bind].
  assert (Len l' = Len l - 1) as El'.
  { rewrite !Len_spec in *. rewrite Hc. unfold zlen in *. rewrite length_take. lia. }
  eexists. split; [done|]. split; [|split; [|exact Eq1]].
  - split; [split; [exact Hok2|]|]; [|by split]. cbn [pending queue with_priced with_nonces]. rewrite Epd1, Eq1. split; [|done]. apply full_insert; [done|].
    intros E. unfold Len, map_Len in El', Hs. fold (l_items l') in El'. rewrite E, map_size_empty in El'. lia.
  - intros b. cbn [pending with_priced with_nonces]. rewrite Epd1. unfold sz at 1. cbn [pending set_pending with_pending]. rewrite its_insert. case_decide; [exact El'|done].
Qed.

(** The state of the loops: the count is right, the offenders have [k]
    transactions each. *)
Definition counted (c : Z) p : Prop := c = u64 (total (pending p)).

Lemma cap_round offenders : forall c p, pool_ok p -> NoDup offenders -> (forall a, a ∈ offenders -> 2 <= sz (pending p) a) -> counted c p ->
  exists c' p', each cap_one offenders (c, p) = Ok (c', p') /\ moved p p' /\ counted c' p' /\ queue p' = queue p /\
    (forall b, sz (pending p') b = if decide (b ∈ offenders) then sz (pending p) b - 1 else sz (pending p) b).
Proof.
  induction offenders as [|a offenders IH]; intros c p Hp Hn Hs Hc; cbn [each]; [by exists c, p|]. apply NoDup_cons in Hn as [Hna Hn].
  destruct (cap_one_ok a c p Hp (Hs a ltac:(by left))) as (p1 & -> & H1 & Hs1 & Hq1). cbn [mbind res_bind].
  destruct (IH (sub64 c 1) p1) as (c' & p' & -> & H2 & Hc2 & Hq2 & Hs2); [apply H1|done| | |].
  - intros b Hb. rewrite Hs1, decide_False by (intros ->; done). apply Hs. by right.
  - unfold counted in *. rewrite (total_change _ _ a 1 Hs1), Hc. unfold sub64, u64. by rewrite Zminus_mod_idemp_l.
  - exists c', p'. split; [done|]. split; [eapply moved_trans; [exact H1|exact H2]|]. split; [done|]. split; [congruence|]. intros b. rewrite Hs2, Hs1. destruct (decide (b = a)) as [->|].
    + rewrite decide_False by done. rewrite decide_True by (by left). done.
    + destruct (decide (b ∈ offenders)); [rewrite decide_True by (by right)|rewrite decide_False by (by rewrite not_elem_of_cons)]; done.
Qed.

Definition level (k : Z) (offenders : list Address) (m : gmap Address txList) : Prop := forall a, a ∈ offenders -> sz m a = k.
Definition GS p : Z := GlobalSlots (config p).

Lemma pending_len_sz p a : 0 < sz (pending p) a -> pending_len p a = Ok (sz (pending p) a).
Proof. intros Hs. unfold pending_len. destruct (pending p !! a) as [l|] eqn:El; [by rewrite (sz_Len _ _ _ El)|]. unfold sz, its in Hs. rewrite El in Hs. done. Qed.

Lemma equalize_ok (above : Z -> bool) offenders watch : (forall n, above n = true -> 0 < n -> 2 <= n) -> NoDup offenders -> watch ∈ offenders ->
  forall fuel k c p, pool_ok p -> counted c p -> 0 < k -> level k offenders (pending p) -> k <= Z.of_nat fuel ->
  exists c' p' k', equalize fuel offenders watch above c p = Ok (c', p') /\ moved p p' /\ counted c' p' /\ queue p' = queue p /\
    0 < k' <= k /\ level k' offenders (pending p') /\ (forall b, b ∉ offenders -> sz (pending p') b = sz (pending p) b) /\
    (c' <= GS p \/ above k' = false) /\ (k' = k \/ above (k' + 1) = true).
Proof.
  intros Hab Hn Hw fuel. induction fuel as [|fuel IH]; intros k c p Hp Hc Hk Hlev Hfuel; [lia|]. cbn [equalize]. fold (GS p). rewrite Z.gtb_ltb. destruct (GS p <? c) eqn:Eg; cbn [negb]; to_prop.
  2:{ exists c, p, k. split; [done|]. split; [done|]. split; [done|]. split; [done|]. split; [lia|]. split; [done|]. split; [done|]. split; [left; lia|by left]. }
  rewrite pending_len_sz by (rewrite Hlev; done). rewrite Hlev by done. cbn [mbind res_bind]. destruct (above k) eqn:Ea; cbn [negb].
  2:{ exists c, p, k. split; [done|]. split; [done|]. split; [done|]. split; [done|]. split; [lia|]. split; [done|]. split; [done|]. split; [by right|by left]. }
  specialize (Hab k Ea Hk). destruct (cap_round offenders c p Hp Hn) as (c1 & p1 & -> & H1 & Hc1 & Hq1 & Hs1); [intros a Ha; rewrite Hlev; done|done|]. cbn [mbind res_bind].
  destruct (moved_config _ _ H1) as (Ec & _).
  destruct (IH (k - 1) c1 p1) as (c' & p' & k' & -> & H2 & Hc2 & Hq2 & Hk' & Hlev' & Hs2 & Hend & Habove); [apply H1|done|lia| |lia|].
  { intros a Ha. rewrite Hs1, decide_True by done. by rewrite Hlev. }
  exists c', p', k'. split; [done|]. split; [eapply moved_trans; [exact H1|exact H2]|]. split; [done|]. split; [congruence|]. split; [lia|]. split; [done|].
  split; [intros b Hb; rewrite Hs2, Hs1, decide_False by done; done|]. split; [unfold GS in *; by rewrite Ec in Hend|]. right. destruct Habove as [->|]; [|done]. by replace (k - 1 + 1) with k by lia.
Qed.

(** The spammers that wait in the priority queue, and the offenders taken off it. *)
Record spam (ac : Address -> bool) (AS : Z) (q : prque) (offenders : list Address) (k : Z) (m : gmap Address txList) : Prop := {
  sp_heap : Heap.heap prque_less q;
  sp_nodup : NoDup (q.*1 ++ offenders);
  sp_size it : it ∈ q -> it.2 = sz m it.1 /\ 2 <= it.2;
  sp_level : offenders = [] \/ level k offenders m /\ 0 < k /\ forall it, it ∈ q -> it.2 <= k;
  sp_all b : ac b = false -> b ∉ q.*1 ++ offenders -> u64 (sz m b) <= AS;
}.

Lemma prque_Pop_max q : Heap.heap prque_less q -> q <> [] -> exists a n q', prque_Pop q = Ok (a, n, q') /\ q ≡ₚ (a, n) :: q' /\ Heap.heap prque_less q' /\ forall it, it ∈ q -> it.2 <= n.
Proof.
  intros Hh Hne. destruct q as [|[a n] r]; [done|]. destruct (Heap.Pop_spec prque_less (a, n) r Hh) as (r' & E & Hp & Hh'). exists a, n, r'. unfold prque_Pop. rewrite E. cbn [mbind res_bind].
  split; [done|]. split; [by rewrite Hp|]. split; [done|]. intros it Hit. pose proof (Heap.heap_min prque_less ((a, n) :: r) (a, n) it Hh eq_refl Hit) as Hl. unfold prque_less in Hl. cbn in Hl. to_prop. lia.
Qed.

Lemma spam_first ac AS q q' a n k m : spam ac AS q [] k m -> q ≡ₚ (a, n) :: q' -> Heap.heap prque_less q' -> (forall it, it ∈ q -> it.2 <= n) -> spam ac AS q' [a] n m.
Proof.
  intros [_ Hn Hs _ Ha] Hp Hh' Hmax. rewrite app_nil_r in Hn, Ha. assert (q.*1 ≡ₚ a :: q'.*1) as Hp1 by (by rewrite Hp). destruct (Hs (a, n)) as [En Hn2]; [rewrite Hp; by left|]. cbn in En, Hn2. split.
  - done.
  - rewrite Permutation_app_comm. cbn. by rewrite <- Hp1.
  - intros it Hit. apply Hs. rewrite Hp. by right.
  - right. split; [intros b ->%list_elem_of_singleton; done|]. split; [lia|]. intros it Hit. apply Hmax. rewrite Hp. by right.
  - intros b Hb Hni. apply Ha; [done|]. rewrite Hp1. intros [->|Hin]%elem_of_cons; apply Hni, elem_of_app; [right; by left|by left].
Qed.

(** The next offender joins once the others are down to its size. *)
Lemma spam_next ac AS q q' a n k offenders m m' : spam ac AS q offenders k m -> q ≡ₚ (a, n) :: q' -> Heap.heap prque_less q' -> (forall it, it ∈ q -> it.2 <= n) ->
  level n offenders m' -> (forall b, b ∉ offenders -> sz m' b = sz m b) -> spam ac AS q' (offenders ++ [a]) n m'.
Proof.
  intros [_ Hn Hs _ Ha] Hp Hh' Hmax Hlev Hsame. assert (q.*1 ≡ₚ a :: q'.*1) as Hp1 by (by rewrite Hp). destruct (Hs (a, n)) as [En Hn2]; [rewrite Hp; by left|]. cbn in En, Hn2.
  assert (q'.*1 ++ offenders ++ [a] ≡ₚ q.*1 ++ offenders) as Hp2 by (rewrite Hp1, app_assoc, (Permutation_app_comm _ [a]); done).
  assert (forall b, b ∈ q.*1 -> b ∉ offenders) as Hdis by (apply NoDup_app in Hn as (_ & Hd & _); done).
  split.
  - done.
  - by rewrite Hp2.
  - intros it Hit. destruct (Hs it) as [E ?]; [rewrite Hp; by right|]. split; [|done]. rewrite Hsame; [done|]. apply Hdis. rewrite Hp1. right. apply list_elem_of_fmap. eauto.
  - right. split; [|split; [lia|intros it Hit; apply Hmax; rewrite Hp; by right]]. intros b [Hb| ->%list_elem_of_singleton]%elem_of_app; [by apply Hlev|]. rewrite Hsame; [done|]. apply Hdis. rewrite Hp1. by left.
  - intros b Hb Hni. rewrite Hp2 in Hni. rewrite Hsame; [by apply Ha|]. intros Hin. apply Hni, elem_of_app. by right.
Qed.

Lemma penalize_ok ac AS fuel : forall q offenders k c p, pool_ok p -> counted c p -> (c <= GS p \/ spam ac AS q offenders k (pending p)) -> (length q <= fuel)%nat ->
  exists offs c' p', penalize fuel q offenders c p = Ok (offs, c', p') /\ moved p p' /\ counted c' p' /\ queue p' = queue p /\ (c' <= GS p \/ exists k', spam ac AS [] offs k' (pending p')).
Proof.
  induction fuel as [|fuel IH]; intros q offenders k c p Hp Hc Hcase Hf; cbn [penalize]; fold (GS p); rewrite Z.gtb_ltb; (destruct (GS p <? c) eqn:Eg; cbn [negb orb]; to_prop;
    [|exists offenders, c, p; split; [done|]; split; [done|]; split; [done|]; split; [done|]; left; lia]); (destruct Hcase as [|Hsp]; [lia|]); unfold prque_Empty; case_bool_decide as Eq;
    try (subst q; exists offenders, c, p; split; [done|]; split; [done|]; split; [done|]; split; [done|]; right; by exists k).
  { destruct q; [done|]. cbn in Hf. lia. }
  destruct (prque_Pop_max q (sp_heap _ _ _ _ _ _ Hsp) Eq) as (a & n & q' & -> & Hp1 & Hh' & Hmax). cbn [mbind res_bind]. assert (length q' <= fuel)%nat as Hf' by (apply Permutation_length in Hp1; cbn in Hp1; lia).
  destruct (last offenders) as [prev|] eqn:Elast.
  - assert (prev ∈ offenders) as Hprev by (by apply last_Some_elem_of). destruct (sp_level _ _ _ _ _ _ Hsp) as [->|(Hlev & Hk & Hle)]; [done|].
    destruct (sp_size _ _ _ _ _ _ Hsp (a, n)) as [En Hn2]; [rewrite Hp1; by left|]. cbn in En, Hn2. specialize (Hle (a, n) ltac:(rewrite Hp1; by left)). cbn in Hle.
    rewrite (pending_len_sz p a) by lia. cbn [mbind res_bind]. rewrite (pending_len_sz p prev) by (rewrite Hlev; done). rewrite (Hlev prev Hprev), <- En. cbn [mbind res_bind].
    pose proof (sp_nodup _ _ _ _ _ _ Hsp) as Hn. apply NoDup_app in Hn as (_ & _ & Hno).
    destruct (equalize_ok (fun len => len >? n) offenders prev ltac:(intros x Hx _; cbv beta in Hx; to_prop; lia) Hno Hprev (Z.to_nat k) k c p Hp Hc Hk Hlev ltac:(lia))
      as (c1 & p1 & k1 & -> & H1 & Hc1 & Hq1 & Hk1 & Hlev1 & Hs1 & Hend & Habove). cbn [mbind res_bind]. destruct (moved_config _ _ H1) as (Ec & _).
    destruct (IH q' (offenders ++ [a]) n c1 p1) as (offs & c' & p' & -> & H2 & Hc2 & Hq2 & Hfin); [apply H1|done| |done|].
    { unfold GS. rewrite Ec. fold (GS p). cbv beta in Hend, Habove. destruct Hend as [|Hend]; [by left|]. right. to_prop. assert (k1 = n) as -> by (destruct Habove; [lia|to_prop; lia]). by eapply spam_next. }
    exists offs, c', p'. split; [done|]. split; [eapply moved_trans; [exact H1|exact H2]|]. split; [done|]. split; [congruence|]. unfold GS in *. by rewrite Ec in Hfin.
  - apply last_None in Elast as ->. destruct (IH q' [a] n c p Hp Hc) as (offs & c' & p' & -> & H2 & Hc2 & Hq2 & Hfin); [right; by eapply spam_first|done|]. by exists offs, c', p'.
Qed.

Definition AS p : Z := AccountSlots (config p).

(** The spammers: the remote accounts above their slots. *)
Definition spammer p (kv : Address * txList) : Prop := as_contains kv.1 (locals p) = false /\ AS p < u64 (Len kv.2).
Instance spammer_dec p kv : Decision (spammer p kv).
Proof. unfold spammer. apply _. Defined.

Lemma spammers_spec p l : forall q, Heap.heap prque_less q ->
  let q' := fold_left (fun q kv => if negb (as_contains kv.1 (locals p)) && (u64 (Len kv.2) >? AccountSlots (config p)) then prque_Push kv.1 (Len kv.2) q else q) l q in
  Heap.heap prque_less q' /\ q' ≡ₚ ((fun kv => (kv.1, Len kv.2)) <$> filter (spammer p) l) ++ q.
Proof.
  induction l as [|kv l IH]; intros q Hq; cbn [fold_left]; [done|]. fold (AS p) in *. rewrite filter_cons. destruct (decide (spammer p kv)) as [[Hc Hs]|Hns].
  2:{ assert (negb (as_contains kv.1 (locals p)) && (u64 (Len kv.2) >? AS p) = false) as ->; [|by apply IH]. apply not_true_iff_false. intros E. apply Hns. to_prop. split; [done|lia]. }
  assert (negb (as_contains kv.1 (locals p)) && (u64 (Len kv.2) >? AS p) = true) as -> by (rewrite Hc, Z.gtb_ltb; cbn; by apply Z.ltb_lt).
  destruct (Heap.Push_spec prque_less (kv.1, Len kv.2) q Hq) as [Hp Hh]. destruct (IH _ Hh) as [H1 H2]. split; [exact H1|]. cbn zeta in H2. rewrite H2. unfold prque_Push. rewrite Hp. cbn. by rewrite Permutation_middle.
Qed.

Lemma spam_start p : pool_ok p -> 1 <= AS p -> let q := fold_left (fun q kv => if negb (as_contains kv.1 (locals p)) && (u64 (Len kv.2) >? AccountSlots (config p)) then prque_Push kv.1 (Len kv.2) q else q) (iter (pending p)) [] in
  spam (fun a => as_contains a (locals p)) (AS p) q [] 0 (pending p).
Proof.
  intros Hp Has. cbn zeta. destruct (spammers_spec p (iter (pending p)) []) as [Hh Hperm]; [by intros ? ? ? ?; cbn in *; lia|]. set (q := fold_left _ _ _) in *. rewrite app_nil_r in Hperm. cbn zeta in Hperm.
  assert (q.*1 ≡ₚ (filter (spammer p) (iter (pending p))).*1) as Hp1 by (rewrite Hperm, <- list_fmap_compose; done).
  assert (forall a l, (a, l) ∈ iter (pending p) <-> pending p !! a = Some l) as Hit by (intros a l; by rewrite (iter_perm (pending p)), elem_of_map_to_list).
  split.
  - exact Hh.
  - rewrite app_nil_r, Hp1. eapply sublist_NoDup; [apply (NoDup_accounts (pending p))|]. apply fmap_sublist, sublist_filter.
  - intros it Hin. rewrite Hperm in Hin. apply list_elem_of_fmap in Hin as ([a l] & -> & [[_ Hs] Hin]%list_elem_of_filter). cbn [fst snd] in *. apply Hit in Hin. split; [by rewrite (sz_Len _ _ _ Hin)|].
    assert (u64 (Len l) <= Len l) by (apply Z.mod_le; [rewrite <- (sz_Len _ _ _ Hin); unfold sz; lia|lia]). lia.
  - by left.
  - intros b Hb. rewrite app_nil_r, Hp1. intros Hni. destruct (pending p !! b) as [l|] eqn:El; [|unfold sz, its; rewrite El; cbn; unfold u64; rewrite Z.mod_0_l; lia].
    rewrite (sz_Len _ _ _ El). destruct (Z.le_gt_cases (u64 (Len l)) (AS p)) as [|Hgt]; [done|]. destruct Hni. apply list_elem_of_fmap. exists (b, l). split; [done|]. apply list_elem_of_filter. split; [split; [done|cbn; lia]|by apply Hit].
Qed.

(** [truncatePending]: the limit is met, or every remote account is within its
    slots. *)
Lemma truncatePending_ok p : pool_ok p -> 1 <= AS p -> exists p', truncatePending p = Ok p' /\ moved p p' /\ queue p' = queue p /\
  (count_txs (pending p') <= GS p \/ forall a, as_contains a (locals p) = false -> u64 (sz (pending p') a) <= AS p).
Proof.
  intros Hp Has. unfold truncatePending. cbn zeta. fold (GS p). destruct (count_txs (pending p) <=? GS p) eqn:E; to_prop; [exists p; split; [done|]; split; [done|]; split; [done|]; by left|].
  pose proof (spam_start p Hp Has) as Hsp. cbn zeta in Hsp. set (q := fold_left _ _ _) in *.
  destruct (penalize_ok (fun a => as_contains a (locals p)) (AS p) (length q) q [] 0 (count_txs (pending p)) p Hp (count_total _) (or_intror Hsp) (le_n _)) as (offs & c & p1 & -> & H1 & Hc1 & Hq1 & Hend). cbn [mbind res_bind].
  destruct (moved_config _ _ H1) as (Ec & _). assert (forall p2, counted c p2 -> c <= GS p -> count_txs (pending p2) <= GS p) as Hdone by (intros p2 Hc2 Hle; rewrite count_total; unfold counted in Hc2; lia).
  destruct (last offs) as [final|] eqn:Elast.
  - rewrite Z.gtb_ltb. fold (GS p1). replace (GS p1) with (GS p) by (unfold GS; by rewrite Ec). destruct (GS p <? c) eqn:Eg; to_prop; [|exists p1; split; [done|]; split; [done|]; split; [done|]; left; apply Hdone; [done|lia]].
    destruct Hend as [|[k Hs]]; [lia|]. destruct (sp_level _ _ _ _ _ _ Hs) as [->|(Hlev & Hk & _)]; [done|]. pose proof (sp_nodup _ _ _ _ _ _ Hs) as Hn. cbn in Hn.
    assert (final ∈ offs) as Hfin by (by apply last_Some_elem_of). rewrite pending_len_sz by (rewrite Hlev; done). rewrite (Hlev final Hfin). cbn [mbind res_bind]. rewrite Ec. fold (AS p).
    destruct (equalize_ok (fun len => u64 len >? AS p) offs final) with (fuel := Z.to_nat k) (k := k) (c := c) (p := p1) as (c2 & p2 & k2 & -> & H2 & Hc2 & Hq2 & Hk2 & Hlev2 & Hs2 & Hend2 & _); try done; [|apply H1|lia|].
    { intros n Hn2 Hpos. cbv beta in Hn2. to_prop. assert (u64 n <= n) by (apply Z.mod_le; lia). lia. }
    cbn [mbind res_bind]. exists p2. split; [done|]. split; [eapply moved_trans; [exact H1|exact H2]|]. split; [congruence|]. unfold GS in Hend2. rewrite Ec in Hend2. fold (GS p) in Hend2.
    destruct Hend2 as [|Hab]; [left; rewrite count_total; unfold counted in Hc2; lia|]. right. intros b Hb. cbv beta in Hab. to_prop. destruct (decide (b ∈ offs)) as [Hin|Hni]; [by rewrite Hlev2|].
    rewrite Hs2 by done. by apply (sp_all _ _ _ _ _ _ Hs).
  - apply last_None in Elast as ->. exists p1. split; [done|]. split; [done|]. split; [done|]. destruct Hend as [|[k Hs]]; [left; by apply Hdone|]. right. intros b Hb. apply (sp_all _ _ _ _ _ _ Hs); [done|]. by intros ?%elem_of_nil.
Qed.
End pool.
End TxPoolLimits.
