(* ===== verification/TxPoolTheorems.v ===== *)
(** * The transaction pool stays consistent and within its limits

    Resets and the reorganisation run, and the theorems about any sequence of
    operations of the pool. *)

From stdpp Require Import sorting.
From S2P Require Import Prelude Config Common Rlp EvmState Header Consensus StateTransition Transaction Heap TxList TxListSpec TxPricedList TxPricedSpec TxPool TxPoolSpec TxPoolOps TxPoolMoves TxPoolLimits.
From S2P Require Import StateDB StateRevert Instances TxListTheorems.

Local Open Scope Z_scope.

Module TxPoolTheorems.

Import TxList TxListSpec Priced PricedSpec TxPool TxPoolSpec TxPoolOps TxPoolMoves TxPoolLimits.

Section pool.
Context {DB : Type} `{SDB : StateDB DB} `{MO : MapOrder}.
Implicit Types p : TxPool DB.

(** ** What the pool relies on *)

(** Blocks are found under their number; there is none numbered 2^64-1; their
    transactions are well formed. *)
Record chain_ok (chain : blockChain DB) : Prop := {
  ck_number h n b : GetBlock chain h n = Some b -> NumberU64 b = n;
  ck_last h : GetBlock chain h (2 ^ 64 - 1) = None;
  ck_txs h n b : GetBlock chain h n = Some b -> Forall tx_wf (cb_txs b);
}.

(** A head whose base fee can be computed. *)
Definition fee_ok (cc : ChainConfig) (h : Header.Header) : Prop :=
  conf_IsLondon cc (Header.Number h) = true -> is_Some (Header.BaseFee h) /\ 2 <= Header.GasLimit h.

(** The block of the head that replaces another is in the chain. *)
Definition heads_ok (chain : blockChain DB) (old new : option Head) : Prop :=
  is_Some old -> exists h, new = Some h /\ is_Some (GetBlock chain (hd_hash h) (u64 (Header.Number (hd h)))).

Definition events_ok (ev : gmap Address txSortedMap) : Prop := forall a m, ev !! a = Some m -> sm_ok m.

(** ** [reset] *)

Section chain.
Context (chain : blockChain DB) (CK : chain_ok chain).

Lemma walk_down_ok target fuel : forall b acc, 0 <= target -> NumberU64 b < Z.of_nat fuel -> Forall tx_wf (cb_txs b) -> Forall tx_wf acc ->
  exists r, walk_down fuel chain b target acc = Ok r /\ forall b' txs, r = Some (b', txs) -> Forall tx_wf txs /\ Forall tx_wf (cb_txs b').
Proof.
  induction fuel as [|fuel IH]; intros b acc Ht Hb Hw Hacc; cbn [walk_down]; assert (is_u64 (NumberU64 b)) as Hu by apply u64_range; unfold is_u64 in Hu; [lia|].
  rewrite Z.gtb_ltb. destruct (target <? NumberU64 b) eqn:E; cbn [negb]; to_prop; [|eexists; split; [done|]; by intros ? ? [= <- <-]].
  rewrite sub64_small by lia. destruct (GetBlock chain (cb_parent b) (NumberU64 b - 1)) as [b'|] eqn:Eb; [|by eexists].
  apply IH; [done|rewrite (ck_number _ CK _ _ _ Eb); lia|by apply (ck_txs _ CK) in Eb|by apply Forall_app].
Qed.

Lemma walk_both_ok fuel : forall rem ad d i, NumberU64 rem < Z.of_nat fuel -> Forall tx_wf (cb_txs rem) -> Forall tx_wf d ->
  exists r, walk_both fuel chain rem ad d i = Ok r /\ forall d' i', r = Some (d', i') -> Forall tx_wf d'.
Proof.
  induction fuel as [|fuel IH]; intros rem ad d i Hb Hw Hd; cbn [walk_both]; assert (is_u64 (NumberU64 rem)) as Hu by apply u64_range; unfold is_u64 in Hu; [lia|].
  destruct (cb_hash rem =? cb_hash ad); [eexists; split; [done|]; by intros ? ? [= <- <-]|].
  destruct (decide (NumberU64 rem = 0)) as [E0|].
  { assert (sub64 (NumberU64 rem) 1 = 2 ^ 64 - 1) as -> by (rewrite E0; done). rewrite (ck_last _ CK). by eexists. }
  rewrite sub64_small by lia. destruct (GetBlock chain (cb_parent rem) (NumberU64 rem - 1)) as [rem'|] eqn:Er; [|by eexists].
  destruct (GetBlock chain (cb_parent ad) _) as [ad'|]; [|by eexists].
  apply IH; [rewrite (ck_number _ CK _ _ _ Er); lia|by apply (ck_txs _ CK) in Er|by apply Forall_app].
Qed.

Lemma reinjected_ok rem ad : Forall tx_wf (cb_txs rem) -> Forall tx_wf (cb_txs ad) -> exists r, reinjected chain rem ad = Ok r /\ forall ts, r = Some ts -> Forall tx_wf ts.
Proof.
  intros Hr Ha. unfold reinjected. assert (forall b : ChainBlock, 0 <= NumberU64 b) as Hpos by (intros b; apply u64_nonneg).
  destruct (walk_down_ok (NumberU64 ad) (S (Z.to_nat (NumberU64 rem))) rem []) as (r & -> & Hr1); [apply Hpos|specialize (Hpos rem); lia|done|constructor|]. cbn [mbind res_bind].
  destruct r as [[rem1 d]|]; [|by eexists]. destruct (Hr1 _ _ eq_refl) as [Hd Hrem1].
  destruct (walk_down_ok (NumberU64 rem1) (S (Z.to_nat (NumberU64 ad))) ad []) as (r & -> & Hr2); [apply Hpos|specialize (Hpos ad); lia|done|constructor|]. cbn [mbind res_bind].
  destruct r as [[ad1 i]|]; [|by eexists].
  destruct (walk_both_ok (S (Z.to_nat (NumberU64 rem1))) rem1 ad1 d i) as (r & -> & Hr3); [specialize (Hpos rem1); lia|done|done|]. cbn [mbind res_bind].
  eexists. split; [done|]. intros ts. destruct r as [[d' i']|]; [|done]. intros [= <-]. specialize (Hr3 _ _ eq_refl). unfold TxDifference. rewrite Forall_forall in *. intros t [_ Ht]%list_elem_of_filter. by apply Hr3.
Qed.

Lemma reorg_txs_ok old new : heads_ok chain old new -> exists r, reorg_txs chain old new = Ok r /\ forall ts, r = Some ts -> Forall tx_wf ts.
Proof.
  intros Hold. assert (forall ts : list Tx, Some [] = Some ts -> Forall tx_wf ts) as Hnil by (intros ts [= <-]; constructor).
  unfold reorg_txs. destruct old as [o|]; [|by eexists]. destruct (Hold ltac:(by eexists)) as (h & -> & b & Eb). cbn [or_panic mbind res_bind].
  destruct (_ =? _); [by eexists|]. destruct (_ >? _); [by eexists|].
  destruct (GetBlock chain (hd_hash o) _) as [rem|] eqn:Er; [|destruct (_ >=? _); by eexists]. rewrite Eb. cbn [or_panic mbind res_bind].
  apply reinjected_ok; by eapply (ck_txs _ CK).
Qed.

Lemma reset_ok now old new p : pool_ok p -> sized p -> heads_ok chain old new ->
  exists p', reset now chain old new p = Ok p' /\ pool_ok p' /\ sized p' /\ config p' = config p /\ chainconfig p' = chainconfig p.
Proof.
  intros Hp Hz Hreq. unfold reset. destruct (reorg_txs_ok _ _ Hreq) as (r & -> & Hr). cbn [mbind res_bind]. destruct r as [ts|]; [|by exists p].
  destruct (StateAt chain _) as [s|]; [|by exists p]. cbn zeta.
  match goal with |- context [addTxsLocked now ts false _ ?x] => destruct (addTxsLocked_ok now false ts (newAccountSet []) x) as (errs & d & p' & -> & Hp' & Hz' & Es) end; [exact Hp|exact Hz|by apply Hr|].
  cbn [mbind res_bind]. eexists. split; [done|]. split; [exact Hp'|]. split; [exact Hz'|]. injection Es as E1 E2 _ _ _ _. by cbn [config chainconfig with_eip1559].
Qed.
End chain.

(** ** [runReorg] *)

Lemma stale_events_ok keys : forall (ev : gmap Address txSortedMap) p, NoDup keys -> (forall a, a ∈ keys -> is_Some (ev !! a)) -> events_ok ev ->
  exists ev' n, each stale_events keys (ev, p) = Ok (ev', with_nonces n p) /\ events_ok ev'.
Proof.
  induction keys as [|a keys IH]; intros ev p Hn Hin Hev; cbn [each]; [exists ev, (pendingNonces p); split; [by destruct p|done]|]. apply NoDup_cons in Hn as [Hna Hn].
  destruct (Hin a ltac:(by left)) as [m Em].
  assert (exists m' nn, stale_events a (ev, p) = Ok (if map_Len m' =? 0 then delete a ev else <[a := m']> ev, with_nonces nn p) /\ sm_ok m') as (m' & nn & -> & Hm').
  { unfold stale_events. destruct (noncer_get a (pendingNonces p)) as [n nn]. rewrite Em. cbn [or_panic mbind res_bind]. destruct (map_Forward_spec n m (Hev _ _ Em)) as (m' & -> & Hm' & _). by exists m', nn. }
  cbn [mbind res_bind].
  destruct (IH (if map_Len m' =? 0 then delete a ev else <[a := m']> ev) (with_nonces nn p)) as (ev' & n' & E & Hev'); [done| | |].
  - intros b Hb. assert (b <> a) by (intros ->; done). destruct (_ =? _); [rewrite lookup_delete_ne by done|rewrite lookup_insert_ne by done]; apply Hin; by right.
  - intros b x. destruct (_ =? _); [by intros [_ E]%lookup_delete_Some; eapply Hev|]. intros [[<- <-]|[_ E]]%lookup_insert_Some; [done|by eapply Hev].
  - exists ev', n'. split; [exact E|done].
Qed.

Lemma next_nonce_ok l : forall m p, pool_ok p -> NoDup l.*1 -> (forall kv, kv ∈ l -> pending p !! kv.1 = Some kv.2) ->
  exists m' p', each next_nonce l (m, p) = Ok (m', p') /\ moved p p'.
Proof.
  induction l as [|[a x] l IH]; intros m p Hp Hn Hin; cbn [each]; [by exists m, p|]. cbn in Hn. apply NoDup_cons in Hn as [Hna Hn]. pose proof (Hin (a, x) ltac:(by left)) as El. cbn in El.
  destruct Hp as (Hok & Hfp & Hfq). destruct (lo_pend _ _ _ (ok_lists _ _ _ _ _ _ Hok) a x El) as [Hl Hst].
  destruct (LastElement_spec x Hl (Hfp _ _ El)) as (t & x' & E & _ & Hl' & Hst' & Hi). 
  assert (next_nonce (a, x) (m, p) = Ok (<[a := add64 (Nonce t) 1]> m, set_pending a x' p)) as -> by (unfold next_nonce; cbn [snd fst]; by rewrite E). cbn [mbind res_bind].
  assert (moved p (set_pending a x' p)) as H1.
  { split; [|done]. split; [|split; [|done]].
    - apply (ok_sym false). eapply ok_same; [apply (ok_sym true), Hok|exact El|done|congruence|done].
    - apply full_insert; [done|]. rewrite Hi. by apply (Hfp a). }
  destruct (IH (<[a := add64 (Nonce t) 1]> m) (set_pending a x' p)) as (m' & p' & -> & H2); [apply H1|done| |exists m', p'; split; [done|eapply moved_trans; [exact H1|exact H2]]].
  intros kv Hkv. cbn [pending set_pending with_pending]. rewrite lookup_insert_ne; [apply Hin; by right|]. intros ->. apply Hna, list_elem_of_fmap. eauto.
Qed.

(** Limits the configuration may have. *)
Definition limits_ok (c : TxPoolConfig) : Prop := 1 <= AccountSlots c /\ 1 <= AccountQueue c < 2 ^ 63 /\ 0 <= GlobalQueue c /\ 0 <= GlobalSlots c.

(** What a reorganisation run leaves behind. *)
Definition within_limits p : Prop :=
  (count_txs (pending p) <= GlobalSlots (config p) \/ forall a, as_contains a (locals p) = false -> u64 (sz (pending p) a) <= AccountSlots (config p)) /\
  (count_txs (queue p) <= GlobalQueue (config p) \/ forall a, as_contains a (locals p) = false -> queue p !! a = None).

Lemma CalcBaseFee_total cc h : fee_ok cc h -> exists fee, CalcBaseFee cc h = Ok fee.
Proof.
  intros Hf. unfold CalcBaseFee. destruct (conf_IsLondon cc (Header.Number h)) eqn:E; cbn [negb]; [|by eexists]. destruct (Hf E) as [[bf ->] Hg]. cbn [or_panic mbind res_bind].
  assert (1 <= Header.GasLimit h / ElasticityMultiplier) by (unfold ElasticityMultiplier; apply Z.div_le_lower_bound; lia).
  destruct (_ =? _); [by eexists|]. destruct (_ >? _); unfold bigDiv; rewrite (proj2 (Z.eqb_neq (Header.GasLimit h / _) 0)) by lia; cbn; by eexists.
Qed.

(** Promotion and what follows it. *)
Lemma truncate_ok now p : pool_ok p -> limits_ok (config p) -> exists p1 p2, truncatePending p = Ok p1 /\ truncateQueue now p1 = Ok p2 /\ moved p p2 /\ within_limits p2.
Proof.
  intros Hp (H1 & H2 & H3 & H4). destruct (truncatePending_ok p Hp H1) as (p1 & E1 & M1 & Hq1 & L1). destruct (moved_config _ _ M1) as (C1 & Lo1 & _).
  destruct (truncateQueue_ok now p1) as (p2 & E2 & M2 & Hpd & L2); [apply M1|unfold GQ; by rewrite C1|]. destruct (moved_config _ _ M2) as (C2 & Lo2 & _).
  exists p1, p2. split; [done|]. split; [done|]. split; [eapply moved_trans; [exact M1|exact M2]|]. unfold within_limits. rewrite C2, Lo2, Lo1, C1. unfold GQ in L2. rewrite C1, Lo1 in L2. split; [|done].
  assert (forall b, sz (pending p2) b = sz (pending p1) b) as Hsz by (intros b; unfold sz; by rewrite Hpd). destruct L1 as [L1|L1]; [left|right; intros a Ha; rewrite Hsz; by apply L1].
  rewrite count_total in *. by rewrite (total_ext _ _ Hsz).
Qed.

Lemma Base_fee_ok p h : pool_ok p -> fee_ok (chainconfig p) h -> exists fee pr, CalcBaseFee (chainconfig p) h = Ok fee /\ SetBaseFee (Some fee) (all p) (priced p) = Ok pr /\ moved p (with_priced pr p).
Proof.
  intros (Hok & Hf) Hh. destruct (CalcBaseFee_total _ _ Hh) as [fee Ef]. destruct (SetBaseFee_ok (Some fee) (all p) (priced p)) as (pr & Ep & Hpr & _).
  exists fee, pr. split; [done|]. split; [done|]. split; [|done]. split; [|exact Hf]. by eapply ok_reprice.
Qed.

Definition reorg_ok (cc : ChainConfig) (chain : blockChain DB) (rs : option txpoolResetRequest) : Prop :=
  forall r, rs = Some r -> chain_ok chain /\ heads_ok chain (oldHead r) (newHead r) /\ forall h, newHead r = Some h -> fee_ok cc (hd h).

(** A pool between operations. *)
Definition good p : Prop := pool_ok p /\ sized p /\ limits_ok (config p).
Definition kept p p' : Prop := good p' /\ config p' = config p /\ chainconfig p' = chainconfig p.

Lemma kept_moved p p' : good p -> moved p p' -> kept p p'.
Proof.
  intros (Hp & Hz & Hl) M. destruct (moved_config _ _ M) as (C & _ & S). split; [|split; [done|by injection S]]. split; [apply M|]. split; [by eapply moved_sized|by rewrite C].
Qed.
Lemma kept_trans p p1 p2 : kept p p1 -> kept p1 p2 -> kept p p2.
Proof. intros (_ & E1 & E2) (H & E3 & E4). split; [done|]. split; congruence. Qed.
Lemma kept_refl p : good p -> kept p p.
Proof. intros H. by split. Qed.

Lemma good_queue p : good p -> 0 <= i64 (AccountQueue (config p)).
Proof. intros (_ & _ & _ & H & _). unfold i64. rewrite Z.mod_small by lia. rewrite (proj2 (Z.ltb_lt _ _)) by lia. lia. Qed.

(** The first part of a run: the accounts to promote. *)
Lemma reorg_start now chain rs dirty (ev : gmap Address txSortedMap) p : good p -> events_ok ev -> reorg_ok (chainconfig p) chain rs ->
  exists addrs ev' p', (match rs with
     | None => Ok (match dirty with Some d => (as_flatten d).1 | None => [] end, ev, p)
     | Some r => p ← reset now chain (oldHead r) (newHead r) p; '(ev, p) ← each stale_events (iter ev).*1 (ev, p); Ok ((iter (queue p)).*1, ev, p)
     end) = Ok (addrs, ev', p') /\ kept p p'.
Proof.
  intros (Hp & Hz & Hl) Hev Hrs. destruct rs as [r|]; [|by eexists _, _, _]. destruct (Hrs r eq_refl) as (CK & Hh & _).
  destruct (reset_ok chain CK now (oldHead r) (newHead r) p Hp Hz Hh) as (p1 & -> & Hp1 & Hz1 & C1 & CC1). cbn [mbind res_bind].
  destruct (stale_events_ok (iter ev).*1 ev p1) as (ev' & n & -> & Hev'); [rewrite (iter_perm ev); apply NoDup_fst_map_to_list| |done|].
  { intros a. rewrite (iter_perm ev). intros ([k m] & -> & E%elem_of_map_to_list)%list_elem_of_fmap. by eexists. }
  cbn [mbind res_bind]. eexists _, _, _. split; [done|]. split; [|done]. split; [exact Hp1|]. split; [exact Hz1|]. cbn [config with_nonces]. by rewrite C1.
Qed.

(** After promotion, for a new head. *)
Lemma reorg_head now r p : good p -> (forall h, newHead r = Some h -> fee_ok (chainconfig p) (hd h)) ->
  exists p', (p ← demoteUnexecutables now p;
         p ← (match newHead r with
              | Some h =>
                if conf_IsLondon (chainconfig p) (Header.Number (hd h) + 1) then
                  fee ← CalcBaseFee (chainconfig p) (hd h);
                  l ← SetBaseFee (Some fee) (all p) (priced p);
                  Ok (with_priced l p)
                else Ok p
              | None => Ok p
              end);
         '(m, p) ← each next_nonce (iter (pending p)) (∅, p);
         Ok (with_nonces (noncer_setAll m (pendingNonces p)) p)) = Ok p' /\ kept p p'.
Proof.
  intros Hg Hf. destruct (demoteUnexecutables_ok now p) as (p1 & -> & M1); [apply Hg|]. cbn [mbind res_bind]. pose proof (kept_moved _ _ Hg M1) as K1. destruct K1 as (G1 & C1 & CC1).
  assert (exists p2, (match newHead r with
              | Some h => if conf_IsLondon (chainconfig p1) (Header.Number (hd h) + 1) then
                  fee ← CalcBaseFee (chainconfig p1) (hd h); l ← SetBaseFee (Some fee) (all p1) (priced p1); Ok (with_priced l p1)
                else Ok p1
              | None => Ok p1 end) = Ok p2 /\ moved p1 p2) as (p2 & -> & M2).
  { destruct (newHead r) as [h|]; [|exists p1; split; [done|]; by split; [apply G1|]]. destruct (conf_IsLondon _ _); [|exists p1; split; [done|]; by split; [apply G1|]].
    destruct (Base_fee_ok p1 (hd h)) as (fee & pr & -> & E & M2); [apply G1|rewrite CC1; by apply Hf|]. cbn [mbind res_bind]. rewrite E. by eexists. }
  cbn [mbind res_bind]. destruct (next_nonce_ok (iter (pending p2)) ∅ p2) as (m & p3 & -> & M3); [apply M2|apply NoDup_accounts| |].
  { intros [a l] Hin. cbn. by rewrite (iter_perm (pending p2)), elem_of_map_to_list in Hin. }
  cbn [mbind res_bind]. eexists. split; [done|]. assert (kept p p3) as K3; [|exact K3].
  apply kept_moved; [done|]. eapply moved_trans; [exact M1|]. eapply moved_trans; [exact M2|exact M3].
Qed.

Lemma runReorg_ok now chain rs dirty (ev : gmap Address txSortedMap) p : good p -> events_ok ev -> reorg_ok (chainconfig p) chain rs ->
  exists out p', runReorg now chain rs dirty ev p = Ok (out, p') /\ kept p p' /\ within_limits p'.
Proof.
  intros Hg Hev Hrs. unfold runReorg. destruct (reorg_start now chain rs dirty ev p Hg Hev Hrs) as (addrs & ev' & p1 & -> & K1). cbn [mbind res_bind].
  unfold promoteExecutables. destruct (promoteExecutables_ok now addrs [] p1) as (promoted & p2 & -> & M2); [apply K1|apply good_queue, K1|]. cbn [mbind res_bind].
  pose proof (kept_trans _ _ _ K1 (kept_moved _ _ (proj1 K1) M2)) as K2.
  assert (exists p3, (match rs with None => Ok p2 | Some r =>
         p ← demoteUnexecutables now p2;
         p ← (match newHead r with
              | Some h => if conf_IsLondon (chainconfig p) (Header.Number (hd h) + 1) then
                  fee ← CalcBaseFee (chainconfig p) (hd h); l ← SetBaseFee (Some fee) (all p) (priced p); Ok (with_priced l p)
                else Ok p
              | None => Ok p end);
         '(m, p) ← each next_nonce (iter (pending p)) (∅, p); Ok (with_nonces (noncer_setAll m (pendingNonces p)) p) end) = Ok p3 /\ kept p p3) as (p3 & -> & K3).
  { destruct rs as [r|]; [|by exists p2]. destruct (reorg_head now r p2) as (p3 & -> & K3); [apply K2| |exists p3; split; [done|by eapply kept_trans]].
    destruct K2 as (_ & _ & ->). destruct (Hrs r eq_refl) as (_ & _ & H). exact H. }
  cbn [mbind res_bind]. destruct (truncate_ok now p3) as (p4 & p5 & -> & E5 & M5 & L5); [apply K3|apply K3|]. cbn [mbind res_bind]. rewrite E5. cbn [mbind res_bind].
  eexists _, _. split; [done|]. pose proof (kept_trans _ _ _ K3 (kept_moved _ _ (proj1 K3) M5)) as K5. split; [exact K5|exact L5].
Qed.

(** ** Operations *)

Lemma addTxs_kept now ts loc p : good p -> Forall tx_wf ts -> exists errs d p', addTxs now ts loc p = Ok (errs, d, p') /\ kept p p'.
Proof.
  intros (Hp & Hz & Hl) Hts. destruct (addTxs_ok now ts loc p Hp Hz Hts) as (errs & d & p' & E & Hp' & Hz' & Es). injection Es as E1 E2 _ _ _ _. exists errs, d, p'. split; [done|].
  split; [|done]. split; [done|]. split; [done|]. by rewrite E1.
Qed.

(** What the pool is asked for; the time of each operation is given. *)
Inductive pool_op :=
| OAddLocals (txs : list Tx)
| OAddRemotes (txs : list Tx)
| OReorg (chain : blockChain DB) (rs : option txpoolResetRequest) (dirty : option accountSet) (ev : gmap Address txSortedMap)
| OSetGasPrice (price : Z)
| OEvict.

Definition run_op (op : Z * pool_op) p : res (TxPool DB) :=
  let now := op.1 in
  match op.2 with
  | OAddLocals ts => '(_, _, p) ← AddLocals now ts p; Ok p
  | OAddRemotes ts => '(_, _, p) ← AddRemotes now ts p; Ok p
  | OReorg chain rs dirty ev => '(_, p) ← runReorg now chain rs dirty ev p; Ok p
  | OSetGasPrice price => SetGasPrice now price p
  | OEvict => evict now p
  end.

Definition pool_op_ok (cc : ChainConfig) (op : Z * pool_op) : Prop :=
  match op.2 with
  | OAddLocals ts | OAddRemotes ts => Forall tx_wf ts
  | OReorg chain rs _ ev => events_ok ev /\ reorg_ok cc chain rs
  | OSetGasPrice _ | OEvict => True
  end.

Lemma run_op_ok op p : good p -> pool_op_ok (chainconfig p) op -> exists p', run_op op p = Ok p' /\ kept p p'.
Proof.
  intros Hg Hop. destruct op as [now op]. unfold pool_op_ok, run_op, AddLocals, AddRemotes in *. cbn [fst snd] in *. destruct op as [ts|ts|chain rs dirty ev|price|].
  - destruct (addTxs_kept now ts (negb (NoLocals (config p))) p Hg Hop) as (errs & d & p' & -> & K). by exists p'.
  - destruct (addTxs_kept now ts false p Hg Hop) as (errs & d & p' & -> & K). by exists p'.
  - destruct Hop as [Hev Hrs]. destruct (runReorg_ok now chain rs dirty ev p Hg Hev Hrs) as (out & p' & -> & K & _). by exists p'.
  - destruct (SetGasPrice_ok now price p) as (p' & E & Hp' & C & CC & Hk); [apply Hg|]. exists p'. split; [done|]. split; [|done]. split; [done|]. split; [by eapply sized_sub; [exact Hk|apply Hg]|]. rewrite C. apply Hg.
  - destruct (evict_ok now p) as (p' & E & M); [apply Hg|]. exists p'. split; [done|]. by apply kept_moved.
Qed.

Lemma run_ops_ok ops : forall p, good p -> Forall (pool_op_ok (chainconfig p)) ops -> exists p', each run_op ops p = Ok p' /\ kept p p'.
Proof.
  induction ops as [|op ops IH]; intros p Hg Hops; cbn [each]; [exists p; split; [done|by apply kept_refl]|]. apply Forall_cons in Hops as [Hop Hops].
  destruct (run_op_ok op p Hg Hop) as (p1 & -> & K1). cbn [mbind res_bind]. destruct (IH p1) as (p' & -> & K2); [apply K1|by destruct K1 as (_ & _ & ->)|].
  exists p'. split; [done|]. by eapply kept_trans.
Qed.

Lemma emptyPool_ok c cc (s : DB) : pool_ok (emptyPool c cc s) /\ sized (emptyPool c cc s).
Proof.
  split; [split; [|split; intros a l; cbn; by rewrite lookup_empty]|intros h t; cbn; unfold known; cbn; by rewrite map_empty_union, lookup_empty].
  split.
  - split; intros a; cbn; unfold tx_at; setoid_rewrite lookup_empty; try done; [intros n t [?|?]; done|by left].
  - apply lk_ok_new.
  - unfold slots_ok. cbn. unfold known. cbn. rewrite map_empty_union. unfold slots_of. by rewrite map_fold_empty.
  - apply pl_ok_new.
  - intros h t. cbn. unfold known. cbn. rewrite map_empty_union, lookup_empty, elem_of_nil. split; [done|]. intros (_ & [(a & _ & E)|[]]). unfold tx_at in E. cbn in E. rewrite lookup_empty in E. by destruct E.
  - constructor.
  - constructor.
Qed.

(** The configuration is one of unsigned 64-bit numbers. *)
Definition config_u64 (c : TxPoolConfig) : Prop := is_u64 (AccountSlots c) /\ is_u64 (GlobalSlots c) /\ 0 <= AccountQueue c < 2 ^ 63 /\ is_u64 (GlobalQueue c).

Lemma sanitize_limits c : config_u64 c -> limits_ok (sanitize c).
Proof.
  intros (H1 & H2 & H3 & H4). unfold limits_ok, sanitize, is_u64 in *. cbn -[Z.pow]. repeat case_match; to_prop; cbn -[Z.pow]; lia.
Qed.

Lemma NewTxPool_ok now c cc chain s disk : config_u64 c -> chain_ok chain -> Forall tx_wf disk ->
  exists p, NewTxPool now c cc chain s disk = Ok p /\ good p /\ chainconfig p = cc /\ config p = sanitize c.
Proof.
  intros Hc CK Hd. unfold NewTxPool. destruct (emptyPool_ok c cc s) as [Hp Hz].
  destruct (reset_ok chain CK now None (Some (mkHead (cb_header (CurrentBlock chain)) (cb_hash (CurrentBlock chain)))) (emptyPool c cc s) Hp Hz) as (p & -> & Hp1 & Hz1 & C1 & CC1); [by intros [? ?]|].
  cbn [mbind res_bind]. assert (good p) as Hg by (split; [done|]; split; [done|]; rewrite C1; by apply sanitize_limits).
  destruct (_ && _); [|by exists p]. unfold AddLocals. destruct (addTxs_kept now disk (negb (NoLocals (config p))) p Hg Hd) as (errs & d & p' & -> & K). cbn [mbind res_bind].
  eexists. split; [done|]. destruct K as (G & C & CC). split; [exact G|]. cbn [config chainconfig with_journal]. split; [by rewrite CC, CC1|by rewrite C, C1].
Qed.

(** ** Consistency in the words of the program *)

Record consistent p : Prop := {
  (* a transaction is known exactly when it is in a list, under its sender and nonce *)
  co_known h t : pool_Get h p = Some t <->
    tx_hash t = h /\ exists a, tx_from t = Some a /\ (tx_at (pending p) a (Nonce t) = Some t \/ tx_at (queue p) a (Nonce t) = Some t);
  (* no nonce of an account is both pending and queued *)
  co_once a n : tx_at (pending p) a n = None \/ tx_at (queue p) a n = None;
  (* lists hold the transactions of their account, under their nonces *)
  co_place a n t : tx_at (pending p) a n = Some t \/ tx_at (queue p) a n = Some t -> tx_from t = Some a /\ Nonce t = n;
  (* no list is empty *)
  co_full a l : pending p !! a = Some l \/ queue p !! a = Some l -> 0 < Len l;
  (* every known transaction is reported as pending or queued *)
  co_status h t : pool_Get h p = Some t -> Status h p =
    if decide (tx_at (pending p) (sender_of t) (Nonce t) = Some t) then TxStatusPending else TxStatusQueued;
  (* the slots are those of the known transactions *)
  co_slots : Slots (all p) = map_fold (fun _ t n => numSlots t + n) 0 (lk_locals (all p) ∪ lk_remotes (all p));
  (* the price heaps hold every remote transaction *)
  co_priced h t : lk_remotes (all p) !! h = Some t -> t ∈ ph_list (urgent (priced p)) ++ ph_list (floating (priced p));
}.

Lemma pool_ok_consistent p : pool_ok p -> consistent p.
Proof.
  intros (Hok & Hfp & Hfq). pose proof (ok_lists _ _ _ _ _ _ Hok) as Hl.
  assert (forall h t, pool_Get h p = Some t <-> tx_hash t = h /\ listed (pending p) (queue p) t) as Hk.
  { intros h t. unfold pool_Get. rewrite lk_Get_known, (ok_known _ _ _ _ _ _ Hok h t). rewrite elem_of_nil. tauto. }
  split.
  - exact Hk.
  - apply Hl.
  - intros a n t E. split; [by apply (lo_from _ _ _ Hl a n)|]. by apply (get_place _ _ _ _ _ _ Hl E).
  - assert (forall l, l_items l <> ∅ -> 0 < Len l) as Hlen.
    { intros l Hne. unfold Len, map_Len. fold (l_items l). destruct (decide (size (l_items l) = 0%nat)) as [E|]; [|lia]. by apply map_size_empty_inv in E. }
    intros a l [E|E]; [apply Hlen, (Hfp a l E)|apply Hlen, (Hfq a l E)].
  - intros h t E. unfold Status. rewrite E. apply Hk in E as [_ (a & Ha & E)]. rewrite (sender_some t a Ha).
    assert (forall m : gmap Address txList, match m !! a with Some l => bool_decide (is_Some (map_Get (Nonce t) (txs l))) | None => false end = bool_decide (is_Some (tx_at m a (Nonce t)))) as Hhas.
    { intros m. unfold tx_at, map_Get, l_items. by destruct (m !! a). }
    rewrite !Hhas. destruct E as [E|E]; [rewrite decide_True by done; by rewrite E|].
    destruct (lo_disj _ _ _ Hl a (Nonce t)) as [E2|E2]; [|congruence]. rewrite decide_False by congruence. rewrite E2, E. done.
  - exact (ok_slots _ _ _ _ _ _ Hok).
  - intros h t E. exact (proj2 (ok_priced _ _ _ _ _ _ Hok) h t E).
Qed.

(** C25: A new transaction pool and any sequence of operations on it
    (transactions from users and peers, reorganisation runs with or without a new
    head, a new price limit, evictions) return without a panic, whatever the orders
    of map iteration, and leave the pool consistent: a transaction is known to the
    lookup set exactly when it is pending or queued under its sender and nonce; no
    nonce is both pending and queued; no list is empty; the status of a known
    transaction is never unknown; the slots are counted right; and the price heaps
    hold every remote transaction, so that a full pool can find the cheapest ones.
    The chain finds blocks under their numbers, and a new head is in it. *)
Theorem pool_stays_consistent now c cc (chain : blockChain DB) s disk ops :
  config_u64 c -> chain_ok chain -> Forall tx_wf disk -> Forall (pool_op_ok cc) ops ->
  exists p p', NewTxPool now c cc chain s disk = Ok p /\ consistent p /\ each run_op ops p = Ok p' /\ consistent p'.
Proof.
  intros Hc CK Hd Hops. destruct (NewTxPool_ok now c cc chain s disk Hc CK Hd) as (p & E & G & CC & _). destruct (run_ops_ok ops p G) as (p' & E' & K); [by rewrite CC|].
  exists p, p'. split; [done|]. split; [apply pool_ok_consistent, G|]. split; [done|]. apply pool_ok_consistent, K.
Qed.

(** C26: After a reorganisation run of a pool that any operations led to,
    the limits hold: there are at most [GlobalSlots] pending transactions, or no
    remote account has more than its [AccountSlots] of them (so the loops that
    penalise the largest accounts terminate and do not stop too early); and there
    are at most [GlobalQueue] queued transactions, or only local accounts have a
    queue left. *)
Theorem reorg_enforces_limits now c cc (chain : blockChain DB) s disk ops now' (chain' : blockChain DB) rs dirty ev :
  config_u64 c -> chain_ok chain -> Forall tx_wf disk -> Forall (pool_op_ok cc) (ops ++ [(now', OReorg chain' rs dirty ev)]) ->
  exists p p1 out p', NewTxPool now c cc chain s disk = Ok p /\ each run_op ops p = Ok p1 /\ runReorg now' chain' rs dirty ev p1 = Ok (out, p') /\
    ((stats p').1 <= GlobalSlots (sanitize c) \/
     forall a, as_contains a (locals p') = false -> match pending p' !! a with Some l => u64 (Len l) <= AccountSlots (sanitize c) | None => True end) /\
    ((stats p').2 <= GlobalQueue (sanitize c) \/ forall a, as_contains a (locals p') = false -> queue p' !! a = None).
Proof.
  intros Hc CK Hd [Hops Hlast]%Forall_app. apply Forall_cons in Hlast as [[Hev Hrs] _]. destruct (NewTxPool_ok now c cc chain s disk Hc CK Hd) as (p & E & G & CC & C).
  destruct (run_ops_ok ops p G) as (p1 & E1 & G1 & C1 & CC1); [by rewrite CC|]. destruct (runReorg_ok now' chain' rs dirty ev p1 G1 Hev) as (out & p' & E' & (_ & C' & _) & [L1 L2]); [by rewrite CC1, CC|].
  assert (config p' = sanitize c) as Ec by congruence. rewrite Ec in L1, L2. exists p, p1, out, p'. split; [done|]. split; [done|]. split; [done|]. split; [|done].
  destruct L1 as [|L1]; [by left|]. right. intros a Ha. destruct (pending p' !! a) as [l|] eqn:El; [|done]. rewrite <- (sz_Len _ _ _ El). by apply L1.
Qed.

(** C27: Offering a transaction to a pool that operations led to returns
    without a panic.  When no error is returned, the transaction was not known
    before, passed the validation against the current state, and is now known and
    pending or queued; when an error is returned, nothing was added. *)
Theorem added_transactions_are_valid now0 c cc (chain : blockChain DB) s disk ops now t loc :
  config_u64 c -> chain_ok chain -> Forall tx_wf disk -> Forall (pool_op_ok cc) ops -> tx_wf t ->
  exists p0 p r e p', NewTxPool now0 c cc chain s disk = Ok p0 /\ each run_op ops p0 = Ok p /\ add now t loc p = Ok (r, e, p') /\ consistent p' /\
  match e with
  | None => pool_Get (tx_hash t) p = None /\ validateTx t (loc || as_containsTx t (locals p)) p = None /\
            pool_Get (tx_hash t) p' = Some t /\ Status (tx_hash t) p' <> TxStatusUnknown
  | Some _ => forall h x, pool_Get h p' = Some x -> pool_Get h p = Some x
  end.
Proof.
  intros Hc CK Hd Hops Ht. destruct (NewTxPool_ok now0 c cc chain s disk Hc CK Hd) as (p0 & E0 & G0 & CC & _). destruct (run_ops_ok ops p0 G0) as (p & E & (Hp & Hz & _) & _); [by rewrite CC|].
  destruct (add_ok now t loc p Hp Hz Ht) as (r & e & p' & Ea & (Hp' & _ & Hk & Hin) & Hv). exists p0, p, r, e, p'. split; [done|]. split; [done|]. split; [done|].
  pose proof (pool_ok_consistent p' Hp') as Hcon. split; [done|]. unfold pool_Get. destruct e as [e|].
  - intros h x. rewrite !lk_Get_known. intros Ex. by destruct (Hk h x Ex) as [|[? _]].
  - destruct (Hv eq_refl) as [H1 H2]. specialize (Hin eq_refl). rewrite <- lk_Get_known in Hin. split; [done|]. split; [done|]. split; [done|].
    rewrite (co_status _ Hcon _ _ Hin). by case_decide.
Qed.
End pool.

(** ** A concrete pool *)

(** Two blocks on the same parent; the first has the next transaction of the
    account in it. *)
Definition user_tx (n price : Z) : Tx := mkTx (Transaction.LegacyTx n price 21000 (Some 9) 0 [] 0 0 0) 0 (1000 * n + price) 100 (Some toy_user).
Definition toy_header (parent number : Z) : Header.Header := Header.mkHeader parent 2 3 4 5 6 [] 131072 number 30000000 0 1000 [] 0 9 (Some 1000000000).
Definition block_g : ChainBlock := mkChainBlock (toy_header 0 0) 100 [].
Definition block_a : ChainBlock := mkChainBlock (toy_header 100 1) 101 [user_tx 9 2].
Definition block_b : ChainBlock := mkChainBlock (toy_header 100 1) 201 [].
Definition toy_chain : blockChain State.stateDB := mkChain block_a
  (fun h n => if (h =? 100) && (n =? 0) then Some block_g else if (h =? 101) && (n =? 1) then Some block_a else if (h =? 201) && (n =? 1) then Some block_b else None)
  (fun _ => Some State.New).
Definition toy_cc : ChainConfig := chainConfig (toy_env true).
Definition toy_limits : TxPoolConfig := mkConfig [] false false second 1 10 2 3 64 4 second.
Definition head_of (b : ChainBlock) : Head := mkHead (cb_header b) (cb_hash b).
Definition toy_reset : txpoolResetRequest := mkReset (Some (head_of block_a)) (Some (head_of block_b)).

Definition toy_ops : list (Z * pool_op (DB := State.stateDB)) :=
  [(1, OAddRemotes [user_tx 10 2; user_tx 11 2; user_tx 12 2; user_tx 14 2]); (2, OReorg toy_chain None (Some (newAccountSet [toy_user])) ∅);
   (3, OReorg toy_chain (Some toy_reset) None ∅); (4, OSetGasPrice 1); (5, OEvict)].

Lemma toy_chain_ok : chain_ok toy_chain.
Proof.
  assert (forall h n b, GetBlock toy_chain h n = Some b -> NumberU64 b = n /\ Forall tx_wf (cb_txs b)) as H.
  { intros h n b. cbn. repeat (case_match; to_prop); intros [= <-]; (split; [vm_compute; congruence|]); repeat constructor; by compute. }
  split; [intros; by eapply H| |intros; by eapply H]. intros h. cbn. repeat (case_match; to_prop); lia || done.
Qed.

Lemma toy_reset_ok rs : rs = None \/ rs = Some toy_reset -> reorg_ok toy_cc toy_chain rs.
Proof.
  intros [->| ->] r; [done|]. intros [= <-]. split; [apply toy_chain_ok|]. split; [intros _; eexists; split; [done|]; vm_compute; by eexists|]. intros h [= <-] _. split; [by eexists|vm_compute; congruence].
Qed.

Lemma toy_ops_ok : Forall (pool_op_ok toy_cc) toy_ops.
Proof.
  assert (events_ok ∅) as Hev by (intros a m; by rewrite lookup_empty).
  constructor; [repeat constructor; by compute|]. constructor; [split; [done|]; apply toy_reset_ok; by left|]. constructor; [split; [done|]; apply toy_reset_ok; by right|]. by repeat constructor.
Qed.

Lemma toy_limits_ok : config_u64 toy_limits.
Proof. repeat split; by compute. Qed.

#[local] Existing Instance TxListTheorems.reverse_order.

Definition nonces_of (m : gmap Address (list Tx)) : list (Address * list Z) := map (fun kv => (kv.1, Nonce <$> kv.2)) (map_to_list m).

(** The transaction of the abandoned block comes back before the others. *)
Lemma pool_stays_consistent_witness : exists p p', NewTxPool 0 toy_limits toy_cc toy_chain State.New [] = Ok p /\
  each run_op (take 3 toy_ops) p = Ok p' /\ consistent p' /\ nonces_of (Content p').1 = [(512, [9; 10; 11])] /\ nonces_of (Content p').2 = [(512, [14])].
Proof.
  destruct (pool_stays_consistent 0 toy_limits toy_cc toy_chain State.New [] (take 3 toy_ops)) as (p & p' & E & _ & E' & Hc).
  - apply toy_limits_ok.
  - apply toy_chain_ok.
  - constructor.
  - apply Forall_take, toy_ops_ok.
  - exists p, p'. split; [exact E|]. split; [exact E'|]. split; [exact Hc|].
    assert (F : exists p p', NewTxPool 0 toy_limits toy_cc toy_chain State.New [] = Ok p /\ each run_op (take 3 toy_ops) p = Ok p' /\
      nonces_of (Content p').1 = [(512, [9; 10; 11])] /\ nonces_of (Content p').2 = [(512, [14])])
      by (eexists _, _; split; [vm_compute; reflexivity|]; split; [vm_compute; reflexivity|]; vm_compute; split; reflexivity).
    destruct F as (p1 & p1' & E1 & E1' & F). rewrite E in E1. injection E1 as <-. rewrite E' in E1'. injection E1' as <-. exact F.
Defined.

(** One of the four executable transactions has to go. *)
Lemma reorg_enforces_limits_witness : exists p p1 out p', NewTxPool 0 toy_limits toy_cc toy_chain State.New [] = Ok p /\ each run_op (take 2 toy_ops) p = Ok p1 /\
  runReorg 3 toy_chain (Some toy_reset) None ∅ p1 = Ok (out, p') /\ stats p' = (3, 1) /\
  ((stats p').1 <= 3 \/ forall a, as_contains a (locals p') = false -> match pending p' !! a with Some l => u64 (Len l) <= 2 | None => True end).
Proof.
  destruct (reorg_enforces_limits 0 toy_limits toy_cc toy_chain State.New [] (take 2 toy_ops) 3 toy_chain (Some toy_reset) None ∅) as (p & p1 & out & p' & E & E1 & E' & L & _).
  - apply toy_limits_ok.
  - apply toy_chain_ok.
  - constructor.
  - change (take 2 toy_ops ++ [(3, OReorg toy_chain (Some toy_reset) None ∅)]) with (take 3 toy_ops). apply Forall_take, toy_ops_ok.
  - exists p, p1, out, p'. split; [exact E|]. split; [exact E1|]. split; [exact E'|]. split; [|exact L].
    assert (F : exists p p1 out p', NewTxPool 0 toy_limits toy_cc toy_chain State.New [] = Ok p /\ each run_op (take 2 toy_ops) p = Ok p1 /\
      runReorg 3 toy_chain (Some toy_reset) None ∅ p1 = Ok (out, p') /\ stats p' = (3, 1))
      by (eexists _, _, _, _; split; [vm_compute; reflexivity|]; split; [vm_compute; reflexivity|]; split; [vm_compute; reflexivity|vm_compute; reflexivity]).
    destruct F as (q & q1 & o & q' & F & F1 & F' & S). rewrite E in F. injection F as <-. rewrite E1 in F1. injection F1 as <-. rewrite E' in F'. injection F' as <- <-. exact S.
Defined.

(** A better paid transaction replaces a pending one. *)
Lemma added_transactions_are_valid_witness : exists p0 p p', NewTxPool 0 toy_limits toy_cc toy_chain State.New [] = Ok p0 /\ each run_op (take 3 toy_ops) p0 = Ok p /\
  add 6 (user_tx 11 3) false p = Ok (true, None, p') /\ consistent p' /\ pool_Get 11003 p' = Some (user_tx 11 3) /\ pool_Get 11002 p' = None.
Proof.
  destruct (added_transactions_are_valid 0 toy_limits toy_cc toy_chain State.New [] (take 3 toy_ops) 6 (user_tx 11 3) false) as (p0 & p & r & e & p' & E0 & E & Ea & Hc & Hm).
  - apply toy_limits_ok.
  - apply toy_chain_ok.
  - constructor.
  - apply Forall_take, toy_ops_ok.
  - split; by compute.
  - assert (F : exists p0 p p', NewTxPool 0 toy_limits toy_cc toy_chain State.New [] = Ok p0 /\ each run_op (take 3 toy_ops) p0 = Ok p /\
      add 6 (user_tx 11 3) false p = Ok (true, None, p') /\ pool_Get 11002 p' = None)
      by (eexists _, _, _; split; [vm_compute; reflexivity|]; split; [vm_compute; reflexivity|]; split; [vm_compute; reflexivity|vm_compute; reflexivity]).
    destruct F as (q0 & q & q' & F0 & F & Fa & Fg). rewrite E0 in F0. injection F0 as <-. rewrite E in F. injection F as <-. rewrite Ea in Fa. injection Fa as -> -> <-.
    exists p0, p, p'. split; [exact E0|]. split; [exact E|]. split; [exact Ea|]. split; [exact Hc|]. split; [exact (proj1 (proj2 (proj2 Hm)))|exact Fg].
Defined.
End TxPoolTheorems.

(** ** Validated transactions can be executed

    The checks of [validateTx] against those of the state transition: a
    transaction that the pool validated against the state it is executed in, at the
    next nonce of its sender, is not refused. *)

From S2P Require Import Prelude Uint256 Config Common Rlp EvmState EvmSpec EvmInvariant StateDB StateSpec StateRevert StateTheorems EvmTheorems.
From S2P Require Import EvmStack EvmMemory EvmJumpTable EvmInterpreter StateTransition TransitionSpec Transaction TxList TxPool Instances.

Local Open Scope Z_scope.

Module TxPoolExec.

Import TxPool.

Section exec.
Context `{U : Uint256} `{US : !Uint256Spec U} `{C : Crypto} `{CS : !CryptoSpec C}.
Context `{B : State.Backend} `{BS : !BackendSpec}.

(** A loaded transaction and its message. *)
Record message_of (bf : option Z) (t : TxList.Tx) (msg : Message) : Prop := {
  mm_from : TxList.tx_from t = Some (From msg);
  mm_to : To msg = Transaction.to (TxList.tx_data t);
  mm_price : mGasPrice msg <= Transaction.gasFeeCap (TxList.tx_data t);
  mm_cap : GasFeeCap msg = Some (Transaction.gasFeeCap (TxList.tx_data t));
  mm_tip : GasTipCap msg = Some (Transaction.gasTipCap (TxList.tx_data t));
  mm_gas : mGas msg = Transaction.gas (TxList.tx_data t);
  mm_value : Value msg = Transaction.value (TxList.tx_data t);
  mm_nonce : StateTransition.Nonce msg = Transaction.nonce (TxList.tx_data t);
  mm_fake : IsFake msg = false;
  mm_data : Data msg = Transaction.data (TxList.tx_data t);
  mm_access : mAccessList msg = Transaction.accessList (TxList.tx_data t);
}.

Lemma loaded_message s bf tx tx' t msg : TxList.load s tx = Ok t -> Transaction.AsMessage s bf tx = Ok (inl msg, tx') -> message_of bf t msg.
Proof.
  unfold TxList.load, Transaction.AsMessage. destruct (Transaction.tx_Hash _) as [h| |]; [|done|done]. destruct (TxList.Size _) as [n| |]; [|done|done].
  cbn [mbind res_bind]. destruct (Transaction.Sender s tx) as [[r tx1]| |]; [|done|done]. cbn [mbind res_bind]. intros [= <-]. destruct r as [a|er]; [|done]. intros [= <- <-].
  split; try done. cbn. unfold Transaction.BigMin. destruct bf as [b|].
  - destruct (_ >? _) eqn:E; to_prop; lia.
  - by destruct (Transaction.inner tx).
Qed.

(** What validation establishes. *)
Record valid (t : TxList.Tx) (p : TxPool State.stateDB) (a : Address) : Prop := {
  va_from : TxList.tx_from t = Some a;
  va_caps : Z.abs (TxList.FeeCap t) < 2 ^ 256 /\ Z.abs (TxList.TipCap t) < 2 ^ 256 /\ TxList.TipCap t <= TxList.FeeCap t;
  va_balance : TxList.TxCost t <= GetBalance (currentState p) a;
  va_gas : exists ig, IntrinsicGas (Transaction.data (TxList.tx_data t)) (Transaction.accessList (TxList.tx_data t))
             (bool_decide (Transaction.to (TxList.tx_data t) = None)) true = inl ig /\ ig <= TxList.Gas t;
}.

Lemma validateTx_valid t loc (p : TxPool State.stateDB) : validateTx t loc p = None -> exists a, valid t p a.
Proof.
  unfold validateTx. cbn zeta. destruct (negb _ && _); [done|]. destruct (_ >? _); [done|]. destruct (_ <? _); [done|]. destruct (_ <? _); [done|].
  destruct (BitLen (TxList.FeeCap t) >? 256) eqn:E1; [done|]. destruct (BitLen (TxList.TipCap t) >? 256) eqn:E2; [done|]. to_prop.
  destruct (TxList.lt0 _) eqn:E3; [done|]. destruct (TxList.tx_from t) as [a|] eqn:Ea; [|done]. destruct (negb loc && _); [done|]. destruct (_ >? _); [done|].
  destruct (_ <? TxList.TxCost t) eqn:E4; [done|]. to_prop. destruct (IntrinsicGas _ _ _ _) as [ig|] eqn:Eg; [|done]. destruct (_ <? ig) eqn:E5; [done|]. to_prop. intros _.
  exists a. split; [done| |lia|eauto]. split; [apply BitLen_le; lia|]. split; [apply BitLen_le; lia|].
  unfold TxList.lt0, TxList.GasFeeCapIntCmp in E3. destruct (Z.compare_spec (TxList.FeeCap t) (TxList.TipCap t)); [lia|done|lia].
Qed.

Context (env : Env) (jt : JumpTable) (NoBaseFee : bool).

(** C28: The pool and the state transition agree: let a transaction be valid
    for the pool in its current state, and let it be executed in that state, by
    Homestead rules, in a block with enough gas left and a base fee within its fee
    cap, when its nonce is the next one of its sender and below 2^64 - 1 and the sender
    has no code.
    Then it is not refused: the nonce, the balance, the fee caps, the gas pool, the
    intrinsic gas and the transfer of its value all pass the checks of
    [TransitionDb]. *)
Theorem validated_transactions_are_applied s bf tx tx' t msg loc (p : TxPool State.stateDB) gp e :
  TxList.load s tx = Ok t -> Transaction.AsMessage s bf tx = Ok (inl msg, tx') -> validateTx t loc p = None ->
  tx_ready env jt msg gp e -> db e = currentState p -> IsHomestead (chainRules env) = true ->
  State.GetNonce (currentState p) (From msg) = StateTransition.Nonce msg -> StateTransition.Nonce msg < 2 ^ 64 - 1 ->
  State.GetCodeHash (currentState p) (From msg) = emptyCodeHash \/ State.GetCodeHash (currentState p) (From msg) = 0 ->
  (IsLondon (chainRules env) = true -> default 0 (BaseFee env) <= default 0 (GasFeeCap msg)) -> mGas msg <= gp ->
  match ApplyMessage env jt NoBaseFee msg gp e with
  | Ok (inl r, st) => UsedGas r <= mGas msg
  | Ok (inr _, _) => False
  | Panic p => p = PanicRefund \/ p = PanicAccessList
  | NoFuel => False
  end.
Proof.
  intros Hload Hmsg Hval Hr Hdb Hhome Hnonce Hmax Hcode Hbase Hpool. pose proof (loaded_message _ _ _ _ _ _ Hload Hmsg) as M. destruct (validateTx_valid _ _ _ Hval) as [a [Va Vc Vb (ig & Vg & Vl)]].
  assert (a = From msg) as -> by (pose proof (mm_from _ _ _ M); congruence).
  pose proof (transition_spec env jt NoBaseFee msg gp e Hr) as W.
  assert (acceptable env NoBaseFee msg gp (db e)) as A.
  { rewrite Hdb. split.
    - intros _. done.
    - intros HL. right. specialize (Hbase HL). rewrite (mm_cap _ _ _ M) in *. rewrite (mm_tip _ _ _ M). cbn in *. unfold TxList.FeeCap, TxList.TipCap in Vc. tauto.
    - rewrite (mm_cap _ _ _ M), (mm_gas _ _ _ M), (mm_value _ _ _ M). etransitivity; [|exact Vb]. unfold TxList.TxCost, Transaction.Cost. destruct (TxList.tx_data t); cbn; lia.
    - done. }
  assert (forall er st, ApplyMessage env jt NoBaseFee msg gp e <> Ok (inr er, st)) as Hnot.
  { intros er st. unfold ApplyMessage, TransitionDb. pose proof Hr as [He Ht Hm Hgp Hv Hro].
    destruct (preCheck_spec env NoBaseFee msg gp e Hm Hgp) as (err & st1 & -> & Hacc & ->); [by apply nonce_db_ok, ok_db|]. cbn [mbind res_bind].
    rewrite (proj2 Hacc A). rewrite decide_True by done. cbv zeta. rewrite Hhome.
    assert (IntrinsicGas (Data msg) (mAccessList msg) (match To msg with None => true | _ => false end) true = inl ig) as ->.
    { rewrite (mm_data _ _ _ M), (mm_access _ _ _ M), (mm_to _ _ _ M), <- Vg. f_equal. by destruct (Transaction.to _). }
    cbn [bought StateTransition.gas StateTransition.gp initialGas StateTransition.vm]. assert (mGas msg <? ig = false) as -> by (rewrite (mm_gas _ _ _ M); by apply Z.ltb_ge).
    assert (CanTransfer (db (upd (SubBalance (From msg) (mGas msg * mGasPrice msg)) e)) (From msg) (Value msg) = true) as Hcan.
    { unfold CanTransfer. cbn [upd db set_db]. apply Z.leb_le. change (EvmState.GetBalance ?d ?a) with (State.GetBalance d a). change (EvmState.SubBalance ?a ?v ?d) with (State.SubBalance a v d).
      destruct Hv as [[W0 _] _ _ _]. rewrite SubBalance_getter, decide_True, Hdb by done. pose proof (ac_balance _ _ _ _ _ A) as Hbal. rewrite (mm_cap _ _ _ M), Hdb in Hbal.
      pose proof (mm_price _ _ _ M). pose proof (mo_gas _ _ Hm) as Hg. unfold is_u64 in Hg. change (EvmState.GetBalance ?d ?a) with (State.GetBalance d a) in Hbal. nia. }
    rewrite Hcan, andb_false_r. destruct (execute _ _ _ _) as [[[ret vmerr] st2]| |]; cbn [mbind res_bind]; [|done|done]. destruct (refundGas _ _ _) as [st3| |]; cbn [mbind res_bind]; [|done|done].
    by destruct (effectiveTip env msg). }
  destruct (ApplyMessage env jt NoBaseFee msg gp e) as [[[r|er] st]| |]; cbn [wp] in W.
  - destruct W as (_ & ig' & left & e2 & refund & tip & _ & Hi & (Hl & _) & Hrf & _ & _ & Hu & _). lia.
  - by eapply Hnot.
  - done.
  - done.
Qed.
End exec.

(** ** A payment with a call *)

Definition paying : Transaction.TxData := Transaction.LegacyTx 9 2 50000 (Some toy_contract) 100 [] 27 1 1.
Definition signed_tx : Transaction.Transaction := Transaction.mkTransaction paying 0 (Some (Transaction.HomesteadSigner, toy_user)).
Definition loaded_tx : TxList.Tx :=
  TxList.mkTx paying 0 (match TxList.load Transaction.HomesteadSigner signed_tx with Ok t => TxList.tx_hash t | _ => 0 end) 32 (Some toy_user).
Definition pay_msg : Message :=
  {| From := toy_user; To := Some toy_contract; mGasPrice := 2; GasFeeCap := Some 2; GasTipCap := Some 2;
     mGas := 50000; Value := 100; StateTransition.Nonce := 9; IsFake := false; Data := []; mAccessList := [] |}.
Definition pay_pool : TxPool State.stateDB :=
  with_state State.New (newTxNoncer State.New) 30000000 (emptyPool DefaultTxPoolConfig (chainConfig (toy_env false)) State.New).

Lemma pay_ready : tx_ready (toy_env false) (toy_table false) pay_msg 1000000 (toy_vm State.New).
Proof.
  destruct (toy_tx_ready 50000 ltac:(by compute)) as [H1 H2 [M1 M2 M3 M4 M5] H4 H5 H6]. split; [exact H1|exact H2| |exact H4|exact H5|exact H6].
  split; [exact M1|exact M2|exact M3|intros _; split; by eexists|exact M5].
Qed.

Lemma validated_transactions_are_applied_witness : validateTx loaded_tx false pay_pool = None /\
  exists r st, ApplyMessage (toy_env false) (toy_table false) false pay_msg 1000000 (toy_vm State.New) = Ok (inl r, st) /\ UsedGas r <= 50000.
Proof.
  assert (V : validateTx loaded_tx false pay_pool = None) by (vm_compute; reflexivity). split; [exact V|].
  pose proof (validated_transactions_are_applied (toy_env false) (toy_table false) false Transaction.HomesteadSigner None signed_tx signed_tx loaded_tx pay_msg false pay_pool 1000000 (toy_vm State.New)) as W.
  assert (E : exists r st, ApplyMessage (toy_env false) (toy_table false) false pay_msg 1000000 (toy_vm State.New) = Ok (inl r, st)) by (do 2 eexists; vm_compute; reflexivity).
  destruct E as (r & st & E). exists r, st. split; [exact E|]. rewrite E in W. apply W.
  - vm_compute. reflexivity.
  - vm_compute. reflexivity.
  - exact V.
  - exact pay_ready.
  - reflexivity.
  - reflexivity.
  - vm_compute. reflexivity.
  - vm_compute. reflexivity.
  - left. vm_compute. reflexivity.
  - discriminate.
  - vm_compute. discriminate.
Defined.
End TxPoolExec.
