(* ===== verification/HeaderChain.v ===== *)
(** * The header chain ([blockchain/headerchain.go], [blockchain/forkchoice.go]) and
    its tables ([database/rawdb/accessors_chain.go])

    The tables of the database are maps; a batch is the list of its writes, which
    nothing reads before it is written.  There is no ancient store, and writes to
    the database do not fail.  The caches are LRU caches of a library: the class
    [LRU] has their operations, [LRUSpec] what they promise.  [procInterrupt], the
    random number of the fork choice and the callbacks of [SetHead] are arguments;
    logs and gauges are left out.  [currentHeader] and [genesisHeader] are never
    nil. *)

From S2P Require Import Prelude Config Common Rlp EvmState Header.

Local Open Scope Z_scope.

(** ** The LRU cache *)

Class LRU := {
  lru : Type -> Type;
  lru_Get {V : Type} : Hash -> lru V -> option V * lru V;
  lru_Contains {V : Type} : Hash -> lru V -> bool;
  lru_Add {V : Type} : Hash -> V -> lru V -> lru V;
  lru_Purge {V : Type} : lru V -> lru V;
}.

(** What a cache holds was added and not overwritten; adding may evict. *)
Class LRUSpec (L : LRU) := {
  held {V : Type} : lru V -> gmap Hash V;
  held_Get {V : Type} h (c : lru V) : (lru_Get h c).1 = held c !! h /\ held (lru_Get h c).2 = held c;
  held_Contains {V : Type} h (c : lru V) : lru_Contains h c = bool_decide (is_Some (held c !! h));
  held_Add {V : Type} h (v : V) (c : lru V) : held (lru_Add h v c) ⊆ <[h := v]> (held c);
  held_Purge {V : Type} (c : lru V) : held (lru_Purge c) = ∅;
}.

Module HeaderChain.

Inductive ChainErr := ErrUnknownAncestor | ErrNoGenesis | ErrBannedHash | errAborted | errMissingTd | errMissingParent | errNonContiguous | errVerify.
Inductive WriteStatus := NonStatTy | CanonStatTy | SideStatTy.
#[export] Instance WriteStatus_eq_dec : EqDecision WriteStatus.
Proof. solve_decision. Defined.

Section hashed.
Context `{C : Crypto} `{L : LRU}.

(** The hash and the number of a header; [Hash_] returns for every header that can
    be encoded. *)
Definition HashOf (h : Header) : Hash := match Header.Hash_ h with Ok x => x | _ => 0 end.
Definition numberOf (h : Header) : Z := u64 (Header.Number h).

(** ** The tables *)

Record chainDB := mkDB {
  dHeader : gmap (Z * Hash) Header;
  dNumber : gmap Hash Z;
  dTd : gmap (Z * Hash) Z;
  dCanon : gmap Z Hash;
  dHeadHeader : Hash;
  dHeadBlock : Hash;
}.

Definition ReadCanonicalHash (db : chainDB) (number : Z) : Hash := default 0 (dCanon db !! number).
Definition ReadAllHashes (db : chainDB) (number : Z) : list Hash :=
  (filter (fun kv : Z * Hash * Header => kv.1.1 = number) (map_to_list (dHeader db))).*1.*2.
Definition ReadHeaderNumber (db : chainDB) (hash : Hash) : option Z := dNumber db !! hash.
Definition ReadHeadBlockHash (db : chainDB) : Hash := dHeadBlock db.
Definition db_HasHeader (db : chainDB) (hash : Hash) (number : Z) : bool := bool_decide (is_Some (dHeader db !! (number, hash))).
Definition ReadHeader (db : chainDB) (hash : Hash) (number : Z) : option Header := dHeader db !! (number, hash).
Definition ReadTd (db : chainDB) (hash : Hash) (number : Z) : option Z := dTd db !! (number, hash).

Inductive write :=
| WriteCanonicalHash (hash : Hash) (number : Z)
| DeleteCanonicalHash (number : Z)
| WriteHeadHeaderHash (hash : Hash)
| WriteTd (hash : Hash) (number td : Z)
| WriteHeader (header : Header)
| DeleteHeader (hash : Hash) (number : Z)
| DeleteTd (hash : Hash) (number : Z).

Definition with_canon v db := mkDB (dHeader db) (dNumber db) (dTd db) v (dHeadHeader db) (dHeadBlock db).
Definition with_td v db := mkDB (dHeader db) (dNumber db) v (dCanon db) (dHeadHeader db) (dHeadBlock db).
Definition with_headers v n db := mkDB v n (dTd db) (dCanon db) (dHeadHeader db) (dHeadBlock db).
Definition with_head v db := mkDB (dHeader db) (dNumber db) (dTd db) (dCanon db) v (dHeadBlock db).

Definition put_CanonicalHash (h : Hash) (n : Z) (db : chainDB) : chainDB := with_canon (<[n := h]> (dCanon db)) db.
Definition del_CanonicalHash (n : Z) (db : chainDB) : chainDB := with_canon (delete n (dCanon db)) db.
Definition put_HeadHeaderHash (h : Hash) (db : chainDB) : chainDB := with_head h db.
Definition put_Td (h : Hash) (n td : Z) (db : chainDB) : chainDB := with_td (<[(n, h) := td]> (dTd db)) db.
Definition del_Td (h : Hash) (n : Z) (db : chainDB) : chainDB := with_td (delete (n, h) (dTd db)) db.
(** With the number of the hash. *)
Definition put_Header (x : Header) (db : chainDB) : chainDB := with_headers (<[(numberOf x, HashOf x) := x]> (dHeader db)) (<[HashOf x := numberOf x]> (dNumber db)) db.
Definition del_Header (h : Hash) (n : Z) (db : chainDB) : chainDB := with_headers (delete (n, h) (dHeader db)) (delete h (dNumber db)) db.

(** A batch replays its writes in order. *)
Definition do_write (db : chainDB) (w : write) : chainDB :=
  match w with
  | WriteCanonicalHash h n => put_CanonicalHash h n db
  | DeleteCanonicalHash n => del_CanonicalHash n db
  | WriteHeadHeaderHash h => put_HeadHeaderHash h db
  | WriteTd h n td => put_Td h n td db
  | WriteHeader x => put_Header x db
  | DeleteHeader h n => del_Header h n db
  | DeleteTd h n => del_Td h n db
  end.
Definition batch_Write (batch : list write) (db : chainDB) : chainDB := fold_left do_write batch db.

(** ** [HeaderChain] *)

Record HeaderChain := mkHC {
  config : ChainConfig;
  chainDb : chainDB;
  genesisHeader : Header;
  currentHeader : Header;
  currentHeaderHash : Hash;
  headerCache : lru Header;
  tdCache : lru Z;
  numberCache : lru Z;
}.

Definition with_db v hc := mkHC (config hc) v (genesisHeader hc) (currentHeader hc) (currentHeaderHash hc) (headerCache hc) (tdCache hc) (numberCache hc).
Definition with_current x h hc := mkHC (config hc) (chainDb hc) (genesisHeader hc) x h (headerCache hc) (tdCache hc) (numberCache hc).
Definition with_caches a b c hc := mkHC (config hc) (chainDb hc) (genesisHeader hc) (currentHeader hc) (currentHeaderHash hc) a b c.

Definition GetBlockNumber (hash : Hash) (hc : HeaderChain) : option Z * HeaderChain :=
  let '(cached, c) := lru_Get hash (numberCache hc) in
  let hc := with_caches (headerCache hc) (tdCache hc) c hc in
  match cached with
  | Some n => (Some n, hc)
  | None =>
    match ReadHeaderNumber (chainDb hc) hash with
    | None => (None, hc)
    | Some n => (Some n, with_caches (headerCache hc) (tdCache hc) (lru_Add hash n (numberCache hc)) hc)
    end
  end.

Definition GetTd (hash : Hash) (number : Z) (hc : HeaderChain) : option Z * HeaderChain :=
  let '(cached, c) := lru_Get hash (tdCache hc) in
  let hc := with_caches (headerCache hc) c (numberCache hc) hc in
  match cached with
  | Some td => (Some td, hc)
  | None =>
    match ReadTd (chainDb hc) hash number with
    | None => (None, hc)
    | Some td => (Some td, with_caches (headerCache hc) (lru_Add hash td (tdCache hc)) (numberCache hc) hc)
    end
  end.

Definition GetHeader (hash : Hash) (number : Z) (hc : HeaderChain) : option Header * HeaderChain :=
  let '(cached, c) := lru_Get hash (headerCache hc) in
  let hc := with_caches c (tdCache hc) (numberCache hc) hc in
  match cached with
  | Some x => (Some x, hc)
  | None =>
    match ReadHeader (chainDb hc) hash number with
    | None => (None, hc)
    | Some x => (Some x, with_caches (lru_Add hash x (headerCache hc)) (tdCache hc) (numberCache hc) hc)
    end
  end.

Definition GetHeaderByHash (hash : Hash) (hc : HeaderChain) : option Header * HeaderChain :=
  let '(number, hc) := GetBlockNumber hash hc in
  match number with None => (None, hc) | Some n => GetHeader hash n hc end.

Definition HasHeader (hash : Hash) (number : Z) (hc : HeaderChain) : bool :=
  lru_Contains hash (numberCache hc) || lru_Contains hash (headerCache hc) || db_HasHeader (chainDb hc) hash number.

Definition GetHeaderByNumber (number : Z) (hc : HeaderChain) : option Header * HeaderChain :=
  let hash := ReadCanonicalHash (chainDb hc) number in
  if hash =? 0 then (None, hc) else GetHeader hash number hc.

Definition GetCanonicalHash (number : Z) (hc : HeaderChain) : Hash := ReadCanonicalHash (chainDb hc) number.
(** [ReadHeaderRange], without an ancient store: the canonical header of the number
    and its ancestors. *)
Fixpoint live_range (count : nat) (db : chainDB) (i : Z) (hash : Hash) : list Header :=
  match count with
  | O => []
  | S count => match dHeader db !! (i, hash) with Some x => x :: live_range count db (sub64 i 1) (Header.ParentHash x) | None => [] end
  end.
Definition ReadHeaderRange (db : chainDB) (number count : Z) : list Header :=
  if count =? 0 then []
  else
    let count := if count - 1 >? number then add64 number 1 else count in
    live_range (Z.to_nat count) db number (ReadCanonicalHash db number).

(** [GetHeadersFrom]: the headers in the cache first, the rest from the database. *)
Fixpoint cached_range (count : nat) (number : Z) (hash : Hash) (hc : HeaderChain) : list Header * nat * Z * HeaderChain :=
  match count with
  | O => ([], O, number, hc)
  | S rest =>
    let '(header, c) := lru_Get hash (headerCache hc) in
    let hc := with_caches c (tdCache hc) (numberCache hc) hc in
    match header with
    | None => ([], count, number, hc)
    | Some x => let '(l, count, number, hc) := cached_range rest (sub64 number 1) (Header.ParentHash x) hc in (x :: l, count, number, hc)
    end
  end.
Definition GetHeadersFrom (number count : Z) (hc : HeaderChain) : list Header * HeaderChain :=
  let current := numberOf (currentHeader hc) in
  let request :=
    if current <? number then if count >? sub64 number current then Some (current, sub64 count (sub64 number current)) else None
    else Some (number, count) in
  match request with
  | None => ([], hc)
  | Some (number, count) =>
    let hash := ReadCanonicalHash (chainDb hc) number in
    if hash =? 0 then ([], hc)
    else
      let '(l, count, number, hc) := cached_range (Z.to_nat count) number hash hc in
      (l ++ (if (0 <? count)%nat then ReadHeaderRange (chainDb hc) number (Z.of_nat count) else []), hc)
  end.

Definition SetCurrentHeader (head : Header) (hc : HeaderChain) : HeaderChain := with_current head (HashOf head) hc.

(** The tables after [Genesis.Commit], for the header of the genesis block. *)
Definition genesis_tables (g : Header) : chainDB :=
  batch_Write [WriteTd (HashOf g) (numberOf g) (Header.Difficulty g); WriteHeader g; WriteCanonicalHash (HashOf g) (numberOf g); WriteHeadHeaderHash (HashOf g)]
    (mkDB ∅ ∅ ∅ ∅ 0 (HashOf g)).

(** [NewHeaderChain], with new caches. *)
Definition NewHeaderChain (db : chainDB) (cc : ChainConfig) (hcache : lru Header) (tcache ncache : lru Z) (zero : Header) : HeaderChain + ChainErr :=
  let hc := mkHC cc db zero zero 0 hcache tcache ncache in
  let '(genesis, hc) := GetHeaderByNumber 0 hc in
  match genesis with
  | None => inr ErrNoGenesis
  | Some g =>
    let hc := mkHC cc (chainDb hc) g g 0 (headerCache hc) (tdCache hc) (numberCache hc) in
    let head := ReadHeadBlockHash (chainDb hc) in
    let hc := if head =? 0 then hc
              else let '(chead, hc) := GetHeaderByHash head hc in
                   match chead with Some x => with_current x (currentHeaderHash hc) hc | None => hc end in
    inl (with_current (currentHeader hc) (HashOf (currentHeader hc)) hc)
  end.

(** ** [WriteHeaders] *)

(** The hash of a header is read off the next one. *)
Definition hash_in (header : Header) (rest : list Header) : Hash :=
  match rest with next :: _ => Header.ParentHash next | [] => HashOf header end.

(** The loop: the batch, how many headers were inserted, the caches. *)
Fixpoint write_loop (headers : list Header) (newTD : Z) (parentKnown : bool) (batch : list write) (inserted : Z) (hc : HeaderChain)
    : list write * Z * HeaderChain :=
  match headers with
  | [] => (batch, inserted, hc)
  | header :: rest =>
    let hash := hash_in header rest in
    let number := numberOf header in
    let newTD := newTD + Header.Difficulty header in
    let alreadyKnown := parentKnown && HasHeader hash number hc in
    if alreadyKnown then write_loop rest newTD true batch inserted hc
    else
      write_loop rest newTD false (batch ++ [WriteTd hash number newTD; WriteHeader header]) (inserted + 1)
        (with_caches (lru_Add hash header (headerCache hc)) (lru_Add hash newTD (tdCache hc)) (lru_Add hash number (numberCache hc)) hc)
  end.

Definition WriteHeaders (interrupted : bool) (headers : list Header) (hc : HeaderChain) : (Z + ChainErr) * HeaderChain :=
  match headers with
  | [] => (inl 0, hc)
  | first :: _ =>
    let '(ptd, hc) := GetTd (Header.ParentHash first) (sub64 (numberOf first) 1) hc in
    match ptd with
    | None => (inr ErrUnknownAncestor, hc)
    | Some ptd =>
      let '(batch, inserted, hc) := write_loop headers ptd true [] 0 hc in
      if interrupted then (inr errAborted, hc) else (inl inserted, with_db (batch_Write batch (chainDb hc)) hc)
    end
  end.

(** ** [ForkChoice.ReorgNeeded] *)

(** [coin]: does the random number fall below one half? *)
Definition ReorgNeeded (preserve : option (Header -> bool)) (coin : bool) (current header : Header) (hc : HeaderChain) : (bool + ChainErr) * HeaderChain :=
  let '(localTD, hc) := GetTd (HashOf current) (numberOf current) hc in
  let '(externTd, hc) := GetTd (HashOf header) (numberOf header) hc in
  match localTD, externTd with
  | Some local, Some extern =>
    if match TerminalTotalDifficulty (config hc) with Some ttd => ttd <=? extern | None => false end then (inl true, hc)
    else
      let reorg := extern >? local in
      let reorg :=
        if negb reorg && (extern =? local) then
          let number := numberOf header in
          let headNumber := numberOf current in
          if number <? headNumber then true
          else if number =? headNumber then
            let '(currentPreserve, externPreserve) := match preserve with Some f => (f current, f header) | None => (false, false) end in
            negb currentPreserve && (externPreserve || coin)
          else reorg
        else reorg in
      (inl reorg, hc)
  | _, _ => (inr errMissingTd, hc)
  end.

(** ** [Reorg] *)

(** The canonical numbers above the new head. *)
Fixpoint delete_above (fuel : nat) (db : chainDB) (i : Z) : res (list write) :=
  if ReadCanonicalHash db i =? 0 then Ok []
  else
    match fuel with
    | O => NoFuel
    | S fuel => r ← delete_above fuel db (add64 i 1); Ok (DeleteCanonicalHash i :: r)
    end.

(** Backwards to the cross link of the two chains. *)
Fixpoint overwrite_back (fuel : nat) (header : Header) (headNumber : Z) (headHash : Hash) (hc : HeaderChain) : res (list write * option ChainErr * HeaderChain) :=
  if ReadCanonicalHash (chainDb hc) headNumber =? headHash then Ok ([], None, hc)
  else if headNumber =? 0 then Ok ([WriteCanonicalHash headHash headNumber], None, hc)
  else
    match fuel with
    | O => NoFuel
    | S fuel =>
      let headHash' := Header.ParentHash header in
      let headNumber' := sub64 (numberOf header) 1 in
      let '(parent, hc) := GetHeader headHash' headNumber' hc in
      match parent with
      | None => Ok ([], Some errMissingParent, hc)
      | Some parent => '(r, e, hc) ← overwrite_back fuel parent headNumber' headHash' hc; Ok (WriteCanonicalHash headHash headNumber :: r, e, hc)
      end
    end.

Fixpoint extend (headers : list Header) : list write :=
  match headers with
  | [] => []
  | x :: rest => let hash := hash_in x rest in WriteCanonicalHash hash (numberOf x) :: WriteHeadHeaderHash hash :: extend rest
  end.

Definition Reorg (headers : list Header) (hc : HeaderChain) : res (option ChainErr * HeaderChain) :=
  match headers, last headers with
  | first :: _, Some lst =>
    '(batch, e, hc) ←
      (if negb (Header.ParentHash first =? currentHeaderHash hc) then
         above ← delete_above (S (Z.to_nat (numberOf (currentHeader hc)))) (chainDb hc) (add64 (numberOf lst) 1);
         '(back, e, hc) ← overwrite_back (S (Z.to_nat (numberOf first))) first (numberOf first) (HashOf first) hc;
         Ok (above ++ back, e, hc)
       else Ok ([], None, hc));
    match e with
    | Some e => Ok (Some e, hc)
    | None => Ok (None, with_current lst (HashOf lst) (with_db (batch_Write (batch ++ extend headers) (chainDb hc)) hc))
    end
  | _, _ => Ok (None, hc)
  end.

(** ** [writeHeadersAndSetHead] and [InsertHeaderChain] *)

Record headerWriteResult := mkResult {
  status : WriteStatus;
  ignored : Z;
  imported : Z;
  lastHash : Hash;
  lastHeader : Header;
}.
Definition with_status s r := mkResult s (ignored r) (imported r) (lastHash r) (lastHeader r).

Definition writeHeadersAndSetHead (interrupted : bool) (preserve : option (Header -> bool)) (coin : bool) (headers : list Header) (hc : HeaderChain)
    : res ((headerWriteResult + ChainErr) * HeaderChain) :=
  let '(r, hc) := WriteHeaders interrupted headers hc in
  match r with
  | inr e => Ok (inr e, hc)
  | inl inserted =>
    lastHeader ← or_panic PanicIndex (last headers);
    let lastHash := HashOf lastHeader in
    let result := mkResult NonStatTy (zlen headers - inserted) inserted lastHash lastHeader in
    let '(reorg, hc) := ReorgNeeded preserve coin (currentHeader hc) lastHeader hc in
    match reorg with
    | inr e => Ok (inr e, hc)
    | inl false => Ok (inl (if negb (inserted =? 0) then with_status SideStatTy result else result), hc)
    | inl true =>
      if (GetCanonicalHash (numberOf lastHeader) hc =? lastHash) && (numberOf lastHeader <=? numberOf (currentHeader hc)) then Ok (inl result, hc)
      else
        '(e, hc) ← Reorg headers hc;
        match e with
        | Some e => Ok (inr e, hc)
        | None => Ok (inl (with_status CanonStatTy result), hc)
        end
    end
  end.

(** Interrupted at the start, or before the headers are written. *)
Definition InsertHeaderChain (interrupted interrupted' : bool) (preserve : option (Header -> bool)) (coin : bool) (chain : list Header) (hc : HeaderChain)
    : res ((WriteStatus + ChainErr) * HeaderChain) :=
  if interrupted then Ok (inr errAborted, hc)
  else
    '(r, hc) ← writeHeadersAndSetHead interrupted' preserve coin chain hc;
    Ok (match r with inl r => inl (status r) | inr e => inr e end, hc).

(** ** [ValidateHeaderChain]: the index of the failure, and the error *)

Fixpoint contiguous_from (bad : Hash -> bool) (i : Z) (prev : Header) (chain : list Header) : option (Z * ChainErr) :=
  match chain with
  | [] => None
  | x :: rest =>
    if negb (numberOf x =? add64 (numberOf prev) 1) then Some (0, errNonContiguous)
    else if bad (Header.ParentHash x) then Some (i - 1, ErrBannedHash)
    else if bool_decide (rest = []) && bad (HashOf x) then Some (i, ErrBannedHash)
    else contiguous_from bad (i + 1) x rest
  end.

(** The seals to verify: one of each [checkFreq] headers, and the last one.
    [picks] are the random numbers below [checkFreq]. *)
Definition set_seal (seals : list bool) (i : Z) : res (list bool) :=
  if (0 <=? i) && (i <? zlen seals) then Ok (<[Z.to_nat i := true]> seals) else Panic PanicIndex.
Fixpoint pick_seals (checkFreq i : Z) (picks : list Z) (seals : list bool) : res (list bool) :=
  match picks with
  | [] => Ok seals
  | r :: picks =>
    let index := i * checkFreq + r in
    seals ← set_seal seals (if index >=? zlen seals then zlen seals - 1 else index);
    pick_seals checkFreq (i + 1) picks seals
  end.
Definition choose_seals (checkFreq : Z) (picks : list Z) (n : nat) : res (list bool) :=
  let seals := replicate n false in
  if checkFreq =? 0 then Ok seals
  else seals ← pick_seals checkFreq 0 picks seals; set_seal seals (zlen seals - 1).

(** The results of the verifier, each after a look at the interrupt. *)
Fixpoint first_failure (i : Z) (results : list (bool * option ChainErr)) : option (Z * ChainErr) :=
  match results with
  | [] => None
  | (true, _) :: _ => Some (0, errAborted)
  | (false, Some e) :: _ => Some (i, e)
  | (false, None) :: r => first_failure (i + 1) r
  end.
Definition ValidateHeaderChain (bad : Hash -> bool) (VerifyHeaders : list Header -> list bool -> list (bool * option ChainErr))
    (checkFreq : Z) (picks : list Z) (chain : list Header) : res (option (Z * ChainErr)) :=
  match (match chain with [] => None | x :: rest => contiguous_from bad 1 x rest end) with
  | Some f => Ok (Some f)
  | None => seals ← choose_seals checkFreq picks (length chain); Ok (first_failure 0 (VerifyHeaders chain seals))
  end.

(** ** [GetAncestor] *)

Fixpoint ancestor_loop (fuel : nat) (hash : Hash) (number ancestor maxNonCanonical : Z) (hc : HeaderChain) : res (Hash * Z * Z * HeaderChain) :=
  if ancestor =? 0 then Ok (hash, number, maxNonCanonical, hc)
  else if ReadCanonicalHash (chainDb hc) number =? hash then
    Ok (ReadCanonicalHash (chainDb hc) (sub64 number ancestor), sub64 number ancestor, maxNonCanonical, hc)
  else if maxNonCanonical =? 0 then Ok (0, 0, maxNonCanonical, hc)
  else
    match fuel with
    | O => NoFuel
    | S fuel =>
      let '(header, hc) := GetHeader hash number hc in
      match header with
      | None => Ok (0, 0, sub64 maxNonCanonical 1, hc)
      | Some x => ancestor_loop fuel (Header.ParentHash x) (sub64 number 1) (sub64 ancestor 1) (sub64 maxNonCanonical 1) hc
      end
    end.

Definition GetAncestor (hash : Hash) (number ancestor maxNonCanonical : Z) (hc : HeaderChain) : res (Hash * Z * Z * HeaderChain) :=
  if ancestor >? number then Ok (0, 0, maxNonCanonical, hc)
  else if ancestor =? 1 then
    let '(header, hc) := GetHeader hash number hc in
    match header with
    | Some x => Ok (Header.ParentHash x, sub64 number 1, maxNonCanonical, hc)
    | None => Ok (0, 0, maxNonCanonical, hc)
    end
  else ancestor_loop (Z.to_nat ancestor) hash number ancestor maxNonCanonical hc.

(** ** [SetHead] *)

(** The highest number of a header bounds the search for leftovers. *)
Definition max_level (db : chainDB) : Z := map_fold (fun k _ m => Z.max k.1 m) 0 (dHeader db).

(** The numbers above that have headers, the highest first. *)
Fixpoint levels_above (fuel : nat) (db : chainDB) (n : Z) : res (list Z) :=
  if bool_decide (ReadAllHashes db n = []) then Ok []
  else match fuel with O => NoFuel | S fuel => r ← levels_above fuel db (add64 n 1); Ok (r ++ [n]) end.

(** Everything stored under a number. *)
Definition delete_level (db : chainDB) (hdr : Header) (num : Z) : list write :=
  let hashes := ReadAllHashes db num in
  let hashes := if decide (hashes = []) then [HashOf hdr] else hashes in
  concat (map (fun h => [DeleteHeader h num; DeleteTd h num]) hashes) ++ [DeleteCanonicalHash num].

Fixpoint rewind (fuel : nat) (updateFn : option (Header -> Z * bool)) (head : Z) (origin : bool) (batch : list write) (hc : HeaderChain)
    : res (list write * HeaderChain) :=
  let hdr := currentHeader hc in
  let num := numberOf hdr in
  if negb (num >? head) then Ok (batch, hc)
  else
    match fuel with
    | O => NoFuel
    | S fuel =>
      let '(parent, hc) := GetHeader (Header.ParentHash hdr) (sub64 num 1) hc in
      let parent := default (genesisHeader hc) parent in
      let parentHash := HashOf parent in
      let head := match updateFn with
                  | Some f => let '(newHead, force) := f parent in if force && (newHead <? head) then newHead else head
                  | None => head
                  end in
      let hc := with_current parent parentHash (with_db (batch_Write [WriteHeadHeaderHash parentHash] (chainDb hc)) hc) in
      above ← (if origin then levels_above (S (Z.to_nat (max_level (chainDb hc)))) (chainDb hc) (add64 num 1) else Ok []);
      rewind fuel updateFn head false (batch ++ concat (map (delete_level (chainDb hc) hdr) (above ++ [num]))) hc
    end.

Definition SetHead (updateFn : option (Header -> Z * bool)) (head : Z) (hc : HeaderChain) : res HeaderChain :=
  '(batch, hc) ← rewind (S (Z.to_nat (numberOf (currentHeader hc)))) updateFn head true [] hc;
  let hc := with_db (batch_Write batch (chainDb hc)) hc in
  Ok (with_caches (lru_Purge (headerCache hc)) (lru_Purge (tdCache hc)) (lru_Purge (numberCache hc)) hc).

Definition SetGenesis (head : Header) (hc : HeaderChain) : HeaderChain :=
  mkHC (config hc) (chainDb hc) head (currentHeader hc) (currentHeaderHash hc) (headerCache hc) (tdCache hc) (numberCache hc).

(** ** [FindCommonAncestor] *)

Fixpoint down_to (fuel : nat) (db : chainDB) (a : Header) (bn : Z) : res (option Header) :=
  if negb (numberOf a >? bn) then Ok (Some a)
  else
    match fuel with
    | O => NoFuel
    | S fuel => match ReadHeader db (Header.ParentHash a) (sub64 (numberOf a) 1) with None => Ok None | Some a => down_to fuel db a bn end
    end.
Fixpoint down_both (fuel : nat) (db : chainDB) (a b : Header) : res (option Header) :=
  if HashOf a =? HashOf b then Ok (Some a)
  else
    match fuel with
    | O => NoFuel
    | S fuel =>
      match ReadHeader db (Header.ParentHash a) (sub64 (numberOf a) 1) with
      | None => Ok None
      | Some a =>
        match ReadHeader db (Header.ParentHash b) (sub64 (numberOf b) 1) with
        | None => Ok None
        | Some b => down_both fuel db a b
        end
      end
    end.
Definition FindCommonAncestor (db : chainDB) (a b : Header) : res (option Header) :=
  r ← down_to (S (Z.to_nat (numberOf a))) db a (numberOf b);
  match r with
  | None => Ok None
  | Some a =>
    r ← down_to (S (Z.to_nat (numberOf b))) db b (numberOf a);
    match r with
    | None => Ok None
    | Some b => down_both (S (Z.to_nat (numberOf a))) db a b
    end
  end.
End hashed.
End HeaderChain.
