(* ===== verification/HeaderChainSpec.v ===== *)
(** * The header chain keeps its tables consistent

    [hc_ok]: every stored header is under its number and hash, with its number, its
    total difficulty and its parent; the caches agree with the tables; and the
    canonical numbers are a chain of stored headers, linked by their parent hashes
    from the genesis to the current head, with nothing above it. *)

From S2P Require Import Prelude Config Common Rlp EvmState EvmSpec Header HeaderChain.

Local Open Scope Z_scope.

Module HeaderChainSpec.

Import HeaderChain.

Section spec.
Context `{C : Crypto} `{CS : !CryptoSpec C} `{L : LRU} `{LS : !LRUSpec L}.

(** ** Headers *)

(** A well-formed header; no header hashes to zero, which stands for a missing
    hash. *)
Record hdr_ok (x : Header) : Prop := {
  hk_ok : header_ok x;
  hk_number : 0 <= Header.Number x < 2 ^ 64 - 1;
  hk_hash : HashOf x <> 0;
}.

Lemma HashOf_inj a b : hdr_ok a -> hdr_ok b -> HashOf a = HashOf b -> a = b.
Proof.
  intros [Ha _ _] [Hb _ _] E. apply header_hash_injective; [done|done|]. unfold HashOf in E. rewrite !Hash_spec in * by done. congruence.
Qed.

Lemma numberOf_range x : hdr_ok x -> 0 <= numberOf x < 2 ^ 64 - 1.
Proof. intros [_ H _]. unfold numberOf. rewrite u64_small by (unfold is_u64; lia). done. Qed.

(** ** The tables *)

Definition stored (db : chainDB) (x : Header) : Prop := dHeader db !! (numberOf x, HashOf x) = Some x.
Definition td_of (db : chainDB) (x : Header) : option Z := dTd db !! (numberOf x, HashOf x).

Record db_ok (g : Header) (db : chainDB) : Prop := {
  do_key n h x : dHeader db !! (n, h) = Some x -> numberOf x = n /\ HashOf x = h /\ hdr_ok x;
  do_num h n : dNumber db !! h = Some n <-> is_Some (dHeader db !! (n, h));
  do_td n h : is_Some (dTd db !! (n, h)) <-> is_Some (dHeader db !! (n, h));
  do_genesis : stored db g /\ numberOf g = 0;
  do_zero x : stored db x -> numberOf x = 0 -> x = g;
  do_parent x : stored db x -> numberOf x <> 0 -> exists y, stored db y /\ HashOf y = Header.ParentHash x /\ numberOf y = numberOf x - 1 /\
    forall td, td_of db x = Some td -> exists ptd, td_of db y = Some ptd /\ td = ptd + Header.Difficulty x;
}.

Lemma stored_ok g db x : db_ok g db -> stored db x -> hdr_ok x.
Proof. intros Hd Hx. by apply (do_key _ _ Hd) in Hx as (_ & _ & ?). Qed.

Lemma stored_eq g db x y : db_ok g db -> stored db x -> stored db y -> HashOf x = HashOf y -> x = y.
Proof. intros Hd Hx Hy E. apply HashOf_inj; [by eapply stored_ok|by eapply stored_ok|done]. Qed.

Lemma key_stored g db n h x : db_ok g db -> dHeader db !! (n, h) = Some x -> stored db x /\ numberOf x = n /\ HashOf x = h.
Proof. intros Hd E. destruct (do_key _ _ Hd _ _ _ E) as (<- & <- & _). done. Qed.

Lemma stored_td g db x : db_ok g db -> stored db x -> exists td, td_of db x = Some td.
Proof. intros Hd Hx. apply (do_td _ _ Hd). by eexists. Qed.

(** ** The caches *)

Record caches_ok (db : chainDB) (hc : HeaderChain) : Prop := {
  ca_header h x : held (headerCache hc) !! h = Some x -> stored db x /\ HashOf x = h;
  ca_td h td : held (tdCache hc) !! h = Some td -> exists x, stored db x /\ HashOf x = h /\ td_of db x = Some td;
  ca_number h n : held (numberCache hc) !! h = Some n -> dNumber db !! h = Some n;
}.

Definition same (hc hc' : HeaderChain) : Prop :=
  config hc' = config hc /\ chainDb hc' = chainDb hc /\ genesisHeader hc' = genesisHeader hc /\ currentHeader hc' = currentHeader hc /\
  currentHeaderHash hc' = currentHeaderHash hc.

Lemma same_trans a b c : same a b -> same b c -> same a c.
Proof. intros (?&?&?&?&?) (?&?&?&?&?). repeat split; congruence. Qed.

Lemma add_held {V} h (v : V) (c : lru V) k w : held (lru_Add h v c) !! k = Some w -> (k = h /\ w = v) \/ held c !! k = Some w.
Proof. intros E. eapply lookup_weaken in E; [|apply held_Add]. apply lookup_insert_Some in E as [[<- <-]|[_ ?]]; auto. Qed.

Lemma GetTd_spec g h n hc : db_ok g (chainDb hc) -> caches_ok (chainDb hc) hc -> exists r hc', GetTd h n hc = (r, hc') /\ same hc hc' /\ caches_ok (chainDb hc) hc' /\
  match r with
  | Some td => exists x, stored (chainDb hc) x /\ HashOf x = h /\ td_of (chainDb hc) x = Some td
  | None => dTd (chainDb hc) !! (n, h) = None
  end.
Proof.
  intros Hd [H1 H2 H3]. unfold GetTd. destruct (held_Get h (tdCache hc)) as [E1 E2]. destruct (lru_Get h (tdCache hc)) as [r c]. cbn [fst snd] in E1, E2.
  assert (caches_ok (chainDb hc) (with_caches (headerCache hc) c (numberCache hc) hc)) as Hc by (split; [done| |done]; intros k td; cbn; rewrite E2; apply H2).
  destruct r as [td|]; [eexists _, _; split; [done|]; split; [done|]; split; [done|]; by apply H2|]. unfold ReadTd. cbn [chainDb with_caches].
  destruct (dTd (chainDb hc) !! (n, h)) as [td|] eqn:Et; [|eexists _, _; split; [done|]; done].
  destruct (proj1 (do_td _ _ Hd n h)) as [x Ex]; [by eexists|]. destruct (key_stored _ _ _ _ _ Hd Ex) as (Hx & En & Eh).
  assert (td_of (chainDb hc) x = Some td) as Etd by (unfold td_of; by rewrite En, Eh).
  eexists _, _. split; [done|]. split; [done|]. split; [|by exists x]. destruct Hc as [H1' H2' H3']. split; [done| |done].
  intros k w [[-> ->]|E]%add_held; [by exists x|by apply H2'].
Qed.

Lemma GetHeader_spec g h n hc : db_ok g (chainDb hc) -> caches_ok (chainDb hc) hc -> exists r hc', GetHeader h n hc = (r, hc') /\ same hc hc' /\ caches_ok (chainDb hc) hc' /\
  match r with Some x => stored (chainDb hc) x /\ HashOf x = h | None => dHeader (chainDb hc) !! (n, h) = None end.
Proof.
  intros Hd [H1 H2 H3]. unfold GetHeader. destruct (held_Get h (headerCache hc)) as [E1 E2]. destruct (lru_Get h (headerCache hc)) as [r c]. cbn [fst snd] in E1, E2.
  assert (caches_ok (chainDb hc) (with_caches c (tdCache hc) (numberCache hc) hc)) as Hc by (split; [|done|done]; intros k x; cbn; rewrite E2; apply H1).
  destruct r as [x|]; [eexists _, _; split; [done|]; split; [done|]; split; [done|]; by apply H1|]. unfold ReadHeader. cbn [chainDb with_caches].
  destruct (dHeader (chainDb hc) !! (n, h)) as [x|] eqn:Ex; [|eexists _, _; split; [done|]; done]. destruct (key_stored _ _ _ _ _ Hd Ex) as (Hx & En & Eh).
  eexists _, _. split; [done|]. split; [done|]. split; [|done]. destruct Hc as [H1' H2' H3']. split; [|done|done].
  intros k w [[-> ->]|E]%add_held; [done|by apply H1'].
Qed.

(** A stored header is found. *)
Lemma GetHeader_stored g x hc : db_ok g (chainDb hc) -> caches_ok (chainDb hc) hc -> stored (chainDb hc) x ->
  exists hc', GetHeader (HashOf x) (numberOf x) hc = (Some x, hc') /\ same hc hc' /\ caches_ok (chainDb hc) hc'.
Proof.
  intros Hd Hc Hx. destruct (GetHeader_spec g (HashOf x) (numberOf x) hc Hd Hc) as (r & hc' & E & Hs & Hc' & Hr). destruct r as [y|].
  - destruct Hr as [Hy Ey]. assert (y = x) as -> by (by eapply stored_eq). by exists hc'.
  - unfold stored in Hx. congruence.
Qed.

Lemma GetTd_stored g x hc : db_ok g (chainDb hc) -> caches_ok (chainDb hc) hc -> stored (chainDb hc) x ->
  exists td hc', GetTd (HashOf x) (numberOf x) hc = (Some td, hc') /\ td_of (chainDb hc) x = Some td /\ same hc hc' /\ caches_ok (chainDb hc) hc'.
Proof.
  intros Hd Hc Hx. destruct (GetTd_spec g (HashOf x) (numberOf x) hc Hd Hc) as (r & hc' & E & Hs & Hc' & Hr). destruct (stored_td _ _ _ Hd Hx) as [td Etd]. destruct r as [td'|].
  - destruct Hr as (y & Hy & Ey & Et). assert (y = x) as -> by (by eapply stored_eq). exists td', hc'. done.
  - unfold td_of in Etd. congruence.
Qed.

(** ** Writing headers *)

(** [db'] has what [db] has. *)
Record grows (db db' : chainDB) : Prop := {
  gr_header : dHeader db ⊆ dHeader db';
  gr_number : dNumber db ⊆ dNumber db';
  gr_td : dTd db ⊆ dTd db';
  gr_canon : dCanon db' = dCanon db;
}.
Lemma grows_refl db : grows db db.
Proof. by split. Qed.
Lemma grows_trans a b c : grows a b -> grows b c -> grows a c.
Proof. intros [] []. split; [by etransitivity..|congruence]. Qed.
Lemma grows_stored db db' x : grows db db' -> stored db x -> stored db' x.
Proof. intros [H _ _ _] E. by eapply lookup_weaken. Qed.
Lemma grows_td db db' x td : grows db db' -> td_of db x = Some td -> td_of db' x = Some td.
Proof. intros [_ _ H _] E. by eapply lookup_weaken. Qed.

Lemma caches_grow db db' hc : grows db db' -> caches_ok db hc -> caches_ok db' hc.
Proof.
  intros Hg [H1 H2 H3]. split.
  - intros h x E. destruct (H1 h x E). split; [by eapply grows_stored|done].
  - intros h td E. destruct (H2 h td E) as (x & ? & ? & ?). exists x. split; [by eapply grows_stored|]. split; [done|by eapply grows_td].
  - intros h n E. eapply lookup_weaken; [by apply H3|apply Hg].
Qed.

Definition add_header (x : Header) (td : Z) (db : chainDB) : chainDB := batch_Write [WriteTd (HashOf x) (numberOf x) td; WriteHeader x] db.

(** A header whose parent is stored. *)
Definition child (db : chainDB) (y x : Header) : Prop :=
  stored db y /\ hdr_ok x /\ Header.ParentHash x = HashOf y /\ numberOf x = numberOf y + 1.

Lemma child_td g db y x td : db_ok g db -> child db y x -> stored db x -> td_of db y = Some td -> td_of db x = Some (td + Header.Difficulty x).
Proof.
  intros Hd (Hy & Hx & Ep & En) Hsx Et. destruct (stored_td _ _ _ Hd Hsx) as [tdx Etx]. pose proof (numberOf_range y (stored_ok _ _ _ Hd Hy)).
  destruct (do_parent _ _ Hd x Hsx ltac:(lia)) as (y' & Hy' & Ey' & _ & Hsum). assert (y' = y) as -> by (eapply stored_eq; [done|done|done|congruence]).
  destruct (Hsum tdx Etx) as (ptd & E & ->). congruence.
Qed.

Lemma add_header_ok g db y x td : db_ok g db -> child db y x -> td_of db y = Some td ->
  db_ok g (add_header x (td + Header.Difficulty x) db) /\ grows db (add_header x (td + Header.Difficulty x) db) /\
  stored (add_header x (td + Header.Difficulty x) db) x /\ td_of (add_header x (td + Header.Difficulty x) db) x = Some (td + Header.Difficulty x).
Proof.
  intros Hd Hch Et. pose proof Hch as (Hy & Hx & Ep & En). pose proof (numberOf_range y (stored_ok _ _ _ Hd Hy)) as Hry. set (db' := add_header x _ db).
  assert (forall n h z, dHeader db !! (n, h) = Some z -> h = HashOf x -> z = x) as Huniq.
  { intros n h z E ->. destruct (do_key _ _ Hd _ _ _ E) as (_ & Eh & Hz). by apply HashOf_inj. }
  assert (grows db db') as Hg.
  { split; [..|done].
    - apply map_subseteq_spec. intros [n h] z E. cbn. destruct (decide ((n, h) = (numberOf x, HashOf x))) as [[= -> ->]|]; [rewrite lookup_insert_eq; f_equal; symmetry; by eapply Huniq|by rewrite lookup_insert_ne].
    - apply map_subseteq_spec. intros h n E. cbn. destruct (decide (h = HashOf x)) as [->|]; [|by rewrite lookup_insert_ne]. rewrite lookup_insert_eq. f_equal.
      apply (do_num _ _ Hd) in E as [z E]. pose proof (Huniq _ _ _ E eq_refl) as ->. by apply (do_key _ _ Hd) in E as (? & _).
    - apply map_subseteq_spec. intros [n h] v E. cbn. destruct (decide ((n, h) = (numberOf x, HashOf x))) as [[= -> ->]|]; [|by rewrite lookup_insert_ne]. rewrite lookup_insert_eq.
      destruct (proj1 (do_td _ _ Hd (numberOf x) (HashOf x))) as [z Ez]; [by eexists|]. pose proof (Huniq _ _ _ Ez eq_refl) as ->. pose proof (child_td _ _ _ _ _ Hd Hch Ez Et). unfold td_of in *. congruence. }
  assert (stored db' x) as Hs by apply lookup_insert_eq. assert (td_of db' x = Some (td + Header.Difficulty x)) as Htd by apply lookup_insert_eq.
  split; [|done]. assert (forall n h z, dHeader db' !! (n, h) = Some z -> (n = numberOf x /\ h = HashOf x /\ z = x) \/ dHeader db !! (n, h) = Some z) as Hinv.
  { intros n h z E. cbn in E. apply lookup_insert_Some in E as [[[= <- <-] <-]|[_ E]]; auto. }
  split.
  - intros n h z [(-> & -> & ->)|E]%Hinv; [done|by apply (do_key _ _ Hd)].
  - intros h n. cbn. rewrite lookup_insert_Some. split.
    + intros [[<- <-]|[_ E]]; [rewrite lookup_insert_eq; by eexists|]. apply (do_num _ _ Hd) in E as [z E]. eapply lookup_weaken in E; [|apply Hg]. by eexists.
    + intros [z E]. destruct (Hinv _ _ _ E) as [(-> & -> & _)|E']; [by left|]. destruct (decide (HashOf x = h)) as [<-|]; [left; split; [done|]; pose proof (Huniq _ _ _ E' eq_refl) as ->; by apply (do_key _ _ Hd) in E' as (? & _)|].
      right. split; [done|]. apply (do_num _ _ Hd). by eexists.
  - intros n h. cbn. rewrite !lookup_insert_is_Some'. rewrite (do_td _ _ Hd n h). done.
  - split; [eapply grows_stored; [done|]|]; apply (do_genesis _ _ Hd).
  - intros z Hz Ez. destruct (Hinv _ _ _ Hz) as [(E & _ & _)|Hz']; [lia|]. by apply (do_zero _ _ Hd).
  - intros z Hz Enz. destruct (Hinv _ _ _ Hz) as [(E1 & E2 & ->)|Hz'].
    + exists y. split; [by eapply grows_stored|]. split; [done|]. split; [lia|]. intros tdz E. exists td. split; [by eapply grows_td|]. congruence.
    + destruct (do_parent _ _ Hd z Hz' Enz) as (w & Hw & Ew & Ewn & Hsum). exists w. split; [by eapply grows_stored|]. split; [done|]. split; [done|]. intros tdz E.
      destruct (stored_td _ _ _ Hd Hz') as [t0 E0]. pose proof (grows_td _ _ _ _ Hg E0). destruct (Hsum t0 E0) as (ptd & Ept & ->). exists ptd. split; [by eapply grows_td|]. congruence.
Qed.

(** Headers that follow each other. *)
Fixpoint linked (prev : Header) (l : list Header) : Prop :=
  match l with
  | [] => True
  | x :: r => hdr_ok x /\ Header.ParentHash x = HashOf prev /\ numberOf x = numberOf prev + 1 /\ linked x r
  end.

Lemma hash_in_linked x r : linked x r -> hash_in x r = HashOf x.
Proof. destruct r as [|y r]; [done|]. by intros (_ & E & _). Qed.

Lemma batch_Write_app a b db : batch_Write (a ++ b) db = batch_Write b (batch_Write a db).
Proof. apply fold_left_app. Qed.

Lemma HasHeader_stored g db x hc : db_ok g db -> grows (chainDb hc) db -> caches_ok db hc -> hdr_ok x -> HasHeader (HashOf x) (numberOf x) hc = true -> stored db x.
Proof.
  intros Hd Hg [H1 _ H3] Hx. unfold HasHeader. rewrite !held_Contains. unfold db_HasHeader.
  assert (forall n h z, dHeader db !! (n, h) = Some z -> h = HashOf x -> stored db x) as Huniq.
  { intros n h z E ->. destruct (key_stored _ _ _ _ _ Hd E) as (Hz & _ & Eh). assert (z = x) as <- by (apply HashOf_inj; [by eapply stored_ok|done|done]). done. }
  intros [[E|E]%orb_true_iff|E]%orb_true_iff; apply bool_decide_eq_true in E as [v E].
  - apply H3, (do_num _ _ Hd) in E as [z E]. by eapply Huniq.
  - destruct (H1 _ _ E) as [Hz Ez]. by eapply Huniq.
  - eapply lookup_weaken in E; [|apply Hg]. by eapply Huniq.
Qed.

Lemma write_loop_ok g headers : forall y td known batch ins hc, let db := batch_Write batch (chainDb hc) in
  db_ok g db -> grows (chainDb hc) db -> caches_ok db hc -> stored db y -> td_of db y = Some td -> linked y headers ->
  exists batch' ins' hc', write_loop headers td known batch ins hc = (batch', ins', hc') /\ same hc hc' /\ ins <= ins' /\
    let db' := batch_Write batch' (chainDb hc) in db_ok g db' /\ grows db db' /\ caches_ok db' hc' /\ Forall (stored db') headers /\
    forall n h v, dTd db' !! (n, h) = Some v -> dTd db !! (n, h) = Some v \/ exists x, x ∈ headers /\ n = numberOf x /\ h = HashOf x.
Proof.
  induction headers as [|x headers IH]; intros y td known batch ins hc db Hd Hg Hc Hy Et Hl; cbn [write_loop].
  { exists batch, ins, hc. split; [done|]. split; [done|]. split; [lia|]. cbn zeta. split; [done|]. split; [apply grows_refl|]. split; [done|]. split; [constructor|]. intros. by left. }
  destruct Hl as (Hx & Ep & En & Hl). rewrite (hash_in_linked _ _ Hl). assert (child db y x) as Hch by done.
  destruct (known && HasHeader (HashOf x) (numberOf x) hc) eqn:Ek.
  - apply andb_true_iff in Ek as [_ Ek]. pose proof (HasHeader_stored g db x hc Hd Hg Hc Hx Ek) as Hsx. pose proof (child_td _ _ _ _ _ Hd Hch Hsx Et) as Etx.
    destruct (IH x (td + Header.Difficulty x) true batch ins hc Hd Hg Hc Hsx Etx Hl) as (b' & i' & hc' & E & Hs & Hi & Hd' & Hg' & Hc' & Hall & Htd). exists b', i', hc'. split; [done|]. split; [done|]. split; [done|].
    cbn zeta. split; [done|]. split; [done|]. split; [done|]. split; [constructor; [by eapply grows_stored|done]|]. intros n h v E'. destruct (Htd n h v E') as [|(z & Hz & ? & ?)]; [by left|]. right. exists z. split; [by right|done].
  - destruct (add_header_ok g db y x td Hd Hch Et) as (Hd1 & Hg1 & Hs1 & Et1).
    set (hc1 := with_caches _ _ _ hc). set (batch1 := batch ++ _). assert (batch_Write batch1 (chainDb hc1) = add_header x (td + Header.Difficulty x) db) as Eb by (unfold batch1; rewrite batch_Write_app; done).
    destruct (IH x (td + Header.Difficulty x) false batch1 (ins + 1) hc1) as (b' & i' & hc' & E & Hs & Hi & Hd' & Hg' & Hc' & Hall & Htd); rewrite ?Eb.
    + done.
    + eapply grows_trans; [exact Hg|exact Hg1].
    + destruct (caches_grow _ _ _ Hg1 Hc) as [H1 H2 H3]. split.
      * intros h z [[-> ->]|E]%add_held; [done|by apply H1].
      * intros h z [[-> ->]|E]%add_held; [by exists x|by apply H2].
      * intros h z [[-> ->]|E]%add_held; [apply (do_num _ _ Hd1); by eexists|by apply H3].
    + done.
    + done.
    + done.
    + rewrite Eb in Hg', Htd. exists b', i', hc'. split; [done|]. split; [exact Hs|]. split; [lia|]. cbn zeta. split; [exact Hd'|]. split; [eapply grows_trans; [exact Hg1|exact Hg']|]. split; [done|].
      split; [constructor; [by eapply grows_stored|done]|]. intros n h v E'. destruct (Htd n h v E') as [E2|(z & Hz & ? & ?)]; [|right; exists z; split; [by right|done]].
      cbn in E2. apply lookup_insert_Some in E2 as [[[= <- <-] _]|[_ E2]]; [right; exists x; split; [by left|done]|by left].
Qed.

(** ** The canonical chain *)

(** Up to the number of [x], the assignment [c] is the chain of the ancestors of
    [x]. *)
Definition leads (db : chainDB) (c : gmap Z Hash) (x : Header) : Prop :=
  c !! numberOf x = Some (HashOf x) /\ stored db x /\
  forall i, 0 <= i <= numberOf x -> exists y, stored db y /\ numberOf y = i /\ c !! i = Some (HashOf y) /\ (i <> 0 -> c !! (i - 1) = Some (Header.ParentHash y)).

Record canon_ok (db : chainDB) (cur : Header) : Prop := {
  cn_leads : leads db (dCanon db) cur;
  cn_above i : i < 0 \/ numberOf cur < i -> dCanon db !! i = None;
}.

Record hc_ok (hc : HeaderChain) : Prop := {
  ok_db : db_ok (genesisHeader hc) (chainDb hc);
  ok_caches : caches_ok (chainDb hc) hc;
  ok_canon : canon_ok (chainDb hc) (currentHeader hc);
  ok_hash : currentHeaderHash hc = HashOf (currentHeader hc);
}.

Lemma leads_grows db db' c x : grows db db' -> leads db c x -> leads db' c x.
Proof.
  intros Hg (H1 & H2 & H3). split; [done|]. split; [by eapply grows_stored|]. intros i Hi. destruct (H3 i Hi) as (y & Hy & E1 & E2 & E3). exists y. split; [by eapply grows_stored|done].
Qed.

Lemma canon_grows db db' x : grows db db' -> canon_ok db x -> canon_ok db' x.
Proof. intros Hg [H1 H2]. split; rewrite (gr_canon _ _ Hg); [by eapply leads_grows|done]. Qed.

Lemma canon_entry g db cur i h : db_ok g db -> canon_ok db cur -> dCanon db !! i = Some h -> 0 <= i <= numberOf cur /\ exists y, stored db y /\ numberOf y = i /\ h = HashOf y /\ leads db (dCanon db) y.
Proof.
  intros Hd [(H1 & H2 & H3) H4] E. assert (0 <= i <= numberOf cur) as Hi.
  { destruct (decide (0 <= i <= numberOf cur)) as [|Hn]; [done|]. rewrite H4 in E by lia. done. }
  split; [done|]. destruct (H3 i Hi) as (y & Hy & En & Ey & _). rewrite E in Ey. injection Ey as ->. exists y. split; [done|]. split; [done|]. split; [done|]. rewrite <- En in *.
  split; [done|]. split; [done|]. intros j Hj. apply H3. lia.
Qed.

(** Only the numbers up to that of [x] matter. *)
Lemma leads_ext db c c' x : (forall i, 0 <= i <= numberOf x -> c' !! i = c !! i) -> hdr_ok x -> leads db c x -> leads db c' x.
Proof.
  intros He Hx (H1 & H2 & H3). pose proof (numberOf_range x Hx). split; [rewrite He by lia; done|]. split; [done|]. intros i Hi. destruct (H3 i Hi) as (y & Hy & En & E1 & E2). exists y.
  split; [done|]. split; [done|]. rewrite He by lia. split; [done|]. intros Hz. rewrite He by lia. by apply E2.
Qed.

Lemma leads_child db c y x : leads db c y -> child db y x -> stored db x -> leads db (<[numberOf x := HashOf x]> c) x.
Proof.
  intros (H1 & H2 & H3) (_ & Hx & Ep & En) Hsx. split; [apply lookup_insert_eq|]. split; [done|]. intros i Hi. destruct (decide (i = numberOf x)) as [->|Hne].
  - exists x. split; [done|]. split; [done|]. rewrite lookup_insert_eq. split; [done|]. intros _. rewrite lookup_insert_ne by lia. replace (numberOf x - 1) with (numberOf y) by lia. by rewrite Ep.
  - destruct (H3 i ltac:(lia)) as (z & Hz & En' & E1 & E2). exists z. split; [done|]. split; [done|]. rewrite lookup_insert_ne by lia. split; [done|]. intros Hz'. rewrite lookup_insert_ne by lia. by apply E2.
Qed.

(** [WriteHeaders] *)

(** A chain of headers that can be attached: it is linked, and the number of its
    first header is right if its parent is known. *)
Definition attaches (db : chainDB) (headers : list Header) : Prop :=
  match headers with
  | [] => False
  | x :: r => hdr_ok x /\ 0 < numberOf x /\ linked x r /\ forall n y, dHeader db !! (n, Header.ParentHash x) = Some y -> n + 1 = numberOf x
  end.

Lemma WriteHeaders_ok headers hc : hc_ok hc -> attaches (chainDb hc) headers -> exists r hc', WriteHeaders false headers hc = (r, hc') /\
  match r with
  | inr e => e = ErrUnknownAncestor /\ same hc hc' /\ hc_ok hc'
  | inl n => 0 <= n /\ hc_ok hc' /\ grows (chainDb hc) (chainDb hc') /\ config hc' = config hc /\ genesisHeader hc' = genesisHeader hc /\ currentHeader hc' = currentHeader hc /\
      Forall (stored (chainDb hc')) headers /\ (exists y, stored (chainDb hc) y /\ linked y headers) /\
      forall n h v, dTd (chainDb hc') !! (n, h) = Some v -> dTd (chainDb hc) !! (n, h) = Some v \/ exists x, x ∈ headers /\ n = numberOf x /\ h = HashOf x
  end.
Proof.
  intros [Hd Hc Hcn Hh] Ha. unfold WriteHeaders. destruct headers as [|x r]; [done|]. destruct Ha as (Hx & Hnz & Hl & Hatt).
  destruct (GetTd_spec _ (Header.ParentHash x) (sub64 (numberOf x) 1) hc Hd Hc) as (ptd & hc1 & -> & (S1 & S2 & S3 & S4 & S5) & Hc1 & Hr). destruct ptd as [td|].
  - destruct Hr as (y & Hy & Ey & Ety). assert (linked y (x :: r)) as Hly.
    { split; [done|]. split; [done|]. split; [|done]. pose proof (Hatt (numberOf y) y) as H. rewrite <- Ey in H. specialize (H Hy). lia. }
    rewrite <- S2 in Hd, Hc1, Hy, Ety.
    destruct (write_loop_ok (genesisHeader hc) (x :: r) y td true [] 0 hc1) as (b & n & hc2 & E & (T1 & T2 & T3 & T4 & T5) & Hi & Hd' & Hg' & Hc' & Hall & Htd); [exact Hd|apply grows_refl|exact Hc1|exact Hy|exact Ety|exact Hly|].
    rewrite E. eexists _, _. split; [done|]. cbn [chainDb with_db config genesisHeader currentHeader]. rewrite T2. split; [done|]. cbn [batch_Write fold_left] in Hg', Htd. rewrite S2 in *.
    assert (same hc hc2) as (U1 & U2 & U3 & U4 & U5) by (repeat split; congruence).
    split; [|split; [done|]; split; [done|]; split; [done|]; split; [done|]; split; [done|]; split; [by exists y|done]].
    split; cbn [chainDb with_db genesisHeader currentHeader currentHeaderHash]; rewrite ?U3, ?U4, ?U5; [done|by destruct Hc'|by eapply canon_grows|done].
  - eexists _, _. split; [done|]. split; [done|]. split; [done|]. split; rewrite ?S2, ?S3, ?S4, ?S5; done.
Qed.

(** [ReorgNeeded] *)

Definition heavier (db : chainDB) (a b : Header) : Prop := exists x y, td_of db a = Some x /\ td_of db b = Some y /\ x <= y.

Lemma ReorgNeeded_ok preserve coin x hc : hc_ok hc -> stored (chainDb hc) x -> exists b hc', ReorgNeeded preserve coin (currentHeader hc) x hc = (inl b, hc') /\
  same hc hc' /\ hc_ok hc' /\
  (TerminalTotalDifficulty (config hc) = None -> if b then heavier (chainDb hc) (currentHeader hc) x else heavier (chainDb hc) x (currentHeader hc)).
Proof.
  intros [Hd Hc Hcn Hh] Hx. unfold ReorgNeeded. destruct (GetTd_stored _ (currentHeader hc) hc Hd Hc) as (t1 & hc1 & -> & E1 & (S1 & S2 & S3 & S4 & S5) & Hc1); [apply Hcn|].
  rewrite <- S2 in Hd, Hc1, Hx. destruct (GetTd_stored _ x hc1 Hd Hc1 Hx) as (t2 & hc2 & -> & E2 & (T1 & T2 & T3 & T4 & T5) & Hc2).
  assert (same hc hc2) as Hsame by (repeat split; congruence). destruct Hsame as (U1 & U2 & U3 & U4 & U5).
  assert (hc_ok hc2) as Hok2 by (split; [rewrite U2, U3, <- S2; exact Hd|rewrite U2, <- S2; exact Hc2|rewrite U2, U4; exact Hcn|rewrite U5, U4; exact Hh]). rewrite S2 in E2.
  destruct (match TerminalTotalDifficulty (config hc2) with Some ttd => ttd <=? t2 | None => false end) eqn:Ettd.
  { eexists _, _. split; [done|]. split; [by repeat split|]. split; [done|]. intros Hn. rewrite U1, Hn in Ettd. done. }
  eexists _, _. split; [done|]. split; [by repeat split|]. split; [done|]. intros _. rewrite Z.gtb_ltb. destruct (t1 <? t2) eqn:El; cbn [negb andb]; to_prop; [exists t1, t2; split; [done|]; split; [done|lia]|].
  destruct (t2 =? t1) eqn:Ee; to_prop; [|exists t2, t1; split; [done|]; split; [done|lia]].
  match goal with |- if ?b then _ else _ => destruct b end; [exists t1, t2|exists t2, t1]; (split; [done|]; split; [done|lia]).
Qed.

(** ** [Reorg] *)

(** Writes to the canonical numbers and the head marker. *)
Definition canon_write (w : write) : Prop :=
  match w with WriteCanonicalHash _ _ | DeleteCanonicalHash _ | WriteHeadHeaderHash _ => True | _ => False end.
Definition touches (P : Z -> Prop) (w : write) : Prop :=
  match w with WriteCanonicalHash _ n | DeleteCanonicalHash n => P n | _ => True end.
Definition canon_do (c : gmap Z Hash) (w : write) : gmap Z Hash :=
  match w with WriteCanonicalHash h n => <[n := h]> c | DeleteCanonicalHash n => delete n c | _ => c end.
Definition at_do (i : Z) (o : option Hash) (w : write) : option Hash :=
  match w with WriteCanonicalHash h n => if decide (n = i) then Some h else o | DeleteCanonicalHash n => if decide (n = i) then None else o | _ => o end.

Lemma canon_do_at ws i : forall c, fold_left canon_do ws c !! i = fold_left (at_do i) ws (c !! i).
Proof.
  induction ws as [|w ws IH]; intros c; [done|]. cbn [fold_left]. rewrite IH. f_equal. destruct w; cbn; try done; case_decide as E; subst; rewrite ?lookup_insert_eq, ?lookup_insert_ne, ?lookup_delete_eq, ?lookup_delete_ne by done; done.
Qed.

Lemma at_do_untouched (P : Z -> Prop) ws i o : Forall (touches P) ws -> ~ P i -> fold_left (at_do i) ws o = o.
Proof.
  intros Hw Hn. revert o. induction Hw as [|w ws Hw _ IH]; intros o; [done|]. cbn [fold_left]. rewrite IH. destruct w; cbn in *; try done; case_decide; subst; done.
Qed.

Lemma batch_canon ws : forall db, Forall canon_write ws -> let db' := batch_Write ws db in
  dHeader db' = dHeader db /\ dNumber db' = dNumber db /\ dTd db' = dTd db /\ dCanon db' = fold_left canon_do ws (dCanon db).
Proof.
  induction ws as [|w ws IH]; intros db Hw; [done|]. apply Forall_cons in Hw as [Hw Hws]. destruct (IH (do_write db w) Hws) as (E1 & E2 & E3 & E4). cbn [batch_Write fold_left] in *.
  unfold batch_Write in *. rewrite E1, E2, E3, E4. by destruct w.
Qed.

(** The tables that headers are in. *)
Definition same_tables (db db' : chainDB) : Prop := dHeader db' = dHeader db /\ dNumber db' = dNumber db /\ dTd db' = dTd db.
Lemma stored_tables db db' x : same_tables db db' -> stored db' x <-> stored db x.
Proof. intros (E & _). unfold stored. by rewrite E. Qed.
Lemma td_tables db db' x : same_tables db db' -> td_of db' x = td_of db x.
Proof. intros (_ & _ & E). unfold td_of. by rewrite E. Qed.
Lemma db_ok_tables g db db' : same_tables db db' -> db_ok g db -> db_ok g db'.
Proof.
  intros Ht [H1 H2 H3 H4 H5 H6]. pose proof Ht as (E1 & E2 & E3). split.
  - intros n h x. rewrite E1. apply H1.
  - intros h n. rewrite E1, E2. apply H2.
  - intros n h. rewrite E1, E3. apply H3.
  - by rewrite (stored_tables _ _ _ Ht).
  - intros x. rewrite (stored_tables _ _ _ Ht). apply H5.
  - intros x. rewrite (stored_tables _ _ _ Ht). intros Hx Hn. destruct (H6 x Hx Hn) as (y & ? & ? & ? & Hs). exists y. rewrite (stored_tables _ _ _ Ht). split; [done|]. split; [done|]. split; [done|].
    intros td. rewrite !(td_tables _ _ _ Ht). apply Hs.
Qed.
Lemma caches_tables db db' hc : same_tables db db' -> caches_ok db hc -> caches_ok db' hc.
Proof.
  intros Ht [H1 H2 H3]. split.
  - intros h x. rewrite (stored_tables _ _ _ Ht). apply H1.
  - intros h td E. destruct (H2 h td E) as (x & ? & ? & ?). exists x. by rewrite (stored_tables _ _ _ Ht), (td_tables _ _ _ Ht).
  - intros h n E. destruct Ht as (_ & -> & _). by apply H3.
Qed.
Lemma leads_tables db db' c x : same_tables db db' -> leads db c x -> leads db' c x.
Proof.
  intros Ht (H1 & H2 & H3). split; [done|]. split; [by rewrite (stored_tables _ _ _ Ht)|]. intros i Hi. destruct (H3 i Hi) as (y & ? & ? & ? & ?). exists y. by rewrite (stored_tables _ _ _ Ht).
Qed.

Lemma canon_none db cur i : canon_ok db cur -> (forall x, stored db x -> hdr_ok x) -> 0 <= i -> ReadCanonicalHash db i = 0 <-> numberOf cur < i.
Proof.
  intros [(_ & _ & H3) H4] Hst Hi. unfold ReadCanonicalHash. split.
  - intros E. destruct (Z.lt_ge_cases (numberOf cur) i) as [|Hle]; [done|]. destruct (H3 i ltac:(lia)) as (y & Hy & _ & E2 & _). rewrite E2 in E. cbn in E. by destruct (hk_hash y (Hst y Hy)).
  - intros Hlt. by rewrite H4 by lia.
Qed.

Lemma delete_above_ok db cur fuel : canon_ok db cur -> (forall x, stored db x -> hdr_ok x) -> forall i, 0 <= i -> numberOf cur + 1 - i < Z.of_nat fuel ->
  exists ws, delete_above fuel db i = Ok ws /\ Forall canon_write ws /\ Forall (touches (fun n => i <= n)) ws /\ forall j, i <= j -> fold_left (at_do j) ws (dCanon db !! j) = None.
Proof.
  intros Hc Hst. induction fuel as [|fuel IH]; intros i Hi Hf; cbn [delete_above]; destruct (ReadCanonicalHash db i =? 0) eqn:E; to_prop.
  1,3: apply (canon_none _ _ _ Hc Hst Hi) in E; exists []; split; [done|]; split; [constructor|]; split; [constructor|]; intros j Hj; cbn; apply (cn_above _ _ Hc); lia.
  - rewrite (canon_none _ _ _ Hc Hst Hi) in E. lia.
  - rewrite (canon_none _ _ _ Hc Hst Hi) in E. pose proof (numberOf_range cur (Hst _ (proj1 (proj2 (cn_leads _ _ Hc))))). rewrite add64_small by lia.
    destruct (IH (i + 1)) as (ws & -> & H1 & H2 & H3); [lia|lia|]. cbn [mbind res_bind]. eexists. split; [done|]. split; [by constructor|]. split.
    + constructor; [cbn; lia|]. eapply Forall_impl; [exact H2|]. intros w. destruct w; cbn; try done; lia.
    + intros j Hj. cbn [fold_left at_do]. case_decide as En; [subst j; rewrite (at_do_untouched (fun n => i + 1 <= n)) by (done || lia); done|]. apply H3. lia.
Qed.

Lemma overwrite_back_ok g cur fuel : forall x hc, db_ok g (chainDb hc) -> caches_ok (chainDb hc) hc -> canon_ok (chainDb hc) cur -> stored (chainDb hc) x -> numberOf x < Z.of_nat fuel ->
  exists ws hc', overwrite_back fuel x (numberOf x) (HashOf x) hc = Ok (ws, None, hc') /\ same hc hc' /\ caches_ok (chainDb hc) hc' /\ Forall canon_write ws /\
    Forall (touches (fun n => 0 <= n <= numberOf x)) ws /\ leads (chainDb hc) (fold_left canon_do ws (dCanon (chainDb hc))) x.
Proof.
  induction fuel as [|fuel IH]; intros x hc Hd Hc Hcn Hx Hf; pose proof (stored_ok _ _ _ Hd Hx) as Hxo; pose proof (numberOf_range x Hxo) as Hrx; [lia|]. cbn [overwrite_back].
  destruct (ReadCanonicalHash (chainDb hc) (numberOf x) =? HashOf x) eqn:E; to_prop.
  { exists [], hc. split; [done|]. split; [done|]. split; [done|]. split; [constructor|]. split; [constructor|]. cbn. unfold ReadCanonicalHash in E. destruct (dCanon (chainDb hc) !! numberOf x) as [h|] eqn:Eh; [|by destruct (hk_hash x Hxo)].
    cbn in E. destruct (canon_entry _ _ _ _ _ Hd Hcn Eh) as (_ & y & Hy & _ & -> & Hl). assert (y = x) as <- by (by eapply stored_eq). done. }
  destruct (numberOf x =? 0) eqn:Ez; to_prop.
  { exfalso. apply E. pose proof (do_zero _ _ Hd x Hx Ez) as ->. destruct (cn_leads _ _ Hcn) as (_ & Hcur & H3). pose proof (numberOf_range cur (stored_ok _ _ _ Hd Hcur)).
    destruct (H3 0 ltac:(lia)) as (y & Hy & Ey & E2 & _). pose proof (do_zero _ _ Hd y Hy Ey) as ->. unfold ReadCanonicalHash. by rewrite Ez, E2. }
  destruct (do_parent _ _ Hd x Hx Ez) as (y & Hy & Ey & En & _). rewrite <- Ey. rewrite sub64_small by lia. rewrite <- En.
  destruct (GetHeader_stored g y hc Hd Hc Hy) as (hc1 & -> & (S1 & S2 & S3 & S4 & S5) & Hc1).
  destruct (IH y hc1) as (ws & hc' & E' & (T1 & T2 & T3 & T4 & T5) & Hc' & Hw & Ht & Hl); rewrite ?S2; [done|done|done|done|lia|]. rewrite E'. cbn [mbind res_bind]. rewrite S2 in *.
  eexists _, _. split; [done|]. split; [repeat split; congruence|]. split; [done|]. split; [by constructor|]. split.
  { constructor; [cbn; lia|]. eapply Forall_impl; [exact Ht|]. intros w. destruct w; cbn; try done; lia. }
  cbn [fold_left canon_do]. eapply leads_ext; [|done|eapply leads_child; [exact Hl| |done]; split; [done|]; split; [done|]; split; [done|lia]].
  intros i Hi. rewrite canon_do_at. destruct (decide (i = numberOf x)) as [->|Hne].
  - rewrite !lookup_insert_eq. eapply at_do_untouched; [exact Ht|]. cbn. lia.
  - rewrite !lookup_insert_ne by done. by rewrite canon_do_at.
Qed.

Definition last_of (y : Header) (headers : list Header) : Header := default y (last headers).

Lemma extend_ok db headers : forall y c, leads db c y -> linked y headers -> Forall (stored db) headers ->
  Forall canon_write (extend headers) /\ Forall (touches (fun n => numberOf y < n <= numberOf (last_of y headers))) (extend headers) /\
  leads db (fold_left canon_do (extend headers) c) (last_of y headers) /\ numberOf y <= numberOf (last_of y headers).
Proof.
  induction headers as [|x headers IH]; intros y c Hl Hk Hs; cbn [extend].
  { split; [constructor|]. split; [constructor|]. split; [exact Hl|]. cbn. lia. }
  destruct Hk as (Hx & Ep & En & Hk). apply Forall_cons in Hs as [Hsx Hs]. rewrite (hash_in_linked _ _ Hk).
  destruct (IH x (<[numberOf x := HashOf x]> c)) as (H1 & H2 & H3 & H4); [|done|done|].
  { eapply leads_child; [exact Hl| |done]. split; [apply Hl|done]. }
  assert (last_of y (x :: headers) = last_of x headers) as -> by (unfold last_of; rewrite last_cons; by destruct (last headers)).
  split; [by repeat constructor|]. split; [|split; [exact H3|lia]]. constructor; [cbn; lia|]. constructor; [done|]. eapply Forall_impl; [exact H2|]. intros w. destruct w; cbn; try done; lia.
Qed.

Lemma leads_parent g db c y x : db_ok g db -> child db y x -> leads db c x -> leads db c y.
Proof.
  intros Hd (Hy & Hx & Ep & En) (H1 & H2 & H3). pose proof (numberOf_range y (stored_ok _ _ _ Hd Hy)). destruct (H3 (numberOf x) ltac:(lia)) as (z & Hz & _ & E1 & E2).
  assert (z = x) as -> by (eapply stored_eq; [done|done|done|congruence]). split; [replace (numberOf y) with (numberOf x - 1) by lia; rewrite E2 by lia; by rewrite Ep|]. split; [done|]. intros i Hi. apply H3. lia.
Qed.

(** The batch of a reorganisation, from the canonical numbers [c0] to those of the
    new head. *)
Lemma finish_reorg hc ws y headers : hc_ok hc -> stored (chainDb hc) y -> linked y headers -> Forall (stored (chainDb hc)) headers -> headers <> [] ->
  Forall canon_write ws -> leads (chainDb hc) (fold_left canon_do ws (dCanon (chainDb hc))) y ->
  (forall i, i < 0 \/ numberOf (last_of y headers) < i -> fold_left (at_do i) ws (dCanon (chainDb hc) !! i) = None) ->
  let hc' := with_current (last_of y headers) (HashOf (last_of y headers)) (with_db (batch_Write (ws ++ extend headers) (chainDb hc)) hc) in
  hc_ok hc' /\ same_tables (chainDb hc) (chainDb hc').
Proof.
  intros [Hd Hc Hcn Hh] Hy Hl Hs Hne Hw Hlead Habove. destruct (extend_ok (chainDb hc) headers y _ Hlead Hl Hs) as (H1 & H2 & H3 & H4). cbn zeta. cbn [chainDb with_current with_db].
  destruct (batch_canon (ws ++ extend headers) (chainDb hc)) as (E1 & E2 & E3 & E4); [by apply Forall_app|]. cbn zeta in *. set (db' := batch_Write _ _) in *.
  assert (same_tables (chainDb hc) db') as Ht by done. split; [|done]. pose proof (numberOf_range y (stored_ok _ _ _ Hd Hy)). rewrite fold_left_app in E4. split; cbn [chainDb genesisHeader currentHeader currentHeaderHash with_current with_db].
  - by eapply db_ok_tables.
  - destruct (caches_tables _ _ _ Ht Hc). by split.
  - split; [rewrite E4; by eapply leads_tables|]. intros i Hi. rewrite E4, canon_do_at, canon_do_at. rewrite Habove by done. eapply at_do_untouched; [exact H2|]. cbn. lia.
  - done.
Qed.

Lemma Reorg_ok hc y headers : hc_ok hc -> stored (chainDb hc) y -> linked y headers -> Forall (stored (chainDb hc)) headers -> headers <> [] ->
  exists hc', Reorg headers hc = Ok (None, hc') /\ hc_ok hc' /\ same_tables (chainDb hc) (chainDb hc') /\ config hc' = config hc /\ genesisHeader hc' = genesisHeader hc /\
    currentHeader hc' = last_of y headers.
Proof.
  intros Hok Hy Hl Hs Hne. pose proof Hok as [Hd Hc Hcn Hh]. unfold Reorg. destruct headers as [|x r] eqn:Eh; [done|]. rewrite <- Eh in *. clear Hne. assert (headers <> []) as Hne by (by rewrite Eh).
  assert (last headers = Some (last_of y headers)) as El by (unfold last_of; destruct (last headers) eqn:E; [done|]; by apply last_None in E). rewrite El.
  assert (child (chainDb hc) y x /\ stored (chainDb hc) x) as [Hch Hsx].
  { rewrite Eh in Hl, Hs. destruct Hl as (? & ? & ? & _). apply Forall_cons in Hs as [? _]. by split. }
  pose proof Hch as (_ & Hx & Ep & En). pose proof (numberOf_range y (stored_ok _ _ _ Hd Hy)) as Hry. pose proof (numberOf_range x Hx) as Hrx.
  assert (stored (chainDb hc) (last_of y headers)) as Hsl by (rewrite Forall_forall in Hs; apply Hs; by apply last_Some_elem_of). pose proof (numberOf_range _ (stored_ok _ _ _ Hd Hsl)) as Hrl.
  assert (numberOf x <= numberOf (last_of y headers)) as Hxl.
  { destruct Hcn as [Hle _]. rewrite Eh in Hl, Hs. destruct Hl as (_ & _ & _ & Hl). apply Forall_cons in Hs as [_ Hs].
    assert (forall r z, linked z r -> Forall hdr_ok r -> numberOf z <= numberOf (last_of z r)) as Hmono.
    { clear. induction r as [|w r IH]; intros z Hl Hr; [cbn; lia|]. destruct Hl as (_ & _ & En & Hl). apply Forall_cons in Hr as [_ Hr]. specialize (IH w Hl Hr).
      assert (last_of z (w :: r) = last_of w r) as -> by (unfold last_of; rewrite last_cons; by destruct (last r)). lia. }
    assert (last_of y headers = last_of x r) as -> by (rewrite Eh; unfold last_of; rewrite last_cons; by destruct (last r)). apply Hmono; [done|].
    eapply Forall_impl; [exact Hs|]. intros z Hz. by eapply stored_ok. }
  destruct (Header.ParentHash x =? currentHeaderHash hc) eqn:Epar; cbn [negb]; to_prop.
  - cbn [mbind res_bind]. assert (y = currentHeader hc) as Ey by (eapply stored_eq; [done|done|apply Hcn|congruence]).
    destruct (finish_reorg hc [] y headers Hok Hy Hl Hs Hne) as (Hok' & Ht).
    + constructor.
    + cbn. rewrite Ey. apply Hcn.
    + cbn. intros i Hi. apply (cn_above _ _ Hcn). rewrite <- Ey. lia.
    + eexists. split; [done|]. split; [exact Hok'|]. split; [exact Ht|]. done.
  - destruct (delete_above_ok (chainDb hc) (currentHeader hc) (S (Z.to_nat (numberOf (currentHeader hc)))) Hcn) with (i := add64 (numberOf (last_of y headers)) 1) as (ws & -> & W1 & W2 & W3).
    { intros z Hz. by eapply stored_ok. } { rewrite add64_small by lia. lia. } { rewrite add64_small by lia. pose proof (numberOf_range (currentHeader hc)). lia. }
    rewrite add64_small in * by lia. cbn [mbind res_bind].
    destruct (overwrite_back_ok (genesisHeader hc) (currentHeader hc) (S (Z.to_nat (numberOf x))) x hc Hd Hc Hcn Hsx ltac:(lia)) as (bs & hc1 & -> & (S1 & S2 & S3 & S4 & S5) & Hc1 & B1 & B2 & B3). cbn [mbind res_bind].
    assert (hc_ok hc1) as Hok1 by (split; rewrite ?S2, ?S3, ?S4, ?S5; done).
    assert (forall i, i <= numberOf (last_of y headers) -> fold_left canon_do (ws ++ bs) (dCanon (chainDb hc)) !! i = fold_left canon_do bs (dCanon (chainDb hc)) !! i) as Hsame.
    { intros i Hi. rewrite fold_left_app, !canon_do_at. rewrite (at_do_untouched _ _ _ _ W2) by lia. done. }
    destruct (finish_reorg hc1 (ws ++ bs) y headers Hok1) as (Hok' & Ht); rewrite ?S2 in *; [done|done|done|done|by apply Forall_app| | |].
    + apply (leads_parent (genesisHeader hc) _ _ y x); [done|done|]. eapply leads_ext; [|done|exact B3]. intros i Hi. apply Hsame. lia.
    + intros i Hi. rewrite fold_left_app, (at_do_untouched _ bs i _ B2) by (cbn; lia). destruct Hi as [Hi|Hi]; [|apply W3; lia].
      rewrite (at_do_untouched _ _ _ _ W2) by (cbn; lia). apply (cn_above _ _ Hcn). by left.
    + eexists. split; [done|]. split; [exact Hok'|]. split; [exact Ht|]. done.
Qed.

(** ** [InsertHeaderChain] *)

(** No stored header has a higher total difficulty than the head. *)
Definition heaviest (hc : HeaderChain) : Prop :=
  forall n h v, dTd (chainDb hc) !! (n, h) = Some v -> exists t, td_of (chainDb hc) (currentHeader hc) = Some t /\ v <= t.

Lemma td_rises g db headers : db_ok g db -> forall y, stored db y -> linked y headers -> Forall (stored db) headers -> forall x, x ∈ y :: headers -> heavier db x (last_of y headers).
Proof.
  intros Hd. induction headers as [|z headers IH]; intros y Hy Hl Hs x Hx.
  - apply list_elem_of_singleton in Hx as ->. destruct (stored_td _ _ _ Hd Hy) as [t E]. exists t, t. cbn. split; [done|]. split; [done|lia].
  - destruct Hl as (Hz & Ep & En & Hl). apply Forall_cons in Hs as [Hsz Hs]. assert (last_of y (z :: headers) = last_of z headers) as -> by (unfold last_of; rewrite last_cons; by destruct (last headers)).
    apply elem_of_cons in Hx as [->|Hx]; [|by apply IH]. destruct (IH z Hsz Hl Hs z ltac:(by left)) as (t1 & t2 & E1 & E2 & Hle). destruct (stored_td _ _ _ Hd Hy) as [t E].
    assert (child db y z) as Hch by done. pose proof (child_td _ _ _ _ _ Hd Hch Hsz E) as E3. destruct (ho_ints _ (hk_ok _ Hz)) as [? _]. exists t, t2. split; [done|]. split; [done|]. rewrite E3 in E1. injection E1 as <-. lia.
Qed.

(** The head after new headers: the total difficulties are those of before or of
    the new headers, which do not exceed that of the last one. *)
Lemma heaviest_after g hc hc1 y headers : db_ok g (chainDb hc1) -> grows (chainDb hc) (chainDb hc1) -> stored (chainDb hc1) y -> linked y headers -> Forall (stored (chainDb hc1)) headers ->
  (forall n h v, dTd (chainDb hc1) !! (n, h) = Some v -> dTd (chainDb hc) !! (n, h) = Some v \/ exists x, x ∈ headers /\ n = numberOf x /\ h = HashOf x) ->
  heaviest hc -> forall head, heavier (chainDb hc1) (last_of y headers) head -> heavier (chainDb hc1) (currentHeader hc) head ->
  forall n h v, dTd (chainDb hc1) !! (n, h) = Some v -> exists t, td_of (chainDb hc1) head = Some t /\ v <= t.
Proof.
  intros Hd Hg Hy Hl Hs Htd Hh head (a & t & Ea & Et & Hat) (b & t' & Eb & Et' & Hbt) n h v E. assert (t' = t) as -> by congruence. exists t. split; [done|]. destruct (Htd n h v E) as [E0|(x & Hx & -> & ->)].
  - destruct (Hh n h v E0) as (u & Eu & Hvu). pose proof (grows_td _ _ _ _ Hg Eu). assert (u = b) as -> by congruence. lia.
  - destruct (td_rises _ _ _ Hd y Hy Hl Hs x ltac:(by right)) as (c & d & Ec & Ed & Hcd). unfold td_of in Ec at 1. assert (c = v) as -> by congruence. assert (d = a) as -> by congruence. lia.
Qed.

Lemma InsertHeaderChain_ok preserve coin headers hc : hc_ok hc -> attaches (chainDb hc) headers -> exists r hc', InsertHeaderChain false false preserve coin headers hc = Ok (r, hc') /\ hc_ok hc' /\
  config hc' = config hc /\ genesisHeader hc' = genesisHeader hc /\
  match r with
  | inr e => e = ErrUnknownAncestor /\ chainDb hc' = chainDb hc /\ currentHeader hc' = currentHeader hc
  | inl st => Forall (stored (chainDb hc')) headers /\ dHeader (chainDb hc) ⊆ dHeader (chainDb hc') /\
      (if decide (st = CanonStatTy) then last headers = Some (currentHeader hc') else currentHeader hc' = currentHeader hc)
  end /\
  (TerminalTotalDifficulty (config hc) = None -> heaviest hc -> heaviest hc').
Proof.
  intros Hok Ha. unfold InsertHeaderChain, writeHeadersAndSetHead. destruct (WriteHeaders_ok headers hc Hok Ha) as (r & hc1 & -> & Hr). destruct r as [n|e].
  2:{ destruct Hr as (-> & (S1 & S2 & S3 & S4 & S5) & Hok1). cbn [mbind res_bind]. eexists _, _. split; [done|]. split; [done|]. split; [done|]. split; [done|]. split; [done|].
      intros _ Hh n h v. rewrite S2, S4. apply Hh. }
  destruct Hr as (Hn & Hok1 & Hg & C1 & G1 & Cur1 & Hs & (y & Hy & Hl) & Htd). assert (headers <> []) as Hne by (intros ->; done).
  assert (last headers = Some (last_of y headers)) as El by (unfold last_of; destruct (last headers) eqn:E; [done|]; by apply last_None in E). rewrite El. cbn [or_panic mbind res_bind].
  assert (stored (chainDb hc1) y) as Hy1 by (by eapply grows_stored). assert (stored (chainDb hc1) (last_of y headers)) as Hsl by (rewrite Forall_forall in Hs; apply Hs; by apply last_Some_elem_of).
  destruct (ReorgNeeded_ok preserve coin (last_of y headers) hc1 Hok1 Hsl) as (b & hc2 & -> & (S1 & S2 & S3 & S4 & S5) & Hok2 & Hheavy). rewrite Cur1 in Hheavy.
  assert (forall head, heaviest hc -> heavier (chainDb hc1) (last_of y headers) head -> heavier (chainDb hc1) (currentHeader hc) head -> forall n h v, dTd (chainDb hc1) !! (n, h) = Some v ->
    exists t, td_of (chainDb hc1) head = Some t /\ v <= t) as Hafter.
  { intros head Hh. by eapply (heaviest_after (genesisHeader hc1)); [apply Hok1|..]. }
  assert (forall x, stored (chainDb hc1) x -> heavier (chainDb hc1) x x) as Hrefl.
  { intros x Hx. destruct (stored_td _ _ _ (ok_db _ Hok1) Hx) as [t E]. exists t, t. split; [done|]. split; [done|lia]. }
  assert (stored (chainDb hc1) (currentHeader hc)) as Hcur by (rewrite <- Cur1; apply (ok_canon _ Hok1)).
  destruct b.
  - destruct (_ && _) eqn:Espec.
    + cbn [mbind res_bind]. eexists _, _. split; [done|]. split; [done|]. split; [congruence|]. split; [congruence|]. cbn [status]. rewrite decide_False by done. rewrite S2, S4. split; [split; [done|]; split; [apply Hg|done]|].
      intros Httd Hh n' h v. rewrite S2, S4, Cur1. apply Hafter; [done| |by apply Hrefl]. apply andb_true_iff in Espec as [E _]. apply Z.eqb_eq in E. unfold GetCanonicalHash, ReadCanonicalHash in E. rewrite S2, (gr_canon _ _ Hg) in E.
      pose proof (hk_hash _ (stored_ok _ _ _ (ok_db _ Hok1) Hsl)) as Hnz. destruct (dCanon (chainDb hc) !! numberOf (last_of y headers)) as [hh|] eqn:Ec; cbn in E; [|congruence]. subst hh.
      destruct (canon_entry _ _ _ _ _ (ok_db _ Hok) (ok_canon _ Hok) Ec) as (_ & z & Hz & Enz & Ehz & _). destruct (stored_td _ _ _ (ok_db _ Hok) Hz) as [tz Ez].
      destruct (Hh _ _ _ Ez) as (t & Et & Hle). pose proof (grows_td _ _ _ _ Hg Et) as Et1. exists tz, t. split; [|done]. pose proof (grows_td _ _ _ _ Hg Ez) as Ez1. unfold td_of in Ez1 |- *. by rewrite Enz, <- Ehz in Ez1.
    + destruct (Reorg_ok hc2 y headers Hok2) as (hc3 & -> & Hok3 & Ht & C3 & G3 & Cur3); rewrite ?S2; [done|done|done|done|]. cbn [mbind res_bind]. eexists _, _. split; [done|]. split; [done|]. split; [congruence|]. split; [congruence|].
      cbn [status with_status]. rewrite decide_True by done. rewrite S2 in Ht. split; [split; [eapply Forall_impl; [exact Hs|]; intros x Hx; by rewrite (stored_tables _ _ _ Ht)|]; split; [destruct Ht as (-> & _); apply Hg|by rewrite Cur3]|].
      intros Httd Hh n' h v. pose proof Ht as (_ & _ & ->). rewrite Cur3, (td_tables _ _ _ Ht). apply Hafter; [done|by apply Hrefl|]. apply Hheavy. congruence.
  - cbn [mbind res_bind]. eexists _, _. split; [done|]. split; [done|]. split; [congruence|]. split; [congruence|]. split.
    + assert (forall s, (s = NonStatTy \/ s = SideStatTy) -> Forall (stored (chainDb hc2)) headers /\ dHeader (chainDb hc) ⊆ dHeader (chainDb hc2) /\
        (if decide (s = CanonStatTy) then Some (last_of y headers) = Some (currentHeader hc2) else currentHeader hc2 = currentHeader hc)) as Hst.
      { intros s Hs'. rewrite S2, S4. split; [done|]. split; [apply Hg|]. rewrite decide_False by (destruct Hs'; congruence). done. }
      destruct (negb _); apply Hst; auto.
    + intros Httd Hh n' h v. rewrite S2, S4, Cur1. apply Hafter; [done| |by apply Hrefl]. apply Hheavy. congruence.
Qed.
End spec.
End HeaderChainSpec.
