(* ===== verification/HeaderChainTheorems.v ===== *)
(** * The header chain is a linked chain with the heaviest head

    [SetHead], [GetAncestor], and the theorems about every header chain that
    insertions and rewinds lead to. *)

From S2P Require Import Prelude Config Common Rlp EvmState EvmSpec Instances Header HeaderChain HeaderChainSpec.

Local Open Scope Z_scope.

Module HeaderChainTheorems.

Import HeaderChain HeaderChainSpec.

Section spec.
Context `{C : Crypto} `{CS : !CryptoSpec C} `{L : LRU} `{LS : !LRUSpec L}.

(** ** [GetAncestor] *)

(** The [k]-th ancestor, one parent at a time. *)
Fixpoint ancestor (db : chainDB) (k : nat) (x : Header) : option Header :=
  match k with
  | O => Some x
  | S k => match dHeader db !! (numberOf x - 1, Header.ParentHash x) with Some y => ancestor db k y | None => None end
  end.

Lemma parent_stored g db x : db_ok g db -> stored db x -> 0 < numberOf x -> exists y, dHeader db !! (numberOf x - 1, Header.ParentHash x) = Some y /\ child db y x.
Proof.
  intros Hd Hx Hn. destruct (do_parent _ _ Hd x Hx ltac:(lia)) as (y & Hy & Ey & En & _). exists y. split; [by rewrite <- En, <- Ey|]. split; [done|]. split; [by eapply stored_ok|]. split; [done|lia].
Qed.

Lemma ancestor_stored g db k : db_ok g db -> forall x, stored db x -> Z.of_nat k <= numberOf x -> exists a, ancestor db k x = Some a /\ stored db a /\ numberOf a = numberOf x - Z.of_nat k /\
  forall c, leads db c x -> leads db c a.
Proof.
  intros Hd. induction k as [|k IH]; intros x Hx Hk; cbn [ancestor]; [exists x; split; [done|]; split; [done|]; split; [lia|done]|].
  destruct (parent_stored _ _ _ Hd Hx ltac:(lia)) as (y & -> & Hch). pose proof Hch as (Hy & _ & _ & En). destruct (IH y Hy ltac:(lia)) as (a & E & Ha & Ea & Hl). exists a. split; [done|]. split; [done|]. split; [lia|].
  intros c Hc. apply Hl. by eapply leads_parent.
Qed.

Lemma ancestor_loop_ok fuel : forall x k m hc, hc_ok hc -> stored (chainDb hc) x -> 0 <= k <= numberOf x -> k <= Z.of_nat fuel -> is_u64 m ->
  exists h n m' hc' a, ancestor_loop fuel (HashOf x) (numberOf x) k m hc = Ok (h, n, m', hc') /\ hc_ok hc' /\ same hc hc' /\ ancestor (chainDb hc) (Z.to_nat k) x = Some a /\
    ((h = HashOf a /\ n = numberOf a) \/ (h = 0 /\ n = 0 /\ m < k)).
Proof.
  induction fuel as [|fuel IH]; intros x k m hc Hok Hx Hk Hf Hm; pose proof Hok as [Hd Hc Hcn Hh]; pose proof (numberOf_range x (stored_ok _ _ _ Hd Hx)) as Hrx; cbn [ancestor_loop]; unfold is_u64 in Hm;
    (destruct (k =? 0) eqn:Ek; to_prop; [subst k; eexists _, _, _, _, x; split; [done|]; split; [done|]; split; [done|]; split; [done|]; by left|]); [lia|].
  destruct (ancestor_stored _ _ (Z.to_nat k) Hd x Hx ltac:(lia)) as (a & Ea & Ha & Ena & Hlead).
  destruct (ReadCanonicalHash (chainDb hc) (numberOf x) =? HashOf x) eqn:E; to_prop.
  { unfold ReadCanonicalHash in E. destruct (dCanon (chainDb hc) !! numberOf x) as [hh|] eqn:Eh; [|by destruct (hk_hash x (stored_ok _ _ _ Hd Hx))]. cbn in E. subst hh.
    destruct (canon_entry _ _ _ _ _ Hd Hcn Eh) as (_ & z & Hz & _ & Ez & Hlz). assert (z = x) as -> by (by eapply stored_eq). destruct (Hlead _ Hlz) as (Hca & _).
    rewrite sub64_small by lia. eexists _, _, _, _, a. split; [done|]. split; [done|]. split; [done|]. split; [done|]. left. unfold ReadCanonicalHash. replace (numberOf x - k) with (numberOf a) by lia. by rewrite Hca. }
  destruct (m =? 0) eqn:Em; to_prop; [eexists _, _, _, _, a; split; [done|]; split; [done|]; split; [done|]; split; [done|]; right; lia|].
  destruct (GetHeader_stored _ x hc Hd Hc Hx) as (hc1 & -> & (S1 & S2 & S3 & S4 & S5) & Hc1). assert (hc_ok hc1) as Hok1 by (split; rewrite ?S2, ?S3, ?S4, ?S5; done).
  destruct (parent_stored _ _ _ Hd Hx ltac:(lia)) as (y & Ey & Hy & _ & Ep & En). rewrite Ep, !sub64_small by lia. replace (numberOf x - 1) with (numberOf y) in * by lia.
  destruct (IH y (k - 1) (m - 1) hc1) as (h & n & m' & hc' & a' & E' & Hok' & (T1 & T2 & T3 & T4 & T5) & Ea' & Hr); [done|by rewrite S2|lia|lia|unfold is_u64; lia|].
  rewrite E'. replace (Z.to_nat k) with (S (Z.to_nat (k - 1))) in Ea by lia. cbn [ancestor] in Ea. replace (numberOf x - 1) with (numberOf y) in Ea by lia. rewrite Ey in Ea. rewrite S2 in Ea'. assert (a' = a) as -> by congruence.
  exists h, n, m', hc', a. split; [done|]. split; [done|]. split; [repeat split; congruence|]. split.
  - replace (Z.to_nat k) with (S (Z.to_nat (k - 1))) by lia. cbn [ancestor]. replace (numberOf x - 1) with (numberOf y) by lia. by rewrite Ey.
  - destruct Hr as [|(-> & -> & ?)]; [by left|]. right. lia.
Qed.

Lemma GetAncestor_ok x k m hc : hc_ok hc -> stored (chainDb hc) x -> is_u64 k -> is_u64 m ->
  exists h n m' hc', GetAncestor (HashOf x) (numberOf x) k m hc = Ok (h, n, m', hc') /\ hc_ok hc' /\
    if numberOf x <? k then h = 0 /\ n = 0
    else exists a, ancestor (chainDb hc) (Z.to_nat k) x = Some a /\ ((h = HashOf a /\ n = numberOf a) \/ (h = 0 /\ n = 0 /\ m < k)).
Proof.
  intros Hok Hx Hk Hm. pose proof Hok as [Hd Hc Hcn Hh]. unfold GetAncestor. rewrite Z.gtb_ltb. unfold is_u64 in Hk. destruct (numberOf x <? k) eqn:E; to_prop; [by eexists _, _, _, _|].
  destruct (k =? 1) eqn:E1; to_prop.
  - subst k. destruct (GetHeader_stored _ x hc Hd Hc Hx) as (hc1 & -> & (S1 & S2 & S3 & S4 & S5) & Hc1). pose proof (numberOf_range x (stored_ok _ _ _ Hd Hx)). rewrite sub64_small by lia.
    destruct (parent_stored _ _ _ Hd Hx ltac:(lia)) as (y & Ey & Hy & _ & Ep & En). eexists _, _, _, _. split; [done|]. split; [split; rewrite ?S2, ?S3, ?S4, ?S5; done|]. exists y. cbn [Z.to_nat Pos.to_nat Pos.iter_op ancestor].
    change (Z.to_nat 1) with 1%nat. cbn [ancestor]. rewrite Ey. split; [done|]. left. split; [done|lia].
  - destruct (ancestor_loop_ok (Z.to_nat k) x k m hc Hok Hx ltac:(lia) ltac:(lia) Hm) as (h & n & m' & hc' & a & -> & Hok' & _ & Ea & Hr). exists h, n, m', hc'. split; [done|]. split; [done|]. by exists a.
Qed.

(** ** [SetHead] *)

Lemma elem_hashes db n h : h ∈ ReadAllHashes db n <-> is_Some (dHeader db !! (n, h)).
Proof.
  unfold ReadAllHashes. rewrite list_elem_of_fmap. split.
  - intros ([k h'] & -> & ([k' x] & -> & [E Hin]%list_elem_of_filter)%list_elem_of_fmap). apply elem_of_map_to_list in Hin. cbn in *. destruct k' as [a b]. cbn in *. subst. by eexists.
  - intros [x E]. exists (n, h). split; [done|]. apply list_elem_of_fmap. exists ((n, h), x). split; [done|]. apply list_elem_of_filter. split; [done|]. by apply elem_of_map_to_list.
Qed.

Lemma no_hashes db n : ReadAllHashes db n = [] <-> forall h, dHeader db !! (n, h) = None.
Proof.
  split.
  - intros E h. apply eq_None_not_Some. rewrite <- elem_hashes, E. by intros ?%elem_of_nil.
  - intros H. destruct (ReadAllHashes db n) as [|h l] eqn:E; [done|]. assert (h ∈ ReadAllHashes db n) as Hin by (rewrite E; by left). rewrite elem_hashes, H in Hin. by destruct Hin.
Qed.

Lemma max_level_ge db n h x : dHeader db !! (n, h) = Some x -> n <= max_level db.
Proof.
  intros E. unfold max_level. revert E. induction (dHeader db) as [|[k h'] y m Hk IH] using map_ind; [by rewrite lookup_empty|].
  rewrite map_fold_insert_L; [|intros [? ?] [? ?]; intros; cbn; lia|done]. intros [[[= -> ->] _]|[_ E]]%lookup_insert_Some; cbn; [lia|]. specialize (IH E). lia.
Qed.

(** Headers have ancestors at every number below. *)
Lemma levels_contiguous g db n x : db_ok g db -> stored db x -> 0 <= n <= numberOf x -> exists y, stored db y /\ numberOf y = n.
Proof.
  intros Hd Hx Hn. destruct (ancestor_stored _ _ (Z.to_nat (numberOf x - n)) Hd x Hx ltac:(lia)) as (a & _ & Ha & En & _). exists a. split; [done|lia].
Qed.

Lemma levels_above_ok g db fuel : db_ok g db -> forall n, 0 <= n -> max_level db - n + 1 < Z.of_nat fuel \/ max_level db < n ->
  exists l, levels_above fuel db n = Ok l /\ forall k, k ∈ l <-> n <= k /\ ReadAllHashes db k <> [].
Proof.
  intros Hd. assert (forall k h x, dHeader db !! (k, h) = Some x -> 0 <= k < 2 ^ 64 - 1) as Hkey.
  { intros k h x E. destruct (key_stored _ _ _ _ _ Hd E) as (Hx & <- & _). by apply numberOf_range, (stored_ok _ _ _ Hd). }
  assert (forall n, 0 <= n -> ReadAllHashes db n = [] -> forall k, n <= k -> ReadAllHashes db k = []) as Hup.
  { intros n Hn0 E k Hk. apply no_hashes. intros h. apply eq_None_not_Some. intros [x Ex]. destruct (key_stored _ _ _ _ _ Hd Ex) as (Hx & En & _).
    destruct (levels_contiguous _ _ n x Hd Hx) as (y & Hy & Eny); [lia|]. rewrite no_hashes in E. unfold stored in Hy. rewrite Eny, E in Hy. done. }
  induction fuel as [|fuel IH]; intros n Hn Hf; cbn [levels_above]; case_bool_decide as E.
  1,3: exists []; split; [done|]; intros k; rewrite elem_of_nil; split; [done|]; intros [Hk Hne]; destruct Hne; by eapply Hup.
  - destruct (ReadAllHashes db n) as [|h l] eqn:El; [done|]. assert (h ∈ ReadAllHashes db n) as [x Ex]%elem_hashes by (rewrite El; by left). pose proof (max_level_ge _ _ _ _ Ex). lia.
  - assert (exists h x, dHeader db !! (n, h) = Some x) as (h & x & Ex).
    { destruct (ReadAllHashes db n) as [|h l] eqn:El; [done|]. assert (h ∈ ReadAllHashes db n) as [x Ex]%elem_hashes by (rewrite El; by left). eauto. }
    pose proof (Hkey _ _ _ Ex). pose proof (max_level_ge _ _ _ _ Ex). rewrite add64_small by lia. destruct (IH (n + 1)) as (l & -> & Hl); [lia|lia|]. cbn [mbind res_bind]. eexists. split; [done|].
    intros k. rewrite elem_of_app, list_elem_of_singleton, Hl. split; [intros [[? ?]| ->]; [split; [lia|done]|done]|]. intros [? ?]. destruct (decide (k = n)); [by right|]. left. split; [lia|done].
Qed.

(** The deletions of whole levels. *)
Definition wipe (db : chainDB) (num : Z) : list write := concat (map (fun h => [DeleteHeader h num; DeleteTd h num]) (ReadAllHashes db num)) ++ [DeleteCanonicalHash num].

Lemma delete_level_wipe db hdr num : ReadAllHashes db num <> [] -> delete_level db hdr num = wipe db num.
Proof. intros H. unfold delete_level. by rewrite decide_False. Qed.

Definition deletion (w : write) : Prop := match w with DeleteHeader _ _ | DeleteTd _ _ | DeleteCanonicalHash _ => True | _ => False end.

Lemma del_step w r db : batch_Write (w :: r) db = batch_Write r (do_write db w).
Proof. done. Qed.

Lemma del_header n h x ws : Forall deletion ws -> forall db, dHeader (batch_Write ws db) !! (n, h) = Some x <-> dHeader db !! (n, h) = Some x /\ DeleteHeader h n ∉ ws.
Proof.
  induction 1 as [|w r Hd _ IH]; intros db; [rewrite elem_of_nil; cbn; tauto|]. rewrite del_step, IH, not_elem_of_cons.
  destruct w; try done; cbn [do_write del_CanonicalHash del_Td del_Header with_canon with_td with_headers dHeader]; rewrite ?lookup_delete_Some; split; intuition congruence.
Qed.
Lemma del_td n h x ws : Forall deletion ws -> forall db, dTd (batch_Write ws db) !! (n, h) = Some x <-> dTd db !! (n, h) = Some x /\ DeleteTd h n ∉ ws.
Proof.
  induction 1 as [|w r Hd _ IH]; intros db; [rewrite elem_of_nil; cbn; tauto|]. rewrite del_step, IH, not_elem_of_cons.
  destruct w; try done; cbn [do_write del_CanonicalHash del_Td del_Header with_canon with_td with_headers dTd]; rewrite ?lookup_delete_Some; split; intuition congruence.
Qed.
Lemma del_canon n h ws : Forall deletion ws -> forall db, dCanon (batch_Write ws db) !! n = Some h <-> dCanon db !! n = Some h /\ DeleteCanonicalHash n ∉ ws.
Proof.
  induction 1 as [|w r Hd _ IH]; intros db; [rewrite elem_of_nil; cbn; tauto|]. rewrite del_step, IH, not_elem_of_cons.
  destruct w; try done; cbn [do_write del_CanonicalHash del_Td del_Header with_canon with_td with_headers dCanon]; rewrite ?lookup_delete_Some; split; intuition congruence.
Qed.
Lemma del_number n h ws : Forall deletion ws -> forall db, dNumber (batch_Write ws db) !! h = Some n <-> dNumber db !! h = Some n /\ forall k, DeleteHeader h k ∉ ws.
Proof.
  induction 1 as [|w r Hd _ IH]; intros db; [setoid_rewrite elem_of_nil; cbn; intuition|]. rewrite del_step, IH. setoid_rewrite not_elem_of_cons.
  destruct w as [| | | | |h' n'|]; try done; cbn [do_write del_CanonicalHash del_Td del_Header with_canon with_td with_headers dNumber]; rewrite ?lookup_delete_Some; (split; [intros [E Hn]; split; [tauto|]; intros k; split; [|by apply Hn]; intuition congruence|]).
  1,3: intros [E Hn]; split; [done|]; intros k; apply Hn.
  intros [E Hn]. split; [split; [|done]|]; [|intros k; apply Hn]. intros ->. by destruct (Hn n').
Qed.

(** *** What the batch of a rewind deletes *)

Lemma wipe_deletes db ls : Forall deletion (concat (map (wipe db) ls)).
Proof.
  apply Forall_concat, Forall_map, Forall_forall. intros n _. apply Forall_app. split; [|by repeat constructor].
  apply Forall_concat, Forall_map, Forall_forall. intros h _. by repeat constructor.
Qed.

Lemma elem_wipe db ls w : w ∈ concat (map (wipe db) ls) <-> exists n, n ∈ ls /\ (w = DeleteCanonicalHash n \/ exists h, is_Some (dHeader db !! (n, h)) /\ (w = DeleteHeader h n \/ w = DeleteTd h n)).
Proof.
  rewrite list_elem_of_In, in_concat. setoid_rewrite in_map_iff. split.
  - intros (l & (n & <- & Hn) & Hw). exists n. split; [by apply list_elem_of_In|]. apply list_elem_of_In in Hw. unfold wipe in Hw. apply elem_of_app in Hw as [Hw|Hw]; [|left; by apply list_elem_of_singleton].
    right. apply list_elem_of_In, in_concat in Hw as (l & (h & <- & Hh)%in_map_iff & Hw). exists h. split; [by apply elem_hashes, list_elem_of_In|]. destruct Hw as [<-|[<-|[]]]; auto.
  - intros (n & Hn & Hw). exists (wipe db n). split; [exists n; split; [done|by apply list_elem_of_In]|]. apply list_elem_of_In. unfold wipe. apply elem_of_app. destruct Hw as [->|(h & Hh & Hw)]; [right; by left|].
    left. apply list_elem_of_In, in_concat. exists [DeleteHeader h n; DeleteTd h n]. split; [apply in_map_iff; exists h; split; [done|]; by apply list_elem_of_In, elem_hashes|]. destruct Hw as [->| ->]; [by left|right; by left].
Qed.

(** Everything above [N] is gone. *)
Record cut (N : Z) (db db' : chainDB) : Prop := {
  cut_header n h x : dHeader db' !! (n, h) = Some x <-> dHeader db !! (n, h) = Some x /\ n <= N;
  cut_td n h v : dTd db' !! (n, h) = Some v <-> dTd db !! (n, h) = Some v /\ n <= N;
  cut_number n h : dNumber db' !! h = Some n <-> dNumber db !! h = Some n /\ n <= N;
  cut_canon n h : dCanon db' !! n = Some h <-> dCanon db !! n = Some h /\ n <= N;
}.

Lemma cut_stored N db db' x : cut N db db' -> stored db' x <-> stored db x /\ numberOf x <= N.
Proof. intros H. apply (cut_header _ _ _ H). Qed.

Lemma cut_ok g N db db' : 0 <= N -> db_ok g db -> cut N db db' -> db_ok g db'.
Proof.
  intros HN Hd Hc. assert (forall n h, is_Some (dHeader db' !! (n, h)) <-> is_Some (dHeader db !! (n, h)) /\ n <= N) as Hsome.
  { intros n h. split; [intros [x [E ?]%(cut_header _ _ _ Hc)]; split; [by eexists|done]|]. intros [[x E] ?]. exists x. by apply (cut_header _ _ _ Hc). }
  split.
  - intros n h x [E _]%(cut_header _ _ _ Hc). by apply (do_key _ _ Hd).
  - intros h n. rewrite (cut_number _ _ _ Hc), Hsome. by rewrite (do_num _ _ Hd).
  - intros n h. rewrite Hsome, <- (do_td _ _ Hd). split; [intros [v [E ?]%(cut_td _ _ _ Hc)]; split; [by eexists|done]|]. intros [[v E] ?]. exists v. by apply (cut_td _ _ _ Hc).
  - destruct (do_genesis _ _ Hd) as [Hg E]. split; [|done]. apply (cut_stored _ _ _ _ Hc). split; [done|lia].
  - intros x [Hx _]%(cut_stored _ _ _ _ Hc). by apply (do_zero _ _ Hd).
  - intros x [Hx HxN]%(cut_stored _ _ _ _ Hc) Hnz. destruct (do_parent _ _ Hd x Hx Hnz) as (y & Hy & Ey & En & Hsum). exists y. split; [apply (cut_stored _ _ _ _ Hc); split; [done|lia]|]. split; [done|]. split; [done|].
    intros td [E _]%(cut_td _ _ _ Hc). destruct (Hsum td E) as (ptd & Ep & ->). exists ptd. split; [|done]. apply (cut_td _ _ _ Hc). split; [exact Ep|lia].
Qed.

Lemma cut_leads N db db' x : cut N db db' -> numberOf x = N -> 0 <= N -> leads db (dCanon db) x -> canon_ok db' x <-> (forall i, i < 0 -> dCanon db !! i = None).
Proof.
  intros Hc <- HN (H1 & H2 & H3). split.
  - intros [_ Ha] i Hi. destruct (dCanon db !! i) as [h|] eqn:E; [|done]. exfalso. assert (dCanon db' !! i = Some h) as E' by (apply (cut_canon _ _ _ Hc); split; [done|lia]). rewrite Ha in E' by lia. done.
  - intros Hneg. split; [split; [|split]|].
    + apply (cut_canon _ _ _ Hc). split; [done|lia].
    + apply (cut_stored _ _ _ _ Hc). split; [done|lia].
    + intros i Hi. destruct (H3 i Hi) as (y & Hy & En & E1 & E2). exists y. split; [apply (cut_stored _ _ _ _ Hc); split; [done|lia]|]. split; [done|]. split; [apply (cut_canon _ _ _ Hc); split; [done|lia]|].
      intros Hi0. apply (cut_canon _ _ _ Hc). split; [by apply E2|lia].
    + intros i Hi. apply eq_None_not_Some. intros [h [E Hle]%(cut_canon _ _ _ Hc)]. destruct Hi as [Hi|Hi]; [by rewrite Hneg in E|lia].
Qed.

(** The batch of a rewind to number [N]. *)
Lemma wipe_cuts g db N ls cur : db_ok g db -> canon_ok db cur -> (forall k, k ∈ ls <-> N < k /\ ReadAllHashes db k <> []) -> cut N db (batch_Write (concat (map (wipe db) ls)) db).
Proof.
  intros Hd Hcn Hls. assert (forall n h, is_Some (dHeader db !! (n, h)) -> N < n -> n ∈ ls) as Hin.
  { intros n h [x E] Hn. apply Hls. split; [done|]. rewrite no_hashes. intros Hno. by rewrite Hno in E. }
  split.
  - intros n h x. rewrite del_header, elem_wipe by apply wipe_deletes. split; intros [E Hn]; (split; [done|]).
    + destruct (decide (n <= N)); [done|]. destruct Hn. exists n. split; [apply (Hin n h); [by eexists|lia]|]. right. exists h. split; [by eexists|by left].
    + intros (k & [Hk _]%Hls & [|(h' & _ & [[= <- <-]|])]); try done. lia.
  - intros n h v. rewrite del_td, elem_wipe by apply wipe_deletes. split; intros [E Hn]; (split; [done|]).
    + destruct (decide (n <= N)); [done|]. destruct Hn. assert (is_Some (dHeader db !! (n, h))) as Hs by (apply (do_td _ _ Hd); by eexists). exists n. split; [apply (Hin n h); [done|lia]|]. right. exists h. split; [done|by right].
    + intros (k & [Hk _]%Hls & [|(h' & _ & [|[= <- <-]])]); try done. lia.
  - intros n h. rewrite del_number by apply wipe_deletes. split; intros [E Hn]; (split; [done|]).
    + destruct (decide (n <= N)); [done|]. pose proof (proj1 (do_num _ _ Hd h n) E) as Hs. destruct (Hn n). apply elem_wipe. exists n. split; [apply (Hin n h); [done|lia]|]. right. exists h. split; [done|by left].
    + intros k (k' & [Hk _]%Hls & [|(h' & Hs & [[= <- <-]|])])%elem_wipe; try done. apply (do_num _ _ Hd) in Hs. assert (k = n) by congruence. lia.
  - intros n h. rewrite del_canon, elem_wipe by apply wipe_deletes. split; intros [E Hn]; (split; [done|]).
    + destruct (decide (n <= N)); [done|]. destruct (canon_entry _ _ _ _ _ Hd Hcn E) as (_ & y & Hy & En & -> & _). destruct Hn. exists n. split; [|by left]. apply (Hin n (HashOf y)); [|lia]. exists y. by rewrite <- En.
    + intros (k & [Hk _]%Hls & [[= <-]|(h' & _ & [|])]); try done. lia.
Qed.

(** *** The walk back *)

Lemma hashes_eq db db' : dHeader db' = dHeader db -> ReadAllHashes db' = ReadAllHashes db.
Proof. intros E. unfold ReadAllHashes. by rewrite E. Qed.

Lemma wipe_eq db db' : dHeader db' = dHeader db -> wipe db' = wipe db.
Proof. intros E. unfold wipe. by rewrite (hashes_eq _ _ E). Qed.

(** Where the walk stands: on the canonical chain of the tables of [hc0]. *)
Record walking (hc0 hc : HeaderChain) : Prop := {
  wk_tables : same_tables (chainDb hc0) (chainDb hc);
  wk_canon : dCanon (chainDb hc) = dCanon (chainDb hc0);
  wk_genesis : genesisHeader hc = genesisHeader hc0 /\ config hc = config hc0;
  wk_caches : caches_ok (chainDb hc) hc;
  wk_leads : leads (chainDb hc0) (dCanon (chainDb hc0)) (currentHeader hc);
  wk_hash : currentHeaderHash hc = HashOf (currentHeader hc);
}.

Lemma walking_start hc : hc_ok hc -> walking hc hc.
Proof. intros [Hd Hc Hcn Hh]. split; [done|done|done|done|apply Hcn|done]. Qed.

Definition above_cur (hc0 hc : HeaderChain) (ls : list Z) : Prop := forall k, k ∈ ls <-> numberOf (currentHeader hc) < k /\ ReadAllHashes (chainDb hc0) k <> [].

(** One step: the head moves to its parent. *)
Definition set_parent (p : Header) (hc : HeaderChain) : HeaderChain := with_current p (HashOf p) (with_db (batch_Write [WriteHeadHeaderHash (HashOf p)] (chainDb hc)) hc).

Lemma walking_step hc0 hc : hc_ok hc0 -> walking hc0 hc -> 0 < numberOf (currentHeader hc) -> exists p hc1,
  GetHeader (Header.ParentHash (currentHeader hc)) (sub64 (numberOf (currentHeader hc)) 1) hc = (Some p, hc1) /\
  walking hc0 (set_parent p hc1) /\ numberOf p = numberOf (currentHeader hc) - 1.
Proof.
  intros [Hd _ _ _] [Ht Hcn [Hg Hcf] Hc Hl Hh] Hn. assert (stored (chainDb hc0) (currentHeader hc)) as Hs by apply Hl. pose proof (numberOf_range _ (stored_ok _ _ _ Hd Hs)) as Hr.
  destruct (parent_stored _ _ _ Hd Hs Hn) as (p & _ & Hch). pose proof Hch as (Hp & _ & Ep & En).
  destruct (GetHeader_stored (genesisHeader hc0) p hc) as (hc1 & E & (S1 & S2 & S3 & S4 & S5) & Hc1); [by eapply db_ok_tables|done|by apply (stored_tables _ _ _ Ht)|].
  exists p, hc1. rewrite sub64_small by lia. replace (numberOf (currentHeader hc) - 1) with (numberOf p) by lia. rewrite Ep. split; [done|]. split; [|done].
  unfold set_parent. split; cbn [chainDb genesisHeader config currentHeader currentHeaderHash with_current with_db batch_Write fold_left do_write]; rewrite ?S2.
  - destruct Ht as (? & ? & ?). done.
  - done.
  - split; congruence.
  - destruct (caches_tables (chainDb hc) (with_head (HashOf p) (chainDb hc)) hc1) as [C1 C2 C3]; [done|done|]. by split.
  - by eapply leads_parent.
  - done.
Qed.

Section walk.
Context (updateFn : option (Header -> Z * bool)) (Hf : forall f x, updateFn = Some f -> 0 <= (f x).1).

Lemma rewind_ok hc0 : hc_ok hc0 -> forall fuel head (origin : bool) ls hc, walking hc0 hc -> 0 <= head -> numberOf (currentHeader hc) < Z.of_nat fuel ->
  (if origin then ls = [] else above_cur hc0 hc ls) ->
  exists ls' hc', rewind fuel updateFn head origin (concat (map (wipe (chainDb hc0)) ls)) hc = Ok (concat (map (wipe (chainDb hc0)) ls'), hc') /\ walking hc0 hc' /\
    numberOf (currentHeader hc') <= head /\ (updateFn = None -> numberOf (currentHeader hc') = Z.min head (numberOf (currentHeader hc))) /\
    ((ls' = ls /\ hc' = hc /\ numberOf (currentHeader hc) <= head) \/ above_cur hc0 hc' ls').
Proof using Hf CS LS.
  intros Hok. induction fuel as [|fuel IH]; intros head origin ls hc Hw Hh Hfu Hls; assert (0 <= numberOf (currentHeader hc) < 2 ^ 64 - 1) as Hr by (apply numberOf_range, (stored_ok _ _ _ (ok_db _ Hok)), Hw); [lia|].
  cbn [rewind]. rewrite Z.gtb_ltb. destruct (head <? numberOf (currentHeader hc)) eqn:E; cbn [negb]; to_prop.
  2:{ exists ls, hc. split; [done|]. split; [done|]. split; [lia|]. split; [intros _; lia|]. left. split; [done|]. split; [done|lia]. }
  destruct (walking_step hc0 hc Hok Hw ltac:(lia)) as (p & hc1 & -> & Hw1 & En). cbn [default]. change (id p) with p. cbn zeta.
  change (with_current p (HashOf p) (with_db (batch_Write [WriteHeadHeaderHash (HashOf p)] (chainDb hc1)) hc1)) with (set_parent p hc1).
  set (head' := match updateFn with Some f => let '(newHead, force) := f p in if force && (newHead <? head) then newHead else head | None => head end).
  assert (0 <= head' <= head) as Hh'.
  { unfold head'. destruct updateFn as [f|]; [|lia]. pose proof (Hf f p eq_refl). destruct (f p) as [nh force]. cbn [fst] in *. destruct (force && (nh <? head)) eqn:Ef; [|lia]. apply andb_true_iff in Ef as [_ Ef]. to_prop. lia. }
  pose proof (wk_tables _ _ Hw1) as Ht. pose proof Ht as (Eh & _ & _).
  assert (exists above, (if origin then levels_above (S (Z.to_nat (max_level (chainDb (set_parent p hc1))))) (chainDb (set_parent p hc1)) (add64 (numberOf (currentHeader hc)) 1) else Ok []) = Ok above /\
    forall k, k ∈ ls ++ above <-> numberOf (currentHeader hc) < k /\ ReadAllHashes (chainDb hc0) k <> []) as (above & -> & Habove).
  { rewrite add64_small by lia. destruct origin; [|exists []; split; [done|]; rewrite app_nil_r; exact Hls]. subst ls.
    destruct (levels_above_ok (genesisHeader hc0) (chainDb (set_parent p hc1)) (S (Z.to_nat (max_level (chainDb (set_parent p hc1)))))) with (n := numberOf (currentHeader hc) + 1) as (l & -> & Hl);
      [eapply db_ok_tables; [exact Ht|apply Hok]|lia|lia|]. exists l. split; [done|]. intros k. cbn [app]. rewrite Hl, (hashes_eq _ _ Eh). split; intros [? ?]; (split; [lia|done]). }
  assert (ReadAllHashes (chainDb hc0) (numberOf (currentHeader hc)) <> []) as Hne.
  { rewrite no_hashes. intros Hno. pose proof (wk_leads _ _ Hw) as (_ & Hs & _). unfold stored in Hs. by rewrite Hno in Hs. }
  cbn [mbind res_bind]. assert (map (delete_level (chainDb (set_parent p hc1)) (currentHeader hc)) (above ++ [numberOf (currentHeader hc)]) = map (wipe (chainDb hc0)) (above ++ [numberOf (currentHeader hc)])) as ->.
  { apply map_ext_in. intros k Hk%list_elem_of_In. rewrite <- (wipe_eq _ _ Eh). apply delete_level_wipe. rewrite (hashes_eq _ _ Eh). apply elem_of_app in Hk as [Hk|Hk%list_elem_of_singleton]; [|by subst]. apply Habove, elem_of_app. by right. }
  rewrite <- concat_app, <- map_app.
  destruct (IH head' false (ls ++ above ++ [numberOf (currentHeader hc)]) (set_parent p hc1) Hw1) as (ls' & hc' & -> & Hw' & Hle & Hmin & Hor); [lia|cbn [set_parent with_current currentHeader]; lia| |].
  { intros k. rewrite app_assoc, elem_of_app, Habove, list_elem_of_singleton. cbn [set_parent with_current currentHeader]. rewrite En. split; [intros [[? ?]| ->]; (split; [lia|done])|]. intros [? ?]. destruct (decide (k = numberOf (currentHeader hc))); [by right|]. left. split; [lia|done]. }
  exists ls', hc'. split; [done|]. split; [done|]. split; [lia|]. cbn [set_parent with_current currentHeader] in Hmin. split.
  - intros Hnone. rewrite (Hmin Hnone). unfold head'. rewrite Hnone. lia.
  - right. destruct Hor as [(-> & -> & _)|]; [|done]. intros k. rewrite app_assoc, elem_of_app, Habove, list_elem_of_singleton. cbn [set_parent with_current currentHeader]. rewrite En. split; [intros [[? ?]| ->]; (split; [lia|done])|]. intros [? ?]. destruct (decide (k = numberOf (currentHeader hc))); [by right|]. left. split; [lia|done].
Qed.

Lemma SetHead_ok head hc : hc_ok hc -> 0 <= head -> exists hc', SetHead updateFn head hc = Ok hc' /\ hc_ok hc' /\ genesisHeader hc' = genesisHeader hc /\ config hc' = config hc /\
  numberOf (currentHeader hc') <= head /\ (updateFn = None -> numberOf (currentHeader hc') = Z.min head (numberOf (currentHeader hc))) /\
  (forall i, i <= numberOf (currentHeader hc') -> dCanon (chainDb hc') !! i = dCanon (chainDb hc) !! i) /\
  (numberOf (currentHeader hc) <= head \/ forall n h x, dHeader (chainDb hc') !! (n, h) = Some x -> n <= numberOf (currentHeader hc')).
Proof using Hf CS LS.
  intros Hok Hh. unfold SetHead. destruct (rewind_ok hc Hok (S (Z.to_nat (numberOf (currentHeader hc)))) head true [] hc (walking_start _ Hok) Hh) as (ls & hc1 & E & Hw & Hle & Hmin & Hor); [|done|].
  { pose proof (numberOf_range _ (stored_ok _ _ _ (ok_db _ Hok) (proj1 (proj2 (cn_leads _ _ (ok_canon _ Hok)))))). lia. }
  change (concat (map (wipe (chainDb hc)) [])) with (@nil write) in E. rewrite E. cbn [mbind res_bind]. clear E. destruct Hw as [Ht Hcn [Hg Hcf] Hc Hl Hhash].
  assert (forall h, canon_ok (batch_Write h (chainDb hc1)) (currentHeader hc1) -> db_ok (genesisHeader hc) (batch_Write h (chainDb hc1)) ->
    hc_ok (with_caches (lru_Purge (headerCache hc1)) (lru_Purge (tdCache hc1)) (lru_Purge (numberCache hc1)) (with_db (batch_Write h (chainDb hc1)) hc1))) as Hmk.
  { intros h H1 H2. split; cbn [chainDb genesisHeader currentHeader currentHeaderHash with_caches with_db]; [by rewrite Hg| |done|done]. split; cbn [headerCache tdCache numberCache with_caches]; intros ? ?; by rewrite held_Purge, lookup_empty. }
  eexists. split; [done|]. cbn [chainDb genesisHeader config currentHeader with_caches with_db headerCache tdCache numberCache]. destruct Hor as [(-> & -> & Hle')|Habove].
  - cbn [map concat batch_Write fold_left]. split; [apply (Hmk []); apply Hok|]. split; [done|]. split; [done|]. split; [done|]. split; [done|]. split; [done|]. by left.
  - assert (db_ok (genesisHeader hc) (chainDb hc1)) as Hd1 by (eapply db_ok_tables; [exact Ht|apply Hok]). pose proof Ht as (Eh & _ & _).
    assert (0 <= numberOf (currentHeader hc1) < 2 ^ 64 - 1) as HN by (apply numberOf_range, (stored_ok _ _ _ (ok_db _ Hok)), Hl).
    assert (canon_ok (chainDb hc1) (currentHeader hc)) as Hcn1.
    { destruct (ok_canon _ Hok) as [L1 L2]. split; [rewrite Hcn; by eapply leads_tables|]. intros i. rewrite Hcn. apply L2. }
    assert (cut (numberOf (currentHeader hc1)) (chainDb hc1) (batch_Write (concat (map (wipe (chainDb hc)) ls)) (chainDb hc1))) as Hcut.
    { rewrite <- (wipe_eq _ _ Eh). apply (wipe_cuts (genesisHeader hc) _ _ _ (currentHeader hc)); [done|done|]. intros k. rewrite (hashes_eq _ _ Eh). apply Habove. }
    split; [apply Hmk; [|eapply cut_ok; [|exact Hd1|exact Hcut]; lia]|].
    { eapply cut_leads; [exact Hcut|done|lia|rewrite Hcn; by eapply leads_tables|]. intros i Hi. rewrite Hcn. apply (cn_above _ _ (ok_canon _ Hok)). by left. }
    split; [done|]. split; [done|]. split; [done|]. split; [done|]. split.
    + intros i Hi. apply option_eq. intros h. rewrite (cut_canon _ _ _ Hcut), Hcn. intuition.
    + right. by intros n h x [_ ?]%(cut_header _ _ _ Hcut).
Qed.
End walk.

(** ** [GetHeadersFrom] *)

(** The canonical headers from a number down to the genesis, [count] at most. *)
Fixpoint canonical_below (count : nat) (db : chainDB) (n : Z) : list Header :=
  match count with
  | O => []
  | S count =>
    match dCanon db !! n with
    | None => []
    | Some h => match dHeader db !! (n, h) with Some x => x :: canonical_below count db (n - 1) | None => [] end
    end
  end.

Section ranges.
Context (hc0 : HeaderChain) (Hok : hc_ok hc0) (Hzero : Header.ParentHash (genesisHeader hc0) = 0).
Notation db := (chainDb hc0).

(** A header of the canonical chain, and the hash below it. *)
Lemma canon_at i : 0 <= i <= numberOf (currentHeader hc0) -> exists x, stored db x /\ numberOf x = i /\ dCanon db !! i = Some (HashOf x) /\ Header.ParentHash x = ReadCanonicalHash db (i - 1).
Proof using Hok Hzero CS LS.
  intros Hi. destruct (proj2 (proj2 (cn_leads _ _ (ok_canon _ Hok))) i Hi) as (x & Hx & En & E1 & E2). exists x. split; [done|]. split; [done|]. split; [done|]. unfold ReadCanonicalHash.
  destruct (decide (i = 0)) as [->|Hn]; [|by rewrite E2]. rewrite (do_zero _ _ (ok_db _ Hok) x Hx En), Hzero. by rewrite (cn_above _ _ (ok_canon _ Hok)) by lia.
Qed.

Lemma canonical_step count i x : stored db x -> numberOf x = i -> dCanon db !! i = Some (HashOf x) -> canonical_below (S count) db i = x :: canonical_below count db (i - 1).
Proof. intros Hx <- E. cbn [canonical_below]. rewrite E. unfold stored in Hx. by rewrite Hx. Qed.

Lemma canonical_outside count i : i < 0 \/ numberOf (currentHeader hc0) < i -> canonical_below count db i = [].
Proof using Hok. intros Hi. destruct count; [done|]. cbn [canonical_below]. by rewrite (cn_above _ _ (ok_canon _ Hok)). Qed.

Lemma zero_missing n : dHeader db !! (n, 0) = None.
Proof using Hok. apply eq_None_not_Some. intros [x E]. destruct (key_stored _ _ _ _ _ (ok_db _ Hok) E) as (Hx & _ & Ez). by apply (hk_hash _ (stored_ok _ _ _ (ok_db _ Hok) Hx)). Qed.

Lemma live_range_ok count : forall i, -1 <= i <= numberOf (currentHeader hc0) -> live_range count db (u64 i) (ReadCanonicalHash db i) = canonical_below count db i.
Proof using Hok Hzero CS LS.
  assert (0 <= numberOf (currentHeader hc0) < 2 ^ 64 - 1) as Hr by (apply numberOf_range, (stored_ok _ _ _ (ok_db _ Hok)), (ok_canon _ Hok)).
  induction count as [|count IH]; intros i Hi; [done|]. destruct (decide (i = -1)) as [->|Hn].
  - rewrite canonical_outside by lia. cbn [live_range]. unfold ReadCanonicalHash. rewrite (cn_above _ _ (ok_canon _ Hok)) by lia. cbn [default]. by rewrite zero_missing.
  - destruct (canon_at i ltac:(lia)) as (x & Hx & En & E & Ep). rewrite (canonical_step _ _ x) by done. cbn [live_range]. rewrite u64_small by (unfold is_u64; lia). unfold ReadCanonicalHash at 1. rewrite E. cbn [default].
    change (id (HashOf x)) with (HashOf x). assert (dHeader db !! (i, HashOf x) = Some x) as -> by (by rewrite <- En). f_equal. rewrite Ep. replace (sub64 i 1) with (u64 (i - 1)) by done. apply IH. lia.
Qed.

Lemma canonical_cap count : forall i, -1 <= i <= numberOf (currentHeader hc0) -> (Z.to_nat (i + 1) <= count)%nat -> canonical_below (Z.to_nat (i + 1)) db i = canonical_below count db i.
Proof using Hok Hzero CS LS.
  induction count as [|count IH]; intros i Hi Hc; [by replace (Z.to_nat (i + 1)) with O by lia|]. destruct (decide (i = -1)) as [->|Hn]; [by rewrite !canonical_outside by lia|].
  destruct (canon_at i ltac:(lia)) as (x & Hx & En & E & _). replace (Z.to_nat (i + 1)) with (S (Z.to_nat (i - 1 + 1))) by lia. rewrite !(canonical_step _ _ x) by done. f_equal. apply IH; lia.
Qed.

Lemma ReadHeaderRange_ok count i : is_u64 count -> -1 <= i <= numberOf (currentHeader hc0) -> ReadHeaderRange db (u64 i) count = canonical_below (Z.to_nat count) db i.
Proof using Hok Hzero CS LS.
  assert (0 <= numberOf (currentHeader hc0) < 2 ^ 64 - 1) as Hr by (apply numberOf_range, (stored_ok _ _ _ (ok_db _ Hok)), (ok_canon _ Hok)).
  unfold is_u64. intros Hc Hi. unfold ReadHeaderRange. destruct (count =? 0) eqn:E; to_prop; [by subst|]. assert (ReadCanonicalHash db (u64 i) = ReadCanonicalHash db i) as ->.
  { destruct (decide (i = -1)) as [->|]; [|by rewrite u64_small by (unfold is_u64; lia)]. unfold ReadCanonicalHash. rewrite !(cn_above _ _ (ok_canon _ Hok)); [done|by left|]. right. change (u64 (-1)) with (2 ^ 64 - 1). lia. }
  rewrite live_range_ok by done. rewrite Z.gtb_ltb. destruct (u64 i <? count - 1) eqn:Ec; to_prop; [|done]. destruct (decide (i = -1)) as [->|]; [by rewrite !canonical_outside by lia|].
  rewrite u64_small in * by (unfold is_u64; lia). rewrite add64_small by lia. apply canonical_cap; lia.
Qed.

Lemma cached_range_ok count : forall i hc, same hc0 hc -> caches_ok db hc -> -1 <= i <= numberOf (currentHeader hc0) -> exists l c i' hc',
  cached_range count (u64 i) (ReadCanonicalHash db i) hc = (l, c, u64 i', hc') /\ same hc0 hc' /\ caches_ok db hc' /\ -1 <= i' <= numberOf (currentHeader hc0) /\ (c <= count)%nat /\
  canonical_below count db i = l ++ canonical_below c db i'.
Proof using Hok Hzero CS LS.
  assert (0 <= numberOf (currentHeader hc0) < 2 ^ 64 - 1) as Hr by (apply numberOf_range, (stored_ok _ _ _ (ok_db _ Hok)), (ok_canon _ Hok)).
  induction count as [|count IH]; intros i hc Hs Hc Hi; [by exists [], O, i, hc|]. cbn [cached_range]. destruct (held_Get (ReadCanonicalHash db i) (headerCache hc)) as [E1 E2].
  destruct (lru_Get (ReadCanonicalHash db i) (headerCache hc)) as [o c]. cbn [fst snd] in E1, E2. destruct Hc as [C1 C2 C3].
  assert (caches_ok db (with_caches c (tdCache hc) (numberCache hc) hc)) as Hc' by (split; [|done|done]; intros k x; cbn; rewrite E2; apply C1).
  destruct o as [x|]; [|exists [], (S count), i, (with_caches c (tdCache hc) (numberCache hc) hc); split; [done|]; split; [done|]; split; [done|]; split; [done|]; split; [lia|done]].
  symmetry in E1. destruct (C1 _ _ E1) as [Hx Ex]. pose proof (hk_hash _ (stored_ok _ _ _ (ok_db _ Hok) Hx)) as Hnz.
  destruct (decide (i = -1)) as [->|Hn]; [unfold ReadCanonicalHash in Ex; rewrite (cn_above _ _ (ok_canon _ Hok)) in Ex by lia; done|].
  destruct (canon_at i ltac:(lia)) as (y & Hy & En & E & Ep). assert (y = x) as -> by (eapply stored_eq; [apply Hok|done|done|]; unfold ReadCanonicalHash in Ex; by rewrite E in Ex).
  rewrite u64_small by (unfold is_u64; lia). rewrite Ep. change (sub64 i 1) with (u64 (i - 1)).
  destruct (IH (i - 1) (with_caches c (tdCache hc) (numberCache hc) hc)) as (l & c' & i' & hc' & -> & Hs' & Hc'' & Hi' & Hle & Happ); [done|done|lia|].
  exists (x :: l), c', i', hc'. split; [done|]. split; [done|]. split; [done|]. split; [done|]. split; [lia|]. rewrite (canonical_step _ _ x) by done. by rewrite Happ.
Qed.

Lemma GetHeadersFrom_ok number count : is_u64 number -> is_u64 count -> exists hc', GetHeadersFrom number count hc0 = (
    let top := Z.min number (numberOf (currentHeader hc0)) in canonical_below (Z.to_nat (count - (number - top))) db top, hc') /\ hc_ok hc' /\ same hc0 hc'.
Proof using Hok Hzero CS LS.
  assert (0 <= numberOf (currentHeader hc0) < 2 ^ 64 - 1) as Hr by (apply numberOf_range, (stored_ok _ _ _ (ok_db _ Hok)), (ok_canon _ Hok)).
  unfold is_u64. intros Hn Hc. unfold GetHeadersFrom. cbn zeta.
  assert (forall n c, 0 <= n <= numberOf (currentHeader hc0) -> is_u64 c -> exists hc',
    (if ReadCanonicalHash db n =? 0 then ([], hc0)
     else let '(l, count, number, hc) := cached_range (Z.to_nat c) n (ReadCanonicalHash db n) hc0 in
          (l ++ (if (0 <? count)%nat then ReadHeaderRange (chainDb hc) number (Z.of_nat count) else []), hc)) = (canonical_below (Z.to_nat c) db n, hc') /\ hc_ok hc' /\ same hc0 hc') as Hmain.
  { intros n c Hin Hic. unfold is_u64 in Hic. destruct (ReadCanonicalHash db n =? 0) eqn:E; to_prop.
    - apply (canon_none _ (currentHeader hc0)) in E; [lia|apply Hok| |lia]. intros x Hx. by eapply stored_ok; [apply Hok|].
    - destruct (cached_range_ok (Z.to_nat c) n hc0) as (l & c' & i' & hc' & Eq & Hs & Hca & Hi' & Hle & Happ); [done|apply Hok|lia|]. rewrite u64_small in Eq by (unfold is_u64; lia). rewrite Eq. pose proof Hs as (S1 & S2 & S3 & S4 & S5).
      assert (hc_ok hc') as Hok' by (destruct Hok as [Hd _ Hcn Hh]; split; rewrite ?S2, ?S3, ?S4, ?S5; done). exists hc'. split; [|done]. rewrite S2, Happ. do 2 f_equal. destruct (Nat.ltb_spec 0 c').
      + rewrite ReadHeaderRange_ok by (unfold is_u64; lia). by rewrite Nat2Z.id.
      + by replace c' with O by lia. }
  destruct (numberOf (currentHeader hc0) <? number) eqn:E; to_prop.
  - rewrite sub64_small by lia. rewrite Z.gtb_ltb, Z.min_r by lia. destruct (number - numberOf (currentHeader hc0) <? count) eqn:Ec; to_prop.
    + rewrite sub64_small by lia. apply Hmain; [lia|unfold is_u64; lia].
    + exists hc0. replace (Z.to_nat _) with O by lia. done.
  - rewrite Z.min_l by lia. replace (count - (number - number)) with count by lia. apply Hmain; [lia|done].
Qed.
End ranges.
End spec.
End HeaderChainTheorems.

(** ** Every run of the header chain

    The header chains that insertions and rewinds lead to from a genesis block, and
    what holds of all of them. *)

Module HeaderChainRuns.

Import HeaderChain HeaderChainSpec HeaderChainTheorems.

Section spec.
Context `{C : Crypto} `{CS : !CryptoSpec C} `{L : LRU} `{LS : !LRUSpec L}.

(** ** The chain of the genesis block *)

Lemma genesis_lookup g k x : dHeader (genesis_tables g) !! k = Some x <-> k = (numberOf g, HashOf g) /\ x = g.
Proof. unfold genesis_tables. cbn -[HashOf numberOf]. rewrite lookup_insert_Some, lookup_empty. naive_solver. Qed.

Lemma genesis_db_ok g : hdr_ok g -> numberOf g = 0 -> db_ok g (genesis_tables g).
Proof.
  intros Hg Hn. split.
  - intros n h x [[= -> ->] ->]%genesis_lookup. done.
  - intros h n. unfold genesis_tables. cbn -[HashOf numberOf]. rewrite lookup_insert_Some, lookup_empty, lookup_insert_is_Some', lookup_empty. split; [intros [[<- <-]|[_ ?]]; [by left|done]|]. intros [[= <- <-]|[? ?]]; [by left|done].
  - intros n h. unfold genesis_tables. cbn -[HashOf numberOf]. rewrite !lookup_insert_is_Some', !lookup_empty. split; (intros [?|[? ?]]; [by left|done]).
  - split; [|done]. by apply genesis_lookup.
  - by intros x [_ ->]%genesis_lookup _.
  - by intros x [_ ->]%genesis_lookup Hx.
Qed.

Lemma genesis_canon_ok g : hdr_ok g -> numberOf g = 0 -> canon_ok (genesis_tables g) g.
Proof.
  intros Hg Hn. assert (forall i h, dCanon (genesis_tables g) !! i = Some h <-> i = 0 /\ h = HashOf g) as Hc.
  { intros i h. unfold genesis_tables. cbn -[HashOf numberOf]. rewrite Hn, lookup_insert_Some, lookup_empty. naive_solver. }
  assert (stored (genesis_tables g) g) as Hs by (by apply genesis_lookup). split; [split; [by rewrite Hn; apply Hc|]; split; [done|]|].
  - intros i Hi. exists g. split; [done|]. split; [lia|]. split; [apply Hc; split; [lia|done]|]. lia.
  - intros i Hi. apply eq_None_not_Some. intros [h [-> _]%Hc]. lia.
Qed.

Definition empty_caches (hcache : lru Header) (tcache ncache : lru Z) : Prop := held hcache = ∅ /\ held tcache = ∅ /\ held ncache = ∅.

Lemma NewHeaderChain_ok cc g hcache tcache ncache zero : hdr_ok g -> numberOf g = 0 -> empty_caches hcache tcache ncache ->
  exists hc, NewHeaderChain (genesis_tables g) cc hcache tcache ncache zero = inl hc /\ hc_ok hc /\ config hc = cc /\ genesisHeader hc = g /\ currentHeader hc = g /\ heaviest hc.
Proof.
  intros Hg Hn (E1 & E2 & E3). pose proof (genesis_db_ok g Hg Hn) as Hd. pose proof (genesis_canon_ok g Hg Hn) as Hcn. pose proof Hcn as [(Hc0 & Hs & _) _].
  assert (forall hc, chainDb hc = genesis_tables g -> held (headerCache hc) = ∅ -> held (tdCache hc) = ∅ -> held (numberCache hc) = ∅ -> caches_ok (genesis_tables g) hc) as Hempty.
  { intros hc _ F1 F2 F3. split; intros ? ?; rewrite ?F1, ?F2, ?F3, lookup_empty; done. }
  unfold NewHeaderChain, GetHeaderByNumber. cbn [chainDb]. unfold ReadCanonicalHash. rewrite Hn in Hc0. rewrite Hc0. change (default 0 (Some (HashOf g))) with (HashOf g).
  destruct (HashOf g =? 0) eqn:E; to_prop; [by destruct (hk_hash _ Hg)|].
  destruct (GetHeader_stored g g (mkHC cc (genesis_tables g) zero zero 0 hcache tcache ncache)) as (hc1 & Eq & (S1 & S2 & S3 & S4 & S5) & Hc1); [done|by apply Hempty|done|]. rewrite Hn in Eq. rewrite Eq. cbn [chainDb config] in *.
  rewrite S2. unfold ReadHeadBlockHash. change (dHeadBlock (genesis_tables g)) with (HashOf g). rewrite (proj2 (Z.eqb_neq (HashOf g) 0)) by done.
  set (hc2 := mkHC cc (genesis_tables g) g g 0 (headerCache hc1) (tdCache hc1) (numberCache hc1)).
  assert (caches_ok (genesis_tables g) hc2) as Hc2 by (destruct Hc1; by split). unfold GetHeaderByHash, GetBlockNumber.
  assert (dNumber (genesis_tables g) !! HashOf g = Some (numberOf g)) as Enum by (apply (do_num _ _ Hd); by exists g).
  destruct (held_Get (HashOf g) (numberCache hc2)) as [G1 G2]. destruct (lru_Get (HashOf g) (numberCache hc2)) as [o c]. cbn [fst snd] in G1, G2.
  assert (caches_ok (genesis_tables g) (with_caches (headerCache hc2) (tdCache hc2) c hc2)) as Hc3 by (destruct Hc2 as [A1 A2 A3]; split; [done|done|]; intros h n; cbn; rewrite G2; apply A3).
  assert (exists hc3, (match o with
    | Some n => (Some n, with_caches (headerCache hc2) (tdCache hc2) c hc2)
    | None => match ReadHeaderNumber (chainDb (with_caches (headerCache hc2) (tdCache hc2) c hc2)) (HashOf g) with
              | None => (None, with_caches (headerCache hc2) (tdCache hc2) c hc2)
              | Some n => (Some n, with_caches (headerCache (with_caches (headerCache hc2) (tdCache hc2) c hc2)) (tdCache (with_caches (headerCache hc2) (tdCache hc2) c hc2)) (lru_Add (HashOf g) n (numberCache (with_caches (headerCache hc2) (tdCache hc2) c hc2))) (with_caches (headerCache hc2) (tdCache hc2) c hc2))
              end
    end) = (Some (numberOf g), hc3) /\ same hc2 hc3 /\ caches_ok (genesis_tables g) hc3) as (hc3 & -> & (T1 & T2 & T3 & T4 & T5) & Hc4).
  { destruct o as [n|].
    - symmetry in G1. apply (ca_number _ _ Hc2) in G1. rewrite Enum in G1. injection G1 as <-. eexists. split; [done|]. by split.
    - cbn [chainDb with_caches]. unfold ReadHeaderNumber. change (chainDb hc2) with (genesis_tables g). rewrite Enum. eexists. split; [done|]. split; [done|]. destruct Hc3 as [A1 A2 A3]. split; [done|done|].
      intros h n [[-> ->]|F]%add_held; [done|by apply A3]. }
  destruct (GetHeader_stored g g hc3) as (hc4 & -> & (U1 & U2 & U3 & U4 & U5) & Hc5); [by rewrite T2|by rewrite T2|by rewrite T2|]. eexists. split; [done|].
  cbn [config chainDb genesisHeader currentHeader with_current]. cbn [config chainDb genesisHeader currentHeader with_current hc2] in *. rewrite U1, U3, T1, T3. split; [|split; [done|]; split; [done|]; split; [done|]].
  - split; cbn [config chainDb genesisHeader currentHeader currentHeaderHash with_current]; rewrite ?U2, ?U3, ?T2, ?T3; [done| |done|done]. rewrite T2 in Hc5. destruct Hc5. by split.
  - intros n h v. cbn [chainDb currentHeader with_current]. rewrite U2, T2. unfold genesis_tables. cbn -[HashOf numberOf]. intros [[[= <- <-] <-]|[_ F]]%lookup_insert_Some; [|by rewrite lookup_empty in F].
    exists (Header.Difficulty g). split; [|lia]. apply lookup_insert_eq.
Qed.

(** ** Runs *)

(** From a genesis block, by insertions of linked headers, by reads, and by rewinds
    where they are allowed.  An insertion may be interrupted at its start, not between
    filling the caches and writing the batch. *)
Inductive reach (rewinds : bool) : HeaderChain -> Prop :=
| reach_new cc g hcache tcache ncache zero hc :
    hdr_ok g -> numberOf g = 0 -> empty_caches hcache tcache ncache -> NewHeaderChain (genesis_tables g) cc hcache tcache ncache zero = inl hc -> reach rewinds hc
| reach_insert early preserve coin headers r hc hc' :
    reach rewinds hc -> attaches (chainDb hc) headers -> InsertHeaderChain early false preserve coin headers hc = Ok (r, hc') -> reach rewinds hc'
| reach_header hash number r hc hc' : reach rewinds hc -> GetHeader hash number hc = (r, hc') -> reach rewinds hc'
| reach_td hash number r hc hc' : reach rewinds hc -> GetTd hash number hc = (r, hc') -> reach rewinds hc'
| reach_rewind updateFn head hc hc' : rewinds = true ->
    reach rewinds hc -> (forall f x, updateFn = Some f -> 0 <= (f x).1) -> 0 <= head -> SetHead updateFn head hc = Ok hc' -> reach rewinds hc'.

Lemma same_ok hc hc' : same hc hc' -> caches_ok (chainDb hc) hc' -> hc_ok hc -> hc_ok hc'.
Proof. intros (S1 & S2 & S3 & S4 & S5) Hc [Hd _ Hcn Hh]. split; rewrite ?S2, ?S3, ?S4, ?S5; done. Qed.

Lemma same_heaviest hc hc' : same hc hc' -> heaviest hc -> heaviest hc'.
Proof. intros (S1 & S2 & S3 & S4 & S5) Hh n h v. rewrite S2, S4. apply Hh. Qed.

Lemma reach_ok rewinds hc : reach rewinds hc -> hc_ok hc /\ (rewinds = false -> TerminalTotalDifficulty (config hc) = None -> heaviest hc).
Proof.
  induction 1 as [cc g hcache tcache ncache zero hc Hg Hn He E|early preserve coin headers r hc hc' _ [Hok Hh] Ha E|hash number r hc hc' _ [Hok Hh] E|hash number r hc hc' _ [Hok Hh] E|updateFn head hc hc' Hr _ [Hok Hh] Hf Hhd E].
  - destruct (NewHeaderChain_ok cc g hcache tcache ncache zero Hg Hn He) as (hc1 & E1 & Hok & _ & _ & _ & Hh). rewrite E1 in E. injection E as <-. done.
  - destruct early; [by injection E as <- <-|].
    destruct (InsertHeaderChain_ok preserve coin headers hc Hok Ha) as (r1 & hc1 & E1 & Hok1 & Hcf & _ & _ & Hh1). rewrite E1 in E. injection E as <- <-. split; [done|]. rewrite Hcf. auto.
  - destruct (GetHeader_spec (genesisHeader hc) hash number hc) as (r1 & hc1 & E1 & Hs & Hc & _); [apply Hok|apply Hok|]. rewrite E1 in E. injection E as <- <-. split; [by eapply same_ok|]. pose proof Hs as (-> & _). intros. eapply same_heaviest; [exact Hs|auto].
  - destruct (GetTd_spec (genesisHeader hc) hash number hc) as (r1 & hc1 & E1 & Hs & Hc & _); [apply Hok|apply Hok|]. rewrite E1 in E. injection E as <- <-. split; [by eapply same_ok|]. pose proof Hs as (-> & _). intros. eapply same_heaviest; [exact Hs|auto].
  - destruct (SetHead_ok updateFn Hf head hc Hok Hhd) as (hc1 & E1 & Hok1 & _). rewrite E1 in E. injection E as <-. split; [done|]. by rewrite Hr.
Qed.

(** ** Interrupted insertions *)



(** ** Reading the canonical chain *)

Lemma read_canonical hc i : hc_ok hc -> 0 <= i <= numberOf (currentHeader hc) -> exists x, (GetHeaderByNumber i hc).1 = Some x /\ stored (chainDb hc) x /\ numberOf x = i /\ dCanon (chainDb hc) !! i = Some (HashOf x) /\
  (i <> 0 -> dCanon (chainDb hc) !! (i - 1) = Some (Header.ParentHash x)).
Proof.
  intros Hok Hi. destruct (proj2 (proj2 (cn_leads _ _ (ok_canon _ Hok))) i Hi) as (x & Hx & En & E1 & E2). exists x. split; [|done]. unfold GetHeaderByNumber, ReadCanonicalHash. rewrite E1. change (default 0 (Some (HashOf x))) with (HashOf x).
  destruct (HashOf x =? 0) eqn:E; to_prop; [by destruct (hk_hash _ (stored_ok _ _ _ (ok_db _ Hok) Hx))|].
  destruct (GetHeader_stored (genesisHeader hc) x hc) as (hc' & Eq & _); [apply Hok|apply Hok|done|]. rewrite En in Eq. by rewrite Eq.
Qed.

Lemma read_td hc x : hc_ok hc -> stored (chainDb hc) x -> (GetTd (HashOf x) (numberOf x) hc).1 = td_of (chainDb hc) x.
Proof. intros Hok Hx. destruct (GetTd_stored (genesisHeader hc) x hc) as (td & hc' & -> & E & _); [apply Hok|apply Hok|done|]. by rewrite E. Qed.



(** The segments of the canonical chain, header by header. *)
Lemma canonical_below_spec hc count : hc_ok hc -> forall i, -1 <= i <= numberOf (currentHeader hc) ->
  length (canonical_below count (chainDb hc) i) = Nat.min count (Z.to_nat (i + 1)) /\
  forall j, (j < Nat.min count (Z.to_nat (i + 1)))%nat -> canonical_below count (chainDb hc) i !! j = (GetHeaderByNumber (i - Z.of_nat j) hc).1.
Proof.
  intros Hok. induction count as [|count IH]; intros i Hi; [split; [done|lia]|]. destruct (decide (i = -1)) as [->|Hn].
  - rewrite (canonical_outside hc Hok) by lia. split; [done|lia].
  - destruct (read_canonical hc i Hok ltac:(lia)) as (x & Ex & Hx & En & Ec & _). rewrite (canonical_step hc count i x) by done. destruct (IH (i - 1) ltac:(lia)) as [Hlen Hnth]. split; [cbn [length]; lia|].
    intros [|j] Hj; [change (Z.of_nat 0) with 0; rewrite Z.sub_0_r; symmetry; exact Ex|]. cbn [lookup list_lookup]. change (canonical_below count (chainDb hc) (i - 1) !! j = (GetHeaderByNumber (i - Z.of_nat (S j)) hc).1).
    rewrite Hnth by lia. do 2 f_equal. lia.
Qed.

(** ** [FindCommonAncestor] *)

Definition anc (db : chainDB) (x z : Header) : Prop := exists k, ancestor db k x = Some z.

Lemma anc_inv g db k : db_ok g db -> forall x z, stored db x -> ancestor db k x = Some z -> stored db z /\ numberOf z = numberOf x - Z.of_nat k.
Proof.
  intros Hd. induction k as [|k IH]; intros x z Hx E; cbn [ancestor] in E; [injection E as <-; split; [done|lia]|].
  destruct (dHeader db !! (numberOf x - 1, Header.ParentHash x)) as [y|] eqn:Ey; [|done]. destruct (key_stored _ _ _ _ _ Hd Ey) as (Hy & En & _). destruct (IH y z Hy E). split; [done|lia].
Qed.

Lemma anc_step g db x y z : db_ok g db -> stored db x -> dHeader db !! (numberOf x - 1, Header.ParentHash x) = Some y -> anc db x z -> z = x \/ anc db y z.
Proof. intros Hd Hx Ey [[|k] E]; [left; cbn in E; congruence|]. right. exists k. cbn [ancestor] in E. by rewrite Ey in E. Qed.

(** A walk down to a number, which loses no ancestor that low. *)
Lemma down_to_ok g db bn fuel : db_ok g db -> 0 <= bn -> forall a, stored db a -> numberOf a < Z.of_nat fuel -> exists a', down_to fuel db a bn = Ok (Some a') /\ stored db a' /\ anc db a a' /\
  numberOf a' = Z.min bn (numberOf a) /\ forall z, anc db a z -> numberOf z <= bn -> anc db a' z.
Proof.
  intros Hd Hb. induction fuel as [|fuel IH]; intros a Ha Hf; pose proof (numberOf_range a (stored_ok _ _ _ Hd Ha)); [lia|]. cbn [down_to]. rewrite Z.gtb_ltb. destruct (bn <? numberOf a) eqn:E; cbn [negb]; to_prop.
  2:{ exists a. split; [done|]. split; [done|]. split; [by exists O|]. split; [lia|done]. }
  destruct (parent_stored _ _ _ Hd Ha ltac:(lia)) as (y & Ey & Hch). pose proof Hch as (Hy & _ & _ & En). unfold ReadHeader. rewrite sub64_small by lia. rewrite Ey.
  destruct (IH y Hy ltac:(lia)) as (a' & -> & Ha' & [k Hk] & Hn & Hall). exists a'. split; [done|]. split; [done|]. split; [exists (S k); cbn [ancestor]; by rewrite Ey|]. split; [lia|].
  intros z Hz Hzb. destruct (anc_step _ _ _ _ _ Hd Ha Ey Hz) as [->|Hz']; [lia|]. by apply Hall.
Qed.

(** The highest header that is an ancestor of both. *)
Definition meet (db : chainDB) (a b x : Header) : Prop := anc db a x /\ anc db b x /\ forall z, anc db a z -> anc db b z -> numberOf z <= numberOf x.

Lemma down_both_ok g db fuel : db_ok g db -> forall a b, stored db a -> stored db b -> numberOf a = numberOf b -> numberOf a < Z.of_nat fuel -> exists x, down_both fuel db a b = Ok (Some x) /\ meet db a b x.
Proof.
  intros Hd. induction fuel as [|fuel IH]; intros a b Ha Hb En Hf; pose proof (numberOf_range a (stored_ok _ _ _ Hd Ha)); [lia|]. cbn [down_both]. destruct (HashOf a =? HashOf b) eqn:E; to_prop.
  - assert (a = b) as -> by (by eapply stored_eq). exists b. split; [done|]. split; [by exists O|]. split; [by exists O|]. intros z [k Hk] _. apply (anc_inv _ _ _ Hd) in Hk as [_ ->]; [lia|done].
  - assert (0 < numberOf a) as Hpos.
    { destruct (decide (numberOf a = 0)) as [Ez|]; [|lia]. destruct E. rewrite (do_zero _ _ Hd a Ha Ez), (do_zero _ _ Hd b Hb); [done|lia]. }
    destruct (parent_stored _ _ _ Hd Ha Hpos) as (a' & Ea & (Ha' & _ & _ & Ena)). destruct (parent_stored _ _ _ Hd Hb ltac:(lia)) as (b' & Eb & (Hb' & _ & _ & Enb)).
    unfold ReadHeader. rewrite !sub64_small by lia. rewrite Ea, Eb. destruct (IH a' b' Ha' Hb' ltac:(lia) ltac:(lia)) as (x & -> & [k Hk] & [j Hj] & Hmax). exists x. split; [done|].
    split; [exists (S k); cbn [ancestor]; by rewrite Ea|]. split; [exists (S j); cbn [ancestor]; by rewrite Eb|]. intros z Hz1 Hz2.
    destruct (anc_step _ _ _ _ _ Hd Ha Ea Hz1) as [->|Hz1'].
    + exfalso. destruct Hz2 as [i Hi]. pose proof (anc_inv _ _ _ Hd _ _ Hb Hi) as [_ Hnum]. assert (i = O) as -> by lia. cbn in Hi. congruence.
    + destruct (anc_step _ _ _ _ _ Hd Hb Eb Hz2) as [->|Hz2']; [|by apply Hmax]. exfalso. destruct Hz1 as [i Hi]. pose proof (anc_inv _ _ _ Hd _ _ Ha Hi) as [_ Hnum]. assert (i = O) as -> by lia. cbn in Hi. congruence.
Qed.

Lemma FindCommonAncestor_ok g db a b : db_ok g db -> stored db a -> stored db b -> exists x, FindCommonAncestor db a b = Ok (Some x) /\ meet db a b x.
Proof.
  intros Hd Ha Hb. pose proof (numberOf_range a (stored_ok _ _ _ Hd Ha)). pose proof (numberOf_range b (stored_ok _ _ _ Hd Hb)). unfold FindCommonAncestor.
  destruct (down_to_ok _ _ (numberOf b) (S (Z.to_nat (numberOf a))) Hd ltac:(lia) a Ha ltac:(lia)) as (a' & -> & Ha' & [k Hk] & Ena & Halla). cbn [mbind res_bind].
  destruct (down_to_ok _ _ (numberOf a') (S (Z.to_nat (numberOf b))) Hd ltac:(lia) b Hb ltac:(lia)) as (b' & -> & Hb' & [j Hj] & Enb & Hallb). cbn [mbind res_bind].
  destruct (down_both_ok _ _ (S (Z.to_nat (numberOf a'))) Hd a' b' Ha' Hb' ltac:(lia) ltac:(lia)) as (x & -> & [k' Hk'] & [j' Hj'] & Hmax). exists x. split; [done|].
  assert (forall n m (u v w : Header), ancestor db n u = Some v -> ancestor db m v = Some w -> anc db u w) as Htrans.
  { induction n as [|n IH]; intros m u v w E1 E2; cbn [ancestor] in E1; [injection E1 as ->; by exists m|]. destruct (dHeader db !! (numberOf u - 1, Header.ParentHash u)) as [y|] eqn:Ey; [|done].
    destruct (IH m y v w E1 E2) as [i Hi]. exists (S i). cbn [ancestor]. by rewrite Ey. }
  split; [by eapply Htrans|]. split; [by eapply Htrans|]. intros z Hz1 Hz2.
  assert (numberOf z <= numberOf b) by (destruct Hz2 as [i Hi]; apply (anc_inv _ _ _ Hd) in Hi as [_ ->]; [lia|done]).
  assert (numberOf z <= numberOf a) by (destruct Hz1 as [i Hi]; apply (anc_inv _ _ _ Hd) in Hi as [_ ->]; [lia|done]).
  apply Hmax; [by apply Halla|]. apply Hallb; [done|lia].
Qed.

(** ** The theorems *)


(** C30: without a terminal total difficulty, insertions of whatever forks
    keep the head at the heaviest header: no known header has a higher total
    difficulty, as long as no insertion is interrupted after it has filled the caches
    and the headers of each are linked. *)
Theorem head_stays_heaviest hc : reach false hc -> TerminalTotalDifficulty (config hc) = None ->
  exists t, (GetTd (HashOf (currentHeader hc)) (numberOf (currentHeader hc)) hc).1 = Some t /\ forall h n v, (GetTd h n hc).1 = Some v -> v <= t.
Proof.
  intros [Hok Hh]%reach_ok Httd. specialize (Hh eq_refl Httd). assert (stored (chainDb hc) (currentHeader hc)) as Hs by apply (ok_canon _ Hok). destruct (stored_td _ _ _ (ok_db _ Hok) Hs) as [t Et].
  exists t. split; [by rewrite read_td|]. intros h n v E. destruct (GetTd_spec (genesisHeader hc) h n hc) as (r & hc' & Eq & _ & _ & Hr); [apply Hok|apply Hok|]. rewrite Eq in E. cbn in E. subst r. destruct Hr as (x & _ & _ & Ex).
  destruct (Hh _ _ _ Ex) as (t' & Et' & Hle). rewrite Et in Et'. injection Et' as <-. done.
Qed.

(** C31: GetAncestor, which leaves the parent links for the canonical numbers
    as soon as it can, returns and finds the ancestor that the parent links lead to,
    or nothing, if the header is too low or its ancestors stay off the canonical chain
    for longer than the caller allows; FindCommonAncestor finds the highest header
    that is an ancestor of both of its arguments. *)
Theorem ancestors_are_found rewinds hc x k m : reach rewinds hc -> stored (chainDb hc) x -> is_u64 k -> is_u64 m ->
  (exists h n m' hc', GetAncestor (HashOf x) (numberOf x) k m hc = Ok (h, n, m', hc') /\
    if numberOf x <? k then h = 0 /\ n = 0
    else exists a, ancestor (chainDb hc) (Z.to_nat k) x = Some a /\ ((h = HashOf a /\ n = numberOf a) \/ (h = 0 /\ n = 0 /\ m < k))) /\
  (forall y, stored (chainDb hc) y -> exists a, FindCommonAncestor (chainDb hc) x y = Ok (Some a) /\ meet (chainDb hc) x y a).
Proof.
  intros [Hok _]%reach_ok Hx Hk Hm. split; [|intros y Hy; apply (FindCommonAncestor_ok (genesisHeader hc)); [apply Hok|done|done]].
  destruct (GetAncestor_ok x k m hc Hok Hx Hk Hm) as (h & n & m' & hc' & E & _ & Hr). by exists h, n, m', hc'.
Qed.

(** GetHeadersFrom, from the cache and from the database, returns the
    headers of the canonical chain from the number down to the genesis, as many as
    asked for, those above the head left out. *)
Theorem header_ranges_are_canonical rewinds hc number count : reach rewinds hc -> Header.ParentHash (genesisHeader hc) = 0 -> is_u64 number -> is_u64 count ->
  let top := Z.min number (numberOf (currentHeader hc)) in
  let found := Z.min (Z.max 0 (count - (number - top))) (top + 1) in
  zlen (GetHeadersFrom number count hc).1 = found /\
  forall j : nat, Z.of_nat j < found -> (GetHeadersFrom number count hc).1 !! j = (GetHeaderByNumber (top - Z.of_nat j) hc).1.
Proof.
  intros [Hok _]%reach_ok Hz Hn Hc top found. destruct (GetHeadersFrom_ok hc Hok Hz number count Hn Hc) as (hc' & -> & _). cbn [fst]. fold top.
  assert (0 <= numberOf (currentHeader hc) < 2 ^ 64 - 1) as Hr by (apply numberOf_range, (stored_ok _ _ _ (ok_db _ Hok)), (ok_canon _ Hok)). unfold is_u64 in *.
  destruct (canonical_below_spec hc (Z.to_nat (count - (number - top))) Hok top ltac:(lia)) as [Hlen Hnth]. unfold zlen. rewrite Hlen. split; [lia|]. intros j Hj. apply Hnth. lia.
Qed.
End spec.

(** ** A chain with a fork *)

(** A cache that never evicts. *)
#[local] Instance map_lru : LRU := {|
  lru V := gmap Hash V;
  lru_Get _ h c := (c !! h, c);
  lru_Contains _ h c := bool_decide (is_Some (c !! h));
  lru_Add _ h v c := <[h := v]> c;
  lru_Purge _ _ := ∅;
|}.
#[local] Instance map_lru_ok : LRUSpec map_lru.
Proof. by refine {| held V c := c |}. Defined.

(** The genesis, a chain of two headers on it, and a heavier header beside them. *)
Definition fork_header (parent number difficulty : Z) : Header := Header.mkHeader parent 2 3 4 5 6 [] difficulty number 5000 0 10 [1; 2] 0 9 None.
Definition fork_g : Header := fork_header 0 0 10.
Definition fork_a1 : Header := fork_header 1 1 10.
Definition fork_a2 : Header := fork_header 2 2 20.
Definition fork_b1 : Header := fork_header 1 1 25.
Definition fork_codes : list bytes := map (fun x => encode (IStruct (Header.fields x))) [fork_g; fork_a1; fork_a2; fork_b1].

(** These four have small hashes. *)
#[local] Instance fork_crypto : Crypto := {|
  keccak256 bs := match list_find (eq bs) fork_codes with Some (i, _) => Z.of_nat i + 1 | None => be_value (1 :: bs) + 16 end;
  sha256Sum _ := replicate 32 0;
  ripemd160Sum _ := replicate 20 0;
  Ecrecover _ _ := None;
|}.

Lemma fork_small bs i y : list_find (eq bs) fork_codes = Some (i, y) -> (i < 4)%nat /\ fork_codes !! i = Some bs.
Proof. intros (E & <- & _)%list_find_Some. split; [by apply lookup_lt_Some in E|done]. Qed.

#[local] Instance fork_crypto_ok : CryptoSpec fork_crypto.
Proof.
  split.
  - intros a b Ha Hb. cbn [keccak256 fork_crypto]. assert (0 < be_value (1 :: a) /\ 0 < be_value (1 :: b)) as [Pa Pb].
    { rewrite !be_value_cons. pose proof (be_value_bound a Ha). pose proof (be_value_bound b Hb). pose proof (zlen_nonneg a). pose proof (zlen_nonneg b). assert (0 < 256 ^ zlen a) by (apply Z.pow_pos_nonneg; lia). assert (0 < 256 ^ zlen b) by (apply Z.pow_pos_nonneg; lia). lia. }
    destruct (list_find (eq a) fork_codes) as [[i x]|] eqn:Ea, (list_find (eq b) fork_codes) as [[j y]|] eqn:Eb; intros E.
    + destruct (fork_small _ _ _ Ea) as [_ Fa], (fork_small _ _ _ Eb) as [_ Fb]. assert (i = j) as -> by lia. congruence.
    + destruct (fork_small _ _ _ Ea). lia.
    + destruct (fork_small _ _ _ Eb). lia.
    + apply Instances.toy_keccak_inj; [done|done|lia].
  - intros b. split; [|done]. repeat constructor; by compute.
  - intros b. split; [|done]. repeat constructor; by compute.
  - done.
Qed.

Lemma fork_header_ok x : x ∈ [fork_g; fork_a1; fork_a2; fork_b1] -> hdr_ok x.
Proof.
  intros Hx. assert (forall p n d, 0 <= p < 2 ^ 8 -> 0 <= n < 2 ^ 8 -> 0 <= d < 2 ^ 8 -> HashOf (fork_header p n d) <> 0 -> hdr_ok (fork_header p n d)) as H.
  { intros p n d Hp Hn Hd Hh. split; [|cbn; lia|done]. split; cbn -[Z.pow]; [unfold Uint256.is_word, Uint256.two256; repeat split; lia|lia|split; [by constructor|by compute]|lia|by compute|split; [repeat constructor; by compute|by compute]|done]. }
  repeat (apply elem_of_cons in Hx as [->|Hx]; [apply H; [lia..|vm_compute; discriminate]|]). by apply elem_of_nil in Hx.
Qed.

Definition chain_config : ChainConfig := sample_config (Some 0) None None.
Definition fork_chain0 : HeaderChain := match NewHeaderChain (genesis_tables fork_g) chain_config ∅ ∅ ∅ fork_g with inl hc => hc | inr _ => mkHC chain_config (genesis_tables fork_g) fork_g fork_g 0 ∅ ∅ ∅ end.
Definition after (r : res ((WriteStatus + ChainErr) * HeaderChain)) : HeaderChain := match r with Ok (_, hc) => hc | _ => fork_chain0 end.
Definition fork_insert (headers : list Header) (hc : HeaderChain) : HeaderChain := after (InsertHeaderChain false false None false headers hc).
(** The first header, then the heavier one beside it, then one on the first. *)
Definition fork_chain3 : HeaderChain := fork_insert [fork_a2] (fork_insert [fork_b1] (fork_insert [fork_a1] fork_chain0)).

Lemma fork_attaches db x p : x ∈ [fork_g; fork_a1; fork_a2; fork_b1] -> 0 < numberOf x -> dNumber db !! Header.ParentHash x = Some p -> p + 1 = numberOf x ->
  (forall n y, dHeader db !! (n, Header.ParentHash x) = Some y -> dNumber db !! Header.ParentHash x = Some n) -> attaches db [x].
Proof. intros Hx Hn E Ep Hd. split; [by apply fork_header_ok|]. split; [done|]. split; [done|]. intros n y Hy%Hd. congruence. Qed.

Lemma fork_insert_reach rewinds x hc : reach rewinds hc -> x ∈ [fork_g; fork_a1; fork_a2; fork_b1] -> 0 < numberOf x -> dNumber (chainDb hc) !! Header.ParentHash x = Some (numberOf x - 1) ->
  match InsertHeaderChain false false None false [x] hc with Ok _ => True | _ => False end -> reach rewinds (fork_insert [x] hc).
Proof.
  intros Hr Hx Hn E Hi. unfold fork_insert, after. destruct (InsertHeaderChain false false None false [x] hc) as [[r hc']| |] eqn:Eq; [|done..].
  eapply reach_insert; [exact Hr| |exact Eq]. eapply (fork_attaches _ _ (numberOf x - 1)); [done|done|done|lia|]. intros n y Ey. pose proof (reach_ok _ _ Hr) as [Hok _]. apply (do_num _ _ (ok_db _ Hok)). by eexists.
Qed.

Lemma fork_reach rewinds : reach rewinds fork_chain3.
Proof.
  assert (reach rewinds fork_chain0) as H0.
  { eapply (reach_new _ chain_config fork_g ∅ ∅ ∅ fork_g); [apply fork_header_ok; by left|by vm_compute|done|by vm_compute]. }
  unfold fork_chain3. apply fork_insert_reach; [|do 2 right; by left|by vm_compute|by vm_compute|by vm_compute].
  apply fork_insert_reach; [|do 3 right; by left|by vm_compute|by vm_compute|by vm_compute].
  apply fork_insert_reach; [exact H0|right; by left|by vm_compute|by vm_compute|by vm_compute].
Qed.


Lemma head_stays_heaviest_witness : exists t, (GetTd (HashOf (currentHeader fork_chain3)) (numberOf (currentHeader fork_chain3)) fork_chain3).1 = Some t /\ 35 <= t.
Proof.
  destruct (head_stays_heaviest fork_chain3 (fork_reach false) ltac:(by vm_compute)) as (t & E & H). exists t. split; [exact E|]. apply (H 4 1). by vm_compute.
Defined.

Lemma ancestors_are_found_witness : exists a, FindCommonAncestor (chainDb fork_chain3) fork_a2 fork_b1 = Ok (Some a) /\ meet (chainDb fork_chain3) fork_a2 fork_b1 a /\ a = fork_g.
Proof.
  destruct (ancestors_are_found true fork_chain3 fork_a2 2 5 (fork_reach true) ltac:(by vm_compute) ltac:(by compute) ltac:(by compute)) as [_ H].
  destruct (H fork_b1 ltac:(by vm_compute)) as (a & E & Hm). exists a. split; [exact E|]. split; [exact Hm|].
  assert (FindCommonAncestor (chainDb fork_chain3) fork_a2 fork_b1 = Ok (Some fork_g)) as F by by vm_compute. rewrite E in F. by injection F.
Defined.

Lemma header_ranges_are_canonical_witness : zlen (GetHeadersFrom 5 5 fork_chain3).1 = 2.
Proof. destruct (header_ranges_are_canonical true fork_chain3 5 5 (fork_reach true) ltac:(by vm_compute) ltac:(by compute) ltac:(by compute)) as [E _]. rewrite E. by vm_compute. Defined.

(** An insertion that is interrupted after the caches were filled: the same insertion
    then succeeds without writing the header, and the head of the chain is missing in
    the database. *)
Example aborted_insert_loses_header :
  match InsertHeaderChain false true None false [fork_a1] fork_chain0 with
  | Ok (inr errAborted, hc) =>
    match InsertHeaderChain false false None false [fork_a1] hc with
    | Ok (inl CanonStatTy, hc') => currentHeader hc' = fork_a1 /\ GetCanonicalHash 1 hc' = HashOf fork_a1 /\ db_HasHeader (chainDb hc') (HashOf fork_a1) 1 = false
    | _ => False
    end
  | _ => False
  end.
Proof. by vm_compute. Qed.
End HeaderChainRuns.
