(* ===== verification/Snapshot.v ===== *)
(** * The snapshot tree ([blockchain/state/snapshot/snapshot.go], [difflayer.go],
    [disklayer.go])

    A disk layer with the state of one block, and diff layers in memory on top of it,
    one for each later block.  Layers and the maps of storage slots are objects that
    are shared and updated in place: they live in a heap, a pointer is a number.  The
    maps of a diff layer that is flattened into are updated with it; the map of the
    slots of an account may be shared between two layers.

    The snapshot is complete: no generator is running.  The Bloom filter, the cache of
    the disk layer and the offsets drawn at start are parameters.  Locks, meters and
    the lists kept for iterators are left out; blobs and slot maps are never nil. *)

From S2P Require Import Prelude Common EvmState.

Local Open Scope Z_scope.

(** ** The libraries *)

(** [holiman/bloomfilter]: no entry is forgotten. *)
Class BloomFilter := {
  bloom : Type;
  bloom_New : bloom;
  bloom_Add : Z -> bloom -> bloom;
  bloom_Contains : Z -> bloom -> bool;
}.
Class BloomSpec (B : BloomFilter) : Prop := {
  bloom_added x f : bloom_Contains x (bloom_Add x f) = true;
  bloom_kept x y f : bloom_Contains y f = true -> bloom_Contains y (bloom_Add x f) = true;
}.

(** The keys of accounts and of slots: in the code the 32 bytes of the hash of the
    account, and the 64 bytes of both hashes. *)
Inductive key := KAcc (account : Hash) | KSlot (account slot : Hash).
#[export] Instance key_eq_dec : EqDecision key.
Proof. solve_decision. Defined.
#[export] Instance key_countable : Countable key.
Proof.
  apply (inj_countable' (fun k => match k with KAcc a => inl a | KSlot a s => inr (a, s) end)
    (fun x => match x with inl a => KAcc a | inr (a, s) => KSlot a s end)). by intros [].
Defined.

(** [VictoriaMetrics/fastcache]: entries may be dropped; entries of 64 KB and more are
    not stored. *)
Class FastCache := {
  fcache : Type;
  fc_HasGet : key -> fcache -> option bytes;
  fc_Set : key -> bytes -> fcache -> fcache;
  fc_Del : key -> fcache -> fcache;
}.
Class FastCacheSpec (F : FastCache) := {
  kept_in : fcache -> gmap key bytes;
  kept_HasGet k c : fc_HasGet k c = kept_in c !! k;
  kept_Set k v c : zlen v < 2 ^ 16 -> kept_in (fc_Set k v c) ⊆ <[k := v]> (kept_in c);
  kept_Del k c : kept_in (fc_Del k c) ⊆ delete k (kept_in c);
}.

Module Snapshot.

Inductive SnapErr := ErrSnapshotStale | errSnapshotCycle | errSnapshotMissing | errDiskLayer.

(** The layers as values of the interface [snapshot]. *)
Inductive layer := Disk (p : nat) | Diff (p : nat).
#[export] Instance layer_eq_dec : EqDecision layer.
Proof. solve_decision. Defined.

(** The maps of slots. *)
Notation slotHeap := (gmap nat (gmap Hash bytes)).

Definition aggregatorMemoryLimit : Z := 4 * 1024 * 1024.

Section tree.
Context `{B : BloomFilter} `{F : FastCache} (destructOffset accountOffset storageOffset : Z).

(** ** The heap *)

Record diskLayer := mkDisk { d_root : Hash; d_stale : bool }.
Record diffLayer := mkDiff {
  origin : nat;
  parent : layer;
  memory : Z;
  root : Hash;
  stale : bool;
  destructSet : gset Hash;
  accountData : gmap Hash bytes;
  storageData : gmap Hash nat;
  diffed : bloom;
}.

(** The key-value store and the cache of the disk layers, which all of them share. *)
Record kvStore := mkStore {
  accounts : gmap Hash bytes;
  slots : gmap (Hash * Hash) bytes;
  snapshotRoot : option Hash;
  cache : fcache;
}.

Record Tree := mkTree {
  next : nat;
  disks : gmap nat diskLayer;
  diffs : gmap nat diffLayer;
  heap : slotHeap;
  db : kvStore;
  layers : gmap Hash layer;
}.
Definition with_diffs v w := mkTree (next w) (disks w) v (heap w) (db w) (layers w).
Definition with_heap v w := mkTree (next w) (disks w) (diffs w) v (db w) (layers w).
Definition with_db v w := mkTree (next w) (disks w) (diffs w) (heap w) v (layers w).
Definition with_layers v w := mkTree (next w) (disks w) (diffs w) (heap w) (db w) v.
Definition new_diff (l : diffLayer) (w : Tree) : nat * Tree := (next w, mkTree (S (next w)) (disks w) (<[next w := l]> (diffs w)) (heap w) (db w) (layers w)).
Definition new_disk (l : diskLayer) (w : Tree) : nat * Tree := (next w, mkTree (S (next w)) (<[next w := l]> (disks w)) (diffs w) (heap w) (db w) (layers w)).

Definition set_parent v l := mkDiff (origin l) v (memory l) (root l) (stale l) (destructSet l) (accountData l) (storageData l) (diffed l).
Definition set_bloom o v l := mkDiff o (parent l) (memory l) (root l) (stale l) (destructSet l) (accountData l) (storageData l) v.

Definition Root (s : layer) (w : Tree) : res Hash :=
  match s with
  | Disk p => d ← or_panic PanicNil (disks w !! p); Ok (d_root d)
  | Diff p => l ← or_panic PanicNil (diffs w !! p); Ok (root l)
  end.
Definition Stale (s : layer) (w : Tree) : res bool :=
  match s with
  | Disk p => d ← or_panic PanicNil (disks w !! p); Ok (d_stale d)
  | Diff p => l ← or_panic PanicNil (diffs w !! p); Ok (stale l)
  end.

(** ** The Bloom filter *)

(** Eight bytes of a hash from an offset. *)
Definition Uint64_at (off : Z) (h : Hash) : Z := Z.land (Z.shiftr h (8 * (24 - off))) (2 ^ 64 - 1).
Definition destructBloomHasher (h : Hash) : Z := Uint64_at destructOffset h.
Definition accountBloomHasher (h : Hash) : Z := Uint64_at accountOffset h.
Definition storageBloomHasher (a s : Hash) : Z := Z.lxor (Uint64_at storageOffset a) (Uint64_at storageOffset s).

Definition account_of (k : key) : Hash := match k with KAcc a => a | KSlot a _ => a end.
Definition key_hasher (k : key) : Z := match k with KAcc a => accountBloomHasher a | KSlot a s => storageBloomHasher a s end.
Definition hit (f : bloom) (k : key) : bool := bloom_Contains (key_hasher k) f || bloom_Contains (destructBloomHasher (account_of k)) f.

Definition slots_at (h : slotHeap) (p : nat) : gmap Hash bytes := default ∅ (h !! p).

(** What a layer adds to the filter. *)
Definition bloom_keys (l : diffLayer) (h : slotHeap) : list Z :=
  map destructBloomHasher (elements (destructSet l)) ++ map (fun kv => accountBloomHasher kv.1) (map_to_list (accountData l)) ++
  concat (map (fun kv => map (fun sv => storageBloomHasher kv.1 sv.1) (map_to_list (slots_at h kv.2))) (map_to_list (storageData l))).

Definition rebloom (p : nat) (o : nat) (w : Tree) : res Tree :=
  l ← or_panic PanicNil (diffs w !! p);
  f ← match parent l with
      | Diff q => d ← or_panic PanicNil (diffs w !! q); Ok (diffed d)
      | Disk _ => Ok bloom_New
      end;
  Ok (with_diffs (<[p := set_bloom o (fold_left (fun f x => bloom_Add x f) (bloom_keys l (heap w)) f) l]> (diffs w)) w).

(** ** Reading *)

(** What a layer knows of a key itself. *)
Definition local (l : diffLayer) (h : slotHeap) (k : key) : option bytes :=
  match (match k with
         | KAcc a => accountData l !! a
         | KSlot a s => p ← storageData l !! a; slots_at h p !! s
         end) with
  | Some d => Some d
  | None => if bool_decide (account_of k ∈ destructSet l) then Some [] else None
  end.

Definition on_disk (st : kvStore) (k : key) : bytes :=
  match k with KAcc a => default [] (accounts st !! a) | KSlot a s => default [] (slots st !! (a, s)) end.
Definition with_cache c st := mkStore (accounts st) (slots st) (snapshotRoot st) c.

Definition disk_read (p : nat) (k : key) (w : Tree) : res ((bytes + SnapErr) * Tree) :=
  d ← or_panic PanicNil (disks w !! p);
  if d_stale d then Ok (inr ErrSnapshotStale, w)
  else
    match fc_HasGet k (cache (db w)) with
    | Some blob => Ok (inl blob, w)
    | None => let blob := on_disk (db w) k in Ok (inl blob, with_db (with_cache (fc_Set k blob (cache (db w))) (db w)) w)
    end.

Fixpoint diff_read (fuel : nat) (p : nat) (k : key) (w : Tree) : res ((bytes + SnapErr) * Tree) :=
  match fuel with
  | O => NoFuel
  | S fuel =>
    l ← or_panic PanicNil (diffs w !! p);
    if stale l then Ok (inr ErrSnapshotStale, w)
    else
      match local l (heap w) k with
      | Some data => Ok (inl data, w)
      | None => match parent l with Diff q => diff_read fuel q k w | Disk q => disk_read q k w end
      end
  end.
Definition accountRLP (p : nat) (hash : Hash) (w : Tree) := diff_read (next w) p (KAcc hash) w.
Definition storage (p : nat) (accountHash storageHash : Hash) (w : Tree) := diff_read (next w) p (KSlot accountHash storageHash) w.

(** A miss of the filter goes straight to the disk. *)
Definition AccountRLP (s : layer) (hash : Hash) (w : Tree) : res ((bytes + SnapErr) * Tree) :=
  match s with
  | Disk p => disk_read p (KAcc hash) w
  | Diff p =>
    l ← or_panic PanicNil (diffs w !! p);
    if hit (diffed l) (KAcc hash) then accountRLP p hash w else disk_read (origin l) (KAcc hash) w
  end.
Definition Storage (s : layer) (accountHash storageHash : Hash) (w : Tree) : res ((bytes + SnapErr) * Tree) :=
  match s with
  | Disk p => disk_read p (KSlot accountHash storageHash) w
  | Diff p =>
    l ← or_panic PanicNil (diffs w !! p);
    if hit (diffed l) (KSlot accountHash storageHash) then storage p accountHash storageHash w
    else disk_read (origin l) (KSlot accountHash storageHash) w
  end.

(** ** Adding layers *)

(** The maps of the slots are retained: they become objects of the heap. *)
Fixpoint retain (l : list (Hash * gmap Hash bytes)) (w : Tree) : gmap Hash nat * Tree :=
  match l with
  | [] => (∅, w)
  | (a, m) :: r =>
    let w := mkTree (S (next w)) (disks w) (diffs w) (<[next w := m]> (heap w)) (db w) (layers w) in
    let p := pred (next w) in
    let '(st, w) := retain r w in (<[a := p]> st, w)
  end.

Definition data_size (m : gmap Hash bytes) : Z := map_fold (fun _ d z => z + (32 + zlen d)) 0 m.
Definition newDiffLayer (par : layer) (rt : Hash) (destructs : gset Hash) (accs : gmap Hash bytes) (stor : gmap Hash (gmap Hash bytes)) (w : Tree) : res (nat * Tree) :=
  let '(st, w) := retain (map_to_list stor) w in
  o ← match par with Disk p => Ok p | Diff q => d ← or_panic PanicNil (diffs w !! q); Ok (origin d) end;
  let mem := u64 (data_size accs + map_fold (fun _ m z => z + data_size m) 0 stor + 32 * Z.of_nat (size destructs)) in
  let '(p, w) := new_diff (mkDiff o par mem rt false destructs accs st bloom_New) w in
  w ← rebloom p o w;
  Ok (p, w).

Definition Update (blockRoot parentRoot : Hash) (destructs : gset Hash) (accs : gmap Hash bytes) (stor : gmap Hash (gmap Hash bytes)) (w : Tree)
    : res (option SnapErr * Tree) :=
  if blockRoot =? parentRoot then Ok (Some errSnapshotCycle, w)
  else
    match layers w !! parentRoot with
    | None => Ok (Some errSnapshotMissing, w)
    | Some par =>
      '(p, w) ← newDiffLayer par blockRoot destructs accs stor w;
      Ok (None, with_layers (<[blockRoot := Diff p]> (layers w)) w)
    end.

(** ** Flattening *)

(** The slots of a layer written into those of the layer below. *)
Fixpoint merge_slots (l : list (Hash * nat)) (st : gmap Hash nat) (h : slotHeap) : gmap Hash nat * slotHeap :=
  match l with
  | [] => (st, h)
  | (a, q) :: r =>
    match st !! a with
    | None => merge_slots r (<[a := q]> st) h
    | Some c => merge_slots r st (<[c := slots_at h q ∪ slots_at h c]> h)
    end
  end.

Fixpoint flatten (fuel : nat) (p : nat) (w : Tree) : res (nat * Tree) :=
  match fuel with
  | O => NoFuel
  | S fuel =>
    l ← or_panic PanicNil (diffs w !! p);
    match parent l with
    | Disk _ => Ok (p, w)
    | Diff q =>
      '(q, w) ← flatten fuel q w;
      par ← or_panic PanicNil (diffs w !! q);
      if stale par then Panic PanicStaleLayer
      else
        let des := destructSet par ∪ destructSet l in
        let acc := accountData l ∪ filter (fun kv => kv.1 ∉ destructSet l) (accountData par) in
        let '(st, h) := merge_slots (map_to_list (storageData l)) (filter (fun kv => kv.1 ∉ destructSet l) (storageData par)) (heap w) in
        let w := with_heap h (with_diffs (<[q := mkDiff (origin par) (parent par) (memory par) (root par) true des acc st (diffed par)]> (diffs w)) w) in
        Ok (new_diff (mkDiff (origin par) (parent par) (u64 (memory par + memory l)) (root l) false des acc st (diffed l)) w)
    end
  end.

(** ** Writing to the disk *)

Definition destroy (a : Hash) (st : kvStore) : kvStore :=
  mkStore (delete a (accounts st)) (filter (fun kv => kv.1.1 <> a) (slots st)) (snapshotRoot st)
    (fold_left (fun c kv => if decide (kv.1.1 = a) then fc_Del (KSlot a kv.1.2) c else c) (map_to_list (slots st)) (fc_Set (KAcc a) [] (cache st))).
Definition put (st : kvStore) (kd : key * bytes) : kvStore :=
  let '(k, data) := kd in
  match k with
  | KAcc a => mkStore (<[a := data]> (accounts st)) (slots st) (snapshotRoot st) (fc_Set k data (cache st))
  | KSlot a s => mkStore (accounts st) (if 0 <? zlen data then <[(a, s) := data]> (slots st) else delete (a, s) (slots st)) (snapshotRoot st)
                   (fc_Set k (if 0 <? zlen data then data else []) (cache st))
  end.
Definition flush_keys (l : diffLayer) (h : slotHeap) : list (key * bytes) :=
  map (fun kv => (KAcc kv.1, kv.2)) (map_to_list (accountData l)) ++
  concat (map (fun kv => map (fun sv => (KSlot kv.1 sv.1, sv.2)) (map_to_list (slots_at h kv.2))) (map_to_list (storageData l))).
Definition with_root r st := mkStore (accounts st) (slots st) (Some r) (cache st).

Definition diffToDisk (bottom : nat) (w : Tree) : res (nat * Tree) :=
  l ← or_panic PanicNil (diffs w !! bottom);
  match parent l with
  | Diff _ => Panic PanicTypeAssertion
  | Disk b =>
    base ← or_panic PanicNil (disks w !! b);
    if d_stale base then Panic PanicStaleLayer
    else
      let st := fold_left (fun st a => destroy a st) (elements (destructSet l)) (db w) in
      let st := fold_left put (flush_keys l (heap w)) st in
      let w := mkTree (next w) (<[b := mkDisk (d_root base) true]> (disks w)) (diffs w) (heap w) (with_root (root l) st) (layers w) in
      Ok (new_disk (mkDisk (root l) false) w)
  end.

(** ** [Cap] *)

(** Down the diff layers, [n] of them. *)
Fixpoint dive (n : nat) (p : nat) (w : Tree) : res (option nat) :=
  match n with
  | O => Ok (Some p)
  | S n => l ← or_panic PanicNil (diffs w !! p); match parent l with Diff q => dive n q w | Disk _ => Ok None end
  end.

Definition relink (p : nat) (s : layer) (w : Tree) : res Tree :=
  l ← or_panic PanicNil (diffs w !! p); Ok (with_diffs (<[p := set_parent s l]> (diffs w)) w).

(** The new disk layer, if there is one. *)
Definition cap (p : nat) (n : Z) (w : Tree) : res (option nat * Tree) :=
  d ← dive (Z.to_nat (n - 1)) p w;
  match d with
  | None => Ok (None, w)
  | Some p =>
    l ← or_panic PanicNil (diffs w !! p);
    match parent l with
    | Disk _ => Ok (None, w)
    | Diff q =>
      '(f, w) ← flatten (next w) q w;
      fl ← or_panic PanicNil (diffs w !! f);
      let w := with_layers (<[root fl := Diff f]> (layers w)) w in
      w ← relink p (Diff f) w;
      if memory fl <? aggregatorMemoryLimit then
        match parent fl with Disk _ => Ok (None, w) | Diff _ => Panic PanicTypeAssertion end
      else
        '(b, w) ← diffToDisk f w;
        r ← Root (Disk b) w;
        let w := with_layers (<[r := Disk b]> (layers w)) w in
        w ← relink p (Disk b) w;
        Ok (Some b, w)
    end
  end.

(** The roots of the layers on top of a root. *)
Fixpoint children_of (l : list (Hash * layer)) (w : Tree) : res (gmap Hash (list Hash)) :=
  match l with
  | [] => Ok ∅
  | (_, Disk _) :: rest => children_of rest w
  | (r, Diff p) :: rest =>
    d ← or_panic PanicNil (diffs w !! p);
    pr ← Root (parent d) w;
    c ← children_of rest w;
    Ok (<[pr := r :: default [] (c !! pr)]> c)
  end.

Fixpoint remove (fuel : nat) (r : Hash) (st : gmap Hash layer * gmap Hash (list Hash)) : res (gmap Hash layer * gmap Hash (list Hash)) :=
  match fuel with
  | O => NoFuel
  | S fuel =>
    '(ls, ch) ← fold_left (fun acc c => st ← acc; remove fuel c st) (default [] (st.2 !! r)) (Ok (delete r st.1, st.2));
    Ok (ls, delete r ch)
  end.
Fixpoint remove_stale (l : list (Hash * layer)) (w : Tree) (st : gmap Hash layer * gmap Hash (list Hash)) : res (gmap Hash layer * gmap Hash (list Hash)) :=
  match l with
  | [] => Ok st
  | (r, s) :: rest =>
    b ← Stale s w;
    st ← (if (b : bool) then remove (S (next w)) r st else Ok st);
    remove_stale rest w st
  end.

Fixpoint rebloom_from (fuel : nat) (persisted : nat) (ch : gmap Hash (list Hash)) (r : Hash) (w : Tree) : res Tree :=
  match fuel with
  | O => NoFuel
  | S fuel =>
    w ← match layers w !! r with Some (Diff p) => rebloom p persisted w | _ => Ok w end;
    fold_left (fun acc c => w ← acc; rebloom_from fuel persisted ch c w) (default [] (ch !! r)) (Ok w)
  end.

Definition Cap (r : Hash) (n : Z) (w : Tree) : res (option SnapErr * Tree) :=
  match layers w !! r with
  | None => Ok (Some errSnapshotMissing, w)
  | Some (Disk _) => Ok (Some errDiskLayer, w)
  | Some (Diff p) =>
    if n =? 0 then
      '(f, w) ← flatten (next w) p w;
      '(b, w) ← diffToDisk f w;
      rb ← Root (Disk b) w;
      Ok (None, with_layers {[rb := Disk b]} w)
    else
      '(persisted, w) ← cap p n w;
      ch ← children_of (map_to_list (layers w)) w;
      '(ls, ch) ← remove_stale (map_to_list (layers w)) w (layers w, ch);
      let w := with_layers ls w in
      w ← match persisted with
          | None => Ok w
          | Some b => rb ← Root (Disk b) w; rebloom_from (S (next w)) b ch rb w
          end;
      Ok (None, w)
  end.
End tree.
End Snapshot.
