(* ===== verification/SnapshotSpec.v ===== *)
(** * The snapshot tree shows the states it was given

    A layer is alive when neither it nor any layer below it has become stale; a layer
    that is alive shows a state: what it and the layers below it know of a key, or what
    is on the disk.  Reading a layer that is alive returns the state it shows, updates
    show the state of the parent with the changes, and capping the tree changes no state
    that is still shown, although it flattens layers into each other, in place, and
    writes them to the disk. *)

From S2P Require Import Prelude Common EvmState Snapshot.

Local Open Scope Z_scope.

Module SnapshotSpec.

Import Snapshot.

Section spec.
Context `{B : BloomFilter} `{BS : !BloomSpec B} `{F : FastCache} `{FS : !FastCacheSpec F} (dO aO sO : Z).
Implicit Types (w : Tree) (s : layer) (c : list nat) (l : diffLayer) (p q : nat) (k : key) (h : slotHeap).

Local Notation hit := (hit dO aO sO).
Local Notation rebloom := (rebloom dO aO sO).
Local Notation AccountRLP := (AccountRLP dO aO sO).
Local Notation Storage := (Storage dO aO sO).
Local Notation Update := (Update dO aO sO).
Local Notation Cap := (Cap dO aO sO).

(** ** Layers that are alive, and what they show *)

Inductive live w : layer -> list nat -> Prop :=
| live_disk p d : disks w !! p = Some d -> d_stale d = false -> live w (Disk p) []
| live_diff p l c : diffs w !! p = Some l -> stale l = false -> live w (parent l) c -> live w (Diff p) (p :: c).

Fixpoint chain_get w (c : list nat) (k : key) : bytes :=
  match c with
  | [] => on_disk (db w) k
  | p :: r => match (l ← diffs w !! p; local l (heap w) k) with Some d => d | None => chain_get w r k end
  end.

Definition root_of w s : option Hash := match s with Disk p => d_root <$> disks w !! p | Diff p => root <$> diffs w !! p end.

(** A diff layer of the tree that is alive. *)
Definition alive w p c : Prop := (exists r, layers w !! r = Some (Diff p)) /\ live w (Diff p) c.

Definition small_blob (v : bytes) : Prop := zlen v < 2 ^ 16.

(** The invariant; the filters may have to be renewed. *)
Record invb {blooms : bool} (rank : Hash -> nat) w : Prop := {
  iv_next p : is_Some (disks w !! p) \/ is_Some (diffs w !! p) \/ is_Some (heap w !! p) -> (p < next w)%nat;
  iv_rank p l : diffs w !! p = Some l -> exists pr, root_of w (parent l) = Some pr /\ (rank pr < rank (root l) < next w)%nat;
  iv_rank_disk p d : disks w !! p = Some d -> (rank (d_root d) < next w)%nat;
  iv_disk : exists b d, disks w !! b = Some d /\ d_stale d = false /\ layers w !! d_root d = Some (Disk b) /\
    forall b' d', disks w !! b' = Some d' -> d_stale d' = false -> b' = b;
  iv_tree r s : layers w !! r = Some s -> root_of w s = Some r;
  iv_parent p c l : alive w p c -> diffs w !! p = Some l -> exists pr, root_of w (parent l) = Some pr /\ layers w !! pr = Some (parent l);
  iv_origin' : blooms = true -> forall p c l, alive w p c -> diffs w !! p = Some l -> exists d, disks w !! origin l = Some d /\ d_stale d = false;
  iv_bloom' : blooms = true -> forall p c l q m k v, alive w p c -> diffs w !! p = Some l -> q ∈ c -> diffs w !! q = Some m -> local m (heap w) k = Some v -> hit (diffed l) k = true;
  iv_sep p c l p' c' l' a a' x : alive w p c -> diffs w !! p = Some l -> alive w p' c' -> diffs w !! p' = Some l' ->
    storageData l !! a = Some x -> storageData l' !! a' = Some x -> p = p' /\ a = a';
  iv_heap p l a x : diffs w !! p = Some l -> storageData l !! a = Some x -> is_Some (heap w !! x);
  iv_small p l a v : diffs w !! p = Some l -> accountData l !! a = Some v -> small_blob v;
  iv_small_slot x m a v : heap w !! x = Some m -> m !! a = Some v -> small_blob v;
  iv_small_disk k : small_blob (on_disk (db w) k);
  iv_cache k v : kept_in (cache (db w)) !! k = Some v -> v = on_disk (db w) k;
}.

Local Notation inv := (invb (blooms := true)).
Definition iv_origin rank w (Hi : inv rank w) := iv_origin' rank w Hi eq_refl.
Definition iv_bloom rank w (Hi : inv rank w) := iv_bloom' rank w Hi eq_refl.

Lemma live_fun w s c : live w s c -> forall c', live w s c' -> c = c'.
Proof.
  induction 1 as [p d E1 E2|p l c E1 E2 _ IH]; intros c' H'; inversion H' as [|p' l' c'' E1' E2' H'' Eq]; subst; [done|]. rewrite E1 in E1'. injection E1' as <-. f_equal. by apply IH.
Qed.

Lemma live_in w s c : live w s c -> forall q, q ∈ c -> exists l c', diffs w !! q = Some l /\ live w (Diff q) c' /\ c' ⊆ c.
Proof.
  induction 1 as [p d E1 E2|p l c E1 E2 Hl IH]; intros q; [by intros ?%elem_of_nil|]. intros [->|Hq]%elem_of_cons.
  - exists l, (p :: c). split; [done|]. split; [by econstructor|done].
  - destruct (IH q Hq) as (lq & c' & E & Hc & Hsub). exists lq, c'. split; [done|]. split; [done|]. set_solver.
Qed.

(** The layers below one of the tree that is alive are in the tree. *)
Lemma alive_in rank w p c : inv rank w -> alive w p c -> forall q, q ∈ c -> exists c', alive w q c' /\ c' ⊆ c.
Proof.
  intros Hi [Hr Hl]. remember (Diff p) as s eqn:Es. revert p Hr Es. induction Hl as [p d E1 E2|p l c E1 E2 Hl IH]; intros p' Hr Es; [done|]. injection Es as <-.
  assert (alive w p (p :: c)) as Ha by (split; [done|by econstructor]).
  intros q [->|Hq]%elem_of_cons; [by exists (p :: c)|]. destruct (iv_parent _ _ Hi p (p :: c) l Ha E1) as (pr & _ & Epr). destruct (parent l) as [b|p''] eqn:Ep.
  - inversion Hl; subst. by apply elem_of_nil in Hq.
  - destruct (IH p'' (ex_intro _ pr Epr) eq_refl q Hq) as (c' & Hc & Hsub). exists c'. split; [done|]. set_solver.
Qed.

Lemma alive_parent rank w p c l q : inv rank w -> alive w p c -> diffs w !! p = Some l -> parent l = Diff q -> exists c', alive w q c' /\ c = p :: c'.
Proof.
  intros Hi Ha E Ep. pose proof Ha as [_ Hl]. inversion Hl as [|p' l' c' E1 E2 Hl' Eq Ec]; subst. rewrite E in E1. injection E1 as <-. rewrite Ep in Hl'.
  destruct (iv_parent _ _ Hi p _ l Ha E) as (pr & _ & Epr). rewrite Ep in Epr. exists c'. split; [|done]. split; [by exists pr|done].
Qed.

(** Heights: the ranks fall along a chain. *)
Lemma live_length rank w p c : inv rank w -> live w (Diff p) c -> forall l, diffs w !! p = Some l -> (length c <= S (rank (root l)))%nat.
Proof.
  intros Hi Hl. remember (Diff p) as s eqn:Es. revert p Es. induction Hl as [p d E1 E2|p l c E1 E2 Hl IH]; intros p' Es l' E; [done|]. injection Es as <-. rewrite E in E1. injection E1 as ->.
  destruct (iv_rank _ _ Hi _ _ E) as (pr & Epr & Hr1 & Hr2). destruct (parent l) as [b|q] eqn:Ep; [inversion Hl; subst; cbn; lia|]. cbn in Epr. destruct (diffs w !! q) as [lq|] eqn:Eq; [|done]. cbn in Epr. injection Epr as <-.
  specialize (IH q eq_refl lq Eq). cbn. lia.
Qed.

(** ** Reading *)

(** Only the cache has changed. *)
Definition recached w w' : Prop := exists ca, w' = with_db (with_cache ca (db w)) w.

Lemma recached_live w w' s c : recached w w' -> live w' s c <-> live w s c.
Proof. intros [ca ->]. split; (induction 1; [by econstructor|by econstructor]). Qed.

Lemma recached_get w w' c k : recached w w' -> chain_get w' c k = chain_get w c k.
Proof. intros [ca ->]. induction c as [|p c IH]; [by destruct k|]. cbn. by rewrite IH. Qed.

Lemma recached_inv rank w w' : recached w w' -> (forall k v, kept_in (cache (db w')) !! k = Some v -> v = on_disk (db w) k) -> inv rank w -> inv rank w'.
Proof.
  intros Hr Hk Hi. assert (forall p c, alive w' p c <-> alive w p c) as Ha by (intros; unfold alive; rewrite (recached_live w w') by done; destruct Hr as [ca ->]; done).
  assert (forall k, on_disk (db w') k = on_disk (db w) k) as Hd by (intros k; destruct Hr as [ca ->]; by destruct k). destruct Hi. split; try setoid_rewrite Ha; try setoid_rewrite Hd; try (destruct Hr as [ca ->]; done). all: try (destruct Hr as [ca ->]; cbn; eauto).
Qed.

Definition layer_read (s : layer) (k : key) w : res ((bytes + SnapErr) * Tree) :=
  match s with
  | Disk p => disk_read p k w
  | Diff p => l ← or_panic PanicNil (diffs w !! p); if hit (diffed l) k then diff_read (next w) p k w else disk_read (origin l) k w
  end.

Lemma disk_read_ok rank w p d k : inv rank w -> disks w !! p = Some d -> d_stale d = false ->
  exists w', disk_read p k w = Ok (inl (on_disk (db w) k), w') /\ inv rank w' /\ recached w w'.
Proof.
  intros Hi E Es. unfold disk_read. rewrite E. cbn [or_panic mbind res_bind]. rewrite Es. rewrite kept_HasGet. destruct (kept_in (cache (db w)) !! k) as [v|] eqn:Ev.
  - exists w. rewrite (iv_cache _ _ Hi _ _ Ev). split; [done|]. split; [done|]. exists (cache (db w)). by destruct w as [? ? ? ? [] ?].
  - eexists. split; [done|]. assert (recached w (with_db (with_cache (fc_Set k (on_disk (db w) k) (cache (db w))) (db w)) w)) as Hr by by eexists. split; [|done]. eapply recached_inv; [done| |done]. cbn.
    intros k' v Ek. eapply lookup_weaken in Ek; [|apply kept_Set, (iv_small_disk _ _ Hi)]. apply lookup_insert_Some in Ek as [[<- <-]|[_ Ek]]; [done|]. by apply (iv_cache _ _ Hi).
Qed.

Lemma diff_read_ok rank w k fuel : inv rank w -> forall p c l, live w (Diff p) c -> diffs w !! p = Some l -> (rank (root l) < fuel)%nat ->
  exists w', diff_read fuel p k w = Ok (inl (chain_get w c k), w') /\ inv rank w' /\ recached w w'.
Proof.
  intros Hi. induction fuel as [|fuel IH]; intros p c l Hl E Hf; [lia|]. inversion Hl as [|p' l' c' E1 E2 Hl' Eq Ec]; subst. rewrite E in E1. injection E1 as <-. cbn [diff_read chain_get]. rewrite E. cbn [or_panic mbind res_bind option_bind]. rewrite E2.
  destruct (local l (heap w) k) as [v|] eqn:Ev.
  - exists w. split; [done|]. split; [done|]. exists (cache (db w)). by destruct w as [? ? ? ? [] ?].
  - destruct (iv_rank _ _ Hi _ _ E) as (pr & Epr & Hr1 & Hr2). destruct (parent l) as [b|q] eqn:Ep.
    + inversion Hl' as [p' d E3 E4|]; subst. by eapply disk_read_ok.
    + cbn in Epr. destruct (diffs w !! q) as [lq|] eqn:Eq; [|done]. injection Epr as <-. apply (IH q c' lq); [done|done|lia].
Qed.

Lemma layer_read_ok rank w r s c k : inv rank w -> layers w !! r = Some s -> live w s c -> exists w', layer_read s k w = Ok (inl (chain_get w c k), w') /\ inv rank w' /\ recached w w'.
Proof.
  intros Hi Er Hl. destruct s as [p|p]; [inversion Hl; subst; by eapply disk_read_ok|]. assert (alive w p c) as Ha by (split; [by exists r|done]). pose proof Hl as Hl'. inversion Hl' as [|p' l c' E1 E2 Hl'' Eq Ec]; subst.
  cbn [layer_read]. rewrite E1. cbn [or_panic mbind res_bind]. destruct (hit (diffed l) k) eqn:Eh; [destruct (iv_rank _ _ Hi _ _ E1) as (pr & _ & _ & Hr); by eapply diff_read_ok|].
  destruct (iv_origin _ _ Hi _ _ _ Ha E1) as (d & Ed & Hd). destruct (disk_read_ok rank w (origin l) d k Hi Ed Hd) as (w' & E & Hrest). exists w'. split; [|done]. rewrite E. do 3 f_equal.
  assert (forall c0, c0 ⊆ p :: c' -> chain_get w c0 k = on_disk (db w) k) as Hmiss; [|by rewrite Hmiss].
  induction c0 as [|q c0 IH]; intros Hsub; [done|]. cbn [chain_get]. rewrite IH by set_solver. destruct (diffs w !! q) as [m|] eqn:Em; [|done]. cbn. destruct (local m (heap w) k) as [v|] eqn:Ev; [|done].
  exfalso. assert (hit (diffed l) k = true) as Ht by (eapply (iv_bloom _ _ Hi p _ l q m); [done|done|set_solver|done|done]). congruence.
Qed.

(** ** The filter of a layer *)

Lemma bloom_fold_kept xs y f : bloom_Contains y f = true -> bloom_Contains y (fold_left (fun f x => bloom_Add x f) xs f) = true.
Proof. revert f. induction xs as [|x xs IH]; intros f Hf; [done|]. cbn. by apply IH, bloom_kept. Qed.

Lemma bloom_fold_in xs y f : y ∈ xs -> bloom_Contains y (fold_left (fun f x => bloom_Add x f) xs f) = true.
Proof. revert f. induction xs as [|x xs IH]; intros f; [by intros ?%elem_of_nil|]. intros [->|Hy]%elem_of_cons; cbn; [apply bloom_fold_kept, bloom_added|by apply IH]. Qed.

Lemma hit_kept xs f k : hit f k = true -> hit (fold_left (fun f x => bloom_Add x f) xs f) k = true.
Proof. unfold Snapshot.hit. rewrite !orb_true_iff. intros [H|H]; [left|right]; by apply bloom_fold_kept. Qed.

Lemma hit_local l h f k v : local l h k = Some v -> hit (fold_left (fun f x => bloom_Add x f) (bloom_keys dO aO sO l h) f) k = true.
Proof.
  unfold local, Snapshot.hit, bloom_keys. intros E. apply orb_true_iff. destruct (match k with KAcc a => _ | KSlot a s => _ end) as [d|] eqn:Ed.
  - left. apply bloom_fold_in. rewrite !elem_of_app. right. destruct k as [a|a s]; cbn [key_hasher].
    + left. apply list_elem_of_In, in_map_iff. exists (a, d). split; [done|]. by apply list_elem_of_In, elem_of_map_to_list.
    + right. destruct (storageData l !! a) as [q|] eqn:Eq; [|done]. cbn in Ed. apply list_elem_of_In, in_concat. eexists. split; [apply in_map_iff; exists (a, q); split; [done|]; by apply list_elem_of_In, elem_of_map_to_list|].
      apply in_map_iff. exists (s, d). split; [done|]. by apply list_elem_of_In, elem_of_map_to_list.
  - right. case_bool_decide as Hd; [|done]. apply bloom_fold_in. rewrite elem_of_app. left. apply list_elem_of_In, in_map_iff. exists (account_of k). split; [done|]. by apply list_elem_of_In, elem_of_elements.
Qed.

(** What a layer knows is in the maps it points to. *)
Lemma local_ext l h h' k : (forall a x, storageData l !! a = Some x -> h' !! x = h !! x) -> local l h' k = local l h k.
Proof. intros H. unfold local. destruct k as [a|a s]; [done|]. destruct (storageData l !! a) as [x|] eqn:E; [|done]. cbn. unfold slots_at. by rewrite (H a x E). Qed.

Lemma chain_get_ext w w' c k : db w' = db w -> (forall p, p ∈ c -> diffs w' !! p = diffs w !! p) ->
  (forall p l a x, p ∈ c -> diffs w !! p = Some l -> storageData l !! a = Some x -> heap w' !! x = heap w !! x) -> chain_get w' c k = chain_get w c k.
Proof.
  intros Hd Hp Hh. induction c as [|p c IH]; [cbn; by rewrite Hd|]. cbn [chain_get]. rewrite Hp by (by left). destruct (diffs w !! p) as [l|] eqn:E; cbn.
  - rewrite (local_ext l (heap w) (heap w')); [|intros a x Ea; eapply Hh; [by left|done|done]]. destruct (local l (heap w) k); [done|]. apply IH; [intros q Hq; apply Hp; by right|]. intros q m a x Hq. apply Hh. by right.
  - apply IH; [intros q Hq; apply Hp; by right|]. intros q m a x Hq. apply Hh. by right.
Qed.

(** ** New layers *)

(** Nothing but new objects. *)
Record ext w w' : Prop := {
  ex_next : (next w <= next w')%nat;
  ex_disks : disks w' = disks w;
  ex_diffs p : (p < next w)%nat -> diffs w' !! p = diffs w !! p;
  ex_heap p : (p < next w)%nat -> heap w' !! p = heap w !! p;
  ex_db : db w' = db w;
}.

Lemma retain_ok (l : list (Hash * gmap Hash bytes)) : forall w, NoDup l.*1 -> (forall p, is_Some (heap w !! p) -> (p < next w)%nat) -> exists st w', retain l w = (st, w') /\
  disks w' = disks w /\ diffs w' = diffs w /\ db w' = db w /\ layers w' = layers w /\ (next w <= next w')%nat /\
  (forall p, (p < next w)%nat -> heap w' !! p = heap w !! p) /\ (forall p, is_Some (heap w' !! p) -> (p < next w')%nat) /\
  (forall a x, st !! a = Some x -> (next w <= x < next w')%nat /\ exists m, heap w' !! x = Some m /\ (a, m) ∈ l) /\
  (forall a m, (a, m) ∈ l -> exists x, st !! a = Some x /\ heap w' !! x = Some m) /\
  (forall a a' x, st !! a = Some x -> st !! a' = Some x -> a = a') /\
  (forall x m, heap w' !! x = Some m -> heap w !! x = Some m \/ m ∈ l.*2).
Proof.
  induction l as [|[a m] l IH]; intros w Hnd Hh; cbn [retain].
  { eexists _, _. split; [done|]. do 5 (split; [done|]). split; [done|]. split; [done|]. split; [by intros a x ?%lookup_empty_Some|]. split; [by intros a m ?%elem_of_nil|]. split; [by intros a a' x ?%lookup_empty_Some|]. auto. }
  apply NoDup_cons in Hnd as [Hna Hnd]. cbn [next pred]. destruct (IH (mkTree (S (next w)) (disks w) (diffs w) (<[next w := m]> (heap w)) (db w) (layers w)) Hnd) as (st & w' & -> & E1 & E2 & E3 & E4 & Hn & H1 & H2 & H3 & H4 & H5 & H6).
  { cbn. intros p [y [[<- _]|[_ E]]%lookup_insert_Some]; [lia|]. assert (p < next w)%nat by (apply Hh; by eexists). lia. }
  cbn [next disks diffs heap db layers] in *. eexists _, _. split; [done|]. split; [done|]. split; [done|]. split; [done|]. split; [done|]. split; [lia|].
  assert (heap w' !! next w = Some m) as Em by (rewrite H1 by lia; apply lookup_insert_eq).
  split; [intros p Hp; rewrite H1 by lia; by rewrite lookup_insert_ne by lia|]. split; [done|]. split; [|split; [|split]].
  - intros b x [[<- <-]|[_ E]]%lookup_insert_Some; [split; [lia|]; exists m; split; [done|by left]|]. destruct (H3 b x E) as [? (m' & ? & ?)]. split; [lia|]. exists m'. split; [done|by right].
  - intros b m' [[= -> ->]|Hin]%elem_of_cons; [exists (next w); split; [apply lookup_insert_eq|done]|]. destruct (H4 b m' Hin) as (x & Ex & Emx). exists x. split; [|done]. rewrite lookup_insert_ne; [done|].
    intros ->. apply Hna. apply list_elem_of_fmap. by exists (b, m').
  - intros b b' x [[<- <-]|[_ E]]%lookup_insert_Some [[<- E']|[_ E']]%lookup_insert_Some; [done| | |by eapply H5].
    + destruct (H3 _ _ E'). lia.
    + subst. destruct (H3 _ _ E). lia.
  - intros x m' E. destruct (H6 x m' E) as [E'|Hin]; [|right; by right]. apply lookup_insert_Some in E' as [[_ <-]|[_ E']]; [right; by left|by left].
Qed.

(** The changes of a block. *)
Definition changes (des : gset Hash) (acc : gmap Hash bytes) (stor : gmap Hash (gmap Hash bytes)) (k : key) : option bytes :=
  match (match k with KAcc a => acc !! a | KSlot a s => m ← stor !! a; m !! s end) with
  | Some d => Some d
  | None => if bool_decide (account_of k ∈ des) then Some [] else None
  end.
Definition small_changes (acc : gmap Hash bytes) (stor : gmap Hash (gmap Hash bytes)) : Prop :=
  (forall a v, acc !! a = Some v -> small_blob v) /\ forall a m x v, stor !! a = Some m -> m !! x = Some v -> small_blob v.

Definition origin_of w s : option nat := match s with Disk p => Some p | Diff q => origin <$> diffs w !! q end.

Lemma newDiffLayer_ok rank w par r des acc stor : inv rank w -> is_Some (root_of w par) -> small_changes acc stor ->
  exists p w' l0, newDiffLayer dO aO sO par r des acc stor w = Ok (p, w') /\ ext w w' /\ layers w' = layers w /\ (next w <= p < next w')%nat /\ diffs w' = <[p := l0]> (diffs w) /\
    parent l0 = par /\ root l0 = r /\ stale l0 = false /\ origin_of w par = Some (origin l0) /\ (forall k, local l0 (heap w') k = changes des acc stor k) /\
    (forall k v, local l0 (heap w') k = Some v -> hit (diffed l0) k = true) /\ (forall q lq k, par = Diff q -> diffs w !! q = Some lq -> hit (diffed lq) k = true -> hit (diffed l0) k = true) /\
    (forall a x, storageData l0 !! a = Some x -> (next w <= x)%nat /\ is_Some (heap w' !! x)) /\ (forall a a' x, storageData l0 !! a = Some x -> storageData l0 !! a' = Some x -> a = a') /\
    accountData l0 = acc /\ (forall x, is_Some (heap w' !! x) -> (x < next w')%nat) /\ (forall x m a v, heap w' !! x = Some m -> m !! a = Some v -> small_blob v).
Proof.
  intros Hi Hpar [Hs1 Hs2]. unfold newDiffLayer. destruct (retain_ok (map_to_list stor) w) as (st & w1 & -> & E1 & E2 & E3 & E4 & Hn & H1 & H2 & H3 & H4 & H5 & H6); [apply NoDup_fst_map_to_list|intros x Hx; apply (iv_next _ _ Hi); auto|].
  assert (exists o, match par with Disk p => Ok p | Diff q => d ← or_panic PanicNil (diffs w1 !! q); Ok (origin d) end = Ok o /\ origin_of w par = Some o) as (o & -> & Eo).
  { destruct par as [b|q]; [by eexists|]. rewrite E2. cbn in Hpar. destruct (diffs w !! q) as [lq|] eqn:Eq; [|by destruct Hpar]. eexists. split; [done|]. cbn. by rewrite Eq. }
  cbn [mbind res_bind new_diff]. set (mem := u64 _). set (l1 := mkDiff o par mem r false des acc st bloom_New). unfold Snapshot.rebloom. cbn [diffs]. rewrite lookup_insert_eq. cbn [or_panic mbind res_bind]. change (parent l1) with par.
  assert (exists f, match par with Diff q => d ← or_panic PanicNil (<[next w1:=l1]> (diffs w1) !! q); Ok (diffed d) | Disk _ => Ok bloom_New end = Ok f /\
    forall q lq, par = Diff q -> diffs w !! q = Some lq -> f = diffed lq) as (f & -> & Hf).
  { destruct par as [b|q]; [eexists; split; [done|]; done|]. cbn in Hpar. destruct (diffs w !! q) as [lq|] eqn:Eq; [|by destruct Hpar]. assert (q < next w)%nat by (apply (iv_next _ _ Hi); rewrite Eq; right; left; by eexists).
    rewrite lookup_insert_ne, E2, Eq by lia. eexists. split; [done|]. intros q' lq' [= <-] E. cbn. congruence. }
  cbn [mbind res_bind heap]. eexists _, _, _. split; [done|]. cbn [next disks diffs heap db layers with_diffs]. rewrite insert_insert_eq, E2. split; [|split; [done|]; split; [lia|]; split; [done|]].
  { split; cbn [next disks diffs heap db layers with_diffs]; [lia|done| |done|done]. intros p Hp. rewrite ?insert_insert_eq, ?E2. by rewrite lookup_insert_ne by lia. }
  cbn [parent root stale origin storageData accountData set_bloom l1]. split; [done|]. split; [done|]. split; [done|]. split; [done|].
  split.
  { intros k. unfold local, changes. cbn [parent root stale origin storageData accountData destructSet set_bloom l1]. destruct k as [a|a x]; [done|]. destruct (stor !! a) as [m|] eqn:Ea.
    - destruct (H4 a m) as (y & Ey & Em); [by apply elem_of_map_to_list|]. rewrite Ey. cbn. unfold slots_at. by rewrite Em.
    - destruct (st !! a) as [y|] eqn:Ey; [|done]. destruct (H3 a y Ey) as (_ & m & _ & Hm). apply elem_of_map_to_list in Hm. congruence. }
  split; [intros k v E; apply (hit_local l1 (heap w1) f k v); exact E|]. split; [intros q lq k Hp Eq Hh; apply hit_kept; by rewrite (Hf q lq)|].
  split; [intros a x E; destruct (H3 a x E) as (? & m & Em & _); split; [lia|by eexists]|]. split; [exact H5|]. split; [done|]. split; [intros x Hx; pose proof (H2 x Hx); lia|].
  intros x m a v Em Ev. destruct (H6 x m Em) as [E|Hm]; [by eapply (iv_small_slot _ _ Hi)|]. apply list_elem_of_fmap in Hm as ([b m'] & -> & Hm). apply elem_of_map_to_list in Hm. by eapply Hs2.
Qed.

Lemma ext_live rank w w' s c : inv rank w -> ext w w' -> live w s c -> live w' s c.
Proof.
  intros Hi He. induction 1 as [p d E1 E2|p l c E1 E2 _ IH]; [econstructor; [by rewrite (ex_disks _ _ He)|done]|]. econstructor; [|done|done]. rewrite (ex_diffs _ _ He); [done|]. apply (iv_next _ _ Hi). right. left. by eexists.
Qed.

Lemma ext_live_back rank w w' s c : inv rank w -> ext w w' -> live w' s c -> is_Some (root_of w s) -> live w s c.
Proof.
  intros Hi He. induction 1 as [p d E1 E2|p l c E1 E2 _ IH]; intros Hs; [econstructor; [by rewrite <- (ex_disks _ _ He)|done]|]. cbn in Hs. destruct (diffs w !! p) as [l'|] eqn:E; [|by destruct Hs].
  rewrite (ex_diffs _ _ He) in E1 by (apply (iv_next _ _ Hi); right; left; by eexists). assert (l' = l) as -> by congruence. econstructor; [done|done|]. apply IH. destruct (iv_rank _ _ Hi _ _ E) as (pr & -> & _). by eexists.
Qed.

Lemma live_members rank w s c q : inv rank w -> live w s c -> q ∈ c -> (q < next w)%nat.
Proof. intros Hi Hl Hq. destruct (live_in _ _ _ Hl q Hq) as (l & _ & E & _). apply (iv_next _ _ Hi). right. left. by eexists. Qed.

Lemma ext_get rank w w' s c k : inv rank w -> ext w w' -> live w s c -> chain_get w' c k = chain_get w c k.
Proof.
  intros Hi He Hl. apply chain_get_ext; [apply He|intros p Hp; apply (ex_diffs _ _ He); by eapply live_members|]. intros p l a x Hp E Ex. apply (ex_heap _ _ He). apply (iv_next _ _ Hi). right. right. by eapply iv_heap.
Qed.

(** A root that no layer has had. *)
Definition fresh_root w (r : Hash) : Prop := (forall p l, diffs w !! p = Some l -> root l <> r) /\ forall p d, disks w !! p = Some d -> d_root d <> r.

Lemma fresh_not_root w r s pr : fresh_root w r -> root_of w s = Some pr -> pr <> r.
Proof. intros [H1 H2]. destruct s as [p|p]; cbn; [destruct (disks w !! p) eqn:E|destruct (diffs w !! p) eqn:E]; cbn; intros; simplify_eq; eauto. Qed.

(** The ranks after a new layer. *)
Definition new_rank (rank : Hash -> nat) (r : Hash) (n : nat) (x : Hash) : nat := if decide (x = r) then n else rank x.

Lemma ext_root w w' s pr : ext w w' -> (forall p, is_Some (diffs w !! p) -> (p < next w)%nat) -> root_of w s = Some pr -> root_of w' s = Some pr.
Proof.
  intros He Hn. destruct s as [p|p]; cbn; [by rewrite (ex_disks _ _ He)|]. destruct (diffs w !! p) as [l|] eqn:E; [|done]. rewrite (ex_diffs _ _ He), E; [done|]. apply Hn. by eexists.
Qed.

Lemma Update_ok rank w r pr s c des acc stor : inv rank w -> fresh_root w r -> layers w !! pr = Some s -> live w s c -> small_changes acc stor ->
  exists w' p, Update r pr des acc stor w = Ok (None, w') /\ inv (new_rank rank r (next w)) w' /\
    layers w' = <[r := Diff p]> (layers w) /\ live w' (Diff p) (p :: c) /\ (forall k, chain_get w' (p :: c) k = default (chain_get w c k) (changes des acc stor k)) /\
    (forall s' c', live w s' c' -> live w' s' c' /\ forall k, chain_get w' c' k = chain_get w c' k) /\
    (forall s' c', live w' s' c' -> is_Some (root_of w s') -> live w s' c').
Proof.
  intros Hi Hfr Es Hl Hsm. assert (root_of w s = Some pr) as Epr by (by apply (iv_tree _ _ Hi)). pose proof (fresh_not_root _ _ _ _ Hfr Epr) as Hne. unfold Snapshot.Update. rewrite (proj2 (Z.eqb_neq r pr)) by done. rewrite Es.
  destruct (newDiffLayer_ok rank w s r des acc stor Hi ltac:(by eexists) Hsm) as (p & w1 & l0 & -> & He & Ely & Hp & Edf & P1 & P2 & P3 & P4 & P5 & P6 & P7 & P8 & P9 & P10 & P11 & P12). cbn [mbind res_bind].
  set (w' := with_layers (<[r := Diff p]> (layers w1)) w1). assert (ext w w') as He' by (by destruct He). assert (layers w' = <[r := Diff p]> (layers w)) as El by (cbn; by rewrite Ely). assert (diffs w' !! p = Some l0) as Ep by (cbn; rewrite Edf; apply lookup_insert_eq).
  assert (forall q, is_Some (diffs w !! q) -> (q < next w)%nat) as Hold by (intros q Hq; apply (iv_next _ _ Hi); auto).
  assert (layers w !! r = None) as Enr. { destruct (layers w !! r) as [s'|] eqn:E; [|done]. apply (iv_tree _ _ Hi) in E. by apply (fresh_not_root _ _ _ _ Hfr) in E. }
  assert (live w' (Diff p) (p :: c)) as Hlive by (econstructor; [exact Ep|done|rewrite P1; by eapply ext_live]).
  assert (forall k, chain_get w' c k = chain_get w c k) as Hget by (intros k; by eapply ext_get).
  assert (forall q cq, alive w' q cq -> (q = p /\ cq = p :: c) \/ alive w q cq) as Hcases.
  { intros q cq [[r' Er'] Hq]. rewrite El in Er'. apply lookup_insert_Some in Er' as [[<- [= <-]]|[_ Er']]; [left; split; [done|by eapply live_fun]|]. right. split; [by exists r'|]. eapply ext_live_back; [done|done|done|]. rewrite (iv_tree _ _ Hi _ _ Er'). by eexists. }
  assert (forall q lq, diffs w' !! q = Some lq -> (q = p /\ lq = l0) \/ (q <> p /\ diffs w !! q = Some lq)) as Hdf.
  { intros q lq. cbn. rewrite Edf. intros [[<- <-]|[? ?]]%lookup_insert_Some; auto. }
  assert (forall q cq lq, alive w q cq -> diffs w' !! q = Some lq -> q <> p /\ diffs w !! q = Some lq) as Hold2.
  { intros q cq lq [_ Hq] E. inversion Hq as [|q' l' c' E1 E2 Hq' Eq Ec]; subst. assert (q < next w)%nat by (apply Hold; by eexists). destruct (Hdf _ _ E) as [[-> _]|]; [lia|done]. }
  exists w', p. split; [done|]. split; [|split; [done|]; split; [done|]; split; [|split]].
  2:{ intros k. cbn [chain_get]. rewrite Ep. cbn [option_bind mbind]. change (heap w') with (heap w1). rewrite P5, Hget. by destruct (changes des acc stor k). }
  2:{ intros s' c' Hl'. split; [by eapply ext_live|]. intros k. by eapply ext_get. }
  2:{ intros s' c' Hl' Hs'. by eapply ext_live_back. }
  split.
  - intros q. cbn. rewrite (ex_disks _ _ He). intros [H|[H|H]]; [assert (q < next w)%nat by (apply (iv_next _ _ Hi); auto); lia| |by apply P11]. destruct H as [lq E]. destruct (Hdf _ _ E) as [[-> _]|[_ E']]; [lia|]. assert (q < next w)%nat by (apply Hold; by eexists). lia.
  - intros q lq E. destruct (Hdf _ _ E) as [[-> ->]|[_ E']].
    + exists pr. rewrite P1, P2. split; [by apply (ext_root w)|]. unfold new_rank. rewrite decide_False, decide_True by done. split; [|cbn; lia].
      destruct s as [b|q']; cbn in Epr; [destruct (disks w !! b) eqn:Eb|destruct (diffs w !! q') eqn:Eb]; [|done| |done]; injection Epr as <-; [by eapply (iv_rank_disk _ _ Hi)|]. by destruct (iv_rank _ _ Hi _ _ Eb) as (? & _ & _ & ?).
    + destruct (iv_rank _ _ Hi _ _ E') as (pr' & Epr' & Hr1 & Hr2). exists pr'. split; [by apply (ext_root w)|]. unfold new_rank. rewrite (decide_False (P := pr' = r)) by (by eapply fresh_not_root). rewrite decide_False by (by eapply Hfr). cbn. lia.
  - intros q d. cbn. rewrite (ex_disks _ _ He). intros E. unfold new_rank. rewrite decide_False by (by eapply Hfr). pose proof (iv_rank_disk _ _ Hi _ _ E). lia.
  - destruct (iv_disk _ _ Hi) as (b & d & E1 & E2 & E3 & E4). exists b, d. cbn. rewrite (ex_disks _ _ He), Ely. split; [done|]. split; [done|]. split; [|done]. rewrite lookup_insert_ne; [done|]. intros ->. by eapply Hfr.
  - intros r' s'. rewrite El. intros [[<- <-]|[_ E]]%lookup_insert_Some; [cbn; rewrite Edf, lookup_insert_eq; cbn; by rewrite P2|]. apply (ext_root w); [done|done|]. by apply (iv_tree _ _ Hi).
  - intros q cq lq Ha E. destruct (Hcases _ _ Ha) as [[-> ->]|Ha'].
    + rewrite Ep in E. injection E as <-. exists pr. rewrite P1, El. split; [by apply (ext_root w)|]. by rewrite lookup_insert_ne.
    + destruct (Hold2 _ _ _ Ha' E) as [_ E']. destruct (iv_parent _ _ Hi _ _ _ Ha' E') as (pr' & Epr' & Elp). exists pr'. split; [by apply (ext_root w)|]. rewrite El, lookup_insert_ne; [done|]. intros <-. by apply (fresh_not_root _ _ _ _ Hfr) in Epr'.
  - intros _ q cq lq Ha E. cbn. rewrite (ex_disks _ _ He). destruct (Hcases _ _ Ha) as [[-> ->]|Ha'].
    + rewrite Ep in E. injection E as <-. destruct s as [b|q']; cbn in P4; [injection P4 as <-; inversion Hl as [b' d' E1 E2|]; subst; by exists d'|]. destruct (diffs w !! q') as [lq'|] eqn:Eq'; [|done]. cbn in P4. injection P4 as <-.
      eapply (iv_origin _ _ Hi q' c); [split; [by exists pr|done]|done].
    + destruct (Hold2 _ _ _ Ha' E) as [_ E']. by eapply iv_origin.
  - intros _ q cq lq x m k v Ha E Hx Em Ev. destruct (Hcases _ _ Ha) as [[-> ->]|Ha'].
    + rewrite Ep in E. injection E as <-. destruct (Hdf _ _ Em) as [[-> ->]|[Hxp Em']]; [by eapply P6|]. apply elem_of_cons in Hx as [->|Hx]; [done|].
      destruct s as [b|q']; [inversion Hl; subst; by apply elem_of_nil in Hx|]. inversion Hl as [|q'' l' c' E1 E2 Hq' Eq Ec]; subst. eapply P7; [done|done|]. eapply (iv_bloom _ _ Hi q' (q' :: c') l' x m k v); [split; [by exists pr|done]|done|done|done|].
      erewrite <- local_ext; [exact Ev|]. intros a y Ey. apply (ex_heap _ _ He), (iv_next _ _ Hi). right. right. exact (iv_heap _ _ Hi _ _ _ _ Em' Ey).
    + destruct (Hold2 _ _ _ Ha' E) as [_ E']. destruct (Hdf _ _ Em) as [[-> ->]|[Hxp Em']]; [destruct Ha' as [_ Ha']; pose proof (live_members _ _ _ _ _ Hi Ha' Hx); lia|].
      eapply (iv_bloom _ _ Hi q cq lq x m k v); [done|done|done|done|]. erewrite <- local_ext; [exact Ev|]. intros a y Ey. apply (ex_heap _ _ He), (iv_next _ _ Hi). right. right. exact (iv_heap _ _ Hi _ _ _ _ Em' Ey).
  - assert (forall q cq lq a x, alive w q cq -> diffs w' !! q = Some lq -> storageData lq !! a = Some x -> (x < next w)%nat) as Hlow.
    { intros q cq lq a x Ha E Ex. destruct (Hold2 _ _ _ Ha E) as [_ E']. apply (iv_next _ _ Hi). right. right. by eapply iv_heap. }
    intros q cq lq q' cq' lq' a a' x Ha E Ha' E' Ex Ex'. destruct (Hcases _ _ Ha) as [[-> ->]|Ho], (Hcases _ _ Ha') as [[-> ->]|Ho'].
    + assert (lq = l0) as -> by congruence. assert (lq' = l0) as -> by congruence. split; [done|by eapply P9].
    + assert (lq = l0) as -> by congruence. destruct (P8 _ _ Ex). pose proof (Hlow _ _ _ _ _ Ho' E' Ex'). lia.
    + assert (lq' = l0) as -> by congruence. destruct (P8 _ _ Ex'). pose proof (Hlow _ _ _ _ _ Ho E Ex). lia.
    + destruct (Hold2 _ _ _ Ho E) as [_ G1], (Hold2 _ _ _ Ho' E') as [_ G2]. exact (iv_sep _ _ Hi _ _ _ _ _ _ _ _ _ Ho G1 Ho' G2 Ex Ex').
  - intros q lq a x E Ex. destruct (Hdf _ _ E) as [[-> ->]|[_ E']]; [by apply (P8 a)|]. pose proof (iv_heap _ _ Hi _ _ _ _ E' Ex) as Hx. cbn. rewrite (ex_heap _ _ He); [done|]. apply (iv_next _ _ Hi). auto.
  - intros q lq a v E Ev. destruct (Hdf _ _ E) as [[-> ->]|[_ E']]; [rewrite P10 in Ev; exact (proj1 Hsm _ _ Ev)|exact (iv_small _ _ Hi _ _ _ _ E' Ev)].
  - exact P12.
  - intros k. cbn. rewrite (ex_db _ _ He). apply (iv_small_disk _ _ Hi).
  - intros k v. cbn. rewrite (ex_db _ _ He). apply (iv_cache _ _ Hi).
Qed.

(** ** Flattening *)

Definition look (st : gmap Hash nat) h (a x : Hash) : option bytes := y ← st !! a; slots_at h y !! x.
Definition inj_map (st : gmap Hash nat) : Prop := forall a a' x, st !! a = Some x -> st !! a' = Some x -> a = a'.

Lemma slots_at_Some h y b v : slots_at h y !! b = Some v -> exists m, h !! y = Some m /\ m !! b = Some v.
Proof. unfold slots_at. destruct (h !! y) as [m|]; [by exists m|]. change (default ∅ None) with (∅ : gmap Hash bytes). by rewrite lookup_empty. Qed.

(** Slots written over those of the map below; only maps of accounts in both are
    changed. *)
Lemma merge_slots_ok (l : list (Hash * nat)) : forall st h, NoDup l.*1 -> NoDup l.*2 -> inj_map st -> (forall a x, st !! a = Some x -> x ∉ l.*2) ->
  exists st' h', merge_slots l st h = (st', h') /\
    (forall a q x, (a, q) ∈ l -> look st' h' a x = match slots_at h q !! x with Some v => Some v | None => look st h a x end) /\
    (forall a x, a ∉ l.*1 -> look st' h' a x = look st h a x) /\ inj_map st' /\ (forall a x, st' !! a = Some x -> st !! a = Some x \/ (a, x) ∈ l) /\
    (forall x, (forall a q, (a, q) ∈ l -> st !! a <> Some x) -> h' !! x = h !! x) /\ (forall x, is_Some (h !! x) -> is_Some (h' !! x)) /\
    ((forall a x, st !! a = Some x -> is_Some (h !! x)) -> (forall a q, (a, q) ∈ l -> is_Some (h !! q)) -> forall x, is_Some (h' !! x) -> is_Some (h !! x)) /\
    ((forall x m b v, h !! x = Some m -> m !! b = Some v -> small_blob v) -> forall x m b v, h' !! x = Some m -> m !! b = Some v -> small_blob v).
Proof.
  induction l as [|[a q] l IH]; intros st h H1 H2 Hinj Hdis; cbn [merge_slots].
  { exists st, h. split; [done|]. split; [by intros a q x ?%elem_of_nil|]. do 5 (split; [auto|]). split; auto. }
  rewrite fmap_cons in H1. rewrite fmap_cons in H2. apply NoDup_cons in H1 as [Hna H1]. apply NoDup_cons in H2 as [Hnq H2]. assert (forall b r, (b, r) ∈ l -> b <> a /\ r <> q) as Hne.
  { intros b r Hb. split; intros ->; [apply Hna|apply Hnq]; apply list_elem_of_fmap; [by exists (a, r)|by exists (b, q)]. }
  destruct (st !! a) as [cc|] eqn:Ea.
  - destruct (IH st (<[cc := slots_at h q ∪ slots_at h cc]> h) H1 H2 Hinj) as (st' & h' & -> & I1 & I2 & I3 & I4 & I5 & I6 & I7 & I8).
    { intros b x Eb Hx. eapply (Hdis b x Eb). by right. }
    assert (forall b x, b <> a -> look st (<[cc := slots_at h q ∪ slots_at h cc]> h) b x = look st h b x) as Hlk.
    { intros b x Hb. unfold look. destruct (st !! b) as [y|] eqn:Eb; [|done]. cbn. unfold slots_at. rewrite lookup_insert_ne; [done|]. intros ->. apply Hb. by eapply Hinj. }
    assert (forall r, r ∈ (q :: l.*2) -> slots_at (<[cc := slots_at h q ∪ slots_at h cc]> h) r = slots_at h r) as Hsl.
    { intros r Hr. unfold slots_at. rewrite lookup_insert_ne; [done|]. intros ->. by eapply (Hdis a r Ea). }
    exists st', h'. split; [done|]. split; [|split; [|split; [done|split; [|split; [|split; [|split]]]]]].
    + intros b r x [[= -> ->]|Hb]%elem_of_cons.
      * rewrite I2 by done. unfold look. rewrite Ea. cbn. unfold slots_at at 1. rewrite lookup_insert_eq. cbn. change (id (slots_at h q ∪ slots_at h cc)) with (slots_at h q ∪ slots_at h cc). rewrite lookup_union. destruct (slots_at h q !! x), (slots_at h cc !! x); done.
      * destruct (Hne b r Hb) as [Hba _]. rewrite (I1 b r x Hb), Hsl, Hlk by (done || (right; apply list_elem_of_fmap; by exists (b, r))). done.
    + intros b x Hb. rewrite fmap_cons in Hb. apply not_elem_of_cons in Hb as [Hba Hb]. rewrite I2 by done. by apply Hlk.
    + intros b x Eb. destruct (I4 b x Eb); [by left|right; by right].
    + intros x Hx. rewrite I5; [|intros b r Hb; apply (Hx b r); by right]. rewrite lookup_insert_ne; [done|]. intros ->. by apply (Hx a q); [left|].
    + intros x Hx. apply I6. destruct (decide (cc = x)) as [->|]; [rewrite lookup_insert_eq; by eexists|by rewrite lookup_insert_ne].
    + intros V1 V2 x Hx. assert (forall y, is_Some (<[cc := slots_at h q ∪ slots_at h cc]> h !! y) <-> is_Some (h !! y)) as Hdom.
      { intros y. destruct (decide (cc = y)) as [->|]; [|by rewrite lookup_insert_ne]. rewrite lookup_insert_eq. split; [intros _; by eapply V1|by eexists]. }
      apply Hdom, I7; [intros b y Eb; apply Hdom; by eapply V1|intros b y Hb; apply Hdom, (V2 b); by right|done].
    + intros Hsm. apply I8. intros x m b v [[<- <-]|[_ E]]%lookup_insert_Some Ev; [|by eapply Hsm]. apply lookup_union_Some_raw in Ev as [Ev|[_ Ev]]; apply slots_at_Some in Ev as (m' & Em & Ev); by eapply Hsm.
  - destruct (IH (<[a := q]> st) h H1 H2) as (st' & h' & -> & I1 & I2 & I3 & I4 & I5 & I6 & I7 & I8).
    { intros b b' x [[<- <-]|[_ E]]%lookup_insert_Some [[<- E']|[_ E']]%lookup_insert_Some; [done| | |by eapply Hinj]; exfalso; subst; [eapply (Hdis _ _ E')|eapply (Hdis _ _ E)]; by left. }
    { intros b x [[<- <-]|[_ E]]%lookup_insert_Some; [done|]. intros Hx. eapply (Hdis b x E). by right. }
    assert (forall b x, b <> a -> look (<[a := q]> st) h b x = look st h b x) as Hlk by (intros b x Hb; unfold look; by rewrite lookup_insert_ne).
    exists st', h'. split; [done|]. split; [|split; [|split; [done|split; [|split; [|split; [done|split; [|done]]]]]]].
    + intros b r x [[= -> ->]|Hb]%elem_of_cons; [|destruct (Hne b r Hb) as [Hba _]; rewrite (I1 b r x Hb); by rewrite Hlk]. rewrite I2 by done. unfold look. rewrite lookup_insert_eq, Ea. cbn. by destruct (slots_at h q !! x).
    + intros b x Hb. rewrite fmap_cons in Hb. apply not_elem_of_cons in Hb as [Hba Hb]. rewrite I2 by done. by apply Hlk.
    + intros b x Eb. destruct (I4 b x Eb) as [[[<- <-]|[_ E]]%lookup_insert_Some|]; [right; by left|by left|right; by right].
    + intros x Hx. apply I5. intros b r Hb. destruct (Hne b r Hb) as [Hba _]. rewrite lookup_insert_ne by done. apply (Hx b r). by right.
    + intros V1 V2. apply I7; [intros b x [[<- <-]|[_ E]]%lookup_insert_Some; [apply (V2 a); by left|by eapply V1]|]. intros b y Hb. apply (V2 b). by right.
Qed.

(** A layer merged into the one below knows what the two know. *)
Lemma merge_local l m h st' h' f k :
  NoDup (map_to_list (storageData l)).*1 -> NoDup (map_to_list (storageData l)).*2 -> inj_map (storageData m) ->
  (forall a a' x, storageData m !! a = Some x -> storageData l !! a' <> Some x) ->
  merge_slots (map_to_list (storageData l)) (filter (fun kv => kv.1 ∉ destructSet l) (storageData m)) h = (st', h') ->
  destructSet f = destructSet m ∪ destructSet l -> accountData f = accountData l ∪ filter (fun kv => kv.1 ∉ destructSet l) (accountData m) -> storageData f = st' ->
  local f h' k = match local l h k with Some v => Some v | None => local m h k end.
Proof.
  intros N1 N2 Hinj Hdis Em Ed Ea Es. set (sm := filter (fun kv => kv.1 ∉ destructSet l) (storageData m)) in *. assert (forall a x, sm !! a = Some x -> storageData m !! a = Some x) as Hsm by (intros a x E; apply map_lookup_filter_Some in E; apply E).
  destruct (merge_slots_ok (map_to_list (storageData l)) sm h N1 N2) as (st2 & h2 & E2 & I1 & I2 & _).
  { intros a b x E E'. eapply Hinj; by apply Hsm. } { intros a x E Hx. apply list_elem_of_fmap in Hx as ([b y] & -> & Hb). apply elem_of_map_to_list in Hb. by apply (Hdis a b y (Hsm _ _ E)). }
  rewrite E2 in Em. injection Em as -> ->. unfold local. rewrite Ed, Ea, Es. destruct k as [a|a x]; cbn [account_of].
  - rewrite lookup_union. destruct (accountData l !! a) as [v|] eqn:El; [by destruct (filter _ _ !! a)|]. assert (forall o : option bytes, None ∪ o = o) as Hun by (by intros []). rewrite Hun. destruct (decide (a ∈ destructSet l)) as [Hd|Hd]; [rewrite (bool_decide_true (a ∈ destructSet l)) by done|rewrite (bool_decide_false (a ∈ destructSet l)) by done].
    + assert (filter (fun kv => kv.1 ∉ destructSet l) (accountData m) !! a = None) as -> by (apply map_lookup_filter_None; right; intros ? _ Hn; by apply Hn). by rewrite bool_decide_true by set_solver.
    + assert (filter (fun kv => kv.1 ∉ destructSet l) (accountData m) !! a = accountData m !! a) as -> by (rewrite map_lookup_filter; destruct (accountData m !! a); [|done]; cbn; by rewrite option_guard_True).
      destruct (accountData m !! a); [done|]. by rewrite (bool_decide_ext (a ∈ destructSet m ∪ destructSet l) (a ∈ destructSet m)) by set_solver.
  - fold (look st' h' a x). fold (look (storageData l) h a x). fold (look (storageData m) h a x).
    assert (look st' h' a x = match look (storageData l) h a x with Some v => Some v | None => look sm h a x end) as ->.
    { unfold look at 2. destruct (storageData l !! a) as [y|] eqn:El; cbn; [by rewrite (I1 a y) by by apply elem_of_map_to_list|]. apply I2. intros ([b y] & Eb & Hb)%list_elem_of_fmap. cbn in Eb. subst b. apply elem_of_map_to_list in Hb. congruence. }
    destruct (look (storageData l) h a x) as [v|]; [done|]. destruct (decide (a ∈ destructSet l)) as [Hd|Hd]; [rewrite (bool_decide_true (a ∈ destructSet l)) by done|rewrite (bool_decide_false (a ∈ destructSet l)) by done].
    + assert (look sm h a x = None) as ->; [|by rewrite bool_decide_true by set_solver]. unfold look, sm. assert (filter (fun kv => kv.1 ∉ destructSet l) (storageData m) !! a = None) as -> by (apply map_lookup_filter_None; right; intros ? _ Hn; by apply Hn). done.
    + assert (look sm h a x = look (storageData m) h a x) as ->; [|destruct (look (storageData m) h a x); [done|]; by rewrite (bool_decide_ext (a ∈ destructSet m ∪ destructSet l) (a ∈ destructSet m)) by set_solver].
      unfold look, sm. assert (filter (fun kv => kv.1 ∉ destructSet l) (storageData m) !! a = storageData m !! a) as -> by (rewrite map_lookup_filter; destruct (storageData m !! a); [|done]; cbn; by rewrite option_guard_True). done.
Qed.

Lemma NoDup_map_values (st : gmap Hash nat) : inj_map st -> NoDup (map_to_list st).*2.
Proof.
  intros Hinj. assert (forall l : list (Hash * nat), NoDup l.*1 -> (forall a x, (a, x) ∈ l -> st !! a = Some x) -> NoDup l.*2) as H.
  { induction l as [|[a x] l IH]; intros H1 H2; [constructor|]. rewrite fmap_cons in H1. apply NoDup_cons in H1 as [Hna H1]. rewrite fmap_cons. apply NoDup_cons. split; [|apply IH; [done|]; intros b y Hb; apply H2; by right].
    intros ([b y] & Ey & Hb)%list_elem_of_fmap. cbn in Ey. subst y. apply Hna. apply list_elem_of_fmap. exists (b, x). split; [|done]. cbn. eapply Hinj; apply H2; [by left|by right]. }
  apply H; [apply NoDup_fst_map_to_list|]. intros a x. apply elem_of_map_to_list.
Qed.

Lemma live_rank rank w p c l q m : inv rank w -> live w (Diff p) (p :: c) -> diffs w !! p = Some l -> q ∈ c -> diffs w !! q = Some m -> (rank (root m) < rank (root l))%nat.
Proof.
  intros Hi. revert p l. induction c as [|p' c IH]; intros p l Hl E Hq Em; [by apply elem_of_nil in Hq|]. inversion Hl as [|p0 l' c0 E1 E2 Hl' Eq Ec]; subst. rewrite E in E1. injection E1 as <-.
  destruct (iv_rank _ _ Hi _ _ E) as (pr & Epr & Hr & _). inversion Hl' as [|p1 l1 c1 F1 F2 Hl'' Eq1 Ec1]; subst. rewrite <- Eq1 in *. cbn in Epr. rewrite F1 in Epr. injection Epr as <-.
  apply elem_of_cons in Hq as [->|Hq]; [assert (m = l1) as -> by congruence; done|]. pose proof (IH p' l1 Hl' F1 Hq Em). lia.
Qed.

(** The result of flattening the chain [c] of a layer [l]: a layer [lf] on the disk
    that knows what the chain knows. *)
Record flat (rank : Hash -> nat) w c l (f : nat) w' (lf : diffLayer) : Prop := {
  fl_at : diffs w' !! f = Some lf;
  fl_live : stale lf = false;
  fl_disk : exists b d, parent lf = Disk b /\ disks w !! b = Some d /\ d_stale d = false;
  fl_root : root lf = root l;
  fl_bloom : diffed lf = diffed l;
  fl_origin : exists d, disks w !! origin lf = Some d /\ d_stale d = false;
  fl_get k : default (on_disk (db w) k) (local lf (heap w') k) = chain_get w c k;
  fl_touch k v : local lf (heap w') k = Some v -> exists q m v', q ∈ c /\ diffs w !! q = Some m /\ local m (heap w) k = Some v';
  fl_next : (next w <= next w')%nat;
  fl_disks : disks w' = disks w;
  fl_db : db w' = db w;
  fl_layers : layers w' = layers w;
  fl_heap x : (forall q m a, q ∈ c -> diffs w !! q = Some m -> storageData m !! a <> Some x) -> heap w' !! x = heap w !! x;
  fl_heap_dom x : is_Some (heap w' !! x) <-> is_Some (heap w !! x);
  fl_small x m b v : heap w' !! x = Some m -> m !! b = Some v -> small_blob v;
  fl_ptr a x : storageData lf !! a = Some x -> exists q m a', q ∈ c /\ diffs w !! q = Some m /\ storageData m !! a' = Some x;
  fl_inj : inj_map (storageData lf);
  fl_diffs q m : diffs w' !! q = Some m -> (q < next w')%nat /\ (exists pr, root_of w (parent m) = Some pr /\ (rank pr < rank (root m) < next w)%nat) /\
    (forall a x, storageData m !! a = Some x -> is_Some (heap w !! x)) /\ forall a v, accountData m !! a = Some v -> small_blob v;
  fl_roots s r : root_of w s = Some r -> root_of w' s = Some r;
  fl_shape : (c = [f] /\ w' = w /\ lf = l) \/
    exists z, z ∈ c /\ (next w <= f)%nat /\ (exists mz, diffs w' !! z = Some mz /\ stale mz = true) /\ (forall q, (q < next w)%nat -> q <> z -> diffs w' !! q = diffs w !! q) /\
      (forall q m, (next w <= q)%nat -> q <> f -> diffs w' !! q = Some m -> stale m = true) /\ (forall q cq, q ∈ c -> live w (Diff q) cq -> z ∈ cq) /\ forall q, c <> [q];
}.

Lemma flat_self rank w p c l b : inv rank w -> alive w p c -> diffs w !! p = Some l -> parent l = Disk b -> flat rank w c l p w l.
Proof.
  intros Hi Ha E Ep. pose proof Ha as [_ Hl]. inversion Hl as [|p' l' c' E1 E2 Hl' Eq Ec]; subst. rewrite E in E1. injection E1 as <-. rewrite Ep in Hl'. inversion Hl' as [b' d Ed Es|]; subst. split; try done.
  - by exists b, d.
  - by eapply (iv_origin _ _ Hi).
  - intros k. cbn. rewrite E. cbn. by destruct (local l (heap w) k).
  - intros k v Ev. exists p, l, v. split; [by left|done].
  - intros. by eapply (iv_small_slot _ _ Hi).
  - intros a x Ex. exists p, l, a. split; [by left|done].
  - intros a a' x Ex Ex'. by destruct (iv_sep _ _ Hi p _ l p _ l a a' x Ha E Ha E Ex Ex').
  - intros q m Em. split; [apply (iv_next _ _ Hi); right; left; by eexists|]. split; [by apply (iv_rank _ _ Hi) in Em|]. split; [intros a x Ex; exact (iv_heap _ _ Hi _ _ _ _ Em Ex)|]. intros a v Ev. exact (iv_small _ _ Hi _ _ _ _ Em Ev).
  - by left.
Qed.

Lemma flat_step rank w p c l q f1 w1 m : inv rank w -> alive w p (p :: c) -> diffs w !! p = Some l -> parent l = Diff q -> alive w q c -> (forall lq, diffs w !! q = Some lq -> flat rank w c lq f1 w1 m) ->
  exists f w' lf,
    (let des := destructSet m ∪ destructSet l in
     let acc := accountData l ∪ filter (fun kv => kv.1 ∉ destructSet l) (accountData m) in
     let '(st, h) := merge_slots (map_to_list (storageData l)) (filter (fun kv => kv.1 ∉ destructSet l) (storageData m)) (heap w1) in
     let w2 := with_heap h (with_diffs (<[f1 := mkDiff (origin m) (parent m) (memory m) (root m) true des acc st (diffed m)]> (diffs w1)) w1) in
     new_diff (mkDiff (origin m) (parent m) (u64 (memory m + memory l)) (root l) false des acc st (diffed l)) w2) = (f, w') /\ flat rank w (p :: c) l f w' lf.
Proof.
  intros Hi Ha E Ep Hq Hfl. pose proof Ha as [_ Hl]. destruct (live_in _ _ _ (proj2 Hq) q) as (lq & _ & Eq & _); [destruct Hq as [_ Hq]; inversion Hq; by left|]. specialize (Hfl lq Eq). destruct Hfl as [F1 F2 F3 F4 F5 F6 F7 F8 F9 F10 F11 F12 F13 F14 F15 F16 F17 F18 F19 F20].
  assert (p ∉ c) as Hpc. { intros Hin. pose proof (live_rank _ _ _ _ _ _ _ Hi Hl E Hin E). lia. } assert (p < next w)%nat as Hpn by (apply (iv_next _ _ Hi); right; left; by eexists).
  assert (forall q' m' a a' x, q' ∈ c -> diffs w !! q' = Some m' -> storageData m' !! a = Some x -> storageData l !! a' <> Some x) as Hsep.
  { intros q' m' a a' x Hq' Em' Ex Ex'. destruct (alive_in _ _ _ _ Hi Hq q' Hq') as (c' & Ha' & _). destruct (iv_sep _ _ Hi _ _ _ _ _ _ _ _ _ Ha' Em' Ha E Ex Ex') as [-> _]. done. }
  assert (inj_map (storageData l)) as Hinjl by (intros a a' x Ex Ex'; by destruct (iv_sep _ _ Hi _ _ _ _ _ _ _ _ _ Ha E Ha E Ex Ex')).
  set (sm := filter (fun kv => kv.1 ∉ destructSet l) (storageData m)). assert (forall a x, sm !! a = Some x -> storageData m !! a = Some x) as Hsm by (intros a x Ex; apply map_lookup_filter_Some in Ex; apply Ex).
  assert (forall a a' x, storageData m !! a = Some x -> storageData l !! a' <> Some x) as Hdis by (intros a a' x Ex; destruct (F16 a x Ex) as (q' & m' & b & Hq' & Em' & Ex'); by eapply Hsep).
  pose proof (NoDup_fst_map_to_list (storageData l)) as N1. pose proof (NoDup_map_values _ Hinjl) as N2.
  destruct (merge_slots_ok (map_to_list (storageData l)) sm (heap w1) N1 N2) as (st & h' & Em & I1 & I2 & I3 & I4 & I5 & I6 & I7 & I8).
  { intros a a' x Ex Ex'. eapply F17; by apply Hsm. } { intros a x Ex ([b y] & -> & Hb)%list_elem_of_fmap. apply elem_of_map_to_list in Hb. by apply (Hdis a b y (Hsm _ _ Ex)). }
  cbn zeta. rewrite Em. eexists _, _, _. split; [done|]. set (lf := mkDiff _ _ _ (root l) _ _ _ _ _).
  assert (forall k, local lf h' k = match local l (heap w1) k with Some v => Some v | None => local m (heap w1) k end) as Hloc.
  { intros k. eapply merge_local; [exact N1|exact N2|exact F17|exact Hdis|exact Em|done|done|done]. }
  assert (forall k, local l (heap w1) k = local l (heap w) k) as Hl1. { intros k. apply local_ext. intros a x Ex. apply F13. intros q' m' a' Hq' Em' Ex'. by eapply Hsep. }
  assert (forall a x, sm !! a = Some x -> is_Some (heap w !! x)) as V1. { intros a x Ex. destruct (F16 a x (Hsm _ _ Ex)) as (q' & m' & b & _ & Em' & Ex'). exact (iv_heap _ _ Hi _ _ _ _ Em' Ex'). }
  assert (forall a x, storageData l !! a = Some x -> is_Some (heap w !! x)) as V2 by (intros a x Ex; exact (iv_heap _ _ Hi _ _ _ _ E Ex)).
  assert (forall a x, st !! a = Some x -> storageData m !! a = Some x \/ storageData l !! a = Some x) as Hst. { intros a x Ex. destruct (I4 a x Ex) as [Ex'|Hin]; [left; by apply Hsm|right; by apply elem_of_map_to_list]. }
  destruct F3 as (b & d & Eb & Ed & Hd). assert (f1 < next w1)%nat as Hf1 by by apply (F18 f1 m F1).
  assert (exists z, z ∈ c /\ (exists mz, (<[f1 := mkDiff (origin m) (parent m) (memory m) (root m) true (destructSet m ∪ destructSet l) (accountData l ∪ filter (fun kv => kv.1 ∉ destructSet l) (accountData m)) st (diffed m)]> (diffs w1)) !! z = Some mz /\ stale mz = true) /\
    (forall q', (q' < next w)%nat -> q' <> z -> <[f1 := mkDiff (origin m) (parent m) (memory m) (root m) true (destructSet m ∪ destructSet l) (accountData l ∪ filter (fun kv => kv.1 ∉ destructSet l) (accountData m)) st (diffed m)]> (diffs w1) !! q' = diffs w !! q') /\
    (forall q' m', (next w <= q')%nat -> <[f1 := mkDiff (origin m) (parent m) (memory m) (root m) true (destructSet m ∪ destructSet l) (accountData l ∪ filter (fun kv => kv.1 ∉ destructSet l) (accountData m)) st (diffed m)]> (diffs w1) !! q' = Some m' -> stale m' = true) /\
    (forall q' cq, q' ∈ c -> live w (Diff q') cq -> z ∈ cq)) as (z & Hz & Hzs & Hold & Hnew & Hthru).
  { destruct F20 as [(-> & -> & ->)|(z & Hz & Hfn & (mz & Ez & Hsz) & Ho & Hn & Ht & _)].
    - exists f1. split; [by left|]. split; [eexists; rewrite lookup_insert_eq; done|]. split; [intros q' _ Hne; by rewrite lookup_insert_ne|]. split.
      + intros q' m' Hge [[<- <-]|[_ E']]%lookup_insert_Some; [done|]. assert (q' < next w)%nat by (apply (iv_next _ _ Hi); right; left; by eexists). lia.
      + intros q' cq ->%list_elem_of_singleton Hc. inversion Hc; by left.
    - assert (z < next w)%nat as Hzn by (eapply live_members; [done|apply Hq|done]). exists z. split; [done|]. split; [exists mz; rewrite lookup_insert_ne by lia; done|]. split; [intros q' Hlt Hne; rewrite lookup_insert_ne by lia; by apply Ho|]. split; [|done].
      intros q' m' Hge [[<- <-]|[Hne E']]%lookup_insert_Some; [done|]. by eapply Hn. }
  assert (z <> p) as Hzp by (intros ->; done).
  split; cbn [diffs heap disks db layers next with_heap with_diffs].
  - apply lookup_insert_eq.
  - done.
  - by exists b, d.
  - done.
  - done.
  - exact F6.
  - intros k. rewrite Hloc, Hl1. cbn [chain_get]. rewrite E. cbn. destruct (local l (heap w) k); [done|]. apply F7.
  - intros k v. rewrite Hloc, Hl1. destruct (local l (heap w) k) as [v'|] eqn:Ev'; [intros _; exists p, l, v'; split; [by left|done]|]. intros Ev. destruct (F8 k v Ev) as (q' & m' & v' & Hq' & Hrest). exists q', m', v'. split; [by right|done].
  - lia.
  - done.
  - done.
  - done.
  - intros x Hx. rewrite I5; [apply F13; intros q' m' a Hq'; apply Hx; by right|]. intros a q' _ Ex. destruct (F16 a x (Hsm _ _ Ex)) as (q'' & m' & a' & Hq'' & Em' & Ex'). apply (Hx q'' m' a'); [by right|done|done].
  - intros x. rewrite <- (F14 x). split; [|apply I6]. apply I7; [intros a y Ey; apply F14; by eapply V1|]. intros a y Hy%elem_of_map_to_list. apply F14. by eapply V2.
  - apply I8. exact F15.
  - intros a x Ex. destruct (Hst a x Ex) as [Ex'|Ex']; [destruct (F16 a x Ex') as (q' & m' & a' & Hq' & Hrest); exists q', m', a'; split; [by right|done]|]. exists p, l, a. split; [by left|done].
  - exact I3.
  - intros q' m'. assert (forall r mm, (exists r0, root_of w (parent m) = Some r0 /\ (rank r0 < rank r < next w)%nat) -> root mm = r -> parent mm = parent m -> storageData mm = st -> accountData mm = accountData l ∪ filter (fun kv => kv.1 ∉ destructSet l) (accountData m) ->
      (exists pr, root_of w (parent mm) = Some pr /\ (rank pr < rank (root mm) < next w)%nat) /\ (forall a x, storageData mm !! a = Some x -> is_Some (heap w !! x)) /\ forall a v, accountData mm !! a = Some v -> small_blob v) as Hmm.
    { intros r mm Hr0 <- -> -> ->. split; [done|]. split; [intros a x Ex; destruct (Hst a x Ex) as [Ex'|Ex']; [by eapply (F18 f1 m F1)|by eapply V2]|]. intros a v [Ev|[_ Ev]]%lookup_union_Some_raw; [exact (iv_small _ _ Hi _ _ _ _ E Ev)|]. apply map_lookup_filter_Some in Ev as [Ev _]. by eapply (F18 f1 m F1). }
    destruct (F18 f1 m F1) as (_ & Hrk & _ & _). intros [[<- <-]|[_ [[<- <-]|[_ Em']]%lookup_insert_Some]]%lookup_insert_Some.
    + split; [lia|]. apply (Hmm (root l)); [|done..]. destruct Hrk as (r0 & Er0 & Hr0). exists r0. split; [done|]. rewrite F4 in Hr0. assert (rank (root lq) < rank (root l))%nat as Hlq by (destruct (iv_rank _ _ Hi _ _ E) as (pr & Epr & Hr & _); rewrite Ep in Epr; cbn in Epr; rewrite Eq in Epr; injection Epr as <-; exact Hr).
      destruct (iv_rank _ _ Hi _ _ E) as (_ & _ & _ & ?). lia.
    + split; [lia|]. by apply (Hmm (root m)).
    + destruct (F18 q' m' Em') as (? & Hrest). split; [lia|done].
  - intros s' r Hr. specialize (F19 s' r Hr). destruct s' as [b'|q']; [by rewrite <- F19|]. cbn in F19 |- *. destruct (decide (next w1 = q')) as [<-|Hne].
    { destruct (diffs w1 !! next w1) as [mm|] eqn:Emm; [|done]. destruct (F18 _ _ Emm) as [? _]. lia. }
    rewrite lookup_insert_ne by done. destruct (decide (f1 = q')) as [<-|Hne']; [rewrite lookup_insert_eq; cbn; rewrite F1 in F19; exact F19|]. by rewrite lookup_insert_ne.
  - right. exists z. split; [by right|]. split; [lia|]. assert (forall q' : nat, (q' < next w)%nat -> next w1 <> q') as Hlow by (intros; lia).
    assert (z < next w)%nat as Hzn by (eapply live_members; [done|apply Hq|done]).
    split; [destruct Hzs as (mz & Ez & Hs); exists mz; rewrite lookup_insert_ne by (by apply Hlow); done|]. split; [intros q' Hlt Hne; rewrite lookup_insert_ne by (by apply Hlow); by apply Hold|].
    split; [intros q' m' Hge Hne; rewrite lookup_insert_ne by done; by apply Hnew|]. split.
    + intros q' cq [->|Hq']%elem_of_cons Hc; [assert (cq = p :: c) as -> by (by eapply live_fun); by right|by eapply Hthru].
    + intros q' [= -> ->]. by apply elem_of_nil in Hz.
Qed.

Lemma flatten_ok rank w fuel : inv rank w -> forall p c l, alive w p c -> diffs w !! p = Some l -> (rank (root l) < fuel)%nat ->
  exists f w' lf, flatten fuel p w = Ok (f, w') /\ flat rank w c l f w' lf.
Proof.
  intros Hi. induction fuel as [|fuel IH]; intros p c l Ha E Hf; [lia|]. cbn [flatten]. rewrite E. cbn [or_panic mbind res_bind]. destruct (parent l) as [b|q] eqn:Ep; [exists p, w, l; split; [done|]; by eapply flat_self|].
  destruct (alive_parent _ _ _ _ _ _ Hi Ha E Ep) as (c' & Hq & ->). destruct (iv_rank _ _ Hi _ _ E) as (pr & Epr & Hr & _). rewrite Ep in Epr. cbn in Epr. destruct (diffs w !! q) as [lq|] eqn:Eq; [|done]. injection Epr as <-.
  destruct (IH q c' lq Hq Eq ltac:(lia)) as (f1 & w1 & m & -> & Hfl). cbn [mbind res_bind]. rewrite (fl_at _ _ _ _ _ _ _ Hfl). cbn [or_panic mbind res_bind]. rewrite (fl_live _ _ _ _ _ _ _ Hfl).
  destruct (flat_step rank w p c' l q f1 w1 m Hi Ha E Ep Hq) as (f & w' & lf & E' & Hflat); [intros lq' Elq'; assert (lq' = lq) as -> by congruence; done|]. cbn zeta in E'.
  exists f, w', lf. split; [|done]. destruct (merge_slots _ _ _) as [st h]. by rewrite E'.
Qed.

(** ** Writing to the disk *)

Definition agree (st : kvStore) : Prop := forall k v, kept_in (cache st) !! k = Some v -> v = on_disk st k.
Definition disk_ok (st : kvStore) : Prop := agree st /\ forall k, small_blob (on_disk st k).

Lemma dels_kept (a : Hash) (l : list (Hash * Hash * bytes)) k v : forall ca,
  kept_in (fold_left (fun (c : fcache) kv => if decide (kv.1.1 = a) then fc_Del (KSlot a kv.1.2) c else c) l ca) !! k = Some v ->
  kept_in ca !! k = Some v /\ forall x d, ((a, x), d) ∈ l -> k <> KSlot a x.
Proof.
  induction l as [|[[a' x'] d'] l IH]; intros ca E; [split; [done|]; by intros x d ?%elem_of_nil|]. cbn [fold_left] in E. apply IH in E as [E Hn]. cbn [fst snd] in E. case_decide as Ha.
  - eapply lookup_weaken in E; [|apply kept_Del]. apply lookup_delete_Some in E as [Hne E]. split; [done|]. intros x d [[= -> -> ->]|Hin]%elem_of_cons; [congruence|by eapply Hn].
  - split; [done|]. intros x d [[= -> -> ->]|Hin]%elem_of_cons; [done|by eapply Hn].
Qed.

Lemma destroy_ok a st : disk_ok st -> disk_ok (destroy a st) /\ forall k, on_disk (destroy a st) k = if decide (account_of k = a) then [] else on_disk st k.
Proof.
  intros [Hag Hsm]. assert (forall k, on_disk (destroy a st) k = if decide (account_of k = a) then [] else on_disk st k) as Hd.
  { intros [b|b x]; cbn; case_decide as E; subst; [by rewrite lookup_delete_eq|by rewrite lookup_delete_ne| |].
    - assert (filter (fun kv : Hash * Hash * bytes => kv.1.1 <> a) (slots st) !! (a, x) = None) as -> by (apply map_lookup_filter_None; right; intros ? _ Hn; by apply Hn). done.
    - rewrite map_lookup_filter. destruct (slots st !! (b, x)); [|done]. cbn. by rewrite option_guard_True. }
  split; [|done]. split; [|intros k; rewrite Hd; case_decide; [by compute|apply Hsm]]. intros k v E. cbn in E. apply dels_kept in E as [E Hn]. rewrite Hd. eapply lookup_weaken in E; [|apply kept_Set; by compute].
  apply lookup_insert_Some in E as [[<- <-]|[Hne E]]; [cbn; by rewrite decide_True|]. apply Hag in E. case_decide as Ea; [|done]. subst v. destruct k as [b|b x]; cbn in Ea; subst b; [done|]. cbn.
  destruct (slots st !! (a, x)) as [d|] eqn:Es; [|done]. exfalso. eapply (Hn x d); [|done]. by apply elem_of_map_to_list.
Qed.

Lemma destroys_ok (ds : list Hash) : forall st, disk_ok st -> let st' := fold_left (fun st a => destroy a st) ds st in
  disk_ok st' /\ forall k, on_disk st' k = if decide (account_of k ∈ ds) then [] else on_disk st k.
Proof.
  induction ds as [|a ds IH]; intros st Hok; cbn zeta; cbn [fold_left]; [split; [done|]; intros k; rewrite decide_False; [done|]; by intros ?%elem_of_nil|].
  destruct (destroy_ok a st Hok) as [H1 H2]. destruct (IH _ H1) as [H3 H4]. split; [done|]. intros k. rewrite H4, H2. repeat case_decide; set_solver.
Qed.

Lemma put_key_ok k d st : disk_ok st -> small_blob d -> disk_ok (put st (k, d)) /\ forall k', on_disk (put st (k, d)) k' = if decide (k' = k) then d else on_disk st k'.
Proof.
  intros [Hag Hsm] Hd. assert (zlen d = 0 -> d = []) as Hnil by (unfold zlen; destruct d; [done|cbn; lia]). pose proof (zlen_nonneg d) as Hz.
  assert (forall k', on_disk (put st (k, d)) k' = if decide (k' = k) then d else on_disk st k') as Hon.
  { intros k'. destruct k as [a|a x], k' as [b|b y]; cbn; case_decide as E; simplify_eq; try done; [by rewrite lookup_insert_eq|by rewrite lookup_insert_ne by congruence| |].
    - destruct (0 <? zlen d) eqn:E0; to_prop; [by rewrite lookup_insert_eq|]. rewrite lookup_delete_eq. symmetry. apply Hnil. lia.
    - destruct (0 <? zlen d); [by rewrite lookup_insert_ne by congruence|by rewrite lookup_delete_ne by congruence]. }
  split; [|done]. split; [|intros k'; rewrite Hon; case_decide; [done|apply Hsm]]. intros k' v E. rewrite Hon.
  assert (kept_in (fc_Set k d (cache st)) !! k' = Some v \/ kept_in (fc_Set k [] (cache st)) !! k' = Some v /\ d = []) as E'.
  { destruct k as [a|a x]; cbn in E; [by left|]. destruct (0 <? zlen d) eqn:E0; to_prop; [by left|]. right. split; [done|]. apply Hnil. lia. }
  assert (<[k := d]> (kept_in (cache st)) !! k' = Some v) as E2. { destruct E' as [E'|[E' ->]]; (eapply lookup_weaken; [exact E'|apply kept_Set; done]). }
  apply lookup_insert_Some in E2 as [[<- <-]|[Hne E2]]; [by rewrite decide_True|]. rewrite decide_False by done. by apply Hag.
Qed.

Lemma puts_ok (kds : list (key * bytes)) : forall st, disk_ok st -> (forall k d, (k, d) ∈ kds -> small_blob d) -> (forall k d d', (k, d) ∈ kds -> (k, d') ∈ kds -> d = d') ->
  let st' := fold_left put kds st in disk_ok st' /\ (forall k d, (k, d) ∈ kds -> on_disk st' k = d) /\ forall k, (forall d, (k, d) ∉ kds) -> on_disk st' k = on_disk st k.
Proof.
  induction kds as [|[k0 d0] kds IH]; intros st Hok Hs Hf; cbn zeta; cbn [fold_left]; [split; [done|]; split; [by intros k d ?%elem_of_nil|done]|].
  destruct (put_key_ok k0 d0 st Hok ltac:(eapply Hs; by left)) as [H1 H2]. destruct (IH _ H1) as (H3 & H4 & H5); [intros k d Hin; eapply Hs; by right|intros k d d' Hin Hin'; eapply (Hf k); by right|]. split; [done|]. split.
  - intros k d Hin. destruct (decide (k ∈ kds.*1)) as [Hk|Hno].
    + apply list_elem_of_fmap in Hk as ([k1 d'] & Ek & Hin'). cbn in Ek. subst k1. rewrite (H4 k d' Hin'). eapply (Hf k); [by right|done].
    + rewrite H5 by (intros d' Hd'; apply Hno, list_elem_of_fmap; by exists (k, d')). apply elem_of_cons in Hin as [[= -> ->]|Hin]; [by rewrite H2, decide_True|]. destruct Hno. apply list_elem_of_fmap. by exists (k, d).
  - intros k Hno. rewrite H5 by (intros d Hd; apply (Hno d); by right). rewrite H2, decide_False; [done|]. intros ->. apply (Hno d0). by left.
Qed.

Lemma elem_flush l h k d : (k, d) ∈ flush_keys l h <-> match k with KAcc a => accountData l !! a = Some d | KSlot a x => look (storageData l) h a x = Some d end.
Proof.
  unfold flush_keys. rewrite elem_of_app, !list_elem_of_In, in_map_iff, in_concat. setoid_rewrite in_map_iff. split.
  - intros [([a v] & [= <- <-] & Hin)|(ll & ([a y] & <- & Hin) & ([x v] & [= <- <-] & Hin')%in_map_iff)]; [by apply list_elem_of_In, elem_of_map_to_list in Hin|].
    apply list_elem_of_In, elem_of_map_to_list in Hin. apply list_elem_of_In, elem_of_map_to_list in Hin'. cbn in *. unfold look. by rewrite Hin.
  - destruct k as [a|a x]; intros E.
    + left. exists (a, d). split; [done|]. by apply list_elem_of_In, elem_of_map_to_list.
    + right. unfold look in E. destruct (storageData l !! a) as [y|] eqn:Ey; [|done]. cbn in E. eexists. split; [exists (a, y); split; [done|by apply list_elem_of_In, elem_of_map_to_list]|]. apply in_map_iff. exists (x, d). split; [done|]. by apply list_elem_of_In, elem_of_map_to_list.
Qed.

(** The disk with a layer written to it. *)
Lemma flush_ok l h st : disk_ok st -> (forall a v, accountData l !! a = Some v -> small_blob v) -> (forall x m b v, h !! x = Some m -> m !! b = Some v -> small_blob v) ->
  let st' := fold_left put (flush_keys l h) (fold_left (fun st a => destroy a st) (elements (destructSet l)) st) in
  disk_ok st' /\ forall k, on_disk st' k = default (on_disk st k) (local l h k).
Proof.
  intros Hok S1 S2. destruct (destroys_ok (elements (destructSet l)) st Hok) as [H1 H2]. cbn zeta in *.
  destruct (puts_ok (flush_keys l h) _ H1) as (H3 & H4 & H5).
  { intros [a|a x] d Hin%elem_flush; [by eapply S1|]. unfold look in Hin. destruct (storageData l !! a) as [y|]; [|done]. cbn in Hin. apply slots_at_Some in Hin as (m & Em & Ev). by eapply S2. }
  { intros k d d' Hd%elem_flush Hd'%elem_flush. destruct k; congruence. }
  split; [exact H3|]. intros k. unfold local. destruct (match k with KAcc a => accountData l !! a | KSlot a x => y ← storageData l !! a; slots_at h y !! x end) as [d|] eqn:Ek.
  - apply H4. apply elem_flush. by destruct k.
  - rewrite H5; [|intros d Hin%elem_flush; destruct k; unfold look in Hin; congruence]. rewrite H2. destruct (decide (account_of k ∈ destructSet l)) as [Hd|Hd].
    + rewrite bool_decide_true by done. rewrite decide_True; [done|]. by apply elem_of_elements.
    + rewrite bool_decide_false by done. rewrite decide_False; [done|]. by intros ?%elem_of_elements.
Qed.

(** ** The layer above a flattened one *)

Lemma chain_get_app w w' pre c c' k : (forall x, x ∈ pre -> (l ← diffs w' !! x; local l (heap w') k) = (l ← diffs w !! x; local l (heap w) k)) -> chain_get w' c' k = chain_get w c k ->
  chain_get w' (pre ++ c') k = chain_get w (pre ++ c) k.
Proof. intros H E. induction pre as [|x pre IH]; [done|]. cbn [app chain_get]. rewrite H by (by left). rewrite IH; [done|]. intros y Hy. apply H. by right. Qed.

Section relinked.
Context (rank : Hash -> nat) (w : Tree) (Hi : inv rank w) (p q : nat) (lp lq : diffLayer) (cq : list nat).
Context (Ha : alive w p (p :: cq)) (Ep : diffs w !! p = Some lp) (Epar : parent lp = Diff q) (Hq : alive w q cq) (Eq : diffs w !! q = Some lq).
Context (f : nat) (w1 : Tree) (lf : diffLayer) (Hfl : flat rank w cq lq f w1 lf).
Context (z : nat) (Hz : z ∈ cq) (Hfn : (next w <= f)%nat) (Hzs : exists mz, diffs w1 !! z = Some mz /\ stale mz = true)
  (Hold : forall x, (x < next w)%nat -> x <> z -> diffs w1 !! x = diffs w !! x) (Hnew : forall x m, (next w <= x)%nat -> x <> f -> diffs w1 !! x = Some m -> stale m = true)
  (Hthru : forall x cx, x ∈ cq -> live w (Diff x) cx -> z ∈ cx).

Definition w2 : Tree := with_diffs (<[p := set_parent (Diff f) lp]> (diffs w1)) (with_layers (<[root lf := Diff f]> (layers w1)) w1).

Lemma rl_p : p ∉ cq /\ (p < next w)%nat /\ p <> z /\ p <> f.
Proof using Hi Ha Ep Hz Hfn.
  assert (p ∉ cq) as Hpc by (intros Hin; pose proof (live_rank _ _ _ _ _ _ _ Hi (proj2 Ha) Ep Hin Ep); lia). assert (p < next w)%nat by (apply (iv_next _ _ Hi); right; left; by eexists). split; [done|]. split; [done|]. split; [by intros ->|lia].
Qed.

Lemma rl_diffs x : diffs w2 !! x = if decide (x = p) then Some (set_parent (Diff f) lp) else diffs w1 !! x.
Proof using Type. unfold w2. cbn. case_decide as E; [subst; apply lookup_insert_eq|by rewrite lookup_insert_ne]. Qed.

Lemma rl_f : diffs w2 !! f = Some lf.
Proof using Hi Ha Ep Hz Hfn Hfl. destruct rl_p as (_ & _ & _ & Hpf). rewrite rl_diffs, decide_False by done. apply Hfl. Qed.

(** A layer that is not stale is an old one, or the flattened one. *)
Lemma rl_cases x l : diffs w2 !! x = Some l -> stale l = false -> (x = f /\ l = lf) \/ (x = p /\ l = set_parent (Diff f) lp) \/ (x <> f /\ x <> p /\ x <> z /\ (x < next w)%nat /\ diffs w !! x = Some l).
Proof using All.
  intros E Hs. destruct (decide (x = f)) as [->|Hxf]; [rewrite rl_f in E; left; split; [done|congruence]|]. rewrite rl_diffs in E. case_decide as Hxp; [right; left; split; [done|congruence]|]. right. right. split; [done|]. split; [done|].
  destruct (decide (x < next w)%nat) as [Hlt|Hge]; [|pose proof (Hnew x l ltac:(lia) Hxf E); congruence]. assert (x <> z) as Hxz by (intros ->; destruct Hzs as (mz & Ez & Hsz); congruence). split; [done|]. split; [done|]. by rewrite <- Hold.
Qed.

Lemma rl_live_f cx : live w2 (Diff f) cx -> cx = [f].
Proof using All.
  intros Hl. inversion Hl as [|x l c' E1 E2 Hl' Eqx Ec]; subst. rewrite rl_f in E1. injection E1 as <-. destruct (fl_disk _ _ _ _ _ _ _ Hfl) as (b & d & Eb & _). rewrite Eb in Hl'. by inversion Hl'.
Qed.

Lemma rl_live s c2 : live w2 s c2 -> is_Some (root_of w s) ->
  (exists pre, c2 = pre ++ [f] /\ p ∈ pre /\ live w s (pre ++ cq) /\ (forall x, x ∈ pre -> x ∉ cq)) \/ (live w s c2 /\ p ∉ c2 /\ forall x, x ∈ c2 -> x ∉ cq).
Proof using All.
  destruct rl_p as (Hpc & Hpn & Hpz & Hpf). induction 1 as [b d E1 E2|x l c2 E1 E2 Hl IH]; intros Hs.
  - right. split; [econstructor; [|done]; cbn in E1; by rewrite <- (fl_disks _ _ _ _ _ _ _ Hfl)|]. split; [by intros ?%elem_of_nil|]. by intros x ?%elem_of_nil.
  - destruct (rl_cases _ _ E1 E2) as [[-> ->]|[[-> ->]|(Hxf & Hxp & Hxz & Hxn & E)]].
    + exfalso. cbn in Hs. destruct (diffs w !! f) eqn:Ef; [|by destruct Hs]. assert (f < next w)%nat by (apply (iv_next _ _ Hi); right; left; by eexists). lia.
    + left. cbn [parent set_parent] in Hl. apply rl_live_f in Hl as ->. exists [p]. split; [done|]. split; [by left|]. split; [apply Ha|]. by intros x ->%list_elem_of_singleton.
    + destruct (iv_rank _ _ Hi _ _ E) as (pr & Epr & _). destruct (IH ltac:(by eexists)) as [(pre & -> & Hin & Hlw & Hpre)|(Hlw & Hnp & Hpre)].
      * left. assert (live w (Diff x) (x :: pre ++ cq)) as Hlx by by econstructor. exists (x :: pre). split; [done|]. split; [by right|]. split; [done|]. intros y [->|Hy]%elem_of_cons; [|by apply Hpre]. intros Hxc.
        assert (p ∈ pre ++ cq) as Hpin by (apply elem_of_app; by left). pose proof (live_rank _ _ _ _ _ _ _ Hi Hlx E Hpin Ep). pose proof (live_rank _ _ _ _ _ _ _ Hi (proj2 Ha) Ep Hxc E). lia.
      * right. assert (live w (Diff x) (x :: c2)) as Hlx by by econstructor. split; [done|]. split; [by intros [->|?]%elem_of_cons|]. intros y [->|Hy]%elem_of_cons; [|by apply Hpre]. intros Hxc. pose proof (Hthru _ _ Hxc Hlx) as [->|Hzc]%elem_of_cons; [done|]. by apply (Hpre z).
Qed.

(** What an old layer of the tree knows has not changed. *)
Lemma rl_local x cx k : alive w x cx -> x ∉ cq -> (l ← diffs w2 !! x; local l (heap w2) k) = (l ← diffs w !! x; local l (heap w) k).
Proof using All.
  destruct rl_p as (Hpc & Hpn & Hpz & Hpf). intros Hx Hxc. pose proof Hx as [_ Hlx]. inversion Hlx as [|x' lx c' E1 E2 Hl' Eqx Ec]; subst. assert (x < next w)%nat as Hxn by (apply (iv_next _ _ Hi); right; left; by eexists). assert (x <> z) as Hxz by by intros ->.
  assert (forall k', local lx (heap w2) k' = local lx (heap w) k') as Hloc.
  { intros k'. apply local_ext. intros a y Ey. apply (fl_heap _ _ _ _ _ _ _ Hfl). intros x' m a' Hx' Em Ey'. destruct (alive_in _ _ _ _ Hi Hq x' Hx') as (c'' & Ha' & _). destruct (iv_sep _ _ Hi _ _ _ _ _ _ _ _ _ Hx E1 Ha' Em Ey Ey') as [-> _]. done. }
  rewrite E1, rl_diffs. cbn. case_decide as Hxp; [|rewrite (Hold x Hxn Hxz), E1; cbn; apply Hloc]. subst x. assert (lx = lp) as -> by congruence. cbn. rewrite <- Hloc. by destruct k.
Qed.

Lemma rl_get_f k : chain_get w2 [f] k = chain_get w cq k.
Proof using All. cbn [chain_get]. rewrite rl_f. cbn. change (db w2) with (db w1). rewrite (fl_db _ _ _ _ _ _ _ Hfl). rewrite <- (fl_get _ _ _ _ _ _ _ Hfl k). by destruct (local lf (heap w1) k). Qed.

(** Every layer of the tree that is alive shows what the layer of its root showed. *)
Lemma rl_shows r s c2 : layers w2 !! r = Some s -> live w2 s c2 -> exists s0 c0, layers w !! r = Some s0 /\ live w s0 c0 /\ forall k, chain_get w2 c2 k = chain_get w c0 k.
Proof using All.
  intros Er Hl. cbn in Er. rewrite (fl_layers _ _ _ _ _ _ _ Hfl) in Er. apply lookup_insert_Some in Er as [[<- <-]|[_ Er]].
  - rewrite (fl_root _ _ _ _ _ _ _ Hfl). apply rl_live_f in Hl as ->. exists (Diff q), cq. split; [destruct (iv_parent _ _ Hi _ _ _ Ha Ep) as (pr & Epr & El); rewrite Epar in Epr, El; cbn in Epr; rewrite Eq in Epr; injection Epr as <-; done|]. split; [apply Hq|exact rl_get_f].
  - assert (is_Some (root_of w s)) as Hs by (rewrite (iv_tree _ _ Hi _ _ Er); by eexists). exists s. destruct (rl_live s c2 Hl Hs) as [(pre & -> & Hin & Hlw & Hpre)|(Hlw & Hnp & Hpre)].
    + exists (pre ++ cq). split; [done|]. split; [done|]. intros k. apply chain_get_app; [|apply rl_get_f]. intros x Hx. destruct s as [b|y]; [assert (pre ++ cq = []) as Enil by (by inversion Hlw); destruct pre; [by apply elem_of_nil in Hx|done]|].
      destruct (alive_in rank w y (pre ++ cq) Hi ltac:(split; [by exists r|done]) x ltac:(apply elem_of_app; by left)) as (cx & Hcx & _). eapply rl_local; [done|by apply Hpre].
    + exists c2. split; [done|]. split; [done|]. intros k. pose proof (chain_get_app w w2 c2 [] [] k) as Happ. rewrite !app_nil_r in Happ. apply Happ; [|cbn; by rewrite (fl_db _ _ _ _ _ _ _ Hfl)]. intros x Hx.
      destruct s as [b|y]; [inversion Hlw; subst; by apply elem_of_nil in Hx|]. destruct (alive_in rank w y c2 Hi ltac:(split; [by exists r|done]) x Hx) as (cx & Hcx & _). eapply rl_local; [done|by apply Hpre].
Qed.

(** The layers above stay alive. *)
Lemma rl_keep s c0 : live w s c0 -> p ∈ c0 -> exists c2, live w2 s c2 /\ p ∈ c2.
Proof using All.
  destruct rl_p as (Hpc & Hpn & Hpz & Hpf). induction 1 as [b d E1 E2|x l c0 E1 E2 Hl IH]; intros Hin; [by apply elem_of_nil in Hin|]. destruct (decide (x = p)) as [->|Hxp].
  - assert (l = lp) as -> by congruence. exists [p; f]. split; [|by left]. econstructor; [rewrite rl_diffs; by rewrite decide_True|done|]. cbn [parent set_parent]. destruct (fl_disk _ _ _ _ _ _ _ Hfl) as (b & d & Eb & Ed & Hd).
    econstructor; [apply rl_f|apply Hfl|]. rewrite Eb. econstructor; [cbn; rewrite (fl_disks _ _ _ _ _ _ _ Hfl); exact Ed|done].
  - apply elem_of_cons in Hin as [->|Hin]; [done|]. destruct (IH Hin) as (c2 & Hl2 & Hin2). exists (x :: c2). split; [|by right]. assert (x < next w)%nat as Hxn by (apply (iv_next _ _ Hi); right; left; by eexists).
    assert (x <> z) as Hxz. { intros ->. assert (live w (Diff z) (z :: c0)) as Hlz by by econstructor. pose proof (live_rank _ _ _ _ _ _ _ Hi Hlz E1 Hin Ep). pose proof (live_rank _ _ _ _ _ _ _ Hi (proj2 Ha) Ep Hz E1). lia. }
    econstructor; [|done|exact Hl2]. rewrite rl_diffs, decide_False by done. by rewrite Hold.
Qed.

Lemma rl_root s r : root_of w s = Some r -> root_of w2 s = Some r.
Proof using All.
  intros Hr. pose proof (fl_roots _ _ _ _ _ _ _ Hfl s r Hr) as Hr1. destruct s as [b|x]; [done|]. cbn in Hr, Hr1 |- *. destruct (decide (x = p)) as [->|]; [rewrite lookup_insert_eq; cbn; rewrite Ep in Hr; exact Hr|by rewrite lookup_insert_ne].
Qed.

Lemma rl_alive x cx l : alive w2 x cx -> diffs w2 !! x = Some l -> (x = f /\ l = lf /\ cx = [f]) \/
  exists l0 c0, x <> f /\ x ∉ cq /\ alive w x c0 /\ diffs w !! x = Some l0 /\ storageData l = storageData l0 /\ diffed l = diffed l0 /\ origin l = origin l0 /\
    ((x = p /\ parent l = Diff f) \/ (x <> p /\ l = l0)) /\ (forall y, y ∈ cx -> y ∉ cq) /\ (forall y, y ∈ cx -> (y = f /\ cq ⊆ c0) \/ (y ∈ c0 /\ y ∉ cq)).
Proof using All.
  destruct rl_p as (Hpc & Hpn & Hpz & Hpf). intros [[r Er] Hl] E. assert (stale l = false) as Hs by (inversion Hl as [|x' l' c' F1 F2]; subst; congruence). destruct (rl_cases _ _ E Hs) as [[-> ->]|Hc]; [left; split; [done|]; split; [done|]; by apply rl_live_f|]. right.
  assert (x <> f /\ is_Some (diffs w !! x) /\ (x < next w)%nat) as (Hxf & [l0 E0] & Hxn). { destruct Hc as [[-> _]|(? & ? & ? & ? & ?)]; [split; [done|]; split; [by eexists|done]|]. split; [done|]. split; [by eexists|done]. }
  cbn in Er. rewrite (fl_layers _ _ _ _ _ _ _ Hfl) in Er. apply lookup_insert_Some in Er as [[_ Er]|[_ Er]]; [congruence|]. assert (f ∉ cq) as Hfc by (intros Hin; pose proof (live_members _ _ _ _ _ Hi (proj2 Hq) Hin); lia).
  assert (x ∈ cx) as Hxx by (inversion Hl; by left). destruct (rl_live _ _ Hl ltac:(rewrite (iv_tree _ _ Hi _ _ Er); by eexists)) as [(pre & -> & Hin & Hlw & Hpre)|(Hlw & Hnp & Hpre)].
  - exists l0, (pre ++ cq). split; [done|]. assert (x ∈ pre) as Hxp by (apply elem_of_app in Hxx as [?| ->%list_elem_of_singleton]; done). split; [by apply Hpre|]. split; [split; [by exists r|done]|]. split; [done|].
    assert (storageData l = storageData l0 /\ diffed l = diffed l0 /\ origin l = origin l0 /\ ((x = p /\ parent l = Diff f) \/ (x <> p /\ l = l0))) as (-> & -> & -> & Hx).
    { destruct Hc as [[-> ->]|(_ & ? & _ & _ & E')]; [assert (l0 = lp) as -> by congruence; split_and!; [done..|by left]|]. assert (l0 = l) as -> by congruence. split_and!; [done..|by right]. }
    do 3 (split; [done|]). split; [done|]. split; [intros y [Hy| ->%list_elem_of_singleton]%elem_of_app; [by apply Hpre|done]|]. intros y [Hy| ->%list_elem_of_singleton]%elem_of_app; [right; split; [apply elem_of_app; by left|by apply Hpre]|left]. split; [done|]. set_solver.
  - exists l0, cx. split; [done|]. split; [by apply Hpre|]. split; [split; [by exists r|done]|]. split; [done|]. destruct Hc as [[-> ->]|(_ & Hxp & _ & _ & E')]; [done|]. assert (l0 = l) as -> by congruence. do 3 (split; [done|]). split; [by right|]. split; [done|]. intros y Hy. right. split; [done|by apply Hpre].
Qed.

Lemma rl_ptr x cx l a y : alive w2 x cx -> diffs w2 !! x = Some l -> storageData l !! a = Some y ->
  exists x0 c0 l0 a0, alive w x0 c0 /\ diffs w !! x0 = Some l0 /\ storageData l0 !! a0 = Some y /\ ((x = f /\ x0 ∈ cq) \/ (x <> f /\ x0 = x /\ x ∉ cq /\ a0 = a)).
Proof using All.
  intros Hx E Ey. destruct (rl_alive _ _ _ Hx E) as [(-> & -> & ->)|(l0 & c0 & Hxf & Hxc & H0 & E0 & Es & _)].
  - destruct (fl_ptr _ _ _ _ _ _ _ Hfl a y Ey) as (x0 & m & a' & Hx0 & Em & Ey'). destruct (alive_in _ _ _ _ Hi Hq x0 Hx0) as (c0 & H0 & _). exists x0, c0, m, a'. split; [done|]. split; [done|]. split; [done|]. by left.
  - rewrite Es in Ey. exists x, c0, l0, a. split; [done|]. split; [done|]. split; [done|]. by right.
Qed.

Lemma rl_root_q : layers w !! root lf = Some (Diff q) /\ root lf = root lq.
Proof using All.
  rewrite (fl_root _ _ _ _ _ _ _ Hfl). split; [|done]. destruct (iv_parent _ _ Hi _ _ _ Ha Ep) as (pr & Epr & El). rewrite Epar in Epr, El. cbn in Epr. rewrite Eq in Epr. by injection Epr as <-.
Qed.

Lemma rl_inv : inv rank w2.
Proof using All.
  destruct rl_p as (Hpc & Hpn & Hpz & Hpf). destruct rl_root_q as [Erq Erl]. pose proof (fl_next _ _ _ _ _ _ _ Hfl) as Hnx.
  assert (forall r s, layers w2 !! r = Some s -> (r = root lf /\ s = Diff f) \/ (r <> root lf /\ layers w !! r = Some s)) as Hly by (intros r s; cbn; rewrite (fl_layers _ _ _ _ _ _ _ Hfl); intros [[<- <-]|[? ?]]%lookup_insert_Some; auto).
  assert (forall r s, r <> root lf -> layers w !! r = Some s -> layers w2 !! r = Some s) as Hly2 by (intros r s Hr Es; cbn; rewrite (fl_layers _ _ _ _ _ _ _ Hfl); by rewrite lookup_insert_ne).
  assert (forall x m, diffs w2 !! x = Some m -> (x = p /\ m = set_parent (Diff f) lp) \/ diffs w1 !! x = Some m) as Hd12 by (intros x m; rewrite rl_diffs; case_decide; [intros [= <-]; by left|by right]).
  assert (db w2 = db w) as Edb by apply Hfl. assert (disks w2 = disks w) as Edk by apply Hfl.
  split.
  - intros x. rewrite Edk. change (heap w2) with (heap w1). change (next w2) with (next w1). intros [H|[[m Em]|H]].
    + assert (x < next w)%nat by (apply (iv_next _ _ Hi); auto). lia.
    + destruct (Hd12 _ _ Em) as [[-> _]|Em1]; [lia|]. by apply (fl_diffs _ _ _ _ _ _ _ Hfl) in Em1 as [? _].
    + apply (fl_heap_dom _ _ _ _ _ _ _ Hfl) in H. assert (x < next w)%nat by (apply (iv_next _ _ Hi); auto). lia.
  - intros x m Em. change (next w2) with (next w1). destruct (Hd12 _ _ Em) as [[-> ->]|Em1].
    + cbn [parent root set_parent]. exists (root lf). split; [cbn; change (<[p:=set_parent (Diff f) lp]> (diffs w1)) with (diffs w2); by rewrite rl_f|]. destruct (iv_rank _ _ Hi _ _ Ep) as (pr & Epr & Hr & Hr2). rewrite Epar in Epr. cbn in Epr. rewrite Eq in Epr. injection Epr as <-. rewrite Erl. lia.
    + destruct (fl_diffs _ _ _ _ _ _ _ Hfl _ _ Em1) as (_ & (pr & Epr & Hr) & _). exists pr. split; [by apply rl_root|lia].
  - intros x d. rewrite Edk. intros E. pose proof (iv_rank_disk _ _ Hi _ _ E). change (next w2) with (next w1). lia.
  - destruct (iv_disk _ _ Hi) as (b & d & E1 & E2 & E3 & E4). exists b, d. rewrite Edk. split; [done|]. split; [done|]. split; [|done]. apply Hly2; [|done]. intros Er. rewrite Er in E3. congruence.
  - intros r s Es. destruct (Hly _ _ Es) as [[-> ->]|[_ Es']]; [cbn; change (<[p:=set_parent (Diff f) lp]> (diffs w1)) with (diffs w2); by rewrite rl_f|]. apply rl_root. by apply (iv_tree _ _ Hi).
  - intros x cx l Hx E. destruct (rl_alive _ _ _ Hx E) as [(-> & -> & ->)|(l0 & c0 & Hxf & Hxc & H0 & E0 & _ & _ & _ & Hx0 & Hcx & _)].
    + destruct (fl_disk _ _ _ _ _ _ _ Hfl) as (b & d & Eb & Ed & Hd). rewrite Eb. destruct (iv_disk _ _ Hi) as (b' & d' & E1 & E2 & E3 & E4). pose proof (E4 b d Ed Hd) as ->. assert (d' = d) as -> by congruence. exists (d_root d). split; [cbn; rewrite (fl_disks _ _ _ _ _ _ _ Hfl), Ed; done|].
      apply Hly2; [|done]. intros Er. rewrite Er in E3. congruence.
    + destruct Hx0 as [[-> Hpl]|[Hxp ->]].
      * rewrite Hpl. exists (root lf). split; [cbn; change (<[p:=set_parent (Diff f) lp]> (diffs w1)) with (diffs w2); by rewrite rl_f|]. cbn. apply lookup_insert_eq.
      * destruct (iv_parent _ _ Hi _ _ _ H0 E0) as (pr & Epr & El). exists pr. split; [by apply rl_root|]. apply Hly2; [|done]. intros ->. rewrite Erq in El. injection El as El. apply (Hcx q); [|destruct Hq as [_ Hlq]; inversion Hlq; by left].
        destruct Hx as [_ Hlx]. inversion Hlx as [|x' l' c' F1 F2 Hlx' Eqx Ec]; subst. assert (l' = l0) as -> by congruence. rewrite <- El in Hlx'. inversion Hlx'; subst. right. by left.
  - intros _ x cx l Hx E. rewrite Edk. destruct (rl_alive _ _ _ Hx E) as [(-> & -> & ->)|(l0 & c0 & Hxf & Hxc & H0 & E0 & _ & _ & -> & _)]; [apply Hfl|by eapply (iv_origin _ _ Hi)].
  - assert (forall y m k v x0 c0 l0, alive w x0 c0 -> diffs w !! x0 = Some l0 -> diffs w2 !! y = Some m -> local m (heap w2) k = Some v -> (y = f /\ cq ⊆ c0) \/ (y ∈ c0 /\ y ∉ cq) -> hit (diffed l0) k = true) as Hhit.
    { intros y m k v x0 c0 l0 H0 E0 Em Ev [[-> Hsub]|[Hy Hyc]].
      - rewrite rl_f in Em. injection Em as <-. destruct (fl_touch _ _ _ _ _ _ _ Hfl k v Ev) as (y' & m' & v' & Hy' & Em' & Ev'). eapply (iv_bloom _ _ Hi x0 c0 l0 y' m' k v'); [done|done|by apply Hsub|done|done].
      - destruct (alive_in _ _ _ _ Hi H0 y Hy) as (cy & Hcy & _). pose proof (rl_local y cy k Hcy Hyc) as Hloc. rewrite Em in Hloc. cbn [mbind option_bind] in Hloc. rewrite Ev in Hloc. destruct (diffs w !! y) as [m0|] eqn:Em0; [|done]. cbn in Hloc. eapply (iv_bloom _ _ Hi x0 c0 l0 y m0 k v); done. }
    intros _ x cx l y m k v Hx E Hy Em Ev. destruct (rl_alive _ _ _ Hx E) as [(-> & -> & ->)|(l0 & c0 & Hxf & Hxc & H0 & E0 & _ & -> & _ & _ & _ & Hcx)].
    + rewrite (fl_bloom _ _ _ _ _ _ _ Hfl). apply (Hhit y m k v q cq lq); [done|done|done|done|]. left. split; [by apply list_elem_of_singleton|done].
    + apply (Hhit y m k v x c0 l0); [done|done|done|done|by apply Hcx].
  - intros x cx l x' cx' l' a a' y Hx E Hx' E' Ey Ey'. destruct (rl_ptr _ _ _ _ _ Hx E Ey) as (x0 & c0 & l0 & a0 & H0 & E0 & F0 & Hc0). destruct (rl_ptr _ _ _ _ _ Hx' E' Ey') as (x1 & c1 & l1 & a1 & H1 & E1 & F1 & Hc1).
    destruct (iv_sep _ _ Hi _ _ _ _ _ _ _ _ _ H0 E0 H1 E1 F0 F1) as [<- <-]. destruct Hc0 as [[-> Hc0]|(Hxf & -> & Hxc & ->)], Hc1 as [[-> Hc1]|(Hxf' & -> & Hxc' & ->)]; try done. assert (l' = l) as -> by congruence. rewrite rl_f in E. injection E as <-. split; [done|]. by eapply (fl_inj _ _ _ _ _ _ _ Hfl).
  - intros x m a y Em Ey. change (heap w2) with (heap w1). apply (fl_heap_dom _ _ _ _ _ _ _ Hfl). destruct (Hd12 _ _ Em) as [[-> ->]|Em1]; [exact (iv_heap _ _ Hi _ _ _ _ Ep Ey)|]. by apply (fl_diffs _ _ _ _ _ _ _ Hfl) in Em1 as (_ & _ & Hp & _); eapply Hp.
  - intros x m a v Em Ev. destruct (Hd12 _ _ Em) as [[-> ->]|Em1]; [exact (iv_small _ _ Hi _ _ _ _ Ep Ev)|]. by apply (fl_diffs _ _ _ _ _ _ _ Hfl) in Em1 as (_ & _ & _ & Hp); eapply Hp.
  - apply (fl_small _ _ _ _ _ _ _ Hfl).
  - rewrite Edb. apply (iv_small_disk _ _ Hi).
  - rewrite Edb. apply (iv_cache _ _ Hi).
Qed.
End relinked.

(** ** A layer written to the disk *)

Lemma diffToDisk_ok w f lf b d : diffs w !! f = Some lf -> parent lf = Disk b -> disks w !! b = Some d -> d_stale d = false ->
  agree (db w) -> (forall k, small_blob (on_disk (db w) k)) -> (forall a v, accountData lf !! a = Some v -> small_blob v) -> (forall x m a v, heap w !! x = Some m -> m !! a = Some v -> small_blob v) ->
  exists st, diffToDisk f w = Ok (next w, mkTree (S (next w)) (<[next w := mkDisk (root lf) false]> (<[b := mkDisk (d_root d) true]> (disks w))) (diffs w) (heap w) st (layers w)) /\
    disk_ok st /\ forall k, on_disk st k = default (on_disk (db w) k) (local lf (heap w) k).
Proof.
  intros Ef Eb Ed Hd A1 A2 S1 S2. destruct (flush_ok lf (heap w) (db w) (conj A1 A2) S1 S2) as [[H1 H2] H3]. cbn zeta in *. unfold diffToDisk. rewrite Ef. cbn [or_panic mbind res_bind]. rewrite Eb, Ed. cbn [or_panic mbind res_bind]. rewrite Hd.
  exists (with_root (root lf) (fold_left put (flush_keys lf (heap w)) (fold_left (fun st a => destroy a st) (elements (destructSet lf)) (db w)))). split; [done|]. assert (forall r st k, on_disk (with_root r st) k = on_disk st k) as Hw by (intros ? ? []; done). split; [split|].
  - intros k v E. rewrite Hw. by apply H1.
  - intros k. rewrite Hw. apply H2.
  - intros k. rewrite Hw. apply H3.
Qed.

Section persisted.
Context (rank : Hash -> nat) (w : Tree) (Hi : inv rank w) (p f b : nat) (lp lf : diffLayer) (d : diskLayer) (st : kvStore).
Context (Ha : alive w p [p; f]) (Ep : diffs w !! p = Some lp) (Epar : parent lp = Diff f) (Ef : diffs w !! f = Some lf) (Eb : parent lf = Disk b) (Ed : disks w !! b = Some d) (Hd : d_stale d = false).
Context (Hst : disk_ok st) (Hon : forall k, on_disk st k = default (on_disk (db w) k) (local lf (heap w) k)).

Definition w3 : Tree := mkTree (S (next w)) (<[next w := mkDisk (root lf) false]> (<[b := mkDisk (d_root d) true]> (disks w))) (<[p := set_parent (Disk (next w)) lp]> (diffs w)) (heap w) st
  (<[root lf := Disk (next w)]> (layers w)).

Lemma ps_alive_f : alive w f [f] /\ layers w !! root lf = Some (Diff f) /\ f <> p /\ (rank (root lf) < rank (root lp))%nat.
Proof using All.
  destruct (alive_parent _ _ _ _ _ _ Hi Ha Ep Epar) as (c' & Hf & [= <-]). destruct (iv_parent _ _ Hi _ _ _ Ha Ep) as (pr & Epr & El). rewrite Epar in Epr, El. cbn in Epr. rewrite Ef in Epr. injection Epr as <-. split; [done|]. split; [done|].
  destruct (iv_rank _ _ Hi _ _ Ep) as (pr & Epr & Hr & _). rewrite Epar in Epr. cbn in Epr. rewrite Ef in Epr. injection Epr as <-. split; [|done]. intros ->. assert (lp = lf) as -> by congruence. lia.
Qed.

Lemma ps_diffs x : diffs w3 !! x = if decide (x = p) then Some (set_parent (Disk (next w)) lp) else diffs w !! x.
Proof using Type. unfold w3. cbn. case_decide as E; [subst; apply lookup_insert_eq|by rewrite lookup_insert_ne]. Qed.

Lemma ps_new_disk x dx : disks w3 !! x = Some dx -> d_stale dx = false -> x = next w /\ dx = mkDisk (root lf) false.
Proof using All.
  cbn. intros [[<- <-]|[_ [[<- <-]|[Hne E]]%lookup_insert_Some]]%lookup_insert_Some Hs; [done|done|]. destruct (iv_disk _ _ Hi) as (b' & d' & _ & _ & _ & Hu). pose proof (Hu _ _ E Hs). pose proof (Hu _ _ Ed Hd). congruence.
Qed.

Lemma ps_old_root s r : root_of w s = Some r -> s <> Disk (next w).
Proof using All. intros E ->. cbn in E. destruct (disks w !! next w) eqn:En; [|done]. assert (next w < next w)%nat by (apply (iv_next _ _ Hi); left; by eexists). lia. Qed.

Lemma ps_live s c3 : live w3 s c3 -> (s = Disk (next w) /\ c3 = []) \/ (p ∈ c3 /\ live w s (c3 ++ [f])).
Proof using All.
  induction 1 as [x dx E1 E2|x l c E1 E2 Hl IH]; [left; split; [|done]; f_equal; by eapply ps_new_disk|]. right. rewrite ps_diffs in E1. case_decide as Hx.
  - subst x. injection E1 as <-. cbn [parent set_parent] in Hl. inversion Hl; subst. split; [by left|]. apply Ha.
  - destruct (iv_rank _ _ Hi _ _ E1) as (pr & Epr & _). destruct IH as [[Es _]|[Hin Hlw]]; [by apply ps_old_root in Epr|]. split; [by right|]. by econstructor.
Qed.

Lemma ps_keep s c0 : live w s c0 -> p ∈ c0 -> exists c3, live w3 s c3 /\ p ∈ c3.
Proof using All.
  induction 1 as [x dx E1 E2|x l c E1 E2 Hl IH]; intros Hin; [by apply elem_of_nil in Hin|]. destruct (decide (x = p)) as [->|Hx].
  - exists [p]. split; [|by left]. econstructor; [rewrite ps_diffs; by rewrite decide_True|cbn; congruence|]. cbn [parent set_parent]. econstructor; [cbn; apply lookup_insert_eq|done].
  - apply elem_of_cons in Hin as [->|Hin]; [done|]. destruct (IH Hin) as (c3 & Hl3 & Hin3). exists (x :: c3). split; [|by right]. econstructor; [|done|done]. rewrite ps_diffs. by rewrite decide_False.
Qed.

Lemma ps_local x k : (l ← diffs w3 !! x; local l (heap w3) k) = (l ← diffs w !! x; local l (heap w) k).
Proof using All. rewrite ps_diffs. case_decide as Hx; [|done]. subst. rewrite Ep. cbn. by destruct k. Qed.

Lemma ps_get c3 k : chain_get w3 c3 k = chain_get w (c3 ++ [f]) k.
Proof using All.
  pose proof (chain_get_app w w3 c3 [f] [] k) as Happ. rewrite app_nil_r in Happ. apply Happ; [intros x _; apply ps_local|]. cbn [chain_get]. rewrite Ef. cbn. rewrite Hon. by destruct (local lf (heap w) k).
Qed.

Lemma ps_shows r s c3 : layers w3 !! r = Some s -> live w3 s c3 -> exists s0 c0, layers w !! r = Some s0 /\ live w s0 c0 /\ forall k, chain_get w3 c3 k = chain_get w c0 k.
Proof using All.
  destruct ps_alive_f as (Hf & Elf & _). intros Er Hl. cbn in Er. apply lookup_insert_Some in Er as [[<- <-]|[Hne Er]].
  - inversion Hl; subst. exists (Diff f), [f]. split; [done|]. split; [apply Hf|]. intros k. apply (ps_get []).
  - pose proof (iv_tree _ _ Hi _ _ Er) as Hs. exists s, (c3 ++ [f]). split; [done|]. split; [|intros k; apply ps_get]. destruct (ps_live _ _ Hl) as [[-> _]|[_ ?]]; [by apply ps_old_root in Hs|done].
Qed.

Lemma ps_root s r : root_of w s = Some r -> root_of w3 s = Some r.
Proof using All.
  intros Hr. destruct s as [x|x]; cbn in Hr |- *.
  - destruct (decide (next w = x)) as [<-|Hx]; [destruct (disks w !! next w) eqn:En; [|done]; assert (next w < next w)%nat by (apply (iv_next _ _ Hi); left; by eexists); lia|]. rewrite lookup_insert_ne by done.
    destruct (decide (b = x)) as [<-|]; [rewrite lookup_insert_eq; cbn; rewrite Ed in Hr; exact Hr|by rewrite lookup_insert_ne].
  - destruct (decide (p = x)) as [<-|]; [rewrite lookup_insert_eq; cbn; rewrite Ep in Hr; exact Hr|by rewrite lookup_insert_ne].
Qed.

Lemma ps_alive x c l : alive w3 x c -> diffs w3 !! x = Some l -> exists l0, alive w x (c ++ [f]) /\ diffs w !! x = Some l0 /\ storageData l = storageData l0 /\ root l = root l0 /\ ((x = p /\ l = set_parent (Disk (next w)) lp) \/ (x <> p /\ l = l0)).
Proof using All.
  intros [[r Er] Hl] E. cbn in Er. apply lookup_insert_Some in Er as [[_ ?]|[_ Er]]; [done|]. destruct (ps_live _ _ Hl) as [[? _]|[_ Hlw]]; [done|]. rewrite ps_diffs in E. case_decide as Hx.
  - subst x. injection E as <-. exists lp. split; [split; [by exists r|done]|]. do 3 (split; [done|]). by left.
  - exists l. split; [split; [by exists r|done]|]. do 3 (split; [done|]). by right.
Qed.

Lemma ps_inv : invb (blooms := false) rank w3.
Proof using All.
  destruct ps_alive_f as (Hf & Elf & Hfp & Hrf). assert (p < next w)%nat as Hpn by (apply (iv_next _ _ Hi); right; left; by eexists).
  assert (forall x m, diffs w3 !! x = Some m -> exists m0, diffs w !! x = Some m0 /\ root m = root m0 /\ storageData m = storageData m0 /\ accountData m = accountData m0 /\ ((x = p /\ parent m = Disk (next w)) \/ (x <> p /\ m = m0))) as Hm.
  { intros x m. rewrite ps_diffs. case_decide as Hx; [intros [= <-]; subst x; exists lp; split; [done|]; do 3 (split; [done|]); by left|]. intros E. exists m. split; [done|]. do 3 (split; [done|]). by right. }
  split.
  - intros x [[dx E]|[[m E]|E]]; [| |assert (x < next w)%nat by (apply (iv_next _ _ Hi); auto); cbn; lia].
    + cbn in E. apply lookup_insert_Some in E as [[<- _]|[_ [[<- _]|[_ E]]%lookup_insert_Some]]; [cbn; lia| |]; (assert (next w > x)%nat; [apply (iv_next _ _ Hi); left; by eexists|cbn; lia]) || (assert (b < next w)%nat by (apply (iv_next _ _ Hi); left; by eexists); cbn; lia).
    + destruct (Hm _ _ E) as (m0 & E0 & _). assert (x < next w)%nat by (apply (iv_next _ _ Hi); right; left; by eexists). cbn. lia.
  - intros x m E. destruct (Hm _ _ E) as (m0 & E0 & -> & _ & _ & Hc). destruct (iv_rank _ _ Hi _ _ E0) as (pr & Epr & Hr1 & Hr2). destruct Hc as [[-> ->]|[_ ->]]; [|exists pr; split; [by apply ps_root|cbn; lia]].
    assert (m0 = lp) as -> by congruence. exists (root lf). split; [cbn; by rewrite lookup_insert_eq|cbn; lia].
  - intros x dx. cbn. intros [[<- <-]|[_ [[<- <-]|[_ E]]%lookup_insert_Some]]%lookup_insert_Some; cbn; [destruct (iv_rank _ _ Hi _ _ Ef) as (_ & _ & _ & ?); lia|pose proof (iv_rank_disk _ _ Hi _ _ Ed); lia|pose proof (iv_rank_disk _ _ Hi _ _ E); lia].
  - exists (next w), (mkDisk (root lf) false). split; [cbn; apply lookup_insert_eq|]. split; [done|]. split; [cbn; apply lookup_insert_eq|]. intros x dx E Hs. by destruct (ps_new_disk _ _ E Hs).
  - intros r s. cbn. intros [[<- <-]|[_ E]]%lookup_insert_Some; [cbn; by rewrite lookup_insert_eq|]. apply ps_root. by apply (iv_tree _ _ Hi).
  - intros x c l Hx E. destruct (ps_alive _ _ _ Hx E) as (l0 & H0 & E0 & _ & _ & [[-> ->]|[Hxp ->]]).
    + exists (root lf). cbn. split; by rewrite lookup_insert_eq.
    + destruct (iv_parent _ _ Hi _ _ _ H0 E0) as (pr & Epr & El). exists pr. split; [by apply ps_root|]. cbn. rewrite lookup_insert_ne; [done|]. intros <-. rewrite Elf in El. injection El as El.
      destruct Hx as [_ Hl]. inversion Hl as [|x' l' c' F1 F2 Hl' Eqx Ec]; subst. assert (l' = l0) as -> by congruence. rewrite <- El in Hl'. inversion Hl' as [|x' lf' c'' F3 F4 Hl'' Eqx Ec]; subst. rewrite ps_diffs, decide_False, Ef in F3 by done. injection F3 as <-. rewrite Eb in Hl''.
      inversion Hl'' as [x' d' F5 F6|]; subst. destruct (ps_new_disk _ _ F5 F6) as [Hbn _]. assert (b < next w)%nat by (apply (iv_next _ _ Hi); left; by eexists). lia.
  - done.
  - done.
  - intros x c l x' c' l' a a' y Hx E Hx' E' Ey Ey'. destruct (ps_alive _ _ _ Hx E) as (l0 & H0 & E0 & Es & _). destruct (ps_alive _ _ _ Hx' E') as (l1 & H1 & E1 & Es' & _). rewrite Es in Ey. rewrite Es' in Ey'. exact (iv_sep _ _ Hi _ _ _ _ _ _ _ _ _ H0 E0 H1 E1 Ey Ey').
  - intros x m a y E Ey. destruct (Hm _ _ E) as (m0 & E0 & _ & Es & _). rewrite Es in Ey. exact (iv_heap _ _ Hi _ _ _ _ E0 Ey).
  - intros x m a v E Ev. destruct (Hm _ _ E) as (m0 & E0 & _ & _ & Es & _). rewrite Es in Ev. exact (iv_small _ _ Hi _ _ _ _ E0 Ev).
  - exact (iv_small_slot _ _ Hi).
  - apply Hst.
  - apply Hst.
Qed.
End persisted.

(** ** Removing layers *)

Definition kids (ch : gmap Hash (list Hash)) (r : Hash) : list Hash := default [] (ch !! r).

Lemma Root_ok w s r : root_of w s = Some r -> Root s w = Ok r.
Proof. destruct s as [x|x]; cbn; [destruct (disks w !! x)|destruct (diffs w !! x)]; cbn; congruence. Qed.

Lemma children_ok w (l : list (Hash * layer)) : (forall r x, (r, Diff x) ∈ l -> exists m pr, diffs w !! x = Some m /\ root_of w (parent m) = Some pr) ->
  exists ch, children_of l w = Ok ch /\ forall r (c : Hash), c ∈ kids ch r <-> exists x m, (c, Diff x) ∈ l /\ diffs w !! x = Some m /\ root_of w (parent m) = Some r.
Proof.
  induction l as [|[r s] l IH]; intros Hl; cbn [children_of].
  { exists ∅. split; [done|]. intros r c. unfold kids. rewrite lookup_empty. cbn. split; [by intros ?%elem_of_nil|]. by intros (x & m & ?%elem_of_nil & _). }
  destruct IH as (ch & Ech & Hch); [intros r' x Hx; apply (Hl r'); by right|]. destruct s as [b|x].
  - exists ch. split; [done|]. intros r' c. rewrite Hch. split; intros (x & m & Hin & Hrest); exists x, m; (split; [|done]); [by right|]. by apply elem_of_cons in Hin as [?|?].
  - destruct (Hl r x ltac:(by left)) as (m & pr & Em & Epr). rewrite Em. cbn [or_panic mbind res_bind]. rewrite (Root_ok _ _ _ Epr). cbn [mbind res_bind]. rewrite Ech. cbn [mbind res_bind]. eexists. split; [done|].
    intros r' c. unfold kids at 1. destruct (decide (pr = r')) as [<-|Hne].
    + rewrite lookup_insert_eq. change (default [] (Some (r :: default [] (ch !! pr)))) with (r :: kids ch pr). rewrite elem_of_cons, Hch. split.
      * intros [->|(x' & m' & Hin & Hrest)]; [exists x, m; split; [by left|done]|]. exists x', m'. split; [by right|done].
      * intros (x' & m' & [[= <- <-]|Hin]%elem_of_cons & Hrest); [by left|]. right. by exists x', m'.
    + rewrite lookup_insert_ne by done. fold (kids ch r'). rewrite Hch. split; intros (x' & m' & Hin & Em' & Er'); exists x', m'; (split; [|done]); [by right|]. apply elem_of_cons in Hin as [[= -> ->]|?]; [|done]. congruence.
Qed.

Section removal.
Context (rank : Hash -> nat) (N : nat) (P : Hash -> Prop).

(** Children are above their parents, and the layers in [P] stand on layers in [P]. *)
Definition kids_ok (ch : gmap Hash (list Hash)) : Prop := forall r (c : Hash), c ∈ kids ch r -> (rank r < rank c < N)%nat /\ (P c -> P r).

Definition removed (ls : gmap Hash layer) (ch : gmap Hash (list Hash)) (ls' : gmap Hash layer) (ch' : gmap Hash (list Hash)) : Prop :=
  ls' ⊆ ls /\ (kids_ok ch' /\ forall r (c : Hash), c ∈ kids ch' r -> c ∈ kids ch r) /\ forall x, P x -> ls' !! x = ls !! x /\ kids ch' x = kids ch x.

Lemma removed_refl ls ch : kids_ok ch -> removed ls ch ls ch.
Proof using Type. done. Qed.
Lemma removed_trans ls ch ls1 ch1 ls2 ch2 : removed ls ch ls1 ch1 -> removed ls1 ch1 ls2 ch2 -> removed ls ch ls2 ch2.
Proof using Type. intros (A1 & [A2 A2'] & A3) (B1 & [B2 B2'] & B3). split; [by etransitivity|]. split; [split; [done|]; intros r c Hc; by apply A2', B2'|]. intros x Hx. destruct (A3 x Hx), (B3 x Hx). split; congruence. Qed.

Lemma remove_ok fuel : forall r ls ch, kids_ok ch -> (rank r < N)%nat -> (N < fuel + rank r)%nat -> ~ P r ->
  exists ls' ch', remove fuel r (ls, ch) = Ok (ls', ch') /\ removed ls ch ls' ch' /\ ls' !! r = None.
Proof using Type.
  induction fuel as [|fuel IH]; intros r ls ch Hk Hr Hf HP; [lia|]. cbn [remove fst snd].
  assert (forall cs ls ch, kids_ok ch -> (forall c : Hash, c ∈ cs -> (rank r < rank c < N)%nat /\ ~ P c) -> exists ls' ch',
    fold_left (fun acc (c : Hash) => st ← acc; remove fuel c st) cs (Ok (ls, ch)) = Ok (ls', ch') /\ removed ls ch ls' ch') as Hfold.
  { induction cs as [|c cs IHc]; intros ls0 ch0 Hk0 Hcs; cbn [fold_left]; [exists ls0, ch0; split; [done|by apply removed_refl]|]. destruct (Hcs c ltac:(by left)) as [Hrc Hpc]. cbn [mbind res_bind].
    destruct (IH c ls0 ch0 Hk0 ltac:(lia) ltac:(lia) Hpc) as (ls1 & ch1 & -> & H1 & _). destruct (IHc ls1 ch1) as (ls2 & ch2 & -> & H2); [apply (proj2 H1)|intros c' Hc'; apply Hcs; by right|]. exists ls2, ch2. split; [done|]. by eapply removed_trans. }
  assert (removed ls ch (delete r ls) ch) as H0 by (split; [apply delete_subseteq|]; split; [done|]; intros x Hx; split; [rewrite lookup_delete_ne; [done|by intros ->]|done]).
  destruct (Hfold (default [] (ch !! r)) (delete r ls) ch Hk) as (ls1 & ch1 & -> & H1); [intros c Hc; destruct (Hk r c Hc) as [? Hc']; split; [done|]; auto|]. cbn [mbind res_bind]. exists ls1, (delete r ch1). split; [done|]. split.
  - eapply removed_trans; [exact H0|]. destruct H1 as (A1 & [A2 A2'] & A3). split; [done|]. split.
    + split; intros r' c; unfold kids at 1; (destruct (decide (r = r')) as [<-|]; [rewrite lookup_delete_eq; by intros ?%elem_of_nil|rewrite lookup_delete_ne by done; first [apply A2|apply A2']]).
    + intros x Hx. destruct (A3 x Hx) as [? E]. split; [done|]. unfold kids in *. by rewrite lookup_delete_ne by (by intros ->).
  - destruct H1 as (A1 & _). destruct (ls1 !! r) as [s|] eqn:E; [|done]. eapply lookup_weaken in E; [|exact A1]. by rewrite lookup_delete_eq in E.
Qed.

Lemma remove_stale_ok w (l : list (Hash * layer)) : (next w = N)%nat -> (forall r s, (r, s) ∈ l -> (rank r < N)%nat /\ exists b, Stale s w = Ok b /\ (b = true -> ~ P r)) -> forall ls ch, kids_ok ch ->
  exists ls' ch', remove_stale l w (ls, ch) = Ok (ls', ch') /\ removed ls ch ls' ch' /\ forall r s, (r, s) ∈ l -> Stale s w = Ok true -> ls' !! r = None.
Proof using Type.
  intros Hn. induction l as [|[r s] l IH]; intros Hl ls ch Hk; cbn [remove_stale].
  { exists ls, ch. split; [done|]. split; [by apply removed_refl|]. by intros r s ?%elem_of_nil. }
  destruct (Hl r s ltac:(by left)) as (Hr & b & Eb & Hb). rewrite Eb. cbn [mbind res_bind].
  assert (exists ls1 ch1, (if (b : bool) then remove (S (next w)) r (ls, ch) else Ok (ls, ch)) = Ok (ls1, ch1) /\ removed ls ch ls1 ch1 /\ (b = true -> ls1 !! r = None)) as (ls1 & ch1 & -> & H1 & H2).
  { destruct b; [|exists ls, ch; split; [done|]; split; [by apply removed_refl|done]]. destruct (remove_ok (S (next w)) r ls ch Hk Hr ltac:(lia) (Hb eq_refl)) as (ls1 & ch1 & E & H1 & H2). by exists ls1, ch1. }
  cbn [mbind res_bind]. destruct (IH ltac:(intros r' s' Hin; apply (Hl r'); by right) ls1 ch1 ltac:(apply (proj2 H1))) as (ls2 & ch2 & -> & H3 & H4). exists ls2, ch2. split; [done|]. split; [by eapply removed_trans|].
  intros r' s' [[= -> ->]|Hin]%elem_of_cons Hs; [|by eapply H4]. assert (b = true) as -> by congruence. destruct (ls2 !! r) as [s2|] eqn:E; [|done]. eapply lookup_weaken in E; [|apply H3]. by rewrite H2 in E.
Qed.
End removal.

(** The layers of the tree that are alive stay. *)
Definition shown w (r : Hash) : Prop := exists s c, layers w !! r = Some s /\ live w s c.

Lemma layers_live w ls s c : live (with_layers ls w) s c <-> live w s c.
Proof. split; (induction 1; by econstructor). Qed.
Lemma layers_get w ls c k : chain_get (with_layers ls w) c k = chain_get w c k.
Proof. induction c as [|x c IH]; [done|]. cbn. by rewrite IH. Qed.

Lemma shrink_inv bl rank w ls : invb (blooms := bl) rank w -> ls ⊆ layers w -> (forall r, shown w r -> ls !! r = layers w !! r) -> invb (blooms := bl) rank (with_layers ls w).
Proof.
  intros Hi Hsub Hkeep. assert (forall x c, alive (with_layers ls w) x c -> alive w x c) as Ha.
  { intros x c [[r Er] Hl]. split; [exists r; by eapply lookup_weaken|]. by apply layers_live in Hl. }
  split; try (by apply Hi).
  - destruct (iv_disk _ _ Hi) as (b & d & E1 & E2 & E3 & E4). exists b, d. split; [done|]. split; [done|]. split; [|done]. cbn. rewrite Hkeep; [done|]. exists (Disk b), []. split; [done|by econstructor].
  - intros r s Es. apply (iv_tree _ _ Hi). by eapply lookup_weaken.
  - intros x c l Hx E. pose proof (Ha _ _ Hx) as Hx'. destruct (iv_parent _ _ Hi _ _ _ Hx' E) as (pr & Epr & El). exists pr. split; [done|]. cbn. rewrite Hkeep; [done|]. destruct Hx' as [_ Hl]. inversion Hl as [|x' l' c' F1 F2 Hl' Eqx Ec]; subst.
    assert (l' = l) as -> by (cbn in E; congruence). by exists (parent l), c'.
  - intros Hbl x c l Hx E. exact (iv_origin' _ _ Hi Hbl _ _ _ (Ha _ _ Hx) E).
  - intros Hbl x c l y m k v Hx E Hy Em Ev. exact (iv_bloom' _ _ Hi Hbl _ _ _ _ _ _ _ (Ha _ _ Hx) E Hy Em Ev).
  - intros x c l x' c' l' a a' y Hx E Hx' E' Ey Ey'. exact (iv_sep _ _ Hi _ _ _ _ _ _ _ _ _ (Ha _ _ Hx) E (Ha _ _ Hx') E' Ey Ey').
Qed.

Lemma removal_ok bl rank w : invb (blooms := bl) rank w -> exists ch ls ch',
  children_of (map_to_list (layers w)) w = Ok ch /\ remove_stale (map_to_list (layers w)) w (layers w, ch) = Ok (ls, ch') /\ ls ⊆ layers w /\
  (forall r, shown w r -> ls !! r = layers w !! r) /\ (forall r s, ls !! r = Some s -> Stale s w = Ok false) /\
  (forall r (c : Hash), c ∈ kids ch' r -> (rank r < rank c < next w)%nat /\ forall x m, layers w !! c = Some (Diff x) -> diffs w !! x = Some m -> root_of w (parent m) = Some r) /\
  (forall r x m, shown w r -> layers w !! root m = Some (Diff x) -> diffs w !! x = Some m -> root_of w (parent m) = Some r -> root m ∈ kids ch' r).
Proof.
  intros Hi. destruct (children_ok w (map_to_list (layers w))) as (ch & Ech & Hch).
  { intros r x Hin%elem_of_map_to_list. apply (iv_tree _ _ Hi) in Hin. cbn in Hin. destruct (diffs w !! x) as [m|] eqn:Em; [|done]. destruct (iv_rank _ _ Hi _ _ Em) as (pr & Epr & _). by exists m, pr. }
  assert (kids_ok rank (next w) (shown w) ch) as Hk.
  { intros r c (x & m & Hin%elem_of_map_to_list & Em & Er)%Hch. pose proof (iv_tree _ _ Hi _ _ Hin) as Hrc. cbn in Hrc. rewrite Em in Hrc. injection Hrc as <-. destruct (iv_rank _ _ Hi _ _ Em) as (pr & Epr & Hrk). assert (pr = r) as -> by congruence. split; [done|].
    intros (s & c' & Es & Hl). assert (s = Diff x) as -> by congruence. assert (alive w x c') as Ha by (split; [by exists (root m)|done]). destruct (iv_parent _ _ Hi _ _ _ Ha Em) as (pr & Epr' & El). assert (pr = r) as -> by congruence. inversion Hl as [|x' l' c'' F1 F2 Hl' Eqx Ec]; subst. assert (l' = m) as -> by congruence. by exists (parent m), c''. }
  assert (forall r s, layers w !! r = Some s -> (rank r < next w)%nat /\ exists b, Stale s w = Ok b /\ (b = true -> ~ shown w r)) as Hstale.
  { intros r s Es. pose proof (iv_tree _ _ Hi _ _ Es) as Hr. destruct s as [x|x]; cbn in Hr |- *; [destruct (disks w !! x) as [dx|] eqn:E|destruct (diffs w !! x) as [m|] eqn:E]; try done; injection Hr as <-; cbn.
    - split; [by eapply (iv_rank_disk _ _ Hi)|]. eexists. split; [done|]. intros Hb (s & c & Es' & Hl). assert (s = Disk x) as -> by congruence. inversion Hl as [x' d' F1 F2|]; subst. congruence.
    - split; [by destruct (iv_rank _ _ Hi _ _ E) as (_ & _ & _ & ?)|]. eexists. split; [done|]. intros Hb (s & c & Es' & Hl). assert (s = Diff x) as -> by congruence. inversion Hl as [|x' l' c' F1 F2]; subst. congruence. }
  destruct (remove_stale_ok rank (next w) (shown w) w (map_to_list (layers w)) eq_refl) with (ls := layers w) (ch := ch) as (ls & ch' & Ers & (A1 & [A2 A2'] & A3) & A4); [intros r s Hin%elem_of_map_to_list; by apply Hstale|done|].
  exists ch, ls, ch'. split; [done|]. split; [done|]. split; [done|]. split; [intros r Hr; by apply A3|]. split; [|split].
  - intros r s Es. assert (layers w !! r = Some s) as Es0 by (by eapply lookup_weaken). destruct (Hstale r s Es0) as (_ & b & Eb & _). destruct b; [|done]. rewrite (A4 r s) in Es; [done|by apply elem_of_map_to_list|done].
  - intros r c Hc. split; [by apply A2|]. intros x m El Em. apply A2', Hch in Hc as (x' & m' & Hin%elem_of_map_to_list & Em' & Er). congruence.
  - intros r x m Hr El Em Epr. destruct (A3 r Hr) as [_ ->]. apply Hch. exists x, m. split; [by apply elem_of_map_to_list|done].
Qed.

(** ** New filters *)

(** Only origins and filters have changed. *)
Record rebloomed w w' : Prop := {
  rb_next : next w' = next w;
  rb_disks : disks w' = disks w;
  rb_heap : heap w' = heap w;
  rb_db : db w' = db w;
  rb_layers : layers w' = layers w;
  rb_diffs x : match diffs w !! x, diffs w' !! x with Some l, Some l' => exists o f, l' = set_bloom o f l | None, None => True | _, _ => False end;
}.

Lemma rb_to w w' x l : rebloomed w w' -> diffs w !! x = Some l -> exists o f, diffs w' !! x = Some (set_bloom o f l).
Proof. intros H E. pose proof (rb_diffs _ _ H x) as Hx. rewrite E in Hx. destruct (diffs w' !! x) as [l'|]; [|done]. destruct Hx as (o & f & ->). by exists o, f. Qed.
Lemma rb_from w w' x l' : rebloomed w w' -> diffs w' !! x = Some l' -> exists l o f, diffs w !! x = Some l /\ l' = set_bloom o f l.
Proof. intros H E. pose proof (rb_diffs _ _ H x) as Hx. rewrite E in Hx. destruct (diffs w !! x) as [l|]; [|done]. destruct Hx as (o & f & ->). by exists l, o, f. Qed.
Lemma rb_local o f l h k : local (set_bloom o f l) h k = local l h k.
Proof. by destruct k. Qed.
Lemma rb_refl w : rebloomed w w.
Proof. split; try done. intros x. destruct (diffs w !! x) as [l|]; [|done]. exists (origin l), (diffed l). by destruct l. Qed.
Lemma rb_trans w w' w'' : rebloomed w w' -> rebloomed w' w'' -> rebloomed w w''.
Proof.
  intros [A1 A2 A3 A4 A5 A6] [B1 B2 B3 B4 B5 B6]. split; try congruence. intros x. specialize (A6 x). specialize (B6 x). destruct (diffs w !! x) as [l|], (diffs w' !! x) as [l'|], (diffs w'' !! x) as [l''|]; try done.
  destruct A6 as (o & f & ->), B6 as (o' & f' & ->). by exists o', f'.
Qed.
Lemma rb_live w w' s c : rebloomed w w' -> live w s c -> live w' s c.
Proof. intros H. induction 1 as [x d E1 E2|x l c E1 E2 Hl IH]; [econstructor; [by rewrite (rb_disks _ _ H)|done]|]. destruct (rb_to _ _ _ _ H E1) as (o & f & E). econstructor; [exact E|done|done]. Qed.
Lemma rb_live_back w w' s c : rebloomed w w' -> live w' s c -> live w s c.
Proof. intros H. induction 1 as [x d E1 E2|x l c E1 E2 Hl IH]; [econstructor; [by rewrite <- (rb_disks _ _ H)|done]|]. destruct (rb_from _ _ _ _ H E1) as (l0 & o & f & E & ->). by econstructor. Qed.
Lemma rb_get w w' c k : rebloomed w w' -> chain_get w' c k = chain_get w c k.
Proof.
  intros H. pose proof (chain_get_app w w' c [] [] k) as Happ. rewrite !app_nil_r in Happ. apply Happ; [|cbn; by rewrite (rb_db _ _ H)]. intros x _. pose proof (rb_diffs _ _ H x) as Hx. rewrite (rb_heap _ _ H).
  destruct (diffs w !! x) as [l|], (diffs w' !! x) as [l'|]; try done. destruct Hx as (o & f & ->). cbn. apply rb_local.
Qed.
Lemma rb_root w w' s : rebloomed w w' -> root_of w' s = root_of w s.
Proof. intros H. destruct s as [x|x]; cbn; [by rewrite (rb_disks _ _ H)|]. pose proof (rb_diffs _ _ H x) as Hx. destruct (diffs w !! x), (diffs w' !! x); try done. by destruct Hx as (o & f & ->). Qed.
Lemma rb_alive w w' x c : rebloomed w w' -> alive w' x c <-> alive w x c.
Proof. intros H. unfold alive. rewrite (rb_layers _ _ H). split; (intros [? ?]; split; [done|]); [by eapply rb_live_back|by eapply rb_live]. Qed.

Lemma rb_inv rank w w' : rebloomed w w' -> invb (blooms := false) rank w -> invb (blooms := false) rank w'.
Proof.
  intros H Hi. split.
  - intros x. rewrite (rb_disks _ _ H), (rb_heap _ _ H), (rb_next _ _ H). intros [?|[[l E]|?]]; apply (iv_next _ _ Hi); [auto| |auto]. destruct (rb_from _ _ _ _ H E) as (l0 & o & f & E0 & _). right. left. by eexists.
  - intros x l' E. destruct (rb_from _ _ _ _ H E) as (l & o & f & E0 & ->). destruct (iv_rank _ _ Hi _ _ E0) as (pr & Epr & Hr). exists pr. rewrite (rb_root _ _ _ H), (rb_next _ _ H). done.
  - intros x d. rewrite (rb_disks _ _ H), (rb_next _ _ H). apply (iv_rank_disk _ _ Hi).
  - rewrite (rb_disks _ _ H), (rb_layers _ _ H). apply (iv_disk _ _ Hi).
  - intros r s. rewrite (rb_layers _ _ H), (rb_root _ _ _ H). apply (iv_tree _ _ Hi).
  - intros x c l' Hx E. destruct (rb_from _ _ _ _ H E) as (l & o & f & E0 & ->). rewrite (rb_alive _ _ _ _ H) in Hx. destruct (iv_parent _ _ Hi _ _ _ Hx E0) as (pr & Epr & El). exists pr. by rewrite (rb_root _ _ _ H), (rb_layers _ _ H).
  - done.
  - done.
  - intros x c l x' c' l' a a' y Hx E Hx' E' Ey Ey'. apply (rb_alive _ _ _ _ H) in Hx. apply (rb_alive _ _ _ _ H) in Hx'. destruct (rb_from _ _ _ _ H E) as (l0 & o & f & E0 & ->), (rb_from _ _ _ _ H E') as (l1 & o' & f' & E1 & ->). exact (iv_sep _ _ Hi _ _ _ _ _ _ _ _ _ Hx E0 Hx' E1 Ey Ey').
  - intros x l a y E Ey. destruct (rb_from _ _ _ _ H E) as (l0 & o & f & E0 & ->). rewrite (rb_heap _ _ H). exact (iv_heap _ _ Hi _ _ _ _ E0 Ey).
  - intros x l a v E Ev. destruct (rb_from _ _ _ _ H E) as (l0 & o & f & E0 & ->). exact (iv_small _ _ Hi _ _ _ _ E0 Ev).
  - rewrite (rb_heap _ _ H). exact (iv_small_slot _ _ Hi).
  - rewrite (rb_db _ _ H). exact (iv_small_disk _ _ Hi).
  - rewrite (rb_db _ _ H). exact (iv_cache _ _ Hi).
Qed.

(** A filter that covers the layer and everything below it. *)
Definition good w (b : nat) x : Prop := forall c l, live w (Diff x) c -> diffs w !! x = Some l ->
  origin l = b /\ forall y m k v, y ∈ c -> diffs w !! y = Some m -> local m (heap w) k = Some v -> hit (diffed l) k = true.
Definition good_parent w b l : Prop := match parent l with Diff q => good w b q | Disk _ => True end.

Lemma good_kept w w' b x : rebloomed w w' -> diffs w' !! x = diffs w !! x -> good w b x -> good w' b x.
Proof.
  intros H Ex Hg c l Hl E. rewrite Ex in E. destruct (Hg c l (rb_live_back _ _ _ _ H Hl) E) as [Ho Hh]. split; [done|]. intros y m k v Hy Em Ev. destruct (rb_from _ _ _ _ H Em) as (m0 & o & f & Em0 & ->). rewrite rb_local, (rb_heap _ _ H) in Ev. by eapply Hh.
Qed.

Lemma rebloom_ok rank w b x l : invb (blooms := false) rank w -> diffs w !! x = Some l ->
  exists w', rebloom x b w = Ok w' /\ rebloomed w w' /\ (forall y, y <> x -> diffs w' !! y = diffs w !! y) /\ (good_parent w b l -> good w' b x).
Proof.
  intros Hi E. unfold Snapshot.rebloom. rewrite E. cbn [or_panic mbind res_bind]. destruct (iv_rank _ _ Hi _ _ E) as (pr & Epr & Hrk).
  assert (exists f, match parent l with Diff q => d ← or_panic PanicNil (diffs w !! q); Ok (diffed d) | Disk _ => Ok bloom_New end = Ok f /\ forall q lq, parent l = Diff q -> diffs w !! q = Some lq -> f = diffed lq) as (f & -> & Hf).
  { destruct (parent l) as [p0|q]; [by eexists|]. cbn in Epr. destruct (diffs w !! q) as [lq|] eqn:Eq; [|done]. eexists. split; [done|]. intros q' lq' [= <-] E'. cbn. congruence. }
  cbn [mbind res_bind]. set (f' := fold_left _ _ f). eexists. split; [done|]. set (w' := with_diffs _ w).
  assert (rebloomed w w') as Hrb.
  { split; try done. intros y. cbn. destruct (decide (x = y)) as [<-|]; [rewrite lookup_insert_eq, E; by eexists _, _|]. rewrite lookup_insert_ne by done. apply (rb_diffs _ _ (rb_refl w) y). }
  split; [done|]. split; [intros y Hy; cbn; by rewrite lookup_insert_ne|]. intros Hp c l' Hl El. cbn in El. rewrite lookup_insert_eq in El. injection El as <-. split; [done|]. intros y m k v Hy Em Ev. cbn [diffed set_bloom].
  destruct (rb_from _ _ _ _ Hrb Em) as (m0 & o & g & Em0 & ->). rewrite rb_local in Ev. change (heap w') with (heap w) in Ev. apply (rb_live_back _ _ _ _ Hrb) in Hl. inversion Hl as [|x' l' c' F1 F2 Hl' Eqx Ec]; subst. assert (l' = l) as -> by congruence.
  apply elem_of_cons in Hy as [->|Hy]; [assert (m0 = l) as -> by congruence; by eapply hit_local|]. unfold good_parent in Hp. destruct (parent l) as [p0|q] eqn:Epl; [inversion Hl'; subst; by apply elem_of_nil in Hy|].
  apply hit_kept. inversion Hl' as [|q' lq c'' G1 G2 Hl'' Eqq Ec']; subst. rewrite (Hf q lq eq_refl G1). destruct (Hp _ _ Hl' G1) as [_ Hh]. by eapply Hh.
Qed.

Section blooms.
Context (rank : Hash -> nat) (b : nat) (ch : gmap Hash (list Hash)) (N : nat).
Context (Hch : forall r (c : Hash), c ∈ kids ch r -> (rank r < rank c < N)%nat).

Inductive under : Hash -> Hash -> Prop :=
| under_refl r : under r r
| under_step r (r1 r2 : Hash) : r1 ∈ kids ch r -> under r1 r2 -> under r r2.

(** The layers that are alive keep good filters. *)
Definition kept_good w w' : Prop := rebloomed w w' /\ forall x c, alive w x c -> good w b x -> good w' b x.
Definition stands w (r : Hash) : Prop := forall x c l, layers w !! r = Some (Diff x) -> alive w x c -> diffs w !! x = Some l -> good_parent w b l.

Lemma kept_good_trans w0 w1 w' : kept_good w0 w1 -> kept_good w1 w' -> kept_good w0 w'.
Proof using Type. intros [A1 A2] [B1 B2]. split; [by eapply rb_trans|]. intros x c Hx Hg. eapply B2; [by apply (rb_alive _ _ _ _ A1)|by eapply A2]. Qed.

Lemma stands_kept w w' r : invb (blooms := false) rank w -> kept_good w w' -> stands w r -> stands w' r.
Proof using Type.
  intros Hi [Hrb Hk] Hs x c l El Hx E. destruct (rb_from _ _ _ _ Hrb E) as (l0 & o & f & E0 & ->). apply (rb_alive _ _ _ _ Hrb) in Hx. rewrite (rb_layers _ _ Hrb) in El. specialize (Hs x c l0 El Hx E0). unfold good_parent in *. cbn [parent set_bloom]. destruct (parent l0) as [p0|q] eqn:Ep; [done|].
  destruct (iv_parent _ _ Hi _ _ _ Hx E0) as (pr & _ & Epr). rewrite Ep in Epr. destruct Hx as [_ Hl]. inversion Hl as [|x' l' c' F1 F2 Hl' Eqx Ec]; subst. assert (l' = l0) as -> by congruence. rewrite Ep in Hl'. eapply Hk; [split; [by exists pr|exact Hl']|done].
Qed.

Lemma rebloom_from_ok fuel : forall r w, invb (blooms := false) rank w -> (rank r < N)%nat -> (N < fuel + rank r)%nat -> stands w r ->
  (forall r1 (c : Hash) x m, c ∈ kids ch r1 -> layers w !! c = Some (Diff x) -> diffs w !! x = Some m -> root_of w (parent m) = Some r1) ->
  exists w', rebloom_from dO aO sO fuel b ch r w = Ok w' /\ kept_good w w' /\ forall r' x c, under r r' -> layers w !! r' = Some (Diff x) -> alive w x c -> good w' b x.
Proof using Hch BS.
  induction fuel as [|fuel IH]; intros r w Hi Hr Hf Hst Hpar; [lia|]. cbn [rebloom_from].
  assert (exists w1, match layers w !! r with Some (Diff p) => rebloom p b w | _ => Ok w end = Ok w1 /\ kept_good w w1 /\ forall x c, layers w !! r = Some (Diff x) -> alive w x c -> good w1 b x) as (w1 & -> & Hk1 & Hg1).
  { destruct (layers w !! r) as [[p0|x]|] eqn:El; [exists w; split; [done|]; split; [split; [apply rb_refl|done]|done]| |exists w; split; [done|]; split; [split; [apply rb_refl|done]|done]].
    pose proof (iv_tree _ _ Hi _ _ El) as Hrx. cbn in Hrx. destruct (diffs w !! x) as [l|] eqn:E; [|done]. destruct (rebloom_ok rank w b x l Hi E) as (w1 & E1 & Hrb & Hsame & Hg). exists w1. split; [done|]. split.
    - split; [done|]. intros y c Hy Hgy. destruct (decide (y = x)) as [->|Hyx]; [apply Hg; by eapply Hst|]. eapply good_kept; [done|by apply Hsame|done].
    - intros x' c [= <-] Hx. apply Hg. by eapply Hst. }
  cbn [mbind res_bind].
  assert (forall cs w1, kept_good w w1 -> (forall x c, layers w !! r = Some (Diff x) -> alive w x c -> good w1 b x) -> (forall c : Hash, c ∈ cs -> c ∈ kids ch r) ->
    exists w', fold_left (fun acc (c : Hash) => w ← acc; rebloom_from dO aO sO fuel b ch c w) cs (Ok w1) = Ok w' /\ kept_good w1 w' /\
      forall r1 r' x c, r1 ∈ cs -> under r1 r' -> layers w !! r' = Some (Diff x) -> alive w x c -> good w' b x) as Hfold.
  { induction cs as [|r1 cs IHc]; intros w1' Hk Hg Hcs; cbn [fold_left]; [exists w1'; split; [done|]; split; [split; [apply rb_refl|done]|]; by intros r1 r' x c ?%elem_of_nil|]. cbn [mbind res_bind].
    pose proof Hk as [Hrb Hkg]. assert (invb (blooms := false) rank w1') as Hi1 by by eapply rb_inv. assert (r1 ∈ kids ch r) as Hr1 by (apply Hcs; by left). pose proof (Hch _ _ Hr1) as Hrk.
    destruct (IH r1 w1' Hi1) as (w2' & -> & Hk2 & Hg2); [lia|lia| | |].
    - intros x c l El Hx E. unfold good_parent. destruct (parent l) as [p0|q] eqn:Ep; [done|]. destruct (rb_from _ _ _ _ Hrb E) as (l0 & o & f & E0 & ->). apply (rb_alive _ _ _ _ Hrb) in Hx. rewrite (rb_layers _ _ Hrb) in El. cbn [parent set_bloom] in Ep.
      pose proof (Hpar r r1 x l0 Hr1 El E0) as Erp. destruct (iv_parent _ _ Hi _ _ _ Hx E0) as (pr & Epr & Elp). assert (pr = r) as -> by congruence. rewrite Ep in Elp. destruct Hx as [_ Hl]. inversion Hl as [|x' l' c' F1 F2 Hl' Eqx Ec]; subst. assert (l' = l0) as -> by congruence. rewrite Ep in Hl'.
      eapply Hg; [exact Elp|]. split; [by exists r|exact Hl'].
    - intros r2 c x m Hc El Em. destruct (rb_from _ _ _ _ Hrb Em) as (m0 & o & f & Em0 & ->). rewrite (rb_layers _ _ Hrb) in El. rewrite (rb_root _ _ _ Hrb). cbn [parent set_bloom]. by eapply Hpar.
    - destruct (IHc w2') as (w' & -> & Hk3 & Hg3); [by eapply kept_good_trans| |intros c Hc; apply Hcs; by right|].
      { intros x c El Hx. eapply Hk2; [by apply (rb_alive _ _ _ _ Hrb)|by eapply Hg]. }
      exists w'. split; [done|]. split; [by eapply kept_good_trans|]. intros r2 r' x c [->|Hr2]%elem_of_cons Hu El Hx; [|by eapply Hg3]. eapply Hk3; [apply (rb_alive _ _ _ _ (proj1 Hk2)), (rb_alive _ _ _ _ Hrb), Hx|]. eapply Hg2; [exact Hu|by rewrite (rb_layers _ _ Hrb)|by apply (rb_alive _ _ _ _ Hrb)]. }
  destruct (Hfold (kids ch r) w1 Hk1 Hg1 ltac:(done)) as (w' & E' & Hk2 & Hg2). unfold kids in E'. rewrite E'. exists w'. split; [done|]. split; [by eapply kept_good_trans|].
  intros r' x c Hu El Hx. destruct Hu as [r|r r1 r2 Hr1 Hu].
  - eapply Hk2; [by apply (rb_alive _ _ _ _ (proj1 Hk1))|by eapply Hg1].
  - by eapply Hg2.
Qed.
End blooms.

Lemma under_snoc ch r r1 r2 : under ch r r1 -> r2 ∈ kids ch r1 -> under ch r r2.
Proof. induction 1 as [r|r r' r1 Hr' _ IH]; intros Hk; [eapply under_step; [exact Hk|constructor]|]. eapply under_step; [exact Hr'|by apply IH]. Qed.

(** Every layer that is alive is above the disk layer. *)
Lemma under_disk rank w b d ch : invb (blooms := false) rank w -> disks w !! b = Some d -> d_stale d = false ->
  (forall r x m, shown w r -> layers w !! root m = Some (Diff x) -> diffs w !! x = Some m -> root_of w (parent m) = Some r -> root m ∈ kids ch r) ->
  forall s c, live w s c -> forall r, layers w !! r = Some s -> under ch (d_root d) r.
Proof.
  intros Hi Ed Hd Hk s c. induction 1 as [x dx E1 E2|x l c E1 E2 Hl IH]; intros r Er; pose proof (iv_tree _ _ Hi _ _ Er) as Hr; cbn in Hr; rewrite E1 in Hr; injection Hr as <-.
  - destruct (iv_disk _ _ Hi) as (b' & d' & _ & _ & _ & Hu). pose proof (Hu _ _ E1 E2) as ->. pose proof (Hu _ _ Ed Hd) as ->. assert (dx = d) as -> by congruence. constructor.
  - assert (alive w x (x :: c)) as Hx by (split; [by exists (root l)|by econstructor]). destruct (iv_parent _ _ Hi _ _ _ Hx E1) as (pr & Epr & El). eapply under_snoc; [by apply IH|]. apply (Hk pr x l); [by exists (parent l), c|done..].
Qed.

(** The filters are right when every layer has one that covers it. *)
Lemma good_inv rank w b d : invb (blooms := false) rank w -> disks w !! b = Some d -> d_stale d = false -> (forall x c, alive w x c -> good w b x) -> inv rank w.
Proof.
  intros Hi Ed Hd Hg. split; try (by apply Hi).
  - intros _ x c l Hx E. destruct (Hg x c Hx c l (proj2 Hx) E) as [-> _]. by exists d.
  - intros _ x c l y m k v Hx E. by eapply (proj2 (Hg x c Hx c l (proj2 Hx) E)).
Qed.

(** ** [Cap] *)

Lemma dive_ok rank w n : inv rank w -> forall p c, alive w p c -> exists o, dive n p w = Ok o /\
  match o with Some q => exists pre cq, alive w q cq /\ c = pre ++ cq /\ length pre = n | None => (length c <= n)%nat end.
Proof.
  intros Hi. induction n as [|n IH]; intros p c Ha; cbn [dive]; [eexists; split; [done|]; by exists [], c|]. pose proof Ha as [_ Hl]. inversion Hl as [|p' l c' E1 E2 Hl' Eq Ec]; subst. rewrite E1. cbn [or_panic mbind res_bind].
  destruct (parent l) as [b|q] eqn:Ep; [eexists; split; [done|]; inversion Hl'; subst; cbn; lia|]. destruct (alive_parent _ _ _ _ _ _ Hi Ha E1 Ep) as (cq & Hq & [= ->]). destruct (IH q cq Hq) as (o & -> & Ho). eexists. split; [done|]. destruct o as [q'|]; [|cbn; lia].
  destruct Ho as (pre & cq' & Hq' & -> & <-). exists (p :: pre), cq'. done.
Qed.

(** The layers of the tree that are alive show what the layers of their roots showed. *)
Definition same_shows w w' : Prop := forall r s c, layers w' !! r = Some s -> live w' s c -> exists s0 c0, layers w !! r = Some s0 /\ live w s0 c0 /\ forall k, chain_get w' c k = chain_get w c0 k.

Lemma same_shows_refl w : same_shows w w.
Proof. intros r s c Er Hl. by exists s, c. Qed.
Lemma same_shows_trans w w' w'' : same_shows w w' -> same_shows w' w'' -> same_shows w w''.
Proof. intros H1 H2 r s c Er Hl. destruct (H2 r s c Er Hl) as (s1 & c1 & Er1 & Hl1 & Hg1). destruct (H1 r s1 c1 Er1 Hl1) as (s0 & c0 & Er0 & Hl0 & Hg0). exists s0, c0. split; [done|]. split; [done|]. intros k. by rewrite Hg1. Qed.

(** The layers above [p] stay, and at most [n] of the chain of a layer over it. *)
Record capped w p w' : Prop := {
  cp_shows : same_shows w w';
  cp_keep r s c : layers w !! r = Some s -> live w s c -> p ∈ c -> layers w' !! r = Some s /\ exists c', live w' s c' /\ p ∈ c';
  cp_len s pre cp c' : is_Some (root_of w s) -> live w s (pre ++ p :: cp) -> live w' s c' -> (length c' <= length pre + 2)%nat;
}.

Lemma live_suffix w s pre p cp : live w s (pre ++ p :: cp) -> live w (Diff p) (p :: cp).
Proof.
  revert s. induction pre as [|x pre IH]; intros s Hl; inversion Hl as [|x' l c' E1 E2 Hl' Eq Ec]; subst; [done|]. by eapply IH.
Qed.

Lemma capped_refl w p : live w (Diff p) [p] -> capped w p w.
Proof.
  intros Hp. split; [apply same_shows_refl|intros r s c Er Hl Hin; split; [done|]; by exists c|].
  intros s pre cp c' _ Hl Hl'. assert (c' = pre ++ p :: cp) as -> by (by eapply live_fun). pose proof (live_suffix _ _ _ _ _ Hl) as Hs. assert (p :: cp = [p]) as [= ->] by (by eapply live_fun). rewrite length_app. cbn. lia.
Qed.

Lemma root_above rank w r s c p lp lq : inv rank w -> layers w !! r = Some s -> live w s c -> p ∈ c -> diffs w !! p = Some lp -> (rank (root lq) < rank (root lp))%nat -> r <> root lq.
Proof.
  intros Hi Er Hl Hin Ep Hr ->. pose proof (iv_tree _ _ Hi _ _ Er) as Hs. inversion Hl as [|x l c' E1 E2 Hl' Eq Ec]; subst; [by apply elem_of_nil in Hin|]. cbn in Hs. rewrite E1 in Hs. injection Hs as Hs.
  apply elem_of_cons in Hin as [->|Hin]; [assert (l = lp) as -> by congruence; rewrite Hs in Hr; lia|]. pose proof (live_rank _ _ _ _ _ _ _ Hi Hl E1 Hin Ep) as Hr'. rewrite Hs in Hr'. lia.
Qed.

Lemma flattened_ok rank w p q lp lq cq f w1 lf : inv rank w -> alive w p (p :: cq) -> diffs w !! p = Some lp -> parent lp = Diff q -> alive w q cq -> diffs w !! q = Some lq -> flat rank w cq lq f w1 lf ->
  diffs w1 !! p = Some lp /\ inv rank (w2 p lp f w1 lf) /\ capped w p (w2 p lp f w1 lf) /\ alive (w2 p lp f w1 lf) p [p; f] /\ diffs (w2 p lp f w1 lf) !! p = Some (set_parent (Diff f) lp) /\ diffs (w2 p lp f w1 lf) !! f = Some lf.
Proof.
  intros Hi Ha Ep Epar Hq Eq Hfl. destruct (iv_parent _ _ Hi _ _ _ Ha Ep) as (pr & Epr & El). rewrite Epar in Epr, El. cbn in Epr. rewrite Eq in Epr. injection Epr as <-.
  assert (rank (root lq) < rank (root lp))%nat as Hrk by (destruct (iv_rank _ _ Hi _ _ Ep) as (pr & Epr & Hr & _); rewrite Epar in Epr; cbn in Epr; rewrite Eq in Epr; injection Epr as <-; exact Hr).
  destruct (fl_shape _ _ _ _ _ _ _ Hfl) as [(-> & -> & ->)|(z & Hz & Hfn & Hzs & Hold & Hnew & Hthru & _)].
  - assert (q = f) as -> by (destruct Hq as [_ Hl]; by inversion Hl). assert (set_parent (Diff f) lp = lp) as Esp by (rewrite <- Epar; by destruct lp). assert (w2 p lp f w lq = w) as Ew.
    { unfold w2. rewrite Esp. unfold with_diffs, with_layers. cbn. rewrite !insert_id by done. by destruct w. }
    rewrite Ew, Esp. split; [done|]. split; [done|]. split; [|split; [done|split; [done|by apply Hfl]]]. split; [apply same_shows_refl|intros r s c Er Hl Hin; split; [done|]; by exists c|].
    intros s pre cp c' _ Hl Hl'. assert (c' = pre ++ p :: cp) as -> by (by eapply live_fun). pose proof (live_suffix _ _ _ _ _ Hl) as Hs. assert (p :: cp = [p; f]) as [= ->] by (eapply live_fun; [done|apply Ha]). rewrite length_app. cbn. lia.
  - destruct (rl_p rank w Hi p lp cq Ha Ep f z Hz Hfn) as (Hpc & Hpn & Hpz & Hpf). split; [by rewrite Hold|]. split; [by eapply rl_inv|].
    assert (forall s c, live w s c -> p ∈ c -> exists c2, live (w2 p lp f w1 lf) s c2 /\ p ∈ c2) as Hkeep by (intros s c; by eapply (rl_keep rank w Hi p q lp lq cq)).
    assert (forall r s c, layers w !! r = Some s -> live w s c -> p ∈ c -> layers (w2 p lp f w1 lf) !! r = Some s) as Hlay.
    { intros r s c Er Hl Hin. cbn. rewrite (fl_layers _ _ _ _ _ _ _ Hfl), lookup_insert_ne; [done|]. rewrite (fl_root _ _ _ _ _ _ _ Hfl). intros <-. by eapply (root_above rank w (root lq) s c p lp lq). }
    assert (diffs (w2 p lp f w1 lf) !! f = Some lf) as Ef by (by eapply rl_f). split; [split|split; [split|split; [cbn; apply lookup_insert_eq|done]]].
    + intros r s c Er Hl. by eapply (rl_shows rank w Hi p q lp lq cq).
    + intros r s c Er Hl Hin. split; [by eapply Hlay|by eapply Hkeep].
    + intros s pre cp c' Hs Hl Hl'. pose proof (live_suffix _ _ _ _ _ Hl) as Hsf. assert (p :: cp = p :: cq) as [= ->] by (eapply live_fun; [done|apply Ha]).
      destruct (rl_live rank w Hi p q lp lq cq Ha Ep Epar Hq Eq f w1 lf Hfl z Hz Hfn Hzs Hold Hnew Hthru s c' Hl' Hs) as [(pre' & -> & _ & Hl2 & _)|(Hl2 & Hn & _)].
      * assert (pre ++ p :: cq = pre' ++ cq) as Eapp by (by eapply live_fun). apply (f_equal length) in Eapp. rewrite !length_app in *. cbn in *. lia.
      * exfalso. apply Hn. assert (c' = pre ++ p :: cq) as -> by (by eapply live_fun). apply elem_of_app. right. by left.
    + destruct Ha as [[r Er] Hl]. exists r. eapply Hlay; [done|done|by left].
    + destruct Ha as [_ Hl]. assert (stale lp = false) as Hs by (inversion Hl; congruence). destruct (fl_disk _ _ _ _ _ _ _ Hfl) as (b & d & Eb & Ed & Hd). econstructor; [cbn; apply lookup_insert_eq|done|]. cbn [parent set_parent]. econstructor; [exact Ef|apply Hfl|]. rewrite Eb. econstructor; [cbn; rewrite (fl_disks _ _ _ _ _ _ _ Hfl); exact Ed|done].
Qed.

(** What [cap] promises of the layer [p] it goes down from. *)
Record cap_post (n : nat) (rank : Hash -> nat) w (p : nat) c (o : option nat) w' : Prop := {
  co_inv : invb (blooms := bool_decide (o = None)) rank w';
  co_shows : same_shows w w';
  co_disk b : o = Some b -> exists d, disks w' !! b = Some d /\ d_stale d = false;
  co_keep r s cs : layers w !! r = Some s -> live w s cs -> p ∈ cs \/ (exists pre, c = pre ++ cs /\ (length pre < n)%nat /\ cs <> []) -> layers w' !! r = Some s /\ exists c', live w' s c';
  co_len c' : live w' (Diff p) c' -> (length c' <= S n)%nat;
}.

(** The layers that [cap] keeps are above the one it flattens below. *)
Lemma kept_above w p c pre q cq s cs : live w (Diff p) c -> c = pre ++ q :: cq -> live w s cs ->
  p ∈ cs \/ (exists pre', c = pre' ++ cs /\ (length pre' < S (length pre))%nat /\ cs <> []) -> q ∈ cs.
Proof.
  intros Hp Ec Hs [Hin|(pre' & Ec' & Hlen & _)].
  - destruct (live_in _ _ _ Hs p Hin) as (l & c' & _ & Hl & Hsub). assert (c' = c) as -> by (by eapply live_fun). apply Hsub. rewrite Ec. apply elem_of_app. right. by left.
  - assert (cs = drop (length pre') pre ++ q :: cq) as ->; [|apply elem_of_app; right; by left]. assert (cs = drop (length pre') c) as -> by (rewrite Ec'; by rewrite drop_app_length). rewrite Ec. apply drop_app_le. lia.
Qed.

Lemma cap_post_none n rank w p c : inv rank w -> alive w p c -> (length c <= n)%nat -> cap_post n rank w p c None w.
Proof.
  intros Hi Ha Hlen. split; [done|apply same_shows_refl|done|intros r s cs Er Hl _; split; [done|by exists cs]|]. intros c' Hl. assert (c' = c) as -> by (eapply live_fun; [done|apply Ha]). lia.
Qed.

Lemma cap_post_flat rank w p c pre q cq w' : live w (Diff p) c -> is_Some (root_of w (Diff p)) -> c = pre ++ q :: cq -> inv rank w' -> capped w q w' -> cap_post (S (length pre)) rank w p c None w'.
Proof.
  intros Hp Hr Ec Hi Hc. split; [done|apply Hc|done| |].
  - intros r s cs Er Hl Hk. destruct (cp_keep _ _ _ Hc r s cs Er Hl) as [? (c' & ? & _)]; [by eapply (kept_above w p c pre q cq s cs)|]. split; [done|by exists c'].
  - intros c' Hl. rewrite Ec in Hp. pose proof (cp_len _ _ _ Hc _ _ _ _ Hr Hp Hl). lia.
Qed.

Lemma cap_post_disk rank w p c pre q cq w2' lq f b lf d st : live w (Diff p) c -> is_Some (root_of w (Diff p)) -> c = pre ++ q :: cq -> inv rank w2' -> capped w q w2' ->
  alive w2' q [q; f] -> diffs w2' !! q = Some lq -> parent lq = Diff f -> diffs w2' !! f = Some lf -> parent lf = Disk b -> disks w2' !! b = Some d -> d_stale d = false ->
  disk_ok st -> (forall k, on_disk st k = default (on_disk (db w2') k) (local lf (heap w2') k)) -> cap_post (S (length pre)) rank w p c (Some (next w2')) (w3 w2' q b lq lf d st).
Proof.
  intros Hp Hr Ec Hi Hc Hq Eq Epar Ef Eb Ed Hd Hst Hon. split.
  - exact (ps_inv rank w2' Hi q f b lq lf d st Hq Eq Epar Ef Eb Ed Hd Hst Hon).
  - eapply same_shows_trans; [apply Hc|]. intros r s cs. exact (ps_shows rank w2' Hi q f b lq lf d st Hq Eq Epar Ef Eb Ed Hd Hst Hon r s cs).
  - intros b' [= <-]. exists (mkDisk (root lf) false). split; [cbn; apply lookup_insert_eq|done].
  - intros r s cs Er Hl Hk. destruct (cp_keep _ _ _ Hc r s cs Er Hl) as [Er' (c' & Hl' & Hin)]; [by eapply (kept_above w p c pre q cq s cs)|].
    destruct (ps_alive_f rank w2' Hi q f b lq lf d st Hq Eq Epar Ef Eb Ed Hd Hst Hon) as (_ & _ & _ & Hrk). split; [|destruct (ps_keep rank w2' Hi q f b lq lf d st Hq Eq Epar Ef Eb Ed Hd Hst Hon s c' Hl' Hin) as (c3 & ? & _); by exists c3].
    cbn. rewrite lookup_insert_ne; [done|]. intros <-. by eapply (root_above rank w2' (root lf) s c' q lq lf).
  - intros c' Hl. destruct (ps_live rank w2' Hi q f b lq lf d st Hq Eq Epar Ef Eb Ed Hd Hst Hon _ _ Hl) as [[? _]|[_ Hl2]]; [done|]. rewrite Ec in Hp. pose proof (cp_len _ _ _ Hc _ _ _ _ Hr Hp Hl2) as Hlen. rewrite length_app in Hlen. cbn in Hlen. lia.
Qed.

Lemma cap_ok rank w p c n : inv rank w -> alive w p c -> exists o w', cap p n w = Ok (o, w') /\ cap_post (S (Z.to_nat (n - 1))) rank w p c o w'.
Proof.
  intros Hi Ha. unfold cap. destruct (dive_ok rank w (Z.to_nat (n - 1)) Hi p c Ha) as (o & -> & Ho). cbn [mbind res_bind]. destruct o as [q|]; [|exists None, w; split; [done|]; apply cap_post_none; [done|done|lia]].
  destruct Ho as (pre & cq & Hq & Ec & Hlen). pose proof Hq as [_ Hl]. inversion Hl as [|q' lq c1 E1 E2 Hl' Eqq Ecq]; subst cq q'. rewrite E1. cbn [or_panic mbind res_bind]. rewrite <- Hlen.
  assert (is_Some (root_of w (Diff p))) as Hr by (destruct Ha as [[r Er] _]; rewrite (iv_tree _ _ Hi _ _ Er); by eexists). pose proof (proj2 Ha) as Hlp.
  destruct (parent lq) as [b|q2] eqn:Ep; [exists None, w; split; [done|]; apply cap_post_none; [done|done|inversion Hl'; subst; rewrite length_app; cbn; lia]|].
  destruct (alive_parent _ _ _ _ _ _ Hi Hq E1 Ep) as (c2 & Hq2 & [= <-]). pose proof (proj2 Hq2) as Hl2. inversion Hl2 as [|q2' lq2 c2' F1 F2 Hl2' Eqq2 Ecq2]; subst q2'. destruct (iv_rank _ _ Hi _ _ F1) as (_ & _ & _ & Hrk).
  destruct (flatten_ok rank w (next w) Hi q2 c1 lq2 Hq2 F1 Hrk) as (f & w1 & lf & -> & Hfl). cbn [mbind res_bind]. rewrite (fl_at _ _ _ _ _ _ _ Hfl). cbn [or_panic mbind res_bind].
  destruct (flattened_ok rank w q q2 lq lq2 c1 f w1 lf Hi Hq E1 Ep Hq2 F1 Hfl) as (G1 & G2 & G3 & G4 & G5 & G6). 
  unfold relink. cbn [diffs with_layers]. rewrite G1. cbn [or_panic mbind res_bind]. fold (w2 q lq f w1 lf).
  destruct (fl_disk _ _ _ _ _ _ _ Hfl) as (b & d & Eb & Ed & Hd). rewrite Eb. destruct (memory lf <? aggregatorMemoryLimit); [exists None, (w2 q lq f w1 lf); split; [done|]; by eapply cap_post_flat|].
  assert (disks (w2 q lq f w1 lf) !! b = Some d) as Ed2 by (cbn; by rewrite (fl_disks _ _ _ _ _ _ _ Hfl)).
  destruct (diffToDisk_ok (w2 q lq f w1 lf) f lf b d G6 Eb Ed2 Hd (iv_cache _ _ G2) (iv_small_disk _ _ G2) (fun a v => iv_small _ _ G2 f lf a v G6) (iv_small_slot _ _ G2)) as (st & -> & Hst & Hon). cbn [mbind res_bind].
  unfold Root. cbn [disks]. rewrite lookup_insert_eq. cbn [or_panic mbind res_bind d_root]. cbn [diffs with_layers]. rewrite G5. cbn [or_panic mbind res_bind].
  eexists _, _. split; [done|]. exact (cap_post_disk rank w p c pre q c1 (w2 q lq f w1 lf) (set_parent (Diff f) lq) f b lf d st Hlp Hr Ec G2 G3 G4 G5 eq_refl G6 Eb Ed2 Hd Hst Hon).
Qed.

(** Removing stale layers and renewing the filters, after [cap]. *)
Definition settle_cap (o : option nat) w : res Tree :=
  ch ← children_of (map_to_list (layers w)) w;
  '(ls, ch) ← remove_stale (map_to_list (layers w)) w (layers w, ch);
  let w := with_layers ls w in
  match o with None => Ok w | Some b => rb ← Root (Disk b) w; rebloom_from dO aO sO (S (next w)) b ch rb w end.

Lemma rb_Stale w w' s : rebloomed w w' -> Stale s w' = Stale s w.
Proof.
  intros H. destruct s as [x|x]; cbn; [by rewrite (rb_disks _ _ H)|]. pose proof (rb_diffs _ _ H x) as Hx. destruct (diffs w !! x) as [l|], (diffs w' !! x) as [l'|]; try done. by destruct Hx as (o & f & ->).
Qed.

Lemma rebloom_all_ok rank w b d ls ch : invb (blooms := false) rank w -> disks w !! b = Some d -> d_stale d = false -> ls ⊆ layers w -> (forall r, shown w r -> ls !! r = layers w !! r) ->
  (forall r (c : Hash), c ∈ kids ch r -> (rank r < rank c < next w)%nat /\ forall x m, layers w !! c = Some (Diff x) -> diffs w !! x = Some m -> root_of w (parent m) = Some r) ->
  (forall r x m, shown w r -> layers w !! root m = Some (Diff x) -> diffs w !! x = Some m -> root_of w (parent m) = Some r -> root m ∈ kids ch r) ->
  exists w', rebloom_from dO aO sO (S (next w)) b ch (d_root d) (with_layers ls w) = Ok w' /\ rebloomed (with_layers ls w) w' /\ inv rank w'.
Proof.
  intros Hi Ed Hd Hsub Hkeep Hk1 Hk2. set (w1 := with_layers ls w). assert (invb (blooms := false) rank w1) as Hi1 by by apply shrink_inv.
  assert (layers w !! d_root d = Some (Disk b)) as Elb by (destruct (iv_disk _ _ Hi) as (b' & d' & E1 & _ & E3 & Hu); pose proof (Hu _ _ Ed Hd) as ->; congruence).
  destruct (rebloom_from_ok rank b ch (next w) (fun r (c : Hash) Hc => proj1 (Hk1 r c Hc)) (S (next w)) (d_root d) w1 Hi1) as (w' & -> & [Hrb Hkg] & Hg).
  - by eapply (iv_rank_disk _ _ Hi).
  - lia.
  - intros x c l El. eapply lookup_weaken in El; [|exact Hsub]. congruence.
  - intros r c x m Hc El Em. eapply lookup_weaken in El; [|exact Hsub]. by apply (proj2 (Hk1 r c Hc) x m).
  - exists w'. split; [done|]. split; [done|]. eapply (good_inv rank w' b d); [by eapply rb_inv|by rewrite (rb_disks _ _ Hrb)|done|].
    intros x c Hx. apply (rb_alive _ _ _ _ Hrb) in Hx. pose proof Hx as [[r Er] Hl]. eapply (Hg r x c); [|exact Er|done]. apply layers_live in Hl. eapply (under_disk rank w b d ch Hi Ed Hd Hk2 _ _ Hl). by eapply lookup_weaken.
Qed.

Lemma settle_cap_ok rank w o : invb (blooms := bool_decide (o = None)) rank w -> (forall b, o = Some b -> exists d, disks w !! b = Some d /\ d_stale d = false) ->
  exists w', settle_cap o w = Ok w' /\ inv rank w' /\ same_shows w w' /\ (forall r s c, layers w !! r = Some s -> live w s c -> layers w' !! r = Some s /\ live w' s c) /\
    (forall s c, live w' s c -> live w s c) /\ forall r s, layers w' !! r = Some s -> Stale s w' = Ok false.
Proof.
  intros Hi Ho. unfold settle_cap. destruct (removal_ok _ rank w Hi) as (ch & ls & ch' & -> & E & Hsub & Hkeep & Hfresh & Hk1 & Hk2). cbn [mbind res_bind]. rewrite E. cbn [mbind res_bind].
  assert (exists w', match o with None => Ok (with_layers ls w) | Some b => rb ← Root (Disk b) (with_layers ls w); rebloom_from dO aO sO (S (next (with_layers ls w))) b ch' rb (with_layers ls w) end = Ok w' /\ rebloomed (with_layers ls w) w' /\ inv rank w') as (w' & E' & Hrb & Hi').
  { destruct o as [b|]; [|exists (with_layers ls w); split; [done|]; split; [apply rb_refl|by apply shrink_inv]]. destruct (Ho b eq_refl) as (d & Ed & Hd). cbn [Root with_layers disks]. rewrite Ed. cbn [or_panic mbind res_bind]. by apply (rebloom_all_ok rank w b d ls ch'). }
  exists w'. split; [exact E'|]. split; [done|]. assert (forall s c, live w' s c <-> live w s c) as Hl by (intros s c; rewrite <- (layers_live w ls); split; [by apply rb_live_back|by apply rb_live]). split; [|split; [|split]].
  - intros r s c Er Hs. rewrite (rb_layers _ _ Hrb) in Er. exists s, c. split; [by eapply lookup_weaken|]. split; [by apply Hl|]. intros k. rewrite (rb_get _ _ _ _ Hrb). apply layers_get.
  - intros r s c Er Hs. rewrite (rb_layers _ _ Hrb). cbn. rewrite Hkeep by (by exists s, c). split; [done|by apply Hl].
  - intros s c. apply Hl.
  - intros r s Er. rewrite (rb_layers _ _ Hrb) in Er. rewrite (rb_Stale _ _ _ Hrb). by apply (Hfresh r s).
Qed.

(** A tree of one disk layer. *)
Lemma only_disk_ok rank w c l f w1 lf st b d : inv rank w -> flat rank w c l f w1 lf -> parent lf = Disk b -> disks w !! b = Some d -> d_stale d = false -> disk_ok st ->
  inv rank (with_layers {[root lf := Disk (next w1)]} (mkTree (S (next w1)) (<[next w1 := mkDisk (root lf) false]> (<[b := mkDisk (d_root d) true]> (disks w1))) (diffs w1) (heap w1) st (layers w1))).
Proof.
  intros Hi Hfl Eb Ed Hd Hst. set (w' := with_layers _ _). pose proof (fl_next _ _ _ _ _ _ _ Hfl) as Hnx. pose proof (fl_disks _ _ _ _ _ _ _ Hfl) as Edk. assert (forall x cx, ~ alive w' x cx) as Hno by (intros x cx [[r Er] _]; cbn in Er; by apply lookup_singleton_Some in Er as [_ ?]).
  assert (forall x, is_Some (disks w !! x) -> (x < next w)%nat) as Hold by (intros x Hx; apply (iv_next _ _ Hi); auto). assert (b < next w)%nat as Hb by (apply Hold; by eexists).
  assert (forall s r, root_of w s = Some r -> root_of w' s = Some r) as Hroots.
  { intros s r Hr. apply (fl_roots _ _ _ _ _ _ _ Hfl) in Hr as Hr1. destruct s as [x|x]; [|exact Hr1]. cbn in Hr |- *. destruct (decide (next w1 = x)) as [<-|]; [destruct (disks w !! next w1) eqn:E; [|done]; assert (next w1 < next w)%nat by (apply Hold; by eexists); lia|].
    rewrite lookup_insert_ne by done. destruct (decide (b = x)) as [<-|]; [rewrite lookup_insert_eq; rewrite Ed in Hr; exact Hr|]. rewrite lookup_insert_ne by done. by rewrite Edk. }
  split; try (intros; exfalso; by eapply Hno).
  - intros x. cbn. rewrite Edk. intros [[dx E]|[[m E]|H]].
    + apply lookup_insert_Some in E as [[<- _]|[_ [[<- _]|[_ E]]%lookup_insert_Some]]; [lia|lia|]. assert (x < next w)%nat by (apply Hold; by eexists). lia.
    + apply (fl_diffs _ _ _ _ _ _ _ Hfl) in E as [? _]. lia.
    + apply (fl_heap_dom _ _ _ _ _ _ _ Hfl) in H. assert (x < next w)%nat by (apply (iv_next _ _ Hi); auto). lia.
  - intros x m E. destruct (fl_diffs _ _ _ _ _ _ _ Hfl _ _ E) as (_ & (pr & Epr & Hr) & _). exists pr. split; [by apply Hroots|cbn; lia].
  - intros x dx. cbn. rewrite Edk. destruct (fl_diffs _ _ _ _ _ _ _ Hfl _ _ (fl_at _ _ _ _ _ _ _ Hfl)) as (_ & (? & _ & Hr) & _).
    intros [[<- <-]|[_ [[<- <-]|[_ E]]%lookup_insert_Some]]%lookup_insert_Some; cbn; [lia|pose proof (iv_rank_disk _ _ Hi _ _ Ed); lia|pose proof (iv_rank_disk _ _ Hi _ _ E); lia].
  - exists (next w1), (mkDisk (root lf) false). cbn. split; [apply lookup_insert_eq|]. split; [done|]. split; [by apply lookup_singleton_Some|]. rewrite Edk. intros x dx [[<- _]|[_ [[<- <-]|[Hne E]]%lookup_insert_Some]]%lookup_insert_Some Hs; [done|done|].
    destruct (iv_disk _ _ Hi) as (b' & d' & _ & _ & _ & Hu). pose proof (Hu _ _ E Hs). pose proof (Hu _ _ Ed Hd). congruence.
  - intros r s. cbn. intros [<- <-]%lookup_singleton_Some. cbn. by rewrite lookup_insert_eq.
  - intros x m a y E Ey. apply (fl_heap_dom _ _ _ _ _ _ _ Hfl). by apply (fl_diffs _ _ _ _ _ _ _ Hfl) in E as (_ & _ & Hp & _); eapply Hp.
  - intros x m a v E Ev. by apply (fl_diffs _ _ _ _ _ _ _ Hfl) in E as (_ & _ & _ & Hp); eapply Hp.
  - apply (fl_small _ _ _ _ _ _ _ Hfl).
  - apply Hst.
  - apply Hst.
Qed.

Lemma Cap_settle w r p n : layers w !! r = Some (Diff p) -> n <> 0 -> Cap r n w = ('(o, w') ← cap p n w; w' ← settle_cap o w'; Ok (None, w')).
Proof.
  intros E Hn. unfold Snapshot.Cap, settle_cap. rewrite E, (proj2 (Z.eqb_neq n 0)) by done. destruct (cap p n w) as [[o w']| |]; [|done..]. cbn [mbind res_bind]. destruct (children_of _ _) as [ch| |]; [|done..]. cbn [mbind res_bind].
  by destruct (remove_stale _ _ _) as [[ls ch']| |].
Qed.

(** The diff layers that stay in memory above a root. *)
Definition cap_depth (n : Z) : nat := if n =? 0 then 0%nat else S (S (Z.to_nat (n - 1))).

(** The layers that [Cap] keeps of those that are alive: those above the layer [p] and,
    unless everything is written to the disk, the [n] first ones of its chain [c]. *)
Definition cap_kept (n : Z) p c (cs : list nat) : Prop := n <> 0 /\ (p ∈ cs \/ exists pre, c = pre ++ cs /\ (length pre < S (Z.to_nat (n - 1)))%nat /\ cs <> []).

Lemma Cap_ok rank w r p c n : inv rank w -> layers w !! r = Some (Diff p) -> live w (Diff p) c -> exists w', Cap r n w = Ok (None, w') /\ inv rank w' /\ same_shows w w' /\
  shown w' r /\ (forall s c', layers w' !! r = Some s -> live w' s c' -> (length c' <= cap_depth n)%nat) /\
  (forall r' s cs, layers w !! r' = Some s -> live w s cs -> cap_kept n p c cs -> layers w' !! r' = Some s /\ shown w' r') /\ (forall r' s, layers w' !! r' = Some s -> Stale s w' = Ok false).
Proof.
  intros Hi Er Hl. assert (alive w p c) as Ha by (split; [by exists r|done]). destruct (decide (n = 0)) as [->|Hn].
  - unfold Snapshot.Cap. rewrite Er. cbn [Z.eqb]. pose proof Hl as Hl0. inversion Hl0 as [|p' l c' E1 E2 Hl' Eqp Ec]; subst p'. destruct (iv_rank _ _ Hi _ _ E1) as (_ & _ & _ & Hrk).
    destruct (flatten_ok rank w (next w) Hi p c l Ha E1 Hrk) as (f & w1 & lf & -> & Hfl). cbn [mbind res_bind]. destruct (fl_disk _ _ _ _ _ _ _ Hfl) as (b & d & Eb & Ed & Hd).
    pose proof (fl_db _ _ _ _ _ _ _ Hfl) as Edb. pose proof (fl_diffs _ _ _ _ _ _ _ Hfl _ _ (fl_at _ _ _ _ _ _ _ Hfl)) as (_ & _ & _ & Hsm).
    destruct (diffToDisk_ok w1 f lf b d) as (st & -> & Hst & Hon); [apply Hfl|done|by rewrite (fl_disks _ _ _ _ _ _ _ Hfl)|done|rewrite Edb; exact (iv_cache _ _ Hi)|rewrite Edb; exact (iv_small_disk _ _ Hi)|done|apply Hfl|].
    cbn [mbind res_bind Root disks]. rewrite lookup_insert_eq. cbn [or_panic mbind res_bind d_root]. eexists. split; [done|]. split; [by eapply only_disk_ok|].
    pose proof (iv_tree _ _ Hi _ _ Er) as Hr. cbn in Hr. rewrite E1 in Hr. injection Hr as <-. rewrite (fl_root _ _ _ _ _ _ _ Hfl). split; [|split; [|split; [|split]]].
    + intros r' s c0 Es Hl1. cbn [layers with_layers] in Es. apply lookup_singleton_Some in Es as [<- <-]. exists (Diff p), c. split; [done|]. split; [done|]. intros k. inversion Hl1; subst c0. rewrite layers_get. cbn [chain_get db]. rewrite Hon, Edb. apply (fl_get _ _ _ _ _ _ _ Hfl).
    + exists (Disk (next w1)), []. split; [by apply lookup_singleton_Some|]. econstructor; [cbn; apply lookup_insert_eq|done].
    + intros s c1 Es Hl1. cbn [layers with_layers] in Es. apply lookup_singleton_Some in Es as [_ <-]. inversion Hl1; subst. cbn. lia.
    + by intros r' s cs _ _ [? _].
    + intros r' s Es. cbn [layers with_layers] in Es. apply lookup_singleton_Some in Es as [_ <-]. cbn. by rewrite lookup_insert_eq.
  - rewrite (Cap_settle w r p n Er Hn). destruct (cap_ok rank w p c n Hi Ha) as (o & w1 & -> & [C1 C2 C3 C4 C5]). cbn [mbind res_bind]. destruct (settle_cap_ok rank w1 o C1 C3) as (w' & -> & Hi' & Hsh & Hk & Hb & Hst). cbn [mbind res_bind].
    assert (forall r' s cs, layers w !! r' = Some s -> live w s cs -> cap_kept n p c cs -> layers w' !! r' = Some s /\ shown w' r') as Hkept.
    { intros r' s cs Er' Hs [_ Hc]. destruct (C4 r' s cs Er' Hs Hc) as [El (c1 & Hl1)]. destruct (Hk r' s c1 El Hl1) as [El' Hl']. split; [done|]. by exists s, c1. }
    assert (layers w' !! r = Some (Diff p) /\ shown w' r) as [Er' Hsr] by (apply (Hkept r (Diff p) c Er Hl); split; [done|]; left; inversion Hl; by left).
    exists w'. split; [done|]. split; [done|]. split; [by eapply same_shows_trans|]. split; [done|]. split; [|done]. intros s c' Es Hl'. assert (s = Diff p) as -> by congruence. unfold cap_depth. rewrite (proj2 (Z.eqb_neq n 0)) by done. by apply C5, Hb.
Qed.

(** ** Runs of the tree *)

(** Reading any layer, alive or not, changes the cache only. *)
Lemma any_read_ok rank w s k x w' : inv rank w -> layer_read s k w = Ok (x, w') -> inv rank w' /\ recached w w'.
Proof.
  intros Hi. assert (recached w w) as Hself by (exists (cache (db w)); by destruct w as [? ? ? ? [] ?]).
  assert (forall p x w', disk_read p k w = Ok (x, w') -> inv rank w' /\ recached w w') as Hdisk.
  { intros p x' w0 E. destruct (disks w !! p) as [d|] eqn:Ed; [|unfold disk_read in E; by rewrite Ed in E]. destruct (d_stale d) eqn:Es; [unfold disk_read in E; rewrite Ed in E; cbn [or_panic mbind res_bind] in E; rewrite Es in E; by injection E as <- <-|].
    destruct (disk_read_ok rank w p d k Hi Ed Es) as (w1 & E1 & Hrest). assert (w1 = w0) as -> by congruence. done. }
  assert (forall fuel p x w', diff_read fuel p k w = Ok (x, w') -> inv rank w' /\ recached w w') as Hdiff.
  { induction fuel as [|fuel IH]; intros p x' w0 E; [done|]. cbn [diff_read] in E. destruct (diffs w !! p) as [l|]; [|done]. cbn [or_panic mbind res_bind] in E. destruct (stale l); [by injection E as <- <-|]. destruct (local l (heap w) k); [by injection E as <- <-|]. destruct (parent l); eauto. }
  destruct s as [p|p]; [apply Hdisk|]. cbn [layer_read]. destruct (diffs w !! p) as [l|]; [|done]. cbn [or_panic mbind res_bind]. destruct (hit (diffed l) k); eauto.
Qed.

(** A tree with the disk layer of a root. *)
Definition new_tree (rt : Hash) (st : kvStore) : Tree := mkTree 1 {[0%nat := mkDisk rt false]} ∅ ∅ st {[rt := Disk 0]}.

Lemma new_tree_ok rt st : disk_ok st -> inv (fun _ => 0%nat) (new_tree rt st).
Proof.
  intros [Hag Hsm]. assert (forall x c, ~ alive (new_tree rt st) x c) as Hno by (intros x c [[r Er] _]; cbn in Er; by apply lookup_singleton_Some in Er as [_ ?]). split; try (intros; exfalso; match goal with H : alive _ _ _ |- _ => exact (Hno _ _ H) end); cbn.
  - intros x. rewrite !lookup_empty. intros [[d [<- _]%lookup_singleton_Some]|[[? ?]|[? ?]]]; [lia|done|done].
  - intros x l. by rewrite lookup_empty.
  - intros. lia.
  - exists 0%nat, (mkDisk rt false). split; [by apply lookup_singleton_Some|]. split; [done|]. split; [by apply lookup_singleton_Some|]. by intros b' d' [<- _]%lookup_singleton_Some.
  - by intros r s [<- <-]%lookup_singleton_Some.
  - intros x l a y. by rewrite lookup_empty.
  - intros x l a y. by rewrite lookup_empty.
  - intros x m a y. by rewrite lookup_empty.
  - done.
  - done.
Qed.

(** The state of a block: that of its parent, with its changes. *)
Definition apply_block (st : key -> bytes) (des : gset Hash) (acc : gmap Hash bytes) (stor : gmap Hash (gmap Hash bytes)) (k : key) : bytes := default (st k) (changes des acc stor k).

(** The trees that updates, reads and caps lead to, with the states that were given to
    them: blocks come with new roots, and caps and updates start from layers that are
    alive. *)
Inductive runs : gmap Hash (key -> bytes) -> Tree -> Prop :=
| runs_new rt st : disk_ok st -> runs {[rt := on_disk st]} (new_tree rt st)
| runs_update known w r pr st des acc stor w' : runs known w -> shown w pr -> known !! pr = Some st -> fresh_root w r -> small_changes acc stor ->
    Update r pr des acc stor w = Ok (None, w') -> runs (<[r := apply_block st des acc stor]> known) w'
| runs_account known w s a x w' : runs known w -> AccountRLP s a w = Ok (x, w') -> runs known w'
| runs_storage known w s a b x w' : runs known w -> Storage s a b w = Ok (x, w') -> runs known w'
| runs_cap known w r n w' : runs known w -> shown w r -> Cap r n w = Ok (None, w') -> runs known w'.

Definition agrees (known : gmap Hash (key -> bytes)) w : Prop := forall r s c, layers w !! r = Some s -> live w s c -> exists st, known !! r = Some st /\ forall k, chain_get w c k = st k.

Lemma agrees_read known w w' : recached w w' -> agrees known w -> agrees known w'.
Proof.
  intros Hr Ha r s c Er Hl. apply (recached_live w) in Hl; [|done]. assert (layers w !! r = Some s) as Er' by (by destruct Hr as [ca ->]). destruct (Ha r s c Er' Hl) as (st & Es & Hg). exists st. split; [done|]. intros k. by rewrite (recached_get w w').
Qed.

Lemma Cap_diff w r n w' : Cap r n w = Ok (None, w') -> exists p, layers w !! r = Some (Diff p).
Proof. unfold Snapshot.Cap. destruct (layers w !! r) as [[p|p]|]; [done|by exists p|done]. Qed.

Lemma runs_ok known w : runs known w -> (exists rank, inv rank w) /\ agrees known w.
Proof.
  induction 1 as [rt st Hst|known w r pr st des acc stor w' _ [[rank Hi] Ha] (s & c & Es & Hl) Est Hfr Hsm E|known w s a x w' _ [[rank Hi] Ha] E|known w s a b x w' _ [[rank Hi] Ha] E|known w r n w' _ [[rank Hi] Ha] (s & c & Es & Hl) E].
  - split; [by exists (fun _ => 0%nat); apply new_tree_ok|]. intros r s c Es Hl. cbn in Es. apply lookup_singleton_Some in Es as [<- <-]. inversion Hl; subst. exists (on_disk st). split; [by apply lookup_singleton_Some|done].
  - destruct (Update_ok rank w r pr s c des acc stor Hi Hfr Es Hl Hsm) as (w1 & p & E1 & Hi1 & Ely & Hlp & Hg & Hold & Hback). assert (w1 = w') as -> by congruence. split; [by eexists|]. intros r' s' c' Er' Hl'. rewrite Ely in Er'. apply lookup_insert_Some in Er' as [[<- <-]|[Hne Er']].
    + eexists. split; [apply lookup_insert_eq|]. intros k. assert (c' = p :: c) as -> by (by eapply live_fun). rewrite Hg. destruct (Ha pr s c Es Hl) as (st' & Est' & Hst'). assert (st' = st) as -> by congruence. unfold apply_block. by rewrite Hst'.
    + assert (live w s' c') as Hl0 by (apply Hback; [done|]; rewrite (iv_tree _ _ Hi _ _ Er'); by eexists). destruct (Ha r' s' c' Er' Hl0) as (st' & Est' & Hst'). exists st'. split; [by rewrite lookup_insert_ne|]. intros k. destruct (Hold _ _ Hl0) as [_ Hk]. by rewrite Hk.
  - destruct (any_read_ok rank w s (KAcc a) x w' Hi) as [Hi' Hr]; [by destruct s|]. split; [by eexists|by eapply agrees_read].
  - destruct (any_read_ok rank w s (KSlot a b) x w' Hi) as [Hi' Hr]; [by destruct s|]. split; [by eexists|by eapply agrees_read].
  - destruct (Cap_diff _ _ _ _ E) as (p & Ep). assert (s = Diff p) as -> by congruence. destruct (Cap_ok rank w r p c n Hi Ep Hl) as (w1 & E1 & Hi1 & Hsh & _). assert (w1 = w') as -> by congruence. split; [by eexists|].
    intros r' s' c' Er' Hl'. destruct (Hsh r' s' c' Er' Hl') as (s0 & c0 & Er0 & Hl0 & Hg). destruct (Ha r' s0 c0 Er0 Hl0) as (st & Est & Hst). exists st. split; [done|]. intros k. by rewrite Hg.
Qed.

(** C32: a layer of the tree that is alive shows the state of its block: after
    any run of updates, reads and caps, its accounts and slots are those of the state
    built up from the blocks, although its filter may send a read straight to the disk,
    layers have been merged in place into the ones below, and others written to the
    disk and its cache.  In a run every update has a root that no layer has had, and
    accounts and slots of less than 64 KB. *)
Theorem snapshot_layers_show_states known w r s c : runs known w -> layers w !! r = Some s -> live w s c ->
  exists st, known !! r = Some st /\ (forall a, exists w', AccountRLP s a w = Ok (inl (st (KAcc a)), w')) /\ forall a b, exists w', Storage s a b w = Ok (inl (st (KSlot a b)), w').
Proof.
  intros [[rank Hi] Ha]%runs_ok Er Hl. destruct (Ha r s c Er Hl) as (st & Est & Hst). exists st. split; [done|]. split.
  - intros a. destruct (layer_read_ok rank w r s c (KAcc a) Hi Er Hl) as (w' & E & _). exists w'. rewrite <- Hst. by destruct s.
  - intros a b. destruct (layer_read_ok rank w r s c (KSlot a b) Hi Er Hl) as (w' & E & _). exists w'. rewrite <- Hst. by destruct s.
Qed.

(** C33: updates and caps of layers that are alive return, for any tree that
    was reached.  The new layer is shown and no other layer is lost.  After a cap the
    root is still shown, with at most one diff layer below those that were asked for;
    the layers asked for and all the layers above the root are kept, and no layer of the
    tree is stale. *)
Theorem updates_and_caps_keep_layers known w : runs known w ->
  (forall r pr des acc stor, shown w pr -> fresh_root w r -> small_changes acc stor -> exists w', Update r pr des acc stor w = Ok (None, w') /\ shown w' r /\ forall r', shown w r' -> shown w' r') /\
  (forall r p c n, layers w !! r = Some (Diff p) -> live w (Diff p) c -> exists w', Cap r n w = Ok (None, w') /\ shown w' r /\
    (forall s c', layers w' !! r = Some s -> live w' s c' -> (length c' <= cap_depth n)%nat) /\
    (forall r' s cs, layers w !! r' = Some s -> live w s cs -> cap_kept n p c cs -> shown w' r') /\ (forall r' s, layers w' !! r' = Some s -> Stale s w' = Ok false)).
Proof.
  intros [[rank Hi] _]%runs_ok. split.
  - intros r pr des acc stor (s & c & Es & Hl) Hfr Hsm. destruct (Update_ok rank w r pr s c des acc stor Hi Hfr Es Hl Hsm) as (w' & p & E & Hi' & Ely & Hlp & _ & Hold & _). exists w'. split; [done|]. split; [exists (Diff p), (p :: c); split; [rewrite Ely; apply lookup_insert_eq|done]|].
    intros r' (s' & c' & Es' & Hl'). exists s', c'. split; [|by apply Hold]. rewrite Ely, lookup_insert_ne; [done|]. intros <-. by apply (iv_tree _ _ Hi), (fresh_not_root _ _ _ _ Hfr) in Es'.
  - intros r p c n Er Hl. destruct (Cap_ok rank w r p c n Hi Er Hl) as (w' & E & _ & _ & H1 & H2 & H3 & H4). exists w'. split; [done|]. split; [done|]. split; [done|]. split; [|done]. intros r' s cs Er' Hs Hk. by apply (H3 r' s cs).
Qed.
End spec.

(** ** A run *)

(** A filter and a cache that keep everything they are given. *)
#[local] Instance exact_filter : BloomFilter := {| bloom := gset Z; bloom_New := ∅; bloom_Add x f := {[x]} ∪ f; bloom_Contains x f := bool_decide (x ∈ f) |}.
#[local] Instance exact_filter_spec : BloomSpec exact_filter.
Proof. split; cbn; [intros x f|intros x y f ?%bool_decide_eq_true]; apply bool_decide_eq_true; set_solver. Qed.
#[local] Instance whole_cache : FastCache :=
  {| fcache := gmap key bytes; fc_HasGet k c := c !! k; fc_Set k v c := if zlen v <? 2 ^ 16 then <[k := v]> c else delete k c; fc_Del k c := delete k c |}.
#[local] Instance whole_cache_spec : FastCacheSpec whole_cache.
Proof. refine {| kept_in := fun c => c |}; [done| |done]. intros k v c H. cbn. by rewrite (proj2 (Z.ltb_lt _ _) H). Defined.

Definition run_store : kvStore := mkStore {[1 := [1]; 2 := [2]]} {[(2, 7) := [9]]} (Some 100) ∅.
Definition run_blocks : list (Hash * Hash * gset Hash * gmap Hash bytes * gmap Hash (gmap Hash bytes)) :=
  [(200, 100, ∅, {[1 := [11]]}, {[1 := {[5 := [5]]}]});
   (300, 200, {[2]}, {[3 := [3]]}, {[1 := {[6 := [6]]}]});
   (400, 300, ∅, {[1 := [12]]}, {[1 := {[5 := []]}]})].
Definition after {A : Type} (x : res (A * Tree)) : Tree := match x with Ok (_, w) => w | _ => new_tree 0 run_store end.
Definition run_tree (i : nat) : Tree := fold_left (fun w '(r, pr, des, acc, stor) => after (Update 0 8 16 r pr des acc stor w)) (take i run_blocks) (new_tree 100 run_store).
Definition returns {A : Type} (x : res (option A * Tree)) : bool := match x with Ok (None, _) => true | _ => false end.
Lemma returns_ok {A : Type} (x : res (option A * Tree)) : returns x = true -> x = Ok (None, after x).
Proof. by destruct x as [[[a|] w]| |]. Qed.
Definition run_capped : Tree := after (Cap 0 8 16 400 1 (run_tree 3)).

Example run_cap : (layers run_capped, snapshotRoot (db run_capped)) = ({[100 := Disk 0; 300 := Diff 7; 400 := Diff 6]}, Some 100).
Proof. vm_compute. reflexivity. Qed.

(** Deciding whether a layer is alive. *)
Fixpoint live_chain (fuel : nat) (s : layer) (w : Tree) : option (list nat) :=
  match fuel, s with
  | _, Disk p => d ← disks w !! p; if d_stale d then None else Some []
  | S fuel, Diff p => l ← diffs w !! p; if stale l then None else c ← live_chain fuel (parent l) w; Some (p :: c)
  | O, Diff _ => None
  end.

Lemma live_chain_ok fuel : forall s w c, live_chain fuel s w = Some c -> live w s c.
Proof.
  induction fuel as [|fuel IH]; intros [p|p] w c; cbn; intros E; try done.
  1,2: destruct (disks w !! p) as [d|] eqn:Ed; [|done]; cbn in E; destruct (d_stale d) eqn:Es; [done|]; injection E as <-; by econstructor.
  destruct (diffs w !! p) as [l|] eqn:El; [|done]. cbn in E. destruct (stale l) eqn:Es; [done|]. destruct (live_chain fuel (parent l) w) as [c'|] eqn:Ec; [|done]. cbn in E. injection E as <-. econstructor; [done|done|by apply IH].
Qed.

Lemma shown_ok w r c : (s ← layers w !! r; live_chain (next w) s w) = Some c -> shown w r.
Proof. destruct (layers w !! r) as [s|] eqn:E; [|done]. cbn. intros Hl%live_chain_ok. by exists s, c. Qed.

Lemma fresh_root_ok w r : bool_decide (map_Forall (fun _ l => root l <> r) (diffs w) /\ map_Forall (fun _ d => d_root d <> r) (disks w)) = true -> fresh_root w r.
Proof. by intros [H1 H2]%bool_decide_eq_true. Qed.

Lemma small_changes_ok acc stor : bool_decide (map_Forall (fun _ v => zlen v < 2 ^ 16) acc /\ map_Forall (fun _ (m : gmap Hash bytes) => map_Forall (fun _ v => zlen v < 2 ^ 16) m) stor) = true -> small_changes acc stor.
Proof. intros [H1 H2]%bool_decide_eq_true. split; [exact H1|]. intros a m x v E. by apply (H2 a m E). Qed.

Lemma run_store_ok : disk_ok run_store.
Proof.
  split; [intros k v E; by apply (lookup_empty_Some k v) in E|]. assert (map_Forall (fun _ v => zlen v < 2 ^ 16) (accounts run_store)) as H1 by (apply (bool_decide_unpack _); by vm_compute).
  assert (map_Forall (fun _ v => zlen v < 2 ^ 16) (slots run_store)) as H2 by (apply (bool_decide_unpack _); by vm_compute). unfold small_blob, on_disk. intros [a|a x]; [destruct (accounts run_store !! a) eqn:E; [by apply (H1 a)|done]|]. destruct (slots run_store !! (a, x)) eqn:E; [by apply (H2 (a, x))|done].
Qed.

Definition state_200 : key -> bytes := apply_block (on_disk run_store) ∅ {[1 := [11]]} {[1 := {[5 := [5]]}]}.
Definition state_300 : key -> bytes := apply_block state_200 {[2]} {[3 := [3]]} {[1 := {[6 := [6]]}]}.
Definition state_400 : key -> bytes := apply_block state_300 ∅ {[1 := [12]]} {[1 := {[5 := []]}]}.
Definition run_known : gmap Hash (key -> bytes) := <[400 := state_400]> (<[300 := state_300]> (<[200 := state_200]> {[100 := on_disk run_store]})).

Lemma run_step r pr des acc stor known w st : runs 0 8 16 known w -> known !! pr = Some st -> (exists c, (s ← layers w !! pr; live_chain (next w) s w) = Some c) ->
  bool_decide (map_Forall (fun _ l => root l <> r) (diffs w) /\ map_Forall (fun _ d => d_root d <> r) (disks w)) = true -> small_changes acc stor -> Update 0 8 16 r pr des acc stor w = Ok (None, after (Update 0 8 16 r pr des acc stor w)) ->
  runs 0 8 16 (<[r := apply_block st des acc stor]> known) (after (Update 0 8 16 r pr des acc stor w)).
Proof. intros H1 H2 [c H3] H4 H5 H6. eapply runs_update; [exact H1|by eapply shown_ok|exact H2|by apply fresh_root_ok|exact H5|exact H6]. Qed.

Lemma run_runs : runs 0 8 16 run_known (run_tree 3).
Proof.
  unfold run_known. apply run_step; [apply run_step; [apply run_step; [apply runs_new, run_store_ok|apply lookup_singleton_eq| | | |]|apply lookup_insert_eq| | | |]|apply lookup_insert_eq| | | |].
  1,5,9: eexists; vm_compute; reflexivity.
  1,4,7: vm_compute; reflexivity.
  1,3,5: apply small_changes_ok; vm_compute; reflexivity.
  all: apply returns_ok; vm_compute; reflexivity.
Qed.

Lemma run_capped_runs : runs 0 8 16 run_known run_capped.
Proof. unfold run_capped. eapply (runs_cap 0 8 16 run_known (run_tree 3) 400 1); [apply run_runs| |apply returns_ok; vm_compute; reflexivity]. eapply shown_ok. vm_compute. reflexivity. Qed.

(** The layer of the last block over the two merged below it: a slot of the second
    block, and one of an account that the second block destroyed. *)
Lemma snapshot_layers_show_states_witness :
  (exists w', Storage 0 8 16 (Diff 6) 1 6 run_capped = Ok (inl [6], w')) /\ (exists w', Storage 0 8 16 (Diff 6) 2 7 run_capped = Ok (inl [], w')) /\ exists w', AccountRLP 0 8 16 (Diff 6) 1 run_capped = Ok (inl [12], w').
Proof.
  destruct (snapshot_layers_show_states 0 8 16 run_known run_capped 400 (Diff 6) [6; 7]%nat) as (st & Est & Ha & Hs); [apply run_capped_runs|vm_compute; reflexivity|apply (live_chain_ok 5); vm_compute; reflexivity|].
  unfold run_known in Est. rewrite lookup_insert_eq in Est. injection Est as <-. split; [|split].
  - destruct (Hs 1 6) as [w' E]. exists w'. rewrite E. by replace (state_400 (KSlot 1 6)) with ([6] : bytes) by (vm_compute; reflexivity).
  - destruct (Hs 2 7) as [w' E]. exists w'. rewrite E. by replace (state_400 (KSlot 2 7)) with ([] : bytes) by (vm_compute; reflexivity).
  - destruct (Ha 1) as [w' E]. exists w'. rewrite E. by replace (state_400 (KAcc 1)) with ([12] : bytes) by (vm_compute; reflexivity).
Defined.

(** Capping at one layer, and writing everything to the disk. *)
Lemma updates_and_caps_keep_layers_witness :
  (exists w', Cap 0 8 16 400 1 (run_tree 3) = Ok (None, w') /\ shown w' 400) /\ exists w', Cap 0 8 16 400 0 (run_tree 3) = Ok (None, w') /\ shown w' 400.
Proof.
  pose proof (updates_and_caps_keep_layers 0 8 16 run_known (run_tree 3) run_runs) as [_ H].
  split; [destruct (H 400 6%nat [6; 4; 2]%nat 1) as (w' & E & Hs & _)|destruct (H 400 6%nat [6; 4; 2]%nat 0) as (w' & E & Hs & _)]; try (exists w'; split; [exact E|exact Hs]).
  all: first [apply (live_chain_ok 5); vm_compute; reflexivity|vm_compute; reflexivity].
Defined.

(** A layer that was merged into the one below keeps its map of slots, which the merged
    layer now uses: the next merge writes a slot of a later block into it, and a reader
    that still holds the layer of the root 300, which is not marked as stale, finds the
    value of the root 400. *)
Definition alias_blocks : list (Hash * Hash * gset Hash * gmap Hash bytes * gmap Hash (gmap Hash bytes)) :=
  [(200, 100, ∅, {[1 := [11]]}, ∅); (300, 200, ∅, ∅, {[1 := {[5 := [5]]}]}); (400, 300, ∅, ∅, {[1 := {[5 := [6]]}]}); (500, 400, ∅, {[2 := [22]]}, ∅)].
Definition alias_tree : Tree := fold_left (fun w '(r, pr, des, acc, stor) => after (Update 0 8 16 r pr des acc stor w)) alias_blocks (new_tree 100 run_store).
Definition read (x : res ((bytes + SnapErr) * Tree)) : option (bytes + SnapErr) := match x with Ok (v, _) => Some v | _ => None end.

Example merged_slots_are_shared :
  let held := default (Disk 0) (layers alias_tree !! 300) in let w := after (Cap 0 8 16 400 1 alias_tree) in let w' := after (Cap 0 8 16 500 1 w) in
  (read (Storage 0 8 16 held 1 5 alias_tree), read (Storage 0 8 16 held 1 5 w), read (Storage 0 8 16 held 1 5 w')) = (Some (inl [5]), Some (inl [5]), Some (inl [6])).
Proof. vm_compute. reflexivity. Qed.

(** A second layer on top of a layer that was merged stays in the tree, although it
    links into a stale layer. *)
Example dead_siblings_stay :
  let w := after (Cap 0 8 16 400 1 (after (Update 0 8 16 401 300 ∅ {[3 := [33]]} ∅ (run_tree 3)))) in let sib := layers w !! 401 in
  (bool_decide (sib = None), match sib with Some s => (Stale s w, read (AccountRLP 0 8 16 s 1 w)) | None => (Ok true, None) end) = (false, (Ok false, Some (inr ErrSnapshotStale))).
Proof. vm_compute. reflexivity. Qed.
End SnapshotSpec.
